(* ===== verification/_CoqProject ===== *)
-Q . S2P
Prelude.v
Sdk.v
Message.v
MessageRules.v
CompileRules.v
Rent.v
Account.v
TransactionContext.v
AccountRules.v
InstructionRules.v
EpochSchedule.v
LogCollector.v
InvokeContext.v
InvokeRules.v
MessageProcessor.v
MessageProcessorRules.v
Nonce.v
SystemProgram.v
HeapRules.v
Effects.v
SystemProgramRules.v
LookupTable.v
LookupTableRules.v
RemoteLoader.v
AccountsCache.v
MigraterProgram.v
Codec.v
WireFormat.v
InstructionsSysvar.v
VoteState.v
VoteProcess.v
VoteRules.v
VoteUpdates.v
VoteHistory.v
VoteSync.v
VoteProgram.v
VoteControl.v
VoteTyped.v
VoteWire.v
ConfigProgram.v
Stake.v
StakeProgram.v
StakeRules.v
StakeWire.v
StakeControl.v
MerkleTree.v
Entry.v
EntryRules.v
PohRecorder.v
PohRecorderRules.v
CacheRules.v
Bank.v
HgNft.v
BankRules.v
ExecuteRules.v
Transactions.v
LookupTableRuns.v
VoteRuns.v
StakeRuns.v
ConfigRules.v
AccountLocks.v
BlockhashQueue.v
StatusCache.v
Admission.v
AdmissionRules.v
Fees.v
CostModel.v
CostRules.v
LoadAccounts.v
Commit.v
LoadRules.v
CommitRules.v
BatchRules.v
Replay.v
ReplayRules.v
Stakes.v
StakesRules.v
Rewards.v
RewardsRules.v
StakesRuns.v
