(* ===== verification/Prelude.v ===== *)
(** * HyperGrid grid coprocessor: a verification development

    HyperGrid runs grids: validators of their own, forked from the Solana validator, that
    execute transactions over accounts of their own and over copies of accounts of a
    base layer.  This library models the path of a transaction through a grid
    ([Base/grid_coprocessor] under [src]) and the NFT program on the base layer
    ([Base/sonic-nft-program]) as Rocq functions, and proves what the parts promise.
    Paths below are relative to [Base/grid_coprocessor].

    ** The parts, and how they interact

    A client compiles instructions into a message and signs it.  It reaches the
    bank as bytes.  The bank resolves the addresses that the message names
    through lookup tables, locks the accounts, checks the age and the status of the
    transaction, moves accounts between the base layer and its cache, loads the accounts,
    charges the fee, runs the instructions through the message processor and the
    programs, checks rent states and balances, posts the logged value of an NFT to the base
    layer, and commits: accounts, statuses, rent and fees.

    - Messages.  [Message] models [sdk/program/src/message/] (compilation, [sanitize],
      sanitized messages), [WireFormat] the bytes of messages and transactions
      ([short_vec.rs], [versions/mod.rs]), [MessageRules] and [CompileRules] their theory.
      [InstructionsSysvar] models [sysvar/instructions.rs].
    - Accounts.  [Account] models [sdk/src/account.rs] with the mark [remote] of HyperGrid,
      [Rent] the rent arithmetic with binary64 numbers, [TransactionContext]
      [sdk/src/transaction_context.rs]: a record of cells with a borrow flag, the
      instruction stack, and one definition per method of [BorrowedAccount].
      [AccountRules] states what a program may do to an account, and that the operations do
      no more; [InstructionRules] and [Effects] are the theory of one instruction.
    - Programs.  [InvokeContext] models [program-runtime/src/invoke_context.rs]; a
      program is a tree of actions and invocations, and [lawful] says that it reaches
      accounts through the handles it is given.  [LogCollector] and [HeapRules] hold the
      logs and the heap, [MessageProcessor] the loop over a message, [InvokeRules] and
      [MessageProcessorRules] what holds for all lawful programs.
    - Builtins.  [Nonce] and [SystemProgram] model [programs/system/src], [LookupTable]
      [programs/address-lookup-table/src] with the tables, the slot hashes, derived
      addresses and the lookup by the bank, [MigraterProgram] the program of HyperGrid;
      [ConfigProgram] models [programs/config/src], with [ConfigRules] as its theory;
      [Transactions] is the registry, with runs of whole transactions.
    - Votes.  [VoteState] models [sdk/program/src/vote/]: the tower of lockouts, credits, voters
      by epoch and the three stored versions; [VoteProcess] single votes and proposed towers
      ([programs/vote/src/vote_state/mod.rs]), [VoteProgram] the instructions
      ([vote_processor.rs]), [VoteWire] the bytes.  [VoteRules], [VoteUpdates],
      [VoteHistory], [VoteSync], [VoteControl] and [VoteTyped] are the
      theory; [VoteRuns] holds the specification of the program and its runs.
    - Stakes.  [Stake] models [sdk/program/src/stake/] (states, authorities and lockups, and how much of a delegation is
      effective at an epoch), [StakeProgram] the instructions of [programs/stake/src],
      [StakeWire] the bytes.  [StakeRules] is the theory of activation; [StakeControl] holds
      the specification of the program as effects on accounts and the proof that it has no
      others, [StakeRuns] the invariant that delegations are covered, the theorems and runs.
    - Epochs.  [Stakes] models the cache of vote and stake accounts of a bank
      ([vote/src/vote_account.rs], [runtime/src/stake_account.rs], [runtime/src/stakes.rs]) and the stakes that are
      kept for an epoch ([runtime/src/epoch_stakes.rs]), [Rewards] what delegations earn
      ([programs/stake/src/stake_state.rs], [sdk/src/inflation.rs]) and how [runtime/src/bank.rs] pays it, in one
      block or in partitions; [StakesRules] and [RewardsRules] are the theory, [StakesRuns] holds runs.
    - Blocks.  [MerkleTree] models [merkle-tree/src], [Entry] the hash chain and the
      entries of [entry/src] with their verification on one core, by vector code and on a
      device, [PohRecorder] the recorder of a leader ([poh/src/poh_recorder.rs]);
      [EntryRules] and [PohRecorderRules] are the theory.  [CostModel] models
      [cost-model/src], the service that charges it for the threads of a leader
      ([core/src/banking_stage/qos_service.rs]) and the charging and splitting of
      batches in replay ([ledger/src/blockstore_processor.rs]); [CostRules] is the theory.
      [Replay] models [process_entries] and [execute_batches_internal] of the same file: the
      entries of a block are locked in batches, the batches executed in groups by the bank of
      [Commit] and the ticks registered between them; [ReplayRules] is its theory.
    - The base layer.  [RemoteLoader] models [accounts-db/src/remote_loader.rs],
      [AccountsCache] the write cache behind which it sits, [HgNft] the NFT
      program, [Bank] the execution of a loaded transaction and the two hooks of HyperGrid
      in [runtime/src/bank.rs]; [CacheRules], [BankRules] and [ExecuteRules] are the theory.
    - Batches.  [AccountLocks], [BlockhashQueue], [StatusCache], [Admission], [Fees],
      [EpochSchedule], [LoadAccounts] and [Commit] model what the bank
      does around execution ([accounts-db/src/accounts.rs], [blockhash_queue.rs],
      [rent_collector.rs], [runtime/src/status_cache.rs], [runtime/src/accounts/mod.rs],
      [runtime/src/bank.rs], [sdk/src/fee.rs], [sdk/program/src/epoch_schedule.rs],
      [stake_history.rs]).
      [AdmissionRules], [LoadRules], [CommitRules] and [BatchRules] are the theory.
    - [Prelude] holds the outcome type, the monad of stateful fallible code, integers and
      the frame automation; [Sdk] keys, errors and the interfaces of libraries; [Codec] a
      [bincode] for the types of the programs.

    ** How the code is modelled

    Unsigned integers are [N], with wrapping, saturating and checked operations written
    out at their width.  A fallible function returns [result]; [Panic] is a panic.  A
    function that mutates state keeps the state it has reached on the error paths.  Hash
    maps are [gmap]; a [RefCell] is a value and a flag.  Code that is not in the repository
    is a class or an argument: SHA-256, [bincode], Borsh, Anchor's dispatch, base 58, a
    regular expression, the test for points of the curve, and the RPC node of the base layer
    (the record [BaseLayer]), the vector code and the device that verify hashes
    (the record [Machine]), the schedule of leaders, the slots at which features became active,
    the order in which a thread pool takes the batches of a group in replay, the power function
    of floats and the keyed hash that sorts rewards into partitions.  A theorem that relies on a law of such code
    names it ([BincodeLaws]), and its witness uses a concrete instance.

    ** What the theorems show

    - Lamports: a batch from its locks to its commit keeps the sum of all accounts, fees and
      rent ([batch_conserves_lamports]); a transaction never ends unbalanced, and keeps what
      it may not change ([ExecuteRules], [Transactions]).
    - Order: no transaction runs twice, in one batch or in two ([no_replay]), conflicting ones never hold their
      locks together ([account_locks_exclusive]), block hashes expire as promised.
    - Votes: the program keeps its accounts well-typed ([vote_program_keeps_types]), does what
      its specification says ([vote_program_follows_spec]) and guards its accounts; proposed
      towers never roll back, are accepted exactly if they are valid, and agree with single
      votes; a validator that keeps voting roots its votes ([vote_is_rooted]); states fit
      their accounts and compact towers are read back.
    - Stakes: every instruction has an effect of the specification
      ([stake_program_follows_spec]), stakes stay backed by lamports ([stake_stays_backed])
      and their status is computed and within bounds at every epoch ([stake_status_bounds]); config
      accounts change only with the signatures they ask for ([config_update_authorized]).
    - Epochs: the cache of stakes follows the accounts and gives every validator the effective
      stake of its delegations ([stake_cache_exact], [epoch_stakes_exact]); rewards paid in
      one block pass every assertion, also against the partitioned calculation, and keep the
      capitalization equal to the lamports of the accounts ([rewards_accounted]).  Of the payment of
      partitions over the blocks that follow, the definitions are given and no theorem.
    - Blocks: what a leader records is accepted by every verifier, whatever the order of
      events ([leader_block_accepted], [entry_verifiers_agree]); its costs are accounted for
      under every interleaving of its threads ([block_costs_accounted]), and replay charges and executes the
      same transactions ([replay_accepts_block]), in the order of the block, with no two
      conflicting batches in one group and no lock left, up to the first transaction that is
      not executed or cannot pay ([replay_in_order]); paths in Merkle trees prove membership.
    - Privileges: operations on accounts follow the account rules; invocations change only
      what they were passed, grant nothing, and end.
    - Messages and bytes: compilation is faithful and total in its range, encodings are
      read back, lengths have one spelling, the sysvar gives back the instructions.
    - Lookup tables: resolved addresses are stable ([resolved_addresses_stable]) and a table
      is closed only when nothing is resolved through it ([closed_only_when_deactivated]).
    - The base layer: migrated accounts are loaded, served and marked; the cache counts
      its bytes; what is posted was logged, and the NFT program stores it.
    - Faults: theorems that exhibit behaviour the code does not mean to have (a failed
      transaction still posts, a deactivated copy is still served, a self-referential
      account is loaded without end, an account index is truncated, a rescinded deactivation
      leaves a stake without its lamports, the config program looks its signers up by position);
      the theorem on Merkle
      paths shows that a tree with one leaf accepts every hash, the one on costs by how much
      a block can pass its limit.

    ** Fuel

    [process_instruction] takes one level of fuel per level of invocation; the theorem
    [invocation_depth_bounded] shows that the free capacity of the instruction stack is
    enough.  The load of a chain of program data takes fuel, and [load_account_spec] asks
    for as much as the chain is long; without an end of the chain there is none
    ([self_referential_load_diverges]).  Some loops take the most steps that their input
    allows: eight hexadecimal digits for 32 bits, three bytes for a length of 16 bits, and
    one chunk per byte of a buffer.  The loops over votes and slot hashes take one step per
    vote and slot, a variable-length integer ten groups of seven bits, a Merkle tree one
    level per leaf and one more, and the loop of the recorder three rounds, after which it returns
    ([record_loop] panics without fuel, and [leader_block_accepted] shows that it does not).
    An entry in replay is locked in two rounds ([lock_entry] panics without fuel, and
    [replay_in_order] shows that it does not).  The loops over the epochs of a stake take one
    step per entry of the stake history and panic without fuel; [stake_status_bounds] shows that
    they do not.  Every other function is structural.

    ** Not modelled

    The loaders and the virtual machine (a
    deployed program is any lawful tree), proofs of zero knowledge, the storage and the
    index of the accounts database (a map here), the activation of features,
    snapshots and forks of banks beyond one fork, the schedulers, fork choice, shreds and the ledger
    on disk, network and RPC services.  Timings, metrics and error counters are left out
    everywhere.  Operations run one after the other: locks are modelled as the table they
    guard; the threads of a leader are modelled where they share the cost tracker and the
    recorder. *)

From stdpp Require Export base gmap sets list strings pretty numbers.

#[export] Set Default Goal Selector "!".
Global Open Scope N_scope.

(** ** Outcomes of Rust code

    [Ok]/[Err] are the two constructors of [std::result::Result]; [Panic] is an
    [unwrap] of nothing, an out-of-range index or an explicit [panic!]. *)
Inductive result (E A : Type) : Type :=
| Ok (a : A)
| Err (e : E)
| Panic.
Arguments Ok {E A} a.
Arguments Err {E A} e.
Arguments Panic {E A}.

#[export] Instance result_eq_dec {E A} `{EqDecision E, EqDecision A} :
  EqDecision (result E A).
Proof. solve_decision. Defined.

Definition is_ok {E A} (r : result E A) : bool :=
  match r with Ok _ => true | _ => false end.

Definition rbind {E A B} (r : result E A) (f : A → result E B) : result E B :=
  match r with Ok a => f a | Err e => Err e | Panic => Panic end.

Definition rmap {E A B} (f : A → B) (r : result E A) : result E B :=
  rbind r (λ a, Ok (f a)).

(** [Result::map_err(|_| e)] *)
Definition map_err {E E' A} (e : E') (r : result E A) : result E' A :=
  match r with Ok a => Ok a | Err _ => Err e | Panic => Panic end.

(** [Option::ok_or] *)
Definition ok_or {E A} (o : option A) (e : E) : result E A :=
  match o with Some a => Ok a | None => Err e end.

(** [Option::unwrap] *)
Definition unwrap {E A} (o : option A) : result E A :=
  match o with Some a => Ok a | None => Panic end.

(** [Result::unwrap_or_default] on a boolean result *)
Definition unwrap_or_default {E} (r : result E bool) : bool :=
  match r with Ok b => b | _ => false end.

(** ** Stateful fallible code

    A function that mutates a state of type [S] and may fail with an error of
    type [E].  The state reached is kept on the error paths: Rust mutation is
    not rolled back by [?]. *)
Definition M (S E A : Type) : Type := S → result E A * S.

Section monad.
Context {S E : Type}.

Definition ret {A} (a : A) : M S E A := λ s, (Ok a, s).
Definition throw {A} (e : E) : M S E A := λ s, (Err e, s).
Definition lift {A} (r : result E A) : M S E A := λ s, (r, s).
(** a read of the state that may fail *)
Definition asks {A} (f : S → result E A) : M S E A := λ s, (f s, s).
Definition gets {A} (f : S → A) : M S E A := λ s, (Ok (f s), s).
Definition modify (f : S → S) : M S E unit := λ s, (Ok tt, f s).

Definition bind {A B} (m : M S E A) (f : A → M S E B) : M S E B := λ s,
  match m s with
  | (Ok a, s') => f a s'
  | (Err e, s') => (Err e, s')
  | (Panic, s') => (Panic, s')
  end.

(** [let r = m;] without [?]: the outcome becomes a value *)
Definition observe {A} (m : M S E A) : M S E (result E A) := λ s,
  match m s with
  | (Panic, s') => (Panic, s')
  | (r, s') => (Ok r, s')
  end.

(** A panic unwinds out of the code and ends its thread: nothing observes the
    state after it, and the model keeps the one before. *)
Definition unwinding {A} (m : M S E A) : M S E A := λ s,
  match m s with
  | (Panic, _) => (Panic, s)
  | x => x
  end.

(** [for x in l { f(x)? }] *)
Fixpoint for_each {A} (l : list A) (f : A → M S E unit) : M S E unit :=
  match l with
  | [] => ret tt
  | x :: l' => bind (f x) (λ _, for_each l' f)
  end.
End monad.

Declare Scope code_scope.
Delimit Scope code_scope with code.
Notation "x <- m ;; k" := (bind m (λ x, k))
  (at level 100, m at next level, right associativity) : code_scope.
Notation "m ;; k" := (bind m (λ _, k))
  (at level 100, right associativity) : code_scope.
Notation "'let!' x ':=' r 'in' k" := (rbind r (λ x, k))
  (at level 10, x name, r at level 100, k at level 200) : code_scope.
Notation "'check!' r 'in' k" := (rbind r (λ _, k))
  (at level 10, r at level 100, k at level 200) : code_scope.
Global Open Scope code_scope.

(** ** Machine integers

    Unsigned integers are [N], signed ones [Z]; each operation writes out its
    width. *)
Definition u8_max : N := 255.
Definition u16_max : N := 65535.
Definition u32_max : N := 4294967295.
Definition u64_max : N := 18446744073709551615.
Definition u128_max : N := 340282366920938463463374607431768211455.
Definition i64_min : Z := (-9223372036854775808)%Z.
Definition i64_max : Z := 9223372036854775807%Z.

Definition as_u8 (n : N) : N := n `mod` 256.
Definition as_u16 (n : N) : N := n `mod` 65536.
Definition as_u32 (n : N) : N := n `mod` 4294967296.
Definition as_u64 (n : N) : N := n `mod` 18446744073709551616.
(** [to_le_bytes] of an integer of [n] bytes *)
Fixpoint le_bytes (n : nat) (z : N) : list N :=
  match n with O => [] | S n' => as_u8 z :: le_bytes n' (N.shiftr z 8) end.

Definition checked_add (max a b : N) : option N :=
  if a + b <=? max then Some (a + b) else None.
Definition checked_sub (a b : N) : option N :=
  if b <=? a then Some (a - b) else None.
Definition checked_mul (max a b : N) : option N := if a * b <=? max then Some (a * b) else None.
Definition saturating_add (max a b : N) : N := N.min max (a + b).
Definition saturating_sub (a b : N) : N := a - b.
Definition wrapping_add (a b : N) : N := as_u64 (a + b).
Definition wrapping_sub (a b : N) : N := as_u64 (a + (18446744073709551616 - as_u64 b)).
Definition wrapping_mul (a b : N) : N := as_u64 (a * b).

Definition saturate_i64 (z : Z) : Z := Z.max i64_min (Z.min i64_max z).
Definition i64_saturating_add (a b : Z) : Z := saturate_i64 (a + b).
Definition i64_saturating_sub (a b : Z) : Z := saturate_i64 (a - b).
(** [n as i64] for an unsigned 64-bit [n] *)
Definition as_i64 (n : N) : Z :=
  if n <=? 9223372036854775807 then Z.of_N n else (Z.of_N n - 18446744073709551616)%Z.

Lemma wrapping_add_small a b : a + b ≤ u64_max → wrapping_add a b = a + b.
Proof. intros Hab. unfold wrapping_add, as_u64. apply N.mod_small. unfold u64_max in *. lia. Qed.
Lemma checked_add_Some max a b c :
  checked_add max a b = Some c ↔ c = a + b ∧ a + b ≤ max.
Proof. unfold checked_add. destruct (N.leb_spec (a + b) max); split; intros; simplify_eq; destruct_and?; subst; auto; lia. Qed.

Lemma checked_sub_Some a b c :
  checked_sub a b = Some c ↔ c = a - b ∧ b ≤ a.
Proof. unfold checked_sub. destruct (N.leb_spec b a); split; intros; simplify_eq; destruct_and?; subst; auto; lia. Qed.

(** ** Lists indexed by machine integers *)
Definition len {A} (l : list A) : N := N.of_nat (length l).
Definition getN {A} (l : list A) (i : N) : option A := l !! N.to_nat i.
Definition setN {A} (l : list A) (i : N) (x : A) : list A := <[N.to_nat i := x]> l.

(** [Iterator::position] *)
Fixpoint position {A} (p : A → bool) (l : list A) : option N :=
  match l with
  | [] => None
  | x :: l' => if p x then Some 0 else N.succ <$> position p l'
  end.

(** [Iterator::rposition] *)
Fixpoint rposition {A} (p : A → bool) (l : list A) : option N :=
  match l with
  | [] => None
  | x :: l' =>
      match rposition p l' with
      | Some i => Some (N.succ i)
      | None => if p x then Some 0 else None
      end
  end.

Lemma position_Some {A} (p : A → bool) l i :
  position p l = Some i →
  ∃ x, getN l i = Some x ∧ p x = true ∧
       ∀ j y, j < i → getN l j = Some y → p y = false.
Proof.
  revert i. induction l as [|x l IH]; intros i; simpl; [done|].
  destruct (p x) eqn:Hp.
  - intros [= <-]. exists x. split_and!; [done..|]. intros. lia.
  - intros (i' & Hi' & ->)%fmap_Some. destruct (IH _ Hi') as (y & Hy & Hpy & Hlt).
    exists y. unfold getN in *. rewrite N2Nat.inj_succ. split_and!; [done..|].
    intros j z Hj. destruct (N.to_nat j) as [|j'] eqn:Ej; simpl; [congruence|].
    intros Hz. apply (Hlt (N.of_nat j')); [lia|]. by rewrite Nat2N.id.
Qed.

Lemma position_None {A} (p : A → bool) l :
  position p l = None → ∀ x, x ∈ l → p x = false.
Proof.
  induction l as [|x l IH]; simpl; [intros _ ? []%not_elem_of_nil|].
  destruct (p x) eqn:Hp; [done|]. intros ?%fmap_None y [->|?]%elem_of_cons; auto.
Qed.

Lemma getN_lt {A} (l : list A) i x : getN l i = Some x → i < len l.
Proof. unfold getN, len. intros ?%lookup_lt_Some. lia. Qed.

Lemma getN_elem {A} (l : list A) i x : getN l i = Some x → x ∈ l.
Proof. apply list_elem_of_lookup_2. Qed.

Lemma len_app {A} (l1 l2 : list A) : len (l1 ++ l2) = len l1 + len l2.
Proof. unfold len. rewrite length_app. lia. Qed.

Lemma getN_app_cases {A} (l1 l2 : list A) i x :
  getN (l1 ++ l2) i = Some x →
  (i < len l1 ∧ getN l1 i = Some x) ∨ (len l1 ≤ i ∧ getN l2 (i - len l1) = Some x).
Proof.
  unfold getN, len. intros [H|[? H]]%lookup_app_Some.
  - left. split; [|done]. apply lookup_lt_Some in H. lia.
  - right. split; [lia|]. by replace (N.to_nat (i - N.of_nat (length l1))) with
      (N.to_nat i - length l1)%nat by lia.
Qed.

Lemma position_lt {A} (p : A → bool) l i : position p l = Some i → i < len l.
Proof. intros (x & Hx & _)%position_Some. by eapply getN_lt. Qed.

(** ** The binary search of the standard library *)

(** the interval that is left halves; [inl] the index of a match, [inr] where one belongs *)
Fixpoint binary_search_loop {A} (f : A → comparison) (l : list A) (fuel left right : nat) : nat + nat :=
  match fuel with
  | O => inr left
  | S fuel =>
      if (left <? right)%nat then
        let mid := (left + (right - left) / 2)%nat in
        match f <$> l !! mid with
        | Some Lt => binary_search_loop f l fuel (S mid) right
        | Some Gt => binary_search_loop f l fuel left mid
        | Some Eq => inl mid
        | None => inr left
        end
      else inr left
  end.
Definition binary_search_by {A} (f : A → comparison) (l : list A) : N + N :=
  match binary_search_loop f l (S (length l)) 0 (length l) with
  | inl i => inl (N.of_nat i) | inr i => inr (N.of_nat i)
  end.
(** entries before a smaller one are smaller, entries after a greater one are greater *)
Definition search_sorted {A} (f : A → comparison) (l : list A) : Prop :=
  ∀ i j x y, (i < j)%nat → l !! i = Some x → l !! j = Some y →
    (f y = Lt → f x = Lt) ∧ (f x = Gt → f y = Gt).
Lemma binary_search_loop_spec {A} (f : A → comparison) l fuel : ∀ left right,
  search_sorted f l → (left ≤ right ≤ length l)%nat → (right - left < fuel)%nat →
  (∀ i x, l !! i = Some x → (i < left)%nat → f x = Lt) → (∀ i x, l !! i = Some x → (right ≤ i)%nat → f x = Gt) →
  match binary_search_loop f l fuel left right with
  | inl i => ∃ x, l !! i = Some x ∧ f x = Eq
  | inr i => (i ≤ length l)%nat ∧ ∀ j x, l !! j = Some x → f x = if (j <? i)%nat then Lt else Gt
  end.
Proof.
  induction fuel as [|fuel IH]; intros left right Hs Hlr Hf Hl Hr; [lia|]. cbn [binary_search_loop].
  destruct (Nat.ltb_spec left right) as [Hlt|Hge].
  2:{ split; [lia|]. intros j x Hx. destruct (Nat.ltb_spec j left); [eauto|]. eapply Hr; [done|lia]. }
  set (mid := (left + (right - left) / 2)%nat).
  assert (left ≤ mid < right)%nat as Hmid.
  { pose proof (Nat.div_lt (right - left) 2 ltac:(lia) ltac:(lia)). unfold mid. lia. }
  destruct (l !! mid) as [x|] eqn:Hx; [|apply lookup_ge_None in Hx; lia]. cbn [fmap option_fmap option_map].
  destruct (f x) eqn:Hfx.
  - eauto.
  - apply IH; [done|lia|lia| |done]. intros i y Hy Hi. destruct (decide (i = mid)) as [->|Hne]; [by simplify_eq|].
    by apply (proj1 (Hs i mid y x ltac:(lia) Hy Hx)).
  - apply IH; [done|lia|lia|done|]. intros i y Hy Hi. destruct (decide (i = mid)) as [->|Hne]; [by simplify_eq|].
    by apply (proj2 (Hs mid i x y ltac:(lia) Hx Hy)).
Qed.
(** on a sorted list the search finds what is there *)
Lemma binary_search_found {A} (f : A → comparison) l : search_sorted f l →
  match binary_search_by f l with
  | inl i => ∃ x, getN l i = Some x ∧ f x = Eq
  | inr _ => ∀ x, x ∈ l → f x ≠ Eq
  end.
Proof.
  intros Hs. unfold binary_search_by.
  pose proof (binary_search_loop_spec f l (S (length l)) 0 (length l) Hs ltac:(lia) ltac:(lia)) as Hspec.
  destruct (binary_search_loop _ _ _ _ _) as [i|i].
  - unfold getN. rewrite Nat2N.id. apply Hspec; [lia|]. intros j x Hx%lookup_lt_Some. lia.
  - intros x [j Hj]%list_elem_of_lookup. destruct Hspec as [_ Hall]; [lia|intros ? ? Hx%lookup_lt_Some; lia|].
    rewrite (Hall j x Hj). by destruct (_ <? _)%nat.
Qed.

(** ** Running stateful code symbolically *)
Section run.
Context {S E : Type}.
Implicit Types s : S.

Lemma bind_ok {A B} (m : M S E A) (f : A → M S E B) s a s' :
  m s = (Ok a, s') → bind m f s = f a s'.
Proof. intros H. unfold bind. by rewrite H. Qed.
Lemma bind_err {A B} (m : M S E A) (f : A → M S E B) s e s' :
  m s = (Err e, s') → bind m f s = (Err e, s').
Proof. intros H. unfold bind. by rewrite H. Qed.
Lemma bind_panic {A B} (m : M S E A) (f : A → M S E B) s s' :
  m s = (Panic, s') → bind m f s = (Panic, s').
Proof. intros H. unfold bind. by rewrite H. Qed.
Lemma bind_assoc {A B C} (m : M S E A) (f : A → M S E B) (g : B → M S E C) s :
  bind (bind m f) g s = bind m (λ x, bind (f x) g) s.
Proof. unfold bind. by destruct (m s) as [[]]. Qed.
Lemma bind_Ok_inv {A B} (m : M S E A) (f : A → M S E B) s b s' :
  bind m f s = (Ok b, s') → ∃ a s1, m s = (Ok a, s1) ∧ f a s1 = (Ok b, s').
Proof. unfold bind. destruct (m s) as [[]]; naive_solver. Qed.
Lemma lift_Ok_inv {A} (r : result E A) s a s' :
  lift r s = (Ok a, s') → r = Ok a ∧ s' = s.
Proof. unfold lift. naive_solver. Qed.
End run.

(** One step of a run of [m s] that occurs in the goal. *)
Ltac mstep :=
  match goal with
  | |- context [bind (bind ?m ?f) ?g ?s] => rewrite (bind_assoc m f g s)
  | |- context [bind (gets ?g) ?k ?s] => change (bind (gets g) k s) with (k (g s) s); cbv beta
  | |- context [bind (modify ?g) ?k ?s] => change (bind (modify g) k s) with (k tt (g s)); cbv beta
  | |- context [bind (ret ?a) ?k ?s] => change (bind (ret a) k s) with (k a s); cbv beta
  | |- context [bind (throw ?e) ?k ?s] => rewrite (bind_err (throw e) k s e s eq_refl)
  | |- context [bind (lift (Ok ?a)) ?k ?s] => change (bind (lift (Ok a)) k s) with (k a s); cbv beta
  | |- context [bind (lift (Err ?e)) ?k ?s] => rewrite (bind_err (lift (Err e)) k s e s eq_refl)
  | |- context [bind (lift Panic) ?k ?s] => rewrite (bind_panic (lift Panic) k s s eq_refl)
  | |- context [bind (lift ?r) ?k ?s] => destruct r eqn:?
  | |- context [bind (asks ?g) ?k ?s] => change (bind (asks g) k s) with (bind (lift (g s)) k s); cbv beta
  | |- context [bind (if ?b then _ else _) _ _] => destruct b eqn:?
  | |- context [bind (let _ := _ in _) _ _] => cbv zeta
  | |- context [(if ?b then _ else _) _] => destruct b eqn:?
  | |- context [(let _ := _ in _) _] => cbv zeta
  end.

(** ** Frame conditions

    [steps_in P R m]: from a state that satisfies [P], whatever the outcome of
    [m], the state it leaves is related to the initial one by [R]. *)
Definition steps_in {S E A} (P : S → Prop) (R : S → S → Prop) (m : M S E A) : Prop :=
  ∀ s, P s → R s (m s).2.

(** What a pair of a precondition and a relation needs to compose. *)
Class StableFrame {S} (P : S → Prop) (R : S → S → Prop) := {
  frame_refl : ∀ s, P s → R s s;
  frame_trans : ∀ s1 s2 s3, R s1 s2 → R s2 s3 → R s1 s3;
  frame_stable : ∀ s s', P s → R s s' → P s' }.

Create HintDb frame.

Section steps.
Context {S E : Type} (P : S → Prop) (R : S → S → Prop) `{!StableFrame P R}.

Lemma steps_pure {A} (f : S → result E A) : steps_in P R (λ s, (f s, s)).
Proof. intros s Hs. by apply frame_refl. Qed.

Lemma steps_modify (f : S → S) : (∀ s, P s → R s (f s)) → steps_in P R (modify (E:=E) f).
Proof. intros H s Hs. by apply H. Qed.

Lemma steps_bind {A B} (m : M S E A) (f : A → M S E B) :
  steps_in P R m → (∀ a, steps_in P R (f a)) → steps_in P R (bind m f).
Proof.
  intros Hm Hf s Hs. unfold bind. specialize (Hm s Hs).
  destruct (m s) as [[a|e|] s']; simpl in *; [|done..].
  eapply frame_trans; [exact Hm|]. apply Hf. by eapply frame_stable.
Qed.

(** the continuation may use what the first part read in the same state *)
Lemma steps_bind_asks {A B} (g : S → result E A) (f : A → M S E B) :
  (∀ s, P s → ∀ a, g s = Ok a → R s (f a s).2) → steps_in P R (bind (asks g) f).
Proof.
  intros H s Hs. unfold bind, asks.
  destruct (g s) eqn:Hg; simpl; [by apply H|by apply frame_refl..].
Qed.

Lemma steps_observe {A} (m : M S E A) : steps_in P R m → steps_in P R (observe m).
Proof.
  intros Hm s Hs. specialize (Hm s Hs). unfold observe. by destruct (m s) as [[]].
Qed.

Lemma steps_for_each {A} (l : list A) (f : A → M S E unit) :
  (∀ x, x ∈ l → steps_in P R (f x)) → steps_in P R (for_each l f).
Proof.
  induction l as [|x l IH]; simpl; intros H; [apply steps_pure|].
  apply steps_bind; [apply H; by left|]. intros _. apply IH. intros. apply H. by right.
Qed.

Lemma for_each_Ok_inv {A} (l : list A) (f : A → M S E unit) : ∀ s s',
  P s → (∀ x, x ∈ l → steps_in P R (f x)) → for_each l f s = (Ok tt, s') →
  ∀ x, x ∈ l → ∃ s1 s2, R s s1 ∧ f x s1 = (Ok tt, s2).
Proof.
  induction l as [|y l IH]; intros s s' Hs Hf Hrun x Hx; [by apply elem_of_nil in Hx|].
  simpl in Hrun. unfold bind in Hrun. pose proof (Hf y ltac:(by left) s Hs) as Hy.
  destruct (f y s) as [[[]| |] s1] eqn:Efy; [|done..]. simpl in Hy.
  apply elem_of_cons in Hx as [->|Hx].
  - exists s, s1. split; [by apply frame_refl|done].
  - destruct (IH s1 s') with (x:=x) as (s2 & s3 & H1 & H2); auto.
    + by eapply frame_stable.
    + intros z Hz. apply Hf. by right.
    + exists s2, s3. split; [by eapply frame_trans|done].
Qed.

Lemma steps_if {A} (b : bool) (m1 m2 : M S E A) :
  (b = true → steps_in P R m1) → (b = false → steps_in P R m2) →
  steps_in P R (if b then m1 else m2).
Proof. destruct b; auto. Qed.
End steps.

#[export] Hint Extern 1 (steps_in _ _ (modify _)) => apply steps_modify : frame.
#[export] Hint Extern 1 (steps_in _ _ (ret _)) => apply steps_pure, _ : frame.
#[export] Hint Extern 1 (steps_in _ _ (throw _)) => apply steps_pure, _ : frame.
#[export] Hint Extern 1 (steps_in _ _ (lift _)) => apply steps_pure, _ : frame.
#[export] Hint Extern 1 (steps_in _ _ (asks _)) => apply steps_pure, _ : frame.
#[export] Hint Extern 1 (steps_in _ _ (gets _)) => apply steps_pure, _ : frame.

(** Decompose a frame goal along the program. *)
Ltac frame_step :=
  match goal with
  | |- steps_in _ _ (bind _ _) => apply steps_bind; [apply _| |intros ?]
  | |- steps_in _ _ (if ?b then _ else _) => apply steps_if; intros ?
  | |- steps_in _ _ (match ?x with _ => _ end) => destruct x eqn:?
  | |- steps_in _ _ (let _ := _ in _) => intro
  | |- steps_in _ _ (for_each _ _) => apply steps_for_each; [apply _|intros ? ?]
  | |- steps_in _ _ (observe _) => apply steps_observe
  | |- steps_in _ _ _ => solve [auto with frame]
  end.
Ltac frame_solve := repeat (frame_step || (cbv zeta; frame_step)); auto with frame.

(** ** Sums over maps *)
Section sums.
Context {K V : Type} `{Countable K} (f : V → N).

Definition map_sum (m : gmap K V) : N := map_fold (λ _ v acc, f v + acc) 0 m.

Lemma map_sum_empty : map_sum ∅ = 0.
Proof. apply map_fold_empty. Qed.
Lemma map_sum_insert_new k v m : m !! k = None → map_sum (<[k:=v]> m) = f v + map_sum m.
Proof. intros Hk. unfold map_sum. rewrite map_fold_insert_L; [done|intros; lia|done]. Qed.
Lemma map_sum_delete k v m : m !! k = Some v → map_sum m = f v + map_sum (delete k m).
Proof. intros Hk. unfold map_sum. by rewrite (map_fold_delete_L _ _ k v) by (intros; lia || done). Qed.
Lemma map_sum_insert k v old m :
  m !! k = Some old → map_sum (<[k:=v]> m) + f old = f v + map_sum m.
Proof.
  intros Hk. rewrite (map_sum_delete k old m Hk), (map_sum_delete k v) by apply lookup_insert_eq.
  rewrite delete_insert_eq. lia.
Qed.
End sums.
