(* ===== verification/Sdk.v ===== *)
(** * Shared types of the SDK

    Public keys and program ids ([sdk/program/src/pubkey.rs], the [declare_id!]
    lines), the error enums of [sdk/program/src/instruction.rs],
    [program_error.rs], [system_instruction.rs] and [sdk/src/transaction/error.rs],
    instructions and account metas, and the interfaces of the two libraries the
    sources call and do not contain: SHA-256 hashing and [bincode]. *)

From S2P Require Import Prelude.

(** ** Public keys and hashes: arrays of 32 bytes *)
Record Pubkey := mkPubkey { to_bytes : list N }.
Record Hash := mkHash { hash_bytes : list N }.

#[export] Instance Pubkey_eq_dec : EqDecision Pubkey.
Proof. solve_decision. Defined.
#[export] Instance Hash_eq_dec : EqDecision Hash.
Proof. solve_decision. Defined.
#[export] Instance Pubkey_countable : Countable Pubkey.
Proof. by refine (inj_countable' to_bytes mkPubkey _); intros []. Defined.

Definition key_eqb (a b : Pubkey) : bool := bool_decide (a = b).

Lemma key_eqb_true a b : key_eqb a b = true ↔ a = b.
Proof. apply bool_decide_eq_true. Qed.
Lemma key_eqb_false a b : key_eqb a b = false ↔ a ≠ b.
Proof. apply bool_decide_eq_false. Qed.
Lemma key_eqb_refl a : key_eqb a a = true.
Proof. by apply key_eqb_true. Qed.

(** Big-endian byte arrays, the reading a base-58 literal has. *)
Fixpoint be_bytes (n : nat) (z : N) : list N :=
  match n with
  | O => []
  | S n' => be_bytes n' (N.shiftr z 8) ++ [as_u8 z]
  end.
Definition pubkey_of_N (z : N) : Pubkey := mkPubkey (be_bytes 32 z).

Definition PUBKEY_BYTES : N := 32.
(** [Pubkey::default()] *)
Definition default_pubkey : Pubkey := mkPubkey (replicate 32 0).

Definition system_program_id : Pubkey := pubkey_of_N 0.
Definition native_loader_id : Pubkey :=
  pubkey_of_N 0x58784bf148ba4282fb012574888a9f153a07dadf765c0455c9a970380000000.
Definition bpf_loader_id : Pubkey :=
  pubkey_of_N 0x2a8f6914e88a16e395ae128948ffa695693376818dd47435221f3c600000000.
Definition bpf_loader_deprecated_id : Pubkey :=
  pubkey_of_N 0x2a8f6914e88a16bbd2395855f6404d9b4f456b7821bb0145749428c00000000.
Definition bpf_loader_upgradeable_id : Pubkey :=
  pubkey_of_N 0x2a8f6914e88a1b0e210153ef763ae2b00c2b93d16c124d2c0537a1004800000.
Definition loader_v4_id : Pubkey :=
  pubkey_of_N 0x512b4115151e37aad0a8bc5d3882e7b7fda4cf3d2c028c8cf83361800000000.
Definition sonic_account_migrater_id : Pubkey :=
  pubkey_of_N 0x69c6c814345d85b0514bdde85fc6a4361f5d47debd7e389f51f2b5a71800000.
Definition compute_budget_id : Pubkey :=
  pubkey_of_N 0x306466fe5211732ffecadba72c39be7bc8ce5bbc5f7126b2c439b3a40000000.
Definition incinerator_id : Pubkey :=
  pubkey_of_N 0x3390728d34116079bdc911bfff00dbd44d2ecdccf79ca6e10038e100000000.
Definition sysvar_instructions_id : Pubkey :=
  pubkey_of_N 0x6a7d517187bd16635dad40455fdc2c0c124c68f215675a5dbbacb5f08000000.
Definition sysvar_rent_id : Pubkey :=
  pubkey_of_N 0x6a7d517192c5c51218cc94c3d4af17f58daee089ba1fd44e3dbd98a00000000.
Definition sysvar_recent_blockhashes_id : Pubkey :=
  pubkey_of_N 0x6a7d517192c568ee08a845f73d29788cf035c3145b21ab344d8062ea9400000.
Definition sysvar_clock_id : Pubkey :=
  pubkey_of_N 0x6a7d51718c774c928566398691d5eb68b5eb8a39b4b6d5c73555b2100000000.
Definition sysvar_epoch_schedule_id : Pubkey :=
  pubkey_of_N 0x6a7d51718dc3fee02d3e47f0100f8b054f7942e60591e3f508719a805000000.
Definition sysvar_fees_id : Pubkey :=
  pubkey_of_N 0x6a7d51718e25a8d83503c251a7af07126fd7200df6fc4ed526a9c9000000000.
Definition sysvar_rewards_id : Pubkey :=
  pubkey_of_N 0x6a7d517192c6137cee092d9b6923ee1ccd61903fa82b8a16191578d80000000.
Definition sysvar_slot_hashes_id : Pubkey :=
  pubkey_of_N 0x6a7d517192f0aafc6f265e3fb77cc7ada82c529d0be3b136e2d005520000000.
Definition sysvar_slot_history_id : Pubkey :=
  pubkey_of_N 0x6a7d517192f0aafc875e2e184577c5069cfc84649e3eb92782f958d48000000.
Definition sysvar_stake_history_id : Pubkey :=
  pubkey_of_N 0x6a7d517193584d0feed9bb3431d13206be544281b57b8566cc5375ff4000000.
Definition config_program_id : Pubkey :=
  pubkey_of_N 0x3064aa3002f74dcc86e43310f0c052af8c5da27f6104019a323efa000000000.
Definition feature_program_id : Pubkey :=
  pubkey_of_N 0x3c0a0cdcb06d2daefae82d16fee7acf61ec737b23481b21946a767000000000.
Definition stake_program_id : Pubkey :=
  pubkey_of_N 0x6a1d8179137542a983437bdfe2a7ab2557f535c8a78722b68a49dc000000000.
Definition stake_config_id : Pubkey :=
  pubkey_of_N 0x6a1d817a502050b680791e6ce6db88e1e5b7150f61fc6790a4eb4d100000000.
Definition vote_program_id : Pubkey :=
  pubkey_of_N 0x761481d357474bb7c4d7624ebd3bdb3d8355e73d11043fc0da3538000000000.
Definition secp256k1_program_id : Pubkey :=
  pubkey_of_N 0x4c6fc20f050ccf05584d7211c9f8cf59ec14785bb166a1e2830e81220000000.
Definition ed25519_program_id : Pubkey :=
  pubkey_of_N 0x37d46d67c93fbbe12f9428f838d40ff0570744927f48a64fcca704480000000.
Definition hgnft_id : Pubkey :=
  pubkey_of_N 0x341ed90fc12c74c1ef86beb1334b9f0abfc34a2cdce04fd4e2cab76149c908cd.

(** ** Errors *)
Inductive InstructionError :=
| GenericError | InvalidArgument | InvalidInstructionData | InvalidAccountData
| AccountDataTooSmall | InsufficientFunds | IncorrectProgramId
| MissingRequiredSignature | AccountAlreadyInitialized | UninitializedAccount
| UnbalancedInstruction | ModifiedProgramId | ExternalAccountLamportSpend
| ExternalAccountDataModified | ReadonlyLamportChange | ReadonlyDataModified
| DuplicateAccountIndex | ExecutableModified | RentEpochModified
| NotEnoughAccountKeys | AccountDataSizeChanged | AccountNotExecutable
| AccountBorrowFailed | AccountBorrowOutstanding | DuplicateAccountOutOfSync
| Custom (code : N) | InvalidError | ExecutableDataModified
| ExecutableLamportChange | ExecutableAccountNotRentExempt | UnsupportedProgramId
| CallDepth | MissingAccount | ReentrancyNotAllowed | MaxSeedLengthExceeded
| InvalidSeeds | InvalidRealloc | ComputationalBudgetExceeded
| PrivilegeEscalation | ProgramEnvironmentSetupFailure | ProgramFailedToComplete
| ProgramFailedToCompile | Immutable | IncorrectAuthority
| BorshIoError (msg : string) | AccountNotRentExempt | InvalidAccountOwner
| ArithmeticOverflow | UnsupportedSysvar | IllegalOwner
| MaxAccountsDataAllocationsExceeded | MaxAccountsExceeded
| MaxInstructionTraceLengthExceeded | BuiltinProgramsMustConsumeComputeUnits.

#[export] Instance InstructionError_eq_dec : EqDecision InstructionError.
Proof. solve_decision. Defined.

Module LamportsError.
Inductive t := ArithmeticUnderflow | ArithmeticOverflow.
End LamportsError.

Module PubkeyError.
Inductive t := MaxSeedLengthExceeded | InvalidSeeds | IllegalOwner.
Definition to_u64 (e : t) : N :=
  match e with MaxSeedLengthExceeded => 0 | InvalidSeeds => 1 | IllegalOwner => 2 end.
End PubkeyError.

Module SystemError.
Inductive t :=
| AccountAlreadyInUse | ResultWithNegativeLamports | InvalidProgramId
| InvalidAccountDataLength | MaxSeedLengthExceeded | AddressWithSeedMismatch
| NonceNoRecentBlockhashes | NonceBlockhashNotExpired
| NonceUnexpectedBlockhashValue.
Definition to_u64 (e : t) : N :=
  match e with
  | AccountAlreadyInUse => 0 | ResultWithNegativeLamports => 1
  | InvalidProgramId => 2 | InvalidAccountDataLength => 3
  | MaxSeedLengthExceeded => 4 | AddressWithSeedMismatch => 5
  | NonceNoRecentBlockhashes => 6 | NonceBlockhashNotExpired => 7
  | NonceUnexpectedBlockhashValue => 8
  end.
End SystemError.

(** the builtin codes [to_builtin!(k)] are [k << 32] *)
Definition BUILTIN_BIT_SHIFT : N := 32.
Definition instruction_error_of_builtin (k : N) : option InstructionError :=
  match k with
  | 1 => Some (Custom 0) | 2 => Some InvalidArgument
  | 3 => Some InvalidInstructionData | 4 => Some InvalidAccountData
  | 5 => Some AccountDataTooSmall | 6 => Some InsufficientFunds
  | 7 => Some IncorrectProgramId | 8 => Some MissingRequiredSignature
  | 9 => Some AccountAlreadyInitialized | 10 => Some UninitializedAccount
  | 11 => Some NotEnoughAccountKeys | 12 => Some AccountBorrowFailed
  | 13 => Some MaxSeedLengthExceeded | 14 => Some InvalidSeeds
  | 15 => Some (BorshIoError "Unknown") | 16 => Some AccountNotRentExempt
  | 17 => Some UnsupportedSysvar | 18 => Some IllegalOwner
  | 19 => Some MaxAccountsDataAllocationsExceeded | 20 => Some InvalidRealloc
  | 21 => Some MaxInstructionTraceLengthExceeded
  | 22 => Some BuiltinProgramsMustConsumeComputeUnits
  | 23 => Some InvalidAccountOwner | 24 => Some ArithmeticOverflow
  | _ => None
  end.

(** [impl<T: ToPrimitive> From<T> for InstructionError], on [error.to_u64()] *)
Definition instruction_error_from (error : N) : InstructionError :=
  let upper := N.shiftr error BUILTIN_BIT_SHIFT in
  match
    (if N.shiftl upper BUILTIN_BIT_SHIFT =? error
     then instruction_error_of_builtin upper else None)
  with
  | Some e => e
  | None => if upper =? 0 then Custom (as_u32 error) else InvalidError
  end.

Definition system_error (e : SystemError.t) : InstructionError :=
  instruction_error_from (SystemError.to_u64 e).
Definition pubkey_error (e : PubkeyError.t) : InstructionError :=
  instruction_error_from (PubkeyError.to_u64 e).

(** the transaction-level errors the modelled code returns *)
Module TransactionError.
Inductive t :=
| AccountInUse | AccountLoadedTwice | AccountNotFound | ProgramAccountNotFound
| InsufficientFundsForFee | InvalidAccountForFee | AlreadyProcessed | BlockhashNotFound
| InstructionError (index : N) (err : Sdk.InstructionError)
| CallChainTooDeep | MissingSignatureForFee | InvalidAccountIndex | SignatureFailure
| InvalidProgramForExecution | SanitizeFailure | ClusterMaintenance | AccountBorrowOutstanding
| WouldExceedMaxBlockCostLimit | UnsupportedVersion | InvalidWritableAccount
| WouldExceedMaxAccountCostLimit | WouldExceedAccountDataBlockLimit | TooManyAccountLocks
| AddressLookupTableNotFound | InvalidAddressLookupTableOwner | InvalidAddressLookupTableData
| InvalidAddressLookupTableIndex | InvalidRentPayingAccount | WouldExceedMaxVoteCostLimit
| WouldExceedAccountDataTotalLimit
| DuplicateInstruction (index : N)
| InsufficientFundsForRent (account_index : N)
| MaxLoadedAccountsDataSizeExceeded | InvalidLoadedAccountsDataSizeLimit | ResanitizationNeeded
| ProgramExecutionTemporarilyRestricted (account_index : N)
| UnbalancedTransaction.
End TransactionError.

(** ** Instructions *)
Record AccountMeta := mkAccountMeta {
  meta_pubkey : Pubkey; meta_is_signer : bool; meta_is_writable : bool }.
Definition meta_new (pubkey : Pubkey) (is_signer : bool) : AccountMeta :=
  mkAccountMeta pubkey is_signer true.
Definition meta_new_readonly (pubkey : Pubkey) (is_signer : bool) : AccountMeta :=
  mkAccountMeta pubkey is_signer false.

Record Instruction := mkInstruction {
  ix_program_id : Pubkey; ix_accounts : list AccountMeta; ix_data : list N }.

Record CompiledInstruction := mkCompiledInstruction {
  program_id_index : N; ci_accounts : list N; ci_data : list N }.

(** ** Interfaces of libraries outside the sources *)

(** SHA-256 over a sequence of byte slices ([sdk/program/src/hash.rs] calls the
    crate [sha2]). *)
Class Sha256 := hashv : list (list N) → Hash.

(** [bincode], which reads a value from the front of a byte slice and ignores
    the bytes after it. *)
Class Bincode (T : Type) := {
  serialize : T → option (list N);
  deserialize : list N → option T }.
Class BincodeLaws (T : Type) `{Bincode T} :=
  deserialize_serialize : ∀ (t : T) bs rest,
    serialize t = Some bs → deserialize (bs ++ rest) = Some t.

(** The textual form of a key (crate [bs58]). *)
Class PubkeyDisplay := pubkey_to_string : Pubkey → string.

Definition PACKET_DATA_SIZE : N := 1232.

(** [limited_deserialize] of [sdk/program]: the reader refuses to consume more than the
    limit; a value is read when the first [limit] bytes hold it. *)
Definition program_limited_deserialize {T} `{Bincode T} (data : list N) (limit : N) :
  result InstructionError T :=
  ok_or (deserialize (take (N.to_nat limit) data)) InvalidInstructionData.
Definition limited_deserialize {T} `{Bincode T} (data : list N) : result InstructionError T :=
  program_limited_deserialize data PACKET_DATA_SIZE.

(** ** Derived addresses *)
Definition MAX_SEED_LEN : N := 32.
(** [b"ProgramDerivedAddress"] *)
Definition PDA_MARKER : list N :=
  [80; 114; 111; 103; 114; 97; 109; 68; 101; 114; 105; 118; 101; 100;
   65; 100; 100; 114; 101; 115; 115].

(** a [&str] is its UTF-8 bytes *)
Definition create_with_seed `{Sha256} (base : Pubkey) (seed : list N) (owner : Pubkey) :
  result PubkeyError.t Pubkey :=
  if MAX_SEED_LEN <? len seed then Err PubkeyError.MaxSeedLengthExceeded else
  let owner := to_bytes owner in
  if (len PDA_MARKER <=? len owner) &&
     bool_decide (drop (N.to_nat (len owner - len PDA_MARKER)) owner = PDA_MARKER)
  then Err PubkeyError.IllegalOwner else
  Ok (mkPubkey (hash_bytes (hashv [to_bytes base; seed; owner]))).

(** [?] on a [PubkeyError] in a function that returns [InstructionError] *)
Definition from_pubkey_error {A} (r : result PubkeyError.t A) : result InstructionError A :=
  match r with Ok a => Ok a | Err e => Err (pubkey_error e) | Panic => Panic end.
