(* ===== verification/Message.v ===== *)
(** * Transaction messages ([sdk/program/src/message/])

    Legacy and version 0 messages: compiling instructions into a message
    ([compiled_keys.rs], [account_keys.rs], [legacy.rs], [versions/v0/mod.rs]), the
    checks of [sanitize], and what a sanitized message says of its accounts
    ([sanitized.rs], [versions/v0/loaded.rs]).  A [BTreeMap] is an association
    list sorted by key. *)

From S2P Require Import Prelude Sdk.

(** ** Data *)
Record MessageHeader := mkMessageHeader {
  num_required_signatures : N;
  num_readonly_signed_accounts : N;
  num_readonly_unsigned_accounts : N }.

Record Message := mkMessage {
  msg_header : MessageHeader;
  msg_account_keys : list Pubkey;
  msg_recent_blockhash : Hash;
  msg_instructions : list CompiledInstruction }.

Record MessageAddressTableLookup := mkMessageAddressTableLookup {
  lookup_account_key : Pubkey;
  writable_indexes : list N;
  readonly_indexes : list N }.

(** a version 0 message is a legacy one with address table lookups *)
Record MessageV0 := mkMessageV0 {
  v0_base : Message;
  address_table_lookups : list MessageAddressTableLookup }.

Record LoadedAddresses := mkLoadedAddresses {
  loaded_writable : list Pubkey;
  loaded_readonly : list Pubkey }.

Inductive SanitizeError := IndexOutOfBounds | ValueOutOfBounds | InvalidValue.

Inductive CompileError :=
| AccountIndexOverflow
| AddressTableLookupIndexOverflow
| UnknownInstructionKey (key : Pubkey).

(** ** Account keys ([account_keys.rs]) *)
Record AccountKeys := mkAccountKeys {
  static_keys : list Pubkey;
  dynamic_keys : option LoadedAddresses }.

Definition key_segment_iter (k : AccountKeys) : list (list Pubkey) :=
  match dynamic_keys k with
  | Some d => [static_keys k; loaded_writable d; loaded_readonly d]
  | None => [static_keys k; []; []]
  end.

Fixpoint segments_get (segments : list (list Pubkey)) (index : N) : option Pubkey :=
  match segments with
  | [] => None
  | seg :: segments' =>
      if index <? len seg then getN seg index
      else segments_get segments' (saturating_sub index (len seg))
  end.
Definition account_keys_get (k : AccountKeys) (index : N) : option Pubkey :=
  segments_get (key_segment_iter k) index.
Definition account_keys_len (k : AccountKeys) : N :=
  foldl (λ n seg, saturating_add u64_max n (len seg)) 0 (key_segment_iter k).
Definition account_keys_is_empty (k : AccountKeys) : bool := account_keys_len k =? 0.
Definition account_keys_iter (k : AccountKeys) : list Pubkey := concat (key_segment_iter k).

(** the map from keys to indexes: of equal keys the last one stays *)
Definition account_index (keys : list Pubkey) (key : Pubkey) : option N :=
  rposition (λ k, key_eqb k key) keys.

Fixpoint rmapM {E A B} (f : A → result E B) (l : list A) : result E (list B) :=
  match l with
  | [] => Ok []
  | x :: l' => let! y := f x in let! l'' := rmapM f l' in Ok (y :: l'')
  end.

Definition try_compile_instruction (keys : list Pubkey) (ix : Instruction) :
  result CompileError CompiledInstruction :=
  let get_account_index key := ok_or (account_index keys key) (UnknownInstructionKey key) in
  let! accounts := rmapM (λ meta, get_account_index (meta_pubkey meta)) (ix_accounts ix) in
  let! program_id_index := get_account_index (ix_program_id ix) in
  Ok (mkCompiledInstruction program_id_index accounts (ix_data ix)).

Definition try_compile_instructions (k : AccountKeys) (instructions : list Instruction) :
  result CompileError (list CompiledInstruction) :=
  let keys := account_keys_iter k in
  if 256 <? len keys then Err AccountIndexOverflow else
  rmapM (try_compile_instruction keys) instructions.

(** ** Compiled keys ([compiled_keys.rs]) *)
Record CompiledKeyMeta := mkCompiledKeyMeta {
  key_is_signer : bool; key_is_writable : bool; key_is_invoked : bool }.
Definition compiled_key_meta_default := mkCompiledKeyMeta false false false.

Record CompiledKeys := mkCompiledKeys {
  ck_payer : option Pubkey;
  key_meta_map : list (Pubkey * CompiledKeyMeta) }.

(** [#[derive(Ord)]] on an array of bytes *)
Fixpoint bytes_compare (a b : list N) : comparison :=
  match a, b with
  | [], [] => Eq
  | [], _ => Lt
  | _, [] => Gt
  | x :: a', y :: b' =>
      match N.compare x y with Eq => bytes_compare a' b' | c => c end
  end.
Definition pubkey_compare (a b : Pubkey) : comparison :=
  bytes_compare (to_bytes a) (to_bytes b).

(** [*map.entry(key).or_default() = f(..)] *)
Fixpoint entry_or_default {V} (d : V) (key : Pubkey) (f : V → V) (m : list (Pubkey * V)) :
  list (Pubkey * V) :=
  match m with
  | [] => [(key, f d)]
  | (k, v) :: m' =>
      match pubkey_compare key k with
      | Lt => (key, f d) :: m
      | Eq => (k, f v) :: m'
      | Gt => (k, v) :: entry_or_default d key f m'
      end
  end.
Definition remove_entry {V} (key : Pubkey) (m : list (Pubkey * V)) : list (Pubkey * V) :=
  filter (λ kv, kv.1 ≠ key) m.

Definition invoke_key (m : list (Pubkey * CompiledKeyMeta)) (key : Pubkey) :=
  entry_or_default compiled_key_meta_default key (λ meta,
    mkCompiledKeyMeta (key_is_signer meta) (key_is_writable meta) true) m.
Definition add_account_meta (m : list (Pubkey * CompiledKeyMeta)) (a : AccountMeta) :=
  entry_or_default compiled_key_meta_default (meta_pubkey a) (λ meta,
    mkCompiledKeyMeta (key_is_signer meta || meta_is_signer a)
      (key_is_writable meta || meta_is_writable a) (key_is_invoked meta)) m.
Definition add_instruction (m : list (Pubkey * CompiledKeyMeta)) (ix : Instruction) :=
  foldl add_account_meta (invoke_key m (ix_program_id ix)) (ix_accounts ix).

Definition compile_keys (instructions : list Instruction) (payer : option Pubkey) : CompiledKeys :=
  let m := foldl add_instruction [] instructions in
  let m :=
    match payer with
    | Some payer => entry_or_default compiled_key_meta_default payer (λ meta,
                      mkCompiledKeyMeta true true (key_is_invoked meta)) m
    | None => m
    end in
  mkCompiledKeys payer m.

Definition try_into_u8 (n : N) : result CompileError N :=
  if n <=? u8_max then Ok n else Err AccountIndexOverflow.

(** the keys whose flags satisfy [p], in the order of the map *)
Definition keys_where (p : CompiledKeyMeta → bool) (m : list (Pubkey * CompiledKeyMeta)) :
  list Pubkey := omap (λ kv, if p kv.2 then Some kv.1 else None) m.

Definition try_into_message_components (ck : CompiledKeys) :
  result CompileError (MessageHeader * list Pubkey) :=
  let m := match ck_payer ck with
           | Some payer => remove_entry payer (key_meta_map ck)
           | None => key_meta_map ck
           end in
  let writable_signer_keys :=
    match ck_payer ck with Some p => [p] | None => [] end ++
    keys_where (λ x, key_is_signer x && key_is_writable x) m in
  let readonly_signer_keys := keys_where (λ x, key_is_signer x && negb (key_is_writable x)) m in
  let writable_non_signer_keys :=
    keys_where (λ x, negb (key_is_signer x) && key_is_writable x) m in
  let readonly_non_signer_keys :=
    keys_where (λ x, negb (key_is_signer x) && negb (key_is_writable x)) m in
  let signers_len :=
    saturating_add u64_max (len writable_signer_keys) (len readonly_signer_keys) in
  let! a := try_into_u8 signers_len in
  let! b := try_into_u8 (len readonly_signer_keys) in
  let! c := try_into_u8 (len readonly_non_signer_keys) in
  Ok (mkMessageHeader a b c,
      writable_signer_keys ++ readonly_signer_keys ++
      writable_non_signer_keys ++ readonly_non_signer_keys).

(** the search keys that occur in the table, each at its first index there *)
Fixpoint drain_search (addresses : list Pubkey) (search : list Pubkey) :
  result CompileError (list N * list Pubkey) :=
  match search with
  | [] => Ok ([], [])
  | key :: search' =>
      match position (λ k, key_eqb k key) addresses with
      | Some i =>
          if i <=? u8_max then
            let! rest := drain_search addresses search' in
            Ok (i :: rest.1, key :: rest.2)
          else Err AddressTableLookupIndexOverflow
      | None => drain_search addresses search'
      end
  end.
Definition try_drain_keys_found_in_lookup_table (addresses : list Pubkey)
    (key_meta_filter : CompiledKeyMeta → bool) (ck : CompiledKeys) :
  result CompileError (list N * list Pubkey * CompiledKeys) :=
  let! found := drain_search addresses (keys_where key_meta_filter (key_meta_map ck)) in
  Ok (found.1, found.2,
      mkCompiledKeys (ck_payer ck) (foldl (λ m key, remove_entry key m) (key_meta_map ck) found.2)).

Record AddressLookupTableAccount := mkAddressLookupTableAccount {
  table_key : Pubkey; table_addresses : list Pubkey }.

Definition try_extract_table_lookup (table : AddressLookupTableAccount) (ck : CompiledKeys) :
  result CompileError (option (MessageAddressTableLookup * LoadedAddresses) * CompiledKeys) :=
  let! w := try_drain_keys_found_in_lookup_table (table_addresses table) (λ meta,
    negb (key_is_signer meta) && negb (key_is_invoked meta) && key_is_writable meta) ck in
  let! r := try_drain_keys_found_in_lookup_table (table_addresses table) (λ meta,
    negb (key_is_signer meta) && negb (key_is_invoked meta) && negb (key_is_writable meta)) w.2 in
  match w.1.1, r.1.1 with
  | [], [] => Ok (None, r.2)
  | _, _ =>
      Ok (Some (mkMessageAddressTableLookup (table_key table) w.1.1 r.1.1,
                mkLoadedAddresses w.1.2 r.1.2), r.2)
  end.

(** ** Legacy messages ([legacy.rs]) *)
Definition BUILTIN_PROGRAMS_KEYS : list Pubkey :=
  [config_program_id; feature_program_id; native_loader_id; stake_program_id; stake_config_id;
   vote_program_id; system_program_id; bpf_loader_id; bpf_loader_deprecated_id;
   bpf_loader_upgradeable_id].
Definition SYSVAR_ALL_IDS : list Pubkey :=
  [sysvar_clock_id; sysvar_epoch_schedule_id; sysvar_fees_id; sysvar_recent_blockhashes_id;
   sysvar_rent_id; sysvar_rewards_id; sysvar_slot_hashes_id; sysvar_slot_history_id;
   sysvar_stake_history_id; sysvar_instructions_id].
Definition is_sysvar_id (id : Pubkey) : bool := existsb (λ k, key_eqb k id) SYSVAR_ALL_IDS.

Definition first_byte (k : Pubkey) : N := default 0 (getN (to_bytes k) 0).
(** the table of first bytes: an entry is set when some listed key starts with it *)
Definition MAYBE_BUILTIN_KEY_OR_SYSVAR : list bool :=
  foldl (λ table k, setN table (first_byte k) true) (replicate 256 false)
    (BUILTIN_PROGRAMS_KEYS ++ SYSVAR_ALL_IDS).
Definition is_builtin_key_or_sysvar (key : Pubkey) : bool :=
  if default false (getN MAYBE_BUILTIN_KEY_OR_SYSVAR (first_byte key))
  then is_sysvar_id key || bool_decide (key ∈ BUILTIN_PROGRAMS_KEYS)
  else false.

(** [position(keys, key).unwrap() as u8] *)
Definition legacy_position {E} (keys : list Pubkey) (key : Pubkey) : result E N :=
  rmap as_u8 (unwrap (position (λ k, key_eqb k key) keys)).
Definition compile_instruction {E} (ix : Instruction) (keys : list Pubkey) :
  result E CompiledInstruction :=
  let! accounts := rmapM (λ meta, legacy_position keys (meta_pubkey meta)) (ix_accounts ix) in
  let! program_id_index := legacy_position keys (ix_program_id ix) in
  Ok (mkCompiledInstruction program_id_index accounts (ix_data ix)).

(** [Message::new_with_blockhash]: a failed conversion or a key that is not found
    is a panic *)
Definition new_with_blockhash {E} (instructions : list Instruction) (payer : option Pubkey)
    (blockhash : Hash) : result E Message :=
  match try_into_message_components (compile_keys instructions payer) with
  | Ok (header, account_keys) =>
      let! compiled := rmapM (λ ix, compile_instruction ix account_keys) instructions in
      Ok (mkMessage header account_keys blockhash compiled)
  | _ => Panic
  end.

(** [Message::sanitize] *)
Definition sanitize_instruction (n : N) (ci : CompiledInstruction) : result SanitizeError unit :=
  if n <=? program_id_index ci then Err IndexOutOfBounds else
  if program_id_index ci =? 0 then Err IndexOutOfBounds else
  if existsb (λ ai, n <=? ai) (ci_accounts ci) then Err IndexOutOfBounds else Ok tt.
Definition sanitize (m : Message) : result SanitizeError unit :=
  let h := msg_header m in
  if len (msg_account_keys m) <?
     num_required_signatures h + num_readonly_unsigned_accounts h
  then Err IndexOutOfBounds else
  if num_required_signatures h <=? num_readonly_signed_accounts h
  then Err IndexOutOfBounds else
  rmap (λ _, tt) (rmapM (sanitize_instruction (len (msg_account_keys m))) (msg_instructions m)).

Definition called_as_program (instructions : list CompiledInstruction) (key_index : N) : bool :=
  if key_index <=? u8_max
  then existsb (λ ix, program_id_index ix =? key_index) instructions else false.
Definition passed_to_program (instructions : list CompiledInstruction) (key_index : N) : bool :=
  if key_index <=? u8_max
  then existsb (λ ix, bool_decide (key_index ∈ ci_accounts ix)) instructions else false.
Definition is_key_called_as_program (m : Message) : N → bool :=
  called_as_program (msg_instructions m).
Definition is_key_passed_to_program (m : Message) : N → bool :=
  passed_to_program (msg_instructions m).
Definition is_non_loader_key (m : Message) (i : N) : bool :=
  negb (is_key_called_as_program m i) || is_key_passed_to_program m i.
Definition loader_present (keys : list Pubkey) : bool :=
  existsb (λ key, key_eqb key bpf_loader_upgradeable_id) keys.
Definition is_upgradeable_loader_present (m : Message) : bool :=
  loader_present (msg_account_keys m).
Definition demote_program_id (m : Message) (i : N) : bool :=
  is_key_called_as_program m i && negb (is_upgradeable_loader_present m).

(** [u8] and [usize] subtraction wrap in a release build; the index may be out of range *)
Definition legacy_is_writable {E} (m : Message) (i : N) : result E bool :=
  let h := msg_header m in
  if (i <? as_u8 (num_required_signatures h + (256 - num_readonly_signed_accounts h))) ||
     ((num_required_signatures h <=? i) &&
      (i <? wrapping_sub (len (msg_account_keys m)) (num_readonly_unsigned_accounts h)))
  then
    let! key := unwrap (getN (msg_account_keys m) i) in
    Ok (negb (is_builtin_key_or_sysvar key) && negb (demote_program_id m i))
  else Ok false.
Definition legacy_is_signer (m : Message) (i : N) : bool :=
  i <? num_required_signatures (msg_header m).
Definition signer_keys (m : Message) : list Pubkey :=
  take (N.to_nat (len (msg_account_keys m) `min` num_required_signatures (msg_header m)))
    (msg_account_keys m).

(** [for i in 1..len]: some later key equals the one before [i] *)
Fixpoint legacy_has_duplicates (keys : list Pubkey) : bool :=
  match keys with
  | [] => false
  | k :: keys' => bool_decide (k ∈ keys') || legacy_has_duplicates keys'
  end.

(** ** Version 0 messages ([versions/v0/]) *)
Definition num_lookup_indexes (l : MessageAddressTableLookup) : N :=
  saturating_add u64_max (len (writable_indexes l)) (len (readonly_indexes l)).
Fixpoint total_lookup_keys (lookups : list MessageAddressTableLookup) (total : N) :
  result SanitizeError N :=
  match lookups with
  | [] => Ok total
  | l :: lookups' =>
      if num_lookup_indexes l =? 0 then Err InvalidValue else
      total_lookup_keys lookups' (saturating_add u64_max total (num_lookup_indexes l))
  end.
Definition v0_sanitize_instruction (max_program_id_ix max_account_ix : N)
    (ci : CompiledInstruction) : result SanitizeError unit :=
  if max_program_id_ix <? program_id_index ci then Err IndexOutOfBounds else
  if program_id_index ci =? 0 then Err IndexOutOfBounds else
  if existsb (λ ai, max_account_ix <? ai) (ci_accounts ci) then Err IndexOutOfBounds else Ok tt.
Definition v0_sanitize (m : MessageV0) : result SanitizeError unit :=
  let h := msg_header (v0_base m) in
  let num_static := len (msg_account_keys (v0_base m)) in
  if num_static <?
     saturating_add u64_max (num_required_signatures h) (num_readonly_unsigned_accounts h)
  then Err IndexOutOfBounds else
  if num_required_signatures h <=? num_readonly_signed_accounts h then Err InvalidValue else
  let! num_dynamic := total_lookup_keys (address_table_lookups m) 0 in
  if num_static =? 0 then Err InvalidValue else
  let total := saturating_add u64_max num_static num_dynamic in
  if 256 <? total then Err IndexOutOfBounds else
  let! max_account_ix := unwrap (checked_sub total 1) in
  let! max_program_id_ix := unwrap (checked_sub num_static 1) in
  rmap (λ _, tt) (rmapM (v0_sanitize_instruction max_program_id_ix max_account_ix)
                    (msg_instructions (v0_base m))).

Fixpoint extract_lookups (tables : list AddressLookupTableAccount) (ck : CompiledKeys) :
  result CompileError (list (MessageAddressTableLookup * LoadedAddresses) * CompiledKeys) :=
  match tables with
  | [] => Ok ([], ck)
  | table :: tables' =>
      let! x := try_extract_table_lookup table ck in
      let! rest := extract_lookups tables' x.2 in
      Ok (match x.1 with Some l => l :: rest.1 | None => rest.1 end, rest.2)
  end.
(** [LoadedAddresses: FromIterator] *)
Definition loaded_addresses_collect (l : list LoadedAddresses) : LoadedAddresses :=
  mkLoadedAddresses (concat (loaded_writable <$> l)) (concat (loaded_readonly <$> l)).

Definition try_compile (payer : Pubkey) (instructions : list Instruction)
    (tables : list AddressLookupTableAccount) (blockhash : Hash) :
  result CompileError MessageV0 :=
  let! extracted := extract_lookups tables (compile_keys instructions (Some payer)) in
  let! components := try_into_message_components extracted.2 in
  let dynamic := loaded_addresses_collect (snd <$> extracted.1) in
  let! compiled :=
    try_compile_instructions (mkAccountKeys components.2 (Some dynamic)) instructions in
  Ok (mkMessageV0 (mkMessage components.1 components.2 blockhash compiled) (fst <$> extracted.1)).

(** ** Sanitized messages ([sanitized.rs], [versions/v0/loaded.rs]) *)
Record LegacyMessage := mkLegacyMessage {
  lm_message : Message; lm_is_writable_account_cache : list bool }.
Record LoadedMessage := mkLoadedMessage {
  ld_message : MessageV0;
  loaded_addresses : LoadedAddresses;
  ld_is_writable_account_cache : list bool }.

Inductive SanitizedMessage :=
| LegacyMsg (m : LegacyMessage)
| V0Msg (m : LoadedMessage).

(** [0..l.len()] *)
Definition indices {A} (l : list A) : list N := imap (λ i _, N.of_nat i) l.

Definition legacy_message_new {E} (m : Message) : result E LegacyMessage :=
  rmap (mkLegacyMessage m) (rmapM (legacy_is_writable m) (indices (msg_account_keys m))).

Definition v0_account_keys (m : MessageV0) (la : LoadedAddresses) : AccountKeys :=
  mkAccountKeys (msg_account_keys (v0_base m)) (Some la).
Definition is_writable_index (m : MessageV0) (la : LoadedAddresses) (key_index : N) : bool :=
  let h := msg_header (v0_base m) in
  let num_account_keys := len (msg_account_keys (v0_base m)) in
  let num_signed_accounts := num_required_signatures h in
  if num_account_keys <=? key_index then
    saturating_sub key_index num_account_keys <? len (loaded_writable la)
  else if num_signed_accounts <=? key_index then
    saturating_sub key_index num_signed_accounts <?
    saturating_sub (saturating_sub num_account_keys num_signed_accounts)
      (num_readonly_unsigned_accounts h)
  else key_index <? saturating_sub num_signed_accounts (num_readonly_signed_accounts h).
Definition v0_demote_program_id (m : MessageV0) (la : LoadedAddresses) (i : N) : bool :=
  called_as_program (msg_instructions (v0_base m)) i &&
  negb (loader_present (account_keys_iter (v0_account_keys m la))).
Definition is_writable_internal (m : MessageV0) (la : LoadedAddresses) (key_index : N) : bool :=
  if is_writable_index m la key_index then
    match account_keys_get (v0_account_keys m la) key_index with
    | Some key => negb (is_builtin_key_or_sysvar key || v0_demote_program_id m la key_index)
    | None => false
    end
  else false.
Definition loaded_message_new (m : MessageV0) (la : LoadedAddresses) : LoadedMessage :=
  mkLoadedMessage m la
    (is_writable_internal m la <$> indices (account_keys_iter (v0_account_keys m la))).
(** the set grows until a key is in it already *)
Fixpoint has_duplicates_loop (uniq : gset Pubkey) (keys : list Pubkey) : bool :=
  match keys with
  | [] => false
  | k :: keys' => if decide (k ∈ uniq) then true else has_duplicates_loop ({[k]} ∪ uniq) keys'
  end.
Definition v0_has_duplicates (m : LoadedMessage) : bool :=
  has_duplicates_loop ∅ (account_keys_iter (v0_account_keys (ld_message m) (loaded_addresses m))).

Definition sm_base (m : SanitizedMessage) : Message :=
  match m with LegacyMsg m => lm_message m | V0Msg m => v0_base (ld_message m) end.
Definition sm_header (m : SanitizedMessage) : MessageHeader := msg_header (sm_base m).
Definition sm_instructions (m : SanitizedMessage) : list CompiledInstruction :=
  msg_instructions (sm_base m).
Definition sm_account_keys (m : SanitizedMessage) : AccountKeys :=
  match m with
  | LegacyMsg m => mkAccountKeys (msg_account_keys (lm_message m)) None
  | V0Msg m => v0_account_keys (ld_message m) (loaded_addresses m)
  end.
Definition sm_has_duplicates (m : SanitizedMessage) : bool :=
  match m with
  | LegacyMsg m => legacy_has_duplicates (msg_account_keys (lm_message m))
  | V0Msg m => v0_has_duplicates m
  end.
Definition sm_is_writable (m : SanitizedMessage) (index : N) : bool :=
  default false
    (getN (match m with
           | LegacyMsg m => lm_is_writable_account_cache m
           | V0Msg m => ld_is_writable_account_cache m
           end) index).
Definition sm_is_signer (m : SanitizedMessage) (index : N) : bool :=
  index <? num_required_signatures (sm_header m).
Definition sm_is_invoked (m : SanitizedMessage) (key_index : N) : bool :=
  called_as_program (sm_instructions m) key_index.
Definition sm_is_non_loader_key (m : SanitizedMessage) (key_index : N) : bool :=
  negb (sm_is_invoked m key_index) || passed_to_program (sm_instructions m) key_index.
Definition fee_payer {E} (m : SanitizedMessage) : result E Pubkey :=
  unwrap (account_keys_get (sm_account_keys m) 0).
(** [expect] on the program id of each instruction *)
Definition program_instructions {E} (m : SanitizedMessage) :
  result E (list (Pubkey * CompiledInstruction)) :=
  rmapM (λ ix, let! id := unwrap (account_keys_get (sm_account_keys m) (program_id_index ix)) in
               Ok (id, ix)) (sm_instructions m).
Definition num_readonly_accounts (m : SanitizedMessage) : N :=
  let loaded := match m with V0Msg m => len (loaded_readonly (loaded_addresses m)) | _ => 0 end in
  saturating_add u64_max
    (saturating_add u64_max loaded (num_readonly_signed_accounts (sm_header m)))
    (num_readonly_unsigned_accounts (sm_header m)).
Definition num_write_locks (m : SanitizedMessage) : N :=
  saturating_sub (account_keys_len (sm_account_keys m)) (num_readonly_accounts m).

(** [decompile_instructions] *)
Definition decompile_account {E} (m : SanitizedMessage) (i : N) : result E AccountMeta :=
  let! key := unwrap (account_keys_get (sm_account_keys m) i) in
  Ok (mkAccountMeta key (sm_is_signer m i) (sm_is_writable m i)).
Definition decompile_instructions {E} (m : SanitizedMessage) : result E (list Instruction) :=
  let! l := program_instructions m in
  rmapM (λ x, let! accounts := rmapM (decompile_account m) (ci_accounts x.2) in
              Ok (mkInstruction x.1 accounts (ci_data x.2))) l.
Definition get_ix_signers (m : SanitizedMessage) (ix_index : N) : list Pubkey :=
  match getN (sm_instructions m) ix_index with
  | None => []
  | Some ix => omap (λ i, if sm_is_signer m i then account_keys_get (sm_account_keys m) i else None)
                 (ci_accounts ix)
  end.

Record TransactionSignatureDetails := mkTransactionSignatureDetails {
  num_transaction_signatures : N;
  num_secp256k1_instruction_signatures : N;
  num_ed25519_instruction_signatures : N }.
Definition count_signatures (d : TransactionSignatureDetails) (x : Pubkey * CompiledInstruction) :
  TransactionSignatureDetails :=
  let verifies := default 0 (getN (ci_data x.2) 0) in
  if key_eqb x.1 secp256k1_program_id then
    mkTransactionSignatureDetails (num_transaction_signatures d)
      (saturating_add u64_max (num_secp256k1_instruction_signatures d) verifies)
      (num_ed25519_instruction_signatures d)
  else if key_eqb x.1 ed25519_program_id then
    mkTransactionSignatureDetails (num_transaction_signatures d)
      (num_secp256k1_instruction_signatures d)
      (saturating_add u64_max (num_ed25519_instruction_signatures d) verifies)
  else d.
Definition get_signature_details {E} (m : SanitizedMessage) :
  result E TransactionSignatureDetails :=
  let! l := program_instructions m in
  Ok (foldl count_signatures
        (mkTransactionSignatureDetails (num_required_signatures (sm_header m)) 0 0) l).
Definition total_signatures (d : TransactionSignatureDetails) : N :=
  saturating_add u64_max
    (saturating_add u64_max (num_transaction_signatures d)
       (num_secp256k1_instruction_signatures d))
    (num_ed25519_instruction_signatures d).
