(* ===== verification/MessageRules.v ===== *)
(** * Theory of transaction messages

    Account keys as one list, and when keys are repeated. *)

From S2P Require Import Prelude Sdk Message.

(** ** Account keys *)
Lemma segments_get_concat segs i : segments_get segs i = getN (concat segs) i.
Proof.
  revert i. induction segs as [|seg segs IH]; intros i; simpl; [done|].
  unfold getN, saturating_sub, len in *.
  destruct (N.ltb_spec i (N.of_nat (length seg))).
  - rewrite lookup_app_l by lia. done.
  - rewrite lookup_app_r by lia. rewrite IH. f_equal. lia.
Qed.
Lemma account_keys_get_iter k i : account_keys_get k i = getN (account_keys_iter k) i.
Proof. apply segments_get_concat. Qed.

Lemma rmapM_Ok {E A B} (f : A → result E B) l l' :
  rmapM f l = Ok l' → Forall2 (λ x y, f x = Ok y) l l'.
Proof.
  revert l'. induction l as [|x l IH]; intros l'; simpl; [intros [= <-]; constructor|].
  destruct (f x) eqn:Hx; simpl; [|done..].
  destruct (rmapM f l) eqn:Hl; simpl; [|done..]. intros [= <-]. constructor; auto.
Qed.
Lemma rmapM_Ok_intro {E A B} (f : A → result E B) l l' :
  Forall2 (λ x y, f x = Ok y) l l' → rmapM f l = Ok l'.
Proof. induction 1 as [|x y l l' Hx _ IH]; simpl; [done|]. by rewrite Hx, IH. Qed.
Lemma rmapM_fmap {E A B} (f : A → result E B) g l :
  (∀ x, x ∈ l → f x = Ok (g x)) → rmapM f l = Ok (g <$> l).
Proof.
  intros H. apply rmapM_Ok_intro. induction l as [|x l IH]; simpl; constructor; [set_solver|].
  apply IH. set_solver.
Qed.
Lemma getN_indices {A} (l : list A) i : getN (indices l) i = (λ _, i) <$> getN l i.
Proof.
  unfold indices, getN. rewrite list_lookup_imap.
  destruct (l !! N.to_nat i); simpl; [|done]. by rewrite N2Nat.id.
Qed.
Lemma len_indices {A} (l : list A) : len (indices l) = len l.
Proof. unfold len, indices. by rewrite length_imap. Qed.

(** ** Duplicates *)
Lemma legacy_has_duplicates_NoDup keys : legacy_has_duplicates keys = false ↔ NoDup keys.
Proof.
  induction keys as [|k keys IH]; simpl; [split; [constructor|done]|].
  rewrite orb_false_iff, bool_decide_eq_false, list.NoDup_cons, IH. done.
Qed.
Lemma has_duplicates_loop_NoDup uniq keys :
  has_duplicates_loop uniq keys = false ↔ NoDup keys ∧ ∀ k, k ∈ keys → k ∉ uniq.
Proof.
  revert uniq. induction keys as [|k keys IH]; intros uniq; simpl.
  { split; [intros _; split; [constructor|set_solver]|done]. }
  case_decide as Hk.
  - split; [done|]. intros [_ H]. exfalso. apply (H k); [by left|done].
  - rewrite IH, list.NoDup_cons. set_solver.
Qed.
Lemma sm_has_duplicates_NoDup m :
  sm_has_duplicates m = false ↔ NoDup (account_keys_iter (sm_account_keys m)).
Proof.
  destruct m as [m|m]; simpl.
  - rewrite legacy_has_duplicates_NoDup. unfold account_keys_iter. simpl. by rewrite !app_nil_r.
  - unfold v0_has_duplicates. rewrite has_duplicates_loop_NoDup. set_solver.
Qed.

(** the first position with a property, read from a prefix that may contain it *)
Lemma position_take {A} (p : A → bool) l i x :
  getN l i = Some x → p x = true →
  position p l = Some (default i (position p (take (N.to_nat i) l))).
Proof.
  revert i. induction l as [|y l IH]; intros i; unfold getN; simpl; [done|].
  destruct (N.to_nat i) as [|n] eqn:Hi; simpl.
  - intros [= ->] ->. simpl. f_equal. lia.
  - intros Hx Hp. destruct (p y) eqn:Hy; simpl; [done|].
    specialize (IH (N.pred i)). unfold getN in IH. replace (N.to_nat (N.pred i)) with n in IH by lia.
    rewrite (IH Hx Hp). simpl. destruct (position p (take n l)); simpl; f_equal. lia.
Qed.
