(* ===== verification/CompileRules.v ===== *)
(** * Theory of message compilation

    The ordered map of key flags behind [CompiledKeys], the layout of the keys of a
    compiled message, and what a message made by [new_with_blockhash] resolves
    to. *)

From stdpp Require Import sorting.
From S2P Require Import Prelude Sdk Message MessageRules.

(** ** The order of keys *)
Lemma bytes_compare_eq a : ∀ b, bytes_compare a b = Eq ↔ a = b.
Proof.
  induction a as [|x a IH]; intros [|y b]; simpl; [done..|].
  destruct (N.compare_spec x y) as [->|?|?]; [rewrite IH|..]; naive_solver lia.
Qed.
Lemma bytes_compare_flip a : ∀ b, bytes_compare b a = CompOpp (bytes_compare a b).
Proof.
  induction a as [|x a IH]; intros [|y b]; simpl; [done..|].
  rewrite (N.compare_antisym x y). by destruct (N.compare x y); simpl.
Qed.
Lemma bytes_compare_lt_trans a : ∀ b c,
  bytes_compare a b = Lt → bytes_compare b c = Lt → bytes_compare a c = Lt.
Proof.
  induction a as [|x a IH]; intros [|y b] [|z c]; simpl; try done.
  destruct (N.compare x y) eqn:Exy, (N.compare y z) eqn:Eyz; try done;
    rewrite ?N.compare_eq_iff, ?N.compare_lt_iff in *; subst; intros ??.
  1: rewrite N.compare_refl; eauto.
  all: by rewrite (proj2 (N.compare_lt_iff _ _)) by lia.
Qed.

Definition key_lt (a b : Pubkey) : Prop := pubkey_compare a b = Lt.
#[export] Instance key_lt_trans : Transitive key_lt.
Proof. intros a b c. apply bytes_compare_lt_trans. Qed.
Lemma pubkey_compare_eq a b : pubkey_compare a b = Eq ↔ a = b.
Proof.
  unfold pubkey_compare. rewrite bytes_compare_eq. destruct a, b; simpl. naive_solver.
Qed.
Lemma key_lt_irrefl a : ¬ key_lt a a.
Proof. unfold key_lt. by rewrite (proj2 (pubkey_compare_eq a a) eq_refl). Qed.
Lemma pubkey_compare_gt a b : pubkey_compare a b = Gt → key_lt b a.
Proof. unfold key_lt, pubkey_compare. rewrite (bytes_compare_flip (to_bytes a)). by intros ->. Qed.

(** ** The map *)
Section map.
Context {V : Type}.
Implicit Types m : list (Pubkey * V).

Definition sorted_keys m : Prop := StronglySorted key_lt m.*1.

Fixpoint mget (k : Pubkey) m : option V :=
  match m with
  | [] => None
  | (k', v) :: m' => if decide (k = k') then Some v else mget k m'
  end.

Lemma mget_None k m : k ∉ m.*1 → mget k m = None.
Proof.
  induction m as [|[k' v] m IH]; simpl; [done|]. rewrite not_elem_of_cons. intros [? ?].
  rewrite decide_False by done. auto.
Qed.
Lemma mget_elem k v m : mget k m = Some v → (k, v) ∈ m.
Proof.
  induction m as [|[k' v'] m IH]; simpl; [done|]. case_decide; [intros [= ->]; subst; left|right; auto].
Qed.
Lemma sorted_NoDup m : sorted_keys m → NoDup m.*1.
Proof.
  unfold sorted_keys. induction 1 as [|k l Hs IH Hk]; constructor; [|done].
  intros Hin. rewrite list.Forall_forall in Hk. apply (key_lt_irrefl k). auto.
Qed.
Lemma elem_mget k v m : NoDup m.*1 → (k, v) ∈ m → mget k m = Some v.
Proof.
  induction m as [|[k' v'] m IH]; simpl; [intros _ []%not_elem_of_nil|].
  rewrite list.NoDup_cons, elem_of_cons. intros [Hn Hd] [[= -> ->]|Hin].
  - by rewrite decide_True.
  - case_decide as E; [|auto]. subst. destruct Hn. by apply (list_elem_of_fmap_2 fst _ _ Hin).
Qed.

Lemma entry_keys d key (f : V → V) m k :
  k ∈ (entry_or_default d key f m).*1 ↔ k = key ∨ k ∈ m.*1.
Proof.
  induction m as [|[k' v] m IH]; simpl; [set_solver|].
  destruct (pubkey_compare key k') eqn:Hc; simpl.
  - apply pubkey_compare_eq in Hc as ->. set_solver.
  - set_solver.
  - rewrite !elem_of_cons, IH. naive_solver.
Qed.
Lemma entry_sorted d key (f : V → V) m :
  sorted_keys m → sorted_keys (entry_or_default d key f m).
Proof.
  unfold sorted_keys. induction m as [|[k v] m IH]; simpl; [intros _; repeat constructor|].
  intros [Hs Hk]%StronglySorted_inv. destruct (pubkey_compare key k) eqn:Hc; simpl.
  - by constructor.
  - repeat constructor; [done..|]. eapply list.Forall_impl; [exact Hk|]. intros x. by etrans.
  - constructor; [auto|]. rewrite list.Forall_forall in Hk |- *.
    intros x [->|Hx]%entry_keys; [by apply pubkey_compare_gt|auto].
Qed.
Lemma entry_get d key (f : V → V) m k :
  sorted_keys m →
  mget k (entry_or_default d key f m) =
  if decide (k = key) then Some (f (default d (mget key m))) else mget k m.
Proof.
  unfold sorted_keys. induction m as [|[k' v] m IH]; simpl; [by intros _; case_decide|].
  intros [Hs Hk]%StronglySorted_inv. destruct (pubkey_compare key k') eqn:Hc; simpl.
  - apply pubkey_compare_eq in Hc as ->. by repeat case_decide.
  - rewrite (decide_False (P := key = k')) by (intros ->; by apply (key_lt_irrefl k')).
    rewrite (mget_None key m).
    2:{ intros Hin. rewrite list.Forall_forall in Hk. apply (key_lt_irrefl key).
        apply (key_lt_trans _ k' _ Hc), Hk, Hin. }
    simpl. case_decide; [done|]. done.
  - apply pubkey_compare_gt in Hc. rewrite IH by done.
    rewrite (decide_False (P := key = k')) by (intros ->; by apply (key_lt_irrefl k')).
    repeat case_decide; subst; try done. by edestruct key_lt_irrefl.
Qed.
End map.

(** ** The flags of a key *)

(** [wanted]: what a part of a transaction asks for a key; joining two requests *)
Record wanted := mkWanted { w_present : bool; w_signer : bool; w_writable : bool; w_invoked : bool }.
Definition no_wish : wanted := mkWanted false false false false.
Definition wjoin (a b : wanted) : wanted :=
  mkWanted (w_present a || w_present b) (w_signer a || w_signer b)
    (w_writable a || w_writable b) (w_invoked a || w_invoked b).
Definition meta_of (w : wanted) : option CompiledKeyMeta :=
  if w_present w then Some (mkCompiledKeyMeta (w_signer w) (w_writable w) (w_invoked w)) else None.

Definition wish_program (k : Pubkey) (ix : Instruction) : wanted :=
  let b := key_eqb (ix_program_id ix) k in mkWanted b false false b.
Definition wish_meta (k : Pubkey) (a : AccountMeta) : wanted :=
  let b := key_eqb (meta_pubkey a) k in
  mkWanted b (b && meta_is_signer a) (b && meta_is_writable a) false.
Definition wish_payer (k : Pubkey) (payer : option Pubkey) : wanted :=
  let b := bool_decide (payer = Some k) in mkWanted b b b false.

Definition wish_metas (k : Pubkey) (l : list AccountMeta) : wanted :=
  foldr (λ a w, wjoin (wish_meta k a) w) no_wish l.
Definition wish_instruction (k : Pubkey) (ix : Instruction) : wanted :=
  wjoin (wish_program k ix) (wish_metas k (ix_accounts ix)).
Definition wish_instructions (k : Pubkey) (l : list Instruction) : wanted :=
  foldr (λ ix w, wjoin (wish_instruction k ix) w) no_wish l.
(** what the transaction asks for the key, over all its instructions and its payer *)
Definition wish (ixs : list Instruction) (payer : option Pubkey) (k : Pubkey) : wanted :=
  wjoin (wish_instructions k ixs) (wish_payer k payer).

Lemma wjoin_assoc a b c : wjoin a (wjoin b c) = wjoin (wjoin a b) c.
Proof. unfold wjoin. simpl. by rewrite !orb_assoc. Qed.
Lemma wjoin_no a : wjoin a no_wish = a.
Proof. unfold wjoin. simpl. rewrite !orb_false_r. by destruct a. Qed.

(** a map holds, for every key, the flags [w] asks for *)
Definition holds (m : list (Pubkey * CompiledKeyMeta)) (w : Pubkey → wanted) : Prop :=
  sorted_keys m ∧ ∀ k, mget k m = meta_of (w k) ∧
    (w_present (w k) = false → w k = no_wish).

Lemma holds_entry m w key (v : Pubkey → wanted) f :
  holds m w →
  (∀ k, k ≠ key → v k = no_wish) → w_present (v key) = true →
  (∀ x, f x = mkCompiledKeyMeta (key_is_signer x || w_signer (v key))
                (key_is_writable x || w_writable (v key)) (key_is_invoked x || w_invoked (v key))) →
  holds (entry_or_default compiled_key_meta_default key f m) (λ k, wjoin (w k) (v k)).
Proof.
  intros [Hs Hw] Hv Hp Hf. split; [by apply entry_sorted|]. intros k. rewrite entry_get by done.
  destruct (Hw k) as [Hk Hno]. destruct (decide (k = key)) as [->|Hne].
  - split; [|by unfold wjoin; simpl; rewrite Hp, orb_true_r].
    unfold meta_of in *. unfold wjoin. simpl. rewrite Hp, orb_true_r, Hk, Hf. f_equal.
    destruct (w_present (w key)) eqn:E; simpl; [done|]. by rewrite (Hno eq_refl).
  - rewrite (Hv k Hne), wjoin_no. done.
Qed.

Lemma wish_meta_other k a : k ≠ meta_pubkey a → wish_meta k a = no_wish.
Proof. intros H. unfold wish_meta. by rewrite (proj2 (key_eqb_false _ _)). Qed.

Lemma holds_metas l : ∀ m w,
  holds m w → holds (foldl add_account_meta m l) (λ k, wjoin (w k) (wish_metas k l)).
Proof.
  induction l as [|a l IH]; intros m w Hm; simpl.
  { destruct Hm as [? Hm]. split; [done|]. intros k. rewrite wjoin_no. apply Hm. }
  destruct (IH (add_account_meta m a) (λ k, wjoin (w k) (wish_meta k a))) as [Hs Hk].
  { apply holds_entry; [done|intros; by apply wish_meta_other|..]; unfold wish_meta; simpl;
      rewrite key_eqb_refl; [done|]. intros []. simpl. by rewrite orb_false_r. }
  split; [done|]. intros k. rewrite wjoin_assoc. apply Hk.
Qed.

Lemma holds_instruction m w ix :
  holds m w → holds (add_instruction m ix) (λ k, wjoin (w k) (wish_instruction k ix)).
Proof.
  intros Hm. unfold add_instruction.
  destruct (holds_metas (ix_accounts ix) (invoke_key m (ix_program_id ix))
              (λ k, wjoin (w k) (wish_program k ix))) as [Hs Hk].
  { apply holds_entry; [done|..]; unfold wish_program; simpl; rewrite ?key_eqb_refl; [|done|].
    - intros k Hne. by rewrite (proj2 (key_eqb_false _ _)).
    - intros []. simpl. by rewrite !orb_false_r, orb_true_r. }
  split; [done|]. intros k. unfold wish_instruction. rewrite wjoin_assoc. apply Hk.
Qed.

Lemma holds_instructions ixs : ∀ m w,
  holds m w → holds (foldl add_instruction m ixs) (λ k, wjoin (w k) (wish_instructions k ixs)).
Proof.
  induction ixs as [|ix ixs IH]; intros m w Hm; simpl.
  { destruct Hm as [? Hm]. split; [done|]. intros k. rewrite wjoin_no. apply Hm. }
  destruct (IH _ _ (holds_instruction _ _ ix Hm)) as [Hs Hk].
  split; [done|]. intros k. rewrite wjoin_assoc. apply Hk.
Qed.

(** [CompiledKeys::compile] collects exactly the flags that were asked for. *)
Lemma compile_keys_holds ixs payer :
  holds (key_meta_map (compile_keys ixs payer)) (wish ixs payer).
Proof.
  assert (H0 : holds (foldl add_instruction [] ixs) (λ k, wish_instructions k ixs)).
  { destruct (holds_instructions ixs [] (λ _, no_wish)) as [Hs Hk].
    - split; [constructor|done].
    - split; [done|]. intros k. specialize (Hk k). unfold wjoin in Hk. simpl in Hk.
      by destruct (wish_instructions k ixs). }
  unfold compile_keys. simpl. destruct payer as [p|].
  - apply (holds_entry _ _ _ (λ k, wish_payer k (Some p))); [done|..]; unfold wish_payer; simpl.
    + intros k Hne. by rewrite bool_decide_eq_false_2 by congruence.
    + by rewrite bool_decide_eq_true_2.
    + intros []. by rewrite bool_decide_eq_true_2, !orb_true_r, orb_false_r.
  - destruct H0 as [Hs Hk]. split; [done|]. intros k. unfold wish. rewrite wjoin_no. apply Hk.
Qed.

(** ** The layout of the keys *)
Lemma elem_keys_where p m k :
  k ∈ keys_where p m ↔ ∃ x, (k, x) ∈ m ∧ p x = true.
Proof.
  unfold keys_where. rewrite list_elem_of_omap. split.
  - intros ([k' x] & Hin & Hp). simpl in Hp. destruct (p x) eqn:E; [|done].
    injection Hp as ->. by exists x.
  - intros (x & Hin & Hp). exists (k, x). split; [done|]. simpl. by rewrite Hp.
Qed.
Lemma keys_where_NoDup p m : NoDup m.*1 → NoDup (keys_where p m).
Proof.
  induction m as [|[k x] m IH]; simpl; [constructor|]. rewrite list.NoDup_cons. intros [Hn Hd].
  destruct (p x); [|auto]. rewrite list.NoDup_cons. split; [|auto].
  rewrite elem_keys_where. intros (y & Hy & _). apply Hn. by apply (list_elem_of_fmap_2 fst _ _ Hy).
Qed.
Lemma keys_where_disjoint p q m k :
  NoDup m.*1 → (∀ x, p x = true → q x = true → False) →
  k ∈ keys_where p m → k ∈ keys_where q m → False.
Proof.
  intros Hd Hpq (x & Hx & Hp)%elem_keys_where (y & Hy & Hq)%elem_keys_where.
  pose proof (elem_mget _ _ _ Hd Hx). pose proof (elem_mget _ _ _ Hd Hy).
  assert (x = y) as -> by congruence. eauto.
Qed.

Section layout.
Context (ixs : list Instruction) (payer : option Pubkey).
Let kmap := match payer with
            | Some p => remove_entry p (key_meta_map (compile_keys ixs payer))
            | None => key_meta_map (compile_keys ixs payer)
            end.
Let seg p := keys_where p kmap.
Let ws := option_list payer ++ seg (λ x, key_is_signer x && key_is_writable x).
Let rs := seg (λ x, key_is_signer x && negb (key_is_writable x)).
Let wn := seg (λ x, negb (key_is_signer x) && key_is_writable x).
Let rn := seg (λ x, negb (key_is_signer x) && negb (key_is_writable x)).

Lemma elem_kmap k x :
  (k, x) ∈ kmap ↔ payer ≠ Some k ∧ meta_of (wish ixs payer k) = Some x.
Proof.
  destruct (compile_keys_holds ixs payer) as [Hs Hk].
  assert (Hx : (k, x) ∈ key_meta_map (compile_keys ixs payer) ↔
    meta_of (wish ixs payer k) = Some x).
  { destruct (Hk k) as [<- _]. split; [apply elem_mget; by apply sorted_NoDup|apply mget_elem]. }
  unfold kmap. destruct payer as [p|]; [|rewrite Hx; naive_solver].
  unfold remove_entry. rewrite list_elem_of_filter, Hx. simpl. naive_solver.
Qed.
Lemma kmap_NoDup : NoDup kmap.*1.
Proof.
  destruct (compile_keys_holds ixs payer) as [Hs%sorted_NoDup _]. unfold kmap.
  destruct payer as [p|]; [|done]. revert Hs. generalize (key_meta_map (compile_keys ixs (Some p))).
  intros l. unfold remove_entry. induction l as [|[k x] l IH]; simpl; [done|].
  rewrite list.NoDup_cons. intros [Hn Hd]. rewrite filter_cons. case_decide; [|auto].
  simpl. rewrite list.NoDup_cons. split; [|auto]. intros ([k' y] & -> & Hin)%list_elem_of_fmap.
  apply list_elem_of_filter in Hin as [_ Hin]. apply Hn. by apply (list_elem_of_fmap_2 fst _ _ Hin).
Qed.
Lemma elem_seg p k :
  k ∈ seg p ↔ payer ≠ Some k ∧ ∃ x, meta_of (wish ixs payer k) = Some x ∧ p x = true.
Proof. unfold seg. rewrite elem_keys_where. setoid_rewrite elem_kmap. naive_solver. Qed.

Lemma components_unfold :
  try_into_message_components (compile_keys ixs payer) =
  let! a := try_into_u8 (saturating_add u64_max (len ws) (len rs)) in
  let! b := try_into_u8 (len rs) in
  let! c := try_into_u8 (len rn) in
  Ok (mkMessageHeader a b c, ws ++ rs ++ wn ++ rn).
Proof. unfold ws. by destruct payer. Qed.

Lemma components_eq h keys :
  try_into_message_components (compile_keys ixs payer) = Ok (h, keys) →
  keys = ws ++ rs ++ wn ++ rn ∧
  h = mkMessageHeader (len ws + len rs) (len rs) (len rn) ∧
  len ws + len rs ≤ u8_max ∧ len rn ≤ u8_max.
Proof.
  rewrite components_unfold. unfold try_into_u8, saturating_add, u8_max, u64_max.
  destruct (N.leb_spec (18446744073709551615 `min` (len ws + len rs)) 255); simpl; [|done].
  destruct (N.leb_spec (len rs) 255); simpl; [|done].
  destruct (N.leb_spec (len rn) 255); simpl; [|done]. intros [= <- <-].
  rewrite N.min_r by lia. split_and!; [done..|lia|done].
Qed.

Definition compiled_account_keys : list Pubkey := ws ++ rs ++ wn ++ rn.

Lemma components_total :
  len compiled_account_keys ≤ u8_max →
  ∃ h, try_into_message_components (compile_keys ixs payer) = Ok (h, compiled_account_keys).
Proof.
  unfold len, compiled_account_keys. rewrite !length_app. intros Hle. rewrite components_unfold.
  unfold try_into_u8, saturating_add, len, u8_max, u64_max in *.
  rewrite N.min_r by lia. rewrite !(proj2 (N.leb_le _ _)) by lia. by eexists.
Qed.

Lemma payer_wish k : payer = Some k →
  w_present (wish ixs payer k) = true ∧ w_signer (wish ixs payer k) = true ∧
  w_writable (wish ixs payer k) = true.
Proof.
  intros Hp. unfold wish, wjoin, wish_payer. simpl. rewrite bool_decide_eq_true_2 by done.
  by rewrite !orb_true_r.
Qed.

(** the flags of the keys of the four segments *)
Definition flagged (s w : bool) (k : Pubkey) : Prop :=
  w_present (wish ixs payer k) = true ∧ w_signer (wish ixs payer k) = s ∧
  w_writable (wish ixs payer k) = w.

Lemma seg_flagged (s w : bool) p k :
  (∀ x, p x = eqb (key_is_signer x) s && eqb (key_is_writable x) w) →
  k ∈ seg p ↔ payer ≠ Some k ∧ flagged s w k.
Proof.
  intros Hp. rewrite elem_seg. unfold meta_of, flagged. apply and_iff_compat_l. split.
  - intros (x & Hx & Hpx). destruct (w_present _); [|done]. injection Hx as <-.
    rewrite Hp in Hpx. cbn [key_is_signer key_is_writable] in Hpx. apply andb_true_iff in Hpx as [?%eqb_prop ?%eqb_prop]. done.
  - intros (-> & Hs & Hw). eexists. split; [done|]. rewrite Hp. cbn [key_is_signer key_is_writable]. rewrite Hs, Hw.
    by rewrite !eqb_reflx.
Qed.
Lemma ws_flagged k : k ∈ ws ↔ flagged true true k.
Proof.
  unfold ws. rewrite elem_of_app, (seg_flagged true true) by (by intros [[] [] ?]).
  assert (k ∈ option_list payer ↔ payer = Some k) as -> by (destruct payer; set_solver).
  destruct (decide (payer = Some k)) as [Hp|Hp]; [|naive_solver].
  split; [|by left]. intros _. by apply payer_wish.
Qed.
Lemma other_flagged s w p k :
  (s && w = false) → (∀ x, p x = eqb (key_is_signer x) s && eqb (key_is_writable x) w) →
  k ∈ seg p ↔ flagged s w k.
Proof.
  intros Hsw Hp. rewrite (seg_flagged s w) by done. split; [naive_solver|].
  intros Hf. split; [|done]. intros (_ & Hs & Hw)%payer_wish. destruct Hf as (_ & <- & <-).
  by rewrite Hs, Hw in Hsw.
Qed.
Lemma rs_flagged k : k ∈ rs ↔ flagged true false k.
Proof. apply other_flagged; [done|]. by intros [[] [] ?]. Qed.
Lemma wn_flagged k : k ∈ wn ↔ flagged false true k.
Proof. apply other_flagged; [done|]. by intros [[] [] ?]. Qed.
Lemma rn_flagged k : k ∈ rn ↔ flagged false false k.
Proof. apply other_flagged; [done|]. by intros [[] [] ?]. Qed.

Lemma compiled_elem k : k ∈ compiled_account_keys ↔ w_present (wish ixs payer k) = true.
Proof.
  unfold compiled_account_keys.
  rewrite !elem_of_app, ws_flagged, rs_flagged, wn_flagged, rn_flagged. unfold flagged.
  split; [tauto|]. intros ->. destruct (w_signer _), (w_writable _); tauto.
Qed.
Lemma compiled_NoDup : NoDup compiled_account_keys.
Proof.
  pose proof kmap_NoDup as Hd.
  assert (NoDup ws) as Hws.
  { apply list.NoDup_app. split_and!; [destruct payer; repeat constructor; set_solver| |
      by apply keys_where_NoDup].
    intros k Hk [Hn _]%elem_seg. apply Hn. destruct payer; set_solver. }
  unfold compiled_account_keys.
  repeat (apply list.NoDup_app; split_and!; try done; try (by apply keys_where_NoDup)).
  all: intros k; rewrite ?elem_of_app, ?ws_flagged, ?rs_flagged, ?wn_flagged, ?rn_flagged;
    unfold flagged; naive_solver congruence.
Qed.

(** where a key stands tells its flags *)
Lemma compiled_flags h keys i k :
  try_into_message_components (compile_keys ixs payer) = Ok (h, keys) → getN keys i = Some k →
  (i <? num_required_signatures h) = w_signer (wish ixs payer k) ∧
  (i <? num_required_signatures h - num_readonly_signed_accounts h) ||
    ((num_required_signatures h <=? i) && (i <? len keys - num_readonly_unsigned_accounts h)) =
  w_writable (wish ixs payer k).
Proof.
  intros (-> & -> & _ & _)%components_eq.
  cbn [num_required_signatures num_readonly_signed_accounts num_readonly_unsigned_accounts].
  pose proof (len_app ws (rs ++ wn ++ rn)). pose proof (len_app rs (wn ++ rn)).
  pose proof (len_app wn rn).
  intros [[? Hk%getN_elem]|[? [[? Hk%getN_elem]|[? [[? Hk%getN_elem]|[Hlt Hk]]%getN_app_cases]]
    %getN_app_cases]]%getN_app_cases.
  4: pose proof (getN_lt _ _ _ Hk); apply getN_elem in Hk.
  1: apply ws_flagged in Hk as (_ & -> & ->).
  2: apply rs_flagged in Hk as (_ & -> & ->).
  3: apply wn_flagged in Hk as (_ & -> & ->).
  4: apply rn_flagged in Hk as (_ & -> & ->).
  all: repeat match goal with
    | |- context [?a <? ?b] => destruct (N.ltb_spec a b)
    | |- context [?a <=? ?b] => destruct (N.leb_spec a b)
    end; simpl; try done; exfalso; lia.
Qed.

Lemma payer_first h keys p :
  try_into_message_components (compile_keys ixs payer) = Ok (h, keys) → payer = Some p →
  getN keys 0 = Some p ∧ num_readonly_signed_accounts h < num_required_signatures h.
Proof.
  intros (-> & -> & _ & _)%components_eq Hp. unfold ws. rewrite Hp. simpl. split; [done|].
  unfold len. simpl. lia.
Qed.
Lemma components_bounds h keys :
  try_into_message_components (compile_keys ixs payer) = Ok (h, keys) →
  keys = compiled_account_keys ∧ num_readonly_signed_accounts h ≤ num_required_signatures h ∧
  num_required_signatures h ≤ u8_max ∧
  num_required_signatures h + num_readonly_unsigned_accounts h ≤ len keys.
Proof.
  intros (-> & -> & ? & ?)%components_eq. simpl. split; [done|].
  unfold len in *. rewrite !length_app. lia.
Qed.
End layout.

(** ** Compiled instructions *)
Lemma key_position keys k :
  k ∈ keys → ∃ i, position (λ x, key_eqb x k) keys = Some i ∧ getN keys i = Some k.
Proof.
  intros Hk. destruct (position _ keys) as [i|] eqn:Hp.
  - exists i. split; [done|]. apply position_Some in Hp as (x & Hx & <-%key_eqb_true & _). done.
  - pose proof (position_None _ _ Hp k Hk) as E. simpl in E. by rewrite key_eqb_refl in E.
Qed.
Lemma legacy_position_Ok {E} keys k :
  k ∈ keys → len keys ≤ 256 →
  ∃ i, legacy_position (E:=E) keys k = Ok i ∧ getN keys i = Some k.
Proof.
  intros (i & Hp & Hi)%key_position Hlen. exists i. unfold legacy_position. rewrite Hp. simpl.
  split; [|done]. f_equal. apply N.mod_small. apply getN_lt in Hi. lia.
Qed.

(** a compiled instruction and the instruction it stands for *)
Record resolves (keys : list Pubkey) (ix : Instruction) (ci : CompiledInstruction) : Prop := {
  rs_program : getN keys (program_id_index ci) = Some (ix_program_id ix);
  rs_accounts : Forall2 (λ a i, getN keys i = Some (meta_pubkey a)) (ix_accounts ix) (ci_accounts ci);
  rs_data : ci_data ci = ix_data ix }.

Lemma wish_instructions_elem ixs ix k :
  ix ∈ ixs → w_present (wish_instruction k ix) = true → w_present (wish_instructions k ixs) = true.
Proof.
  induction ixs as [|x ixs IH]; [intros []%not_elem_of_nil|]. simpl.
  intros [->|?]%elem_of_cons Hw; [by rewrite Hw|]. by rewrite IH, orb_true_r.
Qed.
Lemma mentioned ixs payer ix k :
  ix ∈ ixs → k = ix_program_id ix ∨ k ∈ meta_pubkey <$> ix_accounts ix →
  k ∈ compiled_account_keys ixs payer.
Proof.
  intros Hin Hk. apply compiled_elem. unfold wish, wjoin. simpl.
  rewrite (wish_instructions_elem ixs ix k); [done..|]. unfold wish_instruction. simpl.
  destruct Hk as [->|(a & -> & Ha)%list_elem_of_fmap]; [by rewrite key_eqb_refl|].
  apply orb_true_iff. right. induction (ix_accounts ix) as [|b l IH]; [by apply not_elem_of_nil in Ha|].
  simpl. apply elem_of_cons in Ha as [->|Ha]; [by rewrite key_eqb_refl|]. by rewrite IH, orb_true_r.
Qed.

Lemma compile_instruction_Ok {E} ixs payer ix :
  ix ∈ ixs → len (compiled_account_keys ixs payer) ≤ 256 →
  ∃ ci, compile_instruction (E:=E) ix (compiled_account_keys ixs payer) = Ok ci ∧
    resolves (compiled_account_keys ixs payer) ix ci.
Proof.
  intros Hin Hlen. set (keys := compiled_account_keys ixs payer) in *.
  destruct (legacy_position_Ok (E:=E) keys (ix_program_id ix)) as (p & Hp & Hgp);
    [by eapply mentioned; eauto|done|].
  assert (∃ l, rmapM (λ a, legacy_position (E:=E) keys (meta_pubkey a)) (ix_accounts ix) = Ok l ∧
    Forall2 (λ a i, getN keys i = Some (meta_pubkey a)) (ix_accounts ix) l) as (l & Hl & HF).
  { assert (Hall : ∀ a, a ∈ ix_accounts ix → meta_pubkey a ∈ keys).
    { intros a Ha. eapply mentioned; [done|]. right. by apply list_elem_of_fmap_2. }
    induction (ix_accounts ix) as [|a as' IH]; simpl; [by exists []; repeat constructor|].
    destruct (legacy_position_Ok (E:=E) keys (meta_pubkey a)) as (i & -> & Hi); [set_solver|done|].
    destruct IH as (l & -> & HF); [set_solver|]. exists (i :: l). split; [done|]. by constructor. }
  eexists. unfold compile_instruction. rewrite Hl. simpl. rewrite Hp. simpl. split; [done|]. by split.
Qed.

(** the messages [new_with_blockhash] makes *)
Lemma new_with_blockhash_eq {E} ixs payer bh m :
  new_with_blockhash (E:=E) ixs payer bh = Ok m →
  try_into_message_components (compile_keys ixs payer) = Ok (msg_header m, msg_account_keys m) ∧
  msg_account_keys m = compiled_account_keys ixs payer ∧ msg_recent_blockhash m = bh ∧
  (len (msg_account_keys m) ≤ 256 → Forall2 (resolves (msg_account_keys m)) ixs (msg_instructions m)).
Proof.
  unfold new_with_blockhash.
  destruct (try_into_message_components _) as [[h keys]| |] eqn:Hc; [|done..].
  destruct (rmapM _ _) as [l| |] eqn:Hl; simpl; [|done..]. intros [= <-]. simpl.
  destruct (components_bounds _ _ _ _ Hc) as [-> _]. split_and!; [done..|]. intros Hlen.
  apply rmapM_Ok in Hl. apply Forall2_same_length_lookup_2; [by apply Forall2_length in Hl|].
  intros i ix ci Hi Hci. pose proof (Forall2_lookup_lr _ _ _ _ _ _ Hl Hi Hci) as Hx. simpl in Hx.
  destruct (compile_instruction_Ok (E:=E) ixs payer ix) as (ci' & Hx' & Hr);
    [by eapply list_elem_of_lookup_2|done|]. congruence.
Qed.

(** ** Compiled messages *)
Lemma legacy_is_writable_index {E} m i :
  num_readonly_signed_accounts (msg_header m) ≤ num_required_signatures (msg_header m) →
  num_required_signatures (msg_header m) ≤ u8_max →
  num_required_signatures (msg_header m) + num_readonly_unsigned_accounts (msg_header m) ≤
    len (msg_account_keys m) → len (msg_account_keys m) ≤ u64_max →
  legacy_is_writable (E:=E) m i =
  if (i <? num_required_signatures (msg_header m) - num_readonly_signed_accounts (msg_header m)) ||
     ((num_required_signatures (msg_header m) <=? i) &&
      (i <? len (msg_account_keys m) - num_readonly_unsigned_accounts (msg_header m)))
  then let! key := unwrap (getN (msg_account_keys m) i) in
       Ok (negb (is_builtin_key_or_sysvar key) && negb (demote_program_id m i))
  else Ok false.
Proof.
  unfold legacy_is_writable, u8_max, u64_max. set (h := msg_header m). intros H1 H2 H3 H4. cbv zeta.
  replace (as_u8 (num_required_signatures h + (256 - num_readonly_signed_accounts h)))
    with (num_required_signatures h - num_readonly_signed_accounts h).
  2:{ unfold as_u8. destruct (N.eq_dec (num_readonly_signed_accounts h) 0) as [->|].
      - rewrite !N.sub_0_r. rewrite <-(N.Div0.add_mod_idemp_r _ 256), N.Div0.mod_same, N.add_0_r.
        symmetry. apply N.mod_small. lia.
      - replace (num_required_signatures h + (256 - num_readonly_signed_accounts h)) with
          (num_required_signatures h - num_readonly_signed_accounts h + 1 * 256) by lia.
        rewrite N.Div0.mod_add. symmetry. apply N.mod_small. lia. }
  replace (wrapping_sub (len (msg_account_keys m)) (num_readonly_unsigned_accounts h))
    with (len (msg_account_keys m) - num_readonly_unsigned_accounts h); [done|].
  unfold wrapping_sub, as_u64. rewrite (N.mod_small (num_readonly_unsigned_accounts h)) by lia.
  replace (len (msg_account_keys m) + (18446744073709551616 - num_readonly_unsigned_accounts h))
    with (len (msg_account_keys m) - num_readonly_unsigned_accounts h + 1 * 18446744073709551616) by lia.
  rewrite N.Div0.mod_add. symmetry. apply N.mod_small. lia.
Qed.

Lemma compiled_writable {E} ixs payer bh m i k :
  new_with_blockhash (E:=E) ixs payer bh = Ok m → len (msg_account_keys m) ≤ 256 →
  getN (msg_account_keys m) i = Some k →
  legacy_is_writable (E:=E) m i =
  Ok (w_writable (wish ixs payer k) && negb (is_builtin_key_or_sysvar k) &&
      negb (demote_program_id m i)).
Proof.
  intros (Hc & _ & _ & _)%new_with_blockhash_eq Hlen Hi.
  destruct (components_bounds _ _ _ _ Hc) as (_ & ? & ? & ?).
  rewrite legacy_is_writable_index by (unfold u64_max; lia || done).
  destruct (compiled_flags _ _ _ _ _ _ Hc Hi) as [_ ->]. rewrite Hi. cbn [rbind unwrap].
  by destruct (w_writable _).
Qed.

Definition payer_not_invoked (ixs : list Instruction) (payer : Pubkey) : Prop :=
  Forall (λ ix, ix_program_id ix ≠ payer) ixs.

Lemma compiled_sanitized {E} ixs payer bh m :
  new_with_blockhash (E:=E) ixs (Some payer) bh = Ok m → len (msg_account_keys m) ≤ 256 →
  payer_not_invoked ixs payer → sanitize m = Ok tt.
Proof.
  intros (Hc & Hk & _ & Hr)%new_with_blockhash_eq Hlen Hpay.
  destruct (components_bounds _ _ _ _ Hc) as (_ & ? & ? & ?).
  destruct (payer_first _ _ _ _ payer Hc eq_refl) as [Hp ?]. unfold sanitize.
  rewrite (proj2 (N.ltb_ge _ _)) by done. rewrite (proj2 (N.leb_gt _ _)) by done.
  rewrite (rmapM_fmap _ (λ _, tt)); [done|].
  intros ci (j & Hj)%list_elem_of_lookup.
  destruct (Forall2_lookup_r _ _ _ _ _ (Hr Hlen) Hj) as (ix & Hix & [Hprog Hacc _]).
  unfold sanitize_instruction. rewrite (proj2 (N.leb_gt _ _)) by (by eapply getN_lt).
  destruct (N.eqb_spec (program_id_index ci) 0) as [E0|_].
  { rewrite E0 in Hprog. unfold payer_not_invoked in Hpay. rewrite list.Forall_forall in Hpay.
    exfalso. apply (Hpay ix); [by eapply list_elem_of_lookup_2|congruence]. }
  assert (existsb (λ ai, len (msg_account_keys m) <=? ai) (ci_accounts ci) = false) as ->; [|done].
  apply not_true_iff_false. rewrite existsb_exists. intros (a & Ha & Hle%N.leb_le).
  apply list_elem_of_In, list_elem_of_lookup in Ha as (n & Hn).
  destruct (Forall2_lookup_r _ _ _ _ _ Hacc Hn) as (x & _ & Hx%getN_lt). lia.
Qed.

Lemma compile_Ok {E} ixs payer bh :
  len (compiled_account_keys ixs payer) ≤ u8_max →
  ∃ m, new_with_blockhash (E:=E) ixs payer bh = Ok m ∧
    msg_account_keys m = compiled_account_keys ixs payer.
Proof.
  intros Hlen. destruct (components_total ixs payer Hlen) as [h Hc].
  unfold new_with_blockhash. rewrite Hc.
  assert (∃ l, rmapM (E:=E) (λ ix, compile_instruction ix (compiled_account_keys ixs payer)) ixs = Ok l)
    as [l ->]; [|by eexists].
  assert (Hin : ∀ ix, ix ∈ ixs → ix ∈ ixs) by done. revert Hin. generalize ixs at 1 4. intros ixs'.
  induction ixs' as [|ix l IH]; intros Hin; simpl; [by eexists|].
  destruct (compile_instruction_Ok (E:=E) ixs payer ix) as (ci & -> & _);
    [set_solver|unfold u8_max in Hlen; lia|].
  destruct IH as [l' ->]; [set_solver|]. by eexists.
Qed.

(** ** Version 0 messages *)
Lemma rposition_key keys k i :
  account_index keys k = Some i → getN keys i = Some k.
Proof.
  unfold account_index, getN. revert i. induction keys as [|x keys IH]; intros i; simpl; [done|].
  destruct (rposition _ keys) as [j|].
  - intros [= <-]. rewrite N2Nat.inj_succ. by apply IH.
  - destruct (key_eqb x k) eqn:Hx; [|done]. intros [= <-]. apply key_eqb_true in Hx as ->. done.
Qed.

Lemma try_compile_instruction_resolves keys ix ci :
  try_compile_instruction keys ix = Ok ci → resolves keys ix ci.
Proof.
  unfold try_compile_instruction.
  destruct (rmapM _ _) as [l| |] eqn:Hl; simpl; [|done..].
  destruct (account_index keys (ix_program_id ix)) as [p|] eqn:Hp; simpl; [|done].
  intros [= <-]. split; simpl; [by apply rposition_key| |done].
  apply rmapM_Ok in Hl. eapply list.Forall2_impl; [exact Hl|]. intros a i. simpl.
  intros Hi. destruct (account_index keys (meta_pubkey a)) as [j|] eqn:Hj; [|done].
  injection Hi as <-. by apply rposition_key.
Qed.

(** what a lookup of a table loads *)
Definition looked_up (tables : list AddressLookupTableAccount) (l : MessageAddressTableLookup)
    (la : LoadedAddresses) : Prop :=
  ∃ t, t ∈ tables ∧ table_key t = lookup_account_key l ∧
    Forall2 (λ i k, getN (table_addresses t) i = Some k ∧ i ≤ u8_max) (writable_indexes l)
      (loaded_writable la) ∧
    Forall2 (λ i k, getN (table_addresses t) i = Some k ∧ i ≤ u8_max) (readonly_indexes l)
      (loaded_readonly la).

Lemma drain_search_found addresses search found :
  drain_search addresses search = Ok found →
  Forall2 (λ i k, getN addresses i = Some k ∧ i ≤ u8_max) found.1 found.2.
Proof.
  revert found. induction search as [|k search IH]; intros found; simpl; [intros [= <-]; constructor|].
  destruct (position _ addresses) as [i|] eqn:Hp; [|apply IH].
  destruct (N.leb_spec i u8_max); [|done]. destruct (drain_search addresses search); simpl; [|done..].
  intros [= <-]. simpl. constructor; [|by apply IH].
  by apply position_Some in Hp as (x & Hx & <-%key_eqb_true & _).
Qed.

Lemma extract_table_found table ck l la ck' :
  try_extract_table_lookup table ck = Ok (Some (l, la), ck') →
  ∀ tables, table ∈ tables → looked_up tables l la.
Proof.
  unfold try_extract_table_lookup, try_drain_keys_found_in_lookup_table.
  destruct (drain_search _ _) as [w| |] eqn:Hw; simpl; [|done..].
  destruct (drain_search _ _) as [r| |] eqn:Hr in |- *; simpl; [|done..].
  apply drain_search_found in Hw, Hr. destruct w as [wi wk], r as [ri rk]; simpl in *.
  intros H tables Hin. assert (l = mkMessageAddressTableLookup (table_key table) wi ri ∧
    la = mkLoadedAddresses wk rk) as [-> ->].
  { destruct wi, ri; by simplify_eq. }
  by exists table.
Qed.

Lemma extract_lookups_found tables ck ls ck' :
  extract_lookups tables ck = Ok (ls, ck') → Forall (λ x, looked_up tables x.1 x.2) ls.
Proof.
  assert (H : ∀ all ts ck ls, (∀ t, t ∈ ts → t ∈ all) →
    extract_lookups ts ck = Ok (ls, ck') → Forall (λ x, looked_up all x.1 x.2) ls).
  { intros all ts. induction ts as [|t ts IH]; intros ck0 ls0 Hall; simpl; [intros [= <- _]; constructor|].
    destruct (try_extract_table_lookup t ck0) as [[o ck1]| |] eqn:Ht; simpl; [|done..].
    destruct (extract_lookups ts ck1) as [[ls1 ck2]| |] eqn:Hts; simpl; [|done..].
    intros [= <- <-]. apply IH in Hts; [|set_solver].
    destruct o as [[l la]|]; simpl; [|done]. constructor; [|done]. simpl.
    eapply extract_table_found; [exact Ht|set_solver]. }
  by apply H.
Qed.
Lemma extract_lookups_payer tables : ∀ ck ls ck',
  extract_lookups tables ck = Ok (ls, ck') → ck_payer ck' = ck_payer ck.
Proof.
  induction tables as [|t tables IH]; intros ck ls ck'; simpl; [by intros [= _ <-]|].
  unfold try_extract_table_lookup, try_drain_keys_found_in_lookup_table.
  do 2 (destruct (drain_search _ _); simpl; [|done..]).
  case_match; [case_match|]; simpl; (destruct (extract_lookups _ _) as [[ls1 ck1]| |] eqn:Hx;
    simpl; [|done..]); apply IH in Hx; simpl in Hx; by intros [= _ <-].
Qed.

(** ** The theorems *)

(** C30: a legacy message that [new_with_blockhash] makes and whose indices fit in a byte
    stands for exactly the instructions it was made from: every compiled
    instruction resolves to its program, accounts and data, the keys are the ones
    mentioned, each once, and an index is a signer, or writable, exactly when the
    payer or some instruction asked for it (builtin keys and called programs
    apart). *)
Theorem compiled_message_faithful {E} ixs payer bh m :
  new_with_blockhash (E:=E) ixs payer bh = Ok m → len (msg_account_keys m) ≤ 256 →
  Forall2 (resolves (msg_account_keys m)) ixs (msg_instructions m) ∧
  NoDup (msg_account_keys m) ∧
  (∀ k, k ∈ msg_account_keys m ↔ w_present (wish ixs payer k) = true) ∧
  ∀ i k, getN (msg_account_keys m) i = Some k →
    legacy_is_signer m i = w_signer (wish ixs payer k) ∧
    legacy_is_writable (E:=E) m i =
      Ok (w_writable (wish ixs payer k) && negb (is_builtin_key_or_sysvar k) &&
          negb (demote_program_id m i)).
Proof.
  intros Hm Hlen. pose proof Hm as (Hc & Hk & _ & Hr)%new_with_blockhash_eq.
  split_and!; [auto|rewrite Hk; apply compiled_NoDup|intros k; rewrite Hk; apply compiled_elem|].
  intros i k Hi. split; [|by eapply compiled_writable].
  by destruct (compiled_flags _ _ _ _ _ _ Hc Hi).
Qed.

Definition sample_transfer : Instruction :=
  mkInstruction system_program_id
    [meta_new (pubkey_of_N 1) true; meta_new (pubkey_of_N 2) false] [2; 0; 0; 0].
Definition sample_message : Message :=
  mkMessage (mkMessageHeader 1 0 1) [pubkey_of_N 1; pubkey_of_N 2; system_program_id]
    (mkHash []) [mkCompiledInstruction 2 [0; 1] [2; 0; 0; 0]].

Lemma compiled_message_faithful_witness :
  new_with_blockhash (E:=unit) [sample_transfer] (Some (pubkey_of_N 1)) (mkHash []) =
    Ok sample_message ∧
  legacy_is_writable (E:=unit) sample_message 1 = Ok true.
Proof.
  split; [by vm_compute|].
  destruct (compiled_message_faithful (E:=unit) [sample_transfer] (Some (pubkey_of_N 1)) (mkHash [])
    sample_message ltac:(by vm_compute) ltac:(by vm_compute)) as (_ & _ & _ & H).
  destruct (H 1 (pubkey_of_N 2) eq_refl) as [_ ->]. by vm_compute.
Defined.

(** A transaction with at most 255 distinct keys compiles without a panic, and when its
    payer is not one of the programs it calls the message passes [sanitize]. *)
Theorem compile_total_sanitized {E} ixs payer bh :
  len (compiled_account_keys ixs (Some payer)) ≤ u8_max → payer_not_invoked ixs payer →
  ∃ m, new_with_blockhash (E:=E) ixs (Some payer) bh = Ok m ∧ sanitize m = Ok tt.
Proof.
  intros Hlen Hp. destruct (compile_Ok (E:=E) ixs (Some payer) bh Hlen) as (m & Hm & Hk).
  exists m. split; [done|]. eapply compiled_sanitized; [done| |done].
  rewrite Hk. unfold u8_max in Hlen. lia.
Qed.

Lemma compile_total_sanitized_witness :
  ∃ m, new_with_blockhash (E:=unit) [sample_transfer] (Some (pubkey_of_N 1)) (mkHash []) = Ok m ∧
    sanitize m = Ok tt.
Proof.
  apply compile_total_sanitized; [by vm_compute|]. constructor; [by vm_compute|constructor].
Defined.

(** A version 0 message that [try_compile] makes resolves, over its static keys
    and the addresses its table lookups load, to the instructions it was made from;
    each lookup names a given table and loads the addresses at its indexes. *)
Theorem v0_compiled_message_resolves payer ixs tables bh v :
  try_compile payer ixs tables bh = Ok v →
  ∃ las, Forall2 (looked_up tables) (address_table_lookups v) las ∧
    let keys := account_keys_iter (v0_account_keys v (loaded_addresses_collect las)) in
    Forall2 (resolves keys) ixs (msg_instructions (v0_base v)) ∧ len keys ≤ 256 ∧
    getN keys 0 = Some payer.
Proof.
  unfold try_compile.
  destruct (extract_lookups _ _) as [[ls ck]| |] eqn:Hx; simpl; [|done..].
  destruct (try_into_message_components ck) as [[h keys]| |] eqn:Hc; simpl; [|done..].
  unfold try_compile_instructions. set (k := mkAccountKeys _ _).
  destruct (N.ltb_spec 256 (len (account_keys_iter k))); [done|].
  destruct (rmapM _ ixs) as [l| |] eqn:Hl; simpl; [|done..]. intros [= <-]. simpl.
  exists ls.*2. split_and!.
  - apply extract_lookups_found in Hx. clear -Hx. induction Hx; simpl; by constructor.
  - apply rmapM_Ok in Hl. eapply list.Forall2_impl; [exact Hl|]. intros.
    by apply try_compile_instruction_resolves.
  - done.
  - assert (ck_payer ck = Some payer) as Hp by (by apply extract_lookups_payer in Hx).
    unfold try_into_message_components in Hc. rewrite Hp in Hc.
    destruct (try_into_u8 _); simpl in Hc; [|done..]. destruct (try_into_u8 _); simpl in Hc; [|done..].
    destruct (try_into_u8 _); simpl in Hc; [|done..]. by injection Hc as _ <-.
Qed.

Definition sample_table : AddressLookupTableAccount :=
  mkAddressLookupTableAccount (pubkey_of_N 9) [pubkey_of_N 7; pubkey_of_N 2].
Definition sample_v0 : MessageV0 :=
  mkMessageV0
    (mkMessage (mkMessageHeader 1 0 1) [pubkey_of_N 1; system_program_id] (mkHash [])
       [mkCompiledInstruction 1 [0; 2] [2; 0; 0; 0]])
    [mkMessageAddressTableLookup (pubkey_of_N 9) [1] []].

Lemma v0_compiled_message_resolves_witness :
  try_compile (pubkey_of_N 1) [sample_transfer] [sample_table] (mkHash []) = Ok sample_v0 ∧
  ∃ las, Forall2 (looked_up [sample_table]) (address_table_lookups sample_v0) las ∧
    let keys := account_keys_iter (v0_account_keys sample_v0 (loaded_addresses_collect las)) in
    Forall2 (resolves keys) [sample_transfer] (msg_instructions (v0_base sample_v0)) ∧
    len keys ≤ 256 ∧ getN keys 0 = Some (pubkey_of_N 1).
Proof.
  split; [by vm_compute|].
  apply (v0_compiled_message_resolves (pubkey_of_N 1) [sample_transfer] [sample_table] (mkHash [])).
  by vm_compute.
Defined.

(** on a sanitized message the two message versions agree on which accounts are
    writable: a legacy message and the version 0 message with the same parts and no
    lookups give every index the same answer, and the legacy computation does not
    panic. *)
Theorem versions_agree_on_writable {E} m i :
  sanitize m = Ok tt → num_required_signatures (msg_header m) ≤ u8_max →
  len (msg_account_keys m) ≤ u64_max →
  legacy_is_writable (E:=E) m i =
  Ok (is_writable_internal (mkMessageV0 m []) (mkLoadedAddresses [] []) i).
Proof.
  unfold sanitize. intros Hs H8 H64.
  destruct (N.ltb_spec (len (msg_account_keys m)) (num_required_signatures (msg_header m) +
    num_readonly_unsigned_accounts (msg_header m))); [done|].
  destruct (N.leb_spec (num_required_signatures (msg_header m))
    (num_readonly_signed_accounts (msg_header m))); [done|]. clear Hs.
  rewrite legacy_is_writable_index by lia. unfold is_writable_internal, is_writable_index.
  assert (Hkeys : account_keys_iter (v0_account_keys (mkMessageV0 m []) (mkLoadedAddresses [] [])) =
    msg_account_keys m) by (unfold account_keys_iter; cbn; by rewrite !app_nil_r).
  rewrite account_keys_get_iter. unfold v0_demote_program_id. rewrite Hkeys.
  cbn [v0_base loaded_writable].
  fold (is_upgradeable_loader_present m). fold (is_key_called_as_program m i).
  fold (demote_program_id m i). unfold saturating_sub.
  set (a := num_required_signatures (msg_header m)) in *.
  set (b := num_readonly_signed_accounts (msg_header m)) in *.
  set (c := num_readonly_unsigned_accounts (msg_header m)) in *.
  set (n := len (msg_account_keys m)) in *.
  assert ((i <? a - b) || (a <=? i) && (i <? n - c) =
    if n <=? i then i - n <? len (@nil Pubkey)
    else if a <=? i then i - a <? n - a - c else i <? a - b) as ->.
  { change (len (@nil Pubkey)) with 0. repeat match goal with
      | |- context [?x <? ?y] => destruct (N.ltb_spec x y)
      | |- context [?x <=? ?y] => destruct (N.leb_spec x y)
      end; simpl; try done; lia. }
  destruct (N.leb_spec n i) as [Hni|Hni].
  - change (len (@nil Pubkey)) with 0. by destruct (N.ltb_spec (i - n) 0); [lia|].
  - destruct (getN (msg_account_keys m) i) as [k|] eqn:Hk.
    + cbn [rbind unwrap]. rewrite negb_orb. by destruct (if a <=? i then _ else _).
    + apply lookup_ge_None in Hk. unfold n, len in Hni. lia.
Qed.

Lemma versions_agree_on_writable_witness :
  legacy_is_writable (E:=unit) sample_message 1 =
  Ok (is_writable_internal (mkMessageV0 sample_message []) (mkLoadedAddresses [] []) 1).
Proof. apply versions_agree_on_writable; by vm_compute. Defined.

(** the fast test for builtin programs and sysvars, which first looks up the
    key's first byte in a table, is membership in the two lists. *)
Theorem is_builtin_key_or_sysvar_spec key :
  is_builtin_key_or_sysvar key = bool_decide (key ∈ BUILTIN_PROGRAMS_KEYS ++ SYSVAR_ALL_IDS).
Proof.
  assert (Hall : Forall (λ k, default false (getN MAYBE_BUILTIN_KEY_OR_SYSVAR (first_byte k)) = true)
    (BUILTIN_PROGRAMS_KEYS ++ SYSVAR_ALL_IDS)).
  { vm_compute. repeat constructor. }
  assert (Hs : is_sysvar_id key = bool_decide (key ∈ SYSVAR_ALL_IDS)).
  { apply eq_true_iff_eq. unfold is_sysvar_id. rewrite existsb_exists, bool_decide_eq_true. split.
    - by intros (k & Hk%list_elem_of_In & ->%key_eqb_true).
    - intros Hk%list_elem_of_In. exists key. by rewrite key_eqb_refl. }
  unfold is_builtin_key_or_sysvar. rewrite Hs. rewrite list.Forall_forall in Hall.
  destruct (decide (key ∈ BUILTIN_PROGRAMS_KEYS ++ SYSVAR_ALL_IDS)) as [Hin|Hout].
  - rewrite (Hall _ Hin). rewrite (bool_decide_eq_true_2 _ Hin). apply elem_of_app in Hin.
    apply orb_true_iff. rewrite !bool_decide_eq_true. tauto.
  - rewrite (bool_decide_eq_false_2 _ Hout). rewrite elem_of_app in Hout.
    rewrite !bool_decide_eq_false_2 by tauto. by destruct (default false _).
Qed.

(** an instruction with 300 accounts *)
Definition large_instruction : Instruction :=
  mkInstruction (pubkey_of_N 5)
    (((λ n, meta_new (pubkey_of_N (N.of_nat n)) false) <$> seq 1000 200) ++
     ((λ n, meta_new_readonly (pubkey_of_N (N.of_nat n)) false) <$> seq 2000 100)) [].

(** what stands for the key [k] in a compiled instruction *)
Definition cut_index (keys : list Pubkey) (k : Pubkey) (c : N) : Prop :=
  ∃ i, getN keys i = Some k ∧ c = i `mod` 256 ∧ (getN keys c = Some k ↔ i < 256).
Lemma legacy_position_cut {E} keys k c : NoDup keys → legacy_position (E:=E) keys k = Ok c → cut_index keys k c.
Proof.
  intros Hnd. unfold legacy_position. destruct (position _ keys) as [i|] eqn:Hp; [|done]. intros [= <-].
  apply position_Some in Hp as (x & Hx & <-%key_eqb_true & _). exists i. split; [done|]. split; [done|].
  unfold as_u8. change (u8_max + 1) with 256. split.
  - intros Hc. unfold getN in Hx, Hc. pose proof (NoDup_lookup _ _ _ _ Hnd Hc Hx) as Heq%(inj N.to_nat).
    pose proof (N.mod_lt i 256). lia.
  - intros Hi. by rewrite N.mod_small.
Qed.

(** Only the header's counts are checked against a byte, account indices are cut to one.
    In the instructions of a legacy message that [new_with_blockhash] makes, a program or
    account whose key stands at index [i] has the index [i mod 256], which names the key that
    the instruction did exactly if [i] is less than 256. *)
Theorem legacy_index_truncated {E} ixs payer bh m :
  new_with_blockhash (E:=E) ixs payer bh = Ok m →
  Forall2 (λ ix ci,
    cut_index (msg_account_keys m) (ix_program_id ix) (program_id_index ci) ∧
    Forall2 (λ a c, cut_index (msg_account_keys m) (meta_pubkey a) c) (ix_accounts ix) (ci_accounts ci))
    ixs (msg_instructions m).
Proof.
  intros Hm. pose proof Hm as (_ & Hk & _)%new_with_blockhash_eq. revert Hm. unfold new_with_blockhash.
  pose proof (compiled_NoDup ixs payer) as Hnd. rewrite <-Hk in Hnd. clear Hk.
  destruct (try_into_message_components _) as [[h keys]| |]; [|done..].
  destruct (rmapM _ _) as [l| |] eqn:Hl; cbn [rbind]; [|done..]. intros [= <-]. cbn [msg_account_keys msg_instructions] in *.
  apply rmapM_Ok in Hl. eapply list.Forall2_impl; [exact Hl|]. intros ix ci. unfold compile_instruction.
  destruct (rmapM _ (ix_accounts ix)) as [accounts| |] eqn:Ha; cbn [rbind]; [|done..].
  destruct (legacy_position _ (ix_program_id ix)) as [p| |] eqn:Hp; cbn [rbind]; [|done..]. intros [= <-].
  split; [by apply (legacy_position_cut _ _ _ Hnd Hp)|]. apply rmapM_Ok in Ha. eapply list.Forall2_impl; [exact Ha|].
  intros a c Hc. by apply (legacy_position_cut _ _ _ Hnd Hc).
Qed.

(** of 302 keys the last account is not among the first 256 *)
Definition beyond_byte (r : result unit Message) : bool :=
  match r with
  | Ok m => (len (msg_account_keys m) =? 302) &&
            forallb (λ key, negb (key_eqb key (pubkey_of_N 2099))) (take 256 (msg_account_keys m))
  | _ => false
  end.
Lemma large_beyond : beyond_byte (new_with_blockhash [large_instruction] (Some (pubkey_of_N 1)) (mkHash [])) = true.
Proof. vm_compute. reflexivity. Qed.
Lemma legacy_index_truncated_witness :
  ∃ m ci c, new_with_blockhash (E:=unit) [large_instruction] (Some (pubkey_of_N 1)) (mkHash []) = Ok m ∧
    len (msg_account_keys m) = 302 ∧ msg_instructions m = [ci] ∧
    ix_accounts large_instruction !! 299%nat = Some (meta_new_readonly (pubkey_of_N 2099) false) ∧
    ci_accounts ci !! 299%nat = Some c ∧ getN (msg_account_keys m) c ≠ Some (pubkey_of_N 2099).
Proof.
  pose proof large_beyond as Hb.
  destruct (new_with_blockhash [large_instruction] (Some (pubkey_of_N 1)) (mkHash [])) as [m| |] eqn:Hm; [|done..].
  apply andb_true_iff in Hb as [Hlen%N.eqb_eq Hall].
  pose proof (legacy_index_truncated (E:=unit) [large_instruction] (Some (pubkey_of_N 1)) (mkHash []) m Hm) as Hcut.
  clear Hm. apply Forall2_cons_inv_l in Hcut as (ci & l & [_ Hcut] & Hnil & Hci). apply Forall2_nil_inv_l in Hnil as ->.
  assert (ix_accounts large_instruction !! 299%nat = Some (meta_new_readonly (pubkey_of_N 2099) false)) as Hlast
    by (vm_compute; reflexivity).
  destruct (Forall2_lookup_l _ _ _ _ _ Hcut Hlast) as (c & Hc & i & Hi & _ & Hiff).
  exists m, ci, c. split_and!; [done..|]. intros Hget%Hiff. rewrite forallb_forall in Hall.
  specialize (Hall (pubkey_of_N 2099)). cbn beta in Hall. rewrite key_eqb_refl in Hall. discriminate Hall.
  apply list_elem_of_In, list_elem_of_lookup. exists (N.to_nat i). rewrite lookup_take_lt by lia. exact Hi.
Defined.
