(* ===== verification/Rent.v ===== *)
(** * Rent ([sdk/program/src/rent.rs])

    The rent parameters and the balance arithmetic.  [f64] is IEEE 754
    binary64, as the standard library's [spec_float] with 53 bits of precision;
    the casts between [u64] and [f64] are written out. *)

From S2P Require Import Prelude.
From Stdlib Require Import SpecFloat.

(** ** [f64] *)
Abbreviation f64 := spec_float.
Definition f64_mul : f64 → f64 → f64 := SFmul 53 1024.
(** [n as f64]: round to nearest, ties to even *)
Definition f64_of_u64 (n : N) : f64 := binary_normalize 53 1024 (Z.of_N n) 0 false.
(** [x as u64]: truncate towards zero, saturate; a NaN becomes 0 *)
Definition f64_to_u64 (x : f64) : N :=
  match x with
  | S754_zero _ | S754_nan | S754_infinity true | S754_finite true _ _ => 0
  | S754_infinity false => u64_max
  | S754_finite false m e =>
      N.min u64_max
        (Z.to_N (if (0 <=? e)%Z then Z.pos m * 2 ^ e else Z.pos m / 2 ^ (- e)))%Z
  end.

(** ** [Rent] *)
Record Rent := mkRent {
  lamports_per_byte_year : N;
  exemption_threshold : f64;
  burn_percent : N }.

Definition DEFAULT_LAMPORTS_PER_BYTE_YEAR : N :=
  (((1000000000 `div` 100) * 365) `div` (1024 * 1024))%N.
Definition DEFAULT_EXEMPTION_THRESHOLD : f64 := f64_of_u64 2.
Definition DEFAULT_BURN_PERCENT : N := 50.
Definition ACCOUNT_STORAGE_OVERHEAD : N := 128.

Definition rent_default : Rent :=
  mkRent DEFAULT_LAMPORTS_PER_BYTE_YEAR DEFAULT_EXEMPTION_THRESHOLD DEFAULT_BURN_PERCENT.

(** [Rent::calculate_burn]; unchecked [u64] arithmetic wraps in a release build *)
Definition calculate_burn (r : Rent) (rent_collected : N) : N * N :=
  let burned_portion := (wrapping_mul rent_collected (burn_percent r)) `div` 100 in
  (burned_portion, wrapping_sub rent_collected burned_portion).

Definition minimum_balance (r : Rent) (data_len : N) : N :=
  let bytes := data_len in
  f64_to_u64
    (f64_mul
       (f64_of_u64 (wrapping_mul (wrapping_add ACCOUNT_STORAGE_OVERHEAD bytes)
                                 (lamports_per_byte_year r)))
       (exemption_threshold r)).

Definition is_exempt (r : Rent) (balance data_len : N) : bool :=
  minimum_balance r data_len <=? balance.

Inductive RentDue := Exempt | Paying (lamports : N).

Definition due_amount (r : Rent) (data_len : N) (years_elapsed : f64) : N :=
  let actual_data_len := wrapping_add data_len ACCOUNT_STORAGE_OVERHEAD in
  let lamports_per_year := wrapping_mul (lamports_per_byte_year r) actual_data_len in
  f64_to_u64 (f64_mul (f64_of_u64 lamports_per_year) years_elapsed).

Definition due (r : Rent) (balance data_len : N) (years_elapsed : f64) : RentDue :=
  if is_exempt r balance data_len then Exempt
  else Paying (due_amount r data_len years_elapsed).

Definition rent_due_lamports (d : RentDue) : N :=
  match d with Exempt => 0 | Paying x => x end.

Definition rent_due_is_exempt (d : RentDue) : bool :=
  match d with Exempt => true | Paying _ => false end.

(** The published figure: an account without data needs 890,880 lamports. *)
Example minimum_balance_0 : minimum_balance rent_default 0 = 890880.
Proof. vm_compute. reflexivity. Qed.

(** ** Lemmas *)

Lemma wrapping_sub_le a b : b ≤ a → a ≤ u64_max → wrapping_sub a b = a - b.
Proof.
  unfold wrapping_sub, as_u64, u64_max. intros.
  rewrite (N.mod_small b) by lia.
  replace (a + (18446744073709551616 - b)) with (a - b + 1 * 18446744073709551616) by lia.
  rewrite N.Div0.mod_add. apply N.mod_small. lia.
Qed.

(** burning never creates or loses lamports: for every percentage and every
    collected amount (also when the product wraps around 64 bits) the burned share
    and the share left for distribution add up to what was collected. *)
Theorem calculate_burn_split r n :
  burn_percent r ≤ 100 → n ≤ u64_max →
  (calculate_burn r n).1 + (calculate_burn r n).2 = n.
Proof.
  intros Hb Hn. unfold calculate_burn, wrapping_mul. simpl.
  assert (as_u64 (n * burn_percent r) `div` 100 ≤ n)%N as Hle.
  { unfold as_u64, u64_max in *. destruct (N.le_gt_cases (n * burn_percent r) 18446744073709551615).
    - rewrite N.mod_small by lia. apply N.Div0.div_le_upper_bound. nia.
    - pose proof (N.mod_lt (n * burn_percent r) 18446744073709551616).
      apply N.Div0.div_le_upper_bound. nia. }
  rewrite wrapping_sub_le by done. lia.
Qed.

Lemma calculate_burn_split_witness :
  calculate_burn rent_default 1001 = (500, 501) ∧ 500 + 501 = 1001.
Proof.
  split; [reflexivity|].
  apply (calculate_burn_split rent_default 1001); vm_compute; discriminate.
Defined.
