(* ===== verification/Account.v ===== *)
(** * Accounts ([sdk/src/account.rs])

    The in-memory account [AccountSharedData] with HyperGrid's [remote] flag,
    the wire form [Account], and the trait methods the runtime uses on them.
    The reference count of the shared data buffer and the spare capacity of its
    vector are not part of the value and are left out. *)

From S2P Require Import Prelude Sdk.

Record AccountSharedData := mkAccountSharedData {
  lamports : N;
  data : list N;
  owner : Pubkey;
  executable : bool;
  rent_epoch : N;
  (** HyperGrid: the account is a copy of a base-layer account *)
  remote : bool }.

Record Account := mkAccount {
  acc_lamports : N;
  acc_data : list N;
  acc_owner : Pubkey;
  acc_executable : bool;
  acc_rent_epoch : N }.

#[export] Instance AccountSharedData_eq_dec : EqDecision AccountSharedData.
Proof. solve_decision. Defined.
#[export] Instance Account_eq_dec : EqDecision Account.
Proof. solve_decision. Defined.

(** ** [WritableAccount for AccountSharedData] *)
Definition set_lamports (l : N) (a : AccountSharedData) : AccountSharedData :=
  mkAccountSharedData l (data a) (owner a) (executable a) (rent_epoch a) (remote a).
Definition set_data (d : list N) (a : AccountSharedData) : AccountSharedData :=
  mkAccountSharedData (lamports a) d (owner a) (executable a) (rent_epoch a) (remote a).
Definition set_owner (o : Pubkey) (a : AccountSharedData) : AccountSharedData :=
  mkAccountSharedData (lamports a) (data a) o (executable a) (rent_epoch a) (remote a).
Definition set_executable (e : bool) (a : AccountSharedData) : AccountSharedData :=
  mkAccountSharedData (lamports a) (data a) (owner a) e (rent_epoch a) (remote a).
Definition set_rent_epoch (e : N) (a : AccountSharedData) : AccountSharedData :=
  mkAccountSharedData (lamports a) (data a) (owner a) (executable a) e (remote a).
Definition set_remote (b : bool) (a : AccountSharedData) : AccountSharedData :=
  mkAccountSharedData (lamports a) (data a) (owner a) (executable a) (rent_epoch a) b.

(** [slice::copy_from_slice] panics when the lengths differ. *)
Definition copy_into_owner_from_slice (source : list N) (a : AccountSharedData) :
  result InstructionError AccountSharedData :=
  if len source =? len (to_bytes (owner a))
  then Ok (set_owner (mkPubkey source) a) else Panic.

(** [WritableAccount::create] *)
Definition create (l : N) (d : list N) (o : Pubkey) (e : bool) (re : N) : AccountSharedData :=
  mkAccountSharedData l d o e re false.

(** The provided methods of the trait [WritableAccount] *)
Definition checked_add_lamports (n : N) (a : AccountSharedData) :
  result LamportsError.t AccountSharedData :=
  let! l := ok_or (checked_add u64_max (lamports a) n) LamportsError.ArithmeticOverflow in
  Ok (set_lamports l a).
Definition checked_sub_lamports (n : N) (a : AccountSharedData) :
  result LamportsError.t AccountSharedData :=
  let! l := ok_or (checked_sub (lamports a) n) LamportsError.ArithmeticUnderflow in
  Ok (set_lamports l a).
Definition saturating_add_lamports (n : N) (a : AccountSharedData) : AccountSharedData :=
  set_lamports (saturating_add u64_max (lamports a) n) a.
Definition saturating_sub_lamports (n : N) (a : AccountSharedData) : AccountSharedData :=
  set_lamports (saturating_sub (lamports a) n) a.

(** ** Conversions and comparison *)
Definition account_of_shared (other : AccountSharedData) : Account :=
  mkAccount (lamports other) (data other) (owner other) (executable other) (rent_epoch other).
Definition shared_of_account (other : Account) : AccountSharedData :=
  mkAccountSharedData (acc_lamports other) (acc_data other) (acc_owner other)
    (acc_executable other) (acc_rent_epoch other) false.

(** [<Ref<AccountSharedData> as ReadableAccount>::to_account_shared_data]: this
    copy is built field by field, with [remote] cleared. *)
Definition ref_to_account_shared_data (a : AccountSharedData) : AccountSharedData :=
  mkAccountSharedData (lamports a) (data a) (owner a) (executable a) (rent_epoch a) false.

Definition accounts_equal (me other : AccountSharedData) : bool :=
  (lamports me =? lamports other) && eqb (executable me) (executable other)
  && (rent_epoch me =? rent_epoch other) && key_eqb (owner me) (owner other)
  && bool_decide (data me = data other).

(** ** Constructors *)
Definition shared_new (l space : N) (o : Pubkey) : AccountSharedData :=
  create l (replicate (N.to_nat space) 0) o false 0.
Definition shared_new_rent_epoch (l space : N) (o : Pubkey) (re : N) : AccountSharedData :=
  create l (replicate (N.to_nat space) 0) o false re.
Definition shared_new_data {T} `{Bincode T} (l : N) (state : T) (o : Pubkey) :
  option AccountSharedData :=
  (λ d, create l d o false 0) <$> serialize state.

Definition shared_deserialize_data {T} `{Bincode T} (a : AccountSharedData) : option T :=
  deserialize (data a).

(** [bincode::serialize_into] a slice: the bytes after the encoding stay. *)
Definition overwrite (bs d : list N) : list N := bs ++ drop (length bs) d.

Definition shared_serialize_data {T} `{Bincode T} (state : T) (a : AccountSharedData) :
  option AccountSharedData :=
  match serialize state with
  | None => None
  | Some bs =>
      if len (data a) <? len bs then None
      else Some (set_data (overwrite bs (data a)) a)
  end.

Definition shared_new_data_with_space {T} `{Bincode T} (l : N) (state : T)
    (space : N) (o : Pubkey) : option AccountSharedData :=
  shared_serialize_data state (shared_new l space o).

(** ** Buffer operations of [AccountSharedData] *)
Definition resize (new_len value : N) (a : AccountSharedData) : AccountSharedData :=
  let n := N.to_nat new_len in
  set_data (take n (data a) ++ replicate (n - length (data a)) value) a.
Definition extend_from_slice (d : list N) (a : AccountSharedData) : AccountSharedData :=
  set_data (data a ++ d) a.
(** shared or not, the buffer ends up holding exactly the new bytes *)
Definition set_data_from_slice (new_data : list N) (a : AccountSharedData) : AccountSharedData :=
  set_data new_data a.

Definition PROGRAM_OWNERS : list Pubkey :=
  [bpf_loader_upgradeable_id; bpf_loader_id; bpf_loader_deprecated_id; loader_v4_id].

(** ** Lemmas *)

Lemma length_overwrite bs d :
  (length bs ≤ length d)%nat → length (overwrite bs d) = length d.
Proof. unfold overwrite. rewrite length_app, length_drop. lia. Qed.

Lemma accounts_equal_spec a b :
  accounts_equal a b = true ↔ account_of_shared a = account_of_shared b.
Proof.
  destruct a, b. unfold accounts_equal, account_of_shared, key_eqb. simpl.
  rewrite !andb_true_iff, !N.eqb_eq, eqb_true_iff, !bool_decide_eq_true. naive_solver.
Qed.
