(* ===== verification/TransactionContext.v ===== *)
(** * The transaction context ([sdk/src/transaction_context.rs])

    The accounts of a transaction with their [RefCell] borrow state, the stack
    and the trace of instructions, and the borrowed-account handles through
    which programs read and write accounts.

    A [RefCell] is a value with a flag: the sources only ever keep mutable
    borrows ([BorrowedAccount]) alive across calls, the shared borrows are
    dropped in the expression that takes them, so one flag is the whole borrow
    state.  A handle's lifetime is a scope: [with_account] releases it when the
    body ends, whatever the outcome, as Rust drops the [RefMut]. *)

From S2P Require Import Prelude Sdk Rent Account.

(** ** Data *)
Record InstructionAccount := mkInstructionAccount {
  index_in_transaction : N;
  index_in_caller : N;
  index_in_callee : N;
  ia_is_signer : bool;
  ia_is_writable : bool }.

#[export] Instance InstructionAccount_eq_dec : EqDecision InstructionAccount.
Proof. solve_decision. Defined.

Record cell := mkCell { cell_value : AccountSharedData; cell_borrowed : bool }.

Record TransactionAccounts := mkTransactionAccounts {
  accounts : list cell;
  touched_flags : list bool }.

Record TransactionReturnData := mkTransactionReturnData {
  rd_program_id : Pubkey; rd_data : list N }.

Record InstructionContext := mkInstructionContext {
  nesting_level : N;
  ic_lamport_sum : N;
  program_accounts : list N;
  instruction_accounts : list InstructionAccount;
  instruction_data : list N }.

Definition instruction_context_default : InstructionContext :=
  mkInstructionContext 0 0 [] [] [].

Record TransactionContext := mkTransactionContext {
  account_keys : list Pubkey;
  tx_accounts : TransactionAccounts;
  instruction_stack_capacity : N;
  instruction_trace_capacity : N;
  instruction_stack : list N;
  instruction_trace : list InstructionContext;
  return_data : TransactionReturnData;
  accounts_resize_delta : Z;
  rent : Rent }.

Abbreviation TC := (M TransactionContext InstructionError).

(** field updates *)
Definition set_tx_accounts (x : TransactionAccounts) (t : TransactionContext) :=
  mkTransactionContext (account_keys t) x (instruction_stack_capacity t)
    (instruction_trace_capacity t) (instruction_stack t) (instruction_trace t)
    (return_data t) (accounts_resize_delta t) (rent t).
Definition set_instruction_stack (x : list N) (t : TransactionContext) :=
  mkTransactionContext (account_keys t) (tx_accounts t) (instruction_stack_capacity t)
    (instruction_trace_capacity t) x (instruction_trace t)
    (return_data t) (accounts_resize_delta t) (rent t).
Definition set_instruction_trace (x : list InstructionContext) (t : TransactionContext) :=
  mkTransactionContext (account_keys t) (tx_accounts t) (instruction_stack_capacity t)
    (instruction_trace_capacity t) (instruction_stack t) x
    (return_data t) (accounts_resize_delta t) (rent t).
Definition put_return_data (x : TransactionReturnData) (t : TransactionContext) :=
  mkTransactionContext (account_keys t) (tx_accounts t) (instruction_stack_capacity t)
    (instruction_trace_capacity t) (instruction_stack t) (instruction_trace t)
    x (accounts_resize_delta t) (rent t).
Definition set_accounts_resize_delta (x : Z) (t : TransactionContext) :=
  mkTransactionContext (account_keys t) (tx_accounts t) (instruction_stack_capacity t)
    (instruction_trace_capacity t) (instruction_stack t) (instruction_trace t)
    (return_data t) x (rent t).

(** ** [TransactionAccounts] *)
Definition ta_new (l : list AccountSharedData) : TransactionAccounts :=
  mkTransactionAccounts ((λ a, mkCell a false) <$> l) (replicate (length l) false).
Definition ta_len (t : TransactionAccounts) : N := len (accounts t).
Definition ta_get (t : TransactionAccounts) (index : N) : option cell :=
  getN (accounts t) index.
Definition ta_touch (t : TransactionAccounts) (index : N) :
  result InstructionError TransactionAccounts :=
  check! ok_or (getN (touched_flags t) index) NotEnoughAccountKeys in
  Ok (mkTransactionAccounts (accounts t) (setN (touched_flags t) index true)).
Definition touched_count (t : TransactionAccounts) : N :=
  foldl (λ acc (was_touched : bool),
    saturating_add u64_max acc (if was_touched then 1 else 0)) 0 (touched_flags t).
Definition ta_try_borrow (t : TransactionAccounts) (index : N) :
  result InstructionError AccountSharedData :=
  let! c := ok_or (getN (accounts t) index) MissingAccount in
  if cell_borrowed c then Err AccountBorrowFailed else Ok (cell_value c).
(** the account and the accounts with its cell marked as borrowed *)
Definition ta_try_borrow_mut (t : TransactionAccounts) (index : N) :
  result InstructionError (AccountSharedData * TransactionAccounts) :=
  let! c := ok_or (getN (accounts t) index) MissingAccount in
  if cell_borrowed c then Err AccountBorrowFailed else
  Ok (cell_value c,
      mkTransactionAccounts (setN (accounts t) index (mkCell (cell_value c) true))
        (touched_flags t)).
Definition into_accounts (t : TransactionAccounts) : list AccountSharedData :=
  cell_value <$> accounts t.

(** ** [InstructionContext] *)
Definition configure (program_accounts : list N) (instruction_accounts : list InstructionAccount)
    (instruction_data : list N) (ic : InstructionContext) : InstructionContext :=
  mkInstructionContext (nesting_level ic) (ic_lamport_sum ic)
    program_accounts instruction_accounts instruction_data.
Definition get_stack_height (ic : InstructionContext) : N :=
  saturating_add u64_max (nesting_level ic) 1.
Definition get_number_of_program_accounts (ic : InstructionContext) : N :=
  as_u16 (len (program_accounts ic)).
Definition get_number_of_instruction_accounts (ic : InstructionContext) : N :=
  as_u16 (len (instruction_accounts ic)).
Definition check_number_of_instruction_accounts (ic : InstructionContext)
    (expected_at_least : N) : result InstructionError unit :=
  if get_number_of_instruction_accounts ic <? expected_at_least
  then Err NotEnoughAccountKeys else Ok tt.

Definition get_key_of_account_at_index (t : TransactionContext) (index : N) :
  result InstructionError Pubkey :=
  ok_or (getN (account_keys t) index) NotEnoughAccountKeys.
Definition get_account_at_index (t : TransactionContext) (index : N) :
  result InstructionError cell :=
  ok_or (ta_get (tx_accounts t) index) NotEnoughAccountKeys.

Definition ic_find_index_of_program_account (ic : InstructionContext)
    (t : TransactionContext) (pubkey : Pubkey) : option N :=
  as_u16 <$> position (λ i, bool_decide (getN (account_keys t) i = Some pubkey))
               (program_accounts ic).
Definition find_index_of_instruction_account (ic : InstructionContext)
    (t : TransactionContext) (pubkey : Pubkey) : option N :=
  as_u16 <$> position
    (λ ia, bool_decide (getN (account_keys t) (index_in_transaction ia) = Some pubkey))
    (instruction_accounts ic).
Definition get_index_of_program_account_in_transaction (ic : InstructionContext) (i : N) :
  result InstructionError N :=
  ok_or (getN (program_accounts ic) i) NotEnoughAccountKeys.
Definition get_index_of_instruction_account_in_transaction (ic : InstructionContext) (i : N) :
  result InstructionError N :=
  let! ia := ok_or (getN (instruction_accounts ic) i) NotEnoughAccountKeys in
  Ok (index_in_transaction ia).
Definition is_instruction_account_duplicate (ic : InstructionContext) (i : N) :
  result InstructionError (option N) :=
  let! ia := ok_or (getN (instruction_accounts ic) i) NotEnoughAccountKeys in
  Ok (if index_in_callee ia =? i then None else Some (index_in_callee ia)).
Definition get_last_program_key (ic : InstructionContext) (t : TransactionContext) :
  result InstructionError Pubkey :=
  let! index := get_index_of_program_account_in_transaction ic
                  (saturating_sub (get_number_of_program_accounts ic) 1) in
  get_key_of_account_at_index t index.
Definition is_instruction_account_signer (ic : InstructionContext) (i : N) :
  result InstructionError bool :=
  let! ia := ok_or (getN (instruction_accounts ic) i) MissingAccount in Ok (ia_is_signer ia).
Definition is_instruction_account_writable (ic : InstructionContext) (i : N) :
  result InstructionError bool :=
  let! ia := ok_or (getN (instruction_accounts ic) i) MissingAccount in Ok (ia_is_writable ia).

Fixpoint get_signers_loop (t : TransactionContext) (l : list InstructionAccount)
    (acc : gset Pubkey) : result InstructionError (gset Pubkey) :=
  match l with
  | [] => Ok acc
  | ia :: l' =>
      if ia_is_signer ia then
        let! key := get_key_of_account_at_index t (index_in_transaction ia) in
        get_signers_loop t l' ({[key]} ∪ acc)
      else get_signers_loop t l' acc
  end.
Definition get_signers (ic : InstructionContext) (t : TransactionContext) :
  result InstructionError (gset Pubkey) :=
  get_signers_loop t (instruction_accounts ic) ∅.

(** ** [TransactionContext] *)
Definition tc_new (transaction_accounts : list (Pubkey * AccountSharedData)) (r : Rent)
    (stack_capacity trace_capacity : N) : TransactionContext :=
  mkTransactionContext (fst <$> transaction_accounts)
    (ta_new (snd <$> transaction_accounts)) stack_capacity trace_capacity
    [] [instruction_context_default] (mkTransactionReturnData default_pubkey []) 0 r.

Definition deconstruct_without_keys (t : TransactionContext) :
  result InstructionError (list AccountSharedData) :=
  match instruction_stack t with
  | [] => Ok (into_accounts (tx_accounts t))
  | _ => Err CallDepth
  end.

Definition get_number_of_accounts (t : TransactionContext) : N :=
  as_u16 (ta_len (tx_accounts t)).
Definition find_index_of_account (t : TransactionContext) (pubkey : Pubkey) : option N :=
  as_u16 <$> position (λ k, key_eqb k pubkey) (account_keys t).
Definition find_index_of_program_account (t : TransactionContext) (pubkey : Pubkey) : option N :=
  as_u16 <$> rposition (λ k, key_eqb k pubkey) (account_keys t).
Definition get_instruction_trace_length (t : TransactionContext) : N :=
  saturating_sub (len (instruction_trace t)) 1.
Definition get_instruction_context_at_index_in_trace (t : TransactionContext) (i : N) :
  result InstructionError InstructionContext :=
  ok_or (getN (instruction_trace t) i) CallDepth.
Definition get_instruction_context_at_nesting_level (t : TransactionContext) (level : N) :
  result InstructionError InstructionContext :=
  let! i := ok_or (getN (instruction_stack t) level) CallDepth in
  get_instruction_context_at_index_in_trace t i.
Definition get_instruction_context_stack_height (t : TransactionContext) : N :=
  len (instruction_stack t).
Definition get_current_instruction_context (t : TransactionContext) :
  result InstructionError InstructionContext :=
  let! level := ok_or (checked_sub (get_instruction_context_stack_height t) 1) CallDepth in
  get_instruction_context_at_nesting_level t level.

(** [get_next_instruction_context()?] followed by an update through the reference *)
Definition update_next_instruction_context
    (f : InstructionContext → InstructionContext) : TC unit := λ t,
  match list.last (instruction_trace t) with
  | None => (Err CallDepth, t)
  | Some ic =>
      (Ok tt, set_instruction_trace (removelast (instruction_trace t) ++ [f ic]) t)
  end.

(** [0..n] *)
Definition rangeN (n : N) : list N := N.of_nat <$> seq 0 (N.to_nat n).

Fixpoint lamport_sum_loop (t : TransactionContext) (ic : InstructionContext)
    (indices : list N) (sum : N) : result InstructionError N :=
  match indices with
  | [] => Ok sum
  | i :: indices' =>
      let! dup := is_instruction_account_duplicate ic i in
      match dup with
      | Some _ => lamport_sum_loop t ic indices' sum
      | None =>
          let! index := get_index_of_instruction_account_in_transaction ic i in
          let! c := get_account_at_index t index in
          if cell_borrowed c then Err AccountBorrowOutstanding else
          let! sum' := ok_or (checked_add u128_max (lamports (cell_value c)) sum)
                         ArithmeticOverflow in
          lamport_sum_loop t ic indices' sum'
      end
  end.
Definition instruction_accounts_lamport_sum (t : TransactionContext) (ic : InstructionContext) :
  result InstructionError N :=
  lamport_sum_loop t ic (rangeN (get_number_of_instruction_accounts ic)) 0.

(** the caller's accounts still sum to what they did when it was entered *)
Definition verify_caller_balanced : TC unit :=
  stack <- gets instruction_stack ;;
  match stack with
  | [] => ret tt
  | _ =>
      caller <- asks get_current_instruction_context ;;
      current_sum <- asks (λ t, instruction_accounts_lamport_sum t caller) ;;
      if ic_lamport_sum caller =? current_sum then ret tt else throw UnbalancedInstruction
  end.

Definition tc_push : TC unit :=
  level <- gets get_instruction_context_stack_height ;;
  callee <- asks (λ t, ok_or (list.last (instruction_trace t)) CallDepth) ;;
  callee_sum <- asks (λ t, instruction_accounts_lamport_sum t callee) ;;
  verify_caller_balanced ;;
  update_next_instruction_context (λ ic,
    mkInstructionContext level callee_sum (program_accounts ic)
      (instruction_accounts ic) (instruction_data ic)) ;;
  index_in_trace <- gets get_instruction_trace_length ;;
  trace_capacity <- gets instruction_trace_capacity ;;
  if trace_capacity <=? index_in_trace then throw MaxInstructionTraceLengthExceeded else
  modify (λ t, set_instruction_trace (instruction_trace t ++ [instruction_context_default]) t) ;;
  stack_capacity <- gets instruction_stack_capacity ;;
  if stack_capacity <=? level then throw CallDepth else
  modify (λ t, set_instruction_stack (instruction_stack t ++ [index_in_trace]) t).

(** every program account can be borrowed: nothing was left borrowed *)
Fixpoint verify_no_outstanding_refs (t : TransactionContext) (l : list N) :
  result InstructionError unit :=
  match l with
  | [] => Ok tt
  | i :: l' =>
      let! c := get_account_at_index t i in
      if cell_borrowed c then Err AccountBorrowOutstanding
      else verify_no_outstanding_refs t l'
  end.
Definition detected_an_unbalanced_instruction (t : TransactionContext) :
  result InstructionError bool :=
  let! ic := get_current_instruction_context t in
  check! verify_no_outstanding_refs t (program_accounts ic) in
  let! sum := instruction_accounts_lamport_sum t ic in
  Ok (negb (ic_lamport_sum ic =? sum)).
Definition tc_pop : TC unit :=
  stack <- gets instruction_stack ;;
  match stack with
  | [] => throw CallDepth
  | _ =>
      detected <- gets detected_an_unbalanced_instruction ;;
      modify (λ t, set_instruction_stack (removelast (instruction_stack t)) t) ;;
      unbalanced <- lift detected ;;
      if (unbalanced : bool) then throw UnbalancedInstruction else ret tt
  end.

Definition get_return_data (t : TransactionContext) : Pubkey * list N :=
  (rd_program_id (return_data t), rd_data (return_data t)).
Definition set_return_data (program_id : Pubkey) (d : list N) : TC unit :=
  modify (put_return_data (mkTransactionReturnData program_id d)).

Record ExecutionRecord := mkExecutionRecord {
  er_accounts : list (Pubkey * AccountSharedData);
  er_return_data : TransactionReturnData;
  er_touched_account_count : N;
  er_accounts_resize_delta : Z }.
Definition execution_record (t : TransactionContext) : ExecutionRecord :=
  mkExecutionRecord (zip (account_keys t) (into_accounts (tx_accounts t)))
    (return_data t) (touched_count (tx_accounts t)) (accounts_resize_delta t).

(** ** [BorrowedAccount] *)
Record BorrowedAccount := mkBorrowedAccount {
  ba_instruction_context : InstructionContext;
  ba_index_in_transaction : N;
  ba_index_in_instruction : N }.

Definition set_cell (i : N) (f : cell → cell) (t : TransactionContext) : TransactionContext :=
  let ta := tx_accounts t in
  set_tx_accounts
    (mkTransactionAccounts (alter f (N.to_nat i) (accounts ta)) (touched_flags ta)) t.

Definition try_borrow_account (ic : InstructionContext) (index_in_transaction
    index_in_instruction : N) : TC BorrowedAccount :=
  c <- asks (λ t, ok_or (ta_get (tx_accounts t) index_in_transaction) MissingAccount) ;;
  if cell_borrowed c then throw AccountBorrowFailed else
  modify (set_cell index_in_transaction (λ c, mkCell (cell_value c) true)) ;;
  ret (mkBorrowedAccount ic index_in_transaction index_in_instruction).
Definition drop_borrow (ba : BorrowedAccount) : TransactionContext → TransactionContext :=
  set_cell (ba_index_in_transaction ba) (λ c, mkCell (cell_value c) false).
Definition with_account {A} (acquire : TC BorrowedAccount) (body : BorrowedAccount → TC A) :
  TC A := λ t,
  match acquire t with
  | (Ok ba, t1) => let '(r, t2) := body ba t1 in (r, drop_borrow ba t2)
  | (Err e, t1) => (Err e, t1)
  | (Panic, t1) => (Panic, t1)
  end.

Definition try_borrow_program_account (ic : InstructionContext) (i : N) : TC BorrowedAccount :=
  index <- lift (get_index_of_program_account_in_transaction ic i) ;;
  try_borrow_account ic index i.
Definition try_borrow_last_program_account (ic : InstructionContext) : TC BorrowedAccount :=
  try_borrow_program_account ic (saturating_sub (get_number_of_program_accounts ic) 1).
Definition try_borrow_instruction_account (ic : InstructionContext) (i : N) : TC BorrowedAccount :=
  index <- lift (get_index_of_instruction_account_in_transaction ic i) ;;
  try_borrow_account ic index
    (saturating_add u16_max (get_number_of_program_accounts ic) i).

(** The value behind the handle; a handle always points at a cell. *)
Definition ba_account (ba : BorrowedAccount) : TC AccountSharedData :=
  asks (λ t, unwrap (cell_value <$> ta_get (tx_accounts t) (ba_index_in_transaction ba))).
Definition ba_store (ba : BorrowedAccount) (a : AccountSharedData) : TC unit :=
  modify (set_cell (ba_index_in_transaction ba) (λ c, mkCell a (cell_borrowed c))).

Definition ba_get_key (ba : BorrowedAccount) : TC Pubkey :=
  asks (λ t, match get_key_of_account_at_index t (ba_index_in_transaction ba) with
             | Ok k => Ok k | _ => Panic end).

Definition ba_is_signer (ba : BorrowedAccount) : bool :=
  let ic := ba_instruction_context ba in
  if ba_index_in_instruction ba <? get_number_of_program_accounts ic then false else
  unwrap_or_default (is_instruction_account_signer ic
    (saturating_sub (ba_index_in_instruction ba) (get_number_of_program_accounts ic))).
Definition ba_is_writable (ba : BorrowedAccount) : bool :=
  let ic := ba_instruction_context ba in
  if ba_index_in_instruction ba <? get_number_of_program_accounts ic then false else
  unwrap_or_default (is_instruction_account_writable ic
    (saturating_sub (ba_index_in_instruction ba) (get_number_of_program_accounts ic))).
Definition is_owned_by (ic : InstructionContext) (t : TransactionContext)
    (a : AccountSharedData) : bool :=
  unwrap_or_default (rmap (λ key, key_eqb key (owner a)) (get_last_program_key ic t)).
Definition ba_is_owned_by_current_program (ba : BorrowedAccount) : TC bool :=
  a <- ba_account ba ;;
  gets (λ t, is_owned_by (ba_instruction_context ba) t a).

Definition ba_touch (ba : BorrowedAccount) : TC unit := λ t,
  match ta_touch (tx_accounts t) (ba_index_in_transaction ba) with
  | Ok ta => (Ok tt, set_tx_accounts ta t)
  | Err e => (Err e, t)
  | Panic => (Panic, t)
  end.

(** [buf.chunks_exact(n)]: the whole chunks and the remainder *)
Fixpoint chunks_exact (fuel : nat) (n : nat) (buf : list N) : list (list N) * list N :=
  match fuel with
  | O => ([], buf)
  | S fuel' =>
      if (length buf <? n)%nat then ([], buf) else
      let '(cs, r) := chunks_exact fuel' n (drop n buf) in (take n buf :: cs, r)
  end.
Definition ZEROS_LEN : nat := 1024.
Definition is_zeroed (buf : list N) : bool :=
  let ZEROS := replicate ZEROS_LEN 0 in
  let '(chunks, remainder) := chunks_exact (length buf) ZEROS_LEN buf in
  forallb (λ chunk, bool_decide (chunk = ZEROS)) chunks &&
  bool_decide (remainder = take (length remainder) ZEROS).

Definition ba_set_owner (ba : BorrowedAccount) (pubkey : list N) : TC unit :=
  owned <- ba_is_owned_by_current_program ba ;;
  if negb owned then throw ModifiedProgramId else
  if negb (ba_is_writable ba) then throw ModifiedProgramId else
  a <- ba_account ba ;;
  if executable a then throw ModifiedProgramId else
  if negb (is_zeroed (data a)) then throw ModifiedProgramId else
  if bool_decide (to_bytes (owner a) = pubkey) then ret tt else
  ba_touch ba ;;
  a' <- lift (copy_into_owner_from_slice pubkey a) ;;
  ba_store ba a'.

Definition ba_set_lamports (ba : BorrowedAccount) (n : N) : TC unit :=
  owned <- ba_is_owned_by_current_program ba ;;
  a <- ba_account ba ;;
  if negb owned && (n <? lamports a) then throw ExternalAccountLamportSpend else
  if negb (ba_is_writable ba) then throw ReadonlyLamportChange else
  if executable a then throw ExecutableLamportChange else
  if lamports a =? n then ret tt else
  ba_touch ba ;;
  ba_store ba (set_lamports n a).
Definition ba_checked_add_lamports (ba : BorrowedAccount) (n : N) : TC unit :=
  a <- ba_account ba ;;
  l <- lift (ok_or (checked_add u64_max (lamports a) n) ArithmeticOverflow) ;;
  ba_set_lamports ba l.
Definition ba_checked_sub_lamports (ba : BorrowedAccount) (n : N) : TC unit :=
  a <- ba_account ba ;;
  l <- lift (ok_or (checked_sub (lamports a) n) ArithmeticOverflow) ;;
  ba_set_lamports ba l.

Definition ba_can_data_be_changed (ba : BorrowedAccount) : TC unit :=
  a <- ba_account ba ;;
  if executable a then throw ExecutableDataModified else
  if negb (ba_is_writable ba) then throw ReadonlyDataModified else
  owned <- ba_is_owned_by_current_program ba ;;
  if negb owned then throw ExternalAccountDataModified else ret tt.

Definition MAX_PERMITTED_DATA_LENGTH : N := 10 * 1024 * 1024.
Definition MAX_PERMITTED_ACCOUNTS_DATA_ALLOCATIONS_PER_TRANSACTION : Z :=
  (as_i64 MAX_PERMITTED_DATA_LENGTH * 2)%Z.

Definition ba_can_data_be_resized (ba : BorrowedAccount) (new_length : N) : TC unit :=
  a <- ba_account ba ;;
  let old_length := len (data a) in
  owned <- ba_is_owned_by_current_program ba ;;
  if negb (new_length =? old_length) && negb owned then throw AccountDataSizeChanged else
  if MAX_PERMITTED_DATA_LENGTH <? new_length then throw InvalidRealloc else
  let length_delta := i64_saturating_sub (as_i64 new_length) (as_i64 old_length) in
  delta <- gets accounts_resize_delta ;;
  if (MAX_PERMITTED_ACCOUNTS_DATA_ALLOCATIONS_PER_TRANSACTION
      <? i64_saturating_add delta length_delta)%Z
  then throw MaxAccountsDataAllocationsExceeded else ret tt.

Definition ba_update_accounts_resize_delta (ba : BorrowedAccount) (new_len : N) : TC unit :=
  a <- ba_account ba ;;
  modify (λ t, set_accounts_resize_delta
    (i64_saturating_add (accounts_resize_delta t)
       (i64_saturating_sub (as_i64 new_len) (as_i64 (len (data a))))) t).

(** [get_data_mut]: the permission to write through the returned slice *)
Definition ba_get_data_mut (ba : BorrowedAccount) : TC (list N) :=
  ba_can_data_be_changed ba ;;
  ba_touch ba ;;
  a <- ba_account ba ;;
  ret (data a).
Definition ba_set_data_from_slice (ba : BorrowedAccount) (d : list N) : TC unit :=
  ba_can_data_be_resized ba (len d) ;;
  ba_can_data_be_changed ba ;;
  ba_touch ba ;;
  ba_update_accounts_resize_delta ba (len d) ;;
  a <- ba_account ba ;;
  ba_store ba (set_data_from_slice d a).
Definition ba_set_data_length (ba : BorrowedAccount) (new_length : N) : TC unit :=
  ba_can_data_be_resized ba new_length ;;
  ba_can_data_be_changed ba ;;
  a <- ba_account ba ;;
  if len (data a) =? new_length then ret tt else
  ba_touch ba ;;
  ba_update_accounts_resize_delta ba new_length ;;
  ba_store ba (resize new_length 0 a).
Definition ba_extend_from_slice (ba : BorrowedAccount) (d : list N) : TC unit :=
  a <- ba_account ba ;;
  let new_len := saturating_add u64_max (len (data a)) (len d) in
  ba_can_data_be_resized ba new_len ;;
  ba_can_data_be_changed ba ;;
  match d with
  | [] => ret tt
  | _ =>
      ba_touch ba ;;
      ba_update_accounts_resize_delta ba new_len ;;
      ba_store ba (extend_from_slice d a)
  end.

Definition ba_get_state {T} `{Bincode T} (ba : BorrowedAccount) : TC T :=
  a <- ba_account ba ;;
  lift (ok_or (shared_deserialize_data a) InvalidAccountData).
Definition ba_set_state {T} `{Bincode T} (ba : BorrowedAccount) (state : T) : TC unit :=
  d <- ba_get_data_mut ba ;;
  bs <- lift (ok_or (serialize state) GenericError) ;;
  if len d <? len bs then throw AccountDataTooSmall else
  a <- ba_account ba ;;
  ba_store ba (set_data (overwrite bs d) a).

Definition ba_is_rent_exempt_at_data_length (ba : BorrowedAccount) (n : N) : TC bool :=
  a <- ba_account ba ;;
  gets (λ t, is_exempt (rent t) (lamports a) n).
Definition ba_set_executable (ba : BorrowedAccount) (b : bool) : TC unit :=
  a <- ba_account ba ;;
  exempt <- gets (λ t, is_exempt (rent t) (lamports a) (len (data a))) ;;
  if negb exempt then throw ExecutableAccountNotRentExempt else
  owned <- ba_is_owned_by_current_program ba ;;
  if negb owned then throw ExecutableModified else
  if negb (ba_is_writable ba) then throw ExecutableModified else
  if executable a && negb b then throw ExecutableModified else
  if eqb (executable a) b then ret tt else
  ba_touch ba ;;
  ba_store ba (set_executable b a).
