(* ===== verification/AccountRules.v ===== *)
(** * The account rules of the runtime

    An abstract specification of what a program may do to an account through a
    [BorrowedAccount] ([account_rules]), the proof that every operation of
    [sdk/src/transaction_context.rs] implements it, and the frame relation the
    other components' proofs are stated with. *)

From S2P Require Import Prelude Sdk Rent Account TransactionContext.

(** ** The specification *)

(** [account_rules writable program pre post]: the change from [pre] to [post]
    is one the program [program] may make to an account it was passed with the
    given writable privilege. *)
Record account_rules (writable : bool) (program : option Pubkey)
    (pre post : AccountSharedData) : Prop := {
  ar_remote : remote post = remote pre;
  ar_rent_epoch : rent_epoch post = rent_epoch pre;
  ar_readonly : writable = false → post = pre;
  ar_executable : executable pre = true → post = pre;
  ar_external : program ≠ Some (owner pre) →
    data post = data pre ∧ owner post = owner pre ∧
    executable post = executable pre ∧ lamports pre ≤ lamports post;
  ar_reassign : owner post ≠ owner pre → Forall (λ b, b = 0) (data post) }.

Lemma account_rules_refl w p a : account_rules w p a a.
Proof. split; naive_solver lia. Qed.

Lemma account_rules_trans w p a b c :
  account_rules w p a b → account_rules w p b c → account_rules w p a c.
Proof.
  intros [r1 e1 ro1 x1 ex1 as1] [r2 e2 ro2 x2 ex2 as2]. split.
  - congruence.
  - congruence.
  - intros Hw. rewrite ro2, ro1 by done. done.
  - intros Hx. pose proof (x1 Hx) as ->. by apply x2.
  - intros Hp. destruct (ex1 Hp) as (?&Ho&?&?).
    destruct ex2 as (?&?&?&?); [congruence|]. split_and!; [congruence..|lia].
  - intros Hne. destruct (decide (owner b = owner a)) as [Hba|Hba].
    { apply as2. congruence. }
    destruct (decide (p = Some (owner a))) as [->|Hp].
    + destruct ex2 as (->&_); [congruence|]. by apply as1.
    + destruct (ex1 Hp) as (_&?&_). done.
Qed.

(** ** Frames of the transaction context *)

(** pointwise relation on the account cells, which keeps the borrow state *)
Definition cells_rel (Rel : nat → AccountSharedData → AccountSharedData → Prop)
    (l l' : list cell) : Prop :=
  length l' = length l ∧
  ∀ i c c', l !! i = Some c → l' !! i = Some c' →
    cell_borrowed c' = cell_borrowed c ∧ Rel i (cell_value c) (cell_value c').

(** the trace only grows, past its last entry, which is reserved for the next
    instruction *)
Definition trace_ext (l l' : list InstructionContext) : Prop :=
  (length l ≤ length l')%nat ∧ ∀ j, (S j < length l)%nat → l' !! j = l !! j.

Record tc_frame (Rel : nat → AccountSharedData → AccountSharedData → Prop)
    (t t' : TransactionContext) : Prop := {
  tf_keys : account_keys t' = account_keys t;
  tf_stack_capacity : instruction_stack_capacity t' = instruction_stack_capacity t;
  tf_trace_capacity : instruction_trace_capacity t' = instruction_trace_capacity t;
  tf_rent : rent t' = rent t;
  tf_stack : instruction_stack t' = instruction_stack t;
  tf_trace : trace_ext (instruction_trace t) (instruction_trace t');
  tf_cells : cells_rel Rel (accounts (tx_accounts t)) (accounts (tx_accounts t')) }.

Class CellPreorder (Rel : nat → AccountSharedData → AccountSharedData → Prop) := {
  cell_refl : ∀ i a, Rel i a a;
  cell_trans : ∀ i a b c, Rel i a b → Rel i b c → Rel i a c }.

Lemma trace_ext_refl l : trace_ext l l.
Proof. done. Qed.
Lemma trace_ext_trans l1 l2 l3 : trace_ext l1 l2 → trace_ext l2 l3 → trace_ext l1 l3.
Proof.
  intros [Hl1 H1] [Hl2 H2]. split; [lia|]. intros j Hj. rewrite H2 by lia. by apply H1.
Qed.

Section frames.
Context (Rel : nat → AccountSharedData → AccountSharedData → Prop) `{!CellPreorder Rel}.

Lemma cells_rel_refl l : cells_rel Rel l l.
Proof. split; [done|]. intros. simplify_eq. split; [done|apply cell_refl]. Qed.

Lemma cells_rel_trans l1 l2 l3 :
  cells_rel Rel l1 l2 → cells_rel Rel l2 l3 → cells_rel Rel l1 l3.
Proof.
  intros [Hl1 H1] [Hl2 H2]. split; [lia|]. intros i c c'' Hc Hc''.
  destruct (lookup_lt_is_Some_2 l2 i) as [c' Hc'].
  { apply lookup_lt_Some in Hc. lia. }
  destruct (H1 _ _ _ Hc Hc'), (H2 _ _ _ Hc' Hc''). split; [congruence|].
  by eapply cell_trans.
Qed.

Lemma tc_frame_refl t : tc_frame Rel t t.
Proof. split; auto using trace_ext_refl, cells_rel_refl. Qed.

Lemma tc_frame_trans t1 t2 t3 :
  tc_frame Rel t1 t2 → tc_frame Rel t2 t3 → tc_frame Rel t1 t3.
Proof.
  intros [] []. split; try congruence;
    eauto using trace_ext_trans, cells_rel_trans.
Qed.

(** Only the touched flags, the return data and the resize counter differ. *)
Lemma tc_frame_same t t' :
  account_keys t' = account_keys t →
  instruction_stack_capacity t' = instruction_stack_capacity t →
  instruction_trace_capacity t' = instruction_trace_capacity t →
  rent t' = rent t → instruction_stack t' = instruction_stack t →
  instruction_trace t' = instruction_trace t →
  accounts (tx_accounts t') = accounts (tx_accounts t) →
  tc_frame Rel t t'.
Proof.
  intros ?????? Ha. split; try done.
  - rewrite H4. apply trace_ext_refl.
  - rewrite Ha. apply cells_rel_refl.
Qed.

Lemma cells_rel_alter f n l :
  (∀ c, l !! n = Some c → cell_borrowed (f c) = cell_borrowed c ∧
        Rel n (cell_value c) (cell_value (f c))) →
  cells_rel Rel l (alter f n l).
Proof.
  intros Hf. split; [apply length_alter|]. intros i c c' Hc Hc'.
  destruct (decide (i = n)) as [->|Hne].
  - rewrite list_lookup_alter_eq, Hc in Hc'. simplify_eq/=. by apply Hf.
  - rewrite list_lookup_alter_ne in Hc' by done. simplify_eq. split; [done|apply cell_refl].
Qed.
End frames.

Lemma cells_rel_mono (Rel Rel' : nat → AccountSharedData → AccountSharedData → Prop) l l' :
  (∀ i a b, Rel i a b → Rel' i a b) → cells_rel Rel l l' → cells_rel Rel' l l'.
Proof. intros Hm [? H]. split; [done|]. intros. edestruct H; eauto. Qed.

Lemma tc_frame_mono (Rel Rel' : nat → AccountSharedData → AccountSharedData → Prop) t t' :
  (∀ i a b, Rel i a b → Rel' i a b) → tc_frame Rel t t' → tc_frame Rel' t t'.
Proof. intros Hm []. split; eauto using cells_rel_mono. Qed.

(** The relation of the operations on one handle: its account changes by the
    rules, the others stay. *)
Definition handle_rel (ba : BorrowedAccount) (program : option Pubkey)
    (i : nat) (a b : AccountSharedData) : Prop :=
  if decide (i = N.to_nat (ba_index_in_transaction ba))
  then account_rules (ba_is_writable ba) program a b else b = a.

#[export] Instance handle_rel_preorder ba p : CellPreorder (handle_rel ba p).
Proof.
  split; unfold handle_rel; intros; case_decide;
    eauto using account_rules_refl, account_rules_trans; congruence.
Qed.

(** The program that runs the instruction: its last program account. *)
Definition current_program (ic : InstructionContext) (t : TransactionContext) : option Pubkey :=
  match get_last_program_key ic t with Ok k => Some k | _ => None end.

Lemma is_owned_by_program ic t a :
  is_owned_by ic t a = true ↔ current_program ic t = Some (owner a).
Proof.
  unfold is_owned_by, current_program, rmap.
  destruct (get_last_program_key ic t); simpl; rewrite ?key_eqb_true; naive_solver.
Qed.

Definition handle_frame (ba : BorrowedAccount) (t t' : TransactionContext) : Prop :=
  tc_frame (handle_rel ba (current_program (ba_instruction_context ba) t)) t t'.

Lemma current_program_keys ic t t' :
  account_keys t' = account_keys t → current_program ic t' = current_program ic t.
Proof.
  intros H. unfold current_program, get_last_program_key, get_key_of_account_at_index.
  destruct (get_index_of_program_account_in_transaction _ _); simpl; [|done..].
  by rewrite H.
Qed.

#[export] Instance handle_frame_stable ba : StableFrame (λ _, True) (handle_frame ba).
Proof.
  split; [intros; apply tc_frame_refl, _| |done].
  intros t1 t2 t3 H12 H23. unfold handle_frame in *.
  rewrite (current_program_keys _ t1) in H23 by apply H12.
  eapply tc_frame_trans; eauto. apply _.
Qed.

(** ** Every operation follows the rules *)

Lemma handle_frame_store ba t c a :
  ta_get (tx_accounts t) (ba_index_in_transaction ba) = Some c →
  account_rules (ba_is_writable ba) (current_program (ba_instruction_context ba) t)
    (cell_value c) a →
  handle_frame ba t (set_cell (ba_index_in_transaction ba) (λ c, mkCell a (cell_borrowed c)) t).
Proof.
  intros Hc Hr. split; simpl; try done.
  apply cells_rel_alter; [apply _|]. intros c' Hc'.
  unfold ta_get, getN in Hc. simplify_eq/=. split; [done|].
  unfold handle_rel. by rewrite decide_True by done.
Qed.

Lemma ba_touch_frame ba t : handle_frame ba t (ba_touch ba t).2.
Proof.
  unfold ba_touch, ta_touch. destruct (ok_or _ _); simpl; by apply tc_frame_same; [apply _|..].
Qed.

Lemma resize_delta_frame ba t z : handle_frame ba t (set_accounts_resize_delta z t).
Proof. by apply tc_frame_same; [apply _|..]. Qed.

(** Steps that leave the accounts, the stack and the trace as they are. *)
Definition quiet (t t' : TransactionContext) : Prop :=
  account_keys t' = account_keys t ∧
  instruction_stack_capacity t' = instruction_stack_capacity t ∧
  instruction_trace_capacity t' = instruction_trace_capacity t ∧
  rent t' = rent t ∧ instruction_stack t' = instruction_stack t ∧
  instruction_trace t' = instruction_trace t ∧
  accounts (tx_accounts t') = accounts (tx_accounts t).

#[export] Instance quiet_stable : StableFrame (λ _, True) quiet.
Proof. split; unfold quiet; [done| |done]. intros. destruct_and?. split_and!; congruence. Qed.

Lemma quiet_frame Rel `{!CellPreorder Rel} t t' : quiet t t' → tc_frame Rel t t'.
Proof. intros (?&?&?&?&?&?&?). by apply tc_frame_same. Qed.

#[export] Hint Extern 1 (quiet _ _) => (split_and!; reflexivity) : frame.

Lemma ba_account_quiet ba : steps_in (λ _, True) quiet (ba_account ba).
Proof. apply steps_pure, _. Qed.
Lemma ba_touch_quiet ba : steps_in (λ _, True) quiet (ba_touch ba).
Proof. intros t _. unfold ba_touch, ta_touch. by destruct (ok_or _ _). Qed.
#[export] Hint Resolve ba_account_quiet ba_touch_quiet : frame.
Lemma ba_update_delta_quiet ba n :
  steps_in (λ _, True) quiet (ba_update_accounts_resize_delta ba n).
Proof. unfold ba_update_accounts_resize_delta. frame_solve. Qed.

#[export] Hint Resolve ba_update_delta_quiet : frame.

(** The tail of every writing operation: some bookkeeping, then the store. *)
Definition store_ok (ba : BorrowedAccount) (a : AccountSharedData) (t : TransactionContext) :=
  ∀ c, ta_get (tx_accounts t) (ba_index_in_transaction ba) = Some c →
       account_rules (ba_is_writable ba) (current_program (ba_instruction_context ba) t)
         (cell_value c) a.

Lemma store_ok_quiet ba a t t' : quiet t t' → store_ok ba a t → store_ok ba a t'.
Proof.
  intros (Hk&_&_&_&_&_&Ha) H c. unfold ta_get. rewrite Ha.
  rewrite (current_program_keys _ t) by done. apply H.
Qed.

Lemma store_frame ba a t : store_ok ba a t → handle_frame ba t (ba_store ba a t).2.
Proof.
  intros H. unfold ba_store, modify; simpl.
  destruct (ta_get (tx_accounts t) (ba_index_in_transaction ba)) as [c|] eqn:Hc.
  { eapply handle_frame_store; eauto. }
  split; simpl; try done. apply cells_rel_alter; [apply _|].
  unfold ta_get, getN in Hc. intros c' Hc'. congruence.
Qed.

Lemma quiet_store_frame {A B} ba a t (m : TC A) (k : A → TC B) :
  steps_in (λ _, True) quiet m → store_ok ba a t →
  (∀ x t1, store_ok ba a t1 → handle_frame ba t1 (k x t1).2) →
  handle_frame ba t (bind m k t).2.
Proof.
  intros Hm Hs Hk. unfold bind. specialize (Hm t I).
  destruct (m t) as [[x|e|] t1] eqn:Em; simpl in *;
    [|by apply quiet_frame; [apply _|]..].
  eapply (frame_trans (P:=λ _, True)).
  - apply quiet_frame; [apply _|exact Hm].
  - apply Hk. by eapply store_ok_quiet.
Qed.

(** ** The optimised zero test *)
Lemma chunks_exact_spec fuel n buf :
  let '(cs, r) := chunks_exact fuel n buf in
  concat cs ++ r = buf ∧ Forall (λ c, length c = n) cs ∧
  ((0 < n)%nat → (length buf ≤ fuel)%nat → (length r < n)%nat).
Proof.
  revert buf. induction fuel as [|fuel IH]; intros buf; simpl.
  { split_and!; [done|constructor|lia]. }
  destruct (Nat.ltb_spec (length buf) n); [by split_and!|].
  specialize (IH (drop n buf)). destruct (chunks_exact fuel n (drop n buf)) as [cs r].
  destruct IH as (Happ&Hlen&Hr). simpl. split_and!.
  - by rewrite <-app_assoc, Happ, take_drop.
  - constructor; [rewrite length_take; lia|done].
  - intros ? ?. apply Hr; [done|]. rewrite length_drop. lia.
Qed.

Lemma Forall_zero_replicate (l : list N) : Forall (λ b, b = 0) l ↔ l = replicate (length l) 0.
Proof.
  split; [by induction 1; simpl; congruence|].
  intros ->. by apply Forall_replicate.
Qed.

Lemma is_zeroed_Forall buf : is_zeroed buf = true ↔ Forall (λ b, b = 0) buf.
Proof.
  unfold is_zeroed. pose proof (chunks_exact_spec (length buf) ZEROS_LEN buf) as H.
  destruct (chunks_exact _ _ _) as [cs r]. destruct H as (<-&Hlen&Hr).
  assert (Hr' : (length r < ZEROS_LEN)%nat) by (apply Hr; [unfold ZEROS_LEN|]; lia). clear Hr.
  rewrite andb_true_iff, bool_decide_eq_true, forallb_forall, Forall_app.
  rewrite take_replicate, Nat.min_l by lia. rewrite <-Forall_zero_replicate.
  rewrite Forall_concat. rewrite Forall_forall in Hlen.
  rewrite (Forall_forall (Forall _) cs).
  split; (intros [H1 ?]; split; [|done]); intros c Hc.
  - specialize (H1 c). rewrite bool_decide_eq_true in H1.
    apply Forall_zero_replicate. rewrite (Hlen c) by done.
    by apply H1.
  - apply bool_decide_eq_true.
    rewrite <-(Hlen c) by done. by apply Forall_zero_replicate, H1.
Qed.

(** ** The writers, one by one *)
Section rules.
Context (p : option Pubkey) (a : AccountSharedData).
Hypothesis not_executable : executable a = false.

Lemma rules_set_lamports n :
  p = Some (owner a) ∨ lamports a ≤ n → account_rules true p a (set_lamports n a).
Proof. intros. split; simpl; try done; [congruence|]. naive_solver. Qed.

Lemma rules_owned b :
  p = Some (owner a) → remote b = remote a → rent_epoch b = rent_epoch a →
  (owner b ≠ owner a → Forall (λ x, x = 0) (data b)) →
  account_rules true p a b.
Proof. intros. split; try done; congruence. Qed.
End rules.

(** what [owned <- ba_is_owned_by_current_program ba ;; ..] reads *)
Lemma ba_owned_run ba t c :
  ta_get (tx_accounts t) (ba_index_in_transaction ba) = Some c →
  ba_is_owned_by_current_program ba t =
    (Ok (is_owned_by (ba_instruction_context ba) t (cell_value c)), t).
Proof. intros Hc. unfold ba_is_owned_by_current_program, bind, ba_account, asks. by rewrite Hc. Qed.
Lemma ba_account_run ba t c :
  ta_get (tx_accounts t) (ba_index_in_transaction ba) = Some c →
  ba_account ba t = (Ok (cell_value c), t).
Proof. intros Hc. unfold ba_account, asks. by rewrite Hc. Qed.
Lemma ba_account_none ba t :
  ta_get (tx_accounts t) (ba_index_in_transaction ba) = None → ba_account ba t = (Panic, t).
Proof. intros Hc. unfold ba_account, asks. by rewrite Hc. Qed.
Lemma ba_owned_none ba t :
  ta_get (tx_accounts t) (ba_index_in_transaction ba) = None →
  ba_is_owned_by_current_program ba t = (Panic, t).
Proof. intros Hc. unfold ba_is_owned_by_current_program, bind. by rewrite ba_account_none. Qed.

(** Run an operation on a handle up to its first write. *)
Ltac ba_step ba t c Hc :=
  match goal with
  | |- context [bind (ba_account ba) ?k t] =>
      rewrite (bind_ok (ba_account ba) k t _ _ (ba_account_run ba t c Hc))
  | |- context [bind (ba_is_owned_by_current_program ba) ?k t] =>
      rewrite (bind_ok _ k t _ _ (ba_owned_run ba t c Hc))
  | _ => mstep
  end.
Ltac ba_run ba t c Hc :=
  destruct (ta_get (tx_accounts t) (ba_index_in_transaction ba)) as [c|] eqn:Hc;
  [ repeat ba_step ba t c Hc; try (apply tc_frame_refl; apply _)
  | repeat first
      [ rewrite (bind_panic (ba_account ba) _ t t (ba_account_none ba t Hc))
      | rewrite (bind_panic (ba_is_owned_by_current_program ba) _ t t (ba_owned_none ba t Hc))
      | rewrite bind_assoc ];
    try (apply tc_frame_refl; apply _) ].

(** The tail of a writing operation, once the value to store is known to be allowed. *)
Lemma touch_store_frame ba a t :
  store_ok ba a t → handle_frame ba t ((ba_touch ba ;; ba_store ba a) t).2.
Proof. intros. eapply quiet_store_frame; eauto using ba_touch_quiet, store_frame. Qed.
Lemma touch_resize_store_frame ba a n t :
  store_ok ba a t →
  handle_frame ba t
    ((ba_touch ba ;; ba_update_accounts_resize_delta ba n ;; ba_store ba a) t).2.
Proof.
  intros. eapply quiet_store_frame; eauto using ba_touch_quiet. intros.
  eapply quiet_store_frame; eauto using ba_update_delta_quiet, store_frame.
Qed.

Lemma store_ok_run ba a t c :
  ta_get (tx_accounts t) (ba_index_in_transaction ba) = Some c →
  account_rules (ba_is_writable ba) (current_program (ba_instruction_context ba) t)
    (cell_value c) a →
  store_ok ba a t.
Proof. intros Hc ? c' Hc'. by simplify_eq. Qed.

(** turn the boolean tests a run collected into facts *)
Ltac ba_tests :=
  repeat match goal with
  | H : negb _ = false |- _ => apply negb_false_iff in H
  | H : negb _ = true |- _ => apply negb_true_iff in H
  | H : is_owned_by _ _ _ = true |- _ => apply is_owned_by_program in H
  | H : ba_is_writable _ = true |- _ => rewrite H in *
  end.

Lemma ba_set_lamports_frame ba n t : handle_frame ba t (ba_set_lamports ba n t).2.
Proof.
  unfold ba_set_lamports. ba_run ba t c Hc. ba_tests.
  apply touch_store_frame, (store_ok_run _ _ _ c Hc). rewrite Heqb0.
  apply rules_set_lamports; [done|].
  apply andb_false_iff in Heqb as [?|?%N.ltb_ge]; ba_tests; auto.
Qed.

Lemma ba_checked_add_lamports_frame ba n t :
  handle_frame ba t (ba_checked_add_lamports ba n t).2.
Proof.
  unfold ba_checked_add_lamports. ba_run ba t c Hc. apply ba_set_lamports_frame.
Qed.
Lemma ba_checked_sub_lamports_frame ba n t :
  handle_frame ba t (ba_checked_sub_lamports ba n t).2.
Proof.
  unfold ba_checked_sub_lamports. ba_run ba t c Hc. apply ba_set_lamports_frame.
Qed.

Lemma ba_set_owner_frame ba k t : handle_frame ba t (ba_set_owner ba k t).2.
Proof.
  unfold ba_set_owner. ba_run ba t c Hc. ba_tests.
  eapply quiet_store_frame; [apply ba_touch_quiet| |].
  - apply (store_ok_run _ (set_owner (mkPubkey k) (cell_value c)) _ c Hc). rewrite Heqb0.
    apply rules_owned; try done. intros _. by apply is_zeroed_Forall.
  - intros _ t1 Hok. unfold copy_into_owner_from_slice.
    destruct (_ =? _); repeat mstep; [by apply store_frame|apply tc_frame_refl, _].
Qed.

Lemma ba_set_executable_frame ba b t : handle_frame ba t (ba_set_executable ba b t).2.
Proof.
  unfold ba_set_executable. ba_run ba t c Hc. ba_tests.
  apply touch_store_frame, (store_ok_run _ _ _ c Hc). rewrite Heqb2.
  apply rules_owned; try done.
  by destruct (executable (cell_value c)), b.
Qed.

Lemma rules_set_data p a d :
  executable a = false → p = Some (owner a) → account_rules true p a (set_data d a).
Proof. intros. by apply rules_owned. Qed.

Lemma ba_set_data_length_frame ba n t : handle_frame ba t (ba_set_data_length ba n t).2.
Proof.
  unfold ba_set_data_length, ba_can_data_be_resized, ba_can_data_be_changed.
  ba_run ba t c Hc. ba_tests.
  apply touch_resize_store_frame, (store_ok_run _ _ _ c Hc). rewrite Heqb3.
  by apply rules_set_data.
Qed.

Lemma ba_extend_from_slice_frame ba d t : handle_frame ba t (ba_extend_from_slice ba d t).2.
Proof.
  unfold ba_extend_from_slice, ba_can_data_be_resized, ba_can_data_be_changed.
  ba_run ba t c Hc. ba_tests.
  apply touch_resize_store_frame, (store_ok_run _ _ _ c Hc). rewrite Heqb3.
  by apply rules_set_data.
Qed.

(** Writing through the slice [get_data_mut] returns: [f] is what the program
    makes of the bytes, and a slice keeps its length. *)
Definition ba_write_data (ba : BorrowedAccount) (f : list N → list N) : TC unit :=
  d <- ba_get_data_mut ba ;;
  a <- ba_account ba ;;
  ba_store ba (set_data (overwrite (take (length d) (f d)) d) a).

(** after some bookkeeping, read the account again and store a new data buffer *)
Lemma quiet_reread_store ba t c f :
  ta_get (tx_accounts t) (ba_index_in_transaction ba) = Some c →
  (∀ d, store_ok ba (set_data d (cell_value c)) t) →
  handle_frame ba t ((a <- ba_account ba ;; ba_store ba (set_data (f a) a)) t).2.
Proof.
  intros Hc Hok. rewrite (bind_ok _ _ _ _ _ (ba_account_run ba t c Hc)). by apply store_frame.
Qed.

Lemma quiet_get ba t t' :
  quiet t t' → ta_get (tx_accounts t') (ba_index_in_transaction ba) =
               ta_get (tx_accounts t) (ba_index_in_transaction ba).
Proof. intros (_&_&_&_&_&_&Ha). unfold ta_get. by rewrite Ha. Qed.

Lemma quiet_bind_frame {A B} ba t (m : TC A) (k : A → TC B) :
  steps_in (λ _, True) quiet m →
  (∀ x t1, quiet t t1 → handle_frame ba t1 (k x t1).2) →
  handle_frame ba t (bind m k t).2.
Proof.
  intros Hm Hk. unfold bind. specialize (Hm t I).
  destruct (m t) as [[x|e|] t1] eqn:Em; simpl in *; [|by apply quiet_frame; [apply _|]..].
  eapply (frame_trans (P:=λ _, True)); [apply quiet_frame; [apply _|exact Hm]|by apply Hk].
Qed.

(** the permission to change the data of the account behind a handle *)
Lemma data_store_ok ba t c d :
  ta_get (tx_accounts t) (ba_index_in_transaction ba) = Some c →
  executable (cell_value c) = false → ba_is_writable ba = true →
  current_program (ba_instruction_context ba) t = Some (owner (cell_value c)) →
  store_ok ba (set_data d (cell_value c)) t.
Proof.
  intros Hc He Hw Hp. apply (store_ok_run _ _ _ c Hc). rewrite Hw. by apply rules_set_data.
Qed.

Lemma ba_set_data_from_slice_frame ba d t :
  handle_frame ba t (ba_set_data_from_slice ba d t).2.
Proof.
  unfold ba_set_data_from_slice, ba_can_data_be_resized, ba_can_data_be_changed.
  ba_run ba t c Hc. ba_tests.
  apply quiet_bind_frame; [apply ba_touch_quiet|]. intros _ t1 Hq1.
  apply quiet_bind_frame; [apply ba_update_delta_quiet|]. intros _ t2 Hq2.
  rewrite <-(quiet_get ba _ _ Hq1), <-(quiet_get ba _ _ Hq2) in Hc.
  apply (quiet_reread_store ba t2 c (λ _, d)); [done|]. intros d'.
  eapply data_store_ok; eauto.
  rewrite (current_program_keys _ t1), (current_program_keys _ t); [done|apply Hq1|apply Hq2].
Qed.

Lemma ba_get_data_mut_store ba t (k : list N → AccountSharedData → result InstructionError (list N)) :
  handle_frame ba t
    ((d <- ba_get_data_mut ba ;; a <- ba_account ba ;;
      d' <- lift (k d a) ;; ba_store ba (set_data d' a)) t).2.
Proof.
  unfold ba_get_data_mut, ba_can_data_be_changed. ba_run ba t c Hc. ba_tests.
  apply quiet_bind_frame; [apply ba_touch_quiet|]. intros _ t1 Hq1.
  rewrite <-(quiet_get ba _ _ Hq1) in Hc. repeat ba_step ba t1 c Hc; try (apply tc_frame_refl, _).
  apply store_frame. eapply data_store_ok; eauto.
  rewrite (current_program_keys _ t); [done|apply Hq1].
Qed.

(** the same, with a result of its own after the write *)
Lemma ba_get_data_mut_store_then ba t (f : list N → list N) (r : list N → result InstructionError unit) :
  handle_frame ba t
    ((d <- ba_get_data_mut ba ;; a <- ba_account ba ;;
      ba_store ba (set_data (f d) a) ;; lift (r d)) t).2.
Proof.
  unfold ba_get_data_mut, ba_can_data_be_changed. ba_run ba t c Hc. ba_tests.
  apply quiet_bind_frame; [apply ba_touch_quiet|]. intros _ t1 Hq1.
  rewrite <-(quiet_get ba _ _ Hq1) in Hc. repeat ba_step ba t1 c Hc; try (apply tc_frame_refl, _).
  match goal with |- handle_frame _ _ (bind (ba_store _ ?x) _ _).2 =>
    assert (handle_frame ba t1 (ba_store ba x t1).2) as Hs end.
  { apply store_frame. eapply data_store_ok; eauto.
    rewrite (current_program_keys _ t); [done|apply Hq1]. }
  unfold bind. by destruct (ba_store _ _ t1) as [[]].
Qed.

Lemma ba_write_data_frame ba f t : handle_frame ba t (ba_write_data ba f t).2.
Proof.
  apply (ba_get_data_mut_store ba t (λ d _, Ok (overwrite (take (length d) (f d)) d))).
Qed.

Lemma ba_set_state_frame {T} `{Bincode T} ba (x : T) t :
  handle_frame ba t (ba_set_state ba x t).2.
Proof.
  unfold ba_set_state, ba_get_data_mut, ba_can_data_be_changed. ba_run ba t c Hc. ba_tests.
  apply quiet_bind_frame; [apply ba_touch_quiet|]. intros _ t1 Hq1.
  rewrite <-(quiet_get ba _ _ Hq1) in Hc. repeat ba_step ba t1 c Hc; try (apply tc_frame_refl, _).
  apply store_frame. eapply data_store_ok; eauto.
  rewrite (current_program_keys _ t); [done|apply Hq1].
Qed.

(** ** Programs as clients of a handle *)

(** The operations a program can apply to a borrowed account. *)
Inductive ba_op :=
| OpSetOwner (pubkey : list N)
| OpSetLamports (n : N)
| OpCheckedAddLamports (n : N)
| OpCheckedSubLamports (n : N)
| OpWriteData (f : list N → list N)
| OpSetDataFromSlice (d : list N)
| OpSetDataLength (n : N)
| OpExtendFromSlice (d : list N)
| OpSetExecutable (b : bool).

Definition run_ba_op (ba : BorrowedAccount) (op : ba_op) : TC unit :=
  match op with
  | OpSetOwner k => ba_set_owner ba k
  | OpSetLamports n => ba_set_lamports ba n
  | OpCheckedAddLamports n => ba_checked_add_lamports ba n
  | OpCheckedSubLamports n => ba_checked_sub_lamports ba n
  | OpWriteData f => ba_write_data ba f
  | OpSetDataFromSlice d => ba_set_data_from_slice ba d
  | OpSetDataLength n => ba_set_data_length ba n
  | OpExtendFromSlice d => ba_extend_from_slice ba d
  | OpSetExecutable b => ba_set_executable ba b
  end.

(** A program may look at an error and go on. *)
Definition run_ba_ops (ba : BorrowedAccount) (ops : list ba_op) : TC unit :=
  for_each ops (λ op, observe (run_ba_op ba op) ;; ret tt).

Lemma run_ba_op_frame ba op t : handle_frame ba t (run_ba_op ba op t).2.
Proof.
  destruct op; simpl; auto using ba_set_owner_frame, ba_set_lamports_frame,
    ba_checked_add_lamports_frame, ba_checked_sub_lamports_frame, ba_write_data_frame,
    ba_set_data_from_slice_frame, ba_set_data_length_frame, ba_extend_from_slice_frame,
    ba_set_executable_frame.
Qed.

Lemma run_ba_ops_frame ba ops : steps_in (λ _, True) (handle_frame ba) (run_ba_ops ba ops).
Proof.
  unfold run_ba_ops. frame_solve. intros t _. apply run_ba_op_frame.
Qed.

(** ** Properties *)

(** C7: whatever sequence of operations a program applies to a borrowed account,
    errors it looks at and ignores included, the net change of that account
    obeys the account rules of the runtime (no change of a read-only or an
    executable account, only the owner debits it or changes its data, a new owner
    only with zeroed data, the remote mark and the rent epoch never), and every
    other account of the transaction is left exactly as it was. *)
Theorem programs_follow_account_rules ba ops t i c c' :
  accounts (tx_accounts t) !! i = Some c →
  accounts (tx_accounts (run_ba_ops ba ops t).2) !! i = Some c' →
  if decide (i = N.to_nat (ba_index_in_transaction ba))
  then account_rules (ba_is_writable ba) (current_program (ba_instruction_context ba) t)
         (cell_value c) (cell_value c')
  else cell_value c' = cell_value c.
Proof.
  intros Hc Hc'. destruct (tf_cells _ _ _ (run_ba_ops_frame ba ops t I)) as [_ Hr].
  destruct (Hr i c c' Hc Hc') as [_ H]. exact H.
Qed.

(** The chunked comparison of [is_zeroed] against a block of 1024 zeros decides
    that every byte of the buffer is zero, whatever its length. *)
Theorem is_zeroed_correct buf : is_zeroed buf = true ↔ Forall (λ b, b = 0) buf.
Proof. apply is_zeroed_Forall. Qed.

(** A program at index 1 that owns the account at index 0. *)
Definition sample_context : TransactionContext :=
  tc_new [(pubkey_of_N 10, mkAccountSharedData 100 [1; 2; 3] (pubkey_of_N 11) false 0 false);
          (pubkey_of_N 11, mkAccountSharedData 1 [] native_loader_id true 0 false)]
    rent_default 5 64.
Definition sample_handle : BorrowedAccount :=
  mkBorrowedAccount
    (mkInstructionContext 1 0 [1] [mkInstructionAccount 0 0 0 false true] [])
    0 1.

Lemma programs_follow_account_rules_witness :
  let t' := (run_ba_ops sample_handle
               [OpSetLamports 40; OpSetOwner (replicate 32 0); OpWriteData (λ _, [9])]
               sample_context).2 in
  cell_value <$> accounts (tx_accounts t') !! 0%nat =
    Some (mkAccountSharedData 40 [9; 2; 3] (pubkey_of_N 11) false 0 false) ∧
  account_rules true (Some (pubkey_of_N 11))
    (mkAccountSharedData 100 [1; 2; 3] (pubkey_of_N 11) false 0 false)
    (mkAccountSharedData 40 [9; 2; 3] (pubkey_of_N 11) false 0 false).
Proof.
  split; [vm_compute; reflexivity|].
  apply (programs_follow_account_rules sample_handle
    [OpSetLamports 40; OpSetOwner (replicate 32 0); OpWriteData (λ _, [9])] sample_context 0
    (mkCell (mkAccountSharedData 100 [1; 2; 3] (pubkey_of_N 11) false 0 false) false)
    (mkCell (mkAccountSharedData 40 [9; 2; 3] (pubkey_of_N 11) false 0 false) false));
    vm_compute; reflexivity.
Defined.
