(* ===== verification/InstructionRules.v ===== *)
(** * Rules of one instruction

    What the code of one instruction can do to the accounts of the transaction
    when it reaches them through the accounts it was passed: the frame
    [instr_frame], the scoped borrow, and the balance check that
    [TransactionContext::push] and [pop] make around an instruction. *)

From S2P Require Import Prelude Sdk Rent Account TransactionContext AccountRules.

(** ** The frame of an instruction *)

(** some entry of the list passes the account as writable *)
Definition writable_among (ias : list InstructionAccount) (i : nat) : Prop :=
  ∃ ia, ia ∈ ias ∧ N.to_nat (index_in_transaction ia) = i ∧ ia_is_writable ia = true.
Definition writable_in (ic : InstructionContext) : nat → Prop :=
  writable_among (instruction_accounts ic).

(** the indices of the instruction fit in [IndexOfAccount], an [u16] *)
Definition ic_small (ic : InstructionContext) : Prop :=
  len (program_accounts ic) + len (instruction_accounts ic) ≤ u16_max.

Record ias_rel (ias : list InstructionAccount) (i : nat) (a b : AccountSharedData) : Prop := {
  ir_readonly : ¬ writable_among ias i → b = a;
  ir_executable : executable a = true → b = a;
  ir_remote : remote b = remote a;
  ir_rent_epoch : rent_epoch b = rent_epoch a }.
Definition instr_rel (ic : InstructionContext) : nat → AccountSharedData → AccountSharedData → Prop :=
  ias_rel (instruction_accounts ic).

#[export] Instance ias_rel_preorder ias : CellPreorder (ias_rel ias).
Proof.
  split; [by split|]. intros i a b c [] []. split; try congruence.
  - intros Hw. rewrite ir_readonly1, ir_readonly0; done.
  - intros He. pose proof (ir_executable0 He) as ->. auto.
Qed.
#[export] Instance instr_rel_preorder ic : CellPreorder (instr_rel ic) := ias_rel_preorder _.

(** fewer writable accounts, fewer changes *)
Lemma ias_rel_mono ias ias' i a b :
  (∀ i, writable_among ias i → writable_among ias' i) → ias_rel ias i a b → ias_rel ias' i a b.
Proof. intros Hw []. split; auto. Qed.

Definition instr_frame (ic : InstructionContext) : TransactionContext → TransactionContext → Prop :=
  tc_frame (instr_rel ic).

#[export] Instance instr_frame_stable ic : StableFrame (λ _, True) (instr_frame ic).
Proof.
  split; [intros; apply tc_frame_refl, _| |done]. intros. eapply tc_frame_trans; eauto. apply _.
Qed.

(** A handle taken from the instruction: it can write only what the instruction
    may write. *)
Definition handle_in (ic : InstructionContext) (ba : BorrowedAccount) : Prop :=
  ba_instruction_context ba = ic ∧
  (ba_is_writable ba = true → writable_in ic (N.to_nat (ba_index_in_transaction ba))).

Lemma handle_frame_instr ic ba t t' :
  handle_in ic ba → handle_frame ba t t' → instr_frame ic t t'.
Proof.
  intros [Hic Hw]. apply tc_frame_mono. intros i a b. unfold handle_rel. case_decide as Hi.
  - intros []. unfold instr_rel. split; auto. intros Hn. apply ar_readonly.
    destruct (ba_is_writable ba); [|done]. destruct Hn. subst i. by apply Hw.
  - intros ->. apply cell_refl.
Qed.

Lemma handle_in_instruction_account ic i index :
  ic_small ic → get_index_of_instruction_account_in_transaction ic i = Ok index →
  handle_in ic (mkBorrowedAccount ic index
    (saturating_add u16_max (get_number_of_program_accounts ic) i)).
Proof.
  intros Hs Hi. split; [done|]. unfold ba_is_writable; simpl.
  unfold get_index_of_instruction_account_in_transaction in Hi.
  destruct (getN (instruction_accounts ic) i) as [ia|] eqn:Hia; simplify_eq/=.
  pose proof (getN_lt _ _ _ Hia) as Hlt. unfold ic_small in Hs.
  assert (Hn : get_number_of_program_accounts ic = len (program_accounts ic)).
  { unfold get_number_of_program_accounts, as_u16, u16_max in *. apply N.mod_small. lia. }
  rewrite Hn. unfold saturating_add, saturating_sub. rewrite N.min_r by lia.
  destruct (N.ltb_spec (len (program_accounts ic) + i) (len (program_accounts ic))); [lia|].
  replace (len (program_accounts ic) + i - len (program_accounts ic)) with i by lia.
  unfold is_instruction_account_writable. rewrite Hia. simpl. intros Hw.
  exists ia. split_and!; [by eapply getN_elem|done|done].
Qed.

Lemma handle_in_program_account ic i index :
  ic_small ic → get_index_of_program_account_in_transaction ic i = Ok index →
  handle_in ic (mkBorrowedAccount ic index i).
Proof.
  intros Hs Hi. split; [done|]. unfold ba_is_writable; simpl.
  unfold get_index_of_program_account_in_transaction in Hi.
  destruct (getN (program_accounts ic) i) eqn:Hp; simplify_eq/=.
  pose proof (getN_lt _ _ _ Hp) as Hlt. unfold ic_small in Hs.
  unfold get_number_of_program_accounts, as_u16. rewrite N.mod_small by (unfold u16_max in *; lia).
  destruct (N.ltb_spec i (len (program_accounts ic))); [done|lia].
Qed.

(** ** Scoped borrows *)
Lemma alter_cell_frame Rel i f g t t' :
  CellPreorder Rel →
  (∀ c, ta_get (tx_accounts t) i = Some c → cell_borrowed c = false) →
  (∀ c, cell_value (f c) = cell_value c) → (∀ c, cell_value (g c) = cell_value c) →
  (∀ c, cell_borrowed (g c) = false) →
  tc_frame Rel (set_cell i f t) t' → tc_frame Rel t (set_cell i g t').
Proof.
  intros ? Hb Hf Hg Hg' []; simpl in *. split; simpl; try done.
  destruct tf_cells as [Hl Hr]. rewrite length_alter in Hl. split; [by rewrite length_alter|].
  intros j c c' Hc Hc'. destruct (decide (j = N.to_nat i)) as [->|Hne].
  - rewrite list_lookup_alter_eq in Hc'. apply fmap_Some in Hc' as (c1&Hc1&->).
    destruct (Hr (N.to_nat i) (f c) c1) as [_ Hrel]; [|done|].
    { rewrite list_lookup_alter_eq. by rewrite Hc. }
    rewrite Hf in Hrel. rewrite Hg, Hg'. split; [|done]. symmetry. by apply Hb.
  - rewrite list_lookup_alter_ne in Hc' by done.
    apply (Hr j); [|done]. by rewrite list_lookup_alter_ne.
Qed.

Lemma with_borrow_frame {A} Rel `{!CellPreorder Rel} ic index ii (body : BorrowedAccount → TC A) t :
  (∀ t, tc_frame Rel t (body (mkBorrowedAccount ic index ii) t).2) →
  tc_frame Rel t (with_account (try_borrow_account ic index ii) body t).2.
Proof.
  intros Hbody. unfold with_account, try_borrow_account, bind at 1, asks.
  destruct (ta_get (tx_accounts t) index) as [c|] eqn:Hc; simpl; [|apply tc_frame_refl, _].
  destruct (cell_borrowed c) eqn:Hb; simpl; [apply tc_frame_refl, _|].
  specialize (Hbody (set_cell index (λ c, mkCell (cell_value c) true) t)).
  destruct (body _ _) as [r t2]. simpl in *.
  eapply alter_cell_frame in Hbody; try done. naive_solver.
Qed.

Lemma with_account_lift {A B} (r : result InstructionError A) k (body : BorrowedAccount → TC B) t :
  with_account (bind (lift r) k) body t =
  match r with
  | Ok a => with_account (k a) body t | Err e => (Err e, t) | Panic => (Panic, t)
  end.
Proof. by destruct r. Qed.

Lemma with_instruction_account_frame {A} ic i (body : BorrowedAccount → TC A) :
  ic_small ic →
  (∀ ba, handle_in ic ba → steps_in (λ _, True) (instr_frame ic) (body ba)) →
  steps_in (λ _, True) (instr_frame ic) (with_account (try_borrow_instruction_account ic i) body).
Proof.
  intros Hs Hb t _. unfold try_borrow_instruction_account. rewrite with_account_lift.
  destruct (get_index_of_instruction_account_in_transaction ic i) eqn:Hi;
    [|apply tc_frame_refl, _..].
  apply with_borrow_frame; [apply _|]. intros t'. apply Hb; [|done].
  by apply handle_in_instruction_account.
Qed.

Lemma with_program_account_frame {A} ic i (body : BorrowedAccount → TC A) :
  ic_small ic →
  (∀ ba, handle_in ic ba → steps_in (λ _, True) (instr_frame ic) (body ba)) →
  steps_in (λ _, True) (instr_frame ic) (with_account (try_borrow_program_account ic i) body).
Proof.
  intros Hs Hb t _. unfold try_borrow_program_account. rewrite with_account_lift.
  destruct (get_index_of_program_account_in_transaction ic i) eqn:Hi;
    [|apply tc_frame_refl, _..].
  apply with_borrow_frame; [apply _|]. intros t'. apply Hb; [|done].
  by apply handle_in_program_account.
Qed.

(** The operations on a handle of the instruction stay in the instruction's frame. *)
Lemma op_frame {A} ic ba (m : TC A) :
  handle_in ic ba → (∀ t, handle_frame ba t (m t).2) →
  steps_in (λ _, True) (instr_frame ic) m.
Proof. intros Hba H t _. eapply handle_frame_instr; eauto. Qed.

(** ** The lamports of a transaction *)
Definition sumN (l : list N) : N := foldr N.add 0 l.
Definition lamports_list (t : TransactionContext) : list N :=
  (λ c, lamports (cell_value c)) <$> accounts (tx_accounts t).
Definition total_lamports (t : TransactionContext) : N := sumN (lamports_list t).

Arguments sumN : simpl never.
Lemma sumN_cons x l : sumN (x :: l) = x + sumN l.
Proof. done. Qed.

Definition at0 (l : list N) (i : nat) : N := default 0 (l !! i).

Lemma sumN_insert l i x :
  (i < length l)%nat → sumN (<[i:=x]> l) + at0 l i = sumN l + x.
Proof.
  unfold at0. revert i. induction l as [|y l IH]; intros [|i] Hi; simpl in *; rewrite ?sumN_cons; [lia..|].
  specialize (IH i ltac:(lia)). lia.
Qed.

(** Two lists of amounts that differ only at the given positions: the difference
    of the totals is the difference over those positions. *)
Lemma sumN_differ_at ks : ∀ l l' : list N,
  NoDup ks → length l' = length l →
  (∀ i, i ∉ ks → at0 l' i = at0 l i) →
  sumN l' + sumN (at0 l <$> ks) = sumN l + sumN (at0 l' <$> ks).
Proof.
  induction ks as [|k ks IH]; intros l l' Hnd Hlen Hout.
  { simpl. f_equal. f_equal. apply list_eq_same_length with (length l); try done.
    intros i x y Hi Hx Hy. specialize (Hout i (not_elem_of_nil _)). unfold at0 in Hout.
    rewrite Hx, Hy in Hout. done. }
  apply list.NoDup_cons in Hnd as [Hk Hnd]. rewrite !fmap_cons, !sumN_cons.
  destruct (decide (k < length l)%nat) as [Hlt|Hge].
  - assert (Hat : ∀ i, at0 (<[k:=at0 l' k]> l) i = if decide (i = k) then at0 l' k else at0 l i).
    { intros i. unfold at0 at 1. case_decide as Hik.
      - subst. by rewrite list_lookup_insert_eq.
      - by rewrite list_lookup_insert_ne. }
    specialize (IH (<[k:=at0 l' k]> l) l' Hnd).
    rewrite length_insert in IH. specialize (IH Hlen).
    assert (Heq : at0 (<[k:=at0 l' k]> l) <$> ks = at0 l <$> ks).
    { apply list_fmap_ext. intros i x Hx. rewrite Hat.
      rewrite decide_False; [done|]. intros ->. apply Hk. by eapply list_elem_of_lookup_2. }
    rewrite Heq in IH. pose proof (sumN_insert l k (at0 l' k) Hlt).
    enough (∀ i, i ∉ ks → at0 l' i = at0 (<[k:=at0 l' k]> l) i) as Hi
      by (specialize (IH Hi); lia).
    intros i Hi. rewrite Hat. case_decide as Hik; [by subst|]. apply Hout. set_solver.
  - assert (at0 l k = 0 ∧ at0 l' k = 0) as [-> ->].
    { unfold at0. rewrite !lookup_ge_None_2 by lia. done. }
    apply IH; [done..|]. intros i Hi. destruct (decide (i = k)) as [->|?]; [|set_solver].
    unfold at0. rewrite !lookup_ge_None_2 by lia. done.
Qed.

(** [index_in_callee] marks duplicates: entries for the same account carry the
    position of one of them. *)
Definition dedup_ok (l : list InstructionAccount) : Prop :=
  ∀ i ia, getN l i = Some ia →
  ∃ ia0, getN l (index_in_callee ia) = Some ia0 ∧
    index_in_transaction ia0 = index_in_transaction ia ∧
    ∀ j ja, getN l j = Some ja → index_in_transaction ja = index_in_transaction ia →
            index_in_callee ja = index_in_callee ia.

(** the accounts [instruction_accounts_lamport_sum] adds up *)
Definition representative (ic : InstructionContext) (i : N) : option nat :=
  ia ← getN (instruction_accounts ic) i;
  if index_in_callee ia =? i then Some (N.to_nat (index_in_transaction ia)) else None.
Definition representatives (ic : InstructionContext) (l : list N) : list nat :=
  omap (representative ic) l.

Lemma representatives_cons ic i l :
  representatives ic (i :: l) =
  match representative ic i with
  | Some k => k :: representatives ic l | None => representatives ic l
  end.
Proof. done. Qed.

Lemma lamport_sum_loop_spec t ic l : ∀ s s',
  lamport_sum_loop t ic l s = Ok s' →
  s' = s + sumN (at0 (lamports_list t) <$> representatives ic l).
Proof.
  induction l as [|i l IH]; intros s s'; [intros [= ->]; unfold sumN; simpl; lia|].
  rewrite representatives_cons. simpl.
  unfold is_instruction_account_duplicate, get_index_of_instruction_account_in_transaction,
    get_account_at_index, representative.
  destruct (getN (instruction_accounts ic) i) as [ia|] eqn:Hia; simpl; [|done].
  destruct (index_in_callee ia =? i); simpl; [|apply IH].
  destruct (ta_get _ _) as [c|] eqn:Hc; simpl; [|done].
  destruct (cell_borrowed c); simpl; [done|].
  destruct (checked_add _ _ _) as [s1|] eqn:Hadd; simpl; [|done].
  intros ->%IH. apply checked_add_Some in Hadd as [-> _].
  rewrite sumN_cons.
  assert (at0 (lamports_list t) (N.to_nat (index_in_transaction ia)) = lamports (cell_value c)) as ->.
  { unfold at0, lamports_list. rewrite list_lookup_fmap. unfold ta_get, getN in Hc. by rewrite Hc. }
  change (list_fmap _ _ (at0 (lamports_list t)) (representatives ic l))
    with (at0 (lamports_list t) <$> representatives ic l). lia.
Qed.

Lemma NoDup_omap_inj {A B} (f : A → option B) l :
  (∀ x y z, f x = Some z → f y = Some z → x = y) → NoDup l → NoDup (omap f l).
Proof.
  intros Hinj. induction 1 as [|x l Hx Hnd IH]; simpl; [constructor|].
  destruct (f x) as [z|] eqn:Hfx; [|done]. apply list.NoDup_cons. split; [|done].
  intros (y & Hy & Hfy)%list_elem_of_omap. apply Hx. by rewrite (Hinj x y z).
Qed.

Lemma rangeN_NoDup n : NoDup (rangeN n).
Proof. apply NoDup_fmap; [apply _|apply NoDup_seq]. Qed.
Lemma elem_of_rangeN n i : i ∈ rangeN n ↔ i < n.
Proof.
  unfold rangeN. rewrite list_elem_of_fmap. setoid_rewrite elem_of_seq. split.
  - intros (j & -> & Hj). lia.
  - intros Hi. exists (N.to_nat i). lia.
Qed.

Section balance.
Context (ic : InstructionContext) (Hsmall : ic_small ic)
  (Hdedup : dedup_ok (instruction_accounts ic)).

Lemma n_accounts : get_number_of_instruction_accounts ic = len (instruction_accounts ic).
Proof.
  unfold ic_small, get_number_of_instruction_accounts, as_u16, u16_max in *.
  apply N.mod_small. lia.
Qed.

Lemma representatives_NoDup l : NoDup l → NoDup (representatives ic l).
Proof.
  apply NoDup_omap_inj. unfold representative. intros i j z Hi Hj.
  destruct (getN _ i) as [ia|] eqn:Hia; simpl in Hi; [|done].
  destruct (getN _ j) as [ja|] eqn:Hja; simpl in Hj; [|done].
  destruct (N.eqb_spec (index_in_callee ia) i); [|done].
  destruct (N.eqb_spec (index_in_callee ja) j); [|done]. simplify_eq.
  destruct (Hdedup _ _ Hia) as (_ & _ & _ & H). symmetry. apply (H _ _ Hja). lia.
Qed.

Lemma representatives_complete ia :
  ia ∈ instruction_accounts ic →
  N.to_nat (index_in_transaction ia) ∈
    representatives ic (rangeN (get_number_of_instruction_accounts ic)).
Proof.
  intros (i & Hi)%list_elem_of_lookup.
  destruct (Hdedup (N.of_nat i) ia) as (ia0 & H0 & Ht & Hj).
  { unfold getN. by rewrite Nat2N.id. }
  apply list_elem_of_omap. exists (index_in_callee ia). split.
  - rewrite elem_of_rangeN, n_accounts. by eapply getN_lt.
  - unfold representative. rewrite H0. simpl.
    rewrite (Hj _ _ H0 Ht). rewrite N.eqb_refl. congruence.
Qed.

(** An instruction whose own accounts sum to the same amount before and after,
    and which wrote no other account, kept the total of the transaction. *)
Lemma balanced_total t t' s :
  cells_rel (instr_rel ic) (accounts (tx_accounts t)) (accounts (tx_accounts t')) →
  instruction_accounts_lamport_sum t ic = Ok s →
  instruction_accounts_lamport_sum t' ic = Ok s →
  total_lamports t' = total_lamports t.
Proof.
  intros [Hlen Hrel] H1%lamport_sum_loop_spec H2%lamport_sum_loop_spec.
  set (ks := representatives _ _) in *.
  pose proof (sumN_differ_at ks (lamports_list t) (lamports_list t')) as H.
  enough (sumN (lamports_list t') + sumN (at0 (lamports_list t) <$> ks) =
          sumN (lamports_list t) + sumN (at0 (lamports_list t') <$> ks))
    by (unfold total_lamports; lia).
  apply H.
  - apply representatives_NoDup, rangeN_NoDup.
  - unfold lamports_list. by rewrite !length_fmap.
  - intros i Hi. unfold at0, lamports_list. rewrite !list_lookup_fmap.
    destruct (accounts (tx_accounts t) !! i) as [c|] eqn:Hc.
    + destruct (lookup_lt_is_Some_2 (accounts (tx_accounts t')) i) as [c' Hc'].
      { apply lookup_lt_Some in Hc. lia. }
      rewrite Hc'. simpl. destruct (Hrel i c c' Hc Hc') as [_ []].
      rewrite ir_readonly0; [done|]. intros (ia & Hia & <- & _). by apply Hi, representatives_complete.
    + rewrite (lookup_ge_None_2 (accounts (tx_accounts t'))); [done|].
      apply lookup_ge_None in Hc. lia.
Qed.
End balance.

(** ** Stack frames *)

(** the stack points into the trace, before its reserved last entry *)
Definition tc_wf (t : TransactionContext) : Prop :=
  instruction_trace t ≠ [] ∧
  Forall (λ j, (S (N.to_nat j) < length (instruction_trace t))%nat) (instruction_stack t).

Lemma tc_frame_wf Rel t t' : tc_frame Rel t t' → tc_wf t → tc_wf t'.
Proof.
  intros [] [Hn Hs]. destruct tf_trace as [Hle _]. split.
  - intros E. rewrite E in Hle. destruct (instruction_trace t); simpl in *; [done|lia].
  - rewrite tf_stack. eapply list.Forall_impl; [done|]. simpl. lia.
Qed.

Lemma getN_len {A} (l : list A) : getN l (len l - 1) = list.last l.
Proof.
  unfold getN, len. destruct (decide (l = [])) as [->|Hne]; [done|].
  rewrite last_lookup. f_equal. destruct l; simpl; [done|lia].
Qed.

Lemma get_current_last t :
  get_current_instruction_context t =
  match list.last (instruction_stack t) with
  | Some j => ok_or (getN (instruction_trace t) j) CallDepth
  | None => Err CallDepth
  end.
Proof.
  unfold get_current_instruction_context, get_instruction_context_stack_height,
    get_instruction_context_at_nesting_level, get_instruction_context_at_index_in_trace, checked_sub.
  destruct (N.leb_spec 1 (len (instruction_stack t))) as [Hl|Hl]; simpl.
  - rewrite getN_len. by destruct (list.last _).
  - destruct (instruction_stack t); [done|]. unfold len in Hl. simpl in Hl. lia.
Qed.

Lemma get_current_frame Rel t t' :
  tc_wf t → tc_frame Rel t t' →
  get_current_instruction_context t' = get_current_instruction_context t.
Proof.
  intros [_ Hwf] []. rewrite !get_current_last, tf_stack.
  destruct (list.last (instruction_stack t)) as [j|] eqn:Hj; [|done].
  rewrite list.Forall_forall in Hwf. unfold getN.
  destruct tf_trace as [_ ->]; [done|]. apply Hwf. by apply last_Some_elem_of.
Qed.

(** [t'] is [t] in the frame [Rel], the stack apart *)
Definition upto_stack (Rel : nat → AccountSharedData → AccountSharedData → Prop)
    (t t' : TransactionContext) : Prop :=
  tc_frame Rel (set_instruction_stack (instruction_stack t') t) t'.

Section upto_stack.
Context (Rel : nat → AccountSharedData → AccountSharedData → Prop) `{!CellPreorder Rel}.

Lemma upto_stack_frame t t' :
  upto_stack Rel t t' → instruction_stack t' = instruction_stack t → tc_frame Rel t t'.
Proof. intros [] Hs. by split. Qed.
Lemma frame_upto_stack t t' : tc_frame Rel t t' → upto_stack Rel t t'.
Proof. intros []. by split. Qed.
Lemma upto_stack_trans t1 t2 t3 : upto_stack Rel t1 t2 → upto_stack Rel t2 t3 → upto_stack Rel t1 t3.
Proof.
  intros H12 H23. unfold upto_stack in *.
  eapply (tc_frame_trans Rel); [|exact H23]. destruct H12; by split.
Qed.
Lemma upto_stack_set l t : upto_stack Rel t (set_instruction_stack l t).
Proof. by apply tc_frame_same. Qed.

Lemma trace_update_frame f t :
  tc_frame Rel t (update_next_instruction_context f t).2.
Proof.
  unfold update_next_instruction_context.
  destruct (list.last (instruction_trace t)) as [ic|] eqn:Hl; simpl; [|apply tc_frame_refl, _].
  split; simpl; auto using cells_rel_refl.
  apply last_Some in Hl as [l ->]. rewrite removelast_last.
  split; [by rewrite !length_app|]. intros j. rewrite length_app. simpl. intros Hj.
  by rewrite !lookup_app_l by lia.
Qed.
Lemma trace_push_frame t :
  tc_frame Rel t (set_instruction_trace (instruction_trace t ++ [instruction_context_default]) t).
Proof.
  split; simpl; auto using cells_rel_refl. split; [rewrite length_app; lia|].
  intros j Hj. by rewrite lookup_app_l by lia.
Qed.
End upto_stack.

(** A push that succeeds: the configured context becomes the current one, with
    the balance of its accounts. *)
Record pushed (ic : InstructionContext) (t t' : TransactionContext) : Prop := {
  pu_current : get_current_instruction_context t' = Ok ic;
  pu_sum : instruction_accounts_lamport_sum t' ic = Ok (ic_lamport_sum ic);
  pu_stack : instruction_stack t' = instruction_stack t ++ [get_instruction_trace_length t];
  pu_height : get_instruction_context_stack_height t < instruction_stack_capacity t;
  pu_wf : tc_wf t → tc_wf t';
  pu_accounts : tx_accounts t' = tx_accounts t }.

#[export] Instance upto_stack_stable Rel `{!CellPreorder Rel} :
  StableFrame (λ _, True) (upto_stack Rel).
Proof.
  split; [|intros; by eapply upto_stack_trans|done].
  intros. apply frame_upto_stack, tc_frame_refl, _.
Qed.

Lemma tc_push_upto Rel `{!CellPreorder Rel} : steps_in (λ _, True) (upto_stack Rel) tc_push.
Proof.
  unfold tc_push, verify_caller_balanced. frame_solve.
  - intros t _. apply frame_upto_stack, trace_update_frame, _.
  - intros t _. apply frame_upto_stack, trace_push_frame, _.
  - intros t _. apply upto_stack_set, _.
Qed.

Lemma tc_pop_upto Rel `{!CellPreorder Rel} : steps_in (λ _, True) (upto_stack Rel) tc_pop.
Proof. unfold tc_pop. frame_solve. intros t _. apply upto_stack_set, _. Qed.

(** neither touches an account *)
Definition same_accounts (t t' : TransactionContext) : Prop := tx_accounts t' = tx_accounts t.
#[export] Instance same_accounts_stable : StableFrame (λ _, True) same_accounts.
Proof. split; unfold same_accounts; [done|congruence|done]. Qed.
#[export] Hint Extern 1 (same_accounts _ _) => reflexivity : frame.

Lemma tc_push_accounts : steps_in (λ _, True) same_accounts tc_push.
Proof.
  unfold tc_push, verify_caller_balanced. frame_solve.
  intros t _. unfold update_next_instruction_context, same_accounts. by destruct (list.last _).
Qed.
Lemma tc_pop_accounts : steps_in (λ _, True) same_accounts tc_pop.
Proof. unfold tc_pop. frame_solve. Qed.

Lemma lamport_sum_accounts t t' ic ic' :
  tx_accounts t' = tx_accounts t → instruction_accounts ic' = instruction_accounts ic →
  instruction_accounts_lamport_sum t' ic' = instruction_accounts_lamport_sum t ic.
Proof.
  intros Ha Hi. unfold instruction_accounts_lamport_sum, get_number_of_instruction_accounts.
  rewrite Hi. generalize 0. induction (rangeN _) as [|i l IH]; intros s; simpl; [done|].
  unfold is_instruction_account_duplicate, get_index_of_instruction_account_in_transaction,
    get_account_at_index. rewrite Hi, Ha.
  destruct (getN (instruction_accounts ic) i) as [ia|]; simpl; [|done].
  destruct (index_in_callee ia =? i); [|apply IH].
  destruct (ta_get _ _) as [c|]; simpl; [|done]. destruct (cell_borrowed c); [done|].
  destruct (checked_add _ _ _); simpl; [apply IH|done].
Qed.

(** the two list updates of a push *)
Lemma pushed_intro ic t tr :
  instruction_trace t = tr ++ [ic] →
  get_instruction_context_stack_height t < instruction_stack_capacity t →
  instruction_accounts_lamport_sum t ic = Ok (ic_lamport_sum ic) →
  pushed ic t
    (set_instruction_stack (instruction_stack t ++ [get_instruction_trace_length t])
      (set_instruction_trace (instruction_trace t ++ [instruction_context_default]) t)).
Proof.
  intros Ht Hh Hs.
  assert (Hl : N.to_nat (get_instruction_trace_length t) = length tr).
  { unfold get_instruction_trace_length, saturating_sub, len. rewrite Ht, length_app. simpl. lia. }
  split; simpl; auto.
  - rewrite get_current_last. simpl. rewrite last_snoc. unfold getN. rewrite Hl, Ht.
    rewrite <-app_assoc. simpl. by rewrite list_lookup_middle.
  - by rewrite <-Hs; apply lamport_sum_accounts.
  - intros [Hn Hf]. split; simpl; [by destruct (instruction_trace t)|].
    rewrite length_app. simpl. apply Forall_app. split.
    + eapply list.Forall_impl; [done|]. simpl. lia.
    + constructor; [|done]. rewrite Hl, Ht, length_app. simpl. lia.
Qed.

Lemma verify_caller_balanced_state t : (verify_caller_balanced t).2 = t.
Proof.
  unfold verify_caller_balanced, bind, gets. destruct (instruction_stack t); [done|].
  unfold asks. destruct (get_current_instruction_context t); [|done..].
  destruct (instruction_accounts_lamport_sum t _); [|done..]. by destruct (_ =? _).
Qed.

Lemma tc_push_spec t :
  match tc_push t with
  | (Ok _, t') =>
      ∃ ic0 sum, list.last (instruction_trace t) = Some ic0 ∧
        pushed (mkInstructionContext (get_instruction_context_stack_height t) sum
                  (program_accounts ic0) (instruction_accounts ic0) (instruction_data ic0)) t t'
  | (_, t') => instruction_stack t' = instruction_stack t
  end.
Proof.
  unfold tc_push. do 2 mstep. destruct (list.last (instruction_trace t)) as [ic|] eqn:Hlast; [|done].
  simpl ok_or. do 2 mstep.
  destruct (instruction_accounts_lamport_sum t ic) as [sum| |] eqn:Hsum; [|done..]. mstep.
  unfold bind at 1. pose proof (verify_caller_balanced_state t) as Hst.
  destruct (verify_caller_balanced t) as [[] t']; simpl in Hst; subst t'; [|done..].
  unfold update_next_instruction_context, bind at 1. rewrite Hlast.
  set (ic1 := mkInstructionContext _ sum _ _ _).
  set (t1 := set_instruction_trace (removelast (instruction_trace t) ++ [ic1]) t).
  do 2 mstep. mstep; [done|]. do 2 mstep. mstep; [done|].
  exists ic, sum. split; [done|].
  assert (Hlen : get_instruction_trace_length t1 = get_instruction_trace_length t).
  { apply last_Some in Hlast as [l Hl]. unfold get_instruction_trace_length, t1, len. simpl.
    rewrite Hl, removelast_last, !length_app. done. }
  destruct (pushed_intro ic1 t1 (removelast (instruction_trace t))) as [Hc Hs Hk Hh Hw Ha].
  - done.
  - by apply N.leb_gt in Heqb0.
  - simpl. rewrite <-Hsum. by apply lamport_sum_accounts.
  - split; try done; [by rewrite <-Hlen|]. intros Hwf. apply Hw.
    apply (tc_frame_wf (ias_rel []) t); [|done].
    pose proof (trace_update_frame (ias_rel []) (λ _, ic1) t) as Hf.
    unfold update_next_instruction_context in Hf. by rewrite Hlast in Hf.
Qed.

(** A pop ends the frame whatever happens; when it succeeds the accounts of the
    instruction hold what they held when it was entered. *)
Lemma tc_pop_stack t : instruction_stack (tc_pop t).2 = removelast (instruction_stack t).
Proof.
  unfold tc_pop. mstep. destruct (instruction_stack t) eqn:Hs; [done|]. do 2 mstep. simpl.
  unfold bind, lift. rewrite Hs.
  destruct (detected_an_unbalanced_instruction t) as [[]| |]; done.
Qed.

Lemma tc_pop_ok t t' :
  tc_pop t = (Ok tt, t') →
  ∃ ic, get_current_instruction_context t = Ok ic ∧
        instruction_accounts_lamport_sum t ic = Ok (ic_lamport_sum ic) ∧
        tx_accounts t' = tx_accounts t.
Proof.
  unfold tc_pop, bind, gets, modify, lift. destruct (instruction_stack t); [done|].
  unfold detected_an_unbalanced_instruction.
  destruct (get_current_instruction_context t) as [ic| |]; simpl; [|done..].
  destruct (verify_no_outstanding_refs t _); simpl; [|done..].
  destruct (instruction_accounts_lamport_sum t ic) as [s| |] eqn:Hs; simpl; [|done..].
  destruct (N.eqb_spec (ic_lamport_sum ic) s); simpl; [|done]. intros [= <-].
  exists ic. rewrite Hs. split_and!; [done|congruence|done].
Qed.
