(* ===== verification/EpochSchedule.v ===== *)
(** * Epochs

    The schedule of epochs ([sdk/program/src/epoch_schedule.rs]), and the stake history that is kept
    for them ([stake_history.rs]): what the cluster had activated at each epoch, the most
    recent one first. *)

From S2P Require Import Prelude.

Definition MINIMUM_SLOTS_PER_EPOCH : N := 32.

Record EpochSchedule := mkEpochSchedule {
  slots_per_epoch : N;
  leader_schedule_slot_offset : N;
  warmup : bool;
  first_normal_epoch : N;
  first_normal_slot : N }.

(** [u64::trailing_zeros] of a number other than 0 *)
Fixpoint pos_trailing_zeros (p : positive) : N :=
  match p with xO p => 1 + pos_trailing_zeros p | _ => 0 end.
Definition trailing_zeros (n : N) : N := match n with N0 => 64 | Npos p => pos_trailing_zeros p end.
(** [u64::next_power_of_two]; beyond the last power the release build gives 0 *)
Definition next_power_of_two (n : N) : N :=
  let p := 2 ^ N.log2_up n in if p <=? u64_max then p else 0.
(** [2u64.saturating_pow(e)] *)
Definition saturating_pow2 (e : N) : N := if e <? 64 then 2 ^ e else u64_max.
Definition saturating_mul (a b : N) : N := N.min u64_max (a * b).
Definition checked_div0 (a b : N) : N := if b =? 0 then 0 else a / b.
Definition checked_rem0 (a b : N) : N := if b =? 0 then 0 else a `mod` b.

(** the [assert!] on the minimum *)
Definition schedule_custom {E} (slots_per_epoch leader_schedule_slot_offset : N) (warmup : bool) :
  result E EpochSchedule :=
  if slots_per_epoch <? MINIMUM_SLOTS_PER_EPOCH then Panic else
  let '(first_normal_epoch, first_normal_slot) :=
    if warmup then
      let next_power_of_two := next_power_of_two slots_per_epoch in
      let log2_slots_per_epoch :=
        saturating_sub (trailing_zeros next_power_of_two) (trailing_zeros MINIMUM_SLOTS_PER_EPOCH) in
      (log2_slots_per_epoch, saturating_sub next_power_of_two MINIMUM_SLOTS_PER_EPOCH)
    else (0, 0) in
  Ok (mkEpochSchedule slots_per_epoch leader_schedule_slot_offset warmup first_normal_epoch first_normal_slot).

Definition get_slots_in_epoch (s : EpochSchedule) (epoch : N) : N :=
  if epoch <? first_normal_epoch s
  then saturating_pow2 (saturating_add u32_max (as_u32 epoch) (trailing_zeros MINIMUM_SLOTS_PER_EPOCH))
  else slots_per_epoch s.
Definition get_epoch_and_slot_index (s : EpochSchedule) (slot : N) : N * N :=
  if slot <? first_normal_slot s then
    let epoch :=
      saturating_sub
        (saturating_sub
           (trailing_zeros (next_power_of_two (saturating_add u64_max (saturating_add u64_max slot MINIMUM_SLOTS_PER_EPOCH) 1)))
           (trailing_zeros MINIMUM_SLOTS_PER_EPOCH)) 1 in
    let epoch_len := saturating_pow2 (saturating_add u32_max epoch (trailing_zeros MINIMUM_SLOTS_PER_EPOCH)) in
    (epoch, saturating_sub slot (saturating_sub epoch_len MINIMUM_SLOTS_PER_EPOCH))
  else
    let normal_slot_index := saturating_sub slot (first_normal_slot s) in
    let normal_epoch_index := checked_div0 normal_slot_index (slots_per_epoch s) in
    (saturating_add u64_max (first_normal_epoch s) normal_epoch_index,
     checked_rem0 normal_slot_index (slots_per_epoch s)).
Definition get_epoch (s : EpochSchedule) (slot : N) : N := (get_epoch_and_slot_index s slot).1.
Definition get_leader_schedule_epoch (s : EpochSchedule) (slot : N) : N :=
  if slot <? first_normal_slot s then saturating_add u64_max (get_epoch_and_slot_index s slot).1 1 else
  let new_slots_since_first_normal_slot := saturating_sub slot (first_normal_slot s) in
  let new_first_normal_leader_schedule_slot :=
    saturating_add u64_max new_slots_since_first_normal_slot (leader_schedule_slot_offset s) in
  saturating_add u64_max (first_normal_epoch s)
    (checked_div0 new_first_normal_leader_schedule_slot (slots_per_epoch s)).
Definition get_first_slot_in_epoch (s : EpochSchedule) (epoch : N) : N :=
  if epoch <=? first_normal_epoch s
  then saturating_mul (saturating_sub (saturating_pow2 (as_u32 epoch)) 1) MINIMUM_SLOTS_PER_EPOCH
  else saturating_add u64_max
         (saturating_mul (saturating_sub epoch (first_normal_epoch s)) (slots_per_epoch s))
         (first_normal_slot s).
Definition get_last_slot_in_epoch (s : EpochSchedule) (epoch : N) : N :=
  saturating_sub
    (saturating_add u64_max (get_first_slot_in_epoch s epoch) (get_slots_in_epoch s epoch)) 1.

(** ** Powers of two *)
Lemma pos_trailing_pow2 n : trailing_zeros (2 ^ n) = n.
Proof.
  induction n as [|n IH] using N.peano_ind; [done|]. rewrite N.pow_succ_r'.
  destruct (2 ^ n) as [|p] eqn:Hp; [by apply N.pow_nonzero in Hp|]. cbn [N.mul trailing_zeros pos_trailing_zeros] in *.
  change (2 * N.pos p) with (N.pos (xO p)). cbn [trailing_zeros pos_trailing_zeros]. lia.
Qed.
Lemma trailing_min : trailing_zeros MINIMUM_SLOTS_PER_EPOCH = 5.
Proof. done. Qed.
Lemma saturating_pow2_small e : e < 64 → saturating_pow2 e = 2 ^ e.
Proof. intros He. unfold saturating_pow2. by rewrite (proj2 (N.ltb_lt _ _)). Qed.
Lemma pow2_pos e : 1 ≤ 2 ^ e.
Proof. pose proof (N.pow_nonzero 2 e). lia. Qed.
Lemma pow2_bound e : e < 64 → 2 ^ e ≤ 2 ^ 63.
Proof. intros He. apply N.pow_le_mono_r; lia. Qed.

(** a schedule as [custom] makes it, with the shape of its warmup *)
Definition schedule_ok (s : EpochSchedule) : Prop :=
  MINIMUM_SLOTS_PER_EPOCH ≤ slots_per_epoch s ∧ first_normal_epoch s < 59 ∧
  first_normal_slot s = 32 * 2 ^ first_normal_epoch s - 32.
Lemma schedule_custom_ok {E} n offset w s :
  schedule_custom (E:=E) n offset w = Ok s → n ≤ 2 ^ 63 → schedule_ok s ∧ slots_per_epoch s = n.
Proof.
  unfold schedule_custom. destruct (N.ltb_spec n MINIMUM_SLOTS_PER_EPOCH) as [|Hmin]; [done|].
  intros Hs Hn. destruct w; injection Hs as <-; [|done].
  assert (Hlog : 5 ≤ N.log2_up n ≤ 63).
  { split; [change 5 with (N.log2_up 32)|change 63 with (N.log2_up (2 ^ 63))]; by apply N.log2_up_le_mono. }
  assert (next_power_of_two n = 2 ^ N.log2_up n) as Hp.
  { unfold next_power_of_two. rewrite (proj2 (N.leb_le _ _)); [done|]. unfold u64_max.
    pose proof (pow2_bound (N.log2_up n) ltac:(lia)). change (2 ^ 63) with 9223372036854775808 in *. lia. }
  rewrite Hp, pos_trailing_pow2, ?trailing_min. unfold schedule_ok, saturating_sub. cbn [slots_per_epoch first_normal_epoch first_normal_slot].
  split_and!; [done|lia| |done]. f_equal. change 32 with (2 ^ 5). rewrite <-N.pow_add_r. f_equal. lia.
Qed.

(** in the warmup: epoch [e] has [32 * 2 ^ e] slots from [32 * 2 ^ e - 32] on *)
Lemma warmup_epoch s slot :
  schedule_ok s → slot < first_normal_slot s →
  ∃ e, e < first_normal_epoch s ∧ get_epoch_and_slot_index s slot = (e, slot + 32 - 32 * 2 ^ e) ∧
    32 * 2 ^ e ≤ slot + 32 < 32 * 2 ^ (e + 1).
Proof.
  intros (Hmin & He & Hf) Hs. unfold get_epoch_and_slot_index. rewrite (proj2 (N.ltb_lt _ _)) by done.
  assert (Hsmall : slot + 33 ≤ 2 ^ 63).
  { assert (2 ^ first_normal_epoch s ≤ 2 ^ 58) by (apply N.pow_le_mono_r; lia).
    change (2 ^ 58) with 288230376151711744 in *. change (2 ^ 63) with 9223372036854775808. lia. }
  change (2 ^ 63) with 9223372036854775808 in Hsmall.
  unfold saturating_add, MINIMUM_SLOTS_PER_EPOCH, u64_max.
  replace (N.min 18446744073709551615 (N.min 18446744073709551615 (slot + 32) + 1)) with (slot + 33) by lia.
  set (k := N.log2_up (slot + 33)).
  assert (Hk : 2 ^ (k - 1) < slot + 33 ≤ 2 ^ k).
  { replace (k - 1) with (N.pred k) by lia. apply N.log2_up_spec. lia. }
  assert (Hk6 : 6 ≤ k) by (change 6 with (N.log2_up 33); apply N.log2_up_le_mono; lia).
  assert (Hk63 : k ≤ 63) by (change 63 with (N.log2_up 9223372036854775808); by apply N.log2_up_le_mono).
  assert (next_power_of_two (slot + 33) = 2 ^ k) as ->.
  { unfold next_power_of_two. fold k. rewrite (proj2 (N.leb_le _ _)); [done|]. unfold u64_max.
    pose proof (pow2_bound k ltac:(lia)) as Hb. change (2 ^ 63) with 9223372036854775808 in Hb. lia. }
  rewrite pos_trailing_pow2. change (trailing_zeros 32) with 5. unfold saturating_sub, u32_max.
  replace (N.min 4294967295 (k - 5 - 1 + 5)) with (k - 1) by lia. rewrite saturating_pow2_small by lia.
  assert (Hpow : 2 ^ (k - 1) = 32 * 2 ^ (k - 6)).
  { change 32 with (2 ^ 5). rewrite <-N.pow_add_r. f_equal. lia. }
  assert (Hpow' : 2 ^ k = 32 * 2 ^ (k - 6 + 1)).
  { change 32 with (2 ^ 5). rewrite <-N.pow_add_r. f_equal. lia. }
  exists (k - 6). replace (k - 5 - 1) with (k - 6) by lia.
  pose proof (pow2_pos (k - 6)).
  split; [|split; [f_equal; lia|lia]].
  apply N.nle_gt. intros Hle.
  assert (2 ^ first_normal_epoch s ≤ 2 ^ (k - 6)) by (by apply N.pow_le_mono_r). lia.
Qed.

Lemma slot_in_epoch s slot :
  schedule_ok s → slot + slots_per_epoch s ≤ u64_max →
  let x := get_epoch_and_slot_index s slot in
  get_first_slot_in_epoch s x.1 + x.2 = slot ∧ x.2 < get_slots_in_epoch s x.1 ∧
  get_first_slot_in_epoch s (x.1 + 1) = get_first_slot_in_epoch s x.1 + get_slots_in_epoch s x.1.
Proof.
  intros Hok Hb. pose proof Hok as (Hmin & He & Hf). unfold MINIMUM_SLOTS_PER_EPOCH, u64_max in *.
  assert (Hpow : ∀ e, e ≤ first_normal_epoch s → 2 ^ e ≤ 2 ^ 58) by (intros e Hle; apply N.pow_le_mono_r; lia).
  change (2 ^ 58) with 288230376151711744 in Hpow.
  assert (Hfirst : ∀ e, e ≤ first_normal_epoch s → get_first_slot_in_epoch s e = 32 * 2 ^ e - 32).
  { intros e Hle. unfold get_first_slot_in_epoch. rewrite (proj2 (N.leb_le _ _)) by done.
    unfold as_u32. rewrite N.mod_small by lia. rewrite saturating_pow2_small by lia.
    unfold saturating_mul, saturating_sub, MINIMUM_SLOTS_PER_EPOCH, u64_max. specialize (Hpow e Hle). lia. }
  cbv zeta. destruct (N.ltb_spec slot (first_normal_slot s)) as [Hw|Hn].
  - destruct (warmup_epoch s slot Hok Hw) as (e & Hlt & -> & Hle & Hup). cbn [fst snd].
    rewrite !Hfirst by lia. unfold get_slots_in_epoch. rewrite (proj2 (N.ltb_lt _ _)) by done.
    unfold as_u32. rewrite N.mod_small by lia. change (trailing_zeros MINIMUM_SLOTS_PER_EPOCH) with 5.
    unfold saturating_add, u32_max. rewrite N.min_r by lia. rewrite saturating_pow2_small by lia.
    assert (2 ^ (e + 5) = 32 * 2 ^ e) as -> by (rewrite N.pow_add_r; lia).
    assert (2 ^ (e + 1) = 2 * 2 ^ e) as Hdbl by (rewrite N.pow_add_r; lia). rewrite Hdbl in *.
    pose proof (pow2_pos e). lia.
  - unfold get_epoch_and_slot_index. rewrite (proj2 (N.ltb_ge _ _)) by done. cbn [fst snd].
    unfold checked_div0, checked_rem0, saturating_sub, saturating_add, u64_max.
    rewrite !(proj2 (N.eqb_neq (slots_per_epoch s) 0)) by lia.
    set (d := slot - first_normal_slot s). pose proof (N.div_mod d (slots_per_epoch s) ltac:(lia)) as Hd.
    pose proof (N.mod_lt d (slots_per_epoch s) ltac:(lia)) as Hm.
        set (q := d / slots_per_epoch s) in *. set (r := d `mod` slots_per_epoch s) in *.
    assert (Hq : 32 * q ≤ d) by nia. rewrite N.min_r by lia.
    assert (Hf1 : ∀ j, slots_per_epoch s * j + first_normal_slot s ≤ 18446744073709551615 →
              get_first_slot_in_epoch s (first_normal_epoch s + j) = slots_per_epoch s * j + first_normal_slot s).
    { intros j Hj. destruct (N.eq_dec j 0) as [->|Hj0].
      - rewrite N.add_0_r, Hfirst by done. lia.
      - unfold get_first_slot_in_epoch. rewrite (proj2 (N.leb_gt _ _)) by lia.
        unfold saturating_add, saturating_mul, saturating_sub, u64_max.
        replace (first_normal_epoch s + j - first_normal_epoch s) with j by lia. lia. }
    unfold get_slots_in_epoch. rewrite (proj2 (N.ltb_ge _ _)) by lia.
    rewrite <-N.add_assoc, !Hf1 by nia. split_and!; [nia|done|nia].
Qed.

(** every slot lies in exactly the epoch the schedule gives it: the slot index is
    within the length of the epoch, the first slot of the epoch plus the index is the
    slot, and the epoch after it begins where this one ends; also in the warmup, where
    epochs double, and at the passage to full epochs. *)
Theorem epoch_of_slot n offset w s slot :
  schedule_custom (E:=unit) n offset w = Ok s → n ≤ 2 ^ 63 → slot + n ≤ u64_max →
  let x := get_epoch_and_slot_index s slot in
  get_first_slot_in_epoch s x.1 + x.2 = slot ∧ x.2 < get_slots_in_epoch s x.1 ∧
  get_first_slot_in_epoch s (x.1 + 1) = get_first_slot_in_epoch s x.1 + get_slots_in_epoch s x.1.
Proof.
  intros Hs Hn Hb. destruct (schedule_custom_ok _ _ _ _ Hs Hn) as [Hok Hlen].
  apply slot_in_epoch; [done|by rewrite Hlen].
Qed.
Definition sample_schedule : EpochSchedule := mkEpochSchedule 8192 8192 true 8 8160.
Lemma epoch_of_slot_witness :
  get_epoch_and_slot_index sample_schedule 100 = (2, 4) ∧
  get_first_slot_in_epoch sample_schedule 2 + 4 = 100.
Proof.
  split; [vm_compute; reflexivity|].
  apply (epoch_of_slot 8192 8192 true sample_schedule 100); vm_compute; [reflexivity|discriminate..].
Defined.

(** ** The stake history *)
Definition STAKE_HISTORY_MAX_ENTRIES : N := 512.
Record StakeHistoryEntry := mkStakeHistoryEntry {
  effective : N;
  activating : N;
  deactivating : N }.
#[export] Instance StakeHistoryEntry_eq_dec : EqDecision StakeHistoryEntry.
Proof. solve_decision. Defined.
Definition stake_history_entry_default : StakeHistoryEntry := mkStakeHistoryEntry 0 0 0.
Definition with_effective (n : N) : StakeHistoryEntry := mkStakeHistoryEntry n 0 0.
Definition with_effective_and_activating (n m : N) : StakeHistoryEntry := mkStakeHistoryEntry n m 0.
Definition with_deactivating (n : N) : StakeHistoryEntry := mkStakeHistoryEntry n 0 n.
Definition entry_add (x y : StakeHistoryEntry) : StakeHistoryEntry :=
  mkStakeHistoryEntry (saturating_add u64_max (effective x) (effective y))
    (saturating_add u64_max (activating x) (activating y))
    (saturating_add u64_max (deactivating x) (deactivating y)).

Definition StakeHistory : Type := list (N * StakeHistoryEntry).
(** the binary search, on a list in falling order: the position of the epoch, or where it
    belongs *)
Fixpoint epoch_search (epoch : N) (l : StakeHistory) : N + N :=
  match l with
  | [] => inr 0
  | (probe, _) :: l' =>
      if probe =? epoch then inl 0
      else if probe <? epoch then inr 0
      else match epoch_search epoch l' with inl i => inl (i + 1) | inr i => inr (i + 1) end
  end.
Definition stake_history_get (epoch : N) (l : StakeHistory) : option StakeHistoryEntry :=
  match epoch_search epoch l with inl i => snd <$> getN l i | inr _ => None end.
Definition stake_history_add (epoch : N) (entry : StakeHistoryEntry) (l : StakeHistory) : StakeHistory :=
  take (N.to_nat STAKE_HISTORY_MAX_ENTRIES)
    (match epoch_search epoch l with
     | inl i => <[N.to_nat i := (epoch, entry)]> l
     | inr i => take (N.to_nat i) l ++ (epoch, entry) :: drop (N.to_nat i) l
     end).

(** an entry that is found was stored under the epoch *)
Lemma stake_history_get_elem epoch l x : stake_history_get epoch l = Some x → (epoch, x) ∈ l.
Proof.
  unfold stake_history_get, getN. induction l as [|[probe y] l IH]; [done|]. simpl.
  destruct (N.eqb_spec probe epoch) as [->|]; [intros [= <-]; by left|]. destruct (_ <? _); [done|].
  destruct (epoch_search epoch l) as [i|]; [|done]. rewrite N2Nat.inj_add, Nat.add_1_r. simpl.
  intros Hx. right. by apply IH.
Qed.
