(* ===== verification/LogCollector.v ===== *)
(** * Program logs

    [program-runtime/src/log_collector.rs], the messages of
    [program-runtime/src/stable_log.rs] and the texts of [InstructionError]
    ([sdk/program/src/instruction.rs]).  A [String] is the list of its bytes. *)

From S2P Require Import Prelude Sdk.

(** ** The collector *)
Definition LOG_MESSAGES_BYTES_LIMIT : N := 10 * 1000.

Record LogCollector := mkLogCollector {
  messages : list string;
  bytes_written : N;
  bytes_limit : option N;
  limit_warning : bool }.

Definition log_collector_default : LogCollector :=
  mkLogCollector [] 0 (Some LOG_MESSAGES_BYTES_LIMIT) false.
Definition new_ref_with_limit (limit : option N) : LogCollector :=
  mkLogCollector [] 0 limit false.

Definition str_len (s : string) : N := N.of_nat (String.length s).

Definition LOG_TRUNCATED : string := "Log truncated".

Definition log (message : string) (c : LogCollector) : LogCollector :=
  match bytes_limit c with
  | None =>
      mkLogCollector (messages c ++ [message]) (bytes_written c) None (limit_warning c)
  | Some limit =>
      let written := saturating_add u64_max (bytes_written c) (str_len message) in
      if limit <=? written then
        if limit_warning c then c else
        mkLogCollector (messages c ++ [LOG_TRUNCATED]) (bytes_written c) (bytes_limit c) true
      else
        mkLogCollector (messages c ++ [message]) written (bytes_limit c) (limit_warning c)
  end.

(** [ic_logger_msg!]: nothing is recorded without a collector *)
Definition ic_logger_msg (message : string) (c : option LogCollector) : option LogCollector :=
  log message <$> c.

(** ** [{:#x}] *)
Definition hex_digit (n : N) : string :=
  match n with
  | 0 => "0" | 1 => "1" | 2 => "2" | 3 => "3" | 4 => "4" | 5 => "5" | 6 => "6" | 7 => "7"
  | 8 => "8" | 9 => "9" | 10 => "a" | 11 => "b" | 12 => "c" | 13 => "d" | 14 => "e" | _ => "f"
  end.
(** at most 8 digits: the code of [Custom] is an [u32] *)
Fixpoint hex_digits (fuel : nat) (n : N) : string :=
  match fuel with
  | O => ""
  | S fuel' =>
      if n <? 16 then hex_digit n
      else hex_digits fuel' (n `div` 16) +:+ hex_digit (n `mod` 16)
  end.
Definition hex_string (n : N) : string := hex_digits 8 n.

(** [impl Display for InstructionError] *)
Definition instruction_error_to_string (e : InstructionError) : string :=
  match e with
  | GenericError => "generic instruction error"
  | InvalidArgument => "invalid program argument"
  | InvalidInstructionData => "invalid instruction data"
  | InvalidAccountData => "invalid account data for instruction"
  | AccountDataTooSmall => "account data too small for instruction"
  | InsufficientFunds => "insufficient funds for instruction"
  | IncorrectProgramId => "incorrect program id for instruction"
  | MissingRequiredSignature => "missing required signature for instruction"
  | AccountAlreadyInitialized => "instruction requires an uninitialized account"
  | UninitializedAccount => "instruction requires an initialized account"
  | UnbalancedInstruction => "sum of account balances before and after instruction do not match"
  | ModifiedProgramId => "instruction illegally modified the program id of an account"
  | ExternalAccountLamportSpend => "instruction spent from the balance of an account it does not own"
  | ExternalAccountDataModified => "instruction modified data of an account it does not own"
  | ReadonlyLamportChange => "instruction changed the balance of a read-only account"
  | ReadonlyDataModified => "instruction modified data of a read-only account"
  | DuplicateAccountIndex => "instruction contains duplicate accounts"
  | ExecutableModified => "instruction changed executable bit of an account"
  | RentEpochModified => "instruction modified rent epoch of an account"
  | NotEnoughAccountKeys => "insufficient account keys for instruction"
  | AccountDataSizeChanged => "program other than the account's owner changed the size of the account data"
  | AccountNotExecutable => "instruction expected an executable account"
  | AccountBorrowFailed => "instruction tries to borrow reference for an account which is already borrowed"
  | AccountBorrowOutstanding => "instruction left account with an outstanding borrowed reference"
  | DuplicateAccountOutOfSync => "instruction modifications of multiply-passed account differ"
  | Custom code => "custom program error: 0x" +:+ hex_string code
  | InvalidError => "program returned invalid error code"
  | ExecutableDataModified => "instruction changed executable accounts data"
  | ExecutableLamportChange => "instruction changed the balance of an executable account"
  | ExecutableAccountNotRentExempt => "executable accounts must be rent exempt"
  | UnsupportedProgramId => "Unsupported program id"
  | CallDepth => "Cross-program invocation call depth too deep"
  | MissingAccount => "An account required by the instruction is missing"
  | ReentrancyNotAllowed => "Cross-program invocation reentrancy not allowed for this instruction"
  | MaxSeedLengthExceeded => "Length of the seed is too long for address generation"
  | InvalidSeeds => "Provided seeds do not result in a valid address"
  | InvalidRealloc => "Failed to reallocate account data"
  | ComputationalBudgetExceeded => "Computational budget exceeded"
  | PrivilegeEscalation => "Cross-program invocation with unauthorized signer or writable account"
  | ProgramEnvironmentSetupFailure => "Failed to create program execution environment"
  | ProgramFailedToComplete => "Program failed to complete"
  | ProgramFailedToCompile => "Program failed to compile"
  | Immutable => "Account is immutable"
  | IncorrectAuthority => "Incorrect authority provided"
  | BorshIoError msg => "Failed to serialize or deserialize account data: " +:+ msg
  | AccountNotRentExempt => "An account does not have enough lamports to be rent-exempt"
  | InvalidAccountOwner => "Invalid account owner"
  | ArithmeticOverflow => "Program arithmetic overflowed"
  | UnsupportedSysvar => "Unsupported sysvar"
  | IllegalOwner => "Provided owner is not allowed"
  | MaxAccountsDataAllocationsExceeded => "Accounts data allocations exceeded the maximum allowed per transaction"
  | MaxAccountsExceeded => "Max accounts exceeded"
  | MaxInstructionTraceLengthExceeded => "Max instruction trace length exceeded"
  | BuiltinProgramsMustConsumeComputeUnits => "Builtin programs must consume compute units"
  end.

(** ** Stable program log messages *)
Section stable_log.
Context `{PubkeyDisplay}.

Definition program_invoke (program_id : Pubkey) (invoke_depth : N) :
  option LogCollector → option LogCollector :=
  ic_logger_msg ("Program " +:+ pubkey_to_string program_id +:+ " invoke [" +:+
                 pretty invoke_depth +:+ "]").
Definition program_log (message : string) : option LogCollector → option LogCollector :=
  ic_logger_msg ("Program log: " +:+ message).
Definition program_success (program_id : Pubkey) : option LogCollector → option LogCollector :=
  ic_logger_msg ("Program " +:+ pubkey_to_string program_id +:+ " success").
Definition program_failure (program_id : Pubkey) (err : string) :
  option LogCollector → option LogCollector :=
  ic_logger_msg ("Program " +:+ pubkey_to_string program_id +:+ " failed: " +:+ err).
End stable_log.

(** ** Theory *)

Definition log_all (ms : list string) (c : LogCollector) : LogCollector :=
  foldl (λ c m, log m c) c ms.
Definition bytes_of (ms : list string) : N := foldr (λ m acc, str_len m + acc) 0 ms.

(** What a collector with a limit holds after the messages [ms]: some of them, in
    order, below the limit; all of them until the first one that does not fit, and
    from then on the notice at the place where it did not. *)
Record log_inv (limit : N) (ms : list string) (c : LogCollector) (kept : list string) : Prop := {
  li_limit : bytes_limit c = Some limit;
  li_kept : kept `sublist_of` ms;
  li_bytes : bytes_written c = bytes_of kept;
  li_bound : bytes_of kept < limit ∨ kept = [];
  li_all : limit_warning c = false → messages c = ms ∧ kept = ms;
  li_some : limit_warning c = true → ∃ a b, kept = a ++ b ∧ messages c = a ++ LOG_TRUNCATED :: b }.

Lemma bytes_of_snoc ms m : bytes_of (ms ++ [m]) = bytes_of ms + str_len m.
Proof. induction ms as [|x ms IH]; simpl; [lia|]. rewrite IH. lia. Qed.

Lemma sublist_snoc_skip {A} (l k : list A) x : l `sublist_of` k → l `sublist_of` k ++ [x].
Proof. intros. by apply sublist_inserts_r. Qed.

Lemma log_inv_step limit ms c kept m :
  limit ≤ u64_max → log_inv limit ms c kept →
  ∃ kept', log_inv limit (ms ++ [m]) (log m c) kept'.
Proof.
  intros Hl []. unfold log. rewrite li_limit0. unfold saturating_add.
  destruct (N.leb_spec limit (u64_max `min` (bytes_written c + str_len m))) as [Hle|Hlt].
  - exists kept. destruct (limit_warning c) eqn:Hw.
    + split; auto using sublist_snoc_skip; [congruence].
    + destruct (li_all0 eq_refl) as [Hm ->].
      split; simpl; auto using sublist_snoc_skip; [done|].
      intros _. exists ms, []. by rewrite Hm, app_nil_r.
  - assert (Hb : bytes_of (kept ++ [m]) < limit) by (rewrite bytes_of_snoc, <-li_bytes0; lia).
    exists (kept ++ [m]). split; simpl; auto.
    + by apply sublist_app.
    + rewrite N.min_r by lia. rewrite li_bytes0. by rewrite bytes_of_snoc.
    + intros Hw. destruct (li_all0 Hw) as [-> ->]. done.
    + intros Hw. destruct (li_some0 Hw) as (a & b & -> & ->).
      exists a, (b ++ [m]). by rewrite <-!app_assoc.
Qed.

Lemma log_all_inv limit ms :
  limit ≤ u64_max → ∃ kept, log_inv limit ms (log_all ms (new_ref_with_limit (Some limit))) kept.
Proof.
  intros Hl. induction ms as [|m ms [kept IH]] using rev_ind.
  - exists []. split; simpl; auto; done.
  - unfold log_all. rewrite foldl_snoc. by eapply log_inv_step.
Qed.

(** the log of a transaction with a byte limit, whatever messages were sent to
    it: without a truncation it holds all of them; with one it holds a
    subsequence of them, below the limit in total, and exactly one
    [Log truncated] notice besides. *)
Theorem log_collector_bounded limit ms :
  limit ≤ u64_max →
  let c := log_all ms (new_ref_with_limit (Some limit)) in
  if limit_warning c
  then ∃ a b, messages c = a ++ LOG_TRUNCATED :: b ∧ (a ++ b) `sublist_of` ms ∧
              (bytes_of (a ++ b) < limit ∨ a ++ b = [])
  else messages c = ms ∧ (bytes_of ms < limit ∨ ms = []).
Proof.
  intros Hl. simpl. destruct (log_all_inv limit ms Hl) as [kept []].
  destruct (limit_warning _).
  - destruct li_some0 as (a & b & -> & ->); [done|]. by exists a, b.
  - destruct li_all0 as [-> ->]; done.
Qed.

Lemma log_collector_bounded_witness :
  messages (log_all ["abc"; "defgh"; "x"]%string (new_ref_with_limit (Some 6))) =
    ["abc"; LOG_TRUNCATED; "x"]%string ∧
  ∃ a b, ["abc"; LOG_TRUNCATED; "x"]%string = a ++ LOG_TRUNCATED :: b ∧
         (a ++ b) `sublist_of` ["abc"; "defgh"; "x"]%string ∧
         (bytes_of (a ++ b) < 6 ∨ a ++ b = []).
Proof.
  split; [reflexivity|].
  apply (log_collector_bounded 6 ["abc"; "defgh"; "x"]%string). vm_compute. discriminate.
Defined.
