(* ===== verification/InvokeContext.v ===== *)
(** * Program invocation ([program-runtime/src/invoke_context.rs])

    The invoke context of a transaction and the calls of programs: pushing and
    popping stack frames, preparing a cross-program invocation, running the
    entrypoint of a builtin.

    A program is a tree ([program]): it acts on the invoke context, looks at
    the outcome and goes on, and it may invoke another program; the entrypoints
    themselves come from a registry, the programs loaded for the batch.  The
    recursion through [native_invoke] takes a fuel; [InvokeRules] proves that the
    capacity of the instruction stack is enough. *)

From S2P Require Import Prelude Sdk Rent EpochSchedule Account TransactionContext LogCollector.

(** ** Data *)

(** the limits of [ComputeBudget] the modelled code reads; the other fields are
    the prices of syscalls *)
Record ComputeBudget := mkComputeBudget {
  compute_unit_limit : N;
  max_invoke_stack_height : N;
  max_instruction_trace_length : N;
  heap_size : N }.

Definition MAX_COMPUTE_UNIT_LIMIT : N := 1400000.
Definition compute_budget_new (limit : N) : ComputeBudget := mkComputeBudget limit 5 64 (32 * 1024).

Record Clock := mkClock {
  clock_slot : N;
  epoch_start_timestamp : Z;
  clock_epoch : N;
  leader_schedule_epoch : N;
  unix_timestamp : Z }.

(** the sysvars the modelled programs read; [None] is one the cache misses *)
Record SysvarCache := mkSysvarCache {
  sc_clock : option Clock;
  sc_epoch_schedule : option EpochSchedule;
  sc_rent : option Rent;
  (** block hash and lamports per signature, most recent first *)
  sc_recent_blockhashes : option (list (Hash * N));
  (** slot and hash, most recent first *)
  sc_slot_hashes : option (list (N * Hash));
  sc_stake_history : option StakeHistory }.

Record BpfAllocator := mkBpfAllocator { alloc_len : N; alloc_pos : N }.

Record SerializedAccountMetadata := mkSerializedAccountMetadata {
  original_data_len : N;
  vm_data_addr : N;
  vm_key_addr : N;
  vm_lamports_addr : N;
  vm_owner_addr : N }.

Record SyscallContext := mkSyscallContext {
  allocator : BpfAllocator;
  accounts_metadata : list SerializedAccountMetadata;
  trace_log : list (list N) }.

Record InvokeContext := mkInvokeContext {
  transaction_context : TransactionContext;
  sysvar_cache : SysvarCache;
  log_collector : option LogCollector;
  compute_budget : ComputeBudget;
  current_compute_budget : ComputeBudget;
  compute_meter : N;
  feature_set : gset Pubkey;
  blockhash : Hash;
  lamports_per_signature : N;
  syscall_context : list (option SyscallContext);
  traces : list (list (list N)) }.

Abbreviation IC := (M InvokeContext InstructionError).

Definition set_transaction_context (x : TransactionContext) (s : InvokeContext) :=
  mkInvokeContext x (sysvar_cache s) (log_collector s) (compute_budget s)
    (current_compute_budget s) (compute_meter s) (feature_set s) (blockhash s)
    (lamports_per_signature s) (syscall_context s) (traces s).
Definition set_log_collector (x : option LogCollector) (s : InvokeContext) :=
  mkInvokeContext (transaction_context s) (sysvar_cache s) x (compute_budget s)
    (current_compute_budget s) (compute_meter s) (feature_set s) (blockhash s)
    (lamports_per_signature s) (syscall_context s) (traces s).
Definition set_current_compute_budget (x : ComputeBudget) (s : InvokeContext) :=
  mkInvokeContext (transaction_context s) (sysvar_cache s) (log_collector s) (compute_budget s)
    x (compute_meter s) (feature_set s) (blockhash s)
    (lamports_per_signature s) (syscall_context s) (traces s).
Definition set_compute_meter (x : N) (s : InvokeContext) :=
  mkInvokeContext (transaction_context s) (sysvar_cache s) (log_collector s) (compute_budget s)
    (current_compute_budget s) x (feature_set s) (blockhash s)
    (lamports_per_signature s) (syscall_context s) (traces s).
Definition put_syscall_context (x : list (option SyscallContext)) (s : InvokeContext) :=
  mkInvokeContext (transaction_context s) (sysvar_cache s) (log_collector s) (compute_budget s)
    (current_compute_budget s) (compute_meter s) (feature_set s) (blockhash s)
    (lamports_per_signature s) x (traces s).
Definition set_traces (x : list (list (list N))) (s : InvokeContext) :=
  mkInvokeContext (transaction_context s) (sysvar_cache s) (log_collector s) (compute_budget s)
    (current_compute_budget s) (compute_meter s) (feature_set s) (blockhash s)
    (lamports_per_signature s) (syscall_context s) x.

Definition invoke_context_new (t : TransactionContext) (cache : SysvarCache)
    (logs : option LogCollector) (budget : ComputeBudget) (features : gset Pubkey)
    (blockhash : Hash) (lamports_per_signature : N) : InvokeContext :=
  mkInvokeContext t cache logs budget budget (compute_unit_limit budget) features blockhash
    lamports_per_signature [] [].

(** code of the transaction context, run through [self.transaction_context] *)
Definition on_tc {A} (m : TC A) : IC A := λ s,
  let '(r, t) := m (transaction_context s) in (r, set_transaction_context t s).
Definition asks_tc {A} (f : TransactionContext → result InstructionError A) : IC A :=
  asks (λ s, f (transaction_context s)).

(** a borrowed account that lives while [body] runs *)
Definition ic_with_account {A} (acquire : TC BorrowedAccount)
    (body : BorrowedAccount → IC A) : IC A := λ s,
  match acquire (transaction_context s) with
  | (Ok ba, t1) =>
      let '(r, s2) := body ba (set_transaction_context t1 s) in
      (r, set_transaction_context (drop_borrow ba (transaction_context s2)) s2)
  | (Err e, t1) => (Err e, set_transaction_context t1 s)
  | (Panic, t1) => (Panic, set_transaction_context t1 s)
  end.

(** ** Logs and the compute meter *)
Definition log_with (f : option LogCollector → option LogCollector) : IC unit :=
  modify (λ s, set_log_collector (f (log_collector s)) s).
Definition ic_msg (message : string) : IC unit := log_with (ic_logger_msg message).

Definition consume_checked (amount : N) : IC unit :=
  meter <- gets compute_meter ;;
  modify (set_compute_meter (saturating_sub meter amount)) ;;
  if meter <? amount then throw ComputationalBudgetExceeded else ret tt.
Definition consume (amount : N) : IC unit :=
  modify (λ s, set_compute_meter (saturating_sub (compute_meter s) amount) s).
Definition get_remaining (s : InvokeContext) : N := compute_meter s.

(** ** The bump allocator of a program's heap *)
Definition MM_HEAP_START : N := 0x300000000.

(** [(pos as *const u8).align_offset(align)] for an alignment that is a power of two *)
Definition align_offset (pos align : N) : N := (align - pos `mod` align) `mod` align.

Definition bpf_allocator_new (len : N) : BpfAllocator := mkBpfAllocator len 0.
(** the address, or [None] for [AllocErr], and the allocator afterwards *)
Definition bpf_alloc (a : BpfAllocator) (size align : N) : option N * BpfAllocator :=
  let bytes_to_align := align_offset (alloc_pos a) align in
  if saturating_add u64_max (saturating_add u64_max (alloc_pos a) bytes_to_align) size
       <=? alloc_len a
  then
    let pos := saturating_add u64_max (alloc_pos a) bytes_to_align in
    let addr := saturating_add u64_max MM_HEAP_START pos in
    (Some addr, mkBpfAllocator (alloc_len a) (saturating_add u64_max pos size))
  else (None, a).

(** ** Syscall contexts *)
Definition set_syscall_context (x : SyscallContext) : IC unit :=
  l <- gets syscall_context ;;
  match l with
  | [] => throw CallDepth
  | _ => modify (put_syscall_context (removelast l ++ [Some x]))
  end.
Definition get_syscall_context : IC SyscallContext :=
  asks (λ s, ok_or (mjoin (list.last (syscall_context s))) CallDepth).

(** ** Sysvars ([program-runtime/src/sysvar_cache.rs]) *)
Definition get_rent (c : SysvarCache) : result InstructionError Rent :=
  ok_or (sc_rent c) UnsupportedSysvar.
Definition get_clock (c : SysvarCache) : result InstructionError Clock :=
  ok_or (sc_clock c) UnsupportedSysvar.
Definition get_epoch_schedule (c : SysvarCache) : result InstructionError EpochSchedule :=
  ok_or (sc_epoch_schedule c) UnsupportedSysvar.
Definition get_recent_blockhashes (c : SysvarCache) : result InstructionError (list (Hash * N)) :=
  ok_or (sc_recent_blockhashes c) UnsupportedSysvar.
Definition get_slot_hashes (c : SysvarCache) : result InstructionError (list (N * Hash)) :=
  ok_or (sc_slot_hashes c) UnsupportedSysvar.
Definition get_stake_history (c : SysvarCache) : result InstructionError StakeHistory :=
  ok_or (sc_stake_history c) UnsupportedSysvar.

Definition check_sysvar_account (t : TransactionContext) (ic : InstructionContext)
    (instruction_account_index : N) (id : Pubkey) : result InstructionError unit :=
  let! index := get_index_of_instruction_account_in_transaction ic instruction_account_index in
  let! key := get_key_of_account_at_index t index in
  if key_eqb id key then Ok tt else Err InvalidArgument.

Definition rent_with_account_check (ic : InstructionContext) (index : N) : IC Rent :=
  asks_tc (λ t, check_sysvar_account t ic index sysvar_rent_id) ;;
  asks (λ s, get_rent (sysvar_cache s)).
Definition clock_with_account_check (ic : InstructionContext) (index : N) : IC Clock :=
  asks_tc (λ t, check_sysvar_account t ic index sysvar_clock_id) ;;
  asks (λ s, get_clock (sysvar_cache s)).
Definition slot_hashes_with_account_check (ic : InstructionContext) (index : N) : IC (list (N * Hash)) :=
  asks_tc (λ t, check_sysvar_account t ic index sysvar_slot_hashes_id) ;;
  asks (λ s, get_slot_hashes (sysvar_cache s)).
Definition stake_history_with_account_check (ic : InstructionContext) (index : N) : IC StakeHistory :=
  asks_tc (λ t, check_sysvar_account t ic index sysvar_stake_history_id) ;;
  asks (λ s, get_stake_history (sysvar_cache s)).
Definition recent_blockhashes_with_account_check (ic : InstructionContext) (index : N) :
  IC (list (Hash * N)) :=
  asks_tc (λ t, check_sysvar_account t ic index sysvar_recent_blockhashes_id) ;;
  asks (λ s, get_recent_blockhashes (sysvar_cache s)).

(** ** Stack frames *)

(** [ic.try_borrow_last_program_account(..).map(|p| p.get_key() == program_id)
    .unwrap_or(false)] *)
Definition runs_program (t : TransactionContext) (program_id : Pubkey)
    (ic : result InstructionError InstructionContext) : bool :=
  match ic with
  | Ok ic =>
      match (with_account (try_borrow_last_program_account ic) ba_get_key t).1 with
      | Ok key => key_eqb key program_id
      | _ => false
      end
  | _ => false
  end.

Definition ic_push : IC unit :=
  ic <- asks_tc (λ t, get_instruction_context_at_index_in_trace t
                        (get_instruction_trace_length t)) ;;
  program_id <- asks_tc (λ t, map_err UnsupportedProgramId (get_last_program_key ic t)) ;;
  height <- gets (λ s, get_instruction_context_stack_height (transaction_context s)) ;;
  (if height =? 0 then
     modify (λ s, set_current_compute_budget (compute_budget s) s)
   else
     contains <- gets (λ s, let t := transaction_context s in
       existsb (λ level, runs_program t program_id (get_instruction_context_at_nesting_level t level))
         (rangeN height)) ;;
     is_last <- gets (λ s, let t := transaction_context s in
       runs_program t program_id (get_current_instruction_context t)) ;;
     if (contains && negb is_last : bool) then throw ReentrancyNotAllowed else ret tt) ;;
  modify (λ s, put_syscall_context (syscall_context s ++ [None]) s) ;;
  on_tc tc_push.

Definition ic_pop : IC unit :=
  l <- gets syscall_context ;;
  modify (put_syscall_context (removelast l)) ;;
  (match list.last l with
   | Some (Some x) => modify (λ s, set_traces (traces s ++ [trace_log x]) s)
   | _ => ret tt
   end) ;;
  on_tc tc_pop.

Section invoke.
Context `{PubkeyDisplay}.

(** ** Preparing a cross-program invocation *)

(** the first loop: find each account and unify the privileges of duplicates *)
Fixpoint deduplicate (ic : InstructionContext) (metas : list AccountMeta) (index : N)
    (deduplicated : list InstructionAccount) (duplicate_indicies : list N) :
  IC (list InstructionAccount * list N) :=
  match metas with
  | [] => ret (deduplicated, duplicate_indicies)
  | meta :: metas' =>
      let unknown :=
        ic_msg ("Instruction references an unknown account " +:+
                pubkey_to_string (meta_pubkey meta)) ;;
        throw MissingAccount in
      found <- gets (λ s, find_index_of_account (transaction_context s) (meta_pubkey meta)) ;;
      match found with
      | None => unknown
      | Some index_in_tx =>
          match position (λ ia, index_in_transaction ia =? index_in_tx) deduplicated with
          | Some duplicate_index =>
              let merge ia :=
                mkInstructionAccount (index_in_transaction ia) (index_in_caller ia)
                  (index_in_callee ia) (ia_is_signer ia || meta_is_signer meta)
                  (ia_is_writable ia || meta_is_writable meta) in
              deduplicate ic metas' (index + 1)
                (alter merge (N.to_nat duplicate_index) deduplicated)
                (duplicate_indicies ++ [duplicate_index])
          | None =>
              in_caller <- gets (λ s,
                find_index_of_instruction_account ic (transaction_context s) (meta_pubkey meta)) ;;
              match in_caller with
              | None => unknown
              | Some index_in_caller =>
                  deduplicate ic metas' (index + 1)
                    (deduplicated ++
                       [mkInstructionAccount index_in_tx index_in_caller (as_u16 index)
                          (meta_is_signer meta) (meta_is_writable meta)])
                    (duplicate_indicies ++ [len deduplicated])
              end
          end
      end
  end.

(** the second loop: no privilege the caller lacks *)
Definition check_privileges (ic : InstructionContext) (signers : list Pubkey)
    (ia : InstructionAccount) : IC unit :=
  ic_with_account (try_borrow_instruction_account ic (index_in_caller ia)) (λ ba,
    key <- on_tc (ba_get_key ba) ;;
    if ia_is_writable ia && negb (ba_is_writable ba) then
      ic_msg (pubkey_to_string key +:+ "'s writable privilege escalated") ;;
      throw PrivilegeEscalation
    else
    if ia_is_signer ia && negb (ba_is_signer ba || bool_decide (key ∈ signers)) then
      ic_msg (pubkey_to_string key +:+ "'s signer privilege escalated") ;;
      throw PrivilegeEscalation
    else ret tt).

Fixpoint collect_duplicates (deduplicated : list InstructionAccount) (indices : list N) :
  result InstructionError (list InstructionAccount) :=
  match indices with
  | [] => Ok []
  | i :: indices' =>
      let! ia := ok_or (getN deduplicated i) NotEnoughAccountKeys in
      let! rest := collect_duplicates deduplicated indices' in
      Ok (ia :: rest)
  end.

Definition prepare_instruction (instruction : Instruction) (signers : list Pubkey) :
  IC (list InstructionAccount * list N) :=
  ic <- asks_tc get_current_instruction_context ;;
  dedup <- deduplicate ic (ix_accounts instruction) 0 [] [] ;;
  for_each dedup.1 (check_privileges ic signers) ;;
  accounts <- lift (collect_duplicates dedup.1 dedup.2) ;;
  found <- gets (λ s,
    find_index_of_instruction_account ic (transaction_context s) (ix_program_id instruction)) ;;
  match found with
  | None =>
      ic_msg ("Unknown program " +:+ pubkey_to_string (ix_program_id instruction)) ;;
      throw MissingAccount
  | Some program_account_index =>
      ic_with_account (try_borrow_instruction_account ic program_account_index) (λ ba,
        a <- on_tc (ba_account ba) ;;
        if negb (executable a) then
          ic_msg ("Account " +:+ pubkey_to_string (ix_program_id instruction) +:+
                  " is not executable") ;;
          throw AccountNotExecutable
        else ret (accounts, [ba_index_in_transaction ba]))
  end.

(** ** Programs *)

(** what a builtin's entrypoint can fail with: an [InstructionError], or another
    error the caller turns into [ProgramFailedToComplete] *)
Inductive BuiltinError :=
| InstructionErr (e : InstructionError)
| OtherErr (text : string).

Inductive program : Type :=
| Return (r : result BuiltinError unit)
| Act {B : Type} (m : IC B) (k : result InstructionError B → program)
| Invoke (instruction : Instruction) (signers : list Pubkey)
    (k : result InstructionError unit → program).

Fixpoint run_program (invoke : Instruction → list Pubkey → IC unit) (p : program) :
  M InvokeContext BuiltinError unit := λ s,
  match p with
  | Return r => (r, s)
  | Act m k =>
      match m s with
      | (Panic, s') => (Panic, s')
      | (r, s') => run_program invoke (k r) s'
      end
  | Invoke instruction signers k =>
      match invoke instruction signers s with
      | (Panic, s') => (Panic, s')
      | (r, s') => run_program invoke (k r) s'
      end
  end.

(** [declare_process_instruction!] around a builtin's handler *)
Definition to_builtin_result (r : result InstructionError unit) : result BuiltinError unit :=
  match r with Ok x => Ok x | Err e => Err (InstructionErr e) | Panic => Panic end.
Definition declare_process_instruction (cu_to_consume : N) (inner : IC unit) : program :=
  Act (if 0 <? cu_to_consume then consume_checked cu_to_consume else ret tt) (λ r,
    match r with
    | Ok _ => Act inner (λ r, Return (to_builtin_result r))
    | _ => Return (to_builtin_result r)
    end).

(** what [programs_loaded_for_tx_batch.find] returns: a builtin with its entrypoint,
    or a program that is not one *)
Inductive LoadedProgramType :=
| Builtin (entrypoint : option program)
| NotBuiltin.

Context (programs_loaded_for_tx_batch : Pubkey → option LoadedProgramType).

Definition find_entrypoint (builtin_id : Pubkey) : result InstructionError program :=
  let! entry := ok_or (programs_loaded_for_tx_batch builtin_id) UnsupportedProgramId in
  ok_or (match entry with Builtin f => f | NotBuiltin => None end) UnsupportedProgramId.

(** the key of the builtin that runs the instruction *)
Definition find_builtin_id (ic : InstructionContext) : TC Pubkey := λ t,
  match try_borrow_program_account ic 0 t with
  | (Ok ba, t1) =>
      let '(r, t2) :=
        (a <- ba_account ba ;;
         if key_eqb (owner a) native_loader_id then ba_get_key ba else ret (owner a)) t1 in
      (r, drop_borrow ba t2)
  | (Err _, t1) => (Err UnsupportedProgramId, t1)
  | (Panic, t1) => (Panic, t1)
  end.

(** the outcome of the entrypoint and the log line about it *)
Definition program_outcome (program_id : Pubkey) (r : result BuiltinError unit) :
  IC (result InstructionError unit) :=
  match r with
  | Ok _ => log_with (program_success program_id) ;; ret (Ok tt)
  | Err (InstructionErr e) =>
      log_with (program_failure program_id (instruction_error_to_string e)) ;; ret (Err e)
  | Err (OtherErr text) =>
      log_with (program_failure program_id text) ;; ret (Err ProgramFailedToComplete)
  | Panic => lift Panic
  end.

(** returns the compute units the program consumed with its outcome *)
Definition process_executable_chain (invoke : Instruction → list Pubkey → IC unit) :
  IC (N * result InstructionError unit) :=
  ic <- asks_tc get_current_instruction_context ;;
  builtin_id <- on_tc (find_builtin_id ic) ;;
  function <- lift (find_entrypoint builtin_id) ;;
  program_id <- asks_tc (get_last_program_key ic) ;;
  on_tc (set_return_data program_id []) ;;
  height <- gets (λ s, get_instruction_context_stack_height (transaction_context s)) ;;
  log_with (program_invoke program_id height) ;;
  pre_remaining_units <- gets get_remaining ;;
  program_result <- (λ s, match run_program invoke function s with
                          | (Panic, s') => (Panic, s') | (r, s') => (Ok r, s') end) ;;
  outcome <- program_outcome program_id program_result ;;
  post_remaining_units <- gets get_remaining ;;
  let compute_units_consumed := saturating_sub pre_remaining_units post_remaining_units in
  if key_eqb builtin_id program_id && is_ok outcome && (compute_units_consumed =? 0)
  then ret (compute_units_consumed, Err BuiltinProgramsMustConsumeComputeUnits)
  else ret (compute_units_consumed, outcome).

(** [a.and(b)] where [b] has been evaluated whatever [a] is *)
Definition and_pop (units : N) (r : result InstructionError unit) :
  IC (N * result InstructionError unit) :=
  popped <- observe ic_pop ;;
  ret (units, match r with Ok _ => popped | _ => r end).

(** [process_instruction]: the units consumed are reported also when the
    instruction fails; an error before the entrypoint leaves them at 0. *)
Fixpoint process_instruction (fuel : nat) (data : list N) (accounts : list InstructionAccount)
    (program_indices : list N) : IC (N * result InstructionError unit) := unwinding (
  configured <- observe (on_tc (update_next_instruction_context
                                  (configure program_indices accounts data)) ;;
                         ic_push) ;;
  match configured with
  | Ok _ =>
      match fuel with
      | O => lift Panic
      | S fuel' =>
          let native_invoke instruction signers :=
            prepared <- prepare_instruction instruction signers ;;
            r <- process_instruction fuel' (ix_data instruction) prepared.1 prepared.2 ;;
            lift r.2 in
          chain <- observe (process_executable_chain native_invoke) ;;
          match chain with
          | Ok (units, r) => and_pop units r
          | Err e => and_pop 0 (Err e)
          | Panic => lift Panic
          end
      end
  | Err e => ret (0, Err e)
  | Panic => lift Panic
  end).

Definition native_invoke (fuel : nat) (instruction : Instruction) (signers : list Pubkey) :
  IC unit :=
  prepared <- prepare_instruction instruction signers ;;
  r <- process_instruction fuel (ix_data instruction) prepared.1 prepared.2 ;;
  lift r.2.
End invoke.
