(* ===== verification/InvokeRules.v ===== *)
(** * Rules of program invocation

    What holds for [process_instruction] whatever programs are loaded, as long
    as they reach accounts only through the accounts they were passed
    ([lawful]): an account the instruction does not pass as writable is not
    changed, however deep the program invokes others; the stack is restored; the
    stack capacity bounds the recursion. *)

From S2P Require Import Prelude Sdk Rent Account TransactionContext AccountRules InstructionRules.
From S2P Require Import LogCollector InvokeContext.

(** ** Well-formed instructions *)

(** the index is the one [find_index_of_account] gives for its key *)
Definition canonical (t : TransactionContext) (i : N) : Prop :=
  ∃ key, getN (account_keys t) i = Some key ∧ find_index_of_account t key = Some i.

Record ias_ok (t : TransactionContext) (ias : list InstructionAccount) : Prop := {
  io_dedup : dedup_ok ias;
  io_canonical : ∀ ia, ia ∈ ias → canonical t (index_in_transaction ia) }.

Definition ic_ok (t : TransactionContext) (ic : InstructionContext) : Prop :=
  ic_small ic ∧ ias_ok t (instruction_accounts ic).

(** the state in which the program of [ic] runs *)
Record running (ic : InstructionContext) (s : InvokeContext) : Prop := {
  rn_current : get_current_instruction_context (transaction_context s) = Ok ic;
  rn_wf : tc_wf (transaction_context s);
  rn_keys : len (account_keys (transaction_context s)) ≤ u16_max;
  rn_ok : ic_ok (transaction_context s) ic }.

Definition ic_frame (ic : InstructionContext) (s s' : InvokeContext) : Prop :=
  instr_frame ic (transaction_context s) (transaction_context s').

Lemma ias_ok_keys t t' ias : account_keys t' = account_keys t → ias_ok t ias → ias_ok t' ias.
Proof.
  intros Hk [Hd Hc]. split; [done|]. intros ia Hia. destruct (Hc ia Hia) as (key & H1 & H2).
  exists key. unfold find_index_of_account. rewrite Hk. done.
Qed.

Lemma running_frame Rel ic s s' :
  running ic s → tc_frame Rel (transaction_context s) (transaction_context s') → running ic s'.
Proof.
  intros [] H. pose proof (tf_keys _ _ _ H) as Hk. split.
  - by rewrite (get_current_frame Rel (transaction_context s)).
  - by eapply tc_frame_wf.
  - by rewrite Hk.
  - destruct rn_ok0. split; [done|]. by eapply ias_ok_keys.
Qed.

#[export] Instance ic_frame_stable ic : StableFrame (running ic) (ic_frame ic).
Proof.
  split.
  - intros s _. apply tc_frame_refl, _.
  - intros s1 s2 s3 H12 H23. eapply (tc_frame_trans (instr_rel ic)); eauto.
  - intros s s' Hr H. by eapply running_frame.
Qed.

(** ** Lawful programs *)
Fixpoint lawful (ic : InstructionContext) (p : program) : Prop :=
  match p with
  | Return _ => True
  | Act m k => steps_in (running ic) (ic_frame ic) m ∧ ∀ r, lawful ic (k r)
  | Invoke instruction _ k => len (ix_accounts instruction) < u16_max ∧ ∀ r, lawful ic (k r)
  end.

(** what the runtime relies on of the programs it loads *)
Class LawfulPrograms (programs : Pubkey → option LoadedProgramType) : Prop :=
  programs_lawful : ∀ id p, programs id = Some (Builtin (Some p)) → ∀ ic, lawful ic p.

(** ** Steps of the invoke context *)
Lemma on_tc_frame {A} P ic (m : TC A) :
  steps_in (λ _, True) (instr_frame ic) m → steps_in P (ic_frame ic) (on_tc m).
Proof.
  intros Hm s _. unfold on_tc, ic_frame. specialize (Hm (transaction_context s) I).
  by destruct (m (transaction_context s)).
Qed.

Lemma ic_same_frame ic s s' :
  transaction_context s' = transaction_context s → ic_frame ic s s'.
Proof. unfold ic_frame. intros ->. apply tc_frame_refl, _. Qed.

Lemma log_with_frame P ic f : steps_in P (ic_frame ic) (log_with f).
Proof. intros s _. by apply ic_same_frame. Qed.
Lemma ic_msg_frame P ic m : steps_in P (ic_frame ic) (ic_msg m).
Proof. apply log_with_frame. Qed.
Lemma asks_tc_frame {A} P ic (f : TransactionContext → result InstructionError A) :
  steps_in P (ic_frame ic) (asks_tc f).
Proof. intros s _. by apply ic_same_frame. Qed.
Lemma consume_checked_frame P ic n : steps_in P (ic_frame ic) (consume_checked n).
Proof.
  intros s _. apply ic_same_frame. unfold consume_checked. do 2 mstep. by destruct (_ <? _).
Qed.
#[export] Hint Resolve log_with_frame ic_msg_frame asks_tc_frame consume_checked_frame : frame.

(** the current instruction context is the one that runs *)
Lemma steps_current {A} (P : InvokeContext → Prop) ic (k : InstructionContext → IC A) :
  (∀ s, P s → running ic s) → steps_in P (ic_frame ic) (k ic) →
  steps_in P (ic_frame ic) (bind (asks_tc get_current_instruction_context) k).
Proof.
  intros HP Hk s Hs. unfold bind, asks_tc, asks. rewrite (rn_current _ _ (HP s Hs)). by apply Hk.
Qed.

Lemma set_return_data_frame ic k d :
  steps_in (λ _, True) (instr_frame ic) (set_return_data k d).
Proof. intros t _. by apply tc_frame_same; [apply _|..]. Qed.
#[export] Hint Resolve set_return_data_frame : frame.

(** a read-only use of a handle *)
Lemma ba_get_key_frame ic ba : steps_in (λ _, True) (instr_frame ic) (ba_get_key ba).
Proof. apply steps_pure, _. Qed.
Lemma ba_account_frame ic ba : steps_in (λ _, True) (instr_frame ic) (ba_account ba).
Proof. apply steps_pure, _. Qed.
#[export] Hint Resolve ba_get_key_frame ba_account_frame : frame.
#[export] Hint Extern 1 (steps_in _ (ic_frame _) (on_tc _)) => apply on_tc_frame : frame.

Lemma ic_with_borrow_frame {A} ic index ii (body : BorrowedAccount → IC A) :
  steps_in (running ic) (ic_frame ic) (body (mkBorrowedAccount ic index ii)) →
  steps_in (running ic) (ic_frame ic) (ic_with_account (try_borrow_account ic index ii) body).
Proof.
  intros Hb s Hs. unfold ic_with_account, ic_frame, try_borrow_account, bind, asks.
  destruct (ta_get _ index) as [c|] eqn:Hc; simpl; [|apply tc_frame_refl, _].
  destruct (cell_borrowed c) eqn:Hbw; simpl; [apply tc_frame_refl, _|].
  set (s1 := set_transaction_context _ s).
  assert (Hr : running ic s1).
  { destruct Hs as [H1 H2 H3 [H4 H5]]. unfold s1. split; simpl; [by rewrite <-H1|done..|].
    split; [done|]. by apply (ias_ok_keys (transaction_context s)). }
  specialize (Hb s1 Hr). unfold ic_frame in Hb.
  destruct (body _ s1) as [r s2]. simpl in *.
  eapply alter_cell_frame in Hb; try done; [apply _|naive_solver].
Qed.

Lemma ic_with_instruction_account_frame {A} ic i (body : BorrowedAccount → IC A) :
  (∀ ba, steps_in (running ic) (ic_frame ic) (body ba)) →
  steps_in (running ic) (ic_frame ic)
    (ic_with_account (try_borrow_instruction_account ic i) body).
Proof.
  intros Hb s Hs. unfold ic_with_account, try_borrow_instruction_account, bind at 1, lift.
  destruct (get_index_of_instruction_account_in_transaction ic i);
    [|by apply ic_same_frame..].
  by apply (ic_with_borrow_frame ic).
Qed.

(** with the handle known to come from the instruction *)
Lemma ic_with_handle_frame {A} ic i (body : BorrowedAccount → IC A) :
  ic_small ic →
  (∀ ba, handle_in ic ba → steps_in (running ic) (ic_frame ic) (body ba)) →
  steps_in (running ic) (ic_frame ic)
    (ic_with_account (try_borrow_instruction_account ic i) body).
Proof.
  intros Hsm Hb s Hs. unfold ic_with_account, try_borrow_instruction_account, bind at 1, lift.
  destruct (get_index_of_instruction_account_in_transaction ic i) eqn:Hi;
    [|by apply ic_same_frame..].
  apply (ic_with_borrow_frame ic); [|done]. by apply Hb, handle_in_instruction_account.
Qed.

(** the operations on such a handle *)
Section handle_ops.
Context (P : InvokeContext → Prop) (ic : InstructionContext) (ba : BorrowedAccount).
Hypothesis Hba : handle_in ic ba.

Lemma handle_op_frame {A} (m : TC A) :
  (∀ t, handle_frame ba t (m t).2) → steps_in P (ic_frame ic) (on_tc m).
Proof. intros. by eapply on_tc_frame, op_frame. Qed.
Lemma ic_set_lamports_frame n : steps_in P (ic_frame ic) (on_tc (ba_set_lamports ba n)).
Proof. apply handle_op_frame, ba_set_lamports_frame. Qed.
Lemma ic_checked_add_frame n : steps_in P (ic_frame ic) (on_tc (ba_checked_add_lamports ba n)).
Proof. apply handle_op_frame, ba_checked_add_lamports_frame. Qed.
Lemma ic_checked_sub_frame n : steps_in P (ic_frame ic) (on_tc (ba_checked_sub_lamports ba n)).
Proof. apply handle_op_frame, ba_checked_sub_lamports_frame. Qed.
Lemma ic_set_owner_frame k : steps_in P (ic_frame ic) (on_tc (ba_set_owner ba k)).
Proof. apply handle_op_frame, ba_set_owner_frame. Qed.
Lemma ic_set_data_length_frame n : steps_in P (ic_frame ic) (on_tc (ba_set_data_length ba n)).
Proof. apply handle_op_frame, ba_set_data_length_frame. Qed.
Lemma ic_set_state_frame {T} `{Bincode T} (x : T) :
  steps_in P (ic_frame ic) (on_tc (ba_set_state ba x)).
Proof. apply handle_op_frame. intros t. apply ba_set_state_frame. Qed.
End handle_ops.

Lemma ba_get_state_frame {T} `{Bincode T} ic ba :
  steps_in (λ _, True) (instr_frame ic) (ba_get_state (T:=T) ba).
Proof. unfold ba_get_state. frame_solve. Qed.
#[export] Hint Resolve ba_get_state_frame : frame.
#[export] Hint Resolve ic_set_lamports_frame ic_checked_add_frame ic_checked_sub_frame
  ic_set_owner_frame ic_set_data_length_frame ic_set_state_frame : frame.

(** the adapter around a lawful handler *)
Lemma declared_lawful cu inner :
  (∀ ic, steps_in (running ic) (ic_frame ic) inner) →
  ∀ ic, lawful ic (declare_process_instruction cu inner).
Proof.
  intros Hi ic. split; [destruct (0 <? cu); frame_solve|]. intros [[]| |]; simpl; auto.
Qed.

(** ** Preparing an invocation *)

(** the part of an entry that does not depend on the privileges *)
Definition core (ia : InstructionAccount) : N * N * N :=
  (index_in_transaction ia, index_in_caller ia, index_in_callee ia).

Record dd_inv (t : TransactionContext) (ic : InstructionContext) (dups : list N)
    (cores : list (N * N * N)) : Prop := {
  dd_bound : ∀ d, d ∈ dups → d < len cores;
  dd_nodup : ∀ i j a b, getN cores i = Some a → getN cores j = Some b → a.1.1 = b.1.1 → i = j;
  dd_entry : ∀ c, c ∈ cores → canonical t c.1.1 ∧
    ∃ ca key, getN (instruction_accounts ic) c.1.2 = Some ca ∧
      getN (account_keys t) (index_in_transaction ca) = Some key ∧
      getN (account_keys t) c.1.1 = Some key;
  dd_callee : ∀ k c, getN cores k = Some c → getN dups c.2 = Some k }.

Lemma getN_app_l {A} (l k : list A) i x : getN l i = Some x → getN (l ++ k) i = Some x.
Proof. apply lookup_app_l_Some. Qed.
Lemma getN_snoc {A} (l : list A) x i y :
  getN (l ++ [x]) i = Some y → getN l i = Some y ∨ i = len l ∧ y = x.
Proof.
  unfold getN, len. intros [H|[H1 H2]]%lookup_app_Some; [by left|right].
  apply list_lookup_singleton_Some in H2 as [? ->]. split; [lia|done].
Qed.
Lemma getN_snoc_len {A} (l : list A) x : getN (l ++ [x]) (len l) = Some x.
Proof. unfold getN, len. rewrite Nat2N.id. by apply list_lookup_middle. Qed.
Lemma len_snoc {A} (l : list A) x : len (l ++ [x]) = len l + 1.
Proof. unfold len. rewrite length_app. simpl. lia. Qed.
Lemma len_fmap {A B} (f : A → B) l : len (f <$> l) = len l.
Proof. unfold len. by rewrite length_fmap. Qed.
Lemma getN_fmap {A B} (f : A → B) l i : getN (f <$> l) i = f <$> getN l i.
Proof. apply list_lookup_fmap. Qed.

Lemma dd_inv_merge t ic dups cores d :
  dd_inv t ic dups cores → d < len cores → dd_inv t ic (dups ++ [d]) cores.
Proof.
  intros [] Hd. split; auto.
  - intros x [Hx| ->%list_elem_of_singleton]%elem_of_app; auto.
  - intros k c Hk. by apply getN_app_l, dd_callee0.
Qed.

Lemma dd_inv_new t ic dups cores c :
  dd_inv t ic dups cores →
  (∀ a, a ∈ cores → a.1.1 ≠ c.1.1) → c.2 = len dups →
  (canonical t c.1.1 ∧
    ∃ ca key, getN (instruction_accounts ic) c.1.2 = Some ca ∧
      getN (account_keys t) (index_in_transaction ca) = Some key ∧
      getN (account_keys t) c.1.1 = Some key) →
  dd_inv t ic (dups ++ [len cores]) (cores ++ [c]).
Proof.
  intros [] Hnew Hc He. split.
  - intros d. rewrite len_snoc. intros [Hd| ->%list_elem_of_singleton]%elem_of_app; [|lia].
    specialize (dd_bound0 d Hd). lia.
  - intros i j a b [Ha|[-> ->]]%getN_snoc [Hb|[-> ->]]%getN_snoc Heq; eauto.
    + exfalso. apply (Hnew a); [|done]. by eapply getN_elem.
    + exfalso. apply (Hnew b); [|done]. by eapply getN_elem.
  - intros x [Hx| ->%list_elem_of_singleton]%elem_of_app; auto.
  - intros k x [Hk|[-> ->]]%getN_snoc; [by apply getN_app_l, dd_callee0|].
    rewrite Hc. apply getN_snoc_len.
Qed.

Lemma find_index_canonical t key i :
  len (account_keys t) ≤ u16_max → find_index_of_account t key = Some i →
  getN (account_keys t) i = Some key ∧ canonical t i.
Proof.
  intros Hk Hf. pose proof Hf as Hf'. unfold find_index_of_account in Hf.
  apply fmap_Some in Hf as (p & Hp & ->).
  assert (as_u16 p = p) as Hc.
  { apply N.mod_small. apply position_lt in Hp. unfold u16_max in *. lia. }
  apply position_Some in Hp as (x & Hx & Heq & _). apply key_eqb_true in Heq as ->.
  rewrite Hc in *. split; [done|]. by exists key.
Qed.

Lemma find_in_caller_spec ic t key i :
  ic_small ic → find_index_of_instruction_account ic t key = Some i →
  ∃ ca, getN (instruction_accounts ic) i = Some ca ∧
        getN (account_keys t) (index_in_transaction ca) = Some key.
Proof.
  intros Hs (p & Hp & ->)%fmap_Some.
  assert (as_u16 p = p) as ->.
  { apply N.mod_small. apply position_lt in Hp. unfold ic_small, u16_max in *. lia. }
  apply position_Some in Hp as (ca & Hca & Heq%bool_decide_eq_true & _). by exists ca.
Qed.

Lemma fmap_alter_same {A B} (f : A → B) (g : A → A) (i : nat) (l : list A) :
  (∀ x, f (g x) = f x) → f <$> alter g i l = f <$> l.
Proof.
  intros Hg. revert i. induction l as [|x l IH]; intros [|i]; csimpl; [done..| |].
  - by rewrite Hg.
  - f_equal. apply IH.
Qed.

Section prepare.
Context `{PubkeyDisplay}.

Lemma deduplicate_spec ic metas : ∀ dedup dups s dedup' dups' s',
  ic_small ic → len (account_keys (transaction_context s)) ≤ u16_max →
  len dups + len metas ≤ u16_max →
  dd_inv (transaction_context s) ic dups (core <$> dedup) →
  deduplicate ic metas (len dups) dedup dups s = (Ok (dedup', dups'), s') →
  s' = s ∧ len dups' = len dups + len metas ∧
  dd_inv (transaction_context s) ic dups' (core <$> dedup').
Proof.
  induction metas as [|meta metas IH]; intros dedup dups s dedup' dups' s' Hs Hk Hlen Hdd; simpl.
  { intros [= <- <- <-]. unfold len at 3. simpl. rewrite N.add_0_r. done. }
  replace (len (meta :: metas)) with (len metas + 1) in * by (unfold len; simpl; lia).
  mstep. destruct (find_index_of_account _ _) as [index_in_tx|] eqn:Hf; [|done].
  destruct (find_index_canonical _ _ _ Hk Hf) as [Hkey Hcan].
  destruct (position _ dedup) as [d|] eqn:Hp.
  - rewrite <-(len_snoc dups d). intros Hrun. apply IH in Hrun; auto.
    + rewrite len_snoc in Hrun. destruct Hrun as (-> & Hl & Hi). split_and!; [done|lia|done].
    + rewrite len_snoc. lia.
    + rewrite fmap_alter_same by done. apply dd_inv_merge; [done|].
      rewrite len_fmap. by eapply position_lt.
  - mstep. destruct (find_index_of_instruction_account _ _ _) as [in_caller|] eqn:Hc; [|done].
    rewrite <-(len_snoc dups (len dedup)). intros Hrun. apply IH in Hrun; auto.
    + rewrite len_snoc in Hrun. destruct Hrun as (-> & Hl & Hi). split_and!; [done|lia|done].
    + rewrite len_snoc. lia.
    + rewrite fmap_app. rewrite <-(len_fmap core dedup). simpl. apply dd_inv_new; [done|..].
      * intros c (ia & -> & Hia)%list_elem_of_fmap. simpl.
        apply (position_None _ _ Hp), N.eqb_neq in Hia. done.
      * simpl. apply N.mod_small. unfold u16_max in *. lia.
      * simpl. split; [done|]. destruct (find_in_caller_spec _ _ _ _ Hs Hc) as (ca & Hca & Hck).
        by exists ca, (meta_pubkey meta).
Qed.

(** an entry of the callee and the entry of the caller it comes from *)
Definition granted (ic : InstructionContext) (t : TransactionContext) (signers : list Pubkey)
    (ia : InstructionAccount) : Prop :=
  ∃ ca, ca ∈ instruction_accounts ic ∧ index_in_transaction ca = index_in_transaction ia ∧
    (ia_is_writable ia = true → ia_is_writable ca = true) ∧
    (ia_is_signer ia = true → ia_is_signer ca = true ∨
       ∃ key, getN (account_keys t) (index_in_transaction ia) = Some key ∧ key ∈ signers).

Lemma handle_flags ic i ca :
  ic_small ic → getN (instruction_accounts ic) i = Some ca →
  let ba := mkBorrowedAccount ic (index_in_transaction ca)
              (saturating_add u16_max (get_number_of_program_accounts ic) i) in
  ba_is_writable ba = ia_is_writable ca ∧ ba_is_signer ba = ia_is_signer ca.
Proof.
  intros Hs Hi. unfold ba_is_writable, ba_is_signer. simpl.
  pose proof (getN_lt _ _ _ Hi) as Hlt. unfold ic_small in Hs.
  assert (Hn : get_number_of_program_accounts ic = len (program_accounts ic)).
  { apply N.mod_small. unfold u16_max in *. lia. }
  rewrite Hn. unfold saturating_add, saturating_sub. rewrite N.min_r by lia.
  destruct (N.ltb_spec (len (program_accounts ic) + i) (len (program_accounts ic))); [lia|].
  replace (len (program_accounts ic) + i - len (program_accounts ic)) with i by lia.
  unfold is_instruction_account_writable, is_instruction_account_signer. by rewrite Hi.
Qed.

Lemma check_privileges_frame ic signers ia :
  steps_in (running ic) (ic_frame ic) (check_privileges ic signers ia).
Proof. apply ic_with_instruction_account_frame. intros ba. frame_solve. Qed.

Lemma deduplicate_frame ic metas : ∀ index dedup dups,
  steps_in (running ic) (ic_frame ic) (deduplicate ic metas index dedup dups).
Proof. induction metas as [|meta metas IH]; intros; simpl; frame_solve. Qed.

Lemma prepare_instruction_frame ic instruction signers :
  steps_in (running ic) (ic_frame ic) (prepare_instruction instruction signers).
Proof.
  apply steps_current; [done|]. frame_solve.
  - apply deduplicate_frame.
  - apply check_privileges_frame.
  - apply ic_with_instruction_account_frame. intros ba. frame_solve.
Qed.

Lemma check_privileges_ok ic signers ia s s' :
  running ic s → check_privileges ic signers ia s = (Ok tt, s') →
  (∃ ca key, getN (instruction_accounts ic) (index_in_caller ia) = Some ca ∧
      getN (account_keys (transaction_context s)) (index_in_transaction ca) = Some key ∧
      getN (account_keys (transaction_context s)) (index_in_transaction ia) = Some key) →
  canonical (transaction_context s) (index_in_transaction ia) →
  granted ic (transaction_context s) signers ia.
Proof.
  intros Hr Hrun (ca & key & Hca & Hkc & Hki) (key' & Hk1 & Hk2). simplify_eq.
  assert (Hidx : index_in_transaction ca = index_in_transaction ia).
  { destruct (rn_ok _ _ Hr) as [_ [_ Hc]].
    destruct (Hc ca) as (key2 & H1 & H2); [by eapply getN_elem|]. congruence. }
  exists ca. split; [by eapply getN_elem|]. split; [done|].
  destruct (handle_flags ic _ _ (proj1 (rn_ok _ _ Hr)) Hca) as [Hw Hs]. simpl in Hw, Hs.
  unfold check_privileges, ic_with_account, try_borrow_instruction_account, bind, lift,
    get_index_of_instruction_account_in_transaction in Hrun. rewrite Hca in Hrun. simpl in Hrun.
  unfold try_borrow_account, bind, asks in Hrun.
  destruct (ta_get _ _) as [c|]; simpl in Hrun; [|done].
  destruct (cell_borrowed c); simpl in Hrun; [done|].
  unfold on_tc, ba_get_key, asks, get_key_of_account_at_index in Hrun. simpl in Hrun.
  rewrite Hkc in Hrun. simpl in Hrun. rewrite Hw, Hs in Hrun.
  split.
  - intros Hiw. rewrite Hiw in Hrun. by destruct (ia_is_writable ca).
  - intros His. rewrite His in Hrun. destruct (ia_is_writable ia && _); [done|].
    destruct (ia_is_signer ca); [by left|]. simpl in Hrun.
    case_bool_decide; [right|done]. by exists key.
Qed.

Lemma collect_duplicates_spec dedup idx : ∀ l,
  collect_duplicates dedup idx = Ok l →
  len l = len idx ∧ ∀ i d, getN idx i = Some d → getN l i = getN dedup d.
Proof.
  induction idx as [|d idx IH]; intros l; simpl; [intros [= <-]; by split|].
  destruct (getN dedup d) as [ia|] eqn:Hd; simpl; [|done].
  destruct (collect_duplicates dedup idx) as [rest| |]; simpl; [|done..]. intros [= <-].
  destruct (IH rest eq_refl) as [Hl Hg]. split; [unfold len in *; simpl; lia|].
  intros i d'. specialize (Hg (N.pred i) d'). unfold getN in *.
  destruct (N.to_nat i) as [|n] eqn:Hi; simpl; [congruence|].
  replace (N.to_nat (N.pred i)) with n in Hg by lia. done.
Qed.

(** what a successful preparation promises of the callee's instruction *)
Record prepared_ok (ic : InstructionContext) (t : TransactionContext) (signers : list Pubkey)
    (ias : list InstructionAccount) (program_indices : list N) : Prop := {
  po_small : len program_indices + len ias ≤ u16_max;
  po_ok : ias_ok t ias;
  po_granted : ∀ ia, ia ∈ ias → granted ic t signers ia }.

Lemma dedup_of_inv t ic dups dedup ias :
  dd_inv t ic dups (core <$> dedup) → collect_duplicates dedup dups = Ok ias →
  dedup_ok ias ∧ ∀ ia, ia ∈ ias → ia ∈ dedup.
Proof.
  intros [] Hc. destruct (collect_duplicates_spec _ _ _ Hc) as [Hlen Hget].
  assert (Hsrc : ∀ i ia, getN ias i = Some ia → ∃ k, getN dups i = Some k ∧ getN dedup k = Some ia).
  { intros i ia Hi. destruct (getN dups i) as [k|] eqn:Hk.
    - exists k. split; [done|]. by rewrite <-(Hget i k Hk).
    - apply getN_lt in Hi. unfold getN in Hk. apply lookup_ge_None in Hk. unfold len in *. lia. }
  split.
  - intros i ia Hi. destruct (Hsrc i ia Hi) as (k & Hk & Hd). exists ia.
    assert (Hcore : getN (core <$> dedup) k = Some (core ia)) by (by rewrite getN_fmap, Hd).
    pose proof (dd_callee0 k _ Hcore) as Hcal. simpl in Hcal.
    split_and!; [by rewrite (Hget _ _ Hcal)|done|].
    intros j ja Hj Heq. destruct (Hsrc j ja Hj) as (k' & Hk' & Hd').
    assert (k' = k) as ->; [|congruence].
    apply (dd_nodup0 k' k (core ja) (core ia)); [by rewrite getN_fmap, Hd'|done|done].
  - intros ia (i & Hi)%list_elem_of_lookup.
    destruct (Hsrc (N.of_nat i) ia) as (k & _ & Hd); [unfold getN; by rewrite Nat2N.id|].
    by eapply getN_elem.
Qed.

Lemma prepare_instruction_spec ic instruction signers s ias program_indices s' :
  running ic s → len (ix_accounts instruction) < u16_max →
  prepare_instruction instruction signers s = (Ok (ias, program_indices), s') →
  prepared_ok ic (transaction_context s) signers ias program_indices.
Proof.
  intros Hr Hlen Hrun. unfold prepare_instruction in Hrun.
  apply bind_Ok_inv in Hrun as (ic' & s1 & Hic & Hrun).
  unfold asks_tc, asks in Hic. rewrite (rn_current _ _ Hr) in Hic. injection Hic as <- <-.
  apply bind_Ok_inv in Hrun as ([dedup dups] & s2 & Hdd & Hrun).
  change 0 with (len (@nil N)) in Hdd.
  apply deduplicate_spec in Hdd as (-> & Hl & Hinv);
    [|apply Hr|apply Hr|unfold len at 1; simpl; lia|split; simpl; set_solver]. simpl in Hrun.
  apply bind_Ok_inv in Hrun as ([] & s3 & Hpriv & Hrun).
  apply bind_Ok_inv in Hrun as (acc & s4 & [Hcol ->]%lift_Ok_inv & Hrun).
  destruct (dedup_of_inv _ _ _ _ _ Hinv Hcol) as [Hd Hin].
  destruct (collect_duplicates_spec _ _ _ Hcol) as [Hlen' _].
  assert (acc = ias ∧ len program_indices = 1) as [-> Hone].
  { apply bind_Ok_inv in Hrun as (found & s5 & [= <- <-] & Hrun).
    destruct (find_index_of_instruction_account _ _ _) as [i|]; [|done].
    unfold ic_with_account, bind, on_tc in Hrun.
    destruct (try_borrow_instruction_account ic i _) as [[ba| |] t1]; [|done..].
    destruct (ba_account ba _) as [[a| |] t2]; simpl in Hrun; [|done..].
    destruct (executable a); simpl in Hrun; [|done]. by simplify_eq. }
  split.
  - rewrite Hone, Hlen', Hl. unfold len at 1. simpl. lia.
  - split; [done|]. intros ia Hia%Hin.
    destruct (dd_entry _ _ _ _ Hinv (core ia)) as [Hc _]; [|done]. apply list_elem_of_fmap. by exists ia.
  - intros ia Hia%Hin.
    destruct (dd_entry _ _ _ _ Hinv (core ia)) as [Hc He]; [apply list_elem_of_fmap; by exists ia|].
    destruct (for_each_Ok_inv _ _ _ _ _ _ Hr (λ x _, check_privileges_frame ic signers x) Hpriv ia Hia)
      as (sa & sb & Hf & Hrun').
    pose proof (tf_keys _ _ _ Hf) as Hkeys.
    destruct (check_privileges_ok _ _ _ _ _ (frame_stable _ _ Hr Hf) Hrun') as (ca & ?); simpl in *.
    + by rewrite Hkeys.
    + destruct Hc as (key & H1 & H2). exists key. unfold find_index_of_account. by rewrite Hkeys.
    + rewrite Hkeys in *. by exists ca.
Qed.

(** the writable accounts of the callee are writable for the caller *)
Lemma prepared_writable ic t signers ias pidx i :
  prepared_ok ic t signers ias pidx → writable_among ias i → writable_in ic i.
Proof.
  intros [] (ia & Hia & <- & Hw). destruct (po_granted0 ia Hia) as (ca & Hca & Hi & Hw' & _).
  exists ca. rewrite Hi. auto.
Qed.
End prepare.

(** ** Entering and leaving an instruction *)
Lemma ic_push_tc s :
  (∃ s1, transaction_context s1 = transaction_context s ∧ ic_push s = on_tc tc_push s1) ∨
  (transaction_context (ic_push s).2 = transaction_context s ∧ (ic_push s).1 ≠ Ok tt).
Proof.
  unfold ic_push, asks_tc. repeat mstep; try (by right);
    left; eexists; (split; [|reflexivity]); done.
Qed.

Lemma ic_pop_tc s :
  transaction_context (ic_pop s).2 = (tc_pop (transaction_context s)).2 ∧
  (ic_pop s).1 = (tc_pop (transaction_context s)).1.
Proof.
  unfold ic_pop. do 2 mstep. set (s1 := put_syscall_context _ s).
  change (transaction_context s) with (transaction_context s1). clearbody s1.
  destruct (list.last _) as [[x|]|]; mstep; unfold on_tc; simpl;
    by destruct (tc_pop (transaction_context s1)).
Qed.

(** [configure] and [push], as [process_instruction] enters an instruction *)
Definition enter (program_indices : list N) (ias : list InstructionAccount) (data : list N) :
  IC unit :=
  on_tc (update_next_instruction_context (configure program_indices ias data)) ;; ic_push.

Record entered (pidx : list N) (ias : list InstructionAccount) (data : list N)
    (ic : InstructionContext) (t t' : TransactionContext) : Prop := {
  en_pidx : program_accounts ic = pidx;
  en_ias : instruction_accounts ic = ias;
  en_data : instruction_data ic = data;
  en_current : get_current_instruction_context t' = Ok ic;
  en_sum : instruction_accounts_lamport_sum t' ic = Ok (ic_lamport_sum ic);
  en_stack : ∃ x, instruction_stack t' = instruction_stack t ++ [x];
  en_height : get_instruction_context_stack_height t < instruction_stack_capacity t;
  en_wf : tc_wf t → tc_wf t';
  en_accounts : tx_accounts t' = tx_accounts t;
  en_frame : ∀ Rel, CellPreorder Rel → upto_stack Rel t t' }.

Lemma update_next_spec f t :
  instruction_trace t ≠ [] →
  ∃ ic0 t1, update_next_instruction_context f t = (Ok tt, t1) ∧
    list.last (instruction_trace t1) = Some (f ic0) ∧ tx_accounts t1 = tx_accounts t ∧
    ∀ Rel, CellPreorder Rel → tc_frame Rel t t1.
Proof.
  intros Hne. destruct (list.last (instruction_trace t)) as [ic0|] eqn:Hl.
  2:{ by apply last_None in Hl. }
  exists ic0, (update_next_instruction_context f t).2.
  assert (Hf : ∀ Rel, CellPreorder Rel → tc_frame Rel t (update_next_instruction_context f t).2)
    by (intros; apply trace_update_frame; apply _).
  unfold update_next_instruction_context in *. rewrite Hl in *. simpl in *.
  split_and!; [done| |done|done]. by rewrite last_snoc.
Qed.

Lemma enter_spec pidx ias data s :
  tc_wf (transaction_context s) →
  match enter pidx ias data s with
  | (Ok _, s') => ∃ ic, entered pidx ias data ic (transaction_context s) (transaction_context s')
  | (_, s') => ∀ Rel, CellPreorder Rel →
                 tc_frame Rel (transaction_context s) (transaction_context s')
  end.
Proof.
  intros Hwf. set (t := transaction_context s).
  destruct (update_next_spec (configure pidx ias data) t) as (ic0 & t1 & Hu & Hl & Ha & Hf);
    [apply Hwf|].
  unfold enter, bind, on_tc. fold t. rewrite Hu.
  destruct (ic_push_tc (set_transaction_context t1 s)) as [(s1 & Hs1 & ->)|[Hs1 Herr]].
  - unfold on_tc. rewrite Hs1. simpl.
    pose proof (tc_push_spec t1) as Hp.
    assert (Hup : ∀ Rel, CellPreorder Rel → upto_stack Rel t (tc_push t1).2).
    { intros Rel HR. eapply upto_stack_trans; [done|apply frame_upto_stack, Hf, HR|].
      by apply tc_push_upto. }
    destruct (tc_push t1) as [[[]|e|] t2]; simpl in *.
    + destruct Hp as (ic & sum & Hl' & [Hc Hs Hst Hh Hw Hac]). rewrite Hl in Hl'. simplify_eq.
      match type of Hc with _ = Ok ?ic => exists ic end.
      split; [done..|exact Hc|exact Hs| | | | |done].
      * eexists. rewrite Hst. f_equal. by apply (Hf (ias_rel []) _).
      * pose proof (Hf (ias_rel []) _) as []. unfold get_instruction_context_stack_height in *. congruence.
      * intros Hw'. apply Hw. by apply (tc_frame_wf (ias_rel []) t), Hw'; apply Hf, _.
      * by rewrite Hac.
    + intros Rel HR. apply upto_stack_frame; [by apply Hup|].
      rewrite Hp. by apply (Hf (ias_rel []) _).
    + intros Rel HR. apply upto_stack_frame; [by apply Hup|].
      rewrite Hp. by apply (Hf (ias_rel []) _).
  - destruct (ic_push _) as [[[]|e|] s2]; simpl in *; [done|rewrite Hs1; auto..].
Qed.

(** ** The frame of an instruction, invocations included *)

Definition small_invoke (ic : InstructionContext)
    (invoke : Instruction → list Pubkey → IC unit) : Prop :=
  ∀ instruction signers, len (ix_accounts instruction) < u16_max →
    steps_in (running ic) (ic_frame ic) (invoke instruction signers).

Lemma run_program_frame ic invoke p s :
  lawful ic p → small_invoke ic invoke → running ic s →
  ic_frame ic s (run_program invoke p s).2.
Proof.
  intros Hp Hi. revert s. induction p as [r|B m k IH|instruction signers k IH]; intros s Hs; simpl.
  - by apply ic_same_frame.
  - destruct Hp as [Hm Hk]. specialize (Hm s Hs).
    destruct (m s) as [[b|e|] s1]; simpl in *; [..|done];
      (eapply (frame_trans (P:=running ic)); [exact Hm|]);
      apply IH; [apply Hk|by eapply frame_stable|apply Hk|by eapply frame_stable].
  - destruct Hp as [Hl Hk]. specialize (Hi instruction signers Hl s Hs).
    destruct (invoke instruction signers s) as [[b|e|] s1]; simpl in *; [..|done];
      (eapply (frame_trans (P:=running ic)); [exact Hi|]);
      apply IH; [apply Hk|by eapply frame_stable|apply Hk|by eapply frame_stable].
Qed.

Lemma find_builtin_id_frame ic :
  steps_in (λ _, True) (instr_frame ic) (find_builtin_id ic).
Proof.
  intros t _. unfold find_builtin_id, try_borrow_program_account, bind at 1, lift.
  destruct (get_index_of_program_account_in_transaction ic 0) as [index| |];
    [|apply tc_frame_refl, _..].
  set (body := λ ba, a <- ba_account ba ;;
    if key_eqb (owner a) native_loader_id then ba_get_key ba else ret (owner a)).
  assert (Hb : ∀ ba, steps_in (λ _, True) (instr_frame ic) (body ba)) by (intros; unfold body; frame_solve).
  pose proof (with_borrow_frame (instr_rel ic) ic index 0 body t (λ t', Hb _ t' I)) as Hf.
  unfold with_account in Hf. by destruct (try_borrow_account ic index 0 t) as [[ba|e|] t1].
Qed.
#[export] Hint Resolve find_builtin_id_frame : frame.

Section frame.
Context `{PubkeyDisplay} (programs : Pubkey → option LoadedProgramType)
  `{!LawfulPrograms programs}.

Lemma find_entrypoint_lawful ic id p : find_entrypoint programs id = Ok p → lawful ic p.
Proof.
  unfold find_entrypoint. destruct (programs id) as [[[q|]|]|] eqn:Hp; simpl; try done.
  intros [= ->]. by eapply programs_lawful.
Qed.

Lemma chain_frame ic invoke :
  small_invoke ic invoke →
  steps_in (running ic) (ic_frame ic) (process_executable_chain programs invoke).
Proof.
  intros Hi. apply steps_current; [done|]. frame_step; [frame_solve|].
  intros s Hs. unfold bind at 1, lift. destruct (find_entrypoint programs a) as [p| |] eqn:Hp;
    [|by apply ic_same_frame..].
  apply (find_entrypoint_lawful ic) in Hp. revert s Hs.
  match goal with |- ∀ s, _ → _ s (?m s).2 =>
    change (steps_in (running ic) (ic_frame ic) m) end.
  repeat (frame_step; [by frame_solve|]).
  frame_step.
  - intros s Hs. pose proof (run_program_frame ic invoke p s Hp Hi Hs) as Hf.
    by destruct (run_program invoke p s) as [[]].
  - unfold program_outcome. frame_solve.
Qed.

Lemma and_pop_tc units r s :
  transaction_context (and_pop units r s).2 = (tc_pop (transaction_context s)).2.
Proof.
  destruct (ic_pop_tc s) as [<- _]. unfold and_pop, bind, observe.
  by destruct (ic_pop s) as [[]].
Qed.

(** entering, running and leaving *)
Lemma leave_frame Rel `{!CellPreorder Rel} pidx ias data ic t t1 t2 :
  entered pidx ias data ic t t1 → tc_frame Rel t1 t2 → tc_frame Rel t (tc_pop t2).2.
Proof.
  intros He Hf. apply upto_stack_frame.
  - eapply upto_stack_trans; [done|by apply (en_frame _ _ _ _ _ _ He)|].
    eapply upto_stack_trans; [done|by apply frame_upto_stack|]. by apply tc_pop_upto.
  - rewrite tc_pop_stack, (tf_stack _ _ _ Hf). destruct (en_stack _ _ _ _ _ _ He) as [x ->].
    by rewrite removelast_last.
Qed.

(** what [process_instruction] needs of the instruction it is given *)
Record call_ok (s : InvokeContext) (ias : list InstructionAccount) (pidx : list N) : Prop := {
  co_wf : tc_wf (transaction_context s);
  co_keys : len (account_keys (transaction_context s)) ≤ u16_max;
  co_small : len pidx + len ias ≤ u16_max;
  co_ias : ias_ok (transaction_context s) ias }.

Lemma entered_running pidx ias data ic s s' :
  call_ok s ias pidx →
  entered pidx ias data ic (transaction_context s) (transaction_context s') → running ic s'.
Proof.
  intros [] [<- <- _ Hc _ _ _ Hw _ Hf]. pose proof (Hf (ias_rel []) _) as [Hk]. simpl in Hk. split.
  - done.
  - by apply Hw.
  - by rewrite Hk.
  - split; [done|]. by eapply ias_ok_keys.
Qed.

(** [process_instruction] around its entry; an entry that succeeds needs fuel *)
Definition entered_body (fuel : nat) : IC (N * result InstructionError unit) :=
  match fuel with
  | O => lift Panic
  | S fuel' =>
      chain <- observe (process_executable_chain programs (native_invoke programs fuel')) ;;
      match chain with
      | Ok (units, r) => and_pop units r
      | Err e => and_pop 0 (Err e)
      | Panic => lift Panic
      end
  end.

Lemma process_instruction_run fuel data ias pidx s :
  process_instruction programs fuel data ias pidx s =
  match enter pidx ias data s with
  | (Ok _, s1) =>
      match entered_body fuel s1 with (Panic, _) => (Panic, s) | x => x end
  | (Err e, s1) => (Ok (0, Err e), s1)
  | (Panic, _) => (Panic, s)
  end.
Proof.
  unfold enter. destruct fuel; unfold process_instruction; fold process_instruction;
    unfold unwinding, bind at 1, observe at 1;
    by match goal with |- context [bind ?m ?k s] => destruct (bind m k s) as [[]] end.
Qed.

(** the call that [native_invoke] makes stays in the caller's frame *)
Lemma native_invoke_small ic fuel :
  (∀ data ias pidx s, call_ok s ias pidx →
     tc_frame (ias_rel ias) (transaction_context s)
       (transaction_context (process_instruction programs fuel data ias pidx s).2)) →
  small_invoke ic (native_invoke programs fuel).
Proof.
  intros IH instruction signers Hl s Hs. unfold native_invoke, bind at 1.
  pose proof (prepare_instruction_frame ic instruction signers s Hs) as Hf.
  destruct (prepare_instruction instruction signers s) as [[[ias pidx]|e|] s1] eqn:Hp;
    simpl in *; [|done..].
  pose proof (prepare_instruction_spec _ _ _ _ _ _ _ Hs Hl Hp) as Hok.
  assert (Hs1 : running ic s1) by (by eapply frame_stable).
  assert (Hcall : call_ok s1 ias pidx).
  { destruct Hs1, Hok. split; auto. by eapply ias_ok_keys; [apply Hf|]. }
  specialize (IH (ix_data instruction) ias pidx s1 Hcall).
  assert (Hf2 : ic_frame ic s1 (process_instruction programs fuel (ix_data instruction) ias pidx s1).2).
  { unfold ic_frame, instr_frame. eapply tc_frame_mono; [|exact IH]. intros i a b.
    apply ias_rel_mono. intros j. by eapply prepared_writable. }
  unfold bind. destruct (process_instruction _ _ _ _ _ s1) as [[r|e|] s2]; simpl in *;
    by eapply (frame_trans (P:=running ic)).
Qed.

(** a body that ran after an entry and did not panic: a chain in the frame of the
    instruction, then a pop *)
Lemma and_pop_run units rc s :
  (and_pop units rc s).1 ≠ Panic →
  transaction_context (and_pop units rc s).2 = (tc_pop (transaction_context s)).2 ∧
  ((and_pop units rc s).1 = Ok (units, Ok tt) → (tc_pop (transaction_context s)).1 = Ok tt) ∧
  (∃ r, (and_pop units rc s).1 = Ok (units, r)).
Proof.
  destruct (ic_pop_tc s) as [<- <-]. unfold and_pop, bind, observe.
  destruct (ic_pop s) as [[[]|e|] s']; simpl; [..|done]; intros _; split_and!; eauto;
    destruct rc as [[]| |]; naive_solver.
Qed.

Lemma entered_body_inv ic fuel s1 r s3 :
  running ic s1 → (∀ fuel', fuel = S fuel' → small_invoke ic (native_invoke programs fuel')) →
  entered_body fuel s1 = (r, s3) → r ≠ Panic →
  ∃ s2, ic_frame ic s1 s2 ∧ transaction_context s3 = (tc_pop (transaction_context s2)).2 ∧
    (∀ units, r = Ok (units, Ok tt) → (tc_pop (transaction_context s2)).1 = Ok tt).
Proof.
  intros Hs Hi Hrun Hr. destruct fuel as [|fuel]; simpl in Hrun; [by injection Hrun as <- _|].
  pose proof (chain_frame ic _ (Hi fuel eq_refl) s1 Hs) as Hf.
  unfold bind, observe in Hrun.
  destruct (process_executable_chain _ _ s1) as [[[units rc]|e|] s2]; simpl in *;
    [..|by injection Hrun as <- _]; exists s2; (split; [done|]);
    match type of Hrun with and_pop ?u ?rc s2 = _ =>
      destruct (and_pop_run u rc s2) as (H1 & H2 & r' & H3); rewrite Hrun in *; simpl in *; auto end;
    (split; [done|]); intros u' ->; naive_solver.
Qed.

(** Whatever the outcome, an instruction changes only accounts it passes as
    writable, and it leaves the stack as it found it. *)
Lemma process_instruction_frame fuel : ∀ data ias pidx s,
  call_ok s ias pidx →
  tc_frame (ias_rel ias) (transaction_context s)
    (transaction_context (process_instruction programs fuel data ias pidx s).2).
Proof.
  induction fuel as [fuel IH] using lt_wf_ind. intros data ias pidx s Hok.
  rewrite process_instruction_run.
  pose proof (enter_spec pidx ias data s (co_wf _ _ _ Hok)) as He.
  destruct (enter pidx ias data s) as [[[]|e|] s1]; [|by apply He, _|apply tc_frame_refl, _].
  destruct He as [ic He].
  destruct (entered_body fuel s1) as [r s3] eqn:Hb.
  destruct (decide (r = Panic)) as [->|Hr]; [apply tc_frame_refl, _|].
  destruct (entered_body_inv ic fuel s1 r s3) as (s2 & Hf & Hp & _); [| |done|done|].
  - by eapply entered_running.
  - intros fuel' ->. apply native_invoke_small. apply IH. lia.
  - unfold ic_frame, instr_frame, instr_rel in Hf. rewrite (en_ias _ _ _ _ _ _ He) in Hf.
    destruct r; [..|done]; simpl; rewrite Hp; by eapply leave_frame; [apply _|..].
Qed.

(** A successful instruction moves lamports and neither creates nor destroys them. *)
Lemma process_instruction_balanced fuel data ias pidx s units s' :
  call_ok s ias pidx →
  process_instruction programs fuel data ias pidx s = (Ok (units, Ok tt), s') →
  total_lamports (transaction_context s') = total_lamports (transaction_context s).
Proof.
  intros Hok. rewrite process_instruction_run.
  pose proof (enter_spec pidx ias data s (co_wf _ _ _ Hok)) as He.
  destruct (enter pidx ias data s) as [[[]|e|] s1]; [|done..].
  destruct He as [ic He].
  destruct (entered_body fuel s1) as [r s3] eqn:Hb. intros Hr.
  assert (r = Ok (units, Ok tt) ∧ s3 = s') as [-> ->] by (destruct r; naive_solver). clear Hr.
  destruct (entered_body_inv ic fuel s1 (Ok (units, Ok tt)) s') as (s2 & Hf & Hp & Hpop); [| |done|done|].
  { by eapply entered_running. }
  { intros fuel' ->. apply native_invoke_small. apply process_instruction_frame. }
  specialize (Hpop units eq_refl).
  destruct (tc_pop (transaction_context s2)) as [rp t3] eqn:Htp. simpl in *. subst rp t3.
  apply tc_pop_ok in Htp as (ic' & Hcur & Hsum & Hacc).
  rewrite (get_current_frame (instr_rel ic) (transaction_context s1)) in Hcur;
    [|by eapply en_wf; [|apply Hok]|done].
  rewrite (en_current _ _ _ _ _ _ He) in Hcur. injection Hcur as <-.
  transitivity (total_lamports (transaction_context s2));
    [unfold total_lamports, lamports_list; by rewrite Hacc|].
  transitivity (total_lamports (transaction_context s1)).
  2:{ unfold total_lamports, lamports_list. by rewrite (en_accounts _ _ _ _ _ _ He). }
  destruct Hok as [_ _ Hsm Hias]. destruct He as [<- <- _ _ Hs0 _ _ _ _ _].
  apply (balanced_total ic Hsm (io_dedup _ _ Hias) _ _ (ic_lamport_sum ic)); [apply Hf|done|done].
Qed.
End frame.

(** ** The stack capacity is enough fuel *)
(** the stack cannot grow by more than [fuel] *)
Definition enough (fuel : nat) (s : InvokeContext) : Prop :=
  instruction_stack_capacity (transaction_context s) ≤
  get_instruction_context_stack_height (transaction_context s) + N.of_nat fuel.
Definition running_with (ic : InstructionContext) (fuel : nat) (s : InvokeContext) : Prop :=
  running ic s ∧ enough fuel s.

#[export] Instance running_with_stable ic fuel : StableFrame (running_with ic fuel) (ic_frame ic).
Proof.
  split.
  - intros s _. by apply ic_same_frame.
  - intros s1 s2 s3 H12 H23. eapply (tc_frame_trans (instr_rel ic)); eauto.
  - intros s s' [Hr He] H. split; [by eapply running_frame|].
    unfold enough, get_instruction_context_stack_height in *.
    by rewrite (tf_stack _ _ _ H), (tf_stack_capacity _ _ _ H).
Qed.

Definition agree {A} (P : InvokeContext → Prop) (m m' : IC A) : Prop := ∀ s, P s → m s = m' s.

Lemma agree_refl {A} P (m : IC A) : agree P m m.
Proof. done. Qed.
Lemma agree_bind {A B} P ic `{!StableFrame P (ic_frame ic)} (m : IC A) (k k' : A → IC B) :
  steps_in P (ic_frame ic) m → (∀ a, agree P (k a) (k' a)) → agree P (bind m k) (bind m k').
Proof.
  intros Hm Hk s Hs. unfold bind. specialize (Hm s Hs).
  destruct (m s) as [[a|e|] s1]; simpl in *; [|done..]. apply Hk. by eapply frame_stable.
Qed.

Lemma agree_current {A} (P : InvokeContext → Prop) ic (k k' : InstructionContext → IC A) :
  (∀ s, P s → running ic s) → agree P (k ic) (k' ic) →
  agree P (bind (asks_tc get_current_instruction_context) k)
    (bind (asks_tc get_current_instruction_context) k').
Proof.
  intros HP Hk s Hs. unfold bind, asks_tc, asks. rewrite (rn_current _ _ (HP s Hs)). by apply Hk.
Qed.
Lemma agree_lift {A B} P (r : result InstructionError A) (k k' : A → IC B) :
  (∀ a, r = Ok a → agree P (k a) (k' a)) → agree P (bind (lift r) k) (bind (lift r) k').
Proof. intros Hk s Hs. unfold bind, lift. destruct r; [|done..]. by apply Hk. Qed.
Lemma agree_head {A B} P (m m' : IC A) (k : A → IC B) :
  agree P m m' → agree P (bind m k) (bind m' k).
Proof. intros Hm s Hs. unfold bind. by rewrite (Hm s Hs). Qed.

Lemma run_program_agree ic fuel inv inv' p s :
  lawful ic p → small_invoke ic inv →
  (∀ instruction signers, len (ix_accounts instruction) < u16_max →
     agree (running_with ic fuel) (inv instruction signers) (inv' instruction signers)) →
  running_with ic fuel s → run_program inv p s = run_program inv' p s.
Proof.
  intros Hp Hi Ha. revert s. induction p as [r|B m k IH|instruction signers k IH]; intros s Hs; simpl.
  - done.
  - destruct Hp as [Hm Hk]. specialize (Hm s (proj1 Hs)).
    destruct (m s) as [[b|e|] s1]; simpl in *; [..|done];
      apply IH; [apply Hk|by eapply frame_stable|apply Hk|by eapply frame_stable].
  - destruct Hp as [Hl Hk]. specialize (Hi instruction signers Hl s (proj1 Hs)).
    rewrite (Ha instruction signers Hl s Hs) in *.
    destruct (inv' instruction signers s) as [[b|e|] s1]; simpl in *; [..|done];
      apply IH; [apply Hk|by eapply frame_stable|apply Hk|by eapply frame_stable].
Qed.

Section fuel.
Context `{PubkeyDisplay} (programs : Pubkey → option LoadedProgramType)
  `{!LawfulPrograms programs}.

Lemma chain_agree ic fuel inv inv' :
  small_invoke ic inv →
  (∀ instruction signers, len (ix_accounts instruction) < u16_max →
     agree (running_with ic fuel) (inv instruction signers) (inv' instruction signers)) →
  agree (running_with ic fuel) (process_executable_chain programs inv)
    (process_executable_chain programs inv').
Proof.
  intros Hi Ha. apply (agree_current _ ic); [by intros s [? _]|].
  apply (agree_bind _ ic); [apply on_tc_frame, find_builtin_id_frame|intros id].
  apply agree_lift. intros p Hp. apply (find_entrypoint_lawful programs ic) in Hp.
  do 5 (apply (agree_bind _ ic); [by frame_solve|intros ?]).
  apply agree_head. intros s Hs. by rewrite (run_program_agree ic fuel inv inv').
Qed.

Lemma entered_enough pidx ias data ic s s' fuel :
  entered pidx ias data ic (transaction_context s) (transaction_context s') →
  enough (S fuel) s → enough fuel s'.
Proof.
  intros [_ _ _ _ _ [x Hx] _ _ _ Hf]. pose proof (tf_stack_capacity _ _ _ (Hf (ias_rel []) _)) as Hc.
  unfold enough, get_instruction_context_stack_height. rewrite Hc, Hx. simpl. rewrite len_snoc. lia.
Qed.

Lemma entered_fuel pidx ias data ic s s' :
  entered pidx ias data ic (transaction_context s) (transaction_context s') → ¬ enough 0 s.
Proof. intros []. unfold enough. simpl. lia. Qed.

Lemma native_invoke_agree ic fuel fuel' :
  (∀ data ias pidx s, call_ok s ias pidx → enough fuel s → enough fuel' s →
     process_instruction programs fuel data ias pidx s =
     process_instruction programs fuel' data ias pidx s) →
  ∀ instruction signers, len (ix_accounts instruction) < u16_max →
    ∀ s, running_with ic fuel s → enough fuel' s →
      native_invoke programs fuel instruction signers s =
      native_invoke programs fuel' instruction signers s.
Proof.
  intros IH instruction signers Hl s [Hs Hen] Hen'. unfold native_invoke, bind.
  pose proof (prepare_instruction_frame ic instruction signers s Hs) as Hf.
  destruct (prepare_instruction instruction signers s) as [[[ias pidx]|e|] s1] eqn:Hp;
    simpl in *; [|done..].
  pose proof (prepare_instruction_spec _ _ _ _ _ _ _ Hs Hl Hp) as Hok.
  destruct (frame_stable (P:=running_with ic fuel) s s1) as [[] He1]; [done..|].
  destruct (frame_stable (P:=running_with ic fuel') s s1) as [_ He2]; [done..|].
  rewrite IH; [done| |done|done]. destruct Hok. split; auto. by eapply ias_ok_keys; [apply Hf|].
Qed.

Lemma process_instruction_fuel fuel : ∀ fuel' data ias pidx s,
  call_ok s ias pidx → enough fuel s → enough fuel' s →
  process_instruction programs fuel data ias pidx s =
  process_instruction programs fuel' data ias pidx s.
Proof.
  induction fuel as [|fuel IH]; intros fuel' data ias pidx s Hok He He';
    rewrite !process_instruction_run;
    pose proof (enter_spec pidx ias data s (co_wf _ _ _ Hok)) as Hent;
    (destruct (enter pidx ias data s) as [[[]|e|] s1]; [|done..]);
    destruct Hent as [ic Hent].
  { by apply entered_fuel in Hent. }
  destruct fuel' as [|fuel']; [by apply entered_fuel in Hent|].
  pose proof (entered_enough _ _ _ _ _ _ _ Hent He) as He1.
  pose proof (entered_enough _ _ _ _ _ _ _ Hent He') as He1'.
  enough (entered_body programs (S fuel) s1 = entered_body programs (S fuel') s1) as -> by done.
  unfold entered_body, bind, observe.
  rewrite (chain_agree ic (fuel `min` fuel') _ (native_invoke programs fuel')); [done| | |].
  - apply native_invoke_small. intros. by apply process_instruction_frame.
  - intros instruction signers Hl s' [Hs' Hen].
    apply (native_invoke_agree ic fuel fuel'); [|done|split; [done|]|].
    + intros. by apply IH.
    + unfold enough in *. lia.
    + unfold enough in *. lia.
  - split; [by eapply entered_running|]. unfold enough in *. lia.
Qed.
End fuel.
