(* ===== verification/MessageProcessor.v ===== *)
(** * Message processing ([program-runtime/src/message_processor.rs])

    [process_message] runs the instructions of a sanitized message over the
    loaded accounts.  HyperGrid's addition is here: an account that is a copy of a
    base-layer account ([remote]) is never passed as writable. *)

From S2P Require Import Prelude Sdk Message Rent Account TransactionContext LogCollector.
From S2P Require Import InvokeContext.

(** ** Precompiles ([sdk/src/precompiles.rs]) *)
Record Precompile := mkPrecompile { pc_program_id : Pubkey; pc_feature : option Pubkey }.
Definition PRECOMPILES : list Precompile :=
  [mkPrecompile secp256k1_program_id None; mkPrecompile ed25519_program_id None].
Definition precompile_check_id (p : Precompile) (program_id : Pubkey) (is_enabled : Pubkey → bool) :
  bool :=
  match pc_feature p with Some feature_id => is_enabled feature_id | None => true end &&
  key_eqb (pc_program_id p) program_id.
Definition is_precompile (program_id : Pubkey) (is_enabled : Pubkey → bool) : bool :=
  existsb (λ p, precompile_check_id p program_id is_enabled) PRECOMPILES.

(** ** The state of a message: the invoke context and the units consumed so far *)
Abbreviation MP := (M (InvokeContext * N) TransactionError.t).

Definition run_ic {A} (m : IC A) : MP (result InstructionError A) := λ '(s, units),
  match m s with
  | (Panic, s') => (Panic, (s', units))
  | (r, s') => (Ok r, (s', units))
  end.

(** [u16::to_le_bytes] *)
Definition u16_le (n : N) : list N := [as_u8 n; as_u8 (N.shiftr n 8)].

(** [instructions::store_current_index]: the last two bytes; a shorter buffer panics *)
Definition store_current_index {E} (d : list N) (instruction_index : N) : result E (list N) :=
  if len d <? 2 then Panic else
  Ok (take (length d - 2) d ++ u16_le instruction_index).

(** the special instructions account, when the transaction loads it *)
Definition fixup_instructions_sysvar (instruction_index : N) (t : TransactionContext) :
  result TransactionError.t TransactionContext :=
  match find_index_of_account t sysvar_instructions_id with
  | None => Ok t
  | Some account_index =>
      let! c := map_err TransactionError.InvalidAccountIndex
                  (get_account_at_index t account_index) in
      if cell_borrowed c then Panic else
      let! d := store_current_index (data (cell_value c)) (as_u16 instruction_index) in
      Ok (set_cell account_index (λ c, mkCell (set_data d (cell_value c)) (cell_borrowed c)) t)
  end.

(** one entry of the instruction's accounts *)
Definition instruction_account_of (message : SanitizedMessage) (t : TransactionContext)
    (accounts : list N) (instruction_account_index : N) (account_index : N) :
  result TransactionError.t InstructionAccount :=
  let index_in_callee :=
    as_u16 (default instruction_account_index
              (position (λ i, i =? account_index)
                 (take (N.to_nat instruction_account_index) accounts))) in
  let! pubkey := unwrap (account_keys_get (sm_account_keys message) account_index) in
  let! is_writable :=
    match find_index_of_account t pubkey with
    | None => Ok (sm_is_writable message account_index)
    | Some index =>
        let! c := unwrap (ta_get (tx_accounts t) index) in
        if cell_borrowed c then Panic else
        Ok (if remote (cell_value c) then false else sm_is_writable message account_index)
    end in
  Ok (mkInstructionAccount (as_u16 account_index) (as_u16 account_index) index_in_callee
        (sm_is_signer message account_index) is_writable).

Definition build_instruction_accounts (message : SanitizedMessage) (t : TransactionContext)
    (accounts : list N) : result TransactionError.t (list InstructionAccount) :=
  rmapM (λ x : N * N, instruction_account_of message t accounts x.1 x.2)
    (zip (indices accounts) accounts).

Section process.
Context `{PubkeyDisplay} (programs_loaded_for_tx_batch : Pubkey → option LoadedProgramType).

(** a precompile was verified with the transaction: its frame is pushed and popped *)
Definition process_precompile (data : list N) (ias : list InstructionAccount) (pidx : list N) :
  IC unit :=
  on_tc (update_next_instruction_context (configure pidx ias data)) ;;
  on_tc tc_push ;;
  on_tc tc_pop.

Definition process_message_instruction (fuel : nat) (message : SanitizedMessage)
    (instruction_index : N) (program_id : Pubkey) (ci : CompiledInstruction) (pidx : list N) :
  MP unit :=
  precompile <- gets (λ s, is_precompile program_id (λ id, bool_decide (id ∈ feature_set s.1))) ;;
  t <- asks (λ s, fixup_instructions_sysvar instruction_index (transaction_context s.1)) ;;
  modify (λ s, (set_transaction_context t s.1, s.2)) ;;
  ias <- asks (λ s, build_instruction_accounts message (transaction_context s.1) (ci_accounts ci)) ;;
  result <-
    (if (precompile : bool) then run_ic (process_precompile (ci_data ci) ias pidx)
     else
       r <- run_ic (process_instruction programs_loaded_for_tx_batch fuel (ci_data ci) ias pidx) ;;
       match r with
       | Ok (units, r) =>
           modify (λ s, (s.1, saturating_add u64_max s.2 units)) ;; ret r
       | Err e => ret (Err e)
       | Panic => lift Panic
       end) ;;
  lift (match result with
        | Ok _ => Ok tt
        | Err err => Err (TransactionError.InstructionError (as_u8 instruction_index) err)
        | Panic => Panic
        end).

Fixpoint process_message_loop (fuel : nat) (message : SanitizedMessage) (instruction_index : N)
    (l : list (CompiledInstruction * list N)) : MP unit :=
  match l with
  | [] => ret tt
  | (ci, pidx) :: l' =>
      program_id <- lift (unwrap (account_keys_get (sm_account_keys message) (program_id_index ci))) ;;
      process_message_instruction fuel message instruction_index program_id ci pidx ;;
      process_message_loop fuel message (instruction_index + 1) l'
  end.

(** [process_message] from a fresh invoke context; the stack capacity is the fuel *)
Definition process_message (message : SanitizedMessage) (program_indices : list (list N)) : MP unit :=
  fuel <- gets (λ s, N.to_nat (instruction_stack_capacity (transaction_context s.1))) ;;
  process_message_loop fuel message 0 (zip (sm_instructions message) program_indices).
End process.
