(* ===== verification/MessageProcessorRules.v ===== *)
(** * What processing a message preserves

    The properties of [process_message] over whole transactions, for any loaded
    programs that are lawful: base-layer copies are never changed, lamports are
    conserved, the stack is restored. *)

From S2P Require Import Prelude Sdk Message MessageRules Rent Account TransactionContext.
From S2P Require Import AccountRules InstructionRules LogCollector InvokeContext InvokeRules.
From S2P Require Import MessageProcessor.

(** ** A message and the accounts loaded for it *)
Record loaded (message : SanitizedMessage) (t : TransactionContext) : Prop := {
  lo_prefix : account_keys_iter (sm_account_keys message) `prefix_of` account_keys t;
  lo_nodup : NoDup (account_keys_iter (sm_account_keys message));
  lo_keys : len (account_keys t) ≤ u16_max;
  lo_wf : tc_wf t }.

(** the instructions the loop runs, none too large for 16-bit indices *)
Definition small_instructions (l : list (CompiledInstruction * list N)) : Prop :=
  Forall (λ x, len x.2 + len (ci_accounts x.1) ≤ u16_max) l.

Lemma loaded_frame message Rel t t' : loaded message t → tc_frame Rel t t' → loaded message t'.
Proof.
  intros [] H. split; [by rewrite (tf_keys _ _ _ H)|done|by rewrite (tf_keys _ _ _ H)|].
  by eapply tc_frame_wf.
Qed.

(** the index of a message key is the one the transaction context finds for it *)
Lemma loaded_canonical message t i key :
  loaded message t → account_keys_get (sm_account_keys message) i = Some key →
  getN (account_keys t) i = Some key ∧ find_index_of_account t key = Some i.
Proof.
  intros []. rewrite account_keys_get_iter. intros Hi.
  destruct lo_prefix0 as [extra Heq].
  assert (Hk : getN (account_keys t) i = Some key) by (rewrite Heq; by apply getN_app_l).
  split; [done|]. unfold find_index_of_account.
  rewrite (position_take _ _ i key Hk) by apply key_eqb_refl. simpl.
  assert (position (λ k, key_eqb k key) (take (N.to_nat i) (account_keys t)) = None) as ->.
  { destruct (position _ _) as [j|] eqn:Hp; [|done]. exfalso.
    apply position_Some in Hp as (x & Hx & ->%key_eqb_true & _).
    pose proof (getN_lt _ _ _ Hx) as Hlt. unfold getN in Hx, Hi.
    assert (N.to_nat j < N.to_nat i)%nat as Hji.
    { unfold len in Hlt. rewrite length_take in Hlt. lia. }
    rewrite lookup_take_lt in Hx by done. rewrite Heq, lookup_app_l in Hx.
    - pose proof (NoDup_lookup _ _ _ _ lo_nodup0 Hx Hi). lia.
    - apply lookup_lt_Some in Hi. lia. }
  simpl. f_equal. apply N.mod_small. apply getN_lt in Hk. unfold u16_max in *. lia.
Qed.

(** ** The accounts of an instruction *)
Lemma build_lookup message t accounts ias i ia :
  build_instruction_accounts message t accounts = Ok ias → getN ias i = Some ia →
  ∃ a, getN accounts i = Some a ∧ instruction_account_of message t accounts i a = Ok ia.
Proof.
  intros Hb%rmapM_Ok Hi. unfold getN in Hi.
  destruct (Forall2_lookup_r _ _ _ _ _ Hb Hi) as ([j a] & Hz & Hf).
  apply lookup_zip_Some in Hz as [Hz1 Hz2]. exists a. split; [done|].
  pose proof (getN_indices accounts i) as Hgi. unfold getN in Hgi.
  rewrite Hz1, Hz2 in Hgi. simpl in Hgi. simplify_eq. done.
Qed.
Lemma build_length message t accounts ias :
  build_instruction_accounts message t accounts = Ok ias → len ias = len accounts.
Proof.
  intros Hb%rmapM_Ok%Forall2_length. unfold len. rewrite <-Hb, length_zip_with.
  pose proof (len_indices accounts) as Hl. unfold len in Hl. lia.
Qed.

Record entry_ok (message : SanitizedMessage) (t : TransactionContext) (accounts : list N)
    (a : N) (ia : InstructionAccount) : Prop := {
  eo_index : index_in_transaction ia = a;
  eo_canonical : canonical t a;
  eo_callee : position (λ i, i =? a) accounts = Some (index_in_callee ia);
  eo_signer : ia_is_signer ia = sm_is_signer message a;
  eo_writable : ia_is_writable ia = true → sm_is_writable message a = true;
  eo_remote : ∀ c, ta_get (tx_accounts t) a = Some c → remote (cell_value c) = true →
              ia_is_writable ia = false }.

Lemma instruction_account_ok message t accounts i a ia :
  loaded message t → len accounts ≤ u16_max → getN accounts i = Some a →
  instruction_account_of message t accounts i a = Ok ia → entry_ok message t accounts a ia.
Proof.
  intros Hl Hlen Hi. unfold instruction_account_of.
  destruct (account_keys_get _ a) as [key|] eqn:Hkey; simpl; [|done].
  destruct (loaded_canonical _ _ _ _ Hl Hkey) as [Hk Hf]. rewrite Hf.
  destruct (ta_get (tx_accounts t) a) as [c|] eqn:Hc; simpl; [|done].
  destruct (cell_borrowed c); simpl; [done|]. intros [= <-].
  pose proof (getN_lt _ _ _ Hk) as Ha. pose proof (lo_keys _ _ Hl) as Hkeys.
  pose proof (position_take (λ i, i =? a) accounts i a Hi (N.eqb_refl a)) as Hp.
  split; simpl.
  - apply N.mod_small. unfold u16_max in *. lia.
  - by exists key.
  - rewrite Hp. f_equal. symmetry. apply N.mod_small.
    apply position_lt in Hp. unfold u16_max in *. lia.
  - done.
  - by destruct (remote _).
  - intros c' Hc' Hr. simplify_eq. by rewrite Hr.
Qed.

Lemma build_ok message t accounts ias :
  loaded message t → len accounts ≤ u16_max →
  build_instruction_accounts message t accounts = Ok ias →
  ias_ok t ias ∧
  ∀ ia, ia ∈ ias → ia_is_writable ia = true →
    sm_is_writable message (index_in_transaction ia) = true ∧
    ∀ c, ta_get (tx_accounts t) (index_in_transaction ia) = Some c → remote (cell_value c) = false.
Proof.
  intros Hl Hlen Hb.
  assert (He : ∀ i ia, getN ias i = Some ia →
                 ∃ a, getN accounts i = Some a ∧ entry_ok message t accounts a ia).
  { intros i ia Hi. destruct (build_lookup _ _ _ _ _ _ Hb Hi) as (a & Ha & Hia).
    exists a. split; [done|]. by eapply instruction_account_ok. }
  assert (Hin : ∀ ia, ia ∈ ias → ∃ a, entry_ok message t accounts a ia).
  { intros ia (i & Hi)%list_elem_of_lookup. destruct (He (N.of_nat i) ia) as (a & _ & ?); [|by exists a].
    unfold getN. by rewrite Nat2N.id. }
  pose proof (build_length _ _ _ _ Hb) as Hbl.
  split; [split|].
  - intros i ia Hi. destruct (He i ia Hi) as (a & Ha & [E1 E2 E3 _ _ _]).
    pose proof (position_Some _ _ _ E3) as (x & Hx & ->%N.eqb_eq & _).
    assert (∃ ia0, getN ias (index_in_callee ia) = Some ia0) as [ia0 H0].
    { apply getN_lt in Hx. unfold getN. apply lookup_lt_is_Some. unfold len in *. lia. }
    destruct (He _ _ H0) as (a0 & Ha0 & [F1 _ _ _ _ _]).
    assert (a0 = a) as -> by congruence. exists ia0. split_and!; [done|by rewrite F1, E1|].
    intros j ja Hj Hjt. destruct (He j ja Hj) as (b & _ & [G1 _ G3 _ _ _]).
    rewrite <-E1, <-Hjt, G1 in E3. congruence.
  - intros ia Hia. destruct (Hin ia Hia) as (a & [E1 E2]). by rewrite E1.
  - intros ia Hia. destruct (Hin ia Hia) as (a & [E1 _ _ _ E5 E6]). rewrite E1. intros Hw.
    split; [auto|]. intros c Hc. destruct (remote _) eqn:Hr; [|done].
    by rewrite (E6 c Hc Hr) in Hw.
Qed.

(** ** Frames of a message *)

(** read-only accounts, remote accounts and programs stay as they are, the
    instructions sysvar apart *)
Record msg_rel (message : SanitizedMessage) (keys : list Pubkey) (i : nat)
    (a b : AccountSharedData) : Prop := {
  mr_mark : remote b = remote a;
  mr_balance : sm_is_writable message (N.of_nat i) = false → lamports b = lamports a;
  mr_readonly : keys !! i ≠ Some sysvar_instructions_id →
                sm_is_writable message (N.of_nat i) = false → b = a;
  mr_remote : keys !! i ≠ Some sysvar_instructions_id → remote a = true → b = a;
  mr_executable : keys !! i ≠ Some sysvar_instructions_id → executable a = true → b = a }.
#[export] Instance msg_rel_preorder message keys : CellPreorder (msg_rel message keys).
Proof.
  split; [by split|]. intros i a b c [m1 l1 w1 r1 e1] [m2 l2 w2 r2 e2].
  split; [congruence|intros Hw; rewrite l2, l1; done| | |].
  - intros Hk Hw. pose proof (w1 Hk Hw) as ->. auto.
  - intros Hk Hr. pose proof (r1 Hk Hr) as ->. auto.
  - intros Hk He. pose proof (e1 Hk He) as ->. auto.
Qed.

Definition msg_frame (message : SanitizedMessage) (t t' : TransactionContext) : Prop :=
  tc_frame (msg_rel message (account_keys t)) t t'.

Lemma msg_frame_refl message t : msg_frame message t t.
Proof. apply tc_frame_refl, _. Qed.
Lemma msg_frame_trans message t1 t2 t3 :
  msg_frame message t1 t2 → msg_frame message t2 t3 → msg_frame message t1 t3.
Proof.
  intros H12 H23. unfold msg_frame in *. rewrite (tf_keys _ _ _ H12) in H23.
  eapply tc_frame_trans; eauto. apply _.
Qed.

(** an instruction whose writable accounts are writable in the message and not remote *)
Lemma ias_frame_msg message t t' ias :
  (∀ ia, ia ∈ ias → ia_is_writable ia = true →
     sm_is_writable message (index_in_transaction ia) = true ∧
     ∀ c, ta_get (tx_accounts t) (index_in_transaction ia) = Some c →
       remote (cell_value c) = false) →
  tc_frame (ias_rel ias) t t' → msg_frame message t t'.
Proof.
  intros Hr [Hk ? ? ? ? ? [Hl Hc]]. split; auto. split; [done|].
  intros i c c' Hi Hi'. destruct (Hc i c c' Hi Hi') as [Hb []]. split; [done|].
  assert (Hro : sm_is_writable message (N.of_nat i) = false → cell_value c' = cell_value c).
  { intros Hw. apply ir_readonly. intros (ia & Hia & <- & Hia').
    destruct (Hr ia Hia Hia') as [Hwr _]. by rewrite N2Nat.id, Hwr in Hw. }
  split; [done|intros Hw; by rewrite Hro|by intros _| |auto].
  - intros _ Hrem. apply ir_readonly. intros (ia & Hia & <- & Hw).
    destruct (Hr ia Hia Hw) as [_ Hnr]. by rewrite (Hnr c Hi) in Hrem.
Qed.

Lemma store_current_index_frame message index t t' :
  len (account_keys t) ≤ u16_max → fixup_instructions_sysvar index t = Ok t' →
  msg_frame message t t' ∧ total_lamports t' = total_lamports t.
Proof.
  intros Hkeys. unfold fixup_instructions_sysvar.
  destruct (find_index_of_account t sysvar_instructions_id) as [i|] eqn:Hf.
  2:{ intros [= <-]. split; [apply msg_frame_refl|done]. }
  destruct (get_account_at_index t i) as [c| |]; simpl; [|done..].
  destruct (cell_borrowed c); [done|].
  destruct (store_current_index _ _) as [d| |]; simpl; [|done..]. intros [= <-].
  destruct (find_index_canonical _ _ _ Hkeys Hf) as [Hkey _]. unfold getN in Hkey.
  split.
  - split; simpl; try done. apply cells_rel_alter; [apply _|]. intros c0 _. split; [done|].
    by split; [done|done|intros []..].
  - unfold total_lamports, lamports_list. simpl. f_equal. by apply fmap_alter_same.
Qed.

Section process.
Context `{PubkeyDisplay} (programs : Pubkey → option LoadedProgramType)
  `{!LawfulPrograms programs}.

(** *** Precompiles *)
Lemma precompile_frame data ias pidx s :
  tc_wf (transaction_context s) →
  let s' := (process_precompile data ias pidx s).2 in
  tc_frame (ias_rel ias) (transaction_context s) (transaction_context s') ∧
  tx_accounts (transaction_context s') = tx_accounts (transaction_context s).
Proof.
  intros Hwf. unfold process_precompile, bind, on_tc. set (t := transaction_context s).
  destruct (update_next_spec (configure pidx ias data) t) as (ic0 & t1 & -> & Hl & Ha & Hf);
    [apply Hwf|]. simpl.
  pose proof (tc_push_spec t1) as Hp. pose proof (tc_push_upto (ias_rel ias) t1 I) as Hup.
  pose proof (tc_push_accounts t1 I) as Hpa. specialize (Hf (ias_rel ias) _).
  assert (Hut : upto_stack (ias_rel ias) t (tc_push t1).2).
  { eapply upto_stack_trans; [apply _|by apply frame_upto_stack|done]. }
  destruct (tc_push t1) as [[[]|e|] t2] eqn:Epush; simpl in *;
    [|split; [|congruence]; apply upto_stack_frame; [done|]; rewrite Hp; apply Hf..].
  destruct Hp as (ic & sum & _ & [Hc Hs Hst Hh Hw Hac]).
  pose proof (tc_pop_stack t2) as Hps. pose proof (tc_pop_upto (ias_rel ias) t2 I) as Hpu.
  pose proof (tc_pop_accounts t2 I) as Hacc. destruct (tc_pop t2) as [r t3]; simpl in *.
  split; [|congruence]. apply upto_stack_frame.
  - eapply upto_stack_trans; [apply _|exact Hut|done].
  - rewrite Hps, Hst, removelast_last. apply Hf.
Qed.

(** *** One instruction of a message *)
Lemma message_instruction_step fuel message index program_id ci pidx s u r s' u' :
  loaded message (transaction_context s) → len pidx + len (ci_accounts ci) ≤ u16_max →
  process_message_instruction programs fuel message index program_id ci pidx (s, u) =
    (r, (s', u')) →
  msg_frame message (transaction_context s) (transaction_context s') ∧
  (r = Ok tt → total_lamports (transaction_context s') = total_lamports (transaction_context s)).
Proof.
  intros Hl Hsmall. unfold process_message_instruction. mstep. set (pre := is_precompile _ _).
  clearbody pre. do 2 mstep; simpl in *.
  2,3: intros [= <- <- <-]; split; [apply msg_frame_refl|done].
  rename a into t1. destruct (store_current_index_frame message _ _ _ (lo_keys _ _ Hl) Heqr0) as [Hf1 Ht1].
  set (s1 := set_transaction_context t1 s). do 4 mstep; simpl in *.
  2,3: intros [= <- <- <-]; split; [exact Hf1|done].
  rename a into ias.
  assert (Hl1 : loaded message t1) by (by eapply loaded_frame).
  destruct (build_ok message t1 (ci_accounts ci) ias) as [Hok Hrem]; [done|lia|done|].
  pose proof (build_length _ _ _ _ Heqr1) as Hblen.
  assert (Hcall : call_ok s1 ias pidx) by (destruct Hl1; split; simpl; auto; lia).
  mstep. destruct pre.
  - pose proof (precompile_frame (ci_data ci) ias pidx s1 (co_wf _ _ _ Hcall)) as [Hf2 Ha2].
    unfold bind, run_ic. simpl. fold s1.
    destruct (process_precompile (ci_data ci) ias pidx s1) as [[x|e|] s2]; simpl in *;
      intros [= <- <- <-]; (split; [eapply msg_frame_trans; [exact Hf1|by eapply ias_frame_msg]|]);
      try done. intros _. rewrite <-Ht1. unfold total_lamports, lamports_list. by rewrite Ha2.
  - pose proof (process_instruction_frame programs fuel (ci_data ci) ias pidx s1 Hcall) as Hf2.
    assert (Hf3 : msg_frame message (transaction_context s)
      (transaction_context (process_instruction programs fuel (ci_data ci) ias pidx s1).2)).
    { eapply msg_frame_trans; [exact Hf1|by eapply ias_frame_msg]. }
    pose proof (process_instruction_balanced programs fuel (ci_data ci) ias pidx s1) as Hbal.
    unfold bind, run_ic. simpl. fold s1.
    destruct (process_instruction programs fuel (ci_data ci) ias pidx s1) as [[[un ri]|e|] s2];
      simpl in *; [|intros [= <- <- <-]; by split..].
    destruct ri as [[]|e|]; simpl; intros [= <- <- <-]; (split; [done|]); try done.
    intros _. rewrite <-Ht1. by eapply Hbal.
Qed.

Lemma message_loop fuel message l : ∀ index s u r s' u',
  loaded message (transaction_context s) → small_instructions l →
  process_message_loop programs fuel message index l (s, u) = (r, (s', u')) →
  msg_frame message (transaction_context s) (transaction_context s') ∧
  (r = Ok tt → total_lamports (transaction_context s') = total_lamports (transaction_context s)).
Proof.
  induction l as [|[ci pidx] l IH]; intros index s u r s' u' Hl Hs.
  { intros [= <- <- <-]. split; [apply msg_frame_refl|done]. }
  apply list.Forall_cons in Hs as [Hs1 Hs2]. simpl. mstep; simpl.
  2,3: intros [= <- <- <-]; split; [apply msg_frame_refl|done].
  mstep. unfold bind.
  destruct (process_message_instruction _ _ _ _ _ _ _ (s, u)) as [r1 [s1 u1]] eqn:H1.
  destruct (message_instruction_step _ _ _ _ _ _ _ _ _ _ _ Hl Hs1 H1) as [Hf Ht].
  destruct r1 as [[]|e|]; [|intros [= <- <- <-]; by split..].
  intros H2. apply IH in H2 as [Hf2 Ht2]; [|by eapply loaded_frame|done].
  split; [by eapply msg_frame_trans|]. intros Hr. rewrite Ht2, Ht; done.
Qed.
End process.
