(* ===== verification/Nonce.v ===== *)
(** * Durable nonces ([sdk/program/src/nonce/state/]) *)

From S2P Require Import Prelude Sdk.

(** [DurableNonce] wraps a [Hash] *)
Record NonceData := mkNonceData {
  nonce_authority : Pubkey;
  durable_nonce : Hash;
  nonce_lamports_per_signature : N }.

Inductive NonceState :=
| Uninitialized
| Initialized (d : NonceData).

Inductive Versions :=
| VLegacy (s : NonceState)
| VCurrent (s : NonceState).

#[export] Instance NonceData_eq_dec : EqDecision NonceData.
Proof. solve_decision. Defined.
#[export] Instance NonceState_eq_dec : EqDecision NonceState.
Proof. solve_decision. Defined.
#[export] Instance Versions_eq_dec : EqDecision Versions.
Proof. solve_decision. Defined.

Inductive AuthorizeNonceError :=
| NonceMissingRequiredSignature (account_authority : Pubkey)
| NonceUninitialized.

Definition versions_new (s : NonceState) : Versions := VCurrent s.
Definition versions_state (v : Versions) : NonceState :=
  match v with VLegacy s | VCurrent s => s end.
Definition nonce_data_blockhash (d : NonceData) : Hash := durable_nonce d.

(** [b"DURABLE_NONCE"] *)
Definition DURABLE_NONCE_HASH_PREFIX : list N :=
  [68; 85; 82; 65; 66; 76; 69; 95; 78; 79; 78; 67; 69].
Definition durable_nonce_from_blockhash `{Sha256} (blockhash : Hash) : Hash :=
  hashv [DURABLE_NONCE_HASH_PREFIX; hash_bytes blockhash].

Definition verify_recent_blockhash (v : Versions) (recent_blockhash : Hash) : option NonceData :=
  match v with
  | VLegacy _ => None
  | VCurrent Uninitialized => None
  | VCurrent (Initialized d) =>
      if bool_decide (recent_blockhash = nonce_data_blockhash d) then Some d else None
  end.

Definition nonce_upgrade `{Sha256} (v : Versions) : option Versions :=
  match v with
  | VLegacy Uninitialized => None
  | VLegacy (Initialized d) =>
      Some (VCurrent (Initialized
        (mkNonceData (nonce_authority d) (durable_nonce_from_blockhash (nonce_data_blockhash d))
           (nonce_lamports_per_signature d))))
  | VCurrent _ => None
  end.

Definition nonce_authorize (v : Versions) (signers : gset Pubkey) (authority : Pubkey) :
  result AuthorizeNonceError Versions :=
  match versions_state v with
  | Uninitialized => Err NonceUninitialized
  | Initialized d =>
      if bool_decide (nonce_authority d ∈ signers) then
        let s := Initialized (mkNonceData authority (durable_nonce d)
                                (nonce_lamports_per_signature d)) in
        Ok (match v with VLegacy _ => VLegacy s | VCurrent _ => VCurrent s end)
      else Err (NonceMissingRequiredSignature (nonce_authority d))
  end.
