(* ===== verification/SystemProgram.v ===== *)
(** * The system program ([programs/system/src/])

    The handlers of [system_processor.rs] and [system_instruction.rs] and the
    entrypoint that dispatches to them. *)

From S2P Require Import Prelude Sdk Rent Account TransactionContext LogCollector InvokeContext.
From S2P Require Import Nonce.

(** [sdk/program/src/system_instruction.rs]; a [String] is its UTF-8 bytes *)
Inductive SystemInstruction :=
| CreateAccount (lamports space : N) (owner : Pubkey)
| Assign (owner : Pubkey)
| Transfer (lamports : N)
| CreateAccountWithSeed (base : Pubkey) (seed : list N) (lamports space : N) (owner : Pubkey)
| AdvanceNonceAccount
| WithdrawNonceAccount (lamports : N)
| InitializeNonceAccount (authorized : Pubkey)
| AuthorizeNonceAccount (nonce_authority : Pubkey)
| Allocate (space : N)
| AllocateWithSeed (base : Pubkey) (seed : list N) (space : N) (owner : Pubkey)
| AssignWithSeed (base : Pubkey) (seed : list N) (owner : Pubkey)
| TransferWithSeed (lamports : N) (from_seed : list N) (from_owner : Pubkey)
| UpgradeNonceAccount.

Definition SYSTEM_COMPUTE_UNITS : N := 150.

Section system.
Context `{PubkeyDisplay, Sha256, !Bincode SystemInstruction, !Bincode Versions}.

(** ** Addresses, given or derived from a seed *)
Record Address := mkAddress { address : Pubkey; address_base : option Pubkey }.

(** [{:?}] of an [Address] *)
Definition address_debug (a : Address) : string :=
  "Address { address: " +:+ pubkey_to_string (address a) +:+ ", base: " +:+
  match address_base a with
  | Some b => "Some(" +:+ pubkey_to_string b +:+ ")" | None => "None"
  end +:+ " }".

Definition address_is_signer (a : Address) (signers : gset Pubkey) : bool :=
  match address_base a with
  | Some base => bool_decide (base ∈ signers)
  | None => bool_decide (address a ∈ signers)
  end.

Definition address_create (addr : Pubkey) (with_seed : option (Pubkey * list N * Pubkey)) :
  IC Address :=
  match with_seed with
  | None => ret (mkAddress addr None)
  | Some (base, seed, owner) =>
      address_with_seed <- lift (from_pubkey_error (create_with_seed base seed owner)) ;;
      if negb (key_eqb addr address_with_seed) then
        ic_msg ("Create: address " +:+ pubkey_to_string addr +:+
                " does not match derived address " +:+ pubkey_to_string address_with_seed) ;;
        throw (system_error SystemError.AddressWithSeedMismatch)
      else ret (mkAddress addr (Some base))
  end.

(** ** Accounts *)
Definition allocate (account : BorrowedAccount) (addr : Address) (space : N)
    (signers : gset Pubkey) : IC unit :=
  if negb (address_is_signer addr signers) then
    ic_msg ("Allocate: 'to' account " +:+ address_debug addr +:+ " must sign") ;;
    throw MissingRequiredSignature
  else
  a <- on_tc (ba_account account) ;;
  if negb (len (data a) =? 0) || negb (key_eqb (owner a) system_program_id) then
    ic_msg ("Allocate: account " +:+ address_debug addr +:+ " already in use") ;;
    throw (system_error SystemError.AccountAlreadyInUse)
  else
  if MAX_PERMITTED_DATA_LENGTH <? space then
    ic_msg ("Allocate: requested " +:+ pretty space +:+ ", max allowed " +:+
            pretty MAX_PERMITTED_DATA_LENGTH) ;;
    throw (system_error SystemError.InvalidAccountDataLength)
  else on_tc (ba_set_data_length account space).

Definition assign (account : BorrowedAccount) (addr : Address) (owner_ : Pubkey)
    (signers : gset Pubkey) : IC unit :=
  a <- on_tc (ba_account account) ;;
  if key_eqb (owner a) owner_ then ret tt else
  if negb (address_is_signer addr signers) then
    ic_msg ("Assign: account " +:+ address_debug addr +:+ " must sign") ;;
    throw MissingRequiredSignature
  else on_tc (ba_set_owner account (to_bytes owner_)).

Definition allocate_and_assign (to : BorrowedAccount) (to_address : Address) (space : N)
    (owner_ : Pubkey) (signers : gset Pubkey) : IC unit :=
  allocate to to_address space signers ;;
  assign to to_address owner_ signers.

Definition key_of_instruction_account (ic : InstructionContext) (index : N) : IC Pubkey :=
  asks_tc (λ t, let! i := get_index_of_instruction_account_in_transaction ic index in
                get_key_of_account_at_index t i).

Definition transfer_verified (ic : InstructionContext) (from_account_index to_account_index : N)
    (amount : N) : IC unit :=
  ic_with_account (try_borrow_instruction_account ic from_account_index) (λ from,
    a <- on_tc (ba_account from) ;;
    if negb (len (data a) =? 0) then
      ic_msg "Transfer: `from` must not carry data" ;;
      throw InvalidArgument
    else
    if lamports a <? amount then
      ic_msg ("Transfer: insufficient lamports " +:+ pretty (lamports a) +:+ ", need " +:+
              pretty amount) ;;
      throw (system_error SystemError.ResultWithNegativeLamports)
    else on_tc (ba_checked_sub_lamports from amount)) ;;
  ic_with_account (try_borrow_instruction_account ic to_account_index) (λ to,
    on_tc (ba_checked_add_lamports to amount)).

Definition transfer (ic : InstructionContext) (from_account_index to_account_index : N)
    (amount : N) : IC unit :=
  signer <- lift (is_instruction_account_signer ic from_account_index) ;;
  if negb signer then
    key <- key_of_instruction_account ic from_account_index ;;
    ic_msg ("Transfer: `from` account " +:+ pubkey_to_string key +:+ " must sign") ;;
    throw MissingRequiredSignature
  else transfer_verified ic from_account_index to_account_index amount.

Definition transfer_with_seed (ic : InstructionContext) (from_account_index : N)
    (from_base_account_index : N) (from_seed : list N) (from_owner : Pubkey)
    (to_account_index : N) (amount : N) : IC unit :=
  signer <- lift (is_instruction_account_signer ic from_base_account_index) ;;
  if negb signer then
    key <- key_of_instruction_account ic from_base_account_index ;;
    ic_msg ("Transfer: 'from' account " +:+ pubkey_to_string key +:+ " must sign") ;;
    throw MissingRequiredSignature
  else
  base <- key_of_instruction_account ic from_base_account_index ;;
  address_from_seed <- lift (from_pubkey_error (create_with_seed base from_seed from_owner)) ;;
  from_key <- key_of_instruction_account ic from_account_index ;;
  if negb (key_eqb from_key address_from_seed) then
    ic_msg ("Transfer: 'from' address " +:+ pubkey_to_string from_key +:+
            " does not match derived address " +:+ pubkey_to_string address_from_seed) ;;
    throw (system_error SystemError.AddressWithSeedMismatch)
  else transfer_verified ic from_account_index to_account_index amount.

Definition create_account (ic : InstructionContext) (from_account_index to_account_index : N)
    (to_address : Address) (amount space : N) (owner_ : Pubkey) (signers : gset Pubkey) :
  IC unit :=
  ic_with_account (try_borrow_instruction_account ic to_account_index) (λ to,
    a <- on_tc (ba_account to) ;;
    if 0 <? lamports a then
      ic_msg ("Create Account: account " +:+ address_debug to_address +:+ " already in use") ;;
      throw (system_error SystemError.AccountAlreadyInUse)
    else allocate_and_assign to to_address space owner_ signers) ;;
  transfer ic from_account_index to_account_index amount.

(** ** Nonce accounts *)
Definition advance_nonce_account (account : BorrowedAccount) (signers : gset Pubkey) : IC unit :=
  if negb (ba_is_writable account) then
    key <- on_tc (ba_get_key account) ;;
    ic_msg ("Advance nonce account: Account " +:+ pubkey_to_string key +:+ " must be writeable") ;;
    throw InvalidArgument
  else
  state <- on_tc (ba_get_state account) ;;
  match versions_state state with
  | Initialized d =>
      if negb (bool_decide (nonce_authority d ∈ signers)) then
        ic_msg ("Advance nonce account: Account " +:+ pubkey_to_string (nonce_authority d) +:+
                " must be a signer") ;;
        throw MissingRequiredSignature
      else
      next_durable_nonce <- gets (λ s, durable_nonce_from_blockhash (blockhash s)) ;;
      if bool_decide (durable_nonce d = next_durable_nonce) then
        ic_msg "Advance nonce account: nonce can only advance once per slot" ;;
        throw (system_error SystemError.NonceBlockhashNotExpired)
      else
      fee <- gets lamports_per_signature ;;
      on_tc (ba_set_state account
        (versions_new (Initialized (mkNonceData (nonce_authority d) next_durable_nonce fee))))
  | Uninitialized =>
      key <- on_tc (ba_get_key account) ;;
      ic_msg ("Advance nonce account: Account " +:+ pubkey_to_string key +:+ " state is invalid") ;;
      throw InvalidAccountData
  end.

(** the account whose signature a withdrawal needs *)
Definition withdraw_signer (from : BorrowedAccount) (amount : N) (r : Rent) : IC Pubkey :=
  state <- on_tc (ba_get_state from) ;;
  a <- on_tc (ba_account from) ;;
  match versions_state state with
  | Uninitialized =>
      if lamports a <? amount then
        ic_msg ("Withdraw nonce account: insufficient lamports " +:+ pretty (lamports a) +:+
                ", need " +:+ pretty amount) ;;
        throw InsufficientFunds
      else on_tc (ba_get_key from)
  | Initialized d =>
      if amount =? lamports a then
        current_nonce <- gets (λ s, durable_nonce_from_blockhash (blockhash s)) ;;
        if bool_decide (durable_nonce d = current_nonce) then
          ic_msg "Withdraw nonce account: nonce can only advance once per slot" ;;
          throw (system_error SystemError.NonceBlockhashNotExpired)
        else
        on_tc (ba_set_state from (versions_new Uninitialized)) ;;
        ret (nonce_authority d)
      else
      let min_balance := minimum_balance r (len (data a)) in
      needed <- lift (ok_or (checked_add u64_max amount min_balance) InsufficientFunds) ;;
      if lamports a <? needed then
        ic_msg ("Withdraw nonce account: insufficient lamports " +:+ pretty (lamports a) +:+
                ", need " +:+ pretty needed) ;;
        throw InsufficientFunds
      else ret (nonce_authority d)
  end.

Definition withdraw_nonce_account (ic : InstructionContext) (from_account_index : N)
    (amount : N) (to_account_index : N) (r : Rent) (signers : gset Pubkey) : IC unit :=
  ic_with_account (try_borrow_instruction_account ic from_account_index) (λ from,
    if negb (ba_is_writable from) then
      key <- on_tc (ba_get_key from) ;;
      ic_msg ("Withdraw nonce account: Account " +:+ pubkey_to_string key +:+
              " must be writeable") ;;
      throw InvalidArgument
    else
    signer <- withdraw_signer from amount r ;;
    if negb (bool_decide (signer ∈ signers)) then
      ic_msg ("Withdraw nonce account: Account " +:+ pubkey_to_string signer +:+ " must sign") ;;
      throw MissingRequiredSignature
    else on_tc (ba_checked_sub_lamports from amount)) ;;
  ic_with_account (try_borrow_instruction_account ic to_account_index) (λ to,
    on_tc (ba_checked_add_lamports to amount)).

Definition initialize_nonce_account (account : BorrowedAccount) (authority : Pubkey) (r : Rent) :
  IC unit :=
  if negb (ba_is_writable account) then
    key <- on_tc (ba_get_key account) ;;
    ic_msg ("Initialize nonce account: Account " +:+ pubkey_to_string key +:+
            " must be writeable") ;;
    throw InvalidArgument
  else
  state <- on_tc (ba_get_state account) ;;
  match versions_state state with
  | Uninitialized =>
      a <- on_tc (ba_account account) ;;
      let min_balance := minimum_balance r (len (data a)) in
      if lamports a <? min_balance then
        ic_msg ("Initialize nonce account: insufficient lamports " +:+ pretty (lamports a) +:+
                ", need " +:+ pretty min_balance) ;;
        throw InsufficientFunds
      else
      nonce <- gets (λ s, durable_nonce_from_blockhash (blockhash s)) ;;
      fee <- gets lamports_per_signature ;;
      on_tc (ba_set_state account (versions_new (Initialized (mkNonceData authority nonce fee))))
  | Initialized _ =>
      key <- on_tc (ba_get_key account) ;;
      ic_msg ("Initialize nonce account: Account " +:+ pubkey_to_string key +:+
              " state is invalid") ;;
      throw InvalidAccountData
  end.

Definition authorize_nonce_account (account : BorrowedAccount) (authority : Pubkey)
    (signers : gset Pubkey) : IC unit :=
  if negb (ba_is_writable account) then
    key <- on_tc (ba_get_key account) ;;
    ic_msg ("Authorize nonce account: Account " +:+ pubkey_to_string key +:+
            " must be writeable") ;;
    throw InvalidArgument
  else
  state <- on_tc (ba_get_state account) ;;
  match nonce_authorize state signers authority with
  | Ok versions => on_tc (ba_set_state account versions)
  | Err NonceUninitialized =>
      key <- on_tc (ba_get_key account) ;;
      ic_msg ("Authorize nonce account: Account " +:+ pubkey_to_string key +:+
              " state is invalid") ;;
      throw InvalidAccountData
  | Err (NonceMissingRequiredSignature account_authority) =>
      ic_msg ("Authorize nonce account: Account " +:+ pubkey_to_string account_authority +:+
              " must sign") ;;
      throw MissingRequiredSignature
  | Panic => lift Panic
  end.

Definition upgrade_nonce_account (account : BorrowedAccount) : IC unit :=
  a <- on_tc (ba_account account) ;;
  if negb (key_eqb (owner a) system_program_id) then throw InvalidAccountOwner else
  if negb (ba_is_writable account) then throw InvalidArgument else
  versions <- on_tc (ba_get_state account) ;;
  match nonce_upgrade versions with
  | None => throw InvalidArgument
  | Some versions => on_tc (ba_set_state account versions)
  end.

(** ** The entrypoint *)
Definition at_least (ic : InstructionContext) (n : N) : IC unit :=
  lift (check_number_of_instruction_accounts ic n).
Definition with_instruction_account {A} (ic : InstructionContext) (index : N)
    (body : BorrowedAccount → IC A) : IC A :=
  ic_with_account (try_borrow_instruction_account ic index) body.
(** [Address::create] with the key of an instruction account *)
Definition address_of_account (ic : InstructionContext) (index : N)
    (with_seed : option (Pubkey * list N * Pubkey)) : IC Address :=
  key <- key_of_instruction_account ic index ;;
  address_create key with_seed.
Definition nonempty_recent_blockhashes (ic : InstructionContext) (index : N) (what : string) :
  IC unit :=
  hashes <- recent_blockhashes_with_account_check ic index ;;
  match hashes with
  | [] =>
      ic_msg (what +:+ ": recent blockhash list is empty") ;;
      throw (system_error SystemError.NonceNoRecentBlockhashes)
  | _ => ret tt
  end.

Definition system_dispatch (ic : InstructionContext) (signers : gset Pubkey)
    (instruction : SystemInstruction) : IC unit :=
  match instruction with
  | CreateAccount amount space owner_ =>
      at_least ic 2 ;;
      to_address <- address_of_account ic 1 None ;;
      create_account ic 0 1 to_address amount space owner_ signers
  | CreateAccountWithSeed base seed amount space owner_ =>
      at_least ic 2 ;;
      to_address <- address_of_account ic 1 (Some (base, seed, owner_)) ;;
      create_account ic 0 1 to_address amount space owner_ signers
  | Assign owner_ =>
      at_least ic 1 ;;
      with_instruction_account ic 0 (λ account,
        addr <- address_of_account ic 0 None ;;
        assign account addr owner_ signers)
  | Transfer amount =>
      at_least ic 2 ;;
      transfer ic 0 1 amount
  | TransferWithSeed amount from_seed from_owner =>
      at_least ic 3 ;;
      transfer_with_seed ic 0 1 from_seed from_owner 2 amount
  | AdvanceNonceAccount =>
      at_least ic 1 ;;
      with_instruction_account ic 0 (λ me,
        nonempty_recent_blockhashes ic 1 "Advance nonce account" ;;
        advance_nonce_account me signers)
  | WithdrawNonceAccount amount =>
      at_least ic 2 ;;
      recent_blockhashes_with_account_check ic 2 ;;
      r <- rent_with_account_check ic 3 ;;
      withdraw_nonce_account ic 0 amount 1 r signers
  | InitializeNonceAccount authorized =>
      at_least ic 1 ;;
      with_instruction_account ic 0 (λ me,
        nonempty_recent_blockhashes ic 1 "Initialize nonce account" ;;
        r <- rent_with_account_check ic 2 ;;
        initialize_nonce_account me authorized r)
  | AuthorizeNonceAccount authority =>
      at_least ic 1 ;;
      with_instruction_account ic 0 (λ me, authorize_nonce_account me authority signers)
  | UpgradeNonceAccount =>
      at_least ic 1 ;;
      with_instruction_account ic 0 upgrade_nonce_account
  | Allocate space =>
      at_least ic 1 ;;
      with_instruction_account ic 0 (λ account,
        addr <- address_of_account ic 0 None ;;
        allocate account addr space signers)
  | AllocateWithSeed base seed space owner_ =>
      at_least ic 1 ;;
      with_instruction_account ic 0 (λ account,
        addr <- address_of_account ic 0 (Some (base, seed, owner_)) ;;
        allocate_and_assign account addr space owner_ signers)
  | AssignWithSeed base seed owner_ =>
      at_least ic 1 ;;
      with_instruction_account ic 0 (λ account,
        addr <- address_of_account ic 0 (Some (base, seed, owner_)) ;;
        assign account addr owner_ signers)
  end.

Definition system_process_instruction : IC unit :=
  ic <- asks_tc get_current_instruction_context ;;
  instruction <- lift (limited_deserialize (instruction_data ic)) ;;
  signers <- asks_tc (get_signers ic) ;;
  system_dispatch ic signers instruction.

Definition system_entrypoint : program :=
  declare_process_instruction SYSTEM_COMPUTE_UNITS system_process_instruction.
End system.
