(* ===== verification/HeapRules.v ===== *)
(** * The heap of a program

    What the bump allocator ([BpfAllocator] of [program-runtime/src/invoke_context.rs])
    promises to a program that allocates again and again. *)

From S2P Require Import Prelude Sdk Account TransactionContext LogCollector InvokeContext.

(** an allocation request: size and alignment *)
Definition request : Type := N * N.
(** what a sequence of requests got: the address and the size of each that was served *)
Fixpoint bpf_allocs (a : BpfAllocator) (l : list request) : list (N * N) * BpfAllocator :=
  match l with
  | [] => ([], a)
  | (size, align) :: l' =>
      let '(r, a1) := bpf_alloc a size align in
      let '(rs, a2) := bpf_allocs a1 l' in
      (match r with Some addr => (addr, size) :: rs | None => rs end, a2)
  end.

(** the alignments of Rust layouts, as far as the start of the heap is aligned *)
Definition layout_align (align : N) : Prop := ∃ k, align = 2 ^ k ∧ k ≤ 32.

Lemma align_offset_spec pos align : align ≠ 0 → (align | pos + align_offset pos align).
Proof.
  intros Ha. unfold align_offset.
  pose proof (N.div_mod pos align Ha) as Hp. pose proof (N.mod_lt pos align Ha) as Hlt.
  destruct (decide (pos `mod` align = 0)) as [E|E].
  - rewrite E, N.sub_0_r, N.Div0.mod_same, N.add_0_r. by apply N.Lcm0.mod_divide.
  - generalize dependent (pos `mod` align). intros r Hp Hlt Hr. generalize dependent (pos `div` align).
    intros q ->. rewrite (N.mod_small (align - r)) by lia. exists (q + 1). lia.
Qed.

Lemma heap_start_aligned align : layout_align align → (align | MM_HEAP_START).
Proof.
  intros (k & -> & Hk). exists (3 * 2 ^ (32 - k)).
  rewrite <-N.mul_assoc, <-N.pow_add_r. by replace (32 - k + k) with 32 by lia.
Qed.

(** one allocation: in the free part of the heap, aligned, and it takes that part *)
Lemma bpf_alloc_Some a size align addr a' :
  layout_align align → alloc_len a ≤ u64_max - MM_HEAP_START →
  bpf_alloc a size align = (Some addr, a') →
  (align | addr) ∧ MM_HEAP_START + alloc_pos a ≤ addr ∧
  addr + size = MM_HEAP_START + alloc_pos a' ∧ alloc_pos a' ≤ alloc_len a ∧
  alloc_len a' = alloc_len a.
Proof.
  intros Hal Hlen. unfold bpf_alloc, saturating_add.
  assert (align ≠ 0) as Hnz by (destruct Hal as (k & -> & _); by apply N.pow_nonzero).
  pose proof (align_offset_spec (alloc_pos a) align Hnz) as Hd.
  destruct (N.leb_spec (N.min u64_max (N.min u64_max (alloc_pos a + align_offset (alloc_pos a) align)
    + size)) (alloc_len a)) as [Hle|]; [|done].
  intros [= <- <-]. simpl. set (o := align_offset (alloc_pos a) align) in *.
  assert (u64_max - MM_HEAP_START < u64_max) as Hms by (by vm_compute).
  assert (MM_HEAP_START ≤ u64_max) as Hm by (by vm_compute).
  assert (alloc_pos a + o + size ≤ alloc_len a) as Hin by lia.
  rewrite !N.min_r by lia. split_and!; [|lia..].
  apply N.divide_add_r; [by apply heap_start_aligned|done].
Qed.
Lemma bpf_alloc_None a size align a' : bpf_alloc a size align = (None, a') → a' = a.
Proof. unfold bpf_alloc. case_match; [done|]. by intros [= <-]. Qed.

(** the regions lie one after the other from [from] on *)
Fixpoint laid_out (from : N) (l : list (N * N)) : Prop :=
  match l with
  | [] => True
  | (addr, size) :: l' => from ≤ addr ∧ laid_out (addr + size) l'
  end.
Lemma laid_out_weaken l : ∀ from from', from' ≤ from → laid_out from l → laid_out from' l.
Proof. destruct l as [|[addr size] l]; simpl; [done|]. intros ?? ? []. split; [lia|done]. Qed.

(** the region ends inside the heap and is aligned as one of the requests asked *)
Definition served (len : N) (l : list request) (r : N * N) : Prop :=
  r.1 + r.2 ≤ MM_HEAP_START + len ∧ ∃ align, (r.2, align) ∈ l ∧ (align | r.1).
Lemma served_cons len q l rs : Forall (served len l) rs → Forall (served len (q :: l)) rs.
Proof.
  intros Hs. eapply list.Forall_impl; [exact Hs|]. intros r (? & al & ? & ?).
  split; [done|]. exists al. split; [by right|done].
Qed.

Lemma bpf_allocs_spec l : ∀ a rs a',
  Forall (λ r, layout_align r.2) l → alloc_len a ≤ u64_max - MM_HEAP_START →
  alloc_pos a ≤ alloc_len a → bpf_allocs a l = (rs, a') →
  laid_out (MM_HEAP_START + alloc_pos a) rs ∧ Forall (served (alloc_len a) l) rs ∧
  alloc_pos a ≤ alloc_pos a' ≤ alloc_len a.
Proof.
  induction l as [|[size align] l IH]; intros a rs a' Hal Hlen Hpos; simpl.
  { intros [= <- <-]. split_and!; [done|constructor|lia..]. }
  apply list.Forall_cons in Hal as [Ha Hal]. simpl in Ha.
  destruct (bpf_alloc a size align) as [r a1] eqn:Hr.
  destruct (bpf_allocs a1 l) as [rs1 a2] eqn:Hrs. intros [= <- <-]. destruct r as [addr|].
  - apply bpf_alloc_Some in Hr as (Hd & Hge & He & Hle & Hl); [|done..].
    destruct (IH a1 rs1 a2) as (Hlo & Hin & Hp); [done|lia..|done|]. rewrite Hl in *.
    split; [simpl; split; [done|by rewrite He]|]. split; [|lia].
    constructor; [|by apply served_cons]. split; [simpl; lia|]. exists align. split; [left|done].
  - apply bpf_alloc_None in Hr as ->. destruct (IH a rs1 a2) as (? & ? & ?); auto using served_cons.
Qed.

(** the regions a program allocates on its heap never overlap.  Whatever it
    requests, in whatever order, and even if some requests are refused: each region
    that was served starts after the end of the one before, lies inside the heap and is aligned
    as a request for its size asked. *)
Theorem heap_allocations_disjoint len l rs a' :
  Forall (λ r, layout_align r.2) l → len ≤ u64_max - MM_HEAP_START →
  bpf_allocs (bpf_allocator_new len) l = (rs, a') →
  laid_out MM_HEAP_START rs ∧ Forall (served len l) rs.
Proof.
  intros Hal Hlen Hr. destruct (bpf_allocs_spec l (bpf_allocator_new len) rs a' Hal Hlen) as (Hl & Hf & _);
    [simpl; lia|done|].
  split; [|done]. eapply laid_out_weaken; [|done]. simpl. lia.
Qed.

Lemma heap_allocations_disjoint_witness :
  laid_out MM_HEAP_START [(0x300000000, 3); (0x300000008, 16); (0x300000018, 1)].
Proof.
  refine (proj1 (heap_allocations_disjoint 32 [(3, 1); (16, 8); (100, 4); (1, 2)] _
    (mkBpfAllocator 32 25) _ _ _)); [|by vm_compute..].
  repeat constructor; simpl; [exists 0|exists 3|exists 2|exists 1]; by vm_compute.
Defined.
