(* ===== verification/Effects.v ===== *)
(** * What a successful operation did

    Inversion of the operations on borrowed accounts: when one returns [Ok], what
    it found and what the accounts hold afterwards.  Account contents are the
    list [vals]; the borrow state, the touched flags and the resize counter are not part
    of it. *)

From S2P Require Import Prelude Sdk Rent Account TransactionContext AccountRules InstructionRules.
From S2P Require Import LogCollector InvokeContext InvokeRules.

Definition vals (t : TransactionContext) : list AccountSharedData :=
  cell_value <$> accounts (tx_accounts t).
Definition ivals (s : InvokeContext) : list AccountSharedData := vals (transaction_context s).

(** [t'] differs from [t] neither in its keys nor in its account contents *)
Record same_vals (t t' : TransactionContext) : Prop := {
  sv_keys : account_keys t' = account_keys t;
  sv_vals : vals t' = vals t }.
#[export] Instance same_vals_stable : StableFrame (λ _, True) same_vals.
Proof. split; [by intros; split| |done]. intros t1 t2 t3 [] []. split; congruence. Qed.

Lemma quiet_same_vals t t' : quiet t t' → same_vals t t'.
Proof. intros (? & _ & _ & _ & _ & _ & Ha). split; [done|]. unfold vals. by rewrite Ha. Qed.

Lemma vals_lookup t i : vals t !! N.to_nat i = cell_value <$> ta_get (tx_accounts t) i.
Proof. unfold vals. by rewrite list_lookup_fmap. Qed.

Lemma vals_store ba a t :
  vals (ba_store ba a t).2 = <[N.to_nat (ba_index_in_transaction ba) := a]> (vals t).
Proof.
  unfold ba_store, modify, vals. simpl. apply list_eq. intros i.
  rewrite list_lookup_fmap. destruct (decide (i = N.to_nat (ba_index_in_transaction ba))) as [->|Hne].
  - rewrite list_lookup_alter_eq.
    destruct (accounts (tx_accounts t) !! N.to_nat (ba_index_in_transaction ba)) as [c|] eqn:Hc; simpl.
    + rewrite list_lookup_insert_eq; [done|]. rewrite length_fmap. by eapply lookup_lt_Some.
    + rewrite lookup_ge_None_2; [done|]. rewrite length_insert, length_fmap.
      by apply lookup_ge_None.
  - rewrite list_lookup_alter_ne, list_lookup_insert_ne by done. by rewrite list_lookup_fmap.
Qed.

(** the account behind a handle *)
Definition at_handle (ba : BorrowedAccount) (t : TransactionContext) : option AccountSharedData :=
  vals t !! N.to_nat (ba_index_in_transaction ba).

Lemma ba_account_Ok ba t a t' : ba_account ba t = (Ok a, t') → at_handle ba t = Some a ∧ t' = t.
Proof.
  unfold ba_account, asks, at_handle. rewrite vals_lookup. unfold unwrap.
  destruct (ta_get _ _) as [c|]; simpl; naive_solver.
Qed.
Lemma ba_account_Some ba t a : at_handle ba t = Some a → ba_account ba t = (Ok a, t).
Proof.
  unfold ba_account, asks, at_handle. rewrite vals_lookup.
  destruct (ta_get _ _) as [c|]; simpl; naive_solver.
Qed.
Lemma ba_owned_Ok ba t b t' :
  ba_is_owned_by_current_program ba t = (Ok b, t') →
  t' = t ∧ ∃ a, at_handle ba t = Some a ∧ b = is_owned_by (ba_instruction_context ba) t a.
Proof.
  unfold ba_is_owned_by_current_program. intros (a & t1 & [Ha ->]%ba_account_Ok & [= <- <-])%bind_Ok_inv.
  split; [done|]. by exists a.
Qed.

(** the tail of a writing operation *)
Lemma touch_store_Ok ba a t t' :
  (ba_touch ba ;; ba_store ba a) t = (Ok tt, t') →
  account_keys t' = account_keys t ∧
  vals t' = <[N.to_nat (ba_index_in_transaction ba) := a]> (vals t).
Proof.
  intros ([] & t1 & H1 & H2)%bind_Ok_inv.
  pose proof (ba_touch_quiet ba t I) as Hq. rewrite H1 in Hq. simpl in Hq.
  apply quiet_same_vals in Hq as []. injection H2 as <-. split; [done|].
  pose proof (vals_store ba a t1) as Hv. unfold ba_store, modify in Hv. simpl in Hv.
  by rewrite Hv, sv_vals0.
Qed.

(** a successful change of a balance *)
Lemma ba_set_lamports_Ok ba n t t' :
  ba_set_lamports ba n t = (Ok tt, t') →
  ∃ a, at_handle ba t = Some a ∧ ba_is_writable ba = true ∧ executable a = false ∧
    (lamports a ≤ n ∨ current_program (ba_instruction_context ba) t = Some (owner a)) ∧
    account_keys t' = account_keys t ∧
    vals t' = <[N.to_nat (ba_index_in_transaction ba) := set_lamports n a]> (vals t).
Proof.
  unfold ba_set_lamports.
  intros (b & t1 & [-> (a & Ha & ->)]%ba_owned_Ok & H)%bind_Ok_inv.
  apply bind_Ok_inv in H as (a' & t2 & [Ha' ->]%ba_account_Ok & H).
  rewrite Ha in Ha'. injection Ha' as <-.
  destruct (negb _ && _) eqn:Hext; [done|]. destruct (ba_is_writable ba) eqn:Hw; simpl in H; [|done].
  destruct (executable a) eqn:He; [done|].
  exists a. split; [done|]. split; [done|]. split; [done|]. split.
  { apply andb_false_iff in Hext as [Ho%negb_false_iff|Hn%N.ltb_ge]; [right|by left].
    by apply is_owned_by_program. }
  destruct (N.eqb_spec (lamports a) n) as [<-|Hne].
  - injection H as <-. split; [done|]. rewrite list_insert_id; [done|].
    unfold at_handle in Ha. rewrite Ha. by destruct a.
  - by apply touch_store_Ok in H.
Qed.

(** the handle of an instruction account *)
Definition handle_of (ic : InstructionContext) (i : N) (ia : InstructionAccount) : BorrowedAccount :=
  mkBorrowedAccount ic (index_in_transaction ia)
    (saturating_add u16_max (get_number_of_program_accounts ic) i).

Lemma vals_set_cell i b t :
  vals (set_cell i (λ c, mkCell (cell_value c) b) t) = vals t.
Proof. unfold vals. simpl. by apply fmap_alter_same. Qed.

(** a successful use of an instruction account: the body ran in a state with the
    same contents *)
Lemma ic_with_account_Ok {A} ic i (body : BorrowedAccount → IC A) s x s' :
  ic_with_account (try_borrow_instruction_account ic i) body s = (Ok x, s') →
  ∃ ia s1 s2, getN (instruction_accounts ic) i = Some ia ∧
    body (handle_of ic i ia) s1 = (Ok x, s2) ∧
    account_keys (transaction_context s1) = account_keys (transaction_context s) ∧
    ivals s1 = ivals s ∧ blockhash s1 = blockhash s ∧
    lamports_per_signature s1 = lamports_per_signature s ∧
    account_keys (transaction_context s') = account_keys (transaction_context s2) ∧
    ivals s' = ivals s2.
Proof.
  unfold ic_with_account, try_borrow_instruction_account, bind at 1, lift,
    get_index_of_instruction_account_in_transaction.
  destruct (getN (instruction_accounts ic) i) as [ia|]; simpl; [|done].
  unfold try_borrow_account, bind, asks. destruct (ta_get _ _) as [c|]; simpl; [|done].
  destruct (cell_borrowed c); simpl; [done|].
  destruct (body _ _) as [r s2] eqn:Hb. intros [= -> <-].
  exists ia. eexists. exists s2. split; [done|]. split; [exact Hb|].
  unfold ivals. simpl. unfold drop_borrow. by rewrite !vals_set_cell.
Qed.

(** the other direction: an account that is there and not borrowed can be used *)
Lemma ic_with_account_run {A} ic i (body : BorrowedAccount → IC A) s ia c :
  getN (instruction_accounts ic) i = Some ia →
  ta_get (tx_accounts (transaction_context s)) (index_in_transaction ia) = Some c →
  cell_borrowed c = false →
  ic_with_account (try_borrow_instruction_account ic i) body s =
  let s1 := set_transaction_context
              (set_cell (index_in_transaction ia) (λ c, mkCell (cell_value c) true)
                 (transaction_context s)) s in
  let '(r, s2) := body (handle_of ic i ia) s1 in
  (r, set_transaction_context (drop_borrow (handle_of ic i ia) (transaction_context s2)) s2).
Proof.
  intros Hia Hc Hb. unfold ic_with_account, try_borrow_instruction_account, bind at 1, lift,
    get_index_of_instruction_account_in_transaction. rewrite Hia. simpl.
  unfold try_borrow_account, bind, asks. rewrite Hc. simpl. rewrite Hb. done.
Qed.

Lemma on_tc_Ok {A} (m : TC A) s x s' :
  on_tc m s = (Ok x, s') →
  ∃ t', m (transaction_context s) = (Ok x, t') ∧ s' = set_transaction_context t' s.
Proof. unfold on_tc. destruct (m _) as [r t']. intros [= -> <-]. by exists t'. Qed.

(** a successful change of the owner *)
Lemma ba_set_owner_Ok ba k t t' :
  ba_set_owner ba k t = (Ok tt, t') →
  ∃ a, at_handle ba t = Some a ∧ ba_is_writable ba = true ∧ executable a = false ∧
    current_program (ba_instruction_context ba) t = Some (owner a) ∧
    Forall (λ b, b = 0) (data a) ∧ account_keys t' = account_keys t ∧
    vals t' = <[N.to_nat (ba_index_in_transaction ba) := set_owner (mkPubkey k) a]> (vals t).
Proof.
  unfold ba_set_owner. intros (b & t1 & [-> (a & Ha & ->)]%ba_owned_Ok & H)%bind_Ok_inv.
  destruct (is_owned_by _ _ _) eqn:Ho; simpl in H; [|done].
  destruct (ba_is_writable ba) eqn:Hw; simpl in H; [|done].
  apply bind_Ok_inv in H as (a' & t2 & [Ha' ->]%ba_account_Ok & H). simplify_eq.
  destruct (executable a) eqn:He; [done|].
  destruct (is_zeroed (data a)) eqn:Hz; simpl in H; [|done].
  exists a. split_and!; [done..|by apply is_owned_by_program|by apply is_zeroed_Forall| |].
  all: case_bool_decide as Hk.
  - by injection H as <-.
  - revert H. unfold copy_into_owner_from_slice. intros ([] & t3 & H3 & H)%bind_Ok_inv.
    destruct (_ =? _); [|done]. apply bind_Ok_inv in H as (a' & t4 & [[= <-] ->]%lift_Ok_inv & H).
    apply (touch_store_Ok ba (set_owner (mkPubkey k) a) t t'). unfold bind. by rewrite H3.
  - injection H as <-. rewrite list_insert_id; [done|]. unfold at_handle in Ha. rewrite Ha.
    rewrite <-Hk. by destruct a as [? ? [] ? ? ?].
  - revert H. unfold copy_into_owner_from_slice. intros ([] & t3 & H3 & H)%bind_Ok_inv.
    destruct (_ =? _); [|done]. apply bind_Ok_inv in H as (a' & t4 & [[= <-] ->]%lift_Ok_inv & H).
    apply (touch_store_Ok ba (set_owner (mkPubkey k) a) t t'). unfold bind. by rewrite H3.
Qed.

(** permission checks leave the state as it is *)
Lemma ba_can_data_be_changed_Ok ba t t' :
  ba_can_data_be_changed ba t = (Ok tt, t') →
  t' = t ∧ ∃ a, at_handle ba t = Some a ∧ ba_is_writable ba = true ∧ executable a = false ∧
    current_program (ba_instruction_context ba) t = Some (owner a).
Proof.
  unfold ba_can_data_be_changed. intros (a & t1 & [Ha ->]%ba_account_Ok & H)%bind_Ok_inv.
  destruct (executable a) eqn:He; [done|]. destruct (ba_is_writable ba) eqn:Hw; simpl in H; [|done].
  apply bind_Ok_inv in H as (b & t2 & [-> (a' & Ha' & ->)]%ba_owned_Ok & H). simplify_eq.
  destruct (is_owned_by _ _ _) eqn:Ho; simpl in H; [|done]. injection H as <-. split; [done|].
  exists a. split_and!; try done. by apply is_owned_by_program.
Qed.
Lemma ba_can_data_be_resized_Ok ba n t t' :
  ba_can_data_be_resized ba n t = (Ok tt, t') → t' = t ∧ n ≤ MAX_PERMITTED_DATA_LENGTH.
Proof.
  unfold ba_can_data_be_resized. intros (a & t1 & [Ha ->]%ba_account_Ok & H)%bind_Ok_inv.
  apply bind_Ok_inv in H as (b & t2 & [-> _]%ba_owned_Ok & H).
  destruct (negb _ && _); [done|]. destruct (N.ltb_spec MAX_PERMITTED_DATA_LENGTH n); [done|].
  apply bind_Ok_inv in H as (d & t3 & [= <- <-] & H).
  destruct (_ <? _)%Z; [done|]. by injection H as <-.
Qed.

Lemma touch_resize_store_Ok ba n a t t' :
  (ba_touch ba ;; ba_update_accounts_resize_delta ba n ;; ba_store ba a) t = (Ok tt, t') →
  account_keys t' = account_keys t ∧
  vals t' = <[N.to_nat (ba_index_in_transaction ba) := a]> (vals t).
Proof.
  intros ([] & t1 & H1 & ([] & t2 & H2 & H3)%bind_Ok_inv)%bind_Ok_inv.
  pose proof (ba_touch_quiet ba t I) as Hq1. rewrite H1 in Hq1.
  pose proof (ba_update_delta_quiet ba n t1 I) as Hq2. rewrite H2 in Hq2.
  apply quiet_same_vals in Hq1 as [], Hq2 as []. injection H3 as <-. split; simpl in *; [congruence|].
  pose proof (vals_store ba a t2) as Hv. unfold ba_store, modify in Hv. simpl in Hv.
  rewrite Hv. congruence.
Qed.

Lemma resize_same a : resize (len (data a)) 0 a = a.
Proof.
  unfold resize, set_data. destruct a as [l d o e r m]. simpl. f_equal. unfold len.
  rewrite Nat2N.id, take_ge, Nat.sub_diag by lia. apply app_nil_r.
Qed.

(** a successful change of the data length *)
Lemma ba_set_data_length_Ok ba n t t' :
  ba_set_data_length ba n t = (Ok tt, t') →
  ∃ a, at_handle ba t = Some a ∧ ba_is_writable ba = true ∧ executable a = false ∧
    current_program (ba_instruction_context ba) t = Some (owner a) ∧
    n ≤ MAX_PERMITTED_DATA_LENGTH ∧ account_keys t' = account_keys t ∧
    vals t' = <[N.to_nat (ba_index_in_transaction ba) := resize n 0 a]> (vals t).
Proof.
  unfold ba_set_data_length.
  intros ([] & t1 & [-> Hn]%ba_can_data_be_resized_Ok & H)%bind_Ok_inv.
  apply bind_Ok_inv in H as ([] & t2 & [-> (a & Ha & Hw & He & Ho)]%ba_can_data_be_changed_Ok & H).
  apply bind_Ok_inv in H as (a' & t3 & [Ha' ->]%ba_account_Ok & H). simplify_eq.
  exists a. split_and!; try done.
  all: destruct (N.eqb_spec (len (data a)) n) as [<-|Hne].
  - by injection H as <-.
  - by apply touch_resize_store_Ok in H as [? ?].
  - injection H as <-. rewrite resize_same, list_insert_id; done.
  - by apply touch_resize_store_Ok in H as [? ?].
Qed.

(** ** Typed state in the data of an account *)
Section state.
Context {T : Type} `{Bincode T}.

Lemma ba_get_state_Ok ba t (x : T) t' :
  ba_get_state ba t = (Ok x, t') →
  t' = t ∧ ∃ a, at_handle ba t = Some a ∧ shared_deserialize_data a = Some x.
Proof.
  intros (a & t1 & [Ha ->]%ba_account_Ok & [Hd ->]%lift_Ok_inv)%bind_Ok_inv.
  split; [done|]. exists a. split; [done|]. by destruct (shared_deserialize_data a); simplify_eq/=.
Qed.

Lemma ba_get_state_run ba t (x : T) a :
  at_handle ba t = Some a → shared_deserialize_data a = Some x → ba_get_state ba t = (Ok x, t).
Proof.
  intros Ha Hx. unfold ba_get_state. rewrite (bind_ok _ _ _ _ _ (ba_account_Some _ _ _ Ha)).
  unfold lift. by rewrite Hx.
Qed.

Lemma ba_set_state_Ok ba (x : T) t t' :
  ba_set_state ba x t = (Ok tt, t') →
  ∃ a bs, at_handle ba t = Some a ∧ ba_is_writable ba = true ∧
    current_program (ba_instruction_context ba) t = Some (owner a) ∧
    serialize x = Some bs ∧ len bs ≤ len (data a) ∧ account_keys t' = account_keys t ∧
    vals t' = <[N.to_nat (ba_index_in_transaction ba) :=
                  set_data (overwrite bs (data a)) a]> (vals t).
Proof.
  unfold ba_set_state, ba_get_data_mut.
  intros (d & t1 & Hd & Hr)%bind_Ok_inv.
  apply bind_Ok_inv in Hd as ([] & t2 & [-> (a & Ha & Hw & He & Ho)]%ba_can_data_be_changed_Ok & Hd).
  apply bind_Ok_inv in Hd as ([] & t3 & Ht & Hd).
  pose proof (ba_touch_quiet ba t I) as Hq. rewrite Ht in Hq. apply quiet_same_vals in Hq as [Hk Hv].
  apply bind_Ok_inv in Hd as (a' & t4 & [Ha' ->]%ba_account_Ok & [= <- <-]). simpl in *.
  unfold at_handle in *. rewrite Hv in Ha'. simplify_eq.
  apply bind_Ok_inv in Hr as (bs & t5 & [Hs ->]%lift_Ok_inv & Hr).
  destruct (N.ltb_spec (len (data a)) (len bs)); [done|].
  apply bind_Ok_inv in Hr as (a' & t6 & [Ha2 ->]%ba_account_Ok & [= <-]).
  unfold at_handle in Ha2. rewrite Hv in Ha2. simplify_eq.
  exists a, bs. split_and!; try done; [by destruct (serialize x); simplify_eq/=|].
  pose proof (vals_store ba (set_data (overwrite bs (data a)) a) t3) as Hvs.
  unfold ba_store, modify in Hvs. simpl in Hvs. by rewrite Hvs, Hv.
Qed.

(** what was stored is what is read back *)
Lemma stored_state `{!BincodeLaws T} (x : T) bs a :
  serialize x = Some bs → shared_deserialize_data (set_data (overwrite bs (data a)) a) = Some x.
Proof. intros Hs. unfold shared_deserialize_data, overwrite. simpl. by apply deserialize_serialize. Qed.
End state.
