(* ===== verification/SystemProgramRules.v ===== *)
(** * Theory of the system program

    The system program is lawful, so the theorems about invocations apply to
    it, its handlers do what their instructions say, and with the accounts in place that it
    asks for the transfer handler returns [Ok]. *)

From S2P Require Import Prelude Sdk Rent Account TransactionContext AccountRules InstructionRules.
From S2P Require Import LogCollector InvokeContext InvokeRules Nonce SystemProgram Effects.

(** ** Lawfulness *)
Section lawful.
Context `{PubkeyDisplay, Sha256, !Bincode SystemInstruction, !Bincode Versions}.
Context (ic : InstructionContext).

Abbreviation ok m := (steps_in (running ic) (ic_frame ic) m).

Lemma key_of_frame i : ok (key_of_instruction_account ic i).
Proof. apply asks_tc_frame. Qed.
Lemma address_create_frame k w : ok (address_create k w).
Proof. unfold address_create. destruct w as [[[]]|]; frame_solve. Qed.
Lemma address_of_frame i w : ok (address_of_account ic i w).
Proof. unfold address_of_account. frame_solve; auto using key_of_frame, address_create_frame. Qed.
Lemma recent_blockhashes_frame i : ok (recent_blockhashes_with_account_check ic i).
Proof. unfold recent_blockhashes_with_account_check. frame_solve. Qed.
Lemma rent_frame i : ok (rent_with_account_check ic i).
Proof. unfold rent_with_account_check. frame_solve. Qed.
Lemma nonempty_frame i w : ok (nonempty_recent_blockhashes ic i w).
Proof. unfold nonempty_recent_blockhashes. frame_solve; auto using recent_blockhashes_frame. Qed.
Lemma at_least_frame n : ok (at_least ic n).
Proof. apply steps_pure, _. Qed.
#[local] Hint Resolve key_of_frame address_create_frame address_of_frame recent_blockhashes_frame
  rent_frame nonempty_frame at_least_frame : frame.

Section handle.
Context (ba : BorrowedAccount) (Hba : handle_in ic ba).

Lemma allocate_frame a n sg : ok (allocate ba a n sg).
Proof. unfold allocate. frame_solve. Qed.
Lemma assign_frame a k sg : ok (assign ba a k sg).
Proof. unfold assign. frame_solve. Qed.
Lemma allocate_and_assign_frame a n k sg : ok (allocate_and_assign ba a n k sg).
Proof. unfold allocate_and_assign. frame_solve; auto using allocate_frame, assign_frame. Qed.
Lemma advance_nonce_frame sg : ok (advance_nonce_account ba sg).
Proof. unfold advance_nonce_account. frame_solve. Qed.
Lemma withdraw_signer_frame n r : ok (withdraw_signer ba n r).
Proof. unfold withdraw_signer. frame_solve. Qed.
Lemma initialize_nonce_frame k r : ok (initialize_nonce_account ba k r).
Proof. unfold initialize_nonce_account. frame_solve. Qed.
Lemma authorize_nonce_frame k sg : ok (authorize_nonce_account ba k sg).
Proof. unfold authorize_nonce_account. frame_solve. Qed.
Lemma upgrade_nonce_frame : ok (upgrade_nonce_account ba).
Proof. unfold upgrade_nonce_account. frame_solve. Qed.
End handle.
#[local] Hint Resolve allocate_frame assign_frame allocate_and_assign_frame advance_nonce_frame
  withdraw_signer_frame initialize_nonce_frame authorize_nonce_frame upgrade_nonce_frame : frame.

Context (Hsm : ic_small ic).
#[local] Hint Extern 2 (steps_in _ _ (ic_with_account _ _)) =>
  (apply ic_with_handle_frame; [exact Hsm|intros ? ?; frame_solve]) : frame.
#[local] Hint Extern 2 (steps_in _ _ (with_instruction_account _ _ _)) =>
  (unfold with_instruction_account) : frame.

Lemma transfer_verified_frame i j n : ok (transfer_verified ic i j n).
Proof. unfold transfer_verified. frame_solve. Qed.
#[local] Hint Resolve transfer_verified_frame : frame.
Lemma transfer_frame i j n : ok (transfer ic i j n).
Proof. unfold transfer. frame_solve. Qed.
Lemma transfer_with_seed_frame i b sd o j n : ok (transfer_with_seed ic i b sd o j n).
Proof. unfold transfer_with_seed. frame_solve. Qed.
#[local] Hint Resolve transfer_frame transfer_with_seed_frame : frame.
Lemma create_account_frame i j a n sp o sg : ok (create_account ic i j a n sp o sg).
Proof. unfold create_account. frame_solve. Qed.
Lemma withdraw_nonce_frame i n j r sg : ok (withdraw_nonce_account ic i n j r sg).
Proof. unfold withdraw_nonce_account. frame_solve. Qed.
#[local] Hint Resolve create_account_frame withdraw_nonce_frame : frame.

Lemma system_dispatch_frame sg instruction : ok (system_dispatch ic sg instruction).
Proof. unfold system_dispatch. destruct instruction; frame_solve. Qed.
End lawful.

Section lawful_program.
Context `{PubkeyDisplay, Sha256, !Bincode SystemInstruction, !Bincode Versions}.

Lemma system_process_instruction_frame ic :
  steps_in (running ic) (ic_frame ic) system_process_instruction.
Proof.
  intros s Hs. destruct (rn_ok _ _ Hs) as [Hsm _]. revert s Hs.
  apply steps_current; [done|]. frame_solve. by apply system_dispatch_frame.
Qed.

Lemma system_lawful ic : lawful ic system_entrypoint.
Proof. apply declared_lawful, system_process_instruction_frame. Qed.
End lawful_program.

(** ** Effects *)

(** the program that runs is the system program *)
Definition runs_system (ic : InstructionContext) (s : InvokeContext) : Prop :=
  current_program ic (transaction_context s) = Some system_program_id.

(** moving lamports between two entries of a list of accounts *)
Definition move_lamports (from to : nat) (amount : N) (v : list AccountSharedData) :
  list AccountSharedData :=
  alter (λ b, set_lamports (lamports b + amount) b) to
    (alter (λ a, set_lamports (lamports a - amount) a) from v).

Lemma insert_alter {A} (f : A → A) (i : nat) (l : list A) a :
  l !! i = Some a → <[i := f a]> l = alter f i l.
Proof.
  revert i. induction l as [|x l IH]; intros [|i]; simpl; try done; [by intros [= ->]|].
  intros H. f_equal. by apply IH.
Qed.

Section effects.
Context `{PubkeyDisplay, Sha256, !Bincode SystemInstruction, !Bincode Versions}.

(** what a transfer that succeeded found and did *)
Record transferred (ic : InstructionContext) (i j amount : N) (s s' : InvokeContext) : Prop := {
  td_from : ∃ ia a, getN (instruction_accounts ic) i = Some ia ∧
    ivals s !! N.to_nat (index_in_transaction ia) = Some a ∧
    data a = [] ∧ executable a = false ∧ amount ≤ lamports a ∧
    (amount = 0 ∨ current_program ic (transaction_context s) = Some (owner a)) ∧
    ∃ ja, getN (instruction_accounts ic) j = Some ja ∧
      ivals s' = move_lamports (N.to_nat (index_in_transaction ia))
                   (N.to_nat (index_in_transaction ja)) amount (ivals s) ∧
      ∃ b, ivals s' !! N.to_nat (index_in_transaction ja) = Some b ∧ lamports b ≤ u64_max }.

Lemma len_0 {A} (l : list A) : negb (len l =? 0) = false → l = [].
Proof. by destruct l. Qed.

Lemma checked_sub_run ba n t t' :
  ba_checked_sub_lamports ba n t = (Ok tt, t') →
  ∃ a, at_handle ba t = Some a ∧ n ≤ lamports a ∧ executable a = false ∧
    (n = 0 ∨ current_program (ba_instruction_context ba) t = Some (owner a)) ∧
    account_keys t' = account_keys t ∧
    vals t' = alter (λ a, set_lamports (lamports a - n) a)
                (N.to_nat (ba_index_in_transaction ba)) (vals t).
Proof.
  intros (a & t1 & [Ha ->]%ba_account_Ok & Hr)%bind_Ok_inv.
  apply bind_Ok_inv in Hr as (l & t2 & [Hl ->]%lift_Ok_inv & Hr).
  destruct (checked_sub (lamports a) n) eqn:Hc; simpl in Hl; [|done]. injection Hl as ->.
  apply checked_sub_Some in Hc as [-> Hle].
  apply ba_set_lamports_Ok in Hr as (a' & Ha' & Hw & He & Ho & Hk & Hv). simplify_eq.
  exists a. split_and!; try done.
  - destruct Ho; [left; lia|by right].
  - rewrite Hv. by apply (insert_alter (λ a, set_lamports (lamports a - n) a)).
Qed.

Lemma checked_add_run ba n t t' :
  ba_checked_add_lamports ba n t = (Ok tt, t') →
  ∃ a, at_handle ba t = Some a ∧ lamports a + n ≤ u64_max ∧
    account_keys t' = account_keys t ∧
    vals t' = alter (λ a, set_lamports (lamports a + n) a)
                (N.to_nat (ba_index_in_transaction ba)) (vals t).
Proof.
  intros (a & t1 & [Ha ->]%ba_account_Ok & Hr)%bind_Ok_inv.
  apply bind_Ok_inv in Hr as (l & t2 & [Hl ->]%lift_Ok_inv & Hr).
  destruct (checked_add u64_max (lamports a) n) eqn:Hc; simpl in Hl; [|done]. injection Hl as ->.
  apply checked_add_Some in Hc as [-> Hle].
  apply ba_set_lamports_Ok in Hr as (a' & Ha' & Hw & He & Ho & Hk & Hv). simplify_eq.
  exists a. split_and!; try done.
  rewrite Hv. by apply (insert_alter (λ a, set_lamports (lamports a + n) a)).
Qed.

Lemma transfer_verified_Ok ic i j amount s s' :
  transfer_verified ic i j amount s = (Ok tt, s') → transferred ic i j amount s s'.
Proof.
  intros ([] & s1 & Hfrom & Hto)%bind_Ok_inv.
  apply ic_with_account_Ok in Hfrom as (ia & sa & sb & Hia & Hbody & Hka & Hva & _ & _ & Hkb & Hvb).
  apply ic_with_account_Ok in Hto as (ja & sc & sd & Hja & Hbody2 & Hkc & Hvc & _ & _ & Hkd & Hvd).
  apply bind_Ok_inv in Hbody as (a & s2 & (t2 & [Ha ->]%ba_account_Ok & ->)%on_tc_Ok & Hbody).
  destruct (negb (len (data a) =? 0)) eqn:Hd; [by apply bind_Ok_inv in Hbody as (? & ? & _ & ?)|].
  destruct (lamports a <? amount) eqn:Hl; [by apply bind_Ok_inv in Hbody as (? & ? & _ & ?)|].
  apply on_tc_Ok in Hbody as (t3 & Hsub & ->). apply on_tc_Ok in Hbody2 as (t4 & Hadd & ->).
  apply checked_sub_run in Hsub as (a' & Ha' & Hle & He & Ho & Hk3 & Hv3).
  apply checked_add_run in Hadd as (b & Hb & Hle' & Hk4 & Hv4).
  unfold at_handle, ivals in *. simpl in *. simplify_eq. split. exists ia, a.
  unfold ivals. rewrite <-Hva. split_and!; try done.
  - by apply len_0.
  - by rewrite (current_program_keys _ (transaction_context s)) in Ho.
  - exists ja. split; [done|]. split.
    + unfold move_lamports. rewrite Hvd, Hv4, Hvc, Hvb, Hv3. done.
    + exists (set_lamports (lamports b + amount) b). split; [|done].
      rewrite Hvd, Hv4, list_lookup_alter_eq, Hb. done.
Qed.

Lemma transfer_Ok ic i j amount s s' :
  transfer ic i j amount s = (Ok tt, s') →
  transferred ic i j amount s s' ∧ is_instruction_account_signer ic i = Ok true.
Proof.
  intros (sg & s1 & [Hsg ->]%lift_Ok_inv & Hr)%bind_Ok_inv.
  destruct sg; simpl in Hr.
  - split; [by apply transfer_verified_Ok|done].
  - apply bind_Ok_inv in Hr as (? & ? & _ & Hr). by apply bind_Ok_inv in Hr as (? & ? & _ & ?).
Qed.
End effects.

(** ** Creating accounts *)
Section create.
Context `{PubkeyDisplay, Sha256, !Bincode SystemInstruction, !Bincode Versions}.

Lemma msg_throw_not_ok {A B : Type} (m : IC A) e s (x : B) s' : (m ;; throw e) s = (Ok x, s') → False.
Proof. by intros (? & ? & _ & ?)%bind_Ok_inv. Qed.

Lemma allocate_Ok ba addr space sg s s' :
  allocate ba addr space sg s = (Ok tt, s') →
  ∃ a, at_handle ba (transaction_context s) = Some a ∧ address_is_signer addr sg = true ∧
    data a = [] ∧ owner a = system_program_id ∧ space ≤ MAX_PERMITTED_DATA_LENGTH ∧
    account_keys (transaction_context s') = account_keys (transaction_context s) ∧
    ivals s' = <[N.to_nat (ba_index_in_transaction ba) :=
                   set_data (replicate (N.to_nat space) 0) a]> (ivals s).
Proof.
  unfold allocate. destruct (address_is_signer addr sg); simpl; [|by intros ?%msg_throw_not_ok].
  intros (a & s1 & (t1 & [Ha ->]%ba_account_Ok & ->)%on_tc_Ok & Hr)%bind_Ok_inv.
  destruct (negb (len (data a) =? 0)) eqn:Hd; simpl in Hr; [by apply msg_throw_not_ok in Hr|].
  destruct (key_eqb (owner a) system_program_id) eqn:Ho; simpl in Hr; [|by apply msg_throw_not_ok in Hr].
  destruct (MAX_PERMITTED_DATA_LENGTH <? space) eqn:Hs; [by apply msg_throw_not_ok in Hr|].
  apply on_tc_Ok in Hr as (t2 & (a' & Ha' & _ & _ & _ & Hle & Hk & Hv)%ba_set_data_length_Ok & ->).
  simpl in *. simplify_eq. exists a. apply len_0 in Hd. apply key_eqb_true in Ho.
  split_and!; try done. unfold ivals. simpl. rewrite Hv. f_equal. unfold resize.
  rewrite Hd, take_nil. simpl. by rewrite Nat.sub_0_r.
Qed.

Lemma assign_Ok ba addr k sg s s' :
  assign ba addr k sg s = (Ok tt, s') →
  ∃ a, at_handle ba (transaction_context s) = Some a ∧
    (owner a = k ∨ address_is_signer addr sg = true) ∧
    account_keys (transaction_context s') = account_keys (transaction_context s) ∧
    ivals s' = <[N.to_nat (ba_index_in_transaction ba) := set_owner k a]> (ivals s).
Proof.
  intros (a & s1 & (t1 & [Ha ->]%ba_account_Ok & ->)%on_tc_Ok & Hr)%bind_Ok_inv.
  exists a. destruct (key_eqb (owner a) k) eqn:Ho.
  - injection Hr as <-. apply key_eqb_true in Ho as <-. split_and!; auto.
    unfold ivals. simpl. rewrite list_insert_id; [done|]. unfold at_handle in Ha. rewrite Ha.
    by destruct a.
  - destruct (address_is_signer addr sg); simpl in Hr; [|by apply msg_throw_not_ok in Hr].
    apply on_tc_Ok in Hr as (t2 & (a' & Ha' & _ & _ & _ & _ & Hk & Hv)%ba_set_owner_Ok & ->).
    simpl in *. simplify_eq. split_and!; auto. unfold ivals. simpl. rewrite Hv. by destruct k.
Qed.

(** what a creation that succeeded found and did: the new account was empty and
    unused, it got the space, the owner and the lamports, the funder paid *)
Record created (ic : InstructionContext) (i j amount space : N) (k : Pubkey)
    (s s' : InvokeContext) : Prop := {
  cr_to : ∃ ja b, getN (instruction_accounts ic) j = Some ja ∧
    ivals s !! N.to_nat (index_in_transaction ja) = Some b ∧
    lamports b = 0 ∧ data b = [] ∧ owner b = system_program_id ∧
    space ≤ MAX_PERMITTED_DATA_LENGTH ∧
    ∃ ia, getN (instruction_accounts ic) i = Some ia ∧ ia_is_signer ia = true ∧
      ivals s' = move_lamports (N.to_nat (index_in_transaction ia))
        (N.to_nat (index_in_transaction ja)) amount
        (<[N.to_nat (index_in_transaction ja) :=
             set_owner k (set_data (replicate (N.to_nat space) 0) b)]> (ivals s)) }.

Lemma create_account_Ok ic i j addr amount space k sg s s' :
  create_account ic i j addr amount space k sg s = (Ok tt, s') →
  created ic i j amount space k s s' ∧ address_is_signer addr sg = true.
Proof.
  intros ([] & s1 & Hto & Htr)%bind_Ok_inv.
  apply ic_with_account_Ok in Hto as (ja & sa & sb & Hja & Hbody & Hka & Hva & _ & _ & Hkb & Hvb).
  apply bind_Ok_inv in Hbody as (a & s2 & (t2 & [Ha ->]%ba_account_Ok & ->)%on_tc_Ok & Hbody).
  destruct (0 <? lamports a) eqn:Hl; [by apply msg_throw_not_ok in Hbody|]. apply N.ltb_ge in Hl.
  apply bind_Ok_inv in Hbody as ([] & s3 & Hal & Has).
  apply allocate_Ok in Hal as (a1 & Ha1 & Hsg & Hd & Ho & Hsp & Hk3 & Hv3).
  apply assign_Ok in Has as (a2 & Ha2 & _ & Hk4 & Hv4).
  apply transfer_Ok in Htr as [[(ia & a3 & Hia & _ & _ & _ & _ & _ & ja' & Hja' & Hv5 & _)] Hsig].
  unfold at_handle, ivals in *. simpl in *. simplify_eq.
  rewrite Hv3, list_lookup_insert_eq in Ha2 by (by eapply lookup_lt_Some). simplify_eq.
  split; [|done]. split. exists ja, a. unfold ivals. rewrite <-Hva. split_and!; try done; [lia|].
  exists ia. split; [done|]. split.
  - unfold is_instruction_account_signer in Hsig. rewrite Hia in Hsig. simpl in Hsig. congruence.
  - rewrite Hv5, Hvb, Hv4, Hv3, list_insert_insert_eq. done.
Qed.
End create.

(** ** Nonces *)
Section nonce.
Context `{PubkeyDisplay, Sha256, !Bincode SystemInstruction, !Bincode Versions}.

Lemma advance_Ok ba sg s s' :
  advance_nonce_account ba sg s = (Ok tt, s') →
  let next := durable_nonce_from_blockhash (blockhash s) in
  ∃ a v d bs, at_handle ba (transaction_context s) = Some a ∧
    shared_deserialize_data a = Some v ∧ versions_state v = Initialized d ∧
    nonce_authority d ∈ sg ∧ durable_nonce d ≠ next ∧
    serialize (versions_new (Initialized
      (mkNonceData (nonce_authority d) next (lamports_per_signature s)))) = Some bs ∧
    ivals s' = <[N.to_nat (ba_index_in_transaction ba) :=
                   set_data (overwrite bs (data a)) a]> (ivals s) ∧
    blockhash s' = blockhash s.
Proof.
  unfold advance_nonce_account. destruct (ba_is_writable ba); simpl.
  2:{ intros (k & s1 & _ & Hr)%bind_Ok_inv. by apply msg_throw_not_ok in Hr. }
  intros (v & s1 & (t1 & [-> (a & Ha & Hv)]%ba_get_state_Ok & ->)%on_tc_Ok & Hr)%bind_Ok_inv.
  destruct (versions_state v) as [|d] eqn:Hst.
  { apply bind_Ok_inv in Hr as (k & s2 & _ & Hr). by apply msg_throw_not_ok in Hr. }
  case_bool_decide as Hau; simpl in Hr; [|by apply msg_throw_not_ok in Hr].
  apply bind_Ok_inv in Hr as (nx & s2 & [= <- <-] & Hr).
  case_bool_decide as Hne; [by apply msg_throw_not_ok in Hr|].
  apply bind_Ok_inv in Hr as (fee & s3 & [= <- <-] & Hr).
  apply on_tc_Ok in Hr as (t2 & (a' & bs & Ha' & _ & _ & Hs & _ & _ & Hvals)%ba_set_state_Ok & ->).
  simpl in *. simplify_eq. exists a, v, d, bs. split_and!; done.
Qed.

Lemma at_handle_insert ba s s' (a b : AccountSharedData) :
  at_handle ba (transaction_context s) = Some a →
  ivals s' = <[N.to_nat (ba_index_in_transaction ba) := b]> (ivals s) →
  at_handle ba (transaction_context s') = Some b.
Proof.
  unfold at_handle, ivals. intros Ha ->. rewrite list_lookup_insert_eq; [done|].
  by eapply lookup_lt_Some.
Qed.

(** the nonce an advance stored cannot advance again under the same block hash *)
Lemma advance_again `{!BincodeLaws Versions} ba sg sg' s s' :
  advance_nonce_account ba sg s = (Ok tt, s') →
  (advance_nonce_account ba sg' s').1 = Err MissingRequiredSignature ∨
  (advance_nonce_account ba sg' s').1 = Err (system_error SystemError.NonceBlockhashNotExpired).
Proof.
  intros Hrun. pose proof Hrun as (a & v & d & bs & Ha & Hd & Hst & Hau & Hne & Hs & Hv & Hb)%advance_Ok.
  assert (Hw : ba_is_writable ba = true).
  { revert Hrun. unfold advance_nonce_account. destruct (ba_is_writable ba); [done|].
    intros (k & s1 & _ & Hr)%bind_Ok_inv. by apply msg_throw_not_ok in Hr. }
  pose proof (at_handle_insert _ _ _ _ _ Ha Hv) as Ha'.
  unfold advance_nonce_account. rewrite Hw. simpl.
  rewrite (bind_ok (on_tc (ba_get_state ba)) _ s'
             (versions_new (Initialized (mkNonceData (nonce_authority d)
               (durable_nonce_from_blockhash (blockhash s)) (lamports_per_signature s)))) s').
  2:{ unfold on_tc. rewrite (ba_get_state_run _ _ _ _ Ha' (stored_state _ _ _ Hs)). by destruct s'. }
  simpl. case_bool_decide; simpl; [right|by left]. mstep.
  rewrite Hb, bool_decide_true by done. done.
Qed.
End nonce.

(** the account is loaded with this value, free, and has a touched flag *)
Definition usable (t : TransactionContext) (i : N) (a : AccountSharedData) : Prop :=
  ta_get (tx_accounts t) i = Some (mkCell a false) ∧
  is_Some (getN (touched_flags (tx_accounts t)) i).

(** the transaction context with one account replaced *)
Definition put_account (i : N) (a : AccountSharedData) (flags : list bool) (t : TransactionContext) :
  TransactionContext :=
  set_tx_accounts (mkTransactionAccounts (<[N.to_nat i := mkCell a false]> (accounts (tx_accounts t)))
                     flags) t.

Lemma usable_put_eq i a a' flags t :
  usable t i a → length flags = length (touched_flags (tx_accounts t)) →
  usable (put_account i a' flags t) i a'.
Proof.
  intros [Hc [f Hf]] Hl. split; unfold ta_get, getN in *; simpl.
  - rewrite list_lookup_insert_eq; [done|]. by eapply lookup_lt_Some.
  - apply lookup_lt_is_Some_2. rewrite Hl. by eapply lookup_lt_Some.
Qed.
Lemma usable_put_ne i j a' b flags t :
  i ≠ j → usable t j b → length flags = length (touched_flags (tx_accounts t)) →
  usable (put_account i a' flags t) j b.
Proof.
  intros Hne [Hc [f Hf]] Hl. split; unfold ta_get, getN in *; simpl.
  - rewrite list_lookup_insert_ne by lia. done.
  - apply lookup_lt_is_Some_2. rewrite Hl. by eapply lookup_lt_Some.
Qed.

(** setting a balance through a handle: the value in the cell, and the flags *)
Lemma ba_set_lamports_run ba n t c :
  ta_get (tx_accounts t) (ba_index_in_transaction ba) = Some c →
  is_Some (getN (touched_flags (tx_accounts t)) (ba_index_in_transaction ba)) →
  ba_is_writable ba = true → executable (cell_value c) = false →
  (lamports (cell_value c) ≤ n ∨
   current_program (ba_instruction_context ba) t = Some (owner (cell_value c))) →
  ∃ flags, length flags = length (touched_flags (tx_accounts t)) ∧
    ba_set_lamports ba n t =
    (Ok tt, set_tx_accounts (mkTransactionAccounts
       (<[N.to_nat (ba_index_in_transaction ba) :=
           mkCell (set_lamports n (cell_value c)) (cell_borrowed c)]> (accounts (tx_accounts t))) flags) t).
Proof.
  intros Hc [f Hf] Hw He Hor. unfold ta_get in Hc.
  unfold ba_set_lamports, ba_is_owned_by_current_program, bind, ba_account, asks, gets.
  unfold ta_get. rewrite Hc. simpl. rewrite Hc. simpl.
  assert (negb (is_owned_by (ba_instruction_context ba) t (cell_value c)) &&
    (n <? lamports (cell_value c)) = false) as ->.
  { destruct Hor as [Hle|Ho]; [by rewrite (proj2 (N.ltb_ge _ _) Hle), andb_false_r|].
    by apply is_owned_by_program in Ho as ->. }
  rewrite Hw, He. simpl. destruct (N.eqb_spec (lamports (cell_value c)) n) as [<-|Hne].
  - exists (touched_flags (tx_accounts t)). split; [done|]. unfold ret. f_equal.
    destruct t as [? [cells flags] ? ? ? ? ? ? ?]; simpl in *. unfold set_tx_accounts. simpl. do 2 f_equal.
    rewrite list_insert_id; [done|]. unfold getN in Hc. rewrite Hc. by destruct c as [[] ?].
  - unfold ba_touch, ta_touch. rewrite Hf. simpl.
    eexists. split; [|unfold ba_store, modify, set_cell; simpl; f_equal; unfold set_tx_accounts; simpl;
      do 2 f_equal; symmetry; rewrite <-(insert_alter _ _ _ c Hc); done].
    unfold setN. by rewrite length_insert.
Qed.

Section transfer.
Context `{PubkeyDisplay, Sha256, !Bincode SystemInstruction, !Bincode Versions}.

(** a borrow of a usable account around a change of its balance *)
Lemma with_lamports_run (body : BorrowedAccount → IC unit) ic i ia a n s :
  getN (instruction_accounts ic) i = Some ia → ic_small ic → ia_is_writable ia = true →
  usable (transaction_context s) (index_in_transaction ia) a → executable a = false →
  (lamports a ≤ n ∨ current_program ic (transaction_context s) = Some (owner a)) →
  (∀ s1, at_handle (handle_of ic i ia) (transaction_context s1) = Some a →
     body (handle_of ic i ia) s1 = on_tc (ba_set_lamports (handle_of ic i ia) n) s1) →
  ∃ flags, length flags = length (touched_flags (tx_accounts (transaction_context s))) ∧
    ic_with_account (try_borrow_instruction_account ic i) body s =
    (Ok tt, set_transaction_context (put_account (index_in_transaction ia) (set_lamports n a) flags
              (transaction_context s)) s).
Proof.
  intros Hi Hsm Hw [Hc Hf] He Hor Hbody.
  rewrite (ic_with_account_run _ _ _ _ _ _ Hi Hc eq_refl). cbv zeta.
  set (s1 := set_transaction_context _ s). destruct (handle_flags ic i ia Hsm Hi) as [Hwr _].
  fold (handle_of ic i ia) in Hwr.
  assert (Hc1 : ta_get (tx_accounts (transaction_context s1)) (index_in_transaction ia) =
    Some (mkCell a true)).
  { unfold s1, ta_get, getN in *. simpl. by rewrite list_lookup_alter_eq, Hc. }
  rewrite Hbody; [|unfold at_handle; rewrite vals_lookup;
    change (ba_index_in_transaction (handle_of ic i ia)) with (index_in_transaction ia); by rewrite Hc1].
  destruct (ba_set_lamports_run (handle_of ic i ia) n (transaction_context s1) (mkCell a true))
    as (flags & Hlen & Hrun); [done|done|by rewrite Hwr|done| |].
  { destruct Hor as [?|Ho]; [by left|right]. simpl. rewrite <-Ho. by apply current_program_keys. }
  exists flags. split; [done|]. unfold on_tc. rewrite Hrun. f_equal.
  unfold s1, put_account, drop_borrow, set_cell. destruct s as [[? [cells ?] ? ? ? ? ? ? ?] ? ? ? ? ? ? ? ? ? ?].
  simpl in *. unfold set_transaction_context, set_tx_accounts. simpl. do 3 f_equal.
  unfold ta_get, getN in Hc. simpl in Hc.
  rewrite !list_insert_alter, !list_alter_alter_eq. by apply list_alter_ext.
Qed.

(** what a transfer needs to find *)
Record can_transfer (ic : InstructionContext) (i j amount : N) (s : InvokeContext)
    (ia ja : InstructionAccount) (a b : AccountSharedData) : Prop := {
  ct_running : running ic s;
  ct_from : getN (instruction_accounts ic) i = Some ia;
  ct_to : getN (instruction_accounts ic) j = Some ja;
  ct_signer : ia_is_signer ia = true;
  ct_writable_from : ia_is_writable ia = true;
  ct_writable_to : ia_is_writable ja = true;
  ct_from_account : usable (transaction_context s) (index_in_transaction ia) a;
  ct_to_account : usable (transaction_context s) (index_in_transaction ja) b;
  ct_no_data : data a = [];
  ct_owner : current_program ic (transaction_context s) = Some (owner a);
  ct_executable : executable a = false ∧ executable b = false;
  ct_funds : amount ≤ lamports a;
  ct_no_overflow : lamports b + amount ≤ u64_max }.

Lemma transfer_run ic i j amount s ia ja a b :
  can_transfer ic i j amount s ia ja a b → ∃ s', transfer ic i j amount s = (Ok tt, s').
Proof.
  intros [Hr Hi Hj Hsg Hwi Hwj Ha Hb Hd Ho [Hea Heb] Hle Hov].
  destruct (rn_ok _ _ Hr) as [Hsm _].
  unfold transfer, is_instruction_account_signer. rewrite Hi. simpl. rewrite Hsg.
  unfold bind at 1, lift. simpl. unfold transfer_verified.
  destruct (with_lamports_run (λ from,
    x <- on_tc (ba_account from) ;;
    if negb (len (data x) =? 0) then
      ic_msg "Transfer: `from` must not carry data" ;; throw InvalidArgument
    else if lamports x <? amount then
      ic_msg ("Transfer: insufficient lamports " +:+ pretty (lamports x) +:+ ", need " +:+
              pretty amount) ;; throw (system_error SystemError.ResultWithNegativeLamports)
    else on_tc (ba_checked_sub_lamports from amount)) ic i ia a (lamports a - amount) s)
    as (f1 & Hl1 & H1'); [done..|by right| |].
  { intros s1 Hs1. unfold on_tc at 1, bind at 1. rewrite (ba_account_Some _ _ _ Hs1). simpl.
    rewrite Hd. simpl. rewrite (proj2 (N.ltb_ge _ _) Hle). unfold on_tc, ba_checked_sub_lamports, bind.
    assert (set_transaction_context (transaction_context s1) s1 = s1) as -> by (by destruct s1).
    rewrite (ba_account_Some _ _ _ Hs1). simpl.
    unfold lift, checked_sub. by rewrite (proj2 (N.leb_le _ _) Hle). }
  rewrite (bind_ok _ _ _ _ _ H1').
  set (t1 := put_account _ _ f1 _).
  assert (∃ b1, usable t1 (index_in_transaction ja) b1 ∧ executable b1 = false ∧
    lamports b1 + amount ≤ u64_max) as (b1 & Hu1 & He1 & Hov1).
  { destruct (decide (index_in_transaction ia = index_in_transaction ja)) as [E|E].
    - exists (set_lamports (lamports a - amount) a). rewrite <-E in *.
      split; [by eapply usable_put_eq|]. split; [done|]. simpl.
      destruct Ha as [Ha _], Hb as [Hb _]. rewrite Ha in Hb. simplify_eq. lia.
    - exists b. split; [by apply usable_put_ne|done]. }
  destruct (with_lamports_run (λ to, on_tc (ba_checked_add_lamports to amount)) ic j ja b1
    (lamports b1 + amount) (set_transaction_context t1 s)) as (f2 & _ & H2'); [done..|left; lia| |].
  { intros s1 Hs1. unfold on_tc, ba_checked_add_lamports, bind. rewrite (ba_account_Some _ _ _ Hs1). simpl.
    unfold lift, checked_add. by rewrite (proj2 (N.leb_le _ _) Hov1). }
  rewrite H2'. by eexists.
Qed.
End transfer.
