(* ===== verification/LookupTable.v ===== *)
(** * Address lookup tables

    The tables that version 0 messages name accounts by: their state
    ([sdk/program/src/address_lookup_table/state.rs], [slot_hashes.rs]), the program that
    maintains them ([programs/address-lookup-table/src/processor.rs]), and the lookup of
    the bank ([accounts-db/src/accounts.rs], [runtime/src/bank/address_lookup_table.rs]). *)

From S2P Require Import Prelude Sdk Rent Account Message TransactionContext AccountRules.
From S2P Require Import InstructionRules LogCollector InvokeContext InvokeRules Effects.
From S2P Require Import Nonce SystemProgram.

(** ** Slot hashes ([sdk/program/src/slot_hashes.rs]) *)
Definition MAX_ENTRIES : N := 512.
Definition SlotHashes : Type := list (N * Hash).
(** in falling order: the position of the slot, or where it belongs *)
Definition slot_search (slot : N) (l : SlotHashes) : N + N := binary_search_by (λ x, slot ?= x.1) l.
Definition slot_hashes_add (slot : N) (hash : Hash) (l : SlotHashes) : SlotHashes :=
  take (N.to_nat MAX_ENTRIES)
    (match slot_search slot l with
     | inl i => <[N.to_nat i := (slot, hash)]> l
     | inr i => take (N.to_nat i) l ++ (slot, hash) :: drop (N.to_nat i) l
     end).
Definition slot_hashes_position (slot : N) (l : SlotHashes) : option N :=
  match slot_search slot l with inl i => Some i | inr _ => None end.
Definition slot_hashes_get (slot : N) (l : SlotHashes) : option Hash :=
  i ← slot_hashes_position slot l; snd <$> getN l i.

(** ** The state of a table *)
Definition LOOKUP_TABLE_MAX_ADDRESSES : N := 256.
Definition LOOKUP_TABLE_META_SIZE : N := 56.
Inductive LookupTableStatus := Activated | Deactivating (remaining_blocks : N) | Deactivated.
Record LookupTableMeta := mkLookupTableMeta {
  deactivation_slot : N;
  last_extended_slot : N;
  last_extended_slot_start_index : N;
  lt_authority : option Pubkey;
  lt_padding : N }.
Definition lookup_table_meta_default : LookupTableMeta := mkLookupTableMeta u64_max 0 0 None 0.
Definition lookup_table_meta_new (authority : Pubkey) : LookupTableMeta :=
  mkLookupTableMeta u64_max 0 0 (Some authority) 0.
(** [ProgramState] *)
Inductive LookupTableState := TableUninitialized | LookupTable (meta : LookupTableMeta).

Definition table_status (meta : LookupTableMeta) (current_slot : N) (slot_hashes : SlotHashes) :
  LookupTableStatus :=
  if deactivation_slot meta =? u64_max then Activated else
  if deactivation_slot meta =? current_slot then Deactivating (saturating_add u64_max MAX_ENTRIES 1) else
  match slot_hashes_position (deactivation_slot meta) slot_hashes with
  | Some slot_hash_position => Deactivating (saturating_sub MAX_ENTRIES slot_hash_position)
  | None => Deactivated
  end.
Definition table_is_active (meta : LookupTableMeta) (current_slot : N) (slot_hashes : SlotHashes) : bool :=
  match table_status meta current_slot slot_hashes with
  | Activated => true | Deactivating _ => true | Deactivated => false
  end.

Record AddressLookupTable := mkAddressLookupTable {
  table_meta : LookupTableMeta; table_addresses : list Pubkey }.
Inductive AddressLookupError :=
| LookupTableAccountNotFound | LookupInvalidAccountOwner | LookupInvalidAccountData | InvalidLookupIndex.

Definition get_active_addresses_len (t : AddressLookupTable) (current_slot : N) (slot_hashes : SlotHashes) :
  result AddressLookupError N :=
  if negb (table_is_active (table_meta t) current_slot slot_hashes) then Err LookupTableAccountNotFound else
  Ok (if last_extended_slot (table_meta t) <? current_slot then len (table_addresses t)
      else last_extended_slot_start_index (table_meta t)).
(** slicing the addresses beyond their end panics *)
Definition table_lookup (t : AddressLookupTable) (current_slot : N) (indexes : list N) (slot_hashes : SlotHashes) :
  result AddressLookupError (list Pubkey) :=
  let! active_addresses_len := get_active_addresses_len t current_slot slot_hashes in
  if len (table_addresses t) <? active_addresses_len then Panic else
  let active_addresses := take (N.to_nat active_addresses_len) (table_addresses t) in
  ok_or (mapM (λ idx, getN active_addresses idx) indexes) InvalidLookupIndex.

Section table.
Context `{!Bincode LookupTableState}.

(** the bytes afterwards, also when the encoding fails after they were zeroed; an encoding
    that is too long is written as far as it fits *)
Definition overwrite_meta_data (d : list N) (meta : LookupTableMeta) : list N * result InstructionError unit :=
  if len d <? LOOKUP_TABLE_META_SIZE then (d, Err InvalidAccountData) else
  let rest := drop (N.to_nat LOOKUP_TABLE_META_SIZE) d in
  let zeros := replicate (N.to_nat LOOKUP_TABLE_META_SIZE) 0 in
  match serialize (LookupTable meta) with
  | Some bs => if LOOKUP_TABLE_META_SIZE <? len bs then (overwrite (take (length zeros) bs) zeros ++ rest, Err GenericError)
               else (overwrite bs zeros ++ rest, Ok tt)
  | None => (zeros ++ rest, Err GenericError)
  end.
(** [bytemuck::try_cast_slice] to arrays of 32 bytes *)
Fixpoint chunk_keys (n : nat) (d : list N) : list Pubkey :=
  match n with O => [] | S n' => mkPubkey (take 32 d) :: chunk_keys n' (drop 32 d) end.
Definition cast_keys (d : list N) : option (list Pubkey) :=
  if (len d `mod` 32 =? 0) then Some (chunk_keys (length d / 32) d) else None.
Definition table_deserialize (d : list N) : result InstructionError AddressLookupTable :=
  let! program_state := ok_or (deserialize d) InvalidAccountData in
  let! meta := (match program_state with
                | LookupTable meta => Ok meta
                | TableUninitialized => Err UninitializedAccount
                end) in
  if len d <? LOOKUP_TABLE_META_SIZE then Err InvalidAccountData else
  let! addresses := ok_or (cast_keys (drop (N.to_nat LOOKUP_TABLE_META_SIZE) d)) InvalidAccountData in
  Ok (mkAddressLookupTable meta addresses).
Definition serialize_for_tests (t : AddressLookupTable) : result InstructionError (list N) :=
  let '(d, r) := overwrite_meta_data (replicate (N.to_nat LOOKUP_TABLE_META_SIZE) 0) (table_meta t) in
  check! r in
  Ok (d ++ concat (to_bytes <$> table_addresses t)).
End table.

(** ** Program-derived addresses ([sdk/program/src/pubkey.rs]) *)

(** [curve25519_dalek]: whether the bytes are a point of the curve *)
Class Curve25519 := bytes_are_curve_point : list N → bool.
Definition MAX_SEEDS : N := 16.
Definition create_program_address `{Sha256, Curve25519} (seeds : list (list N)) (program_id : Pubkey) :
  result PubkeyError.t Pubkey :=
  if MAX_SEEDS <? len seeds then Err PubkeyError.MaxSeedLengthExceeded else
  if existsb (λ seed, MAX_SEED_LEN <? len seed) seeds then Err PubkeyError.MaxSeedLengthExceeded else
  let hash := hashv (seeds ++ [to_bytes program_id; PDA_MARKER]) in
  if bytes_are_curve_point (hash_bytes hash) then Err PubkeyError.InvalidSeeds
  else Ok (mkPubkey (hash_bytes hash)).

(** the seed is counted down from 255; the last one tried is 1 *)
Fixpoint find_bump `{Sha256, Curve25519} (tries : nat) (bump_seed : N) (seeds : list (list N))
    (program_id : Pubkey) : option (Pubkey * N) :=
  match tries with
  | O => None
  | S tries' =>
      match create_program_address (seeds ++ [[bump_seed]]) program_id with
      | Ok address => Some (address, bump_seed)
      | Err PubkeyError.InvalidSeeds => find_bump tries' (bump_seed - 1) seeds program_id
      | _ => None
      end
  end.
Definition try_find_program_address `{Sha256, Curve25519} (seeds : list (list N)) (program_id : Pubkey) :
  option (Pubkey * N) := find_bump (N.to_nat u8_max) u8_max seeds program_id.
Definition find_program_address `{Sha256, Curve25519} {E} (seeds : list (list N)) (program_id : Pubkey) :
  result E (Pubkey * N) := unwrap (try_find_program_address seeds program_id).

(** ** The program *)
Definition lookup_table_program_id : Pubkey :=
  pubkey_of_N 0x277a6af97339b7ac88d1892c90446f50002309266f62e53c118244982000000.
Definition relax_authority_signer_check_id : Pubkey :=
  pubkey_of_N 0xd4aaef534b5aa1ad90f849b91345253c4c394628b4b6b4fa410db51ea14fa8f5.
Definition LOOKUP_TABLE_COMPUTE_UNITS : N := 750.
(** [ProgramInstruction] *)
Inductive LookupTableInstruction :=
| CreateLookupTable (recent_slot bump_seed : N)
| FreezeLookupTable
| ExtendLookupTable (new_addresses : list Pubkey)
| DeactivateLookupTable
| CloseLookupTable.

(** [?] in a program, on an action and on an invocation *)
Definition try_act {B} (m : IC B) (k : B → program) : program :=
  Act m (λ r, match r with
              | Ok x => k x
              | Err e => Return (Err (InstructionErr e))
              | Panic => Return Panic
              end).
Definition try_invoke (instruction : result InstructionError Instruction) (signers : list Pubkey) (k : program) :
  program :=
  match instruction with
  | Ok instruction =>
      Invoke instruction signers (λ r, match r with Ok _ => k | r => Return (to_builtin_result r) end)
  | Err e => Return (Err (InstructionErr e))
  | Panic => Return Panic
  end.

Section program.
Context `{PubkeyDisplay, Sha256, Curve25519, !Bincode LookupTableState, !Bincode LookupTableInstruction,
  !Bincode SystemInstruction}.

(** [system_instruction::transfer], [allocate] and [assign] *)
Definition system_instruction_of {E} (instruction : SystemInstruction) (metas : list AccountMeta) :
  result E Instruction :=
  let! bytes := unwrap (serialize instruction) in
  Ok (mkInstruction system_program_id metas bytes).
Definition transfer_instruction {E} (from to : Pubkey) (lamports : N) : result E Instruction :=
  system_instruction_of (Transfer lamports) [meta_new from true; meta_new to false].
Definition allocate_instruction {E} (key : Pubkey) (space : N) : result E Instruction :=
  system_instruction_of (Allocate space) [meta_new key true].
Definition assign_instruction {E} (key owner_ : Pubkey) : result E Instruction :=
  system_instruction_of (Assign owner_) [meta_new key true].

(** the checks that the instructions on a table begin with *)
Definition check_table_owner (ic : InstructionContext) : IC unit :=
  with_instruction_account ic 0 (λ lookup_table_account,
    a <- on_tc (ba_account lookup_table_account) ;;
    if negb (key_eqb (owner a) lookup_table_program_id) then throw InvalidAccountOwner else ret tt).
Definition signing_key (ic : InstructionContext) (index : N) (who : string) : IC Pubkey :=
  with_instruction_account ic index (λ account,
    key <- on_tc (ba_get_key account) ;;
    if negb (ba_is_signer account) then
      ic_msg (who +:+ " account must be a signer") ;;
      throw MissingRequiredSignature
    else ret key).
(** [AddressLookupTable::overwrite_meta_data(account.get_data_mut()?, meta)?] *)
Definition write_meta (account : BorrowedAccount) (meta : LookupTableMeta) : IC unit :=
  on_tc (d <- ba_get_data_mut account ;;
         a <- ba_account account ;;
         ba_store account (set_data (overwrite_meta_data d meta).1 a) ;;
         lift (overwrite_meta_data d meta).2).

(** what is to be paid by whom, or nothing if the table exists *)
Definition create_lookup_table_checks (untrusted_recent_slot bump_seed : N) :
  IC (option (Pubkey * Pubkey * Pubkey * N)) :=
  ic <- asks_tc get_current_instruction_context ;;
  relaxed <- gets (λ s, bool_decide (relax_authority_signer_check_id ∈ feature_set s)) ;;
  table <- with_instruction_account ic 0 (λ lookup_table_account,
    a <- on_tc (ba_account lookup_table_account) ;;
    table_key <- on_tc (ba_get_key lookup_table_account) ;;
    if negb relaxed && negb (bool_decide (data a = [])) then
      ic_msg "Table account must not be allocated" ;;
      throw AccountAlreadyInitialized
    else ret (table_key, lamports a, owner a)) ;;
  authority_key <- with_instruction_account ic 1 (λ authority_account,
    key <- on_tc (ba_get_key authority_account) ;;
    if negb relaxed && negb (ba_is_signer authority_account) then
      ic_msg "Authority account must be a signer" ;;
      throw MissingRequiredSignature
    else ret key) ;;
  payer_key <- signing_key ic 2 "Payer" ;;
  slot_hashes <- asks (λ s, get_slot_hashes (sysvar_cache s)) ;;
  derivation_slot <-
    (match slot_hashes_get untrusted_recent_slot slot_hashes with
     | Some _ => ret untrusted_recent_slot
     | None =>
         ic_msg (pretty untrusted_recent_slot +:+ " is not a recent slot") ;;
         throw InvalidInstructionData
     end) ;;
  derived_table_key <- lift (from_pubkey_error
    (create_program_address [to_bytes authority_key; le_bytes 8 derivation_slot; [bump_seed]] lookup_table_program_id)) ;;
  let '(table_key, lookup_table_lamports, lookup_table_owner) := table in
  if negb (key_eqb table_key derived_table_key) then
    ic_msg ("Table address must match derived address: " +:+ pubkey_to_string derived_table_key) ;;
    throw InvalidArgument
  else
  if relaxed && key_eqb lookup_table_owner lookup_table_program_id then ret None else
  r <- asks (λ s, get_rent (sysvar_cache s)) ;;
  ret (Some (table_key, authority_key, payer_key,
             saturating_sub (N.max (minimum_balance r LOOKUP_TABLE_META_SIZE) 1) lookup_table_lamports)).
Definition create_lookup_table (untrusted_recent_slot bump_seed : N) : program :=
  try_act (create_lookup_table_checks untrusted_recent_slot bump_seed) (λ x,
    match x with
    | None => Return (Ok tt)
    | Some (table_key, authority_key, payer_key, required_lamports) =>
        let rest :=
          try_invoke (allocate_instruction table_key LOOKUP_TABLE_META_SIZE) [table_key]
            (try_invoke (assign_instruction table_key lookup_table_program_id) [table_key]
               (try_act
                  (ic <- asks_tc get_current_instruction_context ;;
                   with_instruction_account ic 0 (λ lookup_table_account,
                     on_tc (ba_set_state lookup_table_account (LookupTable (lookup_table_meta_new authority_key)))))
                  (λ _, Return (Ok tt)))) in
        if 0 <? required_lamports
        then try_invoke (transfer_instruction payer_key table_key required_lamports) [payer_key] rest
        else rest
    end).

Definition freeze_lookup_table : IC unit :=
  ic <- asks_tc get_current_instruction_context ;;
  check_table_owner ic ;;
  authority_key <- signing_key ic 1 "Authority" ;;
  with_instruction_account ic 0 (λ lookup_table_account,
    a <- on_tc (ba_account lookup_table_account) ;;
    lookup_table <- lift (table_deserialize (data a)) ;;
    let meta := table_meta lookup_table in
    match lt_authority meta with
    | None => ic_msg "Lookup table is already frozen" ;; throw Immutable
    | Some authority =>
        if negb (key_eqb authority authority_key) then throw IncorrectAuthority else
        if negb (deactivation_slot meta =? u64_max) then
          ic_msg "Deactivated tables cannot be frozen" ;; throw InvalidArgument
        else
        if bool_decide (table_addresses lookup_table = []) then
          ic_msg "Empty lookup tables cannot be frozen" ;; throw InvalidInstructionData
        else
        write_meta lookup_table_account
          (mkLookupTableMeta (deactivation_slot meta) (last_extended_slot meta)
             (last_extended_slot_start_index meta) None (lt_padding meta))
    end).

(** the part up to the payment: the table, and what it lacks *)
Definition extend_lookup_table_write (new_addresses : list Pubkey) : IC (option (Pubkey * Pubkey * N)) :=
  ic <- asks_tc get_current_instruction_context ;;
  check_table_owner ic ;;
  authority_key <- signing_key ic 1 "Authority" ;;
  x <- with_instruction_account ic 0 (λ lookup_table_account,
    a <- on_tc (ba_account lookup_table_account) ;;
    table_key <- on_tc (ba_get_key lookup_table_account) ;;
    lookup_table <- lift (table_deserialize (data a)) ;;
    let meta := table_meta lookup_table in
    match lt_authority meta with
    | None => throw Immutable
    | Some authority =>
        if negb (key_eqb authority authority_key) then throw IncorrectAuthority else
        if negb (deactivation_slot meta =? u64_max) then
          ic_msg "Deactivated tables cannot be extended" ;; throw InvalidArgument
        else
        let old_len := len (table_addresses lookup_table) in
        if LOOKUP_TABLE_MAX_ADDRESSES <=? old_len then
          ic_msg "Lookup table is full and cannot contain more addresses" ;; throw InvalidArgument
        else
        if bool_decide (new_addresses = []) then
          ic_msg "Must extend with at least one address" ;; throw InvalidInstructionData
        else
        let new_table_addresses_len := saturating_add u64_max old_len (len new_addresses) in
        if LOOKUP_TABLE_MAX_ADDRESSES <? new_table_addresses_len then
          ic_msg ("Extended lookup table length " +:+ pretty new_table_addresses_len +:+
                  " would exceed max capacity of " +:+ pretty LOOKUP_TABLE_MAX_ADDRESSES) ;;
          throw InvalidInstructionData
        else
        clock <- asks (λ s, get_clock (sysvar_cache s)) ;;
        lookup_table_meta <-
          (if clock_slot clock =? last_extended_slot meta then ret meta
           else if u8_max <? old_len then throw InvalidAccountData
           else ret (mkLookupTableMeta (deactivation_slot meta) (clock_slot clock) old_len
                       (lt_authority meta) (lt_padding meta))) ;;
        new_table_data_len <- lift (ok_or (checked_add u64_max LOOKUP_TABLE_META_SIZE
          (N.min u64_max (new_table_addresses_len * PUBKEY_BYTES))) ArithmeticOverflow) ;;
        write_meta lookup_table_account lookup_table_meta ;;
        for_each new_addresses (λ new_address,
          on_tc (ba_extend_from_slice lookup_table_account (to_bytes new_address))) ;;
        ret (table_key, lamports a, new_table_data_len)
    end) ;;
  r <- asks (λ s, get_rent (sysvar_cache s)) ;;
  let '(table_key, lookup_table_lamports, new_table_data_len) := x in
  let required_lamports :=
    saturating_sub (N.max (minimum_balance r new_table_data_len) 1) lookup_table_lamports in
  if 0 <? required_lamports then
    payer_key <- signing_key ic 2 "Payer" ;;
    ret (Some (table_key, payer_key, required_lamports))
  else ret None.
Definition extend_lookup_table (new_addresses : list Pubkey) : program :=
  try_act (extend_lookup_table_write new_addresses) (λ x,
    match x with
    | None => Return (Ok tt)
    | Some (table_key, payer_key, required_lamports) =>
        try_invoke (transfer_instruction payer_key table_key required_lamports) [payer_key] (Return (Ok tt))
    end).

Definition deactivate_lookup_table : IC unit :=
  ic <- asks_tc get_current_instruction_context ;;
  check_table_owner ic ;;
  authority_key <- signing_key ic 1 "Authority" ;;
  with_instruction_account ic 0 (λ lookup_table_account,
    a <- on_tc (ba_account lookup_table_account) ;;
    lookup_table <- lift (table_deserialize (data a)) ;;
    let meta := table_meta lookup_table in
    match lt_authority meta with
    | None => ic_msg "Lookup table is frozen" ;; throw Immutable
    | Some authority =>
        if negb (key_eqb authority authority_key) then throw IncorrectAuthority else
        if negb (deactivation_slot meta =? u64_max) then
          ic_msg "Lookup table is already deactivated" ;; throw InvalidArgument
        else
        clock <- asks (λ s, get_clock (sysvar_cache s)) ;;
        write_meta lookup_table_account
          (mkLookupTableMeta (clock_slot clock) (last_extended_slot meta)
             (last_extended_slot_start_index meta) (lt_authority meta) (lt_padding meta))
    end).

Definition close_lookup_table : IC unit :=
  ic <- asks_tc get_current_instruction_context ;;
  check_table_owner ic ;;
  authority_key <- signing_key ic 1 "Authority" ;;
  lift (check_number_of_instruction_accounts ic 3) ;;
  index0 <- lift (get_index_of_instruction_account_in_transaction ic 0) ;;
  index2 <- lift (get_index_of_instruction_account_in_transaction ic 2) ;;
  if index0 =? index2 then
    ic_msg "Lookup table cannot be the recipient of reclaimed lamports" ;; throw InvalidArgument
  else
  withdrawn_lamports <- with_instruction_account ic 0 (λ lookup_table_account,
    a <- on_tc (ba_account lookup_table_account) ;;
    lookup_table <- lift (table_deserialize (data a)) ;;
    let meta := table_meta lookup_table in
    match lt_authority meta with
    | None => ic_msg "Lookup table is frozen" ;; throw Immutable
    | Some authority =>
        if negb (key_eqb authority authority_key) then throw IncorrectAuthority else
        clock <- asks (λ s, get_clock (sysvar_cache s)) ;;
        slot_hashes <- asks (λ s, get_slot_hashes (sysvar_cache s)) ;;
        match table_status meta (clock_slot clock) slot_hashes with
        | Activated => ic_msg "Lookup table is not deactivated" ;; throw InvalidArgument
        | Deactivating remaining_blocks =>
            ic_msg ("Table cannot be closed until it's fully deactivated in " +:+ pretty remaining_blocks +:+
                    " blocks") ;;
            throw InvalidArgument
        | Deactivated => ret (lamports a)
        end
    end) ;;
  with_instruction_account ic 2 (λ recipient_account,
    on_tc (ba_checked_add_lamports recipient_account withdrawn_lamports)) ;;
  with_instruction_account ic 0 (λ lookup_table_account,
    on_tc (ba_set_data_length lookup_table_account 0) ;;
    on_tc (ba_set_lamports lookup_table_account 0)).

Definition lookup_table_dispatch (instruction : LookupTableInstruction) : program :=
  match instruction with
  | CreateLookupTable recent_slot bump_seed => create_lookup_table recent_slot bump_seed
  | FreezeLookupTable => try_act freeze_lookup_table (λ _, Return (Ok tt))
  | ExtendLookupTable new_addresses => extend_lookup_table new_addresses
  | DeactivateLookupTable => try_act deactivate_lookup_table (λ _, Return (Ok tt))
  | CloseLookupTable => try_act close_lookup_table (λ _, Return (Ok tt))
  end.
(** [declare_process_instruction!] *)
Definition lookup_table_entrypoint : program :=
  try_act (consume_checked LOOKUP_TABLE_COMPUTE_UNITS) (λ _,
    try_act (ic <- asks_tc get_current_instruction_context ;; lift (limited_deserialize (instruction_data ic)))
      lookup_table_dispatch).
End program.

(** ** Lookups by the bank *)
Section bank_lookup.
Context `{!Bincode LookupTableState}.

(** [load] is [accounts_db.load_with_fixed_root] over the bank's ancestors, and
    [current_slot] is their highest slot *)
Definition load_lookup_table_addresses (load : Pubkey → option AccountSharedData) (current_slot : N)
    (lookup : MessageAddressTableLookup) (slot_hashes : SlotHashes) : result AddressLookupError LoadedAddresses :=
  let! table_account := ok_or (load (lookup_account_key lookup)) LookupTableAccountNotFound in
  if key_eqb (owner table_account) lookup_table_program_id then
    let! lookup_table := map_err LookupInvalidAccountData (table_deserialize (data table_account)) in
    let! writable := table_lookup lookup_table current_slot (writable_indexes lookup) slot_hashes in
    let! readonly := table_lookup lookup_table current_slot (readonly_indexes lookup) slot_hashes in
    Ok (mkLoadedAddresses writable readonly)
  else Err LookupInvalidAccountOwner.

Inductive AddressLoaderError :=
| LoaderDisabled | SlotHashesSysvarNotFound | LoaderLookupTableAccountNotFound | LoaderInvalidAccountOwner
| LoaderInvalidAccountData | LoaderInvalidLookupIndex.
(** [From<AddressLookupError>] *)
Definition from_lookup_error (e : AddressLookupError) : AddressLoaderError :=
  match e with
  | LookupTableAccountNotFound => LoaderLookupTableAccountNotFound
  | LookupInvalidAccountOwner => LoaderInvalidAccountOwner
  | LookupInvalidAccountData => LoaderInvalidAccountData
  | InvalidLookupIndex => LoaderInvalidLookupIndex
  end.
(** [AddressLoader for &Bank] *)
Definition load_addresses (load : Pubkey → option AccountSharedData) (current_slot : N) (cache : SysvarCache)
    (lookups : list MessageAddressTableLookup) : result AddressLoaderError LoadedAddresses :=
  let! slot_hashes := map_err SlotHashesSysvarNotFound (get_slot_hashes cache) in
  match rmapM (λ lookup, load_lookup_table_addresses load current_slot lookup slot_hashes) lookups with
  | Ok loaded => Ok (loaded_addresses_collect loaded)
  | Err e => Err (from_lookup_error e)
  | Panic => Panic
  end.
(** [From<AddressLoaderError> for TransactionError] *)
Definition from_loader_error (e : AddressLoaderError) : TransactionError.t :=
  match e with
  | LoaderDisabled => TransactionError.UnsupportedVersion
  | SlotHashesSysvarNotFound => TransactionError.AccountNotFound
  | LoaderLookupTableAccountNotFound => TransactionError.AddressLookupTableNotFound
  | LoaderInvalidAccountOwner => TransactionError.InvalidAddressLookupTableOwner
  | LoaderInvalidAccountData => TransactionError.InvalidAddressLookupTableData
  | LoaderInvalidLookupIndex => TransactionError.InvalidAddressLookupTableIndex
  end.
End bank_lookup.

(** ** The instructions as clients build them ([instruction.rs]) *)
Module Client.
Section client.
Context `{Sha256, Curve25519, !Bincode LookupTableInstruction} {E : Type}.

Definition derive_lookup_table_address (authority_address : Pubkey) (recent_block_slot : N) :
  result E (Pubkey * N) :=
  find_program_address [to_bytes authority_address; le_bytes 8 recent_block_slot] lookup_table_program_id.
Definition new_with_bincode (instruction : LookupTableInstruction) (accounts : list AccountMeta) :
  result E Instruction :=
  let! bytes := unwrap (serialize instruction) in
  Ok (mkInstruction lookup_table_program_id accounts bytes).
Definition create_lookup_table_common (authority_address payer_address : Pubkey) (recent_slot : N)
    (authority_is_signer : bool) : result E (Instruction * Pubkey) :=
  let! derived := derive_lookup_table_address authority_address recent_slot in
  let! instruction := new_with_bincode (CreateLookupTable recent_slot derived.2)
    [meta_new derived.1 false; meta_new_readonly authority_address authority_is_signer;
     meta_new payer_address true; meta_new_readonly system_program_id false] in
  Ok (instruction, derived.1).
Definition create_lookup_table_signed (authority_address payer_address : Pubkey) (recent_slot : N) :=
  create_lookup_table_common authority_address payer_address recent_slot true.
Definition create_lookup_table_unsigned (authority_address payer_address : Pubkey) (recent_slot : N) :=
  create_lookup_table_common authority_address payer_address recent_slot false.
Definition freeze_table_instruction (table authority_address : Pubkey) : result E Instruction :=
  new_with_bincode FreezeLookupTable [meta_new table false; meta_new_readonly authority_address true].
Definition extend_table_instruction (table authority_address : Pubkey) (payer_address : option Pubkey)
    (new_addresses : list Pubkey) : result E Instruction :=
  new_with_bincode (ExtendLookupTable new_addresses)
    ([meta_new table false; meta_new_readonly authority_address true] ++
     match payer_address with
     | Some payer_address => [meta_new payer_address true; meta_new_readonly system_program_id false]
     | None => []
     end).
Definition deactivate_table_instruction (table authority_address : Pubkey) : result E Instruction :=
  new_with_bincode DeactivateLookupTable [meta_new table false; meta_new_readonly authority_address true].
Definition close_table_instruction (table authority_address recipient_address : Pubkey) : result E Instruction :=
  new_with_bincode CloseLookupTable
    [meta_new table false; meta_new_readonly authority_address true; meta_new recipient_address false].
End client.
End Client.
