(* ===== verification/LookupTableRules.v ===== *)
(** * Theory of address lookup tables

    The program is lawful, and it keeps what a lookup has returned: addresses that
    transactions resolve stay the same through every later instruction on the table. *)

From S2P Require Import Prelude Sdk Rent Account Message TransactionContext AccountRules.
From S2P Require Import InstructionRules LogCollector InvokeContext InvokeRules Effects.
From S2P Require Import Nonce SystemProgram LookupTable.

(** ** Lawfulness *)
Section frames.
Context `{PubkeyDisplay, Sha256, Curve25519, !Bincode LookupTableState}.
Context (ic : InstructionContext).

Abbreviation ok m := (steps_in (running ic) (ic_frame ic) m).

Lemma write_meta_frame ba meta : handle_in ic ba → ok (write_meta ba meta).
Proof.
  intros Hba. apply (handle_op_frame _ ic ba Hba). intros t.
  apply (ba_get_data_mut_store_then ba t (λ d, (overwrite_meta_data d meta).1)
           (λ d, (overwrite_meta_data d meta).2)).
Qed.
Lemma ic_extend_frame ba d : handle_in ic ba → ok (on_tc (ba_extend_from_slice ba d)).
Proof. intros Hba. apply (handle_op_frame _ ic ba Hba), ba_extend_from_slice_frame. Qed.
#[local] Hint Resolve write_meta_frame ic_extend_frame : frame.

Context (Hsm : ic_small ic).
#[local] Hint Extern 2 (steps_in _ _ (ic_with_account _ _)) =>
  (apply ic_with_handle_frame; [exact Hsm|intros ? ?; frame_solve]) : frame.
#[local] Hint Extern 2 (steps_in _ _ (with_instruction_account _ _ _)) =>
  (unfold with_instruction_account) : frame.

Lemma check_table_owner_frame : ok (check_table_owner ic).
Proof. unfold check_table_owner. frame_solve. Qed.
Lemma signing_key_frame i who : ok (signing_key ic i who).
Proof. unfold signing_key. frame_solve. Qed.
#[local] Hint Resolve check_table_owner_frame signing_key_frame : frame.

Lemma create_checks_frame slot bump : ok (create_lookup_table_checks slot bump).
Proof. apply steps_current; [done|]. frame_solve. Qed.
Lemma create_write_frame state :
  ok (ic <- asks_tc get_current_instruction_context ;;
      with_instruction_account ic 0 (λ ba, on_tc (ba_set_state ba (T:=LookupTableState) state))).
Proof. apply steps_current; [done|]. frame_solve. Qed.
Lemma freeze_frame : ok freeze_lookup_table.
Proof. apply steps_current; [done|]. frame_solve. Qed.
Lemma extend_write_frame addresses : ok (extend_lookup_table_write addresses).
Proof. apply steps_current; [done|]. cbv zeta. frame_solve. Qed.
Lemma deactivate_frame : ok deactivate_lookup_table.
Proof. apply steps_current; [done|]. frame_solve. Qed.
Lemma close_frame : ok close_lookup_table.
Proof. apply steps_current; [done|]. frame_solve. Qed.
End frames.

(** [running] gives the bound that the handles need *)
Lemma steps_small {A} ic (m : IC A) :
  (ic_small ic → steps_in (running ic) (ic_frame ic) m) → steps_in (running ic) (ic_frame ic) m.
Proof. intros Hm s Hs. destruct (rn_ok _ _ Hs) as [Hsm _]. by apply Hm. Qed.

Lemma try_act_lawful {B} ic (m : IC B) k :
  (ic_small ic → steps_in (running ic) (ic_frame ic) m) → (∀ x, lawful ic (k x)) →
  lawful ic (try_act m k).
Proof. intros Hm Hk. split; [by apply steps_small|]. by intros [x| |]; simpl. Qed.

Section lawful_program.
Context `{PubkeyDisplay, Sha256, Curve25519, !Bincode LookupTableState, !Bincode LookupTableInstruction,
  !Bincode SystemInstruction}.

Lemma try_invoke_lawful ic instruction metas signers k :
  len metas < u16_max → lawful ic k →
  lawful ic (try_invoke (system_instruction_of instruction metas) signers k).
Proof.
  intros Hlen Hk. unfold system_instruction_of.
  destruct (serialize instruction) as [bytes|]; simpl; [|done].
  split; [done|]. by intros [[]| |]; simpl.
Qed.

Lemma create_lookup_table_lawful ic slot bump : lawful ic (create_lookup_table slot bump).
Proof.
  apply try_act_lawful; [intros Hsm; by apply create_checks_frame|].
  intros [[[[table_key authority_key] payer_key] required]|]; [|done].
  assert (Hrest : lawful ic (try_invoke (allocate_instruction table_key LOOKUP_TABLE_META_SIZE) [table_key]
    (try_invoke (assign_instruction table_key lookup_table_program_id) [table_key]
      (try_act (ic <- asks_tc get_current_instruction_context ;;
                with_instruction_account ic 0 (λ ba,
                  on_tc (ba_set_state ba (LookupTable (lookup_table_meta_new authority_key)))))
         (λ _, Return (Ok tt)))))).
  { do 2 (apply try_invoke_lawful; [done|]). apply try_act_lawful; [intros Hsm; by apply create_write_frame|done]. }
  cbv zeta. destruct (0 <? required); [|done]. by apply try_invoke_lawful.
Qed.
Lemma extend_lookup_table_lawful ic addresses : lawful ic (extend_lookup_table addresses).
Proof.
  apply try_act_lawful; [intros Hsm; by apply extend_write_frame|].
  intros [[[table_key payer_key] required]|]; [|done]. by apply try_invoke_lawful.
Qed.

Lemma lookup_table_lawful ic : lawful ic lookup_table_entrypoint.
Proof.
  apply try_act_lawful; [intros _; frame_solve|]. intros _.
  apply try_act_lawful; [intros _; frame_solve|].
  intros [slot bump| |addresses| |]; simpl lookup_table_dispatch.
  - apply create_lookup_table_lawful.
  - apply try_act_lawful; [intros Hsm; by apply freeze_frame|done].
  - apply extend_lookup_table_lawful.
  - apply try_act_lawful; [intros Hsm; by apply deactivate_frame|done].
  - apply try_act_lawful; [intros Hsm; by apply close_frame|done].
Qed.
End lawful_program.

(** ** Derived addresses *)

(** the address a client derives is the one the program derives from the bump it is sent *)
Lemma find_bump_derives `{Sha256, Curve25519} seeds program_id tries : ∀ bump k b,
  find_bump tries bump seeds program_id = Some (k, b) →
  create_program_address (seeds ++ [[b]]) program_id = Ok k ∧ b ≤ bump.
Proof.
  induction tries as [|tries IH]; intros bump k b; simpl; [done|].
  destruct (create_program_address _ _) as [address|[]|] eqn:Hc; try done.
  - intros [= -> ->]. by split.
  - intros [? ?]%IH. split; [done|lia].
Qed.
Lemma client_derives `{Sha256, Curve25519} {E} authority slot k b :
  Client.derive_lookup_table_address (E:=E) authority slot = Ok (k, b) →
  create_program_address [to_bytes authority; le_bytes 8 slot; [b]] lookup_table_program_id = Ok k ∧
  b ≤ u8_max.
Proof.
  unfold Client.derive_lookup_table_address, find_program_address, try_find_program_address, unwrap.
  destruct (find_bump _ _ _ _) as [x|] eqn:Hf; [|done]. intros [= ->].
  by apply find_bump_derives in Hf.
Qed.

(** ** What the instructions do to a table

    The abstract contract: an instruction at [slot] freezes, extends or deactivates. *)
Definition with_authority (authority : option Pubkey) (m : LookupTableMeta) : LookupTableMeta :=
  mkLookupTableMeta (deactivation_slot m) (last_extended_slot m) (last_extended_slot_start_index m)
    authority (lt_padding m).
Definition with_deactivation (slot : N) (m : LookupTableMeta) : LookupTableMeta :=
  mkLookupTableMeta slot (last_extended_slot m) (last_extended_slot_start_index m)
    (lt_authority m) (lt_padding m).
Definition extended_at (slot old_len : N) (m : LookupTableMeta) : LookupTableMeta :=
  if slot =? last_extended_slot m then m
  else mkLookupTableMeta (deactivation_slot m) slot old_len (lt_authority m) (lt_padding m).

Inductive table_step (signer : Pubkey) (slot : N) (t : AddressLookupTable) : AddressLookupTable → Prop :=
| step_freeze :
    lt_authority (table_meta t) = Some signer → deactivation_slot (table_meta t) = u64_max →
    table_addresses t ≠ [] →
    table_step signer slot t (mkAddressLookupTable (with_authority None (table_meta t)) (table_addresses t))
| step_extend new_addresses :
    lt_authority (table_meta t) = Some signer → deactivation_slot (table_meta t) = u64_max →
    new_addresses ≠ [] → len (table_addresses t ++ new_addresses) ≤ LOOKUP_TABLE_MAX_ADDRESSES →
    table_step signer slot t
      (mkAddressLookupTable (extended_at slot (len (table_addresses t)) (table_meta t))
         (table_addresses t ++ new_addresses))
| step_deactivate :
    lt_authority (table_meta t) = Some signer → deactivation_slot (table_meta t) = u64_max →
    table_step signer slot t
      (mkAddressLookupTable (with_deactivation slot (table_meta t)) (table_addresses t)).

(** at [slot], the addresses of the slot of the last extension are at the end *)
Record table_ok (slot : N) (t : AddressLookupTable) : Prop := {
  tok_start : last_extended_slot_start_index (table_meta t) ≤ len (table_addresses t);
  tok_slot : last_extended_slot (table_meta t) ≤ slot }.

Lemma table_ok_later slot slot' t : slot ≤ slot' → table_ok slot t → table_ok slot' t.
Proof. intros Hs []. split; lia. Qed.

Lemma table_step_ok signer slot t t' : table_step signer slot t t' → table_ok slot t → table_ok slot t'.
Proof.
  intros Hst [H1 H2]. destruct Hst; [by split| |by split].
  unfold extended_at. split; simpl; destruct (N.eqb_spec slot (last_extended_slot (table_meta t)));
    simpl; rewrite ?len_app; lia.
Qed.

(** the number of addresses that a lookup at [slot] may use *)
Definition visible (slot : N) (t : AddressLookupTable) : N :=
  if last_extended_slot (table_meta t) <? slot then len (table_addresses t)
  else last_extended_slot_start_index (table_meta t).

Lemma visible_bound slot t : table_ok slot t → visible slot t ≤ len (table_addresses t).
Proof. intros []. unfold visible. destruct (_ <? _); lia. Qed.

(** a step at [slot] keeps the addresses and those that lookups saw up to that slot *)
Lemma table_step_visible signer slot before after t t' :
  table_step signer slot t t' → table_ok before t → before ≤ slot → slot ≤ after →
  table_addresses t `prefix_of` table_addresses t' ∧ visible before t ≤ visible after t'.
Proof.
  intros Hst Hok Hb Ha. pose proof (visible_bound _ _ Hok). destruct Hok as [H1 H2].
  destruct Hst; unfold visible, extended_at in *; simpl.
  - split; [done|]. destruct (N.ltb_spec (last_extended_slot (table_meta t)) before),
      (N.ltb_spec (last_extended_slot (table_meta t)) after); lia.
  - split; [by apply prefix_app_r|].
    destruct (N.eqb_spec slot (last_extended_slot (table_meta t))); simpl;
      destruct (N.ltb_spec (last_extended_slot (table_meta t)) before);
      try destruct (N.ltb_spec (last_extended_slot (table_meta t)) after);
      try destruct (N.ltb_spec slot after);
      rewrite ?len_app; lia.
  - split; [done|]. destruct (N.ltb_spec (last_extended_slot (table_meta t)) before),
      (N.ltb_spec (last_extended_slot (table_meta t)) after); lia.
Qed.

Lemma table_lookup_visible slot indexes sh t addresses :
  table_ok slot t →
  table_lookup t slot indexes sh = Ok addresses ↔
  table_is_active (table_meta t) slot sh = true ∧
  mapM (λ idx, getN (take (N.to_nat (visible slot t)) (table_addresses t)) idx) indexes = Some addresses.
Proof.
  intros Hok. pose proof (visible_bound _ _ Hok) as Hv. unfold table_lookup, get_active_addresses_len.
  destruct (table_is_active _ _ _); simpl; [|naive_solver].
  fold (visible slot t). destruct (N.ltb_spec (len (table_addresses t)) (visible slot t)); [lia|].
  unfold ok_or. destruct (mapM _ _); naive_solver.
Qed.

Lemma getN_take_mono {A} (l l' : list A) n n' i x :
  l `prefix_of` l' → n ≤ n' → getN (take (N.to_nat n) l) i = Some x →
  getN (take (N.to_nat n') l') i = Some x.
Proof.
  intros [k ->] Hn. unfold getN. rewrite !lookup_take_Some. intros [Hl Hlt].
  split; [by apply lookup_app_l_Some|lia].
Qed.

Lemma mapM_mono {A B} (f g : A → option B) l k :
  (∀ x y, f x = Some y → g x = Some y) → mapM f l = Some k → mapM g l = Some k.
Proof.
  intros Hfg. rewrite !mapM_Some. intros Hf. eapply Forall2_impl; [|exact Hf]. auto.
Qed.

(** what a lookup gave is what every later lookup gives while the table is active *)
Lemma lookup_step signer slot before after indexes sh sh' t t' addresses :
  table_step signer slot t t' → table_ok before t → before ≤ slot → slot ≤ after →
  table_lookup t before indexes sh = Ok addresses →
  table_is_active (table_meta t') after sh' = true →
  table_lookup t' after indexes sh' = Ok addresses.
Proof.
  intros Hst Hok Hb Ha Hl Hact.
  apply (table_lookup_visible _ _ _ _ _ Hok) in Hl as [_ Hl].
  assert (table_ok after t') as Hok'.
  { apply (table_ok_later slot); [done|]. eapply table_step_ok; [done|]. by eapply table_ok_later. }
  apply (table_lookup_visible _ _ _ _ _ Hok'). split; [done|].
  destruct (table_step_visible _ _ _ after _ _ Hst Hok Hb Ha) as [Hp Hv].
  eapply mapM_mono; [|exact Hl]. intros idx x. by apply getN_take_mono.
Qed.

(** ** The bytes of a table *)
Definition key_sized (k : Pubkey) : Prop := length (to_bytes k) = 32%nat.

Lemma chunk_keys_app n d1 d2 : length d1 = (32 * n)%nat → ∀ m,
  chunk_keys (n + m) (d1 ++ d2) = chunk_keys n d1 ++ chunk_keys m d2.
Proof.
  revert d1. induction n as [|n IH]; intros d1 Hd m; simpl.
  - by destruct d1.
  - rewrite take_app_le, drop_app_le by lia. f_equal. apply IH. rewrite length_drop. lia.
Qed.
Lemma chunk_keys_concat ks :
  Forall key_sized ks → chunk_keys (length ks) (concat (to_bytes <$> ks)) = ks.
Proof.
  induction 1 as [|[k] ks Hk _ IH]; [done|]. unfold key_sized in Hk. simpl in *.
  rewrite take_app_length' by done. rewrite drop_app_length' by done. f_equal. exact IH.
Qed.
Lemma concat_keys_length ks :
  Forall key_sized ks → length (concat (to_bytes <$> ks)) = (32 * length ks)%nat.
Proof.
  induction 1 as [|k ks Hk _ IH]; [done|]. unfold key_sized in Hk.
  rewrite fmap_cons. cbn [concat length]. rewrite length_app, IH. lia.
Qed.
Lemma cast_keys_length d ks : cast_keys d = Some ks → length d = (32 * length ks)%nat.
Proof.
  unfold cast_keys. destruct (N.eqb_spec (len d `mod` 32) 0) as [Hm|]; [|done]. intros [= <-].
  assert (∀ n d, length (chunk_keys n d) = n) as Hl.
  { clear. induction n; intros; simpl; [done|]. by rewrite IHn. }
  rewrite Hl. unfold len in Hm.
  assert (length d `mod` 32 = 0)%nat as H0.
  { apply (f_equal N.to_nat) in Hm. by rewrite N2Nat.inj_mod, Nat2N.id in Hm. }
  pose proof (Nat.div_mod_eq (length d) 32) as H1. rewrite H0, Nat.add_0_r in H1. exact H1.
Qed.
Lemma cast_keys_app d ks new :
  cast_keys d = Some ks → Forall key_sized new →
  cast_keys (d ++ concat (to_bytes <$> new)) = Some (ks ++ new).
Proof.
  intros Hc Hnew. pose proof (cast_keys_length _ _ Hc) as Hl.
  pose proof (concat_keys_length _ Hnew) as Hn. revert Hc. unfold cast_keys, len.
  rewrite length_app, Hl, Hn, <-Nat.mul_add_distr_l, !(Nat.mul_comm 32), !Nat.div_mul by done.
  rewrite !Nat2N.inj_mul. change (N.of_nat 32) with 32. rewrite !N.Div0.mod_mul, N.eqb_refl.
  intros [= Hk]. rewrite chunk_keys_app by lia. by rewrite Hk, chunk_keys_concat.
Qed.

Section bytes.
Context `{!Bincode LookupTableState, !BincodeLaws LookupTableState}.

Lemma table_deserialize_Ok d t :
  table_deserialize d = Ok t ↔
  deserialize d = Some (LookupTable (table_meta t)) ∧ LOOKUP_TABLE_META_SIZE ≤ len d ∧
  cast_keys (drop (N.to_nat LOOKUP_TABLE_META_SIZE) d) = Some (table_addresses t).
Proof.
  unfold table_deserialize, ok_or. destruct (deserialize d) as [[|meta]|]; simpl; [naive_solver| |naive_solver].
  destruct (N.ltb_spec (len d) LOOKUP_TABLE_META_SIZE); [split; [done|intros (_&?&_); lia]|].
  destruct (cast_keys _); simpl; [|naive_solver]. destruct t. naive_solver.
Qed.

(** the new meta is read back, and the addresses are those before and the appended ones *)
Lemma overwrite_meta_table d meta d' addresses new :
  overwrite_meta_data d meta = (d', Ok tt) →
  cast_keys (drop (N.to_nat LOOKUP_TABLE_META_SIZE) d) = Some addresses → Forall key_sized new →
  table_deserialize (d' ++ concat (to_bytes <$> new)) = Ok (mkAddressLookupTable meta (addresses ++ new)).
Proof.
  unfold overwrite_meta_data. destruct (N.ltb_spec (len d) LOOKUP_TABLE_META_SIZE); [done|].
  destruct (serialize (LookupTable meta)) as [bs|] eqn:Hs; [|done].
  destruct (N.ltb_spec LOOKUP_TABLE_META_SIZE (len bs)); [done|].
  intros Hd Hc Hnew. apply (f_equal fst) in Hd. cbn [fst] in Hd. subst d'.
  assert (length (overwrite bs (replicate (N.to_nat LOOKUP_TABLE_META_SIZE) 0)) =
          N.to_nat LOOKUP_TABLE_META_SIZE) as Hl.
  { unfold overwrite, len in *. rewrite length_app, length_drop, length_replicate. lia. }
  apply table_deserialize_Ok. cbn [table_meta table_addresses]. split; [|split].
  - unfold overwrite. rewrite <-!app_assoc. by apply deserialize_serialize.
  - unfold len. rewrite <-app_assoc, length_app, Hl. lia.
  - rewrite <-app_assoc, drop_app_length' by done. by apply cast_keys_app.
Qed.
End bytes.

(** ** Inversion of the handlers *)

(** [s'] differs from [s] neither in the contents of the accounts nor in the sysvars *)
Definition same_view (s s' : InvokeContext) : Prop :=
  ivals s' = ivals s ∧ sysvar_cache s' = sysvar_cache s.
Lemma same_view_trans s1 s2 s3 : same_view s1 s2 → same_view s2 s3 → same_view s1 s3.
Proof. unfold same_view. naive_solver congruence. Qed.

Lemma with_account_Ok {A} ic i (body : BorrowedAccount → IC A) s x s' :
  with_instruction_account ic i body s = (Ok x, s') →
  ∃ ia s1 s2, getN (instruction_accounts ic) i = Some ia ∧
    body (handle_of ic i ia) s1 = (Ok x, s2) ∧ same_view s s1 ∧ same_view s2 s'.
Proof.
  unfold with_instruction_account, ic_with_account, try_borrow_instruction_account, bind at 1, lift,
    get_index_of_instruction_account_in_transaction.
  destruct (getN (instruction_accounts ic) i) as [ia|]; simpl; [|done].
  unfold try_borrow_account, bind, asks. destruct (ta_get _ _) as [c|]; simpl; [|done].
  destruct (cell_borrowed c); simpl; [done|].
  destruct (body _ _) as [r s2] eqn:Hb. intros [= -> <-].
  exists ia. eexists. exists s2. split; [done|]. split; [exact Hb|].
  unfold same_view, ivals. simpl. unfold drop_borrow. by rewrite !vals_set_cell.
Qed.

Lemma read_account_Ok ba s a s' :
  on_tc (ba_account ba) s = (Ok a, s') →
  at_handle ba (transaction_context s) = Some a ∧ same_view s s'.
Proof. intros (t & [Ha ->]%ba_account_Ok & ->)%on_tc_Ok. by split. Qed.
Lemma get_key_view ba s k s' : on_tc (ba_get_key ba) s = (Ok k, s') → same_view s s'.
Proof.
  intros (t & Hk & ->)%on_tc_Ok. unfold ba_get_key, asks in Hk. by injection Hk as _ <-.
Qed.

Lemma msg_throw {A} message e (x : A) s s' :
  (ic_msg message ;; throw e) s = (Ok x, s') → False.
Proof. by intros (? & ? & ? & ?)%bind_Ok_inv. Qed.
Ltac refused Hb := first [done | by apply msg_throw in Hb].

Section handlers.
Context `{PubkeyDisplay, Sha256, Curve25519, !Bincode LookupTableState, !BincodeLaws LookupTableState}.

Lemma check_table_owner_Ok ic s s' : check_table_owner ic s = (Ok tt, s') → same_view s s'.
Proof.
  intros (ia & s1 & s2 & _ & Hb & Hv1 & Hv2)%with_account_Ok.
  apply bind_Ok_inv in Hb as (a & s3 & [_ Hv3]%read_account_Ok & Hb).
  destruct (negb _); [done|]. injection Hb as <-. eauto using same_view_trans.
Qed.
Lemma signing_key_Ok ic i who s k s' : signing_key ic i who s = (Ok k, s') → same_view s s'.
Proof.
  intros (ia & s1 & s2 & _ & Hb & Hv1 & Hv2)%with_account_Ok.
  apply bind_Ok_inv in Hb as (key & s3 & Hv3%get_key_view & Hb).
  destruct (negb _); [refused Hb|].
  injection Hb as <- <-. eauto using same_view_trans.
Qed.

Lemma write_meta_Ok ba meta s s' :
  write_meta ba meta s = (Ok tt, s') →
  ∃ a d', at_handle ba (transaction_context s) = Some a ∧ overwrite_meta_data (data a) meta = (d', Ok tt) ∧
    ivals s' = <[N.to_nat (ba_index_in_transaction ba) := set_data d' a]> (ivals s) ∧
    sysvar_cache s' = sysvar_cache s.
Proof.
  intros (t' & Hm & ->)%on_tc_Ok. unfold ba_get_data_mut in Hm.
  apply bind_Ok_inv in Hm as (d & t1 & Hd & Hr).
  apply bind_Ok_inv in Hd as ([] & t2 & [-> (a & Ha & _)]%ba_can_data_be_changed_Ok & Hd).
  apply bind_Ok_inv in Hd as ([] & t3 & Ht & Hd).
  pose proof (ba_touch_quiet ba (transaction_context s) I) as Hq. rewrite Ht in Hq.
  apply quiet_same_vals in Hq as [_ Hv]. simpl in Hv.
  apply bind_Ok_inv in Hd as (a1 & t4 & [Ha1 ->]%ba_account_Ok & [= <- <-]).
  apply bind_Ok_inv in Hr as (a2 & t5 & [Ha2 ->]%ba_account_Ok & Hr).
  unfold at_handle in Ha1, Ha2. rewrite Hv in Ha1, Ha2. unfold at_handle in Ha. simplify_eq.
  apply bind_Ok_inv in Hr as ([] & t6 & Hs & [Hr ->]%lift_Ok_inv).
  pose proof (vals_store ba (set_data (overwrite_meta_data (data a) meta).1 a) t3) as Hvs.
  rewrite Hs in Hvs. simpl in Hvs.
  exists a, (overwrite_meta_data (data a) meta).1. split; [done|].
  split; [by rewrite <-Hr; destruct (overwrite_meta_data _ _)|].
  split; [|done]. unfold ivals. simpl. by rewrite Hvs, Hv.
Qed.

(** the bytes of the table: those of the first account of the instruction *)
Definition table_bytes (ic : InstructionContext) (s : InvokeContext) : option (list N) :=
  match getN (instruction_accounts ic) 0 with
  | Some ia => data <$> ivals s !! N.to_nat (index_in_transaction ia)
  | None => None
  end.

Lemma extend_each_Ok ba new : ∀ s s' a,
  at_handle ba (transaction_context s) = Some a →
  for_each new (λ k, on_tc (ba_extend_from_slice ba (to_bytes k))) s = (Ok tt, s') →
  ivals s' = <[N.to_nat (ba_index_in_transaction ba) :=
                 set_data (data a ++ concat (to_bytes <$> new)) a]> (ivals s) ∧
  sysvar_cache s' = sysvar_cache s.
Proof.
  induction new as [|k new IH]; intros s s' a Ha.
  { intros [= <-]. simpl. rewrite app_nil_r, list_insert_id; [done|].
    unfold at_handle in Ha. unfold ivals. rewrite Ha. by destruct a. }
  intros ([] & s1 & (t & Hx & ->)%on_tc_Ok & Hr)%bind_Ok_inv.
  assert (vals t = <[N.to_nat (ba_index_in_transaction ba) :=
            set_data (data a ++ to_bytes k) a]> (vals (transaction_context s))) as Hv.
  { unfold ba_extend_from_slice in Hx.
    apply bind_Ok_inv in Hx as (a' & t1 & [Ha' ->]%ba_account_Ok & Hx). simplify_eq.
    apply bind_Ok_inv in Hx as ([] & t2 & [-> _]%ba_can_data_be_resized_Ok & Hx).
    apply bind_Ok_inv in Hx as ([] & t3 & [-> _]%ba_can_data_be_changed_Ok & Hx).
    destruct (to_bytes k) eqn:Hk.
    - injection Hx as <-. rewrite app_nil_r, list_insert_id; [done|].
      unfold at_handle in Ha. rewrite Ha. by destruct a.
    - by apply touch_resize_store_Ok in Hx as [_ Hx]. }
  assert (at_handle ba t = Some (set_data (data a ++ to_bytes k) a)) as Ha1.
  { unfold at_handle in *. rewrite Hv, list_lookup_insert_eq; [done|]. by eapply lookup_lt_Some. }
  destruct (IH (set_transaction_context t s) s' _ Ha1 Hr) as [Hs Hc]. unfold ivals in *. simpl in *.
  rewrite Hs, Hv, list_insert_insert_eq, app_assoc. split; [done|exact Hc].
Qed.

(** the instructions that change a table and keep it *)
Inductive TableOp := OpFreeze | OpExtend (new_addresses : list Pubkey) | OpDeactivate.
Definition run_table_op (op : TableOp) : IC unit :=
  match op with
  | OpFreeze => freeze_lookup_table
  | OpExtend new_addresses => extend_lookup_table_write new_addresses ;; ret tt
  | OpDeactivate => deactivate_lookup_table
  end.
Definition op_sized (op : TableOp) : Prop :=
  match op with OpExtend new_addresses => Forall key_sized new_addresses | _ => True end.

(** what a write of the meta and of further addresses leaves *)
Lemma table_written ic ia s1 a meta d' new s' t :
  getN (instruction_accounts ic) 0 = Some ia →
  at_handle (handle_of ic 0 ia) (transaction_context s1) = Some a →
  table_deserialize (data a) = Ok t → Forall key_sized new →
  overwrite_meta_data (data a) meta = (d', Ok tt) →
  ivals s' = <[N.to_nat (index_in_transaction ia) :=
                 set_data (d' ++ concat (to_bytes <$> new)) a]> (ivals s1) →
  ∃ d2, table_bytes ic s' = Some d2 ∧
    table_deserialize d2 = Ok (mkAddressLookupTable meta (table_addresses t ++ new)).
Proof.
  intros Hia Ha (_ & _ & Hc)%table_deserialize_Ok Hnew Hov Hv.
  exists (d' ++ concat (to_bytes <$> new)). split; [|by eapply overwrite_meta_table].
  unfold table_bytes. rewrite Hia, Hv, list_lookup_insert_eq; [done|]. by eapply lookup_lt_Some.
Qed.

(** the common beginning *)
Lemma open_table {A} (rest : InstructionContext → Pubkey → IC A) ic s x s' :
  get_current_instruction_context (transaction_context s) = Ok ic →
  (ic <- asks_tc get_current_instruction_context ;; check_table_owner ic ;;
   k <- signing_key ic 1 "Authority" ;; rest ic k) s = (Ok x, s') →
  ∃ k s1, same_view s s1 ∧ rest ic k s1 = (Ok x, s').
Proof.
  intros Hic Hr. unfold bind at 1, asks_tc, asks in Hr. rewrite Hic in Hr.
  apply bind_Ok_inv in Hr as ([] & s1 & Hv1%check_table_owner_Ok & Hr).
  apply bind_Ok_inv in Hr as (k & s2 & Hv2%signing_key_Ok & Hr).
  exists k, s2. eauto using same_view_trans.
Qed.
(** the use of the table after it *)
Lemma use_table {A} (rest : BorrowedAccount → AccountSharedData → IC A) ic s s0 x s' d :
  same_view s s0 → table_bytes ic s = Some d →
  with_instruction_account ic 0 (λ ba, a <- on_tc (ba_account ba) ;; rest ba a) s0 = (Ok x, s') →
  ∃ ia a s1 s2, getN (instruction_accounts ic) 0 = Some ia ∧ data a = d ∧
    at_handle (handle_of ic 0 ia) (transaction_context s1) = Some a ∧ same_view s s1 ∧
    rest (handle_of ic 0 ia) a s1 = (Ok x, s2) ∧ same_view s2 s'.
Proof.
  intros Hv Hd (ia & s1 & s2 & Hia & Hb & Hv1 & Hv2)%with_account_Ok.
  apply bind_Ok_inv in Hb as (a & s3 & (t & [Ha ->]%ba_account_Ok & ->)%on_tc_Ok & Hb).
  assert (same_view s s1) as Hs by eauto using same_view_trans.
  exists ia, a, (set_transaction_context (transaction_context s1) s1), s2.
  split_and!; try done.
  unfold table_bytes in Hd. rewrite Hia in Hd. destruct Hs as [Hs _].
  unfold at_handle in Ha. change (vals (transaction_context s1)) with (ivals s1) in Ha.
  rewrite Hs in Ha. simpl in Ha. rewrite Ha in Hd. by injection Hd.
Qed.
Lemma table_bytes_view ic s s' : same_view s s' → table_bytes ic s' = table_bytes ic s.
Proof. intros [Hv _]. unfold table_bytes. by rewrite Hv. Qed.

Lemma extend_written ic ia s1 s2 s3 s' a meta new t :
  getN (instruction_accounts ic) 0 = Some ia →
  at_handle (handle_of ic 0 ia) (transaction_context s1) = Some a → table_deserialize (data a) = Ok t →
  Forall key_sized new → write_meta (handle_of ic 0 ia) meta s1 = (Ok tt, s2) →
  for_each new (λ k, on_tc (ba_extend_from_slice (handle_of ic 0 ia) (to_bytes k))) s2 = (Ok tt, s3) →
  same_view s3 s' →
  ∃ d', table_bytes ic s' = Some d' ∧
    table_deserialize d' = Ok (mkAddressLookupTable meta (table_addresses t ++ new)).
Proof.
  intros Hia Ha Ht Hnew (a' & d' & Ha' & Hov & Hvals & _)%write_meta_Ok Heach Hv. simplify_eq.
  rewrite (table_bytes_view ic _ _ Hv).
  assert (at_handle (handle_of ic 0 ia) (transaction_context s2) = Some (set_data d' a)) as Ha2.
  { unfold at_handle, ivals in *. rewrite Hvals, list_lookup_insert_eq; [done|]. by eapply lookup_lt_Some. }
  destruct (extend_each_Ok _ _ _ _ _ Ha2 Heach) as [Hv3 _].
  apply (table_written ic ia s1 a meta d'); auto. by rewrite Hv3, Hvals, list_insert_insert_eq.
Qed.
Lemma meta_written ic ia s1 s2 s' a meta t :
  getN (instruction_accounts ic) 0 = Some ia →
  at_handle (handle_of ic 0 ia) (transaction_context s1) = Some a → table_deserialize (data a) = Ok t →
  write_meta (handle_of ic 0 ia) meta s1 = (Ok tt, s2) → same_view s2 s' →
  ∃ d', table_bytes ic s' = Some d' ∧
    table_deserialize d' = Ok (mkAddressLookupTable meta (table_addresses t)).
Proof.
  intros Hia Ha Ht Hw Hv. rewrite <-(app_nil_r (table_addresses t)).
  by apply (extend_written ic ia s1 s2 s2 s' a meta []).
Qed.

Lemma freeze_step ic s s' d t slot :
  get_current_instruction_context (transaction_context s) = Ok ic →
  freeze_lookup_table s = (Ok tt, s') → table_bytes ic s = Some d → table_deserialize d = Ok t →
  ∃ signer d' t', table_bytes ic s' = Some d' ∧ table_deserialize d' = Ok t' ∧ table_step signer slot t t'.
Proof.
  intros Hic (k & s1 & Hv & Hr)%(open_table _ _ _ _ _ Hic) Hd Ht.
  destruct (use_table _ _ _ _ _ _ _ Hv Hd Hr) as (ia & a & s2 & s3 & Hia & Hda & Ha & Hv2 & Hb & Hv3).
  apply bind_Ok_inv in Hb as (t0 & s4 & [Ht0 ->]%lift_Ok_inv & Hb). rewrite Hda, Ht in Ht0. injection Ht0 as <-. cbv zeta in Hb.
  destruct (lt_authority (table_meta t)) as [authority|] eqn:Hau;
    [|refused Hb].
  destruct (key_eqb authority k) eqn:Hk; simpl in Hb; [|done].
  destruct (N.eqb_spec (deactivation_slot (table_meta t)) u64_max) as [Hact|]; simpl in Hb;
    [|refused Hb].
  case_bool_decide as Hne; [refused Hb|].
  rewrite <-Hda in Ht. destruct (meta_written _ _ _ _ _ _ _ _ Hia Ha Ht Hb Hv3) as (d2 & Hd2 & Ht2).
  exists authority, d2. eexists. split; [done|]. split; [exact Ht2|].
  by apply (step_freeze authority).
Qed.

Lemma deactivate_step ic s s' d t clock :
  get_current_instruction_context (transaction_context s) = Ok ic →
  deactivate_lookup_table s = (Ok tt, s') → get_clock (sysvar_cache s) = Ok clock →
  table_bytes ic s = Some d → table_deserialize d = Ok t →
  ∃ signer d' t', table_bytes ic s' = Some d' ∧ table_deserialize d' = Ok t' ∧
    table_step signer (clock_slot clock) t t'.
Proof.
  intros Hic (k & s1 & Hv & Hr)%(open_table _ _ _ _ _ Hic) Hclock Hd Ht.
  destruct (use_table _ _ _ _ _ _ _ Hv Hd Hr) as (ia & a & s2 & s3 & Hia & Hda & Ha & Hv2 & Hb & Hv3).
  apply bind_Ok_inv in Hb as (t0 & s4 & [Ht0 ->]%lift_Ok_inv & Hb). rewrite Hda, Ht in Ht0. injection Ht0 as <-. cbv zeta in Hb.
  destruct (lt_authority (table_meta t)) as [authority|] eqn:Hau; [|refused Hb].
  destruct (key_eqb authority k) eqn:Hk; simpl in Hb; [|done].
  destruct (N.eqb_spec (deactivation_slot (table_meta t)) u64_max) as [Hact|]; simpl in Hb; [|refused Hb].
  unfold bind at 1, asks in Hb. destruct Hv2 as [Hv2 Hsys]. rewrite Hsys, Hclock in Hb.
  rewrite <-Hda in Ht. destruct (meta_written _ _ _ _ _ _ _ _ Hia Ha Ht Hb Hv3) as (d2 & Hd2 & Ht2).
  exists authority, d2. eexists. split; [done|]. split; [exact Ht2|].
  rewrite <-Hau. by apply (step_deactivate authority).
Qed.

Lemma extend_step ic s x s' d t clock new :
  get_current_instruction_context (transaction_context s) = Ok ic →
  extend_lookup_table_write new s = (Ok x, s') → get_clock (sysvar_cache s) = Ok clock →
  table_bytes ic s = Some d → table_deserialize d = Ok t → Forall key_sized new →
  ∃ signer d' t', table_bytes ic s' = Some d' ∧ table_deserialize d' = Ok t' ∧
    table_step signer (clock_slot clock) t t'.
Proof.
  intros Hic (k & s1 & Hv & Hr)%(open_table _ _ _ _ _ Hic) Hclock Hd Ht Hnew.
  apply bind_Ok_inv in Hr as (y & s5 & Hr & Hrest).
  assert (same_view s5 s') as Hv5.
  { apply bind_Ok_inv in Hrest as (r & s6 & Hr6 & Hrest). unfold asks in Hr6. injection Hr6 as _ <-.
    destruct y as [[table_key l] n]. cbv zeta in Hrest.
    destruct (0 <? _); [|by injection Hrest as _ <-].
    apply bind_Ok_inv in Hrest as (payer & s7 & Hv7%signing_key_Ok & [= _ <-]). done. }
  destruct (use_table _ _ _ _ _ _ _ Hv Hd Hr) as (ia & a & s2 & s3 & Hia & Hda & Ha & Hv2 & Hb & Hv3).
  apply bind_Ok_inv in Hb as (key & s4 & (t4 & Hk4 & ->)%on_tc_Ok & Hb).
  unfold ba_get_key, asks in Hk4. injection Hk4 as _ <-.
  apply bind_Ok_inv in Hb as (t0 & s6 & [Ht0 ->]%lift_Ok_inv & Hb). rewrite Hda, Ht in Ht0.
  injection Ht0 as <-. cbv zeta in Hb.
  destruct (lt_authority (table_meta t)) as [authority|] eqn:Hau; [|refused Hb].
  destruct (key_eqb authority k) eqn:Hk; simpl in Hb; [|done].
  destruct (N.eqb_spec (deactivation_slot (table_meta t)) u64_max) as [Hact|]; simpl in Hb; [|refused Hb].
  destruct (N.leb_spec LOOKUP_TABLE_MAX_ADDRESSES (len (table_addresses t))) as [|Hroom]; [refused Hb|].
  case_bool_decide as Hne; [refused Hb|].
  destruct (N.ltb_spec LOOKUP_TABLE_MAX_ADDRESSES
    (saturating_add u64_max (len (table_addresses t)) (len new))) as [|Hmax]; [refused Hb|].
  unfold bind at 1, asks in Hb. simpl sysvar_cache in Hb. destruct Hv2 as [Hv2 Hsys].
  rewrite Hsys, Hclock in Hb.
  apply bind_Ok_inv in Hb as (meta & s7 & Hmeta & Hb).
  assert (meta = extended_at (clock_slot clock) (len (table_addresses t)) (table_meta t) ∧
          s7 = set_transaction_context (transaction_context s2) s2) as [-> ->].
  { unfold extended_at. destruct (_ =? _); [by injection Hmeta as <- <-|].
    destruct (_ <? _); [done|]. rewrite Hau. by injection Hmeta as <- <-. }
  apply bind_Ok_inv in Hb as (n & s8 & [_ ->]%lift_Ok_inv & Hb).
  apply bind_Ok_inv in Hb as ([] & s9 & Hw & Hb).
  apply bind_Ok_inv in Hb as ([] & s10 & Heach & [= _ <-]). rewrite <-Hda in Ht.
  destruct (extend_written ic ia (set_transaction_context (transaction_context s2) s2) s9 s10 s' a _ new t
    Hia Ha Ht Hnew Hw Heach) as (d2 & Hd2 & Ht2); [by eapply same_view_trans|].
  exists authority, d2. eexists. split; [done|]. split; [exact Ht2|]. apply step_extend; try done.
  rewrite len_app. unfold saturating_add in Hmax. unfold LOOKUP_TABLE_MAX_ADDRESSES, u64_max in *. lia.
Qed.

(** every such instruction is a step of the contract *)
Lemma run_table_op_step op ic s s' d t clock :
  op_sized op → get_current_instruction_context (transaction_context s) = Ok ic →
  run_table_op op s = (Ok tt, s') → get_clock (sysvar_cache s) = Ok clock →
  table_bytes ic s = Some d → table_deserialize d = Ok t →
  ∃ signer d' t', table_bytes ic s' = Some d' ∧ table_deserialize d' = Ok t' ∧
    table_step signer (clock_slot clock) t t'.
Proof.
  intros Hop Hic Hr Hc Hd Ht. destruct op as [|new|]; cbn [run_table_op] in Hr.
  - by eapply freeze_step.
  - apply bind_Ok_inv in Hr as (x & s1 & Hr & [= <-]). by eapply extend_step.
  - by eapply deactivate_step.
Qed.

Lemma table_lookup_total slot indexes sh t : table_ok slot t → table_lookup t slot indexes sh ≠ Panic.
Proof.
  intros Hok. pose proof (visible_bound _ _ Hok) as Hv. unfold table_lookup, get_active_addresses_len.
  destruct (table_is_active _ _ _); simpl; [|done].
  fold (visible slot t). destruct (N.ltb_spec (len (table_addresses t)) (visible slot t)); [lia|].
  unfold ok_or. by destruct (mapM _ _).
Qed.

(** the bank's lookup in a table account *)
Lemma bank_lookup_Ok load slot lookup sh loaded a t :
  load (lookup_account_key lookup) = Some a → table_deserialize (data a) = Ok t →
  load_lookup_table_addresses load slot lookup sh = Ok loaded →
  table_lookup t slot (writable_indexes lookup) sh = Ok (loaded_writable loaded) ∧
  table_lookup t slot (readonly_indexes lookup) sh = Ok (loaded_readonly loaded).
Proof.
  intros Hl Ht. unfold load_lookup_table_addresses. rewrite Hl. cbn [ok_or rbind].
  destruct (key_eqb _ _); [|done]. rewrite Ht. cbn [map_err rbind].
  destruct (table_lookup t slot (writable_indexes lookup) sh); cbn [rbind]; [|done..].
  destruct (table_lookup t slot (readonly_indexes lookup) sh); cbn [rbind]; [|done..].
  by intros [= <-].
Qed.
Lemma bank_lookup_run load slot lookup sh a t w r :
  load (lookup_account_key lookup) = Some a → owner a = lookup_table_program_id →
  table_deserialize (data a) = Ok t →
  table_lookup t slot (writable_indexes lookup) sh = Ok w →
  table_lookup t slot (readonly_indexes lookup) sh = Ok r →
  load_lookup_table_addresses load slot lookup sh = Ok (mkLoadedAddresses w r).
Proof.
  intros Hl Ho Ht Hw Hr. unfold load_lookup_table_addresses. rewrite Hl. cbn [ok_or rbind].
  rewrite Ho, key_eqb_refl, Ht. cbn [map_err rbind]. rewrite Hw. cbn [rbind]. by rewrite Hr.
Qed.

(** closing: the status found, and the data afterwards *)
Lemma close_found ic s s' d t clock slot_hashes :
  get_current_instruction_context (transaction_context s) = Ok ic →
  close_lookup_table s = (Ok tt, s') → get_clock (sysvar_cache s) = Ok clock →
  get_slot_hashes (sysvar_cache s) = Ok slot_hashes →
  table_bytes ic s = Some d → table_deserialize d = Ok t →
  table_status (table_meta t) (clock_slot clock) slot_hashes = Deactivated ∧ is_Some (lt_authority (table_meta t)).
Proof.
  intros Hic (k & s1 & Hv & Hr)%(open_table _ _ _ _ _ Hic) Hclock Hsh Hd Ht.
  do 3 (apply bind_Ok_inv in Hr as (? & ? & [_ ->]%lift_Ok_inv & Hr)).
  destruct (_ =? _); [refused Hr|]. apply bind_Ok_inv in Hr as (n & s5 & Hr & _).
  destruct (use_table _ _ _ _ _ _ _ Hv Hd Hr) as (ia & a & s2 & s3 & Hia & Hda & Ha & [_ Hsys] & Hb & Hv3).
  apply bind_Ok_inv in Hb as (t0 & s4 & [Ht0 ->]%lift_Ok_inv & Hb). rewrite Hda, Ht in Ht0.
  injection Ht0 as <-. cbv zeta in Hb.
  destruct (lt_authority (table_meta t)) as [authority|] eqn:Hau; [|refused Hb].
  destruct (key_eqb authority k) eqn:Hk; simpl in Hb; [|done].
  unfold bind at 1, asks at 1 in Hb. rewrite Hsys, Hclock in Hb.
  unfold bind at 1, asks at 1 in Hb. rewrite Hsys, Hsh in Hb.
  destruct (table_status _ _ _); [refused Hb..|done].
Qed.
Lemma close_empties ic s s' :
  get_current_instruction_context (transaction_context s) = Ok ic →
  close_lookup_table s = (Ok tt, s') → table_bytes ic s' = Some [].
Proof.
  intros Hic (k & s1 & Hv & Hr)%(open_table _ _ _ _ _ Hic).
  do 3 (apply bind_Ok_inv in Hr as (? & ? & [_ ->]%lift_Ok_inv & Hr)).
  destruct (_ =? _); [refused Hr|]. apply bind_Ok_inv in Hr as (n & s5 & _ & Hr).
  apply bind_Ok_inv in Hr as ([] & s6 & _ & Hr).
  apply with_account_Ok in Hr as (ia & s7 & s8 & Hia & Hb & Hv7 & Hv8).
  apply bind_Ok_inv in Hb as ([] & s9 & (t9 & (a & Ha & _ & _ & _ & _ & _ & Hs9)%ba_set_data_length_Ok & ->)%on_tc_Ok & Hb).
  apply on_tc_Ok in Hb as (t10 & (a2 & Ha2 & _ & _ & _ & _ & Hs10)%ba_set_lamports_Ok & ->).
  rewrite (table_bytes_view ic _ _ Hv8). unfold table_bytes, ivals, at_handle in *. simpl in *.
  rewrite Hia, Hs10. rewrite Hs9 in Ha2.
  rewrite list_lookup_insert_eq in Ha2 by (by eapply lookup_lt_Some). injection Ha2 as <-.
  rewrite list_lookup_insert_eq; [done|]. rewrite Hs9, length_insert. by eapply lookup_lt_Some.
Qed.
End handlers.
