(* ===== verification/RemoteLoader.v ===== *)
(** * The remote account loader ([accounts-db/src/remote_loader.rs])

    The cache of base-layer accounts a grid keeps, filled through the base layer's
    RPC interface.  The RPC node is an argument: [BaseLayer] is what it answers
    at the moment of the call. *)

From S2P Require Import Prelude Sdk Message Account.

(** ** The base layer as the loader sees it *)
Definition Signature := list N.

Record BaseLayer := mkBaseLayer {
  (** [RpcClient::get_account]; [None] is an error, a missing account included *)
  rpc_get_account : Pubkey → option Account.Account;
  (** [RpcClient::get_latest_blockhash] *)
  rpc_latest_blockhash : option Hash;
  (** [RpcClient::send_transaction] of the signed message *)
  rpc_send_transaction : Message → option Signature }.

(** ** Data *)
Record Config := mkConfig {
  baselayer_rpc_url : string;
  keypair_base58 : string;
  sonic_program_id : string }.

Definition default_config : Config := mkConfig
  "https://api.devnet.solana.com"
  "5gA6JTpFziXu7py2j63arRUq1H29p6pcPMB74LaNuzcSqULPD6s1SZUS3UMPvFEE9oXmt1kk6ez3C6piTc3bwpJ6"
  "4WTUyXNcf6QCEj76b3aRDLPewkPGkXFZkkyf3A3vua1z".

(** [Keypair::from_base58_string] and [pubkey]: the public key of a key pair in
    base 58, for which the constructor panics when the text is none *)
Class KeypairBase58 := keypair_pubkey : string → option Pubkey.

Record RemoteAccountLoader := mkRemoteAccountLoader {
  account_cache : gmap Pubkey AccountSharedData;
  enable : bool;
  config : Config }.

Definition set_account_cache (c : gmap Pubkey AccountSharedData) (l : RemoteAccountLoader) :
  RemoteAccountLoader := mkRemoteAccountLoader c (enable l) (config l).

(** [solana_sdk::bpf_loader_upgradeable::UpgradeableLoaderState] *)
Inductive UpgradeableLoaderState :=
| LoaderUninitialized
| Buffer (authority_address : option Pubkey)
| Program (programdata_address : Pubkey)
| ProgramData (slot : N) (upgrade_authority_address : option Pubkey).

(** [str::contains] *)
Fixpoint string_contains (pat s : string) : bool :=
  String.prefix pat s ||
  match s with
  | EmptyString => false
  | String _ s' => string_contains pat s'
  end.

Section loader.
Context `{PubkeyDisplay, Sha256, KeypairBase58, !Bincode UpgradeableLoaderState}.

(** the UTF-8 bytes of [format!("global:{}", method)] for an ASCII method name *)
Definition global_method (method : string) : list N :=
  Ascii.N_of_ascii <$> String.list_ascii_of_string ("global:" +:+ method).
Definition hash_instruction_method (method : string) : list N :=
  take 8 (hash_bytes (hashv [global_method method])).
(** [SetValueInstruction] and [SetLockerInstruction], as [bincode] writes them: the
    eight bytes of the method's hash, then the argument *)
Definition set_locker_data (locker : Pubkey) : list N :=
  hash_instruction_method "setlocker" ++ to_bytes locker.
Definition set_value_data (value : N) : list N :=
  hash_instruction_method "setvalue" ++ le_bytes 8 value.

(** ** The cache *)
(** [loaded] is what [Config::load] reads from the configuration file. *)
Definition remote_loader_new (loaded : option Config) : RemoteAccountLoader :=
  mkRemoteAccountLoader ∅ true (default default_config loaded).

Definition ignored_account (pubkey : Pubkey) : bool :=
  string_contains "1111111111111111" (pubkey_to_string pubkey).

Definition get_account (l : RemoteAccountLoader) (pubkey : Pubkey) : option AccountSharedData :=
  if negb (enable l) || ignored_account pubkey then None else account_cache l !! pubkey.
Definition has_account (l : RemoteAccountLoader) (pubkey : Pubkey) : bool :=
  if negb (enable l) || ignored_account pubkey then false
  else bool_decide (is_Some (account_cache l !! pubkey)).

Definition has_programdata_account (program_account : AccountSharedData) : option Pubkey :=
  if executable program_account && negb (key_eqb (owner program_account) bpf_loader_upgradeable_id)
  then None else
  match shared_deserialize_data program_account with
  | Some (Program programdata_address) => Some programdata_address
  | _ => None
  end.

(** ** Loading *)
Definition remote_account (a : Account.Account) : AccountSharedData :=
  set_remote true (create (acc_lamports a) (acc_data a) (acc_owner a) (acc_executable a)
                     (acc_rent_epoch a)).

Definition load_account_via_rpc (b : BaseLayer) (pubkey : Pubkey) (l : RemoteAccountLoader) :
  option AccountSharedData * RemoteAccountLoader :=
  if ignored_account pubkey then (None, l) else
  match rpc_get_account b pubkey with
  | Some a => (Some (remote_account a), set_account_cache (<[pubkey := remote_account a]> (account_cache l)) l)
  | None => (None, l)
  end.

(** [load_account]: the program data accounts are loaded in turn.  [None] is a
    recursion deeper than the fuel. *)
Fixpoint load_account (fuel : nat) (b : BaseLayer) (pubkey : Pubkey) (l : RemoteAccountLoader) :
  option (option AccountSharedData * RemoteAccountLoader) :=
  match fuel with
  | O => None
  | S fuel' =>
      if negb (enable l) || ignored_account pubkey then Some (None, l) else
      let '(account, l1) := load_account_via_rpc b pubkey l in
      match account with
      | None => Some (None, l1)
      | Some account =>
          match has_programdata_account account with
          | Some programdata_address =>
              r ← load_account fuel' b programdata_address l1;
              Some (Some account, r.2)
          | None => Some (Some account, l1)
          end
      end
  end.

Definition deactivate_account (pubkey : Pubkey) (l : RemoteAccountLoader) : RemoteAccountLoader :=
  if negb (enable l) || ignored_account pubkey then l else
  match get_account l pubkey with
  | None => l
  | Some account =>
      let l1 := set_account_cache (delete pubkey (account_cache l)) l in
      match has_programdata_account account with
      | Some programdata_address =>
          set_account_cache (delete programdata_address (account_cache l1)) l1
      | None => l1
      end
  end.

Definition is_sonic_program (l : RemoteAccountLoader) (pubkey : Pubkey) : bool :=
  if String.eqb (pubkey_to_string pubkey) (sonic_program_id (config l))
  then has_account l pubkey else false.

(** ** Posting a status to the base layer *)
Definition status_instructions (payer program_id account : Pubkey) (value : N) : list Instruction :=
  [mkInstruction program_id [meta_new account false; meta_new payer false] (set_locker_data payer);
   mkInstruction program_id [meta_new account false; meta_new payer false] (set_value_data value)].

(** [Transaction::sign] with one key pair: the block hash goes into the message, and
    it panics unless the key pair is the one signer the message requires. *)
Definition sign {E} (keypair : Pubkey) (h : Hash) (m : Message) : result E Message :=
  if bool_decide (signer_keys m = [keypair])
  then Ok (mkMessage (msg_header m) (msg_account_keys m) h (msg_instructions m))
  else Panic.

Definition default_hash : Hash := mkHash (replicate 32 0).

Definition send_status_to_baselayer {E} (b : BaseLayer) (program_id account : Pubkey) (value : N)
    (l : RemoteAccountLoader) : result E (option Signature * RemoteAccountLoader) :=
  let! payer := unwrap (keypair_pubkey (keypair_base58 (config l))) in
  let! message :=
    new_with_blockhash (status_instructions payer program_id account value) (Some payer)
      default_hash in
  let! blockhash := unwrap (rpc_latest_blockhash b) in
  let! transaction := sign payer blockhash message in
  match rpc_send_transaction b transaction with
  | Some signature => Ok (Some signature, (load_account_via_rpc b account l).2)
  | None => Ok (None, l)
  end.
End loader.
