(* ===== verification/AccountsCache.v ===== *)
(** * The write cache of the accounts database ([accounts-db/src/accounts_cache.rs])

    Per slot, the accounts written and not yet flushed, with HyperGrid's remote
    accounts behind them.  The operations run one after the other; the memoised
    hash of a cached account and the metrics reports are left out. *)

From stdpp Require Import sorting.
From S2P Require Import Prelude Sdk Message Account RemoteLoader.

(** ** Slot caches *)
Record CachedAccount := mkCachedAccount {
  ca_account : AccountSharedData;
  ca_pubkey : Pubkey }.

Record SlotCacheInner := mkSlotCacheInner {
  sc_cache : gmap Pubkey CachedAccount;
  same_account_writes : N;
  same_account_writes_size : N;
  unique_account_writes_size : N;
  sc_size : N;
  sc_is_frozen : bool }.

Record AccountsCache := mkAccountsCache {
  ac_cache : gmap N SlotCacheInner;
  maybe_unflushed_roots : gset N;
  max_flushed_root : N;
  total_size : N;
  remote_loader : RemoteAccountLoader }.

Definition set_ac_cache (m : gmap N SlotCacheInner) (c : AccountsCache) : AccountsCache :=
  mkAccountsCache m (maybe_unflushed_roots c) (max_flushed_root c) (total_size c) (remote_loader c).
Definition set_roots (r : gset N) (c : AccountsCache) : AccountsCache :=
  mkAccountsCache (ac_cache c) r (max_flushed_root c) (total_size c) (remote_loader c).
Definition set_total_size (n : N) (c : AccountsCache) : AccountsCache :=
  mkAccountsCache (ac_cache c) (maybe_unflushed_roots c) (max_flushed_root c) n (remote_loader c).
Definition set_remote_loader (l : RemoteAccountLoader) (c : AccountsCache) : AccountsCache :=
  mkAccountsCache (ac_cache c) (maybe_unflushed_roots c) (max_flushed_root c) (total_size c) l.

Definition new_inner : SlotCacheInner := mkSlotCacheInner ∅ 0 0 0 0 false.
Definition accounts_cache_default (l : RemoteAccountLoader) : AccountsCache :=
  mkAccountsCache ∅ ∅ 0 0 l.

Definition account_len (a : AccountSharedData) : N := len (data a).

(** [SlotCacheInner::insert], on the slot cache and the counter [total_size] that it
    shares with the whole cache; atomic additions and subtractions wrap. *)
Definition sc_insert (pubkey : Pubkey) (account : AccountSharedData) (sc : SlotCacheInner)
    (total : N) : CachedAccount * SlotCacheInner * N :=
  let data_len := account_len account in
  let item := mkCachedAccount account pubkey in
  let cache := <[pubkey := item]> (sc_cache sc) in
  match sc_cache sc !! pubkey with
  | Some old =>
      let writes := wrapping_add (same_account_writes sc) 1 in
      let writes_size := wrapping_add (same_account_writes_size sc) data_len in
      let old_len := account_len (ca_account old) in
      let grow := saturating_sub data_len old_len in
      let shrink := saturating_sub old_len data_len in
      let adjust n := if 0 <? grow then wrapping_add n grow
                      else if 0 <? shrink then wrapping_sub n shrink else n in
      (item, mkSlotCacheInner cache writes writes_size (unique_account_writes_size sc)
               (adjust (sc_size sc)) (sc_is_frozen sc), adjust total)
  | None =>
      (item, mkSlotCacheInner cache (same_account_writes sc) (same_account_writes_size sc)
               (wrapping_add (unique_account_writes_size sc) data_len)
               (wrapping_add (sc_size sc) data_len) (sc_is_frozen sc),
       wrapping_add total data_len)
  end.

Definition get_cloned (sc : SlotCacheInner) (pubkey : Pubkey) : option CachedAccount :=
  sc_cache sc !! pubkey.
Definition get_all_pubkeys (sc : SlotCacheInner) : list Pubkey := (map_to_list (sc_cache sc)).*1.
Definition mark_slot_frozen (sc : SlotCacheInner) : SlotCacheInner :=
  mkSlotCacheInner (sc_cache sc) (same_account_writes sc) (same_account_writes_size sc)
    (unique_account_writes_size sc) (sc_size sc) true.
(** [total_bytes]: a plain [+] *)
Definition total_bytes (sc : SlotCacheInner) : N :=
  wrapping_add (unique_account_writes_size sc) (same_account_writes_size sc).

(** [Drop for SlotCacheInner], when the last reference goes away *)
Definition drop_slot_cache (sc : SlotCacheInner) (c : AccountsCache) : AccountsCache :=
  set_total_size (wrapping_sub (total_size c) (sc_size sc)) c.

(** ** The cache *)
Definition slot_cache (c : AccountsCache) (slot : N) : option SlotCacheInner := ac_cache c !! slot.

Definition store (slot : N) (pubkey : Pubkey) (account : AccountSharedData) (c : AccountsCache) :
  CachedAccount * AccountsCache :=
  let sc := default new_inner (slot_cache c slot) in
  let '(item, sc', total) := sc_insert pubkey account sc (total_size c) in
  (item, set_total_size total (set_ac_cache (<[slot := sc']> (ac_cache c)) c)).

(** [slot_cache(slot).unwrap().mark_slot_frozen()] *)
Definition freeze_slot (slot : N) (c : AccountsCache) : AccountsCache :=
  set_ac_cache (alter mark_slot_frozen slot (ac_cache c)) c.

Definition remove_slot (slot : N) (c : AccountsCache) : option SlotCacheInner * AccountsCache :=
  (ac_cache c !! slot, set_ac_cache (delete slot (ac_cache c)) c).

Definition fetch_max_flush_root (c : AccountsCache) : N := max_flushed_root c.
Definition set_max_flush_root (root : N) (c : AccountsCache) : AccountsCache :=
  mkAccountsCache (ac_cache c) (maybe_unflushed_roots c) (max_flushed_root c `max` root)
    (total_size c) (remote_loader c).

Definition add_root (root : N) (c : AccountsCache) : AccountsCache :=
  let max_flushed_root := fetch_max_flush_root c in
  if (max_flushed_root <? root) || ((root =? max_flushed_root) && (root =? 0))
  then set_roots ({[root]} ∪ maybe_unflushed_roots c) c else c.

(** [split_off(&(max_root + 1))]; the addition is a plain one *)
Definition clear_roots (max_root : option N) (c : AccountsCache) : gset N * AccountsCache :=
  match max_root with
  | Some max_root =>
      let split := wrapping_add max_root 1 in
      let roots := maybe_unflushed_roots c in
      (filter (λ r, r < split) roots, set_roots (filter (λ r, split <= r) roots) c)
  | None => (maybe_unflushed_roots c, set_roots ∅ c)
  end.

Definition contains_any_slots (c : AccountsCache) (max_slot_inclusive : N) : bool :=
  existsb (λ e, e.1 <=? max_slot_inclusive) (map_to_list (ac_cache c)).

Definition remove_slots_le (max_root : N) (c : AccountsCache) :
  list (N * SlotCacheInner) * AccountsCache :=
  (map_to_list (filter (λ e, e.1 <= max_root) (ac_cache c)),
   set_ac_cache (filter (λ e, ¬ e.1 <= max_root) (ac_cache c)) c).

Definition cached_frozen_slots (c : AccountsCache) : list N :=
  merge_sort N.le (map_to_list (filter (λ e, sc_is_frozen e.2 = true) (ac_cache c))).*1.

Definition cache_contains (c : AccountsCache) (slot : N) : bool :=
  bool_decide (is_Some (ac_cache c !! slot)).
Definition num_slots (c : AccountsCache) : N := N.of_nat (size (ac_cache c)).

(** ** HyperGrid: the remote accounts *)
Section remote.
Context `{PubkeyDisplay, Sha256, KeypairBase58, !Bincode UpgradeableLoaderState}.

Definition load (slot : N) (pubkey : Pubkey) (c : AccountsCache) :
  option CachedAccount * AccountsCache :=
  match slot_cache c slot ≫= λ sc, get_cloned sc pubkey with
  | Some account => (Some account, c)
  | None =>
      match get_account (remote_loader c) pubkey with
      | Some acc => let '(item, c') := store slot pubkey acc c in (Some item, c')
      | None => (None, c)
      end
  end.

Definition has_account_from_remote (c : AccountsCache) (pubkey : Pubkey) : bool :=
  has_account (remote_loader c) pubkey.

(** [None]: some load recursed deeper than the fuel *)
Fixpoint load_accounts (fuel : nat) (b : BaseLayer) (pubkeys : list Pubkey)
    (l : RemoteAccountLoader) : option RemoteAccountLoader :=
  match pubkeys with
  | [] => Some l
  | pubkey :: rest => r ← load_account fuel b pubkey l; load_accounts fuel b rest r.2
  end.
Definition load_accounts_from_remote (fuel : nat) (b : BaseLayer) (pubkeys : list Pubkey)
    (c : AccountsCache) : option AccountsCache :=
  l ← load_accounts fuel b pubkeys (remote_loader c); Some (set_remote_loader l c).

Definition deactivate_remote_accounts (pubkeys : list Pubkey) (c : AccountsCache) : AccountsCache :=
  set_remote_loader (foldl (λ l k, deactivate_account k l) (remote_loader c) pubkeys) c.
End remote.
