(* ===== verification/MigraterProgram.v ===== *)
(** * The account migrater program ([programs/sonic-account-migrater] and
    [sdk/program/src/sonic_account_migrater])

    HyperGrid's builtin: on chain it only reports which of its accounts are moved
    in or out of the remote cache; the bank does the moving (see [Bank]). *)

From S2P Require Import Prelude Sdk Account TransactionContext AccountRules InstructionRules.
From S2P Require Import LogCollector InvokeContext InvokeRules Effects.

Inductive ProgramInstruction :=
| MigrateRemoteAccounts
| DeactivateRemoteAccounts.

#[export] Instance ProgramInstruction_eq_dec : EqDecision ProgramInstruction.
Proof. solve_decision. Defined.

Definition DEFAULT_COMPUTE_UNITS : N := 750.

Section migrater.
Context `{PubkeyDisplay, !Bincode ProgramInstruction}.

(** ** The instructions of the program *)

(** [Instruction::new_with_bincode], which unwraps the encoding *)
Definition remote_accounts_instruction {E} (instruction : ProgramInstruction)
    (payer_address : Pubkey) (addresses : list Pubkey) : result E Instruction :=
  let accounts := [meta_new_readonly payer_address true;
                   meta_new_readonly system_program_id false] ++
                  ((λ address, meta_new_readonly address false) <$> addresses) in
  let! bytes := unwrap (serialize instruction) in
  Ok (mkInstruction sonic_account_migrater_id accounts bytes).
Definition migrate_instruction {E} (payer_address : Pubkey) (addresses : list Pubkey) :
  result E Instruction :=
  remote_accounts_instruction MigrateRemoteAccounts payer_address addresses.
Definition deactivate_instruction {E} (payer_address : Pubkey) (addresses : list Pubkey) :
  result E Instruction :=
  remote_accounts_instruction DeactivateRemoteAccounts payer_address addresses.

(** ** The processor *)

(** [!account.is_signer() && !account.is_writable() && !check_id(&key)] *)
Definition reported (ba : BorrowedAccount) (key : Pubkey) : bool :=
  negb (ba_is_signer ba) && negb (ba_is_writable ba) &&
  negb (key_eqb key sonic_account_migrater_id).

(** [for i in 0..n], from [i] on for [n] more rounds, with the count so far *)
Fixpoint report_accounts (what : string) (ic : InstructionContext) (n : nat)
    (i addresses_len : N) : IC N :=
  match n with
  | O => ret addresses_len
  | S n' =>
      count <- ic_with_account (try_borrow_instruction_account ic i) (λ account,
        key <- on_tc (ba_get_key account) ;;
        if reported account key then
          ic_msg ("Account " +:+ pubkey_to_string key +:+ what) ;;
          ret (addresses_len + 1)
        else ret addresses_len) ;;
      report_accounts what ic n' (i + 1) count
  end.

Definition report_remote_accounts (what summary : string) : IC unit :=
  ic <- asks_tc get_current_instruction_context ;;
  let n := get_number_of_instruction_accounts ic in
  if n <? 1 then
    ic_msg "No accounts provided" ;; throw NotEnoughAccountKeys
  else
    addresses_len <- report_accounts what ic (N.to_nat n) 0 0 ;;
    clock <- asks (λ s, get_clock (sysvar_cache s)) ;;
    ic_msg (pretty addresses_len +:+ summary +:+ pretty (clock_slot clock) +:+ ".").

Definition migrate_remote_accounts : IC unit :=
  report_remote_accounts " is migrated from remote." " Remote Accounts are migrated at slot ".
Definition processor_deactivate_remote_accounts : IC unit :=
  report_remote_accounts " is deactivated in cache."
    " Remote Accounts are already deactivated at slot ".

Definition migrater_process_instruction : IC unit :=
  ic <- asks_tc get_current_instruction_context ;;
  instruction <- lift (limited_deserialize (instruction_data ic)) ;;
  match instruction with
  | MigrateRemoteAccounts => migrate_remote_accounts
  | DeactivateRemoteAccounts => processor_deactivate_remote_accounts
  end.

Definition migrater_entrypoint : program :=
  declare_process_instruction DEFAULT_COMPUTE_UNITS migrater_process_instruction.

(** ** Lawfulness *)
Lemma report_accounts_frame what ic n : ic_small ic → ∀ i c,
  steps_in (running ic) (ic_frame ic) (report_accounts what ic n i c).
Proof.
  intros Hsm. induction n as [|n IH]; intros i c; simpl; [frame_solve|].
  apply steps_bind; [apply _| |intros; apply IH].
  apply ic_with_handle_frame; [exact Hsm|]. intros ? ?. frame_solve.
Qed.

Lemma report_remote_frame what summary ic :
  steps_in (running ic) (ic_frame ic) (report_remote_accounts what summary).
Proof.
  intros s Hs. destruct (rn_ok _ _ Hs) as [Hsm _]. revert s Hs.
  apply steps_current; [done|]. cbv zeta. frame_solve. by apply report_accounts_frame.
Qed.

Lemma migrater_lawful ic : lawful ic migrater_entrypoint.
Proof.
  apply declared_lawful. clear ic. intros ic. unfold migrater_process_instruction.
  apply steps_current; [done|]. frame_solve; apply report_remote_frame.
Qed.

(** ** What the program reports *)

(** the key of an instruction account, when the program reports it *)
Definition reported_key (t : TransactionContext) (ia : InstructionAccount) : option Pubkey :=
  if ia_is_signer ia || ia_is_writable ia then None else
  key ← getN (account_keys t) (index_in_transaction ia);
  if key_eqb key sonic_account_migrater_id then None else Some key.
Definition reported_keys (t : TransactionContext) (ias : list InstructionAccount) : list Pubkey :=
  omap (reported_key t) ias.

(** the account is loaded and nothing borrows it *)
Definition borrowable (t : TransactionContext) (ia : InstructionAccount) : Prop :=
  ∃ c key, ta_get (tx_accounts t) (index_in_transaction ia) = Some c ∧ cell_borrowed c = false ∧
    getN (account_keys t) (index_in_transaction ia) = Some key.

Definition log_lines (what : string) (keys : list Pubkey) (c : option LogCollector) :
  option LogCollector :=
  foldl (λ c key, ic_logger_msg ("Account " +:+ pubkey_to_string key +:+ what) c) c keys.

Lemma borrow_and_drop i t c :
  ta_get (tx_accounts t) i = Some c → cell_borrowed c = false →
  set_cell i (λ c, mkCell (cell_value c) false) (set_cell i (λ c, mkCell (cell_value c) true) t) = t.
Proof.
  intros Hc Hb. destruct t as [ks [cells flags] ? ? ? ? ? ? ?]. unfold set_cell. simpl.
  unfold set_tx_accounts. simpl. do 2 f_equal. rewrite list_alter_alter_eq.
  rewrite (list_alter_ext _ id cells cells); [by apply list_alter_id| |done].
  intros x Hx. unfold ta_get, getN in Hc. simpl in Hc. rewrite Hc in Hx. injection Hx as <-.
  destruct c; simpl in *. by subst.
Qed.

(** one round of the loop *)
Lemma report_round what ic i ia count s :
  ic_small ic → getN (instruction_accounts ic) i = Some ia →
  borrowable (transaction_context s) ia →
  ic_with_account (try_borrow_instruction_account ic i) (λ account,
    key <- on_tc (ba_get_key account) ;;
    if reported account key then
      ic_msg ("Account " +:+ pubkey_to_string key +:+ what) ;; ret (count + 1)
    else ret count) s =
  (Ok (count + len (reported_keys (transaction_context s) [ia])),
   set_log_collector
     (log_lines what (reported_keys (transaction_context s) [ia]) (log_collector s)) s).
Proof.
  intros Hsm Hi (c & key & Hc & Hb & Hk). rewrite (ic_with_account_run _ _ _ _ _ _ Hi Hc Hb).
  destruct (handle_flags _ _ _ Hsm Hi) as [Hw Hs]. fold (handle_of ic i ia) in Hw, Hs.
  cbv zeta. unfold on_tc at 1, ba_get_key, asks, bind at 1, get_key_of_account_at_index. simpl.
  rewrite Hk. simpl. unfold reported, reported_keys, reported_key. simpl. rewrite Hw, Hs, Hk. simpl.
  rewrite <-negb_orb. unfold drop_borrow. simpl.
  destruct (ia_is_signer ia || ia_is_writable ia); [|destruct (key_eqb _ _)]; simpl;
    rewrite (borrow_and_drop _ _ _ Hc Hb); rewrite ?N.add_0_r; by destruct s.
Qed.

Lemma reported_keys_app t l1 l2 :
  reported_keys t (l1 ++ l2) = reported_keys t l1 ++ reported_keys t l2.
Proof. apply omap_app. Qed.

Lemma report_accounts_run what ic : ic_small ic → ∀ rest done s count,
  instruction_accounts ic = done ++ rest →
  Forall (borrowable (transaction_context s)) rest →
  report_accounts what ic (length rest) (len done) count s =
  (Ok (count + len (reported_keys (transaction_context s) rest)),
   set_log_collector
     (log_lines what (reported_keys (transaction_context s) rest) (log_collector s)) s).
Proof.
  intros Hsm rest. induction rest as [|ia rest IH]; intros done s count Heq Hb.
  { unfold len. simpl. rewrite N.add_0_r. by destruct s. }
  apply list.Forall_cons in Hb as [Hia Hrest].
  change (ia :: rest) with ([ia] ++ rest). rewrite reported_keys_app. cbn [length app report_accounts].
  assert (Hi : getN (instruction_accounts ic) (len done) = Some ia).
  { rewrite Heq. unfold getN, len. rewrite Nat2N.id. by apply list_lookup_middle. }
  rewrite (bind_ok _ _ _ _ _ (report_round what ic _ ia count s Hsm
    Hi Hia)).
  replace (len done + 1) with (len (done ++ [ia])) by (unfold len; rewrite length_app; simpl; lia).
  rewrite IH by (rewrite ?Heq, <-?app_assoc; done).
  cbn [transaction_context log_collector set_log_collector]. f_equal.
  - f_equal. unfold len. rewrite length_app. lia.
  - unfold log_lines. rewrite foldl_app. by destruct s.
Qed.

(** A call with at least one account, all of them loaded and free: one line per
    reported key and the summary, and nothing else changes. *)
Lemma report_remote_run what summary ic s clock :
  running ic s → instruction_accounts ic ≠ [] →
  Forall (borrowable (transaction_context s)) (instruction_accounts ic) →
  sc_clock (sysvar_cache s) = Some clock →
  let keys := reported_keys (transaction_context s) (instruction_accounts ic) in
  report_remote_accounts what summary s =
  (Ok tt, set_log_collector
     (ic_logger_msg (pretty (len keys) +:+ summary +:+ pretty (clock_slot clock) +:+ ".")
        (log_lines what keys (log_collector s))) s).
Proof.
  intros Hr Hne Hb Hclock keys. destruct (rn_ok _ _ Hr) as [Hsm _].
  unfold report_remote_accounts, bind at 1, asks_tc, asks.
  rewrite (rn_current _ _ Hr). cbv zeta.
  assert (Hn : get_number_of_instruction_accounts ic = len (instruction_accounts ic)).
  { apply N.mod_small. unfold ic_small, u16_max in *. lia. }
  rewrite Hn. destruct (N.ltb_spec (len (instruction_accounts ic)) 1) as [Hlt|_].
  { destruct (instruction_accounts ic); [done|]. unfold len in Hlt. simpl in Hlt. lia. }
  pose proof (report_accounts_run what ic Hsm (instruction_accounts ic) [] s 0 eq_refl Hb) as Hrun.
  unfold len in *. rewrite Nat2N.id. rewrite (bind_ok _ _ _ _ _ Hrun). unfold bind, asks, get_clock.
  simpl. rewrite Hclock. simpl. by destruct s.
Qed.
End migrater.
