(* ===== verification/Codec.v ===== *)
(** * The binary formats

    [bincode]'s default format (little-endian integers of fixed width, a [u32] tag
    before the fields of an enum, a [u64] length before the bytes of a vector, one
    byte before an [Option]) for the instruction and state types of the modelled
    programs.  The components take the format as a parameter with the law
    [BincodeLaws]; these instances show that the law holds of it, and make closed
    runs of the programs possible. *)

From S2P Require Import Prelude Sdk RemoteLoader Nonce SystemProgram LookupTable MigraterProgram.

(** ** Codecs *)
Record codec (A : Type) := mkCodec {
  enc : A → option (list N);
  dec : list N → option (A * list N) }.
Arguments mkCodec {A}.
Arguments enc {A}.
Arguments dec {A}.

Class CodecOk {A} (c : codec A) :=
  dec_enc : ∀ a bs rest, enc c a = Some bs → dec c (bs ++ rest) = Some (a, rest).

Fixpoint from_le (l : list N) : N :=
  match l with [] => 0 | b :: l' => b + 256 * from_le l' end.

Definition c_fixed (n : nat) : codec (list N) := mkCodec
  (λ l, if (length l =? n)%nat then Some l else None)
  (λ bs, if (n <=? length bs)%nat then Some (take n bs, drop n bs) else None).
Definition c_int (n : nat) : codec N := mkCodec
  (λ z, if z <? 256 ^ N.of_nat n then Some (le_bytes n z) else None)
  (λ bs, '(l, rest) ← dec (c_fixed n) bs; Some (from_le l, rest)).
Definition c_unit : codec unit := mkCodec (λ _, Some []) (λ bs, Some (tt, bs)).
Definition c_pair {A B} (c : codec A) (d : codec B) : codec (A * B) := mkCodec
  (λ x, a ← enc c x.1; b ← enc d x.2; Some (a ++ b))
  (λ bs, '(a, r) ← dec c bs; '(b, r') ← dec d r; Some ((a, b), r')).
Definition c_map {A B} (f : A → B) (g : B → A) (c : codec A) : codec B := mkCodec
  (λ b, enc c (g b)) (λ bs, '(a, r) ← dec c bs; Some (f a, r)).
Definition c_bytes : codec (list N) := mkCodec
  (λ l, a ← enc (c_int 8) (len l); Some (a ++ l))
  (λ bs, '(n, r) ← dec (c_int 8) bs; dec (c_fixed (N.to_nat n)) r).
Definition c_option {A} (c : codec A) : codec (option A) := mkCodec
  (λ o, match o with None => Some [0] | Some a => (λ bs, 1 :: bs) <$> enc c a end)
  (λ bs, match bs with
         | 0 :: r => Some (None, r)
         | 1 :: r => '(a, r') ← dec c r; Some (Some a, r')
         | _ => None
         end).
Definition c_pubkey : codec Pubkey := c_map mkPubkey to_bytes (c_fixed 32).
Definition c_hash : codec Hash := c_map mkHash hash_bytes (c_fixed 32).

#[export] Instance c_fixed_ok n : CodecOk (c_fixed n).
Proof.
  intros l bs rest. simpl. destruct (Nat.eqb_spec (length l) n) as [<-|]; [|done].
  intros [= <-]. rewrite length_app. destruct (Nat.leb_spec (length l) (length l + length rest)); [|lia].
  by rewrite take_app_length, drop_app_length.
Qed.
Lemma from_le_bytes n : ∀ z, z < 256 ^ N.of_nat n → from_le (le_bytes n z) = z.
Proof.
  induction n as [|n IH]; intros z Hz; simpl; [change (256 ^ N.of_nat 0) with 1 in Hz; lia|].
  rewrite N.shiftr_div_pow2. change (2 ^ 8) with 256. rewrite IH.
  - unfold as_u8. pose proof (N.div_mod z 256). lia.
  - rewrite Nat2N.inj_succ, N.pow_succ_r' in Hz. apply N.Div0.div_lt_upper_bound. lia.
Qed.
Lemma le_bytes_length n z : length (le_bytes n z) = n.
Proof. revert z. induction n; intros z; simpl; auto. Qed.
#[export] Instance c_int_ok n : CodecOk (c_int n).
Proof.
  intros z bs rest. unfold c_int, enc at 1. destruct (N.ltb_spec z (256 ^ N.of_nat n)); [|done].
  intros [= <-]. cbn [dec]. rewrite (dec_enc (le_bytes n z)).
  - simpl. by rewrite from_le_bytes.
  - simpl. by rewrite le_bytes_length, Nat.eqb_refl.
Qed.
#[export] Instance c_unit_ok : CodecOk c_unit.
Proof. intros [] bs rest [= <-]. done. Qed.
#[export] Instance c_pair_ok {A B} (c : codec A) (d : codec B) :
  CodecOk c → CodecOk d → CodecOk (c_pair c d).
Proof.
  intros Hc Hd [a b] bs rest. simpl.
  intros (x & Hx & (y & Hy & [= <-])%bind_Some)%bind_Some. rewrite <-app_assoc.
  rewrite (Hc _ _ _ Hx). simpl. by rewrite (Hd _ _ _ Hy).
Qed.
Lemma c_map_ok {A B} (f : A → B) g (c : codec A) :
  CodecOk c → (∀ b, f (g b) = b) → CodecOk (c_map f g c).
Proof. intros Hc Hfg b bs rest Hb. simpl in *. rewrite (Hc _ _ _ Hb). simpl. by rewrite Hfg. Qed.
#[export] Instance c_pubkey_ok : CodecOk c_pubkey.
Proof. apply c_map_ok; [apply _|by intros []]. Qed.
#[export] Instance c_hash_ok : CodecOk c_hash.
Proof. apply c_map_ok; [apply _|by intros []]. Qed.
#[export] Instance c_bytes_ok : CodecOk c_bytes.
Proof.
  intros l bs rest. unfold c_bytes. cbn [enc dec].
  intros (a & Ha & [= <-])%bind_Some. rewrite <-app_assoc, (dec_enc _ _ _ Ha). cbn [mbind option_bind].
  rewrite (dec_enc (c := c_fixed (N.to_nat (len l))) l); [done|].
  simpl. unfold len. by rewrite Nat2N.id, Nat.eqb_refl.
Qed.
#[export] Instance c_option_ok {A} (c : codec A) : CodecOk c → CodecOk (c_option c).
Proof.
  intros Hc [a|] bs rest; simpl; [|by intros [= <-]].
  intros (x & Hx & ->)%fmap_Some. simpl. by rewrite (Hc _ _ _ Hx).
Qed.

(** ** Enums *)

(** one constructor: its tag, the codec of its fields *)
Definition enc_tag {A} (tag : N) (c : codec A) (a : A) : option (list N) :=
  enc (c_pair (c_int 4) c) (tag, a).
Definition dec_as {A B} (c : codec A) (f : A → B) (bs : list N) : option (B * list N) :=
  '(a, r) ← dec c bs; Some (f a, r).
Definition c_enum {B} (e : B → option (list N)) (d : N → list N → option (B * list N)) : codec B :=
  mkCodec e (λ bs, '(tag, r) ← dec (c_int 4) bs; d tag r).

Lemma c_enum_ok {B} e (d : N → list N → option (B * list N)) :
  (∀ b, ∃ tag A (c : codec A) a f, CodecOk c ∧ e b = enc_tag tag c a ∧ d tag = dec_as c f ∧ f a = b) →
  CodecOk (c_enum e d).
Proof.
  intros Hv b bs rest Hb. destruct (Hv b) as (tag & A & c & a & f & Hc & He & Hd & <-).
  unfold c_enum in *. cbn [enc dec] in *. rewrite He in Hb. unfold enc_tag, c_pair in Hb.
  cbn [enc fst snd] in Hb.
  apply bind_Some in Hb as (x & Hx & (y & Hy & [= <-])%bind_Some).
  rewrite <-app_assoc, (dec_enc _ _ _ Hx). cbn. rewrite Hd. unfold dec_as.
  by rewrite (Hc _ _ _ Hy).
Qed.

Abbreviation u64 := (c_int 8).

Definition c_system_instruction : codec SystemInstruction := c_enum
  (λ i, match i with
   | CreateAccount l s o => enc_tag 0 (c_pair u64 (c_pair u64 c_pubkey)) (l, (s, o))
   | Assign o => enc_tag 1 c_pubkey o
   | Transfer l => enc_tag 2 u64 l
   | CreateAccountWithSeed b sd l s o =>
       enc_tag 3 (c_pair c_pubkey (c_pair c_bytes (c_pair u64 (c_pair u64 c_pubkey))))
         (b, (sd, (l, (s, o))))
   | AdvanceNonceAccount => enc_tag 4 c_unit tt
   | WithdrawNonceAccount l => enc_tag 5 u64 l
   | InitializeNonceAccount k => enc_tag 6 c_pubkey k
   | AuthorizeNonceAccount k => enc_tag 7 c_pubkey k
   | Allocate s => enc_tag 8 u64 s
   | AllocateWithSeed b sd s o =>
       enc_tag 9 (c_pair c_pubkey (c_pair c_bytes (c_pair u64 c_pubkey))) (b, (sd, (s, o)))
   | AssignWithSeed b sd o => enc_tag 10 (c_pair c_pubkey (c_pair c_bytes c_pubkey)) (b, (sd, o))
   | TransferWithSeed l sd o => enc_tag 11 (c_pair u64 (c_pair c_bytes c_pubkey)) (l, (sd, o))
   | UpgradeNonceAccount => enc_tag 12 c_unit tt
   end)
  (λ tag, match tag with
   | 0 => dec_as (c_pair u64 (c_pair u64 c_pubkey)) (λ '(l, (s, o)), CreateAccount l s o)
   | 1 => dec_as c_pubkey Assign
   | 2 => dec_as u64 Transfer
   | 3 => dec_as (c_pair c_pubkey (c_pair c_bytes (c_pair u64 (c_pair u64 c_pubkey))))
            (λ '(b, (sd, (l, (s, o)))), CreateAccountWithSeed b sd l s o)
   | 4 => dec_as c_unit (λ _, AdvanceNonceAccount)
   | 5 => dec_as u64 WithdrawNonceAccount
   | 6 => dec_as c_pubkey InitializeNonceAccount
   | 7 => dec_as c_pubkey AuthorizeNonceAccount
   | 8 => dec_as u64 Allocate
   | 9 => dec_as (c_pair c_pubkey (c_pair c_bytes (c_pair u64 c_pubkey)))
            (λ '(b, (sd, (s, o))), AllocateWithSeed b sd s o)
   | 10 => dec_as (c_pair c_pubkey (c_pair c_bytes c_pubkey)) (λ '(b, (sd, o)), AssignWithSeed b sd o)
   | 11 => dec_as (c_pair u64 (c_pair c_bytes c_pubkey)) (λ '(l, (sd, o)), TransferWithSeed l sd o)
   | 12 => dec_as c_unit (λ _, UpgradeNonceAccount)
   | _ => λ _, None
   end).

(** proves the premise of [c_enum_ok] for a value in constructor form *)
Ltac enum_case := repeat eexists; [apply _|reflexivity..].

#[export] Instance c_system_instruction_ok : CodecOk c_system_instruction.
Proof. apply c_enum_ok. intros []; enum_case. Qed.

Definition c_nonce_state : codec NonceState := c_enum
  (λ s, match s with
   | Uninitialized => enc_tag 0 c_unit tt
   | Initialized (mkNonceData k h n) => enc_tag 1 (c_pair c_pubkey (c_pair c_hash u64)) (k, (h, n))
   end)
  (λ tag, match tag with
   | 0 => dec_as c_unit (λ _, Uninitialized)
   | 1 => dec_as (c_pair c_pubkey (c_pair c_hash u64)) (λ '(k, (h, n)), Initialized (mkNonceData k h n))
   | _ => λ _, None
   end).
#[export] Instance c_nonce_state_ok : CodecOk c_nonce_state.
Proof. apply c_enum_ok. intros [|[]]; enum_case. Qed.

Definition c_versions : codec Versions := c_enum
  (λ v, match v with
   | VLegacy s => enc_tag 0 c_nonce_state s
   | VCurrent s => enc_tag 1 c_nonce_state s
   end)
  (λ tag, match tag with
   | 0 => dec_as c_nonce_state VLegacy
   | 1 => dec_as c_nonce_state VCurrent
   | _ => λ _, None
   end).
#[export] Instance c_versions_ok : CodecOk c_versions.
Proof. apply c_enum_ok. intros []; enum_case. Qed.

Definition c_loader_state : codec UpgradeableLoaderState := c_enum
  (λ s, match s with
   | LoaderUninitialized => enc_tag 0 c_unit tt
   | Buffer a => enc_tag 1 (c_option c_pubkey) a
   | Program k => enc_tag 2 c_pubkey k
   | ProgramData n a => enc_tag 3 (c_pair u64 (c_option c_pubkey)) (n, a)
   end)
  (λ tag, match tag with
   | 0 => dec_as c_unit (λ _, LoaderUninitialized)
   | 1 => dec_as (c_option c_pubkey) Buffer
   | 2 => dec_as c_pubkey Program
   | 3 => dec_as (c_pair u64 (c_option c_pubkey)) (λ '(n, a), ProgramData n a)
   | _ => λ _, None
   end).
#[export] Instance c_loader_state_ok : CodecOk c_loader_state.
Proof. apply c_enum_ok. intros []; enum_case. Qed.

Definition c_program_instruction : codec ProgramInstruction := c_enum
  (λ i, match i with
   | MigrateRemoteAccounts => enc_tag 0 c_unit tt
   | DeactivateRemoteAccounts => enc_tag 1 c_unit tt
   end)
  (λ tag, match tag with
   | 0 => dec_as c_unit (λ _, MigrateRemoteAccounts)
   | 1 => dec_as c_unit (λ _, DeactivateRemoteAccounts)
   | _ => λ _, None
   end).
#[export] Instance c_program_instruction_ok : CodecOk c_program_instruction.
Proof. apply c_enum_ok. intros []; enum_case. Qed.

(** a vector: the number of elements, then each *)
Fixpoint enc_all {A} (c : codec A) (l : list A) : option (list N) :=
  match l with [] => Some [] | a :: l' => x ← enc c a; y ← enc_all c l'; Some (x ++ y) end.
Fixpoint dec_all {A} (c : codec A) (n : nat) (bs : list N) : option (list A * list N) :=
  match n with
  | O => Some ([], bs)
  | S n' => '(a, r) ← dec c bs; '(l, r') ← dec_all c n' r; Some (a :: l, r')
  end.
Definition c_vec {A} (c : codec A) : codec (list A) := mkCodec
  (λ l, a ← enc u64 (len l); b ← enc_all c l; Some (a ++ b))
  (λ bs, '(n, r) ← dec u64 bs; dec_all c (N.to_nat n) r).
Lemma dec_enc_all {A} (c : codec A) : CodecOk c → ∀ l bs rest,
  enc_all c l = Some bs → dec_all c (length l) (bs ++ rest) = Some (l, rest).
Proof.
  intros Hc l. induction l as [|a l IH]; intros bs rest; simpl; [by intros [= <-]|].
  intros (x & Hx & (y & Hy & [= <-])%bind_Some)%bind_Some.
  rewrite <-app_assoc, (Hc _ _ _ Hx). simpl. by rewrite (IH _ _ Hy).
Qed.
#[export] Instance c_vec_ok {A} (c : codec A) : CodecOk c → CodecOk (c_vec c).
Proof.
  intros Hc l bs rest. unfold c_vec. cbn [enc dec].
  intros (a & Ha & (b & Hb & [= <-])%bind_Some)%bind_Some.
  rewrite <-app_assoc, (dec_enc _ _ _ Ha). cbn [mbind option_bind]. unfold len. rewrite Nat2N.id.
  by apply dec_enc_all.
Qed.

Abbreviation c_table_meta_fields := (c_pair u64 (c_pair u64 (c_pair (c_int 1) (c_pair (c_option c_pubkey) (c_int 2))))).
Definition c_lookup_table_state : codec LookupTableState := c_enum
  (λ s, match s with
   | TableUninitialized => enc_tag 0 c_unit tt
   | LookupTable (mkLookupTableMeta d l i a p) => enc_tag 1 c_table_meta_fields (d, (l, (i, (a, p))))
   end)
  (λ tag, match tag with
   | 0 => dec_as c_unit (λ _, TableUninitialized)
   | 1 => dec_as c_table_meta_fields (λ '(d, (l, (i, (a, p)))), LookupTable (mkLookupTableMeta d l i a p))
   | _ => λ _, None
   end).
#[export] Instance c_lookup_table_state_ok : CodecOk c_lookup_table_state.
Proof. apply c_enum_ok. intros [|[]]; enum_case. Qed.
Definition c_lookup_table_instruction : codec LookupTableInstruction := c_enum
  (λ i, match i with
   | CreateLookupTable slot bump => enc_tag 0 (c_pair u64 (c_int 1)) (slot, bump)
   | FreezeLookupTable => enc_tag 1 c_unit tt
   | ExtendLookupTable new_addresses => enc_tag 2 (c_vec c_pubkey) new_addresses
   | DeactivateLookupTable => enc_tag 3 c_unit tt
   | CloseLookupTable => enc_tag 4 c_unit tt
   end)
  (λ tag, match tag with
   | 0 => dec_as (c_pair u64 (c_int 1)) (λ '(slot, bump), CreateLookupTable slot bump)
   | 1 => dec_as c_unit (λ _, FreezeLookupTable)
   | 2 => dec_as (c_vec c_pubkey) ExtendLookupTable
   | 3 => dec_as c_unit (λ _, DeactivateLookupTable)
   | 4 => dec_as c_unit (λ _, CloseLookupTable)
   | _ => λ _, None
   end).
#[export] Instance c_lookup_table_instruction_ok : CodecOk c_lookup_table_instruction.
Proof. apply c_enum_ok. intros []; enum_case. Qed.

(** ** The parameters of the components *)
Definition bincode_of {A} (c : codec A) : Bincode A :=
  {| serialize := enc c; deserialize := λ bs, fst <$> dec c bs |}.
Lemma bincode_of_laws {A} (c : codec A) : CodecOk c → @BincodeLaws A (bincode_of c).
Proof. intros Hc a bs rest Hb. simpl in *. by rewrite (Hc _ _ _ Hb). Qed.

Module Bincodes.
#[export] Instance system_instruction : Bincode SystemInstruction := bincode_of c_system_instruction.
#[export] Instance versions : Bincode Versions := bincode_of c_versions.
#[export] Instance loader_state : Bincode UpgradeableLoaderState := bincode_of c_loader_state.
#[export] Instance program_instruction : Bincode ProgramInstruction := bincode_of c_program_instruction.
#[export] Instance system_instruction_laws : BincodeLaws SystemInstruction := bincode_of_laws _ _.
#[export] Instance versions_laws : BincodeLaws Versions := bincode_of_laws _ _.
#[export] Instance loader_state_laws : BincodeLaws UpgradeableLoaderState := bincode_of_laws _ _.
#[export] Instance program_instruction_laws : BincodeLaws ProgramInstruction := bincode_of_laws _ _.
#[export] Instance lookup_table_state : Bincode LookupTableState := bincode_of c_lookup_table_state.
#[export] Instance lookup_table_instruction : Bincode LookupTableInstruction :=
  bincode_of c_lookup_table_instruction.
#[export] Instance lookup_table_state_laws : BincodeLaws LookupTableState := bincode_of_laws _ _.
#[export] Instance lookup_table_instruction_laws : BincodeLaws LookupTableInstruction := bincode_of_laws _ _.
End Bincodes.

(** stand-ins for the other libraries, for closed runs: keys in hexadecimal, a hash
    that keeps the last bytes, no point on the curve, and key pairs named by their public
    key *)
Module StandIns.
Fixpoint hex_of_bytes (l : list N) : string :=
  match l with
  | [] => ""
  | b :: l' => LogCollector.hex_digit (b `div` 16) +:+ LogCollector.hex_digit (b `mod` 16) +:+
               hex_of_bytes l'
  end.
(** leading zeros are not written *)
Fixpoint strip_zeros (l : list N) : list N :=
  match l with 0 :: l' => strip_zeros l' | _ => l end.
#[export] Instance display : PubkeyDisplay := λ k, hex_of_bytes (strip_zeros (to_bytes k)).
#[export] Instance sha256 : Sha256 := λ ls, mkHash (take 32 (rev (concat ls) ++ replicate 32 0)).
#[export] Instance curve : Curve25519 := λ _, false.
#[export] Instance keypair : KeypairBase58 := λ s,
  Some (pubkey_of_N (N.of_nat (String.length s))).
End StandIns.
