(* ===== verification/WireFormat.v ===== *)
(** * The wire format of transactions

    Short lengths ([sdk/program/src/short_vec.rs]), messages of both versions
    ([sdk/program/src/message/versions/mod.rs], [legacy.rs], [versions/v0/mod.rs])
    and transactions ([sdk/src/transaction/versioned/mod.rs]) as bytes.  Serde
    derives the format of a struct from its fields, in their order; a field marked
    [short_vec] is preceded by a length of one to three bytes. *)

From S2P Require Import Prelude Sdk Message RemoteLoader Codec.

(** ** Lengths of one to three bytes *)

(** the loop of [ShortU16::serialize]; each round takes seven bits *)
Fixpoint short_u16_loop (fuel : nat) (rem_val : N) : list N :=
  match fuel with
  | O => []
  | S fuel' =>
      let elem := N.land rem_val 0x7f in
      let rem_val := N.shiftr rem_val 7 in
      if rem_val =? 0 then [elem] else N.lor elem 0x80 :: short_u16_loop fuel' rem_val
  end.
(** three rounds exhaust sixteen bits *)
Definition serialize_short_u16 (val : N) : list N := short_u16_loop 3 val.

Inductive VisitStatus := Done (val : N) | More (val : N).
Inductive VisitError :=
| TooLong (len : N)
| TooShort (len : N)
| Overflow (val : N)
| Alias
| ByteThreeContinues.

Definition MAX_ENCODING_LENGTH : N := 3.
Definition checked_shl (x shift : N) : option N :=
  if shift <? 32 then Some (as_u32 (N.shiftl x shift)) else None.

Definition visit_byte (elem val nth_byte : N) : result VisitError VisitStatus :=
  if (elem =? 0) && negb (nth_byte =? 0) then Err Alias else
  let elem_val := N.land elem 0x7f in
  let elem_done := N.land elem 0x80 =? 0 in
  if MAX_ENCODING_LENGTH <=? nth_byte then Err (TooLong (saturating_add u64_max nth_byte 1)) else
  if (nth_byte =? saturating_sub MAX_ENCODING_LENGTH 1) && negb elem_done
  then Err ByteThreeContinues else
  let shift := N.min u32_max (nth_byte * 7) in
  let elem_val := default u32_max (checked_shl elem_val shift) in
  let new_val := N.lor val elem_val in
  if u16_max <? new_val then Err (Overflow new_val) else
  Ok (if elem_done then Done new_val else More new_val).

(** [ShortU16Visitor::visit_seq]: the value and the bytes that are left *)
Fixpoint visit_seq (rounds : nat) (nth_byte val : N) (bytes : list N) :
  result VisitError (N * list N) :=
  match rounds with
  | O => Err ByteThreeContinues
  | S rounds' =>
      match bytes with
      | [] => Err (TooShort (saturating_add u64_max nth_byte 1))
      | elem :: bytes' =>
          let! status := visit_byte elem val nth_byte in
          match status with
          | Done new_val => Ok (new_val, bytes')
          | More new_val => visit_seq rounds' (nth_byte + 1) new_val bytes'
          end
      end
  end.
Definition deserialize_short_u16 : list N → result VisitError (N * list N) := visit_seq 3 0 0.

(** [decode_shortu16_len]: the value and how many bytes it took; [Err] has no content *)
Fixpoint decode_loop (nth_byte val : N) (bytes : list N) : result unit (N * N) :=
  match bytes with
  | [] => Err tt
  | byte :: bytes' =>
      match visit_byte byte val nth_byte with
      | Ok (More new_val) => decode_loop (nth_byte + 1) new_val bytes'
      | Ok (Done new_val) => Ok (new_val, saturating_add u64_max nth_byte 1)
      | Err _ => Err tt
      | Panic => Panic
      end
  end.
Definition decode_shortu16_len (bytes : list N) : result unit (N * N) :=
  decode_loop 0 0 (take (N.to_nat MAX_ENCODING_LENGTH) bytes).

(** ** The arithmetic of the encoding *)
Lemma land_127 n : N.land n 0x7f = n `mod` 128.
Proof. change 0x7f with (N.ones 7). by rewrite N.land_ones. Qed.
Lemma shiftr_7 n : N.shiftr n 7 = n `div` 128.
Proof. by rewrite N.shiftr_div_pow2. Qed.

Lemma lor_disjoint a b n : a < 2 ^ n → N.lor a (b * 2 ^ n) = a + b * 2 ^ n.
Proof.
  intros Ha. assert (N.land a (b * 2 ^ n) = 0) as Hl.
  { apply N.bits_inj. intros i. rewrite N.land_spec, N.bits_0.
    destruct (N.lt_ge_cases i n) as [Hi|Hi].
    - by rewrite N.mul_pow2_bits_low, andb_false_r.
    - rewrite <-(N.mod_small a (2 ^ n)) by done. by rewrite N.mod_pow2_bits_high. }
  by rewrite <-N.lxor_lor, N.add_nocarry_lxor.
Qed.
Lemma lor_128 n : n < 128 → N.lor n 0x80 = n + 128.
Proof. intros Hn. apply (lor_disjoint n 1 7). done. Qed.
Lemma byte_cases (P : N → bool) n :
  n < 256 → forallb P (N.of_nat <$> seq 0 256) = true → P n = true.
Proof.
  rewrite forallb_forall. intros Hn HP. apply HP, list_elem_of_In, list_elem_of_fmap.
  exists (N.to_nat n). rewrite N2Nat.id, elem_of_seq. split; [done|lia].
Qed.
Lemma land_128 n : n < 256 → (N.land n 0x80 =? 0) = (n <? 128).
Proof.
  intros Hn. apply eqb_prop.
  by apply (byte_cases (λ n, eqb (N.land n 0x80 =? 0) (n <? 128))).
Qed.

(** what a byte means at its place, the value read so far being [val] *)
Lemma visit_byte_eq elem val k :
  elem < 256 → k < 3 → val < 128 ^ k →
  visit_byte elem val k =
  if (elem =? 0) && negb (k =? 0) then Err Alias else
  if (k =? 2) && negb (elem <? 128) then Err ByteThreeContinues else
  let new_val := val + elem `mod` 128 * 128 ^ k in
  if u16_max <? new_val then Err (Overflow new_val) else
  Ok (if elem <? 128 then Done new_val else More new_val).
Proof.
  intros He Hk Hv. unfold visit_byte. destruct (_ && _); [done|].
  rewrite land_128, land_127 by done.
  rewrite (proj2 (N.leb_gt MAX_ENCODING_LENGTH k)) by done.
  change (saturating_sub MAX_ENCODING_LENGTH 1) with 2. destruct (_ && _); [done|].
  assert (Hm : elem `mod` 128 < 128) by (by apply N.mod_lt).
  rewrite N.min_r by (unfold u32_max; lia). unfold checked_shl.
  rewrite (proj2 (N.ltb_lt (k * 7) 32)) by lia. cbn [from_option id]. rewrite N.shiftl_mul_pow2.
  assert (128 ^ k = 2 ^ (k * 7)) as Hp.
  { change 128 with (2 ^ 7). by rewrite <-N.pow_mul_r, N.mul_comm. }
  unfold as_u32. rewrite N.mod_small.
  - rewrite lor_disjoint by (by rewrite <-Hp). by rewrite Hp.
  - assert (2 ^ (k * 7) ≤ 2 ^ 14) by (apply N.pow_le_mono_r; lia).
    change (2 ^ 14) with 16384 in *. nia.
Qed.

(** the three shapes of an encoding *)
Lemma serialize_short_u16_eq n :
  n ≤ u16_max →
  serialize_short_u16 n =
  if n <? 128 then [n] else
  if n <? 16384 then [n `mod` 128 + 128; n `div` 128] else
  [n `mod` 128 + 128; (n `div` 128) `mod` 128 + 128; n `div` 16384].
Proof.
  unfold u16_max, serialize_short_u16. intros Hn. cbn [short_u16_loop].
  rewrite !land_127, !shiftr_7, !N.Div0.div_div.
  rewrite !lor_128 by (by apply N.mod_lt). change (128 * 128) with 16384.
  destruct (N.ltb_spec n 128) as [H1|H1].
  { rewrite (N.div_small n 128), N.mod_small by done. done. }
  destruct (N.eqb_spec (n `div` 128) 0) as [E|E].
  { apply N.div_small_iff in E; lia. }
  destruct (N.ltb_spec n 16384) as [H2|H2].
  - rewrite (N.div_small n 16384) by done. simpl. rewrite (N.mod_small (n `div` 128)); [done|].
    apply N.Div0.div_lt_upper_bound. lia.
  - destruct (N.eqb_spec (n `div` 16384) 0) as [E2|E2].
    { apply N.div_small_iff in E2; lia. }
    change (16384 * 128) with 2097152. rewrite (N.div_small n 2097152) by lia. simpl.
    rewrite (N.mod_small (n `div` 16384)); [done|]. apply N.Div0.div_lt_upper_bound. lia.
Qed.

Lemma visit_done elem val k :
  elem < 128 → elem ≠ 0 ∨ k = 0 → k < 3 → val < 128 ^ k → val + elem * 128 ^ k ≤ u16_max →
  visit_byte elem val k = Ok (Done (val + elem * 128 ^ k)).
Proof.
  intros He Hor Hk Hv Hu. rewrite visit_byte_eq by (done || lia).
  rewrite (proj2 (N.ltb_lt elem 128)) by done. rewrite andb_false_r. cbv zeta.
  rewrite N.mod_small, (proj2 (N.ltb_ge _ _)) by done.
  destruct (N.eqb_spec elem 0), (N.eqb_spec k 0); simpl; try done; lia.
Qed.
Lemma visit_more elem val k :
  elem < 128 → k < 2 → val < 128 ^ k → val + elem * 128 ^ k ≤ u16_max →
  visit_byte (elem + 128) val k = Ok (More (val + elem * 128 ^ k)).
Proof.
  intros He Hk Hv Hu. rewrite visit_byte_eq by (done || lia).
  rewrite (proj2 (N.ltb_ge (elem + 128) 128)) by lia.
  rewrite (proj2 (N.eqb_neq (elem + 128) 0)), (proj2 (N.eqb_neq k 2)) by lia. cbn [andb]. cbv zeta.
  assert ((elem + 128) `mod` 128 = elem) as ->.
  { rewrite <-(N.mod_small elem 128) at 2 by done. apply (N.Div0.mod_add elem 1 128). }
  by rewrite (proj2 (N.ltb_ge _ _)).
Qed.
Lemma visit_inv elem val k st :
  elem < 256 → k < 3 → val < 128 ^ k → visit_byte elem val k = Ok st →
  ∃ e, e < 128 ∧ val + e * 128 ^ k ≤ u16_max ∧
    ((elem = e ∧ (e ≠ 0 ∨ k = 0) ∧ st = Done (val + e * 128 ^ k)) ∨
     (elem = e + 128 ∧ k < 2 ∧ st = More (val + e * 128 ^ k))).
Proof.
  intros He Hk Hv. rewrite visit_byte_eq by done. cbv zeta.
  destruct (_ && _) eqn:H1; [done|]. destruct ((k =? 2) && _) eqn:H2; [done|].
  destruct (N.ltb_spec u16_max (val + elem `mod` 128 * 128 ^ k)) as [|Hu]; [done|]. intros [= <-].
  exists (elem `mod` 128). split; [by apply N.mod_lt|]. split; [done|].
  destruct (N.ltb_spec elem 128) as [H3|H3]; [left|right].
  - rewrite N.mod_small by done. split_and!; [done| |done].
    destruct (N.eqb_spec elem 0), (N.eqb_spec k 0); simpl in H1; try done; auto.
  - rewrite andb_true_r in H2. apply N.eqb_neq in H2. split_and!; [|lia|done].
    assert (elem `mod` 128 = elem - 128) as ->; [|lia].
    rewrite <-(N.mod_small (elem - 128) 128), <-(N.Div0.mod_add (elem - 128) 1 128) by lia.
    f_equal. lia.
Qed.

#[local] Ltac side := first [done|by right|unfold u16_max in *; simpl in *; lia].

(** reading back what was written *)
Lemma short_u16_read_write n rest :
  n ≤ u16_max → deserialize_short_u16 (serialize_short_u16 n ++ rest) = Ok (n, rest).
Proof.
  intros Hn. rewrite serialize_short_u16_eq by done. unfold deserialize_short_u16.
  pose proof (N.mod_lt n 128 ltac:(done)) as Hm.
  pose proof (N.mod_lt (n `div` 128) 128 ltac:(done)) as Hm'.
  pose proof (N.div_mod n 128 ltac:(done)) as Hd.
  pose proof (N.div_mod (n `div` 128) 128 ltac:(done)) as Hd'.
  rewrite N.Div0.div_div in Hd'. change (128 * 128) with 16384 in Hd'.
  generalize dependent ((n `div` 128) `mod` 128). generalize dependent (n `div` 16384).
  generalize dependent (n `div` 128). generalize dependent (n `mod` 128). unfold u16_max in Hn.
  intros a Ha b Hb c d Hd Hc.
  destruct (N.ltb_spec n 128) as [H1|H1]; [|destruct (N.ltb_spec n 16384)]; cbn [visit_seq app].
  - rewrite visit_done by side. cbn [rbind]. do 2 f_equal. lia.
  - rewrite visit_more by side. cbn [rbind]. rewrite visit_done by side. cbn [rbind]. do 2 f_equal.
    simpl. lia.
  - rewrite visit_more by side. cbn [rbind]. rewrite visit_more by side. cbn [rbind].
    rewrite visit_done by side. cbn [rbind]. do 2 f_equal. simpl. lia.
Qed.

(** the encoding of a number given by its digits *)
Lemma digits_div e0 m : e0 < 128 → (e0 + m * 128) `div` 128 = m ∧ (e0 + m * 128) `mod` 128 = e0.
Proof. intros He. by rewrite N.div_add, N.Div0.mod_add, N.div_small, N.mod_small by done. Qed.
Lemma serialize_one e0 : e0 < 128 → serialize_short_u16 e0 = [e0].
Proof. intros He. rewrite serialize_short_u16_eq by side. by rewrite (proj2 (N.ltb_lt _ _)). Qed.
Lemma serialize_two e0 e1 :
  e0 < 128 → e1 < 128 → e1 ≠ 0 → serialize_short_u16 (e0 + e1 * 128) = [e0 + 128; e1].
Proof.
  intros H0 H1 Hne. rewrite serialize_short_u16_eq by side.
  rewrite (proj2 (N.ltb_ge _ _)), (proj2 (N.ltb_lt _ _)) by lia.
  by destruct (digits_div e0 e1 H0) as [-> ->].
Qed.
Lemma serialize_three e0 e1 e2 :
  e0 < 128 → e1 < 128 → e2 ≠ 0 → e0 + e1 * 128 + e2 * 16384 ≤ u16_max →
  serialize_short_u16 (e0 + e1 * 128 + e2 * 16384) = [e0 + 128; e1 + 128; e2].
Proof.
  intros H0 H1 Hne Hu. rewrite serialize_short_u16_eq by done.
  rewrite !(proj2 (N.ltb_ge _ _)) by lia.
  assert (∀ n, n `div` 16384 = (n `div` 128) `div` 128) as -> by (intros; by rewrite N.Div0.div_div).
  replace (e0 + e1 * 128 + e2 * 16384) with (e0 + (e1 + e2 * 128) * 128) by lia.
  destruct (digits_div e0 (e1 + e2 * 128) H0) as [-> ->].
  by destruct (digits_div e1 e2 H1) as [-> ->].
Qed.

(** what is read is the encoding, and the only one *)
Lemma short_u16_write_read bytes n rest :
  Forall (λ b, b < 256) bytes → deserialize_short_u16 bytes = Ok (n, rest) →
  n ≤ u16_max ∧ bytes = serialize_short_u16 n ++ rest.
Proof.
  intros Hb. unfold deserialize_short_u16. destruct bytes as [|b0 l]; cbn [visit_seq]; [done|].
  apply list.Forall_cons in Hb as [Hb0 Hb].
  destruct (visit_byte b0 0 0) as [st| |] eqn:Hv; cbn [rbind]; [|done..].
  destruct (visit_inv b0 0 0 st Hb0 ltac:(side) ltac:(side) Hv)
    as (e0 & He0 & Hu & Hst). replace (0 + e0 * 128 ^ 0) with e0 in * by (simpl; lia).
  destruct Hst as [(-> & _ & ->)|(-> & _ & ->)].
  { intros [= <- <-]. by rewrite serialize_one. }
  destruct l as [|b1 l]; cbn [visit_seq]; [done|].
  apply list.Forall_cons in Hb as [Hb1 Hb]. change (0 + 1) with 1.
  destruct (visit_byte b1 e0 1) as [st1| |] eqn:Hv1; cbn [rbind]; [|done..].
  destruct (visit_inv b1 e0 1 st1 Hb1 ltac:(side) ltac:(side) Hv1)
    as (e1 & He1 & Hu1 & [(-> & Hne & ->)|(-> & _ & ->)]).
  { intros [= <- <-]. change (128 ^ 1) with 128 in *. rewrite serialize_two by lia. done. }
  destruct l as [|b2 l]; cbn [visit_seq]; [done|].
  apply list.Forall_cons in Hb as [Hb2 Hb]. change (1 + 1) with 2. change (128 ^ 1) with 128 in *.
  destruct (visit_byte b2 (e0 + e1 * 128) 2) as [st2| |] eqn:Hv2; cbn [rbind]; [|done..].
  destruct (visit_inv b2 (e0 + e1 * 128) 2 st2 Hb2 ltac:(side) ltac:(side) Hv2)
    as (e2 & He2 & Hu2 & [(-> & Hne & ->)|(_ & ? & _)]); [|lia].
  change (128 ^ 2) with 16384 in *. intros [= <- <-]. rewrite serialize_three by lia. done.
Qed.

Lemma visit_seq_suffix rounds : ∀ nth val bytes n rest,
  visit_seq rounds nth val bytes = Ok (n, rest) → ∃ used, bytes = used ++ rest ∧ used ≠ [].
Proof.
  induction rounds as [|rounds IH]; intros nth val [|b l] n rest; cbn [visit_seq]; [done..|].
  destruct (visit_byte b val nth) as [[v|v]| |]; cbn [rbind]; [|intros Hr|done..].
  - intros [= <- <-]. by exists [b].
  - apply IH in Hr as (used & -> & _). by exists (b :: used).
Qed.
Lemma decode_loop_eq rounds : ∀ nth val bytes,
  nth + N.of_nat rounds ≤ 3 →
  decode_loop nth val (take rounds bytes) =
  match visit_seq rounds nth val bytes with
  | Ok (n, rest) => Ok (n, nth + (len bytes - len rest))
  | Err _ => Err tt
  | Panic => Panic
  end.
Proof.
  induction rounds as [|rounds IH]; intros nth val [|b l] Hn; cbn [visit_seq take decode_loop]; [done..|].
  destruct (visit_byte b val nth) as [[v|v]| |] eqn:Hv; cbn [rbind]; [| |done..].
  - unfold saturating_add, len. rewrite N.min_r by (unfold u64_max; lia). do 2 f_equal. simpl. lia.
  - rewrite IH by lia. destruct (visit_seq _ _ _ l) as [[n rest]| |] eqn:Hs; [|done..].
    apply visit_seq_suffix in Hs as (used & -> & _). do 2 f_equal. unfold len. simpl.
    rewrite !length_app. lia.
Qed.

(** the short length format is one to one.  For any bytes, [decode_shortu16_len]
    finds a length [n] in the first [k] of them exactly when those are the bytes
    that [ShortU16::serialize] writes for [n]: it reads every length back, and accepts no
    second spelling, no length above 65535 and nothing cut short. *)
Theorem short_length_one_to_one bytes n k :
  Forall (λ b, b < 256) bytes →
  decode_shortu16_len bytes = Ok (n, k) ↔
  n ≤ u16_max ∧ k = len (serialize_short_u16 n) ∧ ∃ rest, bytes = serialize_short_u16 n ++ rest.
Proof.
  intros Hb. unfold decode_shortu16_len. change (N.to_nat MAX_ENCODING_LENGTH) with 3%nat.
  rewrite decode_loop_eq by done. fold (deserialize_short_u16 bytes). split.
  - destruct (deserialize_short_u16 bytes) as [[n' rest]| |] eqn:Hd; [|done..]. intros [= -> <-].
    apply short_u16_write_read in Hd as [Hn ->]; [|done]. split; [done|]. split; [|by exists rest].
    rewrite len_app. lia.
  - intros (Hn & -> & rest & ->). rewrite short_u16_read_write by done. do 2 f_equal.
    rewrite len_app. lia.
Qed.

Lemma short_length_one_to_one_witness :
  decode_shortu16_len [0xff; 0xff; 0x03; 7] = Ok (65535, 3) ∧
  decode_shortu16_len [0x80; 0x00] ≠ Ok (0, 2).
Proof.
  split.
  - apply (short_length_one_to_one [0xff; 0xff; 0x03; 7] 65535 3); [repeat constructor|].
    split; [done|]. split; [done|]. by exists [7].
  - intros H. apply (short_length_one_to_one [0x80; 0x00] 0 2) in H as (_ & H & _); [done|].
    repeat constructor.
Defined.

(** ** Vectors with short lengths *)
Definition c_short_len : codec N := mkCodec
  (λ n, if u16_max <? n then None else Some (serialize_short_u16 n))
  (λ bs, match deserialize_short_u16 bs with Ok x => Some x | _ => None end).

Fixpoint enc_elements {A} (c : codec A) (l : list A) : option (list N) :=
  match l with
  | [] => Some []
  | x :: l' => a ← enc c x; b ← enc_elements c l'; Some (a ++ b)
  end.
Fixpoint dec_elements {A} (c : codec A) (n : nat) (bs : list N) : option (list A * list N) :=
  match n with
  | O => Some ([], bs)
  | S n' => '(x, r) ← dec c bs; '(l, r') ← dec_elements c n' r; Some (x :: l, r')
  end.
(** [short_vec::serialize] and [short_vec::deserialize] *)
Definition c_short_vec {A} (c : codec A) : codec (list A) := mkCodec
  (λ l, a ← enc c_short_len (len l); b ← enc_elements c l; Some (a ++ b))
  (λ bs, '(n, r) ← dec c_short_len bs; dec_elements c (N.to_nat n) r).

#[export] Instance c_short_len_ok : CodecOk c_short_len.
Proof.
  intros n bs rest. cbn [enc dec c_short_len]. destruct (N.ltb_spec u16_max n); [done|].
  intros [= <-]. by rewrite short_u16_read_write.
Qed.
Lemma dec_elements_ok {A} (c : codec A) `{!CodecOk c} l : ∀ bs rest,
  enc_elements c l = Some bs → dec_elements c (length l) (bs ++ rest) = Some (l, rest).
Proof.
  induction l as [|x l IH]; intros bs rest; simpl; [by intros [= <-]|].
  intros (a & Ha & (b & Hb & [= <-])%bind_Some)%bind_Some.
  rewrite <-app_assoc, (dec_enc _ _ _ Ha). simpl. by rewrite (IH _ _ Hb).
Qed.
#[export] Instance c_short_vec_ok {A} (c : codec A) : CodecOk c → CodecOk (c_short_vec c).
Proof.
  intros Hc l bs rest. cbn [enc dec c_short_vec].
  intros (a & Ha & (b & Hb & [= <-])%bind_Some)%bind_Some.
  rewrite <-app_assoc, (dec_enc _ _ _ Ha). cbn [mbind option_bind]. unfold len.
  rewrite Nat2N.id. by apply dec_elements_ok.
Qed.

(** ** Messages *)
Definition c_u8 : codec N := c_int 1.
Definition c_compiled_instruction : codec CompiledInstruction := c_map
  (λ x, mkCompiledInstruction x.1 x.2.1 x.2.2)
  (λ i, (program_id_index i, (ci_accounts i, ci_data i)))
  (c_pair c_u8 (c_pair (c_short_vec c_u8) (c_short_vec c_u8))).
Definition c_header : codec MessageHeader := c_map
  (λ x, mkMessageHeader x.1 x.2.1 x.2.2)
  (λ h, (num_required_signatures h,
         (num_readonly_signed_accounts h, num_readonly_unsigned_accounts h)))
  (c_pair c_u8 (c_pair c_u8 c_u8)).
(** the legacy message *)
Definition c_message : codec Message := c_map
  (λ x, mkMessage x.1 x.2.1 x.2.2.1 x.2.2.2)
  (λ m, (msg_header m, (msg_account_keys m, (msg_recent_blockhash m, msg_instructions m))))
  (c_pair c_header (c_pair (c_short_vec c_pubkey)
    (c_pair c_hash (c_short_vec c_compiled_instruction)))).
Definition c_lookup : codec MessageAddressTableLookup := c_map
  (λ x, mkMessageAddressTableLookup x.1 x.2.1 x.2.2)
  (λ l, (lookup_account_key l, (writable_indexes l, readonly_indexes l)))
  (c_pair c_pubkey (c_pair (c_short_vec c_u8) (c_short_vec c_u8))).
(** the version 0 message: the fields of the legacy one, then the lookups *)
Definition c_message_v0 : codec MessageV0 := c_map
  (λ x, mkMessageV0 x.1 x.2) (λ m, (v0_base m, address_table_lookups m))
  (c_pair c_message (c_short_vec c_lookup)).

#[export] Instance c_u8_ok : CodecOk c_u8.
Proof. apply _. Qed.
#[export] Instance c_compiled_instruction_ok : CodecOk c_compiled_instruction.
Proof. apply c_map_ok; [apply _|by intros []]. Qed.
#[export] Instance c_header_ok : CodecOk c_header.
Proof. apply c_map_ok; [apply _|by intros []]. Qed.
#[export] Instance c_message_ok : CodecOk c_message.
Proof. apply c_map_ok; [apply _|by intros []]. Qed.
#[export] Instance c_lookup_ok : CodecOk c_lookup.
Proof. apply c_map_ok; [apply _|by intros []]. Qed.
#[export] Instance c_message_v0_ok : CodecOk c_message_v0.
Proof. apply c_map_ok; [apply _|by intros []]. Qed.

(** ** Versioned messages and transactions *)
Inductive VersionedMessage :=
| VLegacy (message : Message)
| VV0 (message : MessageV0).

Definition MESSAGE_VERSION_PREFIX : N := 0x80.

Inductive MessagePrefix := PrefixLegacy (byte : N) | PrefixVersioned (version : N).
(** [visit_u64] of the prefix visitor *)
Definition message_prefix (value : N) : option MessagePrefix :=
  if u8_max <? value then None else
  Some (if negb (N.land value MESSAGE_VERSION_PREFIX =? 0)
        then PrefixVersioned (N.ldiff value MESSAGE_VERSION_PREFIX) else PrefixLegacy value).

(** [RemainingLegacyMessage]: a legacy message without its first byte *)
Definition c_remaining : codec (N * (N * (list Pubkey * (Hash * list CompiledInstruction)))) :=
  c_pair c_u8 (c_pair c_u8 (c_pair (c_short_vec c_pubkey)
    (c_pair c_hash (c_short_vec c_compiled_instruction)))).

Definition serialize_versioned (m : VersionedMessage) : option (list N) :=
  match m with
  | VLegacy m => enc c_message m
  | VV0 m => (λ bs, MESSAGE_VERSION_PREFIX :: bs) <$> enc c_message_v0 m
  end.
Definition deserialize_versioned (bs : list N) : option (VersionedMessage * list N) :=
  '(value, r) ← dec c_u8 bs;
  prefix ← message_prefix value;
  match prefix with
  | PrefixLegacy num_required_signatures =>
      '((signed, (unsigned, (keys, (hash, ixs)))), r') ← dec c_remaining r;
      Some (VLegacy (mkMessage (mkMessageHeader num_required_signatures signed unsigned) keys hash ixs), r')
  | PrefixVersioned version =>
      if version =? 0 then '(m, r') ← dec c_message_v0 r; Some (VV0 m, r')
      else None (* 127: off-chain messages; others: no such version *)
  end.

Definition versioned_header (m : VersionedMessage) : MessageHeader :=
  match m with VLegacy m => msg_header m | VV0 m => msg_header (v0_base m) end.
Definition versioned_sanitize (m : VersionedMessage) : result SanitizeError unit :=
  match m with VLegacy m => sanitize m | VV0 m => v0_sanitize m end.
Definition static_account_keys (m : VersionedMessage) : list Pubkey :=
  match m with VLegacy m => msg_account_keys m | VV0 m => msg_account_keys (v0_base m) end.

Record VersionedTransaction := mkVersionedTransaction {
  vt_signatures : list Signature;
  vt_message : VersionedMessage }.

Definition serialize_transaction (tx : VersionedTransaction) : option (list N) :=
  a ← enc (c_short_vec (c_fixed 64)) (vt_signatures tx);
  b ← serialize_versioned (vt_message tx); Some (a ++ b).
Definition deserialize_transaction (bs : list N) : option (VersionedTransaction * list N) :=
  '(sigs, r) ← dec (c_short_vec (c_fixed 64)) bs;
  '(m, r') ← deserialize_versioned r; Some (mkVersionedTransaction sigs m, r').

Definition sanitize_signatures (tx : VersionedTransaction) : result SanitizeError unit :=
  let num_required := num_required_signatures (versioned_header (vt_message tx)) in
  if len (vt_signatures tx) <? num_required then Err IndexOutOfBounds else
  if num_required <? len (vt_signatures tx) then Err InvalidValue else
  if len (static_account_keys (vt_message tx)) <? len (vt_signatures tx) then Err IndexOutOfBounds
  else Ok tt.
Definition transaction_sanitize (tx : VersionedTransaction) : result SanitizeError unit :=
  check! versioned_sanitize (vt_message tx) in sanitize_signatures tx.

(** ** What fits the format *)
Definition enc_total {A} (P : A → Prop) (c : codec A) : Prop := ∀ a, P a → is_Some (enc c a).
Definition is_byte (n : N) : Prop := n < 256.
Definition short {A} (P : A → Prop) (l : list A) : Prop := len l ≤ u16_max ∧ Forall P l.
Definition key_fits (k : Pubkey) : Prop := length (to_bytes k) = 32%nat.
Definition hash_fits (h : Hash) : Prop := length (hash_bytes h) = 32%nat.
Definition instruction_fits (i : CompiledInstruction) : Prop :=
  is_byte (program_id_index i) ∧ short is_byte (ci_accounts i) ∧ short is_byte (ci_data i).
Definition header_fits (h : MessageHeader) : Prop :=
  is_byte (num_required_signatures h) ∧ is_byte (num_readonly_signed_accounts h) ∧
  is_byte (num_readonly_unsigned_accounts h).
Definition message_fits (m : Message) : Prop :=
  header_fits (msg_header m) ∧ short key_fits (msg_account_keys m) ∧
  hash_fits (msg_recent_blockhash m) ∧ short instruction_fits (msg_instructions m).
Definition lookup_fits (l : MessageAddressTableLookup) : Prop :=
  key_fits (lookup_account_key l) ∧ short is_byte (writable_indexes l) ∧
  short is_byte (readonly_indexes l).
Definition versioned_fits (m : VersionedMessage) : Prop :=
  match m with
  | VLegacy m => message_fits m
  | VV0 m => message_fits (v0_base m) ∧ short lookup_fits (address_table_lookups m)
  end.
Definition transaction_fits (tx : VersionedTransaction) : Prop :=
  short (λ s : Signature, length s = 64%nat) (vt_signatures tx) ∧ versioned_fits (vt_message tx).

Create HintDb wire.
Lemma u8_total : enc_total is_byte c_u8.
Proof. intros n Hn. cbn [enc c_u8 c_int]. by rewrite (proj2 (N.ltb_lt _ _)). Qed.
Lemma pair_total {A B} P Q (c : codec A) (d : codec B) :
  enc_total P c → enc_total Q d → enc_total (λ x, P x.1 ∧ Q x.2) (c_pair c d).
Proof.
  intros Hc Hd [a b] [Ha Hb]. destruct (Hc _ Ha) as [x Hx], (Hd _ Hb) as [y Hy]. simpl in *.
  rewrite Hx. simpl. rewrite Hy. by eexists.
Qed.
Lemma map_total {A B} P (f : A → B) g (c : codec A) :
  enc_total P c → enc_total (λ b, P (g b)) (c_map f g c).
Proof. intros Hc b Hb. by apply Hc. Qed.
Lemma fixed_total n : enc_total (λ l, length l = n) (c_fixed n).
Proof. intros l <-. cbn [enc c_fixed]. by rewrite Nat.eqb_refl. Qed.
Lemma short_total {A} P (c : codec A) : enc_total P c → enc_total (short P) (c_short_vec c).
Proof.
  intros Hc l [Hl HP]. cbn [enc c_short_vec c_short_len]. rewrite (proj2 (N.ltb_ge _ _)) by done. simpl.
  assert (is_Some (enc_elements c l)) as [b ->]; [|by eexists].
  clear Hl. induction HP as [|x l Hx _ [b IH]]; simpl; [by eexists|].
  destruct (Hc _ Hx) as [a ->]. simpl. rewrite IH. by eexists.
Qed.
#[export] Hint Resolve u8_total fixed_total short_total pair_total map_total : wire.

Lemma weaken_total {A} (P Q : A → Prop) c : enc_total P c → (∀ a, Q a → P a) → enc_total Q c.
Proof. intros Hc HQ a Ha. auto. Qed.
#[local] Ltac total := eapply weaken_total; [eauto 12 with wire|by unfold is_byte; simpl].
Lemma pubkey_total : enc_total key_fits c_pubkey.
Proof. exact (map_total _ mkPubkey to_bytes _ (fixed_total 32)). Qed.
Lemma hash_total : enc_total hash_fits c_hash.
Proof. exact (map_total _ mkHash hash_bytes _ (fixed_total 32)). Qed.
#[export] Hint Resolve pubkey_total hash_total : wire.
Lemma instruction_total : enc_total instruction_fits c_compiled_instruction.
Proof. total. Qed.
#[export] Hint Resolve instruction_total : wire.
Lemma header_total : enc_total header_fits c_header.
Proof. total. Qed.
#[export] Hint Resolve header_total : wire.
Lemma message_total : enc_total message_fits c_message.
Proof. total. Qed.
Lemma lookup_total : enc_total lookup_fits c_lookup.
Proof. total. Qed.
#[export] Hint Resolve message_total lookup_total : wire.
Lemma v0_total : enc_total (λ m, message_fits (v0_base m) ∧ short lookup_fits (address_table_lookups m))
  c_message_v0.
Proof. total. Qed.

Lemma versioned_total m : versioned_fits m → is_Some (serialize_versioned m).
Proof.
  destruct m as [m|m]; simpl; [apply message_total|]. intros Hm. apply fmap_is_Some. by apply v0_total.
Qed.

(** ** Reading messages back *)
Lemma message_prefix_legacy n : n < 128 → message_prefix n = Some (PrefixLegacy n).
Proof.
  intros Hn. unfold message_prefix, MESSAGE_VERSION_PREFIX.
  rewrite (proj2 (N.ltb_ge u8_max n)) by (unfold u8_max; lia). rewrite land_128 by lia.
  by rewrite (proj2 (N.ltb_lt n 128)).
Qed.

(** a legacy message is its first byte and the rest *)
Lemma enc_message_split m bs :
  enc c_message m = Some bs →
  ∃ a r, enc c_u8 (num_required_signatures (msg_header m)) = Some a ∧
    enc c_remaining (num_readonly_signed_accounts (msg_header m),
      (num_readonly_unsigned_accounts (msg_header m),
       (msg_account_keys m, (msg_recent_blockhash m, msg_instructions m)))) = Some r ∧
    bs = a ++ r.
Proof.
  unfold c_message, c_remaining, c_header, c_map, c_pair. cbn [enc fst snd].
  intros (h & Hh & (t & Ht & [= <-])%bind_Some)%bind_Some.
  apply bind_Some in Hh as (a & Ha & (bc & Hbc & [= <-])%bind_Some).
  apply bind_Some in Hbc as (b & Hb & (c & Hc & [= <-])%bind_Some).
  exists a, (b ++ c ++ t). split; [done|]. split; [|by rewrite !app_assoc].
  rewrite Hb. cbn [mbind option_bind]. rewrite Hc. cbn [mbind option_bind].
  rewrite Ht. done.
Qed.

Lemma versioned_roundtrip m bs rest :
  serialize_versioned m = Some bs →
  num_required_signatures (versioned_header m) < 128 →
  deserialize_versioned (bs ++ rest) = Some (m, rest).
Proof.
  unfold deserialize_versioned. destruct m as [m|m]; cbn [serialize_versioned versioned_header].
  - intros (a & r & Ha & Hr & ->)%enc_message_split Hn.
    rewrite <-app_assoc, (dec_enc _ _ _ Ha). cbn [mbind option_bind].
    rewrite message_prefix_legacy by done. cbn [mbind option_bind].
    rewrite (dec_enc _ _ _ Hr). by destruct m as [[] ? ? ?].
  - intros (r & Hr & ->)%fmap_Some _. change ((?x :: r) ++ rest) with ([x] ++ (r ++ rest)).
    rewrite (dec_enc (c := c_u8) MESSAGE_VERSION_PREFIX) by done. cbn [mbind option_bind].
    change (message_prefix MESSAGE_VERSION_PREFIX) with (Some (PrefixVersioned 0)).
    cbn [mbind option_bind N.eqb]. by rewrite (dec_enc _ _ _ Hr).
Qed.

Lemma enc_signatures_length l bs :
  enc_elements (c_fixed 64) l = Some bs → length bs = (64 * length l)%nat.
Proof.
  revert bs. induction l as [|x l IH]; intros bs; cbn [enc_elements]; [by intros [= <-]|].
  intros (a & Ha & (b & Hb & [= <-])%bind_Some)%bind_Some.
  cbn [enc c_fixed] in Ha. destruct (Nat.eqb_spec (length x) 64) as [Hx|]; [|done].
  injection Ha as <-. rewrite length_app, Hx, (IH _ Hb). simpl. lia.
Qed.

(** C31: transactions survive the wire.  Every transaction whose parts fit the format has
    an encoding; and if the transaction is sanitized and its encoding fits in a
    packet, decoding gives the same transaction back, whatever follows it: the
    first byte of a legacy message is then never taken for a version. *)
Theorem transaction_roundtrip tx :
  transaction_fits tx →
  ∃ bytes, serialize_transaction tx = Some bytes ∧
    (transaction_sanitize tx = Ok tt → len bytes ≤ PACKET_DATA_SIZE →
     ∀ rest, deserialize_transaction (bytes ++ rest) = Some (tx, rest)).
Proof.
  intros [Hs Hm]. destruct (short_total _ _ (fixed_total 64) _ Hs) as [a Ha].
  destruct (versioned_total _ Hm) as [b Hb]. exists (a ++ b). unfold serialize_transaction.
  rewrite Ha. cbn [mbind option_bind]. rewrite Hb. split; [done|]. intros Hsan Hlen rest.
  unfold deserialize_transaction. rewrite <-app_assoc, (dec_enc _ _ _ Ha). cbn [mbind option_bind].
  rewrite (versioned_roundtrip _ _ _ Hb); [by destruct tx|].
  cbn [enc c_short_vec] in Ha. apply bind_Some in Ha as (x & _ & (y & Hy & [= <-])%bind_Some).
  apply enc_signatures_length in Hy. rewrite !len_app in Hlen.
  unfold transaction_sanitize, sanitize_signatures in Hsan.
  destruct (versioned_sanitize _) as [[]| |]; cbn [rbind] in Hsan; [|done..].
  destruct (N.ltb_spec (len (vt_signatures tx))
    (num_required_signatures (versioned_header (vt_message tx)))) as [|Hle]; [done|].
  unfold len, PACKET_DATA_SIZE, Signature in *. lia.
Qed.

Definition sample_tx : VersionedTransaction :=
  mkVersionedTransaction [replicate 64 7]
    (VLegacy (mkMessage (mkMessageHeader 1 0 1) [pubkey_of_N 1; pubkey_of_N 2; system_program_id]
       (mkHash (replicate 32 1)) [mkCompiledInstruction 2 [0; 1] [2; 0; 0; 0]])).
Lemma transaction_roundtrip_witness :
  ∃ bytes, serialize_transaction sample_tx = Some bytes ∧
    deserialize_transaction bytes = Some (sample_tx, []).
Proof.
  destruct (transaction_roundtrip sample_tx) as (bytes & Hb & Hr).
  - split; [split; [done|repeat constructor]|]. repeat split; repeat constructor; done.
  - exists bytes. split; [done|]. rewrite <-(app_nil_r bytes) at 1. apply Hr; [done|].
    vm_compute in Hb. injection Hb as <-. done.
Defined.
