(* ===== verification/InstructionsSysvar.v ===== *)
(** * The instructions sysvar ([sdk/program/src/sysvar/instructions.rs])

    The account through which a program reads the instructions of its transaction:
    how the runtime writes it, how programs read it, and the reading and writing of
    byte buffers below ([sdk/program/src/serialize_utils.rs]). *)

From S2P Require Import Prelude Sdk Message RemoteLoader Codec WireFormat TransactionContext.
From S2P Require Import LogCollector InvokeContext MessageProcessor MessageRules InstructionRules.

(** ** [serialize_utils.rs] *)
Definition append_u16 (buf : list N) (data : N) : list N := buf ++ u16_le data.
Definition append_u8 (buf : list N) (data : N) : list N := buf ++ [data].
Definition append_slice (buf data : list N) : list N := buf ++ data.

(** a read returns the value and the position after it *)
Definition read_slice (current : N) (data : list N) (data_len : N) :
  result SanitizeError (list N * N) :=
  if len data <? current + data_len then Err IndexOutOfBounds else
  Ok (take (N.to_nat data_len) (drop (N.to_nat current) data), current + data_len).
Definition read_u8 (current : N) (data : list N) : result SanitizeError (N * N) :=
  if len data <? current + 1 then Err IndexOutOfBounds else
  let! e := unwrap (getN data current) in
  Ok (e, current + 1).
Definition read_pubkey (current : N) (data : list N) : result SanitizeError (Pubkey * N) :=
  if len data <? current + 32 then Err IndexOutOfBounds else
  Ok (mkPubkey (take 32 (drop (N.to_nat current) data)), current + 32).
Definition read_u16 (current : N) (data : list N) : result SanitizeError (N * N) :=
  if len data <? current + 2 then Err IndexOutOfBounds else
  Ok (from_le (take 2 (drop (N.to_nat current) data)), current + 2).

(** ** Writing *)
Definition IS_SIGNER : N := 1.
Definition IS_WRITABLE : N := 2.
Definition account_meta_flags (meta : AccountMeta) : N :=
  let flags := 0 in
  let flags := if meta_is_signer meta then N.lor flags IS_SIGNER else flags in
  if meta_is_writable meta then N.lor flags IS_WRITABLE else flags.

(** [data[start..start + 2].copy_from_slice(..)] *)
Definition copy_at {E} (data : list N) (start : N) (bytes : list N) : result E (list N) :=
  if len data <? start + len bytes then Panic else
  Ok (take (N.to_nat start) data ++ bytes ++ drop (N.to_nat (start + len bytes)) data).

Definition append_meta (buf : list N) (meta : AccountMeta) : list N :=
  append_slice (append_u8 buf (account_meta_flags meta)) (to_bytes (meta_pubkey meta)).
Definition append_instruction (buf : list N) (ix : Instruction) : list N :=
  let buf := append_u16 buf (as_u16 (len (ix_accounts ix))) in
  let buf := foldl append_meta buf (ix_accounts ix) in
  let buf := append_slice buf (to_bytes (ix_program_id ix)) in
  let buf := append_u16 buf (as_u16 (len (ix_data ix))) in
  append_slice buf (ix_data ix).

Fixpoint serialize_loop {E} (i : N) (l : list Instruction) (data : list N) : result E (list N) :=
  match l with
  | [] => Ok data
  | ix :: l' =>
      let! data := copy_at data (2 + 2 * i) (u16_le (as_u16 (len data))) in
      serialize_loop (i + 1) l' (append_instruction data ix)
  end.
Definition serialize_instructions {E} (instructions : list Instruction) : result E (list N) :=
  let data := append_u16 [] (as_u16 (len instructions)) in
  let data := foldl (λ d _, append_u16 d 0) data instructions in
  serialize_loop 0 instructions data.
Definition construct_instructions_data {E} (instructions : list Instruction) : result E (list N) :=
  let! data := serialize_instructions instructions in
  Ok (data ++ [0; 0]).

(** ** Reading *)
Definition load_current_index {E} (data : list N) : result E N :=
  if len data <? 2 then Panic else Ok (from_le (drop (length data - 2) data)).

Fixpoint read_metas (n : nat) (current : N) (data : list N) :
  result SanitizeError (list AccountMeta * N) :=
  match n with
  | O => Ok ([], current)
  | S n' =>
      let! flags := read_u8 current data in
      let! key := read_pubkey flags.2 data in
      let! rest := read_metas n' key.2 data in
      let meta := mkAccountMeta key.1 (negb (N.land flags.1 (N.shiftl 1 0) =? 0))
                    (negb (N.land flags.1 (N.shiftl 1 1) =? 0)) in
      Ok (meta :: rest.1, rest.2)
  end.
Definition deserialize_instruction (index : N) (data : list N) : result SanitizeError Instruction :=
  let! num := read_u16 0 data in
  if num.1 <=? index then Err IndexOutOfBounds else
  let! start := read_u16 (num.2 + index * 2) data in
  let! num_accounts := read_u16 start.1 data in
  let! accounts := read_metas (N.to_nat num_accounts.1) num_accounts.2 data in
  let! program_id := read_pubkey accounts.2 data in
  let! data_len := read_u16 program_id.2 data in
  let! bytes := read_slice data_len.2 data data_len.1 in
  Ok (mkInstruction program_id.1 accounts.1 bytes.1).
Definition load_instruction_at : N → list N → result SanitizeError Instruction :=
  deserialize_instruction.

(** the errors of the checked readers, which take an account *)
Inductive SysvarError := UnsupportedSysvar | InvalidArgumentSysvar | InvalidDataSysvar.
Definition sysvar_error {A} (r : result SanitizeError A) : result SysvarError A :=
  match r with
  | Ok a => Ok a
  | Err IndexOutOfBounds => Err InvalidArgumentSysvar
  | Err _ => Err InvalidDataSysvar
  | Panic => Panic
  end.
Definition load_current_index_checked (key : Pubkey) (data : list N) : result SysvarError N :=
  if negb (key_eqb key sysvar_instructions_id) then Err UnsupportedSysvar else load_current_index data.
Definition load_instruction_at_checked (index : N) (key : Pubkey) (data : list N) :
  result SysvarError Instruction :=
  if negb (key_eqb key sysvar_instructions_id) then Err UnsupportedSysvar else
  sysvar_error (deserialize_instruction index data).
Definition get_instruction_relative (index_relative_to_current : Z) (key : Pubkey) (data : list N) :
  result SysvarError Instruction :=
  if negb (key_eqb key sysvar_instructions_id) then Err UnsupportedSysvar else
  let! current_index := load_current_index data in
  let index := i64_saturating_add (Z.of_N current_index) index_relative_to_current in
  if (index <? 0)%Z then Err InvalidArgumentSysvar else
  sysvar_error (load_instruction_at (Z.to_N index) data).

(** ** The layout *)
Definition enc_meta (meta : AccountMeta) : list N :=
  account_meta_flags meta :: to_bytes (meta_pubkey meta).
Definition enc_instruction (ix : Instruction) : list N :=
  u16_le (as_u16 (len (ix_accounts ix))) ++ concat (enc_meta <$> ix_accounts ix) ++
  to_bytes (ix_program_id ix) ++ u16_le (as_u16 (len (ix_data ix))) ++ ix_data ix.
(** the table of offsets, the first instruction being at [pos] *)
Fixpoint offsets (pos : N) (l : list Instruction) : list N :=
  match l with
  | [] => []
  | ix :: l' => u16_le (as_u16 pos) ++ offsets (pos + len (enc_instruction ix)) l'
  end.

Lemma append_metas_eq l : ∀ buf, foldl append_meta buf l = buf ++ concat (enc_meta <$> l).
Proof.
  induction l as [|m l IH]; intros buf; simpl; [by rewrite app_nil_r|].
  rewrite IH. unfold append_meta, append_slice, append_u8. by rewrite <-!app_assoc.
Qed.
Lemma append_instruction_eq buf ix : append_instruction buf ix = buf ++ enc_instruction ix.
Proof.
  unfold append_instruction, append_u16, append_slice. rewrite append_metas_eq.
  unfold enc_instruction. by rewrite <-!app_assoc.
Qed.
Lemma zeros_eq (l : list Instruction) : ∀ buf,
  foldl (λ d _, append_u16 d 0) buf l = buf ++ replicate (2 * length l) 0.
Proof.
  induction l as [|x l IH]; intros buf; simpl; [by rewrite app_nil_r|]. rewrite IH.
  unfold append_u16, u16_le. change (as_u8 0) with 0. rewrite <-app_assoc.
  by replace (length l + S (length l + 0))%nat with (S (2 * length l)) by lia.
Qed.

Lemma copy_at_app {E} (a b c b' : list N) :
  length b = length b' → copy_at (E:=E) (a ++ b ++ c) (len a) b' = Ok (a ++ b' ++ c).
Proof.
  intros Hl. unfold copy_at, len. rewrite !length_app.
  destruct (N.ltb_spec (N.of_nat (length a + (length b + length c)))
    (N.of_nat (length a) + N.of_nat (length b'))); [lia|].
  rewrite Nat2N.id, take_app_length. replace (N.to_nat _) with (length a + length b)%nat by lia.
  by rewrite drop_app_add, drop_app_length.
Qed.

Lemma serialize_loop_eq {E} l : ∀ i pre body,
  len pre = 2 + 2 * i →
  serialize_loop (E:=E) i l (pre ++ replicate (2 * length l) 0 ++ body) =
  Ok (pre ++ offsets (len pre + 2 * len l + len body) l ++ body ++ concat (enc_instruction <$> l)).
Proof.
  induction l as [|ix l IH]; intros i pre body Hp; [by rewrite app_nil_r|].
  cbn [serialize_loop offsets fmap list_fmap concat length].
  replace (2 * S (length l))%nat with (S (S (2 * length l))) by lia.
  set (z := replicate (2 * length l) 0). assert (Hz : length z = (2 * length l)%nat) by apply length_replicate.
  change (replicate (S (S (2 * length l))) 0 ++ body) with ([0; 0] ++ z ++ body).
  rewrite <-Hp, copy_at_app by done. cbn [rbind]. rewrite append_instruction_eq.
  set (pos := len (pre ++ _ ++ z ++ body)).
  replace ((pre ++ u16_le (as_u16 pos) ++ z ++ body) ++ enc_instruction ix)
    with ((pre ++ u16_le (as_u16 pos)) ++ z ++ body ++ enc_instruction ix) by (by rewrite <-!app_assoc).
  assert (pos = len pre + 2 * len (ix :: l) + len body) as Hpos.
  { unfold pos, len. rewrite !length_app, Hz. simpl. lia. }
  rewrite IH by (rewrite len_app, Hp; unfold len; simpl; lia).
  f_equal. rewrite <-!app_assoc. do 2 f_equal; [by rewrite Hpos|]. f_equal.
  f_equal. rewrite !len_app. unfold len in *. simpl in *. lia.
Qed.

Lemma serialize_instructions_eq {E} l :
  serialize_instructions (E:=E) l =
  Ok (u16_le (as_u16 (len l)) ++ offsets (2 + 2 * len l) l ++ concat (enc_instruction <$> l)).
Proof.
  unfold serialize_instructions. rewrite zeros_eq. unfold append_u16. rewrite app_nil_l.
  pose proof (serialize_loop_eq (E:=E) l 0 (u16_le (as_u16 (len l))) [] eq_refl) as Hs.
  rewrite app_nil_r, app_nil_l in Hs. rewrite Hs, N.add_0_r. done.
Qed.

(** ** Reading the layout back *)
Definition at_pos (c : N) (d l : list N) : Prop := c ≤ len d ∧ drop (N.to_nat c) d = l.

Lemma at_pos_step c d bs rest :
  at_pos c d (bs ++ rest) →
  (len d <? c + len bs) = false ∧ take (length bs) (drop (N.to_nat c) d) = bs ∧
  at_pos (c + len bs) d rest.
Proof.
  intros [Hc Hd]. pose proof (f_equal length Hd) as Hl. rewrite length_drop, length_app in Hl.
  unfold at_pos, len in *. split_and!.
  - apply N.ltb_ge. lia.
  - by rewrite Hd, take_app_length.
  - lia.
  - replace (N.to_nat _) with (N.to_nat c + length bs)%nat by lia.
    by rewrite <-drop_drop, Hd, drop_app_length.
Qed.
Lemma from_le_u16 n : n ≤ u16_max → from_le (u16_le n) = n.
Proof. intros Hn. apply (from_le_bytes 2). unfold u16_max in Hn. simpl. lia. Qed.

Lemma read_u16_at c d n rest :
  n ≤ u16_max → at_pos c d (u16_le n ++ rest) → read_u16 c d = Ok (n, c + 2) ∧ at_pos (c + 2) d rest.
Proof.
  intros Hn (Hl & Ht & Hp)%at_pos_step. change (len (u16_le n)) with 2 in *.
  unfold read_u16. rewrite Hl. change (length (u16_le n)) with 2%nat in Ht. by rewrite Ht, from_le_u16.
Qed.
Lemma read_u8_at c d b rest :
  at_pos c d (b :: rest) → read_u8 c d = Ok (b, c + 1) ∧ at_pos (c + 1) d rest.
Proof.
  intros Hp. pose proof Hp as [_ Hd]. apply (at_pos_step c d [b] rest) in Hp as (Hl & _ & Hp).
  unfold read_u8. change (len [b]) with 1 in *. rewrite Hl. split; [|done]. unfold getN.
  rewrite <-(Nat.add_0_r (N.to_nat c)), <-lookup_drop, Hd. done.
Qed.
Lemma read_pubkey_at c d k rest :
  key_fits k → at_pos c d (to_bytes k ++ rest) →
  read_pubkey c d = Ok (k, c + 32) ∧ at_pos (c + 32) d rest.
Proof.
  intros Hk (Hl & Ht & Hp)%at_pos_step. unfold key_fits, len in *. rewrite Hk in *.
  unfold read_pubkey, len. change (N.of_nat 32) with 32 in *. rewrite Hl, Ht. by destruct k.
Qed.
Lemma read_slice_at c d bs rest :
  at_pos c d (bs ++ rest) → read_slice c d (len bs) = Ok (bs, c + len bs).
Proof.
  intros (Hl & Ht & _)%at_pos_step. unfold read_slice. rewrite Hl. unfold len at 1. by rewrite Nat2N.id, Ht.
Qed.

Lemma flags_back meta :
  negb (N.land (account_meta_flags meta) (N.shiftl 1 0) =? 0) = meta_is_signer meta ∧
  negb (N.land (account_meta_flags meta) (N.shiftl 1 1) =? 0) = meta_is_writable meta.
Proof. by destruct meta as [k [] []]. Qed.

Lemma read_metas_at l : ∀ c d rest,
  Forall (λ m, key_fits (meta_pubkey m)) l → at_pos c d (concat (enc_meta <$> l) ++ rest) →
  ∃ c', read_metas (length l) c d = Ok (l, c') ∧ at_pos c' d rest.
Proof.
  induction l as [|m l IH]; intros c d rest; simpl; [by exists c|].
  intros [Hm Hl]%list.Forall_cons Hp. rewrite <-app_assoc in Hp.
  apply read_u8_at in Hp as [-> Hp]. cbn [rbind snd fst].
  apply read_pubkey_at in Hp as [-> Hp]; [|done]. cbn [rbind snd fst].
  destruct (IH _ _ _ Hl Hp) as (c' & -> & Hp'). cbn [rbind snd fst]. exists c'. split; [|done].
  destruct (flags_back m) as [-> ->]. by destruct m.
Qed.

(** the parts of an instruction that the format can hold *)
Definition sysvar_fits (ix : Instruction) : Prop :=
  key_fits (ix_program_id ix) ∧ Forall (λ m, key_fits (meta_pubkey m)) (ix_accounts ix) ∧
  len (ix_accounts ix) ≤ u16_max ∧ len (ix_data ix) ≤ u16_max.

Lemma as_u16_id n : n ≤ u16_max → as_u16 n = n.
Proof. intros Hn. apply N.mod_small. unfold u16_max in Hn. lia. Qed.

(** the reader's walk from the start of an instruction *)
Lemma read_instruction_at c d ix rest :
  sysvar_fits ix → at_pos c d (enc_instruction ix ++ rest) →
  (let! num_accounts := read_u16 c d in
   let! accounts := read_metas (N.to_nat num_accounts.1) num_accounts.2 d in
   let! program_id := read_pubkey accounts.2 d in
   let! data_len := read_u16 program_id.2 d in
   let! bytes := read_slice data_len.2 d data_len.1 in
   Ok (mkInstruction program_id.1 accounts.1 bytes.1)) = Ok ix.
Proof.
  intros (Hk & Hm & Ha & Hd) Hp. unfold enc_instruction in Hp. rewrite <-!app_assoc in Hp.
  rewrite !as_u16_id in Hp by done.
  apply read_u16_at in Hp as [-> Hp]; [|done]. cbn [rbind snd fst]. unfold len at 1. rewrite Nat2N.id.
  apply read_metas_at in Hp as (c1 & -> & Hp); [|done]. cbn [rbind snd fst].
  apply read_pubkey_at in Hp as [-> Hp]; [|done]. cbn [rbind snd fst].
  apply read_u16_at in Hp as [-> Hp]; [|done]. cbn [rbind snd fst].
  apply read_slice_at in Hp as ->. by destruct ix.
Qed.

Lemma offsets_length l : ∀ pos, len (offsets pos l) = 2 * len l.
Proof.
  induction l as [|ix l IH]; intros pos; cbn [offsets]; [done|].
  rewrite len_app, IH. change (len (u16_le _)) with 2. unfold len. cbn [length]. lia.
Qed.
Lemma offsets_app l1 l2 : ∀ pos,
  offsets pos (l1 ++ l2) = offsets pos l1 ++ offsets (pos + len (concat (enc_instruction <$> l1))) l2.
Proof.
  induction l1 as [|ix l1 IH]; intros pos; [by rewrite N.add_0_r|].
  rewrite fmap_cons. cbn [app offsets concat]. by rewrite IH, <-app_assoc, len_app, N.add_assoc.
Qed.
Lemma at_pos_intro d (a b : list N) : d = a ++ b → at_pos (len a) d b.
Proof.
  intros ->. split; [rewrite len_app; lia|]. unfold len. by rewrite Nat2N.id, drop_app_length.
Qed.

(** the number of bytes before the room for the current index *)
Definition sysvar_size (l : list Instruction) : N :=
  2 + 2 * len l + len (concat (enc_instruction <$> l)).

(** the sysvar's data and where its parts are *)
Definition sysvar_data (l : list Instruction) (tail : list N) : list N :=
  u16_le (len l) ++ offsets (2 + 2 * len l) l ++ concat (enc_instruction <$> l) ++ tail.

Lemma table_at l1 ix l2 tail :
  let l := l1 ++ ix :: l2 in
  let off := 2 + 2 * len l + len (concat (enc_instruction <$> l1)) in
  ∃ rest, at_pos (2 + len l1 * 2) (sysvar_data l tail) (u16_le (as_u16 off) ++ rest).
Proof.
  intros l off. eexists.
  replace (2 + len l1 * 2) with (len (u16_le (len l) ++ offsets (2 + 2 * len l) l1))
    by (rewrite len_app, offsets_length; change (len (u16_le _)) with 2; lia).
  apply at_pos_intro. unfold sysvar_data. unfold l at 3. rewrite offsets_app. cbn [offsets].
  fold off. rewrite <-!app_assoc. reflexivity.
Qed.
Lemma instruction_at l1 ix l2 tail :
  let l := l1 ++ ix :: l2 in
  let off := 2 + 2 * len l + len (concat (enc_instruction <$> l1)) in
  ∃ rest, at_pos off (sysvar_data l tail) (enc_instruction ix ++ rest).
Proof.
  intros l off. eexists.
  replace off with (len (u16_le (len l) ++ offsets (2 + 2 * len l) l ++
    concat (enc_instruction <$> l1)))
    by (rewrite !len_app, offsets_length; change (len (u16_le _)) with 2; unfold off; lia).
  apply at_pos_intro. unfold sysvar_data. rewrite <-!app_assoc. do 2 f_equal.
  unfold l. rewrite fmap_app, fmap_cons, concat_app. cbn [concat]. rewrite <-!app_assoc. reflexivity.
Qed.

Lemma sysvar_read l tail i ix :
  Forall sysvar_fits l → sysvar_size l ≤ u16_max → getN l i = Some ix →
  deserialize_instruction i (sysvar_data l tail) = Ok ix.
Proof.
  intros Hfit Hsize Hi. unfold getN in Hi.
  pose proof (list_elem_of_split_length _ _ _ Hi) as (l1 & l2 & Hl & Hlen).
  assert (i = len l1) as -> by (unfold len; lia). clear Hi Hlen. unfold sysvar_size in Hsize.
  assert (Hn : len l ≤ u16_max) by lia.
  destruct (table_at l1 ix l2 tail) as [r1 H1], (instruction_at l1 ix l2 tail) as [r2 H2].
  rewrite <-Hl in H1, H2. set (off := _ + len (concat _)) in H1, H2.
  assert (off ≤ u16_max) as Hoff.
  { unfold off. rewrite Hl, fmap_app, concat_app, !len_app in Hsize. rewrite Hl, len_app. lia. }
  rewrite as_u16_id in H1 by done. unfold deserialize_instruction.
  assert (H0 : at_pos 0 (sysvar_data l tail) (sysvar_data l tail)) by (split; [lia|done]).
  unfold sysvar_data at 2 in H0. apply read_u16_at in H0 as [-> _]; [|done]. cbn [rbind fst snd].
  rewrite (proj2 (N.leb_gt (len l) (len l1)))
    by (rewrite Hl, len_app; unfold len; cbn [length]; lia).
  change (0 + 2) with 2. apply read_u16_at in H1 as [-> _]; [|done]. cbn [rbind fst snd].
  eapply read_instruction_at; [|exact H2]. rewrite Hl in Hfit.
  apply list.Forall_app in Hfit as [_ Hfit]. by apply list.Forall_cons in Hfit as [? _].
Qed.
Lemma sysvar_read_out l tail i :
  len l ≤ u16_max → len l ≤ i → deserialize_instruction i (sysvar_data l tail) = Err IndexOutOfBounds.
Proof.
  intros Hn Hi. unfold deserialize_instruction.
  assert (H0 : at_pos 0 (sysvar_data l tail) (sysvar_data l tail)) by (split; [lia|done]).
  unfold sysvar_data at 2 in H0. apply read_u16_at in H0 as [-> _]; [|done]. cbn [rbind fst snd].
  by rewrite (proj2 (N.leb_le (len l) i)).
Qed.

(** ** The size, from the size of the message on the wire *)
Lemma serialize_short_nonempty n : 1 ≤ len (serialize_short_u16 n).
Proof. unfold serialize_short_u16, len. cbn [short_u16_loop]. destruct (_ =? 0); cbn [length]; lia. Qed.
Lemma enc_elements_size {A} (c : codec A) (f : A → N) l : ∀ bs,
  (∀ x w, enc c x = Some w → f x ≤ len w) → enc_elements c l = Some bs → sumN (f <$> l) ≤ len bs.
Proof.
  induction l as [|x l IH]; intros bs Hf; cbn [enc_elements];
    [intros _; change (sumN (f <$> [])) with 0; lia|].
  intros (a & Ha & (b & Hb & [= <-])%bind_Some)%bind_Some.
  rewrite fmap_cons, sumN_cons, len_app. specialize (IH _ Hf Hb). specialize (Hf _ _ Ha). lia.
Qed.
Lemma enc_short_size {A} (c : codec A) (f : A → N) l bs :
  (∀ x w, enc c x = Some w → f x ≤ len w) → enc (c_short_vec c) l = Some bs →
  1 + sumN (f <$> l) ≤ len bs.
Proof.
  intros Hf. cbn [enc c_short_vec c_short_len]. intros (a & Ha & (b & Hb & [= <-])%bind_Some)%bind_Some.
  destruct (_ <? _); [done|]. injection Ha as <-. pose proof (serialize_short_nonempty (len l)).
  rewrite len_app. pose proof (enc_elements_size c f l b Hf Hb). lia.
Qed.
Lemma u8_size x w : enc c_u8 x = Some w → 1 ≤ len w.
Proof. cbn [enc c_u8 c_int]. destruct (_ <? _); [|done]. by intros [= <-]. Qed.
Lemma sumN_ones {A} (l : list A) : sumN ((λ _, 1) <$> l) = len l.
Proof.
  induction l as [|x l IH]; [done|]. rewrite fmap_cons, sumN_cons, IH. unfold len. cbn [length]. lia.
Qed.
Lemma enc_bytes_size l bs : enc (c_short_vec c_u8) l = Some bs → 1 + len l ≤ len bs.
Proof. intros Hb. rewrite <-(sumN_ones l). eapply enc_short_size; [|exact Hb]. apply u8_size. Qed.

Definition compiled_size (ci : CompiledInstruction) : N := 3 + len (ci_accounts ci) + len (ci_data ci).
Lemma compiled_wire_size ci w : enc c_compiled_instruction ci = Some w → compiled_size ci ≤ len w.
Proof.
  unfold c_compiled_instruction, c_map, c_pair. cbn [enc fst snd].
  intros (a & Ha%u8_size & (bc & Hbc & [= <-])%bind_Some)%bind_Some.
  apply bind_Some in Hbc as (b & Hb%enc_bytes_size & (c & Hc%enc_bytes_size & [= <-])%bind_Some).
  rewrite !len_app. unfold compiled_size. lia.
Qed.
Lemma message_wire_size m bs :
  enc c_message m = Some bs → sumN (compiled_size <$> msg_instructions m) ≤ len bs.
Proof.
  unfold c_message, c_map, c_pair. cbn [enc fst snd].
  intros (a & _ & (b & Hb & [= <-])%bind_Some)%bind_Some.
  apply bind_Some in Hb as (b1 & _ & (b2 & Hb & [= <-])%bind_Some).
  apply bind_Some in Hb as (b3 & _ & (b4 & Hb & [= <-])%bind_Some).
  apply (enc_short_size _ compiled_size) in Hb; [|apply compiled_wire_size]. rewrite !len_app. lia.
Qed.

Definition versioned_base (m : VersionedMessage) : Message :=
  match m with VLegacy m => m | VV0 m => v0_base m end.
Lemma versioned_wire_size vm bs :
  serialize_versioned vm = Some bs → sumN (compiled_size <$> msg_instructions (versioned_base vm)) ≤ len bs.
Proof.
  destruct vm as [m|m]; cbn [serialize_versioned versioned_base]; [apply message_wire_size|].
  intros (r & Hr & ->)%fmap_Some. unfold c_message_v0, c_map, c_pair in Hr. cbn [enc fst snd] in Hr.
  apply bind_Some in Hr as (a & Ha%message_wire_size & (b & _ & [= <-])%bind_Some).
  unfold len in *. cbn [length]. rewrite length_app. lia.
Qed.

(** an instruction and the compiled one it comes from *)
Definition from_compiled (ci : CompiledInstruction) (ix : Instruction) : Prop :=
  key_fits (ix_program_id ix) ∧ Forall (λ m, key_fits (meta_pubkey m)) (ix_accounts ix) ∧
  len (ix_accounts ix) = len (ci_accounts ci) ∧ ix_data ix = ci_data ci.

Lemma metas_length l :
  Forall (λ m, key_fits (meta_pubkey m)) l → len (concat (enc_meta <$> l)) = 33 * len l.
Proof.
  induction 1 as [|m l Hm _ IH]; [done|]. rewrite fmap_cons. cbn [concat]. rewrite len_app, IH.
  unfold enc_meta, len, key_fits in *. cbn [length]. rewrite Hm. lia.
Qed.
Lemma sysvar_size_bound cis ixs :
  Forall2 from_compiled cis ixs → sysvar_size ixs ≤ 2 + 33 * sumN (compiled_size <$> cis).
Proof.
  unfold sysvar_size. induction 1 as [|ci ix cis ixs (Hk & Hm & Ha & Hd) _ IH]; [done|].
  rewrite !fmap_cons, sumN_cons. cbn [concat]. rewrite len_app.
  generalize dependent (len (concat (enc_instruction <$> ixs))). intros n IH. unfold enc_instruction.
  rewrite !len_app, (metas_length _ Hm). change (len (u16_le _)) with 2.
  change (compiled_size ci) with (3 + len (ci_accounts ci) + len (ci_data ci)).
  assert (len (to_bytes (ix_program_id ix)) = 32) as -> by (unfold len, key_fits in *; lia).
  rewrite Ha, Hd. assert (len (ix :: ixs) = 1 + len ixs) as -> by (unfold len; cbn [length]; lia). lia.
Qed.
Lemma from_compiled_fits cis ixs n :
  Forall2 from_compiled cis ixs → sumN (compiled_size <$> cis) ≤ n → n ≤ u16_max → Forall sysvar_fits ixs.
Proof.
  intros Hf. revert n. induction Hf as [|ci ix cis ixs (Hk & Hm & Ha & Hd) _ IH]; intros n Hs Hn; [constructor|].
  rewrite fmap_cons, sumN_cons in Hs. change (compiled_size ci) with (3 + len (ci_accounts ci) + len (ci_data ci)) in Hs. constructor.
  - split_and!; [done..|rewrite Ha|rewrite Hd]; lia.
  - apply (IH n); lia.
Qed.
Lemma decompile_from_compiled {E} m ixs :
  Forall key_fits (account_keys_iter (sm_account_keys m)) →
  decompile_instructions (E:=E) m = Ok ixs → Forall2 from_compiled (sm_instructions m) ixs.
Proof.
  intros Hk. unfold decompile_instructions. destruct (program_instructions m) as [l| |] eqn:Hl; cbn [rbind]; [|done..].
  intros Hr%rmapM_Ok. unfold program_instructions in Hl. apply rmapM_Ok in Hl.
  assert (Hget : ∀ i k, account_keys_get (sm_account_keys m) i = Some k → key_fits k).
  { intros i k. rewrite account_keys_get_iter. intros Hg%getN_elem. by eapply list.Forall_forall in Hk. }
  revert ixs Hr. induction Hl as [|ci [id ci'] cis l Hc _ IH]; intros ixs Hr.
  { apply Forall2_nil_inv_l in Hr as ->. constructor. }
  apply Forall2_cons_inv_l in Hr as (ix & ixs' & Hx & Hr & ->). constructor; [|by apply IH].
  destruct (account_keys_get _ (program_id_index ci)) as [id'|] eqn:Hid; cbn [rbind unwrap] in Hc; [|done].
  injection Hc as <- <-. cbn [fst snd] in Hx.
  destruct (rmapM _ _) as [metas| |] eqn:Hmt; cbn [rbind] in Hx; [|done..]. injection Hx as <-.
  apply rmapM_Ok in Hmt. unfold from_compiled. cbn [ix_program_id ix_accounts ix_data]. split_and!; [by eauto| | |done].
  - clear -Hmt Hget. induction Hmt as [|i mt idx mts Hi _ IH]; constructor; [|done].
    unfold decompile_account in Hi. destruct (account_keys_get _ i) eqn:Hg; cbn [rbind unwrap] in Hi; [|done].
    injection Hi as <-. by eapply Hget.
  - apply Forall2_length in Hmt. unfold len. lia.
Qed.

(** ** The account the runtime builds *)
Definition sysvar_account (ixs : list Instruction) (current : N) : list N :=
  sysvar_data ixs (u16_le current).

Lemma drop_tail {A} (l t : list A) n : length t = n → drop (length (l ++ t) - n) (l ++ t) = t.
Proof.
  intros Hn. rewrite length_app, Hn. replace (length l + n - n)%nat with (length l) by lia.
  apply drop_app_length.
Qed.
Lemma take_tail {A} (l t : list A) n : length t = n → take (length (l ++ t) - n) (l ++ t) = l.
Proof.
  intros Hn. rewrite length_app, Hn. replace (length l + n - n)%nat with (length l) by lia.
  apply take_app_length.
Qed.
Lemma sysvar_data_tail l t :
  sysvar_data l t = (u16_le (len l) ++ offsets (2 + 2 * len l) l ++ concat (enc_instruction <$> l)) ++ t.
Proof. unfold sysvar_data. by rewrite <-!app_assoc. Qed.
Lemma tail_long (l t : list N) : length t = 2%nat → (len (l ++ t) <? 2) = false.
Proof. intros Ht. apply N.ltb_ge. rewrite len_app. unfold len. lia. Qed.

Lemma sysvar_constructed {E} l :
  len l ≤ u16_max → construct_instructions_data (E:=E) l = Ok (sysvar_data l [0; 0]).
Proof.
  intros Hn. unfold construct_instructions_data. rewrite serialize_instructions_eq. cbn [rbind].
  by rewrite as_u16_id, sysvar_data_tail.
Qed.
Lemma sysvar_stored {E} l tail current :
  length tail = 2%nat →
  store_current_index (E:=E) (sysvar_data l tail) current = Ok (sysvar_account l current).
Proof.
  intros Ht. unfold store_current_index, sysvar_account. rewrite !sysvar_data_tail.
  by rewrite tail_long, take_tail.
Qed.
Lemma sysvar_current {E} l current :
  current ≤ u16_max → load_current_index (E:=E) (sysvar_account l current) = Ok current.
Proof.
  intros Hc. unfold load_current_index, sysvar_account. rewrite sysvar_data_tail.
  by rewrite tail_long, drop_tail, from_le_u16.
Qed.

(** an instruction read by its position, or none *)
Definition nth_instruction (ixs : list Instruction) (i : N) : result SysvarError Instruction :=
  match getN ixs i with Some ix => Ok ix | None => Err InvalidArgumentSysvar end.
Lemma sysvar_load l tail i :
  Forall sysvar_fits l → sysvar_size l ≤ u16_max →
  sysvar_error (deserialize_instruction i (sysvar_data l tail)) = nth_instruction l i.
Proof.
  intros Hf Hs. unfold nth_instruction. destruct (getN l i) as [ix|] eqn:Hi.
  - by rewrite (sysvar_read l tail i ix).
  - rewrite sysvar_read_out; [done|unfold sysvar_size in Hs; lia|].
    unfold getN in Hi. apply lookup_ge_None in Hi. unfold len. lia.
Qed.

Lemma nth_instruction_out l i : len l ≤ i → nth_instruction l i = Err InvalidArgumentSysvar.
Proof.
  intros Hi. unfold nth_instruction, getN. rewrite lookup_ge_None_2; [done|]. unfold len in Hi. lia.
Qed.
(** the addition saturates only beyond every instruction *)
Lemma sysvar_load_relative l tail current off :
  Forall sysvar_fits l → sysvar_size l ≤ u16_max → current ≤ u16_max → (- 2 ^ 63 ≤ off < 2 ^ 63)%Z →
  (let index := i64_saturating_add (Z.of_N current) off in
   if (index <? 0)%Z then Err InvalidArgumentSysvar
   else sysvar_error (load_instruction_at (Z.to_N index) (sysvar_data l tail))) =
  if decide (Z.of_N current + off < 0)%Z then Err InvalidArgumentSysvar
  else nth_instruction l (Z.to_N (Z.of_N current + off)).
Proof.
  intros Hf Hs Hc Hoff. assert (len l ≤ u16_max) by (unfold sysvar_size in Hs; lia).
  unfold load_instruction_at, i64_saturating_add, saturate_i64, i64_min, i64_max, u16_max in *. cbv zeta.
  rewrite sysvar_load by done. case_decide as Hneg.
  - by rewrite (proj2 (Z.ltb_lt _ _)) by lia.
  - rewrite (proj2 (Z.ltb_ge _ _)) by lia.
    destruct (decide (Z.of_N current + off < 2 ^ 63)%Z); [do 2 f_equal; lia|].
    rewrite !nth_instruction_out by lia. done.
Qed.

(** C32: for a transaction message whose wire form fits a packet, the sysvar account the
    runtime builds from the message's instructions and then marks with the index of the
    running one shows programs exactly those: the current index reads back, every
    instruction reads back with its program, its account metas with both flags and its
    data, by absolute and by relative position, and any other position is
    [InvalidArgument]; the 16-bit offsets of the table never wrap. *)
Theorem sysvar_faithful (m : SanitizedMessage) (vm : VersionedMessage) bytes ixs current :
  serialize_versioned vm = Some bytes → len bytes ≤ PACKET_DATA_SIZE →
  sm_base m = versioned_base vm →
  Forall key_fits (account_keys_iter (sm_account_keys m)) →
  decompile_instructions (E:=TransactionError.t) m = Ok ixs →
  current ≤ u16_max →
  ∃ d d', construct_instructions_data (E:=TransactionError.t) ixs = Ok d ∧
    store_current_index (E:=TransactionError.t) d current = Ok d' ∧
    load_current_index_checked sysvar_instructions_id d' = Ok current ∧
    (∀ i, load_instruction_at_checked i sysvar_instructions_id d' = nth_instruction ixs i) ∧
    (∀ off, (- 2 ^ 63 ≤ off < 2 ^ 63)%Z →
       get_instruction_relative off sysvar_instructions_id d' =
       if decide (Z.of_N current + off < 0)%Z then Err InvalidArgumentSysvar
       else nth_instruction ixs (Z.to_N (Z.of_N current + off))).
Proof.
  intros Hb Hlen Hbase Hk Hd Hc. pose proof (versioned_wire_size vm bytes Hb) as Hw.
  rewrite <-Hbase in Hw. pose proof (decompile_from_compiled m ixs Hk Hd) as Hf.
  unfold PACKET_DATA_SIZE in Hlen. change (msg_instructions (sm_base m)) with (sm_instructions m) in Hw.
  assert (Hs : sysvar_size ixs ≤ u16_max).
  { pose proof (sysvar_size_bound _ _ Hf). unfold u16_max. lia. }
  assert (Hfit : Forall sysvar_fits ixs).
  { eapply from_compiled_fits; [exact Hf|exact Hw|]. unfold u16_max. lia. }
  assert (Hl : len ixs ≤ u16_max) by (unfold sysvar_size in Hs; lia).
  exists (sysvar_data ixs [0; 0]), (sysvar_account ixs current). split_and!.
  - by apply sysvar_constructed.
  - by apply sysvar_stored.
  - unfold load_current_index_checked. rewrite key_eqb_refl. by apply sysvar_current.
  - intros i. unfold load_instruction_at_checked. rewrite key_eqb_refl. by apply sysvar_load.
  - intros off Hoff. unfold get_instruction_relative. rewrite key_eqb_refl. cbn [negb].
    rewrite sysvar_current by done. cbn [rbind]. by apply sysvar_load_relative.
Qed.
Definition sysvar_message : Message :=
  mkMessage (mkMessageHeader 1 0 1) [pubkey_of_N 1; pubkey_of_N 2; system_program_id]
    (mkHash (replicate 32 1)) [mkCompiledInstruction 2 [0; 1] [2; 0; 0; 0]; mkCompiledInstruction 2 [0] []].
Definition sysvar_sanitized : SanitizedMessage := LegacyMsg (mkLegacyMessage sysvar_message [true; true; false]).
Definition sysvar_wire : list N := default [] (serialize_versioned (VLegacy sysvar_message)).
Definition sysvar_ixs : list Instruction :=
  match decompile_instructions (E:=unit) sysvar_sanitized with Ok l => l | _ => [] end.
Lemma sysvar_faithful_witness :
  ∃ d d' ix, construct_instructions_data (E:=TransactionError.t) sysvar_ixs = Ok d ∧
    store_current_index (E:=TransactionError.t) d 1 = Ok d' ∧
    get_instruction_relative (-1) sysvar_instructions_id d' = Ok ix ∧
    ix_data ix = [2; 0; 0; 0] ∧ len (ix_accounts ix) = 2.
Proof.
  destruct (sysvar_faithful sysvar_sanitized (VLegacy sysvar_message) sysvar_wire sysvar_ixs 1)
    as (d & d' & Hd & Hs & _ & _ & Hr).
  - vm_compute. reflexivity.
  - vm_compute. discriminate.
  - reflexivity.
  - repeat constructor.
  - vm_compute. reflexivity.
  - unfold u16_max. lia.
  - exists d, d'. eexists. split_and!; [exact Hd|exact Hs| | |].
    + rewrite (Hr (-1)%Z) by lia. vm_compute. reflexivity.
    + reflexivity.
    + reflexivity.
Defined.
