(* ===== verification/VoteState.v ===== *)
(** * The state of a vote account ([sdk/program/src/vote/])

    The tower of votes of a validator with its lockouts ([state/mod.rs]), the voters by
    epoch ([authorized_voters.rs]), the versions in which the state is stored
    ([state/vote_state_versions.rs], [vote_state_1_14_11.rs], [vote_state_0_23_5.rs]) and the
    compact form of a proposed tower.  A [VecDeque] is a list, oldest vote first; a
    [BTreeMap] by epoch is an association list in rising order. *)

From S2P Require Import Prelude Sdk Rent InvokeContext.

(** ** Errors ([error.rs]) *)
Module VoteError.
Inductive t :=
| VoteTooOld | SlotsMismatch | SlotHashMismatch | EmptySlots | TimestampTooOld
| TooSoonToReauthorize | LockoutConflict | NewVoteStateLockoutMismatch | SlotsNotOrdered
| ConfirmationsNotOrdered | ZeroConfirmations | ConfirmationTooLarge | RootRollBack
| ConfirmationRollBack | SlotSmallerThanRoot | TooManyVotes | VotesTooOldAllFiltered
| RootOnDifferentFork | ActiveVoteAccountClose | CommissionUpdateTooLate.
Definition to_u32 (e : t) : N :=
  match e with
  | VoteTooOld => 0 | SlotsMismatch => 1 | SlotHashMismatch => 2 | EmptySlots => 3
  | TimestampTooOld => 4 | TooSoonToReauthorize => 5 | LockoutConflict => 6
  | NewVoteStateLockoutMismatch => 7 | SlotsNotOrdered => 8 | ConfirmationsNotOrdered => 9
  | ZeroConfirmations => 10 | ConfirmationTooLarge => 11 | RootRollBack => 12
  | ConfirmationRollBack => 13 | SlotSmallerThanRoot => 14 | TooManyVotes => 15
  | VotesTooOldAllFiltered => 16 | RootOnDifferentFork => 17 | ActiveVoteAccountClose => 18
  | CommissionUpdateTooLate => 19
  end.
End VoteError.
Definition from_vote_error {A} (r : result VoteError.t A) : result InstructionError A :=
  match r with Ok a => Ok a | Err e => Err (Custom (VoteError.to_u32 e)) | Panic => Panic end.

(** ** Lockouts *)
Definition MAX_LOCKOUT_HISTORY : N := 31.
Definition INITIAL_LOCKOUT : N := 2.
Definition MAX_EPOCH_CREDITS_HISTORY : N := 64.
Definition VOTE_CREDITS_GRACE_SLOTS : N := 2.
Definition VOTE_CREDITS_MAXIMUM_PER_SLOT : N := 16.
Definition VOTE_CREDITS_MAXIMUM_PER_SLOT_OLD : N := 8.

Record Vote := mkVote {
  vote_slots : list N;
  vote_hash : Hash;
  vote_timestamp : option Z }.
Definition vote_last_voted_slot (v : Vote) : option N := list.last (vote_slots v).

Record Lockout := mkLockout { lk_slot : N; lk_confirmation_count : N }.
Definition lockout_new (slot : N) : Lockout := mkLockout slot 1.
(** [u64::pow], which wraps around in the release build *)
Definition lockout_slots (l : Lockout) : N := as_u64 (INITIAL_LOCKOUT ^ lk_confirmation_count l).
Definition last_locked_out_slot (l : Lockout) : N := saturating_add u64_max (lk_slot l) (lockout_slots l).
Definition is_locked_out_at_slot (l : Lockout) (slot : N) : bool := slot <=? last_locked_out_slot l.
Definition increase_confirmation_count (by_ : N) (l : Lockout) : Lockout :=
  mkLockout (lk_slot l) (saturating_add u32_max (lk_confirmation_count l) by_).

Record LandedVote := mkLandedVote { latency : N; lockout : Lockout }.
Definition lv_slot (v : LandedVote) : N := lk_slot (lockout v).
Definition lv_confirmation_count (v : LandedVote) : N := lk_confirmation_count (lockout v).
(** [From<Lockout> for LandedVote] *)
Definition landed_of_lockout (l : Lockout) : LandedVote := mkLandedVote 0 l.

Record VoteStateUpdate := mkVoteStateUpdate {
  vsu_lockouts : list Lockout;
  vsu_root : option N;
  vsu_hash : Hash;
  vsu_timestamp : option Z }.
Definition vsu_slots (u : VoteStateUpdate) : list N := lk_slot <$> vsu_lockouts u.
Definition vsu_last_voted_slot (u : VoteStateUpdate) : option N := lk_slot <$> list.last (vsu_lockouts u).

Record VoteInit := mkVoteInit {
  init_node_pubkey : Pubkey;
  init_authorized_voter : Pubkey;
  init_authorized_withdrawer : Pubkey;
  init_commission : N }.
Inductive VoteAuthorize := Voter | Withdrawer.
Record BlockTimestamp := mkBlockTimestamp { bt_slot : N; bt_timestamp : Z }.
#[export] Instance BlockTimestamp_eq_dec : EqDecision BlockTimestamp.
Proof. solve_decision. Defined.

(** ** Prior voters, in a ring ([CircBuf]) *)
Definition MAX_ITEMS : N := 32.
Record CircBuf (I : Type) := mkCircBuf { circ_buf : list I; circ_idx : N; circ_is_empty : bool }.
Arguments mkCircBuf {I}.
Arguments circ_buf {I}.
Arguments circ_idx {I}.
Arguments circ_is_empty {I}.
Definition circ_default {I} (default_ : I) : CircBuf I :=
  mkCircBuf (replicate (N.to_nat MAX_ITEMS) default_) (MAX_ITEMS - 1) true.
(** the index is taken modulo the length of the array, so it is in range *)
Definition circ_append {I} (item : I) (c : CircBuf I) : CircBuf I :=
  let idx := (circ_idx c + 1) `mod` MAX_ITEMS in
  mkCircBuf (<[N.to_nat idx := item]> (circ_buf c)) idx false.
(** [Some(&self.buf[self.idx])] *)
Definition circ_last {E I} (c : CircBuf I) : result E (option I) :=
  if circ_is_empty c then Ok None else let! item := unwrap (getN (circ_buf c) (circ_idx c)) in Ok (Some item).

(** ** Voters by epoch ([authorized_voters.rs]) *)
Definition AuthorizedVoters : Type := list (N * Pubkey).
Fixpoint av_insert (epoch : N) (voter : Pubkey) (l : AuthorizedVoters) : AuthorizedVoters :=
  match l with
  | [] => [(epoch, voter)]
  | (e, k) :: l' =>
      if epoch <? e then (epoch, voter) :: l
      else if epoch =? e then (epoch, voter) :: l'
      else (e, k) :: av_insert epoch voter l'
  end.
Fixpoint av_get (epoch : N) (l : AuthorizedVoters) : option Pubkey :=
  match l with [] => None | (e, k) :: l' => if e =? epoch then Some k else av_get epoch l' end.
Definition av_before (epoch : N) (l : AuthorizedVoters) : AuthorizedVoters :=
  filter (λ x, x.1 < epoch) l.
Definition get_or_calculate_authorized_voter_for_epoch (epoch : N) (l : AuthorizedVoters) :
  option (Pubkey * bool) :=
  match av_get epoch l with
  | Some pubkey => Some (pubkey, true)
  | None => match list.last (av_before epoch l) with Some (_, pubkey) => Some (pubkey, false) | None => None end
  end.
Definition av_get_authorized_voter (epoch : N) (l : AuthorizedVoters) : option Pubkey :=
  fst <$> get_or_calculate_authorized_voter_for_epoch epoch l.
Definition get_and_cache_authorized_voter_for_epoch (epoch : N) (l : AuthorizedVoters) :
  option (Pubkey * AuthorizedVoters) :=
  match get_or_calculate_authorized_voter_for_epoch epoch l with
  | Some (pubkey, existed) => Some (pubkey, if existed : bool then l else av_insert epoch pubkey l)
  | None => None
  end.
(** the [assert!] that some voter is left *)
Definition purge_authorized_voters {E} (current_epoch : N) (l : AuthorizedVoters) : result E AuthorizedVoters :=
  match filter (λ x, current_epoch ≤ x.1) l with
  | [] => Panic
  | l' => Ok l'
  end.

(** ** The state *)
Record VoteState := mkVoteState {
  node_pubkey : Pubkey;
  authorized_withdrawer : Pubkey;
  commission : N;
  votes : list LandedVote;
  root_slot : option N;
  authorized_voters : AuthorizedVoters;
  prior_voters : CircBuf (Pubkey * N * N);
  epoch_credits : list (N * N * N);
  last_timestamp : BlockTimestamp }.

Definition set_node_pubkey (x : Pubkey) (s : VoteState) : VoteState :=
  mkVoteState x (authorized_withdrawer s) (commission s) (votes s) (root_slot s) (authorized_voters s)
    (prior_voters s) (epoch_credits s) (last_timestamp s).
Definition set_authorized_withdrawer (x : Pubkey) (s : VoteState) : VoteState :=
  mkVoteState (node_pubkey s) x (commission s) (votes s) (root_slot s) (authorized_voters s)
    (prior_voters s) (epoch_credits s) (last_timestamp s).
Definition set_commission (x : N) (s : VoteState) : VoteState :=
  mkVoteState (node_pubkey s) (authorized_withdrawer s) x (votes s) (root_slot s) (authorized_voters s)
    (prior_voters s) (epoch_credits s) (last_timestamp s).
Definition set_votes (x : list LandedVote) (s : VoteState) : VoteState :=
  mkVoteState (node_pubkey s) (authorized_withdrawer s) (commission s) x (root_slot s) (authorized_voters s)
    (prior_voters s) (epoch_credits s) (last_timestamp s).
Definition set_root_slot (x : option N) (s : VoteState) : VoteState :=
  mkVoteState (node_pubkey s) (authorized_withdrawer s) (commission s) (votes s) x (authorized_voters s)
    (prior_voters s) (epoch_credits s) (last_timestamp s).
Definition set_voters (x : AuthorizedVoters) (y : CircBuf (Pubkey * N * N)) (s : VoteState) : VoteState :=
  mkVoteState (node_pubkey s) (authorized_withdrawer s) (commission s) (votes s) (root_slot s) x y
    (epoch_credits s) (last_timestamp s).
Definition set_epoch_credits (x : list (N * N * N)) (s : VoteState) : VoteState :=
  mkVoteState (node_pubkey s) (authorized_withdrawer s) (commission s) (votes s) (root_slot s)
    (authorized_voters s) (prior_voters s) x (last_timestamp s).
Definition set_last_timestamp (x : BlockTimestamp) (s : VoteState) : VoteState :=
  mkVoteState (node_pubkey s) (authorized_withdrawer s) (commission s) (votes s) (root_slot s)
    (authorized_voters s) (prior_voters s) (epoch_credits s) x.

Definition vote_state_default : VoteState :=
  mkVoteState default_pubkey default_pubkey 0 [] None [] (circ_default (default_pubkey, 0, 0)) []
    (mkBlockTimestamp 0 0).
Definition vote_state_new (vote_init : VoteInit) (clock : Clock) : VoteState :=
  mkVoteState (init_node_pubkey vote_init) (init_authorized_withdrawer vote_init) (init_commission vote_init)
    [] None [(clock_epoch clock, init_authorized_voter vote_init)] (circ_default (default_pubkey, 0, 0)) []
    (mkBlockTimestamp 0 0).
Definition VOTE_STATE_SIZE : N := 3762.
Definition VOTE_STATE_1_14_11_SIZE : N := 3731.
Definition vote_state_size_of (is_current : bool) : N :=
  if is_current then VOTE_STATE_SIZE else VOTE_STATE_1_14_11_SIZE.

(** the shares of the voter and of the stakers, and whether it was split *)
Definition commission_split (s : VoteState) (on : N) : N * N * bool :=
  let split := N.min (commission s) 100 in
  if split =? 0 then (0, on, false) else
  if split =? 100 then (on, 0, false) else
  (as_u64 (on * split / 100), as_u64 (on * (100 - split) / 100), true).

Definition last_lockout (s : VoteState) : option Lockout := lockout <$> list.last (votes s).
Definition last_voted_slot (s : VoteState) : option N := lk_slot <$> last_lockout s.
Definition tower (s : VoteState) : list N := lv_slot <$> votes s.
Definition contains_slot (s : VoteState) (candidate_slot : N) : bool :=
  match binary_search_by (λ v, lv_slot v ?= candidate_slot) (votes s) with inl _ => true | inr _ => false end.
Definition nth_recent_lockout (s : VoteState) (position : N) : option Lockout :=
  if position <? len (votes s) then lockout <$> getN (votes s) (len (votes s) - position - 1) else None.

(** [pop_back] while the last vote is not locked out at [next_vote_slot] *)
Fixpoint pop_expired (next_vote_slot : N) (l : list LandedVote) : list LandedVote :=
  match l with
  | [] => []
  | v :: l' =>
      match pop_expired next_vote_slot l' with
      | [] => if is_locked_out_at_slot (lockout v) next_vote_slot then [v] else []
      | kept => v :: kept
      end
  end.
Definition pop_expired_votes (next_vote_slot : N) (s : VoteState) : VoteState :=
  set_votes (pop_expired next_vote_slot (votes s)) s.
(** a position plus a 32-bit count does not overflow 64 bits *)
Definition double_lockout (stack_depth i : N) (v : LandedVote) : LandedVote :=
  if i + lv_confirmation_count v <? stack_depth
  then mkLandedVote (latency v) (increase_confirmation_count 1 (lockout v)) else v.
Definition double_lockouts (s : VoteState) : VoteState :=
  set_votes (imap (λ i v, double_lockout (len (votes s)) (N.of_nat i) v) (votes s)) s.

Definition compute_vote_latency (voted_for_slot current_slot : N) : N :=
  N.min (saturating_sub current_slot voted_for_slot) u8_max.
Definition credits_for_vote_at_index (s : VoteState) (index : N)
    (timely_vote_credits deprecate_unused_legacy_vote_plumbing : bool) : N :=
  let latency := match getN (votes s) index with Some v => latency v | None => 0 end in
  let max_credits :=
    if deprecate_unused_legacy_vote_plumbing then VOTE_CREDITS_MAXIMUM_PER_SLOT
    else VOTE_CREDITS_MAXIMUM_PER_SLOT_OLD in
  if (latency =? 0) || (deprecate_unused_legacy_vote_plumbing && negb timely_vote_credits) then 1 else
  match checked_sub latency VOTE_CREDITS_GRACE_SLOTS with
  | None | Some 0 => max_credits
  | Some diff => match checked_sub max_credits diff with None | Some 0 => 1 | Some credits => credits end
  end.

(** [last_mut().unwrap()] of a list that is not empty *)
Fixpoint alter_last {A} (f : A → A) (l : list A) : list A :=
  match l with [] => [] | [x] => [f x] | x :: l' => x :: alter_last f l' end.
Definition increment_credits (epoch credits : N) (s : VoteState) : VoteState :=
  let ec := epoch_credits s in
  let ec :=
    match list.last ec with
    | None => [(epoch, 0, 0)]
    | Some (last_epoch, last_credits, prev_credits) =>
        if epoch =? last_epoch then ec else
        let ec := if negb (last_credits =? prev_credits) then ec ++ [(epoch, last_credits, last_credits)]
                  else alter_last (λ x, (epoch, x.1.2, x.2)) ec in
        if MAX_EPOCH_CREDITS_HISTORY <? len ec then tail ec else ec
    end in
  set_epoch_credits (alter_last (λ x, (x.1.1, saturating_add u64_max x.1.2 credits, x.2)) ec) s.
Definition current_epoch (s : VoteState) : N :=
  match list.last (epoch_credits s) with Some x => x.1.1 | None => 0 end.
Definition credits (s : VoteState) : N :=
  match list.last (epoch_credits s) with Some x => x.1.2 | None => 0 end.

Definition process_next_vote_slot (next_vote_slot epoch current_slot : N)
    (timely_vote_credits deprecate_unused_legacy_vote_plumbing : bool) (s : VoteState) : VoteState :=
  if match last_voted_slot s with Some last => next_vote_slot <=? last | None => false end then s else
  let s := pop_expired_votes next_vote_slot s in
  let landed_vote :=
    mkLandedVote (if timely_vote_credits || negb deprecate_unused_legacy_vote_plumbing
                  then compute_vote_latency next_vote_slot current_slot else 0)
      (lockout_new next_vote_slot) in
  let s :=
    match votes s with
    | oldest :: rest =>
        if len (votes s) =? MAX_LOCKOUT_HISTORY then
          let credits := credits_for_vote_at_index s 0 timely_vote_credits deprecate_unused_legacy_vote_plumbing in
          increment_credits epoch credits (set_root_slot (Some (lv_slot oldest)) (set_votes rest s))
        else s
    | [] => s
    end in
  double_lockouts (set_votes (votes s ++ [landed_vote]) s).

(** *** Voters *)
Definition get_and_update_authorized_voter (current_epoch : N) (s : VoteState) :
  result InstructionError (Pubkey * VoteState) :=
  let! found := ok_or (get_and_cache_authorized_voter_for_epoch current_epoch (authorized_voters s))
                  InvalidAccountData in
  let! voters := purge_authorized_voters current_epoch found.2 in
  Ok (found.1, set_voters voters (prior_voters s) s).
Definition set_new_authorized_voter (authorized_pubkey : Pubkey) (current_epoch target_epoch : N)
    (verify : Pubkey → result InstructionError unit) (s : VoteState) : result InstructionError VoteState :=
  let! updated := get_and_update_authorized_voter current_epoch s in
  let '(epoch_authorized_voter, s) := updated in
  check! verify epoch_authorized_voter in
  if bool_decide (is_Some (av_get target_epoch (authorized_voters s)))
  then from_vote_error (Err VoteError.TooSoonToReauthorize) else
  let! latest := ok_or (list.last (authorized_voters s)) InvalidAccountData in
  let '(latest_epoch, latest_authorized_pubkey) := latest in
  let! prior :=
    (if key_eqb latest_authorized_pubkey authorized_pubkey then Ok (prior_voters s) else
     let! last := circ_last (prior_voters s) in
     let epoch_of_last_authorized_switch := match last with Some range => range.2 | None => 0 end in
     if negb (latest_epoch <? target_epoch) then Panic else
     Ok (circ_append (latest_authorized_pubkey, epoch_of_last_authorized_switch, target_epoch)
           (prior_voters s))) in
  Ok (set_voters (av_insert target_epoch authorized_pubkey (authorized_voters s)) prior s).

Definition process_timestamp (slot : N) (timestamp : Z) (s : VoteState) : result VoteError.t VoteState :=
  let last := last_timestamp s in
  if (slot <? bt_slot last) || (timestamp <? bt_timestamp last)%Z ||
     ((slot =? bt_slot last) && negb (bool_decide (mkBlockTimestamp slot timestamp = last)) &&
      negb (bt_slot last =? 0))
  then Err VoteError.TimestampTooOld
  else Ok (set_last_timestamp (mkBlockTimestamp slot timestamp) s).

(** ** Stored versions *)
Record VoteState1_14_11 := mkVoteState1_14_11 {
  v1_node_pubkey : Pubkey;
  v1_authorized_withdrawer : Pubkey;
  v1_commission : N;
  v1_votes : list Lockout;
  v1_root_slot : option N;
  v1_authorized_voters : AuthorizedVoters;
  v1_prior_voters : CircBuf (Pubkey * N * N);
  v1_epoch_credits : list (N * N * N);
  v1_last_timestamp : BlockTimestamp }.
(** its ring of prior voters has no empty flag and is dropped by the conversion *)
Record VoteState0_23_5 := mkVoteState0_23_5 {
  v0_node_pubkey : Pubkey;
  v0_authorized_voter : Pubkey;
  v0_authorized_voter_epoch : N;
  v0_prior_voters : list (Pubkey * N * N * N) * N;
  v0_authorized_withdrawer : Pubkey;
  v0_commission : N;
  v0_votes : list Lockout;
  v0_root_slot : option N;
  v0_epoch_credits : list (N * N * N);
  v0_last_timestamp : BlockTimestamp }.
Inductive VoteStateVersions :=
| V0_23_5 (s : VoteState0_23_5)
| V1_14_11 (s : VoteState1_14_11)
| VCurrentVote (s : VoteState).

(** [From<VoteState> for VoteState1_14_11] *)
Definition vote_state_to_1_14_11 (s : VoteState) : VoteState1_14_11 :=
  mkVoteState1_14_11 (node_pubkey s) (authorized_withdrawer s) (commission s) (lockout <$> votes s)
    (root_slot s) (authorized_voters s) (prior_voters s) (epoch_credits s) (last_timestamp s).
Definition landed_votes_from_lockouts (l : list Lockout) : list LandedVote := landed_of_lockout <$> l.
Definition convert_to_current (v : VoteStateVersions) : VoteState :=
  match v with
  | V0_23_5 s =>
      mkVoteState (v0_node_pubkey s) (v0_authorized_withdrawer s) (v0_commission s)
        (landed_votes_from_lockouts (v0_votes s)) (v0_root_slot s)
        [(v0_authorized_voter_epoch s, v0_authorized_voter s)] (circ_default (default_pubkey, 0, 0))
        (v0_epoch_credits s) (v0_last_timestamp s)
  | V1_14_11 s =>
      mkVoteState (v1_node_pubkey s) (v1_authorized_withdrawer s) (v1_commission s)
        (landed_votes_from_lockouts (v1_votes s)) (v1_root_slot s) (v1_authorized_voters s)
        (v1_prior_voters s) (v1_epoch_credits s) (v1_last_timestamp s)
  | VCurrentVote s => s
  end.
Definition is_uninitialized (v : VoteStateVersions) : bool :=
  match v with
  | V0_23_5 s => key_eqb (v0_authorized_voter s) default_pubkey
  | V1_14_11 s => bool_decide (v1_authorized_voters s = [])
  | VCurrentVote s => bool_decide (authorized_voters s = [])
  end.

(** [VoteState::deserialize] *)
Definition vote_state_deserialize `{!Bincode VoteStateVersions} (d : list N) : result InstructionError VoteState :=
  let! versioned := ok_or (deserialize d) InvalidAccountData in
  Ok (convert_to_current versioned).
Definition DEFAULT_PRIOR_VOTERS_OFFSET : N := 114.
Definition DEFAULT_PRIOR_VOTERS_OFFSET_1_14_11 : N := 82.
Definition initialized_at (size offset : N) (d : list N) : bool :=
  (len d =? size) &&
  negb (bool_decide (take (N.to_nat offset) (drop 4 d) = replicate (N.to_nat offset) 0)).
Definition vote_is_correct_size_and_initialized (d : list N) : bool :=
  initialized_at VOTE_STATE_SIZE DEFAULT_PRIOR_VOTERS_OFFSET d ||
  initialized_at VOTE_STATE_1_14_11_SIZE DEFAULT_PRIOR_VOTERS_OFFSET_1_14_11 d.

(** ** The compact form of a proposed tower ([serde_compact_vote_state_update])

    Each slot is written as its distance from the one before, the first from the root. *)
Module Compact.
Inductive error := InvalidVoteLockout | InvalidConfirmationCount | InvalidLockoutOffset.
Record LockoutOffset := mkLockoutOffset { lo_offset : N; lo_confirmation_count : N }.
Record CompactVoteStateUpdate := mkCompactVoteStateUpdate {
  compact_root : N;
  lockout_offsets : list LockoutOffset;
  compact_hash : Hash;
  compact_timestamp : option Z }.

Fixpoint offsets_of (slot : N) (l : list Lockout) : result error (list LockoutOffset) :=
  match l with
  | [] => Ok []
  | lockout :: l' =>
      let! offset := ok_or (checked_sub (lk_slot lockout) slot) InvalidVoteLockout in
      let! confirmation_count :=
        (if lk_confirmation_count lockout <=? u8_max then Ok (lk_confirmation_count lockout)
         else Err InvalidConfirmationCount) in
      let! rest := offsets_of (lk_slot lockout) l' in
      Ok (mkLockoutOffset offset confirmation_count :: rest)
  end.
Definition serialize_compact (u : VoteStateUpdate) : result error CompactVoteStateUpdate :=
  let! offsets := offsets_of (default 0 (vsu_root u)) (vsu_lockouts u) in
  Ok (mkCompactVoteStateUpdate (default u64_max (vsu_root u)) offsets (vsu_hash u) (vsu_timestamp u)).

Fixpoint lockouts_of (slot : N) (l : list LockoutOffset) : result error (list Lockout) :=
  match l with
  | [] => Ok []
  | lockout_offset :: l' =>
      let! slot := ok_or (checked_add u64_max slot (lo_offset lockout_offset)) InvalidLockoutOffset in
      let! rest := lockouts_of slot l' in
      Ok (mkLockout slot (lo_confirmation_count lockout_offset) :: rest)
  end.
Definition deserialize_compact (c : CompactVoteStateUpdate) : result error VoteStateUpdate :=
  let root := if compact_root c =? u64_max then None else Some (compact_root c) in
  let! lockouts := lockouts_of (default 0 root) (lockout_offsets c) in
  Ok (mkVoteStateUpdate lockouts root (compact_hash c) (compact_timestamp c)).
End Compact.
