(* ===== verification/VoteProcess.v ===== *)
(** * Processing of votes ([programs/vote/src/vote_state/mod.rs])

    Votes and proposed towers against the slot hashes of the fork and the tower on the account.
    A function that returns an error leaves the vote state it was given to its callers, and
    they drop it: the model returns the new state only on success. *)

From S2P Require Import Prelude Sdk InvokeContext VoteState.

Inductive VoteTransaction :=
| TxVote (v : Vote)
| TxVoteStateUpdate (u : VoteStateUpdate)
| TxCompactVoteStateUpdate (u : VoteStateUpdate).
Definition vt_slots (t : VoteTransaction) : list N :=
  match t with
  | TxVote v => vote_slots v
  | TxVoteStateUpdate u => vsu_slots u
  | TxCompactVoteStateUpdate u => vsu_slots u
  end.
Definition vt_hash (t : VoteTransaction) : Hash :=
  match t with
  | TxVote v => vote_hash v
  | TxVoteStateUpdate u => vsu_hash u
  | TxCompactVoteStateUpdate u => vsu_hash u
  end.
Definition vt_timestamp (t : VoteTransaction) : option Z :=
  match t with
  | TxVote v => vote_timestamp v
  | TxVoteStateUpdate u | TxCompactVoteStateUpdate u => vsu_timestamp u
  end.
Definition vt_last_voted_slot (t : VoteTransaction) : option N :=
  match t with
  | TxVote v => vote_last_voted_slot v
  | TxVoteStateUpdate u | TxCompactVoteStateUpdate u => vsu_last_voted_slot u
  end.
Definition last_voted_slot_hash (t : VoteTransaction) : option (N * Hash) :=
  match vt_last_voted_slot t with Some slot => Some (slot, vt_hash t) | None => None end.

(** ** The slots of a proposed tower *)

(** the root to use when the proposed one is older than the history *)
Definition adjusted_root (s : VoteState) (earliest_slot_hash_in_history : N) (root : option N) : option N :=
  match root with
  | Some proposed_root =>
      if proposed_root <? earliest_slot_hash_in_history then
        match list_find (λ v, lv_slot v ≤ proposed_root) (reverse (votes s)) with
        | Some (_, v) => Some (lv_slot v)
        | None => root_slot s
        end
      else root
  | None => None
  end.

(** the loop over the proposed slots [lockouts], from the oldest, and the slot hashes, from
    their end.  [i] and [j] are the two indices; the result is [i], [j] and the positions to
    filter.  Each round raises [i], lowers [j] or drops the root, which bounds the fuel. *)
Fixpoint check_update_loop (fuel : nat) (s : VoteState) (lockouts : list Lockout)
    (slot_hashes : list (N * Hash)) (earliest : N) (root_to_check : option N) (i j : N) (to_filter : list N) :
  result VoteError.t (N * N * list N) :=
  match fuel with
  | O => Panic
  | S fuel =>
      if negb ((i <? len lockouts) && (0 <? j)) then Ok (i, j, to_filter) else
      let! current := unwrap (getN lockouts i) in
      let proposed_vote_slot := match root_to_check with Some root => root | None => lk_slot current end in
      let! unordered :=
        (if bool_decide (root_to_check = None) && (0 <? i) then
           let! previous := unwrap (getN lockouts (i - 1)) in
           Ok (proposed_vote_slot <=? lk_slot previous)
         else Ok false) in
      if unordered : bool then Err VoteError.SlotsNotOrdered else
      let! ancestor := unwrap (getN slot_hashes (j - 1)) in
      match proposed_vote_slot ?= ancestor.1 with
      | Lt =>
          if j =? len slot_hashes then
            if negb (proposed_vote_slot <? earliest) then Panic else
            let to_filter :=
              if negb (contains_slot s proposed_vote_slot) && bool_decide (root_to_check = None)
              then to_filter ++ [i] else to_filter in
            match root_to_check with
            | Some _ => check_update_loop fuel s lockouts slot_hashes earliest None i j to_filter
            | None => check_update_loop fuel s lockouts slot_hashes earliest None (i + 1) j to_filter
            end
          else Err (if bool_decide (is_Some root_to_check) then VoteError.RootOnDifferentFork
                    else VoteError.SlotsMismatch)
      | Gt => check_update_loop fuel s lockouts slot_hashes earliest root_to_check i (j - 1) to_filter
      | Eq =>
          match root_to_check with
          | Some _ => check_update_loop fuel s lockouts slot_hashes earliest None i j to_filter
          | None => check_update_loop fuel s lockouts slot_hashes earliest None (i + 1) (j - 1) to_filter
          end
      end
  end.

(** [retain] with the rising positions to drop *)
Fixpoint retain_votes (index : N) (to_filter : list N) (l : list Lockout) : list Lockout :=
  match l with
  | [] => []
  | lockout :: l' =>
      match to_filter with
      | f :: to_filter' =>
          if index =? f then retain_votes (index + 1) to_filter' l'
          else lockout :: retain_votes (index + 1) to_filter l'
      | [] => lockout :: retain_votes (index + 1) [] l'
      end
  end.

Definition check_update_vote_state_slots_are_valid (s : VoteState) (u : VoteStateUpdate)
    (slot_hashes : list (N * Hash)) : result VoteError.t VoteStateUpdate :=
  match list.last (vsu_lockouts u) with
  | None => Err VoteError.EmptySlots
  | Some last_lockout =>
      let last_vote_state_update_slot := lk_slot last_lockout in
      if match list.last (votes s) with
         | Some v => last_vote_state_update_slot <=? lv_slot v
         | None => false
         end then Err VoteError.VoteTooOld else
      match list.last slot_hashes with
      | None => Err VoteError.SlotsMismatch
      | Some (earliest_slot_hash_in_history, _) =>
          if last_vote_state_update_slot <? earliest_slot_hash_in_history then Err VoteError.VoteTooOld else
          let root := adjusted_root s earliest_slot_hash_in_history (vsu_root u) in
          let! looped :=
            check_update_loop (length (vsu_lockouts u) + length slot_hashes + 2) s (vsu_lockouts u) slot_hashes
              earliest_slot_hash_in_history root 0 (len slot_hashes) [] in
          let '(i, j, to_filter) := looped in
          if negb (i =? len (vsu_lockouts u)) then Err VoteError.SlotsMismatch else
          let! found := unwrap (getN slot_hashes j) in
          if negb (last_vote_state_update_slot =? found.1) then Panic else
          if negb (bool_decide (found.2 = vsu_hash u)) then Err VoteError.SlotHashMismatch else
          Ok (mkVoteStateUpdate (retain_votes 0 to_filter (vsu_lockouts u)) root (vsu_hash u) (vsu_timestamp u))
      end
  end.

(** ** The slots of a vote *)
Fixpoint check_slots_loop (fuel : nat) (s : VoteState) (vote_slots : list N) (slot_hashes : list (N * Hash))
    (i j : N) : result VoteError.t (N * N) :=
  match fuel with
  | O => Panic
  | S fuel =>
      if negb ((i <? len vote_slots) && (0 <? j)) then Ok (i, j) else
      let! slot := unwrap (getN vote_slots i) in
      if match last_voted_slot s with Some last => slot <=? last | None => false end
      then check_slots_loop fuel s vote_slots slot_hashes (i + 1) j else
      let! ancestor := unwrap (getN slot_hashes (j - 1)) in
      if negb (slot =? ancestor.1) then check_slots_loop fuel s vote_slots slot_hashes i (j - 1)
      else check_slots_loop fuel s vote_slots slot_hashes (i + 1) (j - 1)
  end.
Definition check_slots_are_valid (s : VoteState) (vote_slots : list N) (vote_hash : Hash)
    (slot_hashes : list (N * Hash)) : result VoteError.t unit :=
  let! looped := check_slots_loop (length vote_slots + length slot_hashes + 1) s vote_slots slot_hashes 0
                   (len slot_hashes) in
  let '(i, j) := looped in
  if j =? len slot_hashes then Err VoteError.VoteTooOld else
  if negb (i =? len vote_slots) then Err VoteError.SlotsMismatch else
  let! found := unwrap (getN slot_hashes j) in
  if negb (bool_decide (found.2 = vote_hash)) then Err VoteError.SlotHashMismatch else Ok tt.

(** ** Replacing the tower *)

(** the new root is not below the current one *)
Definition check_root_rollback (old new : option N) : result VoteError.t unit :=
  match new, old with
  | Some new_root, Some current_root => if new_root <? current_root then Err VoteError.RootRollBack else Ok tt
  | None, Some _ => Err VoteError.RootRollBack
  | _, None => Ok tt
  end.
(** each vote of the new tower, with the one before it *)
Fixpoint check_new_votes (new_root : option N) (previous_vote : option LandedVote) (l : list LandedVote) :
  result VoteError.t unit :=
  match l with
  | [] => Ok tt
  | vote :: l' =>
      check!
        (if lv_confirmation_count vote =? 0 then Err VoteError.ZeroConfirmations
         else if MAX_LOCKOUT_HISTORY <? lv_confirmation_count vote then Err VoteError.ConfirmationTooLarge
         else match new_root with
              | Some new_root =>
                  if (lv_slot vote <=? new_root) && negb (new_root =? 0)
                  then Err VoteError.SlotSmallerThanRoot else Ok tt
              | None => Ok tt
              end) in
      check!
        (match previous_vote with
         | Some previous_vote =>
             if lv_slot vote <=? lv_slot previous_vote then Err VoteError.SlotsNotOrdered
             else if lv_confirmation_count previous_vote <=? lv_confirmation_count vote
             then Err VoteError.ConfirmationsNotOrdered
             else if last_locked_out_slot (lockout previous_vote) <? lv_slot vote
             then Err VoteError.NewVoteStateLockoutMismatch else Ok tt
         | None => Ok tt
         end) in
      check_new_votes new_root (Some vote) l'
  end.

(** the votes that the new root covers: their number and the credits earned *)
Fixpoint count_rooted (s : VoteState) (timely_vote_credits deprecate_unused_legacy_vote_plumbing : bool)
    (new_root index earned_credits : N) (l : list LandedVote) : result VoteError.t (N * N) :=
  match l with
  | [] => Ok (index, earned_credits)
  | current_vote :: l' =>
      if lv_slot current_vote <=? new_root then
        let! earned_credits :=
          (if timely_vote_credits || negb (lv_slot current_vote =? new_root) then
             unwrap (checked_add u64_max earned_credits
               (credits_for_vote_at_index s index timely_vote_credits deprecate_unused_legacy_vote_plumbing))
           else Ok earned_credits) in
        count_rooted s timely_vote_credits deprecate_unused_legacy_vote_plumbing new_root (index + 1)
          earned_credits l'
      else Ok (index, earned_credits)
  end.

(** the votes of the current tower against those of the new one, which take over
    the latencies *)
Fixpoint check_no_rollback (current : list LandedVote) : list LandedVote → result VoteError.t (list LandedVote) :=
  fix go (new_state : list LandedVote) :=
    match current, new_state with
    | [], _ => Ok new_state
    | _, [] => Ok []
    | current_vote :: current', new_vote :: new' =>
        match lv_slot current_vote ?= lv_slot new_vote with
        | Lt =>
            if lv_slot new_vote <=? last_locked_out_slot (lockout current_vote)
            then Err VoteError.LockoutConflict else check_no_rollback current' new_state
        | Eq =>
            if lv_confirmation_count new_vote <? lv_confirmation_count current_vote
            then Err VoteError.ConfirmationRollBack else
            let! rest := check_no_rollback current' new' in
            Ok (mkLandedVote (latency current_vote) (lockout new_vote) :: rest)
        | Gt =>
            let! rest := go new' in
            Ok (new_vote :: rest)
        end
    end.

(** the votes without a latency land in the current slot *)
Definition fill_latencies (current_slot : N) (l : list LandedVote) : list LandedVote :=
  (λ v, if latency v =? 0 then mkLandedVote (compute_vote_latency (lv_slot v) current_slot) (lockout v)
        else v) <$> l.

(** ** Features *)
Definition timely_vote_credits_id : Pubkey :=
  pubkey_of_N 0xd4d3c512321d3e9473dc819365e45f809817bafff69179f2e583df16ec8106b.
Definition deprecate_unused_legacy_vote_plumbing_id : Pubkey :=
  pubkey_of_N 0x51603a65d258f681a99d75fb8292019d7cbaba95176d3bfdac4dba6f7250bc93.
Definition vote_state_add_vote_latency_id : Pubkey :=
  pubkey_of_N 0x61d8d71f816f32745637183c8b7e6eaa2871b5226111b0396db64fad75ad77c4.
Definition allow_commission_decrease_at_any_time_id : Pubkey :=
  pubkey_of_N 0x963716c9325cefbacdf2e423fdf5df25eaeda5d77f749a7b6f86727f90d29e4.
Definition commission_updates_only_allowed_in_first_half_of_epoch_id : Pubkey :=
  pubkey_of_N 0xbbba25c08b98e8abce8b46397943788f2a6a09129f3c18b3549076a1d5f6333.
Definition is_active (features : gset Pubkey) (id : Pubkey) : bool := bool_decide (id ∈ features).

Definition process_new_vote_state (s : VoteState) (new_state : list LandedVote) (new_root : option N)
    (timestamp : option Z) (epoch current_slot : N) (features : option (gset Pubkey)) :
  result VoteError.t VoteState :=
  match list.last new_state with
  | None => Panic
  | Some last_vote =>
      if MAX_LOCKOUT_HISTORY <? len new_state then Err VoteError.TooManyVotes else
      check! check_root_rollback (root_slot s) new_root in
      check! check_new_votes new_root None new_state in
      let timely_vote_credits :=
        match features with Some f => is_active f timely_vote_credits_id | None => false end in
      let deprecate_unused_legacy_vote_plumbing :=
        match features with Some f => is_active f deprecate_unused_legacy_vote_plumbing_id | None => false end in
      let earned_credits := if timely_vote_credits then 0 else 1 in
      let! rooted :=
        (match new_root with
         | Some new_root =>
             count_rooted s timely_vote_credits deprecate_unused_legacy_vote_plumbing new_root 0 earned_credits
               (votes s)
         | None => Ok (0, earned_credits)
         end) in
      let '(current_vote_state_index, earned_credits) := rooted in
      let! new_state := check_no_rollback (drop (N.to_nat current_vote_state_index) (votes s)) new_state in
      let new_state := if timely_vote_credits then fill_latencies current_slot new_state else new_state in
      let s := if bool_decide (root_slot s = new_root) then s else increment_credits epoch earned_credits s in
      let! s := (match timestamp with
                 | Some timestamp => process_timestamp (lv_slot last_vote) timestamp s
                 | None => Ok s
                 end) in
      Ok (set_votes new_state (set_root_slot new_root s))
  end.

Definition do_process_vote_state_update (s : VoteState) (slot_hashes : list (N * Hash)) (epoch slot : N)
    (u : VoteStateUpdate) (features : option (gset Pubkey)) : result VoteError.t VoteState :=
  let! u := check_update_vote_state_slots_are_valid s u slot_hashes in
  process_new_vote_state s (landed_of_lockout <$> vsu_lockouts u) (vsu_root u) (vsu_timestamp u) epoch slot
    features.

(** ** Adding votes *)
Definition process_vote_unfiltered (s : VoteState) (vote_slots : list N) (vote : Vote)
    (slot_hashes : list (N * Hash)) (epoch current_slot : N)
    (timely_vote_credits deprecate_unused_legacy_vote_plumbing : bool) : result VoteError.t VoteState :=
  check! check_slots_are_valid s vote_slots (vote_hash vote) slot_hashes in
  Ok (foldl (λ s slot, process_next_vote_slot slot epoch current_slot timely_vote_credits
                         deprecate_unused_legacy_vote_plumbing s) s vote_slots).
Definition process_vote (s : VoteState) (vote : Vote) (slot_hashes : list (N * Hash)) (epoch current_slot : N)
    (timely_vote_credits deprecate_unused_legacy_vote_plumbing : bool) : result VoteError.t VoteState :=
  if bool_decide (vote_slots vote = []) then Err VoteError.EmptySlots else
  let earliest_slot_in_history := match list.last slot_hashes with Some x => x.1 | None => 0 end in
  let slots := filter (λ slot, earliest_slot_in_history ≤ slot) (vote_slots vote) in
  if bool_decide (slots = []) then Err VoteError.VotesTooOldAllFiltered else
  process_vote_unfiltered s slots vote slot_hashes epoch current_slot timely_vote_credits
    deprecate_unused_legacy_vote_plumbing.
Definition process_vote_unchecked (s : VoteState) (vote : Vote) : result VoteError.t VoteState :=
  if bool_decide (vote_slots vote = []) then Err VoteError.EmptySlots else
  let slot_hashes := (λ slot, (slot, vote_hash vote)) <$> reverse (vote_slots vote) in
  process_vote_unfiltered s (vote_slots vote) vote slot_hashes (current_epoch s) 0 true true.
(** errors are ignored *)
Definition process_slot_vote_unchecked {E} (s : VoteState) (slot : N) : result E VoteState :=
  match process_vote_unchecked s (mkVote [slot] (mkHash (replicate 32 0)) None) with
  | Ok s' => Ok s'
  | Err _ => Ok s
  | Panic => Panic
  end.
