(* ===== verification/VoteRules.v ===== *)
(** * Theory of vote towers

    The well-formed towers of votes, what a new vote makes of one, and that a slot is rooted
    once enough votes follow it. *)

From S2P Require Import Prelude Sdk InvokeContext VoteState VoteProcess.

(** ** Well-formed towers *)

(** [w] was voted for after [v], on top of it *)
Record follows (v w : LandedVote) : Prop := {
  fo_slot : lv_slot v < lv_slot w;
  fo_count : lv_confirmation_count w < lv_confirmation_count v;
  fo_locked : lv_slot w ≤ last_locked_out_slot (lockout v) }.
Definition stacked (l : list LandedVote) : Prop :=
  ∀ i v w, l !! i = Some v → l !! S i = Some w → follows v w.
Definition counted (v : LandedVote) : Prop := 1 ≤ lv_confirmation_count v ≤ MAX_LOCKOUT_HISTORY.
(** the root 0 stands also for no root *)
Definition above (root : option N) (v : LandedVote) : Prop :=
  match root with Some r => r < lv_slot v ∨ r = 0 | None => True end.
Record tower_ok (root : option N) (l : list LandedVote) : Prop := {
  tw_stacked : stacked l;
  tw_counted : Forall counted l;
  tw_len : len l ≤ MAX_LOCKOUT_HISTORY;
  tw_above : Forall (above root) l;
  tw_rooted : is_Some root → l ≠ [] }.

(** *** Lists of votes *)
Lemma last_elem {A} (l : list A) x : list.last l = Some x → x ∈ l.
Proof. rewrite last_lookup. apply list_elem_of_lookup_2. Qed.
Lemma stacked_nil : stacked [].
Proof. intros i v w H. by rewrite lookup_nil in H. Qed.
Lemma stacked_cons v l :
  stacked (v :: l) ↔ (∀ w, head l = Some w → follows v w) ∧ stacked l.
Proof.
  split.
  - intros H. split.
    + intros w Hw. apply (H 0%nat); [done|]. by destruct l.
    + intros i x y Hx Hy. by apply (H (S i)).
  - intros [Hh Hl] [|i] x y Hx Hy; simpl in *.
    + injection Hx as <-. apply Hh. by destruct l.
    + by apply (Hl i).
Qed.
Lemma stacked_app_l l k : stacked (l ++ k) → stacked l.
Proof. intros H i v w Hv Hw. apply (H i); by apply lookup_app_l_Some. Qed.
Lemma stacked_app_r l k : stacked (l ++ k) → stacked k.
Proof.
  induction l as [|v l IH]; simpl; [done|]. intros [_ H]%stacked_cons. auto.
Qed.

(** slots rise along a stack *)
Lemma stacked_slots l i j v w :
  stacked l → l !! i = Some v → l !! j = Some w → (i < j)%nat → lv_slot v < lv_slot w.
Proof.
  intros Hl Hv Hw Hij. revert w Hw. induction j as [|j IH]; intros w Hw; [lia|].
  destruct (decide (i = j)) as [->|]; [by apply (Hl j)|].
  destruct (l !! j) as [u|] eqn:Hu.
  - specialize (IH ltac:(lia) u eq_refl). pose proof (fo_slot _ _ (Hl j u w Hu Hw)). lia.
  - apply lookup_ge_None in Hu. apply lookup_lt_Some in Hw. lia.
Qed.
Lemma stacked_head_le v l w : stacked (v :: l) → w ∈ l → lv_slot v < lv_slot w.
Proof.
  intros Hl [i Hi]%list_elem_of_lookup. by apply (stacked_slots (v :: l) 0 (S i)); [| |simpl|lia].
Qed.
Lemma stacked_last_ge l v w : stacked l → list.last l = Some w → v ∈ l → lv_slot v ≤ lv_slot w.
Proof.
  intros Hl Hw [i Hi]%list_elem_of_lookup. rewrite last_lookup in Hw.
  pose proof (lookup_lt_Some _ _ _ Hi).
  destruct (decide (i = pred (length l))) as [->|]; [by simplify_eq|].
  apply N.lt_le_incl. apply (stacked_slots l i (pred (length l))); auto. lia.
Qed.
Lemma stacked_inj l v w : stacked l → v ∈ l → w ∈ l → lv_slot v = lv_slot w → v = w.
Proof.
  intros Hl [i Hi]%list_elem_of_lookup [j Hj]%list_elem_of_lookup Hs.
  destruct (lt_eq_lt_dec i j) as [[?| ->]|?]; [|by simplify_eq|].
  - pose proof (stacked_slots l i j v w Hl Hi Hj ltac:(lia)). lia.
  - pose proof (stacked_slots l j i w v Hl Hj Hi ltac:(lia)). lia.
Qed.

(** *** Lockouts *)
Lemma lockout_slots_small l : lk_confirmation_count l ≤ 63 → lockout_slots l = 2 ^ lk_confirmation_count l.
Proof.
  intros H. unfold lockout_slots, as_u64, INITIAL_LOCKOUT. apply N.mod_small.
  change 18446744073709551616 with (2 ^ 64). apply N.pow_lt_mono_r; lia.
Qed.
Lemma last_locked_mono l l' :
  lk_slot l = lk_slot l' → lk_confirmation_count l ≤ lk_confirmation_count l' → lk_confirmation_count l' ≤ 63 →
  last_locked_out_slot l ≤ last_locked_out_slot l'.
Proof.
  intros Hs Hc Hc'. unfold last_locked_out_slot, saturating_add.
  rewrite !lockout_slots_small, Hs by lia.
  assert (2 ^ lk_confirmation_count l ≤ 2 ^ lk_confirmation_count l') by (apply N.pow_le_mono_r; lia). lia.
Qed.

(** ** Expired votes *)

(** the votes that are popped are the top of the stack, and had all expired *)
Lemma pop_expired_spec slot l : ∃ gone, l = pop_expired slot l ++ gone ∧
  Forall (λ v, last_locked_out_slot (lockout v) < slot) gone ∧
  ∀ v, list.last (pop_expired slot l) = Some v → slot ≤ last_locked_out_slot (lockout v).
Proof.
  induction l as [|v l (gone & Hl & Hg & Hlast)]; simpl; [by exists []|].
  destruct (pop_expired slot l) as [|w k].
  - unfold is_locked_out_at_slot. destruct (N.leb_spec slot (last_locked_out_slot (lockout v))).
    + exists gone. split; [by rewrite Hl|]. split; [done|]. intros x. by intros [= <-].
    + exists (v :: gone). split; [by rewrite Hl|]. by split; [constructor|].
  - exists gone. split; [by rewrite Hl|]. by split.
Qed.
Lemma pop_expired_prefix slot l : pop_expired slot l `prefix_of` l.
Proof. destruct (pop_expired_spec slot l) as (gone & Hl & _). by exists gone. Qed.

(** ** Doubling *)
Lemma double_lockout_slot d i v : lv_slot (double_lockout d i v) = lv_slot v.
Proof. unfold double_lockout. by destruct (_ <? _). Qed.
Lemma double_lockout_count d i v :
  lv_confirmation_count v ≤ MAX_LOCKOUT_HISTORY →
  lv_confirmation_count (double_lockout d i v) =
  if i + lv_confirmation_count v <? d then lv_confirmation_count v + 1 else lv_confirmation_count v.
Proof.
  intros H. unfold double_lockout. destruct (_ <? _); [|done].
  unfold lv_confirmation_count, increase_confirmation_count in *. cbn [lockout lk_confirmation_count].
  unfold saturating_add, MAX_LOCKOUT_HISTORY, u32_max in *. lia.
Qed.
Lemma double_locked d i v :
  lv_confirmation_count v ≤ MAX_LOCKOUT_HISTORY →
  last_locked_out_slot (lockout v) ≤ last_locked_out_slot (lockout (double_lockout d i v)).
Proof.
  intros H. pose proof (double_lockout_count d i v H) as Hc. apply last_locked_mono.
  - symmetry. apply double_lockout_slot.
  - unfold lv_confirmation_count in *. rewrite Hc. destruct (_ <? _); lia.
  - unfold lv_confirmation_count, MAX_LOCKOUT_HISTORY in *. rewrite Hc. destruct (_ <? _); lia.
Qed.

(** what a new vote makes of the stack it is put on *)
Definition pushed (l : list LandedVote) (new : LandedVote) : list LandedVote :=
  imap (λ i v, double_lockout (len (l ++ [new])) (N.of_nat i) v) (l ++ [new]).

Lemma pushed_elem l new x :
  x ∈ pushed l new → ∃ i v, (l ++ [new]) !! i = Some v ∧ v ∈ l ++ [new] ∧
    x = double_lockout (len (l ++ [new])) (N.of_nat i) v.
Proof.
  intros [i Hi]%list_elem_of_lookup. unfold pushed in Hi. rewrite list_lookup_imap in Hi.
  destruct ((l ++ [new]) !! i) as [v|] eqn:Hv; [|done]. injection Hi as <-.
  exists i, v. split; [done|]. split; [by eapply list_elem_of_lookup_2|done].
Qed.

Lemma pushed_not_nil l new : pushed l new ≠ [].
Proof. intros H%(f_equal length). unfold pushed in H. rewrite length_imap, length_app in H. simpl in H. lia. Qed.

Lemma pushed_ok root l new :
  stacked l → Forall counted l → Forall (above root) l → len l < MAX_LOCKOUT_HISTORY → lv_confirmation_count new = 1 → above root new →
  (∀ v, list.last l = Some v → lv_slot v < lv_slot new ∧ lv_slot new ≤ last_locked_out_slot (lockout v)) →
  tower_ok root (pushed l new).
Proof.
  intros Hst Hco Hab Hroom Hnew Habn Htop.
  assert (Forall counted (l ++ [new])) as Hall.
  { apply Forall_app. split; [done|]. constructor; [|done]. unfold counted. rewrite Hnew. by vm_compute. }
  unfold pushed. split.
  - intros i v' w'. rewrite !list_lookup_imap.
    destruct ((l ++ [new]) !! i) as [v|] eqn:Hv; [|done]. intros [= <-].
    destruct ((l ++ [new]) !! S i) as [w|] eqn:Hw; [|done]. intros [= <-].
    assert (counted v ∧ counted w) as [Hcv Hcw].
    { rewrite list.Forall_forall in Hall. split; apply Hall; by eapply list_elem_of_lookup_2. }
    unfold counted in *.
    assert (lv_slot v < lv_slot w ∧ lv_slot w ≤ last_locked_out_slot (lockout v) ∧
      (lv_confirmation_count w < lv_confirmation_count v ∨
       lv_confirmation_count w = 1 ∧ i = pred (length l))) as (H1 & H2 & H3).
    { pose proof (lookup_lt_Some _ _ _ Hw) as Hi. rewrite length_app in Hi. simpl in Hi.
      rewrite lookup_app_l in Hv by lia.
      destruct (decide (S i < length l)%nat).
      - rewrite lookup_app_l in Hw by lia. destruct (Hst i v w Hv Hw). auto.
      - rewrite lookup_app_r in Hw by lia. replace (S i - length l)%nat with 0%nat in Hw by lia.
        injection Hw as <-. assert (list.last l = Some v) as Hl.
        { rewrite last_lookup. replace (pred (length l)) with i by lia. done. }
        destruct (Htop v Hl). split; [done|]. split; [done|]. right. split; [done|lia]. }
    split.
    + by rewrite !double_lockout_slot.
    + rewrite !double_lockout_count by lia. unfold len. rewrite length_app. simpl.
      pose proof (lookup_lt_Some _ _ _ Hw) as Hi. rewrite length_app in Hi. simpl in Hi.
      destruct (N.ltb_spec (N.of_nat i + lv_confirmation_count v) (N.of_nat (length l + 1))),
        (N.ltb_spec (N.of_nat (S i) + lv_confirmation_count w) (N.of_nat (length l + 1))); lia.
    + rewrite double_lockout_slot. etransitivity; [exact H2|]. apply double_locked. lia.
  - apply list.Forall_forall. intros x (i & v & Hv & Hin & ->)%pushed_elem.
    rewrite list.Forall_forall in Hall. destruct (Hall v Hin).
    unfold counted. rewrite double_lockout_count by lia.
    destruct (N.ltb_spec (N.of_nat i + lv_confirmation_count v) (len (l ++ [new]))) as [Hd|]; [|lia].
    rewrite len_app in Hd. unfold len in *. simpl in Hd. lia.
  - unfold len in *. rewrite length_imap, length_app. simpl. lia.
  - apply list.Forall_forall. intros x (i & v & Hv & Hin & ->)%pushed_elem.
    unfold above in *. rewrite double_lockout_slot.
    apply elem_of_app in Hin as [Hin| ->%list_elem_of_singleton]; [|done].
    rewrite list.Forall_forall in Hab. by apply (Hab v).
  - intros _. apply pushed_not_nil.
Qed.

(** ** Voting *)
Definition new_vote (slot current_slot : N) (timely deprecate : bool) : LandedVote :=
  mkLandedVote (if timely || negb deprecate then compute_vote_latency slot current_slot else 0)
    (lockout_new slot).
(** the votes that stay below the new one, and the root *)
Definition kept_votes (slot : N) (l : list LandedVote) : list LandedVote :=
  let p := pop_expired slot l in if len p =? MAX_LOCKOUT_HISTORY then tail p else p.
Definition next_root (slot : N) (l : list LandedVote) (root : option N) : option N :=
  match pop_expired slot l with
  | oldest :: _ =>
      if len (pop_expired slot l) =? MAX_LOCKOUT_HISTORY then Some (lv_slot oldest) else root
  | [] => root
  end.
Definition ignored (slot : N) (s : VoteState) : bool :=
  match last_voted_slot s with Some last => slot <=? last | None => false end.

Lemma next_vote_spec slot epoch current_slot timely deprecate s :
  let s' := process_next_vote_slot slot epoch current_slot timely deprecate s in
  if ignored slot s then s' = s
  else votes s' = pushed (kept_votes slot (votes s)) (new_vote slot current_slot timely deprecate) ∧
       root_slot s' = next_root slot (votes s) (root_slot s).
Proof.
  unfold process_next_vote_slot, ignored. destruct (match last_voted_slot s with _ => _ end); [done|].
  unfold pop_expired_votes, kept_votes, next_root, pushed, new_vote. cbn [votes set_votes root_slot].
  destruct (pop_expired slot (votes s)) as [|oldest rest]; [done|].
  destruct (_ =? MAX_LOCKOUT_HISTORY); [|done].
  unfold increment_credits, double_lockouts. done.
Qed.

Lemma ignored_false slot s :
  stacked (votes s) → ignored slot s = false → Forall (λ v, lv_slot v < slot) (votes s).
Proof.
  intros Hst. unfold ignored, last_voted_slot, last_lockout.
  destruct (list.last (votes s)) as [w|] eqn:Hw; simpl.
  - intros Hle%N.leb_gt. apply list.Forall_forall. intros v Hv.
    pose proof (stacked_last_ge _ _ _ Hst Hw Hv). unfold lv_slot in *. lia.
  - intros _. apply last_None in Hw. rewrite Hw. done.
Qed.

(** the votes below a new one *)
Lemma kept_votes_ok slot root l :
  tower_ok root l → Forall (λ v, lv_slot v < slot) l →
  stacked (kept_votes slot l) ∧ Forall counted (kept_votes slot l) ∧ len (kept_votes slot l) < MAX_LOCKOUT_HISTORY ∧
  Forall (above (next_root slot l root)) (kept_votes slot l) ∧
  (∀ v, list.last (kept_votes slot l) = Some v →
     lv_slot v < slot ∧ slot ≤ last_locked_out_slot (lockout v)).
Proof.
  intros [Hst Hco Hlen Hab _] Hfresh. destruct (pop_expired_spec slot l) as (gone & Hl & _ & Hlast).
  unfold kept_votes, next_root. destruct (pop_expired slot l) as [|oldest rest] eqn:Hp.
  { by split_and!. }
  rewrite Hl in Hst, Hco, Hlen, Hab, Hfresh.
  apply stacked_app_l in Hst as Hst1. apply Forall_app in Hco as [Hco1 _], Hab as [Hab1 _], Hfresh as [Hfresh1 _].
  rewrite list.Forall_forall in Hfresh1.
  assert (∀ v, list.last (oldest :: rest) = Some v → lv_slot v < slot ∧ slot ≤ last_locked_out_slot (lockout v)) as Hv.
  { intros v Hv. split; [|by apply Hlast]. apply Hfresh1. by apply last_elem. }
  rewrite len_app in Hlen. destruct (N.eqb_spec (len (oldest :: rest)) MAX_LOCKOUT_HISTORY) as [Heq|Hne].
  - simpl tail. split_and!.
    + by apply stacked_cons in Hst1 as [_ ?].
    + by inversion Hco1.
    + unfold len in *. simpl in *. lia.
    + apply list.Forall_forall. intros w Hw. left. by eapply stacked_head_le.
    + intros v Hr. apply Hv. destruct rest; [done|]. by rewrite last_cons_cons.
  - split_and!; try done. lia.
Qed.
Lemma next_root_above slot root l :
  tower_ok root l → Forall (λ v, lv_slot v < slot) l →
  match next_root slot l root with Some r => r < slot ∨ r = 0 | None => True end.
Proof.
  intros [Hst _ _ Hab Hne] Hfresh. rewrite list.Forall_forall in Hab, Hfresh.
  unfold next_root. destruct (pop_expired_prefix slot l) as [k Hk].
  assert (match root with Some r => r < slot ∨ r = 0 | None => True end) as Hr.
  { destruct root as [r|]; [|done]. destruct l as [|v l]; [by destruct (Hne ltac:(eauto))|].
    destruct (Hab v ltac:(by left)) as [|]; [left|by right]. specialize (Hfresh v ltac:(by left)). simpl in *. lia. }
  destruct (pop_expired slot l) as [|oldest rest]; [done|]. destruct (_ =? _); [|done].
  left. apply Hfresh. rewrite Hk. by left.
Qed.

Lemma next_vote_ok slot epoch current_slot timely deprecate s :
  tower_ok (root_slot s) (votes s) →
  let s' := process_next_vote_slot slot epoch current_slot timely deprecate s in
  tower_ok (root_slot s') (votes s').
Proof.
  intros Hok s'. pose proof (next_vote_spec slot epoch current_slot timely deprecate s) as Hs.
  fold s' in Hs. cbv zeta in Hs. destruct (ignored slot s) eqn:Hi; [by rewrite Hs|].
  destruct Hs as [-> ->]. pose proof (ignored_false slot s (tw_stacked _ _ Hok) Hi) as Hfresh.
  destruct (kept_votes_ok slot _ _ Hok Hfresh) as (H1 & H2 & H3 & H4 & H5).
  apply pushed_ok; try done. by apply next_root_above.
Qed.


(** ** A vote is rooted *)

(** votes on [slot] and the [n - 1] slots after it, each in its own epoch and landing slot *)
Fixpoint vote_through (epoch_at landed_at : N → N) (timely deprecate : bool) (slot : N) (n : nat) (s : VoteState) :
  VoteState :=
  match n with
  | O => s
  | S n =>
      let next := slot + N.of_nat n in
      process_next_vote_slot next (epoch_at next) (landed_at next) timely deprecate
        (vote_through epoch_at landed_at timely deprecate slot n s)
  end.

Lemma pop_expired_locked slot l v :
  list.last l = Some v → slot ≤ last_locked_out_slot (lockout v) → pop_expired slot l = l.
Proof.
  intros Hl Hv. destruct (pop_expired_spec slot l) as (gone & Heq & Hg & _).
  destruct gone as [|w gone _] using rev_ind; [by rewrite app_nil_r in Heq|]. exfalso.
  rewrite Heq, app_assoc, last_snoc in Hl. injection Hl as ->.
  apply Forall_app in Hg as [_ Hg]. inversion_clear Hg. lia.
Qed.
(** the next slot is inside the lockout of a vote *)
Lemma next_slot_locked v : counted v → lv_slot v + 1 ≤ u64_max → lv_slot v + 1 ≤ last_locked_out_slot (lockout v).
Proof.
  unfold counted, lv_slot, lv_confirmation_count, MAX_LOCKOUT_HISTORY, last_locked_out_slot, saturating_add.
  intros [H1 H2] H. rewrite lockout_slots_small by lia.
  assert (2 ^ 1 ≤ 2 ^ lk_confirmation_count (lockout v)) by (apply N.pow_le_mono_r; lia).
  change (2 ^ 1) with 2 in *. lia.
Qed.
Lemma pushed_tower l new : lv_slot <$> pushed l new = (lv_slot <$> l) ++ [lv_slot new].
Proof.
  unfold pushed. change ([lv_slot new]) with (lv_slot <$> [new]). rewrite <-fmap_app.
  apply list_eq. intros i. rewrite !list_lookup_fmap, list_lookup_imap.
  destruct ((l ++ [new]) !! i); simpl; [|done]. by rewrite double_lockout_slot.
Qed.

Section rooted.
Context (epoch_at landed_at : N → N) (timely deprecate : bool) (slot : N) (s : VoteState).
Context (Hok : tower_ok (root_slot s) (votes s)) (Hnew : ∀ v, v ∈ votes s → lv_slot v < slot).
Notation through n := (vote_through epoch_at landed_at timely deprecate slot n s).

Lemma through_ok n : tower_ok (root_slot (through n)) (votes (through n)).
Proof. induction n as [|n IH]; [done|]. simpl. by apply next_vote_ok. Qed.

(** one more vote *)
Lemma through_next n top :
  slot + N.of_nat n ≤ u64_max → list.last (votes (through n)) = Some top → lv_slot top + 1 = slot + N.of_nat n →
  let l := votes (through n) in
  tower (through (S n)) =
    (lv_slot <$> (if len l =? MAX_LOCKOUT_HISTORY then tail l else l)) ++ [slot + N.of_nat n] ∧
  (len l = MAX_LOCKOUT_HISTORY → root_slot (through (S n)) = lv_slot <$> head l).
Proof.
  intros Hmax Htop Heq l. pose proof (through_ok n) as Hn.
  pose proof (next_vote_spec (slot + N.of_nat n) (epoch_at (slot + N.of_nat n)) (landed_at (slot + N.of_nat n))
    timely deprecate (through n)) as Hs. cbv zeta in Hs.
  assert (ignored (slot + N.of_nat n) (through n) = false) as Hi.
  { unfold ignored, last_voted_slot, last_lockout. rewrite Htop. simpl. apply N.leb_gt. unfold lv_slot in *. lia. }
  rewrite Hi in Hs. destruct Hs as [Hv Hr].
  assert (pop_expired (slot + N.of_nat n) l = l) as Hpop.
  { apply (pop_expired_locked _ _ top Htop). rewrite <-Heq. apply next_slot_locked; [|lia].
    pose proof (tw_counted _ _ Hn) as Hc. rewrite list.Forall_forall in Hc. by apply Hc, last_elem. }
  unfold kept_votes, next_root in Hv, Hr. fold l in Hv, Hr. rewrite Hpop in Hv, Hr. split.
  - unfold tower. simpl. rewrite Hv, pushed_tower. done.
  - intros Hlen. simpl. rewrite Hr. destruct l; [done|]. by rewrite Hlen.
Qed.

(** the votes from [slot] on are on top of the tower, up to a full one *)
Lemma through_tower n :
  slot + 31 ≤ u64_max → (n < 31)%nat →
  ∃ below, tower (through (S n)) = below ++ ((λ k, slot + N.of_nat k) <$> seq 0 (S n)).
Proof.
  intros Hmax. induction n as [|n IH]; intros Hn.
  - pose proof (next_vote_spec (slot + 0) (epoch_at (slot + 0)) (landed_at (slot + 0)) timely deprecate s) as Hs.
    cbv zeta in Hs. assert (ignored (slot + 0) s = false) as Hi.
    { unfold ignored, last_voted_slot, last_lockout. destruct (list.last (votes s)) as [v|] eqn:Hv; [|done]. simpl.
      apply N.leb_gt. specialize (Hnew v (last_elem _ _ Hv)). unfold lv_slot in *. lia. }
    rewrite Hi in Hs. destruct Hs as [Hv _]. eexists. unfold tower. cbn [vote_through].
    change (N.of_nat 0) with 0. by rewrite Hv, pushed_tower.
  - destruct (IH ltac:(lia)) as [below Hb].
    assert (∃ top, list.last (votes (through (S n))) = Some top ∧ lv_slot top + 1 = slot + N.of_nat (S n)) as (top & Htop & Heq).
    { apply (f_equal list.last) in Hb. rewrite seq_S, fmap_app, app_assoc, list_fmap_singleton, last_snoc in Hb.
      unfold tower in Hb. rewrite fmap_last in Hb. destruct (list.last _) as [top|]; [|done].
      exists top. split; [done|]. injection Hb as ->. lia. }
    destruct (through_next (S n) top ltac:(lia) Htop Heq) as [Ht _]. rewrite Ht.
    rewrite (seq_S (S n)), fmap_snoc.
    assert (length (votes (through (S n))) = (length below + S n)%nat) as Hlen.
    { apply (f_equal length) in Hb. unfold tower in Hb. by rewrite length_app, !length_fmap, length_seq in Hb. }
    destruct (N.eqb_spec (len (votes (through (S n)))) MAX_LOCKOUT_HISTORY) as [Hfull|].
    + exists (tail below). rewrite app_assoc. f_equal. unfold tower in Hb.
      destruct (votes (through (S n))) as [|v l]; [done|]. destruct below as [|b below].
      { unfold len, MAX_LOCKOUT_HISTORY in *. simpl length in *. lia. }
      simpl in Hb. injection Hb as _ Hb. done.
    + exists below. unfold tower in Hb. by rewrite app_assoc, Hb.
Qed.
(** the vote after a full tower roots its oldest slot *)
Lemma through_rooted n :
  slot + 31 ≤ u64_max → n = 30%nat → root_slot (through (S (S n))) = Some slot.
Proof.
  intros Hmax Hn. destruct (through_tower n Hmax ltac:(lia)) as [below Hb].
  pose proof (tw_len _ _ (through_ok (S n))) as Hle. unfold len, MAX_LOCKOUT_HISTORY in Hle.
  assert (length (votes (through (S n))) = (length below + S n)%nat) as Hlen.
  { apply (f_equal length) in Hb. unfold tower in Hb. by rewrite length_app, !length_fmap, length_seq in Hb. }
  destruct below; [|cbn [length] in Hlen; lia]. rewrite app_nil_l in Hb. unfold tower in Hb.
  assert (∃ top, list.last (votes (through (S n))) = Some top ∧ lv_slot top + 1 = slot + N.of_nat (S n)) as (top & Htop & Heq).
  { apply (f_equal list.last) in Hb. rewrite fmap_last, seq_S, fmap_snoc, last_snoc in Hb.
    destruct (list.last _) as [top|]; [|done]. exists top. split; [done|]. injection Hb as ->. lia. }
  destruct (through_next (S n) top ltac:(lia) Htop Heq) as [_ Hr].
  rewrite Hr by (unfold len, MAX_LOCKOUT_HISTORY; cbn [length] in Hlen; lia).
  apply (f_equal head) in Hb. destruct (votes (through (S n))) as [|v l]; [done|]. cbn [head fmap option_fmap option_map].
  cbn [fmap list_fmap seq head] in Hb. injection Hb as Hb. rewrite Hb. f_equal. lia.
Qed.
End rooted.

(** C11: a slot that is voted on becomes the root.  From any well-formed tower with older
    votes, voting for a slot and for each of the 31 slots after it, in whatever epochs and
    however late the votes land, makes that slot the root of the tower. *)
Theorem vote_is_rooted epoch_at landed_at timely deprecate slot s :
  tower_ok (root_slot s) (votes s) → (∀ v, v ∈ votes s → lv_slot v < slot) → slot + 31 ≤ u64_max →
  root_slot (vote_through epoch_at landed_at timely deprecate slot 32 s) = Some slot.
Proof. intros Hok Hnew Hmax. by apply (through_rooted epoch_at landed_at timely deprecate slot s Hok Hnew 30). Qed.
