(* ===== verification/VoteUpdates.v ===== *)
(** * Theory of proposed towers

    A tower that is proposed for a vote account is accepted exactly if it is well formed,
    lies on the fork the slot hashes describe and takes nothing back; what votes one after
    the other make can be proposed as a whole. *)

From S2P Require Import Prelude Sdk InvokeContext VoteState VoteProcess VoteRules.

(** ** Proposed towers *)

(** the checks on a proposed tower are the conditions of a well-formed one *)
Lemma check_new_votes_Ok root l : ∀ prev,
  check_new_votes root prev l = Ok tt ↔
  Forall counted l ∧ Forall (above root) l ∧ stacked l ∧
  (∀ p w, prev = Some p → head l = Some w → follows p w).
Proof.
  induction l as [|v l IH]; intros prev; simpl.
  { split; [intros _; split_and!; try done; apply stacked_nil|done]. }
  set (c1 := if _ =? 0 then _ else _). set (c2 := match prev with Some _ => _ | None => _ end).
  assert (c1 = Ok tt ↔ counted v ∧ above root v) as H1.
  { unfold c1, counted, above. destruct (N.eqb_spec (lv_confirmation_count v) 0); [split; [done|lia]|].
    destruct (N.ltb_spec MAX_LOCKOUT_HISTORY (lv_confirmation_count v)); [split; [done|lia]|].
    destruct root as [r|]; [|split; [|done]; intros _; split; [lia|done]].
    destruct (N.leb_spec (lv_slot v) r), (N.eqb_spec r 0); simpl; (split; [try done; intros _; lia|try done; lia]). }
  assert (c2 = Ok tt ↔ ∀ p, prev = Some p → follows p v) as H2.
  { unfold c2. destruct prev as [p|]; [|by split].
    destruct (N.leb_spec (lv_slot v) (lv_slot p)); [split; [done|]; intros H'; destruct (H' p eq_refl); lia|].
    destruct (N.leb_spec (lv_confirmation_count p) (lv_confirmation_count v));
      [split; [done|]; intros H'; destruct (H' p eq_refl); lia|].
    destruct (N.ltb_spec (last_locked_out_slot (lockout p)) (lv_slot v));
      [split; [done|]; intros H'; destruct (H' p eq_refl); lia|].
    split; [|done]. by intros _ ? [= <-]. }
  assert (rbind c1 (λ _, rbind c2 (λ _, check_new_votes root (Some v) l)) = Ok tt ↔
          c1 = Ok tt ∧ c2 = Ok tt ∧ check_new_votes root (Some v) l = Ok tt) as ->.
  { destruct c1 as [[]| |], c2 as [[]| |]; simpl; naive_solver. }
  rewrite H1, H2, IH, !list.Forall_cons, stacked_cons. naive_solver.
Qed.

(** a vote of the old tower in the new one *)
Definition survives (new : list LandedVote) (v : LandedVote) : Prop :=
  (∃ w, w ∈ new ∧ lv_slot w = lv_slot v ∧ lv_confirmation_count v ≤ lv_confirmation_count w) ∨
  (∀ w, w ∈ new → lv_slot v ≤ lv_slot w →
     lv_slot v < lv_slot w ∧ last_locked_out_slot (lockout v) < lv_slot w).

Lemma check_no_rollback_cons v cur w new :
  check_no_rollback (v :: cur) (w :: new) =
  match lv_slot v ?= lv_slot w with
  | Lt => if lv_slot w <=? last_locked_out_slot (lockout v)
          then Err VoteError.LockoutConflict else check_no_rollback cur (w :: new)
  | Eq => if lv_confirmation_count w <? lv_confirmation_count v
          then Err VoteError.ConfirmationRollBack else
          let! rest := check_no_rollback cur new in
          Ok (mkLandedVote (latency v) (lockout w) :: rest)
  | Gt => let! rest := check_no_rollback (v :: cur) new in Ok (w :: rest)
  end.
Proof. done. Qed.

(** two stacks, by rounds of the loop *)
Lemma two_stacks_ind (P : list LandedVote → list LandedVote → Prop) :
  (∀ new, P [] new) → (∀ v cur, P (v :: cur) []) →
  (∀ v cur w new, P cur (w :: new) → P cur new → P (v :: cur) new → P (v :: cur) (w :: new)) →
  ∀ cur new, P cur new.
Proof.
  intros H1 H2 H3. induction cur as [|v cur IH]; [done|]. induction new as [|w new IHn]; auto.
Qed.

Lemma check_no_rollback_lockouts cur new : ∀ new',
  check_no_rollback cur new = Ok new' → lockout <$> new' = lockout <$> new.
Proof.
  pattern cur, new. apply two_stacks_ind; clear cur new;
    [intros new|intros v cur|intros v cur w new IH1 IH2 IH3]; intros new'.
  - destruct new; by intros [= <-].
  - by intros [= <-].
  - rewrite check_no_rollback_cons. destruct (lv_slot v ?= lv_slot w).
    + destruct (_ <? _); [done|]. destruct (check_no_rollback cur new) as [r| |]; [|done..].
      intros [= <-]. simpl. f_equal. by apply IH2.
    + destruct (_ <=? _); [done|]. apply IH1.
    + destruct (check_no_rollback (v :: cur) new) as [r| |]; [|done..].
      intros [= <-]. simpl. f_equal. by apply IH3.
Qed.

Lemma survives_cons v w new : lv_slot w < lv_slot v → survives (w :: new) v ↔ survives new v.
Proof.
  intros Hlt. unfold survives. setoid_rewrite elem_of_cons. split.
  - intros [(x & [->|Hx] & Hs & Hc)|H]; [lia|left; eauto|right; eauto].
  - intros [(x & Hx & Hs & Hc)|H]; [left; eauto|right]. intros x [->|Hx] ?; [lia|auto].
Qed.
Lemma survives_all w new cur :
  Forall (λ v, lv_slot w < lv_slot v) cur → Forall (survives (w :: new)) cur ↔ Forall (survives new) cur.
Proof.
  rewrite !list.Forall_forall. intros Hlt.
  split; intros Hs v Hv; apply (survives_cons v w new (Hlt v Hv)); auto.
Qed.
Lemma survives_same v w new :
  stacked (w :: new) → lv_slot v = lv_slot w →
  survives (w :: new) v ↔ lv_confirmation_count v ≤ lv_confirmation_count w.
Proof.
  intros Hn Heq. split.
  - intros [(x & Hx & Hs & Hc)|H].
    + assert (x = w) as ->; [|done]. apply (stacked_inj (w :: new)); auto; [by left|congruence].
    + destruct (H w); [by left|lia..].
  - intros Hc. left. exists w. split; [by left|]. split; [congruence|done].
Qed.
Lemma survives_before v w new :
  stacked (w :: new) → lv_slot v < lv_slot w →
  survives (w :: new) v ↔ last_locked_out_slot (lockout v) < lv_slot w.
Proof.
  intros Hn Hlt. split.
  - intros [(x & [->|Hx]%elem_of_cons & Hs & _)|H]; [lia| |apply H; [by left|lia]].
    pose proof (stacked_head_le _ _ _ Hn Hx). lia.
  - intros Hl. right. intros x [->|Hx]%elem_of_cons _; [done|].
    pose proof (stacked_head_le _ _ _ Hn Hx). lia.
Qed.

Lemma is_ok_rbind_Ok {E A B} (r : result E A) (f : A → B) : is_ok (rbind r (λ x, Ok (f x))) = is_ok r.
Proof. by destruct r. Qed.

(** the loop succeeds exactly if every vote of the old tower survives *)
Lemma check_no_rollback_Ok cur new :
  stacked cur → stacked new →
  is_ok (check_no_rollback cur new) = true ↔ Forall (survives new) cur.
Proof.
  pattern cur, new. apply two_stacks_ind; clear cur new;
    [intros new|intros v cur|intros v cur w new IH1 IH2 IH3]; intros Hc Hn.
  { destruct new; by split. }
  { split; [|done]. intros _. apply list.Forall_forall. intros x _. right. by intros w ?%elem_of_nil. }
  rewrite check_no_rollback_cons.
  apply stacked_cons in Hn as Hn'. destruct Hn' as [_ Hn'].
  apply stacked_cons in Hc as Hc'. destruct Hc' as [_ Hc'].
  destruct (N.compare_spec (lv_slot v) (lv_slot w)) as [Heq|Hlt|Hgt].
  - rewrite list.Forall_cons, (survives_same v w new Hn Heq), survives_all, <-(IH2 Hc' Hn').
    2:{ apply list.Forall_forall. intros x Hx. pose proof (stacked_head_le _ _ _ Hc Hx). lia. }
    destruct (N.ltb_spec (lv_confirmation_count w) (lv_confirmation_count v)).
    + split; [done|lia].
    + rewrite is_ok_rbind_Ok. naive_solver.
  - rewrite list.Forall_cons, (survives_before v w new Hn Hlt), <-(IH1 Hc' Hn).
    destruct (N.leb_spec (lv_slot w) (last_locked_out_slot (lockout v))).
    + split; [done|lia].
    + naive_solver.
  - rewrite is_ok_rbind_Ok, survives_all, <-(IH3 Hc Hn'); [done|].
    constructor; [done|]. apply list.Forall_forall. intros x Hx.
    pose proof (stacked_head_le _ _ _ Hc Hx). lia.
Qed.

(** ** The votes a new root covers *)
Definition uncovered (root : option N) (v : LandedVote) : Prop :=
  match root with Some r => r < lv_slot v | None => True end.
#[export] Instance uncovered_dec root v : Decision (uncovered root v).
Proof. destruct root; simpl; apply _. Defined.

Lemma filter_all {A} (P : A → Prop) `{!∀ x, Decision (P x)} l : Forall P l → filter P l = l.
Proof. induction 1; [done|]. rewrite filter_cons_True by done. by f_equal. Qed.

Lemma credits_at_most s index t d : credits_for_vote_at_index s index t d ≤ 16.
Proof.
  unfold credits_for_vote_at_index, VOTE_CREDITS_MAXIMUM_PER_SLOT, VOTE_CREDITS_MAXIMUM_PER_SLOT_OLD,
    VOTE_CREDITS_GRACE_SLOTS, checked_sub.
  repeat case_match; simplify_eq; lia.
Qed.

(** the votes are counted up to the first that is not covered, and the credits do not overflow *)
Lemma count_rooted_spec s t d root l : ∀ index earned,
  stacked l → earned + 16 * len l ≤ u64_max →
  ∃ k earned', count_rooted s t d root index earned l = Ok (index + N.of_nat k, earned') ∧
    drop k l = filter (uncovered (Some root)) l ∧ Forall (λ v, lv_slot v ≤ root) (take k l).
Proof.
  induction l as [|v l IH]; intros index earned Hst Hb; simpl.
  { exists 0%nat, earned. split_and!; [f_equal; f_equal; lia|done|constructor]. }
  apply stacked_cons in Hst as Hst'. destruct Hst' as [_ Hst'].
  destruct (N.leb_spec (lv_slot v) root) as [Hle|Hgt].
  - pose proof (credits_at_most s index t d) as Hc.
    assert (len (v :: l) = 1 + len l) as Hlen by (unfold len; simpl; lia). rewrite Hlen in Hb.
    assert (∃ e, (if t || negb (lv_slot v =? root) then
        unwrap (checked_add u64_max earned (credits_for_vote_at_index s index t d)) else Ok earned) = Ok (E:=VoteError.t) e
        ∧ e ≤ earned + 16) as (e & -> & He).
    { destruct (t || _); [|exists earned; split; [done|lia]].
      unfold checked_add. rewrite (proj2 (N.leb_le _ _)) by lia. eexists. split; [done|lia]. }
    simpl. destruct (IH (index + 1) e Hst' ltac:(lia)) as (k & earned' & -> & Hd & Ht).
    exists (S k), earned'. split_and!; [f_equal; f_equal; lia| |by constructor].
    rewrite filter_cons_False; [done|]. simpl. lia.
  - exists 0%nat, earned. split_and!; [f_equal; f_equal; lia| |constructor].
    symmetry. apply filter_all. constructor; [done|].
    apply list.Forall_forall. intros w Hw. pose proof (stacked_head_le _ _ _ Hst Hw). simpl. lia.
Qed.

(** ** Replacing the tower *)
Definition root_le (old new : option N) : Prop :=
  match old, new with Some a, Some b => a ≤ b | Some _, None => False | None, _ => True end.

(** the tower [new] with its root may take the place of the one of [s]: it is well formed
    and its root does not go back; each old vote that the new root does not cover is in it
    with at least as many confirmations, or had expired before the votes made after it *)
Record takes_over (s : VoteState) (new : list LandedVote) (root : option N) : Prop := {
  to_tower : tower_ok root new;
  to_root : root_le (root_slot s) root;
  to_votes : ∀ v, v ∈ votes s → uncovered root v → survives new v }.

Lemma count_rooted_tower s t d root :
  tower_ok (root_slot s) (votes s) →
  ∃ k earned,
    match root with
    | Some root => count_rooted s t d root 0 (if t then 0 else 1) (votes s)
    | None => Ok (0, if t then 0 else 1)
    end = Ok (k, earned) ∧ drop (N.to_nat k) (votes s) = filter (uncovered root) (votes s).
Proof.
  intros Hok. destruct root as [r|].
  - destruct (count_rooted_spec s t d r (votes s) 0 (if t then 0 else 1) (tw_stacked _ _ Hok)) as (k & e & -> & Hd & _).
    { pose proof (tw_len _ _ Hok). unfold MAX_LOCKOUT_HISTORY, u64_max in *. destruct t; lia. }
    exists (0 + N.of_nat k), e. split; [done|]. by rewrite N.add_0_l, Nat2N.id.
  - exists 0, (if t then 0 else 1). split; [done|]. simpl. rewrite filter_all; [done|].
    by apply list.Forall_forall.
Qed.

Lemma stacked_drop k l : stacked l → stacked (drop k l).
Proof. rewrite <-(take_drop k l) at 1. apply stacked_app_r. Qed.
(** well-formedness is about the lockouts *)
Lemma tower_ok_lockouts root l l' : lockout <$> l = lockout <$> l' → tower_ok root l → tower_ok root l'.
Proof.
  intros Heq [Hst Hco Hlen Hab Hne].
  assert (∀ i v', l' !! i = Some v' → ∃ v, l !! i = Some v ∧ lockout v = lockout v') as Hat.
  { intros i v' Hv'. pose proof (f_equal (.!! i) Heq) as Hi. rewrite !list_lookup_fmap, Hv' in Hi.
    destruct (l !! i) as [v|]; [|done]. injection Hi as Hi. eauto. }
  assert (∀ P : LandedVote → Prop, (∀ v v', lockout v = lockout v' → P v → P v') → Forall P l → Forall P l') as Hall.
  { intros P HP Hl. apply list.Forall_forall. intros v' [i Hi]%list_elem_of_lookup.
    destruct (Hat i v' Hi) as (v & Hv & Hvv). apply (HP v v' Hvv). by eapply Forall_lookup_1. }
  split.
  - intros i v' w' Hv' Hw'. destruct (Hat _ _ Hv') as (v & Hv & Hvv), (Hat _ _ Hw') as (w & Hw & Hww).
    destruct (Hst i v w Hv Hw) as [H1 H2 H3].
    split; unfold lv_slot, lv_confirmation_count in *; by rewrite <-Hvv, <-?Hww.
  - revert Hco. apply Hall. intros v v' Hv. unfold counted, lv_confirmation_count. by rewrite Hv.
  - apply (f_equal length) in Heq. rewrite !length_fmap in Heq. unfold len in *. by rewrite <-Heq.
  - revert Hab. apply Hall. intros v v' Hv. unfold above, lv_slot. by rewrite Hv.
  - intros Hs ->. apply (Hne Hs). by destruct l.
Qed.

(** the latency of a vote that stays is kept *)
Lemma check_no_rollback_latency cur new : ∀ new',
  stacked cur → stacked new → check_no_rollback cur new = Ok new' →
  ∀ v w, v ∈ cur → w ∈ new' → lv_slot v = lv_slot w → latency w = latency v.
Proof.
  pattern cur, new. apply two_stacks_ind; clear cur new;
    [intros new|intros v cur|intros v cur w new IH1 IH2 IH3]; intros new' Hc Hn.
  { by intros _ v w ?%elem_of_nil. }
  { intros [= <-] x w _ ?%elem_of_nil. done. }
  rewrite check_no_rollback_cons.
  apply stacked_cons in Hn as Hn'. destruct Hn' as [_ Hn'].
  apply stacked_cons in Hc as Hc'. destruct Hc' as [_ Hc'].
  assert (∀ r x, lockout <$> r = lockout <$> new → x ∈ r → lv_slot w < lv_slot x) as Hlater.
  { intros r x Hr Hx. assert (lockout x ∈ lockout <$> new) as Hx' by (rewrite <-Hr; by apply list_elem_of_fmap_2).
    apply list_elem_of_fmap in Hx' as (y & Hy & Hin). pose proof (stacked_head_le _ _ _ Hn Hin) as Hlt.
    unfold lv_slot in *. by rewrite Hy. }
  destruct (N.compare_spec (lv_slot v) (lv_slot w)) as [Heq|Hlt|Hgt].
  - destruct (_ <? _); [done|]. destruct (check_no_rollback cur new) as [r| |] eqn:Hr; [|done..].
    pose proof (check_no_rollback_lockouts _ _ _ Hr) as Hrl.
    intros [= <-] x y [->|Hx]%elem_of_cons [->|Hy]%elem_of_cons Hs; [done|..].
    + pose proof (Hlater r y Hrl Hy). unfold lv_slot in *; simpl in *; lia.
    + pose proof (stacked_head_le _ _ _ Hc Hx). unfold lv_slot in *; simpl in *; lia.
    + by apply (IH2 r).
  - destruct (N.leb_spec (lv_slot w) (last_locked_out_slot (lockout v))); [done|].
    intros Hr x y [->|Hx]%elem_of_cons Hy Hs; [|by apply (IH1 new')].
    pose proof (check_no_rollback_lockouts _ _ _ Hr) as Hrl.
    destruct new' as [|z new']; [by apply elem_of_nil in Hy|]. simpl in Hrl. injection Hrl as Hz Hrl.
    apply elem_of_cons in Hy as [->|Hy].
    + unfold lv_slot in *. rewrite Hz in Hs. lia.
    + pose proof (Hlater _ _ Hrl Hy). lia.
  - destruct (check_no_rollback (v :: cur) new) as [r| |] eqn:Hr; [|done..].
    intros [= <-] x y Hx [->|Hy]%elem_of_cons Hs; [|by apply (IH3 r)].
    apply elem_of_cons in Hx as [->|Hx]; [lia|]. pose proof (stacked_head_le _ _ _ Hc Hx). lia.
Qed.

(** the state after [new] has taken over *)
Record taken_over (s : VoteState) (new : list LandedVote) (root : option N) (s' : VoteState) : Prop := {
  tk_lockouts : lockout <$> votes s' = lockout <$> new;
  tk_root : root_slot s' = root;
  tk_latency : ∀ v w, v ∈ votes s → uncovered root v → w ∈ votes s' → lv_slot v = lv_slot w →
    latency w = latency v ∨ latency v = 0;
  tk_node : node_pubkey s' = node_pubkey s;
  tk_withdrawer : authorized_withdrawer s' = authorized_withdrawer s;
  tk_commission : commission s' = commission s;
  tk_voters : authorized_voters s' = authorized_voters s }.

(** a result that is no panic and whose error satisfies [P] *)
Definition errs {E A} (P : E → Prop) (r : result E A) : Prop :=
  match r with Ok _ => True | Err e => P e | Panic => False end.
Lemma errs_bind {E A B} (P : E → Prop) (r : result E A) (f : A → result E B) :
  errs P r → (∀ x, r = Ok x → errs P (f x)) → errs P (rbind r f).
Proof. destruct r; simpl; auto. Qed.

Lemma check_root_rollback_Ok old new : check_root_rollback old new = Ok tt ↔ root_le old new.
Proof.
  destruct old as [a|], new as [b|]; simpl; try done. destruct (N.ltb_spec b a); split; try done; lia.
Qed.
Lemma check_root_rollback_errs old new : errs (.≠ VoteError.TimestampTooOld) (check_root_rollback old new).
Proof. destruct old, new; simpl; try done. by destruct (_ <? _). Qed.
Lemma check_new_votes_errs root l : ∀ prev, errs (.≠ VoteError.TimestampTooOld) (check_new_votes root prev l).
Proof.
  induction l as [|v l IH]; intros prev; simpl; [done|].
  repeat (apply errs_bind; [by repeat case_match|intros _ _]). apply IH.
Qed.
Lemma check_no_rollback_errs cur new : errs (.≠ VoteError.TimestampTooOld) (check_no_rollback cur new).
Proof.
  pattern cur, new. apply two_stacks_ind; clear cur new;
    [by intros []|done|intros v cur w new IH1 IH2 IH3].
  rewrite check_no_rollback_cons. repeat case_match; try done; by apply errs_bind.
Qed.
Lemma process_timestamp_result slot timestamp s :
  match process_timestamp slot timestamp s with
  | Ok s' => s' = set_last_timestamp (mkBlockTimestamp slot timestamp) s
  | Err e => e = VoteError.TimestampTooOld
  | Panic => False
  end.
Proof. unfold process_timestamp. by destruct (_ || _). Qed.
Lemma fill_latencies_spec (t : bool) slot l : ∃ l',
  (if t then fill_latencies slot l else l) = l' ∧ lockout <$> l' = lockout <$> l ∧
  ∀ w, w ∈ l' → ∃ x, x ∈ l ∧ lockout w = lockout x ∧ (latency w = latency x ∨ latency x = 0).
Proof.
  eexists. split; [done|]. destruct t; [|split; [done|]; eauto]. unfold fill_latencies. split.
  - rewrite <-list_fmap_compose. apply list_fmap_ext. intros _ x _. simpl. by destruct (latency x =? 0).
  - intros w (x & -> & Hx)%list_elem_of_fmap. exists x. split; [done|].
    destruct (N.eqb_spec (latency x) 0); auto.
Qed.

(** a tower is accepted exactly if it may take over, and it is in force then; a tower that may
    take over is refused only for its timestamp *)
Lemma process_new_vote_state_spec s new root timestamp epoch slot features :
  tower_ok (root_slot s) (votes s) → new ≠ [] →
  match process_new_vote_state s new root timestamp epoch slot features with
  | Ok s' => takes_over s new root ∧ taken_over s new root s'
  | Err e => takes_over s new root → e = VoteError.TimestampTooOld ∧ is_Some timestamp
  | Panic => False
  end.
Proof.
  intros Hok Hne. unfold process_new_vote_state.
  destruct (list.last new) as [last_vote|] eqn:Hlast; [|by apply last_None in Hlast].
  destruct (N.ltb_spec MAX_LOCKOUT_HISTORY (len new)) as [Hlen|Hlen].
  { intros [Ht _ _]. pose proof (tw_len _ _ Ht). lia. }
  fold (check_root_rollback (root_slot s) root).
  pose proof (check_root_rollback_Ok (root_slot s) root) as Hroot.
  pose proof (check_root_rollback_errs (root_slot s) root) as Herr.
  destruct (check_root_rollback (root_slot s) root) as [[]|e|]; simpl in *; [|intros [_ Hr _]; by apply Hroot in Hr|done].
  destruct Hroot as [Hroot _]. specialize (Hroot eq_refl).
  pose proof (check_new_votes_Ok root new None) as Hnew. pose proof (check_new_votes_errs root new None) as Herr'.
  destruct (check_new_votes root None new) as [[]|e|]; simpl in *; [|intros [[] _ _]|done].
  2:{ enough (Err e = Ok tt) by done. by apply Hnew. }
  destruct Hnew as [Hnew _]. destruct (Hnew eq_refl) as (Hco & Hab & Hst & _).
  assert (tower_ok root new) as Htower by (by split).
  set (t := match features with Some f => is_active f timely_vote_credits_id | None => false end).
  set (d := match features with Some f => is_active f deprecate_unused_legacy_vote_plumbing_id | None => false end).
  destruct (count_rooted_tower s t d root Hok) as (k & earned & -> & Hk). simpl.
  pose proof (stacked_drop (N.to_nat k) _ (tw_stacked _ _ Hok)) as Hcur.
  pose proof (check_no_rollback_Ok _ new Hcur Hst) as Hroll.
  assert (Forall (survives new) (drop (N.to_nat k) (votes s)) ↔ takes_over s new root) as Hto.
  { rewrite Hk, list.Forall_forall. setoid_rewrite list_elem_of_filter. split; [|by intros [_ _ H] v []; auto].
    intros H. split; auto. }
  rewrite Hto in Hroll. clear Hto. 
  pose proof (check_no_rollback_lockouts (drop (N.to_nat k) (votes s)) new) as Hlock.
  pose proof (check_no_rollback_latency (drop (N.to_nat k) (votes s)) new) as Hlat.
  pose proof (check_no_rollback_errs (drop (N.to_nat k) (votes s)) new) as Herr''.
  destruct (check_no_rollback (drop (N.to_nat k) (votes s)) new) as [new'|e|]; simpl in *;
    [|intros Hto; by apply Hroll in Hto|done].
  destruct Hroll as [Hroll _]. specialize (Hroll eq_refl). specialize (Hlock new' eq_refl). specialize (Hlat new' Hcur Hst eq_refl).
  set (s1 := if bool_decide (root_slot s = root) then s else increment_credits epoch earned s).
  destruct (fill_latencies_spec t slot new') as (new'' & -> & Hlock'' & Hfill).
  assert (∀ v w, v ∈ votes s → uncovered root v → w ∈ new'' → lv_slot v = lv_slot w →
    latency w = latency v ∨ latency v = 0) as Hlat''.
  { intros v w Hv Huv (x & Hx & Hwx & Hl)%Hfill Hs.
    assert (v ∈ drop (N.to_nat k) (votes s)) as Hv' by (rewrite Hk; by apply list_elem_of_filter).
    rewrite <-(Hlat v x Hv' Hx); [done|]. unfold lv_slot in *. by rewrite Hs, Hwx. }
  rewrite Hlock in Hlock''.
  assert (∀ s2, (∃ ts, s2 = set_last_timestamp ts s1) ∨ s2 = s1 →
    taken_over s new root (set_votes new'' (set_root_slot root s2))) as Hfin.
  { intros s2 Hs2. assert (node_pubkey s2 = node_pubkey s ∧ authorized_withdrawer s2 = authorized_withdrawer s ∧
      commission s2 = commission s ∧ authorized_voters s2 = authorized_voters s) as (? & ? & ? & ?).
    { destruct Hs2 as [[ts ->]| ->]; unfold s1; by destruct (bool_decide _). }
    by split. }
  destruct timestamp as [ts|]; simpl; [|auto].
  pose proof (process_timestamp_result (lv_slot last_vote) ts s1) as Hts.
  destruct (process_timestamp (lv_slot last_vote) ts s1) as [s2|e|]; simpl; [|auto|done].
  split; [done|]. apply Hfin. left. eauto.
Qed.

(** ** Votes one after the other *)

(** what becomes of a vote when a new one is made *)
Lemma kept_cases slot root l w :
  stacked l → w ∈ l →
  w ∈ kept_votes slot l ∨ next_root slot l root = Some (lv_slot w) ∨
  last_locked_out_slot (lockout w) < slot ∧ ∀ x, x ∈ kept_votes slot l → lv_slot x < lv_slot w.
Proof.
  intros Hst Hw. destruct (pop_expired_spec slot l) as (gone & Hl & Hg & _).
  unfold kept_votes, next_root. set (p := pop_expired slot l) in *.
  assert (∀ x, x ∈ (if len p =? MAX_LOCKOUT_HISTORY then tail p else p) → x ∈ p) as Hsub.
  { intros x. destruct (_ =? _); [|done]. destruct p; [done|]. by right. }
  rewrite Hl in Hw. apply elem_of_app in Hw as [Hw|Hw].
  - destruct p as [|oldest rest]; [by apply elem_of_nil in Hw|].
    destruct (_ =? _); [|by left]. apply elem_of_cons in Hw as [->|Hw]; auto.
  - right; right. rewrite list.Forall_forall in Hg. split; [by apply Hg|].
    intros x Hx%Hsub. apply list_elem_of_lookup in Hx as [i Hi], Hw as [j Hj].
    apply (stacked_slots l i (length p + j)); auto.
    + rewrite Hl. by apply lookup_app_l_Some.
    + rewrite Hl, lookup_app_r, <-Hj by lia. f_equal. lia.
    + apply lookup_lt_Some in Hi. lia.
Qed.
Lemma kept_votes_sub slot l x : x ∈ kept_votes slot l → x ∈ l.
Proof.
  intros Hx. destruct (pop_expired_prefix slot l) as [k Hk]. rewrite Hk. apply elem_of_app. left.
  unfold kept_votes in Hx. destruct (_ =? _); [|done]. destruct (pop_expired slot l); [done|]. by right.
Qed.

(** a kept vote is in the new tower, perhaps with one confirmation more *)
Lemma pushed_kept l new v :
  v ∈ l → lv_confirmation_count v ≤ MAX_LOCKOUT_HISTORY →
  ∃ w, w ∈ pushed l new ∧ lv_slot w = lv_slot v ∧ lv_confirmation_count v ≤ lv_confirmation_count w.
Proof.
  intros [i Hi]%list_elem_of_lookup Hc. exists (double_lockout (len (l ++ [new])) (N.of_nat i) v). split_and!.
  - apply list_elem_of_lookup. exists i. unfold pushed. rewrite list_lookup_imap.
    by rewrite (lookup_app_l_Some _ _ _ _ Hi).
  - apply double_lockout_slot.
  - rewrite double_lockout_count by done. destruct (_ <? _); lia.
Qed.
Lemma pushed_slots l new x : x ∈ pushed l new → lv_slot x = lv_slot new ∨ ∃ v, v ∈ l ∧ lv_slot x = lv_slot v.
Proof.
  intros (i & v & _ & Hv & ->)%pushed_elem. rewrite double_lockout_slot.
  apply elem_of_app in Hv as [Hv| ->%list_elem_of_singleton]; eauto.
Qed.
Lemma pushed_last l new : ∃ w, list.last (pushed l new) = Some w ∧ lv_slot w = lv_slot new.
Proof.
  eexists (double_lockout _ _ new). split; [|apply double_lockout_slot].
  unfold pushed. rewrite last_lookup, list_lookup_imap, length_imap, length_app. simpl.
  replace (pred (length l + 1)) with (length l) by lia. by rewrite lookup_app_r, Nat.sub_diag by lia.
Qed.

(** the tower of [s] continues the one of [s0] *)
Definition expired_before (l : list LandedVote) (v : LandedVote) : Prop :=
  (∀ w, w ∈ l → lv_slot v ≤ lv_slot w →
     lv_slot v < lv_slot w ∧ last_locked_out_slot (lockout v) < lv_slot w) ∧
  ∃ top, list.last l = Some top ∧ lv_slot v < lv_slot top ∧ last_locked_out_slot (lockout v) < lv_slot top.
Record continues (s0 s : VoteState) : Prop := {
  co_tower : tower_ok (root_slot s) (votes s);
  co_root : root_le (root_slot s0) (root_slot s);
  co_votes : ∀ v, v ∈ votes s0 → uncovered (root_slot s) v →
    (∃ w, w ∈ votes s ∧ lv_slot w = lv_slot v ∧ lv_confirmation_count v ≤ lv_confirmation_count w) ∨
    expired_before (votes s) v }.

Lemma continues_refl s : tower_ok (root_slot s) (votes s) → continues s s.
Proof. intros H. split; [done| |]. { destruct (root_slot s); simpl; lia || done. } intros v Hv _. left. exists v. auto. Qed.
Lemma continues_takes_over s0 s : continues s0 s → takes_over s0 (votes s) (root_slot s).
Proof. intros [Ht Hr Hv]. split; auto. intros v H1 H2. destruct (Hv v H1 H2) as [|[H _]]; [by left|by right]. Qed.

Lemma next_root_le slot root l : tower_ok root l → root_le root (next_root slot l root).
Proof.
  intros Hok. assert (root_le root root) as Hrr by (destruct root; simpl; lia || done).
  unfold next_root. destruct (pop_expired_prefix slot l) as [k Hk]. destruct (pop_expired slot l) as [|v p]; [done|].
  destruct (_ =? _); [|done]. destruct root as [r|]; [|done]. simpl.
  pose proof (tw_above _ _ Hok) as Hab. rewrite Hk in Hab. apply list.Forall_cons in Hab as [[Hab|Hab] _]; lia.
Qed.
Lemma uncovered_mono a b v : root_le a b → uncovered b v → uncovered a v.
Proof. destruct a, b; simpl; try done. lia. Qed.

(** an expired vote stays expired: the tower only gets younger votes *)
Lemma expired_before_next l slot new v :
  stacked l → expired_before l v → Forall (λ x, lv_slot x < slot) l → lv_slot new = slot →
  expired_before (pushed (kept_votes slot l) new) v.
Proof.
  intros Hst [Hex (top & Htop & Hv & Hlt)] Hfresh Hnew. rewrite list.Forall_forall in Hfresh.
  pose proof (Hfresh top (last_elem _ _ Htop)). split.
  - intros w [Hw|(x & Hx & Hw)]%pushed_slots Hle; [lia|]. rewrite Hw in *. apply Hex; [|done].
    by eapply kept_votes_sub.
  - destruct (pushed_last (kept_votes slot l) new) as (w & Hw & Hs). exists w. split; [done|lia].
Qed.

Lemma continues_next s0 slot epoch current_slot timely deprecate s :
  continues s0 s → continues s0 (process_next_vote_slot slot epoch current_slot timely deprecate s).
Proof.
  intros [Hok Hr Hvs]. pose proof (next_vote_ok slot epoch current_slot timely deprecate s Hok) as Hok'.
  pose proof (next_vote_spec slot epoch current_slot timely deprecate s) as Hs. cbv zeta in Hs, Hok'.
  set (s' := process_next_vote_slot slot epoch current_slot timely deprecate s) in *.
  destruct (ignored slot s) eqn:Hi; [by rewrite Hs|]. destruct Hs as [Hs Hroot].
  pose proof (ignored_false slot s (tw_stacked _ _ Hok) Hi) as Hfresh.
  pose proof (next_root_le slot (root_slot s) (votes s) Hok) as Hnext. rewrite <-Hroot in Hnext.
  pose proof (tw_counted _ _ Hok) as Hco. rewrite list.Forall_forall in Hco, Hfresh.
  split; [done| |].
  { destruct (root_slot s0), (root_slot s), (root_slot s'); simpl in *; try done; lia. }
  intros v Hv Hun. pose proof (uncovered_mono _ _ _ Hnext Hun) as Hun0. rewrite Hs.
  destruct (Hvs v Hv Hun0) as [(w & Hw & Hws & Hwc)|Hex].
  - destruct (Hco w Hw) as [Hc1 Hc2].
    destruct (kept_cases slot (root_slot s) _ w (tw_stacked _ _ Hok) Hw) as [Hk|[Hk|[Hg Hbelow]]].
    + left. destruct (pushed_kept (kept_votes slot (votes s)) (new_vote slot current_slot timely deprecate) w Hk Hc2)
        as (x & Hx & Hxs & Hxc). exists x. split; [done|]. split; [congruence|lia].
    + rewrite <-Hroot in Hk. rewrite Hk in Hun. simpl in Hun. lia.
    + right. assert (last_locked_out_slot (lockout v) ≤ last_locked_out_slot (lockout w)) as Hvw.
      { apply last_locked_mono; [done|done|]. unfold lv_confirmation_count, MAX_LOCKOUT_HISTORY in *. lia. }
      pose proof (Hfresh w Hw) as Hw'. split.
      * intros x [Hx|(y & Hy & Hx)]%pushed_slots Hle; [|pose proof (Hbelow y Hy); lia].
        unfold new_vote, lv_slot in *. simpl in *. lia.
      * destruct (pushed_last (kept_votes slot (votes s)) (new_vote slot current_slot timely deprecate))
          as (x & Hx & Hxs). exists x. split; [done|]. rewrite Hxs. unfold new_vote, lv_slot in *. simpl. lia.
  - right. apply expired_before_next; try done; [by apply tw_stacked in Hok|by apply list.Forall_forall].
Qed.
