(* ===== verification/VoteHistory.v ===== *)
(** * Proposed towers and the slot hashes

    The walk over the slots of a proposed tower and the slot hashes of the fork, and what the
    two together check: the tower lies on the fork as far as the slot hashes go back. *)

From S2P Require Import Prelude Sdk InvokeContext VoteState VoteProcess VoteRules VoteUpdates.

(** the slot hashes start with the newest slot *)
Definition falling (hashes : list (N * Hash)) : Prop :=
  ∀ i j x y, hashes !! i = Some x → hashes !! j = Some y → (i < j)%nat → y.1 < x.1.

Section loop.
Context (s : VoteState) (lockouts : list Lockout) (hashes : list (N * Hash)) (eh : N * Hash).
Context (Hfall : falling hashes) (Hlast : list.last hashes = Some eh).
Notation earliest := (eh.1).

Definition known (slot : N) : Prop := slot < earliest ∨ slot ∈ hashes.*1.
(** the proposed tower lies on the fork: a root inside the history comes first *)
Record traced (root : option N) : Prop := {
  tr_rising : ∀ k a b, lockouts !! k = Some a → lockouts !! S k = Some b → lk_slot a < lk_slot b;
  tr_known : ∀ l, l ∈ lockouts → known (lk_slot l);
  tr_root : ∀ r, root = Some r → known r ∧ (earliest < r → ∀ l, l ∈ lockouts → r ≤ lk_slot l) }.

(** a vote older than the history that is not in the old tower *)
Definition outdated (l : Lockout) : Prop := lk_slot l < earliest ∧ contains_slot s (lk_slot l) = false.
#[local] Instance outdated_dec l : Decision (outdated l).
Proof. unfold outdated. apply _. Defined.
Definition outdated_at (k : nat) : Prop := match lockouts !! k with Some l => outdated l | None => False end.
#[local] Instance outdated_at_dec k : Decision (outdated_at k).
Proof. unfold outdated_at. case_match; apply _. Defined.

(** after the slots before [i], with the hashes from [j] on behind *)
Record walked (root rtc : option N) (i j : nat) (filt : list N) : Prop := {
  wk_i : (i ≤ length lockouts)%nat;
  wk_j : (j ≤ length hashes)%nat;
  wk_root : rtc = root ∧ i = 0%nat ∨ rtc = None;
  wk_passed : ∀ r, root = Some r → rtc = None →
    known r ∧ (earliest < r → (j < length hashes)%nat ∧
      (∀ k h, (k < j)%nat → hashes !! k = Some h → r ≤ h.1) ∧
      ∀ k l, (k < i)%nat → lockouts !! k = Some l → r ≤ lk_slot l);
  wk_known : ∀ k l, (k < i)%nat → lockouts !! k = Some l → known (lk_slot l);
  wk_rising : ∀ k a b, (S k < i)%nat → lockouts !! k = Some a → lockouts !! S k = Some b → lk_slot a < lk_slot b;
  wk_filter : filt = N.of_nat <$> filter outdated_at (seq 0 i);
  wk_found : i = length lockouts → ∀ l, list.last lockouts = Some l →
    lk_slot l < earliest ∨ ∃ h, hashes !! j = Some h ∧ h.1 = lk_slot l;
  wk_ahead : traced root → ∀ k h l, (j ≤ k)%nat → hashes !! k = Some h → lockouts !! i = Some l →
    h.1 < match rtc with Some r => r | None => lk_slot l end }.

Lemma earliest_least h : h ∈ hashes → earliest ≤ h.1.
Proof.
  intros [k Hk]%list_elem_of_lookup. rewrite last_lookup in Hlast. pose proof (lookup_lt_Some _ _ _ Hk).
  destruct (decide (k = pred (length hashes))) as [->|]; [by simplify_eq|].
  apply N.lt_le_incl. apply (Hfall k (pred (length hashes))); auto. lia.
Qed.
Lemma known_slot slot : known slot → earliest ≤ slot → ∃ k h, hashes !! k = Some h ∧ h.1 = slot.
Proof.
  intros [Hlt|(h & -> & [k Hk]%list_elem_of_lookup)%list_elem_of_fmap] Hle; [lia|eauto].
Qed.
Lemma hash_known k h : hashes !! k = Some h → known h.1.
Proof. intros Hk. right. apply list_elem_of_fmap_2. by eapply list_elem_of_lookup_2. Qed.

(** *** The outdated votes are dropped *)
Lemma retain_votes_filter l : ∀ i,
  (∀ k, l !! k = lockouts !! (i + k)%nat) →
  retain_votes (N.of_nat i) (N.of_nat <$> filter outdated_at (seq i (length l))) l = filter (λ x, ¬ outdated x) l.
Proof.
  assert (∀ l i, retain_votes i [] l = l) as Hnil.
  { clear. induction l as [|x l IH]; intros i; simpl; [done|]. by rewrite IH. }
  assert (∀ n i f rest, f :: rest = N.of_nat <$> filter outdated_at (seq i n) → N.of_nat i ≤ f) as Hge.
  { clear. intros n i f rest Heq. assert (f ∈ N.of_nat <$> filter outdated_at (seq i n)) as Hf by (rewrite <-Heq; by left).
    apply list_elem_of_fmap in Hf as (k & -> & [_ Hk%elem_of_seq]%list_elem_of_filter). lia. }
  induction l as [|x l IH]; intros i Hl; [done|].
  assert (outdated_at i ↔ outdated x) as Hx.
  { unfold outdated_at. specialize (Hl 0%nat). rewrite Nat.add_0_r in Hl. by rewrite <-Hl. }
  assert (∀ k, l !! k = lockouts !! (S i + k)%nat) as Hl' by (intros k; specialize (Hl (S k)); simpl in Hl; rewrite Hl; f_equal; lia).
  specialize (IH (S i) Hl'). simpl length. rewrite <-cons_seq. simpl retain_votes.
  destruct (decide (outdated x)) as [Ho|Ho].
  - rewrite (filter_cons_True _ i), (filter_cons_False _ x) by (tauto || naive_solver).
    simpl. rewrite N.eqb_refl, <-IH. f_equal; lia.
  - rewrite (filter_cons_False _ i), (filter_cons_True _ x) by naive_solver. rewrite <-IH.
    replace (N.of_nat i + 1) with (N.of_nat (S i)) by lia.
    destruct (N.of_nat <$> filter outdated_at (seq (S i) (length l))) as [|f rest] eqn:Hf; [done|].
    pose proof (Hge _ _ _ _ (eq_sym Hf)). destruct (N.eqb_spec (N.of_nat i) f); [lia|done].
Qed.

(** *** The steps of the walk *)
Definition target (rtc : option N) (l : Lockout) : N := match rtc with Some r => r | None => lk_slot l end.

Lemma walk_start root : walked root root 0 (length hashes) [].
Proof.
  split; try done; try lia; auto.
  - intros r -> [=].
  - intros Hl l. rewrite last_lookup, lookup_ge_None_2; [done|lia].
  - intros _ k h l Hk Hh%lookup_lt_Some. lia.
Qed.
Lemma walk_newer root rtc i j filt l h :
  walked root rtc i (S j) filt → lockouts !! i = Some l → hashes !! j = Some h → h.1 < target rtc l →
  walked root rtc i j filt.
Proof.
  intros [] Hl Hh Hlt. pose proof (lookup_lt_Some _ _ _ Hl). split; try done; try lia.
  - intros r Hr Hn. destruct (wk_passed0 r Hr Hn) as [Hk Hp]. split; [done|]. intros He.
    destruct (Hp He) as (H1 & H2 & H3). split_and!; [lia| |done]. intros k x Hx. apply H2. lia.
  - intros Ht k x y Hk Hx Hy. simplify_eq. destruct (decide (k = j)) as [->|]; [by simplify_eq|].
    apply (wk_ahead0 Ht k x l); [lia|done..].
Qed.
Lemma walk_root_found root r i j filt h :
  walked root (Some r) i (S j) filt → hashes !! j = Some h → h.1 = r → walked root None i (S j) filt.
Proof.
  intros [] Hh Hr. destruct wk_root0 as [[<- ->]|]; [|done]. split; try done; auto.
  - intros r' [= <-] _. split; [rewrite <-Hr; by eapply hash_known|]. intros He. split_and!.
    + destruct (decide (S j = length hashes)) as [Hj|]; [|lia]. rewrite last_lookup, <-Hj in Hlast. simpl in Hlast.
      simplify_eq. lia.
    + intros k x Hk Hx. destruct (decide (k = j)) as [->|]; [simplify_eq; lia|].
      rewrite <-Hr. apply N.lt_le_incl, (Hfall k j); auto. lia.
    + lia.
  - intros Ht k x y Hk Hx Hy. specialize (wk_ahead0 Ht k x y Hk Hx Hy).
    pose proof (earliest_least x (list_elem_of_lookup_2 _ _ _ Hx)).
    destruct (tr_root _ Ht r eq_refl) as [_ Hle]. specialize (Hle ltac:(lia) y (list_elem_of_lookup_2 _ _ _ Hy)). lia.
Qed.
Lemma walk_root_old root r i filt :
  walked root (Some r) i (length hashes) filt → r < earliest → walked root None i (length hashes) filt.
Proof.
  intros [] Hlt. destruct wk_root0 as [[<- ->]|]; [|done]. split; try done; auto.
  - intros r' [= <-] _. split; [by left|]. lia.
  - intros _ k x y Hk Hx%lookup_lt_Some. lia.
Qed.
(** the next slot is passed *)
Definition above_previous (i : nat) (l : Lockout) : Prop :=
  ∀ p, (0 < i)%nat → lockouts !! pred i = Some p → lk_slot p < lk_slot l.
Lemma passed_rising i l :
  lockouts !! i = Some l → above_previous i l →
  (∀ k a b, (S k < i)%nat → lockouts !! k = Some a → lockouts !! S k = Some b → lk_slot a < lk_slot b) →
  ∀ k a b, (S k < S i)%nat → lockouts !! k = Some a → lockouts !! S k = Some b → lk_slot a < lk_slot b.
Proof.
  intros Hl Hp Hr k a b Hk Ha Hb. destruct (decide (S k = i)) as [<-|]; [|apply (Hr k); auto; lia].
  simplify_eq. apply (Hp a); [lia|done].
Qed.
Lemma passed_last i l : lockouts !! i = Some l → S i = length lockouts → ∀ l', list.last lockouts = Some l' → l' = l.
Proof. intros Hl Hi l'. rewrite last_lookup, <-Hi. simpl. congruence. Qed.
Lemma walk_found root i j filt l h :
  walked root None i (S j) filt → lockouts !! i = Some l → above_previous i l →
  hashes !! j = Some h → h.1 = lk_slot l → walked root None (S i) j filt.
Proof.
  intros [] Hl Hp Hh Heq. pose proof (lookup_lt_Some _ _ _ Hl). split; try lia; auto.
  - intros r Hr _. destruct (wk_passed0 r Hr eq_refl) as [Hk Hpass]. split; [done|]. intros He.
    destruct (Hpass He) as (H1 & H2 & H3). split_and!; [lia|intros k x Hx; apply H2; lia|].
    intros k x Hx Hkx. destruct (decide (k = i)) as [->|]; [|apply (H3 k); auto; lia].
    simplify_eq. rewrite <-Heq. apply (H2 j); auto.
  - intros k x Hx Hkx. destruct (decide (k = i)) as [->|]; [|apply (wk_known0 k); auto; lia].
    simplify_eq. rewrite <-Heq. by eapply hash_known.
  - by eapply passed_rising.
  - rewrite seq_S, list.filter_app, fmap_app, <-wk_filter0. simpl. rewrite filter_cons_False, app_nil_r; [done|].
    unfold outdated_at. rewrite Hl. intros [Hlt _].
    pose proof (earliest_least h (list_elem_of_lookup_2 _ _ _ Hh)). lia.
  - intros Hi l' Hl'. rewrite (passed_last i l Hl Hi l' Hl'). right. eauto.
  - intros Ht k x y Hk Hx Hy. pose proof (tr_rising _ Ht i l y Hl Hy). simpl.
    destruct (decide (k = j)) as [->|]; [simplify_eq; lia|].
    pose proof (Hfall j k h x Hh Hx ltac:(lia)). lia.
Qed.
Lemma walk_old root i filt l :
  walked root None i (length hashes) filt → lockouts !! i = Some l → above_previous i l → lk_slot l < earliest →
  walked root None (S i) (length hashes)
    (if negb (contains_slot s (lk_slot l)) then filt ++ [N.of_nat i] else filt).
Proof.
  intros [] Hl Hp Hlt. pose proof (lookup_lt_Some _ _ _ Hl). split; try lia; auto.
  - intros r Hr _. destruct (wk_passed0 r Hr eq_refl) as [Hk Hpass]. split; [done|]. intros He.
    destruct (Hpass He) as (H1 & _). lia.
  - intros k x Hx Hkx. destruct (decide (k = i)) as [->|]; [|apply (wk_known0 k); auto; lia].
    simplify_eq. by left.
  - by eapply passed_rising.
  - rewrite seq_S, list.filter_app, fmap_app, <-wk_filter0. simpl.
    destruct (contains_slot s (lk_slot l)) eqn:Hc; simpl.
    + rewrite filter_cons_False, app_nil_r; [done|]. unfold outdated_at. rewrite Hl. intros [_ ?]. congruence.
    + rewrite filter_cons_True; [done|]. unfold outdated_at. by rewrite Hl.
  - intros Hi l' Hl'. rewrite (passed_last i l Hl Hi l' Hl'). by left.
  - intros _ k x y Hk Hx%lookup_lt_Some. lia.
Qed.

(** *** Where the walk stops *)
Lemma target_known root rtc i j filt l :
  walked root rtc i j filt → lockouts !! i = Some l → traced root → known (target rtc l).
Proof.
  intros [] Hl Ht. destruct rtc as [r|]; simpl.
  - destruct wk_root0 as [[<- ->]|]; [|done]. by apply (tr_root _ Ht).
  - apply (tr_known _ Ht). by eapply list_elem_of_lookup_2.
Qed.
Lemma not_traced_between root rtc i j filt l :
  walked root rtc i j filt → lockouts !! i = Some l → (j < length hashes)%nat →
  (∀ k h, (k < j)%nat → hashes !! k = Some h → target rtc l < h.1) → ¬ traced root.
Proof.
  intros Hw Hl Hj Hnewer Ht. pose proof (wk_ahead _ _ _ _ _ Hw Ht) as Hahead. fold (target rtc l) in Hahead.
  destruct (lookup_lt_is_Some_2 hashes j Hj) as [h Hh].
  pose proof (Hahead j h l ltac:(lia) Hh Hl). pose proof (earliest_least h (list_elem_of_lookup_2 _ _ _ Hh)).
  destruct (known_slot _ (target_known _ _ _ _ _ _ Hw Hl Ht) ltac:(fold (target rtc l) in *; lia)) as (k & x & Hx & Heq).
  destruct (decide (k < j)%nat).
  - pose proof (Hnewer k x ltac:(lia) Hx). lia.
  - pose proof (Hahead k x l ltac:(lia) Hx Hl). fold (target rtc l) in *. lia.
Qed.

Lemma getN_nat {A} (l : list A) i : getN l (N.of_nat i) = l !! i.
Proof. unfold getN. by rewrite Nat2N.id. Qed.

(** the slots come in order unless the check says so *)
Lemma order_check rtc i l :
  lockouts !! i = Some l →
  ∃ b, (if bool_decide (rtc = None) && (0 <? N.of_nat i) then
          let! previous := unwrap (getN lockouts (N.of_nat i - 1)) in Ok (target rtc l <=? lk_slot previous)
        else Ok false) = Ok (E:=VoteError.t) b ∧
    (b = false → rtc = None → above_previous i l) ∧ (b = true → ∀ root, ¬ traced root).
Proof.
  intros Hl. destruct rtc as [r|]; simpl.
  { exists false. by split_and!. }
  destruct (N.ltb_spec 0 (N.of_nat i)).
  2:{ exists false. split_and!; try done. intros _ _ p ?. lia. }
  replace (N.of_nat i - 1) with (N.of_nat (pred i)) by lia. rewrite getN_nat.
  pose proof (lookup_lt_Some _ _ _ Hl). destruct (lookup_lt_is_Some_2 lockouts (pred i) ltac:(lia)) as [p Hp].
  rewrite Hp. simpl. eexists. split; [done|]. split.
  - intros Hb%N.leb_gt _ q _ Hq. by simplify_eq.
  - intros Hb%N.leb_le root Ht. pose proof (tr_rising _ Ht (pred i) p l Hp) as Hr.
    replace (S (pred i)) with i in Hr by lia. specialize (Hr Hl). lia.
Qed.

Lemma check_update_loop_spec fuel root : ∀ rtc i j filt,
  walked root rtc i j filt →
  (length lockouts - i + j + (if bool_decide (is_Some rtc) then 1 else 0) < fuel)%nat →
  match check_update_loop fuel s lockouts hashes earliest rtc (N.of_nat i) (N.of_nat j) filt with
  | Ok (i', j', filt') => ∃ rtc' i2 j2, i' = N.of_nat i2 ∧ j' = N.of_nat j2 ∧ walked root rtc' i2 j2 filt' ∧
      (i2 = length lockouts ∨ (i2 < length lockouts)%nat ∧ j2 = 0%nat)
  | Err _ => ¬ traced root
  | Panic => False
  end.
Proof.
  induction fuel as [|fuel IH]; intros rtc i j filt Hw Hf; [lia|]. simpl.
  pose proof (wk_i _ _ _ _ _ Hw) as Hi. pose proof (wk_j _ _ _ _ _ Hw) as Hj.
  unfold len. destruct (N.ltb_spec (N.of_nat i) (N.of_nat (length lockouts))) as [Hi'|Hi'],
    (N.ltb_spec 0 (N.of_nat j)) as [Hj'|Hj']; simpl;
    try (exists rtc, i, j; split_and!; [done..|lia]).
  rewrite getN_nat. destruct (lookup_lt_is_Some_2 lockouts i ltac:(lia)) as [l Hl]. rewrite Hl. simpl.
  fold (target rtc l). destruct (order_check rtc i l Hl) as (b & -> & Hb1 & Hb2). simpl.
  destruct b; [by apply Hb2|]. specialize (Hb1 eq_refl). clear Hb2.
  destruct j as [|j]; [lia|]. replace (N.of_nat (S j) - 1) with (N.of_nat j) by lia. rewrite getN_nat.
  destruct (lookup_lt_is_Some_2 hashes j ltac:(lia)) as [h Hh]. rewrite Hh. cbn [rbind unwrap].
  destruct (N.compare_spec (target rtc l) h.1) as [Heq|Hlt|Hgt].
  - destruct rtc as [r|]; simpl in *.
    + apply IH; [by eapply walk_root_found|simpl; lia].
    + replace (N.of_nat i + 1) with (N.of_nat (S i)) by lia. apply IH; [by eapply walk_found; eauto|simpl; lia].
  - destruct (N.eqb_spec (N.of_nat (S j)) (N.of_nat (length hashes))) as [Hje|Hje].
    + assert (S j = length hashes) as Hje' by lia. clear Hje.
      assert (h = eh) as ->.
      { rewrite last_lookup, <-Hje' in Hlast. simpl in Hlast. congruence. }
      rewrite (proj2 (N.ltb_lt _ _) Hlt). cbn [negb]. rewrite Hje' in *.
      destruct rtc as [r|]; simpl in *; rewrite ?andb_false_r, ?andb_true_r.
      * apply IH; [by apply walk_root_old with r|simpl; lia].
      * replace (N.of_nat i + 1) with (N.of_nat (S i)) by lia. apply IH; [by apply walk_old; eauto|simpl; lia].
    + apply (not_traced_between root rtc i (S j) filt l); auto; [lia|]. intros k x Hk Hx.
      destruct (decide (k = j)) as [->|]; [by simplify_eq|]. pose proof (Hfall k j x h Hx Hh ltac:(lia)). lia.
  - apply IH; [|lia]. by eapply walk_newer.
Qed.

(** a walk to the end has traced the tower *)
Lemma walked_traced root rtc j filt :
  lockouts ≠ [] → walked root rtc (length lockouts) j filt → traced root.
Proof.
  intros Hne []. assert (rtc = None) as ->.
  { destruct wk_root0 as [[_ Hz]|]; [|done]. by destruct lockouts. }
  split.
  - intros k a b Ha Hb. apply (wk_rising0 k); auto. by eapply lookup_lt_Some.
  - intros l [k Hk]%list_elem_of_lookup. apply (wk_known0 k); auto. by eapply lookup_lt_Some.
  - intros r Hr. destruct (wk_passed0 r Hr eq_refl) as [Hk Hp]. split; [done|].
    intros He l [k Hl]%list_elem_of_lookup. destruct (Hp He) as (_ & _ & H3).
    apply (H3 k); auto. by eapply lookup_lt_Some.
Qed.
Lemma falling_inj h k : falling hashes → h ∈ hashes → k ∈ hashes → h.1 = k.1 → h = k.
Proof.
  intros Hf [i Hi]%list_elem_of_lookup [j Hj]%list_elem_of_lookup Heq.
  destruct (lt_eq_lt_dec i j) as [[?| ->]|?]; [|by simplify_eq|].
  - pose proof (Hf i j h k Hi Hj ltac:(lia)). lia.
  - pose proof (Hf j i k h Hj Hi ltac:(lia)). lia.
Qed.
End loop.
#[export] Existing Instance outdated_dec.

(** ** What the check accepts, and what it makes of it *)
Definition on_fork (s : VoteState) (u : VoteStateUpdate) (hashes : list (N * Hash)) : Prop :=
  ∃ last eh, list.last (vsu_lockouts u) = Some last ∧ list.last hashes = Some eh ∧
    (∀ v, list.last (votes s) = Some v → lv_slot v < lk_slot last) ∧
    (lk_slot last, vsu_hash u) ∈ hashes ∧
    traced (vsu_lockouts u) hashes eh (adjusted_root s eh.1 (vsu_root u)).
Definition trimmed (s : VoteState) (u : VoteStateUpdate) (eh : N * Hash) : VoteStateUpdate :=
  mkVoteStateUpdate (filter (λ l, ¬ outdated s eh l) (vsu_lockouts u)) (adjusted_root s eh.1 (vsu_root u))
    (vsu_hash u) (vsu_timestamp u).

Lemma check_update_spec s u hashes :
  falling hashes →
  match check_update_vote_state_slots_are_valid s u hashes with
  | Ok u' => on_fork s u hashes ∧ ∃ eh, list.last hashes = Some eh ∧ u' = trimmed s u eh
  | Err _ => ¬ on_fork s u hashes
  | Panic => False
  end.
Proof.
  intros Hfall. unfold check_update_vote_state_slots_are_valid.
  destruct (list.last (vsu_lockouts u)) as [last|] eqn:Hlast; [|intros (? & ? & ? & _); congruence].
  destruct (match list.last (votes s) with Some v => lk_slot last <=? lv_slot v | None => false end) eqn:Hold.
  { intros (? & ? & ? & _ & Hnew & _). simplify_eq. destruct (list.last (votes s)) as [v|]; [|done].
    specialize (Hnew v eq_refl). apply N.leb_le in Hold. lia. }
  assert (∀ v, list.last (votes s) = Some v → lv_slot v < lk_slot last) as Hnew.
  { intros v Hv. rewrite Hv in Hold. by apply N.leb_gt in Hold. }
  clear Hold. destruct (list.last hashes) as [eh|] eqn:Heh; [|intros (? & ? & _ & ? & _); congruence].
  destruct eh as [e eh]. destruct (N.ltb_spec (lk_slot last) e) as [Hlt|Hge].
  { intros (? & ? & ? & ? & _ & Hin & _). simplify_eq. pose proof (earliest_least _ _ Hfall Heh _ Hin). simpl in *. lia. }
  set (root := adjusted_root s e (vsu_root u)).
  pose proof (check_update_loop_spec s (vsu_lockouts u) hashes (e, eh) Hfall Heh
    (length (vsu_lockouts u) + length hashes + 2) root root 0 (length hashes) []
    (walk_start _ _ _ _ _)) as Hloop.
  specialize (Hloop ltac:(destruct (bool_decide _); lia)). revert Hloop.
  change (N.of_nat (length hashes)) with (len hashes). change (N.of_nat 0) with 0. cbn [fst].
  destruct (check_update_loop _ s (vsu_lockouts u) hashes e root 0 (len hashes) []) as [[[i j] filt]| |];
    cbn [rbind]; intros Hloop.
  3:{ done. }
  2:{ intros (? & ? & ? & ? & _ & _ & Htr). by simplify_eq. }
  destruct Hloop as (rtc & i' & j' & -> & -> & Hw & Hend).
  unfold len. destruct (N.eqb_spec (N.of_nat i') (N.of_nat (length (vsu_lockouts u)))) as [Hi|Hi]; simpl.
  2:{ destruct Hend as [?|[Hi' ->]]; [lia|]. intros (? & ? & ? & ? & _ & _ & Htr). simplify_eq.
      destruct (lookup_lt_is_Some_2 _ _ Hi') as [l Hl]. revert Htr.
      apply (not_traced_between _ _ _ _ Hfall Heh _ _ _ _ _ _ Hw Hl); [|lia].
      destruct hashes; [done|simpl; lia]. }
  assert (i' = length (vsu_lockouts u)) as -> by lia.
  assert (vsu_lockouts u ≠ []) as Hne by (intros Hn; by rewrite Hn in Hlast).
  destruct (wk_found _ _ _ _ _ _ _ _ _ Hw eq_refl last Hlast) as [|(h & Hh & Hhs)]; [simpl in *; lia|].
  rewrite getN_nat, Hh. simpl. rewrite Hhs, N.eqb_refl. simpl.
  assert (h ∈ hashes) as Hin by by eapply list_elem_of_lookup_2.
  destruct (bool_decide (h.2 = vsu_hash u)) eqn:Hhash; simpl.
  - apply bool_decide_eq_true in Hhash. split.
    + exists last, (e, eh). split_and!; auto; [|by eapply walked_traced].
      by rewrite <-Hhs, <-Hhash, <-surjective_pairing.
    + exists (e, eh). split; [done|]. unfold trimmed. f_equal.
      rewrite (wk_filter _ _ _ _ _ _ _ _ _ Hw).
      apply (retain_votes_filter s (vsu_lockouts u) (e, eh) (vsu_lockouts u) 0). done.
  - apply bool_decide_eq_false in Hhash. intros (? & ? & ? & _ & _ & Hin' & _). simplify_eq.
    apply Hhash. by rewrite (falling_inj hashes h _ Hfall Hin Hin' Hhs).
Qed.
