(* ===== verification/VoteSync.v ===== *)
(** * Vote accounts and the towers of validators

    What the processing of a proposed tower guarantees, and that the tower a validator
    reaches by voting slot by slot is accepted as a whole. *)

From S2P Require Import Prelude Sdk InvokeContext VoteState VoteProcess VoteRules VoteUpdates VoteHistory.

(** ** Towers with the same lockouts *)
Lemma survives_lockouts l l' v : lockout <$> l = lockout <$> l' → survives l v → survives l' v.
Proof.
  intros Heq. assert (∀ w', w' ∈ l' → ∃ w, w ∈ l ∧ lockout w = lockout w') as Hback.
  { intros w' Hw'. assert (lockout w' ∈ lockout <$> l) as Hw by (rewrite Heq; by apply list_elem_of_fmap_2).
    apply list_elem_of_fmap in Hw as (w & ? & ?). eauto. }
  assert (∀ w, w ∈ l → ∃ w', w' ∈ l' ∧ lockout w' = lockout w) as Hfore.
  { intros w Hw. assert (lockout w ∈ lockout <$> l') as Hw' by (rewrite <-Heq; by apply list_elem_of_fmap_2).
    apply list_elem_of_fmap in Hw' as (w' & ? & ?). eauto. }
  unfold survives, lv_slot, lv_confirmation_count. intros [(w & Hw & Hs & Hc)|Hex].
  - left. destruct (Hfore w Hw) as (w' & Hw' & Hww). exists w'. by rewrite Hww.
  - right. intros w' Hw' Hle. destruct (Hback w' Hw') as (w & Hw & Hww). rewrite <-Hww in *. by apply Hex.
Qed.
Lemma takes_over_lockouts s l l' root : lockout <$> l = lockout <$> l' → takes_over s l root → takes_over s l' root.
Proof.
  intros Heq [Ht Hr Hv]. split; [by eapply tower_ok_lockouts|done|].
  intros v H1 H2. eapply survives_lockouts; eauto.
Qed.
Lemma landed_lockouts (l : list Lockout) : lockout <$> (landed_of_lockout <$> l) = l.
Proof. rewrite <-list_fmap_compose. induction l; simpl; by f_equal. Qed.

(** ** Proposed towers *)
Lemma trimmed_last s u hashes eh last :
  falling hashes → list.last hashes = Some eh → on_fork s u hashes → list.last (vsu_lockouts u) = Some last →
  list.last (vsu_lockouts (trimmed s u eh)) = Some last.
Proof.
  intros Hfall Heh (last' & eh' & Hl & He & _ & Hin & _) Hlast. rewrite Hlast in Hl. rewrite Heh in He. injection Hl as <-. injection He as <-.
  apply last_Some in Hlast as [k Hk]. unfold trimmed. simpl. rewrite Hk, list.filter_app, last_app.
  rewrite filter_cons_True; [done|]. intros [Hlt _].
  pose proof (earliest_least _ _ Hfall Heh _ Hin). simpl in *. lia.
Qed.

(** what a proposed tower is checked for *)
Definition acceptable (s : VoteState) (u : VoteStateUpdate) (hashes : list (N * Hash)) : Prop :=
  on_fork s u hashes ∧ ∀ eh, list.last hashes = Some eh →
    takes_over s (landed_of_lockout <$> vsu_lockouts (trimmed s u eh)) (vsu_root (trimmed s u eh)).

Lemma update_result s u hashes epoch slot features :
  tower_ok (root_slot s) (votes s) → falling hashes →
  match do_process_vote_state_update s hashes epoch slot u features with
  | Ok s' => acceptable s u hashes ∧ ∃ eh, list.last hashes = Some eh ∧
      taken_over s (landed_of_lockout <$> vsu_lockouts (trimmed s u eh)) (vsu_root (trimmed s u eh)) s'
  | Err e => acceptable s u hashes → e = VoteError.TimestampTooOld ∧ is_Some (vsu_timestamp u)
  | Panic => False
  end.
Proof.
  intros Hok Hfall. unfold do_process_vote_state_update.
  pose proof (check_update_spec s u hashes Hfall) as Hcheck.
  destruct (check_update_vote_state_slots_are_valid s u hashes) as [u'|e|]; simpl; [|by intros [? _]|done].
  destruct Hcheck as (Hon & eh & Heh & ->).
  pose proof (process_new_vote_state_spec s (landed_of_lockout <$> vsu_lockouts (trimmed s u eh))
    (vsu_root (trimmed s u eh)) (vsu_timestamp (trimmed s u eh)) epoch slot features Hok) as Hnew.
  assert (landed_of_lockout <$> vsu_lockouts (trimmed s u eh) ≠ []) as Hne.
  { pose proof Hon as (last & _ & Hl & _).
    pose proof (trimmed_last s u hashes eh last Hfall Heh Hon Hl) as Hlast.
    intros Hn%fmap_nil_inv. by rewrite Hn in Hlast. }
  specialize (Hnew Hne).
  destruct (process_new_vote_state _ _ _ _ _ _ _) as [s'|e|]; [|intros [_ Ht]; apply Hnew; auto|done].
  destruct Hnew as [Hto Htk]. split; [|eauto]. split; [done|]. intros eh' Heh'. by simplify_eq.
Qed.

(** the votes of a trimmed tower are on the fork, or older and known to the account *)
Lemma trimmed_on_fork s u hashes eh l :
  list.last hashes = Some eh → on_fork s u hashes → l ∈ vsu_lockouts (trimmed s u eh) →
  lk_slot l ∈ hashes.*1 ∨ contains_slot s (lk_slot l) = true.
Proof.
  intros Heh (last' & eh' & _ & He & _ & _ & Htr) [Hnot Hl]%list_elem_of_filter.
  rewrite Heh in He. injection He as <-. destruct (tr_known _ _ _ _ Htr l Hl) as [Hlt|]; [|by left].
  right. destruct (contains_slot s (lk_slot l)) eqn:Hc; [done|]. by destruct Hnot.
Qed.

(** C10: accepting a proposed tower rolls nothing back.  The new tower is well formed and
    its root is not behind the old one; every old vote above the new root is in the new
    tower with at least as many confirmations, or it had expired before each later vote
    of the new tower; the last vote is newer than before and stands in the slot hashes with
    the proposed hash; every vote is in the slot hashes or was in the tower before. *)
Theorem vote_update_never_rolls_back s hashes epoch slot u features s' :
  tower_ok (root_slot s) (votes s) → falling hashes →
  do_process_vote_state_update s hashes epoch slot u features = Ok s' →
  tower_ok (root_slot s') (votes s') ∧
  root_le (root_slot s) (root_slot s') ∧
  (∀ v, v ∈ votes s → uncovered (root_slot s') v → survives (votes s') v) ∧
  (∃ last, last_voted_slot s' = Some last ∧ (last, vsu_hash u) ∈ hashes ∧
     ∀ old, last_voted_slot s = Some old → old < last) ∧
  (∀ w, w ∈ votes s' → lv_slot w ∈ hashes.*1 ∨ contains_slot s (lv_slot w) = true).
Proof.
  intros Hok Hfall Hrun. pose proof (update_result s u hashes epoch slot features Hok Hfall) as Hres.
  rewrite Hrun in Hres. destruct Hres as ([Hon Hto] & eh & Heh & Htk). specialize (Hto eh Heh).
  destruct Htk as [Hlo Hro _ _ _ _ _]. rewrite <-Hro in Hto.
  destruct (takes_over_lockouts _ _ _ _ (eq_sym Hlo) Hto) as [Ht Hr Hv]. split_and!; auto.
  - pose proof Hon as (last & eh' & Hl & _ & Hnew & Hin & _). exists (lk_slot last). split_and!; [|done|].
    + unfold last_voted_slot, last_lockout. rewrite <-fmap_last, Hlo, landed_lockouts.
      by rewrite (trimmed_last s u hashes eh last).
    + unfold last_voted_slot, last_lockout. intros old. destruct (list.last (votes s)) as [v|]; [|done].
      intros [= <-]. by apply (Hnew v).
  - intros w Hw. apply (trimmed_on_fork s u hashes eh (lockout w)); [done..|].
    rewrite <-(landed_lockouts (vsu_lockouts _)), <-Hlo. by apply list_elem_of_fmap_2.
Qed.

(** C13: the checks on a proposed tower are exactly the specification.  The two passes over
    votes and slot hashes with their indexes accept a tower without a timestamp if and
    only if it lies on the fork of the slot hashes, is newer than the last vote, carries the
    hash of its last slot, and, without the votes too old to check, may take the
    place of the old tower; and whatever tower is proposed, they do not panic. *)
Theorem proposed_tower_accepted_exactly s hashes epoch slot u features :
  tower_ok (root_slot s) (votes s) → falling hashes → vsu_timestamp u = None →
  ((∃ s', do_process_vote_state_update s hashes epoch slot u features = Ok s') ↔ acceptable s u hashes) ∧
  do_process_vote_state_update s hashes epoch slot u features ≠ Panic.
Proof.
  intros Hok Hfall Hts. pose proof (update_result s u hashes epoch slot features Hok Hfall) as Hres.
  destruct (do_process_vote_state_update s hashes epoch slot u features) as [s'|e|]; [|split; [split|done]|done].
  - split; [|done]. split; [by intros _; destruct Hres|eauto].
  - by intros [? [=]].
  - intros Hacc. destruct (Hres Hacc) as [_ [? ?]]. congruence.
Qed.

(** ** Voting slot by slot *)
Definition vote_slots_on (epoch current_slot : N) (timely deprecate : bool) (slots : list N) (s : VoteState) : VoteState :=
  foldl (λ s slot, process_next_vote_slot slot epoch current_slot timely deprecate s) s slots.

(** where the votes and the root come from *)
Record stems (s0 : VoteState) (slots : list N) (s : VoteState) : Prop := {
  st_votes : ∀ w, w ∈ votes s → lv_slot w ∈ slots ∨ lv_slot w ∈ tower s0;
  st_root : ∀ r, root_slot s = Some r → r ∈ slots ∨ r ∈ tower s0 ∨ root_slot s0 = Some r }.

Lemma stems_next s0 slots slot epoch current_slot timely deprecate s :
  stems s0 slots s → slot ∈ slots →
  stems s0 slots (process_next_vote_slot slot epoch current_slot timely deprecate s).
Proof.
  intros [Hv Hr] Hslot. pose proof (next_vote_spec slot epoch current_slot timely deprecate s) as Hs.
  cbv zeta in Hs. destruct (ignored slot s); [by rewrite Hs|]. destruct Hs as [Hs1 Hs2]. split.
  - rewrite Hs1. intros w [->|(v & Hin%kept_votes_sub & ->)]%pushed_slots; [by left|by apply Hv].
  - rewrite Hs2. unfold next_root. destruct (pop_expired_prefix slot (votes s)) as [k Hk].
    destruct (pop_expired slot (votes s)) as [|v p]; [done|]. destruct (_ =? _); [|done].
    intros r [= <-]. destruct (Hv v); [rewrite Hk; by left|by left|by right; left].
Qed.
Lemma voted_result epoch current_slot timely deprecate s0 all slots s :
  continues s0 s → stems s0 all s → (∀ x, x ∈ slots → x ∈ all) →
  let s' := vote_slots_on epoch current_slot timely deprecate slots s in continues s0 s' ∧ stems s0 all s'.
Proof.
  revert s. induction slots as [|x slots IH]; intros s Hc Hst Hsub; [done|]. simpl. apply IH.
  - by apply continues_next.
  - apply stems_next; [done|]. apply Hsub. by left.
  - intros y Hy. apply Hsub. by right.
Qed.

(** the last slot only goes up *)
Lemma next_vote_last slot epoch current_slot timely deprecate s :
  ∃ b, last_voted_slot (process_next_vote_slot slot epoch current_slot timely deprecate s) = Some b ∧ slot ≤ b ∧
    ∀ a, last_voted_slot s = Some a → a ≤ b ∧ (a < slot → a < b).
Proof.
  pose proof (next_vote_spec slot epoch current_slot timely deprecate s) as Hs. cbv zeta in Hs. unfold ignored in Hs.
  destruct (last_voted_slot s) as [a|] eqn:Ha; [destruct (N.leb_spec slot a)|].
  - exists a. rewrite Hs. split; [done|]. split; [done|]. intros ? [= <-]. lia.
  - destruct Hs as [Hs _]. destruct (pushed_last (kept_votes slot (votes s)) (new_vote slot current_slot timely deprecate))
      as (w & Hw & Hws). exists slot. unfold last_voted_slot at 1, last_lockout. rewrite Hs, Hw. simpl.
    split; [by f_equal|]. split; [lia|]. intros ? [= <-]. lia.
  - destruct Hs as [Hs _]. destruct (pushed_last (kept_votes slot (votes s)) (new_vote slot current_slot timely deprecate))
      as (w & Hw & Hws). exists slot. unfold last_voted_slot at 1, last_lockout. rewrite Hs, Hw. simpl.
    split; [by f_equal|]. split; [lia|done].
Qed.
Lemma voted_last epoch current_slot timely deprecate slots : ∀ s a,
  last_voted_slot s = Some a →
  ∃ b, last_voted_slot (vote_slots_on epoch current_slot timely deprecate slots s) = Some b ∧ a ≤ b.
Proof.
  induction slots as [|x slots IH]; intros s a Ha; [exists a; by split|]. simpl.
  destruct (next_vote_last x epoch current_slot timely deprecate s) as (b & Hb & _ & Hab).
  destruct (IH _ _ Hb) as (c & Hc & Hbc). destruct (Hab a Ha). exists c. split; [done|lia].
Qed.
Lemma voted_last_new epoch current_slot timely deprecate slots s :
  slots ≠ [] → (∀ x v, x ∈ slots → v ∈ votes s → lv_slot v < x) →
  ∃ w, list.last (votes (vote_slots_on epoch current_slot timely deprecate slots s)) = Some w ∧
    ∀ v, list.last (votes s) = Some v → lv_slot v < lv_slot w.
Proof.
  intros Hne Hnew. destruct slots as [|x slots]; [done|]. simpl.
  destruct (next_vote_last x epoch current_slot timely deprecate s) as (b & Hb & _ & Hab).
  destruct (voted_last epoch current_slot timely deprecate slots _ _ Hb) as (c & Hc & Hbc).
  unfold last_voted_slot, last_lockout in Hc, Hab.
  destruct (list.last (votes (vote_slots_on _ _ _ _ slots _))) as [w|]; [|done]. simpl in Hc. injection Hc as Hc.
  exists w. split; [done|]. intros v Hv. rewrite Hv in Hab.
  destruct (Hab (lv_slot v) eq_refl) as [_ Hlt].
  specialize (Hlt (Hnew x v ltac:(by left) (last_elem _ _ Hv))). unfold lv_slot in *. lia.
Qed.

(** ** The tower of a validator on its fork *)

(** the tower of the account lies on the fork of the slot hashes *)
Definition account_on_fork (s : VoteState) (hashes : list (N * Hash)) (eh : N * Hash) : Prop :=
  (∀ x, x ∈ tower s → known hashes eh x) ∧ (∀ r, root_slot s = Some r → known hashes eh r).

Lemma contains_slot_tower s x :
  tower_ok (root_slot s) (votes s) → contains_slot s x = true ↔ x ∈ tower s.
Proof.
  intros Hok. unfold contains_slot, tower. rewrite list_elem_of_fmap.
  assert (search_sorted (λ v, lv_slot v ?= x) (votes s)) as Hs.
  { intros i j v w Hij Hv Hw. pose proof (stacked_slots _ _ _ _ _ (tw_stacked _ _ Hok) Hv Hw Hij).
    rewrite !N.compare_lt_iff, !N.compare_gt_iff. lia. }
  pose proof (binary_search_found _ _ Hs) as Hf. destruct (binary_search_by _ _) as [i|i]; split; try done.
  - intros _. destruct Hf as (v & Hv & Heq%N.compare_eq). exists v. split; [done|]. by eapply list_elem_of_lookup_2.
  - intros (v & -> & Hv). by destruct (Hf v Hv); apply N.compare_refl.
Qed.

(** a root the account knows is not adjusted *)
Lemma adjusted_root_known s hashes eh root :
  falling hashes → list.last hashes = Some eh → tower_ok (root_slot s) (votes s) →
  (∀ r, root = Some r → r ∈ hashes.*1 ∨ r ∈ tower s ∨ root_slot s = Some r) →
  adjusted_root s eh.1 root = root.
Proof.
  intros Hfall Heh Hok Hr. destruct root as [r|]; [|done]. simpl.
  destruct (N.ltb_spec r eh.1) as [Hlt|]; [|done]. pose proof (tw_stacked _ _ Hok) as Hst.
  destruct (list_find (λ v, lv_slot v ≤ r) (reverse (votes s))) as [[i v]|] eqn:Hfind.
  - apply list_find_Some in Hfind as (Hi & Hle & Hfirst). f_equal.
    assert (v ∈ votes s) as Hv by (rewrite <-elem_of_reverse; by eapply list_elem_of_lookup_2).
    destruct (Hr r eq_refl) as [(h & -> & Hh)%list_elem_of_fmap|[Ht|Hroot]].
    + pose proof (earliest_least _ _ Hfall Heh _ Hh). lia.
    + apply list_elem_of_fmap in Ht as (w & Hrw & Hw).
      destruct (N.lt_trichotomy (lv_slot v) (lv_slot w)) as [Hvw|[Hvw|Hvw]]; [|lia|lia]. exfalso.
      rewrite <-elem_of_reverse in Hw. apply list_elem_of_lookup in Hw as [j Hj].
      destruct (decide (j < i)%nat) as [Hji|Hji]; [specialize (Hfirst j w Hj Hji); lia|].
      assert (i ≠ j) by (intros ->; simplify_eq; lia).
      pose proof (lookup_lt_Some _ _ _ Hi) as Hil. pose proof (lookup_lt_Some _ _ _ Hj) as Hjl.
      rewrite length_reverse in Hil, Hjl. rewrite reverse_lookup in Hi, Hj by done.
      pose proof (stacked_slots _ _ _ _ _ Hst Hj Hi ltac:(lia)). lia.
    + pose proof (tw_above _ _ Hok) as Hab. rewrite list.Forall_forall in Hab. specialize (Hab v Hv).
      rewrite Hroot in Hab. destruct Hab; lia.
  - apply list_find_None in Hfind. rewrite list.Forall_forall in Hfind.
    destruct (Hr r eq_refl) as [(h & -> & Hh)%list_elem_of_fmap|[(w & Hrw & Hw)%list_elem_of_fmap|Hroot]].
    + pose proof (earliest_least _ _ Hfall Heh _ Hh). lia.
    + destruct (Hfind w); [by apply elem_of_reverse|lia].
    + done.
Qed.

(** ** The slots of a vote *)
Section vote_slots.
Context (s : VoteState) (slots : list N) (hashes : list (N * Hash)) (Hfall : falling hashes).

Definition fresh (x : N) : Prop := match last_voted_slot s with Some last => last < x | None => True end.
#[local] Instance fresh_dec x : Decision (fresh x).
Proof. unfold fresh. case_match; apply _. Defined.
Lemma fresh_spec x :
  match last_voted_slot s with Some last => x <=? last | None => false end = negb (bool_decide (fresh x)).
Proof.
  case_bool_decide as Hf; unfold fresh in Hf; destruct (last_voted_slot s); simpl; try done;
    [apply N.leb_gt|apply N.leb_le]; lia.
Qed.

(** after [i] slots, with the hashes before [j] to go *)
Record matched (i j : nat) : Prop := {
  mt_i : (i ≤ length slots)%nat;
  mt_j : (j ≤ length hashes)%nat;
  mt_found : ∀ x, x ∈ filter fresh (take i slots) → x ∈ hashes.*1;
  mt_rising : ∀ k a b, filter fresh (take i slots) !! k = Some a → filter fresh (take i slots) !! S k = Some b → a < b;
  mt_ahead : ∀ x k h, list.last (filter fresh (take i slots)) = Some x → (k < j)%nat → hashes !! k = Some h → x < h.1;
  mt_last : (∃ x, slots !! i = Some x ∧ fresh x) ∨ (filter fresh (take i slots) = [] ∧ j = length hashes) ∨
    ∃ h, hashes !! j = Some h ∧ list.last (filter fresh (take i slots)) = Some h.1 }.

Lemma matched_start : matched 0 (length hashes).
Proof. split; simpl; try done; try lia; [by intros x ?%elem_of_nil|]. right. by left. Qed.
Lemma matched_skip i j x : matched i j → slots !! i = Some x → ¬ fresh x → matched (S i) j.
Proof.
  intros [] Hx Hold. pose proof (lookup_lt_Some _ _ _ Hx).
  assert (filter fresh (take (S i) slots) = filter fresh (take i slots)) as Heq.
  { erewrite take_S_r by done. rewrite list.filter_app, filter_cons_False by done. by rewrite app_nil_r. }
  split; rewrite ?Heq; try done. right. destruct mt_last0 as [(y & Hy & Hf)|]; [congruence|done].
Qed.
Lemma matched_miss i j x : matched i (S j) → slots !! i = Some x → fresh x → matched i j.
Proof.
  intros [] Hx Hf. split; try done; [lia| |left; eauto]. intros y k h Hy Hk. apply mt_ahead0; auto.
Qed.
Lemma matched_hit i j x h : matched i (S j) → slots !! i = Some x → fresh x → hashes !! j = Some h → x = h.1 → matched (S i) j.
Proof.
  intros [] Hx Hf Hh Hxh. pose proof (lookup_lt_Some _ _ _ Hx).
  assert (filter fresh (take (S i) slots) = filter fresh (take i slots) ++ [x]) as Heq.
  { erewrite take_S_r by done. by rewrite list.filter_app, filter_cons_True by done. }
  split; rewrite ?Heq; try done; [lia|..].
  - intros y [Hy| ->%list_elem_of_singleton]%elem_of_app; [auto|]. rewrite Hxh.
    apply list_elem_of_fmap_2. by eapply list_elem_of_lookup_2.
  - intros k a b Ha Hb. pose proof (lookup_lt_Some _ _ _ Hb) as Hk. rewrite length_app in Hk. simpl in Hk.
    rewrite lookup_app_l in Ha by lia. destruct (decide (S k < length (filter fresh (take i slots)))%nat) as [Hlt|Hge].
    + rewrite lookup_app_l in Hb by done. by apply (mt_rising0 k).
    + rewrite lookup_app_r in Hb by lia. replace (S k - _)%nat with 0%nat in Hb by lia. injection Hb as <-. rewrite Hxh.
      apply (mt_ahead0 a j h); auto. rewrite last_lookup. rewrite <-Ha. f_equal. lia.
  - intros y k g. rewrite last_snoc. intros [= <-] Hk Hg. rewrite Hxh. by apply (Hfall k j).
  - right. right. exists h. rewrite last_snoc. split; [done|]. by f_equal.
Qed.

Lemma check_slots_loop_spec fuel : ∀ i j,
  matched i j → (length slots - i + j < fuel)%nat →
  ∃ i' j', check_slots_loop fuel s slots hashes (N.of_nat i) (N.of_nat j) = Ok (N.of_nat i', N.of_nat j') ∧
    matched i' j' ∧ (i' = length slots ∨ j' = 0%nat).
Proof.
  induction fuel as [|fuel IH]; intros i j Hm Hf; [lia|]. simpl.
  pose proof (mt_i _ _ Hm) as Hi. pose proof (mt_j _ _ Hm) as Hj.
  unfold len. destruct (N.ltb_spec (N.of_nat i) (N.of_nat (length slots))), (N.ltb_spec 0 (N.of_nat j)); simpl;
    try (exists i, j; split_and!; [done..|lia]).
  rewrite getN_nat. destruct (lookup_lt_is_Some_2 slots i ltac:(lia)) as [x Hx]. rewrite Hx. simpl.
  rewrite fresh_spec. case_bool_decide as Hfr; simpl.
  - destruct j as [|j]; [lia|]. replace (N.of_nat (S j) - 1) with (N.of_nat j) by lia. rewrite getN_nat.
    destruct (lookup_lt_is_Some_2 hashes j ltac:(lia)) as [h Hh]. rewrite Hh. cbn [unwrap rbind].
    destruct (N.eqb_spec x h.1) as [Heq|Hne]; cbn [negb].
    + replace (N.of_nat i + 1) with (N.of_nat (S i)) by lia. apply IH; [by eapply matched_hit|lia].
    + apply IH; [by eapply matched_miss|lia].
  - replace (N.of_nat i + 1) with (N.of_nat (S i)) by lia. apply IH; [by eapply matched_skip|lia].
Qed.

(** the slots above the last vote rise along the fork, and the hash is the one of the last *)
Lemma check_slots_sound vote_hash :
  match check_slots_are_valid s slots vote_hash hashes with
  | Ok _ => (∀ x, x ∈ filter fresh slots → x ∈ hashes.*1) ∧
      (∀ k a b, filter fresh slots !! k = Some a → filter fresh slots !! S k = Some b → a < b) ∧
      ∃ last, list.last (filter fresh slots) = Some last ∧ (last, vote_hash) ∈ hashes
  | Err _ => True
  | Panic => False
  end.
Proof.
  unfold check_slots_are_valid.
  destruct (check_slots_loop_spec (length slots + length hashes + 1) 0 (length hashes) matched_start) as (i & j & Hrun & Hm & _); [lia|].
  change (N.of_nat 0) with 0 in Hrun. fold (len hashes) in Hrun. rewrite Hrun. cbn [rbind]. unfold len.
  destruct (N.eqb_spec (N.of_nat j) (N.of_nat (length hashes))) as [|Hj]; [done|].
  destruct (N.eqb_spec (N.of_nat i) (N.of_nat (length slots))) as [Hi|]; [|done]. cbn [negb].
  destruct Hm as [_ Hjl Hfound Hrise _ Hlast]. rewrite getN_nat.
  rewrite firstn_all2 in Hfound, Hrise, Hlast by lia.
  destruct Hlast as [(x & Hx & _)|[[_ ?]|(h & Hh & Hl)]].
  - apply lookup_lt_Some in Hx. lia.
  - lia.
  - rewrite Hh. simpl. case_bool_decide as Hhash; [|done]. simpl. split_and!; [done..|].
    exists h.1. split; [done|]. rewrite <-Hhash, <-surjective_pairing. by eapply list_elem_of_lookup_2.
Qed.
End vote_slots.
#[export] Existing Instance fresh_dec.

(** slots that are not above the last vote change nothing *)
Lemma voted_fresh epoch current_slot timely deprecate s0 slots : ∀ s,
  (∀ a, last_voted_slot s0 = Some a → ∃ b, last_voted_slot s = Some b ∧ a ≤ b) →
  vote_slots_on epoch current_slot timely deprecate slots s =
  vote_slots_on epoch current_slot timely deprecate (filter (fresh s0) slots) s.
Proof.
  induction slots as [|x slots IH]; intros s Hs; [done|]. rewrite filter_cons.
  destruct (decide (fresh s0 x)) as [Hf|Hf]; simpl.
  - apply IH. intros a Ha. destruct (Hs a Ha) as (b & Hb & Hab).
    destruct (next_vote_last x epoch current_slot timely deprecate s) as (c & Hc & _ & Hbc).
    destruct (Hbc b Hb). exists c. split; [done|lia].
  - rewrite <-IH by done. f_equal. unfold fresh in Hf. destruct (last_voted_slot s0) as [a|]; [|done].
    destruct (Hs a eq_refl) as (b & Hb & Hab). unfold process_next_vote_slot. rewrite Hb.
    by rewrite (proj2 (N.leb_le x b)) by lia.
Qed.
(** rising slots end with the last of them *)
Lemma voted_rising_last epoch current_slot timely deprecate slots : ∀ s last,
  (∀ k a b, slots !! k = Some a → slots !! S k = Some b → a < b) →
  (∀ a x, last_voted_slot s = Some a → head slots = Some x → a < x) → list.last slots = Some last →
  last_voted_slot (vote_slots_on epoch current_slot timely deprecate slots s) = Some last.
Proof.
  induction slots as [|x slots IH]; intros s last Hrise Hnew Hlast; [done|]. simpl.
  assert (last_voted_slot (process_next_vote_slot x epoch current_slot timely deprecate s) = Some x) as Hx.
  { pose proof (next_vote_spec x epoch current_slot timely deprecate s) as Hs. cbv zeta in Hs.
    assert (ignored x s = false) as Hi.
    { unfold ignored. destruct (last_voted_slot s) as [a|]; [|done]. apply N.leb_gt. by apply Hnew. }
    rewrite Hi in Hs. destruct Hs as [Hs _].
    destruct (pushed_last (kept_votes x (votes s)) (new_vote x current_slot timely deprecate)) as (w & Hw & Hws).
    unfold last_voted_slot, last_lockout. rewrite Hs, Hw. simpl. by f_equal. }
  destruct slots as [|y slots]; [by simplify_eq/=|]. apply IH.
  - intros k a b Ha Hb. by apply (Hrise (S k)).
  - intros a z Ha [= <-]. rewrite Hx in Ha. injection Ha as <-. by apply (Hrise 0%nat).
  - by rewrite last_cons_cons in Hlast.
Qed.

(** the tower of [s1] proposed for the account [s] *)
Lemma synced_on_fork s hashes eh slots s1 h :
  falling hashes → list.last hashes = Some eh → tower_ok (root_slot s) (votes s) → account_on_fork s hashes eh →
  (∀ x, x ∈ slots → x ∈ hashes.*1) → tower_ok (root_slot s1) (votes s1) → stems s slots s1 →
  (∀ v, list.last (votes s) = Some v → ∀ w, list.last (votes s1) = Some w → lv_slot v < lv_slot w) →
  (∃ last, last_voted_slot s1 = Some last ∧ (last, h) ∈ hashes) →
  let u := mkVoteStateUpdate (lockout <$> votes s1) (root_slot s1) h None in
  on_fork s u hashes ∧ trimmed s u eh = u.
Proof.
  intros Hfall Heh Hok [Hacc Haccr] Hslots Hok1 [Hstv Hstr] Hlast (last & Hl & Hin) u.
  assert (adjusted_root s eh.1 (root_slot s1) = root_slot s1) as Hroot.
  { apply (adjusted_root_known s hashes eh); auto. intros r Hr. destruct (Hstr r Hr) as [|[|]]; auto. }
  assert (∀ x, x ∈ hashes.*1 → known hashes eh x) as Hk by (intros x Hx; by right).
  split.
  - unfold last_voted_slot, last_lockout in Hl. destruct (list.last (votes s1)) as [w|] eqn:Hw; [|done].
    simpl in Hl. injection Hl as Hl. exists (lockout w), eh. simpl. split_and!; auto.
    + by rewrite fmap_last, Hw.
    + intros v Hv. by apply (Hlast v Hv w).
    + by rewrite Hl.
    + rewrite Hroot. split.
      * intros k a b. rewrite !list_lookup_fmap. intros (v & Hv & ->)%fmap_Some_1 (y & Hy & ->)%fmap_Some_1.
        by apply (tw_stacked _ _ Hok1 k v y).
      * intros l (v & -> & Hv)%list_elem_of_fmap. destruct (Hstv v Hv); auto.
      * intros r Hr. split; [destruct (Hstr r Hr) as [|[|]]; auto|].
        intros He l (v & -> & Hv)%list_elem_of_fmap. pose proof (tw_above _ _ Hok1) as Hab.
        rewrite list.Forall_forall in Hab. specialize (Hab v Hv). rewrite Hr in Hab.
        unfold above, lv_slot in Hab. lia.
  - unfold trimmed, u. simpl. rewrite Hroot. f_equal. apply filter_all. apply list.Forall_forall.
    intros l (v & -> & Hv)%list_elem_of_fmap [Hlt Hc]. destruct (Hstv v Hv) as [Hs|Ht].
    + apply Hslots, list_elem_of_fmap in Hs as (g & Hg & Hgin).
      pose proof (earliest_least _ _ Hfall Heh g Hgin). unfold lv_slot in *. lia.
    + apply (contains_slot_tower _ _ Hok) in Ht. unfold lv_slot in *. congruence.
Qed.

(** C12: the two ways to vote agree.  On a vote account that lies on the fork, let a vote be
    accepted; then the tower it gives, proposed as a tower with the hash of the vote,
    is accepted as well, and gives the same lockouts and the same root. *)
Theorem vote_and_tower_agree s hashes eh vote epoch current_slot timely deprecate s1 epoch' slot features :
  tower_ok (root_slot s) (votes s) → falling hashes → list.last hashes = Some eh → account_on_fork s hashes eh →
  process_vote s vote hashes epoch current_slot timely deprecate = Ok s1 →
  ∃ s2, do_process_vote_state_update s hashes epoch' slot
          (mkVoteStateUpdate (lockout <$> votes s1) (root_slot s1) (vote_hash vote) None) features = Ok s2 ∧
    lockout <$> votes s2 = lockout <$> votes s1 ∧ root_slot s2 = root_slot s1.
Proof.
  intros Hok Hfall Heh Hacc. unfold process_vote, process_vote_unfiltered.
  case_bool_decide; [done|]. case_bool_decide; [done|]. set (slots := filter _ (vote_slots vote)).
  pose proof (check_slots_sound s slots hashes Hfall (vote_hash vote)) as Hcheck.
  destruct (check_slots_are_valid s slots (vote_hash vote) hashes) as [[]| |]; [|done..].
  destruct Hcheck as (Hfound & Hrise & last & Hlast & Hhash). cbn [rbind]. intros [= Hs1].
  change (vote_slots_on epoch current_slot timely deprecate slots s = s1) in Hs1.
  rewrite (voted_fresh _ _ _ _ s) in Hs1 by eauto. set (fs := filter (fresh s) slots) in *.
  destruct (voted_result epoch current_slot timely deprecate s fs fs s) as [Hco Hst]; [by apply continues_refl|..|done|].
  { split; [|auto]. intros w Hw. right. by apply list_elem_of_fmap_2. }
  rewrite Hs1 in Hco, Hst.
  assert (∀ a x, last_voted_slot s = Some a → x ∈ fs → a < x) as Hnew.
  { intros a x Ha [Hf _]%list_elem_of_filter. unfold fresh in Hf. by rewrite Ha in Hf. }
  assert (last_voted_slot s1 = Some last) as Hl1.
  { rewrite <-Hs1. apply voted_rising_last; auto. intros a x Ha Hx. apply (Hnew a x Ha). destruct fs; simplify_eq/=. by left. }
  destruct (synced_on_fork s hashes eh fs s1 (vote_hash vote)) as [Hon Htrim]; auto; [by destruct Hco| |by eauto|].
  { intros v Hv w Hw. unfold last_voted_slot, last_lockout in Hl1, Hnew. rewrite Hw in Hl1. rewrite Hv in Hnew.
    injection Hl1 as Hl1. apply last_elem in Hlast. specialize (Hnew (lv_slot v) last eq_refl Hlast).
    unfold lv_slot in *. lia. }
  set (u := mkVoteStateUpdate _ _ _ _) in *. assert (acceptable s u hashes) as Ha.
  { split; [done|]. intros eh' Heh'. rewrite Heh in Heh'. injection Heh' as <-. rewrite Htrim.
    apply (takes_over_lockouts s (votes s1)); [by rewrite landed_lockouts|]. by apply continues_takes_over. }
  pose proof (update_result s u hashes epoch' slot features Hok Hfall) as Hres.
  destruct (do_process_vote_state_update s hashes epoch' slot u features) as [s2|e|]; [| |done].
  - destruct Hres as (_ & eh' & Heh' & Htk). rewrite Heh in Heh'. injection Heh' as <-. rewrite Htrim in Htk.
    exists s2. split; [done|]. destruct Htk as [Hlo Hro _ _ _ _ _]. by rewrite landed_lockouts in Hlo.
  - destruct (Hres Ha) as [_ [? [=]]].
Qed.
