(* ===== verification/VoteProgram.v ===== *)
(** * The vote program ([programs/vote/src/])

    The instructions on vote accounts ([vote_state/mod.rs]) and the entrypoint that dispatches
    to them ([vote_processor.rs]), with the instruction type of
    [sdk/program/src/vote/instruction.rs]. *)

From S2P Require Import Prelude Sdk Rent EpochSchedule Account TransactionContext LogCollector InvokeContext.
From S2P Require Import SystemProgram VoteState VoteProcess.

Record VoteAuthorizeWithSeedArgs := mkVoteAuthorizeWithSeedArgs {
  authorization_type : VoteAuthorize;
  current_authority_derived_key_owner : Pubkey;
  current_authority_derived_key_seed : list N;
  new_authority : Pubkey }.
Record VoteAuthorizeCheckedWithSeedArgs := mkVoteAuthorizeCheckedWithSeedArgs {
  checked_authorization_type : VoteAuthorize;
  checked_derived_key_owner : Pubkey;
  checked_derived_key_seed : list N }.

Inductive VoteInstruction :=
| VInitializeAccount (vote_init : VoteInit)
| VAuthorize (voter_pubkey : Pubkey) (vote_authorize : VoteAuthorize)
| VVote (vote : Vote)
| VWithdraw (lamports : N)
| UpdateValidatorIdentity
| UpdateCommission (commission : N)
| VoteSwitch (vote : Vote) (hash : Hash)
| AuthorizeChecked (vote_authorize : VoteAuthorize)
| UpdateVoteState (update : VoteStateUpdate)
| UpdateVoteStateSwitch (update : VoteStateUpdate) (hash : Hash)
| AuthorizeWithSeed (args : VoteAuthorizeWithSeedArgs)
| AuthorizeCheckedWithSeed (args : VoteAuthorizeCheckedWithSeedArgs)
| CompactUpdateVoteState (update : VoteStateUpdate)
| CompactUpdateVoteStateSwitch (update : VoteStateUpdate) (hash : Hash).

Definition is_simple_vote (i : VoteInstruction) : bool :=
  match i with
  | VVote _ | VoteSwitch _ _ | UpdateVoteState _ | UpdateVoteStateSwitch _ _ | CompactUpdateVoteState _
  | CompactUpdateVoteStateSwitch _ _ => true
  | _ => false
  end.
Definition is_single_vote_state_update (i : VoteInstruction) : bool :=
  match i with
  | UpdateVoteState _ | UpdateVoteStateSwitch _ _ | CompactUpdateVoteState _
  | CompactUpdateVoteStateSwitch _ _ => true
  | _ => false
  end.
Definition vi_last_voted_slot {E} (i : VoteInstruction) : result E (option N) :=
  match i with
  | VVote v | VoteSwitch v _ => Ok (vote_last_voted_slot v)
  | UpdateVoteState u | UpdateVoteStateSwitch u _ | CompactUpdateVoteState u
  | CompactUpdateVoteStateSwitch u _ => Ok (vsu_last_voted_slot u)
  | _ => Panic
  end.
Definition vi_timestamp {E} (i : VoteInstruction) : result E (option Z) :=
  match i with
  | VVote v | VoteSwitch v _ => Ok (vote_timestamp v)
  | UpdateVoteState u | UpdateVoteStateSwitch u _ | CompactUpdateVoteState u
  | CompactUpdateVoteStateSwitch u _ => Ok (vsu_timestamp u)
  | _ => Panic
  end.

Definition is_commission_increase (s : VoteState) (commission_ : N) : bool := commission s <? commission_.
Definition is_commission_update_allowed (slot : N) (schedule : EpochSchedule) : bool :=
  if slots_per_epoch schedule =? 0 then true else
  let relative_slot := saturating_sub slot (first_normal_slot schedule) `mod` slots_per_epoch schedule in
  saturating_mul relative_slot 2 <=? slots_per_epoch schedule.
Definition verify_authorized_signer (authorized : Pubkey) (signers : gset Pubkey) : result InstructionError unit :=
  if bool_decide (authorized ∈ signers) then Ok tt else Err MissingRequiredSignature.
(** the slots of a vote, [iter().max()] *)
Definition max_slot (slots : list N) : option N :=
  match slots with [] => None | slot :: rest => Some (foldl N.max slot rest) end.

Section program.
Context `{PubkeyDisplay, Sha256, !Bincode VoteStateVersions, !Bincode VoteInstruction}.

Definition active (id : Pubkey) : IC bool := gets (λ s, is_active (feature_set s) id).

(** a resize that fails is not an error *)
Definition set_vote_account_state (account : BorrowedAccount) (s : VoteState) : IC unit :=
  add_vote_latency <- active vote_state_add_vote_latency_id ;;
  if negb add_vote_latency then on_tc (ba_set_state account (V1_14_11 (vote_state_to_1_14_11 s))) else
  a <- on_tc (ba_account account) ;;
  too_small <-
    (if len (data a) <? vote_state_size_of true then
       exempt <- on_tc (ba_is_rent_exempt_at_data_length account (vote_state_size_of true)) ;;
       if negb exempt then ret true else
       resized <- observe (on_tc (ba_set_data_length account (vote_state_size_of true))) ;;
       ret (negb (is_ok resized))
     else ret false) ;;
  if too_small : bool then on_tc (ba_set_state account (V1_14_11 (vote_state_to_1_14_11 s)))
  else on_tc (ba_set_state account (VCurrentVote s)).

(** [get_state::<VoteStateVersions>()?.convert_to_current()] *)
Definition get_vote_state (account : BorrowedAccount) : IC VoteState :=
  versioned <- on_tc (ba_get_state account) ;;
  ret (convert_to_current versioned).

Definition vote_authorize_account (account : BorrowedAccount) (authorized : Pubkey) (vote_authorize : VoteAuthorize)
    (signers : gset Pubkey) (clock : Clock) : IC unit :=
  s <- get_vote_state account ;;
  s <- lift (match vote_authorize with
             | Voter =>
                 let authorized_withdrawer_signer :=
                   is_ok (verify_authorized_signer (authorized_withdrawer s) signers) in
                 let! target_epoch := unwrap (checked_add u64_max (leader_schedule_epoch clock) 1) in
                 set_new_authorized_voter authorized (clock_epoch clock) target_epoch
                   (λ epoch_authorized_voter,
                      if authorized_withdrawer_signer then Ok tt
                      else verify_authorized_signer epoch_authorized_voter signers) s
             | Withdrawer =>
                 check! verify_authorized_signer (authorized_withdrawer s) signers in
                 Ok (set_authorized_withdrawer authorized s)
             end) ;;
  set_vote_account_state account s.

Definition update_validator_identity (account : BorrowedAccount) (node : Pubkey) (signers : gset Pubkey) : IC unit :=
  s <- get_vote_state account ;;
  lift (verify_authorized_signer (authorized_withdrawer s) signers) ;;
  lift (verify_authorized_signer node signers) ;;
  set_vote_account_state account (set_node_pubkey node s).

Definition update_commission (account : BorrowedAccount) (commission_ : N) (signers : gset Pubkey)
    (schedule : EpochSchedule) (clock : Clock) : IC unit :=
  decrease_any_time <- active allow_commission_decrease_at_any_time_id ;;
  enforce_commission_update_rule <-
    (if decrease_any_time : bool then
       decoded <- observe (get_vote_state account) ;;
       ret (match decoded with Ok s => is_commission_increase s commission_ | _ => true end)
     else ret true) ;;
  first_half <- active commission_updates_only_allowed_in_first_half_of_epoch_id ;;
  if enforce_commission_update_rule && first_half &&
     negb (is_commission_update_allowed (clock_slot clock) schedule)
  then lift (from_vote_error (Err VoteError.CommissionUpdateTooLate)) else
  s <- get_vote_state account ;;
  lift (verify_authorized_signer (authorized_withdrawer s) signers) ;;
  set_vote_account_state account (set_commission commission_ s).

Definition vote_withdraw (ic : InstructionContext) (vote_account_index amount to_account_index : N)
    (signers : gset Pubkey) (r : Rent) (clock : Clock) : IC unit :=
  ic_with_account (try_borrow_instruction_account ic vote_account_index) (λ vote_account,
    s <- get_vote_state vote_account ;;
    lift (verify_authorized_signer (authorized_withdrawer s) signers) ;;
    a <- on_tc (ba_account vote_account) ;;
    remaining_balance <- lift (ok_or (checked_sub (lamports a) amount) InsufficientFunds) ;;
    (if remaining_balance =? 0 then
       let reject_active_vote_account_close :=
         match list.last (epoch_credits s) with
         | Some x => saturating_sub (clock_epoch clock) x.1.1 <? 2
         | None => false
         end in
       if reject_active_vote_account_close
       then lift (from_vote_error (Err VoteError.ActiveVoteAccountClose))
       else set_vote_account_state vote_account vote_state_default
     else
       if remaining_balance <? minimum_balance r (len (data a)) then throw InsufficientFunds else ret tt) ;;
    on_tc (ba_checked_sub_lamports vote_account amount)) ;;
  ic_with_account (try_borrow_instruction_account ic to_account_index) (λ to_account,
    on_tc (ba_checked_add_lamports to_account amount)).

Definition vote_initialize_account (account : BorrowedAccount) (vote_init : VoteInit) (signers : gset Pubkey)
    (clock : Clock) : IC unit :=
  a <- on_tc (ba_account account) ;;
  add_vote_latency <- active vote_state_add_vote_latency_id ;;
  if negb (len (data a) =? vote_state_size_of add_vote_latency) then throw InvalidAccountData else
  versioned <- on_tc (ba_get_state account) ;;
  if negb (is_uninitialized versioned) then throw AccountAlreadyInitialized else
  lift (verify_authorized_signer (init_node_pubkey vote_init) signers) ;;
  set_vote_account_state account (vote_state_new vote_init clock).

Definition verify_and_get_vote_state (account : BorrowedAccount) (clock : Clock) (signers : gset Pubkey) :
  IC VoteState :=
  versioned <- on_tc (ba_get_state account) ;;
  if is_uninitialized versioned then throw UninitializedAccount else
  updated <- lift (get_and_update_authorized_voter (clock_epoch clock) (convert_to_current versioned)) ;;
  let '(authorized_voter, s) := updated in
  lift (verify_authorized_signer authorized_voter signers) ;;
  ret s.

Definition process_vote_with_account (account : BorrowedAccount) (slot_hashes : list (N * Hash)) (clock : Clock)
    (vote : Vote) (signers : gset Pubkey) : IC unit :=
  s <- verify_and_get_vote_state account clock signers ;;
  timely_vote_credits <- active timely_vote_credits_id ;;
  deprecate_unused_legacy_vote_plumbing <- active deprecate_unused_legacy_vote_plumbing_id ;;
  s <- lift (from_vote_error
         (let! s := process_vote s vote slot_hashes (clock_epoch clock) (clock_slot clock) timely_vote_credits
                      deprecate_unused_legacy_vote_plumbing in
          match vote_timestamp vote with
          | Some timestamp =>
              let! slot := ok_or (max_slot (vote_slots vote)) VoteError.EmptySlots in
              process_timestamp slot timestamp s
          | None => Ok s
          end)) ;;
  set_vote_account_state account s.

Definition process_vote_state_update (account : BorrowedAccount) (slot_hashes : list (N * Hash)) (clock : Clock)
    (update : VoteStateUpdate) (signers : gset Pubkey) : IC unit :=
  s <- verify_and_get_vote_state account clock signers ;;
  features <- gets feature_set ;;
  s <- lift (from_vote_error (do_process_vote_state_update s slot_hashes (clock_epoch clock) (clock_slot clock)
                                update (Some features))) ;;
  set_vote_account_state account s.

(** ** The entrypoint *)
Definition process_authorize_with_seed_instruction (ic : InstructionContext) (vote_account : BorrowedAccount)
    (new_authority_ : Pubkey) (authorization_type_ : VoteAuthorize) (derived_key_owner : Pubkey)
    (derived_key_seed : list N) : IC unit :=
  clock <- clock_with_account_check ic 1 ;;
  is_signer <- lift (is_instruction_account_signer ic 2) ;;
  expected_authority_keys <-
    (if is_signer : bool then
       base_pubkey <- key_of_instruction_account ic 2 ;;
       derived <- lift (from_pubkey_error (create_with_seed base_pubkey derived_key_seed derived_key_owner)) ;;
       ret ({[derived]} : gset Pubkey)
     else ret ∅) ;;
  vote_authorize_account vote_account new_authority_ authorization_type_ expected_authority_keys clock.

(** the instructions that keep the borrow of the vote account; [Withdraw] drops it and
    gives what it goes on with *)
Definition vote_dispatch (ic : InstructionContext) (me : BorrowedAccount) (signers : gset Pubkey)
    (instruction : VoteInstruction) : IC (option (N * Rent * Clock)) :=
  let done_ (m : IC unit) : IC (option (N * Rent * Clock)) := (m ;; ret None) in
  let update (u : VoteStateUpdate) : IC unit :=
    slot_hashes <- asks (λ s, get_slot_hashes (sysvar_cache s)) ;;
    clock <- asks (λ s, get_clock (sysvar_cache s)) ;;
    process_vote_state_update me slot_hashes clock u signers in
  match instruction with
  | VInitializeAccount vote_init =>
      done_ (r <- rent_with_account_check ic 1 ;;
             a <- on_tc (ba_account me) ;;
             if negb (is_exempt r (lamports a) (len (data a))) then throw InsufficientFunds else
             clock <- clock_with_account_check ic 2 ;;
             vote_initialize_account me vote_init signers clock)
  | VAuthorize voter_pubkey vote_authorize =>
      done_ (clock <- clock_with_account_check ic 1 ;;
             vote_authorize_account me voter_pubkey vote_authorize signers clock)
  | AuthorizeWithSeed args =>
      done_ (at_least ic 3 ;;
             process_authorize_with_seed_instruction ic me (new_authority args) (authorization_type args)
               (current_authority_derived_key_owner args) (current_authority_derived_key_seed args))
  | AuthorizeCheckedWithSeed args =>
      done_ (at_least ic 4 ;;
             new_authority_ <- key_of_instruction_account ic 3 ;;
             is_signer <- lift (is_instruction_account_signer ic 3) ;;
             if negb is_signer then throw MissingRequiredSignature else
             process_authorize_with_seed_instruction ic me new_authority_ (checked_authorization_type args)
               (checked_derived_key_owner args) (checked_derived_key_seed args))
  | UpdateValidatorIdentity =>
      done_ (at_least ic 2 ;;
             node <- key_of_instruction_account ic 1 ;;
             update_validator_identity me node signers)
  | UpdateCommission commission_ =>
      done_ (schedule <- asks (λ s, get_epoch_schedule (sysvar_cache s)) ;;
             clock <- asks (λ s, get_clock (sysvar_cache s)) ;;
             update_commission me commission_ signers schedule clock)
  | VVote vote | VoteSwitch vote _ =>
      done_ (slot_hashes <- slot_hashes_with_account_check ic 1 ;;
             clock <- clock_with_account_check ic 2 ;;
             process_vote_with_account me slot_hashes clock vote signers)
  | UpdateVoteState u | UpdateVoteStateSwitch u _ => done_ (update u)
  | CompactUpdateVoteState u | CompactUpdateVoteStateSwitch u _ => done_ (update u)
  | VWithdraw amount =>
      at_least ic 2 ;;
      r <- asks (λ s, get_rent (sysvar_cache s)) ;;
      clock <- asks (λ s, get_clock (sysvar_cache s)) ;;
      ret (Some (amount, r, clock))
  | AuthorizeChecked vote_authorize =>
      done_ (at_least ic 4 ;;
             voter_pubkey <- key_of_instruction_account ic 3 ;;
             is_signer <- lift (is_instruction_account_signer ic 3) ;;
             if negb is_signer then throw MissingRequiredSignature else
             clock <- clock_with_account_check ic 1 ;;
             vote_authorize_account me voter_pubkey vote_authorize signers clock)
  end.

Definition VOTE_COMPUTE_UNITS : N := 2100.
Definition vote_process_instruction : IC unit :=
  ic <- asks_tc get_current_instruction_context ;;
  x <- with_instruction_account ic 0 (λ me,
    a <- on_tc (ba_account me) ;;
    if negb (key_eqb (owner a) vote_program_id) then throw InvalidAccountOwner else
    signers <- asks_tc (get_signers ic) ;;
    instruction <- lift (limited_deserialize (instruction_data ic)) ;;
    withdrawal <- vote_dispatch ic me signers instruction ;;
    ret (signers, withdrawal)) ;;
  match x with
  | (signers, Some (amount, r, clock)) => vote_withdraw ic 0 amount 1 signers r clock
  | (_, None) => ret tt
  end.
Definition vote_entrypoint : program := declare_process_instruction VOTE_COMPUTE_UNITS vote_process_instruction.
End program.
