(* ===== verification/VoteControl.v ===== *)
(** * What the vote program does to a vote account

    A specification of the program as steps on vote states, each with the signature it
    asks for, and the proof that every successful instruction is one of them.  The program is
    lawful, so the theorems about invocations apply to it. *)

From S2P Require Import Prelude Sdk Rent EpochSchedule Account TransactionContext AccountRules InstructionRules.
From S2P Require Import LogCollector InvokeContext InvokeRules Nonce SystemProgram Effects SystemProgramRules.
From S2P Require Import LookupTable LookupTableRules VoteState VoteProcess VoteRules VoteUpdates VoteHistory VoteSync.
From S2P Require Import VoteProgram.

(** ** Lawfulness *)
Section frames.
Context `{PubkeyDisplay, Sha256, !Bincode VoteStateVersions, !Bincode VoteInstruction}.
Context (ic : InstructionContext).

Abbreviation ok m := (steps_in (running ic) (ic_frame ic) m).

Lemma clock_frame i : ok (clock_with_account_check ic i).
Proof. unfold clock_with_account_check. frame_solve. Qed.
Lemma slot_hashes_frame i : ok (slot_hashes_with_account_check ic i).
Proof. unfold slot_hashes_with_account_check. frame_solve. Qed.
Lemma active_frame id : ok (active id).
Proof. unfold active. frame_solve. Qed.
#[local] Hint Resolve clock_frame slot_hashes_frame active_frame rent_frame key_of_frame at_least_frame : frame.

Section handle.
Context (ba : BorrowedAccount) (Hba : handle_in ic ba).

Lemma rent_exempt_frame n : ok (on_tc (ba_is_rent_exempt_at_data_length ba n)).
Proof.
  apply (handle_op_frame _ ic ba Hba). intros t.
  assert ((ba_is_rent_exempt_at_data_length ba n t).2 = t) as ->; [|apply tc_frame_refl; apply _].
  unfold ba_is_rent_exempt_at_data_length, ba_account, asks, bind. by destruct (unwrap _).
Qed.
#[local] Hint Resolve rent_exempt_frame : frame.
Lemma set_vote_account_state_frame s : ok (set_vote_account_state ba s).
Proof. unfold set_vote_account_state. frame_solve. Qed.
#[local] Hint Resolve set_vote_account_state_frame : frame.
Lemma get_vote_state_frame : ok (get_vote_state ba).
Proof. unfold get_vote_state. frame_solve. Qed.
#[local] Hint Resolve get_vote_state_frame : frame.
Lemma vote_authorize_frame k a sg c : ok (vote_authorize_account ba k a sg c).
Proof. unfold vote_authorize_account. frame_solve. Qed.
Lemma update_identity_frame k sg : ok (update_validator_identity ba k sg).
Proof. unfold update_validator_identity. frame_solve. Qed.
Lemma update_commission_frame n sg e c : ok (update_commission ba n sg e c).
Proof. unfold update_commission. frame_solve. Qed.
Lemma vote_initialize_frame i sg c : ok (vote_initialize_account ba i sg c).
Proof. unfold vote_initialize_account. frame_solve. Qed.
Lemma verify_and_get_frame c sg : ok (verify_and_get_vote_state ba c sg).
Proof. unfold verify_and_get_vote_state. frame_solve. Qed.
#[local] Hint Resolve verify_and_get_frame : frame.
Lemma process_vote_frame h c v sg : ok (process_vote_with_account ba h c v sg).
Proof. unfold process_vote_with_account. frame_solve. Qed.
Lemma process_update_frame h c u sg : ok (process_vote_state_update ba h c u sg).
Proof. unfold process_vote_state_update. frame_solve. Qed.
#[local] Hint Resolve vote_authorize_frame update_identity_frame update_commission_frame vote_initialize_frame
  process_vote_frame process_update_frame : frame.
Lemma authorize_with_seed_frame k a o sd : ok (process_authorize_with_seed_instruction ic ba k a o sd).
Proof. unfold process_authorize_with_seed_instruction. frame_solve. Qed.
#[local] Hint Resolve authorize_with_seed_frame : frame.
Lemma vote_dispatch_frame sg instruction : ok (vote_dispatch ic ba sg instruction).
Proof. unfold vote_dispatch. cbv zeta. destruct instruction; frame_solve. Qed.
End handle.

Context (Hsm : ic_small ic).
#[local] Hint Resolve vote_dispatch_frame set_vote_account_state_frame get_vote_state_frame : frame.
#[local] Hint Extern 2 (steps_in _ _ (ic_with_account _ _)) =>
  (apply ic_with_handle_frame; [exact Hsm|intros ? ?; frame_solve]) : frame.
#[local] Hint Extern 2 (steps_in _ _ (with_instruction_account _ _ _)) =>
  (unfold with_instruction_account) : frame.
Lemma vote_withdraw_frame i n j sg r c : ok (vote_withdraw ic i n j sg r c).
Proof. unfold vote_withdraw. frame_solve. Qed.
#[local] Hint Resolve vote_withdraw_frame : frame.
Lemma vote_process_instruction_frame : ok vote_process_instruction.
Proof. apply steps_current; [done|]. frame_solve. Qed.
End frames.

Lemma vote_lawful `{PubkeyDisplay, Sha256, !Bincode VoteStateVersions, !Bincode VoteInstruction} ic :
  lawful ic vote_entrypoint.
Proof. apply declared_lawful. intros ic'. apply steps_small. intros Hsm. by apply vote_process_instruction_frame. Qed.

(** ** The specification *)

(** a vote state as the older format keeps it, without latencies *)
Definition forget_latency (s : VoteState) : VoteState := set_votes (landed_of_lockout <$> (lockout <$> votes s)) s.
Definition stored_as (v : VoteStateVersions) (s : VoteState) : Prop :=
  convert_to_current v = s ∨ convert_to_current v = forget_latency s.

(** the steps, with the sysvars and the features of the bank and the keys that signed *)
Inductive vote_step (cache : SysvarCache) (features : gset Pubkey) (signed : Pubkey → Prop) (v : VoteStateVersions) :
  VoteState → Prop :=
| StepInitialize vote_init clock :
    sc_clock cache = Some clock → is_uninitialized v = true → signed (init_node_pubkey vote_init) →
    vote_step cache features signed v (vote_state_new vote_init clock)
| StepVote clock hashes voter s1 vote s2 s3 :
    sc_clock cache = Some clock → sc_slot_hashes cache = Some hashes → is_uninitialized v = false →
    get_and_update_authorized_voter (clock_epoch clock) (convert_to_current v) = Ok (voter, s1) → signed voter →
    process_vote s1 vote hashes (clock_epoch clock) (clock_slot clock) (is_active features timely_vote_credits_id)
      (is_active features deprecate_unused_legacy_vote_plumbing_id) = Ok s2 →
    (vote_timestamp vote = None ∧ s3 = s2 ∨
     ∃ slot timestamp, vote_timestamp vote = Some timestamp ∧ process_timestamp slot timestamp s2 = Ok s3) →
    vote_step cache features signed v s3
| StepUpdate clock hashes voter s1 update s2 :
    sc_clock cache = Some clock → sc_slot_hashes cache = Some hashes → is_uninitialized v = false →
    get_and_update_authorized_voter (clock_epoch clock) (convert_to_current v) = Ok (voter, s1) → signed voter →
    do_process_vote_state_update s1 hashes (clock_epoch clock) (clock_slot clock) update (Some features) = Ok s2 →
    vote_step cache features signed v s2
| StepAuthorizeVoter clock key verify s1 :
    sc_clock cache = Some clock →
    set_new_authorized_voter key (clock_epoch clock) (leader_schedule_epoch clock + 1) verify (convert_to_current v) =
      Ok s1 →
    (∀ voter, verify voter = Ok tt → signed voter ∨ signed (authorized_withdrawer (convert_to_current v))) →
    vote_step cache features signed v s1
| StepAuthorizeWithdrawer key :
    signed (authorized_withdrawer (convert_to_current v)) →
    vote_step cache features signed v (set_authorized_withdrawer key (convert_to_current v))
| StepIdentity key :
    signed (authorized_withdrawer (convert_to_current v)) → signed key →
    vote_step cache features signed v (set_node_pubkey key (convert_to_current v))
| StepCommission commission_ :
    signed (authorized_withdrawer (convert_to_current v)) →
    vote_step cache features signed v (set_commission commission_ (convert_to_current v))
| StepClose clock :
    sc_clock cache = Some clock → signed (authorized_withdrawer (convert_to_current v)) →
    (∀ x, list.last (epoch_credits (convert_to_current v)) = Some x → 2 ≤ clock_epoch clock - x.1.1) →
    vote_step cache features signed v vote_state_default.

(** ** Reading leaves the state as it is *)
Lemma on_tc_same {A} (m : TC A) s x t :
  m (transaction_context s) = (Ok x, t) → t = transaction_context s → on_tc m s = (Ok x, s).
Proof. intros Hm ->. unfold on_tc. rewrite Hm. by destruct s. Qed.
Lemma on_tc_read {A} (m : TC A) s x s' :
  (∀ t x t', m t = (Ok x, t') → t' = t) → on_tc m s = (Ok x, s') → s' = s ∧ m (transaction_context s) = (Ok x, transaction_context s).
Proof.
  intros Hm (t & Hr & ->)%on_tc_Ok. pose proof (Hm _ _ _ Hr) as ->. split; [by destruct s|done].
Qed.

Section reads.
Context `{!Bincode VoteStateVersions}.

Lemma read_account ba s a s' :
  on_tc (ba_account ba) s = (Ok a, s') → s' = s ∧ at_handle ba (transaction_context s) = Some a.
Proof.
  intros Hr. apply on_tc_read in Hr as [-> Hr]; [|by intros ? ? ? [_ ->]%ba_account_Ok].
  by apply ba_account_Ok in Hr as [? _].
Qed.
Lemma read_state ba s (v : VoteStateVersions) s' :
  on_tc (ba_get_state ba) s = (Ok v, s') →
  s' = s ∧ ∃ a, at_handle ba (transaction_context s) = Some a ∧ shared_deserialize_data a = Some v.
Proof.
  intros Hr. apply on_tc_read in Hr as [-> Hr]; [|by intros ? ? ? [-> _]%ba_get_state_Ok].
  by apply ba_get_state_Ok in Hr as [_ ?].
Qed.
Lemma read_vote_state ba s st s' :
  get_vote_state ba s = (Ok st, s') →
  s' = s ∧ ∃ a v, at_handle ba (transaction_context s) = Some a ∧ shared_deserialize_data a = Some v ∧
    st = convert_to_current v.
Proof.
  intros (v & s1 & [-> (a & Ha & Hv)]%read_state & [= <- <-])%bind_Ok_inv. split; [done|]. by exists a, v.
Qed.
End reads.

(** ** Writing a vote state *)
Lemma bind_Err_inv {S E A B} (m : M S E A) (k : A → M S E B) s e s' :
  bind m k s = (Err e, s') → m s = (Err e, s') ∨ ∃ x s1, m s = (Ok x, s1) ∧ k x s1 = (Err e, s').
Proof. unfold bind. destruct (m s) as [[x|e'|] s1]; intros Hb; simplify_eq; eauto. Qed.
Lemma step_same_vals {A} (m : TC A) t r t' :
  steps_in (λ _, True) quiet m → m t = (r, t') → same_vals t t'.
Proof. intros Hm Hr. specialize (Hm t I). rewrite Hr in Hm. by apply quiet_same_vals. Qed.
Lemma can_be_resized_quiet ba n : steps_in (λ _, True) quiet (ba_can_data_be_resized ba n).
Proof. unfold ba_can_data_be_resized, ba_is_owned_by_current_program. frame_solve; apply ba_account_quiet. Qed.
Lemma can_be_changed_quiet ba : steps_in (λ _, True) quiet (ba_can_data_be_changed ba).
Proof. unfold ba_can_data_be_changed, ba_is_owned_by_current_program. frame_solve; apply ba_account_quiet. Qed.

(** a resize that fails changes no account *)
Lemma resize_refused ba n t e t' : ba_set_data_length ba n t = (Err e, t') → same_vals t t'.
Proof.
  unfold ba_set_data_length.
  intros [Hr|(? & t1 & Hr & H)]%bind_Err_inv; apply (step_same_vals _ _ _ _ (can_be_resized_quiet ba n)) in Hr; [done|].
  assert (∀ t2, same_vals t1 t2 → same_vals t t2) as Htr.
  { intros t2 [? ?]. destruct Hr. split; congruence. }
  apply Htr. clear Htr Hr.
  apply bind_Err_inv in H as [Hr|(? & t2 & Hr & H)]; apply (step_same_vals _ _ _ _ (can_be_changed_quiet ba)) in Hr; [done|].
  assert (∀ t3, same_vals t2 t3 → same_vals t1 t3) as Htr.
  { intros t3 [? ?]. destruct Hr. split; congruence. }
  apply Htr. clear Htr Hr.
  apply bind_Err_inv in H as [Hr|(a & t3 & [_ ->]%ba_account_Ok & H)].
  { by apply (step_same_vals _ _ _ _ (ba_account_quiet ba)) in Hr. }
  destruct (_ =? _); [done|].
  apply bind_Err_inv in H as [Hr|(? & t3 & Hr & H)]; apply (step_same_vals _ _ _ _ (ba_touch_quiet ba)) in Hr; [done|].
  apply bind_Err_inv in H as [H|(? & t4 & _ & [=])].
  apply (step_same_vals _ _ _ _ (ba_update_delta_quiet ba n)) in H. destruct H, Hr. split; congruence.
Qed.

(** the state [st] was written through the handle, and nothing else *)
Record wrote `{!Bincode VoteStateVersions} (ba : BorrowedAccount) (s : InvokeContext) (st : VoteState)
    (s' : InvokeContext) (a a' : AccountSharedData) (v' : VoteStateVersions) : Prop := {
  wr_before : at_handle ba (transaction_context s) = Some a;
  wr_vals : ivals s' = <[N.to_nat (ba_index_in_transaction ba) := a']> (ivals s);
  wr_state : shared_deserialize_data a' = Some v';
  wr_stored : stored_as v' st;
  wr_lamports : lamports a' = lamports a;
  wr_owner : owner a' = owner a;
  wr_keys : account_keys (transaction_context s') = account_keys (transaction_context s);
  wr_cache : sysvar_cache s' = sysvar_cache s;
  wr_features : feature_set s' = feature_set s }.

Section writes.
Context `{!Bincode VoteStateVersions, !BincodeLaws VoteStateVersions}.

Lemma stored_current st : stored_as (VCurrentVote st) st.
Proof. by left. Qed.
Lemma stored_1_14_11 st : stored_as (V1_14_11 (vote_state_to_1_14_11 st)) st.
Proof. right. by destruct st. Qed.

Lemma write_state ba s v st s' :
  stored_as v st → on_tc (ba_set_state ba v) s = (Ok tt, s') → ∃ a a', wrote ba s st s' a a' v.
Proof.
  intros Hst (t & Hw & ->)%on_tc_Ok. apply ba_set_state_Ok in Hw as (a & bs & Ha & _ & _ & Hs & _ & Hk & Hv).
  exists a, (set_data (overwrite bs (data a)) a). split; try done; [|by destruct a..]. by apply stored_state.
Qed.
(** a change of the account before the write *)
Lemma wrote_after ba s s1 st s' a a1 a' v' :
  at_handle ba (transaction_context s) = Some a →
  ivals s1 = <[N.to_nat (ba_index_in_transaction ba) := a1]> (ivals s) →
  account_keys (transaction_context s1) = account_keys (transaction_context s) →
  sysvar_cache s1 = sysvar_cache s → feature_set s1 = feature_set s →
  lamports a1 = lamports a → owner a1 = owner a →
  ∀ a2, wrote ba s1 st s' a2 a' v' → wrote ba s st s' a a' v'.
Proof.
  intros Ha Hv Hk Hc Hf Hl Ho a2 [Hb Hv' Hs Hst Hl' Ho' Hk' Hc' Hf'].
  assert (a2 = a1) as ->.
  { unfold at_handle in *. unfold ivals in Hv. rewrite Hv, list_lookup_insert_eq in Hb by (by eapply lookup_lt_Some).
    congruence. }
  split; try congruence. rewrite Hv', Hv. apply list_insert_insert_eq.
Qed.
Lemma wrote_same ba s s1 st s' a a' v' :
  same_vals (transaction_context s) (transaction_context s1) → sysvar_cache s1 = sysvar_cache s →
  feature_set s1 = feature_set s → wrote ba s1 st s' a a' v' → wrote ba s st s' a a' v'.
Proof.
  intros [Hk Hv] Hc Hf [Hb Hv' Hs Hst Hl' Ho' Hk' Hc' Hf']. unfold at_handle, ivals in *.
  split; unfold at_handle, ivals; congruence.
Qed.

Lemma set_vote_account_state_Ok ba st s s' :
  set_vote_account_state ba st s = (Ok tt, s') → ∃ a a' v', wrote ba s st s' a a' v'.
Proof.
  unfold set_vote_account_state. intros (b & s1 & [= <- <-] & Hw)%bind_Ok_inv.
  destruct (negb _). { apply (write_state _ _ _ _ _ (stored_1_14_11 st)) in Hw as (a & a' & Hw). eauto. }
  apply bind_Ok_inv in Hw as (a & s2 & [-> Ha]%read_account & Hw).
  apply bind_Ok_inv in Hw as (too_small & s3 & Hr & Hw).
  assert (∃ a a' v', wrote ba s3 st s' a a' v') as (a0 & a' & v' & Hwr).
  { destruct too_small; [apply (write_state _ _ _ _ _ (stored_1_14_11 st)) in Hw as (? & ? & ?)
      |apply (write_state _ _ _ _ _ (stored_current st)) in Hw as (? & ? & ?)]; eauto. }
  clear Hw. destruct (_ <? _); [|injection Hr as _ <-; eauto].
  apply bind_Ok_inv in Hr as (ex & s4 & Hex & Hr).
  assert (s4 = s) as ->.
  { apply on_tc_read in Hex as [-> _]; [done|]. intros t x t' (y & t1 & [_ ->]%ba_account_Ok & [= _ <-])%bind_Ok_inv. done. }
  destruct (negb ex); [injection Hr as _ <-; eauto|].
  apply bind_Ok_inv in Hr as (resized & s5 & Hobs & [= _ <-]).
  unfold observe, on_tc in Hobs. destruct (ba_set_data_length ba _ _) as [[[]|e|] t] eqn:Hlen; simplify_eq/=.
  - apply ba_set_data_length_Ok in Hlen as (b & Hb & _ & _ & _ & _ & Hk & Hv). rewrite Ha in Hb. injection Hb as <-.
    exists a, a', v'. apply (wrote_after ba s (set_transaction_context t s) st s' a (resize (vote_state_size_of true) 0 a) a' v') with a0;
      try done; by destruct a.
  - apply resize_refused in Hlen. exists a0, a', v'. by apply (wrote_same ba s (set_transaction_context t s)).
Qed.
End writes.

(** ** The instructions *)
Section handlers.
Context `{PubkeyDisplay, Sha256, !Bincode VoteStateVersions, !BincodeLaws VoteStateVersions, !Bincode VoteInstruction}.

(** a step of the specification was performed on the account behind the handle *)
Definition performed (ba : BorrowedAccount) (signed : Pubkey → Prop) (s s' : InvokeContext) : Prop :=
  ∃ a a' v v' st, shared_deserialize_data a = Some v ∧
    vote_step (sysvar_cache s) (feature_set s) signed v st ∧ wrote ba s st s' a a' v'.

Lemma verify_signer_Ok k sg : verify_authorized_signer k sg = Ok tt → k ∈ sg.
Proof. unfold verify_authorized_signer. by case_bool_decide. Qed.
Lemma lift_signer k sg (s s' : InvokeContext) : lift (verify_authorized_signer k sg) s = (Ok tt, s') → s' = s ∧ k ∈ sg.
Proof. intros [Hk ->]%lift_Ok_inv. split; [done|]. by apply verify_signer_Ok. Qed.
Lemma from_vote_error_Ok {A} (r : result VoteError.t A) x : from_vote_error r = Ok x → r = Ok x.
Proof. destruct r; simpl; congruence. Qed.

Lemma performed_intro ba signed s s' a v st :
  at_handle ba (transaction_context s) = Some a → shared_deserialize_data a = Some v →
  vote_step (sysvar_cache s) (feature_set s) signed v st →
  set_vote_account_state ba st s = (Ok tt, s') → performed ba signed s s'.
Proof.
  intros Ha Hv Hst (a0 & a' & v' & Hw)%set_vote_account_state_Ok.
  assert (a0 = a) as -> by (destruct Hw; congruence). by exists a, a', v, v', st.
Qed.

Lemma authorize_performed ba k vote_authorize sg clock s s' :
  sc_clock (sysvar_cache s) = Some clock →
  vote_authorize_account ba k vote_authorize sg clock s = (Ok tt, s') → performed ba (.∈ sg) s s'.
Proof.
  intros Hc (st & s1 & [-> (a & v & Ha & Hv & ->)]%read_vote_state & Hw)%bind_Ok_inv.
  apply bind_Ok_inv in Hw as (st & s1 & [Hst ->]%lift_Ok_inv & Hw). apply (performed_intro _ _ _ _ _ _ st Ha Hv); [|done].
  destruct vote_authorize.
  - destruct (checked_add u64_max (leader_schedule_epoch clock) 1) as [target|] eqn:Ht; [|done]. simpl in Hst.
    apply checked_add_Some in Ht as [-> _]. eapply StepAuthorizeVoter; [done|exact Hst|].
    intros voter. destruct (is_ok _) eqn:Hok; [|intros Hv'%verify_signer_Ok; by left].
    intros _. right. unfold is_ok, verify_authorized_signer in Hok. case_bool_decide; done.
  - destruct (verify_authorized_signer _ sg) as [[]| |] eqn:Hs; [|done..]. injection Hst as <-.
    apply StepAuthorizeWithdrawer. by apply verify_signer_Ok.
Qed.
Lemma identity_performed ba k sg s s' :
  update_validator_identity ba k sg s = (Ok tt, s') → performed ba (.∈ sg) s s'.
Proof.
  intros (st & s1 & [-> (a & v & Ha & Hv & ->)]%read_vote_state & Hw)%bind_Ok_inv.
  apply bind_Ok_inv in Hw as ([] & s1 & [-> Hs1]%lift_signer & Hw).
  apply bind_Ok_inv in Hw as ([] & s1 & [-> Hs2]%lift_signer & Hw).
  eapply performed_intro; [done|done| |done]. by apply StepIdentity.
Qed.
Lemma commission_performed ba c sg schedule clock s s' :
  update_commission ba c sg schedule clock s = (Ok tt, s') → performed ba (.∈ sg) s s'.
Proof.
  intros (b1 & s1 & [= <- <-] & Hw)%bind_Ok_inv. apply bind_Ok_inv in Hw as (enforce & s1 & He & Hw).
  assert (s1 = s) as ->.
  { destruct (is_active _ _); [|by injection He as _ <-]. apply bind_Ok_inv in He as (d & s2 & Ho & [= _ <-]).
    unfold observe in Ho. destruct (get_vote_state ba s) as [[st|e|] s3] eqn:Hg; simplify_eq/=.
    - by apply read_vote_state in Hg as [-> _].
    - apply bind_Err_inv in Hg as [Hg|(v & s4 & _ & [=])].
      unfold on_tc in Hg. destruct (ba_get_state ba _) as [r t] eqn:Hb. injection Hg as -> <-.
      assert (t = transaction_context s) as ->; [|by destruct s].
      apply bind_Err_inv in Hb as [Hb|(a & t1 & [_ ->]%ba_account_Ok & Hb)].
      + unfold ba_account, asks in Hb. destruct (unwrap _); by simplify_eq.
      + unfold lift in Hb. by injection Hb as _ <-. }
  apply bind_Ok_inv in Hw as (b2 & s1 & [= <- <-] & Hw). destruct (_ && _); [done|].
  apply bind_Ok_inv in Hw as (st & s1 & [-> (a & v & Ha & Hv & ->)]%read_vote_state & Hw).
  apply bind_Ok_inv in Hw as ([] & s1 & [-> Hs1]%lift_signer & Hw).
  eapply performed_intro; [done|done| |done]. by apply StepCommission.
Qed.
Lemma initialize_performed ba vote_init sg clock s s' :
  sc_clock (sysvar_cache s) = Some clock →
  vote_initialize_account ba vote_init sg clock s = (Ok tt, s') → performed ba (.∈ sg) s s'.
Proof.
  intros Hc (a & s1 & [-> Ha]%read_account & Hw)%bind_Ok_inv.
  apply bind_Ok_inv in Hw as (b & s1 & [= <- <-] & Hw). destruct (negb _); [done|].
  apply bind_Ok_inv in Hw as (v & s1 & [-> (a1 & Ha1 & Hv)]%read_state & Hw). rewrite Ha in Ha1. injection Ha1 as <-.
  destruct (is_uninitialized v) eqn:Hu; [|done]. cbn [negb] in Hw.
  apply bind_Ok_inv in Hw as ([] & s1 & [-> Hs1]%lift_signer & Hw).
  eapply performed_intro; [done|done| |done]. by apply StepInitialize.
Qed.

Lemma verify_and_get_Ok ba clock sg s s1 s' :
  verify_and_get_vote_state ba clock sg s = (Ok s1, s') →
  s' = s ∧ ∃ a v voter, at_handle ba (transaction_context s) = Some a ∧ shared_deserialize_data a = Some v ∧
    is_uninitialized v = false ∧
    get_and_update_authorized_voter (clock_epoch clock) (convert_to_current v) = Ok (voter, s1) ∧ voter ∈ sg.
Proof.
  intros (v & s2 & [-> (a & Ha & Hv)]%read_state & Hw)%bind_Ok_inv. destruct (is_uninitialized v) eqn:Hu; [done|].
  apply bind_Ok_inv in Hw as ([voter st] & s2 & [Hu' ->]%lift_Ok_inv & Hw).
  apply bind_Ok_inv in Hw as ([] & s2 & [-> Hs]%lift_signer & [= <- <-]). split; [done|]. by exists a, v, voter.
Qed.
Lemma vote_performed ba hashes clock vote sg s s' :
  sc_clock (sysvar_cache s) = Some clock → sc_slot_hashes (sysvar_cache s) = Some hashes →
  process_vote_with_account ba hashes clock vote sg s = (Ok tt, s') → performed ba (.∈ sg) s s'.
Proof.
  intros Hc Hh (s1 & s2 & [-> (a & v & voter & Ha & Hv & Hu & Hg & Hs)]%verify_and_get_Ok & Hw)%bind_Ok_inv.
  apply bind_Ok_inv in Hw as (b1 & s2 & [= <- <-] & Hw). apply bind_Ok_inv in Hw as (b2 & s2 & [= <- <-] & Hw).
  apply bind_Ok_inv in Hw as (st & s2 & [Hst%from_vote_error_Ok ->]%lift_Ok_inv & Hw).
  destruct (process_vote s1 vote hashes _ _ _ _) as [st1| |] eqn:Hp; [|done..]. simpl in Hst.
  eapply performed_intro; [done|done| |done]. eapply StepVote; [done..|].
  destruct (vote_timestamp vote) as [ts|] eqn:Ht; [right|left; by injection Hst as <-].
  destruct (max_slot (vote_slots vote)) as [slot|]; [|done]. by exists slot, ts.
Qed.
Lemma update_performed ba hashes clock u sg s s' :
  sc_clock (sysvar_cache s) = Some clock → sc_slot_hashes (sysvar_cache s) = Some hashes →
  process_vote_state_update ba hashes clock u sg s = (Ok tt, s') → performed ba (.∈ sg) s s'.
Proof.
  intros Hc Hh (s1 & s2 & [-> (a & v & voter & Ha & Hv & Hu & Hg & Hs)]%verify_and_get_Ok & Hw)%bind_Ok_inv.
  apply bind_Ok_inv in Hw as (f & s2 & [= <- <-] & Hw).
  apply bind_Ok_inv in Hw as (st & s2 & [Hst%from_vote_error_Ok ->]%lift_Ok_inv & Hw).
  eapply performed_intro; [done|done| |done]. by eapply StepUpdate.
Qed.

(** ** Who signed *)

(** the signers of the instruction; one that signs with its base key stands for the keys
    derived from it *)
Definition signed_in (ic : InstructionContext) (t : TransactionContext) (k : Pubkey) : Prop :=
  (∃ sg, get_signers ic t = Ok sg ∧ k ∈ sg) ∨
  (∃ index base seed derived_owner, is_instruction_account_signer ic 2 = Ok true ∧
     get_index_of_instruction_account_in_transaction ic 2 = Ok index ∧
     get_key_of_account_at_index t index = Ok base ∧ create_with_seed base seed derived_owner = Ok k).

Lemma vote_step_mono cache features (P Q : Pubkey → Prop) v st :
  (∀ k, P k → Q k) → vote_step cache features P v st → vote_step cache features Q v st.
Proof.
  intros HPQ. destruct 1.
  - by eapply StepInitialize; eauto.
  - by eapply StepVote; eauto.
  - by eapply StepUpdate; eauto.
  - eapply StepAuthorizeVoter; [done..|]. intros voter Hv. naive_solver.
  - by eapply StepAuthorizeWithdrawer; eauto.
  - by eapply StepIdentity; eauto.
  - by eapply StepCommission; eauto.
  - by eapply StepClose; eauto.
Qed.
Lemma performed_mono ba (P Q : Pubkey → Prop) s s' :
  (∀ k, P k → Q k) → performed ba P s s' → performed ba Q s s'.
Proof.
  intros HPQ (a & a' & v & v' & st & Hv & Hst & Hw). exists a, a', v, v', st. split_and!; auto.
  by eapply vote_step_mono.
Qed.

Lemma sysvar_clock_Ok ic i s clock s' :
  clock_with_account_check ic i s = (Ok clock, s') → s' = s ∧ sc_clock (sysvar_cache s) = Some clock.
Proof.
  intros ([] & s1 & Hc & Hg)%bind_Ok_inv. unfold asks_tc, asks in Hc, Hg.
  injection Hc as _ <-. injection Hg as Hg <-. split; [done|].
  unfold get_clock in Hg. by destruct (sc_clock (sysvar_cache s)); simplify_eq/=.
Qed.
Lemma sysvar_hashes_Ok ic i s hashes s' :
  slot_hashes_with_account_check ic i s = (Ok hashes, s') → s' = s ∧ sc_slot_hashes (sysvar_cache s) = Some hashes.
Proof.
  intros ([] & s1 & Hc & Hg)%bind_Ok_inv. unfold asks_tc, asks in Hc, Hg.
  injection Hc as _ <-. injection Hg as Hg <-. split; [done|].
  unfold get_slot_hashes in Hg. by destruct (sc_slot_hashes (sysvar_cache s)); simplify_eq/=.
Qed.
Lemma asks_Ok {A} (f : InvokeContext → result InstructionError A) s x s' : asks f s = (Ok x, s') → s' = s ∧ f s = Ok x.
Proof. unfold asks. by intros [= Hf <-]. Qed.
Lemma get_clock_Some c clock : get_clock c = Ok clock → sc_clock c = Some clock.
Proof. unfold get_clock. by destruct (sc_clock c); intros; simplify_eq/=. Qed.
Lemma get_hashes_Some c hashes : get_slot_hashes c = Ok hashes → sc_slot_hashes c = Some hashes.
Proof. unfold get_slot_hashes. by destruct (sc_slot_hashes c); intros; simplify_eq/=. Qed.
Lemma key_of_Ok ic i s k s' :
  key_of_instruction_account ic i s = (Ok k, s') → s' = s ∧
  ∃ index, get_index_of_instruction_account_in_transaction ic i = Ok index ∧
    get_key_of_account_at_index (transaction_context s) index = Ok k.
Proof.
  unfold key_of_instruction_account, asks_tc. intros [-> Hk]%asks_Ok. split; [done|].
  destruct (get_index_of_instruction_account_in_transaction ic i) as [index| |]; [|done..]. by exists index.
Qed.
Lemma at_least_Ok ic n s s' : at_least ic n s = (Ok tt, s') → s' = s.
Proof. by intros [_ ->]%lift_Ok_inv. Qed.

Lemma with_seed_performed ic ba k ty derived_owner seed s s' :
  process_authorize_with_seed_instruction ic ba k ty derived_owner seed s = (Ok tt, s') →
  performed ba (signed_in ic (transaction_context s)) s s'.
Proof.
  intros (clock & s1 & [-> Hc]%sysvar_clock_Ok & Hw)%bind_Ok_inv.
  apply bind_Ok_inv in Hw as (b & s1 & [Hb ->]%lift_Ok_inv & Hw).
  apply bind_Ok_inv in Hw as (keys & s1 & Hk & Hw).
  assert (s1 = s ∧ ∀ x, x ∈ keys → signed_in ic (transaction_context s) x) as [-> Hsigned].
  { destruct b; [|injection Hk as <- <-; split; [done|set_solver]].
    apply bind_Ok_inv in Hk as (base & s2 & [-> (index & Hi & Hkey)]%key_of_Ok & Hk).
    apply bind_Ok_inv in Hk as (derived & s2 & [Hd ->]%lift_Ok_inv & [= <- <-]). split; [done|].
    intros x ->%elem_of_singleton. right. exists index, base, seed, derived_owner. split_and!; try done.
    unfold from_pubkey_error in Hd. destruct (create_with_seed _ _ _); congruence. }
  apply (performed_mono _ (.∈ keys)); [done|]. by eapply authorize_performed.
Qed.

Lemma dispatch_Ok ic ba sg instruction s r s' :
  get_signers ic (transaction_context s) = Ok sg →
  vote_dispatch ic ba sg instruction s = (Ok r, s') →
  match r with
  | None => performed ba (signed_in ic (transaction_context s)) s s'
  | Some (_, _, clock) => s' = s ∧ sc_clock (sysvar_cache s) = Some clock
  end.
Proof.
  intros Hsg. assert (∀ s', performed ba (.∈ sg) s s' → performed ba (signed_in ic (transaction_context s)) s s') as Hmono.
  { intros s1. apply performed_mono. intros k Hk. left. eauto. }
  assert (∀ m : IC unit, (∀ s', m s = (Ok tt, s') → performed ba (signed_in ic (transaction_context s)) s s') →
    ∀ s', (m ;; ret None) s = (Ok r, s') →
    match r with
    | None => performed ba (signed_in ic (transaction_context s)) s s'
    | Some (_, _, clock) => s' = s ∧ sc_clock (sysvar_cache s) = Some clock
    end) as Hdone.
  { intros m Hm s1 ([] & s2 & H1 & [= <- <-])%bind_Ok_inv. by apply Hm. }
  assert (∀ u s', (slot_hashes <- asks (λ s, get_slot_hashes (sysvar_cache s)) ;;
    clock <- asks (λ s, get_clock (sysvar_cache s)) ;; process_vote_state_update ba slot_hashes clock u sg) s = (Ok tt, s') →
    performed ba (signed_in ic (transaction_context s)) s s') as Hupd.
  { intros u s1 (hashes & s2 & [-> Hh%get_hashes_Some]%asks_Ok & Hw)%bind_Ok_inv.
    apply bind_Ok_inv in Hw as (clock & s2 & [-> Hc%get_clock_Some]%asks_Ok & Hw).
    by eapply Hmono, update_performed. }
  unfold vote_dispatch. cbv zeta. destruct instruction; try (by apply Hdone, Hupd); try apply Hdone.
  - intros s1 (rn & s2 & Hr & Hw)%bind_Ok_inv.
    apply bind_Ok_inv in Hr as ([] & s3 & [-> _]%asks_Ok & [-> _]%asks_Ok).
    apply bind_Ok_inv in Hw as (a & s3 & [-> Ha]%read_account & Hw). destruct (negb _); [done|].
    apply bind_Ok_inv in Hw as (clock & s3 & [-> Hc]%sysvar_clock_Ok & Hw). by eapply Hmono, initialize_performed.
  - intros s1 (clock & s3 & [-> Hc]%sysvar_clock_Ok & Hw)%bind_Ok_inv. by eapply Hmono, authorize_performed.
  - intros s1 (hashes & s3 & [-> Hh]%sysvar_hashes_Ok & Hw)%bind_Ok_inv.
    apply bind_Ok_inv in Hw as (clock & s3 & [-> Hc]%sysvar_clock_Ok & Hw). by eapply Hmono, vote_performed.
  - intros ([] & s1 & ->%at_least_Ok & Hw)%bind_Ok_inv.
    apply bind_Ok_inv in Hw as (rn & s1 & [-> _]%asks_Ok & Hw).
    apply bind_Ok_inv in Hw as (clock & s1 & [-> Hc%get_clock_Some]%asks_Ok & [= <- <-]). done.
  - intros s1 ([] & s2 & ->%at_least_Ok & Hw)%bind_Ok_inv.
    apply bind_Ok_inv in Hw as (k & s2 & [-> _]%key_of_Ok & Hw). by eapply Hmono, identity_performed.
  - intros s1 (sch & s2 & [-> _]%asks_Ok & Hw)%bind_Ok_inv.
    apply bind_Ok_inv in Hw as (clock & s2 & [-> _]%asks_Ok & Hw). by eapply Hmono, commission_performed.
  - intros s1 (hashes & s3 & [-> Hh]%sysvar_hashes_Ok & Hw)%bind_Ok_inv.
    apply bind_Ok_inv in Hw as (clock & s3 & [-> Hc]%sysvar_clock_Ok & Hw). by eapply Hmono, vote_performed.
  - intros s1 ([] & s2 & ->%at_least_Ok & Hw)%bind_Ok_inv.
    apply bind_Ok_inv in Hw as (k & s2 & [-> _]%key_of_Ok & Hw).
    apply bind_Ok_inv in Hw as (b & s2 & [_ ->]%lift_Ok_inv & Hw). destruct (negb b); [done|].
    apply bind_Ok_inv in Hw as (clock & s3 & [-> Hc]%sysvar_clock_Ok & Hw). by eapply Hmono, authorize_performed.
  - intros s1 ([] & s2 & ->%at_least_Ok & Hw)%bind_Ok_inv. by eapply with_seed_performed.
  - intros s1 ([] & s2 & ->%at_least_Ok & Hw)%bind_Ok_inv.
    apply bind_Ok_inv in Hw as (k & s2 & [-> _]%key_of_Ok & Hw).
    apply bind_Ok_inv in Hw as (b & s2 & [_ ->]%lift_Ok_inv & Hw). destruct (negb b); [done|].
    by eapply with_seed_performed.
Qed.
End handlers.

(** ** The whole instruction *)

(** the same accounts, sysvars and features *)
Record alike (s s' : InvokeContext) : Prop := {
  al_vals : ivals s' = ivals s;
  al_keys : account_keys (transaction_context s') = account_keys (transaction_context s);
  al_cache : sysvar_cache s' = sysvar_cache s;
  al_features : feature_set s' = feature_set s }.
Lemma scope_Ok {A} ic i (body : BorrowedAccount → IC A) s x s' :
  ic_with_account (try_borrow_instruction_account ic i) body s = (Ok x, s') →
  ∃ ia s1 s2, getN (instruction_accounts ic) i = Some ia ∧ body (handle_of ic i ia) s1 = (Ok x, s2) ∧
    alike s s1 ∧ alike s2 s'.
Proof.
  unfold ic_with_account, try_borrow_instruction_account, bind at 1, lift, get_index_of_instruction_account_in_transaction.
  destruct (getN (instruction_accounts ic) i) as [ia|]; simpl; [|done].
  unfold try_borrow_account, bind, asks. destruct (ta_get _ _) as [c|]; simpl; [|done].
  destruct (cell_borrowed c); simpl; [done|].
  destruct (body _ _) as [r s2] eqn:Hb. intros [= -> <-].
  exists ia. eexists. exists s2. split; [done|]. split; [exact Hb|].
  split; split; unfold ivals; simpl; unfold drop_borrow; by rewrite ?vals_set_cell.
Qed.
Lemma get_key_same t t' i : account_keys t' = account_keys t → get_key_of_account_at_index t' i = get_key_of_account_at_index t i.
Proof. intros Hk. unfold get_key_of_account_at_index. by rewrite Hk. Qed.
Lemma get_signers_same ic t t' : account_keys t' = account_keys t → get_signers ic t' = get_signers ic t.
Proof.
  intros Hk. unfold get_signers. generalize (∅ : gset Pubkey).
  induction (instruction_accounts ic) as [|ia l IH]; intros acc; simpl; [done|].
  destruct (ia_is_signer ia); [|by apply IH]. rewrite (get_key_same _ _ _ Hk).
  destruct (get_key_of_account_at_index t _); simpl; auto.
Qed.
Lemma signed_in_same `{Sha256} ic t t' k : account_keys t' = account_keys t → signed_in ic t' k ↔ signed_in ic t k.
Proof.
  intros Hk. unfold signed_in. rewrite (get_signers_same _ _ _ Hk).
  setoid_rewrite (λ i, get_key_same t t' i Hk). done.
Qed.

Lemma sub_lamports_Ok ba n s s' :
  on_tc (ba_checked_sub_lamports ba n) s = (Ok tt, s') →
  ∃ a, at_handle ba (transaction_context s) = Some a ∧ n ≤ lamports a ∧
    ivals s' = <[N.to_nat (ba_index_in_transaction ba) := set_lamports (lamports a - n) a]> (ivals s) ∧
    account_keys (transaction_context s') = account_keys (transaction_context s) ∧
    sysvar_cache s' = sysvar_cache s ∧ feature_set s' = feature_set s.
Proof.
  intros (t & Hw & ->)%on_tc_Ok. apply bind_Ok_inv in Hw as (a & t1 & [Ha ->]%ba_account_Ok & Hw).
  apply bind_Ok_inv in Hw as (l & t1 & [Hl ->]%lift_Ok_inv & Hw).
  apply ba_set_lamports_Ok in Hw as (b & Hb & _ & _ & _ & Hk & Hv). rewrite Ha in Hb. injection Hb as <-.
  exists a. unfold checked_sub in Hl. destruct (N.leb_spec n (lamports a)); [|done]. injection Hl as <-. done.
Qed.
Lemma add_lamports_Ok ba n s s' :
  on_tc (ba_checked_add_lamports ba n) s = (Ok tt, s') →
  ∃ a, at_handle ba (transaction_context s) = Some a ∧
    ivals s' = <[N.to_nat (ba_index_in_transaction ba) := set_lamports (lamports a + n) a]> (ivals s) ∧
    account_keys (transaction_context s') = account_keys (transaction_context s) ∧
    sysvar_cache s' = sysvar_cache s ∧ feature_set s' = feature_set s.
Proof.
  intros (t & Hw & ->)%on_tc_Ok. apply bind_Ok_inv in Hw as (a & t1 & [Ha ->]%ba_account_Ok & Hw).
  apply bind_Ok_inv in Hw as (l & t1 & [Hl ->]%lift_Ok_inv & Hw).
  apply ba_set_lamports_Ok in Hw as (b & Hb & _ & _ & _ & Hk & Hv). rewrite Ha in Hb. injection Hb as <-.
  exists a. unfold checked_add in Hl. destruct (_ <=? _); [|done]. injection Hl as <-. done.
Qed.

(** the first account takes a step or keeps its state, and loses lamports only if the
    withdrawer signed; the others only receive lamports *)
Record vote_effect `{!Bincode VoteStateVersions} (i0 : nat) (cache : SysvarCache) (features : gset Pubkey)
    (signed : Pubkey → Prop) (l l' : list AccountSharedData) : Prop := {
  ve_length : length l' = length l;
  ve_account : ∃ a a' v v', l !! i0 = Some a ∧ l' !! i0 = Some a' ∧
    shared_deserialize_data a = Some v ∧ shared_deserialize_data a' = Some v' ∧ owner a' = owner a ∧
    (v' = v ∨ ∃ st, vote_step cache features signed v st ∧ stored_as v' st) ∧
    (lamports a' < lamports a → signed (authorized_withdrawer (convert_to_current v)));
  ve_others : ∀ j b, j ≠ i0 → l !! j = Some b →
    ∃ b', l' !! j = Some b' ∧ data b' = data b ∧ owner b' = owner b ∧ lamports b ≤ lamports b' }.

Lemma vote_effect_mono `{!Bincode VoteStateVersions} i0 cache features (P Q : Pubkey → Prop) l l' :
  (∀ k, P k → Q k) → vote_effect i0 cache features P l l' → vote_effect i0 cache features Q l l'.
Proof.
  intros HPQ [Hl (a & a' & v & v' & H1 & H2 & H3 & H4 & H5 & H6 & H7) Ho]. split; [done| |done].
  exists a, a', v, v'. split_and!; auto. destruct H6 as [|(st & Hst & ?)]; [by left|right].
  exists st. split; [by apply (vote_step_mono _ _ P)|done].
Qed.

Section instruction.
Context `{PubkeyDisplay, Sha256, !Bincode VoteStateVersions, !BincodeLaws VoteStateVersions, !Bincode VoteInstruction}.

Lemma performed_effect ic ia s s' signed :
  performed (handle_of ic 0 ia) signed s s' →
  vote_effect (N.to_nat (index_in_transaction ia)) (sysvar_cache s) (feature_set s) signed (ivals s) (ivals s').
Proof.
  intros (a & a' & v & v' & st & Hv & Hst & [Hb Hl Hv' Hs Hlam Ho _ _ _]).
  assert (ivals s !! N.to_nat (index_in_transaction ia) = Some a) as Ha by exact Hb.
  simpl in Hl. split; [rewrite Hl; apply length_insert|..].
  - exists a, a', v, v'. rewrite Hl. rewrite list_lookup_insert_eq by (by eapply lookup_lt_Some).
    split_and!; eauto. lia.
  - intros j b Hj Hjb. exists b. rewrite Hl, list_lookup_insert_ne by done. done.
Qed.

(** what the first half of a withdrawal leaves in the account *)
Lemma withdraw_from_Ok ba amount sg r clock s s2 :
  sc_clock (sysvar_cache s) = Some clock →
  (s <- get_vote_state ba ;;
   lift (verify_authorized_signer (authorized_withdrawer s) sg) ;;
   a <- on_tc (ba_account ba) ;;
   remaining_balance <- lift (ok_or (checked_sub (lamports a) amount) InsufficientFunds) ;;
   (if remaining_balance =? 0 then
      if match list.last (epoch_credits s) with
         | Some x => saturating_sub (clock_epoch clock) x.1.1 <? 2
         | None => false
         end
      then lift (from_vote_error (Err VoteError.ActiveVoteAccountClose))
      else set_vote_account_state ba vote_state_default
    else if remaining_balance <? minimum_balance r (len (data a)) then throw InsufficientFunds else ret tt) ;;
   on_tc (ba_checked_sub_lamports ba amount)) s = (Ok tt, s2) →
  ∃ a a2 v v2, at_handle ba (transaction_context s) = Some a ∧ shared_deserialize_data a = Some v ∧
    authorized_withdrawer (convert_to_current v) ∈ sg ∧
    ivals s2 = <[N.to_nat (ba_index_in_transaction ba) := a2]> (ivals s) ∧
    shared_deserialize_data a2 = Some v2 ∧ owner a2 = owner a ∧ lamports a2 = lamports a - amount ∧ amount ≤ lamports a ∧
    (v2 = v ∨ ∃ st, vote_step (sysvar_cache s) (feature_set s) (.∈ sg) v st ∧ stored_as v2 st).
Proof.
  intros Hc (st & s1 & [-> (a & v & Ha & Hv & ->)]%read_vote_state & Hw)%bind_Ok_inv.
  apply bind_Ok_inv in Hw as ([] & s1 & [-> Hsig]%lift_signer & Hw).
  apply bind_Ok_inv in Hw as (a1 & s1 & [-> Ha1]%read_account & Hw). rewrite Ha in Ha1. injection Ha1 as <-.
  apply bind_Ok_inv in Hw as (remaining & s1 & [Hrem ->]%lift_Ok_inv & Hw).
  assert (ivals s !! N.to_nat (ba_index_in_transaction ba) = Some a) as Hla by exact Ha.
  pose proof (lookup_lt_Some _ _ _ Hla) as Hlt.
  apply bind_Ok_inv in Hw as ([] & s1 & Hmid & Hsub).
  apply sub_lamports_Ok in Hsub as (a2 & Ha2 & Hn & Hv2 & _).
  assert (ivals s1 !! N.to_nat (ba_index_in_transaction ba) = Some a2) as Hla2 by exact Ha2.
  destruct (remaining =? 0).
  - destruct (match list.last _ with Some x => _ | None => _ end) eqn:Hact; [done|].
    apply set_vote_account_state_Ok in Hmid as (b & a3 & v3 & [Hb Hl3 Hd3 Hs3 Hlam Ho _ _ _]).
    rewrite Ha in Hb. injection Hb as <-.
    rewrite Hl3, list_lookup_insert_eq in Hla2 by done. injection Hla2 as <-.
    exists a, (set_lamports (lamports a3 - amount) a3), v, v3. rewrite Hlam in *. split_and!; try done.
    + rewrite Hv2, Hl3. apply list_insert_insert_eq.
    + right. exists vote_state_default. split; [|done]. apply (StepClose _ _ _ _ clock); [done..|].
      intros x Hx. rewrite Hx in Hact. apply N.ltb_ge in Hact. done.
  - destruct (_ <? _); [done|]. injection Hmid as <-. rewrite Hla in Hla2. injection Hla2 as <-.
    exists a, (set_lamports (lamports a - amount) a), v, v. split_and!; try done. by left.
Qed.

(** the lamports then go to the recipient, which may be the vote account *)
Lemma vote_withdraw_effect ic amount sg r clock s s' :
  sc_clock (sysvar_cache s) = Some clock → get_signers ic (transaction_context s) = Ok sg →
  vote_withdraw ic 0 amount 1 sg r clock s = (Ok tt, s') →
  ∃ ia, getN (instruction_accounts ic) 0 = Some ia ∧
    vote_effect (N.to_nat (index_in_transaction ia)) (sysvar_cache s) (feature_set s)
      (signed_in ic (transaction_context s)) (ivals s) (ivals s').
Proof.
  intros Hc Hsg ([] & s3 & H1 & H2)%bind_Ok_inv.
  apply scope_Ok in H1 as (ia & s1 & s2 & Hia & Hbody & [Hv1 Hk1 Hc1 Hf1] & [Hv2 Hk2 Hc2 Hf2]).
  apply scope_Ok in H2 as (ia1 & s4 & s5 & _ & Hadd & [Hv4 _ _ _] & [Hv5 _ _ _]).
  apply add_lamports_Ok in Hadd as (b & Hb & Hadd & _).
  apply withdraw_from_Ok in Hbody as (a & a2 & v & v2 & Ha & Hv & Hsig & Hl2 & Hd2 & Ho2 & Hlam & Hle & Hst); [|by rewrite Hc1].
  rewrite Hc1, Hf1 in Hst. exists ia. split; [done|]. set (i0 := N.to_nat (index_in_transaction ia)) in *.
  assert (ivals s !! i0 = Some a) as Hla by (rewrite <-Hv1; exact Ha). pose proof (lookup_lt_Some _ _ _ Hla) as Hlt.
  assert (ivals s4 = <[i0 := a2]> (ivals s)) as Hl4 by (rewrite Hv4, Hv2, Hl2, Hv1; done).
  set (i1 := N.to_nat (index_in_transaction ia1)).
  assert (<[i0 := a2]> (ivals s) !! i1 = Some b) as Hlb by (rewrite <-Hl4; exact Hb).
  assert (ivals s' = <[i1 := set_lamports (lamports b + amount) b]> (<[i0 := a2]> (ivals s))) as Hl' by (rewrite Hv5, Hadd, Hl4; done).
  apply (vote_effect_mono _ _ _ (.∈ sg)); [intros k Hk; left; eauto|]. rewrite Hl'. split; [by rewrite !length_insert|..].
  - destruct (decide (i1 = i0)) as [Heq|Hne].
    + rewrite Heq in *. rewrite list_lookup_insert_eq in Hlb by done. injection Hlb as <-.
      exists a, (set_lamports (lamports a2 + amount) a2), v, v2.
      rewrite list_lookup_insert_eq by (by rewrite length_insert). by split_and!.
    + exists a, a2, v, v2. rewrite list_lookup_insert_ne, list_lookup_insert_eq by done. by split_and!.
  - intros j c Hj Hjc. destruct (decide (j = i1)) as [->|Hne].
    + rewrite list_lookup_insert_ne in Hlb by done. rewrite Hjc in Hlb. injection Hlb as <-.
      exists (set_lamports (lamports c + amount) c). rewrite list_lookup_insert_eq.
      2:{ rewrite length_insert. by eapply lookup_lt_Some. }
      split_and!; try done. simpl. lia.
    + exists c. by rewrite !list_lookup_insert_ne by done.
Qed.

Lemma vote_instruction_effect s s' ic :
  get_current_instruction_context (transaction_context s) = Ok ic →
  vote_process_instruction s = (Ok tt, s') →
  ∃ ia, getN (instruction_accounts ic) 0 = Some ia ∧
    vote_effect (N.to_nat (index_in_transaction ia)) (sysvar_cache s) (feature_set s)
      (signed_in ic (transaction_context s)) (ivals s) (ivals s').
Proof.
  intros Hic (ic' & s0 & Hcur & Hw)%bind_Ok_inv. apply asks_Ok in Hcur as [-> Hcur]. rewrite Hic in Hcur. injection Hcur as <-.
  apply bind_Ok_inv in Hw as ([sg withdrawal] & s3 & Hsc & Hw).
  apply scope_Ok in Hsc as (ia & s1 & s2 & Hia & Hbody & [Hv1 Hk1 Hc1 Hf1] & [Hv2 Hk2 Hc2 Hf2]).
  apply bind_Ok_inv in Hbody as (a & s4 & [-> Ha]%read_account & Hbody). destruct (negb _); [done|].
  apply bind_Ok_inv in Hbody as (sg' & s4 & Hsg & Hbody). apply asks_Ok in Hsg as [-> Hsg].
  apply bind_Ok_inv in Hbody as (instruction & s4 & [_ ->]%lift_Ok_inv & Hbody).
  apply bind_Ok_inv in Hbody as (w & s4 & Hd & [= <- <- <-]).
  pose proof (dispatch_Ok _ _ _ _ _ _ _ Hsg Hd) as Heff.
  rewrite (get_signers_same ic (transaction_context s) (transaction_context s1) Hk1) in Hsg.
  destruct w as [[[amount r] clock]|].
  - destruct Heff as [-> Hc]. apply vote_withdraw_effect in Hw as (ia' & Hia' & He).
    + exists ia'. split; [done|]. rewrite Hv2, Hc2, Hf2, Hv1, Hc1, Hf1 in He. revert He.
      apply vote_effect_mono. intros k. apply signed_in_same. congruence.
    + by rewrite Hc2.
    + rewrite (get_signers_same ic (transaction_context s) (transaction_context s3)); [done|congruence].
  - injection Hw as <-. exists ia. split; [done|]. apply performed_effect in Heff.
    rewrite Hv2, <-Hv1, <-Hc1, <-Hf1. revert Heff. apply vote_effect_mono. intros k. by apply signed_in_same.
Qed.
End instruction.
