(* ===== verification/VoteTyped.v ===== *)
(** * The type of a vote account

    The invariant of vote states, that every operation keeps it, and with it that the
    vote program leaves every vote account well typed and under the control of its
    authorities. *)

From S2P Require Import Prelude Sdk Rent EpochSchedule Account TransactionContext AccountRules InstructionRules.
From S2P Require Import LogCollector InvokeContext InvokeRules Nonce SystemProgram Effects SystemProgramRules.
From S2P Require Import VoteState VoteProcess VoteRules VoteUpdates VoteHistory VoteSync VoteProgram VoteControl.

(** ** The invariant *)
Definition rising (l : AuthorizedVoters) : Prop :=
  ∀ i x y, l !! i = Some x → l !! S i = Some y → x.1 < y.1.
Record vote_state_ok (s : VoteState) : Prop := {
  vo_tower : tower_ok (root_slot s) (votes s);
  vo_credits : len (epoch_credits s) ≤ MAX_EPOCH_CREDITS_HISTORY;
  vo_voters : rising (authorized_voters s);
  vo_prior : len (circ_buf (prior_voters s)) = MAX_ITEMS ∧ circ_idx (prior_voters s) < MAX_ITEMS }.

(** *** Voters by epoch *)
Lemma rising_cons x l : rising (x :: l) ↔ (∀ y, head l = Some y → x.1 < y.1) ∧ rising l.
Proof.
  split.
  - intros Hr. split.
    + intros y Hy. apply (Hr 0%nat); [done|]. by destruct l.
    + intros i a b. apply (Hr (S i)).
  - intros [Hh Hl] [|i] a b Ha Hb; simpl in *; [|by apply (Hl i)].
    injection Ha as <-. apply Hh. by destruct l.
Qed.
Lemma rising_head_lt x l y : rising (x :: l) → y ∈ l → x.1 < y.1.
Proof.
  revert x. induction l as [|z l IH]; intros x Hr Hy; [by apply elem_of_nil in Hy|].
  apply rising_cons in Hr as [Hh Hr]. specialize (Hh z eq_refl).
  apply elem_of_cons in Hy as [->|Hy]; [done|]. specialize (IH z Hr Hy). lia.
Qed.
Lemma av_insert_head e k l y : head (av_insert e k l) = Some y → y.1 = e ∨ head l = Some y.
Proof.
  destruct l as [|[e' k'] l]; simpl; [intros [= <-]; by left|].
  destruct (e <? e'); [intros [= <-]; by left|]. destruct (e =? e'); [intros [= <-]; by left|].
  intros [= <-]. by right.
Qed.
Lemma av_insert_rising e k l : rising l → rising (av_insert e k l).
Proof.
  induction l as [|[e' k'] l IH]; intros Hr; simpl; [apply rising_cons; by split|].
  destruct (N.ltb_spec e e'); [apply rising_cons; split; [by intros ? [= <-]|done]|].
  apply rising_cons in Hr as [Hh Hr]. destruct (N.eqb_spec e e') as [->|]; apply rising_cons; split; auto.
  intros y [Hy|Hy]%av_insert_head; [simpl; lia|by apply Hh].
Qed.
Lemma filter_rising (P : N * Pubkey → Prop) `{!∀ x, Decision (P x)} (l : list (N * Pubkey)) :
  rising l → rising (filter P l).
Proof.
  induction l as [|x l IH]; intros Hr; [done|]. apply rising_cons in Hr as Hr'. destruct Hr' as [_ Hr'].
  rewrite filter_cons. destruct (decide (P x)); [|auto]. apply rising_cons. split; [|auto].
  intros y Hy. apply (rising_head_lt x l); [done|]. eapply list_elem_of_filter.
  destruct (filter P l) eqn:Hf; [done|]. injection Hy as <-. rewrite Hf. by left.
Qed.
Lemma updated_voter_ok epoch s voter s1 :
  vote_state_ok s → get_and_update_authorized_voter epoch s = Ok (voter, s1) →
  vote_state_ok s1 ∧ s1 = set_voters (authorized_voters s1) (prior_voters s) s.
Proof.
  intros [Ht Hc Hv Hp]. unfold get_and_update_authorized_voter, get_and_cache_authorized_voter_for_epoch.
  destruct (get_or_calculate_authorized_voter_for_epoch epoch (authorized_voters s)) as [[k b]|]; [|done]. simpl.
  unfold purge_authorized_voters. destruct (filter _ _) as [|x l] eqn:Hf; [done|]. simpl. intros [= <- <-].
  split; [|done]. split; try done. simpl. rewrite <-Hf. apply filter_rising. destruct b; [done|]. by apply av_insert_rising.
Qed.
Lemma circ_append_ok {I} (x : I) c :
  len (circ_buf c) = MAX_ITEMS → len (circ_buf (circ_append x c)) = MAX_ITEMS ∧ circ_idx (circ_append x c) < MAX_ITEMS.
Proof.
  intros Hl. simpl. split; [unfold len in *; by rewrite length_insert|]. apply N.mod_lt. done.
Qed.
Lemma new_voter_ok key epoch target verify s s1 :
  vote_state_ok s → set_new_authorized_voter key epoch target verify s = Ok s1 →
  vote_state_ok s1 ∧ s1 = set_voters (authorized_voters s1) (prior_voters s1) s ∧
  ∃ voter s0, get_and_update_authorized_voter epoch s = Ok (voter, s0) ∧ verify voter = Ok tt.
Proof.
  intros Hok. unfold set_new_authorized_voter.
  destruct (get_and_update_authorized_voter epoch s) as [[voter s0]| |] eqn:Hu; [|done..]. simpl.
  destruct (updated_voter_ok _ _ _ _ Hok Hu) as [[Ht Hc Hv [Hp1 Hp2]] Heq].
  destruct (verify voter) as [[]| |] eqn:Hver; [|done..]. simpl. case_bool_decide; [done|].
  destruct (list.last (authorized_voters s0)) as [[le lk]|]; [|done]. simpl.
  set (prior := if key_eqb lk key then _ else _). destruct prior as [p| |] eqn:Hprior; [|done..]. simpl. intros [= <-].
  assert (len (circ_buf p) = MAX_ITEMS ∧ circ_idx p < MAX_ITEMS) as Hpok.
  { unfold prior in Hprior. destruct (key_eqb lk key); [by injection Hprior as <-|].
    destruct (circ_last _) as [last| |]; cbn [rbind] in Hprior; [|done..].
    destruct (negb _); [done|]. injection Hprior as <-. by apply circ_append_ok. }
  split; [|split; [by rewrite Heq|eauto]]. split; try done. simpl. by apply av_insert_rising.
Qed.

(** *** Credits *)
Lemma length_alter_last {A} (f : A → A) l : length (alter_last f l) = length l.
Proof. induction l as [|x l IH]; [done|]. destruct l; [done|]. simpl in *. by rewrite IH. Qed.
Lemma increment_credits_ok epoch n s :
  len (epoch_credits s) ≤ MAX_EPOCH_CREDITS_HISTORY →
  len (epoch_credits (increment_credits epoch n s)) ≤ MAX_EPOCH_CREDITS_HISTORY.
Proof.
  intros Hl. unfold increment_credits, MAX_EPOCH_CREDITS_HISTORY, len in *. simpl. rewrite length_alter_last.
  destruct (list.last (epoch_credits s)) as [[[le lc] pc]|]; [|done]. destruct (epoch =? le); [done|].
  set (ec := if negb _ then _ else _).
  assert (length ec ≤ S (length (epoch_credits s)))%nat as Hec.
  { unfold ec. destruct (negb _); [rewrite length_app; simpl; lia|]. rewrite length_alter_last. lia. }
  destruct (N.ltb_spec 64 (N.of_nat (length ec))); [|lia]. destruct ec; simpl in *; lia.
Qed.

(** *** Votes *)
Lemma next_vote_state_ok slot epoch current_slot timely deprecate s :
  vote_state_ok s → vote_state_ok (process_next_vote_slot slot epoch current_slot timely deprecate s).
Proof.
  intros [Ht Hc Hv Hp]. split; [by apply next_vote_ok|..].
  all: unfold process_next_vote_slot; fold (ignored slot s); destruct (ignored slot s); [done|].
  all: destruct (votes (pop_expired_votes slot s)) as [|oldest rest]; [done|]; destruct (_ =? MAX_LOCKOUT_HISTORY); try done.
  by apply increment_credits_ok.
Qed.
Lemma process_vote_ok s vote hashes epoch current_slot timely deprecate s1 :
  vote_state_ok s → process_vote s vote hashes epoch current_slot timely deprecate = Ok s1 →
  vote_state_ok s1 ∧ root_le (root_slot s) (root_slot s1) ∧ node_pubkey s1 = node_pubkey s ∧
  authorized_withdrawer s1 = authorized_withdrawer s ∧ commission s1 = commission s.
Proof.
  intros Hok. unfold process_vote, process_vote_unfiltered.
  case_bool_decide; [done|]. case_bool_decide; [done|]. set (slots := filter _ (vote_slots vote)).
  destruct (check_slots_are_valid _ _ _ _) as [[]| |]; [|done..]. cbn [rbind]. intros [= <-].
  fold (vote_slots_on epoch current_slot timely deprecate slots s). generalize slots. clear slots. intros slots.
  split_and!.
  - revert s Hok. induction slots as [|x slots IH]; intros s Hok; [done|]. simpl. by apply IH, next_vote_state_ok.
  - apply co_root. revert s Hok. assert (∀ s0 s, continues s0 s → continues s0 (vote_slots_on epoch current_slot timely deprecate slots s)) as Hco.
    { induction slots as [|x slots IH]; intros s0 s Hc; [done|]. simpl. by apply IH, continues_next. }
    intros s Hok. apply Hco, continues_refl, vo_tower, Hok.
  - revert s Hok. induction slots as [|x slots IH]; intros s Hok; [done|]. simpl. rewrite IH by (by apply next_vote_state_ok).
    unfold process_next_vote_slot. repeat case_match; done.
  - revert s Hok. induction slots as [|x slots IH]; intros s Hok; [done|]. simpl. rewrite IH by (by apply next_vote_state_ok).
    unfold process_next_vote_slot. repeat case_match; done.
  - revert s Hok. induction slots as [|x slots IH]; intros s Hok; [done|]. simpl. rewrite IH by (by apply next_vote_state_ok).
    unfold process_next_vote_slot. repeat case_match; done.
Qed.
Lemma process_timestamp_ok slot timestamp s s1 :
  process_timestamp slot timestamp s = Ok s1 → s1 = set_last_timestamp (mkBlockTimestamp slot timestamp) s.
Proof. intros H. pose proof (process_timestamp_result slot timestamp s) as Hr. by rewrite H in Hr. Qed.

(** *** Proposed towers *)
Lemma new_tower_rest s new root timestamp epoch slot features s1 :
  len (epoch_credits s) ≤ MAX_EPOCH_CREDITS_HISTORY →
  process_new_vote_state s new root timestamp epoch slot features = Ok s1 →
  new ≠ [] ∧ prior_voters s1 = prior_voters s ∧ len (epoch_credits s1) ≤ MAX_EPOCH_CREDITS_HISTORY.
Proof.
  intros Hc. unfold process_new_vote_state. destruct (list.last new) as [last_vote|] eqn:Hl; [|done].
  destruct (_ <? _); [done|]. destruct (check_root_rollback _ _); [|done..]. cbn [rbind].
  destruct (check_new_votes _ _ _); [|done..]. cbn [rbind].
  destruct (match root with Some _ => _ | None => _ end) as [[k earned]| |]; [|done..]. cbn [rbind].
  destruct (check_no_rollback _ _); [|done..]. cbn [rbind].
  set (s0 := if bool_decide _ then s else _).
  assert (prior_voters s0 = prior_voters s ∧ len (epoch_credits s0) ≤ MAX_EPOCH_CREDITS_HISTORY) as [Hp Hc0].
  { unfold s0. case_bool_decide; [done|]. split; [done|]. by apply increment_credits_ok. }
  intros Hrun. split; [by intros ->|]. destruct timestamp as [ts|]; cbn [rbind] in Hrun; [|by injection Hrun as <-].
  destruct (process_timestamp _ ts s0) as [s2| |] eqn:Hts; [|done..]. apply process_timestamp_ok in Hts as ->.
  by injection Hrun as <-.
Qed.
Lemma process_update_ok s hashes epoch slot u features s1 :
  vote_state_ok s → do_process_vote_state_update s hashes epoch slot u features = Ok s1 →
  vote_state_ok s1 ∧ root_le (root_slot s) (root_slot s1) ∧ node_pubkey s1 = node_pubkey s ∧
  authorized_withdrawer s1 = authorized_withdrawer s ∧ commission s1 = commission s.
Proof.
  intros [Ht Hc Hv Hp]. unfold do_process_vote_state_update.
  destruct (check_update_vote_state_slots_are_valid _ _ _) as [u'| |]; [|done..]. cbn [rbind]. intros Hrun.
  destruct (new_tower_rest _ _ _ _ _ _ _ _ Hc Hrun) as (Hne & Hpr & Hcr).
  pose proof (process_new_vote_state_spec s _ (vsu_root u') (vsu_timestamp u') epoch slot features Ht Hne) as Hspec.
  rewrite Hrun in Hspec. destruct Hspec as [[Hto Hle _] [Hlo Hro _ Hn Hw Hco Hvo]]. subst.
  split_and!; try congruence. split; [|done|by rewrite Hvo|by rewrite Hpr].
  rewrite Hro. by apply (tower_ok_lockouts _ _ _ (eq_sym Hlo)).
Qed.

(** ** Every step keeps the invariant *)
Lemma default_ok : vote_state_ok vote_state_default.
Proof. split; [|done..]. by split; [apply stacked_nil|constructor| |constructor|intros []]. Qed.
Lemma new_state_ok vote_init clock : vote_state_ok (vote_state_new vote_init clock).
Proof.
  split; [|done| |done]; [by split; [apply stacked_nil|constructor| |constructor|intros []]|].
  apply rising_cons. by split.
Qed.
Lemma forget_latency_ok s : vote_state_ok s → vote_state_ok (forget_latency s).
Proof.
  intros [Ht Hc Hv Hp]. split; try done. apply (tower_ok_lockouts _ (votes s)); [|done]. simpl. by rewrite landed_lockouts.
Qed.
Lemma stored_ok v s : vote_state_ok s → stored_as v s → vote_state_ok (convert_to_current v).
Proof. intros Hs [->| ->]; [done|]. by apply forget_latency_ok. Qed.

(** what a step on an initialized account may change without the withdrawer *)
Record voter_step (s : VoteState) (st : VoteState) : Prop := {
  vt_root : root_le (root_slot s) (root_slot st);
  vt_node : node_pubkey st = node_pubkey s;
  vt_withdrawer : authorized_withdrawer st = authorized_withdrawer s;
  vt_commission : commission st = commission s }.
(** the voter of the current epoch *)
Definition current_voter (cache : SysvarCache) (s : VoteState) (k : Pubkey) : Prop :=
  ∃ clock s1, sc_clock cache = Some clock ∧ get_and_update_authorized_voter (clock_epoch clock) s = Ok (k, s1).

Lemma root_le_refl r : root_le r r.
Proof. destruct r; simpl; [lia|done]. Qed.
Lemma vote_step_ok cache features signed v st :
  vote_state_ok (convert_to_current v) → vote_step cache features signed v st →
  vote_state_ok st ∧
  (is_uninitialized v = true ∨ signed (authorized_withdrawer (convert_to_current v)) ∨
   (∃ voter, current_voter cache (convert_to_current v) voter ∧ signed voter) ∧ voter_step (convert_to_current v) st).
Proof.
  intros Hok. destruct 1 as [vote_init clock ? ? ?|clock hashes voter s1 vote s2 s3 Hc Hh Hu Hg Hs Hp Hts
    |clock hashes voter s1 u s2 Hc Hh Hu Hg Hs Hp|clock key verify s1 Hc Hset Hver|key Hs|key Hs Hs'|c Hs|clock Hc Hs Hx].
  - split; [apply new_state_ok|by left].
  - destruct (updated_voter_ok _ _ _ _ Hok Hg) as [Hok1 Heq].
    destruct (process_vote_ok _ _ _ _ _ _ _ _ Hok1 Hp) as (Hok2 & Hr & Hn & Hw & Hco). rewrite Heq in Hr, Hn, Hw, Hco.
    assert (vote_state_ok s3 ∧ voter_step (convert_to_current v) s3) as [Hok3 Hst].
    { destruct Hts as [[_ ->]|(slot & ts & _ & ->%process_timestamp_ok)]; [by split|]. by split; destruct Hok2. }
    split; [done|]. right; right. split; [|done]. exists voter. split; [by exists clock, s1|done].
  - destruct (updated_voter_ok _ _ _ _ Hok Hg) as [Hok1 Heq].
    destruct (process_update_ok _ _ _ _ _ _ _ Hok1 Hp) as (Hok2 & Hr & Hn & Hw & Hco). rewrite Heq in Hr, Hn, Hw, Hco.
    split; [done|]. right; right. split; [|by split]. exists voter. split; [by exists clock, s1|done].
  - destruct (new_voter_ok _ _ _ _ _ _ Hok Hset) as (Hok1 & Heq & voter & s0 & Hg & Hvok). split; [done|]. right.
    destruct (Hver voter Hvok) as [Hs|Hs]; [right|by left]. split; [exists voter; split; [by exists clock, s0|done]|].
    rewrite Heq. split; try done. apply root_le_refl.
  - split; [|by right; left]. by destruct Hok.
  - split; [|by right; left]. by destruct Hok.
  - split; [|by right; left]. by destruct Hok.
  - split; [apply default_ok|by right; left].
Qed.

(** ** The program *)
Definition vote_typed `{!Bincode VoteStateVersions} (a : AccountSharedData) : Prop :=
  owner a = vote_program_id → ∀ v, shared_deserialize_data a = Some v → vote_state_ok (convert_to_current v).

Section program.
Context `{PubkeyDisplay, Sha256, !Bincode VoteStateVersions, !BincodeLaws VoteStateVersions, !Bincode VoteInstruction}.

(** C8: the vote program keeps vote accounts well typed.  Whatever instruction it runs
    with success, if every vote account among the accounts of the transaction that holds a
    vote state holds one that satisfies the invariant, then so it is afterwards. *)
Theorem vote_program_keeps_types ic s s' :
  get_current_instruction_context (transaction_context s) = Ok ic →
  vote_process_instruction s = (Ok tt, s') → Forall vote_typed (ivals s) → Forall vote_typed (ivals s').
Proof.
  intros Hic Hrun Hty. destruct (vote_instruction_effect s s' ic Hic Hrun) as (ia & _ & [Hlen Hacc Ho]).
  rewrite Forall_lookup in *. intros j b' Hb'.
  destruct (lookup_lt_is_Some_2 (ivals s) j) as [b Hb]; [rewrite <-Hlen; by eapply lookup_lt_Some|].
  destruct (decide (j = N.to_nat (index_in_transaction ia))) as [->|Hne].
  - destruct Hacc as (a & a' & v & v' & Ha & Ha' & Hv & Hv' & Ho' & Hst & _). simplify_eq.
    intros Hown v2 Hv2. simplify_eq. rewrite Ho' in Hown. specialize (Hty _ _ Ha Hown v Hv).
    destruct Hst as [->|(st & Hst & Hsto)]; [done|].
    destruct (vote_step_ok _ _ _ _ _ Hty Hst) as [Hok _]. by eapply stored_ok.
  - destruct (Ho j b Hne Hb) as (b2 & Hb2 & Hd & Hw & _). simplify_eq. intros Hown v Hv.
    apply (Hty j b Hb); [congruence|]. unfold shared_deserialize_data in *. by rewrite <-Hd.
Qed.

(** C14: a vote account obeys its authorities.  Without the signature of its withdrawer, no
    instruction that succeeds takes lamports from an initialized vote account or changes
    its withdrawer, its node or its commission, or moves its root back; and its
    state is the same unless the voter of the current epoch signed. *)
Theorem vote_account_guarded ic s s' ia a a' v :
  get_current_instruction_context (transaction_context s) = Ok ic →
  vote_process_instruction s = (Ok tt, s') →
  getN (instruction_accounts ic) 0 = Some ia →
  ivals s !! N.to_nat (index_in_transaction ia) = Some a →
  ivals s' !! N.to_nat (index_in_transaction ia) = Some a' →
  shared_deserialize_data a = Some v → is_uninitialized v = false → vote_state_ok (convert_to_current v) →
  ¬ signed_in ic (transaction_context s) (authorized_withdrawer (convert_to_current v)) →
  lamports a ≤ lamports a' ∧
  ∃ v', shared_deserialize_data a' = Some v' ∧ voter_step (convert_to_current v) (convert_to_current v') ∧
    (v' = v ∨ ∃ voter, current_voter (sysvar_cache s) (convert_to_current v) voter ∧
                signed_in ic (transaction_context s) voter).
Proof.
  intros Hic Hrun Hia Ha Ha' Hv Hu Hok Hns.
  destruct (vote_instruction_effect s s' ic Hic Hrun) as (ia2 & Hia2 & [_ Hacc _]). simplify_eq.
  destruct Hacc as (b & b' & v1 & v' & Hb & Hb' & Hv1 & Hv' & _ & Hst & Hlam). simplify_eq. split.
  { destruct (N.le_gt_cases (lamports a) (lamports a')) as [|Hlt]; [done|]. by apply Hlam in Hlt. }
  exists v'. split; [done|]. destruct Hst as [->|(st & Hst & Hsto)].
  { split; [|by left]. split; try done. apply root_le_refl. }
  destruct (vote_step_ok _ _ _ _ _ Hok Hst) as [_ [|[|[Hvo Hvs]]]]; [congruence|done|].
  split; [|by right]. destruct Hvs as [Hr Hn Hw Hc].
  destruct Hsto as [->| ->]; by split.
Qed.
End program.
