(* ===== verification/VoteWire.v ===== *)
(** * The formats of the vote program

    [bincode]'s format of the vote instructions and of the stored vote states, with the
    compact form of a proposed tower; the round trips, and the room a vote state needs.  The compact form
    uses integers of variable size ([sdk/program/src/serde_varint.rs]). *)

From S2P Require Import Prelude Codec WireFormat.
From S2P Require Import Sdk InvokeContext VoteState VoteProcess VoteRules VoteProgram VoteTyped.

(** ** Integers of variable size: seven bits a byte, lowest first; the top bit says that more follow *)
Definition U64_BITS : N := 64.

(** [while self >= 0x80]; a [u64] has at most ten groups of seven bits *)
Fixpoint varint_loop (fuel : nat) (value : N) : list N :=
  match fuel with
  | O => []
  | S fuel =>
      if 0x80 <=? value
      then as_u8 (N.lor (N.land value 0x7F) 0x80) :: varint_loop fuel (N.shiftr value 7)
      else [as_u8 value]
  end.
Definition serialize_varint (value : N) : list N := varint_loop 10 value.

Inductive VarintError := InvalidSequence | LastByteTruncated | InvalidTrailingZeros | LeftShiftOverflows.
(** the value and the bytes that are left *)
Fixpoint varint_visit (fuel : nat) (out shift : N) (bytes : list N) : result VarintError (N * list N) :=
  match fuel with
  | O => Err LeftShiftOverflows
  | S fuel =>
      if negb (shift <? U64_BITS) then Err LeftShiftOverflows else
      match bytes with
      | [] => Err InvalidSequence
      | byte :: rest =>
          let out := N.lor out (as_u64 (N.shiftl (N.land byte 0x7F) shift)) in
          if N.land byte 0x80 =? 0 then
            if negb (as_u8 (N.shiftr out shift) =? byte) then Err LastByteTruncated else
            if (byte =? 0) && (negb (shift =? 0) || negb (out =? 0)) then Err InvalidTrailingZeros else
            Ok (out, rest)
          else varint_visit fuel out (shift + 7) rest
      end
  end.
Definition deserialize_varint : list N → result VarintError (N * list N) := varint_visit 10 0 0.

(** ** One byte sequence for each number *)

(** the digits of a number, without the machine operations *)
Fixpoint digits (fuel : nat) (m : N) : list N :=
  match fuel with
  | O => []
  | S fuel => if 128 <=? m then m `mod` 128 + 128 :: digits fuel (m / 128) else [m]
  end.
Lemma varint_loop_digits fuel : ∀ m, varint_loop fuel m = digits fuel m.
Proof.
  induction fuel as [|fuel IH]; intros m; [done|]. cbn [varint_loop digits].
  destruct (N.leb_spec 128 m) as [Hm|Hm].
  - rewrite land_127, shiftr_7, IH.
    pose proof (N.mod_lt m 128 ltac:(lia)). rewrite lor_128 by done. f_equal. unfold as_u8. apply N.mod_small. lia.
  - f_equal. unfold as_u8. apply N.mod_small. lia.
Qed.

(** what a byte adds, and what is left of it when the shift drops bits *)
Definition kept_bits (byte shift : N) : N := (byte `mod` 128) `mod` 2 ^ (64 - shift).
Lemma read_byte out shift byte :
  out < 2 ^ shift → shift < 64 →
  N.lor out (as_u64 (N.shiftl (N.land byte 0x7F) shift)) = out + kept_bits byte shift * 2 ^ shift.
Proof.
  intros Ho Hs. rewrite land_127, N.shiftl_mul_pow2. unfold as_u64.
  change 18446744073709551616 with (2 ^ 64). replace 64 with ((64 - shift) + shift) at 1 by lia.
  rewrite N.pow_add_r, N.Div0.mul_mod_distr_r. by apply lor_disjoint.
Qed.
Lemma shiftr_read out shift k : out < 2 ^ shift → N.shiftr (out + k * 2 ^ shift) shift = k.
Proof.
  intros Ho. rewrite N.shiftr_div_pow2, N.div_add by (apply N.pow_nonzero; lia).
  by rewrite N.div_small.
Qed.
Lemma kept_bits_all byte shift : (byte `mod` 128) * 2 ^ shift < 2 ^ 64 → shift < 64 → kept_bits byte shift = byte `mod` 128.
Proof.
  intros Hb Hs. apply N.mod_small. replace 64 with ((64 - shift) + shift) in Hb by lia.
  rewrite N.pow_add_r in Hb. apply N.mul_lt_mono_pos_r in Hb; [done|].
  apply N.neq_0_lt_0, N.pow_nonzero. lia.
Qed.

Lemma visit_digits fuel : ∀ m out shift rest,
  out < 2 ^ shift → m * 2 ^ shift < 2 ^ 64 → m ≠ 0 ∨ shift = 0 ∧ out = 0 → m < 128 ^ N.of_nat fuel → (0 < fuel)%nat →
  varint_visit fuel out shift (digits fuel m ++ rest) = Ok (out + m * 2 ^ shift, rest).
Proof.
  induction fuel as [|fuel IH]; intros m out shift rest Ho Hm Hz Hf Hpos; [lia|].
  assert (shift < 64) as Hs.
  { destruct Hz as [Hz|[-> _]]; [|lia]. apply (N.pow_lt_mono_r_iff 2); [lia|]. nia. }
  cbn [varint_visit digits]. rewrite (proj2 (N.ltb_lt shift U64_BITS)) by done. cbn [negb].
  destruct (N.leb_spec 128 m) as [Hge|Hlt]; cbn [app].
  - pose proof (N.mod_lt m 128 ltac:(lia)) as Hr. pose proof (N.div_mod m 128 ltac:(lia)) as Hdm.
    set (q := m / 128) in *. set (r := m `mod` 128) in *. clearbody q r. subst m.
    assert ((r + 128) `mod` 128 = r) as Hb.
    { rewrite <-N.Div0.add_mod_idemp_r. change (128 `mod` 128) with 0. rewrite N.add_0_r. by apply N.mod_small. }
    rewrite read_byte, land_128 by (done || lia). rewrite (proj2 (N.ltb_ge (r + 128) 128)) by apply N.le_add_l.
    assert (r * 2 ^ shift < 2 ^ 64) by nia. rewrite kept_bits_all, Hb by (rewrite ?Hb; done). clear Hb.
    rewrite Nat2N.inj_succ, N.pow_succ_r' in Hf.
    rewrite IH; rewrite ?N.pow_add_r; change (2 ^ 7) with 128; [f_equal; f_equal; nia|nia|nia|left; lia|lia|].
    destruct fuel; [|lia]. change (128 ^ N.of_nat 0) with 1 in Hf. lia.
  - assert (m `mod` 128 = m) as Hb by (by apply N.mod_small).
    rewrite read_byte, land_128 by (done || lia). rewrite (proj2 (N.ltb_lt m 128)) by lia.
    rewrite kept_bits_all, Hb by (rewrite ?Hb; done). rewrite shiftr_read by done.
    unfold as_u8. rewrite (N.mod_small m 256), N.eqb_refl by lia. cbn [negb].
    destruct (N.eqb_spec m 0) as [->|Hnz]; cbn [andb]; [|done].
    destruct Hz as [|[-> ->]]; [done|]. done.
Qed.

Lemma digits_next fuel r q : r < 128 → q ≠ 0 → digits (S fuel) (r + 128 * q) = (r + 128) :: digits fuel q.
Proof.
  intros Hr Hq. cbn [digits]. rewrite (proj2 (N.leb_le 128 _)) by lia.
  rewrite N.mul_comm, N.Div0.mod_add, N.div_add by lia.
  by rewrite N.mod_small, N.div_small by done.
Qed.
(** a byte sequence that is read is the one that is written *)
Lemma visit_digits_inv fuel : ∀ out shift bytes n rest,
  Forall is_byte bytes → out < 2 ^ shift → varint_visit fuel out shift bytes = Ok (n, rest) →
  ∃ m, bytes = digits fuel m ++ rest ∧ n = out + m * 2 ^ shift ∧ m * 2 ^ shift < 2 ^ 64 ∧
    (m ≠ 0 ∨ shift = 0 ∧ out = 0) ∧ shift < 64.
Proof.
  induction fuel as [|fuel IH]; intros out shift bytes n rest Hb Ho; [done|]. cbn [varint_visit].
  destruct (N.ltb_spec shift U64_BITS) as [Hs|]; [|done]. unfold U64_BITS in Hs. cbn [negb].
  destruct bytes as [|byte bytes]; [done|]. apply list.Forall_cons in Hb as [Hbyte Hb].
  unfold is_byte in Hbyte. rewrite read_byte, land_128 by done.
  destruct (N.ltb_spec byte 128) as [Hlow|Hhigh].
  - rewrite shiftr_read by done. assert (byte `mod` 128 = byte) as Hmod by (by apply N.mod_small).
    unfold kept_bits. rewrite Hmod. pose proof (N.Div0.mod_le byte (2 ^ (64 - shift))) as Hle.
    unfold as_u8. rewrite (N.mod_small _ 256) by lia.
    destruct (N.eqb_spec (byte `mod` 2 ^ (64 - shift)) byte) as [Heq|]; [|done]. cbn [negb]. rewrite Heq.
    destruct ((byte =? 0) && _) eqn:Hz; [done|]. intros [= <- <-]. exists byte. split_and!; [|done| |..].
    + cbn [digits]. by rewrite (proj2 (N.leb_gt 128 byte)).
    + replace 64 with ((64 - shift) + shift) by lia. rewrite N.pow_add_r.
      apply N.mul_lt_mono_pos_r; [apply N.neq_0_lt_0, N.pow_nonzero; lia|]. rewrite <-Heq.
      apply N.mod_lt, N.pow_nonzero. lia.
    + destruct (N.eqb_spec byte 0) as [->|]; [right|by left]. rewrite N.mul_0_l, N.add_0_r in Hz.
      destruct (N.eqb_spec shift 0), (N.eqb_spec out 0); done.
    + done.
  - assert (byte `mod` 128 = byte - 128) as Hmod.
    { replace byte with ((byte - 128) + 1 * 128) at 1 by lia. rewrite N.Div0.mod_add. apply N.mod_small. lia. }
    intros Hrest. assert (kept_bits byte shift * 2 ^ shift ≤ (byte - 128) * 2 ^ shift) as Hk.
    { apply N.mul_le_mono_r. unfold kept_bits. rewrite Hmod. apply N.Div0.mod_le. }
    apply IH in Hrest as (q & -> & -> & Hq & Hnz & Hs'); [|done|].
    2:{ rewrite N.pow_add_r. change (2 ^ 7) with 128. nia. }
    assert ((byte - 128) * 2 ^ shift < 2 ^ 64) as Hfits.
    { assert (2 ^ shift ≤ 2 ^ 57) by (apply N.pow_le_mono_r; lia). change (2 ^ 64) with (2 ^ 57 * 128). nia. }
    rewrite kept_bits_all, Hmod by (rewrite ?Hmod; done || lia).
    destruct Hnz as [Hnz|[? _]]; [|lia]. exists ((byte - 128) + 128 * q). rewrite N.pow_add_r in *. change (2 ^ 7) with 128 in *.
    split_and!; [|nia| |left; lia|done].
    + rewrite digits_next by lia. cbn [app]. f_equal. lia.
    + assert (q + 1 ≤ 2 ^ (57 - shift)) as Hq1.
      { enough (q < 2 ^ (57 - shift)) by lia. apply (N.mul_lt_mono_pos_r (2 ^ shift * 128)).
        - pose proof (N.pow_nonzero 2 shift). lia.
        - replace (2 ^ 64) with (2 ^ (57 - shift) * (2 ^ shift * 128)) in Hq; [done|].
          change 128 with (2 ^ 7). rewrite <-!N.pow_add_r. f_equal. lia. }
      replace (2 ^ 64) with (2 ^ (57 - shift) * (2 ^ shift * 128)).
      2:{ change 128 with (2 ^ 7). rewrite <-!N.pow_add_r. f_equal. lia. }
      assert (0 < 2 ^ shift) by (apply N.neq_0_lt_0, N.pow_nonzero; lia).
      assert (byte - 128 < 128) by lia. clear -Hq1 H H0. 
      assert ((q + 1) * (2 ^ shift * 128) ≤ 2 ^ (57 - shift) * (2 ^ shift * 128)) by (by apply N.mul_le_mono_r). nia.
Qed.

(** every 64-bit number is written as one byte sequence, and only that one is read as it *)
Lemma varint_read_write n rest : n ≤ u64_max → deserialize_varint (serialize_varint n ++ rest) = Ok (n, rest).
Proof.
  intros Hn. unfold deserialize_varint, serialize_varint. rewrite varint_loop_digits.
  unfold u64_max in Hn. rewrite visit_digits; [f_equal; f_equal; rewrite N.pow_0_r; lia|by vm_compute| |auto| |lia].
  - rewrite N.pow_0_r. change (2 ^ 64) with 18446744073709551616. lia.
  - change (128 ^ N.of_nat 10) with 1180591620717411303424. lia.
Qed.
Lemma varint_write_read bytes n rest :
  Forall is_byte bytes → deserialize_varint bytes = Ok (n, rest) → bytes = serialize_varint n ++ rest ∧ n ≤ u64_max.
Proof.
  intros Hb (m & -> & -> & Hm & _)%visit_digits_inv; [|done|by vm_compute].
  unfold serialize_varint. rewrite varint_loop_digits, N.pow_0_r, N.mul_1_r in *. split; [done|].
  change (2 ^ 64) with 18446744073709551616 in Hm. unfold u64_max. lia.
Qed.

Definition c_varint : codec N := mkCodec
  (λ n, if n <=? u64_max then Some (serialize_varint n) else None)
  (λ bs, match deserialize_varint bs with Ok x => Some x | _ => None end).
#[export] Instance c_varint_ok : CodecOk c_varint.
Proof.
  intros n bs rest. unfold c_varint. cbn [enc dec]. destruct (N.leb_spec n u64_max); [|done].
  intros [= <-]. by rewrite varint_read_write.
Qed.

(** ** More codecs *)
Definition c_bool : codec bool := mkCodec
  (λ b : bool, Some [if b then 1 else 0])
  (λ bs, match bs with 0 :: r => Some (false, r) | 1 :: r => Some (true, r) | _ => None end).
(** an [i64] in two's complement *)
Definition i64_of (n : N) : Z :=
  if n <? 2 ^ 63 then Z.of_N n else (Z.of_N n - 2 ^ 64)%Z.
Definition c_i64 : codec Z := mkCodec
  (λ z, if (bool_decide (- 2 ^ 63 ≤ z < 2 ^ 63)%Z) then enc u64 (Z.to_N (z mod 2 ^ 64)) else None)
  (λ bs, '(n, r) ← dec u64 bs; Some (i64_of n, r)).
(** an array: as many elements as its type says *)
Definition c_array {A} (n : nat) (c : codec A) : codec (list A) := mkCodec
  (λ l, if (length l =? n)%nat then enc_all c l else None)
  (λ bs, dec_all c n bs).
Fixpoint risingb (l : AuthorizedVoters) : bool :=
  match l with
  | [] => true
  | (e, _) :: l' => match l' with [] => true | (e', _) :: _ => (e <? e') && risingb l' end
  end.
(** a [BTreeMap]: its entries are written in order, and inserted one by one when read *)
Definition c_voters : codec AuthorizedVoters := mkCodec
  (λ l, if risingb l then enc (c_vec (c_pair u64 c_pubkey)) l else None)
  (λ bs, '(l, r) ← dec (c_vec (c_pair u64 c_pubkey)) bs;
         Some (foldl (λ m x, av_insert x.1 x.2 m) [] l, r)).

#[export] Instance c_bool_ok : CodecOk c_bool.
Proof. intros [] bs rest [= <-]; done. Qed.
Lemma i64_roundtrip z : (- 2 ^ 63 ≤ z < 2 ^ 63)%Z → i64_of (Z.to_N (z mod 2 ^ 64)) = z.
Proof.
  intros Hz. unfold i64_of. pose proof (Z.mod_pos_bound z (2 ^ 64) ltac:(lia)) as Hm.
  pose proof (Z.div_mod z (2 ^ 64) ltac:(lia)) as Hd.
  destruct (N.ltb_spec (Z.to_N (z mod 2 ^ 64)) (2 ^ 63)) as [Hlt|Hge]; rewrite Z2N.id by lia.
  - assert (z mod 2 ^ 64 < 2 ^ 63)%Z by lia. nia.
  - assert (2 ^ 63 ≤ z mod 2 ^ 64)%Z by lia. nia.
Qed.
#[export] Instance c_i64_ok : CodecOk c_i64.
Proof.
  intros z bs rest. unfold c_i64. cbn [enc dec]. case_bool_decide as Hz; [|done]. intros Hb.
  rewrite (dec_enc (c := u64) _ _ _ Hb). cbn [mbind option_bind]. by rewrite i64_roundtrip.
Qed.
#[export] Instance c_array_ok {A} n (c : codec A) : CodecOk c → CodecOk (c_array n c).
Proof.
  intros Hc l bs rest. unfold c_array. cbn [enc dec]. destruct (Nat.eqb_spec (length l) n) as [<-|]; [|done].
  by apply dec_enc_all.
Qed.

(** inserting rising keys keeps the list *)
Lemma risingb_app l e k : risingb (l ++ [(e, k)]) = true → risingb l = true.
Proof.
  induction l as [|[e' k'] l IH]; [done|]. destruct l as [|[e2 k2] l]; [done|].
  simpl in *. intros [H1 H2]%andb_prop. by rewrite H1, (IH H2).
Qed.
Lemma av_insert_last l e k : risingb (l ++ [(e, k)]) = true → av_insert e k l = l ++ [(e, k)].
Proof.
  induction l as [|[e' k'] l IH]; [done|]. intros Hr. 
  assert (e' < e) as Hlt.
  { clear IH. revert e' k' Hr. induction l as [|[e2 k2] l IH2]; intros e' k' Hr; simpl in Hr.
    - apply andb_prop in Hr as [Hr _]. by apply N.ltb_lt.
    - apply andb_prop in Hr as [Hr1 Hr2]. apply N.ltb_lt in Hr1. specialize (IH2 e2 k2 Hr2). lia. }
  simpl. rewrite (proj2 (N.ltb_ge e e')), (proj2 (N.eqb_neq e e')) by lia. f_equal. apply IH.
  simpl in Hr. destruct l as [|[e2 k2] l]; [done|]. simpl in *. by apply andb_prop in Hr as [_ ?].
Qed.
Lemma voters_insert_all l : risingb l = true → foldl (λ m x, av_insert x.1 x.2 m) [] l = l.
Proof.
  induction l as [|[e k] l IH] using rev_ind; [done|]. intros Hr. rewrite foldl_snoc.
  rewrite IH by (by eapply risingb_app). by apply av_insert_last.
Qed.
#[export] Instance c_voters_ok : CodecOk c_voters.
Proof.
  intros l bs rest. unfold c_voters. cbn [enc dec]. destruct (risingb l) eqn:Hr; [|done]. intros Hb.
  rewrite (dec_enc (c := c_vec (c_pair u64 c_pubkey)) _ _ _ Hb). cbn [mbind option_bind].
  by rewrite voters_insert_all.
Qed.

(** ** Vote states *)
Definition c_lockout : codec Lockout := c_map
  (λ '(slot, count), mkLockout slot count) (λ l, (lk_slot l, lk_confirmation_count l)) (c_pair u64 (c_int 4)).
Definition c_landed_vote : codec LandedVote := c_map
  (λ '(lat, l), mkLandedVote lat l) (λ v, (latency v, lockout v)) (c_pair c_u8 c_lockout).
Definition c_timestamp : codec BlockTimestamp := c_map
  (λ '(slot, timestamp), mkBlockTimestamp slot timestamp) (λ t, (bt_slot t, bt_timestamp t)) (c_pair u64 c_i64).
Definition c_prior_voters : codec (CircBuf (Pubkey * N * N)) := c_map
  (λ '(buf, (idx, is_empty)), mkCircBuf buf idx is_empty)
  (λ c, (circ_buf c, (circ_idx c, circ_is_empty c)))
  (c_pair (c_array 32 (c_pair (c_pair c_pubkey u64) u64)) (c_pair u64 c_bool)).
Definition c_credits : codec (list (N * N * N)) := c_vec (c_pair (c_pair u64 u64) u64).

Definition c_vote_state : codec VoteState := c_map
  (λ '(node, (withdrawer, (com, (vs, (root, (voters, (prior, (credits_, ts)))))))),
     mkVoteState node withdrawer com vs root voters prior credits_ ts)
  (λ s, (node_pubkey s, (authorized_withdrawer s, (commission s, (votes s, (root_slot s, (authorized_voters s,
          (prior_voters s, (epoch_credits s, last_timestamp s)))))))))
  (c_pair c_pubkey (c_pair c_pubkey (c_pair c_u8 (c_pair (c_vec c_landed_vote) (c_pair (c_option u64)
    (c_pair c_voters (c_pair c_prior_voters (c_pair c_credits c_timestamp)))))))).
Definition c_vote_state_1_14_11 : codec VoteState1_14_11 := c_map
  (λ '(node, (withdrawer, (com, (vs, (root, (voters, (prior, (credits_, ts)))))))),
     mkVoteState1_14_11 node withdrawer com vs root voters prior credits_ ts)
  (λ s, (v1_node_pubkey s, (v1_authorized_withdrawer s, (v1_commission s, (v1_votes s, (v1_root_slot s,
          (v1_authorized_voters s, (v1_prior_voters s, (v1_epoch_credits s, v1_last_timestamp s)))))))))
  (c_pair c_pubkey (c_pair c_pubkey (c_pair c_u8 (c_pair (c_vec c_lockout) (c_pair (c_option u64)
    (c_pair c_voters (c_pair c_prior_voters (c_pair c_credits c_timestamp)))))))).
Definition c_vote_state_0_23_5 : codec VoteState0_23_5 := c_map
  (λ '(node, (voter, (epoch, (prior, (withdrawer, (com, (vs, (root, (credits_, ts))))))))),
     mkVoteState0_23_5 node voter epoch prior withdrawer com vs root credits_ ts)
  (λ s, (v0_node_pubkey s, (v0_authorized_voter s, (v0_authorized_voter_epoch s, (v0_prior_voters s,
          (v0_authorized_withdrawer s, (v0_commission s, (v0_votes s, (v0_root_slot s, (v0_epoch_credits s,
            v0_last_timestamp s))))))))))
  (c_pair c_pubkey (c_pair c_pubkey (c_pair u64
    (c_pair (c_pair (c_array 32 (c_pair (c_pair (c_pair c_pubkey u64) u64) u64)) u64)
    (c_pair c_pubkey (c_pair c_u8 (c_pair (c_vec c_lockout) (c_pair (c_option u64) (c_pair c_credits c_timestamp))))))))).
Definition c_vote_state_versions : codec VoteStateVersions := c_enum
  (λ v, match v with
   | V0_23_5 s => enc_tag 0 c_vote_state_0_23_5 s
   | V1_14_11 s => enc_tag 1 c_vote_state_1_14_11 s
   | VCurrentVote s => enc_tag 2 c_vote_state s
   end)
  (λ tag, match tag with
   | 0 => dec_as c_vote_state_0_23_5 V0_23_5
   | 1 => dec_as c_vote_state_1_14_11 V1_14_11
   | 2 => dec_as c_vote_state VCurrentVote
   | _ => λ _, None
   end).

#[local] Ltac record_codec := apply c_map_ok; [apply _|by intros []].
#[export] Instance c_lockout_ok : CodecOk c_lockout.
Proof. record_codec. Qed.
#[export] Instance c_landed_vote_ok : CodecOk c_landed_vote.
Proof. record_codec. Qed.
#[export] Instance c_timestamp_ok : CodecOk c_timestamp.
Proof. record_codec. Qed.
#[export] Instance c_prior_voters_ok : CodecOk c_prior_voters.
Proof. record_codec. Qed.
#[export] Instance c_credits_ok : CodecOk c_credits.
Proof. apply _. Qed.
#[export] Instance c_vote_state_ok : CodecOk c_vote_state.
Proof. record_codec. Qed.
#[export] Instance c_vote_state_1_14_11_ok : CodecOk c_vote_state_1_14_11.
Proof. record_codec. Qed.
#[export] Instance c_vote_state_0_23_5_ok : CodecOk c_vote_state_0_23_5.
Proof. record_codec. Qed.
#[export] Instance c_vote_state_versions_ok : CodecOk c_vote_state_versions.
Proof. apply c_enum_ok. intros []; enum_case. Qed.

(** ** Proposed towers *)
Definition c_update : codec VoteStateUpdate := c_map
  (λ '(lockouts, (root, (hash, timestamp))), mkVoteStateUpdate lockouts root hash timestamp)
  (λ u, (vsu_lockouts u, (vsu_root u, (vsu_hash u, vsu_timestamp u))))
  (c_pair (c_vec c_lockout) (c_pair (c_option u64) (c_pair c_hash (c_option c_i64)))).
#[export] Instance c_update_ok : CodecOk c_update.
Proof. record_codec. Qed.
Definition c_compact : codec Compact.CompactVoteStateUpdate := c_map
  (λ '(root, (offsets, (hash, timestamp))), Compact.mkCompactVoteStateUpdate root offsets hash timestamp)
  (λ c, (Compact.compact_root c, (Compact.lockout_offsets c, (Compact.compact_hash c, Compact.compact_timestamp c))))
  (c_pair u64 (c_pair (c_short_vec (c_map (λ '(o, c), Compact.mkLockoutOffset o c)
     (λ l, (Compact.lo_offset l, Compact.lo_confirmation_count l)) (c_pair c_varint c_u8)))
     (c_pair c_hash (c_option c_i64)))).
#[export] Instance c_lockout_offset_ok : CodecOk (c_map (λ '(o, c), Compact.mkLockoutOffset o c)
     (λ l, (Compact.lo_offset l, Compact.lo_confirmation_count l)) (c_pair c_varint c_u8)).
Proof. record_codec. Qed.
#[export] Instance c_compact_ok : CodecOk c_compact.
Proof. record_codec. Qed.
(** [serde(with = "serde_compact_vote_state_update")] *)
Definition c_compact_update : codec VoteStateUpdate := mkCodec
  (λ u, match Compact.serialize_compact u with Ok c => enc c_compact c | _ => None end)
  (λ bs, '(c, r) ← dec c_compact bs;
         match Compact.deserialize_compact c with Ok u => Some (u, r) | _ => None end).

(** a slot is a [u64] *)
Definition slots_fit (u : VoteStateUpdate) : Prop :=
  Forall (λ l, lk_slot l ≤ u64_max) (vsu_lockouts u).
Lemma offsets_roundtrip l : ∀ slot offsets,
  Forall (λ l, lk_slot l ≤ u64_max) l → Compact.offsets_of slot l = Ok offsets →
  Compact.lockouts_of slot offsets = Ok l.
Proof.
  induction l as [|[s c] l IH]; intros slot offsets Hf; [by intros [= <-]|]. simpl.
  apply list.Forall_cons in Hf as [Hs Hf]. simpl in Hs. unfold checked_sub.
  destruct (N.leb_spec slot s) as [Hle|]; [|done]. simpl. destruct (_ <=? u8_max); [|done]. simpl.
  destruct (Compact.offsets_of s l) as [rest| |] eqn:Hr; [|done..]. intros [= <-]. simpl.
  unfold checked_add. replace (slot + (s - slot)) with s by lia. rewrite (proj2 (N.leb_le s u64_max)) by done.
  simpl. by rewrite (IH _ _ Hf Hr).
Qed.

(** what the compact form can hold: a root other than the mark for none *)
Lemma compact_roundtrip u c :
  slots_fit u → vsu_root u ≠ Some u64_max → Compact.serialize_compact u = Ok c → Compact.deserialize_compact c = Ok u.
Proof.
  intros Hf Hr. unfold Compact.serialize_compact, Compact.deserialize_compact.
  destruct (Compact.offsets_of _ _) as [offsets| |] eqn:Ho; [|done..]. simpl. intros [= <-]. simpl.
  assert ((if default u64_max (vsu_root u) =? u64_max then None else Some (default u64_max (vsu_root u))) = vsu_root u) as ->.
  { destruct (vsu_root u) as [r|]; simpl; [|done]. destruct (N.eqb_spec r u64_max) as [->|]; done. }
  rewrite (offsets_roundtrip _ _ _ Hf Ho). by destruct u.
Qed.
(** a well-formed tower can be written *)
Lemma offsets_total l : ∀ slot,
  stacked l → Forall counted l → (∀ v, head l = Some v → slot ≤ lv_slot v) →
  ∃ offsets, Compact.offsets_of slot (lockout <$> l) = Ok offsets ∧ length offsets = length l ∧
    Forall (λ o, Compact.lo_offset o ≤ foldr N.max 0 (lv_slot <$> l) ∧ Compact.lo_confirmation_count o ≤ 31) offsets.
Proof.
  induction l as [|v l IH]; intros slot Hst Hco Hh; [by exists []|]. rewrite !fmap_cons. cbn [Compact.offsets_of].
  apply stacked_cons in Hst as [Hf Hst]. apply list.Forall_cons in Hco as [[Hc1 Hc2] Hco].
  specialize (Hh v eq_refl). destruct (IH (lv_slot v) Hst Hco) as (offsets & Ho & Hl & Hb).
  { intros w Hw. destruct (Hf w Hw). lia. }
  unfold checked_sub, lv_slot, lv_confirmation_count, MAX_LOCKOUT_HISTORY in *. rewrite (proj2 (N.leb_le _ _) Hh). cbn [ok_or rbind].
  rewrite (proj2 (N.leb_le (lk_confirmation_count (lockout v)) u8_max)) by (unfold u8_max; lia). cbn [rbind].
  rewrite Ho. cbn [rbind]. eexists. split; [done|]. split; [simpl; by rewrite Hl|]. constructor; [simpl; lia|].
  eapply list.Forall_impl; [exact Hb|]. simpl. intros o [? ?]. lia.
Qed.

(** the timestamp is an [i64] *)
Definition timestamp_fits (t : option Z) : Prop := ∀ z, t = Some z → (- 2 ^ 63 ≤ z < 2 ^ 63)%Z.
Lemma u64_total : enc_total (λ n, n ≤ u64_max) u64.
Proof. intros n Hn. cbn [enc c_int]. rewrite (proj2 (N.ltb_lt _ _)); [by eexists|]. unfold u64_max in Hn. change (256 ^ N.of_nat 8) with 18446744073709551616. lia. Qed.
Lemma varint_total : enc_total (λ n, n ≤ u64_max) c_varint.
Proof. intros n Hn. cbn [enc c_varint]. rewrite (proj2 (N.leb_le _ _) Hn). by eexists. Qed.
Lemma timestamp_total : enc_total timestamp_fits (c_option c_i64).
Proof.
  intros [z|] Hz; [|by eexists]. specialize (Hz z eq_refl). cbn [enc c_option c_i64]. rewrite bool_decide_eq_true_2 by done.
  destruct (u64_total (Z.to_N (z mod 2 ^ 64))) as [bs Hbs]; [|rewrite Hbs; by eexists].
  pose proof (Z.mod_pos_bound z (2 ^ 64) ltac:(lia)). unfold u64_max. lia.
Qed.

(** The compact form loses nothing.  A well-formed tower with 64-bit slots and a root
    below the largest slot has a compact encoding, and the encoding is read back as
    the same tower, whatever bytes follow. *)
Theorem compact_tower_roundtrip root l hash timestamp :
  tower_ok root l → Forall (λ v, lv_slot v ≤ u64_max) l → hash_fits hash → timestamp_fits timestamp →
  (∀ r, root = Some r → r < u64_max) →
  let u := mkVoteStateUpdate (lockout <$> l) root hash timestamp in
  ∃ bs, enc c_compact_update u = Some bs ∧ ∀ rest, dec c_compact_update (bs ++ rest) = Some (u, rest).
Proof.
  intros [Hst Hco Hlen Hab _] Hfit Hhash Hts Hroot u.
  assert (slots_fit u) as Hsf.
  { unfold slots_fit, u. simpl. apply list.Forall_fmap. eapply list.Forall_impl; [exact Hfit|]. done. }
  destruct (offsets_total l (default 0 root) Hst Hco) as (offsets & Ho & Hl & Hb).
  { intros v Hv. destruct root as [r|]; simpl; [|lia]. destruct l as [|w l]; [done|]. injection Hv as ->.
    apply list.Forall_cons in Hab as [Hab _]. destruct Hab; lia. }
  assert (Compact.serialize_compact u = Ok (Compact.mkCompactVoteStateUpdate (default u64_max root) offsets hash timestamp)) as Hser.
  { unfold Compact.serialize_compact, u. simpl. by rewrite Ho. }
  assert (is_Some (enc c_compact (Compact.mkCompactVoteStateUpdate (default u64_max root) offsets hash timestamp))) as [bs Hbs].
  { eapply (map_total _ _ _ _ (pair_total _ _ _ _ u64_total (pair_total _ _ _ _
      (short_total _ _ (map_total _ _ _ _ (pair_total _ _ _ _ varint_total u8_total)))
      (pair_total _ _ _ _ hash_total timestamp_total)))).
    simpl. split_and!; try done.
    - destruct root as [r|]; simpl; [|done]. specialize (Hroot r eq_refl). lia.
    - split.
      + unfold len in *. rewrite Hl. unfold MAX_LOCKOUT_HISTORY, u16_max in *. lia.
      + eapply list.Forall_impl; [exact Hb|]. simpl. intros o [Ho1 Ho2]. unfold is_byte. split; [|lia].
        etransitivity; [exact Ho1|]. clear -Hfit.
        induction Hfit as [|x l Hx _ IH]; [done|]. rewrite fmap_cons. cbn [foldr]. lia. }
  exists bs. unfold c_compact_update. cbn [enc dec]. rewrite Hser. split; [done|]. intros rest.
  rewrite (dec_enc (c := c_compact) _ _ _ Hbs). cbn [mbind option_bind].
  rewrite (compact_roundtrip u _ Hsf); [done| |done]. intros Hu. simpl in Hu. specialize (Hroot _ Hu). lia.
Qed.

(** ** Instructions *)
Definition c_vote_init : codec VoteInit := c_map
  (λ '(node, (voter, (withdrawer, com))), mkVoteInit node voter withdrawer com)
  (λ i, (init_node_pubkey i, (init_authorized_voter i, (init_authorized_withdrawer i, init_commission i))))
  (c_pair c_pubkey (c_pair c_pubkey (c_pair c_pubkey c_u8))).
Definition c_vote_authorize : codec VoteAuthorize := c_enum
  (λ a, match a with Voter => enc_tag 0 c_unit () | Withdrawer => enc_tag 1 c_unit () end)
  (λ tag, match tag with
   | 0 => dec_as c_unit (λ _, Voter)
   | 1 => dec_as c_unit (λ _, Withdrawer)
   | _ => λ _, None
   end).
Definition c_vote : codec Vote := c_map
  (λ '(slots, (hash, timestamp)), mkVote slots hash timestamp)
  (λ v, (vote_slots v, (vote_hash v, vote_timestamp v)))
  (c_pair (c_vec u64) (c_pair c_hash (c_option c_i64))).
Definition c_authorize_with_seed : codec VoteAuthorizeWithSeedArgs := c_map
  (λ '(kind, (owner, (seed, new))), mkVoteAuthorizeWithSeedArgs kind owner seed new)
  (λ a, (authorization_type a, (current_authority_derived_key_owner a,
          (current_authority_derived_key_seed a, new_authority a))))
  (c_pair c_vote_authorize (c_pair c_pubkey (c_pair c_bytes c_pubkey))).
Definition c_authorize_checked_with_seed : codec VoteAuthorizeCheckedWithSeedArgs := c_map
  (λ '(kind, (owner, seed)), mkVoteAuthorizeCheckedWithSeedArgs kind owner seed)
  (λ a, (checked_authorization_type a, (checked_derived_key_owner a, checked_derived_key_seed a)))
  (c_pair c_vote_authorize (c_pair c_pubkey c_bytes)).
Definition c_vote_instruction : codec VoteInstruction := c_enum
  (λ i, match i with
   | VInitializeAccount init => enc_tag 0 c_vote_init init
   | VAuthorize key kind => enc_tag 1 (c_pair c_pubkey c_vote_authorize) (key, kind)
   | VVote v => enc_tag 2 c_vote v
   | VWithdraw l => enc_tag 3 u64 l
   | UpdateValidatorIdentity => enc_tag 4 c_unit ()
   | UpdateCommission c => enc_tag 5 c_u8 c
   | VoteSwitch v h => enc_tag 6 (c_pair c_vote c_hash) (v, h)
   | AuthorizeChecked kind => enc_tag 7 c_vote_authorize kind
   | UpdateVoteState u => enc_tag 8 c_update u
   | UpdateVoteStateSwitch u h => enc_tag 9 (c_pair c_update c_hash) (u, h)
   | AuthorizeWithSeed a => enc_tag 10 c_authorize_with_seed a
   | AuthorizeCheckedWithSeed a => enc_tag 11 c_authorize_checked_with_seed a
   | CompactUpdateVoteState u => enc_tag 12 c_compact_update u
   | CompactUpdateVoteStateSwitch u h => enc_tag 13 (c_pair c_compact_update c_hash) (u, h)
   end)
  (λ tag, match tag with
   | 0 => dec_as c_vote_init VInitializeAccount
   | 1 => dec_as (c_pair c_pubkey c_vote_authorize) (λ '(key, kind), VAuthorize key kind)
   | 2 => dec_as c_vote VVote
   | 3 => dec_as u64 VWithdraw
   | 4 => dec_as c_unit (λ _, UpdateValidatorIdentity)
   | 5 => dec_as c_u8 UpdateCommission
   | 6 => dec_as (c_pair c_vote c_hash) (λ '(v, h), VoteSwitch v h)
   | 7 => dec_as c_vote_authorize AuthorizeChecked
   | 8 => dec_as c_update UpdateVoteState
   | 9 => dec_as (c_pair c_update c_hash) (λ '(u, h), UpdateVoteStateSwitch u h)
   | 10 => dec_as c_authorize_with_seed AuthorizeWithSeed
   | 11 => dec_as c_authorize_checked_with_seed AuthorizeCheckedWithSeed
   | 12 => dec_as c_compact_update CompactUpdateVoteState
   | 13 => dec_as (c_pair c_compact_update c_hash) (λ '(u, h), CompactUpdateVoteStateSwitch u h)
   | _ => λ _, None
   end).
Module VoteBincodes.
#[export] Instance vote_instruction : Bincode VoteInstruction := bincode_of c_vote_instruction.
#[export] Instance vote_state_versions : Bincode VoteStateVersions := bincode_of c_vote_state_versions.
#[export] Instance vote_state_versions_laws : BincodeLaws VoteStateVersions := bincode_of_laws _ _.
End VoteBincodes.

(** ** The room a vote state needs *)
Definition at_most {A} (P : A → Prop) (c : codec A) (n : nat) : Prop :=
  ∀ a bs, P a → enc c a = Some bs → (length bs ≤ n)%nat.
Lemma int_size n : at_most (λ _, True) (c_int n) n.
Proof. intros z bs _. cbn [enc c_int]. destruct (_ <? _); [|done]. intros [= <-]. by rewrite le_bytes_length. Qed.
Lemma fixed_size n : at_most (λ _, True) (c_fixed n) n.
Proof. intros l bs _. cbn [enc c_fixed]. destruct (Nat.eqb_spec (length l) n) as [<-|]; [|done]. by intros [= <-]. Qed.
Lemma pair_split {A B} (c : codec A) (d : codec B) a b bs :
  enc (c_pair c d) (a, b) = Some bs →
  ∃ x y, enc c a = Some x ∧ enc d b = Some y ∧ length bs = (length x + length y)%nat.
Proof.
  cbn [enc c_pair]. intros (x & Hx & (y & Hy & [= <-])%bind_Some)%bind_Some.
  exists x, y. by rewrite length_app.
Qed.
Lemma pair_size {A B} P Q (c : codec A) (d : codec B) n m :
  at_most P c n → at_most Q d m → at_most (λ x, P x.1 ∧ Q x.2) (c_pair c d) (n + m).
Proof.
  intros Hc Hd [a b] bs [HP HQ] (x & y & Hx & Hy & ->)%pair_split.
  specialize (Hc _ _ HP Hx). specialize (Hd _ _ HQ Hy). lia.
Qed.
Lemma option_size {A} P (c : codec A) n : at_most P c n → at_most (λ o, ∀ a, o = Some a → P a) (c_option c) (1 + n).
Proof.
  intros Hc [a|] bs HP; cbn [enc c_option]; [|intros [= <-]; simpl; lia].
  intros (x & Hx & ->)%fmap_Some. specialize (Hc _ _ (HP a eq_refl) Hx). simpl. lia.
Qed.
Lemma all_size {A} P (c : codec A) n l bs :
  at_most P c n → Forall P l → enc_all c l = Some bs → (length bs ≤ length l * n)%nat.
Proof.
  intros Hc Hl. revert bs. induction Hl as [|a l Ha _ IH]; intros bs; simpl; [by intros [= <-]|].
  intros (x & Hx & (y & Hy & [= <-])%bind_Some)%bind_Some. rewrite length_app.
  specialize (Hc _ _ Ha Hx). specialize (IH _ Hy). lia.
Qed.
Lemma vec_size {A} P (c : codec A) n k :
  at_most P c n → at_most (λ l, Forall P l ∧ (length l ≤ k)%nat) (c_vec c) (8 + k * n).
Proof.
  intros Hc l bs [Hl Hk]. cbn [enc c_vec]. intros (x & Hx & (y & Hy & [= <-])%bind_Some)%bind_Some. rewrite length_app.
  pose proof (int_size 8 _ _ I Hx). pose proof (all_size P c n l y Hc Hl Hy). nia.
Qed.
Lemma array_size {A} P (c : codec A) n k : at_most P c n → at_most (Forall P) (c_array k c) (k * n).
Proof.
  intros Hc l bs Hl. cbn [enc c_array]. destruct (Nat.eqb_spec (length l) k) as [<-|]; [|done]. by apply all_size with P.
Qed.
Lemma pubkey_size : at_most (λ _, True) c_pubkey 32.
Proof. intros k bs _. by apply (fixed_size 32). Qed.
Lemma i64_size : at_most (λ _, True) c_i64 8.
Proof. intros z bs _. cbn [enc c_i64]. case_bool_decide; [|done]. by apply int_size. Qed.
Lemma bool_size : at_most (λ _, True) c_bool 1.
Proof. by intros b bs _ [= <-]. Qed.
Lemma voters_size k : at_most (λ l, (length l ≤ k)%nat) c_voters (8 + k * 40).
Proof.
  intros l bs Hl. cbn [enc c_voters]. destruct (risingb l); [|done].
  apply (vec_size _ _ _ k (pair_size _ _ _ _ _ _ (int_size 8) pubkey_size)). split; [|done]. by apply list.Forall_forall.
Qed.
Lemma lockout_size : at_most (λ _, True) c_lockout 12.
Proof. intros l bs _. apply (pair_size _ _ _ _ _ _ (int_size 8) (int_size 4)). done. Qed.
Lemma landed_size : at_most (λ _, True) c_landed_vote 13.
Proof. intros v bs _. apply (pair_size _ _ _ _ _ _ (int_size 1) lockout_size). done. Qed.
Lemma timestamp_size : at_most (λ _, True) c_timestamp 16.
Proof. intros t bs _. apply (pair_size _ _ _ _ _ _ (int_size 8) i64_size). done. Qed.
Lemma prior_size : at_most (λ _, True) c_prior_voters 1545.
Proof.
  intros t bs _. apply (pair_size _ _ _ _ _ _ (array_size _ _ _ 32 (pair_size _ _ _ _ _ _
    (pair_size _ _ _ _ _ _ pubkey_size (int_size 8)) (int_size 8))) (pair_size _ _ _ _ _ _ (int_size 8) bool_size)).
  split; [|done]. by apply list.Forall_forall.
Qed.
(** the fields of a state, each within its room *)
Lemma votes_size : at_most (λ l, len l ≤ MAX_LOCKOUT_HISTORY) (c_vec c_landed_vote) 411.
Proof.
  intros l bs Hl. apply (vec_size _ _ _ 31 landed_size). split; [by apply list.Forall_forall|].
  unfold len, MAX_LOCKOUT_HISTORY in Hl. lia.
Qed.
Lemma credits_size : at_most (λ l, len l ≤ MAX_EPOCH_CREDITS_HISTORY) c_credits 1544.
Proof.
  intros l bs Hl. apply (vec_size _ _ _ 64 (pair_size _ _ _ _ _ _ (pair_size _ _ _ _ _ _ (int_size 8) (int_size 8)) (int_size 8))).
  split; [by apply list.Forall_forall|]. unfold len, MAX_EPOCH_CREDITS_HISTORY in Hl. lia.
Qed.
Lemma vote_state_room s bs :
  vote_state_ok s → len (authorized_voters s) ≤ 4 → enc c_vote_state s = Some bs → (length bs ≤ 3758)%nat.
Proof.
  intros Hok Hv He. unfold c_vote_state in He. cbn [enc c_map] in He.
  apply pair_split in He as (x1 & y1 & Hx1 & He & ->). apply pair_split in He as (x2 & y2 & Hx2 & He & ->).
  apply pair_split in He as (x3 & y3 & Hx3 & He & ->). apply pair_split in He as (x4 & y4 & Hx4 & He & ->).
  apply pair_split in He as (x5 & y5 & Hx5 & He & ->). apply pair_split in He as (x6 & y6 & Hx6 & He & ->).
  apply pair_split in He as (x7 & y7 & Hx7 & He & ->). apply pair_split in He as (x8 & x9 & Hx8 & Hx9 & ->).
  apply pubkey_size in Hx1, Hx2; [|done..]. apply int_size in Hx3; [|done].
  apply votes_size in Hx4; [|by apply (vo_tower _ Hok)].
  apply (option_size _ _ _ (int_size 8)) in Hx5; [|done]. apply (voters_size 4) in Hx6; [|unfold len in Hv; lia].
  apply prior_size in Hx7; [|done]. apply credits_size in Hx8; [|apply Hok]. apply timestamp_size in Hx9; [|done]. lia.
Qed.
(** A vote state fits into its account.  The encoding of a well-typed state with at most
    four voters by epoch has at most the 3762 bytes of [size_of]. *)
Theorem vote_state_fits s bs :
  vote_state_ok s → len (authorized_voters s) ≤ 4 →
  enc c_vote_state_versions (VCurrentVote s) = Some bs → len bs ≤ VOTE_STATE_SIZE.
Proof.
  intros Hok Hv He. change (enc (c_pair (c_int 4) c_vote_state) (2, s) = Some bs) in He.
  apply pair_split in He as (x & y & Hx & Hy & Hl). apply int_size in Hx; [|done].
  apply vote_state_room in Hy; [|done..]. unfold len, VOTE_STATE_SIZE. lia.
Qed.
