(* ===== verification/ConfigProgram.v ===== *)
(** * The config program ([programs/config/src/])

    Accounts with a list of keys and data that only those keys may change: the format
    ([lib.rs]), the builders ([config_instruction.rs]) and the program
    ([config_processor.rs]). *)

From S2P Require Import Prelude Sdk Rent EpochSchedule Account TransactionContext LogCollector InvokeContext.
From S2P Require Import AccountRules Nonce SystemProgram.

(** a key, and whether it must sign changes *)
Record ConfigKeys := mkConfigKeys { config_keys : list (Pubkey * bool) }.
Definition config_signer_keys (l : list (Pubkey * bool)) : list Pubkey := fst <$> filter (λ x, x.2 = true) l.

Section config.
Context `{PubkeyDisplay, !Bincode ConfigKeys}.
(** the text of a [bincode::Error] *)
Context (bincode_error : list N → string).

(** the data after the keys *)
Definition get_config_data (bytes : list N) : option (result InstructionError (list N)) :=
  keys ← deserialize (T:=ConfigKeys) bytes;
  bs ← serialize keys;
  Some (if len bytes <? len bs then Panic else Ok (drop (length bs) bytes)).

Definition create_config_account {T} `{!Bincode T} (keys : list (Pubkey * bool)) (config_data : T)
    (lamports_ : N) : result InstructionError AccountSharedData :=
  let! ks := unwrap (serialize (mkConfigKeys keys)) in
  let! bs := unwrap (serialize config_data) in
  Ok (mkAccountSharedData lamports_ (ks ++ bs) config_program_id false 0 false).

(** [config_instruction::store] *)
Definition config_store {T} `{!Bincode (ConfigKeys * T)} (config_account_pubkey : Pubkey) (is_config_signer : bool)
    (keys : list (Pubkey * bool)) (d : T) : result InstructionError Instruction :=
  let account_metas :=
    meta_new config_account_pubkey is_config_signer ::
    ((λ k, meta_new k true) <$> filter (λ k, k ≠ config_account_pubkey) (config_signer_keys keys)) in
  let! bs := unwrap (serialize (mkConfigKeys keys, d)) in
  Ok (mkInstruction config_program_id account_metas bs).

(** ** The entrypoint *)
Definition CONFIG_COMPUTE_UNITS : N := 450.

(** a borrow whose failure is handled *)
Definition with_account_or {A} (acquire : TC BorrowedAccount) (failed : IC A) (body : BorrowedAccount → IC A) :
  IC A := λ s,
  match acquire (transaction_context s) with
  | (Err _, t) => failed (set_transaction_context t s)
  | _ => ic_with_account acquire body s
  end.
Definition refuse {A} (message : string) : IC A := ic_msg message ;; throw MissingRequiredSignature.

Section entrypoint.
Context (ic : InstructionContext) (config_account_key : Pubkey) (is_config_account_signer : bool).
Context (current_keys : list (Pubkey * bool)).

(** the signature of the [counter]-th new signer *)
Definition check_config_signer (counter : N) (signer : Pubkey) : IC unit :=
  if negb (key_eqb signer config_account_key) then
    with_account_or (try_borrow_instruction_account ic (as_u16 counter))
      (refuse ("account " +:+ pubkey_to_string signer +:+ " is not in account list"))
      (λ signer_account,
        if negb (ba_is_signer signer_account) then
          refuse ("account " +:+ pubkey_to_string signer +:+ " signer_key().is_none()")
        else
        key <- on_tc (ba_get_key signer_account) ;;
        if negb (key_eqb key signer) then
          refuse ("account[" +:+ pretty (counter + 1) +:+ "].signer_key() does not match Config data)")
        else if bool_decide (current_keys ≠ []) && bool_decide (signer ∉ config_signer_keys current_keys) then
          refuse ("account " +:+ pubkey_to_string signer +:+ " is not in stored signer list")
        else ret tt)
  else if negb is_config_account_signer then refuse "account[0].signer_key().is_none()"
  else ret tt.
Fixpoint check_config_signers (counter : N) (l : list Pubkey) : IC N :=
  match l with
  | [] => ret counter
  | signer :: l' => check_config_signer (counter + 1) signer ;; check_config_signers (counter + 1) l'
  end.
End entrypoint.

Definition config_process_instruction : IC unit :=
  ic <- asks_tc get_current_instruction_context ;;
  let data_ := instruction_data ic in
  key_list <- lift (limited_deserialize (T:=ConfigKeys) data_) ;;
  config_account_key <- key_of_instruction_account ic 0 ;;
  x <- with_instruction_account ic 0 (λ config_account,
    a <- on_tc (ba_account config_account) ;;
    if negb (key_eqb (owner a) config_program_id) then throw InvalidAccountOwner else
    match deserialize (T:=ConfigKeys) (data a) with
    | Some current_data => ret (ba_is_signer config_account, config_keys current_data)
    | None => ic_msg ("Unable to deserialize config account: " +:+ bincode_error (data a)) ;; throw InvalidAccountData
    end) ;;
  let '(is_config_account_signer, current_keys) := x in
  let current_signer_keys := config_signer_keys current_keys in
  if bool_decide (current_signer_keys = []) && negb is_config_account_signer then throw MissingRequiredSignature else
  counter <- check_config_signers ic config_account_key is_config_account_signer current_keys 0
               (config_signer_keys (config_keys key_list)) ;;
  if negb (len (remove_dups (config_keys key_list)) =? len (config_keys key_list)) then
    ic_msg "new config contains duplicate keys" ;; throw InvalidArgument
  else if counter <? len current_signer_keys then
    refuse ("too few signers: " +:+ pretty counter +:+ "; expected: " +:+ pretty (len current_signer_keys))
  else
  with_instruction_account ic 0 (λ config_account,
    a <- on_tc (ba_account config_account) ;;
    if len (data a) <? len data_ then ic_msg "instruction data too large" ;; throw InvalidInstructionData else
    on_tc (ba_write_data config_account (overwrite data_))).
Definition config_entrypoint : program := declare_process_instruction CONFIG_COMPUTE_UNITS config_process_instruction.
End config.
