(* ===== verification/Stake.v ===== *)
(** * Stakes ([sdk/program/src/stake/])

    The state of a stake account, who may change it, and how much of a delegation is
    effective at an epoch. *)

From S2P Require Import Prelude Sdk Rent EpochSchedule Account TransactionContext LogCollector InvokeContext.
From Stdlib Require Import SpecFloat.

(** ** Errors ([instruction.rs]) *)
Module StakeError.
Inductive t :=
| NoCreditsToRedeem | LockupInForce | AlreadyDeactivated | TooSoonToRedelegate | InsufficientStake
| MergeTransientStake | MergeMismatch | CustodianMissing | CustodianSignatureMissing
| InsufficientReferenceVotes | VoteAddressMismatch | MinimumDelinquentEpochsForDeactivationNotMet
| InsufficientDelegation | RedelegateTransientOrInactiveStake | RedelegateToSameVoteAccount
| RedelegatedStakeMustFullyActivateBeforeDeactivationIsPermitted.
Definition stake_error_code (e : t) : N :=
  match e with
  | NoCreditsToRedeem => 0 | LockupInForce => 1 | AlreadyDeactivated => 2 | TooSoonToRedelegate => 3
  | InsufficientStake => 4 | MergeTransientStake => 5 | MergeMismatch => 6 | CustodianMissing => 7
  | CustodianSignatureMissing => 8 | InsufficientReferenceVotes => 9 | VoteAddressMismatch => 10
  | MinimumDelinquentEpochsForDeactivationNotMet => 11 | InsufficientDelegation => 12
  | RedelegateTransientOrInactiveStake => 13 | RedelegateToSameVoteAccount => 14
  | RedelegatedStakeMustFullyActivateBeforeDeactivationIsPermitted => 15
  end.
End StakeError.
Definition stake_error {A} (e : StakeError.t) : result InstructionError A := Err (Custom (StakeError.stake_error_code e)).
Definition from_stake_error {A} (r : result StakeError.t A) : result InstructionError A :=
  match r with Ok a => Ok a | Err e => stake_error e | Panic => Panic end.

(** ** Flags ([stake_flags.rs]) *)
Record StakeFlags := mkStakeFlags { flag_bits : N }.
Definition MUST_FULLY_ACTIVATE_BEFORE_DEACTIVATION_IS_PERMITTED : StakeFlags := mkStakeFlags 1.
Definition flags_empty : StakeFlags := mkStakeFlags 0.
Definition flags_contains (self other : StakeFlags) : bool :=
  N.land (flag_bits self) (flag_bits other) =? flag_bits other.
Definition flags_remove (other self : StakeFlags) : StakeFlags :=
  mkStakeFlags (N.land (flag_bits self) (N.lxor u8_max (flag_bits other))).
Definition flags_union (self other : StakeFlags) : StakeFlags :=
  mkStakeFlags (N.lor (flag_bits self) (flag_bits other)).

(** ** The state of an account ([state.rs]) *)
Inductive StakeAuthorize := Staker | StakeWithdrawer.
Record Lockup := mkLockup {
  lockup_unix_timestamp : Z;
  lockup_epoch : N;
  custodian : Pubkey }.
Record Authorized := mkAuthorized { staker : Pubkey; withdrawer : Pubkey }.
Record Meta := mkMeta {
  rent_exempt_reserve : N;
  authorized : Authorized;
  lockup_of : Lockup }.
Record Delegation := mkDelegation {
  voter_pubkey : Pubkey;
  delegated_stake : N;
  activation_epoch : N;
  deactivation_epoch : N;
  delegation_rate : f64 }.
Record Stake := mkStake { delegation : Delegation; credits_observed : N }.
Inductive StakeStateV2 :=
| StakeUninitialized
| StakeInitialized (meta : Meta)
| Staked (meta : Meta) (stake : Stake) (stake_flags : StakeFlags)
| RewardsPool.
#[export] Instance Lockup_eq_dec : EqDecision Lockup.
Proof. solve_decision. Defined.
#[export] Instance Authorized_eq_dec : EqDecision Authorized.
Proof. solve_decision. Defined.
Definition lockup_default : Lockup := mkLockup 0 0 default_pubkey.
(** the fixed length of the data of a stake account *)
Definition stake_state_size_of : N := 200.

Definition set_meta_authorized (x : Authorized) (m : Meta) : Meta := mkMeta (rent_exempt_reserve m) x (lockup_of m).
Definition set_meta_lockup (x : Lockup) (m : Meta) : Meta := mkMeta (rent_exempt_reserve m) (authorized m) x.
Definition set_meta_reserve (x : N) (m : Meta) : Meta := mkMeta x (authorized m) (lockup_of m).
Definition set_delegated (x : N) (d : Delegation) : Delegation :=
  mkDelegation (voter_pubkey d) x (activation_epoch d) (deactivation_epoch d) (delegation_rate d).
Definition set_deactivation (x : N) (d : Delegation) : Delegation :=
  mkDelegation (voter_pubkey d) (delegated_stake d) (activation_epoch d) x (delegation_rate d).
Definition set_delegation (x : Delegation) (s : Stake) : Stake := mkStake x (credits_observed s).
Definition set_credits_observed (x : N) (s : Stake) : Stake := mkStake (delegation s) x.

Definition state_stake (s : StakeStateV2) : option Stake :=
  match s with Staked _ stake _ => Some stake | _ => None end.
Definition state_delegation (s : StakeStateV2) : option Delegation :=
  match s with Staked _ stake _ => Some (delegation stake) | _ => None end.
Definition state_authorized (s : StakeStateV2) : option Authorized :=
  match s with Staked meta _ _ | StakeInitialized meta => Some (authorized meta) | _ => None end.
Definition state_meta (s : StakeStateV2) : option Meta :=
  match s with Staked meta _ _ | StakeInitialized meta => Some meta | _ => None end.
Definition state_lockup (s : StakeStateV2) : option Lockup := lockup_of <$> state_meta s.

(** ** Lockups and authorities *)
Definition is_in_force (l : Lockup) (clock : Clock) (custodian_ : option Pubkey) : bool :=
  if bool_decide (custodian_ = Some (custodian l)) then false else
  (unix_timestamp clock <? lockup_unix_timestamp l)%Z || (clock_epoch clock <? lockup_epoch l).

Definition authorized_auto (k : Pubkey) : Authorized := mkAuthorized k k.
Definition authorized_check (a : Authorized) (signers : gset Pubkey) (stake_authorize : StakeAuthorize) :
  result InstructionError unit :=
  match stake_authorize with
  | Staker => if bool_decide (staker a ∈ signers) then Ok tt else Err MissingRequiredSignature
  | StakeWithdrawer => if bool_decide (withdrawer a ∈ signers) then Ok tt else Err MissingRequiredSignature
  end.
Definition authorized_authorize (a : Authorized) (signers : gset Pubkey) (new_authorized : Pubkey)
    (stake_authorize : StakeAuthorize) (lockup_custodian_args : option (Lockup * Clock * option Pubkey)) :
  result InstructionError Authorized :=
  match stake_authorize with
  | Staker =>
      if bool_decide (staker a ∉ signers) && bool_decide (withdrawer a ∉ signers)
      then Err MissingRequiredSignature
      else Ok (mkAuthorized new_authorized (withdrawer a))
  | StakeWithdrawer =>
      check! (match lockup_custodian_args with
              | Some (lockup, clock, custodian_) =>
                  if is_in_force lockup clock None then
                    match custodian_ with
                    | None => stake_error StakeError.CustodianMissing
                    | Some k =>
                        if bool_decide (k ∉ signers) then stake_error StakeError.CustodianSignatureMissing
                        else if is_in_force lockup clock (Some k) then stake_error StakeError.LockupInForce
                        else Ok tt
                    end
                  else Ok tt
              | None => Ok tt
              end) in
      check! authorized_check a signers stake_authorize in
      Ok (mkAuthorized (staker a) new_authorized)
  end.

Record LockupArgs := mkLockupArgs {
  args_unix_timestamp : option Z;
  args_epoch : option N;
  args_custodian : option Pubkey }.
Definition meta_set_lockup (args : LockupArgs) (signers : gset Pubkey) (clock : Clock) (m : Meta) :
  result InstructionError Meta :=
  if (if is_in_force (lockup_of m) clock None
      then bool_decide (custodian (lockup_of m) ∉ signers)
      else bool_decide (withdrawer (authorized m) ∉ signers))
  then Err MissingRequiredSignature else
  let l := lockup_of m in
  Ok (set_meta_lockup (mkLockup (default (lockup_unix_timestamp l) (args_unix_timestamp args))
                                (default (lockup_epoch l) (args_epoch args))
                                (default (custodian l) (args_custodian args))) m).

(** ** How much of a delegation is effective *)
Definition f64_div : f64 → f64 → f64 := SFdiv 53 1024.
(** 0.25 and the binary64 number next to 0.09 *)
Definition DEFAULT_WARMUP_COOLDOWN_RATE : f64 := S754_finite false 4503599627370496 (-54).
Definition NEW_WARMUP_COOLDOWN_RATE : f64 := S754_finite false 6485183463413514 (-56).
Definition warmup_cooldown_rate (current_epoch : N) (new_rate_activation_epoch : option N) : f64 :=
  if current_epoch <? default u64_max new_rate_activation_epoch
  then DEFAULT_WARMUP_COOLDOWN_RATE else NEW_WARMUP_COOLDOWN_RATE.

Definition delegation_new (voter_pubkey_ : Pubkey) (stake activation_epoch_ : N) : Delegation :=
  mkDelegation voter_pubkey_ stake activation_epoch_ u64_max DEFAULT_WARMUP_COOLDOWN_RATE.
Definition is_bootstrap (d : Delegation) : bool := activation_epoch d =? u64_max.

Section activation.
Context (history : StakeHistory) (new_rate_activation_epoch : option N) (d : Delegation) (target_epoch : N).

(** the share of [part] out of [total] in what the cluster may move at an epoch, at least one *)
Definition entitled (part total cluster_effective epoch : N) : N :=
  let weight := f64_div (f64_of_u64 part) (f64_of_u64 total) in
  let rate := warmup_cooldown_rate epoch new_rate_activation_epoch in
  let cluster_stake := f64_mul (f64_of_u64 cluster_effective) rate in
  N.max (f64_to_u64 (f64_mul weight cluster_stake)) 1.

(** from the activation on, epoch by epoch; the fuel bounds the epochs in the history *)
Fixpoint activation_loop {E} (fuel : nat) (prev_epoch : N) (prev_cluster_stake : StakeHistoryEntry)
    (current_effective_stake : N) : result E N :=
  match fuel with
  | O => Panic
  | S fuel =>
      let current_epoch := wrapping_add prev_epoch 1 in
      if activating prev_cluster_stake =? 0 then Ok current_effective_stake else
      let remaining_activating_stake := wrapping_sub (delegated_stake d) current_effective_stake in
      let newly_effective_stake :=
        entitled remaining_activating_stake (activating prev_cluster_stake) (effective prev_cluster_stake)
          current_epoch in
      let current_effective_stake := wrapping_add current_effective_stake newly_effective_stake in
      if delegated_stake d <=? current_effective_stake then Ok (delegated_stake d) else
      if (target_epoch <=? current_epoch) || (deactivation_epoch d <=? current_epoch)
      then Ok current_effective_stake else
      match stake_history_get current_epoch history with
      | Some current_cluster_stake =>
          activation_loop fuel current_epoch current_cluster_stake current_effective_stake
      | None => Ok current_effective_stake
      end
  end.
(** the effective and the activating stake, before any deactivation *)
Definition stake_and_activating {E} : result E (N * N) :=
  let delegated_stake_ := delegated_stake d in
  if is_bootstrap d then Ok (delegated_stake_, 0)
  else if activation_epoch d =? deactivation_epoch d then Ok (0, 0)
  else if target_epoch =? activation_epoch d then Ok (0, delegated_stake_)
  else if target_epoch <? activation_epoch d then Ok (0, 0)
  else match stake_history_get (activation_epoch d) history with
       | Some cluster_stake =>
           let! current_effective_stake :=
             activation_loop (S (length history)) (activation_epoch d) cluster_stake 0 in
           Ok (current_effective_stake, wrapping_sub delegated_stake_ current_effective_stake)
       | None => Ok (delegated_stake_, 0)
       end.

Fixpoint deactivation_loop {E} (fuel : nat) (prev_epoch : N) (prev_cluster_stake : StakeHistoryEntry)
    (current_effective_stake : N) : result E N :=
  match fuel with
  | O => Panic
  | S fuel =>
      let current_epoch := wrapping_add prev_epoch 1 in
      if deactivating prev_cluster_stake =? 0 then Ok current_effective_stake else
      let newly_not_effective_stake :=
        entitled current_effective_stake (deactivating prev_cluster_stake) (effective prev_cluster_stake)
          current_epoch in
      let current_effective_stake := saturating_sub current_effective_stake newly_not_effective_stake in
      if current_effective_stake =? 0 then Ok current_effective_stake else
      if target_epoch <=? current_epoch then Ok current_effective_stake else
      match stake_history_get current_epoch history with
      | Some current_cluster_stake =>
          deactivation_loop fuel current_epoch current_cluster_stake current_effective_stake
      | None => Ok current_effective_stake
      end
  end.
Definition stake_activating_and_deactivating {E} : result E StakeHistoryEntry :=
  let! x := stake_and_activating in
  let '(effective_stake, activating_stake) := x in
  if target_epoch <? deactivation_epoch d then
    Ok (if activating_stake =? 0 then with_effective effective_stake
        else with_effective_and_activating effective_stake activating_stake)
  else if target_epoch =? deactivation_epoch d then Ok (with_deactivating effective_stake)
  else match stake_history_get (deactivation_epoch d) history with
       | Some cluster_stake =>
           rmap with_deactivating
             (deactivation_loop (S (length history)) (deactivation_epoch d) cluster_stake effective_stake)
       | None => Ok stake_history_entry_default
       end.
Definition effective_stake {E} : result E N := rmap effective stake_activating_and_deactivating.
End activation.

(** ** Stakes *)
Definition stake_split (remaining_stake_delta split_stake_amount : N) (s : Stake) :
  result StakeError.t (Stake * Stake) :=
  if delegated_stake (delegation s) <? remaining_stake_delta then Err StakeError.InsufficientStake else
  let s := set_delegation (set_delegated (delegated_stake (delegation s) - remaining_stake_delta) (delegation s)) s in
  Ok (s, set_delegation (set_delegated split_stake_amount (delegation s)) s).
Definition stake_deactivate (epoch : N) (s : Stake) : result StakeError.t Stake :=
  if negb (deactivation_epoch (delegation s) =? u64_max) then Err StakeError.AlreadyDeactivated
  else Ok (set_delegation (set_deactivation epoch (delegation s)) s).

(** ** Voting activity ([tools.rs]), by credits per epoch *)
Definition MINIMUM_DELINQUENT_EPOCHS_FOR_DEACTIVATION : N := 5.
Fixpoint epochs_down (epoch : N) (l : list (N * N * N)) : bool :=
  match l with
  | [] => true
  | x :: l => if negb (x.1.1 =? epoch) then false else epochs_down (saturating_sub epoch 1) l
  end.
Definition acceptable_reference_epoch_credits (epoch_credits : list (N * N * N)) (current_epoch : N) : bool :=
  match checked_sub (len epoch_credits) MINIMUM_DELINQUENT_EPOCHS_FOR_DEACTIVATION with
  | Some epoch_index => epochs_down current_epoch (rev (drop (N.to_nat epoch_index) epoch_credits))
  | None => false
  end.
Definition eligible_for_deactivate_delinquent (epoch_credits : list (N * N * N)) (current_epoch : N) : bool :=
  match list.last epoch_credits with
  | None => true
  | Some x =>
      match checked_sub current_epoch MINIMUM_DELINQUENT_EPOCHS_FOR_DEACTIVATION with
      | Some minimum_epoch => x.1.1 <=? minimum_epoch
      | None => false
      end
  end.
