(* ===== verification/StakeProgram.v ===== *)
(** * The stake program ([programs/stake/src/])

    The instructions on stake accounts ([stake_state.rs]) and the entrypoint that dispatches to
    them ([stake_instruction.rs]), with the instruction type of
    [sdk/program/src/stake/instruction.rs]. *)

From S2P Require Import Prelude Sdk Rent EpochSchedule Account TransactionContext LogCollector InvokeContext.
From S2P Require Import Nonce SystemProgram VoteState VoteProcess VoteProgram ConfigProgram Stake.

Record LockupCheckedArgs := mkLockupCheckedArgs { checked_unix_timestamp : option Z; checked_epoch : option N }.
Record StakeAuthorizeWithSeedArgs := mkStakeAuthorizeWithSeedArgs {
  new_authorized_pubkey : Pubkey;
  seed_stake_authorize : StakeAuthorize;
  authority_seed : list N;
  authority_owner : Pubkey }.
Record StakeAuthorizeCheckedWithSeedArgs := mkStakeAuthorizeCheckedWithSeedArgs {
  checked_stake_authorize : StakeAuthorize;
  checked_authority_seed : list N;
  checked_authority_owner : Pubkey }.
Inductive StakeInstruction :=
| SInitialize (authorized_ : Authorized) (lockup_ : Lockup)
| SAuthorize (pubkey : Pubkey) (stake_authorize : StakeAuthorize)
| DelegateStake
| SSplit (lamports_ : N)
| SWithdraw (lamports_ : N)
| Deactivate
| SetLockup (args : LockupArgs)
| Merge
| SAuthorizeWithSeed (args : StakeAuthorizeWithSeedArgs)
| InitializeChecked
| SAuthorizeChecked (stake_authorize : StakeAuthorize)
| SAuthorizeCheckedWithSeed (args : StakeAuthorizeCheckedWithSeedArgs)
| SetLockupChecked (args : LockupCheckedArgs)
| GetMinimumDelegation
| DeactivateDelinquent
| Redelegate.

(** [sdk/program/src/stake/config.rs] *)
Record StakeConfig := mkStakeConfig { config_rate : f64; slash_penalty : N }.

Definition stake_redelegate_instruction_id : Pubkey :=
  pubkey_of_N 0x138cc98d70c16fd5d76bb73bbe7d2410b99759f3c7f62d3ef1914464855bc4a3.
Definition reduce_stake_warmup_cooldown_id : Pubkey :=
  pubkey_of_N 0xecee93405722b07449c1f9e5ef5403ef184d87f931689618ad21b8f7003d8ace.
Definition require_rent_exempt_split_destination_id : Pubkey :=
  pubkey_of_N 0xb2b3f3c6b41c244bbf84d9216e676e0b4516b4d60c48e97a452674bc9d6172e0.
Definition stake_raise_minimum_delegation_to_1_sol_id : Pubkey :=
  pubkey_of_N 0x82d9addbe711205659a5b14afef6660474736a492c1d3aa092593d035ca81639.

(** [programs/stake/src/lib.rs] *)
Definition MINIMUM_STAKE_DELEGATION : N := 1.
Definition get_minimum_delegation (features : gset Pubkey) : N :=
  if is_active features stake_raise_minimum_delegation_to_1_sol_id then 1 * 1000000000 else MINIMUM_STAKE_DELEGATION.
(** [solana_sdk::instruction::checked_add] *)
Definition checked_add_funds (a b : N) : result InstructionError N := ok_or (checked_add u64_max a b) InsufficientFunds.

Definition new_stake (stake : N) (voter_pubkey_ : Pubkey) (vote_state : VoteState) (activation_epoch_ : N) : Stake :=
  mkStake (delegation_new voter_pubkey_ stake activation_epoch_) (credits vote_state).

(** the weighted average of the credits of two stakes, rounded up *)
Definition stake_weighted_credits_observed (stake : Stake) (absorbed_lamports absorbed_credits_observed : N) :
  option N :=
  if credits_observed stake =? absorbed_credits_observed then Some (credits_observed stake) else
  total_stake ← checked_add u64_max (delegated_stake (delegation stake)) absorbed_lamports;
  stake_weighted_credits ← checked_mul u128_max (credits_observed stake) (delegated_stake (delegation stake));
  absorbed_weighted_credits ← checked_mul u128_max absorbed_credits_observed absorbed_lamports;
  x ← checked_add u128_max stake_weighted_credits absorbed_weighted_credits;
  x ← checked_add u128_max x total_stake;
  total_weighted_credits ← checked_sub x 1;
  if total_stake =? 0 then None else
  let c := total_weighted_credits / total_stake in
  if c <=? u64_max then Some c else None.
Definition merge_delegation_stake_and_credits_observed (stake : Stake) (absorbed_lamports absorbed_credits_observed : N) :
  result InstructionError Stake :=
  let! c := ok_or (stake_weighted_credits_observed stake absorbed_lamports absorbed_credits_observed) ArithmeticOverflow in
  let! n := checked_add_funds (delegated_stake (delegation stake)) absorbed_lamports in
  Ok (mkStake (set_delegated n (delegation stake)) c).

Inductive MergeKind :=
| Inactive (meta : Meta) (lamports_ : N) (stake_flags : StakeFlags)
| ActivationEpoch (meta : Meta) (stake : Stake) (stake_flags : StakeFlags)
| FullyActive (meta : Meta) (stake : Stake).
Definition merge_kind_meta (k : MergeKind) : Meta :=
  match k with Inactive m _ _ | ActivationEpoch m _ _ | FullyActive m _ => m end.
Definition active_stake (k : MergeKind) : option Stake :=
  match k with Inactive _ _ _ => None | ActivationEpoch _ s _ | FullyActive _ s => Some s end.

Record ValidatedSplitInfo := mkValidatedSplitInfo {
  source_remaining_balance : N;
  destination_rent_exempt_reserve : N }.

Section program.
Context `{PubkeyDisplay, Sha256, !Bincode StakeStateV2, !Bincode VoteStateVersions, !Bincode ConfigKeys,
  !Bincode StakeConfig, !Bincode StakeInstruction}.
(** the slot at which a feature became active *)
Context (activated_slot : Pubkey → N).

Definition new_warmup_cooldown_rate_epoch : IC (option N) :=
  schedule <- asks (λ s, unwrap (sc_epoch_schedule (sysvar_cache s))) ;;
  reduced <- active reduce_stake_warmup_cooldown_id ;;
  ret (if reduced : bool then Some (get_epoch schedule (activated_slot reduce_stake_warmup_cooldown_id)) else None).
Definition status_at (history : StakeHistory) (stake : Stake) (epoch : N) : IC StakeHistoryEntry :=
  rate <- new_warmup_cooldown_rate_epoch ;;
  lift (stake_activating_and_deactivating history rate (delegation stake) epoch).
Definition get_stake_status (stake : Stake) (clock : Clock) : IC StakeHistoryEntry :=
  history <- asks (λ s, get_stake_history (sysvar_cache s)) ;;
  status_at history stake (clock_epoch clock).

Definition redelegate_stake (stake : Stake) (stake_lamports : N) (voter : Pubkey) (vote_state : VoteState)
    (clock : Clock) (history : StakeHistory) : IC Stake :=
  status <- status_at history stake (clock_epoch clock) ;;
  if negb (effective status =? 0) then
    redelegation <- active stake_redelegate_instruction_id ;;
    let stake_lamports_ok :=
      if redelegation : bool then delegated_stake (delegation stake) <=? stake_lamports else true in
    if key_eqb (voter_pubkey (delegation stake)) voter &&
       (clock_epoch clock =? deactivation_epoch (delegation stake)) && stake_lamports_ok
    then ret (set_delegation (set_deactivation u64_max (delegation stake)) stake)
    else lift (stake_error StakeError.TooSoonToRedelegate)
  else ret (mkStake (mkDelegation voter stake_lamports (clock_epoch clock) u64_max
                       (delegation_rate (delegation stake))) (credits vote_state)).

(** ** One account *)
Definition stake_initialize (account : BorrowedAccount) (authorized_ : Authorized) (lockup_ : Lockup) (r : Rent) :
  IC unit :=
  a <- on_tc (ba_account account) ;;
  if negb (len (data a) =? stake_state_size_of) then throw InvalidAccountData else
  state <- on_tc (ba_get_state account) ;;
  match state with
  | StakeUninitialized =>
      let reserve := minimum_balance r (len (data a)) in
      if reserve <=? lamports a
      then on_tc (ba_set_state account (StakeInitialized (mkMeta reserve authorized_ lockup_)))
      else throw InsufficientFunds
  | _ => throw InvalidAccountData
  end.

Definition stake_authorize_account (account : BorrowedAccount) (signers : gset Pubkey) (new_authority : Pubkey)
    (stake_authorize : StakeAuthorize) (clock : Clock) (custodian_ : option Pubkey) : IC unit :=
  let authorize (meta : Meta) : IC Meta :=
    x <- lift (authorized_authorize (authorized meta) signers new_authority stake_authorize
                 (Some (lockup_of meta, clock, custodian_))) ;;
    ret (set_meta_authorized x meta) in
  state <- on_tc (ba_get_state account) ;;
  match state with
  | Staked meta stake stake_flags =>
      meta <- authorize meta ;;
      on_tc (ba_set_state account (Staked meta stake stake_flags))
  | StakeInitialized meta =>
      meta <- authorize meta ;;
      on_tc (ba_set_state account (StakeInitialized meta))
  | _ => throw InvalidAccountData
  end.
Definition stake_authorize_with_seed (ic : InstructionContext) (account : BorrowedAccount) (authority_base_index : N)
    (seed : list N) (owner_ new_authority : Pubkey) (stake_authorize : StakeAuthorize) (clock : Clock)
    (custodian_ : option Pubkey) : IC unit :=
  is_signer <- lift (is_instruction_account_signer ic authority_base_index) ;;
  signers <-
    (if is_signer : bool then
       base_pubkey <- key_of_instruction_account ic authority_base_index ;;
       derived <- lift (from_pubkey_error (create_with_seed base_pubkey seed owner_)) ;;
       ret ({[derived]} : gset Pubkey)
     else ret ∅) ;;
  stake_authorize_account account signers new_authority stake_authorize clock custodian_.

Definition validate_delegated_amount (account : BorrowedAccount) (meta : Meta) : IC N :=
  a <- on_tc (ba_account account) ;;
  let stake_amount := saturating_sub (lamports a) (rent_exempt_reserve meta) in
  features <- gets feature_set ;;
  if stake_amount <? get_minimum_delegation features then lift (stake_error StakeError.InsufficientDelegation)
  else ret stake_amount.

Definition delegate (ic : InstructionContext) (stake_account_index vote_account_index : N) (clock : Clock)
    (history : StakeHistory) (signers : gset Pubkey) : IC unit :=
  x <- with_instruction_account ic vote_account_index (λ vote_account,
    a <- on_tc (ba_account vote_account) ;;
    if negb (key_eqb (owner a) vote_program_id) then throw IncorrectProgramId else
    vote_pubkey <- on_tc (ba_get_key vote_account) ;;
    vote_state <- observe (on_tc (ba_get_state (T:=VoteStateVersions) vote_account)) ;;
    ret (vote_pubkey, vote_state)) ;;
  let '(vote_pubkey, vote_state) := x in
  with_instruction_account ic stake_account_index (λ account,
    state <- on_tc (ba_get_state account) ;;
    match state with
    | StakeInitialized meta =>
        lift (authorized_check (authorized meta) signers Staker) ;;
        stake_amount <- validate_delegated_amount account meta ;;
        v <- lift vote_state ;;
        let stake := new_stake stake_amount vote_pubkey (convert_to_current v) (clock_epoch clock) in
        on_tc (ba_set_state account (Staked meta stake flags_empty))
    | Staked meta stake stake_flags =>
        lift (authorized_check (authorized meta) signers Staker) ;;
        stake_amount <- validate_delegated_amount account meta ;;
        v <- lift vote_state ;;
        stake <- redelegate_stake stake stake_amount vote_pubkey (convert_to_current v) clock history ;;
        on_tc (ba_set_state account (Staked meta stake stake_flags))
    | _ => throw InvalidAccountData
    end).

Definition deactivate_stake (stake : Stake) (stake_flags : StakeFlags) (epoch : N) : IC (Stake * StakeFlags) :=
  redelegation <- active stake_redelegate_instruction_id ;;
  if redelegation && flags_contains stake_flags MUST_FULLY_ACTIVATE_BEFORE_DEACTIVATION_IS_PERMITTED then
    history <- asks (λ s, get_stake_history (sysvar_cache s)) ;;
    status <- status_at history stake epoch ;;
    if negb (activating status =? 0) then
      lift (stake_error StakeError.RedelegatedStakeMustFullyActivateBeforeDeactivationIsPermitted)
    else
    stake <- lift (from_stake_error (stake_deactivate epoch stake)) ;;
    ret (stake, flags_remove MUST_FULLY_ACTIVATE_BEFORE_DEACTIVATION_IS_PERMITTED stake_flags)
  else
  stake <- lift (from_stake_error (stake_deactivate epoch stake)) ;;
  ret (stake, stake_flags).
Definition deactivate (account : BorrowedAccount) (clock : Clock) (signers : gset Pubkey) : IC unit :=
  state <- on_tc (ba_get_state account) ;;
  match state with
  | Staked meta stake stake_flags =>
      lift (authorized_check (authorized meta) signers Staker) ;;
      x <- deactivate_stake stake stake_flags (clock_epoch clock) ;;
      on_tc (ba_set_state account (Staked meta x.1 x.2))
  | _ => throw InvalidAccountData
  end.

Definition stake_set_lockup (account : BorrowedAccount) (args : LockupArgs) (signers : gset Pubkey) (clock : Clock) :
  IC unit :=
  state <- on_tc (ba_get_state account) ;;
  match state with
  | StakeInitialized meta =>
      meta <- lift (meta_set_lockup args signers clock meta) ;;
      on_tc (ba_set_state account (StakeInitialized meta))
  | Staked meta stake stake_flags =>
      meta <- lift (meta_set_lockup args signers clock meta) ;;
      on_tc (ba_set_state account (Staked meta stake stake_flags))
  | _ => throw InvalidAccountData
  end.

(** ** Two accounts *)
Definition validate_split_amount (ic : InstructionContext) (source_account_index destination_account_index lamports_ : N)
    (source_meta : Meta) (additional_required_lamports : N) (source_is_active : bool) : IC ValidatedSplitInfo :=
  source <- with_instruction_account ic source_account_index (λ account, on_tc (ba_account account)) ;;
  destination <- with_instruction_account ic destination_account_index (λ account, on_tc (ba_account account)) ;;
  if lamports_ =? 0 then throw InsufficientFunds else
  if lamports source <? lamports_ then throw InsufficientFunds else
  let source_minimum_balance :=
    saturating_add u64_max (rent_exempt_reserve source_meta) additional_required_lamports in
  let source_remaining := saturating_sub (lamports source) lamports_ in
  if negb (source_remaining =? 0) && (source_remaining <? source_minimum_balance) then throw InsufficientFunds else
  r <- asks (λ s, get_rent (sysvar_cache s)) ;;
  let destination_reserve := minimum_balance r (len (data destination)) in
  required <- active require_rent_exempt_split_destination_id ;;
  if required && source_is_active && negb (source_remaining =? 0) && (lamports destination <? destination_reserve)
  then throw InsufficientFunds else
  let destination_minimum_balance := saturating_add u64_max destination_reserve additional_required_lamports in
  let destination_balance_deficit := saturating_sub destination_minimum_balance (lamports destination) in
  if lamports_ <? destination_balance_deficit then throw InsufficientFunds else
  ret (mkValidatedSplitInfo source_remaining destination_reserve).

(** what the source loses of its stake, and what the destination gets *)
Definition split_amounts (meta : Meta) (stake : Stake) (lamports_ split_lamport_balance minimum_delegation : N)
    (info : ValidatedSplitInfo) : result InstructionError (N * N) :=
  let! amounts :=
    (if source_remaining_balance info =? 0 then
       let remaining_stake_delta := saturating_sub lamports_ (rent_exempt_reserve meta) in
       Ok (remaining_stake_delta, remaining_stake_delta)
     else if saturating_sub (delegated_stake (delegation stake)) lamports_ <? minimum_delegation
     then stake_error StakeError.InsufficientDelegation
     else Ok (lamports_, saturating_sub lamports_
                (saturating_sub (destination_rent_exempt_reserve info) split_lamport_balance))) in
  if amounts.2 <? minimum_delegation then stake_error StakeError.InsufficientDelegation else Ok amounts.

Definition split_state (ic : InstructionContext) (stake_account_index lamports_ split_index : N) (signers : gset Pubkey)
    (split_lamport_balance : N) (stake_state : StakeStateV2) : IC unit :=
  match stake_state with
  | Staked meta stake stake_flags =>
      lift (authorized_check (authorized meta) signers Staker) ;;
      features <- gets feature_set ;;
      let minimum_delegation := get_minimum_delegation features in
      is_active_ <-
        (if is_active features require_rent_exempt_split_destination_id then
           clock <- asks (λ s, get_clock (sysvar_cache s)) ;;
           status <- get_stake_status stake clock ;;
           ret (0 <? effective status)
         else ret false) ;;
      info <- validate_split_amount ic stake_account_index split_index lamports_ meta minimum_delegation is_active_ ;;
      amounts <- lift (split_amounts meta stake lamports_ split_lamport_balance minimum_delegation info) ;;
      stakes <- lift (from_stake_error (stake_split amounts.1 amounts.2 stake)) ;;
      let split_meta := set_meta_reserve (destination_rent_exempt_reserve info) meta in
      with_instruction_account ic stake_account_index (λ account,
        on_tc (ba_set_state account (Staked meta stakes.1 stake_flags))) ;;
      with_instruction_account ic split_index (λ split,
        on_tc (ba_set_state split (Staked split_meta stakes.2 stake_flags)))
  | StakeInitialized meta =>
      lift (authorized_check (authorized meta) signers Staker) ;;
      info <- validate_split_amount ic stake_account_index split_index lamports_ meta 0 false ;;
      let split_meta := set_meta_reserve (destination_rent_exempt_reserve info) meta in
      with_instruction_account ic split_index (λ split, on_tc (ba_set_state split (StakeInitialized split_meta)))
  | StakeUninitialized =>
      stake_pubkey <- key_of_instruction_account ic stake_account_index ;;
      if bool_decide (stake_pubkey ∉ signers) then throw MissingRequiredSignature else ret tt
  | RewardsPool => throw InvalidAccountData
  end.
Definition stake_split_account (ic : InstructionContext) (stake_account_index lamports_ split_index : N)
    (signers : gset Pubkey) : IC unit :=
  split_lamport_balance <- with_instruction_account ic split_index (λ split,
    a <- on_tc (ba_account split) ;;
    if negb (key_eqb (owner a) stake_program_id) then throw IncorrectProgramId else
    if negb (len (data a) =? stake_state_size_of) then throw InvalidAccountData else
    state <- on_tc (ba_get_state split) ;;
    match state with StakeUninitialized => ret (lamports a) | _ => throw InvalidAccountData end) ;;
  stake_state <- with_instruction_account ic stake_account_index (λ account,
    a <- on_tc (ba_account account) ;;
    if lamports a <? lamports_ then throw InsufficientFunds else on_tc (ba_get_state account)) ;;
  split_state ic stake_account_index lamports_ split_index signers split_lamport_balance stake_state ;;
  with_instruction_account ic stake_account_index (λ account,
    a <- on_tc (ba_account account) ;;
    if lamports_ =? lamports a then on_tc (ba_set_state account StakeUninitialized) else ret tt) ;;
  with_instruction_account ic split_index (λ split, on_tc (ba_checked_add_lamports split lamports_)) ;;
  with_instruction_account ic stake_account_index (λ account, on_tc (ba_checked_sub_lamports account lamports_)).

(** *** Merging *)
Definition get_if_mergeable (stake_state : StakeStateV2) (stake_lamports : N) (clock : Clock) (history : StakeHistory) :
  IC MergeKind :=
  match stake_state with
  | Staked meta stake stake_flags =>
      status <- status_at history stake (clock_epoch clock) ;;
      if effective status =? 0 then
        if (activating status =? 0) && (deactivating status =? 0) then ret (Inactive meta stake_lamports stake_flags)
        else ret (ActivationEpoch meta stake stake_flags)
      else if (activating status =? 0) && (deactivating status =? 0) then ret (FullyActive meta stake)
      else ic_msg "stake account with transient stake cannot be merged" ;;
           lift (stake_error StakeError.MergeTransientStake)
  | StakeInitialized meta => ret (Inactive meta stake_lamports flags_empty)
  | _ => throw InvalidAccountData
  end.
Definition metas_can_merge (stake source : Meta) (clock : Clock) : IC unit :=
  let can_merge_lockups :=
    bool_decide (lockup_of stake = lockup_of source) ||
    (negb (is_in_force (lockup_of stake) clock None) && negb (is_in_force (lockup_of source) clock None)) in
  if bool_decide (authorized stake = authorized source) && can_merge_lockups then ret tt
  else ic_msg "Unable to merge due to metadata mismatch" ;; lift (stake_error StakeError.MergeMismatch).
Definition active_delegations_can_merge (stake source : Delegation) : IC unit :=
  if negb (key_eqb (voter_pubkey stake) (voter_pubkey source)) then
    ic_msg "Unable to merge due to voter mismatch" ;; lift (stake_error StakeError.MergeMismatch)
  else if (deactivation_epoch stake =? u64_max) && (deactivation_epoch source =? u64_max) then ret tt
  else ic_msg "Unable to merge due to stake deactivation" ;; lift (stake_error StakeError.MergeMismatch).
(** the state of the destination after the merge; [None] leaves it *)
Definition merged_state (destination source : MergeKind) : result InstructionError (option StakeStateV2) :=
  match destination, source with
  | Inactive _ _ _, Inactive _ _ _ | Inactive _ _ _, ActivationEpoch _ _ _ => Ok None
  | ActivationEpoch meta stake stake_flags, Inactive _ source_lamports source_flags =>
      let! n := checked_add_funds (delegated_stake (delegation stake)) source_lamports in
      Ok (Some (Staked meta (set_delegation (set_delegated n (delegation stake)) stake)
                  (flags_union stake_flags source_flags)))
  | ActivationEpoch meta stake stake_flags, ActivationEpoch source_meta source_stake source_flags =>
      let! source_lamports :=
        checked_add_funds (rent_exempt_reserve source_meta) (delegated_stake (delegation source_stake)) in
      let! stake :=
        merge_delegation_stake_and_credits_observed stake source_lamports (credits_observed source_stake) in
      Ok (Some (Staked meta stake (flags_union stake_flags source_flags)))
  | FullyActive meta stake, FullyActive _ source_stake =>
      let! stake :=
        merge_delegation_stake_and_credits_observed stake (delegated_stake (delegation source_stake))
          (credits_observed source_stake) in
      Ok (Some (Staked meta stake flags_empty))
  | _, _ => stake_error StakeError.MergeMismatch
  end.
Definition merge_kinds (destination source : MergeKind) (clock : Clock) : IC (option StakeStateV2) :=
  metas_can_merge (merge_kind_meta destination) (merge_kind_meta source) clock ;;
  (match active_stake destination, active_stake source with
   | Some stake, Some source_stake => active_delegations_can_merge (delegation stake) (delegation source_stake)
   | _, _ => ret tt
   end) ;;
  lift (merged_state destination source).
Definition stake_merge (ic : InstructionContext) (stake_account_index source_account_index : N) (clock : Clock)
    (history : StakeHistory) (signers : gset Pubkey) : IC unit :=
  with_instruction_account ic source_account_index (λ source_account,
    source <- on_tc (ba_account source_account) ;;
    if negb (key_eqb (owner source) stake_program_id) then throw IncorrectProgramId else
    stake_index <- lift (get_index_of_instruction_account_in_transaction ic stake_account_index) ;;
    source_index <- lift (get_index_of_instruction_account_in_transaction ic source_account_index) ;;
    if stake_index =? source_index then throw InvalidArgument else
    with_instruction_account ic stake_account_index (λ stake_account,
      ic_msg "Checking if destination stake is mergeable" ;;
      state <- on_tc (ba_get_state stake_account) ;;
      a <- on_tc (ba_account stake_account) ;;
      stake_merge_kind <- get_if_mergeable state (lamports a) clock history ;;
      lift (authorized_check (authorized (merge_kind_meta stake_merge_kind)) signers Staker) ;;
      ic_msg "Checking if source stake is mergeable" ;;
      source_state <- on_tc (ba_get_state source_account) ;;
      source_merge_kind <- get_if_mergeable source_state (lamports source) clock history ;;
      ic_msg "Merging stake accounts" ;;
      merged <- merge_kinds stake_merge_kind source_merge_kind clock ;;
      (match merged with Some x => on_tc (ba_set_state stake_account x) | None => ret tt end) ;;
      on_tc (ba_set_state source_account StakeUninitialized) ;;
      drained <- on_tc (ba_account source_account) ;;
      on_tc (ba_checked_sub_lamports source_account (lamports drained)) ;;
      on_tc (ba_checked_add_lamports stake_account (lamports drained)))).

(** *** Redelegation; the borrow of the stake account is the caller's *)
Definition redelegate (ic : InstructionContext) (stake_account : BorrowedAccount)
    (uninitialized_stake_account_index vote_account_index : N) (signers : gset Pubkey) : IC unit :=
  clock <- asks (λ s, get_clock (sysvar_cache s)) ;;
  with_instruction_account ic uninitialized_stake_account_index (λ uninitialized_stake_account,
    u <- on_tc (ba_account uninitialized_stake_account) ;;
    if negb (key_eqb (owner u) stake_program_id) then
      ic_msg ("expected uninitialized stake account owner to be " +:+ pubkey_to_string stake_program_id +:+ ", not " +:+
              pubkey_to_string (owner u)) ;; throw IncorrectProgramId
    else if negb (len (data u) =? stake_state_size_of) then
      ic_msg ("expected uninitialized stake account data len to be " +:+ pretty stake_state_size_of +:+ ", not " +:+
              pretty (len (data u))) ;; throw InvalidAccountData
    else
    state <- on_tc (ba_get_state uninitialized_stake_account) ;;
    match state with
    | StakeUninitialized =>
        with_instruction_account ic vote_account_index (λ vote_account,
          v <- on_tc (ba_account vote_account) ;;
          if negb (key_eqb (owner v) vote_program_id) then
            ic_msg ("expected vote account owner to be " +:+ pubkey_to_string vote_program_id +:+ ", not " +:+
                    pubkey_to_string (owner v)) ;; throw IncorrectProgramId
          else
          vote_pubkey <- on_tc (ba_get_key vote_account) ;;
          vote_state <- get_vote_state vote_account ;;
          state <- on_tc (ba_get_state stake_account) ;;
          x <- (match state with
                | Staked meta stake _ =>
                    status <- get_stake_status stake clock ;;
                    if (effective status =? 0) || negb (activating status =? 0) || negb (deactivating status =? 0) then
                      ic_msg "stake is not active" ;;
                      lift (stake_error StakeError.RedelegateTransientOrInactiveStake)
                    else if key_eqb (voter_pubkey (delegation stake)) vote_pubkey then
                      ic_msg "redelegating to the same vote account not permitted" ;;
                      lift (stake_error StakeError.RedelegateToSameVoteAccount)
                    else ret (meta, effective status)
                | _ => ic_msg "invalid stake account data" ;; throw InvalidAccountData
                end) ;;
          let '(stake_meta, effective_) := x in
          deactivate stake_account clock signers ;;
          on_tc (ba_checked_sub_lamports stake_account effective_) ;;
          on_tc (ba_checked_add_lamports uninitialized_stake_account effective_) ;;
          r <- asks (λ s, get_rent (sysvar_cache s)) ;;
          u <- on_tc (ba_account uninitialized_stake_account) ;;
          let meta := set_meta_reserve (minimum_balance r (len (data u))) stake_meta in
          stake_amount <- validate_delegated_amount uninitialized_stake_account meta ;;
          on_tc (ba_set_state uninitialized_stake_account
            (Staked meta (new_stake stake_amount vote_pubkey vote_state (clock_epoch clock))
               MUST_FULLY_ACTIVATE_BEFORE_DEACTIVATION_IS_PERMITTED)))
    | _ => ic_msg "expected uninitialized stake account to be uninitialized" ;; throw AccountAlreadyInitialized
    end).

(** *** Withdrawals *)

(** the lockup, what must stay, and whether some of it is staked *)
Definition withdrawal_terms (account : BorrowedAccount) (signers : gset Pubkey) (clock : Clock)
    (history : StakeHistory) (rate : option N) : IC (Lockup * N * bool) :=
  state <- on_tc (ba_get_state account) ;;
  match state with
  | Staked meta stake _ =>
      lift (authorized_check (authorized meta) signers StakeWithdrawer) ;;
      staked <- lift (if deactivation_epoch (delegation stake) <=? clock_epoch clock
                      then effective_stake history rate (delegation stake) (clock_epoch clock)
                      else Ok (delegated_stake (delegation stake))) ;;
      staked_and_reserve <- lift (checked_add_funds staked (rent_exempt_reserve meta)) ;;
      ret (lockup_of meta, staked_and_reserve, negb (staked =? 0))
  | StakeInitialized meta =>
      lift (authorized_check (authorized meta) signers StakeWithdrawer) ;;
      ret (lockup_of meta, rent_exempt_reserve meta, false)
  | StakeUninitialized =>
      key <- on_tc (ba_get_key account) ;;
      if bool_decide (key ∉ signers) then throw MissingRequiredSignature else ret (lockup_default, 0, false)
  | RewardsPool => throw InvalidAccountData
  end.
Definition stake_withdraw (ic : InstructionContext) (stake_account_index lamports_ to_index : N) (clock : Clock)
    (history : StakeHistory) (withdraw_authority_index : N) (custodian_index : option N) (rate : option N) : IC unit :=
  withdraw_authority_pubkey <- key_of_instruction_account ic withdraw_authority_index ;;
  is_signer <- lift (is_instruction_account_signer ic withdraw_authority_index) ;;
  if negb is_signer then throw MissingRequiredSignature else
  with_instruction_account ic stake_account_index (λ account,
    x <- withdrawal_terms account {[withdraw_authority_pubkey]} clock history rate ;;
    let '(lockup_, reserve, is_staked) := x in
    custodian_pubkey <-
      (match custodian_index with
       | Some index =>
           custodian_signs <- lift (is_instruction_account_signer ic index) ;;
           if custodian_signs : bool then k <- key_of_instruction_account ic index ;; ret (Some k) else ret None
       | None => ret None
       end) ;;
    if is_in_force lockup_ clock custodian_pubkey then lift (stake_error StakeError.LockupInForce) else
    lamports_and_reserve <- lift (checked_add_funds lamports_ reserve) ;;
    a <- on_tc (ba_account account) ;;
    if is_staked && (lamports a <? lamports_and_reserve) then throw InsufficientFunds else
    if negb (lamports_ =? lamports a) && (lamports a <? lamports_and_reserve) then
      (if is_staked then lift Panic else throw InsufficientFunds)
    else
    (if lamports_ =? lamports a then on_tc (ba_set_state account StakeUninitialized) else ret tt) ;;
    on_tc (ba_checked_sub_lamports account lamports_)) ;;
  with_instruction_account ic to_index (λ to, on_tc (ba_checked_add_lamports to lamports_)).

(** *** Delinquent voters; the borrow of the stake account is the caller's *)
Definition owned_vote_state (vote_account : BorrowedAccount) : IC VoteState :=
  a <- on_tc (ba_account vote_account) ;;
  if negb (key_eqb (owner a) vote_program_id) then throw IncorrectProgramId else get_vote_state vote_account.
Definition deactivate_delinquent (ic : InstructionContext) (stake_account : BorrowedAccount)
    (delinquent_vote_account_index reference_vote_account_index current_epoch : N) : IC unit :=
  delinquent_vote_account_pubkey <- key_of_instruction_account ic delinquent_vote_account_index ;;
  with_instruction_account ic delinquent_vote_account_index (λ delinquent_vote_account,
    delinquent_vote_state <- owned_vote_state delinquent_vote_account ;;
    with_instruction_account ic reference_vote_account_index (λ reference_vote_account,
      reference_vote_state <- owned_vote_state reference_vote_account ;;
      if negb (acceptable_reference_epoch_credits (epoch_credits reference_vote_state) current_epoch)
      then lift (stake_error StakeError.InsufficientReferenceVotes) else
      state <- on_tc (ba_get_state stake_account) ;;
      match state with
      | Staked meta stake stake_flags =>
          if negb (key_eqb (voter_pubkey (delegation stake)) delinquent_vote_account_pubkey)
          then lift (stake_error StakeError.VoteAddressMismatch) else
          if eligible_for_deactivate_delinquent (epoch_credits delinquent_vote_state) current_epoch then
            x <- deactivate_stake stake stake_flags current_epoch ;;
            on_tc (ba_set_state stake_account (Staked meta x.1 x.2))
          else lift (stake_error StakeError.MinimumDelinquentEpochsForDeactivationNotMet)
      | _ => throw InvalidAccountData
      end)).

(** ** The entrypoint *)
Definition get_optional_pubkey (ic : InstructionContext) (index : N) (should_be_signer : bool) : IC (option Pubkey) :=
  if index <? get_number_of_instruction_accounts ic then
    is_signer <- (if should_be_signer then lift (is_instruction_account_signer ic index) else ret true) ;;
    if negb is_signer then throw MissingRequiredSignature else
    k <- key_of_instruction_account ic index ;;
    ret (Some k)
  else ret None.
Definition config_from (a : AccountSharedData) : result InstructionError (option StakeConfig) :=
  match get_config_data (data a) with
  | Some r => rmap deserialize r
  | None => Ok None
  end.
(** the config account, before the feature that makes it unused *)
Definition check_stake_config (ic : InstructionContext) (index : N) : IC unit :=
  reduced <- active reduce_stake_warmup_cooldown_id ;;
  if negb reduced then
    with_instruction_account ic index (λ config_account,
      key <- on_tc (ba_get_key config_account) ;;
      if negb (key_eqb key stake_config_id) then throw InvalidArgument else
      a <- on_tc (ba_account config_account) ;;
      config <- lift (config_from a) ;;
      lift (ok_or config InvalidArgument) ;;
      ret tt)
  else ret tt.
(** [get_stake_account()], borrowed while [body] runs *)
Definition with_stake_account {A} (ic : InstructionContext) (body : BorrowedAccount → IC A) : IC A :=
  with_instruction_account ic 0 (λ me,
    a <- on_tc (ba_account me) ;;
    if negb (key_eqb (owner a) stake_program_id) then throw InvalidAccountOwner else body me).
(** the key of an instruction account that must have signed *)
Definition checked_signer (ic : InstructionContext) (index : N) : IC Pubkey :=
  k <- key_of_instruction_account ic index ;;
  is_signer <- lift (is_instruction_account_signer ic index) ;;
  if negb is_signer then throw MissingRequiredSignature else ret k.

Definition stake_dispatch (ic : InstructionContext) (signers : gset Pubkey) (instruction : StakeInstruction) : IC unit :=
  match instruction with
  | SInitialize authorized_ lockup_ =>
      with_stake_account ic (λ me,
        r <- rent_with_account_check ic 1 ;;
        stake_initialize me authorized_ lockup_ r)
  | SAuthorize authorized_pubkey stake_authorize =>
      with_stake_account ic (λ me,
        clock <- clock_with_account_check ic 1 ;;
        at_least ic 3 ;;
        custodian_pubkey <- get_optional_pubkey ic 3 false ;;
        stake_authorize_account me signers authorized_pubkey stake_authorize clock custodian_pubkey)
  | SAuthorizeWithSeed args =>
      with_stake_account ic (λ me,
        at_least ic 2 ;;
        clock <- clock_with_account_check ic 2 ;;
        custodian_pubkey <- get_optional_pubkey ic 3 false ;;
        stake_authorize_with_seed ic me 1 (authority_seed args) (authority_owner args) (new_authorized_pubkey args)
          (seed_stake_authorize args) clock custodian_pubkey)
  | DelegateStake =>
      x <- with_stake_account ic (λ _,
        at_least ic 2 ;;
        clock <- clock_with_account_check ic 2 ;;
        history <- stake_history_with_account_check ic 3 ;;
        at_least ic 5 ;;
        ret (clock, history)) ;;
      check_stake_config ic 4 ;;
      delegate ic 0 1 x.1 x.2 signers
  | SSplit lamports_ =>
      with_stake_account ic (λ _, at_least ic 2) ;;
      stake_split_account ic 0 lamports_ 1 signers
  | Merge =>
      x <- with_stake_account ic (λ _,
        at_least ic 2 ;;
        clock <- clock_with_account_check ic 2 ;;
        history <- stake_history_with_account_check ic 3 ;;
        ret (clock, history)) ;;
      stake_merge ic 0 1 x.1 x.2 signers
  | SWithdraw lamports_ =>
      x <- with_stake_account ic (λ _,
        at_least ic 2 ;;
        clock <- clock_with_account_check ic 2 ;;
        history <- stake_history_with_account_check ic 3 ;;
        at_least ic 5 ;;
        ret (clock, history)) ;;
      rate <- new_warmup_cooldown_rate_epoch ;;
      stake_withdraw ic 0 lamports_ 1 x.1 x.2 4
        (if 6 <=? get_number_of_instruction_accounts ic then Some 5 else None) rate
  | Deactivate =>
      with_stake_account ic (λ me,
        clock <- clock_with_account_check ic 1 ;;
        deactivate me clock signers)
  | SetLockup args =>
      with_stake_account ic (λ me,
        clock <- asks (λ s, get_clock (sysvar_cache s)) ;;
        stake_set_lockup me args signers clock)
  | InitializeChecked =>
      with_stake_account ic (λ me,
        at_least ic 4 ;;
        staker_pubkey <- key_of_instruction_account ic 2 ;;
        withdrawer_pubkey <- checked_signer ic 3 ;;
        r <- rent_with_account_check ic 1 ;;
        stake_initialize me (mkAuthorized staker_pubkey withdrawer_pubkey) lockup_default r)
  | SAuthorizeChecked stake_authorize =>
      with_stake_account ic (λ me,
        clock <- clock_with_account_check ic 1 ;;
        at_least ic 4 ;;
        authorized_pubkey <- checked_signer ic 3 ;;
        custodian_pubkey <- get_optional_pubkey ic 4 false ;;
        stake_authorize_account me signers authorized_pubkey stake_authorize clock custodian_pubkey)
  | SAuthorizeCheckedWithSeed args =>
      with_stake_account ic (λ me,
        at_least ic 2 ;;
        clock <- clock_with_account_check ic 2 ;;
        at_least ic 4 ;;
        authorized_pubkey <- checked_signer ic 3 ;;
        custodian_pubkey <- get_optional_pubkey ic 4 false ;;
        stake_authorize_with_seed ic me 1 (checked_authority_seed args) (checked_authority_owner args) authorized_pubkey
          (checked_stake_authorize args) clock custodian_pubkey)
  | SetLockupChecked args =>
      with_stake_account ic (λ me,
        custodian_pubkey <- get_optional_pubkey ic 2 true ;;
        clock <- asks (λ s, get_clock (sysvar_cache s)) ;;
        stake_set_lockup me (mkLockupArgs (checked_unix_timestamp args) (checked_epoch args) custodian_pubkey)
          signers clock)
  | GetMinimumDelegation =>
      features <- gets feature_set ;;
      on_tc (set_return_data stake_program_id (le_bytes 8 (get_minimum_delegation features)))
  | DeactivateDelinquent =>
      with_stake_account ic (λ me,
        at_least ic 3 ;;
        clock <- asks (λ s, get_clock (sysvar_cache s)) ;;
        deactivate_delinquent ic me 1 2 (clock_epoch clock))
  | Redelegate =>
      with_stake_account ic (λ me,
        redelegation <- active stake_redelegate_instruction_id ;;
        if redelegation : bool then
          at_least ic 3 ;;
          check_stake_config ic 3 ;;
          redelegate ic me 1 2 signers
        else throw InvalidInstructionData)
  end.

Definition STAKE_COMPUTE_UNITS : N := 750.
Definition stake_process_instruction : IC unit :=
  ic <- asks_tc get_current_instruction_context ;;
  signers <- asks_tc (get_signers ic) ;;
  instruction <- lift (limited_deserialize (instruction_data ic)) ;;
  stake_dispatch ic signers instruction.
Definition stake_entrypoint : program := declare_process_instruction STAKE_COMPUTE_UNITS stake_process_instruction.
End program.
