(* ===== verification/StakeRules.v ===== *)
(** * Activation of stakes, and the frame of the programs

    How much of a delegation is effective at an epoch, with bounds that hold whatever the
    history says; and the proof that the stake and config programs reach accounts only
    through the handles they are given. *)

From S2P Require Import Prelude Sdk Rent EpochSchedule Stake.
From S2P Require Import Account TransactionContext AccountRules InstructionRules LogCollector InvokeContext InvokeRules Nonce SystemProgram.
From S2P Require Import Effects SystemProgramRules LookupTable LookupTableRules VoteState VoteProcess VoteProgram VoteControl ConfigProgram.
From S2P Require Import StakeProgram.

(** ** The history left above an epoch *)
Definition entries_above (epoch : N) (l : list (N * StakeHistoryEntry)) : nat := length (filter (λ x, epoch < x.1) l).
Lemma entries_above_le epoch l : (entries_above epoch l ≤ length l)%nat.
Proof. apply length_filter. Qed.
Lemma entries_above_lt epoch l x :
  stake_history_get (epoch + 1) l = Some x → (entries_above (epoch + 1) l < entries_above epoch l)%nat.
Proof.
  intros Hx%stake_history_get_elem. unfold entries_above. induction l as [|[e y] l IH]; [by apply elem_of_nil in Hx|].
  rewrite !filter_cons. apply elem_of_cons in Hx as [[= <- <-]|Hx].
  - rewrite decide_False by (simpl; lia). rewrite decide_True by (simpl; lia). simpl.
    enough (length (filter (λ x, (epoch + 1 < x.1)%N) l) ≤ length (filter (λ x, (epoch < x.1)%N) l))%nat by lia.
    clear IH. induction l as [|[e' y'] l IH]; [done|]. rewrite !filter_cons.
    repeat case_decide; simpl in *; lia.
  - specialize (IH Hx). repeat case_decide; simpl in *; lia.
Qed.

Section rules.
Context (history : StakeHistory) (rate : option N) (d : Delegation).
Local Abbreviation activate := (activation_loop history rate d).
Local Abbreviation cool := (deactivation_loop history rate).

Lemma following e : e < u64_max → wrapping_add e 1 = e + 1.
Proof. intros He. unfold wrapping_add, as_u64. rewrite N.mod_small; [done|]. unfold u64_max in *. lia. Qed.

(** ** Warming up *)
Lemma activation_loop_Ok {E} target fuel prev x current :
  target ≤ u64_max → prev < u64_max → current ≤ delegated_stake d →
  (entries_above prev history < fuel)%nat →
  ∃ n, activate target (E:=E) fuel prev x current = Ok n ∧ n ≤ delegated_stake d.
Proof.
  intros Ht. revert prev x current. induction fuel as [|fuel IH]; intros prev x current Hp Hc Hf; [lia|].
  cbn [activation_loop]. rewrite (following prev Hp). destruct (_ =? 0); [eauto|].
  set (current' := wrapping_add current _). destruct (N.leb_spec (delegated_stake d) current'); [eauto|].
  destruct ((target <=? prev + 1) || (deactivation_epoch d <=? prev + 1)) eqn:Hstop; [eexists; split; [done|lia]|].
  apply orb_false_iff in Hstop as [Hlt%N.leb_gt _].
  destruct (stake_history_get (prev + 1) history) as [y|] eqn:Hy; [|eexists; split; [done|lia]].
  apply IH; [lia..|]. apply entries_above_lt in Hy. lia.
Qed.
(** what is effective and what is activating *)
Lemma stake_and_activating_Ok {E} target :
  delegated_stake d ≤ u64_max → activation_epoch d ≤ u64_max → target ≤ u64_max →
  ∃ e a, stake_and_activating history rate d target (E:=E) = Ok (e, a) ∧ e ≤ delegated_stake d ∧
    e + a ≤ delegated_stake d ∧
    (activation_epoch d ≤ target → activation_epoch d ≠ deactivation_epoch d → e + a = delegated_stake d).
Proof.
  intros Hstake Hact Ht. unfold stake_and_activating, is_bootstrap.
  destruct (N.eqb_spec (activation_epoch d) u64_max) as [|Hb]; [do 2 eexists; split; [done|lia]|].
  destruct (N.eqb_spec (activation_epoch d) (deactivation_epoch d)); [do 2 eexists; split; [done|split_and!; [lia..|done]]|].
  destruct (N.eqb_spec target (activation_epoch d)); [do 2 eexists; split; [done|lia]|].
  destruct (N.ltb_spec target (activation_epoch d)); [do 2 eexists; split; [done|lia]|].
  destruct (stake_history_get _ _) as [x|]; [|do 2 eexists; split; [done|lia]].
  destruct (activation_loop_Ok (E:=E) target (S (length history)) (activation_epoch d) x 0) as (k & Hn & Hle);
    [done|unfold u64_max in *; lia|lia|pose proof (entries_above_le (activation_epoch d) history); lia|].
  rewrite Hn. cbn [rbind]. do 2 eexists. split; [done|].
  rewrite wrapping_sub_le by done. lia.
Qed.
(** once the deactivation has come, the warm-up no longer depends on the epoch asked for *)
Lemma activation_loop_capped {E} t1 t2 fuel prev x current :
  deactivation_epoch d ≤ t1 → deactivation_epoch d ≤ t2 →
  activate t1 (E:=E) fuel prev x current = activate t2 fuel prev x current.
Proof.
  intros H1 H2. revert prev x current. induction fuel as [|fuel IH]; intros prev x current; [done|].
  cbn [activation_loop]. destruct (_ =? 0); [done|]. destruct (_ <=? _); [done|].
  destruct (N.leb_spec (deactivation_epoch d) (wrapping_add prev 1)).
  - by rewrite !orb_true_r.
  - rewrite !orb_false_r, !(proj2 (N.leb_gt _ _)) by lia. by destruct (stake_history_get _ _).
Qed.

(** ** Cooling down *)
Lemma deactivation_loop_Ok {E} target fuel prev x current :
  target ≤ u64_max → prev < u64_max → (entries_above prev history < fuel)%nat →
  ∃ n, cool target (E:=E) fuel prev x current = Ok n ∧ n ≤ current.
Proof.
  intros Ht. revert prev x current. induction fuel as [|fuel IH]; intros prev x current Hp Hf; [lia|].
  cbn [deactivation_loop]. rewrite (following prev Hp). destruct (_ =? 0); [eauto|].
  set (current' := saturating_sub current _). assert (current' ≤ current) as Hle by (unfold current', saturating_sub; lia).
  destruct (N.eqb_spec current' 0); [eauto|]. destruct (N.leb_spec target (prev + 1)); [eauto|].
  destruct (stake_history_get (prev + 1) history) as [y|] eqn:Hy; [|eauto].
  destruct (IH (prev + 1) y current') as (k & Hn & Hln); [lia|apply entries_above_lt in Hy; lia|].
  exists k. split; [done|lia].
Qed.
(** a later epoch finds no more *)
Lemma deactivation_loop_falls {E} t1 t2 fuel prev x current n1 :
  t1 ≤ t2 → t2 ≤ u64_max → prev < u64_max → (entries_above prev history < fuel)%nat →
  cool t1 (E:=E) fuel prev x current = Ok n1 →
  ∃ n2, cool t2 (E:=E) fuel prev x current = Ok n2 ∧ n2 ≤ n1.
Proof.
  intros H12 Ht. revert prev x current. induction fuel as [|fuel IH]; intros prev x current Hp Hf; [lia|].
  cbn [deactivation_loop]. rewrite (following prev Hp). destruct (_ =? 0); [eauto|].
  set (current' := saturating_sub current _). destruct (current' =? 0); [eauto|].
  destruct (N.leb_spec t1 (prev + 1)), (N.leb_spec t2 (prev + 1)); [eauto| |lia|].
  - intros [= <-]. destruct (stake_history_get (prev + 1) history) as [y|] eqn:Hy; [|eauto].
    apply deactivation_loop_Ok; [done|lia|]. apply entries_above_lt in Hy. lia.
  - destruct (stake_history_get (prev + 1) history) as [y|] eqn:Hy; [|eauto].
    apply IH; [lia|]. apply entries_above_lt in Hy. lia.
Qed.
End rules.

(** the status at an epoch *)
Definition status_of (history : StakeHistory) (rate : option N) (d : Delegation) (epoch : N) :
  result InstructionError StakeHistoryEntry :=
  stake_activating_and_deactivating history rate d epoch.
Definition delegation_in_range (d : Delegation) : Prop :=
  delegated_stake d ≤ u64_max ∧ activation_epoch d ≤ u64_max ∧ deactivation_epoch d ≤ u64_max.

(** activated before it was deactivated, or from the start *)
Definition in_order (d : Delegation) : Prop := is_bootstrap d = true ∨ activation_epoch d ≤ deactivation_epoch d.

(** the first half of the computation is the same at all epochs from the deactivation on *)
Lemma stake_and_activating_settled {E} history rate d t1 t2 :
  in_order d → deactivation_epoch d ≤ t1 → deactivation_epoch d ≤ t2 →
  stake_and_activating history rate d t1 (E:=E) = stake_and_activating history rate d t2.
Proof.
  intros Hd H1 H2. unfold stake_and_activating. destruct Hd as [->|Hle]; [done|]. destruct (is_bootstrap d); [done|].
  destruct (N.eqb_spec (activation_epoch d) (deactivation_epoch d)); [done|].
  rewrite !(proj2 (N.eqb_neq _ _)), !(proj2 (N.ltb_ge _ _)) by lia.
  destruct (stake_history_get _ _); [|done]. by rewrite (activation_loop_capped history rate d t1 t2).
Qed.
Lemma cooling_falls history rate d t1 t2 x1 :
  delegation_in_range d → in_order d → deactivation_epoch d ≤ t1 → t1 ≤ t2 → t2 ≤ u64_max →
  status_of history rate d t1 = Ok x1 →
  ∃ x2, status_of history rate d t2 = Ok x2 ∧ effective x2 ≤ effective x1.
Proof.
  intros (Hs & Ha & Hd) Hord H1 H12 H2. unfold status_of, stake_activating_and_deactivating.
  rewrite (stake_and_activating_settled history rate d t2 t1) by (done || lia).
  destruct (stake_and_activating_Ok history rate d (E:=InstructionError) t1) as (e & a & -> & _); [done..|lia|]. cbn [rbind].
  rewrite !(proj2 (N.ltb_ge _ _)) by lia.
  destruct (N.eqb_spec t1 (deactivation_epoch d)), (N.eqb_spec t2 (deactivation_epoch d)); [eauto| |lia|].
  - intros [= <-]. destruct (stake_history_get _ _) as [y|]; [|eexists; split; [done|simpl; lia]].
    destruct (deactivation_loop_Ok history rate (E:=InstructionError) t2 (S (length history)) (deactivation_epoch d) y e)
      as (k & -> & Hk); [done|lia|pose proof (entries_above_le (deactivation_epoch d) history); lia|].
    eexists. split; [done|]. exact Hk.
  - destruct (stake_history_get _ _) as [y|]; [|eauto].
    destruct (deactivation_loop history rate t1 _ _ y e) as [k1| |] eqn:Hk1; [|done..]. intros [= <-].
    eapply (deactivation_loop_falls history rate t1 t2) in Hk1 as (k2 & -> & Hle);
      [|done..|lia|pose proof (entries_above_le (deactivation_epoch d) history); lia].
    eexists. split; [done|]. exact Hle.
Qed.
Lemma status_of_Ok history rate d t :
  delegation_in_range d → t ≤ u64_max →
  ∃ x, status_of history rate d t = Ok x ∧ effective x + activating x ≤ delegated_stake d ∧
    (t < deactivation_epoch d → deactivating x = 0 ∧
       (activation_epoch d ≤ t → effective x + activating x = delegated_stake d)) ∧
    (deactivation_epoch d ≤ t → activating x = 0 ∧ deactivating x = effective x).
Proof.
  intros (Hs & Ha & Hd) Ht. unfold status_of, stake_activating_and_deactivating.
  destruct (stake_and_activating_Ok history rate d (E:=InstructionError) t) as (e & a & -> & He & Hea & Hfull); [done..|]. cbn [rbind].
  destruct (N.ltb_spec t (deactivation_epoch d)).
  { exists (if a =? 0 then with_effective e else with_effective_and_activating e a). split; [done|].
    destruct (N.eqb_spec a 0) as [->|]; simpl; (split; [lia|]); (split; [|lia]); intros _; (split; [done|]);
      intros; rewrite Hfull; lia. }
  destruct (N.eqb_spec t (deactivation_epoch d)).
  { eexists. split; [done|]. simpl. split; [lia|]. split; [lia|done]. }
  destruct (stake_history_get _ _) as [y|]; [|eexists; split; [done|]; simpl; split; [lia|]; split; [lia|done]].
  destruct (deactivation_loop_Ok history rate (E:=InstructionError) t (S (length history)) (deactivation_epoch d) y e)
    as (k & -> & Hk); [done|lia|pose proof (entries_above_le (deactivation_epoch d) history); lia|].
  eexists. split; [done|]. simpl. split; [lia|]. split; [lia|done].
Qed.

(** C17: the status of a delegation, whatever the history says.  It is always computed (no loop runs
    without end and nothing panics); what is effective and what is activating are together never
    more than was delegated, and exactly that from the activation to the deactivation; from
    then on nothing activates, all that is effective is deactivating, and it never rises again. *)
Theorem stake_status_bounds history rate d t :
  delegation_in_range d → in_order d → t ≤ u64_max →
  ∃ x, status_of history rate d t = Ok x ∧ effective x + activating x ≤ delegated_stake d ∧
    (t < deactivation_epoch d → deactivating x = 0 ∧
       (activation_epoch d ≤ t → effective x + activating x = delegated_stake d)) ∧
    (deactivation_epoch d ≤ t → activating x = 0 ∧ deactivating x = effective x ∧
       ∀ t', t ≤ t' → t' ≤ u64_max →
         ∃ x', status_of history rate d t' = Ok x' ∧ effective x' ≤ effective x).
Proof.
  intros Hd Hord Ht. destruct (status_of_Ok history rate d t Hd Ht) as (x & Hx & Hle & Hwarm & Hcool).
  exists x. split_and!; [done..|]. intros Hdt. destruct (Hcool Hdt) as [-> ->]. split_and!; [done..|].
  intros t' H1 H2. by apply (cooling_falls history rate d t t').
Qed.

Section stake.
Context `{PubkeyDisplay, Sha256, !Bincode StakeStateV2, !Bincode VoteStateVersions, !Bincode ConfigKeys,
  !Bincode StakeConfig, !Bincode StakeInstruction}.
Context (activated_slot : Pubkey → N) (ic : InstructionContext).
Abbreviation ok m := (steps_in (running ic) (ic_frame ic) m).

Lemma stake_history_frame i : ok (stake_history_with_account_check ic i).
Proof. unfold stake_history_with_account_check. frame_solve. Qed.
#[local] Hint Resolve clock_frame stake_history_frame active_frame rent_frame key_of_frame at_least_frame : frame.
Lemma new_rate_frame : ok (new_warmup_cooldown_rate_epoch activated_slot).
Proof. unfold new_warmup_cooldown_rate_epoch. frame_solve. Qed.
#[local] Hint Resolve new_rate_frame : frame.
Lemma status_at_frame h st e : ok (status_at activated_slot h st e).
Proof. unfold status_at. frame_solve. Qed.
#[local] Hint Resolve status_at_frame : frame.
Lemma get_stake_status_frame st c : ok (get_stake_status activated_slot st c).
Proof. unfold get_stake_status. frame_solve. Qed.
Lemma redelegate_stake_frame st n k v c h : ok (redelegate_stake activated_slot st n k v c h).
Proof. unfold redelegate_stake. frame_solve. Qed.
Lemma deactivate_stake_frame st f e : ok (deactivate_stake activated_slot st f e).
Proof. unfold deactivate_stake. frame_solve. Qed.
Lemma optional_pubkey_frame i b : ok (get_optional_pubkey ic i b).
Proof. unfold get_optional_pubkey. frame_solve. Qed.
Lemma checked_signer_frame i : ok (checked_signer ic i).
Proof. unfold checked_signer. frame_solve. Qed.
Lemma mergeable_frame st n c h : ok (get_if_mergeable activated_slot st n c h).
Proof. unfold get_if_mergeable. frame_solve. Qed.
Lemma metas_frame m1 m2 c : ok (metas_can_merge m1 m2 c).
Proof. unfold metas_can_merge. frame_solve. Qed.
Lemma delegations_frame d1 d2 : ok (active_delegations_can_merge d1 d2).
Proof. unfold active_delegations_can_merge. frame_solve. Qed.
#[local] Hint Resolve metas_frame delegations_frame : frame.
Lemma merge_kinds_frame k1 k2 c : ok (merge_kinds k1 k2 c).
Proof. unfold merge_kinds. frame_solve. Qed.
#[local] Hint Resolve get_stake_status_frame redelegate_stake_frame deactivate_stake_frame optional_pubkey_frame
  checked_signer_frame mergeable_frame merge_kinds_frame : frame.

Section handle.
Context (ba : BorrowedAccount) (Hba : handle_in ic ba).
Lemma stake_get_key_frame : ok (on_tc (ba_get_key ba)).
Proof.
  apply (handle_op_frame _ ic ba Hba). intros t. unfold ba_get_key, asks. cbn [snd]. apply tc_frame_refl; apply _.
Qed.
#[local] Hint Resolve stake_get_key_frame : frame.
Lemma stake_initialize_frame a l r : ok (stake_initialize ba a l r).
Proof. unfold stake_initialize. frame_solve. Qed.
Lemma stake_authorize_frame sg k a c cu : ok (stake_authorize_account ba sg k a c cu).
Proof. unfold stake_authorize_account. cbv zeta. frame_solve. Qed.
#[local] Hint Resolve stake_authorize_frame : frame.
Lemma stake_with_seed_frame i sd o k a c cu : ok (stake_authorize_with_seed ic ba i sd o k a c cu).
Proof. unfold stake_authorize_with_seed. frame_solve. Qed.
Lemma delegated_amount_frame m : ok (validate_delegated_amount ba m).
Proof. unfold validate_delegated_amount. frame_solve. Qed.
Lemma stake_deactivate_frame c sg : ok (deactivate activated_slot ba c sg).
Proof. unfold deactivate. frame_solve. Qed.
Lemma stake_set_lockup_frame a sg c : ok (stake_set_lockup ba a sg c).
Proof. unfold stake_set_lockup. frame_solve. Qed.
Lemma withdrawal_terms_frame sg c h r : ok (withdrawal_terms ba sg c h r).
Proof. unfold withdrawal_terms. frame_solve. Qed.
Lemma owned_vote_state_frame : ok (owned_vote_state ba).
Proof. unfold owned_vote_state. frame_solve. by apply get_vote_state_frame. Qed.
End handle.

Context (Hsm : ic_small ic).
#[local] Hint Resolve stake_get_key_frame stake_initialize_frame stake_authorize_frame stake_with_seed_frame
  delegated_amount_frame stake_deactivate_frame stake_set_lockup_frame withdrawal_terms_frame owned_vote_state_frame
  get_vote_state_frame : frame.
#[local] Hint Extern 2 (steps_in _ _ (ic_with_account _ _)) =>
  (apply ic_with_handle_frame; [exact Hsm|intros ? ?; frame_solve]) : frame.
#[local] Hint Extern 2 (steps_in _ _ (with_instruction_account _ _ _)) =>
  (unfold with_instruction_account) : frame.
Lemma delegate_frame i j c h sg : ok (delegate activated_slot ic i j c h sg).
Proof. unfold delegate. frame_solve. Qed.
Lemma validate_split_frame i j n m k b : ok (validate_split_amount ic i j n m k b).
Proof. unfold validate_split_amount. frame_solve. Qed.
#[local] Hint Resolve validate_split_frame : frame.
Lemma split_state_frame i n j sg b st : ok (split_state activated_slot ic i n j sg b st).
Proof. unfold split_state. frame_solve. Qed.
#[local] Hint Resolve split_state_frame : frame.
Lemma stake_split_frame i n j sg : ok (stake_split_account activated_slot ic i n j sg).
Proof. unfold stake_split_account. frame_solve. Qed.
Lemma stake_merge_frame i j c h sg : ok (stake_merge activated_slot ic i j c h sg).
Proof. unfold stake_merge. frame_solve. Qed.
Lemma redelegate_frame ba i j sg : handle_in ic ba → ok (redelegate activated_slot ic ba i j sg).
Proof. intros Hba. unfold redelegate. frame_solve. Qed.
Lemma stake_withdraw_frame i n j c h w cu r : ok (stake_withdraw ic i n j c h w cu r).
Proof. unfold stake_withdraw. frame_solve. Qed.
Lemma delinquent_frame ba i j e : handle_in ic ba → ok (deactivate_delinquent activated_slot ic ba i j e).
Proof. intros Hba. unfold deactivate_delinquent. frame_solve. Qed.
Lemma check_config_frame i : ok (check_stake_config ic i).
Proof. unfold check_stake_config. frame_solve. Qed.
#[local] Hint Resolve delegate_frame stake_split_frame stake_merge_frame redelegate_frame stake_withdraw_frame
  delinquent_frame check_config_frame : frame.
Lemma stake_dispatch_frame sg instruction : ok (stake_dispatch activated_slot ic sg instruction).
Proof. unfold stake_dispatch, with_stake_account. destruct instruction; frame_solve. Qed.
Lemma stake_process_instruction_frame : ok (stake_process_instruction activated_slot).
Proof. apply steps_current; [done|]. frame_solve. apply stake_dispatch_frame. Qed.
End stake.

Lemma stake_lawful `{PubkeyDisplay, Sha256, !Bincode StakeStateV2, !Bincode VoteStateVersions, !Bincode ConfigKeys,
    !Bincode StakeConfig, !Bincode StakeInstruction} activated_slot ic : lawful ic (stake_entrypoint activated_slot).
Proof. apply declared_lawful. intros ic'. apply steps_small. intros Hsm. by apply stake_process_instruction_frame. Qed.

Section config.
Context `{PubkeyDisplay, !Bincode ConfigKeys}.
Context (bincode_error : list N → string) (ic : InstructionContext) (Hsm : ic_small ic).
Local Abbreviation ok m := (steps_in (running ic) (ic_frame ic) m).
#[local] Hint Resolve key_of_frame stake_get_key_frame : frame.
#[local] Hint Extern 2 (steps_in _ _ (ic_with_account _ _)) =>
  (apply ic_with_handle_frame; [exact Hsm|intros ? ?; frame_solve]) : frame.
#[local] Hint Extern 2 (steps_in _ _ (with_instruction_account _ _ _)) =>
  (unfold with_instruction_account) : frame.

Lemma write_data_frame ba f : handle_in ic ba → ok (on_tc (ba_write_data ba f)).
Proof. intros Hba. apply (handle_op_frame _ ic ba Hba). intros t. apply ba_write_data_frame. Qed.
#[local] Hint Resolve write_data_frame : frame.
Lemma refuse_frame {A} m : ok (refuse (A:=A) m).
Proof. unfold refuse. frame_solve. Qed.
#[local] Hint Resolve refuse_frame : frame.
Lemma with_account_or_frame {A} i (failed : IC A) body :
  ok failed → ok (ic_with_account (try_borrow_instruction_account ic i) body) →
  ok (with_account_or (try_borrow_instruction_account ic i) failed body).
Proof.
  intros Hf Hb s Hs. unfold with_account_or.
  destruct (try_borrow_instruction_account ic i (transaction_context s)) as [[ba|e|] t] eqn:Ht; [by apply Hb| |by apply Hb].
  assert (t = transaction_context s) as ->.
  { revert Ht. unfold try_borrow_instruction_account, try_borrow_account, bind, lift, asks.
    destruct (get_index_of_instruction_account_in_transaction ic i); [|by intros [= _ <-]..].
    destruct (ok_or _ _) as [c| |]; [|by intros [= _ <-]..]. destruct (cell_borrowed c); [by intros [= _ <-]|done]. }
  destruct s. by apply Hf.
Qed.
Lemma config_signer_frame k b cur n sg : ok (check_config_signer ic k b cur n sg).
Proof.
  unfold check_config_signer. destruct (negb _); [|frame_solve].
  apply with_account_or_frame; [frame_solve|]. apply ic_with_handle_frame; [done|]. intros ba Hba. frame_solve.
Qed.
Lemma config_signers_frame k b cur n l : ok (check_config_signers ic k b cur n l).
Proof.
  revert n. induction l as [|sg l IH]; intros n; cbn [check_config_signers]; [frame_solve|].
  apply (steps_bind _ _ _); [apply config_signer_frame|]. intros _. apply IH.
Qed.
#[local] Hint Resolve config_signers_frame : frame.
Lemma config_process_instruction_frame : ok (config_process_instruction bincode_error).
Proof. apply steps_current; [done|]. cbv beta zeta. frame_solve. Qed.
End config.
Lemma config_lawful `{PubkeyDisplay, !Bincode ConfigKeys} bincode_error ic : lawful ic (config_entrypoint bincode_error).
Proof. apply declared_lawful. intros ic'. apply steps_small. intros Hsm. by apply config_process_instruction_frame. Qed.
