(* ===== verification/StakeWire.v ===== *)
(** * The formats of the stake and config programs

    [bincode]'s format of the stored states and of the instructions; the room a stake state
    needs. *)

From S2P Require Import Prelude Sdk Rent Codec WireFormat InvokeContext VoteWire ConfigProgram Stake StakeProgram.
From Stdlib Require Import SpecFloat.

(** ** [f64] as its 64 bits: a sign, 11 bits of exponent, 52 bits of mantissa *)
Definition sign_bit (s : bool) : N := if s then 2 ^ 63 else 0.
Definition f64_to_bits (x : f64) : N :=
  match x with
  | S754_zero s => sign_bit s
  | S754_infinity s => sign_bit s + 2047 * 2 ^ 52
  | S754_nan => 4095 * 2 ^ 51
  | S754_finite s m e =>
      sign_bit s + (if Npos m <? 2 ^ 52 then Npos m else Z.to_N (e + 1075) * 2 ^ 52 + (Npos m - 2 ^ 52))
  end.
Definition f64_of_bits (b : N) : f64 :=
  let s := 2 ^ 63 <=? b in
  let ex := (b / 2 ^ 52) `mod` 2048 in
  let man := b `mod` 2 ^ 52 in
  if ex =? 0 then match man with 0 => S754_zero s | Npos m => S754_finite s m (-1074) end
  else if ex =? 2047 then if man =? 0 then S754_infinity s else S754_nan
  else match 2 ^ 52 + man with 0 => S754_nan | Npos m => S754_finite s m (Z.of_N ex - 1075) end.
#[export] Instance spec_float_eq_dec : EqDecision spec_float.
Proof. solve_decision. Defined.
(** only the numbers that have a binary64 form are written *)
Definition c_f64 : codec f64 := mkCodec
  (λ x, if bool_decide (f64_of_bits (f64_to_bits x) = x) then enc u64 (f64_to_bits x) else None)
  (λ bs, '(n, r) ← dec u64 bs; Some (f64_of_bits n, r)).
#[export] Instance c_f64_ok : CodecOk c_f64.
Proof.
  intros x bs rest. unfold c_f64. cbn [enc dec]. case_bool_decide as Hx; [|done]. intros Hb.
  rewrite (dec_enc (c := u64) _ _ _ Hb). cbn [mbind option_bind]. by rewrite Hx.
Qed.

(** ** Stake states *)
Definition c_lockup : codec Lockup := c_map
  (λ '(ts, (ep, cu)), mkLockup ts ep cu) (λ l, (lockup_unix_timestamp l, (lockup_epoch l, custodian l)))
  (c_pair c_i64 (c_pair u64 c_pubkey)).
Definition c_authorized : codec Authorized := c_map
  (λ '(s, w), mkAuthorized s w) (λ a, (staker a, withdrawer a)) (c_pair c_pubkey c_pubkey).
Definition c_meta : codec Meta := c_map
  (λ '(r, (a, l)), mkMeta r a l) (λ m, (rent_exempt_reserve m, (authorized m, lockup_of m)))
  (c_pair u64 (c_pair c_authorized c_lockup)).
Definition c_delegation : codec Delegation := c_map
  (λ '(v, (s, (a, (d, r)))), mkDelegation v s a d r)
  (λ d, (voter_pubkey d, (delegated_stake d, (activation_epoch d, (deactivation_epoch d, delegation_rate d)))))
  (c_pair c_pubkey (c_pair u64 (c_pair u64 (c_pair u64 c_f64)))).
Definition c_stake : codec Stake := c_map
  (λ '(d, c), mkStake d c) (λ s, (delegation s, credits_observed s)) (c_pair c_delegation u64).
Definition c_flags : codec StakeFlags := c_map mkStakeFlags flag_bits c_u8.
#[export] Instance c_lockup_ok : CodecOk c_lockup.
Proof. apply c_map_ok; [apply _|by intros []]. Qed.
#[export] Instance c_authorized_ok : CodecOk c_authorized.
Proof. apply c_map_ok; [apply _|by intros []]. Qed.
#[export] Instance c_meta_ok : CodecOk c_meta.
Proof. apply c_map_ok; [apply _|by intros []]. Qed.
#[export] Instance c_delegation_ok : CodecOk c_delegation.
Proof. apply c_map_ok; [apply _|by intros []]. Qed.
#[export] Instance c_stake_ok : CodecOk c_stake.
Proof. apply c_map_ok; [apply _|by intros []]. Qed.
#[export] Instance c_flags_ok : CodecOk c_flags.
Proof. apply c_map_ok; [apply _|by intros []]. Qed.
Definition c_stake_state : codec StakeStateV2 := c_enum
  (λ s, match s with
   | StakeUninitialized => enc_tag 0 c_unit tt
   | StakeInitialized m => enc_tag 1 c_meta m
   | Staked m s f => enc_tag 2 (c_pair c_meta (c_pair c_stake c_flags)) (m, (s, f))
   | RewardsPool => enc_tag 3 c_unit tt
   end)
  (λ tag, match tag with
   | 0 => dec_as c_unit (λ _, StakeUninitialized)
   | 1 => dec_as c_meta StakeInitialized
   | 2 => dec_as (c_pair c_meta (c_pair c_stake c_flags)) (λ '(m, (s, f)), Staked m s f)
   | 3 => dec_as c_unit (λ _, RewardsPool)
   | _ => λ _, None
   end).
#[export] Instance c_stake_state_ok : CodecOk c_stake_state.
Proof. apply c_enum_ok. intros []; enum_case. Qed.

(** ** Instructions *)
Definition c_stake_authorize : codec StakeAuthorize := c_enum
  (λ s, match s with Staker => enc_tag 0 c_unit tt | StakeWithdrawer => enc_tag 1 c_unit tt end)
  (λ tag, match tag with
   | 0 => dec_as c_unit (λ _, Staker)
   | 1 => dec_as c_unit (λ _, StakeWithdrawer)
   | _ => λ _, None
   end).
#[export] Instance c_stake_authorize_ok : CodecOk c_stake_authorize.
Proof. apply c_enum_ok. intros []; enum_case. Qed.
Definition c_lockup_args : codec LockupArgs := c_map
  (λ '(t, (e, c)), mkLockupArgs t e c) (λ a, (args_unix_timestamp a, (args_epoch a, args_custodian a)))
  (c_pair (c_option c_i64) (c_pair (c_option u64) (c_option c_pubkey))).
Definition c_lockup_checked_args : codec LockupCheckedArgs := c_map
  (λ '(t, e), mkLockupCheckedArgs t e) (λ a, (checked_unix_timestamp a, checked_epoch a))
  (c_pair (c_option c_i64) (c_option u64)).
Definition c_seed_args : codec StakeAuthorizeWithSeedArgs := c_map
  (λ '(k, (a, (s, o))), mkStakeAuthorizeWithSeedArgs k a s o)
  (λ x, (new_authorized_pubkey x, (seed_stake_authorize x, (authority_seed x, authority_owner x))))
  (c_pair c_pubkey (c_pair c_stake_authorize (c_pair c_bytes c_pubkey))).
Definition c_checked_seed_args : codec StakeAuthorizeCheckedWithSeedArgs := c_map
  (λ '(a, (s, o)), mkStakeAuthorizeCheckedWithSeedArgs a s o)
  (λ x, (checked_stake_authorize x, (checked_authority_seed x, checked_authority_owner x)))
  (c_pair c_stake_authorize (c_pair c_bytes c_pubkey)).
#[export] Instance c_lockup_args_ok : CodecOk c_lockup_args.
Proof. apply c_map_ok; [apply _|by intros []]. Qed.
#[export] Instance c_lockup_checked_args_ok : CodecOk c_lockup_checked_args.
Proof. apply c_map_ok; [apply _|by intros []]. Qed.
#[export] Instance c_seed_args_ok : CodecOk c_seed_args.
Proof. apply c_map_ok; [apply _|by intros []]. Qed.
#[export] Instance c_checked_seed_args_ok : CodecOk c_checked_seed_args.
Proof. apply c_map_ok; [apply _|by intros []]. Qed.
Definition c_stake_instruction : codec StakeInstruction := c_enum
  (λ i, match i with
   | SInitialize a l => enc_tag 0 (c_pair c_authorized c_lockup) (a, l)
   | SAuthorize k a => enc_tag 1 (c_pair c_pubkey c_stake_authorize) (k, a)
   | DelegateStake => enc_tag 2 c_unit tt
   | SSplit n => enc_tag 3 u64 n
   | SWithdraw n => enc_tag 4 u64 n
   | Deactivate => enc_tag 5 c_unit tt
   | SetLockup a => enc_tag 6 c_lockup_args a
   | Merge => enc_tag 7 c_unit tt
   | SAuthorizeWithSeed a => enc_tag 8 c_seed_args a
   | InitializeChecked => enc_tag 9 c_unit tt
   | SAuthorizeChecked a => enc_tag 10 c_stake_authorize a
   | SAuthorizeCheckedWithSeed a => enc_tag 11 c_checked_seed_args a
   | SetLockupChecked a => enc_tag 12 c_lockup_checked_args a
   | GetMinimumDelegation => enc_tag 13 c_unit tt
   | DeactivateDelinquent => enc_tag 14 c_unit tt
   | Redelegate => enc_tag 15 c_unit tt
   end)
  (λ tag, match tag with
   | 0 => dec_as (c_pair c_authorized c_lockup) (λ '(a, l), SInitialize a l)
   | 1 => dec_as (c_pair c_pubkey c_stake_authorize) (λ '(k, a), SAuthorize k a)
   | 2 => dec_as c_unit (λ _, DelegateStake)
   | 3 => dec_as u64 SSplit
   | 4 => dec_as u64 SWithdraw
   | 5 => dec_as c_unit (λ _, Deactivate)
   | 6 => dec_as c_lockup_args SetLockup
   | 7 => dec_as c_unit (λ _, Merge)
   | 8 => dec_as c_seed_args SAuthorizeWithSeed
   | 9 => dec_as c_unit (λ _, InitializeChecked)
   | 10 => dec_as c_stake_authorize SAuthorizeChecked
   | 11 => dec_as c_checked_seed_args SAuthorizeCheckedWithSeed
   | 12 => dec_as c_lockup_checked_args SetLockupChecked
   | 13 => dec_as c_unit (λ _, GetMinimumDelegation)
   | 14 => dec_as c_unit (λ _, DeactivateDelinquent)
   | 15 => dec_as c_unit (λ _, Redelegate)
   | _ => λ _, None
   end).
#[export] Instance c_stake_instruction_ok : CodecOk c_stake_instruction.
Proof. apply c_enum_ok. intros []; enum_case. Qed.

(** ** Config accounts *)
Definition c_config_keys : codec ConfigKeys := c_map mkConfigKeys config_keys (c_short_vec (c_pair c_pubkey c_bool)).
#[export] Instance c_config_keys_ok : CodecOk c_config_keys.
Proof. apply c_map_ok; [apply _|by intros []]. Qed.
Definition c_stake_config : codec StakeConfig := c_map
  (λ '(r, p), mkStakeConfig r p) (λ c, (config_rate c, slash_penalty c)) (c_pair c_f64 c_u8).
#[export] Instance c_stake_config_ok : CodecOk c_stake_config.
Proof. apply c_map_ok; [apply _|by intros []]. Qed.

Module StakeBincodes.
#[export] Instance stake_state : Bincode StakeStateV2 := bincode_of c_stake_state.
#[export] Instance stake_state_laws : BincodeLaws StakeStateV2 := bincode_of_laws _ _.
#[export] Instance stake_instruction : Bincode StakeInstruction := bincode_of c_stake_instruction.
#[export] Instance config_keys : Bincode ConfigKeys := bincode_of c_config_keys.
#[export] Instance config_keys_laws : BincodeLaws ConfigKeys := bincode_of_laws _ _.
#[export] Instance stake_config : Bincode StakeConfig := bincode_of c_stake_config.
Definition config_pair {T} (c : codec T) : Bincode (ConfigKeys * T) := bincode_of (c_pair c_config_keys c).
End StakeBincodes.

(** ** The room a stake state needs *)
Lemma f64_size : at_most (λ _, True) c_f64 8.
Proof. intros x bs _. cbn [enc c_f64]. case_bool_decide; [|done]. by apply int_size. Qed.
Lemma authorized_size : at_most (λ _, True) c_authorized 64.
Proof. intros a bs _. apply (pair_size _ _ _ _ _ _ pubkey_size pubkey_size). done. Qed.
Lemma lockup_size : at_most (λ _, True) c_lockup 48.
Proof. intros l bs _. apply (pair_size _ _ _ _ _ _ i64_size (pair_size _ _ _ _ _ _ (int_size 8) pubkey_size)). done. Qed.
Lemma meta_size : at_most (λ _, True) c_meta 120.
Proof.
  intros m bs _. apply (pair_size _ _ _ _ _ _ (int_size 8) (pair_size _ _ _ _ _ _ authorized_size lockup_size)). done.
Qed.
Lemma delegation_size : at_most (λ _, True) c_delegation 64.
Proof.
  intros d bs _. apply (pair_size _ _ _ _ _ _ pubkey_size (pair_size _ _ _ _ _ _ (int_size 8)
    (pair_size _ _ _ _ _ _ (int_size 8) (pair_size _ _ _ _ _ _ (int_size 8) f64_size)))). done.
Qed.
Lemma stake_size : at_most (λ _, True) c_stake 72.
Proof. intros s bs _. apply (pair_size _ _ _ _ _ _ delegation_size (int_size 8)). done. Qed.
Lemma flags_size : at_most (λ _, True) c_flags 1.
Proof. intros f bs _. by apply (int_size 1). Qed.
(** every stake state fits into the data of a stake account *)
Lemma stake_state_fits st bs : enc c_stake_state st = Some bs → len bs ≤ stake_state_size_of.
Proof.
  assert (∀ n, (length bs ≤ n)%nat → (n ≤ 200)%nat → len bs ≤ stake_state_size_of) as Hfit.
  { intros n H1 H2. unfold len, stake_state_size_of. lia. }
  intros Hb. destruct st as [|m|m s f|]; cbn [enc c_stake_state c_enum] in Hb; unfold enc_tag in Hb.
  - vm_compute in Hb. injection Hb as <-. by vm_compute.
  - apply pair_split in Hb as (x & y & Hx & Hy & Hl). apply int_size in Hx; [|done]. apply meta_size in Hy; [|done].
    apply (Hfit (length bs)); lia.
  - apply pair_split in Hb as (x & y & Hx & Hy & Hl). apply pair_split in Hy as (x1 & y1 & Hx1 & Hy & Hl1).
    apply pair_split in Hy as (x2 & y2 & Hx2 & Hy & Hl2). apply int_size in Hx; [|done]. apply meta_size in Hx1; [|done].
    apply stake_size in Hx2; [|done]. apply flags_size in Hy; [|done]. apply (Hfit (length bs)); lia.
  - vm_compute in Hb. injection Hb as <-. by vm_compute.
Qed.
