(* ===== verification/StakeControl.v ===== *)
(** * What the stake program does to stake accounts

    A specification of the program as effects on the accounts of a transaction, each with the
    signatures and the conditions it asks for, and the proof that every successful instruction
    has one of them. *)

From S2P Require Import Prelude Sdk Rent EpochSchedule Account TransactionContext AccountRules InstructionRules.
From S2P Require Import LogCollector InvokeContext InvokeRules Nonce SystemProgram Effects SystemProgramRules.
From S2P Require Import VoteState VoteProcess VoteProgram VoteControl ConfigProgram Stake StakeProgram.

(** ** The specification *)

(** the account holds the state [x] and [n] lamports; the rest is as it was *)
Definition becomes `{!Bincode StakeStateV2} (a : AccountSharedData) (x : StakeStateV2) (n : N) (a' : AccountSharedData) :
  Prop :=
  shared_deserialize_data a' = Some x ∧ lamports a' = n ∧ owner a' = owner a ∧ len (data a') = len (data a).
Definition stake_at `{!Bincode StakeStateV2} (v : list AccountSharedData) (i : nat) (a : AccountSharedData)
    (x : StakeStateV2) : Prop :=
  v !! i = Some a ∧ owner a = stake_program_id ∧ shared_deserialize_data a = Some x.
(** the same stake under other terms *)
Definition with_meta (m : Meta) (x : StakeStateV2) : StakeStateV2 :=
  match x with
  | Staked _ stake stake_flags => Staked m stake stake_flags
  | StakeInitialized _ => StakeInitialized m
  | _ => x
  end.

Section spec.
Context `{!Bincode StakeStateV2, !Bincode VoteStateVersions}.
Context (activated_slot : Pubkey → N).
(** the sysvars and features of the bank, the keys of the accounts and the keys that signed *)
Context (cache : SysvarCache) (features : gset Pubkey) (keys : list Pubkey) (signed : Pubkey → Prop).

Definition rate_in : option N :=
  match sc_epoch_schedule cache with
  | Some schedule =>
      if is_active features reduce_stake_warmup_cooldown_id
      then Some (get_epoch schedule (activated_slot reduce_stake_warmup_cooldown_id)) else None
  | None => None
  end.
Definition status_in (stake : Stake) (epoch : N) (x : StakeHistoryEntry) : Prop :=
  ∃ history, sc_stake_history cache = Some history ∧
    stake_activating_and_deactivating (E:=InstructionError) history rate_in (delegation stake) epoch = Ok x.
Definition released (l : Lockup) (clock : Clock) : Prop := is_in_force l clock None = true → signed (custodian l).
(** a voter that has not voted for some epochs in which another has *)
Definition delinquent (v : list AccountSharedData) (voter : Pubkey) (epoch : N) : Prop :=
  ∃ i j a b x y, keys !! i = Some voter ∧ v !! i = Some a ∧ v !! j = Some b ∧
    owner a = vote_program_id ∧ owner b = vote_program_id ∧
    shared_deserialize_data a = Some x ∧ shared_deserialize_data b = Some y ∧
    eligible_for_deactivate_delinquent (epoch_credits (convert_to_current x)) epoch = true ∧
    acceptable_reference_epoch_credits (epoch_credits (convert_to_current y)) epoch = true.
(** the deactivation of a stake; the flag asks for a complete activation *)
Definition deactivated (stake : Stake) (stake_flags : StakeFlags) (epoch : N) (stake' : Stake) (stake_flags' : StakeFlags) :
  Prop :=
  deactivation_epoch (delegation stake) = u64_max ∧
  stake' = set_delegation (set_deactivation epoch (delegation stake)) stake ∧
  (stake_flags' = stake_flags ∨
   stake_flags' = flags_remove MUST_FULLY_ACTIVATE_BEFORE_DEACTIVATION_IS_PERMITTED stake_flags ∧
   ∃ x, status_in stake epoch x ∧ activating x = 0).

(** one account, with [n] lamports *)
Inductive stake_update (v : list AccountSharedData) (clock : Clock) (n : N) : StakeStateV2 → StakeStateV2 → Prop :=
| UpStaker x m k :
    state_meta x = Some m → signed (staker (authorized m)) ∨ signed (withdrawer (authorized m)) →
    stake_update v clock n x
      (with_meta (set_meta_authorized (mkAuthorized k (withdrawer (authorized m))) m) x)
| UpWithdrawer x m k :
    state_meta x = Some m → signed (withdrawer (authorized m)) → released (lockup_of m) clock →
    stake_update v clock n x
      (with_meta (set_meta_authorized (mkAuthorized (staker (authorized m)) k) m) x)
| UpLockup x m l :
    state_meta x = Some m →
    signed (if is_in_force (lockup_of m) clock None then custodian (lockup_of m) else withdrawer (authorized m)) →
    stake_update v clock n x (with_meta (set_meta_lockup l m) x)
| UpDelegate m voter credits_ :
    signed (staker (authorized m)) → get_minimum_delegation features ≤ n - rent_exempt_reserve m →
    stake_update v clock n (StakeInitialized m)
      (Staked m (mkStake (delegation_new voter (n - rent_exempt_reserve m) (clock_epoch clock)) credits_) flags_empty)
| UpDelegateAgain m stake f voter credits_ x :
    signed (staker (authorized m)) → get_minimum_delegation features ≤ n - rent_exempt_reserve m →
    status_in stake (clock_epoch clock) x → effective x = 0 →
    stake_update v clock n (Staked m stake f)
      (Staked m (mkStake (mkDelegation voter (n - rent_exempt_reserve m) (clock_epoch clock) u64_max
                            (delegation_rate (delegation stake))) credits_) f)
| UpRescind m stake f x :
    signed (staker (authorized m)) → get_minimum_delegation features ≤ n - rent_exempt_reserve m →
    status_in stake (clock_epoch clock) x → effective x ≠ 0 →
    deactivation_epoch (delegation stake) = clock_epoch clock →
    (is_active features stake_redelegate_instruction_id = true →
       delegated_stake (delegation stake) ≤ n - rent_exempt_reserve m) →
    stake_update v clock n (Staked m stake f)
      (Staked m (set_delegation (set_deactivation u64_max (delegation stake)) stake) f)
| UpDeactivate m stake f stake' f' :
    signed (staker (authorized m)) ∨ delinquent v (voter_pubkey (delegation stake)) (clock_epoch clock) →
    deactivated stake f (clock_epoch clock) stake' f' →
    stake_update v clock n (Staked m stake f) (Staked m stake' f').

(** what must stay after a withdrawal of [k] out of [n] lamports *)
Definition withdrawable (clock : Clock) (x : StakeStateV2) (k n : N) : Prop :=
  match x with
  | Staked m stake _ =>
      signed (withdrawer (authorized m)) ∧ released (lockup_of m) clock ∧
      ∃ staked, (if deactivation_epoch (delegation stake) <=? clock_epoch clock
                 then ∃ y, status_in stake (clock_epoch clock) y ∧ staked = effective y
                 else staked = delegated_stake (delegation stake)) ∧
        (k + staked + rent_exempt_reserve m ≤ n ∨ staked = 0 ∧ k = n)
  | StakeInitialized m =>
      signed (withdrawer (authorized m)) ∧ released (lockup_of m) clock ∧ (k + rent_exempt_reserve m ≤ n ∨ k = n)
  | _ => True
  end.
(** the amounts of a split of [k] out of [n] lamports into an account with [held] lamports *)
Definition split_of (m : Meta) (stake : Stake) (k n held reserve delta amount : N) : Prop :=
  let minimum := get_minimum_delegation features in
  0 < k ∧ k ≤ n ∧ minimum ≤ amount ∧ delta ≤ delegated_stake (delegation stake) ∧
  (k = n ∧ delta = n - rent_exempt_reserve m ∧ amount = delta ∨
   k < n ∧ delta = k ∧ minimum ≤ delegated_stake (delegation stake) - k ∧ amount = k - (reserve - held) ∧
   N.min u64_max (rent_exempt_reserve m + minimum) ≤ n - k).
Definition merge_kind_of (clock : Clock) (x : StakeStateV2) (n : N) (k : MergeKind) : Prop :=
  match x with
  | StakeInitialized m => k = Inactive m n flags_empty
  | Staked m stake f =>
      ∃ y, status_in stake (clock_epoch clock) y ∧
        (effective y = 0 ∧ activating y = 0 ∧ deactivating y = 0 ∧ k = Inactive m n f ∨
         effective y = 0 ∧ (activating y ≠ 0 ∨ deactivating y ≠ 0) ∧ k = ActivationEpoch m stake f ∨
         effective y ≠ 0 ∧ activating y = 0 ∧ deactivating y = 0 ∧ k = FullyActive m stake)
  | _ => False
  end.
Definition mergeable (clock : Clock) (k1 k2 : MergeKind) : Prop :=
  let m1 := merge_kind_meta k1 in
  let m2 := merge_kind_meta k2 in
  authorized m1 = authorized m2 ∧
  (lockup_of m1 = lockup_of m2 ∨ is_in_force (lockup_of m1) clock None = false ∧ is_in_force (lockup_of m2) clock None = false) ∧
  ∀ s1 s2, active_stake k1 = Some s1 → active_stake k2 = Some s2 →
    voter_pubkey (delegation s1) = voter_pubkey (delegation s2) ∧
    deactivation_epoch (delegation s1) = u64_max ∧ deactivation_epoch (delegation s2) = u64_max.
Definition set_stake (n : N) (s : Stake) : Stake := set_delegation (set_delegated n (delegation s)) s.

Inductive stake_effect (v : list AccountSharedData) : list AccountSharedData → Prop :=
| EffNone : stake_effect v v
| EffInitialize r i a au l a' :
    sc_rent cache = Some r → stake_at v i a StakeUninitialized → len (data a) = stake_state_size_of →
    minimum_balance r stake_state_size_of ≤ lamports a →
    becomes a (StakeInitialized (mkMeta (minimum_balance r stake_state_size_of) au l)) (lamports a) a' →
    stake_effect v (<[i := a']> v)
| EffUpdate clock i a x x' a' :
    sc_clock cache = Some clock → stake_at v i a x →
    stake_update v clock (lamports a) x x' → becomes a x' (lamports a) a' →
    stake_effect v (<[i := a']> v)
| EffSplit r i j a b m stake f k delta amount a' b' :
    sc_rent cache = Some r → i ≠ j → stake_at v i a (Staked m stake f) → stake_at v j b StakeUninitialized →
    len (data b) = stake_state_size_of → signed (staker (authorized m)) →
    split_of m stake k (lamports a) (lamports b) (minimum_balance r stake_state_size_of) delta amount →
    becomes a (if k =? lamports a then StakeUninitialized
               else Staked m (set_stake (delegated_stake (delegation stake) - delta) stake) f) (lamports a - k) a' →
    becomes b (Staked (set_meta_reserve (minimum_balance r stake_state_size_of) m) (set_stake amount stake) f)
      (lamports b + k) b' →
    stake_effect v (<[i := a']> (<[j := b']> v))
| EffSplitInitialized r i j a b m k a' b' :
    sc_rent cache = Some r → i ≠ j → stake_at v i a (StakeInitialized m) → stake_at v j b StakeUninitialized →
    len (data b) = stake_state_size_of → signed (staker (authorized m)) →
    k ≤ lamports a → k = lamports a ∨ N.min u64_max (rent_exempt_reserve m) ≤ lamports a - k →
    becomes a (if k =? lamports a then StakeUninitialized else StakeInitialized m) (lamports a - k) a' →
    becomes b (StakeInitialized (set_meta_reserve (minimum_balance r stake_state_size_of) m)) (lamports b + k) b' →
    stake_effect v (<[i := a']> (<[j := b']> v))
| EffSplitUninitialized i j a b key k a1 :
    stake_at v i a StakeUninitialized → stake_at v j b StakeUninitialized → keys !! i = Some key → signed key →
    k ≤ lamports a → becomes a StakeUninitialized (lamports a) a1 →
    stake_effect v (alter (λ x, set_lamports (lamports x - k) x) i
                      (alter (λ x, set_lamports (lamports x + k) x) j (<[i := a1]> v)))
| EffMerge clock i j a b x y k1 k2 merged a' b' :
    sc_clock cache = Some clock → i ≠ j → stake_at v i a x → stake_at v j b y →
    merge_kind_of clock x (lamports a) k1 → merge_kind_of clock y (lamports b) k2 →
    signed (staker (authorized (merge_kind_meta k1))) → mergeable clock k1 k2 → merged_state k1 k2 = Ok merged →
    becomes a (default x merged) (lamports a + lamports b) a' → becomes b StakeUninitialized 0 b' →
    stake_effect v (<[i := a']> (<[j := b']> v))
| EffRedelegate r clock i j a b m stake f x voter credits_ stake' f' a' b' :
    sc_rent cache = Some r → sc_clock cache = Some clock →
    is_active features stake_redelegate_instruction_id = true → i ≠ j →
    stake_at v i a (Staked m stake f) → stake_at v j b StakeUninitialized → len (data b) = stake_state_size_of →
    signed (staker (authorized m)) → status_in stake (clock_epoch clock) x → effective x ≠ 0 → activating x = 0 →
    deactivating x = 0 → voter ≠ voter_pubkey (delegation stake) →
    deactivated stake f (clock_epoch clock) stake' f' → effective x ≤ lamports a →
    let reserve := minimum_balance r stake_state_size_of in
    let amount := lamports b + effective x - reserve in
    get_minimum_delegation features ≤ amount →
    becomes a (Staked m stake' f') (lamports a - effective x) a' →
    becomes b (Staked (set_meta_reserve reserve m)
                 (mkStake (delegation_new voter amount (clock_epoch clock)) credits_)
                 MUST_FULLY_ACTIVATE_BEFORE_DEACTIVATION_IS_PERMITTED) (lamports b + effective x) b' →
    stake_effect v (<[i := a']> (<[j := b']> v))
| EffWithdraw clock i j a x k a' :
    sc_clock cache = Some clock → stake_at v i a x → x ≠ RewardsPool →
    (x = StakeUninitialized → ∃ key, keys !! i = Some key ∧ signed key) → k ≤ lamports a → withdrawable clock x k (lamports a) →
    becomes a (if k =? lamports a then StakeUninitialized else x) (lamports a - k) a' →
    stake_effect v (alter (λ y, set_lamports (lamports y + k) y) j (<[i := a']> v)).
End spec.

(** ** Running an instruction *)
Definition env (s : InvokeContext) : list Pubkey * SysvarCache * gset Pubkey :=
  (account_keys (transaction_context s), sysvar_cache s, feature_set s).
Abbreviation position ia := (N.to_nat (index_in_transaction ia)).

Lemma env_keys s s' : env s' = env s → account_keys (transaction_context s') = account_keys (transaction_context s).
Proof. by intros [= ]. Qed.
Lemma env_cache s s' : env s' = env s → sysvar_cache s' = sysvar_cache s.
Proof. by intros [= ]. Qed.
Lemma env_features s s' : env s' = env s → feature_set s' = feature_set s.
Proof. by intros [= ]. Qed.

(** the body of a scope runs on the same accounts *)
Lemma scope_run {A} ic i (body : BorrowedAccount → IC A) s x s' :
  with_instruction_account ic i body s = (Ok x, s') →
  ∃ ia s1 s2, getN (instruction_accounts ic) i = Some ia ∧ body (handle_of ic i ia) s1 = (Ok x, s2) ∧
    ivals s1 = ivals s ∧ env s1 = env s ∧ ivals s' = ivals s2 ∧ env s' = env s2.
Proof.
  intros (ia & s1 & s2 & Hia & Hb & [Hv1 Hk1 Hc1 Hf1] & [Hv2 Hk2 Hc2 Hf2])%scope_Ok.
  exists ia, s1, s2. unfold env. split_and!; congruence.
Qed.
Lemma get_key_Ok ba s k s' :
  on_tc (ba_get_key ba) s = (Ok k, s') →
  s' = s ∧ account_keys (transaction_context s) !! N.to_nat (ba_index_in_transaction ba) = Some k.
Proof.
  intros (t & Hk & ->)%on_tc_Ok. unfold ba_get_key, asks, get_key_of_account_at_index, getN in Hk.
  destruct (account_keys (transaction_context s) !! _) eqn:Hl; simpl in Hk; [|done]. injection Hk as -> <-.
  split; [by destruct s|done].
Qed.
Lemma msg_Ok m s s' : ic_msg m s = (Ok tt, s') → ivals s' = ivals s ∧ env s' = env s.
Proof. unfold ic_msg, log_with, modify. by intros [= <-]. Qed.
Lemma active_Ok id s b s' : active id s = (Ok b, s') → s' = s ∧ b = is_active (feature_set s) id.
Proof. unfold active, gets. by intros [= <- <-]. Qed.
Lemma sysvar_history_Ok ic i s h s' :
  stake_history_with_account_check ic i s = (Ok h, s') → s' = s ∧ sc_stake_history (sysvar_cache s) = Some h.
Proof.
  intros ([] & s1 & [-> _]%asks_Ok & [-> Hg]%asks_Ok)%bind_Ok_inv. split; [done|].
  unfold get_stake_history in Hg. by destruct (sc_stake_history (sysvar_cache s)); simplify_eq/=.
Qed.
Lemma get_history_Some c h : get_stake_history c = Ok h → sc_stake_history c = Some h.
Proof. unfold get_stake_history. by destruct (sc_stake_history c); intros; simplify_eq/=. Qed.
Lemma get_rent_Some c r : get_rent c = Ok r → sc_rent c = Some r.
Proof. unfold get_rent. by destruct (sc_rent c); intros; simplify_eq/=. Qed.
Lemma sysvar_rent_Ok ic i s r s' :
  rent_with_account_check ic i s = (Ok r, s') → s' = s ∧ sc_rent (sysvar_cache s) = Some r.
Proof.
  intros ([] & s1 & [-> _]%asks_Ok & [-> Hg]%asks_Ok)%bind_Ok_inv. split; [done|]. by apply get_rent_Some.
Qed.
Lemma from_stake_error_Ok {A} (r : result StakeError.t A) x : from_stake_error r = Ok x → r = Ok x.
Proof. by destruct r; intros; simplify_eq/=. Qed.
Lemma checked_funds_Ok a b c : checked_add_funds a b = Ok c → c = a + b.
Proof. unfold checked_add_funds. destruct (checked_add u64_max a b) eqn:Hc; intros; simplify_eq/=. by apply checked_add_Some in Hc as [-> _]. Qed.

Section runs.
Context {T : Type} `{!Bincode T}.
Lemma state_Ok ba s (x : T) s' :
  on_tc (ba_get_state ba) s = (Ok x, s') →
  s' = s ∧ ∃ a, ivals s !! N.to_nat (ba_index_in_transaction ba) = Some a ∧ shared_deserialize_data a = Some x.
Proof.
  intros Hr. apply on_tc_read in Hr as [-> Hr]; [|by intros ? ? ? [-> _]%ba_get_state_Ok].
  by apply ba_get_state_Ok in Hr as [_ ?].
Qed.
End runs.

Section changes.
Context `{!Bincode StakeStateV2, !BincodeLaws StakeStateV2}.

Lemma write_Ok ba (x : StakeStateV2) s s' :
  on_tc (ba_set_state ba x) s = (Ok tt, s') →
  ∃ a a', ivals s !! N.to_nat (ba_index_in_transaction ba) = Some a ∧
    ivals s' = <[N.to_nat (ba_index_in_transaction ba) := a']> (ivals s) ∧ becomes a x (lamports a) a' ∧ env s' = env s.
Proof.
  intros (t & Hw & ->)%on_tc_Ok. apply ba_set_state_Ok in Hw as (a & bs & Ha & _ & _ & Hs & Hle & Hk & Hv).
  exists a, (set_data (overwrite bs (data a)) a). split_and!; [done..| |unfold env; simpl; by rewrite Hk].
  split; [by apply stored_state|]. unfold len in *. simpl. rewrite length_overwrite by lia. by destruct a.
Qed.
Lemma add_Ok ba n s s' :
  on_tc (ba_checked_add_lamports ba n) s = (Ok tt, s') →
  ∃ a, ivals s !! N.to_nat (ba_index_in_transaction ba) = Some a ∧
    ivals s' = <[N.to_nat (ba_index_in_transaction ba) := set_lamports (lamports a + n) a]> (ivals s) ∧ env s' = env s.
Proof. intros (a & Ha & Hv & Hk & Hc & Hf)%add_lamports_Ok. exists a. unfold env. split_and!; [exact Ha|exact Hv|congruence]. Qed.
Lemma sub_Ok ba n s s' :
  on_tc (ba_checked_sub_lamports ba n) s = (Ok tt, s') →
  ∃ a, ivals s !! N.to_nat (ba_index_in_transaction ba) = Some a ∧ n ≤ lamports a ∧
    ivals s' = <[N.to_nat (ba_index_in_transaction ba) := set_lamports (lamports a - n) a]> (ivals s) ∧ env s' = env s.
Proof. intros (a & Ha & Hn & Hv & Hk & Hc & Hf)%sub_lamports_Ok. exists a. unfold env. split_and!; [exact Ha|done|exact Hv|congruence]. Qed.

Lemma becomes_trans a x n a' y m a'' : becomes a x n a' → becomes a' y m a'' → becomes a y m a''.
Proof. intros (_ & _ & Ho & Hl) (Hs & Hn & Ho' & Hl'). split_and!; congruence. Qed.
Lemma becomes_lamports a x n a' m : becomes a x n a' → becomes a x m (set_lamports m a').
Proof. intros (Hs & _ & Ho & Hl). by split_and!. Qed.
Lemma becomes_same a x m : shared_deserialize_data a = Some x → becomes a x m (set_lamports m a).
Proof. intros Hs. by split_and!. Qed.
Lemma becomes_refl a x : shared_deserialize_data a = Some x → becomes a x (lamports a) a.
Proof. intros Hs. by split_and!. Qed.
End changes.

(** ** One account *)
Section handlers.
Context `{PubkeyDisplay, Sha256, !Bincode StakeStateV2, !BincodeLaws StakeStateV2, !Bincode VoteStateVersions,
  !Bincode ConfigKeys, !Bincode StakeConfig, !Bincode StakeInstruction}.
Context (activated_slot : Pubkey → N).
Local Abbreviation update_in s := (stake_update activated_slot (sysvar_cache s) (feature_set s)
  (account_keys (transaction_context s))).
Local Abbreviation rate_at s := (rate_in activated_slot (sysvar_cache s) (feature_set s)).
Local Abbreviation status_at_in s := (status_in activated_slot (sysvar_cache s) (feature_set s)).

(** the account behind the handle was updated, and nothing else *)
Definition updated (ba : BorrowedAccount) (clock : Clock) (signed : Pubkey → Prop) (s s' : InvokeContext) : Prop :=
  ∃ a x x' a', ivals s !! N.to_nat (ba_index_in_transaction ba) = Some a ∧ shared_deserialize_data a = Some x ∧
    update_in s signed (ivals s) clock (lamports a) x x' ∧ becomes a x' (lamports a) a' ∧
    ivals s' = <[N.to_nat (ba_index_in_transaction ba) := a']> (ivals s) ∧ env s' = env s.

Lemma updated_intro ba clock (signed : Pubkey → Prop) s s' a x x' :
  ivals s !! N.to_nat (ba_index_in_transaction ba) = Some a → shared_deserialize_data a = Some x →
  update_in s signed (ivals s) clock (lamports a) x x' →
  on_tc (ba_set_state ba x') s = (Ok tt, s') → updated ba clock signed s s'.
Proof.
  intros Ha Hx Hu (b & a' & Hb & Hv & Hbe & He)%write_Ok. rewrite Ha in Hb. injection Hb as <-.
  by exists a, x, x', a'.
Qed.
Lemma new_rate_Ok s r s' :
  new_warmup_cooldown_rate_epoch activated_slot s = (Ok r, s') → s' = s ∧ r = rate_at s.
Proof.
  intros (schedule & s1 & [-> Hs]%asks_Ok & Hw)%bind_Ok_inv. apply bind_Ok_inv in Hw as (b & s1 & [-> ->]%active_Ok & [= <- <-]).
  split; [done|]. unfold rate_in. by destruct (sc_epoch_schedule (sysvar_cache s)); simplify_eq/=.
Qed.
Lemma status_Ok h stake epoch s x s' :
  sc_stake_history (sysvar_cache s) = Some h → status_at activated_slot h stake epoch s = (Ok x, s') →
  s' = s ∧ status_at_in s stake epoch x.
Proof.
  intros Hh (r & s1 & [-> ->]%new_rate_Ok & [Hx ->]%lift_Ok_inv)%bind_Ok_inv. split; [done|]. by exists h.
Qed.
Lemma stake_status_Ok stake clock s x s' :
  get_stake_status activated_slot stake clock s = (Ok x, s') → s' = s ∧ status_at_in s stake (clock_epoch clock) x.
Proof.
  intros (h & s1 & [-> Hh%get_history_Some]%asks_Ok & Hx)%bind_Ok_inv. by apply (status_Ok h).
Qed.
Lemma check_staker a sg : authorized_check a sg Staker = Ok tt → staker a ∈ sg.
Proof. unfold authorized_check. by case_bool_decide. Qed.
Lemma check_withdrawer a sg : authorized_check a sg StakeWithdrawer = Ok tt → withdrawer a ∈ sg.
Proof. unfold authorized_check. by case_bool_decide. Qed.
Lemma in_force_custodian l clock k :
  is_in_force l clock None = true → is_in_force l clock (Some k) = false → k = custodian l.
Proof.
  unfold is_in_force. rewrite bool_decide_eq_false_2 by done. intros ->.
  case_bool_decide as Hk; [by injection Hk|done].
Qed.

(** *** Authorities and lockups *)
Lemma authorize_new a sg k role l clock cu a' :
  authorized_authorize a sg k role (Some (l, clock, cu)) = Ok a' →
  match role with
  | Staker => (staker a ∈ sg ∨ withdrawer a ∈ sg) ∧ a' = mkAuthorized k (withdrawer a)
  | StakeWithdrawer => withdrawer a ∈ sg ∧ released (.∈ sg) l clock ∧ a' = mkAuthorized (staker a) k
  end.
Proof.
  destruct role; simpl.
  - repeat case_bool_decide; simpl; intros; simplify_eq; split; try done; by (left + right).
  - unfold released. intros Ha. destruct (is_in_force l clock None) eqn:Hf.
    + destruct cu as [c|]; [|done]. case_bool_decide as Hc; [done|].
      destruct (is_in_force l clock (Some c)) eqn:Hfc; [done|]. cbn [rbind] in Ha.
      destruct (bool_decide (withdrawer a ∈ sg)) eqn:Hw; [|done]. injection Ha as <-.
      apply bool_decide_eq_true in Hw. split_and!; [done| |done]. intros _.
      by rewrite <-(in_force_custodian l clock c).
    + cbn [rbind] in Ha. case_bool_decide; [|done]. by injection Ha as <-.
Qed.
Lemma authorize_updated ba sg k role clock cu s s' :
  stake_authorize_account ba sg k role clock cu s = (Ok tt, s') → updated ba clock (.∈ sg) s s'.
Proof.
  intros (x & s1 & [-> (a & Ha & Hx)]%state_Ok & Hw)%bind_Ok_inv.
  assert (∀ m y, state_meta x = Some m →
    authorized_authorize (authorized m) sg k role (Some (lockup_of m, clock, cu)) = Ok y →
    update_in s (.∈ sg) (ivals s) clock (lamports a) x (with_meta (set_meta_authorized y m) x)) as Hup.
  { intros m y Hm Hy%authorize_new. destruct role.
    - destruct Hy as [Hs ->]. by apply UpStaker.
    - destruct Hy as (Hs & Hr & ->). by apply UpWithdrawer. }
  destruct x as [|m|m stake f|]; try done.
  all: apply bind_Ok_inv in Hw as (m' & s1 & Hm & Hw); apply bind_Ok_inv in Hm as (y & s2 & [Hy ->]%lift_Ok_inv & [= <- <-]).
  all: eapply updated_intro; [done|done|by apply (Hup m)|done].
Qed.
Lemma lockup_updated ba args sg clock s s' :
  stake_set_lockup ba args sg clock s = (Ok tt, s') → updated ba clock (.∈ sg) s s'.
Proof.
  intros (x & s1 & [-> (a & Ha & Hx)]%state_Ok & Hw)%bind_Ok_inv.
  assert (∀ m m', state_meta x = Some m → meta_set_lockup args sg clock m = Ok m' →
    update_in s (.∈ sg) (ivals s) clock (lamports a) x (with_meta m' x)) as Hup.
  { intros m m' Hm. unfold meta_set_lockup. destruct (if is_in_force _ _ _ then _ else _) eqn:Hb; [done|]. intros [= <-].
    apply UpLockup; [done|]. destruct (is_in_force _ _ _); apply bool_decide_eq_false in Hb; by apply dec_stable in Hb. }
  destruct x as [|m|m stake f|]; try done; apply bind_Ok_inv in Hw as (m' & s1 & [Hm ->]%lift_Ok_inv & Hw).
  all: eapply updated_intro; [done|done|by apply (Hup m)|done].
Qed.

(** *** Delegation *)
Lemma observe_state_Ok {T} `{!Bincode T} ba s (r : result InstructionError T) s' :
  observe (on_tc (ba_get_state ba)) s = (Ok r, s') → s' = s.
Proof.
  unfold observe, on_tc, ba_get_state, ba_account, asks, bind, lift. destruct (unwrap _) as [a|e|]; simpl.
  - destruct (shared_deserialize_data a); intros [= _ <-]; by destruct s.
  - intros [= _ <-]. by destruct s.
  - done.
Qed.
Lemma delegated_amount_Ok ba m s n s' :
  validate_delegated_amount ba m s = (Ok n, s') →
  s' = s ∧ ∃ a, ivals s !! N.to_nat (ba_index_in_transaction ba) = Some a ∧ n = lamports a - rent_exempt_reserve m ∧
    get_minimum_delegation (feature_set s) ≤ n.
Proof.
  intros (a & s1 & [-> Ha]%read_account & Hw)%bind_Ok_inv. apply bind_Ok_inv in Hw as (features & s1 & [= <- <-] & Hw).
  destruct (N.ltb_spec (saturating_sub (lamports a) (rent_exempt_reserve m)) (get_minimum_delegation (feature_set s)));
    [done|]. injection Hw as <- <-. split; [done|]. by exists a.
Qed.
Lemma redelegate_stake_Ok stake n voter vs clock h s stake' s' :
  sc_stake_history (sysvar_cache s) = Some h →
  redelegate_stake activated_slot stake n voter vs clock h s = (Ok stake', s') →
  s' = s ∧ ∃ x, status_at_in s stake (clock_epoch clock) x ∧
    (effective x = 0 ∧
       stake' = mkStake (mkDelegation voter n (clock_epoch clock) u64_max (delegation_rate (delegation stake))) (credits vs) ∨
     effective x ≠ 0 ∧ deactivation_epoch (delegation stake) = clock_epoch clock ∧
       (is_active (feature_set s) stake_redelegate_instruction_id = true → delegated_stake (delegation stake) ≤ n) ∧
       stake' = set_delegation (set_deactivation u64_max (delegation stake)) stake).
Proof.
  intros Hh (x & s1 & [-> Hx]%(status_Ok h) & Hw)%bind_Ok_inv; [|done].
  destruct (N.eqb_spec (effective x) 0) as [Hz|Hz]; cbn [negb] in Hw.
  { injection Hw as <- <-. split; [done|]. exists x. auto. }
  apply bind_Ok_inv in Hw as (b & s1 & [-> ->]%active_Ok & Hw).
  destruct (_ && _) eqn:Hb in Hw; [|done]. injection Hw as <- <-. split; [done|]. exists x. split; [done|]. right.
  apply andb_true_iff in Hb as [[_ He%N.eqb_eq]%andb_true_iff Hok]. split_and!; [done..| |done].
  intros Hf. rewrite Hf in Hok. by apply N.leb_le.
Qed.
Lemma delegate_updated ba sg clock h vote_pubkey vote_state s s' :
  sc_stake_history (sysvar_cache s) = Some h →
  (state <- on_tc (ba_get_state ba) ;;
   match state with
   | StakeInitialized meta =>
       lift (authorized_check (authorized meta) sg Staker) ;;
       stake_amount <- validate_delegated_amount ba meta ;;
       v <- lift vote_state ;;
       let stake := new_stake stake_amount vote_pubkey (convert_to_current v) (clock_epoch clock) in
       on_tc (ba_set_state ba (Staked meta stake flags_empty))
   | Staked meta stake stake_flags =>
       lift (authorized_check (authorized meta) sg Staker) ;;
       stake_amount <- validate_delegated_amount ba meta ;;
       v <- lift vote_state ;;
       stake <- redelegate_stake activated_slot stake stake_amount vote_pubkey (convert_to_current v) clock h ;;
       on_tc (ba_set_state ba (Staked meta stake stake_flags))
   | _ => throw InvalidAccountData
   end) s = (Ok tt, s') → updated ba clock (.∈ sg) s s'.
Proof.
  intros Hh (x & s1 & [-> (a & Ha & Hx)]%state_Ok & Hw)%bind_Ok_inv. destruct x as [|m|m stake f|]; try done.
  all: apply bind_Ok_inv in Hw as ([] & s1 & [Hsg%check_staker ->]%lift_Ok_inv & Hw).
  all: apply bind_Ok_inv in Hw as (n & s1 & [-> (a1 & Ha1 & -> & Hmin)]%delegated_amount_Ok & Hw).
  all: rewrite Ha in Ha1; injection Ha1 as <-.
  all: apply bind_Ok_inv in Hw as (v & s1 & [_ ->]%lift_Ok_inv & Hw).
  - eapply updated_intro; [done|done|by apply UpDelegate|exact Hw].
  - apply bind_Ok_inv in Hw as (stake' & s1 & Hr & Hw).
    apply (redelegate_stake_Ok _ _ _ _ _ h) in Hr as [-> (y & Hy & [[Hz ->]|(Hz & He & Hf & ->)])]; [| |done].
    + eapply updated_intro; [done|done|by eapply UpDelegateAgain|exact Hw].
    + eapply updated_intro; [done|done|by eapply UpRescind|exact Hw].
Qed.

(** *** Deactivation *)
Lemma deactivate_stake_Ok stake f epoch s r s' :
  deactivate_stake activated_slot stake f epoch s = (Ok r, s') →
  s' = s ∧ deactivated activated_slot (sysvar_cache s) (feature_set s) stake f epoch r.1 r.2.
Proof.
  intros (b & s1 & [-> ->]%active_Ok & Hw)%bind_Ok_inv.
  assert (∀ st, from_stake_error (stake_deactivate epoch stake) = Ok st →
    deactivation_epoch (delegation stake) = u64_max ∧ st = set_delegation (set_deactivation epoch (delegation stake)) stake) as Hd.
  { intros st Hst%from_stake_error_Ok. unfold stake_deactivate in Hst.
    destruct (N.eqb_spec (deactivation_epoch (delegation stake)) u64_max); by simplify_eq/=. }
  destruct (_ && _).
  - apply bind_Ok_inv in Hw as (h & s1 & [-> Hh%get_history_Some]%asks_Ok & Hw).
    apply bind_Ok_inv in Hw as (x & s1 & Hx & Hw). apply (status_Ok h) in Hx as [-> Hx]; [|done].
    destruct (N.eqb_spec (activating x) 0); [|done]. cbn [negb] in Hw.
    apply bind_Ok_inv in Hw as (st & s1 & [[? ->]%Hd ->]%lift_Ok_inv & [= <- <-]). split; [done|].
    split_and!; [done..|]. right. split; [done|]. by exists x.
  - apply bind_Ok_inv in Hw as (st & s1 & [[? ->]%Hd ->]%lift_Ok_inv & [= <- <-]). split; [done|].
    split_and!; [done..|]. by left.
Qed.
Lemma deactivate_updated ba clock sg s s' :
  deactivate activated_slot ba clock sg s = (Ok tt, s') → updated ba clock (.∈ sg) s s'.
Proof.
  intros (x & s1 & [-> (a & Ha & Hx)]%state_Ok & Hw)%bind_Ok_inv. destruct x as [|m|m stake f|]; try done.
  apply bind_Ok_inv in Hw as ([] & s1 & [Hsg%check_staker ->]%lift_Ok_inv & Hw).
  apply bind_Ok_inv in Hw as (r & s1 & [-> Hr]%deactivate_stake_Ok & Hw).
  eapply updated_intro; [done|done| |exact Hw]. apply UpDeactivate; [by left|done].
Qed.

Lemma updated_scope ba clock (signed : Pubkey → Prop) s s1 s2 s' :
  ivals s1 = ivals s → env s1 = env s → ivals s' = ivals s2 → env s' = env s2 →
  updated ba clock signed s1 s2 → updated ba clock signed s s'.
Proof.
  intros Hv [= Hk Hc Hf] Hv' He' (a & x & x' & a' & Ha & Hx & Hu & Hb & Hi & He). exists a, x, x', a'.
  rewrite <-Hv, <-Hc, <-Hf, <-Hk. split_and!; try done; [congruence|].
  rewrite He', He. unfold env. congruence.
Qed.
Lemma key_at ic i ia s k s' :
  getN (instruction_accounts ic) i = Some ia → key_of_instruction_account ic i s = (Ok k, s') →
  s' = s ∧ account_keys (transaction_context s) !! position ia = Some k.
Proof.
  intros Hia [-> (index & Hi & Hk)]%key_of_Ok. split; [done|].
  unfold get_index_of_instruction_account_in_transaction in Hi. rewrite Hia in Hi. injection Hi as <-.
  unfold get_key_of_account_at_index, getN in Hk. by destruct (_ !! _); simplify_eq/=.
Qed.
Lemma owned_vote_state_Ok ba s st s' :
  owned_vote_state ba s = (Ok st, s') →
  s' = s ∧ ∃ a v, ivals s !! N.to_nat (ba_index_in_transaction ba) = Some a ∧ owner a = vote_program_id ∧
    shared_deserialize_data a = Some v ∧ st = convert_to_current v.
Proof.
  intros (a & s1 & [-> Ha]%read_account & Hw)%bind_Ok_inv. destruct (key_eqb _ _) eqn:Ho; [|done]. cbn [negb] in Hw.
  apply read_vote_state in Hw as [-> (a1 & v & Ha1 & Hv & ->)]. rewrite Ha in Ha1. injection Ha1 as <-.
  split; [done|]. exists a, v. split_and!; try done. by apply bool_decide_eq_true in Ho.
Qed.
Lemma delinquent_updated ic ba i j clock (signed : Pubkey → Prop) s s' :
  deactivate_delinquent activated_slot ic ba i j (clock_epoch clock) s = (Ok tt, s') → updated ba clock signed s s'.
Proof.
  intros (k & s1 & Hk & Hw)%bind_Ok_inv. apply scope_run in Hw as (ia & s2 & s3 & Hia & Hw & Hv2 & He2 & Hv3 & He3).
  destruct (key_at _ _ _ _ _ _ Hia Hk) as [-> Hkey]. clear Hk.
  apply (updated_scope _ _ _ _ s2 s3); [done..|]. rewrite <-(env_keys _ _ He2) in Hkey. clear dependent s s'.
  apply bind_Ok_inv in Hw as (st & s1 & [-> (a & v & Ha & Hoa & Hsa & ->)]%owned_vote_state_Ok & Hw).
  apply scope_run in Hw as (ja & s4 & s5 & Hja & Hw & Hv4 & He4 & Hv5 & He5).
  apply (updated_scope _ _ _ _ s4 s5); [done..|]. rewrite <-(env_keys _ _ He4) in Hkey. rewrite <-Hv4 in Ha. clear dependent s2 s3.
  apply bind_Ok_inv in Hw as (st & s1 & [-> (b & w & Hb & Hob & Hsb & ->)]%owned_vote_state_Ok & Hw).
  destruct (acceptable_reference_epoch_credits _ _) eqn:Hacc; [|done]. cbn [negb] in Hw.
  apply bind_Ok_inv in Hw as (x & s1 & [-> (c & Hc & Hx)]%state_Ok & Hw). destruct x as [|m|m stake f|]; try done.
  destruct (key_eqb _ _) eqn:Hvoter; [|done]. cbn [negb] in Hw. apply bool_decide_eq_true in Hvoter.
  destruct (eligible_for_deactivate_delinquent _ _) eqn:Hel; [|done].
  apply bind_Ok_inv in Hw as (r & s1 & [-> Hr]%deactivate_stake_Ok & Hw).
  eapply updated_intro; [done|done| |exact Hw]. apply UpDeactivate; [right|done].
  exists (position ia), (position ja), a, b, v, w. rewrite Hvoter. by split_and!.
Qed.

(** *** Effects on the accounts *)
Local Abbreviation effect_in s := (stake_effect activated_slot (sysvar_cache s) (feature_set s)
  (account_keys (transaction_context s))).
Lemma updated_effect ba clock (signed : Pubkey → Prop) s s' :
  sc_clock (sysvar_cache s) = Some clock →
  (∀ a, ivals s !! N.to_nat (ba_index_in_transaction ba) = Some a → owner a = stake_program_id) →
  updated ba clock signed s s' → effect_in s signed (ivals s) (ivals s').
Proof.
  intros Hc Ho (a & x & x' & a' & Ha & Hx & Hu & Hb & Hv & He). rewrite Hv.
  apply (EffUpdate _ _ _ _ _ _ clock _ a x x'); [done| |done..]. split_and!; eauto.
Qed.
Lemma effect_scope (signed : Pubkey → Prop) s s1 s2 s' :
  ivals s1 = ivals s → env s1 = env s → ivals s' = ivals s2 →
  effect_in s1 signed (ivals s1) (ivals s2) → effect_in s signed (ivals s) (ivals s').
Proof. intros Hv [= Hk Hc Hf] Hv'. by rewrite Hv, Hk, Hc, Hf, Hv'. Qed.
Lemma initialize_effect ba au l r (signed : Pubkey → Prop) s s' :
  sc_rent (sysvar_cache s) = Some r →
  (∀ a, ivals s !! N.to_nat (ba_index_in_transaction ba) = Some a → owner a = stake_program_id) →
  stake_initialize ba au l r s = (Ok tt, s') → effect_in s signed (ivals s) (ivals s').
Proof.
  intros Hr Ho (a & s1 & [-> Ha]%read_account & Hw)%bind_Ok_inv. destruct (N.eqb_spec (len (data a)) stake_state_size_of) as [Hl|]; [|done].
  cbn [negb] in Hw. apply bind_Ok_inv in Hw as (x & s1 & [-> (b & Hb & Hx)]%state_Ok & Hw).
  assert (b = a) as -> by (unfold at_handle, ivals in *; congruence). destruct x; try done.
  destruct (N.leb_spec (minimum_balance r (len (data a))) (lamports a)) as [Hle|]; [|done].
  apply write_Ok in Hw as (b & a' & Hb' & Hv & Hbe & He). rewrite Hb in Hb'. injection Hb' as <-. rewrite Hv, Hl in *.
  eapply EffInitialize; try done. split_and!; eauto.
Qed.

(** ** Splits *)
Lemma peek_Ok ic i s a s' :
  with_instruction_account ic i (λ account, on_tc (ba_account account)) s = (Ok a, s') →
  ivals s' = ivals s ∧ env s' = env s ∧
  ∃ ia, getN (instruction_accounts ic) i = Some ia ∧ ivals s !! position ia = Some a.
Proof.
  intros (ia & s1 & s2 & Hia & [-> Ha]%read_account & Hv1 & He1 & Hv2 & He2)%scope_run.
  split_and!; [congruence..|]. exists ia. split; [done|]. rewrite <-Hv1. exact Ha.
Qed.
Lemma validate_split_Ok ic i j k m extra act s info s' :
  validate_split_amount ic i j k m extra act s = (Ok info, s') →
  ivals s' = ivals s ∧ env s' = env s ∧ ∃ ia ja a b r,
    getN (instruction_accounts ic) i = Some ia ∧ getN (instruction_accounts ic) j = Some ja ∧
    ivals s !! position ia = Some a ∧ ivals s !! position ja = Some b ∧ sc_rent (sysvar_cache s) = Some r ∧
    0 < k ∧ k ≤ lamports a ∧ info = mkValidatedSplitInfo (lamports a - k) (minimum_balance r (len (data b))) ∧
    (k = lamports a ∨ N.min u64_max (rent_exempt_reserve m + extra) ≤ lamports a - k).
Proof.
  intros (a & s1 & (Hv1 & He1 & ia & Hia & Ha)%peek_Ok & Hw)%bind_Ok_inv.
  apply bind_Ok_inv in Hw as (b & s2 & (Hv2 & He2 & ja & Hja & Hb)%peek_Ok & Hw).
  destruct (N.eqb_spec k 0); [done|]. destruct (N.ltb_spec (lamports a) k); [done|].
  cbv zeta in Hw. destruct (negb _ && _) eqn:Hrem in Hw; [done|].
  apply bind_Ok_inv in Hw as (r & s3 & [-> Hr%get_rent_Some]%asks_Ok & Hw).
  apply bind_Ok_inv in Hw as (q & s3 & [-> _]%active_Ok & Hw). destruct (_ && _) in Hw; [done|].
  destruct (_ <? _) in Hw; [done|]. injection Hw as <- <-.
  split_and!; [congruence..|]. exists ia, ja, a, b, r. rewrite Hv1 in Hb.
  rewrite (env_cache _ _ He2), (env_cache _ _ He1) in Hr. split_and!; try done; [lia|].
  apply andb_false_iff in Hrem as [Hz%negb_false_iff%N.eqb_eq|Hz%N.ltb_ge]; unfold saturating_sub in Hz; [left; lia|right].
  unfold saturating_add in Hz. lia.
Qed.
Lemma split_amounts_Ok m stake k held minimum info delta amount :
  split_amounts m stake k held minimum info = Ok (delta, amount) →
  minimum ≤ amount ∧
  (source_remaining_balance info = 0 ∧ delta = k - rent_exempt_reserve m ∧ amount = delta ∨
   source_remaining_balance info ≠ 0 ∧ minimum ≤ delegated_stake (delegation stake) - k ∧ delta = k ∧
     amount = k - (destination_rent_exempt_reserve info - held)).
Proof.
  unfold split_amounts, saturating_sub. destruct (N.eqb_spec (source_remaining_balance info) 0); cbn [rbind].
  - cbn [snd]. destruct (N.ltb_spec (k - rent_exempt_reserve m) minimum); [done|]. intros [= <- <-].
    split; [done|]. left. by split_and!.
  - destruct (N.ltb_spec (delegated_stake (delegation stake) - k) minimum); [done|]. cbn [rbind snd].
    destruct (N.ltb_spec (k - (destination_rent_exempt_reserve info - held)) minimum); [done|]. intros [= <- <-].
    split; [done|]. right. by split_and!.
Qed.
Lemma stake_split_Ok delta amount stake r :
  stake_split delta amount stake = Ok r →
  delta ≤ delegated_stake (delegation stake) ∧
  r = (set_stake (delegated_stake (delegation stake) - delta) stake, set_stake amount stake).
Proof. unfold stake_split. destruct (N.ltb_spec (delegated_stake (delegation stake)) delta); [done|]. by intros [= <-]. Qed.

(** the end of a split: the source is reset if it gives all, and the lamports move *)
Lemma split_tail_Ok ic i j k ia ja a x s s' :
  getN (instruction_accounts ic) i = Some ia → getN (instruction_accounts ic) j = Some ja →
  ivals s !! position ia = Some a → shared_deserialize_data a = Some x →
  (with_instruction_account ic i (λ account,
     a <- on_tc (ba_account account) ;;
     if k =? lamports a then on_tc (ba_set_state account StakeUninitialized) else ret tt) ;;
   with_instruction_account ic j (λ split, on_tc (ba_checked_add_lamports split k)) ;;
   with_instruction_account ic i (λ account, on_tc (ba_checked_sub_lamports account k))) s = (Ok tt, s') →
  ∃ a1, becomes a (if k =? lamports a then StakeUninitialized else x) (lamports a) a1 ∧
    ivals s' = alter (λ x, set_lamports (lamports x - k) x) (position ia)
                 (alter (λ x, set_lamports (lamports x + k) x) (position ja) (<[position ia := a1]> (ivals s))).
Proof.
  intros Hia Hja Ha Hx ([] & s1 & H1 & Hw)%bind_Ok_inv. apply bind_Ok_inv in Hw as ([] & s2 & H2 & H3).
  apply scope_run in H1 as (ia' & t1 & t2 & Hia' & H1 & Hv1 & _ & Hv2 & _).
  apply scope_run in H2 as (ja' & t3 & t4 & Hja' & (b & Hb & Hvb & _)%add_Ok & Hv3 & _ & Hv4 & _).
  apply scope_run in H3 as (ia2 & t5 & t6 & Hia2 & (c & Hc & Hkc & Hvc & _)%sub_Ok & Hv5 & _ & Hv6 & _).
  rewrite Hia in Hia', Hia2. rewrite Hja in Hja'. injection Hia' as <-. injection Hia2 as <-. injection Hja' as <-.
  cbn [ba_index_in_transaction handle_of] in *.
  assert (∃ a1, becomes a (if k =? lamports a then StakeUninitialized else x) (lamports a) a1 ∧
    ivals t2 = <[position ia := a1]> (ivals s)) as (a1 & Hbe & Ht2).
  { apply bind_Ok_inv in H1 as (a0 & t0 & [-> Ha0]%read_account & H1).
    assert (a0 = a) as ->. { unfold at_handle in Ha0. cbn in Ha0. unfold ivals in *. congruence. }
    destruct (k =? lamports a).
    - apply write_Ok in H1 as (a0 & a1 & Ha1 & Hv & Hbe & _). cbn in Ha1, Hv. rewrite Hv1, Ha in Ha1. injection Ha1 as <-.
      exists a1. split; [done|]. by rewrite Hv, Hv1.
    - injection H1 as <-. exists a. split; [by apply becomes_refl|]. by rewrite Hv1, list_insert_id. }
  exists a1. split; [done|]. rewrite Hv6, Hvc. rewrite (insert_alter (λ x, set_lamports (lamports x - k) x)) by done.
  rewrite Hv5, Hv4, Hvb. rewrite (insert_alter (λ x, set_lamports (lamports x + k) x)) by done. by rewrite Hv3, Hv2, Ht2.
Qed.
(** on two different accounts *)
Lemma split_tail_apart i j k a a1 b (v : list AccountSharedData) :
  i ≠ j → v !! i = Some a → v !! j = Some b →
  alter (λ x, set_lamports (lamports x - k) x) i (alter (λ x, set_lamports (lamports x + k) x) j (<[i := a1]> v)) =
  <[i := set_lamports (lamports a1 - k) a1]> (<[j := set_lamports (lamports b + k) b]> v).
Proof.
  intros Hij Ha Hb. apply list_eq. intros n.
  assert (i < length v)%nat by (by eapply lookup_lt_Some). assert (j < length v)%nat by (by eapply lookup_lt_Some).
  destruct (decide (n = i)) as [->|Hi]; [|destruct (decide (n = j)) as [->|Hj]].
  - rewrite list_lookup_alter_eq, list_lookup_alter_ne, list_lookup_insert_eq by done.
    rewrite list_lookup_insert_eq by (by rewrite length_insert). done.
  - rewrite list_lookup_alter_ne, list_lookup_alter_eq, list_lookup_insert_ne by done. rewrite Hb.
    by rewrite list_lookup_insert_ne, list_lookup_insert_eq by done.
  - rewrite !list_lookup_alter_ne, !list_lookup_insert_ne by done. done.
Qed.

Lemma write_scope ic i ia (x : StakeStateV2) a s s' :
  getN (instruction_accounts ic) i = Some ia → ivals s !! position ia = Some a →
  with_instruction_account ic i (λ account, on_tc (ba_set_state account x)) s = (Ok tt, s') →
  ∃ a', becomes a x (lamports a) a' ∧ ivals s' = <[position ia := a']> (ivals s) ∧ env s' = env s.
Proof.
  intros Hia Ha (ia' & s1 & s2 & Hia' & (b & a' & Hb & Hv & Hbe & He)%write_Ok & Hv1 & He1 & Hv2 & He2)%scope_run.
  rewrite Hia in Hia'. injection Hia' as <-. cbn in Hb, Hv. rewrite Hv1 in Hb, Hv. rewrite Ha in Hb. injection Hb as <-.
  exists a'. split_and!; congruence.
Qed.
Lemma split_staked_Ok ic i k j sg ia ja a b m stake f s s' :
  getN (instruction_accounts ic) i = Some ia → getN (instruction_accounts ic) j = Some ja →
  ivals s !! position ia = Some a → ivals s !! position ja = Some b → position ia ≠ position ja →
  len (data b) = stake_state_size_of →
  split_state activated_slot ic i k j sg (lamports b) (Staked m stake f) s = (Ok tt, s') →
  staker (authorized m) ∈ sg ∧ ∃ r delta amount a1 b1, sc_rent (sysvar_cache s) = Some r ∧
    split_of (feature_set s) m stake k (lamports a) (lamports b) (minimum_balance r stake_state_size_of) delta amount ∧
    ivals s' = <[position ja := b1]> (<[position ia := a1]> (ivals s)) ∧
    becomes a (Staked m (set_stake (delegated_stake (delegation stake) - delta) stake) f) (lamports a) a1 ∧
    becomes b (Staked (set_meta_reserve (minimum_balance r stake_state_size_of) m) (set_stake amount stake) f) (lamports b) b1.
Proof.
  intros Hia Hja Ha Hb Hij Hlb. unfold split_state.
  intros ([] & s1 & [Hsg%check_staker ->]%lift_Ok_inv & Hw)%bind_Ok_inv. split; [done|].
  apply bind_Ok_inv in Hw as (features & s1 & [= <- <-] & Hw). apply bind_Ok_inv in Hw as (act & s1 & Hact & Hw).
  assert (s1 = s) as ->.
  { destruct (is_active _ _); [|by injection Hact as _ <-].
    apply bind_Ok_inv in Hact as (clock & s2 & [-> _]%asks_Ok & Hact).
    by apply bind_Ok_inv in Hact as (x & s2 & [-> _]%stake_status_Ok & [= _ <-]). }
  apply bind_Ok_inv in Hw as (info & s1 & Hinfo & Hw).
  apply validate_split_Ok in Hinfo as (Hv1 & He1 & ia' & ja' & a' & b' & r & Hia' & Hja' & Ha' & Hb' & Hr & Hk0 & Hk & -> & Hrem).
  rewrite Hia in Hia'. rewrite Hja in Hja'. injection Hia' as <-. injection Hja' as <-.
  rewrite Ha in Ha'. rewrite Hb in Hb'. injection Ha' as <-. injection Hb' as <-.
  apply bind_Ok_inv in Hw as ([delta amount] & s2 & [Hamt%split_amounts_Ok ->]%lift_Ok_inv & Hw).
  apply bind_Ok_inv in Hw as (stakes & s2 & [Hst%from_stake_error_Ok ->]%lift_Ok_inv & Hw).
  apply stake_split_Ok in Hst as [Hdelta ->]. cbn [fst snd source_remaining_balance destination_rent_exempt_reserve] in *.
  apply bind_Ok_inv in Hw as ([] & s2 & Hw1 & Hw2). rewrite <-Hv1 in Ha, Hb.
  apply (write_scope _ _ ia _ a) in Hw1 as (a1 & Ha1 & Hv2 & He2); [|done..].
  apply (write_scope _ _ ja _ b) in Hw2 as (b1 & Hb1 & Hv3 & He3); [|done|by rewrite Hv2, list_lookup_insert_ne].
  rewrite Hlb in *. exists r, delta, amount, a1, b1. split_and!; [done| |congruence|done|done].
  destruct Hamt as [Hmin Hcase]. split_and!; [done..|].
  destruct Hcase as [(Hz & -> & ->)|(Hz & Hmin' & -> & ->)]; [left|right]; [split_and!; (done || lia)|].
  split_and!; try done; [lia|]. destruct Hrem as [->|Hrem]; [lia|done].
Qed.
Lemma split_initialized_Ok ic i k j sg ia ja a b m held s s' :
  getN (instruction_accounts ic) i = Some ia → getN (instruction_accounts ic) j = Some ja →
  ivals s !! position ia = Some a → ivals s !! position ja = Some b → len (data b) = stake_state_size_of →
  split_state activated_slot ic i k j sg held (StakeInitialized m) s = (Ok tt, s') →
  staker (authorized m) ∈ sg ∧ ∃ r b1, sc_rent (sysvar_cache s) = Some r ∧
    (k = lamports a ∨ N.min u64_max (rent_exempt_reserve m + 0) ≤ lamports a - k) ∧
    ivals s' = <[position ja := b1]> (ivals s) ∧
    becomes b (StakeInitialized (set_meta_reserve (minimum_balance r stake_state_size_of) m)) (lamports b) b1.
Proof.
  intros Hia Hja Ha Hb Hlb. unfold split_state.
  intros ([] & s1 & [Hsg%check_staker ->]%lift_Ok_inv & Hw)%bind_Ok_inv. split; [done|].
  apply bind_Ok_inv in Hw as (info & s1 & Hinfo & Hw).
  apply validate_split_Ok in Hinfo as (Hv1 & He1 & ia' & ja' & a' & b' & r & Hia' & Hja' & Ha' & Hb' & Hr & Hk0 & Hk & -> & Hrem).
  rewrite Hia in Hia'. rewrite Hja in Hja'. injection Hia' as <-. injection Hja' as <-.
  rewrite Ha in Ha'. rewrite Hb in Hb'. injection Ha' as <-. injection Hb' as <-. rewrite <-Hv1 in Hb.
  cbn [destination_rent_exempt_reserve] in Hw. rewrite Hlb in Hw.
  apply (write_scope _ _ ja _ b) in Hw as (b1 & Hb1 & Hv2 & He2); [|done..].
  exists r, b1. split_and!; try done. congruence.
Qed.

(** what the first two steps of a split find *)
Lemma split_head_Ok ic i k j s n (x : StakeStateV2) s1 s' :
  with_instruction_account ic j (λ split,
    a <- on_tc (ba_account split) ;;
    if negb (key_eqb (owner a) stake_program_id) then throw IncorrectProgramId else
    if negb (len (data a) =? stake_state_size_of) then throw InvalidAccountData else
    state <- on_tc (ba_get_state split) ;;
    match state with StakeUninitialized => ret (lamports a) | _ => throw InvalidAccountData end) s = (Ok n, s1) →
  with_instruction_account ic i (λ account,
    a <- on_tc (ba_account account) ;;
    if lamports a <? k then throw InsufficientFunds else on_tc (ba_get_state account)) s1 = (Ok x, s') →
  ivals s' = ivals s ∧ env s' = env s ∧ ∃ ia ja a b,
    getN (instruction_accounts ic) i = Some ia ∧ getN (instruction_accounts ic) j = Some ja ∧
    ivals s !! position ia = Some a ∧ shared_deserialize_data a = Some x ∧ k ≤ lamports a ∧
    stake_at (ivals s) (position ja) b StakeUninitialized ∧ len (data b) = stake_state_size_of ∧ n = lamports b.
Proof.
  intros (ja & t1 & t2 & Hja & H1 & Hv1 & He1 & Hv2 & He2)%scope_run (ia & t3 & t4 & Hia & H2 & Hv3 & He3 & Hv4 & He4)%scope_run.
  apply bind_Ok_inv in H1 as (b & t0 & [-> Hb]%read_account & H1). destruct (key_eqb _ _) eqn:Ho; [|done]. cbn [negb] in H1.
  destruct (N.eqb_spec (len (data b)) stake_state_size_of); [|done]. cbn [negb] in H1.
  apply bind_Ok_inv in H1 as (y & t0 & [-> (b' & Hb' & Hy)]%state_Ok & H1).
  assert (b' = b) as -> by (unfold at_handle, ivals in *; congruence). destruct y; try done. injection H1 as <- <-.
  apply bind_Ok_inv in H2 as (a & t0 & [-> Ha]%read_account & H2). destruct (N.ltb_spec (lamports a) k); [done|].
  apply state_Ok in H2 as [-> (a' & Ha' & Hx)]. assert (a' = a) as -> by (unfold at_handle, ivals in *; congruence).
  cbn in Ha', Hb'. apply bool_decide_eq_true in Ho.
  split_and!; [congruence..|]. exists ia, ja, a, b. split_and!; try done; [congruence|]. split_and!; congruence.
Qed.
Lemma split_effect ic i k j sg ia s s' :
  getN (instruction_accounts ic) i = Some ia →
  (∀ a, ivals s !! position ia = Some a → owner a = stake_program_id) →
  stake_split_account activated_slot ic i k j sg s = (Ok tt, s') → effect_in s (.∈ sg) (ivals s) (ivals s').
Proof.
  intros Hia Ho (n & s1 & H1 & Hw)%bind_Ok_inv. apply bind_Ok_inv in Hw as (x & s2 & H2 & Hw).
  destruct (split_head_Ok _ _ _ _ _ _ _ _ _ H1 H2) as (Hv & He & ia' & ja & a & b & Hia' & Hja & Ha & Hx & Hk & Hb & Hlb & ->).
  rewrite Hia in Hia'. injection Hia' as <-. clear H1 H2. apply (effect_scope _ _ s2 s' s'); [done..|].
  rewrite <-Hv in *. clear dependent s s1. rename s2 into s. specialize (Ho a Ha).
  apply bind_Ok_inv in Hw as ([] & s1 & Hst & Ht). destruct x as [|m|m stake f|]; [| | |done].
  - cbn [split_state] in Hst. apply bind_Ok_inv in Hst as (key & s2 & Hkey & Hst).
    destruct (key_at _ _ _ _ _ _ Hia Hkey) as [-> Hk']. case_bool_decide as Hs; [done|]. injection Hst as <-.
    destruct (split_tail_Ok _ _ _ _ _ _ _ _ _ _ Hia Hja Ha Hx Ht) as (a1 & Hbe & ->).
    eapply EffSplitUninitialized; [by split_and!|done..|]. by destruct (k =? lamports a).
  - assert (position ia ≠ position ja) as Hij. { intros Heq. destruct Hb as (Hb & _ & Hb'). rewrite Heq in Ha. congruence. }
    destruct Hb as (Hb & Hob & Hsb).
    destruct (split_initialized_Ok _ _ _ _ _ _ _ _ _ _ _ _ _ Hia Hja Ha Hb Hlb Hst) as (Hsg & r & b1 & Hr & Hrem & Hv1 & Hb1).
    assert (ivals s1 !! position ia = Some a) as Ha1 by (by rewrite Hv1, list_lookup_insert_ne).
    destruct (split_tail_Ok _ _ _ _ _ _ _ _ _ _ Hia Hja Ha1 Hx Ht) as (a1 & Hbe & ->).
    rewrite Hv1, (split_tail_apart _ _ _ a a1 b1);
      [|done|by rewrite list_lookup_insert_ne|rewrite list_lookup_insert_eq by (by eapply lookup_lt_Some); done].
    rewrite list_insert_insert_eq. destruct Hbe as (E1 & E2 & E3 & E4). destruct Hb1 as (F1 & F2 & F3 & F4).
    eapply (EffSplitInitialized _ _ _ _ _ _ r _ _ a b m k); try done; [by rewrite N.add_0_r in Hrem|by rewrite E2|by rewrite F2].
  - assert (position ia ≠ position ja) as Hij. { intros Heq. destruct Hb as (Hb & _ & Hb'). rewrite Heq in Ha. congruence. }
    destruct Hb as (Hb & Hob & Hsb).
    destruct (split_staked_Ok _ _ _ _ _ _ _ _ _ _ _ _ _ _ Hia Hja Ha Hb Hij Hlb Hst)
      as (Hsg & r & delta & amount & a0 & b1 & Hr & Hof & Hv1 & Ha0 & Hb1).
    assert (ivals s1 !! position ia = Some a0) as Ha1.
    { rewrite Hv1, list_lookup_insert_ne by done. apply list_lookup_insert_eq. by eapply lookup_lt_Some. }
    destruct (split_tail_Ok _ _ _ _ _ _ _ _ _ _ Hia Hja Ha1 (proj1 Ha0) Ht) as (a1 & Hbe & ->).
    rewrite (split_tail_apart _ _ _ a0 a1 b1);
      [|done..|rewrite Hv1, list_lookup_insert_eq; [done|rewrite length_insert; by eapply lookup_lt_Some]].
    rewrite Hv1, list_insert_insert_eq. rewrite (list_insert_insert_ne _ (position ja)) by done. rewrite list_insert_insert_eq.
    pose proof Ha0 as (_ & Hl0 & _). rewrite Hl0 in Hbe. pose proof (becomes_trans _ _ _ _ _ _ _ Ha0 Hbe) as (E1 & E2 & E3 & E4).
    destruct Hb1 as (F1 & F2 & F3 & F4).
    eapply (EffSplit _ _ _ _ _ _ r _ _ a b m stake f k delta amount); try done; [by rewrite E2|by rewrite F2].
Qed.

(** ** Merges *)
Lemma get_if_mergeable_Ok st n clock h s k s' :
  sc_stake_history (sysvar_cache s) = Some h → get_if_mergeable activated_slot st n clock h s = (Ok k, s') →
  s' = s ∧ merge_kind_of activated_slot (sysvar_cache s) (feature_set s) clock st n k.
Proof.
  intros Hh. unfold get_if_mergeable. destruct st as [|m|m stake f|]; try done; [by intros [= <- <-]|].
  intros (x & s1 & Hx & Hw)%bind_Ok_inv. apply (status_Ok h) in Hx as [-> Hx]; [|done].
  destruct (N.eqb_spec (effective x) 0), (N.eqb_spec (activating x) 0), (N.eqb_spec (deactivating x) 0);
    cbn [andb] in Hw; try (apply bind_Ok_inv in Hw as (? & ? & _ & [=])); injection Hw as <- <-;
    (split; [done|]); exists x; (split; [done|]); naive_solver.
Qed.
Lemma merge_kinds_Ok k1 k2 clock s merged s' :
  merge_kinds k1 k2 clock s = (Ok merged, s') →
  s' = s ∧ mergeable clock k1 k2 ∧ merged_state k1 k2 = Ok merged.
Proof.
  intros ([] & s1 & H1 & Hw)%bind_Ok_inv. apply bind_Ok_inv in Hw as ([] & s2 & H2 & [Hm ->]%lift_Ok_inv).
  unfold metas_can_merge in H1. cbv zeta in H1. destruct (_ && _) eqn:Hb in H1; [|by apply bind_Ok_inv in H1 as (? & ? & _ & [=])].
  injection H1 as <-. apply andb_true_iff in Hb as [Ha%bool_decide_eq_true Hl].
  assert (s2 = s ∧ ∀ s1 s2, active_stake k1 = Some s1 → active_stake k2 = Some s2 →
    voter_pubkey (delegation s1) = voter_pubkey (delegation s2) ∧
    deactivation_epoch (delegation s1) = u64_max ∧ deactivation_epoch (delegation s2) = u64_max) as [-> Hact].
  { destruct (active_stake k1) as [d1|]; [|injection H2 as <-; by split].
    destruct (active_stake k2) as [d2|]; [|injection H2 as <-; by split]. unfold active_delegations_can_merge in H2.
    destruct (key_eqb _ _) eqn:Hk; cbn [negb] in H2; [|by apply bind_Ok_inv in H2 as (? & ? & _ & [=])].
    destruct (_ && _) eqn:Hd in H2; [|by apply bind_Ok_inv in H2 as (? & ? & _ & [=])]. injection H2 as <-.
    split; [done|]. intros ? ? [= <-] [= <-]. apply bool_decide_eq_true in Hk.
    by apply andb_true_iff in Hd as [->%N.eqb_eq ->%N.eqb_eq]. }
  split_and!; [done| |done]. split_and!; [done| |done].
  apply orb_true_iff in Hl as [Hl%bool_decide_eq_true|[Hl1%negb_true_iff Hl2%negb_true_iff]%andb_true_iff]; auto.
Qed.
(** the second half: the destination is rewritten, the source reset and drained *)
Lemma merge_tail_Ok ba bb merged a b x s s' :
  N.to_nat (ba_index_in_transaction ba) ≠ N.to_nat (ba_index_in_transaction bb) →
  ivals s !! N.to_nat (ba_index_in_transaction ba) = Some a → shared_deserialize_data a = Some x →
  ivals s !! N.to_nat (ba_index_in_transaction bb) = Some b →
  ((match merged with Some x => on_tc (ba_set_state ba x) | None => ret tt end) ;;
   on_tc (ba_set_state bb StakeUninitialized) ;;
   drained <- on_tc (ba_account bb) ;;
   on_tc (ba_checked_sub_lamports bb (lamports drained)) ;;
   on_tc (ba_checked_add_lamports ba (lamports drained))) s = (Ok tt, s') →
  ∃ a' b', becomes a (default x merged) (lamports a + lamports b) a' ∧ becomes b StakeUninitialized 0 b' ∧
    ivals s' = <[N.to_nat (ba_index_in_transaction ba) := a']> (<[N.to_nat (ba_index_in_transaction bb) := b']> (ivals s)).
Proof.
  set (i := N.to_nat (ba_index_in_transaction ba)). set (j := N.to_nat (ba_index_in_transaction bb)).
  intros Hij Ha Hx Hb ([] & s1 & H1 & Hw)%bind_Ok_inv.
  assert (i < length (ivals s) ∧ j < length (ivals s))%nat as [Hli Hlj] by (split; by eapply lookup_lt_Some).
  assert (∃ a1, becomes a (default x merged) (lamports a) a1 ∧ ivals s1 = <[i := a1]> (ivals s)) as (a1 & Ha1 & Hv1).
  { destruct merged as [y|]; [|injection H1 as <-; exists a; split; [by apply becomes_refl|by rewrite list_insert_id]].
    apply write_Ok in H1 as (a0 & a1 & Ha0 & Hv & Hbe & _). fold i in Ha0, Hv. rewrite Ha in Ha0. injection Ha0 as <-. eauto. }
  apply bind_Ok_inv in Hw as ([] & s2 & (b0 & b1 & Hb0 & Hv2 & Hb1 & _)%write_Ok & Hw). fold j in Hb0, Hv2.
  rewrite Hv1, list_lookup_insert_ne, Hb in Hb0 by done. injection Hb0 as <-.
  assert (ivals s2 !! j = Some b1) as Hs2 by (rewrite Hv2; apply list_lookup_insert_eq; by rewrite Hv1, length_insert).
  apply bind_Ok_inv in Hw as (b2 & s3 & [-> Hb2]%read_account & Hw).
  assert (b2 = b1) as -> by (unfold at_handle, ivals in *; fold j in Hb2; congruence).
  apply bind_Ok_inv in Hw as ([] & s3 & (c & Hc & Hle & Hv3 & _)%sub_Ok & (d & Hd & Hv4 & _)%add_Ok). fold j in Hc, Hv3. fold i in Hd, Hv4.
  rewrite Hs2 in Hc. injection Hc as <-. rewrite Hv3, Hv2, Hv1 in Hd.
  rewrite list_lookup_insert_ne, list_lookup_insert_ne, list_lookup_insert_eq in Hd by done. injection Hd as <-.
  pose proof Ha1 as (_ & La & _). pose proof Hb1 as (_ & Lb & _).
  exists (set_lamports (lamports a1 + lamports b1) a1), (set_lamports (lamports b1 - lamports b1) b1). split_and!.
  - rewrite La, Lb. by eapply becomes_lamports.
  - rewrite N.sub_diag. by eapply becomes_lamports.
  - rewrite Hv4, Hv3, Hv2, Hv1. rewrite list_insert_insert_eq.
    rewrite (list_insert_insert_ne _ j i) by done. by rewrite list_insert_insert_eq.
Qed.
Lemma merge_effect ic i j clock h sg ia s s' :
  sc_clock (sysvar_cache s) = Some clock → sc_stake_history (sysvar_cache s) = Some h →
  getN (instruction_accounts ic) i = Some ia →
  (∀ a, ivals s !! position ia = Some a → owner a = stake_program_id) →
  stake_merge activated_slot ic i j clock h sg s = (Ok tt, s') → effect_in s (.∈ sg) (ivals s) (ivals s').
Proof.
  intros Hc Hh Hia Ho (ja & s1 & s2 & Hja & Hw & Hv1 & He1 & Hv2 & He2)%scope_run.
  apply (effect_scope _ _ s1 s2 s'); [done..|]. rewrite <-(env_cache _ _ He1) in Hc, Hh. rewrite <-Hv1 in Ho. clear dependent s s'.
  apply bind_Ok_inv in Hw as (b & s3 & [-> Hb]%read_account & Hw). destruct (key_eqb _ _) eqn:Hob; [|done]. cbn [negb] in Hw.
  apply bool_decide_eq_true in Hob.
  apply bind_Ok_inv in Hw as (n1 & s3 & [Hn1 ->]%lift_Ok_inv & Hw). apply bind_Ok_inv in Hw as (n2 & s3 & [Hn2 ->]%lift_Ok_inv & Hw).
  unfold get_index_of_instruction_account_in_transaction in Hn1, Hn2. rewrite Hia in Hn1. rewrite Hja in Hn2.
  injection Hn1 as <-. injection Hn2 as <-. destruct (N.eqb_spec (index_in_transaction ia) (index_in_transaction ja)) as [|Hij]; [done|].
  apply scope_run in Hw as (ia' & s3 & s4 & Hia' & Hw & Hv3 & He3 & Hv4 & He4). rewrite Hia in Hia'. injection Hia' as <-.
  apply (effect_scope _ _ s3 s4 s2); [done..|]. rewrite <-(env_cache _ _ He3) in Hc, Hh. rewrite <-Hv3 in Ho.
  assert (ivals s3 !! position ja = Some b) as Hb3 by (rewrite Hv3; exact Hb). clear dependent s1 s2.
  apply bind_Ok_inv in Hw as ([] & s1 & [Hv1 He1]%msg_Ok & Hw). rewrite <-Hv1 in Ho, Hb3. rewrite <-(env_cache _ _ He1) in Hc, Hh.
  apply (effect_scope _ _ s1 s4 s4); [done..|]. clear dependent s3.
  apply bind_Ok_inv in Hw as (x & s2 & [-> (a & Ha & Hx)]%state_Ok & Hw). cbn in Ha.
  apply bind_Ok_inv in Hw as (a2 & s2 & [-> Ha2]%read_account & Hw).
  assert (a2 = a) as -> by (unfold at_handle, ivals in *; cbn in Ha2; congruence).
  apply bind_Ok_inv in Hw as (k1 & s2 & Hk1 & Hw). apply (get_if_mergeable_Ok _ _ _ h) in Hk1 as [-> Hk1]; [|done].
  apply bind_Ok_inv in Hw as ([] & s2 & [Hsg%check_staker ->]%lift_Ok_inv & Hw).
  apply bind_Ok_inv in Hw as ([] & s2 & [Hv2 He2]%msg_Ok & Hw).
  apply bind_Ok_inv in Hw as (y & s3 & [-> (b2 & Hb2 & Hy)]%state_Ok & Hw). cbn in Hb2. rewrite Hv2, Hb3 in Hb2. injection Hb2 as <-.
  apply bind_Ok_inv in Hw as (k2 & s3 & Hk2 & Hw).
  apply (get_if_mergeable_Ok _ _ _ h) in Hk2 as [-> Hk2]; [|by rewrite (env_cache _ _ He2)].
  rewrite (env_cache _ _ He2), (env_features _ _ He2) in Hk2.
  apply bind_Ok_inv in Hw as ([] & s3 & [Hv3 He3]%msg_Ok & Hw).
  apply bind_Ok_inv in Hw as (merged & s5 & (-> & Hm & Hmerged)%merge_kinds_Ok & Hw).
  assert (position ia ≠ position ja) as Hpos by lia.
  apply (merge_tail_Ok (handle_of ic i ia) (handle_of ic j ja) merged a b x) in Hw as (a' & b' & Ha' & Hb' & Hv);
    [|done|cbn; congruence|done|cbn; congruence].
  cbn in Hv. rewrite Hv, Hv3, Hv2.
  apply (EffMerge _ _ _ _ _ _ clock _ _ a b x y k1 k2 merged); try done; split_and!; eauto.
Qed.

(** ** Redelegation *)
Lemma deactivate_Ok ba clock sg s s' :
  deactivate activated_slot ba clock sg s = (Ok tt, s') →
  ∃ a m stake f stake' f' a', ivals s !! N.to_nat (ba_index_in_transaction ba) = Some a ∧
    shared_deserialize_data a = Some (Staked m stake f) ∧ staker (authorized m) ∈ sg ∧
    deactivated activated_slot (sysvar_cache s) (feature_set s) stake f (clock_epoch clock) stake' f' ∧
    becomes a (Staked m stake' f') (lamports a) a' ∧
    ivals s' = <[N.to_nat (ba_index_in_transaction ba) := a']> (ivals s) ∧ env s' = env s.
Proof.
  intros (x & s1 & [-> (a & Ha & Hx)]%state_Ok & Hw)%bind_Ok_inv. destruct x as [|m|m stake f|]; try done.
  apply bind_Ok_inv in Hw as ([] & s1 & [Hsg%check_staker ->]%lift_Ok_inv & Hw).
  apply bind_Ok_inv in Hw as ([stake' f'] & s1 & [-> Hr]%deactivate_stake_Ok & Hw).
  apply write_Ok in Hw as (a0 & a' & Ha0 & Hv & Hb & He). rewrite Ha in Ha0. injection Ha0 as <-.
  exists a, m, stake, f, stake', f', a'. by split_and!.
Qed.
(** from the deactivation on *)
Lemma redelegate_tail_Ok ba bb clock sg effective_ stake_meta vote_pubkey vote_state b s s' :
  N.to_nat (ba_index_in_transaction ba) ≠ N.to_nat (ba_index_in_transaction bb) →
  ivals s !! N.to_nat (ba_index_in_transaction bb) = Some b → len (data b) = stake_state_size_of →
  (deactivate activated_slot ba clock sg ;;
   on_tc (ba_checked_sub_lamports ba effective_) ;;
   on_tc (ba_checked_add_lamports bb effective_) ;;
   r <- asks (λ s, get_rent (sysvar_cache s)) ;;
   u <- on_tc (ba_account bb) ;;
   let meta := set_meta_reserve (minimum_balance r (len (data u))) stake_meta in
   stake_amount <- validate_delegated_amount bb meta ;;
   on_tc (ba_set_state bb
     (Staked meta (new_stake stake_amount vote_pubkey vote_state (clock_epoch clock))
        MUST_FULLY_ACTIVATE_BEFORE_DEACTIVATION_IS_PERMITTED))) s = (Ok tt, s') →
  ∃ r a m stake f stake' f' a' b', sc_rent (sysvar_cache s) = Some r ∧
    ivals s !! N.to_nat (ba_index_in_transaction ba) = Some a ∧
    shared_deserialize_data a = Some (Staked m stake f) ∧ staker (authorized m) ∈ sg ∧
    deactivated activated_slot (sysvar_cache s) (feature_set s) stake f (clock_epoch clock) stake' f' ∧
    effective_ ≤ lamports a ∧ becomes a (Staked m stake' f') (lamports a - effective_) a' ∧
    let reserve := minimum_balance r stake_state_size_of in
    let amount := lamports b + effective_ - reserve in
    get_minimum_delegation (feature_set s) ≤ amount ∧
    becomes b (Staked (set_meta_reserve reserve stake_meta)
                 (mkStake (delegation_new vote_pubkey amount (clock_epoch clock)) (credits vote_state))
                 MUST_FULLY_ACTIVATE_BEFORE_DEACTIVATION_IS_PERMITTED) (lamports b + effective_) b' ∧
    ivals s' = <[N.to_nat (ba_index_in_transaction ba) := a']> (<[N.to_nat (ba_index_in_transaction bb) := b']> (ivals s)).
Proof.
  set (i := N.to_nat (ba_index_in_transaction ba)). set (j := N.to_nat (ba_index_in_transaction bb)).
  intros Hij Hb Hlb ([] & s1 & H1 & Hw)%bind_Ok_inv.
  apply deactivate_Ok in H1 as (a & m & stake & f & stake' & f' & a1 & Ha & Hx & Hsg & Hd & Ha1 & Hv1 & He1). fold i in Ha, Hv1.
  assert (i < length (ivals s) ∧ j < length (ivals s))%nat as [Hli Hlj] by (split; by eapply lookup_lt_Some).
  apply bind_Ok_inv in Hw as ([] & s2 & (a2 & Ha2 & Hle & Hv2 & He2)%sub_Ok & Hw). fold i in Ha2, Hv2.
  rewrite Hv1, list_lookup_insert_eq in Ha2 by done. injection Ha2 as <-.
  apply bind_Ok_inv in Hw as ([] & s3 & (b1 & Hb1 & Hv3 & He3)%add_Ok & Hw). fold j in Hb1, Hv3.
  rewrite Hv2, Hv1, list_insert_insert_eq, list_lookup_insert_ne, Hb in Hb1 by done. injection Hb1 as <-.
  rewrite Hv2, Hv1, list_insert_insert_eq in Hv3.
  apply bind_Ok_inv in Hw as (r & s4 & [-> Hr%get_rent_Some]%asks_Ok & Hw).
  apply bind_Ok_inv in Hw as (u & s4 & [-> Hu]%read_account & Hw). cbv zeta in Hw.
  assert (ivals s3 !! j = Some (set_lamports (lamports b + effective_) b)) as Hs3.
  { rewrite Hv3. apply list_lookup_insert_eq. by rewrite length_insert. }
  assert (u = set_lamports (lamports b + effective_) b) as -> by (unfold at_handle, ivals in *; fold j in Hu; congruence).
  apply bind_Ok_inv in Hw as (amount & s4 & Hamt & Hw).
  apply delegated_amount_Ok in Hamt as [-> (u & Hu' & -> & Hmin)]. fold j in Hu'. rewrite Hs3 in Hu'. injection Hu' as <-.
  apply write_Ok in Hw as (u & b' & Hu' & Hv4 & Hb' & He4). fold j in Hu', Hv4. rewrite Hs3 in Hu'. injection Hu' as <-.
  assert (env s3 = env s) as He by congruence. rewrite (env_cache _ _ He) in Hr. rewrite (env_features _ _ He) in Hmin.
  pose proof Ha1 as (_ & La & _). rewrite La in *. cbn [data set_lamports lamports set_meta_reserve rent_exempt_reserve] in *.
  change (len (data (set_lamports (lamports b + effective_) b))) with (len (data b)) in *. rewrite Hlb in *.
  exists r, a, m, stake, f, stake', f', (set_lamports (lamports a - effective_) a1), b'. split_and!; try done.
  - by eapply becomes_lamports.
  - rewrite Hv4, Hv3, list_insert_insert_eq. by rewrite (list_insert_insert_ne _ i j).
Qed.
Lemma redelegate_effect ic ba i j sg s s' :
  is_active (feature_set s) stake_redelegate_instruction_id = true →
  (∀ a, ivals s !! N.to_nat (ba_index_in_transaction ba) = Some a → owner a = stake_program_id) →
  redelegate activated_slot ic ba i j sg s = (Ok tt, s') → effect_in s (.∈ sg) (ivals s) (ivals s').
Proof.
  intros Hf Ho (clock & s1 & [-> Hc%get_clock_Some]%asks_Ok & Hw)%bind_Ok_inv.
  apply scope_run in Hw as (ja & s1 & s2 & Hja & Hw & Hv1 & He1 & Hv2 & He2).
  apply (effect_scope _ _ s1 s2 s'); [done..|]. rewrite <-(env_cache _ _ He1) in Hc. rewrite <-(env_features _ _ He1) in Hf.
  rewrite <-Hv1 in Ho. clear dependent s s'.
  apply bind_Ok_inv in Hw as (b & s & [-> Hb]%read_account & Hw). cbn in Hb.
  destruct (key_eqb _ _) eqn:Hob; cbn [negb] in Hw; [|by apply bind_Ok_inv in Hw as (? & ? & _ & [=])].
  apply bool_decide_eq_true in Hob.
  destruct (N.eqb_spec (len (data b)) stake_state_size_of) as [Hlb|]; cbn [negb] in Hw; [|by apply bind_Ok_inv in Hw as (? & ? & _ & [=])].
  apply bind_Ok_inv in Hw as (y & s & [-> (b0 & Hb0 & Hy)]%state_Ok & Hw). cbn in Hb0.
  assert (b0 = b) as -> by (unfold at_handle, ivals in *; cbn in Hb; congruence). clear Hb.
  destruct y; try (by apply bind_Ok_inv in Hw as (? & ? & _ & [=])).
  apply scope_run in Hw as (va & s3 & s4 & Hva & Hw & Hv3 & He3 & Hv4 & He4).
  apply (effect_scope _ _ s3 s4 s2); [done..|]. rewrite <-(env_cache _ _ He3) in Hc. rewrite <-(env_features _ _ He3) in Hf.
  rewrite <-Hv3 in Ho, Hb0. clear dependent s1 s2.
  apply bind_Ok_inv in Hw as (w & s & [-> _]%read_account & Hw).
  destruct (key_eqb _ _) eqn:Hov; cbn [negb] in Hw; [|by apply bind_Ok_inv in Hw as (? & ? & _ & [=])].
  apply bind_Ok_inv in Hw as (voter & s & [-> _]%get_key_Ok & Hw).
  apply bind_Ok_inv in Hw as (vs & s & [-> _]%read_vote_state & Hw).
  apply bind_Ok_inv in Hw as (x & s & [-> (a & Ha & Hx)]%state_Ok & Hw).
  apply bind_Ok_inv in Hw as ([stake_meta e] & s & Hterms & Hw).
  destruct x as [|m|m stake f|]; try (by apply bind_Ok_inv in Hterms as (? & ? & _ & [=])).
  apply bind_Ok_inv in Hterms as (x & s1 & [-> Hst]%stake_status_Ok & Hterms).
  destruct (N.eqb_spec (effective x) 0), (N.eqb_spec (activating x) 0), (N.eqb_spec (deactivating x) 0); cbn [orb negb] in Hterms;
    try (by apply bind_Ok_inv in Hterms as (? & ? & _ & [=])).
  destruct (key_eqb _ _) eqn:Hk in Hterms; [by apply bind_Ok_inv in Hterms as (? & ? & _ & [=])|].
  injection Hterms as <- <- <-. apply bool_decide_eq_false in Hk.
  assert (N.to_nat (ba_index_in_transaction ba) ≠ position ja) as Hij.
  { intros Heq. rewrite Heq in Ha. congruence. }
  apply (redelegate_tail_Ok ba (handle_of ic i ja) clock sg _ _ _ _ b) in Hw
    as (r & a1 & m1 & stake1 & f1 & stake' & f' & a' & b' & Hr & Ha1 & Hx1 & Hsg & Hd & Hle & Ha' & Hmin & Hb' & Hv); [|done..].
  rewrite Ha in Ha1. injection Ha1 as <-. rewrite Hx in Hx1. injection Hx1 as <- <- <-. cbn in Hv. rewrite Hv.
  apply (EffRedelegate _ _ _ _ _ _ r clock _ _ a b m stake f x voter (credits vs) stake' f'); try done; split_and!; eauto.
Qed.

(** ** Withdrawals *)
Lemma signers_loop_in t l acc sg ia k :
  get_signers_loop t l acc = Ok sg → acc ⊆ sg ∧
  (ia ∈ l → ia_is_signer ia = true → get_key_of_account_at_index t (index_in_transaction ia) = Ok k → k ∈ sg).
Proof.
  revert acc. induction l as [|x l IH]; intros acc; simpl; [intros [= <-]; split; [done|by intros ?%elem_of_nil]|].
  destruct (ia_is_signer x) eqn:Hx.
  - destruct (get_key_of_account_at_index t (index_in_transaction x)) as [key| |] eqn:Hkey; [|done..]. cbn [rbind].
    intros [Hsub Hin]%IH. split; [set_solver|]. intros [->|Hl]%elem_of_cons Hs Hk; [|by apply Hin].
    rewrite Hkey in Hk. injection Hk as <-. set_solver.
  - intros [Hsub Hin]%IH. split; [done|]. intros [->|Hl]%elem_of_cons Hs Hk; [congruence|by apply Hin].
Qed.
Lemma signer_in ic i k s s' t sg :
  is_instruction_account_signer ic i = Ok true → key_of_instruction_account ic i s = (Ok k, s') →
  account_keys (transaction_context s) = account_keys t → get_signers ic t = Ok sg → k ∈ sg.
Proof.
  unfold is_instruction_account_signer. destruct (getN (instruction_accounts ic) i) as [ia|] eqn:Hia; [|done].
  intros [= Hs] [_ (index & Hi & Hk)]%key_of_Ok Hkeys Hsg.
  unfold get_index_of_instruction_account_in_transaction in Hi. rewrite Hia in Hi. injection Hi as <-.
  rewrite (get_key_same t _ _ Hkeys) in Hk.
  apply (signers_loop_in _ _ _ _ ia k) in Hsg as [_ Hin]. apply Hin; [|done..]. by eapply list_elem_of_lookup_2.
Qed.
Lemma released_mono (P Q : Pubkey → Prop) l clock : (∀ k, P k → Q k) → released P l clock → released Q l clock.
Proof. intros HPQ Hr Hf. by apply HPQ, Hr. Qed.

(** the terms of a withdrawal *)
Lemma withdrawal_terms_Ok ba sg clock h s l reserve staked s' :
  sc_stake_history (sysvar_cache s) = Some h →
  withdrawal_terms ba sg clock h (rate_at s) s = (Ok (l, reserve, staked), s') →
  s' = s ∧ ∃ a x, ivals s !! N.to_nat (ba_index_in_transaction ba) = Some a ∧ shared_deserialize_data a = Some x ∧
    match x with
    | Staked m stake _ =>
        withdrawer (authorized m) ∈ sg ∧ l = lockup_of m ∧ ∃ n,
          (if deactivation_epoch (delegation stake) <=? clock_epoch clock
           then ∃ y, status_at_in s stake (clock_epoch clock) y ∧ n = effective y
           else n = delegated_stake (delegation stake)) ∧
          reserve = n + rent_exempt_reserve m ∧ staked = negb (n =? 0)
    | StakeInitialized m =>
        withdrawer (authorized m) ∈ sg ∧ l = lockup_of m ∧ reserve = rent_exempt_reserve m ∧ staked = false
    | StakeUninitialized =>
        l = lockup_default ∧ ∃ k, account_keys (transaction_context s) !! N.to_nat (ba_index_in_transaction ba) = Some k ∧ k ∈ sg
    | RewardsPool => False
    end.
Proof.
  intros Hh (x & s1 & [-> (a & Ha & Hx)]%state_Ok & Hw)%bind_Ok_inv. destruct x as [|m|m stake f|]; [| | |done].
  - apply bind_Ok_inv in Hw as (k & s1 & [-> Hk]%get_key_Ok & Hw). case_bool_decide; [done|]. injection Hw as <- <- <- <-.
    split; [done|]. exists a, StakeUninitialized. split_and!; [done..|]. by exists k.
  - apply bind_Ok_inv in Hw as ([] & s1 & [Hsg%check_withdrawer ->]%lift_Ok_inv & [= <- <- <- <-]).
    split; [done|]. by exists a, (StakeInitialized m).
  - apply bind_Ok_inv in Hw as ([] & s1 & [Hsg%check_withdrawer ->]%lift_Ok_inv & Hw).
    apply bind_Ok_inv in Hw as (n & s1 & [Hn ->]%lift_Ok_inv & Hw).
    apply bind_Ok_inv in Hw as (r & s1 & [->%checked_funds_Ok ->]%lift_Ok_inv & [= <- <- <- <-]).
    split; [done|]. exists a, (Staked m stake f). split_and!; try done. exists n. split_and!; try done.
    destruct (_ <=? _); [|by injection Hn]. unfold effective_stake in Hn.
    destruct (stake_activating_and_deactivating _ _ _ _) as [y| |] eqn:Hy; [|done..]. injection Hn as <-.
    exists y. split; [|done]. by exists h.
Qed.
Lemma withdraw_effect ic i k j clock h w cu sg ia s s' :
  sc_clock (sysvar_cache s) = Some clock → sc_stake_history (sysvar_cache s) = Some h →
  getN (instruction_accounts ic) i = Some ia → get_signers ic (transaction_context s) = Ok sg →
  (∀ a, ivals s !! position ia = Some a → owner a = stake_program_id) →
  stake_withdraw ic i k j clock h w cu (rate_at s) s = (Ok tt, s') → effect_in s (.∈ sg) (ivals s) (ivals s').
Proof.
  intros Hc Hh Hia Hsg Ho (key & s1 & Hkey & Hw)%bind_Ok_inv. pose proof Hkey as [-> _]%key_of_Ok.
  apply bind_Ok_inv in Hw as (b & s1 & [Hb ->]%lift_Ok_inv & Hw). destruct b; [|done]. cbn [negb] in Hw.
  pose proof (signer_in _ _ _ _ _ _ _ Hb Hkey eq_refl Hsg) as Hin. clear Hkey Hb.
  apply bind_Ok_inv in Hw as ([] & s1 & Hw & Hto).
  apply scope_run in Hw as (ia' & t1 & t2 & Hia' & Hw & Hv1 & He1 & Hv2 & He2). rewrite Hia in Hia'. injection Hia' as <-.
  apply scope_run in Hto as (ja & t3 & t4 & Hja & (b & Hb & Hvb & _)%add_Ok & Hv3 & _ & Hv4 & _). cbn in Hb, Hvb.
  replace (rate_at s) with (rate_at t1) in Hw by (by rewrite (env_cache _ _ He1), (env_features _ _ He1)).
  rewrite <-(get_signers_same ic _ _ (env_keys _ _ He1)) in Hsg. rewrite <-(env_cache _ _ He1) in Hc, Hh. rewrite <-Hv1 in Ho.
  apply (effect_scope _ _ t1 s' s'); [done..|]. clear Hv1 He1 He2.
  apply bind_Ok_inv in Hw as ([[l reserve] staked] & t5 & Hterms & Hw).
  apply withdrawal_terms_Ok in Hterms as [-> (a & x & Ha & Hx & Hterms)]; [|done]. cbn in Ha.
  apply bind_Ok_inv in Hw as (cp & t5 & Hcp & Hw).
  assert (t5 = t1 ∧ ∀ c, cp = Some c → c ∈ sg) as [-> Hcus].
  { destruct cu as [n|]; [|by injection Hcp as <- <-].
    apply bind_Ok_inv in Hcp as (q & t6 & [Hq ->]%lift_Ok_inv & Hcp). destruct q; [|by injection Hcp as <- <-].
    apply bind_Ok_inv in Hcp as (c & t6 & Hck & [= <- <-]). pose proof Hck as [-> _]%key_of_Ok. split; [done|].
    intros ? [= <-]. by eapply (signer_in ic n). }
  destruct (is_in_force l clock cp) eqn:Hforce; [done|].
  assert (released (.∈ sg) l clock) as Hrel.
  { intros Hf. destruct cp as [c|]; [|congruence]. rewrite <-(in_force_custodian l clock c) by done. by apply Hcus. }
  apply bind_Ok_inv in Hw as (total & t5 & [->%checked_funds_Ok ->]%lift_Ok_inv & Hw).
  apply bind_Ok_inv in Hw as (a0 & t5 & [-> Ha0]%read_account & Hw).
  assert (a0 = a) as -> by (unfold at_handle, ivals in *; cbn in Ha0; congruence). clear Ha0.
  destruct (staked && _) eqn:Hstk in Hw; [done|]. destruct (negb _ && _) eqn:Hpart in Hw; [by destruct staked|].
  apply bind_Ok_inv in Hw as ([] & t5 & H1 & (a2 & Ha2 & Hle & Hv5 & _)%sub_Ok). cbn in Ha2, Hv5.
  assert (∃ a1, becomes a (if k =? lamports a then StakeUninitialized else x) (lamports a) a1 ∧
    ivals t5 = <[position ia := a1]> (ivals t1)) as (a1 & Ha1 & Ht5).
  { destruct (k =? lamports a).
    - apply write_Ok in H1 as (a0 & a1 & Ha0 & Hv & Hbe & _). cbn in Ha0, Hv. rewrite Ha in Ha0. injection Ha0 as <-. eauto.
    - injection H1 as <-. exists a. split; [by apply becomes_refl|by rewrite list_insert_id]. }
  rewrite Ht5, list_lookup_insert_eq in Ha2 by (by eapply lookup_lt_Some). injection Ha2 as <-.
  rewrite Ht5, list_insert_insert_eq in Hv5. pose proof Ha1 as (_ & La & _). rewrite La in *.
  rewrite Hv4, Hvb, (insert_alter (λ y, set_lamports (lamports y + k) y)) by done. rewrite Hv3, Hv2, Hv5.
  apply (EffWithdraw _ _ _ _ _ _ clock _ _ a x k); try done.
  - split_and!; eauto.
  - by destruct x.
  - intros ->. destruct Hterms as (_ & key' & Hk' & Hk2). apply elem_of_singleton in Hk2 as ->. eauto.
  - destruct x as [|m|m stake f|]; [done| | |done].
    + destruct Hterms as (Hw%elem_of_singleton & -> & -> & ->). cbn. rewrite Hw. split_and!; [done..|].
      apply andb_false_iff in Hpart as [Hz%negb_false_iff%N.eqb_eq|Hz%N.ltb_ge]; [by right|by left].
    + destruct Hterms as (Hw%elem_of_singleton & -> & n & Hn & -> & ->). cbn. rewrite Hw. split_and!; [done..|].
      exists n. split; [done|]. destruct (N.eqb_spec n 0) as [->|Hn0]; cbn [negb andb] in Hstk.
      * apply andb_false_iff in Hpart as [Hz%negb_false_iff%N.eqb_eq|Hz%N.ltb_ge]; [by right|left; lia].
      * apply N.ltb_ge in Hstk. left. lia.
  - by eapply becomes_lamports.
Qed.

(** ** The whole instruction *)

(** the signers of the instruction; one that signs with its base key stands for the keys
    derived from it *)
Definition signed_by (ic : InstructionContext) (t : TransactionContext) (k : Pubkey) : Prop :=
  (∃ sg, get_signers ic t = Ok sg ∧ k ∈ sg) ∨
  (∃ index base seed derived_owner, is_instruction_account_signer ic 1 = Ok true ∧
     get_index_of_instruction_account_in_transaction ic 1 = Ok index ∧
     get_key_of_account_at_index t index = Ok base ∧ create_with_seed base seed derived_owner = Ok k).
Lemma signed_by_same ic t t' k : account_keys t' = account_keys t → signed_by ic t' k ↔ signed_by ic t k.
Proof.
  intros Hk. unfold signed_by. rewrite (get_signers_same _ _ _ Hk).
  setoid_rewrite (λ i, get_key_same t t' i Hk). done.
Qed.

Lemma update_mono (P Q : Pubkey → Prop) s v clock n x x' :
  (∀ k, P k → Q k) → update_in s P v clock n x x' → update_in s Q v clock n x x'.
Proof.
  intros HPQ. destruct 1; econstructor; eauto using released_mono; naive_solver.
Qed.
Lemma updated_mono (P Q : Pubkey → Prop) ba clock s s' :
  (∀ k, P k → Q k) → updated ba clock P s s' → updated ba clock Q s s'.
Proof.
  intros HPQ (a & x & x' & a' & Ha & Hx & Hu & Hrest). exists a, x, x', a'. split_and!; try done; [|naive_solver..].
  by eapply update_mono.
Qed.
Lemma effect_mono (P Q : Pubkey → Prop) s v v' :
  (∀ k, P k → Q k) → effect_in s P v v' → effect_in s Q v v'.
Proof.
  intros HPQ. destruct 1.
  - apply EffNone.
  - by eapply EffInitialize.
  - eapply EffUpdate; eauto using update_mono.
  - eapply EffSplit; eauto.
  - eapply EffSplitInitialized; eauto.
  - eapply EffSplitUninitialized; eauto.
  - eapply EffMerge; eauto.
  - eapply EffRedelegate; eauto.
  - eapply EffWithdraw; eauto; [naive_solver|]. destruct x as [|m|m stake f|]; [done| | |done]; cbn in *;
      naive_solver eauto using released_mono.
Qed.

Lemma stake_scope {A} ic (body : BorrowedAccount → IC A) s x s' :
  with_stake_account ic body s = (Ok x, s') →
  ∃ ia s1 s2, getN (instruction_accounts ic) 0 = Some ia ∧ body (handle_of ic 0 ia) s1 = (Ok x, s2) ∧
    ivals s1 = ivals s ∧ env s1 = env s ∧ ivals s' = ivals s2 ∧ env s' = env s2 ∧
    ∀ a, ivals s !! position ia = Some a → owner a = stake_program_id.
Proof.
  intros (ia & s1 & s2 & Hia & Hw & Hv1 & He1 & Hv2 & He2)%scope_run.
  apply bind_Ok_inv in Hw as (a & s3 & [-> Ha]%read_account & Hw). destruct (key_eqb _ _) eqn:Ho; [|done]. cbn [negb] in Hw.
  exists ia, s1, s2. split_and!; try done. intros a' Ha'. apply bool_decide_eq_true in Ho.
  unfold at_handle in Ha. cbn in Ha. unfold ivals in *. congruence.
Qed.
Lemma config_scope ic i s s' : check_stake_config ic i s = (Ok tt, s') → ivals s' = ivals s ∧ env s' = env s.
Proof.
  intros (b & s1 & [-> ->]%active_Ok & Hw)%bind_Ok_inv. destruct (negb _); [|by injection Hw as <-].
  apply scope_run in Hw as (ia & s1 & s2 & Hia & Hw & Hv1 & He1 & Hv2 & He2).
  apply bind_Ok_inv in Hw as (k & s3 & [-> _]%get_key_Ok & Hw). destruct (negb _) in Hw; [done|].
  apply bind_Ok_inv in Hw as (a & s3 & [-> _]%read_account & Hw).
  apply bind_Ok_inv in Hw as (c & s3 & [_ ->]%lift_Ok_inv & Hw).
  apply bind_Ok_inv in Hw as (c' & s3 & [_ ->]%lift_Ok_inv & [= <-]). split; congruence.
Qed.
Lemma optional_pubkey_Ok ic i b s k s' : get_optional_pubkey ic i b s = (Ok k, s') → s' = s.
Proof.
  unfold get_optional_pubkey. destruct (_ <? _); [|by intros [= _ <-]].
  intros (q & s1 & Hq & Hw)%bind_Ok_inv. assert (s1 = s) as ->.
  { destruct b; [by apply lift_Ok_inv in Hq as [_ ->]|by injection Hq as _ <-]. }
  destruct (negb q); [done|]. by apply bind_Ok_inv in Hw as (k' & s2 & [-> _]%key_of_Ok & [= _ <-]).
Qed.
Lemma checked_signer_Ok ic i s k s' : checked_signer ic i s = (Ok k, s') → s' = s.
Proof.
  intros (k' & s1 & [-> _]%key_of_Ok & Hw)%bind_Ok_inv. apply bind_Ok_inv in Hw as (b & s1 & [_ ->]%lift_Ok_inv & Hw).
  destruct (negb b); [done|]. by injection Hw as _ <-.
Qed.
Lemma with_seed_updated ic ba seed o k role clock cu s s' :
  stake_authorize_with_seed ic ba 1 seed o k role clock cu s = (Ok tt, s') →
  updated ba clock (signed_by ic (transaction_context s)) s s'.
Proof.
  intros (b & s1 & [Hb ->]%lift_Ok_inv & Hw)%bind_Ok_inv. apply bind_Ok_inv in Hw as (keys & s1 & Hk & Hw).
  assert (s1 = s ∧ ∀ x, x ∈ keys → signed_by ic (transaction_context s) x) as [-> Hsigned].
  { destruct b; [|injection Hk as <- <-; split; [done|set_solver]].
    apply bind_Ok_inv in Hk as (base & s2 & [-> (index & Hi & Hkey)]%key_of_Ok & Hk).
    apply bind_Ok_inv in Hk as (derived & s2 & [Hd ->]%lift_Ok_inv & [= <- <-]). split; [done|].
    intros x ->%elem_of_singleton. right. exists index, base, seed, o. split_and!; try done.
    unfold from_pubkey_error in Hd. destruct (create_with_seed _ _ _); congruence. }
  apply (updated_mono (.∈ keys)); [done|]. by eapply authorize_updated.
Qed.

(** an instruction that updates the first account while it is borrowed *)
Lemma scope_updated ic (body : BorrowedAccount → IC unit) s s' :
  (∀ ia s1 s2, env s1 = env s → body (handle_of ic 0 ia) s1 = (Ok tt, s2) →
     ∃ clock, sc_clock (sysvar_cache s) = Some clock ∧
       updated (handle_of ic 0 ia) clock (signed_by ic (transaction_context s)) s1 s2) →
  with_stake_account ic body s = (Ok tt, s') →
  effect_in s (signed_by ic (transaction_context s)) (ivals s) (ivals s').
Proof.
  intros Hbody (ia & s1 & s2 & Hia & Hw & Hv1 & He1 & Hv2 & He2 & Ho)%stake_scope.
  destruct (Hbody ia s1 s2 He1 Hw) as (clock & Hc & Hu). apply (effect_scope _ _ s1 s2 s'); [done..|].
  apply (updated_effect (handle_of ic 0 ia) clock); [by rewrite (env_cache _ _ He1)|rewrite Hv1; exact Ho|done].
Qed.
(** what the guarded reads of the first account give, when it is dropped again *)
Lemma scope_dropped {A} ic (body : BorrowedAccount → IC A) s x s' (P : A → Prop) :
  (∀ ba s1 s2, env s1 = env s → body ba s1 = (Ok x, s2) → s2 = s1 ∧ P x) →
  with_stake_account ic body s = (Ok x, s') →
  ivals s' = ivals s ∧ env s' = env s ∧ P x ∧ ∃ ia, getN (instruction_accounts ic) 0 = Some ia ∧
    ∀ a, ivals s !! position ia = Some a → owner a = stake_program_id.
Proof.
  intros Hbody (ia & s1 & s2 & Hia & Hw & Hv1 & He1 & Hv2 & He2 & Ho)%stake_scope.
  destruct (Hbody _ _ _ He1 Hw) as [-> Hx]. split_and!; [congruence..|done|by exists ia].
Qed.
Lemma clock_history_Ok ic (b : bool) (ba : BorrowedAccount) s x s' :
  (at_least ic 2 ;;
   clock <- clock_with_account_check ic 2 ;;
   history <- stake_history_with_account_check ic 3 ;;
   (if b then at_least ic 5 else ret tt) ;;
   ret (clock, history)) s = (Ok x, s') →
  s' = s ∧ sc_clock (sysvar_cache s) = Some x.1 ∧ sc_stake_history (sysvar_cache s) = Some x.2.
Proof.
  intros ([] & s1 & ->%at_least_Ok & Hw)%bind_Ok_inv. apply bind_Ok_inv in Hw as (clock & s1 & [-> Hc]%sysvar_clock_Ok & Hw).
  apply bind_Ok_inv in Hw as (h & s1 & [-> Hh]%sysvar_history_Ok & Hw). apply bind_Ok_inv in Hw as ([] & s1 & Hb & [= <- <-]).
  destruct b; [apply at_least_Ok in Hb as ->|injection Hb as <-]; done.
Qed.

Section dispatch.
Context (ic : InstructionContext) (sg : gset Pubkey) (s : InvokeContext).
Context (Hsg : get_signers ic (transaction_context s) = Ok sg).
Local Abbreviation signed := (signed_by ic (transaction_context s)).

Lemma signers_signed k : k ∈ sg → signed k.
Proof. intros Hk. left. eauto. Qed.
Lemma updated_signed ba clock s1 s2 : updated ba clock (.∈ sg) s1 s2 → updated ba clock signed s1 s2.
Proof. apply updated_mono. apply signers_signed. Qed.
Lemma effect_signed v v' : effect_in s (.∈ sg) v v' → effect_in s signed v v'.
Proof. apply effect_mono. apply signers_signed. Qed.

(** *** Instructions that read the first account and the sysvars, and go on without it *)
Lemma delegate_dispatch s' :
  stake_dispatch activated_slot ic sg DelegateStake s = (Ok tt, s') → effect_in s signed (ivals s) (ivals s').
Proof.
  cbn [stake_dispatch]. intros (x & s1 & Hx & Hw)%bind_Ok_inv.
  apply (scope_dropped _ _ _ _ _ (λ x, sc_clock (sysvar_cache s) = Some x.1 ∧ sc_stake_history (sysvar_cache s) = Some x.2)) in Hx
    as (Hv1 & He1 & [Hc Hh] & ia & Hia & Ho).
  2:{ intros ba t1 t2 He Ht. rewrite <-(env_cache _ _ He). by apply (clock_history_Ok ic true ba). }
  apply bind_Ok_inv in Hw as ([] & s2 & [Hv2 He2]%config_scope & Hw).
  unfold delegate in Hw. apply bind_Ok_inv in Hw as ([key vs] & s3 & Hvote & Hw).
  apply scope_run in Hvote as (va & t1 & t2 & _ & Hvote & Hv3 & He3 & Hv4 & He4). assert (t2 = t1) as ->.
  { apply bind_Ok_inv in Hvote as (a & t3 & [-> _]%read_account & Hvote). destruct (negb _); [done|].
    apply bind_Ok_inv in Hvote as (k & t3 & [-> _]%get_key_Ok & Hvote).
    by apply bind_Ok_inv in Hvote as (v & t3 & ->%observe_state_Ok & [= _ _ <-]). }
  apply scope_run in Hw as (ia' & s4 & s5 & Hia' & Hw & Hv5 & He5 & Hv6 & He6). rewrite Hia in Hia'. injection Hia' as <-.
  assert (ivals s4 = ivals s) as Hv by congruence. assert (env s4 = env s) as He by congruence.
  apply effect_signed, (effect_scope _ _ s4 s5 s'); [done..|].
  apply delegate_updated in Hw; [|by rewrite (env_cache _ _ He)].
  apply (updated_effect (handle_of ic 0 ia) x.1); [by rewrite (env_cache _ _ He)|rewrite Hv; exact Ho|done].
Qed.
Lemma split_dispatch k s' :
  stake_dispatch activated_slot ic sg (SSplit k) s = (Ok tt, s') → effect_in s signed (ivals s) (ivals s').
Proof.
  cbn [stake_dispatch]. intros ([] & s1 & Hx & Hw)%bind_Ok_inv.
  apply (scope_dropped _ _ _ _ _ (λ _, True)) in Hx as (Hv1 & He1 & _ & ia & Hia & Ho).
  2:{ intros ba t1 t2 He ->%at_least_Ok. done. }
  apply effect_signed, (effect_scope _ _ s1 s' s'); [done..|]. eapply split_effect; [done| |done]. by rewrite Hv1.
Qed.
Lemma merge_dispatch s' :
  stake_dispatch activated_slot ic sg Merge s = (Ok tt, s') → effect_in s signed (ivals s) (ivals s').
Proof.
  cbn [stake_dispatch]. intros (x & s1 & Hx & Hw)%bind_Ok_inv.
  apply (scope_dropped _ _ _ _ _ (λ x, sc_clock (sysvar_cache s) = Some x.1 ∧ sc_stake_history (sysvar_cache s) = Some x.2)) in Hx
    as (Hv1 & He1 & [Hc Hh] & ia & Hia & Ho).
  2:{ intros ba t1 t2 He Ht. rewrite <-(env_cache _ _ He). by apply (clock_history_Ok ic false ba). }
  apply effect_signed, (effect_scope _ _ s1 s' s'); [done..|]. rewrite <-(env_cache _ _ He1) in Hc, Hh.
  eapply merge_effect; [done..| |done]. by rewrite Hv1.
Qed.
Lemma withdraw_dispatch k s' :
  stake_dispatch activated_slot ic sg (SWithdraw k) s = (Ok tt, s') → effect_in s signed (ivals s) (ivals s').
Proof.
  cbn [stake_dispatch]. intros (x & s1 & Hx & Hw)%bind_Ok_inv.
  apply (scope_dropped _ _ _ _ _ (λ x, sc_clock (sysvar_cache s) = Some x.1 ∧ sc_stake_history (sysvar_cache s) = Some x.2)) in Hx
    as (Hv1 & He1 & [Hc Hh] & ia & Hia & Ho).
  2:{ intros ba t1 t2 He Ht. rewrite <-(env_cache _ _ He). by apply (clock_history_Ok ic true ba). }
  apply bind_Ok_inv in Hw as (r & s2 & [-> ->]%new_rate_Ok & Hw).
  apply effect_signed, (effect_scope _ _ s1 s' s'); [done..|]. rewrite <-(env_cache _ _ He1) in Hc, Hh.
  eapply withdraw_effect; [done..| | |done]; [|by rewrite Hv1]. by rewrite (get_signers_same _ _ _ (env_keys _ _ He1)).
Qed.

(** *** Instructions that keep the first account borrowed *)
Lemma held_dispatch instruction s' :
  match instruction with
  | DelegateStake | SSplit _ | Merge | SWithdraw _ | GetMinimumDelegation | SInitialize _ _ | InitializeChecked | Redelegate => False
  | _ => True
  end →
  stake_dispatch activated_slot ic sg instruction s = (Ok tt, s') → effect_in s signed (ivals s) (ivals s').
Proof.
  intros Hi. destruct instruction as [| k role| | | | |args| |args| |role|args|args| | |]; try done; clear Hi; cbn [stake_dispatch].
  all: apply scope_updated; intros ia s1 s2 He Hw.
  - apply bind_Ok_inv in Hw as (clock & s3 & [-> Hc]%sysvar_clock_Ok & Hw). apply bind_Ok_inv in Hw as ([] & s3 & ->%at_least_Ok & Hw).
    apply bind_Ok_inv in Hw as (cu & s3 & ->%optional_pubkey_Ok & Hw). exists clock. rewrite <-(env_cache _ _ He). split; [done|].
    by eapply updated_signed, authorize_updated.
  - apply bind_Ok_inv in Hw as (clock & s3 & [-> Hc]%sysvar_clock_Ok & Hw). exists clock. rewrite <-(env_cache _ _ He).
    split; [done|]. by eapply updated_signed, deactivate_updated.
  - apply bind_Ok_inv in Hw as (clock & s3 & [-> Hc%get_clock_Some]%asks_Ok & Hw). exists clock. rewrite <-(env_cache _ _ He).
    split; [done|]. by eapply updated_signed, lockup_updated.
  - apply bind_Ok_inv in Hw as ([] & s3 & ->%at_least_Ok & Hw). apply bind_Ok_inv in Hw as (clock & s3 & [-> Hc]%sysvar_clock_Ok & Hw).
    apply bind_Ok_inv in Hw as (cu & s3 & ->%optional_pubkey_Ok & Hw). exists clock. rewrite <-(env_cache _ _ He). split; [done|].
    apply with_seed_updated in Hw. eapply updated_mono; [|exact Hw]. intros k. by apply signed_by_same, env_keys.
  - apply bind_Ok_inv in Hw as (clock & s3 & [-> Hc]%sysvar_clock_Ok & Hw). apply bind_Ok_inv in Hw as ([] & s3 & ->%at_least_Ok & Hw).
    apply bind_Ok_inv in Hw as (k & s3 & ->%checked_signer_Ok & Hw). apply bind_Ok_inv in Hw as (cu & s3 & ->%optional_pubkey_Ok & Hw).
    exists clock. rewrite <-(env_cache _ _ He). split; [done|]. by eapply updated_signed, authorize_updated.
  - apply bind_Ok_inv in Hw as ([] & s3 & ->%at_least_Ok & Hw). apply bind_Ok_inv in Hw as (clock & s3 & [-> Hc]%sysvar_clock_Ok & Hw).
    apply bind_Ok_inv in Hw as ([] & s3 & ->%at_least_Ok & Hw). apply bind_Ok_inv in Hw as (k & s3 & ->%checked_signer_Ok & Hw).
    apply bind_Ok_inv in Hw as (cu & s3 & ->%optional_pubkey_Ok & Hw). exists clock. rewrite <-(env_cache _ _ He). split; [done|].
    apply with_seed_updated in Hw. eapply updated_mono; [|exact Hw]. intros k'. by apply signed_by_same, env_keys.
  - apply bind_Ok_inv in Hw as (cu & s3 & ->%optional_pubkey_Ok & Hw).
    apply bind_Ok_inv in Hw as (clock & s3 & [-> Hc%get_clock_Some]%asks_Ok & Hw). exists clock. rewrite <-(env_cache _ _ He).
    split; [done|]. by eapply updated_signed, lockup_updated.
  - apply bind_Ok_inv in Hw as ([] & s3 & ->%at_least_Ok & Hw).
    apply bind_Ok_inv in Hw as (clock & s3 & [-> Hc%get_clock_Some]%asks_Ok & Hw). exists clock. rewrite <-(env_cache _ _ He).
    split; [done|]. by eapply delinquent_updated.
Qed.
Lemma dispatch_effect instruction s' :
  stake_dispatch activated_slot ic sg instruction s = (Ok tt, s') → effect_in s signed (ivals s) (ivals s').
Proof.
  intros Hw. destruct instruction; try (by eapply held_dispatch; [|exact Hw]); cbn [stake_dispatch] in Hw.
  - apply stake_scope in Hw as (ia & s1 & s2 & Hia & Hw & Hv1 & He1 & Hv2 & He2 & Ho).
    apply bind_Ok_inv in Hw as (r & s3 & [-> Hr]%sysvar_rent_Ok & Hw). apply (effect_scope _ _ s1 s2 s'); [done..|].
    eapply initialize_effect; [done| |done]. rewrite Hv1. exact Ho.
  - by apply delegate_dispatch.
  - by eapply split_dispatch.
  - by eapply withdraw_dispatch.
  - by apply merge_dispatch.
  - apply stake_scope in Hw as (ia & s1 & s2 & Hia & Hw & Hv1 & He1 & Hv2 & He2 & Ho).
    apply bind_Ok_inv in Hw as ([] & s3 & ->%at_least_Ok & Hw). apply bind_Ok_inv in Hw as (k & s3 & [-> _]%key_of_Ok & Hw).
    apply bind_Ok_inv in Hw as (w & s3 & ->%checked_signer_Ok & Hw).
    apply bind_Ok_inv in Hw as (r & s3 & [-> Hr]%sysvar_rent_Ok & Hw). apply (effect_scope _ _ s1 s2 s'); [done..|].
    eapply initialize_effect; [done| |done]. rewrite Hv1. exact Ho.
  - apply bind_Ok_inv in Hw as (f & s1 & [= <- <-] & Hw). apply on_tc_Ok in Hw as (t & Hw & ->).
    unfold set_return_data, modify in Hw. injection Hw as <-. apply EffNone.
  - apply stake_scope in Hw as (ia & s1 & s2 & Hia & Hw & Hv1 & He1 & Hv2 & He2 & Ho).
    apply bind_Ok_inv in Hw as (b & s3 & [-> ->]%active_Ok & Hw). destruct (is_active _ _) eqn:Hf; [|done].
    apply bind_Ok_inv in Hw as ([] & s3 & ->%at_least_Ok & Hw). apply bind_Ok_inv in Hw as ([] & s3 & [Hv3 He3]%config_scope & Hw).
    assert (ivals s3 = ivals s) as Hv by congruence. assert (env s3 = env s) as He by congruence.
    apply effect_signed, (effect_scope _ _ s3 s2 s'); [done..|].
    eapply (redelegate_effect ic (handle_of ic 0 ia)); [by rewrite (env_features _ _ He3)|rewrite Hv; exact Ho|exact Hw].
Qed.
End dispatch.

Lemma stake_instruction_effect s s' ic :
  get_current_instruction_context (transaction_context s) = Ok ic →
  stake_process_instruction activated_slot s = (Ok tt, s') →
  effect_in s (signed_by ic (transaction_context s)) (ivals s) (ivals s').
Proof.
  intros Hic (ic' & s1 & [-> Hic']%asks_Ok & Hw)%bind_Ok_inv. rewrite Hic in Hic'. injection Hic' as <-.
  apply bind_Ok_inv in Hw as (sg & s1 & [-> Hsg]%asks_Ok & Hw).
  apply bind_Ok_inv in Hw as (instruction & s1 & [_ ->]%lift_Ok_inv & Hw). by eapply dispatch_effect.
Qed.
End handlers.
