(* ===== verification/MerkleTree.v ===== *)
(** * Merkle trees ([merkle-tree/src/merkle_tree.rs])

    The tree over the signatures of an entry, level after level in one vector, and the
    paths from a leaf to the root.  Indexes into the vector are [nat]. *)

From S2P Require Import Prelude Sdk.
Local Open Scope nat_scope.

Section tree.
Context `{Sha256} {E : Type}.

Definition LEAF_PREFIX : list N := [0%N].
Definition INTERMEDIATE_PREFIX : list N := [1%N].
Definition hash_leaf (d : list N) : Hash := hashv [LEAF_PREFIX; d].
Definition hash_intermediate (l r : Hash) : Hash := hashv [INTERMEDIATE_PREFIX; hash_bytes l; hash_bytes r].

Record MerkleTree := mkMerkleTree { leaf_count : nat; nodes : list Hash }.
Record ProofEntry := mkProofEntry { pe_target : Hash; pe_left : option Hash; pe_right : option Hash }.
Definition proof_entry_new (target : Hash) (left_sibling right_sibling : option Hash) : result E ProofEntry :=
  match left_sibling, right_sibling with
  | None, Some _ | Some _, None => Ok (mkProofEntry target left_sibling right_sibling)
  | _, _ => Panic
  end.

Fixpoint proof_fold (candidate : Hash) (path : list ProofEntry) : option Hash :=
  match path with
  | [] => Some candidate
  | pe :: path' =>
      let lsib := default candidate (pe_left pe) in
      let rsib := default candidate (pe_right pe) in
      let hash := hash_intermediate lsib rsib in
      if bool_decide (hash = pe_target pe) then proof_fold hash path' else None
  end.
Definition proof_verify (path : list ProofEntry) (candidate : Hash) : bool :=
  match proof_fold candidate path with Some _ => true | None => false end.

Definition next_level_len (level_len : nat) : nat :=
  if level_len =? 1 then 0 else (level_len + 1) / 2.

(** the nodes of one level, pushed one by one *)
Fixpoint push_level (prev_level_start prev_level_len : nat) (indexes : list nat) (nodes : list Hash) :
  result E (list Hash) :=
  match indexes with
  | [] => Ok nodes
  | i :: indexes' =>
      let prev_level_idx := 2 * i in
      let! lsib := unwrap (nodes !! (prev_level_start + prev_level_idx)) in
      let! rsib := unwrap (if prev_level_idx + 1 <? prev_level_len
                           then nodes !! (prev_level_start + prev_level_idx + 1)
                           else nodes !! (prev_level_start + prev_level_idx)) in
      push_level prev_level_start prev_level_len indexes' (nodes ++ [hash_intermediate lsib rsib])
  end.
(** [while level_len > 0]; every level is shorter than the one before *)
Fixpoint push_levels (fuel level_len level_start prev_level_len prev_level_start : nat) (nodes : list Hash) :
  result E (list Hash) :=
  match fuel with
  | O => Panic
  | S fuel =>
      if level_len =? 0 then Ok nodes else
      let! nodes := push_level prev_level_start prev_level_len (seq 0 level_len) nodes in
      push_levels fuel (next_level_len level_len) (level_start + level_len) level_len level_start nodes
  end.
Definition merkle_tree_new (items : list (list N)) : result E MerkleTree :=
  let n := length items in
  let! nodes := push_levels (S n) (next_level_len n) n n 0 (hash_leaf <$> items) in
  Ok (mkMerkleTree n nodes).

Definition get_root (t : MerkleTree) : option Hash := list.last (nodes t).

Fixpoint path_loop (fuel : nat) (nodes : list Hash) (level_len level_start node_index : nat)
    (lsib rsib : option Hash) : result E (list ProofEntry) :=
  match fuel with
  | O => Panic
  | S fuel =>
      if level_len =? 0 then Ok [] else
      if length nodes <? level_start + level_len then Panic else
      let level := take level_len (drop level_start nodes) in
      let! target := unwrap (level !! node_index) in
      let! pushed :=
        match lsib, rsib with
        | None, None => Ok []
        | _, _ => let! pe := proof_entry_new target lsib rsib in Ok [pe]
        end in
      let! sibs :=
        if node_index mod 2 =? 0 then
          let! r := unwrap (if node_index + 1 <? length level then level !! (node_index + 1) else level !! node_index) in
          Ok (None, Some r)
        else
          let! l := unwrap (level !! (node_index - 1)) in
          Ok (Some l, None) in
      let! rest := path_loop fuel nodes (next_level_len level_len) (level_start + level_len) (node_index / 2)
                     sibs.1 sibs.2 in
      Ok (pushed ++ rest)
  end.
Definition find_path (t : MerkleTree) (index : nat) : result E (option (list ProofEntry)) :=
  if leaf_count t <=? index then Ok None else
  let! path := path_loop (S (leaf_count t)) (nodes t) (leaf_count t) 0 index None None in
  Ok (Some path).
End tree.

(** ** The tree as a list of levels *)
Section levels.
Context `{Sha256} {E : Type}.

Fixpoint pair_up (l : list Hash) : list Hash :=
  match l with
  | a :: b :: l' => hash_intermediate a b :: pair_up l'
  | [a] => [hash_intermediate a a]
  | [] => []
  end.
Fixpoint levels (fuel : nat) (l : list Hash) : list (list Hash) :=
  match fuel, l with
  | S fuel, _ :: _ :: _ => l :: levels fuel (pair_up l)
  | S _, [x] => [[x]]
  | _, _ => []
  end.
(** the root of a reference tree *)
Definition root_of (l : list Hash) : option Hash := list.last (concat (levels (length l) l)).

Lemma list_pair_ind {A} (P : list A → Prop) :
  P [] → (∀ a, P [a]) → (∀ a b l, P l → P (a :: b :: l)) → ∀ l, P l.
Proof.
  intros H0 H1 H2. assert (∀ l, P l ∧ ∀ a, P (a :: l)) as Hall; [|intros l; apply Hall].
  induction l as [|a l [IH1 IH2]]; auto.
Qed.
Lemma pair_up_length l : length (pair_up l) = (length l + 1) / 2.
Proof.
  induction l as [| |a b l IH] using list_pair_ind; [done..|]. cbn [pair_up length]. rewrite IH.
  replace (S (S (length l)) + 1) with (length l + 1 + 1 * 2) by lia. rewrite Nat.div_add by lia. lia.
Qed.
Lemma pair_up_lookup l : ∀ i a,
  l !! (2 * i) = Some a → pair_up l !! i = Some (hash_intermediate a (default a (l !! (2 * i + 1)))).
Proof.
  induction l as [|a|a b l IH] using list_pair_ind; intros i x; [done|..].
  - destruct i as [|i]; [by intros [= ->]|]. by replace (2 * S i) with (S (S (2 * i))) by lia.
  - destruct i as [|i]; [by intros [= ->]|]. replace (2 * S i) with (S (S (2 * i))) by lia.
    replace (S (S (2 * i)) + 1) with (S (S (2 * i + 1))) by lia. cbn [pair_up]. intros Hx. rewrite !lookup_cons. by apply IH.
Qed.
Lemma half_lt n : 2 ≤ n → (n + 1) / 2 < n.
Proof. intros Hn. apply Nat.Div0.div_lt_upper_bound; lia. Qed.
Lemma half_pos n : 1 ≤ n → 1 ≤ (n + 1) / 2.
Proof. intros Hn. apply Nat.div_le_lower_bound; lia. Qed.

(** one level is built from the one before *)
Lemma push_level_spec pre l k : ∀ i,
  i + k = length (pair_up l) →
  push_level (E:=E) (length pre) (length l) (seq i k) (pre ++ l ++ take i (pair_up l)) = Ok (pre ++ l ++ pair_up l).
Proof.
  induction k as [|k IH]; intros i Hi; cbn [seq push_level].
  { by rewrite take_ge by lia. }
  rewrite pair_up_length in Hi. assert (2 * i < length l) as Hlt.
  { assert (2 * ((length l + 1) / 2) ≤ length l + 1) by (apply Nat.Div0.mul_div_le). lia. }
  destruct (lookup_lt_is_Some_2 l (2 * i) Hlt) as [a Ha].
  assert (∀ j, j < length l → (pre ++ l ++ take i (pair_up l)) !! (length pre + j) = l !! j) as Hl.
  { intros j Hj. rewrite lookup_app_r by lia. replace (length pre + j - length pre) with j by lia. by apply lookup_app_l. }
  rewrite (Hl (2 * i) Hlt), Ha. cbn [unwrap rbind].
  assert ((if 2 * i + 1 <? length l then (pre ++ l ++ take i (pair_up l)) !! (length pre + 2 * i + 1) else Some a) =
          Some (default a (l !! (2 * i + 1)))) as ->.
  { destruct (Nat.ltb_spec (2 * i + 1) (length l)) as [Hlt'|Hge]; [|by rewrite lookup_ge_None_2].
    replace (length pre + 2 * i + 1) with (length pre + (2 * i + 1)) by lia. rewrite Hl by done.
    by destruct (lookup_lt_is_Some_2 l _ Hlt') as [b ->]. }
  cbn [unwrap rbind]. rewrite <-!app_assoc. rewrite <-(take_S_r (pair_up l) i _ (pair_up_lookup l i a Ha)).
  apply IH. rewrite pair_up_length. lia.
Qed.

Lemma push_levels_spec f : ∀ pre l,
  2 ≤ length l → length l ≤ S f →
  push_levels (E:=E) (S f) (next_level_len (length l)) (length pre + length l) (length l) (length pre) (pre ++ l) =
  Ok (pre ++ concat (levels (S f) l)).
Proof.
  induction f as [|f IH]; intros pre l Hl Hf; [lia|].
  assert (next_level_len (length l) = length (pair_up l)) as Hn.
  { unfold next_level_len. rewrite pair_up_length. by destruct (Nat.eqb_spec (length l) 1); [lia|]. }
  rewrite Hn. pose proof (half_lt (length l) Hl). pose proof (half_pos (length l)). rewrite pair_up_length in *.
  cbn [push_levels]. destruct (Nat.eqb_spec ((length l + 1) / 2) 0); [lia|].
  pose proof (push_level_spec pre l (length (pair_up l)) 0 ltac:(lia)) as Hp. rewrite pair_up_length in Hp.
  cbn [take] in Hp. rewrite app_nil_r in Hp. rewrite Hp. cbn [rbind].
  destruct l as [|a [|b l]]; [simpl in *; lia..|]. set (l0 := a :: b :: l) in *. change (levels (S (S f)) l0) with (l0 :: levels (S f) (pair_up l0)).
  rewrite concat_cons. rewrite <-pair_up_length. destruct (decide (length (pair_up l0) = 1)) as [Hone|Hone].
  - rewrite Hone. destruct (pair_up l0) as [|x [|]] eqn:Hx; [done| |done]. cbn [next_level_len Nat.eqb push_levels].
    destruct f; simpl; by rewrite ?app_nil_r.
  - assert (2 ≤ length (pair_up l0) ∧ length (pair_up l0) ≤ S f) as [Ha Hb] by (rewrite pair_up_length in *; lia).
    specialize (IH (pre ++ l0) (pair_up l0) Ha Hb). by rewrite length_app, <-!app_assoc in IH.
Qed.
Lemma levels_fuel f : ∀ l, length l ≤ f → levels (S f) l = levels f l.
Proof.
  induction f as [|f IH]; intros l Hl; [by destruct l; simpl in *; [|lia]|].
  destruct l as [|a [|b l]]; [done..|]. set (l0 := a :: b :: l) in *.
  change (l0 :: levels (S f) (pair_up l0) = l0 :: levels f (pair_up l0)). f_equal. apply IH.
  rewrite pair_up_length. pose proof (half_lt (length l0)). assert (2 ≤ length l0) by (simpl; lia). lia.
Qed.
Lemma merkle_tree_new_spec (items : list (list N)) :
  merkle_tree_new (E:=E) items =
  Ok (mkMerkleTree (length items) (concat (levels (length items) (hash_leaf <$> items)))).
Proof.
  unfold merkle_tree_new. destruct items as [|a [|b items]]; [done..|].
  set (l := a :: b :: items). pose proof (push_levels_spec (length l) [] (hash_leaf <$> l)) as Hp.
  rewrite !length_fmap in Hp. rewrite levels_fuel in Hp by (by rewrite length_fmap). cbn [app length Nat.add] in Hp.
  rewrite Hp; [done|simpl; lia|simpl; lia].
Qed.

(** the sibling of a node, and the node above both *)
Definition sibling_ok (candidate x : Hash) (lsib rsib : option Hash) : Prop :=
  match lsib, rsib with
  | None, Some r => hash_intermediate candidate r = x
  | Some l, None => hash_intermediate l candidate = x
  | None, None => candidate = x
  | _, _ => False
  end.
Lemma even_odd i : (i mod 2 = 0 ∧ i = 2 * (i / 2)) ∨ (i mod 2 = 1 ∧ i = 2 * (i / 2) + 1).
Proof. pose proof (Nat.div_mod_eq i 2). pose proof (Nat.mod_upper_bound i 2). lia. Qed.

Definition siblings (l : list Hash) (i : nat) (x : Hash) : option Hash * option Hash :=
  if i mod 2 =? 0 then (None, Some (default x (l !! (i + 1)))) else (l !! (i - 1), None).
Definition pushed_entry (x : Hash) (lsib rsib : option Hash) : list ProofEntry :=
  match lsib, rsib with None, None => [] | _, _ => [mkProofEntry x lsib rsib] end.
Lemma siblings_ok l i x : l !! i = Some x →
  ∃ y, pair_up l !! (i / 2) = Some y ∧ sibling_ok x y (siblings l i x).1 (siblings l i x).2 ∧
    ((siblings l i x).1 ≠ None ∨ (siblings l i x).2 ≠ None).
Proof.
  intros Hi. unfold siblings. destruct (even_odd i) as [[-> He]|[-> Ho]]; cbn [Nat.eqb fst snd].
  - rewrite He in Hi. rewrite (pair_up_lookup l _ x Hi). eexists. split; [done|]. rewrite <-He. split; [done|by right].
  - pose proof (lookup_lt_Some _ _ _ Hi) as Hlt. destruct (lookup_lt_is_Some_2 l (2 * (i / 2))) as [a Ha]; [lia|].
    rewrite (pair_up_lookup l _ a Ha). rewrite Ho in Hi. rewrite Hi. replace (i - 1) with (2 * (i / 2)) by lia. rewrite Ha.
    eexists. split; [done|]. split; [done|by left].
Qed.
Lemma path_step f nodes pre l rest i x candidate lsib rsib :
  nodes = pre ++ l ++ rest → l !! i = Some x → sibling_ok candidate x lsib rsib →
  path_loop (E:=E) (S f) nodes (length l) (length pre) i lsib rsib =
  (let! rest := path_loop f nodes (next_level_len (length l)) (length pre + length l) (i / 2)
                  (siblings l i x).1 (siblings l i x).2 in
   Ok (pushed_entry x lsib rsib ++ rest)).
Proof.
  intros -> Hi Hs. pose proof (lookup_lt_Some _ _ _ Hi) as Hlt. cbn [path_loop].
  destruct (Nat.eqb_spec (length l) 0); [lia|]. rewrite !length_app.
  destruct (Nat.ltb_spec (length pre + (length l + length rest)) (length pre + length l)); [lia|].
  rewrite drop_app_length, take_app_length, Hi. cbn [unwrap rbind].
  assert ((match lsib, rsib with None, None => Ok [] | _, _ => let! pe := proof_entry_new x lsib rsib in Ok [pe] end) =
          Ok (E:=E) (pushed_entry x lsib rsib)) as ->.
  { by destruct lsib, rsib. }
  cbn [rbind]. assert ((if i mod 2 =? 0 then
      let! r := unwrap (if i + 1 <? length l then l !! (i + 1) else Some x) in Ok (None, Some r)
    else let! l0 := unwrap (l !! (i - 1)) in Ok (Some l0, None)) = Ok (E:=E) (siblings l i x)) as ->.
  { unfold siblings. destruct (i mod 2 =? 0).
    - destruct (Nat.ltb_spec (i + 1) (length l)) as [Hlt'|Hge]; [|by rewrite lookup_ge_None_2].
      by destruct (lookup_lt_is_Some_2 l _ Hlt') as [b ->].
    - destruct (lookup_lt_is_Some_2 l (i - 1)) as [b ->]; [lia|done]. }
  done.
Qed.
Lemma pushed_fold x candidate lsib rsib rest :
  sibling_ok candidate x lsib rsib → proof_fold candidate (pushed_entry x lsib rsib ++ rest) = proof_fold x rest.
Proof.
  unfold pushed_entry. destruct lsib, rsib; simpl; intros Hs; [done|..|by rewrite Hs].
  all: by rewrite Hs, bool_decide_eq_true_2.
Qed.

Definition one_sided (pe : ProofEntry) : Prop := pe_left pe = None ∨ pe_right pe = None.

Lemma path_loop_spec f : ∀ l pre i x candidate lsib rsib,
  length l ≤ f → l !! i = Some x → sibling_ok candidate x lsib rsib →
  ∃ path, path_loop (E:=E) (S f) (pre ++ concat (levels f l)) (length l) (length pre) i lsib rsib =
            Ok (pushed_entry x lsib rsib ++ path) ∧
    proof_fold x path = list.last (concat (levels f l)) ∧ (2 ≤ length l ↔ path ≠ []) ∧ Forall one_sided path.
Proof.
  induction f as [|f IH]; intros l pre i x candidate lsib rsib Hf Hi Hs.
  { by destruct l; simpl in *; [|lia]. }
  destruct l as [|a [|b l]]; [done|..].
  - assert (i = 0 ∧ x = a) as [-> ->] by (destruct i; by simplify_eq/=). exists [].
    rewrite (path_step _ _ pre [a] [] 0 a candidate) by done. split; [by destruct f; simpl|]. split; [done|].
    split; [|done]. split; [simpl; lia|done].
  - set (l0 := a :: b :: l) in *. assert (2 ≤ length l0) as H2 by (simpl; lia).
    change (levels (S f) l0) with (l0 :: levels f (pair_up l0)). rewrite concat_cons.
    rewrite (path_step _ _ pre l0 (concat (levels f (pair_up l0))) i x candidate) by done.
    destruct (siblings_ok l0 i x Hi) as (y & Hy & Hsib & Hne).
    assert (length (pair_up l0) ≤ f) as Hshort.
    { rewrite pair_up_length. pose proof (half_lt (length l0)). lia. }
    destruct (IH (pair_up l0) (pre ++ l0) _ _ _ _ _ Hshort Hy Hsib) as (path & Hp & Hfold & _ & Hside).
    assert (next_level_len (length l0) = length (pair_up l0)) as ->.
    { unfold next_level_len. rewrite pair_up_length. by destruct (Nat.eqb_spec (length l0) 1); [lia|]. }
    rewrite length_app, <-app_assoc in Hp. rewrite Hp. cbn [rbind]. eexists. split; [done|]. split_and!.
    + rewrite pushed_fold by done. rewrite Hfold, last_app. destruct (list.last _) eqn:Hl; [done|].
      exfalso. apply last_None in Hl. destruct f; [by destruct (pair_up l0); simpl in *; lia|].
      destruct (pair_up l0) as [|? [|]]; done.
    + split; [|done]. intros _. unfold pushed_entry. destruct (siblings l0 i x) as [[] []]; simpl in *; naive_solver.
    + apply list.Forall_app. split; [|done]. unfold pushed_entry, one_sided.
      destruct (siblings l0 i x) as [[] []]; simpl in *; try done; constructor; simpl; auto.
Qed.
(** what the first step of a path hashes for a candidate *)
Definition first_input (path : list ProofEntry) (c : Hash) : list (list N) :=
  match path with
  | [] => []
  | pe :: _ => [INTERMEDIATE_PREFIX; hash_bytes (default c (pe_left pe)); hash_bytes (default c (pe_right pe))]
  end.
(** the two candidates make a collision of the hash function, read off the path *)
Definition collide (path : list ProofEntry) (c d : Hash) : Prop :=
  first_input path c ≠ first_input path d ∧ hashv (first_input path c) = hashv (first_input path d).
Lemma fold_step_unique x candidate path h h' :
  path ≠ [] → Forall one_sided path → proof_fold x path = Some h → proof_fold candidate path = Some h' →
  candidate = x ∨ collide path candidate x.
Proof.
  destruct path as [|pe path]; [done|]. intros _ [Hside _]%list.Forall_cons. simpl.
  case_bool_decide as Hx; [|done]. case_bool_decide as Hc; [|done]. intros _ _. rewrite <-Hx in Hc.
  destruct (decide (candidate = x)) as [|Hne]; [by left|right].
  split; [|exact Hc]. intros Heq. injection Heq as H1 H2. apply Hne.
  assert (∀ a b : Hash, hash_bytes a = hash_bytes b → a = b) as Hinj by (intros [] []; simpl; congruence).
  destruct Hside as [Hl|Hr]; [rewrite Hl in H1|rewrite Hr in H2]; by apply Hinj.
Qed.

(** A path proves that its item is in the tree.  For any items, the tree is built without a
    panic; an index in range has a path, and checking the item along it gives
    the root; another hash that is accepted along that path makes, with the item, a
    collision of the hash function at its first step, unless the tree has a single leaf: its
    path is empty and accepts every hash.  An index out of range has no path. *)
Theorem merkle_path_proves_membership (items : list (list N)) :
  ∃ tree, merkle_tree_new (E:=E) items = Ok tree ∧ get_root tree = root_of (hash_leaf <$> items) ∧
    (∀ index, items !! index = None → find_path (E:=E) tree index = Ok None) ∧
    ∀ index item, items !! index = Some item →
      ∃ path root, find_path (E:=E) tree index = Ok (Some path) ∧ get_root tree = Some root ∧
        proof_fold (hash_leaf item) path = Some root ∧ proof_verify path (hash_leaf item) = true ∧
        if length items =? 1 then ∀ candidate, proof_verify path candidate = true
        else ∀ candidate, proof_verify path candidate = true →
          candidate = hash_leaf item ∨ collide path candidate (hash_leaf item).
Proof.
  rewrite merkle_tree_new_spec. eexists. split; [done|]. split; [by unfold root_of; rewrite length_fmap|]. split.
  - intros index Hi%lookup_ge_None. unfold find_path. simpl. by rewrite (proj2 (Nat.leb_le _ _) Hi).
  - intros index item Hi. pose proof (lookup_lt_Some _ _ _ Hi) as Hlt. unfold find_path. simpl leaf_count. simpl nodes.
    rewrite (proj2 (Nat.leb_gt _ _) Hlt).
    destruct (path_loop_spec (length items) (hash_leaf <$> items) [] index (hash_leaf item) (hash_leaf item) None None)
      as (path & Hp & Hfold & Hne & Hside); [by rewrite length_fmap|by rewrite list_lookup_fmap, Hi|done|].
    rewrite length_fmap in Hp, Hne. cbn [app length] in Hp. rewrite Hp. cbn [rbind]. unfold get_root. cbn [nodes].
    assert (∃ root, proof_fold (hash_leaf item) path = Some root) as [root Hroot].
    { rewrite Hfold. destruct (list.last _) eqn:Hl; [eauto|]. apply last_None in Hl.
      by destruct items as [|a [|b items]]. }
    exists path, root. rewrite <-Hfold. split_and!; [done..|unfold proof_verify; by rewrite Hroot|].
    destruct (Nat.eqb_spec (length items) 1) as [Hone|Hmore]; intros candidate.
    + destruct path; [done|]. assert (2 ≤ length items) by (by apply Hne). lia.
    + unfold proof_verify. destruct (proof_fold candidate path) eqn:Hc; [|done]. intros _.
      apply (fold_step_unique (hash_leaf item) candidate path root h); auto. apply Hne. lia.
Qed.
End levels.
