(* ===== verification/Entry.v ===== *)
(** * Proof of history and the entries of the ledger ([entry/src/])

    The hash chain of a leader ([poh.rs]), the entries of a block and their verification on one
    core, in chunks by vector instructions and on a GPU ([entry.rs]), and the rules
    on the ticks of a block ([ledger/src/blockstore_processor.rs], [verify_ticks]).  Times
    are left out; the two accelerated libraries are parameters. *)

From S2P Require Import Prelude Sdk Message WireFormat MerkleTree.

Section poh.
Context `{Sha256} {E : Type}.

Definition hash_once (h : Hash) : Hash := hashv [hash_bytes h].
Definition LOW_POWER_MODE : N := u64_max.

Record Poh := mkPoh {
  poh_hash_ : Hash;
  poh_num_hashes : N;
  hashes_per_tick : N;
  remaining_hashes : N;
  tick_number : N }.
Record PohEntry := mkPohEntry { pe_num_hashes : N; pe_hash : Hash }.

Definition poh_new_with_slot_info (hash : Hash) (hashes_per_tick : option N) (tick_number : N) : result E Poh :=
  let hashes_per_tick := default LOW_POWER_MODE hashes_per_tick in
  if negb (1 <? hashes_per_tick) then Panic else
  Ok (mkPoh hash 0 hashes_per_tick hashes_per_tick tick_number).
Definition poh_new (hash : Hash) (hashes_per_tick : option N) : result E Poh :=
  poh_new_with_slot_info hash hashes_per_tick 0.
Definition poh_reset (hash : Hash) (hashes_per_tick : option N) (p : Poh) : result E Poh :=
  poh_new_with_slot_info hash hashes_per_tick 0.

Definition poh_hash (max_num_hashes : N) (p : Poh) : result E (bool * Poh) :=
  let num_hashes := N.min (wrapping_sub (remaining_hashes p) 1) max_num_hashes in
  let p := mkPoh (N.iter num_hashes hash_once (poh_hash_ p)) (wrapping_add (poh_num_hashes p) num_hashes)
             (hashes_per_tick p) (wrapping_sub (remaining_hashes p) num_hashes) (tick_number p) in
  if negb (0 <? remaining_hashes p) then Panic else
  Ok (remaining_hashes p =? 1, p).
Definition poh_record (mixin : Hash) (p : Poh) : option PohEntry * Poh :=
  if remaining_hashes p =? 1 then (None, p) else
  let hash := hashv [hash_bytes (poh_hash_ p); hash_bytes mixin] in
  let num_hashes := wrapping_add (poh_num_hashes p) 1 in
  (Some (mkPohEntry num_hashes hash),
   mkPoh hash 0 (hashes_per_tick p) (wrapping_sub (remaining_hashes p) 1) (tick_number p)).
Definition poh_tick (p : Poh) : option PohEntry * Poh :=
  let hash := hash_once (poh_hash_ p) in
  let num_hashes := wrapping_add (poh_num_hashes p) 1 in
  let remaining := wrapping_sub (remaining_hashes p) 1 in
  if negb (hashes_per_tick p =? LOW_POWER_MODE) && negb (remaining =? 0)
  then (None, mkPoh hash num_hashes (hashes_per_tick p) remaining (tick_number p))
  else (Some (mkPohEntry num_hashes hash),
        mkPoh hash 0 (hashes_per_tick p) (hashes_per_tick p) (wrapping_add (tick_number p) 1)).
End poh.

(** ** Entries *)
Record Entry := mkEntry {
  num_hashes : N;
  entry_hash : Hash;
  transactions : list VersionedTransaction }.
Definition is_tick (e : Entry) : bool := bool_decide (transactions e = []).
Record EntrySummary := mkEntrySummary { es_num_hashes : N; es_hash : Hash; es_num_transactions : N }.
Definition entry_summary (e : Entry) : EntrySummary :=
  mkEntrySummary (num_hashes e) (entry_hash e) (len (transactions e)).

Section entries.
Context `{Sha256} {E : Type}.

Definition hash_transactions (txs : list VersionedTransaction) : result E Hash :=
  let signatures := concat (vt_signatures <$> txs) in
  let! merkle_tree := merkle_tree_new signatures in
  Ok (default (mkHash (replicate 32 0)) (get_root merkle_tree)).

Definition next_hash (start_hash : Hash) (num_hashes : N) (txs : list VersionedTransaction) : result E Hash :=
  if (num_hashes =? 0) && bool_decide (txs = []) then Ok start_hash else
  let! poh := poh_new start_hash None in
  let! x := poh_hash (saturating_sub num_hashes 1) poh in
  if bool_decide (txs = []) then rmap pe_hash (unwrap (poh_tick x.2).1)
  else let! mixin := hash_transactions txs in rmap pe_hash (unwrap (poh_record mixin x.2).1).

(** the legacy transactions of [Entry::new] are given as versioned ones *)
Definition entry_new (prev_hash : Hash) (num_hashes : N) (txs : list VersionedTransaction) : result E Entry :=
  let num_hashes := if (num_hashes =? 0) && negb (bool_decide (txs = [])) then 1 else num_hashes in
  let! hash := next_hash prev_hash num_hashes txs in
  Ok (mkEntry num_hashes hash txs).
Definition next_versioned_entry (prev_hash : Hash) (num_hashes : N) (txs : list VersionedTransaction) :
  result E Entry :=
  if negb ((0 <? num_hashes) || bool_decide (txs = [])) then Panic else
  let! hash := next_hash prev_hash num_hashes txs in
  Ok (mkEntry num_hashes hash txs).
Definition next_entry_mut (start : Hash) (num_hashes : N) (txs : list VersionedTransaction) : result E (Entry * Hash) :=
  let! entry := entry_new start num_hashes txs in
  Ok (entry, entry_hash entry).
Fixpoint create_ticks (num_ticks : nat) (hashes_per_tick : N) (hash : Hash) : result E (list Entry) :=
  match num_ticks with
  | O => Ok []
  | S num_ticks =>
      let! x := next_entry_mut hash hashes_per_tick [] in
      let! rest := create_ticks num_ticks hashes_per_tick x.2 in
      Ok (x.1 :: rest)
  end.

Definition entry_verify (e : Entry) (start_hash : Hash) : result E bool :=
  let! ref_hash := next_hash start_hash (num_hashes e) (transactions e) in
  Ok (bool_decide (entry_hash e = ref_hash)).

(** [all] of an iterator *)
Fixpoint all_ok {A} (f : A → result E bool) (l : list A) : result E bool :=
  match l with
  | [] => Ok true
  | a :: l' => let! b := f a in if b : bool then all_ok f l' else Ok false
  end.

Inductive EntryVerificationStatus := Failure | Success | Pending.
Inductive VerifyAction := Mixin (hash : Hash) | TickAction | NoAction.
Inductive DeviceVerificationData :=
| Cpu
| Gpu (hashes : result E (list Hash)) (verifications : list (VerifyAction * Hash)).
Record EntryVerificationState := mkEntryVerificationState {
  verification_status : EntryVerificationStatus;
  device_verification_data : DeviceVerificationData }.
Definition status_of (res : bool) : EntryVerificationStatus := if res then Success else Failure.

Definition verify_cpu_generic (entries : list Entry) (start_hash : Hash) : result E EntryVerificationState :=
  let genesis := mkEntry 0 start_hash [] in
  let! res := all_ok (λ x, entry_verify x.2 (entry_hash x.1)) (zip (genesis :: entries) entries) in
  Ok (mkEntryVerificationState (status_of res) Cpu).

Definition compare_hashes (computed_hash : Hash) (ref_entry : Entry) : result E bool :=
  let! actual :=
    if negb (is_tick ref_entry) then
      let! tx_hash := hash_transactions (transactions ref_entry) in
      let! poh := poh_new computed_hash None in
      rmap pe_hash (unwrap (poh_record tx_hash poh).1)
    else if 0 <? num_hashes ref_entry then
      let! poh := poh_new computed_hash None in
      rmap pe_hash (unwrap (poh_tick poh).1)
    else Ok computed_hash in
  Ok (bool_decide (actual = entry_hash ref_entry)).

Fixpoint chunks {A} (fuel size : nat) (l : list A) : list (list A) :=
  match fuel, l with
  | S fuel, _ :: _ => take size l :: chunks fuel size (drop size l)
  | _, _ => []
  end.

(** the vector routine of width [simd_len]: it advances each hash of a chunk *)
Definition verify_cpu_x86_simd (simd : nat → list Hash → list N → list Hash) (entries : list Entry)
    (start_hash : Hash) (simd_len : nat) : result E EntryVerificationState :=
  let genesis := mkEntry 0 start_hash [] in
  let n := length entries in
  let aligned_len := ((n + simd_len - 1) / simd_len * simd_len)%nat in
  let hashes := take n (entry_hash <$> (genesis :: entries)) ++ replicate (aligned_len - n) (mkHash (replicate 32 0)) in
  let nums := ((λ e, saturating_sub (num_hashes e) 1) <$> entries) ++ replicate (aligned_len - n) 0 in
  let! res := all_ok (λ x,
      if negb ((simd_len =? 8)%nat || (simd_len =? 16)%nat) then Panic else
      let '(i, (chunk, num_hashes)) := x in
      let chunk := simd simd_len chunk num_hashes in
      let refs := take simd_len (drop (i * simd_len)%nat entries) in
      all_ok (λ y, let! hash := unwrap (chunk !! y.1) in compare_hashes hash y.2) (zip (seq 0 (length refs)) refs))
    (let l := zip (chunks aligned_len simd_len hashes) (chunks aligned_len simd_len nums) in
     zip (seq 0 (length l)) l) in
  Ok (mkEntryVerificationState (status_of res) Cpu).

(** what the machine offers *)
Record Machine := mkMachine {
  simd_api : option (nat → list Hash → list N → list Hash);
  has_avx2 : bool;
  has_avx512 : bool;
  gpu_api : option (list Hash → list N → option (list Hash)) }.

Definition verify_cpu (m : Machine) (entries : list Entry) (start_hash : Hash) : result E EntryVerificationState :=
  match simd_api m with
  | Some simd =>
      if has_avx512 m && (128 <=? length entries)%nat then verify_cpu_x86_simd simd entries start_hash 16
      else if has_avx2 m && (48 <=? length entries)%nat then verify_cpu_x86_simd simd entries start_hash 8
      else verify_cpu_generic entries start_hash
  | None => verify_cpu_generic entries start_hash
  end.

Fixpoint verification_actions (entries : list Entry) : result E (list (VerifyAction * Hash)) :=
  match entries with
  | [] => Ok []
  | entry :: entries' =>
      let! action :=
        if is_tick entry then Ok (if num_hashes entry =? 0 then NoAction else TickAction)
        else rmap Mixin (hash_transactions (transactions entry)) in
      let! rest := verification_actions entries' in
      Ok ((action, entry_hash entry) :: rest)
  end.
(** the thread that waits for the GPU gives its hashes, or panics *)
Definition start_verify (m : Machine) (entries : list Entry) (start_hash : Hash) : result E EntryVerificationState :=
  match gpu_api m with
  | None => verify_cpu m entries start_hash
  | Some poh_verify_many =>
      let genesis := mkEntry 0 start_hash [] in
      let hashes := take (length entries) (entry_hash <$> (genesis :: entries)) in
      let nums := (λ e, saturating_sub (num_hashes e) 1) <$> entries in
      let! verifications := verification_actions entries in
      Ok (mkEntryVerificationState Pending (Gpu (unwrap (poh_verify_many hashes nums)) verifications))
  end.
Definition finish_verify (s : EntryVerificationState) : result E (bool * EntryVerificationState) :=
  match device_verification_data s with
  | Gpu thread verifications =>
      let! hashes := thread in
      let! res := all_ok (λ x : Hash * (VerifyAction * Hash),
          let '(hash, (action, expected)) := x in
          let! actual :=
            match action with
            | Mixin mixin => let! poh := poh_new hash None in rmap pe_hash (unwrap (poh_record mixin poh).1)
            | TickAction => let! poh := poh_new hash None in rmap pe_hash (unwrap (poh_tick poh).1)
            | NoAction => Ok hash
            end in
          Ok (bool_decide (actual = expected))) (zip hashes verifications) in
      Ok (res, mkEntryVerificationState (status_of res) (device_verification_data s))
  | Cpu => Ok (match verification_status s with Success => true | _ => false end, s)
  end.
Definition entries_verify (m : Machine) (entries : list Entry) (start_hash : Hash) : result E bool :=
  let! s := start_verify m entries start_hash in
  rmap fst (finish_verify s).
End entries.

(** ** The ticks of a block *)
Fixpoint tick_hash_loop (entries : list Entry) (tick_hash_count hashes_per_tick : N) : bool * N :=
  match entries with
  | [] => (tick_hash_count <? hashes_per_tick, tick_hash_count)
  | entry :: entries' =>
      let tick_hash_count := saturating_add u64_max tick_hash_count (num_hashes entry) in
      if is_tick entry then
        if negb (tick_hash_count =? hashes_per_tick) then (false, tick_hash_count)
        else tick_hash_loop entries' 0 hashes_per_tick
      else tick_hash_loop entries' tick_hash_count hashes_per_tick
  end.
Definition verify_tick_hash_count (entries : list Entry) (tick_hash_count hashes_per_tick : N) : bool * N :=
  if hashes_per_tick =? 0 then (true, tick_hash_count) else tick_hash_loop entries tick_hash_count hashes_per_tick.
Definition tick_count (entries : list Entry) : N := len (filter (λ e, is_tick e = true) entries).

Module BlockError.
Inductive t :=
| Incomplete | InvalidEntryHash | InvalidLastTick | TooFewTicks | TooManyTicks | InvalidTickHashCount
| TrailingEntry | DuplicateBlock.
End BlockError.

(** of the bank: its ticks so far, the ticks at the end of its block, and its hashes per tick *)
Definition verify_ticks (tick_height max_tick_height : N) (bank_hashes_per_tick : option N) (entries : list Entry)
    (slot_full : bool) (tick_hash_count : N) : result BlockError.t unit * N :=
  let next_bank_tick_height := wrapping_add tick_height (tick_count entries) in
  if max_tick_height <? next_bank_tick_height then (Err BlockError.TooManyTicks, tick_hash_count) else
  if (next_bank_tick_height <? max_tick_height) && slot_full then (Err BlockError.TooFewTicks, tick_hash_count) else
  let has_trailing_entry := match list.last entries with Some e => negb (is_tick e) | None => false end in
  if (next_bank_tick_height =? max_tick_height) && has_trailing_entry then (Err BlockError.TrailingEntry, tick_hash_count) else
  if (next_bank_tick_height =? max_tick_height) && negb slot_full then (Err BlockError.InvalidLastTick, tick_hash_count) else
  let x := verify_tick_hash_count entries tick_hash_count (default 0 bank_hashes_per_tick) in
  if negb x.1 then (Err BlockError.InvalidTickHashCount, x.2) else (Ok tt, x.2).
