(* ===== verification/EntryRules.v ===== *)
(** * What the verification of entries checks

    The hash chain as a reference definition, and that every way to verify entries decides
    exactly that chain. *)

From S2P Require Import Prelude Sdk Rent Message WireFormat MerkleTree Entry.

Section chain.
Context `{Sha256} {E : Type}.

(** the hash of transactions, which is always there *)
Definition mixin_of (txs : list VersionedTransaction) : Hash :=
  default (mkHash (replicate 32 0)) (root_of (hash_leaf <$> concat (vt_signatures <$> txs))).
Lemma hash_transactions_ok txs : hash_transactions (E:=E) txs = Ok (mixin_of txs).
Proof.
  unfold hash_transactions. rewrite merkle_tree_new_spec. cbn [rbind get_root nodes]. unfold mixin_of, root_of.
  by rewrite length_fmap.
Qed.

(** the last hash of an entry, and the hash it must have after another *)
Definition last_hash (e : Entry) (h : Hash) : Hash :=
  if is_tick e then (if num_hashes e =? 0 then h else hash_once h)
  else hashv [hash_bytes h; hash_bytes (mixin_of (transactions e))].
Definition chained (h : Hash) (e : Entry) : Hash := last_hash e (N.iter (num_hashes e - 1) hash_once h).
Fixpoint chain_ok (h : Hash) (entries : list Entry) : bool :=
  match entries with
  | [] => true
  | e :: entries' => bool_decide (entry_hash e = chained h e) && chain_ok (entry_hash e) entries'
  end.
(** the count of an entry fits the counter of the hash chain *)
Definition countable (e : Entry) : Prop :=
  num_hashes e < u64_max ∨ is_tick e = true ∧ num_hashes e = u64_max.

Lemma poh_new_low h : poh_new (E:=E) h None = Ok (mkPoh h 0 u64_max u64_max 0).
Proof. done. Qed.
Lemma poh_hash_low h n : n < u64_max →
  poh_hash (E:=E) n (mkPoh h 0 u64_max u64_max 0) =
  Ok (u64_max - n =? 1, mkPoh (N.iter n hash_once h) n u64_max (u64_max - n) 0).
Proof.
  intros Hn. unfold poh_hash. cbn [remaining_hashes poh_hash_ poh_num_hashes hashes_per_tick tick_number].
  rewrite (wrapping_sub_le u64_max 1) by (unfold u64_max; lia). rewrite N.min_r by (unfold u64_max in *; lia).
  rewrite wrapping_sub_le by lia. rewrite (proj2 (N.ltb_lt 0 (u64_max - n))) by lia. cbn [negb].
  unfold wrapping_add, as_u64. rewrite N.add_0_l, N.mod_small by (unfold u64_max in *; lia). done.
Qed.
Lemma next_hash_ok h e : countable e →
  next_hash (E:=E) h (num_hashes e) (transactions e) = Ok (chained h e).
Proof.
  intros Hc. unfold next_hash, chained, last_hash, is_tick. set (n := num_hashes e) in *.
  assert (n - 1 < u64_max) as Hn by (unfold countable in Hc; fold n in Hc; unfold u64_max in *; lia).
  case_bool_decide as Ht; rewrite ?andb_true_r, ?andb_false_r.
  - destruct (N.eqb_spec n 0) as [->|Hz]; [done|]. rewrite poh_new_low. cbn [rbind]. unfold saturating_sub.
    rewrite poh_hash_low by done. done.
  - rewrite poh_new_low. cbn [rbind]. unfold saturating_sub. rewrite poh_hash_low by done. cbn [rbind snd].
    rewrite hash_transactions_ok. cbn [rbind]. unfold poh_record. cbn [remaining_hashes poh_hash_].
    destruct (N.eqb_spec (u64_max - (n - 1)) 1) as [He|]; [|done].
    destruct Hc as [Hlt|[Htick _]]; [fold n in Hlt; unfold u64_max in *; lia|]. unfold is_tick in Htick. by apply bool_decide_eq_true in Htick.
Qed.

(** an iteration of checks that do not fail *)
Lemma all_ok_pure {A} (f : A → result E bool) (p : A → bool) l :
  (∀ a, a ∈ l → f a = Ok (p a)) → all_ok f l = Ok (forallb p l).
Proof.
  induction l as [|a l IH]; intros Hf; [done|]. simpl. rewrite Hf by (by left). cbn [rbind].
  destruct (p a); [|done]. apply IH. intros b Hb. apply Hf. by right.
Qed.

Lemma generic_ok entries : Forall countable entries → ∀ start,
  verify_cpu_generic (E:=E) entries start = Ok (mkEntryVerificationState (status_of (chain_ok start entries)) Cpu).
Proof.
  intros Hc start. unfold verify_cpu_generic.
  rewrite (all_ok_pure _ (λ x, bool_decide (entry_hash x.2 = chained (entry_hash x.1) x.2))).
  2:{ intros [x e] Hin%elem_of_zip_r. unfold entry_verify. cbn [fst snd].
      rewrite next_hash_ok by (rewrite list.Forall_forall in Hc; by apply Hc). done. }
  cbn [rbind]. do 3 f_equal. change start with (entry_hash (mkEntry 0 start [])) at 2. generalize (mkEntry 0 start []). clear Hc.
  induction entries as [|e entries IH]; intros g; [done|]. simpl. f_equal. apply IH.
Qed.

Lemma compare_ok h e :
  compare_hashes (E:=E) h e = Ok (bool_decide (entry_hash e = last_hash e h)).
Proof.
  unfold compare_hashes, last_hash. rewrite hash_transactions_ok. cbn [rbind]. rewrite poh_new_low. cbn [rbind].
  destruct (is_tick e); cbn [negb].
  - destruct (N.eqb_spec (num_hashes e) 0) as [->|Hz]; cbn [N.ltb].
    + change (0 <? 0) with false. cbn [rbind]. f_equal. by apply bool_decide_ext.
    + rewrite (proj2 (N.ltb_lt _ _)) by lia. cbn. f_equal. by apply bool_decide_ext.
  - cbn. f_equal. by apply bool_decide_ext.
Qed.

(** the chain, entry by entry: the hash before, the hashes to make, and the entry *)
Definition step_ok (x : (Hash * N) * Entry) : bool :=
  bool_decide (entry_hash x.2 = last_hash x.2 (N.iter x.1.2 hash_once x.1.1)).
Definition hash_counts (entries : list Entry) : list N := (λ e, saturating_sub (num_hashes e) 1) <$> entries.
Lemma chain_ok_steps entries : ∀ start,
  chain_ok start entries =
  forallb step_ok (zip (zip (take (length entries) (start :: (entry_hash <$> entries))) (hash_counts entries)) entries).
Proof.
  induction entries as [|e entries IH]; intros start; [done|]. cbn. f_equal. apply IH.
Qed.

(** the routine of the vector library on chunks of its width *)
Definition simd_spec (simd : nat → list Hash → list N → list Hash) : Prop :=
  ∀ width chunk nums, (width = 8 ∨ width = 16)%nat → length chunk = width → length nums = width →
    simd width chunk nums = zip_with (λ h n, N.iter n hash_once h) chunk nums.
Definition gpu_spec (gpu : list Hash → list N → option (list Hash)) : Prop :=
  ∀ hashes nums, length hashes = length nums →
    gpu hashes nums = Some (zip_with (λ h n, N.iter n hash_once h) hashes nums).

Lemma all_ok_index (f : Hash → Entry → result E bool) (p : Hash → Entry → bool) (c : list Hash) :
  (∀ h e, f h e = Ok (p h e)) → ∀ refs j,
  (j + length refs ≤ length c)%nat →
  all_ok (λ y, let! h := unwrap (c !! y.1) in f h y.2) (zip (seq j (length refs)) refs) =
  Ok (forallb (λ x, p x.1 x.2) (zip (drop j c) refs)).
Proof.
  intros Hf refs. induction refs as [|e refs IH]; intros j Hj; simpl in *; [by destruct (drop j c)|].
  destruct (lookup_lt_is_Some_2 c j) as [h Hh]; [lia|]. rewrite Hh. cbn [unwrap rbind]. rewrite Hf. cbn [rbind].
  rewrite (drop_S c h j) by done. simpl. destruct (p h e); [|done]. apply IH. lia.
Qed.

Lemma simd_chunk_ok simd width hs ns refs :
  simd_spec simd → (width = 8 ∨ width = 16)%nat → length hs = width → length ns = width → (length refs ≤ width)%nat →
  all_ok (λ y, let! hash := unwrap (simd width hs ns !! y.1) in compare_hashes (E:=E) hash y.2)
    (zip (seq 0 (length refs)) refs) = Ok (forallb step_ok (zip (zip hs ns) refs)).
Proof.
  intros Hs Hw Hh Hn Hr. rewrite (Hs width hs ns Hw Hh Hn).
  rewrite (all_ok_index compare_hashes (λ h e, bool_decide (entry_hash e = last_hash e h)) _ compare_ok).
  2:{ rewrite length_zip_with_l by lia. lia. }
  f_equal. rewrite drop_0. clear Hs Hw Hh Hn Hr. revert hs ns. induction refs as [|e refs IH]; intros hs ns.
  - by destruct (zip_with _ hs ns), (zip hs ns).
  - destruct hs as [|h hs], ns as [|n ns]; [done..|]. simpl. f_equal. apply IH.
Qed.

Lemma chunks_cons {A} fuel width (l : list A) :
  l ≠ [] → chunks (S fuel) width l = take width l :: chunks fuel width (drop width l).
Proof. by destruct l. Qed.
Lemma zip_split {A B} (p : A * B → bool) w : ∀ (a : list A) (b : list B),
  forallb p (zip a b) = forallb p (zip (take w a) (take w b)) && forallb p (zip (drop w a) (drop w b)).
Proof.
  induction w as [|w IH]; intros a b; [by destruct a, b|]. destruct a as [|x a], b as [|y b]; [done..| |].
  - by destruct (take _ _), (drop _ _).
  - simpl. rewrite (IH a b). by rewrite andb_assoc.
Qed.
Lemma zip_take {A B} w : ∀ (a : list A) (b : list B), take w (zip a b) = zip (take w a) (take w b).
Proof. induction w as [|w IH]; intros [|x a] [|y b]; try done; simpl; f_equal; apply IH. Qed.
Lemma zip_drop {A B} w : ∀ (a : list A) (b : list B), drop w (zip a b) = zip (drop w a) (drop w b).
Proof.
  induction w as [|w IH]; intros [|x a] [|y b]; try done; simpl; try apply IH; by destruct (drop w _).
Qed.

Lemma zip_cons {A B} (a : A) (b : B) l l' : zip (a :: l) (b :: l') = (a, b) :: zip l l'.
Proof. done. Qed.
(** checks chunk by chunk are checks entry by entry *)
Lemma chunked_ok (F : nat * (list Hash * list N) → result E bool) width entries : (0 < width)%nat →
  (∀ i hs ns, length hs = width → length ns = width →
     F (i, (hs, ns)) = Ok (forallb step_ok (zip (zip hs ns) (take width (drop (i * width) entries))))) →
  ∀ k fuel i hs ns, length hs = (k * width)%nat → length ns = (k * width)%nat → (k ≤ fuel)%nat →
  (length (drop (i * width) entries) ≤ length hs)%nat →
  let l := zip (chunks fuel width hs) (chunks fuel width ns) in
  all_ok F (zip (seq i (length l)) l) = Ok (forallb step_ok (zip (zip hs ns) (drop (i * width) entries))).
Proof.
  intros Hpos HF k. induction k as [|k IH]; intros fuel i hs ns Hh Hn Hf Hd.
  { destruct hs, ns; simpl in *; [|lia..]. by destruct fuel. }
  destruct fuel as [|fuel]; [lia|]. cbv zeta. rewrite !chunks_cons by (intros ->; simpl in *; lia).
  rewrite zip_cons. cbn [length seq]. rewrite zip_cons. cbn [all_ok]. rewrite HF; [|rewrite length_take; lia..].
  cbn [rbind]. specialize (IH fuel (S i) (drop width hs) (drop width ns)). rewrite !length_drop in IH.
  rewrite length_drop in Hd. cbv zeta in IH. rewrite IH by lia.
  rewrite (zip_split step_ok width (zip hs ns)), zip_take, zip_drop, drop_drop.
  replace (S i * width)%nat with (i * width + width)%nat by lia.
  by destruct (forallb step_ok (zip (zip (take _ _) _) _)).
Qed.
Lemma take_hashes (start : Hash) entries : length (take (length entries) (start :: (entry_hash <$> entries))) = length entries.
Proof. rewrite length_take. simpl. rewrite length_fmap. lia. Qed.
Lemma zip_padding {A B} (a pad : list A) (b : list B) :
  length a = length b → zip (a ++ pad) b = zip a b.
Proof. revert b. induction a as [|x a IH]; intros [|y b] Hl; simpl in *; try done; [by destruct pad|]. f_equal. apply IH. lia. Qed.

Lemma simd_ok simd width entries start : simd_spec simd → (width = 8 ∨ width = 16)%nat →
  verify_cpu_x86_simd (E:=E) simd entries start width =
  Ok (mkEntryVerificationState (status_of (chain_ok start entries)) Cpu).
Proof.
  intros Hs Hw. unfold verify_cpu_x86_simd. cbv zeta. set (n := length entries).
  set (k := ((n + width - 1) / width)%nat). rewrite fmap_cons. cbn [entry_hash].
  set (hs := _ ++ replicate _ _). set (ns := _ ++ replicate _ 0).
  assert (n ≤ k * width)%nat as Hk.
  { unfold k. pose proof (Nat.div_mod_eq (n + width - 1) width). pose proof (Nat.mod_upper_bound (n + width - 1) width). nia. }
  assert (length (take n (start :: (entry_hash <$> entries))) = n) as Hn by apply take_hashes.
  assert (length hs = k * width)%nat as Hlh by (unfold hs; rewrite length_app, length_replicate, Hn; lia).
  assert (length ns = k * width)%nat as Hln.
  { unfold ns. rewrite length_app, length_replicate, length_fmap. fold n. lia. }
  rewrite (chunked_ok _ width entries) with (k := k); [|lia| |done..|nia|].
  - cbn [rbind]. change (0 * width)%nat with 0%nat. rewrite drop_0, chain_ok_steps. fold n. do 4 f_equal. unfold hs, ns.
    rewrite zip_with_app by (rewrite Hn, length_fmap; done).
    rewrite zip_padding; [done|]. rewrite length_zip_with_l; rewrite Hn; [done|by rewrite length_fmap].
  - intros i hs' ns' Hh' Hn'. destruct Hw as [Hw|Hw]; rewrite Hw in *; cbn [Nat.eqb orb negb].
    all: rewrite simd_chunk_ok; auto; rewrite length_take; lia.
  - rewrite length_drop. fold n. lia.
Qed.

(** *** On a GPU *)
Definition action_of (e : Entry) : VerifyAction :=
  if is_tick e then (if num_hashes e =? 0 then NoAction else TickAction) else Mixin (mixin_of (transactions e)).
Lemma verification_actions_ok entries :
  verification_actions (E:=E) entries = Ok ((λ e, (action_of e, entry_hash e)) <$> entries).
Proof.
  induction entries as [|e entries IH]; [done|]. cbn [verification_actions]. rewrite IH, fmap_cons.
  rewrite hash_transactions_ok. unfold action_of at 2. by destruct (is_tick e).
Qed.
Lemma finish_gpu_ok status hashes entries :
  (length entries ≤ length hashes)%nat →
  rmap fst (finish_verify (E:=E) (mkEntryVerificationState status
    (Gpu (Ok hashes) ((λ e, (action_of e, entry_hash e)) <$> entries)))) =
  Ok (forallb (λ x, bool_decide (entry_hash x.2 = last_hash x.2 x.1)) (zip hashes entries)).
Proof.
  intros Hl. unfold finish_verify. cbn [device_verification_data rbind].
  set (p := λ x : Hash * (VerifyAction * Hash), bool_decide (x.2.2 =
    match x.2.1 with Mixin m => hashv [hash_bytes x.1; hash_bytes m] | TickAction => hash_once x.1 | NoAction => x.1 end)).
  rewrite (all_ok_pure _ p).
  2:{ intros [h [a e]] _. unfold p. destruct a; simpl; f_equal; by apply bool_decide_ext. }
  cbn [rbind rmap fst]. f_equal. revert hashes Hl. induction entries as [|e entries IH]; intros hashes Hl.
  - by destruct hashes.
  - destruct hashes as [|h hashes]; simpl in Hl; [lia|]. rewrite fmap_cons, !zip_cons. cbn [forallb].
    rewrite IH by lia. f_equal. unfold p, action_of, last_hash. cbn [fst snd].
    by destruct (is_tick e), (num_hashes e =? 0).
Qed.
Lemma zip_iter {A} (g : Hash → N → Hash) (p : Hash * A → bool) hs : ∀ ns (l : list A),
  forallb p (zip (zip_with g hs ns) l) = forallb (λ x, p (g x.1.1 x.1.2, x.2)) (zip (zip hs ns) l).
Proof.
  induction hs as [|h hs IH]; intros [|n ns] [|a l]; try done. cbn. f_equal. apply IH.
Qed.

Record machine_ok (m : Machine) : Prop := {
  mo_simd : ∀ simd, simd_api m = Some simd → simd_spec simd;
  mo_gpu : ∀ gpu, gpu_api m = Some gpu → gpu_spec gpu }.

Lemma verify_cpu_ok m entries start : machine_ok m → Forall countable entries →
  verify_cpu (E:=E) m entries start = Ok (mkEntryVerificationState (status_of (chain_ok start entries)) Cpu).
Proof.
  intros [Hs _] Hc. unfold verify_cpu. destruct (simd_api m) as [simd|]; [|by apply generic_ok].
  repeat case_match; [apply simd_ok; auto..|by apply generic_ok].
Qed.
Lemma entries_verify_ok m entries start : machine_ok m → Forall countable entries →
  entries_verify (E:=E) m entries start = Ok (chain_ok start entries).
Proof.
  intros Hm Hc. unfold entries_verify, start_verify. destruct (gpu_api m) as [gpu|] eqn:Hg.
  - rewrite verification_actions_ok. cbn [rbind]. rewrite fmap_cons. cbn [entry_hash].
    change (_ <$> entries) with (hash_counts entries) at 2.
    assert (length (hash_counts entries) = length entries) as Hl by apply length_fmap.
    rewrite (mo_gpu m Hm gpu Hg); [|by rewrite take_hashes, Hl]. cbn [unwrap].
    rewrite finish_gpu_ok; [|rewrite length_zip_with_l; rewrite take_hashes; lia].
    by rewrite chain_ok_steps, zip_iter.
  - rewrite verify_cpu_ok by done. cbn. by destruct (chain_ok start entries).
Qed.

(** C20: every way to verify entries decides the hash chain.  On one core, in chunks of eight or
    sixteen by vector instructions, and on a GPU, with libraries that advance each hash by its
    count, verification gives the same answer and does not panic: whether the hash of each
    entry is what its count of hashes and its transactions make of the hash before it. *)
Theorem entry_verifiers_agree m entries start width simd :
  machine_ok m → Forall countable entries → simd_spec simd → (width = 8 ∨ width = 16)%nat →
  entries_verify (E:=E) m entries start = Ok (chain_ok start entries) ∧
  rmap verification_status (verify_cpu_generic (E:=E) entries start) = Ok (status_of (chain_ok start entries)) ∧
  verify_cpu_x86_simd (E:=E) simd entries start width = verify_cpu_generic entries start.
Proof.
  intros Hm Hc Hs Hw. split_and!; [by apply entries_verify_ok|by rewrite generic_ok|].
  by rewrite simd_ok, generic_ok.
Qed.
End chain.
