(* ===== verification/PohRecorder.v ===== *)
(** * The recorder of a leader ([poh/src/poh_recorder.rs])

    The hash chain, the cache of ticks, the bank under construction and the channel of entries to
    the ledger; with the status that [leader_bank_notifier.rs] keeps.  The leader
    schedule is a parameter; metrics, times and the signal that a bank was cleared are left
    out, and of a bank only what the recorder reads is kept. *)

From S2P Require Import Prelude Sdk Message WireFormat MerkleTree Entry.

Definition GRACE_TICKS_FACTOR : N := 2.
Definition MAX_GRACE_SLOTS : N := 2.
Definition NUM_CONSECUTIVE_LEADER_SLOTS : N := 4.
Inductive PohRecorderError := MaxHeightReached | MinHeightNotReached | SendError.

Record LeaderBank := mkLeaderBank {
  lb_slot : N;
  lb_ticks_per_slot : N;
  lb_max_tick_height : N;
  lb_hashes_per_tick : option N;
  lb_last_blockhash : Hash;
  lb_tick_height : N;
  lb_frozen : bool }.
(** [Bank::register_tick]: the last tick of a block gives the block hash *)
Definition register_tick {E} (hash : Hash) (b : LeaderBank) : result E LeaderBank :=
  if lb_frozen b then Panic else
  let next := wrapping_add (lb_tick_height b) 1 in
  let blockhash := if next =? lb_max_tick_height b then hash else lb_last_blockhash b in
  Ok (mkLeaderBank (lb_slot b) (lb_ticks_per_slot b) (lb_max_tick_height b) (lb_hashes_per_tick b) blockhash next
        (lb_frozen b)).

Record WorkingBank := mkWorkingBank {
  wb_bank : LeaderBank;
  min_tick_height : N;
  max_tick_height : N;
  transaction_index : option N }.

(** the status of the leader bank *)
Inductive Status := StandBy | InProgress.
Record LeaderBankNotifier := mkNotifier { ln_status : Status; ln_slot : option N }.
Definition set_in_progress {E} (slot : N) (n : LeaderBankNotifier) : result E LeaderBankNotifier :=
  match ln_status n with StandBy => Ok (mkNotifier InProgress (Some slot)) | InProgress => Panic end.
Definition set_completed {E} (slot : N) (n : LeaderBankNotifier) : result E LeaderBankNotifier :=
  match ln_status n with
  | InProgress => if bool_decide (ln_slot n = Some slot) then Ok (mkNotifier StandBy (ln_slot n)) else Panic
  | StandBy => Panic
  end.

Record PohRecorder := mkPohRecorder {
  poh : Poh;
  tick_height : N;
  start_bank : LeaderBank;
  start_tick_height : N;
  tick_cache : list (Entry * N);
  working_bank : option WorkingBank;
  sent : list (N * (Entry * N));
  connected : bool;
  leader_first_tick_height_including_grace_ticks : option N;
  leader_last_tick_height : N;
  grace_ticks : N;
  recorder_id : Pubkey;
  ticks_per_slot : N;
  notifier : LeaderBankNotifier }.

Definition set_poh (x : Poh) (r : PohRecorder) : PohRecorder :=
  mkPohRecorder x (tick_height r) (start_bank r) (start_tick_height r) (tick_cache r) (working_bank r) (sent r)
    (connected r) (leader_first_tick_height_including_grace_ticks r) (leader_last_tick_height r) (grace_ticks r)
    (recorder_id r) (ticks_per_slot r) (notifier r).
Definition set_tick_height (x : N) (r : PohRecorder) : PohRecorder :=
  mkPohRecorder (poh r) x (start_bank r) (start_tick_height r) (tick_cache r) (working_bank r) (sent r)
    (connected r) (leader_first_tick_height_including_grace_ticks r) (leader_last_tick_height r) (grace_ticks r)
    (recorder_id r) (ticks_per_slot r) (notifier r).
Definition set_start (b : LeaderBank) (x : N) (r : PohRecorder) : PohRecorder :=
  mkPohRecorder (poh r) (tick_height r) b x (tick_cache r) (working_bank r) (sent r)
    (connected r) (leader_first_tick_height_including_grace_ticks r) (leader_last_tick_height r) (grace_ticks r)
    (recorder_id r) (ticks_per_slot r) (notifier r).
Definition set_tick_cache (x : list (Entry * N)) (r : PohRecorder) : PohRecorder :=
  mkPohRecorder (poh r) (tick_height r) (start_bank r) (start_tick_height r) x (working_bank r) (sent r)
    (connected r) (leader_first_tick_height_including_grace_ticks r) (leader_last_tick_height r) (grace_ticks r)
    (recorder_id r) (ticks_per_slot r) (notifier r).
Definition set_working (x : option WorkingBank) (n : LeaderBankNotifier) (r : PohRecorder) : PohRecorder :=
  mkPohRecorder (poh r) (tick_height r) (start_bank r) (start_tick_height r) (tick_cache r) x (sent r)
    (connected r) (leader_first_tick_height_including_grace_ticks r) (leader_last_tick_height r) (grace_ticks r)
    (recorder_id r) (ticks_per_slot r) n.
Definition set_sent (x : list (N * (Entry * N))) (r : PohRecorder) : PohRecorder :=
  mkPohRecorder (poh r) (tick_height r) (start_bank r) (start_tick_height r) (tick_cache r) (working_bank r) x
    (connected r) (leader_first_tick_height_including_grace_ticks r) (leader_last_tick_height r) (grace_ticks r)
    (recorder_id r) (ticks_per_slot r) (notifier r).
Definition set_leader_ticks (x : option N * N * N) (r : PohRecorder) : PohRecorder :=
  mkPohRecorder (poh r) (tick_height r) (start_bank r) (start_tick_height r) (tick_cache r) (working_bank r) (sent r)
    (connected r) x.1.1 x.1.2 x.2 (recorder_id r) (ticks_per_slot r) (notifier r).

(** ** When the node leads *)
Definition compute_leader_slot_tick_heights (next_leader_slot : option (N * N)) (ticks_per_slot : N) :
  option N * N * N :=
  match next_leader_slot with
  | Some (first_slot, last_slot) =>
      let leader_first_tick_height := wrapping_add (wrapping_mul first_slot ticks_per_slot) 1 in
      let last_tick_height := wrapping_mul (wrapping_add last_slot 1) ticks_per_slot in
      let num_slots := wrapping_add (wrapping_sub last_slot first_slot) 1 in
      let grace_ticks := N.min (wrapping_mul ticks_per_slot MAX_GRACE_SLOTS)
                               (wrapping_mul ticks_per_slot num_slots `div` GRACE_TICKS_FACTOR) in
      (Some (wrapping_add leader_first_tick_height grace_ticks), last_tick_height, grace_ticks)
  | None =>
      (None, 0, N.min (wrapping_mul ticks_per_slot MAX_GRACE_SLOTS)
                      (wrapping_mul ticks_per_slot NUM_CONSECUTIVE_LEADER_SLOTS `div` GRACE_TICKS_FACTOR))
  end.
Definition has_bank (r : PohRecorder) : bool := match working_bank r with Some _ => true | None => false end.
Definition would_be_leader (within_next_n_ticks : N) (r : PohRecorder) : bool :=
  has_bank r ||
  match leader_first_tick_height_including_grace_ticks r with
  | Some first =>
      let ideal_leader_tick_height := saturating_sub first (grace_ticks r) in
      (ideal_leader_tick_height <=? wrapping_add (tick_height r) within_next_n_ticks) &&
      (tick_height r <=? leader_last_tick_height r)
  | None => false
  end.
Definition slot_for_tick_height {E} (h : N) (r : PohRecorder) : result E N :=
  if ticks_per_slot r =? 0 then Panic else Ok (saturating_sub h 1 `div` ticks_per_slot r).
Definition start_slot (r : PohRecorder) : N := lb_slot (start_bank r).

Section schedule.
Context (slot_leader_at : N → option Pubkey).
Definition leader_after_n_slots {E} (slots : N) (r : PohRecorder) : result E (option Pubkey) :=
  let! current_slot := slot_for_tick_height (tick_height r) r in
  Ok (slot_leader_at (wrapping_add current_slot slots)).
Definition leader_and_slot_after_n_slots {E} (slots_in_the_future : N) (r : PohRecorder) :
  result E (option (Pubkey * N)) :=
  let! current_slot := slot_for_tick_height (tick_height r) r in
  Ok (target_slot ← checked_add u64_max current_slot slots_in_the_future;
      leader ← slot_leader_at target_slot;
      Some (leader, target_slot)).
Definition is_same_fork_as_previous_leader (slot : N) (r : PohRecorder) : bool :=
  (saturating_sub slot NUM_CONSECUTIVE_LEADER_SLOTS <=? start_slot r) && (start_slot r <? slot).
Definition prev_slot_was_mine (current_slot : N) (r : PohRecorder) : bool :=
  match slot_leader_at (saturating_sub current_slot 1) with
  | Some leader_id => key_eqb leader_id (recorder_id r)
  | None => false
  end.
Definition reached_leader_tick {E} (first : N) (r : PohRecorder) : result E bool :=
  let target_tick_height := saturating_sub first 1 in
  let ideal_target_tick_height := saturating_sub target_tick_height (grace_ticks r) in
  let! next_slot := slot_for_tick_height (saturating_add u64_max (tick_height r) 1) r in
  Ok ((target_tick_height <=? tick_height r) ||
      (wrapping_add (start_tick_height r) (grace_ticks r) =? first) ||
      ((ideal_target_tick_height <=? tick_height r) &&
       (prev_slot_was_mine next_slot r || negb (is_same_fork_as_previous_leader next_slot r)))).
Inductive PohLeaderStatus := NotReached | Reached (poh_slot parent_slot : N).
Definition reached_leader_slot {E} (r : PohRecorder) : result E PohLeaderStatus :=
  let next_tick_height := wrapping_add (tick_height r) 1 in
  let! next_poh_slot := slot_for_tick_height next_tick_height r in
  match leader_first_tick_height_including_grace_ticks r with
  | Some first =>
      let! reached := reached_leader_tick first r in
      if reached : bool then
        if negb (start_tick_height r <=? next_tick_height) then Panic else Ok (Reached next_poh_slot (start_slot r))
      else Ok NotReached
  | None => Ok NotReached
  end.
End schedule.

(** ** Recording *)
Section recorder.
Context `{Sha256}.
(** the next slots this node leads after a slot, with the schedule of its bank *)
Context (next_leader_slot : N → option (N * N)).
Abbreviation PR := (M PohRecorder PohRecorderError).

Definition clear_bank : PR unit :=
  w <- gets working_bank ;;
  match w with
  | Some w =>
      n <- gets notifier ;;
      n <- lift (set_completed (lb_slot (wb_bank w)) n) ;;
      modify (set_working None n) ;;
      tps <- gets ticks_per_slot ;;
      if negb (tps =? lb_ticks_per_slot (wb_bank w)) then lift Panic else
      modify (set_leader_ticks (compute_leader_slot_tick_heights (next_leader_slot (lb_slot (wb_bank w))) tps))
  | None => ret tt
  end.

Definition reset_poh (reset_bank : LeaderBank) (reset_start_bank : bool) : PR unit :=
  p <- gets poh ;;
  p <- lift (poh_reset (lb_last_blockhash reset_bank) (lb_hashes_per_tick reset_bank) p) ;;
  modify (set_poh p) ;;
  modify (set_tick_cache []) ;;
  modify (λ r, set_start (if reset_start_bank then reset_bank else start_bank r) (start_tick_height r) r) ;;
  modify (λ r, set_tick_height (wrapping_mul (wrapping_add (start_slot r) 1) (ticks_per_slot r)) r) ;;
  modify (λ r, set_start (start_bank r) (wrapping_add (tick_height r) 1) r).

Definition recorder_reset (reset_bank : LeaderBank) (next : option (N * N)) : PR unit :=
  clear_bank ;;
  reset_poh reset_bank true ;;
  modify (λ r, set_leader_ticks (compute_leader_slot_tick_heights next (ticks_per_slot r)) r).

(** the ticks of the cache up to the end of the block, to the bank and to the ledger *)
Fixpoint send_ticks (ticks : list (Entry * N)) : PR bool :=
  match ticks with
  | [] => ret true
  | tick :: ticks' =>
      w <- gets working_bank ;;
      w <- lift (unwrap w) ;;
      b <- lift (register_tick (entry_hash tick.1) (wb_bank w)) ;;
      modify (λ r, set_working (Some (mkWorkingBank b (min_tick_height w) (max_tick_height w) (transaction_index w)))
                     (notifier r) r) ;;
      ok <- gets connected ;;
      if negb ok then ret false else
      modify (λ r, set_sent (sent r ++ [(lb_slot b, tick)]) r) ;;
      send_ticks ticks'
  end.
Fixpoint take_while {A} (p : A → bool) (l : list A) : list A :=
  match l with
  | [] => []
  | x :: l' => if p x then x :: take_while p l' else []
  end.
Definition flush_cache (tick : bool) : PR unit :=
  w <- gets working_bank ;;
  w <- lift (ok_or w MaxHeightReached) ;;
  h <- gets tick_height ;;
  if h <? min_tick_height w then throw MinHeightNotReached else
  if tick && (h =? min_tick_height w) then throw MinHeightNotReached else
  cache <- gets tick_cache ;;
  let flushed := take_while (λ x : Entry * N, x.2 <=? max_tick_height w) cache in
  send_ok <- send_ticks flushed ;;
  (if max_tick_height w <=? h then
     w <- gets working_bank ;;
     w <- lift (unwrap w) ;;
     modify (λ r, set_start (wb_bank w) (wrapping_add (wrapping_mul (lb_slot (wb_bank w)) (ticks_per_slot r)) 1) r) ;;
     clear_bank
   else ret tt) ;;
  if negb send_ok then clear_bank
  else modify (λ r, set_tick_cache (drop (length flushed) (tick_cache r)) r).

Definition tick : PR unit :=
  p <- gets poh ;;
  modify (set_poh (poh_tick p).2) ;;
  match (poh_tick p).1 with
  | Some poh_entry =>
      modify (λ r, set_tick_height (wrapping_add (tick_height r) 1) r) ;;
      first <- gets leader_first_tick_height_including_grace_ticks ;;
      match first with
      | None => ret tt
      | Some _ =>
          modify (λ r, set_tick_cache
            (tick_cache r ++ [(mkEntry (pe_num_hashes poh_entry) (pe_hash poh_entry) [], tick_height r)]) r) ;;
          observe (flush_cache true) ;;
          ret tt
      end
  | None => ret tt
  end.

(** [loop]: after a tick the chain can record, so it goes round at most twice *)
Fixpoint record_loop (fuel : nat) (bank_slot : N) (mixin : Hash) (txs : list VersionedTransaction) : PR (option N) :=
  match fuel with
  | O => lift Panic
  | S fuel =>
      flush_cache false ;;
      w <- gets working_bank ;;
      w <- lift (ok_or w MaxHeightReached) ;;
      if negb (bank_slot =? lb_slot (wb_bank w)) then throw MaxHeightReached else
      p <- gets poh ;;
      modify (set_poh (poh_record mixin p).2) ;;
      match (poh_record mixin p).1 with
      | Some poh_entry =>
          ok <- gets connected ;;
          if negb ok then throw SendError else
          modify (λ r, set_sent (sent r ++ [(lb_slot (wb_bank w),
            (mkEntry (pe_num_hashes poh_entry) (pe_hash poh_entry) txs, tick_height r))]) r) ;;
          match transaction_index w with
          | Some i =>
              modify (λ r, set_working (Some (mkWorkingBank (wb_bank w) (min_tick_height w) (max_tick_height w)
                (Some (saturating_add u64_max i (len txs))))) (notifier r) r) ;;
              ret (Some i)
          | None => ret None
          end
      | None => tick ;; record_loop fuel bank_slot mixin txs
      end
  end.
Definition record (bank_slot : N) (mixin : Hash) (txs : list VersionedTransaction) : PR (option N) :=
  if bool_decide (txs = []) then lift Panic else record_loop 3 bank_slot mixin txs.

(** [TransactionRecorder::record_transactions]: the hash of the transactions to the recorder, by a
    channel that the service of the recorder serves *)
Definition record_transactions (bank_slot : N) (txs : list VersionedTransaction) : PR (option N) :=
  if bool_decide (txs = []) then ret None else
  mixin <- lift (hash_transactions txs) ;;
  res <- observe (record bank_slot mixin txs) ;;
  match res with
  | Ok starting_index => ret starting_index
  | Err MinHeightNotReached | Panic => lift Panic
  | Err e => throw e
  end.

Definition set_bank (bank : LeaderBank) (track_transaction_indexes : bool) : PR unit :=
  w <- gets working_bank ;;
  match w with
  | Some _ => lift Panic
  | None =>
      n <- gets notifier ;;
      n <- lift (set_in_progress (lb_slot bank) n) ;;
      modify (λ r, set_working None n r) ;;
      let w := mkWorkingBank bank (lb_tick_height bank) (lb_max_tick_height bank)
                 (if track_transaction_indexes then Some 0 else None) in
      tps <- gets ticks_per_slot ;;
      if negb (lb_ticks_per_slot bank =? tps) then lift Panic else
      p <- gets poh ;;
      (match lb_hashes_per_tick bank with
       | Some hpt => if negb (hashes_per_tick p =? hpt) then reset_poh bank false else ret tt
       | None => ret tt
       end) ;;
      modify (λ r, set_working (Some w) (notifier r) r) ;;
      observe (flush_cache false) ;;
      ret tt
  end.

(** the other thread that advances the chain between the calls ([PohService]) *)
Definition hash_some (max_num_hashes : N) : PR bool :=
  p <- gets poh ;;
  x <- lift (poh_hash max_num_hashes p) ;;
  modify (set_poh x.2) ;;
  ret x.1.
End recorder.
