(* ===== verification/PohRecorderRules.v ===== *)
(** * The block of a leader is accepted

    The entries that the recorder of a leader sends for its bank, whatever happens around
    them, are a block that every other node accepts. *)

From S2P Require Import Prelude Sdk Rent Message Codec WireFormat MerkleTree Entry EntryRules PohRecorder.

(** ** The hash chain between two entries *)
Section chain_state.
Context `{Sha256}.

(** [h] is the hash of the last entry and [c] the hashes of this tick that entries have *)
Record poh_at (h : Hash) (c : N) (p : Poh) : Prop := {
  pa_hash : poh_hash_ p = N.iter (poh_num_hashes p) hash_once h;
  pa_remaining : 1 ≤ remaining_hashes p;
  pa_sum : c + poh_num_hashes p + remaining_hashes p = hashes_per_tick p;
  pa_max : 1 < hashes_per_tick p ≤ u64_max }.

Lemma iter_add (f : Hash → Hash) n m x : N.iter (n + m) f x = N.iter n f (N.iter m f x).
Proof. by rewrite N.iter_add. Qed.

Lemma poh_new_at {E} h hpt p : (∀ n, hpt = Some n → n ≤ u64_max) →
  poh_new_with_slot_info (E:=E) h hpt 0 = Ok p → poh_at h 0 p ∧ hashes_per_tick p = default u64_max hpt.
Proof.
  intros Hm. unfold poh_new_with_slot_info, LOW_POWER_MODE. set (n := default u64_max hpt).
  assert (n ≤ u64_max) by (unfold n; destruct hpt as [x|]; [by apply Hm|apply N.le_refl]).
  destruct (N.ltb_spec 1 n) as [Hn|]; [|done]. intros [= <-]. split; [|done]. split; cbn; [done|lia..].
Qed.
Lemma poh_hash_at {E} h c n p : poh_at h c p →
  ∃ b p', poh_hash (E:=E) n p = Ok (b, p') ∧ poh_at h c p' ∧ hashes_per_tick p' = hashes_per_tick p.
Proof.
  intros [Hh Hr Hs Hm]. unfold poh_hash. rewrite (wrapping_sub_le (remaining_hashes p) 1) by lia.
  set (k := N.min (remaining_hashes p - 1) n). rewrite wrapping_sub_le by lia. cbn [remaining_hashes].
  rewrite (proj2 (N.ltb_lt 0 _)) by lia. cbn [negb]. do 2 eexists. split; [done|]. split; [|done].
  split; cbn [poh_hash_ poh_num_hashes remaining_hashes hashes_per_tick]; rewrite ?wrapping_add_small by lia; try lia.
  by rewrite N.add_comm, iter_add, Hh.
Qed.
(** an entry that continues the chain *)
Record continues_chain (h : Hash) (e : Entry) : Prop := {
  cc_hash : entry_hash e = chained h e;
  cc_countable : countable e }.

Lemma poh_record_at h c txs p : poh_at h c p → txs ≠ [] →
  (remaining_hashes p = 1 ∧ poh_record (mixin_of txs) p = (None, p)) ∨
  ∃ n x p', poh_record (mixin_of txs) p = (Some (mkPohEntry n x), p') ∧
    continues_chain h (mkEntry n x txs) ∧ poh_at x (c + n) p' ∧ hashes_per_tick p' = hashes_per_tick p ∧
    c + n < hashes_per_tick p.
Proof.
  intros [Hh Hr Hs Hm] Ht. unfold poh_record. destruct (N.eqb_spec (remaining_hashes p) 1) as [He|Hne]; [by left|right].
  rewrite wrapping_add_small by lia. rewrite wrapping_sub_le by lia. do 3 eexists. split; [done|].
  split_and!; [| |done|lia].
  - split; [|left; simpl; lia]. unfold chained, last_hash, is_tick. cbn [transactions num_hashes entry_hash].
    rewrite bool_decide_eq_false_2 by done. by rewrite N.add_sub, Hh.
  - split; simpl; [done|lia..].
Qed.
Lemma poh_tick_at h c p : poh_at h c p →
  (∃ p', poh_tick p = (None, p') ∧ poh_at h c p' ∧ hashes_per_tick p' = hashes_per_tick p ∧ 1 < remaining_hashes p) ∨
  ∃ n x p', poh_tick p = (Some (mkPohEntry n x), p') ∧ continues_chain h (mkEntry n x []) ∧ poh_at x 0 p' ∧
    hashes_per_tick p' = hashes_per_tick p ∧ remaining_hashes p' = hashes_per_tick p ∧
    (hashes_per_tick p < u64_max → c + n = hashes_per_tick p).
Proof.
  intros [Hh Hr Hs Hm]. unfold poh_tick, LOW_POWER_MODE. rewrite wrapping_add_small by lia. rewrite wrapping_sub_le by lia.
  destruct (N.eqb_spec (hashes_per_tick p) u64_max) as [Hlow|Hlow];
    destruct (N.eqb_spec (remaining_hashes p - 1) 0) as [Hz|Hz]; cbn [negb andb].
  3: right. 4: left. 1,2: right.
  4:{ eexists. split; [done|]. split_and!; [|done|lia]. split; cbn; try lia.
      rewrite N.add_comm, iter_add, <-Hh. done. }
  all: do 3 eexists; split; [done|]; split_and!; [|split; cbn; (lia || done)|done..|intros; simpl; lia].
  all: split; [|unfold countable, is_tick; cbn; destruct (decide (poh_num_hashes p + 1 < u64_max)); [by left|right; split; [done|lia]]].
  all: unfold chained, last_hash, is_tick; cbn [transactions num_hashes entry_hash].
  all: destruct (N.eqb_spec (poh_num_hashes p + 1) 0); [lia|]; cbn; by rewrite N.add_sub, Hh.
Qed.
End chain_state.

(** ** Blocks under construction *)
Section block.
Context `{Sha256} (h0 : Hash) (hpt_ : N).
Context (Hhpt : 1 < hpt_ ≤ u64_max).

Definition last_of (es : list Entry) : Hash := default h0 (entry_hash <$> list.last es).
(** a hash chain from [h0] with [c] hashes since its last tick *)
Record good (es : list Entry) (c : N) : Prop := {
  gd_chain : chain_ok h0 es = true;
  gd_countable : Forall countable es;
  gd_ticks : hpt_ < u64_max → tick_hash_loop es 0 hpt_ = (true, c) }.

Lemma chain_ok_snoc es e : ∀ h,
  chain_ok h (es ++ [e]) = chain_ok h es && bool_decide (entry_hash e = chained (default h (entry_hash <$> list.last es)) e).
Proof.
  induction es as [|e' es IH]; intros h; cbn [app chain_ok].
  - by rewrite andb_true_r.
  - rewrite IH, andb_assoc. do 3 f_equal. rewrite last_cons. by destruct (list.last es).
Qed.
Lemma tick_hash_loop_app es es' : ∀ c0 c,
  tick_hash_loop es c0 hpt_ = (true, c) → tick_hash_loop (es ++ es') c0 hpt_ = tick_hash_loop es' c hpt_.
Proof.
  induction es as [|e es IH]; intros c0 c; cbn [app tick_hash_loop]; [by intros [= _ ->]|].
  destruct (is_tick e); [destruct (negb _); [done|]|]; apply IH.
Qed.
Lemma good_nil : good [] 0.
Proof. split; [done|constructor|]. intros _. cbn. by rewrite (proj2 (N.ltb_lt 0 hpt_)) by lia. Qed.
Lemma good_snoc es c e :
  good es c → continues_chain (last_of es) e →
  (if is_tick e then hpt_ < u64_max → c + num_hashes e = hpt_ else c + num_hashes e < hpt_) →
  good (es ++ [e]) (if is_tick e then 0 else c + num_hashes e).
Proof.
  intros [Hch Hc Ht] [Hh Hco] Hn. split.
  - rewrite chain_ok_snoc, Hch. fold (last_of es). by rewrite bool_decide_eq_true_2.
  - apply list.Forall_app. by split; [|constructor].
  - intros Hlt. rewrite (tick_hash_loop_app es [e] 0 c) by auto. cbn. unfold saturating_add.
    destruct (is_tick e).
    + rewrite N.min_r by (rewrite Hn; lia). rewrite Hn by done. rewrite N.eqb_refl. cbn.
      by rewrite (proj2 (N.ltb_lt 0 hpt_)) by lia.
    + rewrite N.min_r by lia. by rewrite (proj2 (N.ltb_lt _ _)).
Qed.
Lemma last_of_snoc es e : last_of (es ++ [e]) = entry_hash e.
Proof. unfold last_of. by rewrite last_snoc. Qed.
Lemma tick_count_snoc es e : tick_count (es ++ [e]) = tick_count es + (if is_tick e then 1 else 0).
Proof.
  unfold tick_count. rewrite list.filter_app, len_app. f_equal. rewrite filter_cons.
  destruct (is_tick e) eqn:He; [rewrite decide_True by done|rewrite decide_False by done]; done.
Qed.

(** what other nodes check *)
Lemma good_verified {E} m es c : good es c → machine_ok m → entries_verify (E:=E) m es h0 = Ok true.
Proof. intros [Hch Hc _] Hm. by rewrite entries_verify_ok, Hch. Qed.
Lemma good_ticks es c hpt first last :
  good es c → hpt_ = default u64_max hpt → (∀ n, hpt = Some n → n < u64_max) →
  first + tick_count es ≤ last → last ≤ u64_max →
  (first + tick_count es = last → ∃ e, list.last es = Some e ∧ is_tick e = true) →
  (verify_ticks first last hpt es (first + tick_count es =? last) 0).1 = Ok tt.
Proof.
  intros [_ _ Ht] Hhd Hm Hle Hmax Hlast. unfold verify_ticks. rewrite wrapping_add_small by lia.
  assert ((verify_tick_hash_count es 0 (default 0 hpt)).1 = true) as Hv.
  { unfold verify_tick_hash_count. destruct hpt as [n|]; [|done]. assert (n = hpt_) as -> by done. cbn [from_option id].
    destruct (N.eqb_spec hpt_ 0); [lia|]. by rewrite Ht by auto. }
  rewrite (proj2 (N.ltb_ge _ _)) by lia. destruct (N.eqb_spec (first + tick_count es) last) as [He|Hne].
  - rewrite He, N.ltb_irrefl. destruct (Hlast He) as (e & -> & ->). cbn [negb andb]. by rewrite Hv.
  - rewrite andb_false_r. cbn [andb]. by rewrite Hv.
Qed.
End block.

(** ** Running the recorder *)
Section steps.
Context {S E : Type}.
Lemma run_gets {A B} (f : S → A) (k : A → M S E B) s : bind (gets f) k s = k (f s) s.
Proof. done. Qed.
Lemma run_modify {B} (f : S → S) (k : unit → M S E B) s : bind (modify f) k s = k tt (f s).
Proof. done. Qed.
Lemma run_lift {A B} (a : A) (k : A → M S E B) s : bind (lift (Ok a)) k s = k a s.
Proof. done. Qed.
End steps.

Definition ticked (h : Hash) (b : LeaderBank) : LeaderBank :=
  let next := wrapping_add (lb_tick_height b) 1 in
  mkLeaderBank (lb_slot b) (lb_ticks_per_slot b) (lb_max_tick_height b) (lb_hashes_per_tick b)
    (if next =? lb_max_tick_height b then h else lb_last_blockhash b) next (lb_frozen b).
Definition advance (ticks : list (Entry * N)) (b : LeaderBank) : LeaderBank :=
  foldl (λ b t, ticked (entry_hash t.1) b) b ticks.
Definition with_bank (b : LeaderBank) (w : WorkingBank) : WorkingBank :=
  mkWorkingBank b (min_tick_height w) (max_tick_height w) (transaction_index w).

Lemma advance_same ticks : ∀ b,
  lb_slot (advance ticks b) = lb_slot b ∧ lb_ticks_per_slot (advance ticks b) = lb_ticks_per_slot b ∧
  lb_max_tick_height (advance ticks b) = lb_max_tick_height b ∧
  lb_hashes_per_tick (advance ticks b) = lb_hashes_per_tick b ∧ lb_frozen (advance ticks b) = lb_frozen b.
Proof. induction ticks as [|t ticks IH]; intros b; [done|]. apply (IH (ticked _ b)). Qed.
Lemma advance_height ticks : ∀ b, lb_tick_height b + len ticks ≤ u64_max →
  lb_tick_height (advance ticks b) = lb_tick_height b + len ticks.
Proof.
  induction ticks as [|t ticks IH]; intros b Hb; [unfold len; simpl; lia|]. unfold len in *. cbn [length] in *.
  change (advance (t :: ticks) b) with (advance ticks (ticked (entry_hash t.1) b)).
  rewrite IH; cbn [ticked lb_tick_height]; rewrite wrapping_add_small by lia; lia.
Qed.
(** the last tick of a block gives its hash *)
Lemma advance_blockhash ticks t b : lb_tick_height b + len (ticks ++ [t]) ≤ u64_max →
  lb_tick_height b + len (ticks ++ [t]) = lb_max_tick_height b →
  lb_last_blockhash (advance (ticks ++ [t]) b) = entry_hash t.1.
Proof.
  intros Hb He. rewrite len_app in *. unfold advance. rewrite foldl_snoc. fold (advance ticks b).
  destruct (advance_same ticks b) as (_ & _ & Hm & _). cbn [ticked lb_last_blockhash].
  rewrite advance_height by lia. change (len [t]) with 1 in *. rewrite wrapping_add_small by lia.
  by rewrite Hm, <-He, N.add_assoc, N.eqb_refl.
Qed.

Lemma register_tick_ok {E} h b : lb_frozen b = false → register_tick (E:=E) h b = Ok (ticked h b).
Proof. unfold register_tick, ticked. destruct b; cbn. by intros ->. Qed.
Lemma set_working_same r w : working_bank r = w → set_working w (notifier r) r = r.
Proof. intros <-. by destruct r. Qed.
Lemma send_ticks_ok ticks : ∀ r w,
  working_bank r = Some w → lb_frozen (wb_bank w) = false → connected r = true →
  send_ticks ticks r = (Ok true,
    set_sent (sent r ++ (pair (lb_slot (wb_bank w)) <$> ticks))
      (set_working (Some (with_bank (advance ticks (wb_bank w)) w)) (notifier r) r)).
Proof.
  induction ticks as [|t ticks IH]; intros r w Hw Hf Hc.
  - cbn. rewrite app_nil_r. replace (with_bank (wb_bank w) w) with w by (by destruct w).
    rewrite (set_working_same r (Some w)) by done. by destruct r.
  - cbn [send_ticks]. rewrite run_gets, Hw. cbn [unwrap]. rewrite run_lift, (register_tick_ok _ _ Hf), run_lift, run_modify, run_gets.
    cbn [connected set_working]. rewrite Hc. cbn [negb]. rewrite run_modify.
    rewrite (IH _ (with_bank (ticked (entry_hash t.1) (wb_bank w)) w)) by (try done; by destruct r).
    destruct r; cbn. unfold set_sent; cbn. by rewrite <-app_assoc.
Qed.

(** ** The phases of a leader slot *)
Section leader.
Context `{Sha256} (schedule : N → option (N * N)).
Context (h0 : Hash) (hpt : option N) (b : LeaderBank) (base : list (N * (Entry * N))).
Abbreviation per_tick := (default u64_max hpt).
Abbreviation first_height := (lb_tick_height b).
Abbreviation last_height := (lb_max_tick_height b).

Record leader_ok : Prop := {
  lo_per_tick : ∀ n, hpt = Some n → 1 < n < u64_max;
  lo_bank : lb_hashes_per_tick b = hpt;
  lo_heights : first_height < last_height ≤ u64_max;
  lo_frozen : lb_frozen b = false }.

Record common (r : PohRecorder) : Prop := {
  cm_connected : connected r = true;
  cm_ticks : ticks_per_slot r = lb_ticks_per_slot b;
  cm_hashes : hashes_per_tick (poh r) = per_tick }.
Definition sent_as (r : PohRecorder) (es : list Entry) : Prop :=
  ∃ l, sent r = base ++ (pair (lb_slot b) <$> l) ∧ l.*1 = es.
(** the cache holds ticks with consecutive heights *)
Record ticks_from (a : N) (cache : list (Entry * N)) : Prop := {
  tf_ticks : ∀ x, x ∈ cache → is_tick x.1 = true;
  tf_heights : ∀ i x, cache !! i = Some x → x.2 = a + N.of_nat i + 1 }.

(** no bank yet: the ticks wait in the cache *)
Record waiting (r : PohRecorder) : Prop := {
  wa_common : common r;
  wa_working : working_bank r = None;
  wa_notifier : ln_status (notifier r) = StandBy;
  wa_leader : is_Some (leader_first_tick_height_including_grace_ticks r);
  wa_sent : sent r = base;
  wa_good : good h0 per_tick (tick_cache r).*1 0;
  wa_poh : poh_at (last_of h0 (tick_cache r).*1) 0 (poh r);
  wa_ticks : ticks_from first_height (tick_cache r);
  wa_height : tick_height r = first_height + len (tick_cache r) }.

(** the bank takes entries: [es] were sent, and the ticks of the cache follow them *)
Record building (r : PohRecorder) (es : list Entry) (c : N) : Prop := {
  bu_common : common r;
  bu_working : ∃ bank index, working_bank r = Some (mkWorkingBank bank first_height last_height index) ∧
    lb_slot bank = lb_slot b ∧ lb_ticks_per_slot bank = lb_ticks_per_slot b ∧ lb_max_tick_height bank = last_height ∧
    lb_frozen bank = false ∧ lb_tick_height bank = first_height + tick_count es;
  bu_notifier : notifier r = mkNotifier InProgress (Some (lb_slot b));
  bu_leader : is_Some (leader_first_tick_height_including_grace_ticks r);
  bu_sent : sent_as r es;
  bu_good : good h0 per_tick (es ++ (tick_cache r).*1) c;
  bu_poh : poh_at (last_of h0 (es ++ (tick_cache r).*1)) c (poh r);
  bu_ticks : ticks_from (first_height + tick_count es) (tick_cache r);
  bu_height : tick_height r = first_height + tick_count es + len (tick_cache r);
  bu_bound : tick_height r ≤ u64_max;
  bu_room : first_height + tick_count es < last_height }.

(** the block is complete *)
Record finished (r : PohRecorder) (es : list Entry) : Prop := {
  fi_common : common r;
  fi_working : working_bank r = None;
  fi_notifier : ln_status (notifier r) = StandBy;
  fi_sent : sent_as r es;
  fi_good : good h0 per_tick es 0;
  fi_count : first_height + tick_count es = last_height;
  fi_last : ∃ e, list.last es = Some e ∧ is_tick e = true;
  fi_poh : ∃ h c, poh_at h c (poh r);
  fi_start : lb_slot (start_bank r) = lb_slot b ∧ lb_last_blockhash (start_bank r) = last_of h0 es }.

Lemma ticks_from_nil a : ticks_from a [].
Proof. split; [by intros x Hx%elem_of_nil|by intros i x]. Qed.
Lemma take_while_heights a cache : ticks_from a cache →
  take_while (λ x : Entry * N, x.2 <=? last_height) cache = take (N.to_nat (last_height - a)) cache.
Proof.
  intros [_ Hh]. revert a Hh. induction cache as [|x cache IH]; intros a Hh; [by rewrite take_nil|]. cbn [take_while].
  rewrite (Hh 0%nat x) by done. destruct (N.leb_spec (a + N.of_nat 0 + 1) last_height) as [Hle|Hgt].
  - replace (N.to_nat (last_height - a)) with (S (N.to_nat (last_height - (a + 1)))) by lia. cbn [take]. f_equal.
    apply IH. intros i y Hy. rewrite (Hh (S i) y) by done. lia.
  - by replace (N.to_nat (last_height - a)) with 0%nat by lia.
Qed.
Lemma tick_count_ticks a ticks : ticks_from a ticks → tick_count ticks.*1 = len ticks.
Proof.
  intros [Ht _]. unfold tick_count, len. f_equal. rewrite <-(length_fmap fst ticks). f_equal.
  induction ticks as [|x ticks IH]; [done|]. rewrite fmap_cons, filter_cons.
  rewrite decide_True by (apply Ht; by left). f_equal. apply IH. intros y Hy. apply Ht. by right.
Qed.
Lemma tick_count_app es es' : tick_count (es ++ es') = tick_count es + tick_count es'.
Proof. unfold tick_count. by rewrite list.filter_app, len_app. Qed.
(** the part of a block up to a tick *)
Lemma good_prefix es es' e c :
  good h0 per_tick (es ++ es') c → list.last es = Some e → is_tick e = true → 1 < per_tick → good h0 per_tick es 0.
Proof.
  intros [Hch Hc Ht] Hl He Hp. split.
  - revert Hch. clear. generalize h0. induction es as [|x es IH]; intros h; [done|]. cbn [app chain_ok].
    intros [-> Hr]%andb_prop. by rewrite (IH _ Hr).
  - by apply list.Forall_app in Hc as [? _].
  - intros Hlt. specialize (Ht Hlt). revert Ht. clear Hch Hc.
    enough (∀ n, tick_hash_loop (es ++ es') n per_tick = (true, c) → tick_hash_loop es n per_tick = (true, 0)) by auto.
    revert c Hl.
    induction es as [|x es IH]; intros c Hl n; [done|]. cbn [app tick_hash_loop].
    destruct (decide (es = [])) as [->|Hne].
    + cbn in Hl. injection Hl as ->. rewrite He. destruct (negb _); [done|]. intros _.
      cbn [tick_hash_loop]. by rewrite (proj2 (N.ltb_lt 0 per_tick)) by lia.
    + assert (list.last es = Some e) as Hl'.
      { rewrite last_cons in Hl. destruct (list.last es) eqn:Hx; [done|]. by apply last_None in Hx. }
      destruct (is_tick x); [destruct (negb _); [done|]|]; intros Hr; by eapply IH.
Qed.

Context (Hok : leader_ok).
Lemma per_tick_range : 1 < per_tick ≤ u64_max.
Proof.
  destruct hpt as [n|] eqn:Hn; [|by vm_compute]. pose proof (lo_per_tick Hok n). cbn [from_option id]. naive_solver lia.
Qed.

Lemma clear_bank_ok r w :
  working_bank r = Some w → notifier r = mkNotifier InProgress (Some (lb_slot (wb_bank w))) →
  ticks_per_slot r = lb_ticks_per_slot (wb_bank w) →
  clear_bank schedule r = (Ok tt,
    set_leader_ticks (compute_leader_slot_tick_heights (schedule (lb_slot (wb_bank w))) (ticks_per_slot r))
      (set_working None (mkNotifier StandBy (Some (lb_slot (wb_bank w)))) r)).
Proof.
  intros Hw Hn Ht. unfold clear_bank. rewrite run_gets, Hw, run_gets, Hn. unfold set_completed. cbn [ln_status ln_slot].
  rewrite bool_decide_eq_true_2 by done. rewrite run_lift, run_modify, run_gets. cbn [ticks_per_slot set_working].
  by rewrite Ht, N.eqb_refl.
Qed.
Lemma sent_as_app r es ticks :
  sent_as r es → ∀ r', sent r' = sent r ++ (pair (lb_slot b) <$> ticks) → sent_as r' (es ++ ticks.*1).
Proof.
  intros (l & Hl & Hes) r' Hr. exists (l ++ ticks). rewrite Hr, Hl, !fmap_app, <-app_assoc, Hes. done.
Qed.

(** a flush sends what belongs to the block and ends it at its last tick *)
Lemma flush_building r es c t :
  building r es c → (t = true → tick_cache r ≠ []) →
  ∃ r', flush_cache schedule t r = (Ok tt, r') ∧
    ((building r' (es ++ (tick_cache r).*1) c ∧ tick_cache r' = [] ∧ poh r' = poh r) ∨ ∃ es', finished r' es').
Proof.
  intros [Hc (bank & ix & Hw & Hbs & Hbt & Hbm & Hbf & Hbh) Hn Hl Hs Hg Hp Ht Hh Hmax Hroom] Htick.
  pose proof (lo_heights Hok) as Hhs. unfold flush_cache. rewrite run_gets, Hw. cbn [ok_or]. rewrite run_lift, run_gets.
  cbn [min_tick_height max_tick_height]. rewrite (proj2 (N.ltb_ge _ _)) by lia.
  assert (t && (tick_height r =? first_height) = false) as ->.
  { destruct t; [|done]. cbn [andb]. apply N.eqb_neq. specialize (Htick eq_refl).
    destruct (tick_cache r); [done|]. unfold len in Hh. cbn [length] in Hh. lia. }
  rewrite run_gets. rewrite (take_while_heights _ _ Ht). set (n := N.to_nat (last_height - (first_height + tick_count es))).
  set (fl := take n (tick_cache r)).
  rewrite (bind_ok _ _ _ _ _ (send_ticks_ok fl r _ Hw Hbf (cm_connected r Hc))). cbn [wb_bank].
  set (w' := with_bank _ _). set (r1 := set_sent _ _).
  assert (working_bank r1 = Some w') as Hw1 by done.
  assert (ticks_from (first_height + tick_count es) fl) as Htf.
  { destruct Ht as [Ha Hb]. split; [intros x Hx; apply Ha; rewrite <-(take_drop n (tick_cache r)), elem_of_app; by left|].
    intros i x Hi. apply Hb. apply lookup_take_Some in Hi. naive_solver. }
  assert (len fl = N.min (last_height - (first_height + tick_count es)) (len (tick_cache r))) as Hfl.
  { unfold len, fl. rewrite length_take. lia. }
  assert (sent_as r1 (es ++ fl.*1)) as Hsent.
  { apply (sent_as_app r); [done|]. cbn. by rewrite Hbs. }
  pose proof (advance_same fl bank) as (Has & Hat & Ham & _ & Haf).
  pose proof (advance_height fl bank ltac:(lia)) as Hah.
  assert (tick_count (es ++ fl.*1) = tick_count es + len fl) as Htc.
  { rewrite tick_count_app. by erewrite tick_count_ticks. }
  destruct (N.leb_spec last_height (tick_height r)) as [Hfull|Hopen].
  - assert (len fl = last_height - (first_height + tick_count es)) as Hlen by lia.
    assert (∃ fl0 x, fl = fl0 ++ [x]) as (fl0 & x & Hx).
    { destruct fl as [|y fl'] using rev_ind; [unfold len in Hlen; simpl in Hlen; lia|eauto]. }
    assert (list.last (es ++ fl.*1) = Some x.1) as Hlast by (rewrite Hx, fmap_app, app_assoc; apply last_snoc).
    assert (is_tick x.1 = true) as Hxt by (apply Htf; rewrite Hx, elem_of_app; right; by left).
    set (r2 := set_start (wb_bank w') (wrapping_add (wrapping_mul (lb_slot (wb_bank w')) (ticks_per_slot r1)) 1) r1).
    assert (clear_bank schedule r2 = (Ok tt, set_leader_ticks (compute_leader_slot_tick_heights
      (schedule (lb_slot (wb_bank w'))) (ticks_per_slot r2)) (set_working None (mkNotifier StandBy (Some (lb_slot (wb_bank w')))) r2)))
      as Hclear.
    { apply clear_bank_ok; [done|cbn; by rewrite Hn, Has, Hbs|cbn; by rewrite Hat, Hbt, (cm_ticks r Hc)]. }
    match goal with |- ∃ r', bind ?m ?k r1 = _ ∧ _ => assert (m r1 = clear_bank schedule r2) as Hend by done end.
    rewrite (bind_ok _ _ _ _ _ (eq_trans Hend Hclear)). cbn [negb]. eexists. split; [done|]. right. exists (es ++ fl.*1).
    split; try done.
    + destruct Hc. by split.
    + apply (good_prefix (es ++ fl.*1) (drop n (tick_cache r)).*1 x.1 c); [|done..|apply per_tick_range].
      rewrite <-app_assoc, <-fmap_app. unfold fl. by rewrite take_drop.
    + lia.
    + eauto.
    + cbn. eauto.
    + split; [cbn; by rewrite Has|]. cbn [set_tick_cache start_bank set_leader_ticks set_working set_start r2 wb_bank w' with_bank].
      unfold last_of. rewrite Hlast. rewrite Hx. apply advance_blockhash; rewrite <-Hx; lia.
  - assert (fl = tick_cache r) as Hall by (unfold fl; rewrite take_ge; [done|]; unfold len in *; lia).
    rewrite (bind_ok _ _ _ tt r1) by done. cbn [negb]. eexists. split; [done|]. left. rewrite <-Hall.
    assert (tick_cache (set_tick_cache (drop (length fl) (tick_cache r1)) r1) = []) as Hemp.
    { cbn. rewrite Hall. by apply drop_ge. }
    split_and!; [|done|done]. split; cbn [set_tick_cache tick_cache working_bank notifier sent poh tick_height
      leader_first_tick_height_including_grace_ticks]; try done.
    + destruct Hc. by split.
    + exists (advance fl bank), ix. split; [done|]. split_and!; congruence || lia.
    + rewrite drop_ge by (cbn; by rewrite Hall). rewrite app_nil_r. by rewrite Hall.
    + rewrite drop_ge by (cbn; by rewrite Hall). rewrite app_nil_r. by rewrite Hall.
    + rewrite drop_ge by (cbn; by rewrite Hall). apply ticks_from_nil.
    + rewrite drop_ge by (cbn; by rewrite Hall). rewrite Htc, Hall.
      enough (tick_height r = first_height + (tick_count es + len (tick_cache r)) + 0) by done. lia.
    + lia.
Qed.

(** *** Ticks *)
Lemma ticks_from_snoc a cache n x :
  ticks_from a cache → n = a + len cache + 1 → ticks_from a (cache ++ [(mkEntry (pe_num_hashes x) (pe_hash x) [], n)]).
Proof.
  intros [Ha Hb] ->. split.
  - intros y [Hy|Hy%list_elem_of_singleton]%elem_of_app; [by apply Ha|by subst y].
  - intros i y [Hy|[Hi Hy]]%lookup_app_Some; [by apply Hb|]. apply list_lookup_singleton_Some in Hy as [Hi' <-].
    unfold len. cbn [snd]. lia.
Qed.
Lemma tick_waiting r : waiting r → tick_height r < u64_max →
  ∃ r', tick schedule r = (Ok tt, r') ∧ waiting r' ∧ tick_height r' ≤ tick_height r + 1.
Proof.
  intros [Hc Hw Hn Hl Hs Hg Hp Ht Hh] Hmax. unfold tick. rewrite run_gets, run_modify.
  destruct (poh_tick_at _ _ _ Hp) as [(p' & -> & Hp' & He & _)|(n & x & p' & -> & Hcc & Hp' & He & _ & Hcnt)]; cbn [fst snd].
  - eexists. split; [done|]. split; [|cbn; lia]. destruct Hc as [Hc1 Hc2 Hc3]. split; try done.
    split; [done..|cbn; by rewrite He].
  - rewrite run_modify, run_gets. cbn [leader_first_tick_height_including_grace_ticks set_tick_height set_poh].
    destruct Hl as [first Hl]. rewrite Hl. rewrite run_modify. unfold bind at 1, observe, flush_cache at 1.
    rewrite run_gets. cbn [working_bank set_tick_cache set_tick_height set_poh]. rewrite Hw. cbn.
    eexists. split; [done|]. split; [|cbn; rewrite wrapping_add_small; lia].
    rewrite (cm_hashes r Hc) in Hcnt.
    assert (good h0 per_tick ((tick_cache r).*1 ++ [mkEntry n x []]) 0) as Hg'.
    { apply (good_snoc h0 per_tick per_tick_range _ 0 (mkEntry n x [])); [done..|]. intros Hlt. by apply Hcnt. }
    destruct Hc as [Hc1 Hc2 Hc3]. split; cbn; rewrite ?fmap_app, ?fmap_cons; try done.
    + split; [done..|cbn; by rewrite He].
    + by rewrite last_of_snoc.
    + apply (ticks_from_snoc _ _ _ (mkPohEntry n x)); [done|]. rewrite wrapping_add_small by lia. lia.
    + rewrite wrapping_add_small by lia. rewrite len_app. change (len [_]) with 1. lia.
Qed.
Lemma tick_building r es c : building r es c → tick_cache r = [] →
  ∃ r', tick schedule r = (Ok tt, r') ∧
    ((∃ es' c', building r' es' c' ∧ tick_cache r' = [] ∧
        (remaining_hashes (poh r) = 1 → remaining_hashes (poh r') = per_tick)) ∨ ∃ es', finished r' es').
Proof.
  intros [Hc Hw Hn Hl Hs Hg Hp Ht Hh Hmax Hroom] Hcache. unfold tick. rewrite run_gets, run_modify.
  rewrite Hcache, app_nil_r in Hg, Hp.
  destruct (poh_tick_at _ _ _ Hp) as [(p' & -> & Hp' & He & Hr)|(n & x & p' & -> & Hcc & Hp' & He & Hr & Hcnt)]; cbn [fst snd].
  - eexists. split; [done|]. left. exists es, c. split; [|split; [done|intros; lia]]. destruct Hc as [Hc1 Hc2 Hc3].
    split; cbn; rewrite ?Hcache, ?app_nil_r; try done; [|by apply ticks_from_nil|by rewrite Hcache in Hh].
    split; [done..|cbn; by rewrite He].
  - rewrite run_modify, run_gets. cbn [leader_first_tick_height_including_grace_ticks set_tick_height set_poh].
    destruct Hl as [first Hl]. rewrite Hl. rewrite run_modify. cbn [tick_cache set_tick_height set_poh]. rewrite Hcache. cbn [app].
    set (r1 := set_tick_cache _ _). rewrite (cm_hashes r Hc) in Hcnt. pose proof (lo_heights Hok) as Hhs.
    rewrite Hcache in Hh. change (len []) with 0 in Hh.
    assert (building r1 es 0) as Hb1.
    { assert (good h0 per_tick (es ++ [mkEntry n x []]) 0) as Hg'.
      { apply (good_snoc h0 per_tick per_tick_range es c (mkEntry n x [])); [done..|]. intros Hlt. by apply Hcnt. }
      destruct Hc as [Hc1 Hc2 Hc3]. split; cbn; try done.
      - split; [done..|cbn; by rewrite He].
      - by rewrite last_of_snoc.
      - apply (ticks_from_snoc _ [] _ (mkPohEntry n x)); [apply ticks_from_nil|]. change (len []) with 0.
        rewrite wrapping_add_small by lia. lia.
      - rewrite wrapping_add_small by lia. change (len [_]) with 1. lia.
      - rewrite wrapping_add_small by lia. lia. }
    destruct (flush_building r1 es 0 true Hb1) as (r2 & Hf & Hr2); [done|].
    unfold bind at 1, observe. rewrite Hf. eexists. split; [done|].
    destruct Hr2 as [(Hb2 & Hc2 & Hp2)|Hfin]; [left|by right]. exists (es ++ (tick_cache r1).*1), 0.
    split_and!; [done..|]. intros _. rewrite Hp2. cbn. by rewrite Hr, (cm_hashes r Hc).
Qed.

(** *** Records *)
Definition in_slot (r : PohRecorder) : Prop :=
  (∃ es c, building r es c ∧ tick_cache r = []) ∨ ∃ es, finished r es.
(** no panic, and no error that the caller turns into one *)
Definition served {A} (x : result PohRecorderError A * PohRecorder) : Prop :=
  match x.1 with Ok _ | Err MaxHeightReached | Err SendError => True | _ => False end ∧ in_slot x.2.

Lemma record_finished fuel slot mixin txs r es :
  finished r es → served (record_loop schedule (S fuel) slot mixin txs r).
Proof.
  intros Hf. cbn [record_loop]. unfold bind at 1, flush_cache at 1. rewrite run_gets, (fi_working r es Hf). cbn.
  split; [done|]. right. by exists es.
Qed.
(** an entry with transactions goes to the ledger *)
Lemma building_record r es c txs n x p' index :
  building r es c → tick_cache r = [] → txs ≠ [] → continues_chain (last_of h0 es) (mkEntry n x txs) →
  poh_at x (c + n) p' → hashes_per_tick p' = hashes_per_tick (poh r) → c + n < hashes_per_tick (poh r) →
  ∀ r', poh r' = p' → tick_cache r' = [] → sent r' = sent r ++ [(lb_slot b, (mkEntry n x txs, tick_height r))] →
  (∀ w, working_bank r = Some w →
     working_bank r' = Some (mkWorkingBank (wb_bank w) (min_tick_height w) (max_tick_height w) (index w))) →
  tick_height r' = tick_height r → notifier r' = notifier r → connected r' = connected r →
  ticks_per_slot r' = ticks_per_slot r →
  leader_first_tick_height_including_grace_ticks r' = leader_first_tick_height_including_grace_ticks r →
  building r' (es ++ [mkEntry n x txs]) (c + n).
Proof.
  intros [[Hc1 Hc2 Hc3] (bank & ix & Hw & Hbank) Hn Hl Hs Hg Hp Ht Hh Hmax Hroom] Hcache Htx Hcc Hp' He Hlt r' Hr1 Hr2 Hr3 Hr4
    Hr5 Hr6 Hr7 Hr8 Hr9.
  rewrite Hcache, app_nil_r in Hg. rewrite Hcache in Hh. change (len []) with 0 in Hh.
  assert (is_tick (mkEntry n x txs) = false) as Hnt by (unfold is_tick; by rewrite bool_decide_eq_false_2).
  assert (tick_count (es ++ [mkEntry n x txs]) = tick_count es) as Htc by (rewrite tick_count_snoc, Hnt; lia).
  split; rewrite ?Hr2, ?app_nil_r, ?Htc.
  - split; congruence.
  - exists bank, (index (mkWorkingBank bank first_height last_height ix)). by rewrite (Hr4 _ Hw).
  - congruence.
  - by rewrite Hr9.
  - change [mkEntry n x txs] with ([(mkEntry n x txs, tick_height r)].*1). by apply (sent_as_app r).
  - pose proof (good_snoc h0 per_tick per_tick_range es c (mkEntry n x txs) Hg Hcc) as Hgs. rewrite Hnt in Hgs.
    apply Hgs. cbn. congruence.
  - rewrite last_of_snoc, Hr1. done.
  - apply ticks_from_nil.
  - change (len []) with 0. congruence.
  - congruence.
  - done.
Qed.
Lemma record_round fuel slot txs r es c :
  building r es c → tick_cache r = [] → txs ≠ [] →
  served (record_loop schedule (S fuel) slot (mixin_of txs) txs r) ∨
  remaining_hashes (poh r) = 1 ∧ ∃ r2,
    record_loop schedule (S fuel) slot (mixin_of txs) txs r = record_loop schedule fuel slot (mixin_of txs) txs r2 ∧
    ((∃ es' c', building r2 es' c' ∧ tick_cache r2 = [] ∧ remaining_hashes (poh r2) = per_tick) ∨ ∃ es', finished r2 es').
Proof.
  intros Hb Hcache Htx. destruct (flush_building r es c false Hb) as (r1 & Hf & Hr1); [done|]. cbn [record_loop].
  rewrite (bind_ok _ _ _ _ _ Hf), run_gets. rewrite Hcache in Hr1. cbn in Hr1. rewrite app_nil_r in Hr1.
  destruct Hr1 as [(Hb1 & Hc1 & Hp1)|(es' & Hfin)].
  2:{ left. rewrite (fi_working _ _ Hfin). cbn. split; [done|]. right. by exists es'. }
  pose proof (bu_working _ _ _ Hb1) as (bank & ix & Hw & Hbs & _). rewrite Hw. cbn [ok_or]. rewrite run_lift. cbn [wb_bank].
  destruct (slot =? lb_slot bank); cbn [negb]; [|left; split; [done|left; by exists es, c]].
  rewrite run_gets, run_modify. pose proof (bu_poh _ _ _ Hb1) as Hp. rewrite Hc1, app_nil_r in Hp.
  destruct (poh_record_at _ _ txs _ Hp Htx) as [[Hrem ->]|(n & x & p' & -> & Hcc & Hp' & He & Hlt)]; cbn [fst snd].
  - right. split; [by rewrite <-Hp1|]. replace (set_poh (poh r1) r1) with r1 by (by destruct r1).
    destruct (tick_building r1 es c Hb1 Hc1) as (r2 & Ht & Hr2). exists r2. split; [by rewrite (bind_ok _ _ _ _ _ Ht)|].
    destruct Hr2 as [(es' & c' & Hb2 & Hc2 & Hr2)|]; [left; exists es', c'; auto|by right].
  - left. rewrite run_gets. cbn [connected set_poh]. rewrite (cm_connected _ (bu_common _ _ _ Hb1)). cbn [negb].
    rewrite run_modify. cbn [transaction_index].
    assert (∀ r' index, poh r' = p' → tick_cache r' = [] →
      sent r' = sent r1 ++ [(lb_slot b, (mkEntry n x txs, tick_height r1))] →
      working_bank r' = Some (mkWorkingBank bank first_height last_height index) →
      tick_height r' = tick_height r1 → notifier r' = notifier r1 → connected r' = connected r1 →
      ticks_per_slot r' = ticks_per_slot r1 →
      leader_first_tick_height_including_grace_ticks r' = leader_first_tick_height_including_grace_ticks r1 → in_slot r') as Hin.
    { intros r' index H1 H2 H3 H4 H5 H6 H7 H8 H9. left. exists (es ++ [mkEntry n x txs]), (c + n). split; [|done].
      apply (building_record r1 es c txs n x p' (λ _, index)); try done. intros w Hw'. rewrite Hw in Hw'. by injection Hw' as <-. }
    destruct ix as [i|]; [rewrite run_modify|]; (split; [done|]).
    + eapply Hin; try done. cbn. by rewrite Hbs.
    + eapply Hin; try done. cbn. by rewrite Hbs.
Qed.
Lemma record_served slot txs r :
  in_slot r → txs ≠ [] → served (record_loop schedule 3 slot (mixin_of txs) txs r).
Proof.
  intros [(es & c & Hb & Hc)|[es Hf]] Htx; [|by eapply record_finished].
  destruct (record_round 2 slot txs r es c Hb Hc Htx) as [|(_ & r2 & -> & [(es' & c' & Hb2 & Hc2 & Hr2)|[es' Hf]])]; [done| |by eapply record_finished].
  destruct (record_round 1 slot txs r2 es' c' Hb2 Hc2 Htx) as [|[Hone _]]; [done|].
  pose proof per_tick_range. rewrite Hr2 in Hone. lia.
Qed.

(** ** What can happen around a leader slot *)
Inductive RecorderOp := OpHash (n : N) | OpTick | OpRecord (slot : N) (txs : list VersionedTransaction).
Definition run_op (op : RecorderOp) : M PohRecorder PohRecorderError unit :=
  match op with
  | OpHash n => hash_some n ;; ret tt
  | OpTick => tick schedule
  | OpRecord slot txs => observe (record_transactions schedule slot txs) ;; ret tt
  end.
Lemma hash_some_at r n h c : poh_at h c (poh r) →
  ∃ p', run_op (OpHash n) r = (Ok tt, set_poh p' r) ∧ poh_at h c p' ∧ hashes_per_tick p' = hashes_per_tick (poh r).
Proof.
  intros Hp. cbn [run_op]. destruct (poh_hash_at (E:=PohRecorderError) h c n _ Hp) as (x & p' & Hr & Hp' & He).
  exists p'. unfold bind at 1, hash_some. rewrite run_gets, Hr, run_lift, run_modify. done.
Qed.
Lemma tick_finished r es : finished r es → ∃ r', tick schedule r = (Ok tt, r') ∧ finished r' es.
Proof.
  intros [[Hc1 Hc2 Hc3] Hw Hn Hs Hg Hco Hla (h & c & Hp) Hst]. unfold tick. rewrite run_gets, run_modify.
  destruct (poh_tick_at _ _ _ Hp) as [(p' & -> & Hp' & He & _)|(n & x & p' & -> & _ & Hp' & He & _)]; cbn [fst snd].
  - eexists. split; [done|]. split; try done; [split; [done..|cbn; congruence]|by exists h, c].
  - rewrite run_modify, run_gets. destruct (leader_first_tick_height_including_grace_ticks _).
    + rewrite run_modify. unfold bind at 1, observe, flush_cache at 1.
      rewrite run_gets. cbn [working_bank set_tick_cache set_tick_height set_poh]. rewrite Hw. cbn.
      eexists. split; [done|]. split; try done; [split; [done..|cbn; congruence]|by exists x, 0].
    + eexists. split; [done|]. split; try done; [split; [done..|cbn; congruence]|by exists x, 0].
Qed.
Lemma in_slot_op r op : in_slot r → ∃ r', run_op op r = (Ok tt, r') ∧ in_slot r'.
Proof.
  intros Hin. destruct op as [n| |slot txs].
  - destruct Hin as [(es & c & [[Hc1 Hc2 Hc3] Hw Hn Hl Hs Hg Hp Ht Hh Hmax Hroom] & Hcache)|(es & [[Hc1 Hc2 Hc3] Hw Hn Hs Hg Hco Hla (h & c & Hp) Hst])].
    + destruct (hash_some_at r n _ _ Hp) as (p' & Hr & Hp' & He). eexists. split; [done|]. left. exists es, c. split; [|done].
      split; try done. split; [done..|cbn; congruence].
    + destruct (hash_some_at r n _ _ Hp) as (p' & Hr & Hp' & He). eexists. split; [done|]. right. exists es.
      split; try done; [split; [done..|cbn; congruence]|by exists h, c].
  - destruct Hin as [(es & c & Hb & Hc)|(es & Hf)].
    + destruct (tick_building r es c Hb Hc) as (r' & Hr & [(es' & c' & Hb' & Hc' & _)|[es' Hf]]); exists r'; (split; [done|]).
      * left. by exists es', c'.
      * right. by exists es'.
    + destruct (tick_finished r es Hf) as (r' & Hr & Hf'). exists r'. split; [done|]. right. by exists es.
  - cbn [run_op]. unfold record_transactions. case_bool_decide as Htx; [by eexists|].
    rewrite hash_transactions_ok. unfold bind at 1, observe at 1. rewrite run_lift. unfold record.
    rewrite bool_decide_eq_false_2 by done. pose proof (record_served slot txs r Hin Htx) as [Hres Hs].
    unfold bind at 1, observe. destruct (record_loop schedule 3 slot (mixin_of txs) txs r) as [[i|[]|] r']; cbn in *; try done; by eexists.
Qed.
Fixpoint run_ops (ops : list RecorderOp) : M PohRecorder PohRecorderError unit :=
  match ops with [] => ret tt | op :: ops' => run_op op ;; run_ops ops' end.
Lemma in_slot_ops ops : ∀ r, in_slot r → ∃ r', run_ops ops r = (Ok tt, r') ∧ in_slot r'.
Proof.
  induction ops as [|op ops IH]; intros r Hr; [by exists r|]. cbn [run_ops].
  destruct (in_slot_op r op Hr) as (r1 & Ho & Hr1). rewrite (bind_ok _ _ _ _ _ Ho). by apply IH.
Qed.

(** before the bank comes, nothing is recorded *)
Lemma waiting_op r op : waiting r → tick_height r < u64_max →
  ∃ r', run_op op r = (Ok tt, r') ∧ waiting r' ∧ tick_height r' ≤ tick_height r + 1.
Proof.
  intros Hwa Hmax. destruct op as [n| |slot txs].
  - destruct Hwa as [[Hc1 Hc2 Hc3] Hw Hn Hl Hs Hg Hp Ht Hh].
    destruct (hash_some_at r n _ _ Hp) as (p' & Hr & Hp' & He). eexists. split; [done|]. split; [|cbn; lia].
    split; try done. split; [done..|cbn; congruence].
  - by apply tick_waiting.
  - exists r. split; [|split; [done|lia]]. cbn [run_op]. unfold record_transactions. case_bool_decide as Htx; [done|].
    rewrite hash_transactions_ok. unfold bind at 1, observe at 1. rewrite run_lift. unfold record.
    rewrite bool_decide_eq_false_2 by done. cbn [record_loop]. unfold bind at 1, observe at 1. unfold bind at 1, flush_cache at 1.
    rewrite run_gets, (wa_working r Hwa). done.
Qed.
Lemma waiting_ops ops : ∀ r, waiting r → tick_height r + len ops ≤ u64_max →
  ∃ r', run_ops ops r = (Ok tt, r') ∧ waiting r' ∧ tick_height r' ≤ tick_height r + len ops.
Proof.
  induction ops as [|op ops IH]; intros r Hr Hmax; [exists r; split; [done|split; [done|lia]]|]. cbn [run_ops].
  assert (len (op :: ops) = 1 + len ops) as Hlen by (unfold len; cbn [length]; lia). rewrite Hlen in *.
  destruct (waiting_op r op Hr) as (r1 & Ho & Hr1 & Hh); [lia|]. rewrite (bind_ok _ _ _ _ _ Ho).
  destruct (IH r1 Hr1) as (r2 & H2 & Hr2 & Hh2); [lia|]. exists r2. split; [done|]. split; [done|lia].
Qed.
Lemma set_bank_waiting r track : waiting r → tick_height r ≤ u64_max →
  ∃ r', set_bank schedule b track r = (Ok tt, r') ∧ in_slot r'.
Proof.
  intros [[Hc1 Hc2 Hc3] Hw Hn Hl Hs Hg Hp Ht Hh] Hmax. pose proof (lo_heights Hok) as Hhs.
  unfold set_bank. rewrite run_gets, Hw, run_gets. unfold set_in_progress. rewrite Hn, run_lift, run_modify, run_gets.
  cbn [ticks_per_slot set_working]. rewrite Hc2, N.eqb_refl. cbn [negb]. rewrite run_gets, (lo_bank Hok).
  cbn [poh set_working]. rewrite Hc3.
  match goal with |- ∃ r', bind ?m ?k ?r0 = _ ∧ _ => assert (m r0 = (Ok tt, r0)) as Hm end.
  { destruct hpt as [n|]; [|done]. cbn [from_option id]. by rewrite N.eqb_refl. }
  rewrite (bind_ok _ _ _ _ _ Hm), run_modify. set (r1 := set_working (Some _) _ _).
  assert (building r1 [] 0) as Hb.
  { split; try done.
    - eexists _, _. split; [done|]. cbn. change (tick_count []) with 0. rewrite N.add_0_r. split_and!; try done. apply Hok.
    - exists []. cbn. by rewrite app_nil_r.
    - change (tick_count []) with 0. by rewrite N.add_0_r.
    - change (tick_count []) with 0. cbn. lia.
    - change (tick_count []) with 0. lia. }
  destruct (flush_building r1 [] 0 false Hb) as (r2 & Hf & Hr2); [done|]. unfold bind at 1, observe. rewrite Hf.
  exists r2. split; [done|]. destruct Hr2 as [(Hb2 & Hc2' & _)|[es' Hf2]]; [left; by eexists _, _|right; by exists es'].
Qed.

(** the outcome, for the other nodes *)
Lemma in_slot_accepted {E} m r : in_slot r → machine_ok m →
  ∃ es, sent_as r es ∧ entries_verify (E:=E) m es h0 = Ok true ∧
    (verify_ticks first_height last_height hpt es (negb (has_bank r)) 0).1 = Ok tt ∧
    (has_bank r = false → lb_slot (start_bank r) = lb_slot b ∧
       Some (lb_last_blockhash (start_bank r)) = entry_hash <$> list.last es).
Proof.
  intros Hin Hm. pose proof (lo_heights Hok) as Hhs.
  assert (∀ n, hpt = Some n → n < u64_max) as Hn by (intros n Hn; by apply (lo_per_tick Hok)).
  destruct Hin as [(es & c & Hb & Hc)|(es & Hf)]; exists es.
  - pose proof (bu_good _ _ _ Hb) as Hg. rewrite Hc, app_nil_r in Hg.
    pose proof (bu_working _ _ _ Hb) as (bank & ix & Hw & _). unfold has_bank. rewrite Hw. cbn [negb].
    split_and!; [apply Hb|by eapply good_verified| |done]. pose proof (bu_room _ _ _ Hb).
    replace false with (first_height + tick_count es =? last_height) by (apply N.eqb_neq; lia).
    apply (good_ticks h0 per_tick per_tick_range es c); auto; [lia..|intros; lia].
  - unfold has_bank. rewrite (fi_working _ _ Hf). cbn [negb]. pose proof (fi_count _ _ Hf) as Hcnt.
    split_and!; [apply Hf|eapply good_verified; [apply Hf|done]| |].
    2:{ intros _. destruct (fi_start _ _ Hf) as [Hs ->]. split; [done|]. destruct (fi_last _ _ Hf) as (e & Hl & _).
        unfold last_of. by rewrite Hl. }
    replace true with (first_height + tick_count es =? last_height) by (by apply N.eqb_eq).
    apply (good_ticks h0 per_tick per_tick_range es 0); auto; [apply Hf|lia..|intros _; apply Hf].
Qed.
End leader.


(** ** From a reset to the end of the slot *)
Section block_accepted.
Context `{Sha256}.

(** the notifier agrees with the bank of the recorder *)
Definition recorder_wf (r : PohRecorder) : Prop :=
  match working_bank r with
  | None => ln_status (notifier r) = StandBy
  | Some w => notifier r = mkNotifier InProgress (Some (lb_slot (wb_bank w))) ∧
      ticks_per_slot r = lb_ticks_per_slot (wb_bank w)
  end.
Lemma clear_bank_wf schedule r : recorder_wf r →
  ∃ r', clear_bank schedule r = (Ok tt, r') ∧ working_bank r' = None ∧ ln_status (notifier r') = StandBy ∧
    sent r' = sent r ∧ connected r' = connected r ∧ ticks_per_slot r' = ticks_per_slot r.
Proof.
  unfold recorder_wf. destruct (working_bank r) as [w|] eqn:Hw.
  - intros [Hn Ht]. eexists. rewrite (clear_bank_ok schedule r w Hw Hn Ht). by split_and!.
  - intros Hn. exists r. unfold clear_bank. rewrite run_gets, Hw. by split_and!.
Qed.
Lemma reset_waiting schedule r reset_bank next b :
  recorder_wf r → connected r = true → leader_ok (lb_hashes_per_tick reset_bank) b →
  ticks_per_slot r = lb_ticks_per_slot b → lb_tick_height b = (lb_slot reset_bank + 1) * ticks_per_slot r →
  ∃ r', recorder_reset schedule reset_bank (Some next) r = (Ok tt, r') ∧
    waiting (lb_last_blockhash reset_bank) (lb_hashes_per_tick reset_bank) b (sent r) r' ∧ tick_height r' = lb_tick_height b.
Proof.
  intros Hwf Hc Hok Ht Hh. destruct (clear_bank_wf schedule r Hwf) as (r1 & Hcl & Hw & Hn & Hs & Hc1 & Ht1).
  unfold recorder_reset. rewrite (bind_ok _ _ _ _ _ Hcl). pose proof (lo_heights _ _ Hok) as Hhs.
  pose proof (per_tick_range schedule _ _ Hok) as Hr.
  assert (∃ p, poh_new_with_slot_info (E:=PohRecorderError) (lb_last_blockhash reset_bank) (lb_hashes_per_tick reset_bank) 0 = Ok p) as [p Hp].
  { unfold poh_new_with_slot_info, LOW_POWER_MODE. rewrite (proj2 (N.ltb_lt _ _)) by apply Hr. by eexists. }
  assert (∀ n, lb_hashes_per_tick reset_bank = Some n → n ≤ u64_max) as Hmax.
  { intros n Hn'. pose proof (lo_per_tick _ _ Hok n Hn'). lia. }
  destruct (poh_new_at _ _ p Hmax Hp) as [Hpa Hpt].
  assert (wrapping_mul (wrapping_add (lb_slot reset_bank) 1) (ticks_per_slot r1) = lb_tick_height b) as Hmul.
  { rewrite Ht1, Hh in *. destruct (N.eq_0_gt_0_cases (ticks_per_slot r)) as [Hz|Hz].
    - rewrite Hz, N.mul_0_r. unfold wrapping_mul. by rewrite N.mul_0_r.
    - rewrite wrapping_add_small by nia. unfold wrapping_mul, as_u64. apply N.mod_small. unfold u64_max in *. lia. }
  match goal with |- ∃ r', bind ?m ?k r1 = _ ∧ _ =>
    assert (∃ r2, m r1 = (Ok tt, r2) ∧ poh r2 = p ∧ tick_cache r2 = [] ∧ tick_height r2 = lb_tick_height b ∧
      working_bank r2 = None ∧ notifier r2 = notifier r1 ∧ sent r2 = sent r1 ∧ connected r2 = connected r1 ∧
      ticks_per_slot r2 = ticks_per_slot r1) as (r2 & Hr2 & H1 & H2 & H3 & H4 & H5 & H6 & H7 & H8) end.
  { unfold reset_poh. rewrite run_gets. unfold poh_reset. rewrite Hp, run_lift, !run_modify. eexists. split; [done|]. by split_and!. }
  rewrite (bind_ok _ _ _ _ _ Hr2). eexists. split; [done|]. split; [|done].
  destruct next as [next_first next_last].
  split; cbn; rewrite ?H1, ?H2, ?H3; try done.
  - split; cbn; congruence.
  - congruence.
  - congruence.
  - by apply good_nil.
  - apply ticks_from_nil.
  - change (len []) with 0. lia.
Qed.

(** C19: the block of a leader is accepted.  A recorder is reset to a bank, hashes, ticks and is
    asked to record in any order, is given the bank of the leader slot at any time, and
    goes on in any order.  Nothing panics, and the entries sent for that bank are a block that
    the other nodes accept: their hashes verify from the last hash of the parent, on any
    machine, and the checks on ticks pass, for a full slot exactly if the recorder has let go of the
    bank.  Then the recorder goes on from that bank, whose block hash is that of the last entry. *)
Theorem leader_block_accepted {E} schedule m r reset_bank next b track before after :
  recorder_wf r → connected r = true → machine_ok m →
  leader_ok (lb_hashes_per_tick reset_bank) b →
  ticks_per_slot r = lb_ticks_per_slot b → lb_tick_height b = (lb_slot reset_bank + 1) * ticks_per_slot r →
  lb_tick_height b + len before ≤ u64_max →
  ∃ r' l, (recorder_reset schedule reset_bank (Some next) ;; run_ops schedule before ;;
           set_bank schedule b track ;; run_ops schedule after) r = (Ok tt, r') ∧
    sent r' = sent r ++ (pair (lb_slot b) <$> l) ∧
    entries_verify (E:=E) m l.*1 (lb_last_blockhash reset_bank) = Ok true ∧
    (verify_ticks (lb_tick_height b) (lb_max_tick_height b) (lb_hashes_per_tick b) l.*1 (negb (has_bank r')) 0).1 = Ok tt ∧
    (has_bank r' = false → lb_slot (start_bank r') = lb_slot b ∧
       Some (lb_last_blockhash (start_bank r')) = entry_hash <$> list.last l.*1).
Proof.
  intros Hwf Hc Hm Hok Ht Hh Hmax.
  destruct (reset_waiting schedule r reset_bank next b Hwf Hc Hok Ht Hh) as (r1 & Hr1 & Hw1 & Hh1).
  destruct (waiting_ops schedule _ _ _ _ Hok before r1 Hw1) as (r2 & Hr2 & Hw2 & Hh2); [lia|].
  destruct (set_bank_waiting schedule _ _ _ _ Hok r2 track Hw2) as (r3 & Hr3 & Hs3); [lia|].
  destruct (in_slot_ops schedule _ _ _ _ Hok after r3 Hs3) as (r4 & Hr4 & Hs4).
  destruct (in_slot_accepted (E:=E) schedule _ _ _ _ Hok m r4 Hs4 Hm) as (es & (l & Hl & <-) & Hv & Hvt & Hend).
  exists r4, l. rewrite (bind_ok _ _ _ _ _ Hr1), (bind_ok _ _ _ _ _ Hr2), (bind_ok _ _ _ _ _ Hr3).
  rewrite (lo_bank _ _ Hok). by split_and!.
Qed.
End block_accepted.

(** ** A sample slot: four hashes a tick, two ticks a slot, one transaction *)
Import Codec.StandIns.

Definition reference_machine : Machine :=
  mkMachine (Some (λ _, zip_with (λ h n, N.iter n hash_once h))) true true
    (Some (λ hashes nums, Some (zip_with (λ h n, N.iter n hash_once h) hashes nums))).
Lemma reference_machine_ok : machine_ok reference_machine.
Proof. split; [by intros simd [= <-]|by intros gpu [= <-]]. Qed.

Definition sample_transaction : VersionedTransaction :=
  mkVersionedTransaction [replicate 64 7] (VLegacy (mkMessage (mkMessageHeader 1 0 0) [] (mkHash []) [])).
Definition parent_bank : LeaderBank := mkLeaderBank 5 2 12 (Some 4) (mkHash (replicate 32 9)) 12 true.
Definition leader_bank : LeaderBank := mkLeaderBank 7 2 16 (Some 4) (mkHash (replicate 32 9)) 12 false.
Definition sample_recorder : PohRecorder :=
  mkPohRecorder (mkPoh (mkHash []) 0 4 4 0) 0 parent_bank 1 [] None [] true None 0 0 (pubkey_of_N 1) 2 (mkNotifier StandBy None).
Definition ops_before : list RecorderOp := [OpHash 10; OpTick; OpHash 2; OpRecord 7 [sample_transaction]; OpHash 9; OpTick].
Definition ops_after : list RecorderOp :=
  [OpHash 1; OpRecord 7 [sample_transaction]; OpHash 1; OpRecord 7 [sample_transaction]; OpHash 4; OpTick; OpTick;
   OpRecord 7 [sample_transaction]].

Definition sample_slot := (recorder_reset (λ _, None) parent_bank (Some (7, 7)) ;; run_ops (λ _, None) ops_before ;;
  set_bank (λ _, None) leader_bank false ;; run_ops (λ _, None) ops_after) sample_recorder.
Lemma counts_sent (slot : N) (l : list (Entry * N)) :
  num_hashes <$> l.*1 = (λ x : N * (Entry * N), num_hashes x.2.1) <$> (pair slot <$> l).
Proof. by rewrite <-!list_fmap_compose. Qed.
Lemma leader_block_accepted_witness : ∃ l,
  sent sample_slot.2 = pair 7 <$> l ∧ num_hashes <$> l.*1 = [4; 4; 2; 2; 1; 3] ∧ has_bank sample_slot.2 = false ∧
  entries_verify (E:=unit) reference_machine l.*1 (mkHash (replicate 32 9)) = Ok true.
Proof.
  destruct (leader_block_accepted (E:=unit) (λ _, None) reference_machine sample_recorder parent_bank (7, 7)
    leader_bank false ops_before ops_after) as (r' & l & Hrun & Hsent & Hv & _).
  - done.
  - done.
  - apply reference_machine_ok.
  - split; [by intros n [= <-]|done|done|done].
  - done.
  - done.
  - by vm_compute.
  - assert (r' = sample_slot.2) as -> by (unfold sample_slot; rewrite Hrun; reflexivity).
    change (sent sample_recorder ++ (pair (lb_slot leader_bank) <$> l)) with (pair 7 <$> l) in Hsent.
    exists l. split; [exact Hsent|]. split; [|split; [vm_compute; reflexivity|exact Hv]].
    rewrite (counts_sent 7 l), <-Hsent. vm_compute. reflexivity.
Defined.
Lemma counts_countable l : forallb (λ e, num_hashes e <? u64_max) l = true → Forall countable l.
Proof.
  rewrite forallb_forall, list.Forall_forall. intros Hl e He. left. apply N.ltb_lt, Hl. by apply list_elem_of_In.
Qed.
Definition sample_block : list Entry := (λ x : N * (Entry * N), x.2.1) <$> sent sample_slot.2.
Lemma entry_verifiers_agree_witness :
  entries_verify (E:=unit) reference_machine sample_block (mkHash (replicate 32 9)) = Ok true.
Proof.
  assert (Forall countable sample_block) as Hc by (apply counts_countable; vm_compute; reflexivity).
  rewrite (proj1 (entry_verifiers_agree (E:=unit) reference_machine sample_block (mkHash (replicate 32 9)) 8
    (λ _, zip_with (λ h n, N.iter n hash_once h)) reference_machine_ok Hc ltac:(done) ltac:(by left))).
  vm_compute. reflexivity.
Defined.
