(* ===== verification/CacheRules.v ===== *)
(** * Theory of the remote loader and the accounts cache

    Which accounts the remote cache holds and when loading one ends, the size
    accounting of the write cache over all its operations, and what a lookup
    through it returns. *)

From stdpp Require Import sorting.
From S2P Require Import Prelude Sdk Message Account RemoteLoader AccountsCache Codec.

(** ** The remote cache *)
Section loader.
Context `{PubkeyDisplay, Sha256, KeypairBase58, !Bincode UpgradeableLoaderState}.

(** every cached account is marked as remote, and none has an ignored key *)
Definition loader_ok (l : RemoteAccountLoader) : Prop :=
  ∀ k a, account_cache l !! k = Some a → remote a = true ∧ ignored_account k = false.

Lemma loader_ok_new c : loader_ok (remote_loader_new c).
Proof. intros k a. simpl. by rewrite lookup_empty. Qed.

Lemma loader_ok_insert l k a :
  loader_ok l → ignored_account k = false →
  loader_ok (set_account_cache (<[k := remote_account a]> (account_cache l)) l).
Proof.
  intros Hl Hk k' a'. simpl. rewrite lookup_insert_Some. intros [[<- <-]|[_ ?]]; [done|by apply Hl].
Qed.
Lemma loader_ok_delete l k :
  loader_ok l → loader_ok (set_account_cache (delete k (account_cache l)) l).
Proof. intros Hl k' a'. simpl. rewrite lookup_delete_Some. intros [_ ?]. by apply Hl. Qed.

Lemma load_via_rpc_ok b k l : loader_ok l → loader_ok (load_account_via_rpc b k l).2.
Proof.
  intros Hl. unfold load_account_via_rpc. destruct (ignored_account k) eqn:Hk; [done|].
  destruct (rpc_get_account b k); [by apply loader_ok_insert|done].
Qed.

Lemma load_account_ok fuel b : ∀ k l r l',
  load_account fuel b k l = Some (r, l') → loader_ok l → loader_ok l'.
Proof.
  induction fuel as [|fuel IH]; intros k l r l'; simpl; [done|].
  destruct (negb (enable l) || _); [by intros [= _ <-]|].
  destruct (load_account_via_rpc b k l) as [o l1] eqn:Hv. intros Hrun Hl.
  assert (Hl1 : loader_ok l1).
  { pose proof (load_via_rpc_ok b k l Hl) as Hok. by rewrite Hv in Hok. }
  destruct o as [account|]; [|by simplify_eq].
  destruct (has_programdata_account account) as [pd|]; [|by simplify_eq].
  destruct (load_account fuel b pd l1) as [[r' l2]|] eqn:Hpd; simpl in Hrun; simplify_eq.
  by eapply IH.
Qed.

Lemma deactivate_ok k l : loader_ok l → loader_ok (deactivate_account k l).
Proof.
  intros Hl. unfold deactivate_account. destruct (negb (enable l) || _); [done|].
  destruct (get_account l k) as [a|]; [|done].
  destruct (has_programdata_account a); repeat apply loader_ok_delete; done.
Qed.

(** loading keeps the switch and the configuration *)
Lemma load_via_rpc_config b k l :
  enable (load_account_via_rpc b k l).2 = enable l ∧ config (load_account_via_rpc b k l).2 = config l.
Proof.
  unfold load_account_via_rpc. destruct (ignored_account k); [done|].
  by destruct (rpc_get_account b k).
Qed.

(** *** What loading leaves in the cache *)

(** the entries that changed hold what the base layer answers *)
Definition refreshed (b : BaseLayer) (l l' : RemoteAccountLoader) : Prop :=
  enable l' = enable l ∧ config l' = config l ∧
  ∀ k, account_cache l' !! k = account_cache l !! k ∨
       ∃ a, rpc_get_account b k = Some a ∧ ignored_account k = false ∧
            account_cache l' !! k = Some (remote_account a).

Lemma refreshed_refl b l : refreshed b l l.
Proof. split_and!; [done..|]. by left. Qed.
Lemma refreshed_trans b l1 l2 l3 : refreshed b l1 l2 → refreshed b l2 l3 → refreshed b l1 l3.
Proof.
  intros (E1 & C1 & R1) (E2 & C2 & R2). split_and!; [congruence..|]. intros k.
  destruct (R2 k) as [Hk|?]; [|by right]. rewrite Hk. apply R1.
Qed.
Lemma refreshed_entry b l l' k a :
  refreshed b l l' → rpc_get_account b k = Some a →
  account_cache l !! k = Some (remote_account a) → account_cache l' !! k = Some (remote_account a).
Proof. intros (_ & _ & R) Ha Hk. destruct (R k) as [->|(a' & ? & _ & ->)]; congruence. Qed.

Lemma load_via_rpc_refreshed b k l : refreshed b l (load_account_via_rpc b k l).2.
Proof.
  destruct (load_via_rpc_config b k l) as [He Hc]. split_and!; [done..|].
  unfold load_account_via_rpc. intros k'. destruct (ignored_account k) eqn:Hk; [by left|].
  destruct (rpc_get_account b k) as [a|] eqn:Ha; [|by left]. simpl.
  destruct (decide (k' = k)) as [->|Hne]; [right|left].
  - exists a. by rewrite lookup_insert_eq.
  - by rewrite lookup_insert_ne.
Qed.

Lemma load_account_refreshed fuel b : ∀ k l r l',
  load_account fuel b k l = Some (r, l') → refreshed b l l'.
Proof.
  induction fuel as [|fuel IH]; intros k l r l'; simpl; [done|].
  destruct (negb (enable l) || _); [intros [= _ <-]; apply refreshed_refl|].
  pose proof (load_via_rpc_refreshed b k l) as Hr.
  destruct (load_account_via_rpc b k l) as [o l1]. simpl in Hr.
  destruct o as [account|]; [|by intros [= _ <-]].
  destruct (has_programdata_account account) as [pd|]; [|by intros [= _ <-]].
  destruct (load_account fuel b pd l1) as [[r' l2]|] eqn:Hpd; simpl; [|done]. intros [= _ <-].
  eapply refreshed_trans; [done|by eapply IH].
Qed.

(** *** When loading ends *)

(** the chain of program data addresses from [k] ends within [n] accounts *)
Fixpoint chain_ends (n : nat) (b : BaseLayer) (k : Pubkey) : bool :=
  match n with
  | O => false
  | S n' =>
      if ignored_account k then true else
      match rpc_get_account b k with
      | None => true
      | Some a =>
          match has_programdata_account (remote_account a) with
          | None => true
          | Some pd => chain_ends n' b pd
          end
      end
  end.

Lemma load_account_result n b : ∀ k l,
  chain_ends n b k = true → enable l = true → ignored_account k = false →
  ∃ l', load_account n b k l = Some (remote_account <$> rpc_get_account b k, l').
Proof.
  induction n as [|n IH]; intros k l; simpl; [done|]. intros Hc He Hk. rewrite He, Hk. simpl.
  rewrite Hk in Hc. unfold load_account_via_rpc. rewrite Hk.
  destruct (rpc_get_account b k) as [a|] eqn:Ha; simpl; [|by eexists].
  destruct (has_programdata_account (remote_account a)) as [pd|]; [|by eexists].
  destruct (ignored_account pd) eqn:Hpd.
  - destruct n as [|n]; [done|]. simpl. rewrite He, Hpd. simpl. by eexists.
  - destruct (IH pd (set_account_cache (<[k:=remote_account a]> (account_cache l)) l)) as [l' ->];
      [done..|]. by eexists.
Qed.
End loader.

(** ** Size accounting *)

(** the bytes a slot cache, and a list of slot caches, hold *)
Definition slot_bytes (sc : SlotCacheInner) : N :=
  map_sum (λ x, account_len (ca_account x)) (sc_cache sc).
Definition held_bytes (l : list SlotCacheInner) : N := foldr (λ sc n, slot_bytes sc + n) 0 l.
Definition cache_bytes (c : AccountsCache) : N := map_sum slot_bytes (ac_cache c).

(** the counter of a slot cache is right, up to the width of the counter *)
Definition slot_ok (sc : SlotCacheInner) : Prop :=
  sc_size sc = as_u64 (slot_bytes sc) ∧
  ∀ k x, sc_cache sc !! k = Some x → ca_pubkey x = k.

(** the counters of the cache and of the slot caches taken out of it that are still alive *)
Record accounted (c : AccountsCache) (held : list SlotCacheInner) : Prop := {
  acc_total : total_size c = as_u64 (cache_bytes c + held_bytes held);
  acc_slots : ∀ slot sc, ac_cache c !! slot = Some sc → slot_ok sc;
  acc_held : Forall slot_ok held }.

Lemma as_u64_add_l a b : as_u64 (as_u64 a + b) = as_u64 (a + b).
Proof. unfold as_u64. by rewrite N.Div0.add_mod_idemp_l. Qed.
Lemma wrapping_add_u64 a b : wrapping_add (as_u64 a) b = as_u64 (a + b).
Proof. apply as_u64_add_l. Qed.
Lemma wrapping_sub_u64 a b : wrapping_sub (as_u64 (a + b)) b = as_u64 a.
Proof.
  unfold wrapping_sub. rewrite as_u64_add_l. unfold as_u64.
  pose proof (N.div_mod b 18446744073709551616). pose proof (N.mod_lt b 18446744073709551616).
  replace (a + b + (18446744073709551616 - b `mod` 18446744073709551616)) with
    (a + (b `div` 18446744073709551616 + 1) * 18446744073709551616) by lia.
  by rewrite N.Div0.mod_add.
Qed.
Lemma wrapping_sub_as_u64 a b : wrapping_sub a (as_u64 b) = wrapping_sub a b.
Proof. unfold wrapping_sub, as_u64. by rewrite N.Div0.mod_mod. Qed.

Lemma slot_ok_new : slot_ok new_inner.
Proof. split; [done|]. intros k x. simpl. by rewrite lookup_empty. Qed.

(** the effect of [insert] on the slot and on the shared counter *)
Lemma sc_insert_spec k a sc other :
  slot_ok sc →
  let '(item, sc', total) := sc_insert k a sc (as_u64 (slot_bytes sc + other)) in
  item = mkCachedAccount a k ∧ sc_cache sc' = <[k := item]> (sc_cache sc) ∧
  slot_ok sc' ∧ total = as_u64 (slot_bytes sc' + other) ∧ sc_is_frozen sc' = sc_is_frozen sc.
Proof.
  intros [Hsize Hkeys]. unfold sc_insert. set (n := account_len a).
  set (m := <[k := mkCachedAccount a k]> (sc_cache sc)).
  assert (Hm : ∀ k' x, m !! k' = Some x → ca_pubkey x = k').
  { intros k' x. unfold m. rewrite lookup_insert_Some. intros [[<- <-]|[_ ?]]; [done|auto]. }
  destruct (sc_cache sc !! k) as [old|] eqn:Hk; simpl.
  - set (o := account_len (ca_account old)).
    assert (Hs : map_sum (λ x, account_len (ca_account x)) m + o = n + slot_bytes sc).
    { apply (map_sum_insert (λ x, account_len (ca_account x)) k (mkCachedAccount a k) old _ Hk). }
    assert (Ho : o ≤ slot_bytes sc).
    { unfold slot_bytes, o.
      rewrite (map_sum_delete (λ x, account_len (ca_account x)) k old _ Hk). lia. }
    assert (Hadj : ∀ rest,
      (if 0 <? saturating_sub n o then wrapping_add (as_u64 (slot_bytes sc + rest)) (saturating_sub n o)
       else if 0 <? saturating_sub o n
            then wrapping_sub (as_u64 (slot_bytes sc + rest)) (saturating_sub o n)
            else as_u64 (slot_bytes sc + rest)) =
      as_u64 (map_sum (λ x, account_len (ca_account x)) m + rest)).
    { intros rest. unfold saturating_sub. destruct (N.ltb_spec 0 (n - o)).
      { rewrite wrapping_add_u64. f_equal. lia. }
      destruct (N.ltb_spec 0 (o - n)); [|f_equal; lia].
      rewrite <-(wrapping_sub_u64 (map_sum (λ x, account_len (ca_account x)) m + rest) (o - n)).
      do 2 f_equal. lia. }
    split_and!; [done..| |apply Hadj|done]. split; [|done]. simpl. rewrite Hsize.
    specialize (Hadj 0). rewrite !N.add_0_r in Hadj. exact Hadj.
  - assert (Hs : map_sum (λ x, account_len (ca_account x)) m = n + slot_bytes sc).
    { unfold m, n, slot_bytes. by rewrite map_sum_insert_new. }
    assert (Hb : ∀ x1 x2 x3 x4 x5, slot_bytes (mkSlotCacheInner m x1 x2 x3 x4 x5) = n + slot_bytes sc)
      by (intros; exact Hs).
    split_and!; [done..| |rewrite Hb, wrapping_add_u64; f_equal; lia|done].
    split; [|done]. rewrite Hb. simpl. rewrite Hsize, wrapping_add_u64. f_equal. lia.
Qed.

(** *** The operations keep the accounts *)
Lemma cache_bytes_split c slot :
  cache_bytes c = slot_bytes (default new_inner (slot_cache c slot)) +
                  map_sum slot_bytes (delete slot (ac_cache c)).
Proof.
  unfold cache_bytes, slot_cache. destruct (ac_cache c !! slot) as [sc|] eqn:Hs; simpl.
  - by apply map_sum_delete.
  - rewrite delete_id by done. unfold slot_bytes at 2. simpl. by rewrite map_sum_empty.
Qed.

Lemma store_accounted slot k a c held :
  accounted c held → accounted (store slot k a c).2 held.
Proof.
  intros [Ht Hs Hh]. unfold store. set (sc := default new_inner (slot_cache c slot)).
  set (rest := map_sum slot_bytes (delete slot (ac_cache c))).
  assert (Hsc : slot_ok sc).
  { unfold sc, slot_cache. destruct (ac_cache c !! slot) as [x|] eqn:Hx; [by eapply Hs|apply slot_ok_new]. }
  assert (Htot : total_size c = as_u64 (slot_bytes sc + (rest + held_bytes held))).
  { rewrite Ht, (cache_bytes_split c slot), N.add_assoc. done. }
  pose proof (sc_insert_spec k a sc (rest + held_bytes held) Hsc) as Hi. rewrite <-Htot in Hi.
  destruct (sc_insert k a sc (total_size c)) as [[item sc'] total].
  destruct Hi as (_ & _ & Hok & -> & _). split; simpl; [| |done].
  - f_equal. rewrite N.add_assoc. f_equal. unfold cache_bytes. simpl.
    rewrite (map_sum_delete slot_bytes slot sc') by apply lookup_insert_eq.
    by rewrite delete_insert_eq.
  - intros slot' x. rewrite lookup_insert_Some. intros [[_ <-]|[_ ?]]; [done|by eapply Hs].
Qed.

Lemma accounted_same c c' held :
  ac_cache c' = ac_cache c → total_size c' = total_size c → accounted c held → accounted c' held.
Proof. intros Hc Ht []. split; [|by rewrite Hc|done]. unfold cache_bytes. by rewrite Hc, Ht. Qed.

Lemma freeze_accounted slot c held : accounted c held → accounted (freeze_slot slot c) held.
Proof.
  intros [Ht Hs Hh]. split; simpl; [|intros slot' sc|done].
  - rewrite Ht. do 2 f_equal. unfold cache_bytes. simpl.
    destruct (ac_cache c !! slot) as [sc|] eqn:Hsc.
    + rewrite (map_sum_delete slot_bytes slot sc _ Hsc).
      rewrite (map_sum_delete slot_bytes slot (mark_slot_frozen sc)
        (alter mark_slot_frozen slot (ac_cache c))) by (by rewrite lookup_alter_eq, Hsc).
      by rewrite delete_alter_eq.
    + by rewrite alter_id by (intros ? E; by rewrite Hsc in E).
  - destruct (decide (slot' = slot)) as [->|Hne].
    + rewrite lookup_alter_eq. intros (x & Hx & ->)%fmap_Some. by apply Hs in Hx.
    + rewrite lookup_alter_ne by done. apply Hs.
Qed.

Lemma remove_slot_accounted slot sc c c' held :
  remove_slot slot c = (Some sc, c') → accounted c held → accounted c' (sc :: held).
Proof.
  intros [= Hsc <-] [Ht Hs Hh]. split; simpl.
  - rewrite Ht. f_equal. unfold cache_bytes. simpl.
    rewrite (map_sum_delete slot_bytes slot sc _ Hsc). lia.
  - intros slot' x. rewrite lookup_delete_Some. intros [_ ?]. by eapply Hs.
  - constructor; [by eapply Hs|done].
Qed.

Lemma drop_accounted sc l1 l2 c :
  accounted c (l1 ++ sc :: l2) → accounted (drop_slot_cache sc c) (l1 ++ l2).
Proof.
  intros [Ht Hs [Hl1 [[Hsz _] Hl2]%list.Forall_cons]%list.Forall_app]. split; simpl;
    [|done|by apply list.Forall_app].
  rewrite Ht, Hsz, wrapping_sub_as_u64.
  replace (held_bytes (l1 ++ sc :: l2)) with (held_bytes (l1 ++ l2) + slot_bytes sc).
  - by rewrite N.add_assoc, wrapping_sub_u64.
  - clear. induction l1 as [|x l1 IH]; simpl; lia.
Qed.

Lemma held_bytes_app l1 l2 : held_bytes (l1 ++ l2) = held_bytes l1 + held_bytes l2.
Proof. induction l1; simpl; lia. Qed.
Lemma held_bytes_map m : held_bytes (map_to_list m).*2 = map_sum slot_bytes (m : gmap N SlotCacheInner).
Proof.
  unfold map_sum. rewrite map_fold_foldr. unfold held_bytes. rewrite foldr_fmap.
  induction (map_to_list m) as [|[i x] l IH]; simpl; [done|]. by rewrite IH.
Qed.
Lemma map_sum_filter (P : N * SlotCacheInner → Prop) `{∀ x, Decision (P x)} m :
  map_sum slot_bytes m = map_sum slot_bytes (filter P m) + map_sum slot_bytes (filter (λ x, ¬ P x) m).
Proof.
  induction m as [|i x m Hi IH] using map_ind.
  { by rewrite !map_filter_empty, map_sum_empty. }
  rewrite map_sum_insert_new, IH by done. rewrite !map_filter_insert.
  destruct (decide (P (i, x))) as [HP|HP].
  - rewrite decide_False by naive_solver. rewrite map_sum_insert_new by
      (apply map_lookup_filter_None; by left).
    rewrite (delete_id m) by done. lia.
  - rewrite decide_True by naive_solver. rewrite (delete_id m) by done.
    rewrite (map_sum_insert_new slot_bytes i x (filter (λ x, ¬ P x) m)) by
      (apply map_lookup_filter_None; by left). lia.
Qed.

Lemma remove_le_accounted max_root c held :
  accounted c held →
  accounted (remove_slots_le max_root c).2 ((remove_slots_le max_root c).1.*2 ++ held).
Proof.
  intros [Ht Hs Hh]. unfold remove_slots_le. split; simpl.
  - rewrite Ht, held_bytes_app, held_bytes_map. f_equal. unfold cache_bytes. simpl.
    rewrite (map_sum_filter (λ e, e.1 ≤ max_root)). lia.
  - intros slot sc [? _]%map_lookup_filter_Some. by eapply Hs.
  - apply list.Forall_app. split; [|done]. rewrite list.Forall_forall.
    intros sc ([slot x] & -> & Hx)%list_elem_of_fmap.
    apply elem_of_map_to_list in Hx as [? _]%map_lookup_filter_Some. by eapply Hs.
Qed.

(** ** Runs of the cache *)
Section runs.
Context `{PubkeyDisplay, Sha256, KeypairBase58, !Bincode UpgradeableLoaderState}.

Lemma load_accounted slot k c held : accounted c held → accounted (load slot k c).2 held.
Proof.
  intros Hc. unfold load. destruct (_ ≫= _); [done|].
  destruct (get_account _ k) as [a|]; [|done].
  pose proof (store_accounted slot k a c held Hc) as Hs. by destruct (store slot k a c).
Qed.

(** one call on the cache, with the slot caches that callers took out of it *)
Inductive cache_step : AccountsCache * list SlotCacheInner → AccountsCache * list SlotCacheInner → Prop :=
| cs_store slot k a c held : cache_step (c, held) ((store slot k a c).2, held)
| cs_load slot k c held : cache_step (c, held) ((load slot k c).2, held)
| cs_freeze slot c held : cache_step (c, held) (freeze_slot slot c, held)
| cs_remove_slot slot sc c c' held :
    remove_slot slot c = (Some sc, c') → cache_step (c, held) (c', sc :: held)
| cs_remove_le max_root c held :
    cache_step (c, held) ((remove_slots_le max_root c).2, (remove_slots_le max_root c).1.*2 ++ held)
| cs_drop sc l1 l2 c : cache_step (c, l1 ++ sc :: l2) (drop_slot_cache sc c, l1 ++ l2)
| cs_add_root root c held : cache_step (c, held) (add_root root c, held)
| cs_clear_roots max_root c held : cache_step (c, held) ((clear_roots max_root c).2, held)
| cs_max_root root c held : cache_step (c, held) (set_max_flush_root root c, held)
| cs_migrate fuel b ks c c' held :
    load_accounts_from_remote fuel b ks c = Some c' → cache_step (c, held) (c', held)
| cs_deactivate ks c held : cache_step (c, held) (deactivate_remote_accounts ks c, held).

Lemma cache_step_accounted x y : cache_step x y → accounted x.1 x.2 → accounted y.1 y.2.
Proof.
  intros [] Hc; simpl in *; eauto using store_accounted, load_accounted, freeze_accounted,
    remove_slot_accounted, remove_le_accounted, drop_accounted.
  - by apply remove_le_accounted.
  - unfold add_root. case_match; [by apply (accounted_same c)|done].
  - unfold clear_roots. destruct max_root as [r|]; by apply (accounted_same c).
  - by apply (accounted_same c).
  - unfold load_accounts_from_remote in *. destruct (load_accounts _ _ _ _); simplify_eq/=.
    by apply (accounted_same c).
  - by apply (accounted_same c).
Qed.

Lemma cache_loader_ok x y :
  cache_step x y → loader_ok (remote_loader x.1) → loader_ok (remote_loader y.1).
Proof.
  intros [] Hl; simpl in *; try done.
  - unfold store. by destruct (sc_insert _ _ _ _) as [[? ?] ?].
  - unfold load. destruct (_ ≫= _); [done|]. destruct (get_account _ _); [|done].
    unfold store. by destruct (sc_insert _ _ _ _) as [[? ?] ?].
  - unfold remove_slot in *. by simplify_eq/=.
  - unfold add_root. by case_match.
  - unfold clear_roots. by destruct max_root.
  - unfold load_accounts_from_remote in *.
    destruct (load_accounts _ _ _ _) as [l|] eqn:Hls; simplify_eq/=.
    revert Hl Hls. generalize (remote_loader c). induction ks as [|k ks IH]; intros l0 Hl; simpl.
    + by intros [= <-].
    + destruct (load_account _ _ _ _) as [[r l1]|] eqn:Hl1; simpl; [|done]. apply IH.
      by eapply load_account_ok.
  - unfold deactivate_remote_accounts. simpl. revert Hl. generalize (remote_loader c).
    induction ks as [|k ks IH]; intros l Hl; simpl; [done|]. by apply IH, deactivate_ok.
Qed.

(** ** The theorems *)

(** C29: whatever calls are made on the accounts cache, its size counter equals the bytes of
    account data in its slots plus those of the removed slot caches still in use,
    each slot's counter equals the bytes of that slot (both exactly, as long as the
    bytes fit in 64 bits), a cached account is stored under its own key, and every
    account of the remote cache is marked remote. *)
Theorem cache_accounting cfg c held :
  rtc cache_step (accounts_cache_default (remote_loader_new cfg), []) (c, held) →
  cache_bytes c + held_bytes held ≤ u64_max →
  total_size c = cache_bytes c + held_bytes held ∧
  (∀ slot sc, ac_cache c !! slot = Some sc → sc_size sc = slot_bytes sc ∧
     ∀ k x, sc_cache sc !! k = Some x → ca_pubkey x = k) ∧
  (∀ k a, account_cache (remote_loader c) !! k = Some a → remote a = true).
Proof.
  intros Hrun Hle.
  assert (Hinv : accounted c held ∧ loader_ok (remote_loader c)).
  { change (accounted (c, held).1 (c, held).2 ∧ loader_ok (remote_loader (c, held).1)).
    eapply (rtc_ind_r (λ x, accounted x.1 x.2 ∧ loader_ok (remote_loader x.1))); [| |exact Hrun].
    - split; [|apply loader_ok_new]. split; [done| |constructor]. intros slot sc. simpl.
      by rewrite lookup_empty.
    - intros y z _ Hstep [Ha Hl]. split; [by eapply cache_step_accounted|by eapply cache_loader_ok]. }
  destruct Hinv as [[Ht Hs _] Hl]. split_and!.
  - rewrite Ht. apply N.mod_small. unfold u64_max in Hle. lia.
  - intros slot sc Hsc. destruct (Hs slot sc Hsc) as [Hsz Hk]. split; [|done].
    rewrite Hsz. apply N.mod_small. unfold cache_bytes in Hle.
    rewrite (map_sum_delete slot_bytes slot sc _ Hsc) in Hle. unfold u64_max in Hle. lia.
  - intros k a Ha. by apply Hl in Ha as [? _].
Qed.

Lemma store_lookup slot k a c :
  let '(item, c') := store slot k a c in
  item = mkCachedAccount a k ∧
  (slot_cache c' slot ≫= λ sc, get_cloned sc k) = Some item ∧ remote_loader c' = remote_loader c.
Proof.
  unfold store, sc_insert. set (sc := default new_inner (slot_cache c slot)).
  destruct (sc_cache sc !! k) as [old|]; simpl; unfold slot_cache; simpl;
    rewrite lookup_insert_eq; simpl; unfold get_cloned; simpl; by rewrite lookup_insert_eq.
Qed.

Lemma load_cached slot k c x :
  (slot_cache c slot ≫= λ sc, get_cloned sc k) = Some x → load slot k c = (Some x, c).
Proof. intros Hx. unfold load. by rewrite Hx. Qed.

(** Migrating a base-layer account makes it readable on the grid: with the
    remote cache on, a key that is not ignored, an account the base layer has and a
    program data chain that ends, the call returns, the account is reported as
    remote, and the next lookup in a slot that has no copy of its own returns the
    base layer's account, marked remote. *)
Theorem migrated_account_served n b slot k a c :
  enable (remote_loader c) = true → ignored_account k = false → chain_ends n b k = true →
  rpc_get_account b k = Some a → (slot_cache c slot ≫= λ sc, get_cloned sc k) = None →
  ∃ c', load_accounts_from_remote n b [k] c = Some c' ∧ has_account_from_remote c' k = true ∧
    (load slot k c').1 = Some (mkCachedAccount (remote_account a) k).
Proof.
  intros He Hk Hc Ha Hslot. unfold load_accounts_from_remote. simpl.
  destruct (load_account_result n b k (remote_loader c)) as [l' Hl']; [done..|].
  rewrite Hl'. simpl. eexists. split; [done|].
  pose proof (load_account_refreshed _ _ _ _ _ _ Hl') as (He' & _ & _).
  assert (Hcache : account_cache l' !! k = Some (remote_account a)).
  { destruct n as [|n]; [done|]. revert Hl'. simpl. rewrite He, Hk. simpl.
    unfold load_account_via_rpc. rewrite Hk, Ha. simpl.
    destruct (has_programdata_account (remote_account a)) as [pd|].
    - destruct (load_account n b pd _) as [[r l2]|] eqn:Hpd; simpl; [|done]. intros [= <-].
      eapply refreshed_entry; [by eapply load_account_refreshed|done|]. simpl. by rewrite lookup_insert_eq.
    - intros [= <-]. simpl. by rewrite lookup_insert_eq. }
  assert (Hget : get_account l' k = Some (remote_account a)).
  { unfold get_account. by rewrite He', He, Hk. }
  unfold has_account_from_remote, has_account. cbn [remote_loader set_remote_loader].
  rewrite He', He, Hk, Hcache. split; [done|].
  unfold load. cbn [remote_loader set_remote_loader]. unfold slot_cache in *. simpl. rewrite Hslot, Hget.
  pose proof (store_lookup slot k (remote_account a) (set_remote_loader l' c)) as Hst.
  destruct (store _ _ _ _) as [item c2]. by destruct Hst as (-> & _).
Qed.

(** C37: a lookup keeps a copy of the remote account in the slot.  From then on
    the slot returns that copy: neither deactivating accounts nor loading them again
    changes what it returns. *)
Theorem loaded_copy_outlives_deactivation slot k c x c1 :
  load slot k c = (Some x, c1) →
  (∀ ks, (load slot k (deactivate_remote_accounts ks c1)).1 = Some x) ∧
  (∀ n b ks c2, load_accounts_from_remote n b ks c1 = Some c2 → (load slot k c2).1 = Some x).
Proof.
  intros Hload.
  assert (Hin : (slot_cache c1 slot ≫= λ sc, get_cloned sc k) = Some x).
  { unfold load in Hload. destruct (slot_cache c slot ≫= _) as [y|] eqn:Hy; [by simplify_eq|].
    destruct (get_account _ k) as [a|]; [|done].
    pose proof (store_lookup slot k a c) as Hst. destruct (store slot k a c).
    destruct Hst as (_ & Hst & _). by simplify_eq. }
  assert (Hany : ∀ l, (load slot k (set_remote_loader l c1)).1 = Some x).
  { intros l. by rewrite (load_cached _ _ _ x). }
  split; [intros ks; apply Hany|]. intros n b ks c2. unfold load_accounts_from_remote.
  destruct (load_accounts n b ks _); simpl; [|done]. intros [= <-]. apply Hany.
Qed.

(** Loading an account ends with the base layer's answer when the chain of program
    data addresses ends; the account and its program data are then in the
    remote cache, and every other entry is unchanged or holds what the base layer
    answers. *)
Theorem load_account_spec n b k a l :
  enable l = true → ignored_account k = false → chain_ends n b k = true →
  rpc_get_account b k = Some a →
  ∃ l', load_account n b k l = Some (Some (remote_account a), l') ∧ refreshed b l l' ∧
    ∀ pd a', has_programdata_account (remote_account a) = Some pd → rpc_get_account b pd = Some a' →
      ignored_account pd = false → get_account l' pd = Some (remote_account a').
Proof.
  intros He Hk Hc Ha. destruct (load_account_result n b k l) as [l' Hl']; [done..|].
  rewrite Ha in Hl'. exists l'. split; [done|]. pose proof (load_account_refreshed _ _ _ _ _ _ Hl') as Hr.
  split; [done|]. intros pd a' Hpd Ha' Hig. destruct Hr as (He' & _ & _). unfold get_account.
  rewrite He', He, Hig. simpl. destruct n as [|n]; [done|]. revert Hl' Hc. simpl. rewrite He, Hk. simpl.
  unfold load_account_via_rpc. rewrite Hk, Ha, Hpd. simpl.
  destruct (load_account n b pd _) as [[r l2]|] eqn:H2; simpl; [|done]. intros [= <-] Hc.
  destruct n as [|n]; [done|]. revert H2. simpl. rewrite He, Hig. simpl.
  unfold load_account_via_rpc. rewrite Hig, Ha'. simpl.
  destruct (has_programdata_account (remote_account a')) as [pd2|].
  - destruct (load_account n b pd2 _) as [[r3 l3]|] eqn:H3; simpl; [|done]. intros [= _ <-].
    eapply refreshed_entry; [by eapply load_account_refreshed|done|]. simpl. by rewrite lookup_insert_eq.
  - intros [= _ <-]. simpl. by rewrite lookup_insert_eq.
Qed.

(** C38: an account whose data names itself as its program data is loaded for ever:
    no recursion depth is enough. *)
Theorem self_referential_load_diverges fuel b k a l :
  enable l = true → ignored_account k = false → rpc_get_account b k = Some a →
  has_programdata_account (remote_account a) = Some k → load_account fuel b k l = None.
Proof.
  intros He Hk Ha Hpd. revert l He. induction fuel as [|fuel IH]; intros l He; simpl; [done|].
  rewrite He, Hk. simpl. unfold load_account_via_rpc. rewrite Hk, Ha, Hpd. by rewrite IH.
Qed.

(** the key goes when [k] is deactivated: [k] itself, or its program data *)
Definition goes_with (l : RemoteAccountLoader) (k k' : Pubkey) : bool :=
  match get_account l k with
  | Some a => bool_decide (k' = k) || bool_decide (has_programdata_account a = Some k')
  | None => false
  end.

(** deactivating an account removes it and its program data from the
    remote cache, and nothing else. *)
Theorem deactivate_account_spec k l k' :
  account_cache (deactivate_account k l) !! k' =
  if goes_with l k k' then None else account_cache l !! k'.
Proof.
  unfold deactivate_account, goes_with. destruct (negb (enable l) || ignored_account k) eqn:He.
  { unfold get_account. by rewrite He. }
  destruct (get_account l k) as [a|]; [|done].
  destruct (has_programdata_account a) as [pd|]; simpl.
  - destruct (decide (k' = pd)) as [->|Hpd].
    { by rewrite lookup_delete_eq, orb_comm, (bool_decide_eq_true_2 (Some _ = _)). }
    rewrite lookup_delete_ne by done. rewrite (bool_decide_eq_false_2 (Some _ = _)) by congruence.
    rewrite orb_false_r. case_bool_decide as Hk; [subst; apply lookup_delete_eq|].
    by rewrite lookup_delete_ne.
  - rewrite orb_false_r. case_bool_decide as Hk; [subst; apply lookup_delete_eq|].
    by rewrite lookup_delete_ne.
Qed.

(** Flushing up to a root: [remove_slots_le] hands out exactly the slots up
    to the root and keeps the later ones, and [clear_roots] does the same with the
    unflushed roots. *)
Theorem flush_up_to_root root c :
  root < u64_max →
  (∀ slot sc, (slot, sc) ∈ (remove_slots_le root c).1 ↔ ac_cache c !! slot = Some sc ∧ slot ≤ root) ∧
  (∀ slot sc, ac_cache (remove_slots_le root c).2 !! slot = Some sc ↔
     ac_cache c !! slot = Some sc ∧ root < slot) ∧
  ∃ roots c', clear_roots (Some root) c = (roots, c') ∧
    (∀ r, r ∈ roots ↔ r ∈ maybe_unflushed_roots c ∧ r ≤ root) ∧
    (∀ r, r ∈ maybe_unflushed_roots c' ↔ r ∈ maybe_unflushed_roots c ∧ root < r).
Proof.
  intros Hroot. split_and!.
  - intros slot sc. simpl. by rewrite elem_of_map_to_list, map_lookup_filter_Some.
  - intros slot sc. simpl. rewrite map_lookup_filter_Some. simpl. by rewrite N.nle_gt.
  - unfold clear_roots. rewrite wrapping_add_small by lia.
    do 2 eexists. split; [done|]. simpl. split; intros r; rewrite elem_of_filter; split; naive_solver lia.
Qed.

(** [cached_frozen_slots] lists each frozen slot once, in increasing order. *)
Theorem cached_frozen_slots_spec c :
  StronglySorted N.le (cached_frozen_slots c) ∧ NoDup (cached_frozen_slots c) ∧
  ∀ slot, slot ∈ cached_frozen_slots c ↔
    ∃ sc, ac_cache c !! slot = Some sc ∧ sc_is_frozen sc = true.
Proof.
  unfold cached_frozen_slots. split_and!.
  - apply (StronglySorted_merge_sort N.le).
  - rewrite (merge_sort_Permutation N.le). apply NoDup_fst_map_to_list.
  - intros slot. rewrite (merge_sort_Permutation N.le), list_elem_of_fmap. split.
    + intros ([i sc] & -> & Hin). apply elem_of_map_to_list, map_lookup_filter_Some in Hin. by exists sc.
    + intros (sc & Hsc & Hf). exists (slot, sc). split; [done|].
      by apply elem_of_map_to_list, map_lookup_filter_Some.
Qed.
End runs.

(** ** Closed runs *)
Import Codec.Bincodes Codec.StandIns.

(** a base layer with a program at key 1 whose program data is at 2, a plain
    account at 3, and a program at 4 that names itself *)
Definition program_bytes (pd : Pubkey) : list N := default [] (serialize (Program pd)).
Definition sample_program (pd : Pubkey) : Account.Account :=
  Account.mkAccount 7 (program_bytes pd) bpf_loader_upgradeable_id true 0.
Definition sample_plain : Account.Account := Account.mkAccount 9 [5; 6] (pubkey_of_N 40) false 0.
Definition sample_base : BaseLayer := mkBaseLayer
  (λ k, if key_eqb k (pubkey_of_N 1) then Some (sample_program (pubkey_of_N 2))
        else if key_eqb k (pubkey_of_N 2) then Some sample_plain
        else if key_eqb k (pubkey_of_N 3) then Some sample_plain
        else if key_eqb k (pubkey_of_N 4) then Some (sample_program (pubkey_of_N 4)) else None)
  (Some (mkHash [1])) (λ _, Some [7]).
Definition sample_loader : RemoteAccountLoader := remote_loader_new None.
Definition sample_cache : AccountsCache := accounts_cache_default sample_loader.

Lemma cache_accounting_witness :
  total_size (store 5 (pubkey_of_N 3) (remote_account sample_plain) sample_cache).2 = 2.
Proof.
  destruct (cache_accounting None (store 5 (pubkey_of_N 3) (remote_account sample_plain) sample_cache).2 [])
    as [-> _].
  - apply rtc_once. apply cs_store.
  - by vm_compute.
  - by vm_compute.
Defined.

Lemma migrated_account_served_witness :
  ∃ c', load_accounts_from_remote 2 sample_base [pubkey_of_N 1] sample_cache = Some c' ∧
    has_account_from_remote c' (pubkey_of_N 1) = true ∧
    (load 5 (pubkey_of_N 1) c').1 =
      Some (mkCachedAccount (remote_account (sample_program (pubkey_of_N 2))) (pubkey_of_N 1)).
Proof. apply migrated_account_served; by vm_compute. Defined.

Definition migrated_cache : AccountsCache :=
  default sample_cache (load_accounts_from_remote 2 sample_base [pubkey_of_N 3] sample_cache).
Lemma loaded_copy_outlives_deactivation_witness :
  (load 5 (pubkey_of_N 3)
     (deactivate_remote_accounts [pubkey_of_N 3] (load 5 (pubkey_of_N 3) migrated_cache).2)).1 =
  Some (mkCachedAccount (remote_account sample_plain) (pubkey_of_N 3)).
Proof.
  apply (loaded_copy_outlives_deactivation 5 (pubkey_of_N 3) migrated_cache
    (mkCachedAccount (remote_account sample_plain) (pubkey_of_N 3))). by vm_compute.
Defined.

Lemma load_account_spec_witness :
  ∃ l', load_account 2 sample_base (pubkey_of_N 1) sample_loader =
      Some (Some (remote_account (sample_program (pubkey_of_N 2))), l') ∧
    get_account l' (pubkey_of_N 2) = Some (remote_account sample_plain).
Proof.
  destruct (load_account_spec 2 sample_base (pubkey_of_N 1) (sample_program (pubkey_of_N 2))
    sample_loader) as (l' & Hl & _ & Hpd); [by vm_compute..|].
  exists l'. split; [done|]. apply Hpd; by vm_compute.
Defined.

Lemma self_referential_load_diverges_witness :
  load_account 100 sample_base (pubkey_of_N 4) sample_loader = None.
Proof.
  apply (self_referential_load_diverges 100 sample_base (pubkey_of_N 4)
    (sample_program (pubkey_of_N 4))); by vm_compute.
Defined.

Lemma flush_up_to_root_witness :
  ∃ roots c', clear_roots (Some 4) (add_root 3 (add_root 9 sample_cache)) = (roots, c') ∧
    3 ∈ roots ∧ 9 ∈ maybe_unflushed_roots c'.
Proof.
  destruct (flush_up_to_root 4 (add_root 3 (add_root 9 sample_cache)))
    as (_ & _ & roots & c' & Hc & Hr & Hr'); [by vm_compute|].
  exists roots, c'. rewrite Hr, Hr'. split; [done|]. vm_compute. set_solver.
Defined.
