(* ===== verification/Bank.v ===== *)
(** * Executing a transaction in a bank ([runtime/src/bank.rs])

    The rent-state checks around a transaction
    ([runtime/src/accounts/account_rent_state.rs] and
    [runtime/src/bank/transaction_account_state_info.rs]), the execution of a loaded
    transaction, and HyperGrid's two hooks: loading and deactivating the remote
    accounts a transaction names, and posting its result to the base layer.
    Timings, metrics, error counters and the recording of inner instructions are
    left out. *)

From S2P Require Import Prelude Sdk Message Rent Account TransactionContext LogCollector.
From S2P Require Import InvokeContext MessageProcessor MigraterProgram RemoteLoader AccountsCache.

(** ** Rent states *)
Module RentState.
Inductive t :=
| Uninitialized
| RentPaying (lamports data_size : N)
| RentExempt.
End RentState.

Definition rent_state_from_account (account : AccountSharedData) (r : Rent) : RentState.t :=
  if lamports account =? 0 then RentState.Uninitialized else
  if is_exempt r (lamports account) (len (data account)) then RentState.RentExempt
  else RentState.RentPaying (lamports account) (len (data account)).

Definition transition_allowed_from (post pre : RentState.t) : bool :=
  match post with
  | RentState.Uninitialized | RentState.RentExempt => true
  | RentState.RentPaying post_lamports post_data_size =>
      match pre with
      | RentState.Uninitialized | RentState.RentExempt => false
      | RentState.RentPaying pre_lamports pre_data_size =>
          (post_data_size =? pre_data_size) && (post_lamports <=? pre_lamports)
      end
  end.

Definition check_rent_state_with_account (pre post : RentState.t) (address : Pubkey)
    (account_index : N) : result TransactionError.t unit :=
  if negb (key_eqb address incinerator_id) && negb (transition_allowed_from post pre)
  then Err (TransactionError.InsufficientFundsForRent (as_u8 account_index)) else Ok tt.

Definition check_rent_state (pre post : option RentState.t) (t : TransactionContext) (index : N) :
  result TransactionError.t unit :=
  match pre, post with
  | Some pre, Some post =>
      let! address := unwrap (getN (account_keys t) index) in
      let! account := unwrap (ta_get (tx_accounts t) index) in
      if cell_borrowed account then Panic else check_rent_state_with_account pre post address index
  | _, _ => Ok tt
  end.

(** the state of the account at [i]: [None] for a read-only account *)
Definition account_state_info (r : Rent) (t : TransactionContext) (message : SanitizedMessage)
    (i : N) : result TransactionError.t (option RentState.t) :=
  if sm_is_writable message i then
    match get_account_at_index t (as_u16 i) with
    | Ok account =>
        if cell_borrowed account then Panic
        else Ok (Some (rent_state_from_account (cell_value account) r))
    | _ => Ok None
    end
  else Ok None.

Definition get_transaction_account_state_info (r : Rent) (t : TransactionContext)
    (message : SanitizedMessage) : result TransactionError.t (list (option RentState.t)) :=
  rmapM (account_state_info r t message) (rangeN (account_keys_len (sm_account_keys message))).

Fixpoint verify_state_changes (t : TransactionContext) (i : N)
    (l : list (option RentState.t * option RentState.t)) : result TransactionError.t unit :=
  match l with
  | [] => Ok tt
  | (pre, post) :: l' =>
      check! check_rent_state pre post t (as_u16 i) in verify_state_changes t (i + 1) l'
  end.
Definition verify_transaction_account_state_changes (t : TransactionContext)
    (pre_state_infos post_state_infos : list (option RentState.t)) : result TransactionError.t unit :=
  verify_state_changes t 0 (zip pre_state_infos post_state_infos).

(** ** The transaction *)
Record SanitizedTransaction := mkSanitizedTransaction {
  tx_message : SanitizedMessage;
  message_hash : Hash;
  is_simple_vote_transaction : bool;
  tx_signatures : list Signature }.

(** [None]: an account is missing or the sum does not fit in an [u128] *)
Fixpoint lamports_sum_loop (accounts : list (Pubkey * AccountSharedData)) (l : list N) (sum : N) :
  option N :=
  match l with
  | [] => Some sum
  | i :: l' =>
      account ← getN accounts i;
      sum' ← checked_add u128_max sum (lamports account.2);
      lamports_sum_loop accounts l' sum'
  end.
Definition transaction_accounts_lamports_sum (accounts : list (Pubkey * AccountSharedData))
    (message : SanitizedMessage) : option N :=
  lamports_sum_loop accounts (rangeN (account_keys_len (sm_account_keys message))) 0.

(** ** HyperGrid: the remote accounts of a transaction *)

(** the capture of [Regex::new(r"Fake NFT New Value: (\d+)")] in a line (crate
    [regex]): the first group of the leftmost match *)
Class NftValueRegex := nft_value_capture : string → option string.
Class NftValueRegexLaws `{NftValueRegex} := {
  capture_in_line : ∀ line v, nft_value_capture line = Some v →
    ∃ pre post, line = pre +:+ "Fake NFT New Value: " +:+ v +:+ post;
  capture_value : ∀ n : N,
    nft_value_capture ("Program log: Fake NFT New Value: " +:+ pretty n) = Some (pretty n) }.

(** [str::parse::<u64>] *)
Definition digit_of (c : Ascii.ascii) : option N :=
  let n := Ascii.N_of_ascii c in if (48 <=? n) && (n <=? 57) then Some (n - 48) else None.
Fixpoint parse_digits (s : string) (acc : N) : option N :=
  match s with
  | EmptyString => Some acc
  | String c s' =>
      d ← digit_of c;
      m ← (if acc * 10 <=? u64_max then Some (acc * 10) else None);
      acc' ← checked_add u64_max m d;
      parse_digits s' acc'
  end.
Definition parse_u64 (s : string) : option N :=
  match s with
  | EmptyString => None
  | String c s' =>
      if Ascii.N_of_ascii c =? 43 then (* "+" *)
        if String.eqb s' EmptyString then None else parse_digits s' 0
      else parse_digits s 0
  end.

Section remote_hooks.
Context `{PubkeyDisplay, Sha256, KeypairBase58, NftValueRegex,
  !Bincode UpgradeableLoaderState, !Bincode ProgramInstruction}.

(** [check_remote_accounts]; [None] is a recursion of [load_account] deeper than
    the fuel *)
Definition migrate_account (fuel : nat) (b : BaseLayer) (message : SanitizedMessage)
    (ix : CompiledInstruction) (instruction : ProgramInstruction) (account_index : N)
    (c : AccountsCache) : option AccountsCache :=
  if sm_is_signer message account_index || (account_index =? program_id_index ix) then Some c else
  let accounts := option_list (account_keys_get (sm_account_keys message) account_index) in
  match instruction with
  | MigrateRemoteAccounts => load_accounts_from_remote fuel b accounts c
  | DeactivateRemoteAccounts => Some (deactivate_remote_accounts accounts c)
  end.

Fixpoint ofold {A S} (f : A → S → option S) (l : list A) (s : S) : option S :=
  match l with [] => Some s | x :: l' => s' ← f x s; ofold f l' s' end.

Definition check_remote_instruction (fuel : nat) (b : BaseLayer) (message : SanitizedMessage)
    (ix : CompiledInstruction) (c : AccountsCache) : option AccountsCache :=
  match account_keys_get (sm_account_keys message) (program_id_index ix) with
  | None => Some c
  | Some program_id =>
      if negb (key_eqb program_id sonic_account_migrater_id) then Some c else
      match limited_deserialize (ci_data ix) with
      | Ok instruction => ofold (migrate_account fuel b message ix instruction) (ci_accounts ix) c
      | _ => Some c
      end
  end.

Definition check_remote_accounts (fuel : nat) (b : BaseLayer) (tx : SanitizedTransaction)
    (c : AccountsCache) : option AccountsCache :=
  if is_simple_vote_transaction tx then Some c else
  ofold (check_remote_instruction fuel b (tx_message tx)) (sm_instructions (tx_message tx)) c.

(** the first instruction of the sonic program and the account it is about;
    [ix.accounts[0]] panics on an instruction without accounts *)
Fixpoint find_sonic_instruction {E} (l : RemoteAccountLoader) (keys : AccountKeys)
    (instructions : list CompiledInstruction) : result E (option (Pubkey * option Pubkey)) :=
  match instructions with
  | [] => Ok None
  | ix :: rest =>
      match account_keys_get keys (program_id_index ix) with
      | Some program_id =>
          if is_sonic_program l program_id then
            let! a := unwrap (getN (ci_accounts ix) 0) in
            Ok (Some (program_id, account_keys_get keys a))
          else find_sonic_instruction l keys rest
      | None => find_sonic_instruction l keys rest
      end
  end.

Definition post_status_to_baselayer {E} (b : BaseLayer) (tx : SanitizedTransaction)
    (log_messages : option (list string)) (l : RemoteAccountLoader) :
  result E (option Signature * RemoteAccountLoader) :=
  if is_simple_vote_transaction tx then Ok (None, l) else
  let! found := find_sonic_instruction l (sm_account_keys (tx_message tx))
                  (sm_instructions (tx_message tx)) in
  match found with
  | Some (sonic_program, Some account) =>
      if negb (has_account l account) then Ok (None, l) else
      match log_messages ≫= λ lines, head (omap nft_value_capture lines) with
      | Some value =>
          let! value := unwrap (parse_u64 value) in
          send_status_to_baselayer b sonic_program account value l
      | None => Ok (None, l)
      end
  | _ => Ok (None, l)
  end.

(** ** [execute_loaded_transaction] *)
Record Bank := mkBank {
  bank_rent : Rent;
  bank_sysvar_cache : SysvarCache;
  bank_feature_set : gset Pubkey;
  last_blockhash : Hash;
  last_lamports_per_signature : N }.

Record TransactionExecutionDetails := mkTransactionExecutionDetails {
  status : result TransactionError.t unit;
  log_messages : option (list string);
  execution_return_data : option TransactionReturnData;
  executed_units : N;
  accounts_data_len_delta : Z }.

(** the context [process_message] starts from *)
Definition execution_context (bank : Bank) (transaction_accounts : list (Pubkey * AccountSharedData))
    (budget : ComputeBudget) (enable_log_recording : bool) (log_messages_bytes_limit : option N) :
  InvokeContext :=
  let t0 := tc_new transaction_accounts (bank_rent bank) (max_invoke_stack_height budget)
              (max_instruction_trace_length budget) in
  let collector :=
    if enable_log_recording then
      Some (match log_messages_bytes_limit with
            | None => log_collector_default
            | Some limit => new_ref_with_limit (Some limit)
            end)
    else None in
  invoke_context_new t0 (bank_sysvar_cache bank) collector budget (bank_feature_set bank)
    (last_blockhash bank) (last_lamports_per_signature bank).

(** what comes back: the details, [loaded_transaction.accounts] and the loader *)
Definition execute_loaded_transaction (programs : Pubkey → option LoadedProgramType)
    (signature_to_string : Signature → string) (b : BaseLayer) (bank : Bank)
    (tx : SanitizedTransaction) (transaction_accounts : list (Pubkey * AccountSharedData))
    (program_indices : list (list N)) (budget : ComputeBudget)
    (enable_log_recording enable_return_data_recording : bool)
    (log_messages_bytes_limit : option N) (l : RemoteAccountLoader) :
  result TransactionError.t
    (TransactionExecutionDetails * list (Pubkey * AccountSharedData) * RemoteAccountLoader) :=
  let message := tx_message tx in
  let lamports_before_tx :=
    default 0 (transaction_accounts_lamports_sum transaction_accounts message) in
  let s0 := execution_context bank transaction_accounts budget enable_log_recording
              log_messages_bytes_limit in
  let! pre_account_state_info :=
    get_transaction_account_state_info (bank_rent bank) (transaction_context s0) message in
  let '(process_result, (s1, units)) := process_message programs message program_indices (s0, 0) in
  let t1 := transaction_context s1 in
  let verified :=
    check! process_result in
    let! post_account_state_info :=
      get_transaction_account_state_info (bank_rent bank) t1 message in
    verify_transaction_account_state_changes t1 pre_account_state_info post_account_state_info in
  match verified with
  | Panic => Panic
  | _ =>
      let record := execution_record t1 in
      let balanced :=
        match transaction_accounts_lamports_sum (er_accounts record) message with
        | Some lamports_after_tx => lamports_before_tx =? lamports_after_tx
        | None => false
        end in
      let status :=
        if is_ok verified && negb balanced then Err TransactionError.UnbalancedTransaction
        else verified in
      let logs := messages <$> log_collector s1 in
      let! posted := post_status_to_baselayer b tx logs l in
      let logs' :=
        match posted.1 with
        | Some signature =>
            (λ ms, ms ++ ["Sonic BaseLayer Transaction Signature: " +:+
                          signature_to_string signature]) <$> logs
        | None => logs
        end in
      let return_data :=
        if enable_return_data_recording && negb (bool_decide (rd_data (er_return_data record) = []))
        then Some (er_return_data record) else None in
      Ok (mkTransactionExecutionDetails status logs' return_data units
            (er_accounts_resize_delta record), er_accounts record, posted.2)
  end.
End remote_hooks.
