(* ===== verification/HgNft.v ===== *)
(** * The NFT program of the base layer
    ([Base/sonic-nft-program/programs/hgnft/src/lib.rs])

    The handlers of the Anchor program and the constraints its account structs
    declare.  Anchor's decoding of instructions is a parameter; the accounts of the
    program are the map from keys to the [Mint] they hold. *)

From S2P Require Import Prelude Sdk Message.

Record Mint := mkMint {
  mint_name : list N;
  mint_uri : list N;
  mint_level : N;
  mint_locker : Pubkey }.

(** the errors of Anchor the account structs can raise *)
Inductive AnchorError :=
| InstructionFallbackNotFound
| AccountNotEnoughKeys
| AccountNotInitialized
| AccountAlreadyInUse
| AccountNotSigner
| ConstraintMut
| ConstraintHasOne
| AccountDidNotSerialize.

(** an account as the runtime passes it *)
Record AccountInfo := mkAccountInfo {
  ai_key : Pubkey; ai_is_signer : bool; ai_is_writable : bool }.

Abbreviation Mints := (gmap Pubkey Mint).

Inductive NftInstruction :=
| MintNft (name uri : list N) (level : N)
| SetLocker (locker : Pubkey)
| SetValue (level : N)
| FakeSetValue (level : N).

(** ** Account structs *)
Definition nft_account {A} (l : list AccountInfo) (i : nat) (k : AccountInfo → result AnchorError A) :
  result AnchorError A :=
  match l !! i with Some a => k a | None => Err AccountNotEnoughKeys end.
(** [Account<'info, Mint>] *)
Definition mint_of (s : Mints) (a : AccountInfo) : result AnchorError Mint :=
  ok_or (s !! ai_key a) AccountNotInitialized.
(** [Signer<'info>] *)
Definition signer_of (a : AccountInfo) : result AnchorError unit :=
  if ai_is_signer a then Ok tt else Err AccountNotSigner.
(** [#[account(mut)]] *)
Definition must_be_mut (a : AccountInfo) : result AnchorError unit :=
  if ai_is_writable a then Ok tt else Err ConstraintMut.

Section nft.
Context `{PubkeyDisplay}.

Definition program_log (s : string) : string := "Program log: " +:+ s.
(** the bytes of a string, as the log shows them *)
Definition string_of_bytes (l : list N) : string :=
  String.string_of_list_ascii (Ascii.ascii_of_N <$> l).

(** ** Handlers: the accounts of the program and the log lines afterwards *)
Definition mintnft (l : list AccountInfo) (name uri : list N) (level : N) (s : Mints) :
  result AnchorError (Mints * list string) :=
  nft_account l 0 (λ mint, nft_account l 1 (λ user, nft_account l 2 (λ _,
    check! signer_of user in
    match s !! ai_key mint with
    | Some _ => Err AccountAlreadyInUse
    | None =>
        check! signer_of mint in
        check! must_be_mut mint in
        check! must_be_mut user in
        (** [space = 8 + 4 + 200 + 4 + 200 + 8 + 32] holds the two strings together *)
        if 400 <? len name + len uri then Err AccountDidNotSerialize else
        let m := mkMint name uri level default_pubkey in
        Ok (<[ai_key mint := m]> s,
            program_log <$>
            ["Mint Account Created"; "NFT Name: " +:+ string_of_bytes name;
             "NFT Uri: " +:+ string_of_bytes uri; "NFT Level: " +:+ pretty level;
             "NFT Locker: " +:+ pubkey_to_string default_pubkey])
    end))).

Definition setlocker (l : list AccountInfo) (locker : Pubkey) (s : Mints) :
  result AnchorError (Mints * list string) :=
  nft_account l 0 (λ mint, nft_account l 1 (λ user,
    let! m := mint_of s mint in
    check! signer_of user in
    check! must_be_mut mint in
    let m' := mkMint (mint_name m) (mint_uri m) (mint_level m) locker in
    Ok (<[ai_key mint := m']> s,
        program_log <$> ["NFT Set Locker"; "NFT Locker: " +:+ pubkey_to_string locker]))).

Definition setvalue (l : list AccountInfo) (level : N) (s : Mints) :
  result AnchorError (Mints * list string) :=
  nft_account l 0 (λ mint, nft_account l 1 (λ locker,
    let! m := mint_of s mint in
    check! signer_of locker in
    check! must_be_mut mint in
    if negb (key_eqb (mint_locker m) (ai_key locker)) then Err ConstraintHasOne else
    let m' := mkMint (mint_name m) (mint_uri m) level default_pubkey in
    Ok (<[ai_key mint := m']> s,
        program_log <$>
        ["NFT Set Value"; "NFT Old Value: " +:+ pretty (mint_level m);
         "NFT New Value: " +:+ pretty level; "NFT Locker: " +:+ pubkey_to_string default_pubkey]))).

Definition fakesetvalue (l : list AccountInfo) (level : N) (s : Mints) :
  result AnchorError (Mints * list string) :=
  nft_account l 0 (λ mint, nft_account l 1 (λ user,
    let! m := mint_of s mint in
    check! signer_of user in
    Ok (s, program_log <$>
           ["Fake NFT Set Value"; "Fake NFT Old Value: " +:+ pretty (mint_level m);
            "Fake NFT New Value: " +:+ pretty level]))).

Definition nft_process (l : list AccountInfo) (i : NftInstruction) (s : Mints) :
  result AnchorError (Mints * list string) :=
  match i with
  | MintNft name uri level => mintnft l name uri level s
  | SetLocker locker => setlocker l locker s
  | SetValue level => setvalue l level s
  | FakeSetValue level => fakesetvalue l level s
  end.

(** ** Running the instructions of a message *)

(** Anchor's choice of the handler and decoding of its arguments *)
Class AnchorDispatch := anchor_dispatch : list N → option NftInstruction.
Context `{AnchorDispatch}.

Definition account_infos (m : Message) (ci : CompiledInstruction) : option (list AccountInfo) :=
  mapM (λ i, k ← getN (msg_account_keys m) i;
             match legacy_is_writable (E:=unit) m i with
             | Ok w => Some (mkAccountInfo k (legacy_is_signer m i) w)
             | _ => None
             end) (ci_accounts ci).

(** a message all of whose instructions call the program: they run in order, and an
    error undoes them all *)
Fixpoint nft_run (program_id : Pubkey) (m : Message) (l : list CompiledInstruction) (s : Mints) :
  result AnchorError Mints :=
  match l with
  | [] => Ok s
  | ci :: l' =>
      let! i := ok_or (if bool_decide (getN (msg_account_keys m) (program_id_index ci) = Some program_id)
                       then anchor_dispatch (ci_data ci) else None) InstructionFallbackNotFound in
      let! infos := ok_or (account_infos m ci) AccountNotEnoughKeys in
      let! r := nft_process infos i s in
      nft_run program_id m l' r.1
  end.
End nft.
