(* ===== verification/BankRules.v ===== *)
(** * Theory of the base-layer hooks

    What the loader sends to the base layer, that the NFT program accepts it, and
    what a transaction of the migrater program leaves in the remote cache. *)

From S2P Require Import Prelude Sdk Message MessageRules CompileRules Rent Account.
From S2P Require Import TransactionContext LogCollector InvokeContext MessageProcessor.
From S2P Require Import MigraterProgram RemoteLoader AccountsCache Codec CacheRules Bank HgNft.

(** ** Posting a status *)
Section post.
Context `{PubkeyDisplay, Sha256, KeypairBase58, !Bincode UpgradeableLoaderState}.
Context (payer program_id account : Pubkey) (value : N).
Abbreviation ixs := (status_instructions payer program_id account value).
Abbreviation keys := (compiled_account_keys ixs (Some payer)).

Lemma status_keys_elem k : k ∈ keys ↔ k ∈ [payer; program_id; account].
Proof.
  rewrite compiled_elem. unfold wish, wish_instructions, wish_instruction, wish_metas, wish_payer,
    wish_program, wish_meta, wjoin. simpl.
  rewrite !elem_of_cons, elem_of_nil, !orb_true_iff, !key_eqb_true, bool_decide_eq_true.
  naive_solver.
Qed.
Lemma status_keys_len : len keys ≤ 3.
Proof.
  assert (length keys ≤ length [payer; program_id; account])%nat.
  { apply submseteq_length, NoDup_submseteq; [apply compiled_NoDup|].
    intros k. by rewrite status_keys_elem. }
  unfold len. simpl in *. lia.
Qed.

Lemma status_signer k : w_signer (wish ixs (Some payer) k) = true ↔ k = payer.
Proof.
  unfold wish, wish_instructions, wish_instruction, wish_metas, wish_payer, wish_program, wish_meta,
    wjoin. simpl. rewrite !andb_false_r. simpl. rewrite bool_decide_eq_true. naive_solver.
Qed.
Lemma status_writable k : k = account ∨ k = payer → w_writable (wish ixs (Some payer) k) = true.
Proof.
  unfold wish, wish_instructions, wish_instruction, wish_metas, wish_payer, wish_program, wish_meta,
    wjoin. simpl. rewrite !andb_true_r. intros [->| ->]; rewrite key_eqb_refl; simpl; [done|].
  by rewrite orb_true_r.
Qed.

(** the message compiles, and the payer is its one signer *)
Lemma status_message {E} :
  ∃ m, new_with_blockhash (E:=E) ixs (Some payer) default_hash = Ok m ∧ signer_keys m = [payer] ∧
    msg_account_keys m = keys.
Proof.
  pose proof status_keys_len as Hlen.
  destruct (compile_Ok (E:=E) ixs (Some payer) default_hash) as (m & Hm & Hk).
  { unfold u8_max. lia. }
  exists m. split; [done|]. split; [|done]. apply new_with_blockhash_eq in Hm as (Hc & _).
  destruct (payer_first _ _ _ _ payer Hc eq_refl) as [Hp Hlt].
  destruct (components_bounds _ _ _ _ Hc) as (_ & _ & _ & Hb).
  assert (Hone : num_required_signatures (msg_header m) = 1).
  { destruct (decide (num_required_signatures (msg_header m) ≤ 1)) as [|Hgt]; [lia|exfalso].
    destruct (getN (msg_account_keys m) 1) as [k|] eqn:Hk1.
    - destruct (compiled_flags _ _ _ _ _ _ Hc Hk1) as [Hs _].
      rewrite (proj2 (N.ltb_lt 1 _)) in Hs by lia. symmetry in Hs. apply status_signer in Hs as ->.
      pose proof (compiled_NoDup ixs (Some payer)) as Hnd. rewrite <-Hk in Hnd.
      pose proof (NoDup_lookup _ _ _ _ Hnd Hp Hk1). done.
    - apply lookup_ge_None in Hk1. unfold len in Hb. lia. }
  unfold signer_keys. rewrite Hone. destruct (msg_account_keys m) as [|k ks] eqn:Em; [done|].
  replace (len (k :: ks) `min` 1) with 1 by (unfold len; simpl; lia).
  unfold getN in Hp. simpl in *. by simplify_eq.
Qed.
End post.

Lemma new_with_other_blockhash {E} ixs payer h bh m :
  new_with_blockhash (E:=E) ixs payer h = Ok m →
  new_with_blockhash (E:=E) ixs payer bh =
    Ok (mkMessage (msg_header m) (msg_account_keys m) bh (msg_instructions m)).
Proof.
  unfold new_with_blockhash. destruct (try_into_message_components _) as [[hd ks]| |]; [|done..].
  destruct (rmapM _ _); simpl; [|done..]. by intros [= <-].
Qed.

Section send.
Context `{PubkeyDisplay, Sha256, KeypairBase58, !Bincode UpgradeableLoaderState}.

(** the transaction the loader sends: the two instructions, paid and signed by its
    key pair, on the latest block hash *)
Definition status_transaction (b : BaseLayer) (l : RemoteAccountLoader) (program_id account : Pubkey)
    (value : N) (payer : Pubkey) (m : Message) : Prop :=
  ∃ bh, keypair_pubkey (keypair_base58 (config l)) = Some payer ∧
    rpc_latest_blockhash b = Some bh ∧
    new_with_blockhash (E:=unit) (status_instructions payer program_id account value) (Some payer) bh =
      Ok m.

Lemma send_status_eq {E} b program_id account value l payer bh :
  keypair_pubkey (keypair_base58 (config l)) = Some payer → rpc_latest_blockhash b = Some bh →
  ∃ m, status_transaction b l program_id account value payer m ∧
    send_status_to_baselayer (E:=E) b program_id account value l =
    match rpc_send_transaction b m with
    | Some signature => Ok (Some signature, (load_account_via_rpc b account l).2)
    | None => Ok (None, l)
    end.
Proof.
  intros Hkp Hbh. destruct (status_message (E:=E) payer program_id account value) as (m0 & Hm0 & Hs & _).
  exists (mkMessage (msg_header m0) (msg_account_keys m0) bh (msg_instructions m0)). split.
  - exists bh. split_and!; [done..|].
    destruct (status_message (E:=unit) payer program_id account value) as (m1 & Hm1 & _ & _).
    assert (m1 = m0) as ->; [|by eapply new_with_other_blockhash].
    revert Hm0 Hm1. unfold new_with_blockhash.
    destruct (try_into_message_components _) as [[hd ks]| |]; [|done..]. unfold status_instructions.
    simpl. unfold compile_instruction, legacy_position. simpl.
    repeat (destruct (position _ ks); simpl; [|done]). by intros [= <-] [= <-].
  - unfold send_status_to_baselayer. rewrite Hkp. simpl. rewrite Hm0. simpl. rewrite Hbh. simpl.
    unfold sign. by rewrite bool_decide_eq_true_2.
Qed.

(** a successful call sent exactly that transaction *)
Lemma send_status_inv {E} b program_id account value l signature l' :
  send_status_to_baselayer (E:=E) b program_id account value l = Ok (Some signature, l') →
  ∃ payer m, status_transaction b l program_id account value payer m ∧
    rpc_send_transaction b m = Some signature ∧ l' = (load_account_via_rpc b account l).2.
Proof.
  intros Hsend. destruct (keypair_pubkey (keypair_base58 (config l))) as [payer|] eqn:Hkp.
  2:{ unfold send_status_to_baselayer in Hsend. by rewrite Hkp in Hsend. }
  destruct (rpc_latest_blockhash b) as [bh|] eqn:Hbh.
  2:{ unfold send_status_to_baselayer in Hsend. rewrite Hkp in Hsend. simpl in Hsend.
      destruct (new_with_blockhash _ _ _); simpl in Hsend; [|done..]. by rewrite Hbh in Hsend. }
  destruct (send_status_eq (E:=E) b program_id account value l payer bh Hkp Hbh) as (m & Hm & Heq).
  rewrite Heq in Hsend. destruct (rpc_send_transaction b m) as [sg|] eqn:Hsg; [|done].
  exists payer, m. by simplify_eq.
Qed.

(** ** The NFT program accepts the transaction *)

(** what is used of Anchor: an instruction is the first eight bytes of the hash of
    [global:] and the handler's name, then its arguments in little-endian order *)
Class AnchorDispatchLaws `{AnchorDispatch} := {
  dispatch_setlocker : ∀ k, length (to_bytes k) = 32%nat →
    anchor_dispatch (set_locker_data k) = Some (SetLocker k);
  dispatch_setvalue : ∀ n, n ≤ u64_max → anchor_dispatch (set_value_data n) = Some (SetValue n) }.
Context `{AnchorDispatchLaws}.

Lemma status_infos payer program_id account value bh m ci data :
  new_with_blockhash (E:=unit) (status_instructions payer program_id account value) (Some payer) bh =
    Ok m →
  account ≠ program_id → is_builtin_key_or_sysvar account = false →
  resolves (msg_account_keys m)
    (mkInstruction program_id [meta_new account false; meta_new payer false] data) ci →
  Forall (λ x, getN (msg_account_keys m) (program_id_index x) = Some program_id) (msg_instructions m) →
  ∃ w, account_infos m ci =
    Some [mkAccountInfo account (bool_decide (account = payer)) true; mkAccountInfo payer true w].
Proof.
  intros Hm Hne Hb [_ Hacc _] Hprog. simpl in Hacc.
  pose proof Hm as (Hc & Hk & _ & _)%new_with_blockhash_eq.
  assert (Hlen : len (msg_account_keys m) ≤ 256).
  { rewrite Hk. pose proof (status_keys_len payer program_id account value). lia. }
  inversion Hacc as [|? i ? l1 Hi Hacc1 Hx1 Hx2]. inversion Hacc1 as [|? j ? l2 Hj Hacc2 Hx3 Hx4].
  inversion Hacc2. subst. clear Hacc Hacc1 Hacc2. simpl in Hi, Hj.
  unfold account_infos. rewrite <-Hx2. simpl. rewrite Hi, Hj. simpl.
  rewrite (compiled_writable _ _ _ _ _ _ Hm Hlen Hi), (compiled_writable _ _ _ _ _ _ Hm Hlen Hj). simpl.
  destruct (compiled_flags _ _ _ _ _ _ Hc Hi) as [Hsi _].
  destruct (compiled_flags _ _ _ _ _ _ Hc Hj) as [Hsj _]. unfold legacy_is_signer. rewrite Hsi, Hsj.
  rewrite (proj2 (status_signer payer program_id account value payer) eq_refl).
  rewrite (status_writable payer program_id account value account) by auto. rewrite Hb.
  assert (Hd : demote_program_id m i = false).
  { unfold demote_program_id, is_key_called_as_program, called_as_program.
    destruct (i <=? u8_max); [|done]. apply andb_false_iff. left. apply not_true_iff_false.
    rewrite existsb_exists. intros (x & Hx%list_elem_of_In & Hpi%N.eqb_eq).
    rewrite list.Forall_forall in Hprog. specialize (Hprog x Hx). rewrite Hpi, Hi in Hprog. congruence. }
  rewrite Hd. eexists. f_equal. f_equal. f_equal.
  apply eq_true_iff_eq. rewrite status_signer, bool_decide_eq_true. done.
Qed.

Lemma setlocker_run a sg u w k s mint :
  s !! a = Some mint →
  ∃ logs, setlocker [mkAccountInfo a sg true; mkAccountInfo u true w] k s =
    Ok (<[a := mkMint (mint_name mint) (mint_uri mint) (mint_level mint) k]> s, logs).
Proof.
  intros Hs. unfold setlocker, nft_account. cbn [lookup list_lookup]. unfold mint_of.
  cbn [ai_key]. rewrite Hs. by eexists.
Qed.
Lemma setvalue_run a sg u w n s mint :
  s !! a = Some mint → mint_locker mint = u →
  ∃ logs, setvalue [mkAccountInfo a sg true; mkAccountInfo u true w] n s =
    Ok (<[a := mkMint (mint_name mint) (mint_uri mint) n default_pubkey]> s, logs).
Proof.
  intros Hs <-. unfold setvalue, nft_account. cbn [lookup list_lookup]. unfold mint_of.
  cbn [ai_key]. rewrite Hs. cbn [rbind ok_or signer_of ai_is_signer must_be_mut ai_is_writable].
  rewrite key_eqb_refl. by eexists.
Qed.

(** Both instructions run, and the account holds the value with its lock released. *)
Lemma nft_accepts b l program_id account value payer m s mint :
  status_transaction b l program_id account value payer m →
  length (to_bytes payer) = 32%nat → value ≤ u64_max →
  account ≠ program_id → is_builtin_key_or_sysvar account = false → s !! account = Some mint →
  nft_run program_id m (msg_instructions m) s =
    Ok (<[account := mkMint (mint_name mint) (mint_uri mint) value default_pubkey]> s).
Proof.
  intros (bh & _ & _ & Hm) Hpl Hv Hne Hb Hs.
  pose proof Hm as (_ & Hk & _ & Hr)%new_with_blockhash_eq.
  assert (Hlen : len (msg_account_keys m) ≤ 256).
  { rewrite Hk. pose proof (status_keys_len payer program_id account value). lia. }
  specialize (Hr Hlen).
  assert (Hprog : Forall (λ x, getN (msg_account_keys m) (program_id_index x) = Some program_id)
    (msg_instructions m)).
  { rewrite list.Forall_forall. intros ci (n & Hn)%list_elem_of_lookup.
    destruct (Forall2_lookup_r _ _ _ _ _ Hr Hn) as (ix & Hix & [Hp _ _]). rewrite Hp.
    unfold status_instructions in Hix. destruct n as [|[|n]]; cbn [lookup list_lookup] in Hix;
      [by injection Hix as <-..|done]. }
  unfold status_instructions in Hr.
  apply Forall2_cons_inv_l in Hr as (c1 & r1 & H1' & Hr & E1).
  apply Forall2_cons_inv_l in Hr as (c2 & r2 & H2' & Hr & ->). apply Forall2_nil_inv_l in Hr as ->.
  destruct (status_infos _ _ _ _ _ _ c1 _ Hm Hne Hb H1' Hprog) as [w1 Hi1].
  destruct (status_infos _ _ _ _ _ _ c2 _ Hm Hne Hb H2' Hprog) as [w2 Hi2].
  rewrite E1. destruct H1' as [Hp1 _ Hd1], H2' as [Hp2 _ Hd2].
  cbn [ix_program_id ix_data] in Hp1, Hd1, Hp2, Hd2. cbn [nft_run].
  rewrite Hp1, bool_decide_eq_true_2, Hd1, dispatch_setlocker, Hi1 by done. cbn [ok_or rbind nft_process].
  destruct (setlocker_run account (bool_decide (account = payer)) payer w1 payer s mint Hs) as [lg1 ->].
  cbn [rbind fst].
  rewrite Hp2, bool_decide_eq_true_2, Hd2, dispatch_setvalue, Hi2 by done. cbn [ok_or rbind nft_process].
  destruct (setvalue_run account (bool_decide (account = payer)) payer w2 value
    (<[account := mkMint (mint_name mint) (mint_uri mint) (mint_level mint) payer]> s)
    (mkMint (mint_name mint) (mint_uri mint) (mint_level mint) payer)) as [lg2 ->];
    [apply lookup_insert_eq|done|].
  cbn [rbind fst]. by rewrite insert_insert_eq.
Qed.
End send.

(** ** The value in the log *)
Lemma digit_of_char n : n < 10 → digit_of (pretty_N_char n) = Some n.
Proof.
  intros Hn. assert (n = 0 ∨ n = 1 ∨ n = 2 ∨ n = 3 ∨ n = 4 ∨ n = 5 ∨ n = 6 ∨ n = 7 ∨ n = 8 ∨ n = 9)
    as Hcases by lia. by repeat destruct Hcases as [->|Hcases]; subst.
Qed.
Lemma parse_digits_go x : ∀ s, x ≤ u64_max → parse_digits (pretty_N_go x s) 0 = parse_digits s x.
Proof.
  induction (N.lt_wf_0 x) as [x _ IH]; intros s Hx. unfold u64_max in Hx.
  destruct (decide (x = 0)) as [->|Hne]; [by rewrite pretty_N_go_0|].
  rewrite pretty_N_go_step by lia. pose proof (N.div_mod x 10 ltac:(done)).
  pose proof (N.mod_lt x 10 ltac:(done)).
  assert (Hq : x `div` 10 < x) by (apply N.div_lt; lia).
  rewrite IH; [|done|unfold u64_max; etrans; [by apply N.lt_le_incl|done]]. simpl.
  generalize dependent (x `mod` 10). generalize dependent (x `div` 10). intros q Hq r Hx' Hr.
  rewrite digit_of_char by lia. simpl. rewrite (proj2 (N.leb_le _ _)) by (unfold u64_max; lia). simpl.
  unfold checked_add. rewrite (proj2 (N.leb_le _ _)) by (unfold u64_max; lia). simpl.
  f_equal. lia.
Qed.
Lemma parse_digits_shape s n : parse_digits s 0 = Some n → s ≠ EmptyString → parse_u64 s = Some n.
Proof.
  destruct s as [|c s]; [done|]. intros Hp _. unfold parse_u64.
  destruct (N.eqb_spec (Ascii.N_of_ascii c) 43) as [E|]; [|done].
  simpl in Hp. unfold digit_of in Hp. by rewrite E in Hp.
Qed.
Lemma pretty_go_nonempty x : ∀ s, s ≠ EmptyString → pretty_N_go x s ≠ EmptyString.
Proof.
  induction (N.lt_wf_0 x) as [x _ IH]; intros s Hs.
  destruct (decide (x = 0)) as [->|Hne]; [by rewrite pretty_N_go_0|].
  rewrite pretty_N_go_step by lia. apply IH; [apply N.div_lt; lia|done].
Qed.

(** reading back a printed number *)
Lemma parse_pretty n : n ≤ u64_max → parse_u64 (pretty n) = Some n.
Proof.
  intros Hn. unfold pretty, pretty_N. case_decide as H0; [by subst|].
  apply parse_digits_shape; [by rewrite parse_digits_go|].
  rewrite pretty_N_go_step by lia. by apply pretty_go_nonempty.
Qed.

(** ** The hook after execution *)
Fixpoint has_char (c : Ascii.ascii) (s : string) : bool :=
  match s with EmptyString => false | String d s' => bool_decide (c = d) || has_char c s' end.
Lemma has_char_app c s1 s2 : has_char c (s1 +:+ s2) = has_char c s1 || has_char c s2.
Proof. induction s1 as [|d s1 IH]; simpl; [done|]. by rewrite IH, orb_assoc. Qed.
(** the letter w, which occurs in [New] *)
Definition letter_w : Ascii.ascii := Ascii.ascii_of_N 119.
Lemma digits_no_w x : ∀ s, has_char letter_w s = false → has_char letter_w (pretty_N_go x s) = false.
Proof.
  induction (N.lt_wf_0 x) as [x _ IH]; intros s Hs.
  destruct (decide (x = 0)) as [->|Hne]; [by rewrite pretty_N_go_0|].
  rewrite pretty_N_go_step by lia. apply IH; [apply N.div_lt; lia|]. simpl. rewrite Hs, orb_false_r.
  apply bool_decide_eq_false. unfold pretty_N_char. by repeat case_match.
Qed.
Lemma pretty_no_w (n : N) : has_char letter_w (pretty n) = false.
Proof.
  unfold pretty, pretty_N. case_decide; [done|]. by apply digits_no_w.
Qed.

Section hook.
Context `{PubkeyDisplay, Sha256, KeypairBase58, NftValueRegexLaws, AnchorDispatchLaws,
  !Bincode UpgradeableLoaderState, !Bincode ProgramInstruction}.

Lemma no_w_no_capture line : has_char letter_w line = false → nft_value_capture line = None.
Proof.
  intros Hw. destruct (nft_value_capture line) as [v|] eqn:Hc; [|done].
  apply capture_in_line in Hc as (pre & post & ->). exfalso.
  rewrite !has_char_app in Hw. apply orb_false_iff in Hw as [_ Hw]. by vm_compute in Hw.
Qed.

Lemma find_sonic_spec {E} l keys ixs program_id account :
  find_sonic_instruction (E:=E) l keys ixs = Ok (Some (program_id, account)) →
  is_sonic_program l program_id = true ∧
  ∃ ix a, ix ∈ ixs ∧ account_keys_get keys (program_id_index ix) = Some program_id ∧
    getN (ci_accounts ix) 0 = Some a ∧ account = account_keys_get keys a.
Proof.
  induction ixs as [|ix ixs IH]; simpl; [done|].
  assert (Hrec : find_sonic_instruction (E:=E) l keys ixs = Ok (Some (program_id, account)) →
    is_sonic_program l program_id = true ∧
    ∃ ix0 a, ix0 ∈ ix :: ixs ∧ account_keys_get keys (program_id_index ix0) = Some program_id ∧
      getN (ci_accounts ix0) 0 = Some a ∧ account = account_keys_get keys a).
  { intros (? & ix0 & a & ? & ?)%IH. split; [done|]. exists ix0, a. split; [by right|done]. }
  destruct (account_keys_get keys (program_id_index ix)) as [p|] eqn:Hp; [|done].
  destruct (is_sonic_program l p) eqn:Hs; [|done].
  destruct (getN (ci_accounts ix) 0) as [a|] eqn:Ha; simpl; [|done]. intros [= <- <-].
  split; [done|]. exists ix, a. split; [by left|done].
Qed.

(** What reaches the base layer was logged.  When the hook returns a
    signature, the transaction is no vote, it calls the cached sonic program on an account
    of the remote cache, some log line of it shows a value, and the base layer was
    sent the two instructions for that account and that value; run by the NFT
    program on an account it holds, they store the value and release the lock. *)
Theorem posted_status_was_logged {E} b tx logs l signature l' :
  post_status_to_baselayer (E:=E) b tx logs l = Ok (Some signature, l') →
  is_simple_vote_transaction tx = false ∧
  ∃ program_id account value payer m ix a lines line pre v post,
    ix ∈ sm_instructions (tx_message tx) ∧
    account_keys_get (sm_account_keys (tx_message tx)) (program_id_index ix) = Some program_id ∧
    is_sonic_program l program_id = true ∧ getN (ci_accounts ix) 0 = Some a ∧
    account_keys_get (sm_account_keys (tx_message tx)) a = Some account ∧
    has_account l account = true ∧
    logs = Some lines ∧ line ∈ lines ∧
    line = pre +:+ "Fake NFT New Value: " +:+ v +:+ post ∧ parse_u64 v = Some value ∧
    status_transaction b l program_id account value payer m ∧
    rpc_send_transaction b m = Some signature ∧
    ∀ s mint, length (to_bytes payer) = 32%nat → value ≤ u64_max → account ≠ program_id →
      is_builtin_key_or_sysvar account = false → s !! account = Some mint →
      nft_run program_id m (msg_instructions m) s =
        Ok (<[account := mkMint (mint_name mint) (mint_uri mint) value default_pubkey]> s).
Proof.
  unfold post_status_to_baselayer. destruct (is_simple_vote_transaction tx); [done|].
  destruct (find_sonic_instruction _ _ _) as [[[program_id [account|]]|]| |] eqn:Hf; simpl; [|done..].
  apply find_sonic_spec in Hf as (Hs & ix & a & Hix & Hp & Ha & Hacc).
  destruct (has_account l account) eqn:Hh; simpl; [|done].
  destruct logs as [lines|]; simpl; [|done].
  destruct (head (omap nft_value_capture lines)) as [v|] eqn:Hv; [|done].
  destruct (parse_u64 v) as [value|] eqn:Hpv; simpl; [|done].
  intros (payer & m & Hm & Hsend & _)%send_status_inv. split; [done|].
  assert (v ∈ omap nft_value_capture lines) as (line & Hline & Hcap)%list_elem_of_omap.
  { destruct (omap nft_value_capture lines); simplify_eq/=. by left. }
  apply capture_in_line in Hcap as (pre & post & Heq).
  exists program_id, account, value, payer, m, ix, a, lines, line, pre, v, post.
  split_and!; try done. intros s mint **. by eapply nft_accepts.
Qed.

Lemma head_omap_app {A B} (f : A → option B) pre l post x :
  Forall (λ a, f a = None) pre → head (omap f l) = Some x → head (omap f (pre ++ l ++ post)) = Some x.
Proof.
  intros Hpre Hl. rewrite omap_app, omap_app.
  assert (omap f pre = []) as ->.
  { induction Hpre as [|a pre Ha _ IH]; simpl; [done|]. by rewrite Ha. }
  by destruct (omap f l).
Qed.

(** the lines of a run of [fakesetvalue] *)
Lemma fakesetvalue_capture infos value s s' lines :
  fakesetvalue infos value s = Ok (s', lines) →
  head (omap nft_value_capture lines) = Some (pretty value).
Proof.
  unfold fakesetvalue, nft_account. destruct (infos !! 0%nat) as [mi|]; [|done].
  destruct (infos !! 1%nat) as [us|]; [|done]. destruct (mint_of s mi) as [mint| |]; simpl; [|done..].
  destruct (signer_of us); simpl; [|done..]. intros [= <- <-].
  cbn [fmap list_fmap omap list_omap].
  rewrite (no_w_no_capture (program_log "Fake NFT Set Value")) by done.
  rewrite (no_w_no_capture (program_log ("Fake NFT Old Value: " +:+ pretty (mint_level mint)))).
  - change (program_log ("Fake NFT New Value: " +:+ pretty value)) with
      ("Program log: Fake NFT New Value: " +:+ pretty value). by rewrite capture_value.
  - unfold program_log. rewrite !has_char_app, pretty_no_w. done.
Qed.

(** C24: a value set on the grid reaches the base layer.  Let the NFT program run
    [fakesetvalue] on the grid, its lines being in the transaction's log before any other
    line that shows a value; let the transaction's first call of the sonic
    program be on an account of the remote cache, the key pair and the latest block
    hash be available and the base layer take transactions.  Then the hook returns a
    signature without panicking, and the transaction it sent makes the NFT program
    of the base layer store exactly the value, whatever the account held. *)
Theorem grid_value_reaches_base_layer {E} b tx l program_id account payer bh
    infos value grid grid' before lines after (mints : Mints) mint :
  is_simple_vote_transaction tx = false →
  find_sonic_instruction (E:=E) l (sm_account_keys (tx_message tx))
    (sm_instructions (tx_message tx)) = Ok (Some (program_id, Some account)) →
  has_account l account = true →
  fakesetvalue infos value grid = Ok (grid', lines) → value ≤ u64_max →
  Forall (λ line, nft_value_capture line = None) before →
  keypair_pubkey (keypair_base58 (config l)) = Some payer → length (to_bytes payer) = 32%nat →
  rpc_latest_blockhash b = Some bh → (∀ m, is_Some (rpc_send_transaction b m)) →
  account ≠ program_id → is_builtin_key_or_sysvar account = false → mints !! account = Some mint →
  ∃ m signature l',
    post_status_to_baselayer (E:=E) b tx (Some (before ++ lines ++ after)) l = Ok (Some signature, l') ∧
    rpc_send_transaction b m = Some signature ∧
    nft_run program_id m (msg_instructions m) mints =
      Ok (<[account := mkMint (mint_name mint) (mint_uri mint) value default_pubkey]> mints).
Proof.
  intros Hvote Hfind Hhas Hfake Hv Hbefore Hkp Hpl Hbh Hsend Hne Hb Hm.
  destruct (send_status_eq (E:=E) b program_id account value l payer bh Hkp Hbh) as (m & Htx & Heq).
  destruct (Hsend m) as [signature Hsig]. rewrite Hsig in Heq.
  exists m, signature, (load_account_via_rpc b account l).2. split_and!; [|done|by eapply nft_accepts].
  unfold post_status_to_baselayer. rewrite Hvote, Hfind. cbn [rbind negb]. rewrite Hhas.
  cbn [negb mbind option_bind].
  rewrite (head_omap_app _ before lines after (pretty value)); [|done|by eapply fakesetvalue_capture].
  rewrite parse_pretty by done. exact Heq.
Qed.
End hook.

(** ** The hook before execution *)
Section migrate.
Context `{PubkeyDisplay, Sha256, KeypairBase58, !Bincode UpgradeableLoaderState,
  !Bincode ProgramInstruction, !BincodeLaws ProgramInstruction}.
Context (n : nat) (b : BaseLayer).

(** loading one account, ignored or not *)
Lemma load_account_total k l :
  enable l = true → chain_ends n b k = true →
  ∃ r l', load_account n b k l = Some (r, l') ∧ refreshed b l l' ∧
    ∀ a, ignored_account k = false → rpc_get_account b k = Some a →
      account_cache l' !! k = Some (remote_account a).
Proof.
  intros He Hc. destruct (ignored_account k) eqn:Hk.
  { destruct n as [|n']; [done|]. simpl. rewrite He, Hk. simpl. do 2 eexists.
    split; [done|]. split; [apply refreshed_refl|done]. }
  destruct (load_account_result n b k l Hc He Hk) as [l' Hl]. do 2 eexists. split; [exact Hl|].
  pose proof (load_account_refreshed _ _ _ _ _ _ Hl) as Hr. split; [done|]. intros a _ Ha.
  destruct n as [|n']; [done|]. revert Hl. simpl. rewrite He, Hk. simpl. unfold load_account_via_rpc.
  rewrite Hk, Ha. simpl. destruct (has_programdata_account (remote_account a)) as [pd|].
  - destruct (load_account n' b pd _) as [[r l2]|] eqn:Hpd; simpl; [|done]. intros [= <-].
    eapply refreshed_entry; [by eapply load_account_refreshed|done|]. simpl. by rewrite lookup_insert_eq.
  - intros [= <-]. simpl. by rewrite lookup_insert_eq.
Qed.

Section message.
Context (message : SanitizedMessage) (ix : CompiledInstruction).

(** the accounts the hook loads *)
Definition migrated (i : N) (k : Pubkey) : Prop :=
  sm_is_signer message i = false ∧ i ≠ program_id_index ix ∧
  account_keys_get (sm_account_keys message) i = Some k.

Lemma migrate_accounts idx : ∀ c,
  enable (remote_loader c) = true →
  (∀ i k, i ∈ idx → migrated i k → chain_ends n b k = true) →
  ∃ c', ofold (migrate_account n b message ix MigrateRemoteAccounts) idx c = Some c' ∧
    ac_cache c' = ac_cache c ∧ refreshed b (remote_loader c) (remote_loader c') ∧
    ∀ i k a, i ∈ idx → migrated i k → ignored_account k = false → rpc_get_account b k = Some a →
      account_cache (remote_loader c') !! k = Some (remote_account a).
Proof.
  induction idx as [|i idx IH]; intros c He Hch; simpl.
  { exists c. split_and!; [done..|apply refreshed_refl|]. intros i k a []%not_elem_of_nil. }
  assert (∃ c1, migrate_account n b message ix MigrateRemoteAccounts i c = Some c1 ∧
    ac_cache c1 = ac_cache c ∧ refreshed b (remote_loader c) (remote_loader c1) ∧
    ∀ k a, migrated i k → ignored_account k = false → rpc_get_account b k = Some a →
      account_cache (remote_loader c1) !! k = Some (remote_account a)) as (c1 & -> & Hs1 & Hr1 & Hk1).
  { unfold migrate_account. destruct (sm_is_signer message i) eqn:Hsg; simpl.
    { exists c. split_and!; [done..|apply refreshed_refl|]. intros k a (E & _). congruence. }
    destruct (N.eqb_spec i (program_id_index ix)) as [Hp|Hp]; simpl.
    { exists c. split_and!; [done..|apply refreshed_refl|]. by intros k a (_ & ? & _). }
    destruct (account_keys_get (sm_account_keys message) i) as [k|] eqn:Hk; simpl.
    - assert (Hm : migrated i k) by done.
      destruct (load_account_total k (remote_loader c) He (Hch i k ltac:(by left) Hm))
        as (r & l' & Hl & Hr & Ha).
      unfold load_accounts_from_remote. simpl. rewrite Hl. simpl. eexists. split_and!; [done..|].
      intros k' a (_ & _ & E). simplify_eq. simpl. auto.
    - unfold load_accounts_from_remote. simpl. eexists. split_and!; [done..|apply refreshed_refl|].
      intros k' a (_ & _ & E). congruence. }
  simpl. destruct Hr1 as (He1 & Hc1 & Hx1).
  destruct (IH c1) as (c' & -> & Hs' & Hr' & Hk'); [congruence|intros; eapply Hch; [by right|done]|].
  exists c'. split_and!; [done|congruence|by eapply refreshed_trans|].
  intros j k a [->|Hj]%elem_of_cons Hm Hig Ha; [|by eapply Hk'].
  eapply refreshed_entry; [done..|]. by eapply Hk1.
Qed.
End message.

Lemma addresses_signer k addresses :
  w_signer (wish_metas k ((λ a, meta_new_readonly a false) <$> addresses)) = false.
Proof. induction addresses as [|x l IH]; simpl; [done|]. by rewrite andb_false_r. Qed.

Lemma migrate_signer payer addresses bs k :
  w_signer (wish [mkInstruction sonic_account_migrater_id
    ([meta_new_readonly payer true; meta_new_readonly system_program_id false] ++
     ((λ a, meta_new_readonly a false) <$> addresses)) bs] (Some payer) k) = true ↔ k = payer.
Proof.
  unfold wish, wish_instructions, wish_instruction, wish_program, wish_payer, wjoin.
  cbn [foldr w_signer ix_accounts app wish_metas]. fold (wish_metas k).
  change (foldr (λ a w, wjoin (wish_meta k a) w) no_wish ((λ a, meta_new_readonly a false) <$> addresses))
    with (wish_metas k ((λ a, meta_new_readonly a false) <$> addresses)).
  unfold wjoin. cbn [w_signer wish_meta meta_is_signer meta_new_readonly meta_pubkey no_wish].
  rewrite addresses_signer, andb_true_r, andb_false_r, !orb_false_r. simpl.
  rewrite orb_true_iff, key_eqb_true, bool_decide_eq_true. naive_solver.
Qed.

(** C25: a transaction of the migrater program brings in its accounts.  Compile the program's
    instruction for some addresses into a transaction; if every chain of program data
    addresses ends, the hook the bank runs before execution returns, touches no
    slot, and puts every address that the base layer knows (other than the payer,
    the program itself and ignored keys) into the remote cache. *)
Theorem migrate_transaction_fills_cache payer addresses ix bh m lm hash signatures c :
  migrate_instruction (E:=unit) payer addresses = Ok ix → len (ix_data ix) ≤ PACKET_DATA_SIZE →
  new_with_blockhash (E:=unit) [ix] (Some payer) bh = Ok m → len (msg_account_keys m) ≤ 256 →
  legacy_message_new (E:=unit) m = Ok lm → enable (remote_loader c) = true →
  (∀ k, k ∈ system_program_id :: addresses → chain_ends n b k = true) →
  ∃ c', check_remote_accounts n b (mkSanitizedTransaction (LegacyMsg lm) hash false signatures) c = Some c' ∧
    ac_cache c' = ac_cache c ∧
    ∀ k a, k ∈ addresses → k ≠ payer → k ≠ sonic_account_migrater_id →
      ignored_account k = false → rpc_get_account b k = Some a →
      get_account (remote_loader c') k = Some (remote_account a).
Proof.
  intros Hix Hsz Hm Hlen Hlm He Hch.
  unfold migrate_instruction, remote_accounts_instruction in Hix.
  destruct (serialize MigrateRemoteAccounts) as [bs|] eqn:Hbs; simpl in Hix; [|done].
  injection Hix as <-. simpl in Hsz.
  assert (Hlm' : lm_message lm = m).
  { unfold legacy_message_new in Hlm. destruct (rmapM _ _); simpl in Hlm; [|done..]. by injection Hlm as <-. }
  pose proof Hm as (Hc & Hk & _ & Hr)%new_with_blockhash_eq. specialize (Hr Hlen).
  apply Forall2_cons_inv_l in Hr as (ci & r & [Hp Ha Hd] & Hr & Hci).
  apply Forall2_nil_inv_l in Hr as ->.
  cbn [ix_program_id ix_accounts ix_data] in Hp, Ha, Hd.
  assert (Hget : ∀ i, account_keys_get (mkAccountKeys (msg_account_keys m) None) i =
    getN (msg_account_keys m) i).
  { intros i. rewrite account_keys_get_iter. unfold account_keys_iter. simpl. by rewrite app_nil_r. }
  unfold check_remote_accounts. cbn [is_simple_vote_transaction tx_message].
  unfold sm_instructions. cbn [sm_base]. rewrite Hlm', Hci. cbn [ofold].
  unfold check_remote_instruction at 1. cbn [sm_account_keys]. rewrite Hlm', Hget, Hp.
  rewrite key_eqb_refl. cbn [negb]. unfold limited_deserialize, program_limited_deserialize. rewrite Hd.
  rewrite take_ge by (unfold len in Hsz; lia).
  rewrite <-(app_nil_r bs), (deserialize_serialize _ _ [] Hbs). cbn [ok_or].
  set (message := LegacyMsg lm).
  assert (Hmk : ∀ i k, migrated message ci i k → getN (msg_account_keys m) i = Some k ∧ k ≠ payer).
  { intros i k (Hsg & _ & Hkey). unfold message in *. cbn [sm_account_keys] in Hkey.
    rewrite Hlm', Hget in Hkey. split; [done|]. intros ->.
    destruct (compiled_flags _ _ _ _ _ _ Hc Hkey) as [Hs _]. unfold sm_is_signer, sm_header in Hsg.
    cbn [sm_base] in Hsg. rewrite Hlm', Hs in Hsg.
    by pose proof (eq_trans (eq_sym Hsg) (proj2 (migrate_signer payer addresses bs payer) eq_refl)). }
  destruct (migrate_accounts message ci (ci_accounts ci) c He) as (c' & -> & Hslots & Hr' & Hk').
  { intros i k Hi Hmi. destruct (Hmk i k Hmi) as [Hkey Hnp]. apply list_elem_of_lookup in Hi as (j & Hj).
    destruct (Forall2_lookup_r _ _ _ _ _ Ha Hj) as (meta & Hmeta & Hmk').
    assert (meta_pubkey meta = k) as <- by congruence. apply Hch.
    apply list_elem_of_lookup_2 in Hmeta. apply elem_of_cons in Hmeta as [->|[->|Hin]%elem_of_cons];
      [done|by left|right]. apply list_elem_of_fmap in Hin as (x & -> & Hx). done. }
  cbn [mbind option_bind]. exists c'. split_and!; [done..|].
  intros k a Hin Hnp Hnm Hig Hrpc. unfold get_account.
  destruct Hr' as (He' & _ & _). rewrite He', He, Hig. cbn [negb orb].
  apply list_elem_of_lookup in Hin as (j & Hj).
  assert (Hmeta : ([meta_new_readonly payer true; meta_new_readonly system_program_id false] ++
    ((λ a, meta_new_readonly a false) <$> addresses)) !! (2 + j)%nat = Some (meta_new_readonly k false)).
  { rewrite lookup_app_r by (simpl; lia). cbn [length]. replace (2 + j - 2)%nat with j by lia.
    by rewrite list_lookup_fmap, Hj. }
  destruct (Forall2_lookup_l _ _ _ _ _ Ha Hmeta) as (i & Hi & Hkey).
  apply (Hk' i k a); [by eapply list_elem_of_lookup_2| |done..].
  split_and!; [|intros ->; rewrite Hp in Hkey; simpl in Hkey; congruence|
    unfold message; cbn [sm_account_keys]; by rewrite Hlm', Hget].
  unfold sm_is_signer, sm_header, message. cbn [sm_base]. rewrite Hlm'.
  destruct (compiled_flags _ _ _ _ _ _ Hc Hkey) as [-> _]. apply not_true_iff_false.
  intros Hw. apply Hnp, (migrate_signer payer addresses bs k), Hw.
Qed.
End migrate.

(** ** Closed runs *)
Import Codec.Bincodes Codec.StandIns.

(** a matcher for the pattern, and a dispatcher for the two instructions *)
Module Matchers.
Definition pattern : string := "Fake NFT New Value: ".
Fixpoint digits (s : string) : string :=
  match s with
  | EmptyString => EmptyString
  | String c s' => match digit_of c with Some _ => String c (digits s') | None => EmptyString end
  end.
Fixpoint sdrop (n : nat) (s : string) : string :=
  match n, s with S n', String _ s' => sdrop n' s' | _, _ => s end.
Fixpoint scan (s : string) : option string :=
  let here := if String.prefix pattern s then digits (sdrop (String.length pattern) s) else EmptyString in
  if String.eqb here EmptyString then
    match s with EmptyString => None | String _ s' => scan s' end
  else Some here.

Lemma prefix_sdrop p : ∀ s, String.prefix p s = true → s = p +:+ sdrop (String.length p) s.
Proof.
  induction p as [|c p IH]; intros [|d s]; simpl; [done..|].
  destruct (Ascii.ascii_dec c d) as [->|]; [|done]. intros Hs.
  change (String d p +:+ ?x) with (String d (p +:+ x)). f_equal. by apply IH.
Qed.
Lemma digits_prefix s : ∃ post, s = digits s +:+ post.
Proof.
  induction s as [|c s [post IH]]; simpl; [by exists EmptyString|].
  destruct (digit_of c); [|by exists (String c s)]. exists post.
  change (String c (digits s) +:+ post) with (String c (digits s +:+ post)). by rewrite <-IH.
Qed.
Lemma scan_in_line s : ∀ v, scan s = Some v → ∃ pre post, s = pre +:+ pattern +:+ v +:+ post.
Proof.
  induction s as [|c s IH]; intros v; cbn [scan].
  - done.
  - set (here := if String.prefix pattern (String c s) then _ else _).
    destruct (String.eqb_spec here EmptyString) as [_|Hne].
    + intros (pre & post & ->)%IH. by exists (String c pre), post.
    + intros [= <-]. unfold here in *. destruct (String.prefix pattern (String c s)) eqn:Hp; [|done].
      destruct (digits_prefix (sdrop (String.length pattern) (String c s))) as [post Hpost].
      exists EmptyString, post. rewrite <-Hpost. by apply prefix_sdrop.
Qed.
Lemma digits_go x : ∀ s, digits s = s → digits (pretty_N_go x s) = pretty_N_go x s.
Proof.
  induction (N.lt_wf_0 x) as [x _ IH]; intros s Hs.
  destruct (decide (x = 0)) as [->|Hne]; [by rewrite pretty_N_go_0|].
  rewrite pretty_N_go_step by lia. apply IH; [apply N.div_lt; lia|]. cbn [digits].
  rewrite digit_of_char by (apply N.mod_lt; lia). by rewrite Hs.
Qed.
Lemma digits_pretty (n : N) : digits (pretty n) = pretty n ∧ pretty n ≠ EmptyString.
Proof.
  unfold pretty, pretty_N. case_decide; [done|]. split; [by apply digits_go|].
  rewrite pretty_N_go_step by lia. by apply pretty_go_nonempty.
Qed.

#[export] Instance regex : NftValueRegex := scan.
#[export] Instance regex_laws : NftValueRegexLaws.
Proof.
  split; [intros; by apply scan_in_line|]. intros n. unfold nft_value_capture, regex.
  destruct (digits_pretty n) as [Hd Hne]. generalize dependent (pretty n). intros s Hd Hne.
  cbv -[digits String.eqb]. rewrite Hd. by destruct s.
Qed.

#[export] Instance dispatch : AnchorDispatch := λ bs,
  if bool_decide (take 8 bs = hash_instruction_method "setlocker") then
    Some (SetLocker (mkPubkey (drop 8 bs)))
  else if bool_decide (take 8 bs = hash_instruction_method "setvalue") then
    Some (SetValue (from_le (drop 8 bs)))
  else None.
#[export] Instance dispatch_laws : AnchorDispatchLaws.
Proof.
  split.
  - intros [k] _. unfold anchor_dispatch, dispatch, set_locker_data.
    rewrite bool_decide_eq_true_2 by by vm_compute. done.
  - intros n Hn. unfold anchor_dispatch, dispatch, set_value_data.
    rewrite bool_decide_eq_false_2 by (by vm_compute).
    rewrite bool_decide_eq_true_2 by (by vm_compute).
    change (drop 8 (hash_instruction_method "setvalue" ++ le_bytes 8 n)) with (le_bytes 8 n).
    rewrite from_le_bytes; [done|]. change (256 ^ N.of_nat 8) with (u64_max + 1). lia.
Qed.
End Matchers.
Import Matchers.

(** a grid with the sonic program at key 1 (its name in the configuration is the key's text)
    and an NFT account at key 3, both in the remote cache *)
Definition nft_config : Config := mkConfig "url" "seven c" (pubkey_to_string (pubkey_of_N 1)).
Definition nft_loader : RemoteAccountLoader := mkRemoteAccountLoader
  (<[pubkey_of_N 1 := remote_account (sample_program (pubkey_of_N 2))]>
    (<[pubkey_of_N 3 := remote_account sample_plain]> ∅)) true nft_config.
(** a message that calls it on the account, paid by key 9 *)
Definition nft_message : Message :=
  mkMessage (mkMessageHeader 1 0 1) [pubkey_of_N 9; pubkey_of_N 3; pubkey_of_N 1] (mkHash [])
    [mkCompiledInstruction 2 [1; 0] [1]].
Definition nft_tx : SanitizedTransaction :=
  mkSanitizedTransaction (LegacyMsg (mkLegacyMessage nft_message [true; true; false])) (mkHash []) false [].
Definition nft_log : list string :=
  ["Program log: Fake NFT Set Value"; "Program log: Fake NFT Old Value: 3";
   "Program log: Fake NFT New Value: 42"].

Lemma posted_status_was_logged_witness :
  is_simple_vote_transaction nft_tx = false.
Proof.
  destruct (post_status_to_baselayer (E:=unit) sample_base nft_tx (Some nft_log) nft_loader)
    as [[[sg|] l']| |] eqn:Hp; [|by vm_compute in Hp..].
  apply (posted_status_was_logged (E:=unit) sample_base nft_tx (Some nft_log) nft_loader sg l' Hp).
Defined.

Lemma grid_value_reaches_base_layer_witness :
  ∃ m signature l',
    post_status_to_baselayer (E:=unit) sample_base nft_tx (Some nft_log) nft_loader =
      Ok (Some signature, l') ∧
    rpc_send_transaction sample_base m = Some signature ∧
    nft_run (pubkey_of_N 1) m (msg_instructions m)
      {[pubkey_of_N 3 := mkMint [] [] 3 (pubkey_of_N 77)]} =
    Ok (<[pubkey_of_N 3 := mkMint [] [] 42 default_pubkey]>
          {[pubkey_of_N 3 := mkMint [] [] 3 (pubkey_of_N 77)]}).
Proof.
  apply (grid_value_reaches_base_layer (E:=unit) sample_base nft_tx nft_loader (pubkey_of_N 1)
    (pubkey_of_N 3) (pubkey_of_N 7) (mkHash [1])
    [mkAccountInfo (pubkey_of_N 3) false false; mkAccountInfo (pubkey_of_N 9) true true] 42
    {[pubkey_of_N 3 := mkMint [] [] 3 default_pubkey]}
    {[pubkey_of_N 3 := mkMint [] [] 3 default_pubkey]} [] nft_log []
    {[pubkey_of_N 3 := mkMint [] [] 3 (pubkey_of_N 77)]} (mkMint [] [] 3 (pubkey_of_N 77)));
    [by vm_compute|by vm_compute|by vm_compute|by vm_compute|by vm_compute|constructor|by vm_compute
    |by vm_compute|by vm_compute|intros m; by eexists|by vm_compute..].
Defined.

Definition migrate_ix : Instruction :=
  match migrate_instruction (E:=unit) (pubkey_of_N 9) [pubkey_of_N 1; pubkey_of_N 3] with
  | Ok ix => ix | _ => sample_transfer
  end.
Definition migrate_message : Message :=
  match new_with_blockhash (E:=unit) [migrate_ix] (Some (pubkey_of_N 9)) (mkHash [1]) with
  | Ok m => m | _ => sample_message
  end.
Definition migrate_legacy : LegacyMessage :=
  match legacy_message_new (E:=unit) migrate_message with
  | Ok m => m | _ => mkLegacyMessage sample_message []
  end.

Lemma migrate_transaction_fills_cache_witness :
  ∃ c', check_remote_accounts 2 sample_base (mkSanitizedTransaction (LegacyMsg migrate_legacy) (mkHash []) false [])
      sample_cache = Some c' ∧
    get_account (remote_loader c') (pubkey_of_N 3) = Some (remote_account sample_plain).
Proof.
  destruct (migrate_transaction_fills_cache 2 sample_base (pubkey_of_N 9)
    [pubkey_of_N 1; pubkey_of_N 3] migrate_ix (mkHash [1]) migrate_message migrate_legacy (mkHash []) [] sample_cache)
    as (c' & Hc & _ & Hk); [by vm_compute..| |].
  - intros k Hk. repeat (apply elem_of_cons in Hk as [->|Hk]; [by vm_compute|]).
    by apply not_elem_of_nil in Hk.
  - exists c'. split; [exact Hc|]. apply Hk; [right; left|by vm_compute..].
Defined.
