(* ===== verification/ExecuteRules.v ===== *)
(** * Theory of transaction execution

    What [execute_loaded_transaction] may do to the accounts it was given, and that its
    last check, on the sum of the balances, never fails. *)

From S2P Require Import Prelude Sdk Message MessageRules CompileRules Rent Account.
From S2P Require Import TransactionContext AccountRules InstructionRules LogCollector.
From S2P Require Import InvokeContext InvokeRules MessageProcessor MessageProcessorRules Effects.
From S2P Require Import MigraterProgram RemoteLoader AccountsCache Bank.

(** ** Loaded transactions *)

(** the message's cache of writable flags is the one its constructor computes *)
Definition message_wf (message : SanitizedMessage) : Prop :=
  match message with
  | LegacyMsg m => legacy_message_new (E:=unit) (lm_message m) = Ok m
  | V0Msg m => loaded_message_new (ld_message m) (loaded_addresses m) = m
  end.

(** the accounts of a transaction as the loader leaves them: those of the message
    first, each once; balances are 64-bit numbers *)
Record tx_loaded (message : SanitizedMessage) (accounts : list (Pubkey * AccountSharedData))
    (program_indices : list (list N)) : Prop := {
  tl_wf : message_wf message;
  tl_prefix : account_keys_iter (sm_account_keys message) `prefix_of` accounts.*1;
  tl_nodup : sm_has_duplicates message = false;
  tl_keys : len accounts ≤ u16_max;
  tl_small : small_instructions (zip (sm_instructions message) program_indices);
  tl_lamports : Forall (λ x, lamports x.2 ≤ u64_max) accounts }.

Lemma writable_out message i :
  message_wf message → len (account_keys_iter (sm_account_keys message)) ≤ i →
  sm_is_writable message i = false.
Proof.
  intros Hw Hi. unfold sm_is_writable.
  assert (Hlen : len (match message with
    | LegacyMsg m => lm_is_writable_account_cache m
    | V0Msg m => ld_is_writable_account_cache m
    end) = len (account_keys_iter (sm_account_keys message))).
  { destruct message as [m|m]; simpl in Hw.
    - unfold legacy_message_new in Hw. destruct (rmapM _ _) as [l| |] eqn:Hl; simpl in Hw; [|done..].
      injection Hw as <-. simpl. apply rmapM_Ok, Forall2_length in Hl. unfold len. rewrite <-Hl.
      pose proof (len_indices (msg_account_keys (lm_message m))) as Hx. unfold len in Hx.
      unfold account_keys_iter. simpl. rewrite app_nil_r. lia.
    - rewrite <-Hw. simpl. unfold len. rewrite length_fmap.
      pose proof (len_indices (account_keys_iter (v0_account_keys (ld_message m) (loaded_addresses m))))
        as Hx. unfold len in Hx. lia. }
  unfold getN. rewrite lookup_ge_None_2; [done|]. unfold len in *. lia.
Qed.

Lemma tc_new_loaded message accounts pidx r stack trace :
  tx_loaded message accounts pidx → loaded message (tc_new accounts r stack trace).
Proof.
  intros []. split; simpl.
  - done.
  - by apply sm_has_duplicates_NoDup.
  - unfold len. by rewrite length_fmap.
  - split; simpl; [done|constructor].
Qed.

(** ** Sums of balances *)
Lemma sumN_app l1 l2 : sumN (l1 ++ l2) = sumN l1 + sumN l2.
Proof. induction l1 as [|x l1 IH]; [done|]. simpl. rewrite !sumN_cons, IH. lia. Qed.
Lemma sumN_take_le n l : sumN (take n l) ≤ sumN l.
Proof. rewrite <-(take_drop n l) at 2. rewrite sumN_app. lia. Qed.
Lemma sumN_bound m l : Forall (λ x, x ≤ m) l → sumN l ≤ m * len l.
Proof.
  unfold len. induction 1 as [|x l Hx _ IH]; [apply N.le_0_l|]. rewrite sumN_cons. cbn [length].
  rewrite Nat2N.inj_succ, N.mul_succ_r. lia.
Qed.

Lemma sum_loop_spec accounts : ∀ n start acc,
  (start + n ≤ length accounts)%nat →
  acc + sumN (take n (drop start ((λ x, lamports x.2) <$> accounts))) ≤ u128_max →
  lamports_sum_loop accounts (N.of_nat <$> seq start n) acc =
    Some (acc + sumN (take n (drop start ((λ x, lamports x.2) <$> accounts)))).
Proof.
  induction n as [|n IH]; intros start acc Hn Hs; simpl.
  { unfold sumN. simpl. f_equal. lia. }
  destruct (lookup_lt_is_Some_2 accounts start) as [x Hx]; [lia|].
  assert (Hd : drop start ((λ x, lamports x.2) <$> accounts) =
    lamports x.2 :: drop (S start) ((λ x, lamports x.2) <$> accounts)).
  { apply drop_S. by rewrite list_lookup_fmap, Hx. }
  rewrite Hd in *. cbn [take] in *. rewrite sumN_cons in *. unfold getN. rewrite Nat2N.id, Hx.
  cbn [mbind option_bind]. unfold checked_add. rewrite (proj2 (N.leb_le _ _)) by lia.
  cbn [mbind option_bind]. rewrite IH by lia. f_equal. lia.
Qed.

Lemma account_keys_len_iter k :
  len (account_keys_iter k) ≤ u64_max → account_keys_len k = len (account_keys_iter k).
Proof.
  unfold account_keys_len, account_keys_iter.
  assert (Hgen : ∀ segs n, n + len (concat segs) ≤ u64_max →
    foldl (λ n (seg : list Pubkey), saturating_add u64_max n (len seg)) n segs = n + len (concat segs)).
  { induction segs as [|seg segs IH]; intros n Hn; simpl; [unfold len; simpl; lia|].
    simpl in Hn. rewrite len_app in *. unfold saturating_add. rewrite N.min_r by lia.
    rewrite IH by lia. lia. }
  intros Hle. rewrite Hgen by lia. lia.
Qed.

(** the balances of the accounts of the message *)
Definition message_lamports (message : SanitizedMessage) (l : list N) : N :=
  sumN (take (length (account_keys_iter (sm_account_keys message))) l).

Lemma lamports_sum_eq message accounts :
  account_keys_iter (sm_account_keys message) `prefix_of` accounts.*1 → len accounts ≤ u16_max →
  message_lamports message ((λ x, lamports x.2) <$> accounts) ≤ u128_max →
  transaction_accounts_lamports_sum accounts message =
    Some (message_lamports message ((λ x, lamports x.2) <$> accounts)).
Proof.
  intros Hp%prefix_length Hl Hs. rewrite length_fmap in Hp. unfold transaction_accounts_lamports_sum.
  rewrite account_keys_len_iter by (unfold len, u16_max, u64_max in *; lia).
  unfold rangeN, len. rewrite Nat2N.id. unfold message_lamports in *.
  rewrite sum_loop_spec; [by rewrite drop_0|simpl; lia|rewrite drop_0; simpl; lia].
Qed.

(** ** Errors *)
Lemma rmapM_Err {E A B} (f : A → result E B) l e : rmapM f l = Err e → ∃ x, x ∈ l ∧ f x = Err e.
Proof.
  induction l as [|x l IH]; simpl; [done|]. destruct (f x) as [y|e'|] eqn:Hx; simpl; [|intros [= <-]|done].
  - destruct (rmapM f l); simpl; [done|intros [= ->]|done]. destruct IH as (z & ? & ?); [done|].
    exists z. split; [by right|done].
  - exists x. split; [by left|done].
Qed.
Lemma state_info_Err r t message e : get_transaction_account_state_info r t message = Err e → False.
Proof.
  intros (i & _ & Hi)%rmapM_Err. unfold account_state_info in Hi.
  destruct (sm_is_writable message i); [|done].
  destruct (get_account_at_index t (as_u16 i)); [|done..]. by destruct (cell_borrowed _).
Qed.
Lemma verify_Ok t l : ∀ i, verify_state_changes t i l = Ok tt →
  ∀ j pre post, l !! j = Some (pre, post) →
    check_rent_state pre post t (as_u16 (i + N.of_nat j)) = Ok tt.
Proof.
  induction l as [|[pre post] l IH]; intros i Hv j pre' post'; [done|]. simpl in Hv.
  destruct (check_rent_state pre post t (as_u16 i)) as [[]| |] eqn:Hc; simpl in Hv; [|done..].
  destruct j as [|j]; cbn [lookup list_lookup].
  - intros [= <- <-]. by rewrite N.add_0_r.
  - intros Hj. replace (i + N.of_nat (S j)) with (i + 1 + N.of_nat j) by lia.
    apply IH; [exact Hv|exact Hj].
Qed.
Lemma zip_lookup {A B} (l : list A) (k : list B) i x y :
  l !! i = Some x → k !! i = Some y → zip l k !! i = Some (x, y).
Proof. intros Hx Hy. apply lookup_zip_with_Some. by exists x, y. Qed.
Lemma check_rent_Ok pre post t i :
  check_rent_state (Some pre) (Some post) t i = Ok tt →
  ∃ key, getN (account_keys t) i = Some key ∧
    (key = incinerator_id ∨ transition_allowed_from post pre = true).
Proof.
  unfold check_rent_state. destruct (getN (account_keys t) i) as [key|]; simpl; [|done].
  destruct (ta_get _ _) as [c|]; simpl; [|done]. destruct (cell_borrowed c); [done|].
  unfold check_rent_state_with_account. intros Hc. exists key. split; [done|].
  destruct (key_eqb key incinerator_id) eqn:Hk; [left; by apply key_eqb_true|].
  destruct (transition_allowed_from post pre); [by right|done].
Qed.
Lemma as_u16_small n : n ≤ u16_max → as_u16 n = n.
Proof. intros Hn. apply N.mod_small. unfold u16_max in Hn. lia. Qed.
Lemma state_info_lookup r t message l i c :
  get_transaction_account_state_info r t message = Ok l →
  N.of_nat i < account_keys_len (sm_account_keys message) → N.of_nat i ≤ u16_max →
  sm_is_writable message (N.of_nat i) = true → accounts (tx_accounts t) !! i = Some c →
  l !! i = Some (Some (rent_state_from_account (cell_value c) r)).
Proof.
  intros Hl%rmapM_Ok Hi Hu Hw Hc. unfold rangeN in Hl.
  destruct (Forall2_lookup_l _ _ _ i (N.of_nat i) Hl) as (y & Hy & Hf).
  { rewrite list_lookup_fmap, lookup_seq_lt by lia. done. }
  rewrite Hy. f_equal. unfold account_state_info in Hf. rewrite Hw in Hf.
  unfold get_account_at_index, ta_get, getN in Hf.
  rewrite as_u16_small, Nat2N.id, Hc in Hf by done.
  simpl in Hf. destruct (cell_borrowed c); congruence.
Qed.
Lemma verify_Err t l i e :
  verify_state_changes t i l = Err e → ∃ j, e = TransactionError.InsufficientFundsForRent j.
Proof.
  revert i. induction l as [|[pre post] l IH]; intros i; simpl; [done|].
  destruct (check_rent_state pre post t (as_u16 i)) as [[]|e'|] eqn:Hc; simpl; [apply IH| |done].
  intros [= ->]. unfold check_rent_state in Hc. destruct pre, post; try done.
  destruct (getN _ _); simpl in Hc; [|done]. destruct (ta_get _ _); simpl in Hc; [|done].
  destruct (cell_borrowed _); [done|]. unfold check_rent_state_with_account in Hc.
  destruct (_ && _); [|done]. injection Hc as <-. by eexists.
Qed.

Definition message_error (e : TransactionError.t) : Prop :=
  e = TransactionError.InvalidAccountIndex ∨ ∃ i err, e = TransactionError.InstructionError i err.

Lemma build_not_Err message t l e : build_instruction_accounts message t l = Err e → False.
Proof.
  intros (x & _ & Hx)%rmapM_Err. unfold instruction_account_of in Hx.
  destruct (account_keys_get _ _); simpl in Hx; [|done].
  destruct (find_index_of_account _ _) as [i|]; simpl in Hx; [|done].
  destruct (ta_get _ _); simpl in Hx; [|done]. by destruct (cell_borrowed _).
Qed.
Lemma fixup_Err i t e :
  fixup_instructions_sysvar i t = Err e → e = TransactionError.InvalidAccountIndex.
Proof.
  unfold fixup_instructions_sysvar. destruct (find_index_of_account _ _); [|done].
  destruct (get_account_at_index _ _); simpl; [|by intros [= <-]|done].
  destruct (cell_borrowed _); [done|]. unfold store_current_index. by destruct (_ <? 2).
Qed.
Lemma run_ic_Err {A} (m : IC A) x e x' : run_ic m x = (Err e, x') → False.
Proof. destruct x as [s u]. unfold run_ic. by destruct (m s) as [[]]. Qed.
Lemma process_instruction_Err `{PubkeyDisplay} programs fuel message i k ci pidx x e x' :
  process_message_instruction programs fuel message i k ci pidx x = (Err e, x') → message_error e.
Proof.
  unfold process_message_instruction. mstep. do 2 mstep; [| |done].
  2:{ intros [= <- _]. left. by eapply fixup_Err. }
  do 4 mstep; [| |done]; [|intros _; by eapply build_not_Err in Heqr0].
  mstep. generalize (set_transaction_context a x.1, x.2). intros y.
  destruct (is_precompile _ _); unfold bind.
  - destruct (run_ic _ y) as [[rr|e'|] z] eqn:Hr; [|by apply run_ic_Err in Hr|done].
    destruct rr; [done| |done]. intros [= <- _]. right. by eexists _, _.
  - destruct (run_ic _ y) as [[rr|e'|] z] eqn:Hr; [|by apply run_ic_Err in Hr|done].
    destruct rr as [[units rr]|e'|]; [|intros [= <- _]; right; by eexists _, _|done].
    simpl. destruct rr; [done| |done]. intros [= <- _]. right. by eexists _, _.
Qed.
Lemma process_message_Err `{PubkeyDisplay} programs fuel message l : ∀ i x e x',
  process_message_loop programs fuel message i l x = (Err e, x') → message_error e.
Proof.
  induction l as [|[ci pidx] l IH]; intros i x e x'; simpl; [done|].
  destruct (account_keys_get _ _) as [k|]; simpl; [|done]. unfold bind at 1. simpl. unfold bind.
  destruct (process_message_instruction _ _ _ _ _ _ _ x) as [[[]|e1|] y] eqn:Hi; [apply IH| |done].
  intros [= <- _]. by eapply process_instruction_Err.
Qed.

(** ** Execution *)
Section execute.
Context `{PubkeyDisplay, Sha256, KeypairBase58, NftValueRegex,
  !Bincode UpgradeableLoaderState, !Bincode ProgramInstruction}.
Context (programs : Pubkey → option LoadedProgramType) `{!LawfulPrograms programs}.
Context (show : Signature → string) (b : BaseLayer) (bank : Bank) (tx : SanitizedTransaction)
  (accounts : list (Pubkey * AccountSharedData)) (program_indices : list (list N))
  (budget : ComputeBudget) (logs returns : bool) (limit : option N) (l : RemoteAccountLoader).
Context (Hload : tx_loaded (tx_message tx) accounts program_indices).

Abbreviation execute :=
  (execute_loaded_transaction programs show b bank tx accounts program_indices budget logs returns
     limit l).
Abbreviation s0 := (execution_context bank accounts budget logs limit).

Definition balanced (accs : list (Pubkey * AccountSharedData)) : bool :=
  match transaction_accounts_lamports_sum accs (tx_message tx) with
  | Some lamports_after_tx =>
      default 0 (transaction_accounts_lamports_sum accounts (tx_message tx)) =? lamports_after_tx
  | None => false
  end.

(** the run of the message, of which the rest is a report *)
Record executed (d : TransactionExecutionDetails) (accs : list (Pubkey * AccountSharedData))
    (l' : RemoteAccountLoader) (r : result TransactionError.t unit) (s1 : InvokeContext)
    (verified : result TransactionError.t unit) : Prop := {
  ex_run : process_message programs (tx_message tx) program_indices (s0, 0) = (r, (s1, executed_units d));
  ex_accounts : accs = er_accounts (execution_record (transaction_context s1));
  ex_verified : match r with
    | Ok _ => ∃ pre post, verified =
        verify_transaction_account_state_changes (transaction_context s1) pre post ∧
        get_transaction_account_state_info (bank_rent bank) (transaction_context s0) (tx_message tx) =
          Ok pre ∧
        get_transaction_account_state_info (bank_rent bank) (transaction_context s1) (tx_message tx) =
          Ok post
    | Err e => verified = Err e
    | Panic => False
    end;
  ex_status : status d = if is_ok verified && negb (balanced accs)
    then Err TransactionError.UnbalancedTransaction else verified;
  ex_posted : ∃ posted,
    post_status_to_baselayer (E:=TransactionError.t) b tx (messages <$> log_collector s1) l =
      Ok (posted, l') ∧
    log_messages d = match posted with
      | Some sg => (λ ms, ms ++ ["Sonic BaseLayer Transaction Signature: " +:+ show sg]) <$>
                   (messages <$> log_collector s1)
      | None => messages <$> log_collector s1
      end }.

Lemma execute_inv d accs l' :
  execute = Ok (d, accs, l') → ∃ r s1 verified, executed d accs l' r s1 verified.
Proof.
  unfold execute_loaded_transaction. cbv zeta.
  destruct (get_transaction_account_state_info _ (transaction_context s0) _) as [pre| |] eqn:Hpre;
    cbn [rbind]; [|done..].
  destruct (process_message _ _ _ _) as [r [s1 units]] eqn:Hrun.
  set (verified := rbind r _).
  destruct verified as [[]|e|] eqn:Hv; [| |done];
    (destruct (post_status_to_baselayer _ _ _ _) as [[posted l2]| |] eqn:Hp; cbn [rbind]; [|done..]);
    intros [= <- <- <-]; exists r, s1, verified; split; rewrite ?Hv; try done; try (by exists posted).
  - unfold verified in Hv. destruct r as [[]|e'|]; cbn [rbind] in Hv; [|done..].
    destruct (get_transaction_account_state_info _ (transaction_context s1) _) as [post| |] eqn:Hpost; cbn [rbind] in Hv; [|done..].
    by exists pre, post.
  - unfold verified in Hv. destruct r as [[]|e'|]; cbn [rbind] in Hv; [|congruence|done].
    destruct (get_transaction_account_state_info _ (transaction_context s1) _) as [post|e2|] eqn:Hi;
      cbn [rbind] in Hv; [by exists pre, post| |done].
    by apply state_info_Err in Hi.
Qed.

(** what the run did to the transaction context *)
Lemma executed_frame d accs l' r s1 verified :
  executed d accs l' r s1 verified →
  msg_frame (tx_message tx) (transaction_context s0) (transaction_context s1) ∧
  (r = Ok tt → total_lamports (transaction_context s1) = total_lamports (transaction_context s0)).
Proof.
  intros [Hrun _ _ _ _]. unfold process_message, bind, gets in Hrun.
  eapply message_loop; [apply _|by eapply tc_new_loaded|exact (tl_small _ _ _ Hload)|exact Hrun].
Qed.

Lemma initial_lamports : lamports_list (transaction_context s0) = (λ x, lamports x.2) <$> accounts.
Proof.
  unfold lamports_list. simpl. rewrite <-!list_fmap_compose. done.
Qed.
Lemma final_lamports s1 :
  msg_frame (tx_message tx) (transaction_context s0) (transaction_context s1) →
  (λ x, lamports x.2) <$> er_accounts (execution_record (transaction_context s1)) =
  lamports_list (transaction_context s1).
Proof.
  intros [Hk _ _ _ _ _ [Hl _]]. unfold lamports_list. simpl in *.
  transitivity (lamports <$> (er_accounts (execution_record (transaction_context s1))).*2).
  { by rewrite <-list_fmap_compose. }
  simpl. rewrite snd_zip; [by unfold into_accounts; rewrite <-list_fmap_compose|].
  unfold into_accounts. rewrite length_fmap, Hl, Hk, !length_fmap. lia.
Qed.

(** accounts outside the message keep their balances *)
Lemma message_lamports_kept s1 :
  msg_frame (tx_message tx) (transaction_context s0) (transaction_context s1) →
  total_lamports (transaction_context s1) = total_lamports (transaction_context s0) →
  message_lamports (tx_message tx) (lamports_list (transaction_context s1)) =
  message_lamports (tx_message tx) (lamports_list (transaction_context s0)).
Proof.
  intros [_ _ _ _ _ _ [Hl Hc]] Ht. unfold message_lamports, total_lamports in *.
  set (n := length (account_keys_iter (sm_account_keys (tx_message tx)))).
  assert (Hd : drop n (lamports_list (transaction_context s1)) =
    drop n (lamports_list (transaction_context s0))).
  { apply list_eq. intros i. rewrite !lookup_drop. unfold lamports_list. rewrite !list_lookup_fmap.
    destruct (TransactionContext.accounts (tx_accounts (transaction_context s0)) !! (n + i)%nat)
      as [c|] eqn:Hc0.
    - destruct (lookup_lt_is_Some_2 (TransactionContext.accounts (tx_accounts (transaction_context s1)))
        (n + i)) as [c' Hc1]; [rewrite Hl; by eapply lookup_lt_Some|].
      rewrite Hc1. simpl. f_equal. destruct (Hc _ _ _ Hc0 Hc1) as [_ [_ Hb _ _ _]]. apply Hb.
      apply writable_out; [apply Hload|]. unfold len. fold n. lia.
    - rewrite lookup_ge_None in Hc0. by rewrite lookup_ge_None_2 by lia. }
  rewrite <-(take_drop n (lamports_list (transaction_context s1))), sumN_app, Hd in Ht.
  rewrite <-(take_drop n (lamports_list (transaction_context s0))) in Ht at 2. rewrite sumN_app in Ht. lia.
Qed.

Lemma initial_bound :
  message_lamports (tx_message tx) (lamports_list (transaction_context s0)) ≤ u128_max.
Proof.
  rewrite initial_lamports. unfold message_lamports. etrans; [apply sumN_take_le|].
  etrans; [apply (sumN_bound u64_max)|].
  - apply Forall_fmap, (tl_lamports _ _ _ Hload).
  - unfold len. rewrite length_fmap. pose proof (tl_keys _ _ _ Hload) as Hk. unfold len in Hk.
    unfold u64_max, u128_max, u16_max in *. lia.
Qed.

Lemma initial_sum :
  transaction_accounts_lamports_sum accounts (tx_message tx) =
  Some (message_lamports (tx_message tx) (lamports_list (transaction_context s0))).
Proof.
  rewrite initial_lamports. apply lamports_sum_eq; [apply Hload..|].
  rewrite <-initial_lamports. apply initial_bound.
Qed.

(** a run without an error leaves the sum the final check computes *)
Lemma executed_balanced d accs l' s1 verified :
  executed d accs l' (Ok tt) s1 verified → balanced accs = true.
Proof.
  intros Hex. destruct (executed_frame _ _ _ _ _ _ Hex) as [Hf Ht]. specialize (Ht eq_refl).
  pose proof (message_lamports_kept _ Hf Ht) as Hkept. pose proof initial_bound as Hb.
  unfold balanced. rewrite initial_sum, (ex_accounts _ _ _ _ _ _ Hex). rewrite lamports_sum_eq.
  - cbn [from_option id]. rewrite (final_lamports _ Hf), Hkept. apply N.eqb_refl.
  - destruct Hf as [Hk _ _ _ _ _ [Hl _]]. simpl in *. rewrite fst_zip, Hk; [apply Hload|].
    unfold into_accounts. rewrite length_fmap, Hl, Hk, !length_fmap. lia.
  - destruct Hf as [Hk _ _ _ _ _ [Hl _]]. simpl in *. unfold len. rewrite length_zip_with.
    unfold into_accounts. rewrite length_fmap, Hl, Hk, !length_fmap.
    pose proof (tl_keys _ _ _ Hload) as Hlen. unfold len in Hlen. lia.
  - by rewrite (final_lamports _ Hf), Hkept.
Qed.

(** C4: the check that a transaction does not create or destroy lamports never fires:
    for accounts loaded as the bank loads them and lawful programs, the status of
    an executed transaction is never [UnbalancedTransaction], and when it is [Ok]
    the balances of the message's accounts add up to what they did before. *)
Theorem execution_never_unbalanced d accs l' :
  execute = Ok (d, accs, l') →
  status d ≠ Err TransactionError.UnbalancedTransaction ∧
  (status d = Ok tt →
   transaction_accounts_lamports_sum accs (tx_message tx) =
   transaction_accounts_lamports_sum accounts (tx_message tx)).
Proof.
  intros (r & s1 & verified & Hex)%execute_inv.
  pose proof (ex_verified _ _ _ _ _ _ Hex) as Hv. pose proof (ex_status _ _ _ _ _ _ Hex) as Hst.
  destruct r as [[]|e|]; [|subst; simpl in Hst|done].
  - pose proof (executed_balanced _ _ _ _ _ Hex) as Hbal. rewrite Hbal, andb_false_r in Hst.
    destruct Hv as (pre & post & Hv & _). rewrite Hst. split.
    + intros E. rewrite Hv in E. apply verify_Err in E as [j E]. done.
    + intros _. unfold balanced in Hbal.
      destruct (transaction_accounts_lamports_sum accs _) as [x|]; [|done].
      apply N.eqb_eq in Hbal. rewrite initial_sum in Hbal |- *. simpl in Hbal. by subst.
  - rewrite Hst. split; [|done]. intros [= ->].
    pose proof (ex_run _ _ _ _ _ _ Hex) as Hrun. unfold process_message, bind, gets in Hrun.
    apply process_message_Err in Hrun as [?|(? & ? & ?)]; done.
Qed.

(** what a run leaves of each account *)
Lemma execute_keeps d accs l' i key a :
  execute = Ok (d, accs, l') → accounts !! i = Some (key, a) →
  ∃ a', accs !! i = Some (key, a') ∧ remote a' = remote a ∧
    (sm_is_writable (tx_message tx) (N.of_nat i) = false → lamports a' = lamports a) ∧
    (key ≠ sysvar_instructions_id →
     sm_is_writable (tx_message tx) (N.of_nat i) = false ∨ remote a = true ∨ executable a = true →
     a' = a).
Proof.
  intros (r & s1 & verified & Hex)%execute_inv Hi.
  destruct (executed_frame _ _ _ _ _ _ Hex) as [Hf _]. rewrite (ex_accounts _ _ _ _ _ _ Hex).
  destruct Hf as [Hk _ _ _ _ _ [Hl Hc]]. simpl in *.
  assert (Hc0 : ((λ a, mkCell a false) <$> accounts.*2) !! i = Some (mkCell a false)).
  { rewrite !list_lookup_fmap, Hi. done. }
  destruct (lookup_lt_is_Some_2 (TransactionContext.accounts (tx_accounts (transaction_context s1))) i)
    as [c' Hc1]; [rewrite Hl; by eapply lookup_lt_Some|].
  assert (Hkey : account_keys (transaction_context s1) !! i = Some key).
  { rewrite Hk, list_lookup_fmap, Hi. done. }
  destruct (Hc _ _ _ Hc0 Hc1) as [_ [Hm Hbal Hro Hrem Hexe]]. simpl in *. exists (cell_value c').
  split; [|split; [done|split; [done|]]].
  - apply lookup_zip_with_Some. exists key, (cell_value c'). split; [done|]. split; [done|].
    unfold into_accounts. by rewrite list_lookup_fmap, Hc1.
  - intros Hne Hor. assert (accounts.*1 !! i ≠ Some sysvar_instructions_id) as Hns.
    { rewrite list_lookup_fmap, Hi. simpl. congruence. }
    destruct Hor as [?|[?|?]]; auto.
Qed.

(** a run without an error keeps the balances of the message's accounts together *)
Lemma execute_sum d accs l' :
  execute = Ok (d, accs, l') → status d = Ok tt →
  length accs = length accounts ∧
  message_lamports (tx_message tx) ((λ x, lamports x.2) <$> accs) =
  message_lamports (tx_message tx) ((λ x, lamports x.2) <$> accounts).
Proof.
  intros (r & s1 & verified & Hex)%execute_inv Hst.
  pose proof (ex_verified _ _ _ _ _ _ Hex) as Hv. pose proof (ex_status _ _ _ _ _ _ Hex) as Hs.
  rewrite Hst in Hs. destruct r as [[]|e|]; [|by subst|done].
  destruct (executed_frame _ _ _ _ _ _ Hex) as [Hf Ht]. specialize (Ht eq_refl).
  rewrite (ex_accounts _ _ _ _ _ _ Hex), (final_lamports _ Hf). split.
  - destruct Hf as [Hk _ _ _ _ _ [Hl _]]. simpl in *. rewrite length_zip_with.
    unfold into_accounts. rewrite length_fmap, Hl, Hk, !length_fmap. lia.
  - rewrite (message_lamports_kept _ Hf Ht). by rewrite initial_lamports.
Qed.

(** C5: an executed transaction, failed or not, returns its accounts under the keys
    it got; those it may not write, the copies of base-layer accounts and the
    programs are returned as they were (the instructions sysvar apart), and no account
    changes between local and remote. *)
Theorem execution_keeps_accounts d accs l' i key a :
  execute = Ok (d, accs, l') → accounts !! i = Some (key, a) →
  ∃ a', accs !! i = Some (key, a') ∧ remote a' = remote a ∧
    (key ≠ sysvar_instructions_id →
     sm_is_writable (tx_message tx) (N.of_nat i) = false ∨ remote a = true ∨ executable a = true →
     a' = a).
Proof.
  intros He Hi. destruct (execute_keeps _ _ _ _ _ _ He Hi) as (a' & Ha & Hr & _ & Hk). by exists a'.
Qed.

(** No transaction leaves a new rent-paying account.  After a transaction that succeeded, each account of
    the message that it may write, the incinerator apart, is empty or rent exempt; or it
    was rent paying before, its data has the same size and its balance has not
    grown. *)
Theorem execution_rent_states d accs l' i key a key' a' :
  execute = Ok (d, accs, l') → status d = Ok tt →
  accounts !! i = Some (key, a) → accs !! i = Some (key', a') →
  N.of_nat i < account_keys_len (sm_account_keys (tx_message tx)) →
  sm_is_writable (tx_message tx) (N.of_nat i) = true → key ≠ incinerator_id →
  match rent_state_from_account a' (bank_rent bank) with
  | RentState.Uninitialized | RentState.RentExempt => True
  | RentState.RentPaying post_lamports post_size =>
      ∃ pre_lamports, rent_state_from_account a (bank_rent bank) =
        RentState.RentPaying pre_lamports post_size ∧ post_lamports ≤ pre_lamports
  end.
Proof.
  intros (r & s1 & verified & Hex)%execute_inv Hst Hi Hi' Hlt Hw Hne.
  destruct (executed_frame _ _ _ _ _ _ Hex) as [[Hk _ _ _ _ _ [Hl _]] _].
  destruct Hex as [_ -> Hv Hs _]. rewrite Hst in Hs.
  assert (verified = Ok tt) as -> by (destruct verified as [[]| |]; try done; by destruct (balanced _)).
  destruct r as [[]| |]; [|done..]. destruct Hv as (pre & post & Hver & Hpre & Hpost).
  simpl in Hi'. apply lookup_zip_with_Some in Hi' as (k1 & a1 & [= -> ->] & Hk1 & Ha1).
  unfold into_accounts in Ha1. rewrite list_lookup_fmap in Ha1.
  destruct (TransactionContext.accounts _ !! i) as [c1|] eqn:Hc1; simplify_eq/=.
  assert (N.of_nat i ≤ u16_max) as Hu.
  { pose proof (tl_keys _ _ _ Hload) as Hlen. apply lookup_lt_Some in Hi. unfold len in Hlen. lia. }
  eapply (state_info_lookup _ _ _ _ i) in Hpost; [|done..|exact Hc1].
  eapply (state_info_lookup _ _ _ _ i (mkCell a false)) in Hpre; [|done..|].
  2:{ simpl. by rewrite !list_lookup_fmap, Hi. }
  symmetry in Hver. pose proof (verify_Ok _ _ _ Hver i _ _ (zip_lookup _ _ _ _ _ Hpre Hpost)) as Hchk.
  rewrite N.add_0_l, as_u16_small in Hchk by done.
  destruct (check_rent_Ok _ _ _ _ Hchk) as (k & Hk2 & Hor).
  assert (k = key) as ->.
  { unfold getN in Hk2. rewrite Nat2N.id, Hk in Hk2. simpl in Hk2.
    rewrite list_lookup_fmap, Hi in Hk2. simpl in Hk2. congruence. }
  destruct Hor as [?|Hok]; [done|]. simpl in Hok.
  destruct (rent_state_from_account (cell_value c1) _); [done| |done]. simpl in Hok.
  destruct (rent_state_from_account a _) as [|pl ps|]; [done| |done].
  apply andb_true_iff in Hok as [->%N.eqb_eq Hle%N.leb_le]. by exists pl.
Qed.
End execute.
