(* ===== verification/Transactions.v ===== *)
(** * Transactions over the builtin programs

    The registry of builtin programs ([runtime/src/builtins.rs]), the theorems about
    processing messages, instructions and cross-program invocations that hold for it, and
    closed runs of whole transactions. *)

From S2P Require Import Prelude Sdk Message MessageRules CompileRules Rent Account.
From S2P Require Import TransactionContext AccountRules InstructionRules LogCollector.
From S2P Require Import InvokeContext InvokeRules MessageProcessor MessageProcessorRules Nonce.
From S2P Require Import SystemProgram Effects SystemProgramRules.
From S2P Require Import LookupTable LookupTableRules MigraterProgram RemoteLoader AccountsCache Codec CacheRules Bank HgNft.
From S2P Require Import VoteState VoteProgram VoteControl VoteWire EpochSchedule BankRules ExecuteRules.
From S2P Require Import ConfigProgram Stake StakeProgram StakeRules StakeWire.

(** ** The compute budget program ([programs/compute-budget/src/lib.rs]) *)
Definition COMPUTE_BUDGET_UNITS : N := 150.
Definition compute_budget_process_instruction : IC unit := ret tt.
Definition compute_budget_entrypoint : program :=
  declare_process_instruction COMPUTE_BUDGET_UNITS compute_budget_process_instruction.
Lemma compute_budget_lawful ic : lawful ic compute_budget_entrypoint.
Proof. apply declared_lawful. intros ic'. unfold compute_budget_process_instruction. frame_solve. Qed.

(** ** The registry *)
Section registry.
Context `{PubkeyDisplay, Sha256, !Bincode SystemInstruction, !Bincode Versions,
  !Bincode ProgramInstruction, Curve25519, !Bincode LookupTableState, !Bincode LookupTableInstruction,
  !Bincode VoteStateVersions, !Bincode VoteInstruction, !Bincode StakeStateV2, !Bincode StakeInstruction,
  !Bincode ConfigKeys, !Bincode StakeConfig}.
(** when features became active, and the text of a decoding error *)
Context (activated_slot : Pubkey → N) (bincode_error : list N → string).

(** the modelled entries of [BUILTINS]; [others] are the rest and the deployed programs *)
Definition builtins (others : Pubkey → option LoadedProgramType) (id : Pubkey) :
  option LoadedProgramType :=
  if key_eqb id system_program_id then Some (Builtin (Some system_entrypoint)) else
  if key_eqb id vote_program_id then Some (Builtin (Some vote_entrypoint)) else
  if key_eqb id stake_program_id then Some (Builtin (Some (stake_entrypoint activated_slot))) else
  if key_eqb id config_program_id then Some (Builtin (Some (config_entrypoint bincode_error))) else
  if key_eqb id compute_budget_id then Some (Builtin (Some compute_budget_entrypoint)) else
  if key_eqb id sonic_account_migrater_id then Some (Builtin (Some migrater_entrypoint)) else
  if key_eqb id lookup_table_program_id then Some (Builtin (Some lookup_table_entrypoint)) else
  others id.

#[export] Instance builtins_lawful others : LawfulPrograms others → LawfulPrograms (builtins others).
Proof.
  intros Ho id p. unfold builtins.
  destruct (key_eqb id system_program_id); [intros [= <-]; apply system_lawful|].
  destruct (key_eqb id vote_program_id); [intros [= <-]; apply vote_lawful|].
  destruct (key_eqb id stake_program_id); [intros [= <-]; apply stake_lawful|].
  destruct (key_eqb id config_program_id); [intros [= <-]; apply config_lawful|].
  destruct (key_eqb id compute_budget_id); [intros [= <-]; apply compute_budget_lawful|].
  destruct (key_eqb id sonic_account_migrater_id); [intros [= <-]; apply migrater_lawful|].
  destruct (key_eqb id lookup_table_program_id); [intros [= <-]; apply lookup_table_lawful|].
  apply Ho.
Qed.
End registry.

Definition no_others : Pubkey → option LoadedProgramType := λ _, None.
#[export] Instance no_others_lawful : LawfulPrograms no_others.
Proof. by intros id p. Qed.

(** ** Deciding well-formedness *)
Definition dedup_okb (l : list InstructionAccount) : bool :=
  forallb (λ ia,
    match getN l (index_in_callee ia) with
    | Some ia0 =>
        (index_in_transaction ia0 =? index_in_transaction ia) &&
        forallb (λ ja, negb (index_in_transaction ja =? index_in_transaction ia) ||
                       (index_in_callee ja =? index_in_callee ia)) l
    | None => false
    end) l.
Definition canonicalb (t : TransactionContext) (i : N) : bool :=
  match getN (account_keys t) i with
  | Some key => bool_decide (find_index_of_account t key = Some i)
  | None => false
  end.
Definition call_okb (s : InvokeContext) (ias : list InstructionAccount) (pidx : list N) : bool :=
  let t := transaction_context s in
  negb (bool_decide (instruction_trace t = [])) &&
  forallb (λ j, N.succ j <? len (instruction_trace t)) (instruction_stack t) &&
  (len (account_keys t) <=? u16_max) && (len pidx + len ias <=? u16_max) &&
  dedup_okb ias && forallb (λ ia, canonicalb t (index_in_transaction ia)) ias.

Lemma forallb_elem {A} (f : A → bool) l x : forallb f l = true → x ∈ l → f x = true.
Proof. rewrite forallb_forall. intros Hf Hx%list_elem_of_In. auto. Qed.

Lemma dedup_okb_ok l : dedup_okb l = true → dedup_ok l.
Proof.
  intros Hd i ia Hi. pose proof (forallb_elem _ _ _ Hd (getN_elem _ _ _ Hi)) as Hia. simpl in Hia.
  destruct (getN l (index_in_callee ia)) as [ia0|]; [|done].
  apply andb_true_iff in Hia as [He%N.eqb_eq Hall]. exists ia0. split; [done|]. split; [done|].
  intros j ja Hj Hja. pose proof (forallb_elem _ _ _ Hall (getN_elem _ _ _ Hj)) as Hx. simpl in Hx.
  rewrite (proj2 (N.eqb_eq _ _) Hja) in Hx. by apply N.eqb_eq.
Qed.
Lemma call_okb_ok s ias pidx : call_okb s ias pidx = true → call_ok s ias pidx.
Proof.
  unfold call_okb. rewrite !andb_true_iff, !N.leb_le. intros [[[[[Ht Hst] Hk] Hl] Hd] Hc]. split.
  - split; [by apply negb_true_iff, bool_decide_eq_false in Ht|]. rewrite list.Forall_forall.
    intros j Hj. pose proof (forallb_elem _ _ _ Hst Hj) as Hx%N.ltb_lt. unfold len in Hx. lia.
  - done.
  - done.
  - split; [by apply dedup_okb_ok|]. intros ia Hia. pose proof (forallb_elem _ _ _ Hc Hia) as Hx.
    simpl in Hx. unfold canonicalb in Hx. destruct (getN _ _) as [key|] eqn:Hkey; [|done].
    apply bool_decide_eq_true in Hx. by exists key.
Qed.

(** ** A sample transaction: key 1 sends five lamports to key 2 *)
Import Codec.Bincodes VoteWire.VoteBincodes StakeWire.StakeBincodes Codec.StandIns BankRules.Matchers.

Definition demo_programs : Pubkey → option LoadedProgramType :=
  builtins (λ _, 0) (λ _, String.EmptyString) no_others.
Definition transfer_data : list N := default [] (serialize (Transfer 5)).
Definition demo_message : Message :=
  mkMessage (mkMessageHeader 1 0 1) [pubkey_of_N 1; pubkey_of_N 2; system_program_id] (mkHash [])
    [mkCompiledInstruction 2 [0; 1] transfer_data].
Definition demo_tx : SanitizedTransaction :=
  mkSanitizedTransaction (LegacyMsg (mkLegacyMessage demo_message [true; true; false])) (mkHash []) false [].
Definition user_account (n : N) : AccountSharedData :=
  mkAccountSharedData n [] system_program_id false 0 false.
Definition native_program : AccountSharedData :=
  mkAccountSharedData 1 [] native_loader_id true 0 false.
Definition demo_accounts : list (Pubkey * AccountSharedData) :=
  [(pubkey_of_N 1, user_account 10000000); (pubkey_of_N 2, user_account 20000000);
   (system_program_id, native_program)].
Definition demo_clock : Clock := mkClock 77 0 1 2 0.
Definition demo_bank : Bank :=
  mkBank rent_default
    (mkSysvarCache (Some demo_clock) (Some (mkEpochSchedule 32 32 false 0 0)) (Some rent_default)
      (Some [(mkHash [1], 5000)]) (Some [(76, mkHash [1]); (75, mkHash [2])]) None)
    ∅ (mkHash [1]) 5000.
Definition demo_budget : ComputeBudget := mkComputeBudget 200000 5 64 32768.
Definition demo_show : Signature → string := λ _, "signature".
Definition demo_run := execute_loaded_transaction demo_programs demo_show sample_base demo_bank demo_tx
  demo_accounts [[2]] demo_budget true true None nft_loader.

Lemma running_intro ic s :
  get_current_instruction_context (transaction_context s) = Ok ic →
  call_okb s (instruction_accounts ic) (program_accounts ic) = true → running ic s.
Proof. intros Hc [Hwf Hk Hs Hi]%call_okb_ok. by split. Qed.

Definition demo_start : InvokeContext := execution_context demo_bank demo_accounts demo_budget true None.
Definition demo_ias : list InstructionAccount :=
  [mkInstructionAccount 0 0 0 true true; mkInstructionAccount 1 1 1 false true].
(** the state in which the system program runs the transfer *)
Definition demo_state : InvokeContext := (enter [2] demo_ias transfer_data demo_start).2.
Definition demo_ic : InstructionContext :=
  match get_current_instruction_context (transaction_context demo_state) with
  | Ok ic => ic | _ => instruction_context_default
  end.

(** ** Messages and instructions *)

(** C6: processing a message never touches what it must not.  Whatever the instructions do,
    however they end, and through any cross-program invocations: an account that the
    message does not make writable, a copy of a base-layer account and a program are
    left as they were (the instructions sysvar apart), the instruction stack is as it
    was, and when every instruction succeeds the lamports add up to the same total. *)
Theorem process_message_safe `{PubkeyDisplay} programs `{!LawfulPrograms programs} message pidx s u r s' u' :
  loaded message (transaction_context s) → small_instructions (zip (sm_instructions message) pidx) →
  process_message programs message pidx (s, u) = (r, (s', u')) →
  instruction_stack (transaction_context s') = instruction_stack (transaction_context s) ∧
  (r = Ok tt → total_lamports (transaction_context s') = total_lamports (transaction_context s)) ∧
  ∀ i c c', accounts (tx_accounts (transaction_context s)) !! i = Some c →
    accounts (tx_accounts (transaction_context s')) !! i = Some c' →
    remote (cell_value c') = remote (cell_value c) ∧
    (account_keys (transaction_context s) !! i ≠ Some sysvar_instructions_id →
     sm_is_writable message (N.of_nat i) = false ∨ remote (cell_value c) = true ∨
       executable (cell_value c) = true →
     cell_value c' = cell_value c).
Proof.
  intros Hl Hs Hrun. unfold process_message, bind, gets in Hrun.
  eapply message_loop in Hrun as [Hf Ht]; [|done..]. destruct Hf as [_ _ _ _ Hst _ [_ Hc]].
  split_and!; [done..|]. intros i c c' Hi Hi'. destruct (Hc i c c' Hi Hi') as [_ [Hm _ Hro Hrem He]].
  split; [done|]. intros Hk [?|[?|?]]; auto.
Qed.

Lemma demo_loaded : tx_loaded (tx_message demo_tx) demo_accounts [[2]].
Proof.
  split; [by vm_compute|exists []; by vm_compute|by vm_compute..|repeat constructor; by vm_compute|].
  repeat constructor; by vm_compute.
Qed.

Definition demo_processed := process_message demo_programs (tx_message demo_tx) [[2]] (demo_start, 0).
Lemma process_message_safe_witness :
  total_lamports (transaction_context demo_processed.2.1) = 30000001.
Proof.
  destruct (process_message_safe demo_programs (tx_message demo_tx) [[2]] demo_start 0
    demo_processed.1 demo_processed.2.1 demo_processed.2.2) as (_ & Ht & _).
  - eapply tc_new_loaded, demo_loaded.
  - apply demo_loaded.
  - by vm_compute.
  - rewrite Ht; by vm_compute.
Defined.

Definition demo_result : TransactionExecutionDetails * list (Pubkey * AccountSharedData) *
    RemoteAccountLoader :=
  (mkTransactionExecutionDetails (Ok tt) (Some ["Program  invoke [1]"; "Program  success"]) None 150 0,
   [(pubkey_of_N 1, user_account 9999995); (pubkey_of_N 2, user_account 20000005);
    (system_program_id, native_program)], nft_loader).
Lemma demo_runs :
  execute_loaded_transaction demo_programs demo_show sample_base demo_bank demo_tx demo_accounts [[2]]
    demo_budget true true None nft_loader =
  Ok (demo_result.1.1, demo_result.1.2, demo_result.2).
Proof. vm_compute. reflexivity. Qed.

Lemma execution_never_unbalanced_witness :
  transaction_accounts_lamports_sum demo_result.1.2 (tx_message demo_tx) =
  transaction_accounts_lamports_sum demo_accounts (tx_message demo_tx).
Proof.
  exact (proj2 (execution_never_unbalanced demo_programs demo_show sample_base demo_bank demo_tx
    demo_accounts [[2]] demo_budget true true None nft_loader demo_loaded _ _ _ demo_runs) eq_refl).
Defined.

Lemma execution_keeps_accounts_witness :
  demo_result.1.2 !! 2%nat = Some (system_program_id, native_program).
Proof.
  destruct (execution_keeps_accounts demo_programs demo_show sample_base demo_bank demo_tx
    demo_accounts [[2]] demo_budget true true None nft_loader demo_loaded _ _ _ 2
    system_program_id native_program demo_runs) as (a' & Ha & _ & Hk); [done|].
  rewrite Ha, Hk; [done|by vm_compute|by left; vm_compute].
Defined.

Lemma execution_rent_states_witness :
  match rent_state_from_account (user_account 20000005) (bank_rent demo_bank) with
  | RentState.Uninitialized | RentState.RentExempt => True
  | RentState.RentPaying post_lamports post_size =>
      ∃ pre_lamports, rent_state_from_account (user_account 20000000) (bank_rent demo_bank) =
        RentState.RentPaying pre_lamports post_size ∧ post_lamports ≤ pre_lamports
  end.
Proof.
  apply (execution_rent_states demo_programs demo_show sample_base demo_bank demo_tx
    demo_accounts [[2]] demo_budget true true None nft_loader demo_loaded _ _ _ 1 (pubkey_of_N 2)
    (user_account 20000000) (pubkey_of_N 2) (user_account 20000005) demo_runs); by vm_compute.
Defined.

(** C26: an invocation changes only what it was passed.  Whatever program runs, with
    whatever invocations of its own, and however it ends: an account the
    instruction does not get as writable is unchanged, and so is a program; no account
    changes its remote mark, its rent epoch or its borrow state; the
    instruction stack is as before the call. *)
Theorem invocation_changes_only_passed_accounts `{PubkeyDisplay} programs `{!LawfulPrograms programs}
    fuel data ias pidx s :
  call_ok s ias pidx →
  let s' := (process_instruction programs fuel data ias pidx s).2 in
  instruction_stack (transaction_context s') = instruction_stack (transaction_context s) ∧
  ∀ i c c', accounts (tx_accounts (transaction_context s)) !! i = Some c →
    accounts (tx_accounts (transaction_context s')) !! i = Some c' →
    cell_borrowed c' = cell_borrowed c ∧ remote (cell_value c') = remote (cell_value c) ∧
    rent_epoch (cell_value c') = rent_epoch (cell_value c) ∧
    (executable (cell_value c) = true → cell_value c' = cell_value c) ∧
    (¬ writable_among ias i → cell_value c' = cell_value c).
Proof.
  intros Hok s'.
  pose proof (process_instruction_frame programs fuel data ias pidx s Hok) as [_ _ _ _ Hst _ [_ Hc]].
  split; [done|]. intros i c c' Hi Hi'. by destruct (Hc i c c' Hi Hi') as [? []].
Qed.

Lemma invocation_changes_only_passed_accounts_witness :
  let s' := (process_instruction demo_programs 5 transfer_data demo_ias [2] demo_start).2 in
  cell_value <$> accounts (tx_accounts (transaction_context s')) !! 2%nat = Some native_program.
Proof.
  intros s'. destruct (invocation_changes_only_passed_accounts demo_programs 5 transfer_data demo_ias [2]
    demo_start (call_okb_ok demo_start demo_ias [2] ltac:(by vm_compute))) as [_ Hc].
  fold s' in Hc. destruct (accounts (tx_accounts (transaction_context s')) !! 2%nat) as [c'|] eqn:Hc'.
  - destruct (Hc 2%nat (mkCell native_program false) c' ltac:(by vm_compute) Hc') as (_ & _ & _ & He & _).
    simpl. rewrite He; [done|by vm_compute].
  - by vm_compute in Hc'.
Defined.

(** C27: no cross-program invocation escalates a privilege.  When the accounts of an
    instruction that a program invokes have been prepared, each of them is
    an account of the calling instruction; it is writable only if the caller got it
    writable, and a signer only if the caller got it as a signer or the program may sign
    for its key. *)
Theorem invocation_grants_no_privilege `{PubkeyDisplay} ic instruction signers s ias pidx s' :
  running ic s → len (ix_accounts instruction) < u16_max →
  prepare_instruction instruction signers s = (Ok (ias, pidx), s') →
  ∀ ia, ia ∈ ias → ∃ ca, ca ∈ instruction_accounts ic ∧
    index_in_transaction ca = index_in_transaction ia ∧
    (ia_is_writable ia = true → ia_is_writable ca = true) ∧
    (ia_is_signer ia = true → ia_is_signer ca = true ∨
       ∃ key, getN (account_keys (transaction_context s)) (index_in_transaction ia) = Some key ∧
              key ∈ signers).
Proof.
  intros Hr Hl Hp. by destruct (prepare_instruction_spec _ _ _ _ _ _ _ Hr Hl Hp) as [_ _ Hg].
Qed.

(** the caller: an instruction of some program on key 1 (signer), key 2 and the system program *)
Definition cpi_start : InvokeContext :=
  execution_context demo_bank
    (demo_accounts ++ [(pubkey_of_N 50, mkAccountSharedData 1 [] native_loader_id true 0 false)])
    demo_budget true None.
Definition cpi_ias : list InstructionAccount :=
  demo_ias ++ [mkInstructionAccount 2 2 2 false false].
Definition cpi_state : InvokeContext := (enter [3] cpi_ias [] cpi_start).2.
Definition cpi_ic : InstructionContext :=
  match get_current_instruction_context (transaction_context cpi_state) with
  | Ok ic => ic | _ => instruction_context_default
  end.
Definition cpi_instruction : Instruction :=
  mkInstruction system_program_id [meta_new (pubkey_of_N 1) true; meta_new (pubkey_of_N 2) false]
    transfer_data.
Definition cpi_prepared := prepare_instruction cpi_instruction [] cpi_state.

Lemma cpi_running : running cpi_ic cpi_state.
Proof. apply running_intro; by vm_compute. Qed.
Lemma cpi_prepares :
  prepare_instruction cpi_instruction [] cpi_state =
  (Ok ([mkInstructionAccount 0 0 0 true true; mkInstructionAccount 1 1 1 false true], [2]), cpi_state).
Proof. vm_compute. reflexivity. Qed.

Lemma invocation_grants_no_privilege_witness :
  ∃ ca, ca ∈ instruction_accounts cpi_ic ∧ index_in_transaction ca = 1 ∧ ia_is_writable ca = true.
Proof.
  destruct (invocation_grants_no_privilege cpi_ic cpi_instruction [] cpi_state _ _ _ cpi_running
    ltac:(by vm_compute) cpi_prepares (mkInstructionAccount 1 1 1 false true)) as (ca & Hin & Hi & Hw & _).
  - right. left.
  - exists ca. split; [done|]. split; [done|]. by apply Hw.
Defined.

(** C28: invocations end, and within the depth of the stack.  A level of fuel for
    each free level of the instruction stack is enough: more fuel never changes the
    result of an invocation. *)
Theorem invocation_depth_bounded `{PubkeyDisplay} programs `{!LawfulPrograms programs}
    fuel data ias pidx s :
  call_ok s ias pidx →
  instruction_stack_capacity (transaction_context s) ≤
    get_instruction_context_stack_height (transaction_context s) + N.of_nat fuel →
  ∀ extra, process_instruction programs (fuel + extra) data ias pidx s =
           process_instruction programs fuel data ias pidx s.
Proof.
  intros Hok He extra. eapply process_instruction_fuel; [done|done|..|exact He].
  unfold enough. rewrite Nat2N.inj_add. lia.
Qed.

Lemma invocation_depth_bounded_witness :
  process_instruction demo_programs (5 + 1000) transfer_data demo_ias [2] demo_start =
  process_instruction demo_programs 5 transfer_data demo_ias [2] demo_start.
Proof.
  apply invocation_depth_bounded; [apply _|apply call_okb_ok; by vm_compute|by vm_compute].
Defined.

(** ** The system program *)

(** a transfer that may happen happens.  When the source signed, both accounts are
    writable, loaded and unborrowed, the source belongs to the running program, carries
    no data and holds the amount, no program is involved and the target has room, the transfer succeeds, and it
    moves exactly the amount: nothing else of any account changes. *)
Theorem transfer_moves_lamports `{PubkeyDisplay} ic i j amount s ia ja a b :
  can_transfer ic i j amount s ia ja a b →
  ∃ s', transfer ic i j amount s = (Ok tt, s') ∧
    ivals s' = move_lamports (N.to_nat (index_in_transaction ia))
                 (N.to_nat (index_in_transaction ja)) amount (ivals s).
Proof.
  intros Hc. destruct (transfer_run _ _ _ _ _ _ _ _ _ Hc) as [s' Hr]. exists s'. split; [done|].
  apply transfer_Ok in Hr as [[(ia' & a' & Hia & _ & _ & _ & _ & _ & ja' & Hja & Hv & _)] _].
  destruct Hc. by simplify_eq.
Qed.

Lemma demo_running : running demo_ic demo_state.
Proof. apply running_intro; by vm_compute. Qed.

Lemma transfer_moves_lamports_witness :
  ∃ s', transfer demo_ic 0 1 5 demo_state = (Ok tt, s') ∧
    ivals s' = move_lamports 0 1 5 (ivals demo_state).
Proof.
  apply (transfer_moves_lamports demo_ic 0 1 5 demo_state (mkInstructionAccount 0 0 0 true true)
    (mkInstructionAccount 1 1 1 false true) (user_account 10000000) (user_account 20000000)).
  split; [apply demo_running|..];
    first [by vm_compute|split; [by vm_compute|vm_compute; by eexists]|split; by vm_compute].
Defined.

(** account creation only fills unused addresses.  If [create_account] succeeds then the
    address signed (or its base did), the account there held no lamports and no data and belonged to
    the system program, and the funder signed; the account then has the requested owner,
    the requested space, zeroed, and the lamports that the funder paid; no
    other account changes. *)
Theorem create_account_fills_unused_address `{PubkeyDisplay} ic i j addr amount space k sg s s' :
  create_account ic i j addr amount space k sg s = (Ok tt, s') →
  address_is_signer addr sg = true ∧ space ≤ MAX_PERMITTED_DATA_LENGTH ∧
  ∃ ia ja b, getN (instruction_accounts ic) i = Some ia ∧ ia_is_signer ia = true ∧
    getN (instruction_accounts ic) j = Some ja ∧
    ivals s !! N.to_nat (index_in_transaction ja) = Some b ∧
    lamports b = 0 ∧ data b = [] ∧ owner b = system_program_id ∧
    ivals s' = move_lamports (N.to_nat (index_in_transaction ia))
      (N.to_nat (index_in_transaction ja)) amount
      (<[N.to_nat (index_in_transaction ja) :=
           set_owner k (set_data (replicate (N.to_nat space) 0) b)]> (ivals s)).
Proof.
  intros [[(ja & b & Hj & Hb & Hl & Hd & Ho & Hsp & ia & Hi & Hsg & Hv)] Ha]%create_account_Ok.
  split_and!; [done..|]. by exists ia, ja, b.
Qed.

(** a state in which an instruction on these accounts runs *)
Definition running_on (accounts : list (Pubkey * AccountSharedData)) (pidx : N)
    (ias : list InstructionAccount) : InvokeContext :=
  (enter [pidx] ias [] (execution_context demo_bank accounts demo_budget true None)).2.
Definition current (s : InvokeContext) : InstructionContext :=
  match get_current_instruction_context (transaction_context s) with
  | Ok ic => ic | _ => instruction_context_default
  end.

Definition create_state : InvokeContext :=
  running_on [(pubkey_of_N 1, user_account 10000000); (pubkey_of_N 2, user_account 0);
              (system_program_id, native_program)] 2
    [mkInstructionAccount 0 0 0 true true; mkInstructionAccount 1 1 1 true true].
Definition create_run :=
  create_account (current create_state) 0 1 (mkAddress (pubkey_of_N 2) None) 7 3 (pubkey_of_N 50)
    {[pubkey_of_N 1; pubkey_of_N 2]} create_state.

Lemma create_runs : create_account (current create_state) 0 1 (mkAddress (pubkey_of_N 2) None) 7 3
    (pubkey_of_N 50) {[pubkey_of_N 1; pubkey_of_N 2]} create_state = (Ok tt, create_run.2).
Proof. vm_compute. reflexivity. Qed.

Lemma create_account_fills_unused_address_witness :
  ∃ ia ja b, getN (instruction_accounts (current create_state)) 1 = Some ja ∧
    ivals create_state !! N.to_nat (index_in_transaction ja) = Some b ∧ lamports b = 0 ∧
    ivals create_run.2 = move_lamports (N.to_nat (index_in_transaction ia))
      (N.to_nat (index_in_transaction ja)) 7
      (<[N.to_nat (index_in_transaction ja) :=
           set_owner (pubkey_of_N 50) (set_data (replicate (N.to_nat 3) 0) b)]> (ivals create_state)).
Proof.
  destruct (create_account_fills_unused_address (current create_state) 0 1
    (mkAddress (pubkey_of_N 2) None) 7 3 (pubkey_of_N 50) {[pubkey_of_N 1; pubkey_of_N 2]} create_state
    create_run.2 create_runs) as (_ & _ & ia & ja & b & _ & _ & Hj & Hb & Hl & _ & _ & Hv).
  exists ia, ja, b. exact (conj Hj (conj Hb (conj Hl Hv))).
Defined.

(** A nonce advances once per block hash, and only with its authority's signature.  An advance
    that succeeds found an initialised nonce, other than the one it stores, whose authority
    signed; it stores the nonce of the current block hash and the current fee
    for the same authority; and until the block hash changes no further
    advance succeeds. *)
Theorem nonce_advances_once `{PubkeyDisplay, Sha256, !Bincode Versions, !BincodeLaws Versions}
    ba sg sg' s s' :
  advance_nonce_account ba sg s = (Ok tt, s') →
  let next := durable_nonce_from_blockhash (blockhash s) in
  (∃ a v d, at_handle ba (transaction_context s) = Some a ∧
     shared_deserialize_data a = Some v ∧ versions_state v = Initialized d ∧
     nonce_authority d ∈ sg ∧ durable_nonce d ≠ next ∧
     ∃ a', at_handle ba (transaction_context s') = Some a' ∧ shared_deserialize_data a' = Some
       (versions_new (Initialized
          (mkNonceData (nonce_authority d) next (lamports_per_signature s))))) ∧
  ((advance_nonce_account ba sg' s').1 = Err MissingRequiredSignature ∨
   (advance_nonce_account ba sg' s').1 = Err (system_error SystemError.NonceBlockhashNotExpired)).
Proof.
  intros Hrun. split; [|by eapply advance_again].
  apply advance_Ok in Hrun as (a & v & d & bs & Ha & Hd & Hst & Hau & Hne & Hs & Hv & Hb).
  exists a, v, d. split_and!; [done..|]. eexists. split; [by eapply at_handle_insert|].
  by apply stored_state.
Qed.

Definition nonce_account : AccountSharedData :=
  mkAccountSharedData 5000000
    (default [] (serialize (versions_new (Initialized
       (mkNonceData (pubkey_of_N 1) (durable_nonce_from_blockhash (mkHash [9])) 1)))) ++ [0; 0])
    system_program_id false 0 false.
Definition nonce_state : InvokeContext :=
  running_on [(pubkey_of_N 2, nonce_account); (system_program_id, native_program)] 1
    [mkInstructionAccount 0 0 0 false true].
Definition nonce_handle : BorrowedAccount := mkBorrowedAccount (current nonce_state) 0 1.
Definition nonce_run := advance_nonce_account nonce_handle {[pubkey_of_N 1]} nonce_state.
Lemma nonce_runs :
  advance_nonce_account nonce_handle {[pubkey_of_N 1]} nonce_state = (Ok tt, nonce_run.2).
Proof. vm_compute. reflexivity. Qed.

Lemma nonce_advances_once_witness :
  (advance_nonce_account nonce_handle {[pubkey_of_N 1]} nonce_run.2).1 = Err MissingRequiredSignature ∨
  (advance_nonce_account nonce_handle {[pubkey_of_N 1]} nonce_run.2).1 =
    Err (system_error SystemError.NonceBlockhashNotExpired).
Proof.
  exact (proj2 (nonce_advances_once nonce_handle {[pubkey_of_N 1]} {[pubkey_of_N 1]} nonce_state
    nonce_run.2 nonce_runs)).
Defined.

(** ** The account migrater *)

(** the migrater program reports what it is asked to migrate.  An instruction with at least one account, all
    of them loaded and free, succeeds: it logs one line for each
    account that is neither a signer nor writable nor the migrater itself, in
    their order, and a summary with their number and the slot; it changes nothing else. *)
Theorem migrater_reports_accounts `{PubkeyDisplay} ic s clock :
  running ic s → instruction_accounts ic ≠ [] →
  Forall (borrowable (transaction_context s)) (instruction_accounts ic) →
  sc_clock (sysvar_cache s) = Some clock →
  let keys := reported_keys (transaction_context s) (instruction_accounts ic) in
  migrate_remote_accounts s =
  (Ok tt, set_log_collector
     (ic_logger_msg (pretty (len keys) +:+ " Remote Accounts are migrated at slot " +:+
                     pretty (clock_slot clock) +:+ ".")
        (log_lines " is migrated from remote." keys (log_collector s))) s).
Proof. intros. by eapply report_remote_run. Qed.

Definition report_state : InvokeContext :=
  running_on [(pubkey_of_N 1, user_account 100); (pubkey_of_N 2, user_account 200);
              (sonic_account_migrater_id, native_program)] 2
    [mkInstructionAccount 0 0 0 true true; mkInstructionAccount 1 1 1 false false].
Lemma migrater_reports_accounts_witness : (migrate_remote_accounts report_state).1 = Ok tt.
Proof.
  rewrite (migrater_reports_accounts (current report_state) report_state demo_clock).
  - done.
  - apply running_intro; by vm_compute.
  - by vm_compute.
  - vm_compute. repeat constructor; by eexists _, _.
  - by vm_compute.
Defined.

(** ** The status posted to the base layer *)

(** C35: a transaction that fails still posts.  The value found in the log goes to the base layer before the
    outcome is looked at: when the message fails with an error, and its log posts a status,
    the transaction's status is that error and the base layer has been
    updated all the same. *)
Theorem failed_transaction_still_posts `{PubkeyDisplay, Sha256, KeypairBase58, NftValueRegex,
      !Bincode UpgradeableLoaderState, !Bincode ProgramInstruction}
    programs show b bank tx accounts pidx budget rec limit l pre e s1 units signature l' :
  let s0 := execution_context bank accounts budget true limit in
  get_transaction_account_state_info (bank_rent bank) (transaction_context s0) (tx_message tx) = Ok pre →
  process_message programs (tx_message tx) pidx (s0, 0) = (Err e, (s1, units)) →
  post_status_to_baselayer (E:=TransactionError.t) b tx (messages <$> log_collector s1) l =
    Ok (Some signature, l') →
  ∃ d accs,
    execute_loaded_transaction programs show b bank tx accounts pidx budget true rec limit l =
      Ok (d, accs, l') ∧
    status d = Err e ∧
    log_messages d = (λ ms, ms ++ ["Sonic BaseLayer Transaction Signature: " +:+ show signature])
                       <$> (messages <$> log_collector s1).
Proof.
  intros s0 Hpre Hrun Hpost. unfold execute_loaded_transaction. cbv zeta. fold s0.
  rewrite Hpre, Hrun. cbn [rbind]. rewrite Hpost. cbn [rbind]. by eexists _, _.
Qed.

(** a grid program, in the place of the NFT program, that logs a new value and fails *)
Definition failing_program : program :=
  declare_process_instruction 100
    (ic_msg "Fake NFT New Value: 42" ;; throw (Custom 6000)).
Definition failing_programs : Pubkey → option LoadedProgramType :=
  builtins (λ _, 0) (λ _, String.EmptyString) (λ id, if key_eqb id (pubkey_of_N 1) then Some (Builtin (Some failing_program)) else None).
Definition failing_accounts : list (Pubkey * AccountSharedData) :=
  [(pubkey_of_N 9, user_account 10000000); (pubkey_of_N 3, user_account 20000000);
   (pubkey_of_N 1, native_program)].
Definition failing_start : InvokeContext :=
  execution_context demo_bank failing_accounts demo_budget true None.
Definition failing_run :=
  process_message failing_programs (tx_message nft_tx) [[2]] (failing_start, 0).
Lemma failing_runs : process_message failing_programs (tx_message nft_tx) [[2]] (failing_start, 0) =
  (Err (TransactionError.InstructionError 0 (Custom 6000)), (failing_run.2.1, failing_run.2.2)).
Proof. vm_compute. reflexivity. Qed.
Definition failing_posted :=
  post_status_to_baselayer (E:=TransactionError.t) sample_base nft_tx
    (messages <$> log_collector failing_run.2.1) nft_loader.
Definition failing_loader : RemoteAccountLoader :=
  match failing_posted with Ok (_, l) => l | _ => nft_loader end.
Lemma failing_posts :
  post_status_to_baselayer (E:=TransactionError.t) sample_base nft_tx
    (messages <$> log_collector failing_run.2.1) nft_loader = Ok (Some [7], failing_loader).
Proof. vm_compute. reflexivity. Qed.
Lemma failing_pre : ∃ pre, get_transaction_account_state_info (bank_rent demo_bank)
  (transaction_context failing_start) (tx_message nft_tx) = Ok pre.
Proof. vm_compute. by eexists. Qed.

Lemma failed_transaction_still_posts_witness :
  ∃ d accs,
    execute_loaded_transaction failing_programs demo_show sample_base demo_bank nft_tx failing_accounts
      [[2]] demo_budget true true None nft_loader = Ok (d, accs, failing_loader) ∧
    status d = Err (TransactionError.InstructionError 0 (Custom 6000)).
Proof.
  destruct failing_pre as [pre Hpre].
  destruct (failed_transaction_still_posts failing_programs demo_show sample_base demo_bank nft_tx
    failing_accounts [[2]] demo_budget true None nft_loader pre _ _ _ [7] failing_loader Hpre
    failing_runs failing_posts) as (d & accs & Hr & Hs & _).
  exists d, accs. exact (conj Hr Hs).
Defined.
