(* ===== verification/LookupTableRuns.v ===== *)
(** * Promises of address lookup tables

    The bank resolves the addresses of version 0 messages through tables that their
    authorities keep changing.  A resolved address stays what it was, and a table goes
    only when nothing can be resolved through it any more. *)

From S2P Require Import Prelude Sdk Message Rent Account TransactionContext AccountRules.
From S2P Require Import InstructionRules InvokeContext InvokeRules Effects Nonce SystemProgram.
From S2P Require Import LookupTable LookupTableRules Codec Bank BankRules ExecuteRules Transactions.

Section promises.
Context `{PubkeyDisplay, Sha256, Curve25519, !Bincode LookupTableState, !BincodeLaws LookupTableState}.

(** C33: resolved addresses are stable.  When the program freezes, extends or deactivates
    a table at the slot of the clock, the table stays well formed, a lookup in it never
    panics, and whatever the bank resolved through it at an earlier slot or in that slot it
    resolves to the same addresses at any later slot at which the table is active. *)
Theorem resolved_addresses_stable op ic s s' d t clock before after :
  op_sized op → get_current_instruction_context (transaction_context s) = Ok ic →
  run_table_op op s = (Ok tt, s') → get_clock (sysvar_cache s) = Ok clock →
  table_bytes ic s = Some d → table_deserialize d = Ok t → table_ok before t →
  before ≤ clock_slot clock → clock_slot clock ≤ after →
  ∃ d' t', table_bytes ic s' = Some d' ∧ table_deserialize d' = Ok t' ∧ table_ok (clock_slot clock) t' ∧
    (∀ indexes slot_hashes', table_lookup t' after indexes slot_hashes' ≠ Panic) ∧
    ∀ load load' a a' lookup slot_hashes slot_hashes' loaded,
      load (lookup_account_key lookup) = Some a → data a = d →
      load' (lookup_account_key lookup) = Some a' → data a' = d' → owner a' = lookup_table_program_id →
      table_is_active (table_meta t') after slot_hashes' = true →
      load_lookup_table_addresses load before lookup slot_hashes = Ok loaded →
      load_lookup_table_addresses load' after lookup slot_hashes' = Ok loaded.
Proof.
  intros Hop Hic Hr Hc Hd Ht Hok Hb Ha.
  destruct (run_table_op_step op ic s s' d t clock) as (signer & d' & t' & Hd' & Ht' & Hst); auto.
  assert (table_ok (clock_slot clock) t') as Hok'.
  { eapply table_step_ok; [done|]. by eapply table_ok_later. }
  exists d', t'. split_and!; [done..| |].
  { intros indexes sh'. apply table_lookup_total. by eapply table_ok_later. }
  intros load load' a a' lookup sh sh' loaded Hl Hda Hl' Hda' Ho Hact Hlk. subst d d'.
  destruct (bank_lookup_Ok _ _ _ _ _ _ _ Hl Ht Hlk) as [Hw Hrd]. destruct loaded as [w r].
  eapply bank_lookup_run; eauto using lookup_step.
Qed.

(** C34: a table is closed only after its deactivation.  When the program closes a table, its
    authority was not given up, the account is left without data, and at the slot
    of the clock no lookup through the table succeeds any more: the bank reports the table as
    not found, whatever indexes are asked for. *)
Theorem closed_only_when_deactivated ic s s' d t clock slot_hashes :
  get_current_instruction_context (transaction_context s) = Ok ic →
  close_lookup_table s = (Ok tt, s') → get_clock (sysvar_cache s) = Ok clock →
  get_slot_hashes (sysvar_cache s) = Ok slot_hashes →
  table_bytes ic s = Some d → table_deserialize d = Ok t →
  table_bytes ic s' = Some [] ∧ is_Some (lt_authority (table_meta t)) ∧
  ∀ load a lookup, load (lookup_account_key lookup) = Some a → data a = d →
    owner a = lookup_table_program_id →
    load_lookup_table_addresses load (clock_slot clock) lookup slot_hashes = Err LookupTableAccountNotFound.
Proof.
  intros Hic Hr Hc Hsh Hd Ht.
  destruct (close_found ic s s' d t clock slot_hashes) as [Hst Hau]; auto.
  split; [by eapply close_empties|]. split; [done|].
  intros load a lookup Hl <- Ho. unfold load_lookup_table_addresses. rewrite Hl. cbn [ok_or rbind].
  rewrite Ho, key_eqb_refl, Ht. cbn [map_err rbind].
  unfold table_lookup, get_active_addresses_len, table_is_active. by rewrite Hst.
Qed.
End promises.

(** ** A sample table: two addresses, extended before slot 77 *)
Import Codec.Bincodes Codec.StandIns.

Definition sample_table (deactivated : N) : AddressLookupTable :=
  mkAddressLookupTable (mkLookupTableMeta deactivated 70 0 (Some (pubkey_of_N 1)) 0)
    [pubkey_of_N 50; pubkey_of_N 51].
Definition table_data (deactivated : N) : list N :=
  match serialize_for_tests (sample_table deactivated) with Ok d => d | _ => [] end.
Definition table_account (d : list N) : AccountSharedData :=
  mkAccountSharedData 10000000 d lookup_table_program_id false 0 false.
Definition table_accounts (deactivated : N) : list (Pubkey * AccountSharedData) :=
  [(pubkey_of_N 1, user_account 10000000); (pubkey_of_N 40, table_account (table_data deactivated));
   (pubkey_of_N 2, user_account 20000000); (lookup_table_program_id, native_program)].
Definition table_ias : list InstructionAccount :=
  [mkInstructionAccount 1 1 0 false true; mkInstructionAccount 0 0 1 true true;
   mkInstructionAccount 2 2 2 false true].
(** the state in which the program runs an instruction on the table *)
Definition table_state (deactivated : N) : InvokeContext :=
  (enter [3] table_ias [] (execution_context demo_bank (table_accounts deactivated) demo_budget true None)).2.
Definition table_ic (deactivated : N) : InstructionContext :=
  match get_current_instruction_context (transaction_context (table_state deactivated)) with
  | Ok ic => ic | _ => instruction_context_default
  end.
Definition sample_lookup : MessageAddressTableLookup :=
  mkMessageAddressTableLookup (pubkey_of_N 40) [1] [0].
Definition extended_state : InvokeContext := (run_table_op (OpExtend [pubkey_of_N 52]) (table_state u64_max)).2.

Lemma resolved_addresses_stable_witness :
  ∃ d', table_bytes (table_ic u64_max) extended_state = Some d' ∧
    load_lookup_table_addresses (λ _, Some (table_account d')) 90 sample_lookup [] =
    Ok (mkLoadedAddresses [pubkey_of_N 51] [pubkey_of_N 50]).
Proof.
  destruct (resolved_addresses_stable (OpExtend [pubkey_of_N 52]) (table_ic u64_max) (table_state u64_max)
    extended_state (table_data u64_max) (sample_table u64_max) demo_clock 77 90)
    as (d' & t' & Hd & Ht & _ & _ & Hl).
  1: by repeat constructor.
  1-5: vm_compute; reflexivity.
  1: by split; vm_compute.
  1-2: by vm_compute.
  exists d'. split; [done|].
  apply (Hl (λ _, Some (table_account (table_data u64_max))) (λ _, Some (table_account d'))
    (table_account (table_data u64_max)) (table_account d') sample_lookup [] []); [reflexivity..| |].
  - vm_compute in Hd. injection Hd as <-. vm_compute in Ht. injection Ht as <-. vm_compute. reflexivity.
  - vm_compute. reflexivity.
Defined.

(** deactivated at slot 60, which the slot hashes no longer name *)
Lemma closed_only_when_deactivated_witness :
  load_lookup_table_addresses (λ _, Some (table_account (table_data 60))) 77 sample_lookup
    [(76, mkHash [1]); (75, mkHash [2])] = Err LookupTableAccountNotFound.
Proof.
  destruct (closed_only_when_deactivated (table_ic 60) (table_state 60)
    (close_lookup_table (table_state 60)).2 (table_data 60) (sample_table 60) demo_clock
    [(76, mkHash [1]); (75, mkHash [2])]) as (_ & _ & Hl).
  1-6: vm_compute; reflexivity.
  apply (Hl (λ _, Some (table_account (table_data 60))) (table_account (table_data 60)) sample_lookup);
    reflexivity.
Defined.

(** ** The life of a table

    The whole program, with the system program behind its invocations: an instruction creates a
    table that key 1 pays for, and a second one appends two addresses to it. *)
Definition created_key : Pubkey :=
  match Client.derive_lookup_table_address (E:=unit) (pubkey_of_N 1) 76 with
  | Ok derived => derived.1 | _ => pubkey_of_N 0
  end.
Definition life_accounts : list (Pubkey * AccountSharedData) :=
  [(pubkey_of_N 1, user_account 10000000); (created_key, user_account 0);
   (system_program_id, native_program); (lookup_table_program_id, native_program)].
Definition life_ias : list InstructionAccount :=
  [mkInstructionAccount 1 1 0 false true; mkInstructionAccount 0 0 1 true true;
   mkInstructionAccount 0 0 1 true true; mkInstructionAccount 2 2 3 false false].
Definition life_instruction (instruction : LookupTableInstruction) (s : InvokeContext) :=
  process_instruction demo_programs 5 (default [] (serialize instruction)) life_ias [3] s.
Definition life_created := life_instruction (CreateLookupTable 76 255)
  (execution_context demo_bank life_accounts demo_budget true None).
Definition life_extended := life_instruction (ExtendLookupTable [pubkey_of_N 50; pubkey_of_N 51]) life_created.2.

Lemma table_life :
  is_ok life_created.1 = true ∧ is_ok life_extended.1 = true ∧
  owner <$> ivals life_extended.2 !! 1%nat = Some lookup_table_program_id ∧
  lamports <$> ivals life_extended.2 !! 1%nat = Some (minimum_balance rent_default 120) ∧
  match ivals life_extended.2 !! 1%nat with
  | Some a => table_deserialize (data a) = Ok (mkAddressLookupTable
      (mkLookupTableMeta u64_max 77 0 (Some (pubkey_of_N 1)) 0) [pubkey_of_N 50; pubkey_of_N 51])
  | None => False
  end.
Proof. vm_compute. repeat split; reflexivity. Qed.
