(* ===== verification/VoteRuns.v ===== *)
(** * Runs of the vote program

    The refinement theorem of the program, and closed runs: a tower that grows and is
    replaced, and the program on an account with the bank around it. *)

From S2P Require Import Prelude Sdk Rent EpochSchedule Account TransactionContext InvokeContext InvokeRules Effects.
From S2P Require Import VoteState VoteProcess VoteRules VoteUpdates VoteHistory VoteSync VoteProgram VoteControl.
From S2P Require Import VoteTyped Codec WireFormat VoteWire Bank BankRules ExecuteRules Transactions.

(** C9: the vote program implements its specification.  Every instruction that succeeds
    leaves the state of the first account or takes it by one step of [vote_step], whose
    signatures were given, and stores the result in one of the two formats; lamports leave
    that account only with the signature of its withdrawer, and the other accounts keep
    their data and owners and lose no lamports. *)
Theorem vote_program_follows_spec `{PubkeyDisplay, Sha256, !Bincode VoteStateVersions, !BincodeLaws VoteStateVersions,
    !Bincode VoteInstruction} s s' ic :
  get_current_instruction_context (transaction_context s) = Ok ic →
  vote_process_instruction s = (Ok tt, s') →
  ∃ ia, getN (instruction_accounts ic) 0 = Some ia ∧
    vote_effect (N.to_nat (index_in_transaction ia)) (sysvar_cache s) (feature_set s)
      (signed_in ic (transaction_context s)) (ivals s) (ivals s').
Proof. apply vote_instruction_effect. Qed.

(** ** A tower: votes for the slots 70 and 74, with the hashes of the slots 70 to 76 at hand *)
Import Codec.Bincodes VoteWire.VoteBincodes Codec.StandIns.

Definition hash_of (n : N) : Hash := mkHash (to_bytes (pubkey_of_N n)).
Definition recent_hashes : list (N * Hash) :=
  (λ n, (n, hash_of n)) <$> [76; 75; 74; 72; 70].
Definition sample_votes : list LandedVote :=
  [mkLandedVote 1 (mkLockout 70 2); mkLandedVote 1 (mkLockout 74 1)].
Definition sample_init : VoteInit := mkVoteInit (pubkey_of_N 1) (pubkey_of_N 1) (pubkey_of_N 2) 10.
Definition sample_state : VoteState := set_votes sample_votes (vote_state_new sample_init demo_clock).

Lemma sample_tower : tower_ok (root_slot sample_state) (votes sample_state).
Proof.
  split; [|repeat constructor; by vm_compute|by vm_compute|repeat constructor|by intros []].
  intros [|[|i]] v w; simpl; intros; simplify_eq. by vm_compute.
Qed.
Lemma sample_falling : falling recent_hashes.
Proof.
  intros i j x y Hi Hj Hij.
  destruct i as [|[|[|[|[|i]]]]], j as [|[|[|[|[|j]]]]]; try lia; simpl in *; by simplify_eq.
Qed.

Lemma vote_is_rooted_witness :
  root_slot (vote_through (λ _, 0) (λ slot, slot + 1) true true 80 32 sample_state) = Some 80.
Proof.
  apply (vote_is_rooted (λ _, 0) (λ slot, slot + 1) true true 80 sample_state sample_tower); [|by vm_compute].
  apply list.Forall_forall. repeat constructor; by vm_compute.
Defined.

Definition proposed : VoteStateUpdate :=
  mkVoteStateUpdate [mkLockout 70 3; mkLockout 74 2; mkLockout 76 1] None (hash_of 76) None.
Definition taken : VoteState :=
  match do_process_vote_state_update sample_state recent_hashes 0 77 proposed (Some ∅) with
  | Ok s => s | _ => vote_state_default
  end.
Lemma vote_update_never_rolls_back_witness :
  last_voted_slot taken = Some 76 ∧ survives (votes taken) (mkLandedVote 1 (mkLockout 70 2)).
Proof.
  destruct (vote_update_never_rolls_back sample_state recent_hashes 0 77 proposed (Some ∅) taken
    sample_tower sample_falling) as (_ & _ & Hv & _); [by vm_compute|].
  split; [by vm_compute|]. apply Hv; [by left|by vm_compute].
Defined.
(** a tower without the vote for 74, which is locked until slot 76 *)
Definition dropping : VoteStateUpdate := mkVoteStateUpdate [mkLockout 76 1] None (hash_of 76) None.
Lemma proposed_tower_accepted_exactly_witness :
  acceptable sample_state proposed recent_hashes ∧
  ¬ acceptable sample_state dropping recent_hashes.
Proof.
  split.
  - apply (proposed_tower_accepted_exactly sample_state recent_hashes 0 77 proposed (Some ∅) sample_tower
      sample_falling eq_refl). eexists. vm_compute. reflexivity.
  - intros [s Hs]%(proposed_tower_accepted_exactly sample_state recent_hashes 0 77 dropping (Some ∅) sample_tower
      sample_falling eq_refl). vm_compute in Hs. done.
Defined.

Definition sample_vote : Vote := mkVote [75; 76] (hash_of 76) None.
Definition voted : VoteState :=
  match process_vote sample_state sample_vote recent_hashes 0 77 true true with
  | Ok s => s | _ => vote_state_default
  end.
Lemma vote_and_tower_agree_witness :
  ∃ s2, do_process_vote_state_update sample_state recent_hashes 0 77
          (mkVoteStateUpdate (lockout <$> votes voted) None (hash_of 76) None) (Some ∅) = Ok s2 ∧
    lockout <$> votes s2 = [mkLockout 70 4; mkLockout 74 3; mkLockout 75 2; mkLockout 76 1].
Proof.
  destruct (vote_and_tower_agree sample_state recent_hashes (70, hash_of 70) sample_vote 0 77 true true voted 0 77 (Some ∅)
    sample_tower sample_falling) as (s2 & Hs & Hl & _); [done| |by vm_compute|].
  - split; [|done]. intros x Hx. right. revert x Hx. apply list.Forall_forall. repeat constructor; set_solver.
  - exists s2. split; [exact Hs|]. rewrite Hl. by vm_compute.
Defined.

Lemma compact_tower_roundtrip_witness :
  ∃ bs, enc c_compact_update proposed = Some bs ∧ len bs = 48 ∧ dec c_compact_update bs = Some (proposed, []).
Proof.
  destruct (compact_tower_roundtrip None
    (landed_of_lockout <$> vsu_lockouts proposed) (hash_of 76) None) as (bs & He & Hd).
  - split; [|repeat constructor; by vm_compute|by vm_compute|repeat constructor|by intros []].
    intros [|[|[|i]]] v w; simpl; intros; simplify_eq; by vm_compute.
  - repeat constructor; by vm_compute.
  - repeat constructor; by vm_compute.
  - done.
  - done.
  - specialize (Hd []). rewrite app_nil_r in Hd. exists bs. split; [exact He|]. split; [|exact Hd].
    vm_compute in He. injection He as <-. by vm_compute.
Defined.

Lemma sample_ok : vote_state_ok sample_state.
Proof.
  split; [apply sample_tower|by vm_compute| |by vm_compute]. intros [|i] x y Hx Hy; simpl in *; simplify_eq.
Qed.
Definition sample_bytes : list N := default [] (enc c_vote_state_versions (VCurrentVote sample_state)).
Lemma vote_state_fits_witness : len sample_bytes ≤ VOTE_STATE_SIZE.
Proof. apply (vote_state_fits sample_state sample_bytes sample_ok); by vm_compute. Defined.

(** ** The program on this state: key 1 proposes the tower *)
Definition vote_account : AccountSharedData :=
  resize VOTE_STATE_SIZE 0 (mkAccountSharedData 30000000 sample_bytes vote_program_id false 0 false).
Definition vote_bank : Bank :=
  mkBank rent_default
    (mkSysvarCache (Some demo_clock) (Some (mkEpochSchedule 32 32 false 0 0)) (Some rent_default)
      (Some [(mkHash [1], 5000)]) (Some recent_hashes) None)
    ∅ (mkHash [1]) 5000.
Definition vote_accounts : list (Pubkey * AccountSharedData) :=
  [(pubkey_of_N 1, user_account 10000000); (pubkey_of_N 40, vote_account); (vote_program_id, native_program)].
Definition vote_ias : list InstructionAccount :=
  [mkInstructionAccount 1 1 0 false true; mkInstructionAccount 0 0 1 true false].
Definition vote_start : InvokeContext :=
  (enter [2] vote_ias (default [] (serialize (CompactUpdateVoteState proposed)))
    (execution_context vote_bank vote_accounts demo_budget true None)).2.
Definition vote_ic : InstructionContext :=
  match get_current_instruction_context (transaction_context vote_start) with
  | Ok ic => ic | _ => instruction_context_default
  end.
Definition vote_run := vote_process_instruction vote_start.
Lemma vote_running : get_current_instruction_context (transaction_context vote_start) = Ok vote_ic.
Proof. vm_compute. reflexivity. Qed.
Lemma vote_runs : vote_process_instruction vote_start = (Ok tt, vote_run.2).
Proof. vm_compute. reflexivity. Qed.
Definition vote_account_after : AccountSharedData := default vote_account (ivals vote_run.2 !! 1%nat).

Lemma vote_program_follows_spec_witness :
  ∃ v' st, shared_deserialize_data vote_account_after = Some v' ∧
    vote_step (sysvar_cache vote_start) ∅ (signed_in vote_ic (transaction_context vote_start))
      (VCurrentVote sample_state) st ∧ stored_as v' st.
Proof.
  destruct (vote_program_follows_spec vote_start vote_run.2 vote_ic vote_running vote_runs) as (ia & Hia & [_ Hacc _]).
  vm_compute in Hia. injection Hia as <-. destruct Hacc as (a & a' & v & v' & Ha & Ha' & Hv & Hv' & _ & Hst & _).
  assert (a = vote_account) as -> by (vm_compute in Ha; injection Ha as <-; by vm_compute).
  assert (v = VCurrentVote sample_state) as -> by (vm_compute in Hv; injection Hv as <-; by vm_compute).
  assert (a' = vote_account_after) as -> by (vm_compute in Ha'; injection Ha' as <-; by vm_compute).
  exists v'. destruct Hst as [->|(st & Hst & Hsto)]; [by vm_compute in Hv'|].
  exists st. split; [done|]. split; [exact Hst|exact Hsto].
Defined.

Lemma vote_account_reads : shared_deserialize_data vote_account = Some (VCurrentVote sample_state).
Proof. vm_compute. reflexivity. Qed.
Lemma vote_ivals : ivals vote_start = [user_account 10000000; vote_account; native_program].
Proof. vm_compute. reflexivity. Qed.
Lemma vote_after : ivals vote_run.2 !! 1%nat = Some vote_account_after.
Proof. vm_compute. reflexivity. Qed.

Lemma vote_program_keeps_types_witness : vote_typed vote_account_after.
Proof.
  refine (proj1 (Forall_lookup _ _) (vote_program_keeps_types vote_ic vote_start vote_run.2 vote_running vote_runs _)
    1%nat _ vote_after).
  rewrite vote_ivals. apply list.Forall_cons. split; [intros Ho; by vm_compute in Ho|]. apply list.Forall_cons. split.
  - intros _ v Hv. rewrite vote_account_reads in Hv. injection Hv as <-. apply sample_ok.
  - apply list.Forall_cons. split; [intros Ho; by vm_compute in Ho|by apply list.Forall_nil].
Defined.

Lemma vote_signers : get_signers vote_ic (transaction_context vote_start) = Ok {[pubkey_of_N 1]}.
Proof. vm_compute. reflexivity. Qed.
(** the withdrawer, key 2, has not signed *)
Lemma vote_account_guarded_witness :
  ∃ v', shared_deserialize_data vote_account_after = Some v' ∧
    authorized_withdrawer (convert_to_current v') = pubkey_of_N 2 ∧
    last_voted_slot (convert_to_current v') = Some 76.
Proof.
  destruct (vote_account_guarded vote_ic vote_start vote_run.2 (mkInstructionAccount 1 1 0 false true) vote_account
    vote_account_after (VCurrentVote sample_state) vote_running vote_runs) as (_ & v' & Hv & [_ _ Hw _] & _).
  - by vm_compute.
  - by vm_compute.
  - apply vote_after.
  - apply vote_account_reads.
  - by vm_compute.
  - apply sample_ok.
  - intros [(sg & Hs & Hin)|(? & ? & ? & ? & Hs & _)]; [|by vm_compute in Hs].
    rewrite vote_signers in Hs. injection Hs as <-. apply elem_of_singleton in Hin. by vm_compute in Hin.
  - exists v'. split; [done|]. split; [by rewrite Hw|]. vm_compute in Hv. injection Hv as <-. by vm_compute.
Defined.
