(* ===== verification/StakeRuns.v ===== *)
(** * The stake program as a whole

    The theorem that the program implements its specification; the invariant that delegations are
    backed by lamports; and closed runs in a bank: a split, and a stake that is deactivated,
    withdrawn from and delegated again in one epoch. *)

From S2P Require Import Prelude Sdk Rent EpochSchedule Account TransactionContext AccountRules InstructionRules.
From S2P Require Import LogCollector InvokeContext InvokeRules Nonce SystemProgram Effects SystemProgramRules.
From S2P Require Import VoteState VoteProcess VoteProgram VoteControl ConfigProgram Stake StakeProgram StakeControl.
From S2P Require Import VoteUpdates Codec WireFormat VoteWire StakeRules StakeWire Bank BankRules ExecuteRules.
From S2P Require Import Transactions VoteRuns.

(** ** The invariant *)

(** the reserve is what the rent asks for, and a delegation that is not being deactivated is
    covered by the lamports above the reserve *)
Definition state_backed (reserve n : N) (x : StakeStateV2) : Prop :=
  match x with
  | StakeInitialized m => rent_exempt_reserve m = reserve
  | Staked m stake _ =>
      rent_exempt_reserve m = reserve ∧
      (deactivation_epoch (delegation stake) = u64_max → reserve + delegated_stake (delegation stake) ≤ n)
  | _ => True
  end.
Definition account_backed `{!Bincode StakeStateV2} (reserve : N) (a : AccountSharedData) : Prop :=
  owner a = stake_program_id → ∀ x : StakeStateV2, shared_deserialize_data a = Some x → state_backed reserve (lamports a) x.
Definition all_backed `{!Bincode StakeStateV2} (reserve : N) : list AccountSharedData → Prop :=
  Forall (account_backed reserve).

Lemma minimum_delegation_pos f : 1 ≤ get_minimum_delegation f.
Proof. unfold get_minimum_delegation. destruct (is_active _ _); done. Qed.
Lemma state_backed_mono reserve n n' x : n ≤ n' → state_backed reserve n x → state_backed reserve n' x.
Proof. intros Hn. destruct x; simpl; [done..| |done]. intros [-> Hb]. split; [done|]. intros Hd%Hb. lia. Qed.

Lemma rbind_Ok_inv {E A B} (r : result E A) (k : A → result E B) b :
  rbind r k = Ok b → ∃ a, r = Ok a ∧ k a = Ok b.
Proof. destruct r; [by eauto|done..]. Qed.

Section backing.
Context `{!Bincode StakeStateV2, !Bincode VoteStateVersions}.
Context (activated_slot : Pubkey → N) (cache : SysvarCache) (features : gset Pubkey) (keys : list Pubkey).
Context (signed : Pubkey → Prop) (reserve : N).

Lemma backed_at v i a x : all_backed reserve v → stake_at v i a x → state_backed reserve (lamports a) x.
Proof. intros Hv (Ha & Ho & Hx). exact (proj1 (list.Forall_lookup _ _) Hv _ _ Ha Ho _ Hx). Qed.
Lemma becomes_backed a x n a' : becomes a x n a' → state_backed reserve n x → account_backed reserve a'.
Proof. intros (Hx & <- & _) Hb _ y. rewrite Hx. by intros [= <-]. Qed.
Lemma write_backed v i a x n : becomes a x n i → state_backed reserve n x → ∀ p, all_backed reserve v → all_backed reserve (<[p := i]> v).
Proof. intros Ha Hb p Hv. apply list.Forall_insert; [done|]. by eapply becomes_backed. Qed.
Lemma receive_backed v j k :
  all_backed reserve v → all_backed reserve (alter (λ y, set_lamports (lamports y + k) y) j v).
Proof.
  intros Hv. apply list.Forall_alter; [done|]. intros a Ha Hb Ho x Hx.
  apply (state_backed_mono _ (lamports a)); [simpl; lia|]. by apply Hb.
Qed.

(** *** Single accounts *)
Lemma update_backed v clock n x x' :
  is_active features stake_redelegate_instruction_id = true → clock_epoch clock < u64_max →
  stake_update activated_slot cache features keys signed v clock n x x' →
  state_backed reserve n x → state_backed reserve n x'.
Proof.
  intros Hf Hc Hu. pose proof (minimum_delegation_pos features) as Hmin.
  destruct Hu as [x m k Hm _|x m k Hm _ _|x m l Hm _|m voter cr _ Hn|m stake f voter cr y _ Hn _ _
    |m stake f y _ Hn _ _ _ Hr|m stake f stake' f' _ (Hd & -> & _)].
  1,2,3: by destruct x; simplify_eq/=.
  - simpl. intros <-. split; [done|]. lia.
  - simpl. intros [<- _]. split; [done|]. lia.
  - simpl. intros [<- _]. split; [done|]. specialize (Hr Hf). lia.
  - simpl. intros [<- _]. split; [done|]. lia.
Qed.
Lemma withdraw_backed clock x k n :
  clock_epoch clock < u64_max → k ≤ n → withdrawable activated_slot cache features signed clock x k n →
  state_backed reserve n x → state_backed reserve (n - k) (if k =? n then StakeUninitialized else x).
Proof.
  intros Hc Hk Hw. destruct (N.eqb_spec k n) as [|Hne]; [done|]. destruct x as [|m|m stake f|]; [done..| |done].
  destruct Hw as (_ & _ & staked & Hs & Hw). simpl. intros [<- Hb]. split; [done|]. intros Hd. specialize (Hb Hd).
  rewrite Hd, (proj2 (N.leb_gt _ _) Hc) in Hs. subst staked. lia.
Qed.

(** *** Pairs of accounts *)
Lemma split_source_backed m stake f k n held delta amount :
  split_of features m stake k n held reserve delta amount → state_backed reserve n (Staked m stake f) →
  state_backed reserve (n - k)
    (if k =? n then StakeUninitialized else Staked m (set_stake (delegated_stake (delegation stake) - delta) stake) f).
Proof.
  intros (Hk0 & Hk & Ha & Hd & Hs) [Hm Hb]. destruct (N.eqb_spec k n) as [|Hne]; [done|].
  destruct Hs as [[? _]|(_ & -> & _)]; [done|]. simpl. split; [done|]. intros Hx%Hb. lia.
Qed.
Lemma split_target_backed m stake f k n held delta amount :
  split_of features m stake k n held reserve delta amount → state_backed reserve n (Staked m stake f) →
  state_backed reserve (held + k) (Staked (set_meta_reserve reserve m) (set_stake amount stake) f).
Proof.
  intros (Hk0 & Hk & Ha & Hd & Hs) [Hm _]. pose proof (minimum_delegation_pos features). simpl. split; [done|]. intros _.
  rewrite Hm in Hs. destruct Hs as [(-> & -> & ->)|(_ & -> & _ & -> & _)]; lia.
Qed.
(** the lamports a delegation of the source brings along *)
Lemma merge_kind_backed clock x n k :
  merge_kind_of activated_slot cache features clock x n k → state_backed reserve n x →
  match k with
  | Inactive _ n' _ => n' = n
  | ActivationEpoch m stake f => x = Staked m stake f ∧ state_backed reserve n (Staked m stake f)
  | FullyActive m stake => state_backed reserve n (Staked m stake flags_empty)
  end.
Proof.
  destruct x as [|m|m stake f|]; simpl; [done|by intros -> _| |done].
  intros (y & _ & [(_ & _ & _ & ->)|[(_ & _ & ->)|(_ & _ & _ & ->)]]) Hb; [done|by split|exact Hb].
Qed.
Lemma merged_delegation stake n c stake' :
  merge_delegation_stake_and_credits_observed stake n c = Ok stake' →
  ∃ c', stake' = mkStake (set_delegated (delegated_stake (delegation stake) + n) (delegation stake)) c'.
Proof.
  unfold merge_delegation_stake_and_credits_observed. intros (c' & _ & Hs)%rbind_Ok_inv.
  apply rbind_Ok_inv in Hs as (t & ->%checked_funds_Ok & [= <-]). by exists c'.
Qed.
Lemma merge_backed clock x y n1 n2 k1 k2 merged :
  merge_kind_of activated_slot cache features clock x n1 k1 → merge_kind_of activated_slot cache features clock y n2 k2 →
  mergeable clock k1 k2 → merged_state k1 k2 = Ok merged → state_backed reserve n1 x → state_backed reserve n2 y →
  state_backed reserve (n1 + n2) (default x merged).
Proof.
  intros H1 H2 (_ & _ & Hd) Hm Hx Hy. pose proof (merge_kind_backed _ _ _ _ H1 Hx) as B1.
  pose proof (merge_kind_backed _ _ _ _ H2 Hy) as B2. clear H1 H2 Hy.
  destruct k1 as [m1 l1 f1|m1 s1 f1|m1 s1], k2 as [m2 l2 f2|m2 s2 f2|m2 s2]; simpl in Hm; simplify_eq/=.
  1,2: eapply state_backed_mono; [|exact Hx]; lia.
  - apply rbind_Ok_inv in Hm as (t & ->%checked_funds_Ok & [= <-]). simpl. destruct B1 as [-> [? B1]]. split; [done|].
    intros He%B1. lia.
  - destruct (Hd _ _ eq_refl eq_refl) as (_ & D1 & D2). destruct B1 as [-> [? B1]], B2 as [-> [M2 B2]].
    specialize (B1 D1). specialize (B2 D2). apply rbind_Ok_inv in Hm as (t & ->%checked_funds_Ok & Hm).
    apply rbind_Ok_inv in Hm as (? & [c ->]%merged_delegation & [= <-]). simpl. split; [done|]. lia.
  - destruct (Hd _ _ eq_refl eq_refl) as (_ & D1 & D2). destruct B1 as [? B1], B2 as [M2 B2].
    specialize (B1 D1). specialize (B2 D2).
    apply rbind_Ok_inv in Hm as (? & [c ->]%merged_delegation & [= <-]). simpl. split; [done|]. lia.
Qed.

End backing.

(** *** Any effect *)
Section effects.
Context `{!Bincode StakeStateV2, !Bincode VoteStateVersions}.
Context (activated_slot : Pubkey → N) (cache : SysvarCache) (features : gset Pubkey) (keys : list Pubkey).
Context (signed : Pubkey → Prop).

Lemma effect_backed r v v' (reserve := minimum_balance r stake_state_size_of) :
  is_active features stake_redelegate_instruction_id = true → sc_rent cache = Some r →
  (∀ clock, sc_clock cache = Some clock → clock_epoch clock < u64_max) →
  stake_effect activated_slot cache features keys signed v v' → all_backed reserve v → all_backed reserve v'.
Proof.
  intros Hf Hr Hc He Hv. pose proof (minimum_delegation_pos features) as Hmin.
  destruct He as [|r' i a au l a' Hr' Ha _ _ Hw|clock i a x x' a' Hk Ha Hu Hw
    |r' i j a b m stake f k delta amount a' b' Hr' _ Ha Hb _ _ Hs Wa Wb|r' i j a b m k a' b' Hr' _ Ha Hb _ _ _ _ Wa Wb
    |i j a b key k a1 Ha Hb _ _ _ Hw|clock i j a b x y k1 k2 merged a' b' Hk _ Ha Hb M1 M2 _ Hm Hs Wa Wb
    |r' clock i j a b m stake f x voter cr stake' f' a' b' Hr' Hk _ _ Ha Hb _ _ _ _ _ _ _ Hd _ rs amount Hn Wa Wb
    |clock i j a x k a' Hk Ha _ _ Hle Hw Wa].
  all: try pose proof (backed_at _ _ _ _ _ Hv Ha) as Ba; try pose proof (backed_at _ _ _ _ _ Hv Hb) as Bb.
  all: try (assert (r' = r) as -> by congruence); try specialize (Hc _ Hk).
  - done.
  - by eapply write_backed.
  - eapply write_backed; [done| |done]. by eapply update_backed.
  - eapply write_backed; [done| |]; [exact (split_source_backed _ _ _ _ _ _ _ _ _ _ Hs Ba)|].
    eapply write_backed; [done| |done]. exact (split_target_backed _ _ _ _ _ _ _ _ _ _ Hs Ba).
  - eapply write_backed; [done| |]; [by case_match|]. by eapply write_backed.
  - apply list.Forall_alter; [apply receive_backed; by eapply write_backed|]. intros x Hx _.
    assert (data x = data a1) as Hdata.
    { assert (i < length v)%nat as Hi by (destruct Ha as [?%lookup_lt_Some _]; lia).
      rewrite list_lookup_alter in Hx. case_decide; simplify_eq; rewrite list_lookup_insert_eq in Hx by done; by simplify_eq/=. }
    intros _ y. unfold shared_deserialize_data. simpl. rewrite Hdata. destruct Hw as [Hw _].
    unfold shared_deserialize_data in Hw. rewrite Hw. by intros [= <-].
  - eapply write_backed; [done| |]; [by eapply merge_backed|]. by eapply write_backed.
  - destruct Hd as (_ & -> & _). eapply write_backed; [done| |]; [simpl; destruct Ba as [-> _]; split; [done|]; lia|].
    eapply write_backed; [done| |done]. simpl. split; [done|]. intros _. unfold amount in *. lia.
  - apply receive_backed. eapply write_backed; [done| |done]. by eapply withdraw_backed.
Qed.
End effects.

(** C15: the stake program implements its specification.  Every instruction that succeeds has one
    of the effects of [stake_effect] on the accounts of the transaction: which states follow on
    which, with whose signatures, under which lockup, and how many lamports move with them. *)
Theorem stake_program_follows_spec `{PubkeyDisplay, Sha256, !Bincode StakeStateV2, !BincodeLaws StakeStateV2,
    !Bincode VoteStateVersions, !Bincode ConfigKeys, !Bincode StakeConfig, !Bincode StakeInstruction}
    activated_slot s s' ic :
  get_current_instruction_context (transaction_context s) = Ok ic →
  stake_process_instruction activated_slot s = (Ok tt, s') →
  stake_effect activated_slot (sysvar_cache s) (feature_set s) (account_keys (transaction_context s))
    (signed_by ic (transaction_context s)) (ivals s) (ivals s').
Proof. apply stake_instruction_effect. Qed.

(** C16: stakes stay backed.  When redelegation is active, and every account of the stake program
    holds the reserve its rent asks for and, unless it is being deactivated, the lamports it
    delegates above that, every successful instruction of the program leaves the accounts
    so: splits, merges, redelegations and withdrawals never promise lamports twice. *)
Theorem stake_stays_backed `{PubkeyDisplay, Sha256, !Bincode StakeStateV2, !BincodeLaws StakeStateV2,
    !Bincode VoteStateVersions, !Bincode ConfigKeys, !Bincode StakeConfig, !Bincode StakeInstruction}
    activated_slot s s' ic r :
  get_current_instruction_context (transaction_context s) = Ok ic →
  stake_process_instruction activated_slot s = (Ok tt, s') →
  is_active (feature_set s) stake_redelegate_instruction_id = true →
  sc_rent (sysvar_cache s) = Some r →
  (∀ clock, sc_clock (sysvar_cache s) = Some clock → clock_epoch clock < u64_max) →
  all_backed (minimum_balance r stake_state_size_of) (ivals s) →
  all_backed (minimum_balance r stake_state_size_of) (ivals s').
Proof. intros Hic Hr Hf Hrent Hc. eapply effect_backed; [done..|]. by apply stake_instruction_effect. Qed.

(** ** A bank at epoch 6 and a stake of a million lamports that activates since epoch 5 *)
Import Codec.Bincodes VoteWire.VoteBincodes StakeWire.StakeBincodes Codec.StandIns.

Definition stake_clock (epoch : N) : Clock := mkClock 200 0 epoch 7 0.
Definition sample_history : StakeHistory :=
  [(6, mkStakeHistoryEntry 2000000 910000 0); (5, mkStakeHistoryEntry 1000000 1000000 0)].
Definition stake_bank (features : gset Pubkey) : Bank :=
  mkBank rent_default
    (mkSysvarCache (Some (stake_clock 6)) (Some (mkEpochSchedule 32 32 false 0 0)) (Some rent_default)
      (Some [(mkHash [1], 5000)]) (Some recent_hashes) (Some sample_history))
    ({[reduce_stake_warmup_cooldown_id]} ∪ features) (mkHash [1]) 5000.
Definition reserve : N := minimum_balance rent_default stake_state_size_of.
Definition stake_meta : Meta := mkMeta reserve (mkAuthorized (pubkey_of_N 1) (pubkey_of_N 1)) lockup_default.
Definition sample_delegation : Delegation :=
  mkDelegation (pubkey_of_N 40) 1000000 5 u64_max DEFAULT_WARMUP_COOLDOWN_RATE.
Definition sample_stake : Stake := mkStake sample_delegation 0.
Definition stake_account (n : N) (x : StakeStateV2) : AccountSharedData :=
  resize 200 0 (mkAccountSharedData n (default [] (enc c_stake_state x)) stake_program_id false 0 false).
Definition sysvar_account : AccountSharedData := mkAccountSharedData 1 [] sysvar_clock_id false 0 false.
Definition stake_accounts : list (Pubkey * AccountSharedData) :=
  [(pubkey_of_N 1, user_account 10000000); (pubkey_of_N 60, stake_account (reserve + 1000000) (Staked stake_meta sample_stake flags_empty));
   (pubkey_of_N 40, vote_account); (sysvar_clock_id, sysvar_account); (sysvar_stake_history_id, sysvar_account);
   (stake_config_id, sysvar_account); (stake_program_id, native_program);
   (pubkey_of_N 61, stake_account reserve StakeUninitialized)].

Definition staker_signs (callee : N) : InstructionAccount := mkInstructionAccount 0 0 callee true true.
Definition stake_writable : InstructionAccount := mkInstructionAccount 1 1 0 false true.
Definition read_only (index callee : N) : InstructionAccount := mkInstructionAccount index index callee false false.
Definition stake_ias (instruction : StakeInstruction) : list InstructionAccount :=
  match instruction with
  | Deactivate => [stake_writable; read_only 3 1; staker_signs 2]
  | SWithdraw _ => [stake_writable; staker_signs 1; read_only 3 2; read_only 4 3; staker_signs 1]
  | DelegateStake => [stake_writable; read_only 2 1; read_only 3 2; read_only 4 3; read_only 5 4; staker_signs 5]
  | SSplit _ => [stake_writable; mkInstructionAccount 7 7 1 false true; staker_signs 2]
  | _ => []
  end.
Definition run_stake (instruction : StakeInstruction) (s : InvokeContext) :=
  process_instruction demo_programs 5 (default [] (serialize instruction)) (stake_ias instruction) [6] s.
Definition outcome {A B} (r : result InstructionError (A * result InstructionError B) * InvokeContext) :
  result InstructionError B :=
  match r.1 with Ok (_, x) => x | Err e => Err e | Panic => Panic end.
Definition stake_begin (features : gset Pubkey) : InvokeContext :=
  execution_context (stake_bank features) stake_accounts demo_budget true None.
Definition state_at (s : InvokeContext) (i : nat) : option (N * StakeStateV2) :=
  a ← ivals s !! i; x ← shared_deserialize_data a; Some (lamports a, x).

(** the stake is deactivated, what is not yet effective is withdrawn, and the deactivation is
    rescinded *)
Definition run_deactivate (features : gset Pubkey) := run_stake Deactivate (stake_begin features).
Definition run_withdraw (features : gset Pubkey) := run_stake (SWithdraw 910000) (run_deactivate features).2.
Definition run_delegate (features : gset Pubkey) := run_stake DelegateStake (run_withdraw features).2.

(** While redelegation is not active, a stake can outgrow its lamports.  A million lamports, of
    which 90,000 are effective, are deactivated; the rest is withdrawn; delegating to the same
    voter rescinds the deactivation.  The delegation is again for the whole million, of which
    270,000 are effective in the next epoch, and the account holds 90,000 above its
    reserve.  With redelegation active the last instruction is refused. *)
Theorem rescinded_stake_unbacked :
  outcome (run_deactivate ∅) = Ok tt ∧ outcome (run_withdraw ∅) = Ok tt ∧ outcome (run_delegate ∅) = Ok tt ∧
  state_at (stake_begin ∅) 1 = Some (reserve + 1000000, Staked stake_meta sample_stake flags_empty) ∧
  state_at (run_delegate ∅).2 1 = Some (reserve + 90000, Staked stake_meta sample_stake flags_empty) ∧
  status_of sample_history (Some 0) sample_delegation 7 = Ok (mkStakeHistoryEntry 270000 730000 0) ∧
  outcome (run_delegate {[stake_redelegate_instruction_id]}) = stake_error StakeError.TooSoonToRedelegate.
Proof. vm_compute. repeat split; reflexivity. Qed.

(** ** A split, with redelegation active *)
Definition redelegation : gset Pubkey := {[stake_redelegate_instruction_id]}.
Definition split_start : InvokeContext :=
  (enter [6] (stake_ias (SSplit 400000)) (default [] (serialize (SSplit 400000))) (stake_begin redelegation)).2.
Definition split_ic : InstructionContext :=
  match get_current_instruction_context (transaction_context split_start) with
  | Ok ic => ic | _ => instruction_context_default
  end.
Definition split_run := stake_process_instruction (λ _, 0) split_start.
Lemma split_running : get_current_instruction_context (transaction_context split_start) = Ok split_ic.
Proof. vm_compute. reflexivity. Qed.
Lemma split_runs : stake_process_instruction (λ _, 0) split_start = (Ok tt, split_run.2).
Proof. vm_compute. reflexivity. Qed.
Lemma split_clock : sc_clock (sysvar_cache split_start) = Some (stake_clock 6).
Proof. vm_compute. reflexivity. Qed.
Lemma split_ivals : ivals split_start = stake_accounts.*2.
Proof. vm_compute. reflexivity. Qed.

Lemma stake_program_follows_spec_witness :
  stake_effect (λ _, 0) (sysvar_cache split_start) (feature_set split_start)
    (account_keys (transaction_context split_start)) (signed_by split_ic (transaction_context split_start))
    (ivals split_start) (ivals split_run.2) ∧
  state_at split_run.2 1 = Some (reserve + 600000, Staked stake_meta (set_stake 600000 sample_stake) flags_empty) ∧
  state_at split_run.2 7 = Some (reserve + 400000, Staked stake_meta (set_stake 400000 sample_stake) flags_empty).
Proof.
  split; [exact (stake_program_follows_spec _ split_start split_run.2 split_ic split_running split_runs)|].
  vm_compute. split; reflexivity.
Defined.

Lemma other_owner_backed a n : bool_decide (owner a = stake_program_id) = false → account_backed n a.
Proof. intros Ho%bool_decide_eq_false Hs. done. Qed.
Lemma sample_backed : all_backed reserve (stake_accounts.*2).
Proof.
  assert (∀ n x, shared_deserialize_data (stake_account n x) = Some x → state_backed reserve n x → account_backed reserve (stake_account n x)) as Hs.
  { intros n x Hd Hb _ y. rewrite Hd. by intros [= <-]. }
  repeat (apply list.Forall_cons; split); [by apply other_owner_backed; vm_compute|..|by apply list.Forall_nil].
  2-6: by apply other_owner_backed; vm_compute.
  - apply Hs; [by vm_compute|]. split; [done|]. intros _. by vm_compute.
  - apply Hs; [by vm_compute|done].
Qed.
Lemma stake_stays_backed_witness : all_backed reserve (ivals split_run.2).
Proof.
  apply (stake_stays_backed (λ _, 0) split_start split_run.2 split_ic rent_default split_running split_runs).
  - by vm_compute.
  - reflexivity.
  - intros clock. rewrite split_clock. intros [= <-]. by vm_compute.
  - rewrite split_ivals. apply sample_backed.
Defined.

(** the stake of the run, deactivated at epoch 7, at the epochs 8 and 9 *)
Lemma stake_status_bounds_witness :
  ∃ x, status_of sample_history None (set_deactivation 7 sample_delegation) 8 = Ok x ∧
    effective x + activating x ≤ 1000000 ∧ deactivating x = effective x.
Proof.
  destruct (stake_status_bounds sample_history None (set_deactivation 7 sample_delegation) 8)
    as (x & Hx & Hle & _ & Hcool).
  - repeat split; by vm_compute.
  - right. by vm_compute.
  - by vm_compute.
  - exists x. split; [exact Hx|]. split; [exact Hle|]. by apply Hcool; vm_compute.
Defined.
