(* ===== verification/ConfigRules.v ===== *)
(** * Who may change a config account

    What a successful instruction of the config program wrote, and which keys had signed it;
    with runs of updates in a bank. *)

From S2P Require Import Prelude Sdk Rent EpochSchedule Account TransactionContext AccountRules InstructionRules.
From S2P Require Import LogCollector InvokeContext InvokeRules Nonce SystemProgram Effects SystemProgramRules.
From S2P Require Import VoteState VoteProcess VoteProgram VoteControl ConfigProgram Stake StakeProgram StakeControl.
From S2P Require Import Codec WireFormat VoteWire StakeWire Bank BankRules ExecuteRules Transactions VoteRuns.
From S2P Require Import StakeRuns.

(** ** Signatures *)
Definition signs (ic : InstructionContext) (t : TransactionContext) (k : Pubkey) : Prop :=
  ∃ ia, ia ∈ instruction_accounts ic ∧ ia_is_signer ia = true ∧ account_keys t !! position ia = Some k.
Lemma signs_same ic t t' k : account_keys t' = account_keys t → signs ic t' k → signs ic t k.
Proof. intros Hk (ia & Hi & Hs & Hl). exists ia. by rewrite <-Hk. Qed.
Lemma signs_handle ic i ia t k :
  ic_small ic → getN (instruction_accounts ic) i = Some ia → ba_is_signer (handle_of ic i ia) = true →
  account_keys t !! position ia = Some k → signs ic t k.
Proof.
  intros Hs Hi Hb Hk. exists ia. split; [by eapply getN_elem|]. split; [|done].
  by rewrite <-(proj2 (handle_flags ic i ia Hs Hi)).
Qed.

Lemma write_data_Ok ba f t t' :
  ba_write_data ba f t = (Ok tt, t') →
  ∃ a, at_handle ba t = Some a ∧ account_keys t' = account_keys t ∧
    vals t' = <[N.to_nat (ba_index_in_transaction ba) :=
                  set_data (overwrite (take (length (data a)) (f (data a))) (data a)) a]> (vals t).
Proof.
  unfold ba_write_data, ba_get_data_mut.
  intros (d & t1 & Hd & Hr)%bind_Ok_inv.
  apply bind_Ok_inv in Hd as ([] & t2 & [-> (a & Ha & Hw & He & Ho)]%ba_can_data_be_changed_Ok & Hd).
  apply bind_Ok_inv in Hd as ([] & t3 & Ht & Hd).
  pose proof (ba_touch_quiet ba t I) as Hq. rewrite Ht in Hq. apply quiet_same_vals in Hq as [Hk Hv].
  apply bind_Ok_inv in Hd as (a' & t4 & [Ha' ->]%ba_account_Ok & [= <- <-]). simpl in *.
  unfold at_handle in *. rewrite Hv in Ha'. simplify_eq.
  apply bind_Ok_inv in Hr as (a' & t6 & [Ha2 ->]%ba_account_Ok & [= <-]).
  unfold at_handle in Ha2. rewrite Hv in Ha2. simplify_eq.
  exists a. split; [done|]. split; [done|].
  pose proof (vals_store ba (set_data (overwrite (take (length (data a)) (f (data a))) (data a)) a) t3) as Hvs.
  unfold ba_store, modify in Hvs. simpl in Hvs. by rewrite Hvs, Hv.
Qed.

(** ** Counting signers *)
Lemma filter_out (x : Pubkey) (l : list Pubkey) : x ∉ l → filter (λ k, k ≠ x) l = l.
Proof.
  induction l as [|y l IH]; [done|]. intros [Hy Hl]%not_elem_of_cons. rewrite filter_cons_True by done. f_equal. auto.
Qed.
Lemma remove_dups_len (l : list (Pubkey * bool)) : len (remove_dups l) = len l → NoDup l.
Proof.
  unfold len. intros Hl%(inj N.of_nat). induction l as [|x l IH]; [by constructor|]. simpl in Hl.
  assert (length (remove_dups l) ≤ length l)%nat as Hle.
  { clear. induction l as [|y l IH]; simpl; [lia|]. case_decide; simpl; lia. }
  case_decide; simpl in Hl; [lia|]. constructor; [done|]. apply IH. lia.
Qed.
Lemma signer_keys_NoDup l : NoDup l → NoDup (config_signer_keys l).
Proof.
  intros Hl. unfold config_signer_keys. apply (NoDup_fmap_2_strong fst); [|by apply list.NoDup_filter].
  intros [k b] [k' b'] [Hb _]%list_elem_of_filter [Hb' _]%list_elem_of_filter ?. by simplify_eq/=.
Qed.
(** as many signers as are stored, all stored but for one key: that key or all of them *)
Lemma as_many_signers (key : Pubkey) (stored new : list Pubkey) :
  NoDup stored → NoDup new → (∀ k, k ∈ new → k ≠ key → k ∈ stored) → (length stored ≤ length new)%nat →
  new ≡ₚ stored ∨ key ∈ new ∧ ∃ x, ∀ k, k ∈ stored → k ≠ x → k ∈ new.
Proof.
  intros Hs Hn Hsub Hlen. destruct (decide (key ∈ new)) as [Hk|Hk].
  - right. split; [done|]. set (kept := filter (.∈ new) stored). set (missing := filter (.∉ new) stored).
    assert (length kept + length missing = length stored)%nat as Hsum.
    { unfold kept, missing. clear. induction stored as [|x l IH]; [done|]. rewrite !filter_cons.
      case_decide; case_decide; simpl; tauto || lia. }
    assert (length (filter (.≠ key) new) ≤ length kept)%nat as Hkept.
    { apply submseteq_length, NoDup_submseteq; [by apply list.NoDup_filter|]. intros k [Hne Hin]%list_elem_of_filter.
      apply list_elem_of_filter. auto. }
    assert (length new ≤ S (length (filter (.≠ key) new)))%nat as Hone.
    { apply (submseteq_length new (key :: filter (.≠ key) new)), NoDup_submseteq; [done|]. intros k Hin.
      destruct (decide (k = key)) as [->|]; [by left|]. right. by apply list_elem_of_filter. }
    assert (∀ k, k ∈ stored → k ∉ new → k ∈ missing) as Hm by (intros; by apply list_elem_of_filter).
    destruct missing as [|x [|y l]]; [exists key|exists x|simpl in Hsum; lia]; intros k Hin Hne;
      apply dec_stable; intros Hno; specialize (Hm k Hin Hno); set_solver.
  - left. apply submseteq_length_Permutation; [|done]. apply NoDup_submseteq; [done|]. intros k Hin.
    apply Hsub; [done|]. by intros ->.
Qed.

(** ** The program *)
Section config.
Context `{PubkeyDisplay, !Bincode ConfigKeys}.
Context (bincode_error : list N → string).

Section signers.
Context (ic : InstructionContext) (config_key : Pubkey) (config_signs : bool) (current : list (Pubkey * bool)).
Context (Hsmall : ic_small ic).

(** what a new signer needs *)
Definition vouched (t : TransactionContext) (k : Pubkey) : Prop :=
  (k = config_key ∧ config_signs = true) ∨
  (k ≠ config_key ∧ signs ic t k ∧ (current ≠ [] → k ∈ config_signer_keys current)).
Lemma refused {A} m s (x : A) s' : refuse m s ≠ (Ok x, s').
Proof. unfold refuse, bind, ic_msg, log_with, modify. by intros. Qed.
(** where a new signer is looked up *)
Definition signer_at (t : TransactionContext) (n : N) (k : Pubkey) : Prop :=
  ∃ ia, getN (instruction_accounts ic) (as_u16 n) = Some ia ∧ account_keys t !! position ia = Some k.
Lemma check_config_signer_Ok n k s s' :
  check_config_signer ic config_key config_signs current n k s = (Ok tt, s') →
  vouched (transaction_context s) k ∧ (k ≠ config_key → signer_at (transaction_context s) n k) ∧
  ivals s' = ivals s ∧ env s' = env s.
Proof.
  unfold check_config_signer, key_eqb. case_bool_decide as Hne; [subst k|]; simpl.
  - destruct config_signs eqn:Hc; simpl; [|by intros ?%refused]. intros [= <-]. split; [by left|]. by split.
  - unfold with_account_or. destruct (try_borrow_instruction_account _ _ _) as [[ba|e|] t] eqn:Hb; [|by intros ?%refused|].
    2: { unfold ic_with_account. by rewrite Hb. }
    intros (ia & s1 & s2 & Hia & Hw & Hv1 & He1 & Hv2 & He2)%scope_run.
    destruct (ba_is_signer _) eqn:Hs; [|by apply refused in Hw].
    apply bind_Ok_inv in Hw as (k' & s3 & [-> Hk]%get_key_Ok & Hw).
    case_bool_decide; [subst k'|by apply refused in Hw]. simpl in Hw.
    destruct (bool_decide _ && bool_decide _) eqn:Hm; [by apply refused in Hw|]. injection Hw as <-.
    assert (account_keys (transaction_context s) !! position ia = Some k) as Hat.
    { rewrite <-(env_keys _ _ He1). exact Hk. }
    split; [|split; [by exists ia|split; congruence]]. right. split; [done|]. split.
    + eapply signs_same; [by apply env_keys|]. by eapply signs_handle.
    + intros Hcur. apply andb_false_iff in Hm as [Hm%bool_decide_eq_false|Hm%bool_decide_eq_false]; [by destruct Hm|].
      by apply dec_stable.
Qed.
Lemma check_config_signers_Ok l : ∀ n s c s',
  check_config_signers ic config_key config_signs current n l s = (Ok c, s') →
  c = n + len l ∧ Forall (vouched (transaction_context s)) l ∧
  (∀ j k, l !! j = Some k → k ≠ config_key → signer_at (transaction_context s) (n + 1 + N.of_nat j) k) ∧
  ivals s' = ivals s ∧ env s' = env s.
Proof.
  induction l as [|k l IH]; simpl; intros n s c s'.
  - intros [= <- <-]. unfold len. simpl. split_and!; [lia|by constructor|done..].
  - intros ([] & s1 & (Hk & Hn & Hv & He)%check_config_signer_Ok & (-> & Hl & Hat & Hv1 & He1)%IH)%bind_Ok_inv.
    split_and!; [unfold len; simpl; lia| | |congruence..].
    + constructor; [done|]. eapply list.Forall_impl; [exact Hl|].
      intros x [?|(? & Hs & ?)]; [by left|right]. split_and!; [done| |done]. eapply signs_same; [|exact Hs]. by apply env_keys.
    + intros [|j] k' Hj Hne; cbn [lookup list_lookup] in Hj.
      * injection Hj as <-. rewrite N.add_0_r. by apply Hn.
      * replace (n + 1 + N.of_nat (S j)) with (n + 1 + 1 + N.of_nat j) by lia. destruct (Hat j k' Hj Hne) as (ia & Hia & Hka).
        exists ia. split; [done|]. by rewrite <-(env_keys _ _ He).
Qed.
End signers.

Lemma limit_write (bs d : list N) : (len d <? len bs) = false → overwrite (take (length d) (overwrite bs d)) d = overwrite bs d.
Proof.
  intros Hl%N.ltb_ge. unfold len in Hl. assert (length (overwrite bs d) = length d) as He.
  { unfold overwrite. rewrite length_app, length_drop. lia. }
  rewrite take_ge by lia. unfold overwrite at 1. rewrite He, drop_all. by rewrite app_nil_r.
Qed.
(** a successful update, before the signers are compared *)
Lemma config_update_Ok s s' ic :
  get_current_instruction_context (transaction_context s) = Ok ic → ic_small ic →
  config_process_instruction bincode_error s = (Ok tt, s') →
  ∃ ia a stored new key b,
    getN (instruction_accounts ic) 0 = Some ia ∧ account_keys (transaction_context s) !! position ia = Some key ∧
    (b = true → signs ic (transaction_context s) key) ∧
    ivals s !! position ia = Some a ∧ owner a = config_program_id ∧
    deserialize (data a) = Some stored ∧ limited_deserialize (instruction_data ic) = Ok new ∧
    ivals s' = <[position ia := set_data (overwrite (instruction_data ic) (data a)) a]> (ivals s) ∧
    (config_signer_keys (config_keys stored) = [] → b = true) ∧
    Forall (vouched ic key b (config_keys stored) (transaction_context s)) (config_signer_keys (config_keys new)) ∧
    len (remove_dups (config_keys new)) = len (config_keys new) ∧
    len (config_signer_keys (config_keys stored)) ≤ len (config_signer_keys (config_keys new)) ∧
    ∀ j k, config_signer_keys (config_keys new) !! j = Some k → k ≠ key →
      signer_at ic (transaction_context s) (1 + N.of_nat j) k.
Proof.
  intros Hic Hsm (ic' & s1 & [-> Hic']%asks_Ok & Hw)%bind_Ok_inv. rewrite Hic in Hic'. injection Hic' as <-.
  cbv zeta in Hw. apply bind_Ok_inv in Hw as (new & s1 & [Hnew ->]%lift_Ok_inv & Hw).
  apply bind_Ok_inv in Hw as (key & s1 & [-> (index & Hi & Hkey)]%key_of_Ok & Hw).
  apply bind_Ok_inv in Hw as ([b stored] & s1 & Hr & Hw).
  apply scope_run in Hr as (ia & s2 & s3 & Hia & Hr & Hv1 & He1 & Hv2 & He2).
  apply bind_Ok_inv in Hr as (a & s4 & [-> Ha]%read_account & Hr). destruct (key_eqb (owner a) _) eqn:Ho; [|done].
  apply key_eqb_true in Ho. cbn [negb] in Hr. destruct (deserialize (data a)) as [st|] eqn:Hst; [|by apply bind_Ok_inv in Hr as (? & ? & _ & [=])].
  injection Hr as <- <- <-.
  unfold get_index_of_instruction_account_in_transaction in Hi. rewrite Hia in Hi. injection Hi as <-.
  assert (account_keys (transaction_context s) !! position ia = Some key) as Hkey'.
  { unfold get_key_of_account_at_index, getN in Hkey. by destruct (account_keys _ !! _); simplify_eq/=. }
  destruct (bool_decide _ && negb _) eqn:Hne; [done|].
  apply bind_Ok_inv in Hw as (c & s3 & (-> & Hall & Hat & Hv3 & He3)%check_config_signers_Ok & Hw); [|done].
  destruct (N.eqb_spec (len (remove_dups (config_keys new))) (len (config_keys new))) as [Hdup|];
    [|by apply bind_Ok_inv in Hw as (? & ? & _ & [=])]. cbn [negb] in Hw.
  destruct (N.ltb_spec (0 + len (config_signer_keys (config_keys new))) (len (config_signer_keys (config_keys st)))) as [|Hlen]; [by apply refused in Hw|].
  apply scope_run in Hw as (ia' & s4 & s5 & Hia' & Hw & Hv4 & He4 & Hv5 & He5). rewrite Hia in Hia'. injection Hia' as <-.
  apply bind_Ok_inv in Hw as (a' & s6 & [-> Ha']%read_account & Hw).
  destruct (len (data a') <? _) eqn:Hfit; [by apply bind_Ok_inv in Hw as (? & ? & _ & [=])|].
  apply on_tc_Ok in Hw as (t & (a2 & Ha2 & Hk2 & Hv6)%write_data_Ok & ->). rewrite Ha' in Ha2. injection Ha2 as <-.
  assert (ivals s4 = ivals s) as Hv by congruence. assert (a' = a) as ->.
  { unfold at_handle in Ha, Ha'. change (vals (transaction_context s4)) with (ivals s4) in Ha'.
    change (vals (transaction_context s2)) with (ivals s2) in Ha. rewrite Hv in Ha'. rewrite Hv1 in Ha. congruence. }
  exists ia, a, st, new, key, (ba_is_signer (handle_of ic 0 ia)). split_and!; try done.
  - intros Hb. by eapply signs_handle.
  - unfold at_handle in Ha. change (vals (transaction_context s2)) with (ivals s2) in Ha. by rewrite Hv1 in Ha.
  - rewrite Hv5. change (vals t = <[position ia := set_data (overwrite (instruction_data ic) (data a)) a]> (ivals s)).
    rewrite Hv6. cbn [ba_index_in_transaction handle_of]. change (vals (transaction_context s4)) with (ivals s4).
    by rewrite limit_write, Hv.
  - intros Hemp. apply andb_false_iff in Hne as [Hne|Hne]; [by apply bool_decide_eq_false in Hne|]. by apply negb_false_iff in Hne.
  - eapply list.Forall_impl; [exact Hall|]. intros k [?|(? & Hs & ?)]; [by left|right]. split_and!; [done| |done].
    eapply signs_same; [|exact Hs]. apply env_keys. congruence.
  - intros j k Hj Hk. destruct (Hat j k Hj Hk) as (ia' & Hia' & Hk'). exists ia'. split; [done|].
    rewrite <-Hk'. f_equal. symmetry. apply env_keys. congruence.
Qed.
End config.

(** C18: a config account changes only with the signatures it asks for.  A successful instruction
    overwrites the start of the data of the first account, which belongs to the program, and
    nothing else; the new keys are distinct, the new signers have all signed, and without stored
    signers the account itself has.  If keys are stored, and the stored signers are distinct,
    then the new signers are the stored ones in some order, or the account itself is a new
    signer and all but at most one of the stored ones are new signers too.  The first
    store on an account without keys is free to name any signers that sign. *)
Theorem config_update_authorized `{PubkeyDisplay, !Bincode ConfigKeys} bincode_error s s' ic :
  get_current_instruction_context (transaction_context s) = Ok ic → ic_small ic →
  config_process_instruction bincode_error s = (Ok tt, s') →
  ∃ ia a stored new key (signed := signs ic (transaction_context s)),
    getN (instruction_accounts ic) 0 = Some ia ∧ account_keys (transaction_context s) !! position ia = Some key ∧
    ivals s !! position ia = Some a ∧ owner a = config_program_id ∧
    deserialize (data a) = Some stored ∧ limited_deserialize (instruction_data ic) = Ok new ∧
    ivals s' = <[position ia := set_data (overwrite (instruction_data ic) (data a)) a]> (ivals s) ∧
    NoDup (config_keys new) ∧ (∀ k, k ∈ config_signer_keys (config_keys new) → signed k) ∧
    (config_signer_keys (config_keys stored) = [] → signed key) ∧
    (config_keys stored ≠ [] → NoDup (config_signer_keys (config_keys stored)) →
       config_signer_keys (config_keys new) ≡ₚ config_signer_keys (config_keys stored) ∨
       key ∈ config_signer_keys (config_keys new) ∧ signed key ∧
       ∃ x, ∀ k, k ∈ config_signer_keys (config_keys stored) → k ≠ x →
         k ∈ config_signer_keys (config_keys new) ∧ signed k).
Proof.
  intros Hic Hsm Hw. destruct (config_update_Ok _ _ _ _ Hic Hsm Hw)
    as (ia & a & stored & new & key & b & Hia & Hk & Hb & Ha & Ho & Hst & Hnew & Hv & Hemp & Hall & Hdup & Hlen & _).
  rewrite list.Forall_forall in Hall. apply remove_dups_len in Hdup.
  assert (∀ k, k ∈ config_signer_keys (config_keys new) → signs ic (transaction_context s) k) as Hsig.
  { intros k [[-> ?]|(_ & ? & _)]%Hall; auto. }
  exists ia, a, stored, new, key. split_and!; auto. intros Hne Hnd.
  destruct (as_many_signers key (config_signer_keys (config_keys stored)) (config_signer_keys (config_keys new))) as [|[Hin [x Hx]]].
  - done.
  - by apply signer_keys_NoDup.
  - intros k [[-> _]|(_ & _ & Hcur)]%Hall; [done|]. auto.
  - unfold len in Hlen. lia.
  - by left.
  - right. split; [done|]. split; [by apply Hsig|]. exists x. eauto.
Qed.

(** C36: the config program counts signers and looks them up by position.  The instruction
    that [store] builds lists the other signers without the config account, but the program
    counts the config account when it looks for the ones after it: whenever a new signer
    comes after the config account in the list of keys, the instruction fails, though all
    accounts it asks for are there and may have signed. *)
Theorem config_signers_by_position `{PubkeyDisplay, !Bincode ConfigKeys} {T} `{!Bincode (ConfigKeys * T)} bincode_error s ic
    config_account config_signs keys (d : T) ix pre k post :
  get_current_instruction_context (transaction_context s) = Ok ic → ic_small ic →
  config_store config_account config_signs keys d = Ok ix →
  instruction_data ic = ix_data ix → limited_deserialize (ix_data ix) = Ok (mkConfigKeys keys) →
  Forall2 (λ ia m, account_keys (transaction_context s) !! position ia = Some (meta_pubkey m))
    (instruction_accounts ic) (ix_accounts ix) →
  config_signer_keys keys = pre ++ config_account :: k :: post →
  ∀ s', config_process_instruction bincode_error s ≠ (Ok tt, s').
Proof.
  intros Hic Hsm Hstore Hdata Hde Hias Hkeys s' Hw. destruct (config_update_Ok _ _ _ _ Hic Hsm Hw)
    as (ia & a & stored & new & key & b & Hia & Hk & _ & _ & _ & _ & Hnew & _ & _ & _ & Hdup & _ & Hat).
  rewrite Hdata, Hde in Hnew. injection Hnew as <-. cbn [config_keys] in *.
  apply remove_dups_len, signer_keys_NoDup in Hdup.
  unfold config_store in Hstore. destruct (unwrap _); cbn [rbind] in Hstore; [|done..]. injection Hstore as <-.
  cbn [ix_accounts] in Hias. rewrite Hkeys in Hias, Hdup, Hat.
  rewrite <-Permutation_middle in Hdup. pose proof Hdup as [Hno Hdup']%list.NoDup_cons.
  rewrite not_elem_of_app, not_elem_of_cons in Hno. destruct Hno as (Hpre & Hne & Hpost).
  rewrite list.filter_app, filter_cons_False, filter_cons_True, !filter_out in Hias by (done || by intros ?).
  assert (key = config_account) as ->.
  { destruct (instruction_accounts ic) as [|ia0 l]; [done|]. apply list.Forall2_cons in Hias as [H0 _].
    unfold getN in Hia. cbn in Hia. injection Hia as <-. rewrite Hk in H0. by injection H0. }
  destruct (Hat (S (length pre)) k) as (ia' & Hia' & Hk');
    [by rewrite lookup_app_r, Nat.sub_succ_l, Nat.sub_diag by lia|done|].
  pose proof Hias as Hlen%Forall2_length. cbn [length] in Hlen. rewrite length_fmap, length_app in Hlen. cbn [length] in Hlen.
  unfold ic_small, len in Hsm. change u16_max with 65535 in Hsm. unfold getN, as_u16 in Hia'. rewrite N.mod_small in Hia' by lia.
  destruct (Forall2_lookup_l _ _ _ _ _ Hias Hia') as (m & Hm & Hkm). rewrite Hk' in Hkm. injection Hkm as Hkm.
  replace (N.to_nat _) with (S (S (length pre))) in Hm by lia.
  change (((λ k, meta_new k true) <$> pre ++ k :: post) !! S (length pre) = Some m) in Hm.
  rewrite list_lookup_fmap, fmap_Some in Hm. destruct Hm as (k' & Hk2 & ->). cbn [meta_pubkey meta_new] in Hkm. subst k'.
  pose proof (NoDup_lookup _ _ (length pre) _ Hdup' Hk2) as Heq. rewrite lookup_app_r, Nat.sub_diag in Heq by lia.
  specialize (Heq eq_refl). lia.
Qed.

Import Codec.Bincodes VoteWire.VoteBincodes StakeWire.StakeBincodes Codec.StandIns.

(** ** A config account with key 70, signed for by the keys 1 and 2 *)
Definition config_key : Pubkey := pubkey_of_N 70.
Definition config_account (keys : list (Pubkey * bool)) : AccountSharedData :=
  mkAccountSharedData 3000000 (default [] (enc c_config_keys (mkConfigKeys keys)) ++ repeat 0 80) config_program_id false 0 false.
Definition config_accounts (keys : list (Pubkey * bool)) : list (Pubkey * AccountSharedData) :=
  [(pubkey_of_N 1, user_account 10000000); (pubkey_of_N 2, user_account 20000000); (config_key, config_account keys);
   (config_program_id, native_program)].
Definition config_begin (keys : list (Pubkey * bool)) : InvokeContext :=
  execution_context (stake_bank ∅) (config_accounts keys) demo_budget true None.
Instance stored_number : Bincode (ConfigKeys * N) := config_pair u64.
(** the instruction [config_instruction::store] builds, and its accounts in the transaction *)
Definition stored (config_signs : bool) (keys : list (Pubkey * bool)) : Instruction :=
  match config_store config_key config_signs keys 42 with
  | Ok ix => ix | _ => mkInstruction config_program_id [] []
  end.
Definition accounts_of (s : InvokeContext) (metas : list AccountMeta) : list InstructionAccount :=
  imap (λ i m, let index := default 0 (find_index_of_account (transaction_context s) (meta_pubkey m)) in
               mkInstructionAccount index index (N.of_nat i) (meta_is_signer m) (meta_is_writable m)) metas.
Definition run_config (ix : Instruction) (s : InvokeContext) :=
  process_instruction demo_programs 5 (ix_data ix) (accounts_of s (ix_accounts ix)) [3] s.
Definition must_sign (n : N) : Pubkey * bool := (pubkey_of_N n, true).
Definition stored_keys (s : InvokeContext) : option ConfigKeys := a ← ivals s !! 2%nat; deserialize (data a).

(** ** An update by its signers *)
Definition update_start : InvokeContext :=
  let s := config_begin [must_sign 1; must_sign 2] in
  let ix := stored false [must_sign 2; must_sign 1] in
  (enter [3] (accounts_of s (ix_accounts ix)) (ix_data ix) s).2.
Definition update_ic : InstructionContext :=
  match get_current_instruction_context (transaction_context update_start) with
  | Ok ic => ic | _ => instruction_context_default
  end.
Definition update_run := config_process_instruction (λ _, String.EmptyString) update_start.
Lemma update_running : get_current_instruction_context (transaction_context update_start) = Ok update_ic.
Proof. vm_compute. reflexivity. Qed.
Lemma update_runs : config_process_instruction (λ _, String.EmptyString) update_start = (Ok tt, update_run.2).
Proof. vm_compute. reflexivity. Qed.
Lemma config_update_authorized_witness :
  (∀ k, k ∈ [pubkey_of_N 2; pubkey_of_N 1] → signs update_ic (transaction_context update_start) k) ∧
  stored_keys update_run.2 = Some (mkConfigKeys [must_sign 2; must_sign 1]).
Proof.
  destruct (config_update_authorized (λ _, String.EmptyString) update_start update_run.2 update_ic update_running)
    as (ia & a & old & new & key & Hia & _ & _ & _ & _ & Hnew & _ & _ & Hs & _); [by vm_compute|apply update_runs|].
  split; [|by vm_compute]. vm_compute in Hnew. injection Hnew as <-. exact Hs.
Defined.

(** ** The account itself named first, and last *)
Definition first_ix : Instruction := stored true [must_sign 70; must_sign 1].
Definition first_start : InvokeContext :=
  let s := config_begin [] in (enter [3] (accounts_of s (ix_accounts first_ix)) (ix_data first_ix) s).2.
Definition first_ic : InstructionContext :=
  match get_current_instruction_context (transaction_context first_start) with
  | Ok ic => ic | _ => instruction_context_default
  end.
Lemma first_running : get_current_instruction_context (transaction_context first_start) = Ok first_ic.
Proof. vm_compute. reflexivity. Qed.
Lemma first_stored : config_store config_key true [must_sign 70; must_sign 1] 42 = Ok first_ix.
Proof. vm_compute. reflexivity. Qed.
Lemma first_data : limited_deserialize (ix_data first_ix) = Ok (mkConfigKeys [must_sign 70; must_sign 1]).
Proof. vm_compute. reflexivity. Qed.
Lemma first_accounts :
  Forall2 (λ ia m, account_keys (transaction_context first_start) !! position ia = Some (meta_pubkey m))
    (instruction_accounts first_ic) (ix_accounts first_ix).
Proof. vm_compute. repeat constructor. Qed.
Lemma config_signers_by_position_witness :
  (∀ s', config_process_instruction (λ _, String.EmptyString) first_start ≠ (Ok tt, s')) ∧
  outcome (run_config first_ix (config_begin [])) = Err MissingRequiredSignature ∧
  outcome (run_config (stored true [must_sign 1; must_sign 70]) (config_begin [])) = Ok tt.
Proof.
  split; [|split; vm_compute; reflexivity].
  apply (config_signers_by_position (λ _, String.EmptyString) first_start first_ic config_key true
    [must_sign 70; must_sign 1] 42 first_ix [] (pubkey_of_N 1) []).
  - exact first_running.
  - by vm_compute.
  - exact first_stored.
  - vm_compute. reflexivity.
  - exact first_data.
  - exact first_accounts.
  - reflexivity.
Defined.
