(* ===== verification/AccountLocks.v ===== *)
(** * Account locks

    The table of locked accounts ([AccountLocks] and the locking of [Accounts],
    [accounts-db/src/accounts.rs]), the locks of a transaction
    ([sdk/src/transaction/sanitized.rs]), the batches that hold them
    ([runtime/src/transaction_batch.rs]) and how the bank makes and releases batches
    ([runtime/src/bank.rs]).  Read locks are counted in 64 bits; the release build
    wraps around. *)

From S2P Require Import Prelude Sdk Message MessageRules LogCollector InvokeContext MessageProcessor.
From S2P Require Import RemoteLoader AccountsCache MigraterProgram Bank.

(** ** The table *)
Record AccountLocks := mkAccountLocks {
  write_locks : gset Pubkey; readonly_locks : gmap Pubkey N }.
Definition default_locks : AccountLocks := mkAccountLocks ∅ ∅.
Definition set_readonly_locks (m : gmap Pubkey N) (l : AccountLocks) : AccountLocks :=
  mkAccountLocks (write_locks l) m.

Definition is_locked_readonly (l : AccountLocks) (key : Pubkey) : bool :=
  match readonly_locks l !! key with Some count => 0 <? count | None => false end.
Definition is_locked_write (l : AccountLocks) (key : Pubkey) : bool :=
  bool_decide (key ∈ write_locks l).
(** the [assert!]: there was no entry *)
Definition insert_new_readonly {E} (key : Pubkey) (l : AccountLocks) : result E AccountLocks :=
  match readonly_locks l !! key with
  | None => Ok (set_readonly_locks (<[key := 1]> (readonly_locks l)) l)
  | Some _ => Panic
  end.
(** the [bool] of the source: is there an entry *)
Definition lock_readonly (key : Pubkey) (l : AccountLocks) : option AccountLocks :=
  match readonly_locks l !! key with
  | None => None
  | Some count =>
      Some (set_readonly_locks (<[key := wrapping_add count 1]> (readonly_locks l)) l)
  end.
Definition unlock_readonly (l : AccountLocks) (key : Pubkey) : AccountLocks :=
  match readonly_locks l !! key with
  | None => l
  | Some count =>
      let count := wrapping_sub count 1 in
      set_readonly_locks (if count =? 0 then delete key (readonly_locks l)
                          else <[key := count]> (readonly_locks l)) l
  end.
Definition unlock_write (l : AccountLocks) (key : Pubkey) : AccountLocks :=
  mkAccountLocks (write_locks l ∖ {[key]}) (readonly_locks l).

(** ** The locks of a transaction *)
Record TransactionAccountLocks := mkTransactionAccountLocks {
  readonly : list Pubkey; writable : list Pubkey }.

Definition push_lock (message : SanitizedMessage) (locks : TransactionAccountLocks) (x : N * Pubkey) :
  TransactionAccountLocks :=
  if sm_is_writable message x.1
  then mkTransactionAccountLocks (readonly locks) (writable locks ++ [x.2])
  else mkTransactionAccountLocks (readonly locks ++ [x.2]) (writable locks).
Definition get_account_locks_unchecked (tx : SanitizedTransaction) : TransactionAccountLocks :=
  let message := tx_message tx in
  foldl (push_lock message) (mkTransactionAccountLocks [] [])
    (imap (λ i key, (N.of_nat i, key)) (account_keys_iter (sm_account_keys message))).
Definition validate_account_locks (message : SanitizedMessage) (tx_account_lock_limit : N) :
  result TransactionError.t unit :=
  if sm_has_duplicates message then Err TransactionError.AccountLoadedTwice
  else if tx_account_lock_limit <? account_keys_len (sm_account_keys message)
  then Err TransactionError.TooManyAccountLocks
  else Ok tt.
Definition get_account_locks (tx : SanitizedTransaction) (tx_account_lock_limit : N) :
  result TransactionError.t TransactionAccountLocks :=
  check! validate_account_locks (tx_message tx) tx_account_lock_limit in
  Ok (get_account_locks_unchecked tx).

(** ** Locking and unlocking *)

(** [Ok] holds the table after the call and what the call returns *)
Definition LockResult := result TransactionError.t unit.
Fixpoint lock_readonly_keys {E} (keys : list Pubkey) (l : AccountLocks) : result E AccountLocks :=
  match keys with
  | [] => Ok l
  | k :: keys' =>
      let! l := (match lock_readonly k l with
                 | Some l => Ok l
                 | None => insert_new_readonly k l
                 end) in
      lock_readonly_keys keys' l
  end.
Definition insert_write_lock (l : AccountLocks) (k : Pubkey) : AccountLocks :=
  mkAccountLocks ({[k]} ∪ write_locks l) (readonly_locks l).
Definition lock_account {E} (l : AccountLocks) (writable_keys readonly_keys : list Pubkey) :
  result E (AccountLocks * LockResult) :=
  if existsb (λ k, is_locked_write l k || is_locked_readonly l k) writable_keys
  then Ok (l, Err TransactionError.AccountInUse) else
  if existsb (is_locked_write l) readonly_keys
  then Ok (l, Err TransactionError.AccountInUse) else
  let l := foldl insert_write_lock l writable_keys in
  let! l := lock_readonly_keys readonly_keys l in
  Ok (l, Ok tt).
Definition unlock_account (l : AccountLocks) (writable_keys readonly_keys : list Pubkey) :
  AccountLocks :=
  foldl unlock_readonly (foldl unlock_write l writable_keys) readonly_keys.

Fixpoint lock_accounts_inner {E} (rs : list (result TransactionError.t TransactionAccountLocks))
    (l : AccountLocks) : result E (AccountLocks * list LockResult) :=
  match rs with
  | [] => Ok (l, [])
  | r :: rs' =>
      let! x := (match r with
                 | Ok locks => lock_account l (writable locks) (readonly locks)
                 | Err err => Ok (l, Err err)
                 | Panic => Panic
                 end) in
      let! y := lock_accounts_inner rs' x.1 in
      Ok (y.1, x.2 :: y.2)
  end.
Definition lock_accounts {E} (txs : list SanitizedTransaction) (tx_account_lock_limit : N) :
  AccountLocks → result E (AccountLocks * list LockResult) :=
  lock_accounts_inner ((λ tx, get_account_locks tx tx_account_lock_limit) <$> txs).
Definition lock_accounts_with_results {E} (txs : list SanitizedTransaction)
    (results : list LockResult) (tx_account_lock_limit : N) :
  AccountLocks → result E (AccountLocks * list LockResult) :=
  lock_accounts_inner
    (zip_with (λ tx (result : LockResult), check! result in get_account_locks tx tx_account_lock_limit)
       txs results).
Definition locked_transactions (txs : list SanitizedTransaction) (results : list LockResult) :
  list TransactionAccountLocks :=
  (λ x, get_account_locks_unchecked x.1) <$> filter (λ x, is_ok x.2 = true) (zip txs results).
Definition unlock_accounts (txs : list SanitizedTransaction) (results : list LockResult)
    (l : AccountLocks) : AccountLocks :=
  foldl (λ l keys, unlock_account l (writable keys) (readonly keys)) l
    (locked_transactions txs results).

(** ** Batches *)
Definition MAX_TX_ACCOUNT_LOCKS : N := 128.
Definition get_transaction_account_lock_limit (transaction_account_lock_limit : option N)
    (increase_tx_account_lock_limit : bool) : N :=
  match transaction_account_lock_limit with
  | Some limit => limit
  | None => if increase_tx_account_lock_limit then MAX_TX_ACCOUNT_LOCKS else 64
  end.

Record TransactionBatch := mkTransactionBatch {
  lock_results : list LockResult;
  sanitized_txs : list SanitizedTransaction;
  needs_unlock : bool }.
Definition set_needs_unlock (b : bool) (batch : TransactionBatch) : TransactionBatch :=
  mkTransactionBatch (lock_results batch) (sanitized_txs batch) b.
(** [assert_eq!] on the lengths *)
Definition batch_new {E} (results : list LockResult) (txs : list SanitizedTransaction) :
  result E TransactionBatch :=
  if len results =? len txs then Ok (mkTransactionBatch results txs true) else Panic.

Definition prepare_sanitized_batch {E} (limit : N) (txs : list SanitizedTransaction) (l : AccountLocks) :
  result E (AccountLocks * TransactionBatch) :=
  let! x := lock_accounts txs limit l in
  let! batch := batch_new x.2 txs in
  Ok (x.1, batch).
Definition prepare_sanitized_batch_with_results {E} (limit : N) (txs : list SanitizedTransaction)
    (results : list LockResult) (l : AccountLocks) : result E (AccountLocks * TransactionBatch) :=
  let! x := lock_accounts_with_results txs results limit l in
  let! batch := batch_new x.2 txs in
  Ok (x.1, batch).
Definition prepare_unlocked_batch_from_single_tx {E} (limit : N) (tx : SanitizedTransaction) :
  result E TransactionBatch :=
  let lock_result := rmap (λ _, tt) (get_account_locks tx limit) in
  let! batch := batch_new [lock_result] [tx] in
  Ok (set_needs_unlock false batch).
(** [Bank::unlock_accounts], which the destructor of a batch calls too *)
Definition bank_unlock_accounts (batch : TransactionBatch) (l : AccountLocks) :
  AccountLocks * TransactionBatch :=
  if needs_unlock batch
  then (unlock_accounts (sanitized_txs batch) (lock_results batch) l, set_needs_unlock false batch)
  else (l, batch).

(** ** The table and the live batches *)
Record LockState := mkLockState { lock_table : AccountLocks; live_batches : list TransactionBatch }.
Definition no_batches : LockState := mkLockState default_locks [].

Inductive LockOp :=
| PrepareBatch (txs : list SanitizedTransaction)
| PrepareBatchWithResults (txs : list SanitizedTransaction) (results : list LockResult)
| PrepareUnlocked (tx : SanitizedTransaction)
| UnlockBatch (i : nat)
| DropBatch (i : nat).
Definition run_lock_op {E} (limit : N) (s : LockState) (op : LockOp) : result E LockState :=
  match op with
  | PrepareBatch txs =>
      let! x := prepare_sanitized_batch limit txs (lock_table s) in
      Ok (mkLockState x.1 (x.2 :: live_batches s))
  | PrepareBatchWithResults txs results =>
      let! x := prepare_sanitized_batch_with_results limit txs results (lock_table s) in
      Ok (mkLockState x.1 (x.2 :: live_batches s))
  | PrepareUnlocked tx =>
      let! batch := prepare_unlocked_batch_from_single_tx limit tx in
      Ok (mkLockState (lock_table s) (batch :: live_batches s))
  | UnlockBatch i =>
      match live_batches s !! i with
      | None => Ok s
      | Some batch =>
          let x := bank_unlock_accounts batch (lock_table s) in
          Ok (mkLockState x.1 (<[i := x.2]> (live_batches s)))
      end
  | DropBatch i =>
      match live_batches s !! i with
      | None => Ok s
      | Some batch =>
          Ok (mkLockState (bank_unlock_accounts batch (lock_table s)).1 (delete i (live_batches s)))
      end
  end.
Definition run_lock_ops {E} (limit : N) (s : LockState) (ops : list LockOp) : result E LockState :=
  foldl (λ r op, let! s := r in run_lock_op limit s op) (Ok s) ops.

(** ** What the table stands for *)
Definition touches (t : TransactionAccountLocks) (k : Pubkey) : Prop := k ∈ writable t ∨ k ∈ readonly t.
(** one writes what the other touches *)
Definition conflicts (t u : TransactionAccountLocks) : Prop :=
  ∃ k, (k ∈ writable t ∧ touches u k) ∨ (k ∈ writable u ∧ touches t k).
Definition compatible (t u : TransactionAccountLocks) : Prop := ¬ conflicts t u.
Definition well_split (t : TransactionAccountLocks) : Prop := NoDup (writable t ++ readonly t).
Definition readers (k : Pubkey) (held : list TransactionAccountLocks) : nat :=
  length (filter (λ t, k ∈ readonly t) held).

(** the table [l] is the one of the transactions in [held], whatever their order *)
Record represents (l : AccountLocks) (held : list TransactionAccountLocks) : Prop := {
  rep_write : ∀ k, k ∈ write_locks l ↔ ∃ t, t ∈ held ∧ k ∈ writable t;
  rep_read : ∀ k, readonly_locks l !! k =
    if decide (readers k held = 0%nat) then None else Some (N.of_nat (readers k held));
  rep_split : Forall well_split held;
  rep_compatible : ∀ t u rest, held ≡ₚ t :: u :: rest → compatible t u }.

#[export] Instance readers_perm k : Proper ((≡ₚ) ==> eq) (readers k).
Proof. intros h1 h2 Hp. unfold readers. by rewrite Hp. Qed.
#[export] Instance represents_perm l : Proper ((≡ₚ) ==> iff) (represents l).
Proof.
  assert (Hdir : ∀ h1 h2, h1 ≡ₚ h2 → represents l h1 → represents l h2).
  { intros h1 h2 Hp []. split.
    - intros k. rewrite rep_write0. by setoid_rewrite Hp.
    - intros k. by rewrite <-(readers_perm k _ _ Hp).
    - by rewrite <-Hp.
    - intros t u rest. rewrite <-Hp. apply rep_compatible0. }
  intros h1 h2 Hp. split; apply Hdir; [done|by symmetry].
Qed.

Lemma represents_empty : represents default_locks [].
Proof.
  split; [set_solver|done|constructor|].
  intros t u rest Hp. by apply Permutation_nil_cons in Hp.
Qed.
Lemma readers_cons k t held :
  readers k (t :: held) = ((if decide (k ∈ readonly t) then 1 else 0) + readers k held)%nat.
Proof. unfold readers. rewrite filter_cons. by case_decide. Qed.
Lemma readers_pos k held : readers k held ≠ 0%nat ↔ ∃ t, t ∈ held ∧ k ∈ readonly t.
Proof.
  induction held as [|t held IH]; [set_solver by lia|]. rewrite readers_cons.
  case_decide; simpl; [set_solver by lia|]. rewrite IH. set_solver.
Qed.
Lemma readers_le k held : (readers k held ≤ length held)%nat.
Proof. apply length_filter. Qed.

(** ** The loops *)
Lemma foldl_insert_write l ks :
  foldl insert_write_lock l ks = mkAccountLocks (list_to_set ks ∪ write_locks l) (readonly_locks l).
Proof.
  revert l. induction ks as [|k ks IH]; intros [w r]; simpl; [f_equal; set_solver|].
  rewrite IH. simpl. f_equal. set_solver.
Qed.
Lemma foldl_unlock_write l ks :
  foldl unlock_write l ks = mkAccountLocks (write_locks l ∖ list_to_set ks) (readonly_locks l).
Proof.
  revert l. induction ks as [|k ks IH]; intros [w r]; simpl; [f_equal; set_solver|].
  rewrite IH. simpl. f_equal. set_solver.
Qed.

(** an entry after one more reader and after one less *)
Definition one_more (o : option N) : option N :=
  Some (match o with Some c => wrapping_add c 1 | None => 1 end).
Definition one_less (o : option N) : option N :=
  c ← o; let c := wrapping_sub c 1 in if c =? 0 then None else Some c.
Lemma lock_readonly_keys_eq {E} ks : ∀ l,
  NoDup ks → ∃ m, lock_readonly_keys (E:=E) ks l = Ok (set_readonly_locks m l) ∧
    ∀ k, m !! k = if decide (k ∈ ks) then one_more (readonly_locks l !! k) else readonly_locks l !! k.
Proof.
  induction ks as [|k ks IH]; intros l Hnd; cbn [lock_readonly_keys].
  { exists (readonly_locks l). split; [by destruct l|done]. }
  apply list.NoDup_cons in Hnd as [Hk Hnd].
  set (m1 := <[k := match readonly_locks l !! k with Some c => wrapping_add c 1 | None => 1 end]> (readonly_locks l)).
  assert ((match lock_readonly k l with Some l => Ok l | None => insert_new_readonly (E:=E) k l end) =
          Ok (set_readonly_locks m1 l)) as ->.
  { unfold lock_readonly, insert_new_readonly, m1. by destruct (_ !! k). }
  cbn [rbind]. destruct (IH (set_readonly_locks m1 l) Hnd) as (m & -> & Hm). exists m. split; [done|].
  intros k'. rewrite Hm. cbn [readonly_locks set_readonly_locks]. unfold m1.
  destruct (decide (k' = k)) as [->|Hne].
  - rewrite (decide_False (P:=k ∈ ks)), (decide_True (P:=k ∈ k :: ks)) by set_solver. by rewrite lookup_insert_eq.
  - rewrite lookup_insert_ne by done. do 2 case_decide; set_solver.
Qed.
Lemma foldl_unlock_readonly ks : ∀ l,
  NoDup ks → ∃ m, foldl unlock_readonly l ks = set_readonly_locks m l ∧
    ∀ k, m !! k = if decide (k ∈ ks) then one_less (readonly_locks l !! k) else readonly_locks l !! k.
Proof.
  induction ks as [|k ks IH]; intros l Hnd; cbn [foldl].
  { exists (readonly_locks l). split; [by destruct l|done]. }
  apply list.NoDup_cons in Hnd as [Hk Hnd].
  assert (∃ m1, unlock_readonly l k = set_readonly_locks m1 l ∧
            ∀ k', m1 !! k' = if decide (k' = k) then one_less (readonly_locks l !! k') else readonly_locks l !! k')
    as (m1 & -> & Hm1).
  { unfold unlock_readonly, one_less. destruct (readonly_locks l !! k) as [c|] eqn:Hc.
    - eexists. split; [reflexivity|]. intros k'. case_decide as Heq; [subst k'; rewrite Hc; simpl|].
      + destruct (_ =? 0); [apply lookup_delete_eq|apply lookup_insert_eq].
      + destruct (_ =? 0); [by apply lookup_delete_ne|by apply lookup_insert_ne].
    - exists (readonly_locks l). split; [by destruct l|]. intros k'. case_decide; [subst k'|done]. by rewrite Hc. }
  destruct (IH (set_readonly_locks m1 l) Hnd) as (m & -> & Hm). exists m. split; [done|].
  intros k'. rewrite Hm. cbn [readonly_locks set_readonly_locks]. rewrite Hm1.
  destruct (decide (k' = k)) as [->|Hne].
  - by rewrite (decide_False (P:=k ∈ ks)), (decide_True (P:=k ∈ k :: ks)) by set_solver.
  - do 2 case_decide; set_solver.
Qed.

(** ** One transaction *)
Lemma conflicts_sym t u : conflicts t u → conflicts u t.
Proof. intros (k & [?|?]); exists k; tauto. Qed.
Lemma is_locked_write_spec l held k :
  represents l held → is_locked_write l k = true ↔ ∃ t, t ∈ held ∧ k ∈ writable t.
Proof. intros Hr. unfold is_locked_write. by rewrite bool_decide_eq_true, (rep_write _ _ Hr). Qed.
Lemma is_locked_readonly_spec l held k :
  represents l held → is_locked_readonly l k = true ↔ ∃ t, t ∈ held ∧ k ∈ readonly t.
Proof.
  intros Hr. unfold is_locked_readonly. rewrite (rep_read _ _ Hr), <-readers_pos.
  case_decide as Hz; [by rewrite Hz|]. split; [done|]. intros _. apply N.ltb_lt. lia.
Qed.
Lemma in_use_spec l held t :
  represents l held →
  existsb (λ k, is_locked_write l k || is_locked_readonly l k) (writable t) ||
  existsb (is_locked_write l) (readonly t) = true ↔ ∃ u, u ∈ held ∧ conflicts t u.
Proof.
  intros Hr. rewrite orb_true_iff, !existsb_exists. setoid_rewrite <-list_elem_of_In.
  setoid_rewrite orb_true_iff. setoid_rewrite (is_locked_write_spec l held _ Hr).
  setoid_rewrite (is_locked_readonly_spec l held _ Hr). unfold conflicts, touches. split.
  - intros [(k & Hk & [(u & Hu & Hw)|(u & Hu & Hw)])|(k & Hk & u & Hu & Hw)]; exists u; (split; [done|]);
      exists k; tauto.
  - intros (u & Hu & k & [[Hk [Hw|Hw]]|[Hw [Hk|Hk]]]); eauto 8.
Qed.

Lemma wrapping_add_1 n : n < u64_max → wrapping_add n 1 = n + 1.
Proof. unfold wrapping_add, as_u64, u64_max. intros Hn. apply N.mod_small. lia. Qed.
Lemma wrapping_sub_1 n : 0 < n → n ≤ u64_max → wrapping_sub n 1 = n - 1.
Proof.
  unfold wrapping_sub, as_u64, u64_max. intros H0 Hn. change (1 `mod` 18446744073709551616) with 1.
  replace (n + (18446744073709551616 - 1)) with (n - 1 + 1 * 18446744073709551616) by lia.
  rewrite N.Div0.mod_add. apply N.mod_small. lia.
Qed.

Lemma represents_locked l held t m :
  represents l held → well_split t → (∀ u, u ∈ held → compatible t u) →
  N.of_nat (length held) < u64_max →
  (∀ k, m !! k = if decide (k ∈ readonly t) then one_more (readonly_locks l !! k) else readonly_locks l !! k) →
  represents (mkAccountLocks (list_to_set (writable t) ∪ write_locks l) m) (t :: held).
Proof.
  intros Hr Ht Hc Hb Hm. split; cbn [write_locks readonly_locks].
  - intros k. rewrite elem_of_union, elem_of_list_to_set, (rep_write _ _ Hr). set_solver.
  - intros k. rewrite Hm, readers_cons, (rep_read _ _ Hr). pose proof (readers_le k held) as Hle.
    destruct (decide (k ∈ readonly t)); [|done]. cbn [Nat.add]. unfold one_more. case_decide as Hz.
    + by rewrite Hz.
    + rewrite wrapping_add_1 by lia. rewrite decide_False by lia. f_equal. lia.
  - constructor; [done|apply Hr].
  - intros a b rest Hp.
    assert (a ∈ t :: held) as [->|Ha]%elem_of_cons by (rewrite Hp; set_solver).
    + apply Permutation_cons_inv in Hp. apply Hc. rewrite Hp. set_solver.
    + destruct (proj1 (elem_of_Permutation _ _) Ha) as [h' Hh].
      rewrite Hh, (Permutation_swap a t) in Hp. apply Permutation_cons_inv in Hp.
      assert (b ∈ t :: h') as [->|Hb']%elem_of_cons by (rewrite Hp; set_solver).
      * intros Hf%conflicts_sym. by eapply Hc.
      * destruct (proj1 (elem_of_Permutation _ _) Hb') as [h2 Hh2].
        apply (rep_compatible _ _ Hr a b h2). by rewrite Hh, Hh2.
Qed.

Lemma lock_account_spec {E} l held t :
  represents l held → well_split t → N.of_nat (length held) < u64_max →
  (∃ l', lock_account (E:=E) l (writable t) (readonly t) = Ok (l', Ok tt) ∧
     represents l' (t :: held) ∧ ∀ u, u ∈ held → compatible t u) ∨
  (lock_account (E:=E) l (writable t) (readonly t) = Ok (l, Err TransactionError.AccountInUse) ∧
     ∃ u, u ∈ held ∧ conflicts t u).
Proof.
  intros Hr Ht Hb. pose proof (in_use_spec l held t Hr) as Hu. unfold lock_account.
  destruct (existsb _ (writable t)) eqn:Hw; [right; split; [done|by apply Hu]|].
  destruct (existsb _ (readonly t)) eqn:Ho; [right; split; [done|by apply Hu]|]. left.
  pose proof Ht as (_ & _ & Hnd)%list.NoDup_app. rewrite foldl_insert_write.
  edestruct (lock_readonly_keys_eq (E:=E) (readonly t)) as (m & -> & Hm); [done|]. cbn [rbind].
  assert (Hc : ∀ u, u ∈ held → compatible t u) by (intros u Hin Hf; by assert (false = true) by (apply Hu; eauto)).
  eexists. split; [reflexivity|]. split; [|done]. by apply represents_locked.
Qed.

Lemma unlock_account_spec l held t :
  represents l (t :: held) → N.of_nat (length held) < u64_max →
  represents (unlock_account l (writable t) (readonly t)) held.
Proof.
  intros Hr Hb. unfold unlock_account. rewrite foldl_unlock_write.
  pose proof (rep_split _ _ Hr) as [Ht Hs]%list.Forall_cons. pose proof Ht as (_ & _ & Hnd)%list.NoDup_app.
  edestruct (foldl_unlock_readonly (readonly t)) as (m & -> & Hm); [done|]. cbn [readonly_locks] in Hm.
  assert (Hc : ∀ u, u ∈ held → compatible t u).
  { intros u Hu. destruct (proj1 (elem_of_Permutation _ _) Hu) as [h' Hh].
    apply (rep_compatible _ _ Hr t u h'). by rewrite Hh. }
  split; cbn [write_locks readonly_locks set_readonly_locks].
  - intros k. rewrite elem_of_difference, elem_of_list_to_set, (rep_write _ _ Hr). split.
    + intros [(u & [->|Hu]%elem_of_cons & Hw) Hn]; [done|eauto].
    + intros (u & Hu & Hw). split; [set_solver|]. intros Hk. apply (Hc u Hu). exists k. unfold touches. tauto.
  - intros k. rewrite Hm, (rep_read _ _ Hr), readers_cons. pose proof (readers_le k held) as Hle.
    destruct (decide (k ∈ readonly t)); [|done]. cbn [Nat.add]. rewrite decide_False by lia.
    unfold one_less. cbn [mbind option_bind]. rewrite wrapping_sub_1 by lia.
    replace (N.of_nat (S (readers k held)) - 1) with (N.of_nat (readers k held)) by lia.
    case_decide as Hz; [by rewrite Hz|]. by rewrite (proj2 (N.eqb_neq _ _)) by lia.
  - done.
  - intros a b rest Hp. apply (rep_compatible _ _ Hr a b (t :: rest)). rewrite Hp. solve_Permutation.
Qed.

(** ** The locks a transaction asks for *)
Lemma push_locks_perm message l : ∀ locks,
  let locks' := foldl (push_lock message) locks l in
  writable locks' ++ readonly locks' ≡ₚ (writable locks ++ readonly locks) ++ l.*2.
Proof.
  induction l as [|[i k] l IH]; intros locks; cbn [foldl]; [by rewrite app_nil_r|].
  cbv zeta in *. rewrite IH. unfold push_lock. cbn [fst snd]. rewrite fmap_cons. cbn [snd].
  destruct (sm_is_writable message i); cbn [writable readonly]; solve_Permutation.
Qed.
Lemma account_locks_perm tx :
  let locks := get_account_locks_unchecked tx in
  writable locks ++ readonly locks ≡ₚ account_keys_iter (sm_account_keys (tx_message tx)).
Proof.
  cbv zeta. unfold get_account_locks_unchecked. rewrite push_locks_perm. cbn [writable readonly app].
  rewrite fmap_imap. change (compose snd ∘ _) with (λ (_ : nat) (k : Pubkey), k).
  by rewrite (imap_const id), list_fmap_id.
Qed.
Lemma elem_of_writable tx k :
  k ∈ writable (get_account_locks_unchecked tx) ↔
  ∃ i, account_keys_iter (sm_account_keys (tx_message tx)) !! i = Some k ∧
       sm_is_writable (tx_message tx) (N.of_nat i) = true.
Proof.
  unfold get_account_locks_unchecked. set (message := tx_message tx).
  assert (Hfold : ∀ l locks, k ∈ writable (foldl (push_lock message) locks l) ↔
    k ∈ writable locks ∨ ∃ i, (i, k) ∈ l ∧ sm_is_writable message i = true).
  { induction l as [|[i k'] l IH]; intros locks; cbn [foldl].
    { split; [by left|]. intros [?|(i & Hi & _)]; [done|]. by apply not_elem_of_nil in Hi. }
    rewrite IH. unfold push_lock. cbn [fst snd]. setoid_rewrite elem_of_cons.
    destruct (sm_is_writable message i) eqn:Hw; cbn [writable]; rewrite ?elem_of_app, ?list_elem_of_singleton.
    - split; [intros [[?| ->]|(i' & Hi & Hw')]; eauto|]. intros [?|(i' & [[= -> ->]|Hi] & Hw')]; eauto.
    - split; [intros [?|(i' & Hi & Hw')]; eauto|]. intros [?|(i' & [[= -> ->]|Hi] & Hw')]; [eauto|congruence|eauto]. }
  rewrite Hfold. cbn [writable]. split.
  - intros [?%not_elem_of_nil|(i & (j & x & [= -> ->] & Hj)%elem_of_lookup_imap & Hw)]; [done|eauto].
  - intros (i & Hi & Hw). right. exists (N.of_nat i). split; [|done]. apply elem_of_lookup_imap. eauto.
Qed.
Lemma get_account_locks_ok tx limit t :
  get_account_locks tx limit = Ok t → t = get_account_locks_unchecked tx ∧ well_split t.
Proof.
  unfold get_account_locks, validate_account_locks. destruct (sm_has_duplicates _) eqn:Hd; cbn [rbind]; [done|].
  destruct (_ <? _); cbn [rbind]; [done|]. intros [= <-]. split; [done|].
  unfold well_split. rewrite account_locks_perm. by apply sm_has_duplicates_NoDup.
Qed.
Lemma get_account_locks_no_panic tx limit : get_account_locks tx limit ≠ Panic.
Proof. unfold get_account_locks, validate_account_locks. destruct (sm_has_duplicates _); [done|]. by destruct (_ <? _). Qed.

(** a request as the batch makes it: the locks of its transaction, or an error *)
Definition request_of (tx : SanitizedTransaction) (r : result TransactionError.t TransactionAccountLocks) : Prop :=
  r ≠ Panic ∧ ∀ t, r = Ok t → t = get_account_locks_unchecked tx ∧ well_split t.
Lemma get_account_locks_request tx limit : request_of tx (get_account_locks tx limit).
Proof. split; [apply get_account_locks_no_panic|]. intros t. apply get_account_locks_ok. Qed.

Lemma locked_transactions_cons tx txs r rs :
  locked_transactions (tx :: txs) (r :: rs) =
  (if is_ok r then [get_account_locks_unchecked tx] else []) ++ locked_transactions txs rs.
Proof.
  unfold locked_transactions. cbn [zip zip_with]. rewrite filter_cons. cbn [snd].
  by destruct r; cbn [is_ok]; (rewrite decide_True by done) || (rewrite decide_False by done).
Qed.

(** ** One batch *)
Lemma lock_accounts_inner_spec {E} txs rs : ∀ l held,
  Forall2 request_of txs rs → represents l held → N.of_nat (length held + length txs) ≤ u64_max →
  ∃ l' results, lock_accounts_inner (E:=E) rs l = Ok (l', results) ∧ length results = length txs ∧
    represents l' (locked_transactions txs results ++ held).
Proof.
  intros l held Hf. revert l held. induction Hf as [|tx r txs rs [Hp Ht] Hf IH]; intros l held Hr Hb.
  { by exists l, []. }
  cbn [lock_accounts_inner length] in *. destruct r as [t|e|]; [| |done].
  - destruct (Ht t eq_refl) as [Heq Hs].
    destruct (lock_account_spec (E:=E) l held t Hr Hs ltac:(lia)) as [(l1 & -> & Hr1 & _)|[-> _]]; cbn [rbind fst snd].
    + destruct (IH l1 (t :: held) Hr1) as (l' & results & -> & Hlen & Hr'); [cbn [length]; lia|].
      cbn [rbind fst snd]. exists l', (Ok tt :: results). split; [done|]. split; [cbn [length]; lia|].
      rewrite locked_transactions_cons. cbn [is_ok]. rewrite <-Heq.
      eapply represents_perm; [|exact Hr']. solve_Permutation.
    + destruct (IH l held Hr) as (l' & results & -> & Hlen & Hr'); [lia|]. cbn [rbind fst snd].
      exists l', (Err TransactionError.AccountInUse :: results). rewrite locked_transactions_cons. simpl. auto.
  - cbn [rbind fst snd]. destruct (IH l held Hr) as (l' & results & -> & Hlen & Hr'); [lia|]. cbn [rbind fst snd].
    exists l', (Err e :: results). rewrite locked_transactions_cons. simpl. auto.
Qed.
Lemma unlock_all_spec ts : ∀ l held,
  represents l (ts ++ held) → N.of_nat (length (ts ++ held)) ≤ u64_max →
  represents (foldl (λ l keys, unlock_account l (writable keys) (readonly keys)) l ts) held.
Proof.
  induction ts as [|t ts IH]; intros l held Hr Hb; cbn [foldl app length] in *; [done|].
  apply IH; [|lia]. apply unlock_account_spec; [done|lia].
Qed.

(** ** All live batches *)
Definition batch_held (b : TransactionBatch) : list TransactionAccountLocks :=
  if needs_unlock b then locked_transactions (sanitized_txs b) (lock_results b) else [].
Definition held_locks (s : LockState) : list TransactionAccountLocks := live_batches s ≫= batch_held.
Definition lock_invariant (s : LockState) : Prop := represents (lock_table s) (held_locks s).

(** how many transactions an operation brings *)
Definition op_transactions (op : LockOp) : nat :=
  match op with
  | PrepareBatch txs | PrepareBatchWithResults txs _ => length txs
  | _ => 0
  end.
(** earlier results cover the transactions of the batch *)
Definition op_valid (op : LockOp) : Prop :=
  match op with
  | PrepareBatchWithResults txs results => (length txs ≤ length results)%nat ∧ Panic ∉ results
  | _ => True
  end.

Lemma batch_new_ok {E} results txs :
  length results = length txs → batch_new (E:=E) results txs = Ok (mkTransactionBatch results txs true).
Proof. intros Hl. unfold batch_new, len. by rewrite Hl, N.eqb_refl. Qed.
Lemma bank_unlock_spec l b held :
  represents l (batch_held b ++ held) → N.of_nat (length (batch_held b ++ held)) ≤ u64_max →
  represents (bank_unlock_accounts b l).1 held ∧ batch_held (bank_unlock_accounts b l).2 = [].
Proof.
  unfold bank_unlock_accounts, batch_held. destruct (needs_unlock b) eqn:Hn; cbn [fst snd needs_unlock set_needs_unlock].
  - intros Hr Hb. split; [|done]. by apply unlock_all_spec.
  - by rewrite Hn.
Qed.

(** a list without one entry, and with it replaced *)
Lemma bind_delete {A B} (f : A → list B) l i x : l !! i = Some x → l ≫= f ≡ₚ f x ++ (delete i l ≫= f).
Proof.
  intros (l1 & l2 & -> & ->)%list_elem_of_split_length. rewrite delete_middle, !bind_app, bind_cons. solve_Permutation.
Qed.
Lemma bind_replace {A B} (f : A → list B) l i x y :
  l !! i = Some x → <[i := y]> l ≫= f ≡ₚ f y ++ (delete i l ≫= f).
Proof.
  intros (l1 & l2 & -> & ->)%list_elem_of_split_length. rewrite delete_middle, insert_app_r_alt by done.
  rewrite Nat.sub_diag. cbn [insert list_insert]. rewrite !bind_app, bind_cons. solve_Permutation.
Qed.

Lemma locked_transactions_length txs results :
  (length (locked_transactions txs results) ≤ length txs)%nat.
Proof.
  unfold locked_transactions. rewrite length_fmap. etrans; [apply length_filter|].
  rewrite length_zip_with. lia.
Qed.
Lemma prepared {E} txs rs s :
  lock_invariant s → N.of_nat (length (held_locks s) + length txs) ≤ u64_max → Forall2 request_of txs rs →
  ∃ l' results, lock_accounts_inner (E:=E) rs (lock_table s) = Ok (l', results) ∧
    batch_new (E:=E) results txs = Ok (mkTransactionBatch results txs true) ∧
    let s' := mkLockState l' (mkTransactionBatch results txs true :: live_batches s) in
    lock_invariant s' ∧ (length (held_locks s') ≤ length (held_locks s) + length txs)%nat.
Proof.
  intros Hi Hb Hf. destruct (lock_accounts_inner_spec (E:=E) txs rs _ _ Hf Hi Hb) as (l' & results & -> & Hl & Hr).
  exists l', results. split; [done|]. split; [by apply batch_new_ok|]. split; [done|].
  unfold held_locks. cbn [live_batches]. rewrite bind_cons, length_app. unfold batch_held at 1.
  cbn [needs_unlock sanitized_txs lock_results]. pose proof (locked_transactions_length txs results). lia.
Qed.
Lemma requests_of_results limit txs results :
  (length txs ≤ length results)%nat → Panic ∉ results →
  Forall2 request_of txs
    (zip_with (λ tx (result : LockResult), check! result in get_account_locks tx limit) txs results).
Proof.
  revert results. induction txs as [|tx txs IH]; intros [|r results] Hl Hp; cbn [length zip_with] in *;
    [constructor|constructor|lia|]. constructor.
  - destruct r as [[]|e|]; cbn [rbind]; [apply get_account_locks_request|by split|set_solver].
  - apply IH; [lia|set_solver].
Qed.
Lemma unlocked s i b :
  lock_invariant s → N.of_nat (length (held_locks s)) ≤ u64_max → live_batches s !! i = Some b →
  represents (bank_unlock_accounts b (lock_table s)).1 (delete i (live_batches s) ≫= batch_held) ∧
  <[i := (bank_unlock_accounts b (lock_table s)).2]> (live_batches s) ≫= batch_held
    ≡ₚ delete i (live_batches s) ≫= batch_held ∧
  (length (delete i (live_batches s) ≫= batch_held) ≤ length (held_locks s))%nat.
Proof.
  unfold lock_invariant, held_locks. intros Hi Hb Hl. rewrite (bind_delete _ _ _ _ Hl) in Hi, Hb |- *.
  destruct (bank_unlock_spec _ _ _ Hi Hb) as [H1 H2].
  rewrite (bind_replace _ _ _ _ _ Hl), H2, length_app. split_and!; [done..|lia].
Qed.

(** every operation returns, and keeps the invariant *)
Lemma run_lock_op_spec {E} limit s op :
  lock_invariant s → op_valid op →
  N.of_nat (length (held_locks s) + op_transactions op) ≤ u64_max →
  ∃ s', run_lock_op (E:=E) limit s op = Ok s' ∧ lock_invariant s' ∧
    (length (held_locks s') ≤ length (held_locks s) + op_transactions op)%nat.
Proof.
  intros Hi Hv Hb. destruct op as [txs|txs results|tx|i|i]; cbn [run_lock_op op_transactions op_valid] in *.
  - unfold prepare_sanitized_batch, lock_accounts.
    destruct (prepared (E:=E) txs ((λ tx, get_account_locks tx limit) <$> txs) s Hi Hb)
      as (l' & rs & -> & Hbn & Hs).
    { apply Forall2_fmap_r, Forall_Forall2_diag, list.Forall_forall. intros. apply get_account_locks_request. }
    cbn [rbind fst snd]. rewrite Hbn. cbn [rbind fst snd]. by eexists.
  - unfold prepare_sanitized_batch_with_results, lock_accounts_with_results. destruct Hv as [Hv Hp].
    destruct (prepared (E:=E) txs _ s Hi Hb (requests_of_results limit txs results Hv Hp))
      as (l' & rs & -> & Hbn & Hs).
    cbn [rbind fst snd]. rewrite Hbn. cbn [rbind fst snd]. by eexists.
  - eexists. split; [done|]. split; [done|]. unfold held_locks. cbn. lia.
  - destruct (live_batches s !! i) as [b|] eqn:Hbi; [|exists s; split_and!; [done..|lia]].
    destruct (unlocked s i b Hi ltac:(lia) Hbi) as (H1 & H2 & H3). eexists. split; [done|].
    unfold lock_invariant, held_locks. cbn [live_batches lock_table]. rewrite !H2. split; [done|]. unfold held_locks in *. lia.
  - destruct (live_batches s !! i) as [b|] eqn:Hbi; [|exists s; split_and!; [done..|lia]].
    destruct (unlocked s i b Hi ltac:(lia) Hbi) as (H1 & _ & H3). eexists. split; [done|]. split; [done|].
    unfold held_locks in *. cbn [live_batches]. lia.
Qed.
Lemma run_lock_ops_spec {E} limit ops : ∀ s,
  lock_invariant s → Forall op_valid ops →
  N.of_nat (length (held_locks s) + sum_list (op_transactions <$> ops)) ≤ u64_max →
  ∃ s', run_lock_ops (E:=E) limit s ops = Ok s' ∧ lock_invariant s' ∧
    (length (held_locks s') ≤ length (held_locks s) + sum_list (op_transactions <$> ops))%nat.
Proof.
  unfold run_lock_ops. induction ops as [|op ops IH]; intros s Hi Hv Hb; cbn [foldl sum_list_with id fmap list_fmap] in *.
  { exists s. split_and!; [done..|lia]. }
  apply list.Forall_cons in Hv as [Hv Hvs]. cbn [rbind].
  destruct (run_lock_op_spec (E:=E) limit s op Hi Hv ltac:(lia)) as (s1 & -> & Hi1 & Hl1).
  destruct (IH s1 Hi1 Hvs ltac:(lia)) as (s' & -> & Hi' & Hl'). exists s'. split_and!; [done..|lia].
Qed.

Lemma two_of_list {A} (l : list A) i j x y :
  i ≠ j → l !! i = Some x → l !! j = Some y → ∃ rest, l ≡ₚ x :: y :: rest.
Proof.
  intros Hne Hi Hj. pose proof Hi as (l1 & l2 & -> & ->)%list_elem_of_split_length.
  assert (y ∈ l1 ++ l2) as [rest Hrest]%elem_of_Permutation.
  { apply elem_of_app. rewrite lookup_app in Hj. destruct (l1 !! j) eqn:H1.
    - injection Hj as <-. left. by eapply list_elem_of_lookup_2.
    - right. apply lookup_ge_None in H1. destruct (j - length l1)%nat eqn:Hn; [lia|]. by eapply list_elem_of_lookup_2. }
  exists rest. rewrite <-Hrest. solve_Permutation.
Qed.
Lemma represents_nil l : represents l [] → l = default_locks.
Proof.
  intros Hr. destruct l as [w r]. unfold default_locks. f_equal.
  - apply set_eq. intros k. rewrite (rep_write _ _ Hr). set_solver.
  - apply map_eq. intros k. by rewrite (rep_read _ _ Hr), lookup_empty.
Qed.

(** C3: whatever batches are prepared, released and dropped, in any order, no operation
    panics; no two transactions that hold their locks conflict, and the table is exactly
    theirs: the written keys, and the number of readers of each key.  Once nothing is
    held the table is empty.  A further transaction is locked exactly if it conflicts
    with none that is held; otherwise it is refused and the table stays as it is. *)
Theorem account_locks_exclusive limit ops :
  Forall op_valid ops → N.of_nat (sum_list (op_transactions <$> ops)) < u64_max →
  ∃ s, run_lock_ops (E:=TransactionError.t) limit no_batches ops = Ok s ∧
    (∀ i j t u, i ≠ j → held_locks s !! i = Some t → held_locks s !! j = Some u → ¬ conflicts t u) ∧
    (∀ k, is_locked_write (lock_table s) k = true ↔ ∃ t, t ∈ held_locks s ∧ k ∈ writable t) ∧
    (∀ k, default 0 (readonly_locks (lock_table s) !! k) = N.of_nat (readers k (held_locks s))) ∧
    (held_locks s = [] → lock_table s = default_locks) ∧
    (∀ tx t, get_account_locks tx limit = Ok t → ∃ l r,
       lock_accounts (E:=TransactionError.t) [tx] limit (lock_table s) = Ok (l, [r]) ∧
       (r = Ok tt ↔ ∀ u, u ∈ held_locks s → ¬ conflicts t u) ∧
       (r ≠ Ok tt → r = Err TransactionError.AccountInUse ∧ l = lock_table s)).
Proof.
  intros Hv Hb. destruct (run_lock_ops_spec (E:=TransactionError.t) limit ops no_batches) as (s & Hs & Hi & Hl);
    [apply represents_empty|done|cbn [held_locks live_batches no_batches]; simpl; lia|].
  change (held_locks no_batches) with (@nil TransactionAccountLocks) in Hl. cbn [length Nat.add] in Hl.
  exists s. split_and!; [done| | | | |].
  - intros i j t u Hne Ht Hu. destruct (two_of_list _ _ _ _ _ Hne Ht Hu) as [rest Hp].
    by apply (rep_compatible _ _ Hi t u rest).
  - intros k. by apply is_locked_write_spec.
  - intros k. rewrite (rep_read _ _ Hi). case_decide as Hz; [by rewrite Hz|done].
  - intros Hn. apply represents_nil. by rewrite <-Hn.
  - intros tx t Ht. destruct (get_account_locks_ok _ _ _ Ht) as [_ Hw].
    unfold lock_accounts. cbn [fmap list_fmap lock_accounts_inner]. rewrite Ht.
    destruct (lock_account_spec (E:=TransactionError.t) _ _ t Hi Hw ltac:(lia)) as [(l & -> & _ & Hc)|[-> Hc]];
      cbn [rbind fst snd]; eexists _, _; (split; [reflexivity|]); split; try done.
    split; [done|]. destruct Hc as (u & Hu & Hf). intros Hall. by destruct (Hall u Hu).
Qed.

(** a batch with a transfer from key 1 to key 2 and one that reads key 2 and writes key 3 *)
Definition lock_tx (keys : list Pubkey) (w : list bool) : SanitizedTransaction :=
  mkSanitizedTransaction
    (LegacyMsg (mkLegacyMessage (mkMessage (mkMessageHeader 1 0 1) keys (mkHash []) []) w)) (mkHash []) false [].
Definition lock_tx1 : SanitizedTransaction := lock_tx [pubkey_of_N 1; pubkey_of_N 2] [true; true].
Definition lock_tx2 : SanitizedTransaction := lock_tx [pubkey_of_N 3; pubkey_of_N 2] [true; false].
Definition lock_tx3 : SanitizedTransaction := lock_tx [pubkey_of_N 4; pubkey_of_N 5] [true; false].
Definition lock_run : list LockOp :=
  [PrepareBatch [lock_tx1; lock_tx2]; PrepareBatchWithResults [lock_tx2; lock_tx3] [Ok tt; Ok tt];
   DropBatch 1; PrepareBatch [lock_tx2]; UnlockBatch 1].
Lemma account_locks_exclusive_witness :
  ∃ s, run_lock_ops (E:=TransactionError.t) MAX_TX_ACCOUNT_LOCKS no_batches lock_run = Ok s ∧
    held_locks s = [mkTransactionAccountLocks [pubkey_of_N 2] [pubkey_of_N 3]] ∧
    is_locked_write (lock_table s) (pubkey_of_N 3) = true.
Proof.
  destruct (account_locks_exclusive MAX_TX_ACCOUNT_LOCKS lock_run) as (s & Hs & _ & Hw & _).
  - repeat constructor. set_solver.
  - done.
  - exists s. split; [exact Hs|]. assert (Hh : held_locks s = [mkTransactionAccountLocks [pubkey_of_N 2] [pubkey_of_N 3]]).
    { revert Hs. vm_compute. by intros [= <-]. }
    split; [exact Hh|]. apply Hw. rewrite Hh. eexists. split; apply list_elem_of_here.
Defined.
