(* ===== verification/BlockhashQueue.v ===== *)
(** * Recent block hashes ([accounts-db/src/blockhash_queue.rs])

    The queue a bank checks the age of a transaction against.  Indices are 64-bit;
    the release build wraps around. *)

From S2P Require Import Prelude Sdk.

#[export] Instance Hash_countable : Countable Hash.
Proof.
  refine (inj_countable' hash_bytes mkHash _). by intros [].
Defined.

(** [sdk/program/src/clock.rs] *)
Definition MAX_HASH_AGE_IN_SECONDS : N := 120.
Definition DEFAULT_TICKS_PER_SECOND : N := 160.
Definition DEFAULT_TICKS_PER_SLOT : N := 64.
Definition MAX_RECENT_BLOCKHASHES : N :=
  MAX_HASH_AGE_IN_SECONDS * DEFAULT_TICKS_PER_SECOND / DEFAULT_TICKS_PER_SLOT.
Definition MAX_PROCESSING_AGE : N := MAX_RECENT_BLOCKHASHES / 2.

(** the fee calculator holds one number, the lamports per signature *)
Record HashAge := mkHashAge {
  age_lamports_per_signature : N; hash_index : N; age_timestamp : N }.
Record BlockhashQueue := mkBlockhashQueue {
  last_hash_index : N;
  last_hash_opt : option Hash;
  ages : gmap Hash HashAge;
  max_age : N }.

Definition queue_new (max_age : N) : BlockhashQueue := mkBlockhashQueue 0 None ∅ max_age.
Definition queue_default : BlockhashQueue := queue_new MAX_RECENT_BLOCKHASHES.

(** [expect("no hash has been set")] *)
Definition last_hash {E} (q : BlockhashQueue) : result E Hash := unwrap (last_hash_opt q).
Definition get_lamports_per_signature (q : BlockhashQueue) (hash : Hash) : option N :=
  age_lamports_per_signature <$> ages q !! hash.
Definition is_hash_valid (q : BlockhashQueue) (hash : Hash) : bool :=
  bool_decide (is_Some (ages q !! hash)).
Definition is_hash_index_valid (last_hash_index max_age hash_index : N) : bool :=
  wrapping_sub last_hash_index hash_index <=? max_age.
Definition is_hash_valid_for_age (q : BlockhashQueue) (hash : Hash) (max_age : N) : bool :=
  match ages q !! hash with
  | Some age => is_hash_index_valid (last_hash_index q) max_age (hash_index age)
  | None => false
  end.
Definition get_hash_age (q : BlockhashQueue) (hash : Hash) : option N :=
  (λ age, wrapping_sub (last_hash_index q) (hash_index age)) <$> ages q !! hash.
Definition genesis_hash (hash : Hash) (lamports_per_signature timestamp : N) (q : BlockhashQueue) :
  BlockhashQueue :=
  mkBlockhashQueue (last_hash_index q) (Some hash)
    (<[hash := mkHashAge lamports_per_signature 0 timestamp]> (ages q)) (max_age q).
Definition register_hash (hash : Hash) (lamports_per_signature timestamp : N) (q : BlockhashQueue) :
  BlockhashQueue :=
  let index := wrapping_add (last_hash_index q) 1 in
  let kept := if max_age q <=? N.of_nat (size (ages q))
              then filter (λ x, is_hash_index_valid index (max_age q) (hash_index x.2) = true) (ages q)
              else ages q in
  mkBlockhashQueue index (Some hash)
    (<[hash := mkHashAge lamports_per_signature index timestamp]> kept) (max_age q).

(** ** The queue and what was registered *)

(** a registration; the first of a chain is the genesis hash *)
Record Registration := mkRegistration { reg_hash : Hash; reg_fee : N; reg_time : N }.
(** newest first *)
Fixpoint queue_of (max_age : N) (genesis : Registration) (regs : list Registration) : BlockhashQueue :=
  match regs with
  | [] => genesis_hash (reg_hash genesis) (reg_fee genesis) (reg_time genesis) (queue_new max_age)
  | r :: regs' => register_hash (reg_hash r) (reg_fee r) (reg_time r) (queue_of max_age genesis regs')
  end.

(** the newest entry for a hash and how many came after it *)
Fixpoint newest (h : Hash) (l : list Registration) : option (nat * Registration) :=
  match l with
  | [] => None
  | r :: l' => if decide (reg_hash r = h) then Some (0%nat, r)
               else (λ x, (S x.1, x.2)) <$> newest h l'
  end.

(** an entry of the queue: the newest registration of the hash; gone only if too old *)
Definition age_entry (n : nat) (x : nat * Registration) : HashAge :=
  mkHashAge (reg_fee x.2) (N.of_nat n - N.of_nat x.1) (reg_time x.2).
Record queue_ok (l : list Registration) (q : BlockhashQueue) : Prop := {
  qk_index : last_hash_index q = N.of_nat (length l - 1);
  qk_last : last_hash_opt q = reg_hash <$> head l;
  qk_sound : ∀ h a, ages q !! h = Some a →
    ∃ x, newest h l = Some x ∧ a = age_entry (length l - 1) x;
  qk_complete : ∀ h x, newest h l = Some x → N.of_nat x.1 ≤ max_age q →
    ages q !! h = Some (age_entry (length l - 1) x) }.

Lemma newest_lt h l x : newest h l = Some x → (x.1 < length l)%nat.
Proof.
  revert x. induction l as [|r l IH]; intros x; simpl; [done|]. case_decide; [intros [= <-]; simpl; lia|].
  intros (y & Hy & ->)%fmap_Some. apply IH in Hy. simpl. lia.
Qed.
Lemma wrapping_sub_index n i :
  N.of_nat n ≤ u64_max → (i ≤ n)%nat → wrapping_sub (N.of_nat n) (N.of_nat n - N.of_nat i) = N.of_nat i.
Proof.
  intros Hn Hi. unfold wrapping_sub, as_u64, u64_max in *.
  rewrite (N.mod_small (N.of_nat n - N.of_nat i)) by lia.
  replace (N.of_nat n + (18446744073709551616 - (N.of_nat n - N.of_nat i)))
    with (N.of_nat i + 1 * 18446744073709551616) by lia.
  rewrite N.Div0.mod_add. apply N.mod_small. lia.
Qed.
Lemma index_valid_eq n i m :
  N.of_nat n ≤ u64_max → (i ≤ n)%nat →
  is_hash_index_valid (N.of_nat n) m (N.of_nat n - N.of_nat i) = (N.of_nat i <=? m).
Proof. intros Hn Hi. unfold is_hash_index_valid. by rewrite wrapping_sub_index. Qed.
Lemma queue_ok_genesis m g : queue_ok [g] (queue_of m g []).
Proof.
  split; cbn [queue_of genesis_hash last_hash_index last_hash_opt ages queue_new]; [done|done| |].
  - intros h a. rewrite lookup_insert_Some, lookup_empty. intros [[<- <-]|[_ ?]]; [|done].
    simpl. rewrite decide_True by done. by eexists.
  - intros h x. simpl. case_decide as Hh; [|done]. intros [= <-] _. subst h. by rewrite lookup_insert_eq.
Qed.
Lemma queue_ok_register l q r :
  queue_ok l q → l ≠ [] → N.of_nat (length l) ≤ u64_max →
  queue_ok (r :: l) (register_hash (reg_hash r) (reg_fee r) (reg_time r) q).
Proof.
  intros Hq Hne Hb. assert (length l ≠ 0%nat) as Hl by (by destruct l).
  assert (wrapping_add (last_hash_index q) 1 = N.of_nat (length l)) as Hi.
  { rewrite (qk_index _ _ Hq). unfold wrapping_add, as_u64, u64_max in *. rewrite N.mod_small by lia. lia. }
  assert (Hage : ∀ x, (x.1 < length l)%nat → age_entry (length l - 1) x = age_entry (length l) (S x.1, x.2)).
  { intros [i x] Hx. unfold age_entry. simpl in *. f_equal. lia. }
  split; unfold register_hash; cbn [last_hash_index last_hash_opt ages max_age length newest]; rewrite ?Hi.
  - f_equal. lia.
  - done.
  - intros h a. replace (S (length l) - 1)%nat with (length l) by lia.
    rewrite lookup_insert_Some. intros [[<- <-]|[Hn Ha]].
    + rewrite decide_True by done. eexists. split; [done|]. unfold age_entry. simpl. f_equal. lia.
    + rewrite decide_False by done. assert (ages q !! h = Some a) as Hs.
      { by destruct (_ <=? _); [apply map_lookup_filter_Some in Ha as [? _]|]. }
      destruct (qk_sound _ _ Hq h a Hs) as (x & Hx & ->). rewrite Hx. simpl. eexists. split; [done|].
      apply Hage. by apply newest_lt in Hx.
  - intros h x. replace (S (length l) - 1)%nat with (length l) by lia. case_decide as Hh.
    + intros [= <-] _. subst h. rewrite lookup_insert_eq. unfold age_entry. simpl. do 2 f_equal. lia.
    + intros (y & Hy & ->)%fmap_Some Hle. cbn [fst] in Hle. pose proof (newest_lt _ _ _ Hy) as Hlt.
      rewrite lookup_insert_ne by done. pose proof (qk_complete _ _ Hq h y Hy ltac:(lia)) as Hs.
      rewrite <-Hage by done. destruct (_ <=? _); [|done]. apply map_lookup_filter_Some. split; [done|].
      rewrite Hage by done. unfold age_entry. cbn [snd fst hash_index].
      rewrite index_valid_eq by lia. apply N.leb_le. lia.
Qed.
Lemma queue_of_ok m g regs :
  N.of_nat (length regs) < u64_max → queue_ok (regs ++ [g]) (queue_of m g regs).
Proof.
  induction regs as [|r regs IH]; intros Hb; [apply queue_ok_genesis|]. cbn [length app queue_of] in *.
  apply queue_ok_register; [apply IH; lia|by destruct regs|]. rewrite length_app. simpl. lia.
Qed.
Lemma queue_of_max m g regs : max_age (queue_of m g regs) = m.
Proof. by induction regs. Qed.

Lemma newest_take h n l : (∃ x, newest h l = Some x ∧ (x.1 ≤ n)%nat) ↔ h ∈ reg_hash <$> take (S n) l.
Proof.
  revert n. induction l as [|r l IH]; intros n; cbn [newest take fmap list_fmap].
  { split; [by intros (? & ? & _)|set_solver]. }
  rewrite elem_of_cons. case_decide as Hh.
  - split; [by left|]. intros _. eexists. split; [done|]. simpl. lia.
  - destruct n as [|n].
    + split; [|set_solver]. intros (x & (y & _ & ->)%fmap_Some & Hx). simpl in Hx. lia.
    + rewrite <-IH. split.
      * intros (x & (y & Hy & ->)%fmap_Some & Hx). right. exists y. simpl in Hx. split; [done|lia].
      * intros [->|(y & Hy & Hx)]; [done|]. rewrite Hy. eexists. split; [done|]. simpl. lia.
Qed.
(** an age up to the queue's own is judged by the registrations, repeated hashes included *)
Lemma valid_for_age_eq l q h a :
  queue_ok l q → N.of_nat (length l) ≤ u64_max → a ≤ max_age q →
  is_hash_valid_for_age q h a = bool_decide (h ∈ reg_hash <$> take (S (N.to_nat a)) l).
Proof.
  intros Hq Hb Ha. apply eq_bool_prop_intro. rewrite bool_decide_spec, <-newest_take.
  unfold is_hash_valid_for_age. rewrite (qk_index _ _ Hq). split.
  - destruct (ages q !! h) as [e|] eqn:He; [|done]. destruct (qk_sound _ _ Hq h e He) as (x & Hx & ->).
    unfold age_entry. cbn [hash_index]. pose proof (newest_lt _ _ _ Hx). rewrite index_valid_eq by lia.
    intros Hv%Is_true_true%N.leb_le. exists x. split; [done|lia].
  - intros (x & Hx & Hle). pose proof (newest_lt _ _ _ Hx).
    rewrite (qk_complete _ _ Hq h x Hx) by lia. unfold age_entry. cbn [hash_index].
    rewrite index_valid_eq by lia. apply Is_true_true, N.leb_le. lia.
Qed.

(** After a genesis hash and any registrations, also of hashes seen before, a hash
    is valid for an age up to the queue's own exactly if it is among the genesis hash and
    the registrations of that age; it then has the fee and the age of its newest
    registration, and the last hash is the newest. *)
Theorem blockhash_window m g regs h a :
  N.of_nat (length regs) < u64_max → a ≤ m →
  let q := queue_of m g regs in
  is_hash_valid_for_age q h a = bool_decide (h ∈ reg_hash <$> take (S (N.to_nat a)) (regs ++ [g])) ∧
  last_hash (E:=unit) q = Ok (reg_hash (hd g regs)) ∧
  (is_hash_valid_for_age q h a = true → ∃ k r, newest h (regs ++ [g]) = Some (k, r) ∧
     get_lamports_per_signature q h = Some (reg_fee r) ∧ get_hash_age q h = Some (N.of_nat k)).
Proof.
  intros Hb Ha. pose proof (queue_of_ok m g regs Hb) as Hq. cbv zeta.
  assert (Hv : is_hash_valid_for_age (queue_of m g regs) h a =
               bool_decide (h ∈ reg_hash <$> take (S (N.to_nat a)) (regs ++ [g]))).
  { apply valid_for_age_eq; [done|rewrite length_app; simpl; lia|by rewrite queue_of_max]. }
  split_and!; [done| |].
  - unfold last_hash. rewrite (qk_last _ _ Hq). by destruct regs.
  - rewrite Hv. intros Hin%bool_decide_eq_true. apply newest_take in Hin as ([k r] & Hn & Hk).
    exists k, r. split; [done|]. unfold get_lamports_per_signature, get_hash_age.
    pose proof (newest_lt _ _ _ Hn) as Hlt. cbn [fst] in *. rewrite length_app in Hlt. cbn [length] in Hlt.
    rewrite (qk_complete _ _ Hq h _ Hn) by (rewrite queue_of_max; simpl; lia). split; [done|].
    unfold age_entry. cbn [fmap option_fmap option_map hash_index fst]. rewrite (qk_index _ _ Hq).
    rewrite wrapping_sub_index; [done|..]; rewrite length_app; simpl; lia.
Qed.
Definition sample_reg (n : N) : Registration := mkRegistration (mkHash [n]) (5000 + n) (100 * n).
Lemma blockhash_window_witness :
  let q := queue_of 2 (sample_reg 0) (sample_reg <$> [4; 1; 3; 2; 1]) in
  is_hash_valid_for_age q (mkHash [1]) 1 = true ∧ is_hash_valid_for_age q (mkHash [2]) 2 = false.
Proof.
  split.
  - rewrite (proj1 (blockhash_window 2 (sample_reg 0) (sample_reg <$> [4; 1; 3; 2; 1]) (mkHash [1]) 1
      ltac:(done) ltac:(done))). vm_compute. reflexivity.
  - rewrite (proj1 (blockhash_window 2 (sample_reg 0) (sample_reg <$> [4; 1; 3; 2; 1]) (mkHash [2]) 2
      ltac:(done) ltac:(done))). vm_compute. reflexivity.
Defined.
