(* ===== verification/StatusCache.v ===== *)
(** * The status cache ([runtime/src/status_cache.rs])

    The statuses of processed transactions, by block hash, by twenty bytes of their
    message hash or signature, and by slot.  Where the twenty bytes start is drawn at
    random when a block hash is first used: the number drawn is an argument of the
    operations that may draw. *)

From S2P Require Import Prelude Sdk BlockhashQueue.

Definition MAX_CACHE_ENTRIES : N := MAX_RECENT_BLOCKHASHES.
Definition CACHED_KEY_SIZE : N := 20.

Section cache.
Context {T : Type}.

(** the key slices seen under a block hash, each with the slots and their statuses *)
Record CacheEntry := mkCacheEntry { ce_slot : N; ce_key_index : N; ce_keys : gmap (list N) (list (N * T)) }.
(** the deltas of a slot: by block hash, the key index and the keys in order *)
Record StatusCache := mkStatusCache {
  cache : gmap Hash CacheEntry;
  roots : gset N;
  slot_deltas : gmap N (gmap Hash (N * list (list N * T))) }.
Definition cache_default : StatusCache := mkStatusCache ∅ {[0]} ∅.
Definition set_cache (c : gmap Hash CacheEntry) (sc : StatusCache) : StatusCache :=
  mkStatusCache c (roots sc) (slot_deltas sc).

(** [key[index..index + 20]] *)
Definition key_slice {E} (key : list N) (index : N) : result E (list N) :=
  if len key <? index + CACHED_KEY_SIZE then Panic
  else Ok (take (N.to_nat CACHED_KEY_SIZE) (drop (N.to_nat index) key)).
Definition max_key_index (key : list N) : N := saturating_sub (len key) (CACHED_KEY_SIZE + 1).

Definition insert_with_slice (transaction_blockhash : Hash) (slot key_index : N) (key_slice : list N)
    (res : T) (sc : StatusCache) : StatusCache :=
  let e := default (mkCacheEntry slot key_index ∅) (cache sc !! transaction_blockhash) in
  let forks := default [] (ce_keys e !! key_slice) in
  let e := mkCacheEntry (N.max slot (ce_slot e)) (ce_key_index e)
             (<[key_slice := forks ++ [(slot, res)]]> (ce_keys e)) in
  let fork_entry := default ∅ (slot_deltas sc !! slot) in
  let hash_entry := default (key_index, []) (fork_entry !! transaction_blockhash) in
  mkStatusCache (<[transaction_blockhash := e]> (cache sc)) (roots sc)
    (<[slot := <[transaction_blockhash := (hash_entry.1, hash_entry.2 ++ [(key_slice, res)])]> fork_entry]>
       (slot_deltas sc)).
(** [random] stands for the draw of [gen_range(0..max_key_index + 1)] *)
Definition sc_insert_key {E} (random : N) (transaction_blockhash : Hash) (key : list N) (slot : N) (res : T)
    (sc : StatusCache) : result E StatusCache :=
  let max_key_index := max_key_index key in
  let hash_map := default (mkCacheEntry slot (random `mod` (max_key_index + 1)) ∅)
                    (cache sc !! transaction_blockhash) in
  let hash_map := mkCacheEntry (N.max slot (ce_slot hash_map)) (ce_key_index hash_map) (ce_keys hash_map) in
  let key_index := N.min (ce_key_index hash_map) max_key_index in
  let sc := set_cache (<[transaction_blockhash := hash_map]> (cache sc)) sc in
  let! slice := key_slice key key_index in
  Ok (insert_with_slice transaction_blockhash slot key_index slice res sc).

Definition get_status {E} (key : list N) (transaction_blockhash : Hash) (ancestors : gset N)
    (sc : StatusCache) : result E (option (N * T)) :=
  match cache sc !! transaction_blockhash with
  | None => Ok None
  | Some e =>
      let index := N.min (ce_key_index e) (max_key_index key) in
      let! slice := key_slice key index in
      match ce_keys e !! slice with
      | None => Ok None
      | Some stored_forks =>
          Ok (snd <$> list_find (λ x, x.1 ∈ ancestors ∨ x.1 ∈ roots sc) stored_forks)
      end
  end.
(** the order of the block hashes is the map's *)
Fixpoint find_status {E} (key : list N) (hashes : list Hash) (ancestors : gset N) (sc : StatusCache) :
  result E (option (N * T)) :=
  match hashes with
  | [] => Ok None
  | h :: hashes' =>
      let! status := get_status key h ancestors sc in
      match status with Some x => Ok (Some x) | None => find_status key hashes' ancestors sc end
  end.
Definition get_status_any_blockhash {E} (key : list N) (ancestors : gset N) (sc : StatusCache) :
  result E (option (N * T)) :=
  find_status key (map_to_list (cache sc)).*1 ancestors sc.

(** the least element *)
Definition set_min (s : gset N) : option N :=
  foldr (λ x m, Some (match m with Some y => N.min x y | None => x end)) None (elements s).
Definition purge_roots (sc : StatusCache) : StatusCache :=
  if MAX_CACHE_ENTRIES <? N.of_nat (size (roots sc)) then
    match set_min (roots sc) with
    | None => sc
    | Some min =>
        mkStatusCache (filter (λ x, min < ce_slot x.2) (cache sc)) (roots sc ∖ {[min]})
          (filter (λ x, min < x.1) (slot_deltas sc))
    end
  else sc.
Definition add_root (fork : N) (sc : StatusCache) : StatusCache :=
  purge_roots (mkStatusCache (cache sc) ({[fork]} ∪ roots sc) (slot_deltas sc)).

(** [clear_slot_entries]: both [panic!]s are there *)
Fixpoint clear_keys {E : Type} (slot : N) (keys : list (list N * T)) (m : gmap (list N) (list (N * T))) :
  result E (gmap (list N) (list (N * T))) :=
  match keys with
  | [] => Ok m
  | (slice, _) :: keys' =>
      match m !! slice with
      | None => Panic
      | Some forks =>
          let forks := filter (λ x, x.1 ≠ slot) forks in
          clear_keys slot keys' (match forks with [] => delete slice m | _ => <[slice := forks]> m end)
      end
  end.
Fixpoint clear_hashes {E} (slot : N) (deltas : list (Hash * (N * list (list N * T))))
    (c : gmap Hash CacheEntry) : result E (gmap Hash CacheEntry) :=
  match deltas with
  | [] => Ok c
  | (blockhash, (_, key_list)) :: deltas' =>
      match c !! blockhash with
      | None => Panic
      | Some e =>
          let! m := clear_keys slot key_list (ce_keys e) in
          clear_hashes slot deltas'
            (if decide (m = ∅) then delete blockhash c
             else <[blockhash := mkCacheEntry (ce_slot e) (ce_key_index e) m]> c)
      end
  end.
Definition clear_slot_entries {E} (slot : N) (sc : StatusCache) : result E StatusCache :=
  match slot_deltas sc !! slot with
  | None => Ok sc
  | Some deltas =>
      let! c := clear_hashes slot (map_to_list deltas) (cache sc) in
      Ok (mkStatusCache c (roots sc) (delete slot (slot_deltas sc)))
  end.

(** [clear]: the keys go, the block hashes and the slots stay *)
Definition sc_clear (sc : StatusCache) : StatusCache :=
  mkStatusCache ((λ e, mkCacheEntry (ce_slot e) (ce_key_index e) ∅) <$> cache sc) (roots sc)
    ((λ _, ∅) <$> slot_deltas sc).

(** [root_slot_deltas], [append] and [from_slot_deltas]: to a snapshot and back *)
Definition SlotDelta : Type := N * bool * gmap Hash (N * list (list N * T)).
Definition root_slot_deltas (sc : StatusCache) : list SlotDelta :=
  (λ root, (root, true, default ∅ (slot_deltas sc !! root))) <$> elements (roots sc).
Definition append_status (slot : N) (sc : StatusCache) (x : Hash * (N * list (list N * T))) : StatusCache :=
  foldl (λ sc y, insert_with_slice x.1 slot x.2.1 y.1 y.2 sc) sc x.2.2.
Definition append_delta (sc : StatusCache) (d : SlotDelta) : StatusCache :=
  let '(slot, is_root, statuses) := d in
  let sc := foldl (append_status slot) sc (map_to_list statuses) in
  if is_root then add_root slot sc else sc.
Definition append (slot_deltas : list SlotDelta) (sc : StatusCache) : StatusCache :=
  foldl append_delta sc slot_deltas.
Definition from_slot_deltas (slot_deltas : list SlotDelta) : StatusCache :=
  append slot_deltas cache_default.
End cache.
Arguments StatusCache : clear implicits.
Arguments CacheEntry : clear implicits.

(** ** What the cache remembers *)
Section rules.
Context {T : Type}.
Implicit Types sc : StatusCache T.

(** a status of [key] under [b] in [slot] *)
Definition recorded sc (b : Hash) (key : list N) (slot : N) : Prop :=
  ∃ e slice forks res, cache sc !! b = Some e ∧
    key_slice (E:=unit) key (N.min (ce_key_index e) (max_key_index key)) = Ok slice ∧
    ce_keys e !! slice = Some forks ∧ (slot, res) ∈ forks ∧ slot ≤ ce_slot e.

Lemma key_slice_any {E} key i slice :
  key_slice (E:=unit) key i = Ok slice → key_slice (E:=E) key i = Ok slice.
Proof. unfold key_slice. destruct (_ <? _); [done|]. by intros [= ->]. Qed.
Lemma key_slice_total {E} key i :
  CACHED_KEY_SIZE ≤ len key → ∃ slice, key_slice (E:=E) key (N.min i (max_key_index key)) = Ok slice.
Proof.
  intros Hl. unfold key_slice, max_key_index, saturating_sub, CACHED_KEY_SIZE in *.
  rewrite (proj2 (N.ltb_ge _ _)); [eauto|]. lia.
Qed.

Lemma get_status_recorded {E} sc b key slot ancestors :
  recorded sc b key slot → slot ∈ ancestors ∨ slot ∈ roots sc →
  ∃ x, get_status (E:=E) key b ancestors sc = Ok (Some x).
Proof.
  intros (e & slice & forks & res & He & Hs & Hf & Hin & _) Hslot. unfold get_status. rewrite He.
  rewrite (key_slice_any _ _ _ Hs). cbn [rbind]. rewrite Hf.
  destruct (list_find_elem_of (λ x : N * T, x.1 ∈ ancestors ∨ x.1 ∈ roots sc) forks (slot, res) Hin Hslot) as [y ->].
  by eexists.
Qed.
(** only statuses of the fork are found *)
Lemma get_status_on_fork {E} sc b key ancestors slot res :
  get_status (E:=E) key b ancestors sc = Ok (Some (slot, res)) → slot ∈ ancestors ∨ slot ∈ roots sc.
Proof.
  unfold get_status. destruct (cache sc !! b) as [e|]; [|done].
  destruct (key_slice _ _) as [slice| |]; cbn [rbind]; [|done..]. destruct (ce_keys e !! slice) as [l|]; [|done].
  intros [= Hf]. apply fmap_Some in Hf as ([i x] & (_ & Hp & _)%list_find_Some & Hx). cbn [snd] in Hx. by subst x.
Qed.
Lemma get_status_total {E} sc b key ancestors :
  CACHED_KEY_SIZE ≤ len key → ∃ r, get_status (E:=E) key b ancestors sc = Ok r.
Proof.
  intros Hl. unfold get_status. destruct (cache sc !! b) as [e|]; [|eauto].
  destruct (key_slice_total (E:=E) key (ce_key_index e) Hl) as [slice ->]. cbn [rbind].
  destruct (ce_keys e !! slice); eauto.
Qed.

Lemma insert_key_spec {E} random b key slot res sc :
  CACHED_KEY_SIZE ≤ len key →
  ∃ sc', sc_insert_key (E:=E) random b key slot res sc = Ok sc' ∧ roots sc' = roots sc ∧
    recorded sc' b key slot ∧ ∀ b0 key0 slot0, recorded sc b0 key0 slot0 → recorded sc' b0 key0 slot0.
Proof.
  intros Hl. unfold sc_insert_key.
  set (e := default (mkCacheEntry slot (random `mod` (max_key_index key + 1)) ∅) (cache sc !! b)).
  cbn [ce_key_index ce_slot ce_keys].
  destruct (key_slice_total (E:=unit) key (ce_key_index e) Hl) as [slice Hs].
  rewrite (key_slice_any _ _ _ Hs). cbn [rbind].
  eexists. split; [reflexivity|]. unfold insert_with_slice. cbn [cache set_cache]. rewrite lookup_insert_eq.
  cbn [from_option id ce_slot ce_key_index ce_keys]. split; [done|]. split.
  - eexists _, slice, _, res. cbn [cache]. rewrite lookup_insert_eq. split; [reflexivity|].
    cbn [ce_slot ce_key_index ce_keys]. split; [done|]. rewrite lookup_insert_eq. split; [reflexivity|].
    split; [set_solver|lia].
  - intros b0 key0 slot0 (e0 & slice0 & forks & res0 & He & Hs0 & Hf & Hin & Hle). unfold recorded. cbn [cache].
    destruct (decide (b0 = b)) as [->|Hne].
    + assert (e = e0) as -> by (unfold e; by rewrite He). rewrite lookup_insert_eq.
      destruct (decide (slice0 = slice)) as [->|Hns].
      * eexists _, slice, _, res0. split; [reflexivity|]. cbn [ce_slot ce_key_index ce_keys].
        split; [done|]. rewrite lookup_insert_eq, Hf. split; [reflexivity|]. cbn [from_option id].
        split; [set_solver|lia].
      * eexists _, slice0, forks, res0. split; [reflexivity|]. cbn [ce_slot ce_key_index ce_keys].
        split; [done|]. rewrite lookup_insert_ne by done. split; [done|]. split; [done|lia].
    + rewrite lookup_insert_ne, lookup_insert_ne by done. eexists e0, slice0, forks, res0. done.
Qed.

Lemma set_min_None s : set_min s = None → s = ∅.
Proof. unfold set_min. destruct (elements s) eqn:He; [|done]. intros _. by apply elements_empty_inv, leibniz_equiv in He. Qed.
Lemma set_min_spec s m : set_min s = Some m → m ∈ s ∧ ∀ x, x ∈ s → m ≤ x.
Proof.
  unfold set_min. setoid_rewrite <-elem_of_elements. generalize (elements s). intros l. clear s. revert m.
  induction l as [|x l IH]; intros m; simpl; [done|].
  destruct (foldr _ None l) as [y|] eqn:Hf; intros [= <-].
  - destruct (IH y eq_refl) as [Hy Hm]. split.
    + destruct (N.min_spec x y) as [[_ ->]|[_ ->]]; set_solver.
    + intros z [->|Hz]%elem_of_cons; [lia|]. specialize (Hm z Hz). lia.
  - destruct l; [|done]. split; [set_solver|]. intros z Hz. apply list_elem_of_singleton in Hz as ->. done.
Qed.

Lemma list_to_set_size (l : list N) : (size (list_to_set l : gset N) ≤ length l)%nat.
Proof.
  induction l as [|x l IH]; [by rewrite list_to_set_nil, size_empty|].
  rewrite list_to_set_cons, size_union_alt, size_singleton. cbn [length].
  assert (size (list_to_set l ∖ {[x]} : gset N) ≤ size (list_to_set l : gset N))%nat
    by (apply subseteq_size; set_solver). lia.
Qed.
(** more than [MAX_CACHE_ENTRIES] roots: the least is below a slot with few roots above it *)
Lemma min_below s m slot above :
  set_min s = Some m → MAX_CACHE_ENTRIES < N.of_nat (size s) →
  (∀ x, x ∈ s → slot < x → x ∈ above) → N.of_nat (length above) + 1 ≤ MAX_CACHE_ENTRIES → m < slot.
Proof.
  intros [_ Hm]%set_min_spec Hs Ha Hl. apply N.nle_gt. intros Hle.
  assert (s ⊆ {[slot]} ∪ list_to_set above) as Hsub.
  { intros x Hx. specialize (Hm x Hx). destruct (decide (x = slot)) as [->|Hne]; [set_solver|].
    assert (slot < x) by lia. specialize (Ha x Hx ltac:(done)). set_solver. }
  apply subseteq_size in Hsub. pose proof (list_to_set_size (slot :: above)) as Hc.
  rewrite list_to_set_cons in Hc. cbn [length] in Hc. lia.
Qed.
Lemma add_root_stays sc fork slot above :
  (∀ x, x ∈ {[fork]} ∪ roots sc → slot < x → x ∈ above) →
  N.of_nat (length above) + 1 ≤ MAX_CACHE_ENTRIES →
  slot ∈ {[fork]} ∪ roots sc → slot ∈ roots (add_root fork sc).
Proof.
  intros Ha Hl Hin. unfold add_root, purge_roots. cbn [roots cache slot_deltas].
  destruct (N.ltb_spec MAX_CACHE_ENTRIES (N.of_nat (size ({[fork]} ∪ roots sc)))) as [Hlt|]; [|done].
  destruct (set_min _) as [m|] eqn:Hm; [|done].
  pose proof (min_below _ _ slot above Hm Hlt Ha Hl) as Hms. cbn [roots].
  apply elem_of_difference. split; [done|]. apply not_elem_of_singleton. lia.
Qed.
Lemma add_root_keeps sc fork b key slot above :
  recorded sc b key slot → (∀ x, x ∈ {[fork]} ∪ roots sc → slot < x → x ∈ above) →
  N.of_nat (length above) + 1 ≤ MAX_CACHE_ENTRIES →
  recorded (add_root fork sc) b key slot.
Proof.
  intros Hr Ha Hl. unfold add_root, purge_roots. cbn [roots cache slot_deltas].
  destruct (N.ltb_spec MAX_CACHE_ENTRIES (N.of_nat (size ({[fork]} ∪ roots sc)))) as [Hlt|]; [|done].
  destruct (set_min _) as [m|] eqn:Hm; [|done].
  pose proof (min_below _ _ slot above Hm Hlt Ha Hl) as Hms.
  destruct Hr as (e & slice & forks & res & He & Hs & Hf & Hin & Hle). exists e, slice, forks, res.
  split_and!; [|done..]. cbn [cache]. apply map_lookup_filter_Some. split; [done|]. simpl. lia.
Qed.
Lemma add_root_subset sc fork : roots (add_root fork sc) ⊆ {[fork]} ∪ roots sc.
Proof.
  unfold add_root, purge_roots. cbn [roots]. destruct (_ <? _); [|done].
  destruct (set_min _); cbn [roots]; [|done]. set_solver.
Qed.
End rules.
