(* ===== verification/Admission.v ===== *)
(** * Admission of transactions

    What the bank checks before it loads a transaction ([runtime/src/bank.rs]:
    [check_transactions], with the nonce checks of [sdk/src/nonce_account.rs] and
    [sdk/program/src/message/sanitized.rs]), what it remembers afterwards
    ([update_transaction_statuses]), and how block hashes, ancestors and roots move as
    a fork grows ([register_recent_blockhash], [new_from_parent], [squash]). *)

From S2P Require Import Prelude Sdk Message MessageRules Account LogCollector InvokeContext.
From S2P Require Import MessageProcessor Nonce SystemProgram RemoteLoader AccountsCache.
From S2P Require Import MigraterProgram Bank BlockhashQueue StatusCache.

(** ** Nonces of transactions *)
Section admission.
Context `{!Sha256, !Bincode Versions, !Bincode SystemInstruction}.

Definition NONCED_TX_MARKER_IX_INDEX : N := 0.
Definition get_durable_nonce (m : SanitizedMessage) : option Pubkey :=
  match getN (sm_instructions m) NONCED_TX_MARKER_IX_INDEX with
  | None => None
  | Some ix =>
      if negb (match account_keys_get (sm_account_keys m) (program_id_index ix) with
               | Some program_id => key_eqb program_id system_program_id
               | None => false
               end) then None else
      match program_limited_deserialize (ci_data ix) 4 with
      | Ok AdvanceNonceAccount =>
          match ci_accounts ix with
          | [] => None
          | idx :: _ => if negb (sm_is_writable m idx) then None
                        else account_keys_get (sm_account_keys m) idx
          end
      | _ => None
      end
  end.
Definition verify_nonce_account (account : AccountSharedData) (recent_blockhash : Hash) :
  option NonceData :=
  if negb (key_eqb (owner account) system_program_id) then None else
  v ← deserialize (data account); verify_recent_blockhash v recent_blockhash.
Definition lamports_per_signature_of (account : AccountSharedData) : option N :=
  v ← deserialize (data account);
  match versions_state v with
  | Initialized d => Some (nonce_lamports_per_signature d)
  | Uninitialized => None
  end.

(** ** The checks of the bank; [accounts] is what [get_account_with_fixed_root] reads *)
Definition TransactionCheckResult : Type :=
  result TransactionError.t unit * option (Pubkey * AccountSharedData).

Definition check_message_for_nonce (accounts : Pubkey → option AccountSharedData)
    (message : SanitizedMessage) : option (Pubkey * AccountSharedData) :=
  nonce_address ← get_durable_nonce message;
  nonce_account ← accounts nonce_address;
  nonce_data ← verify_nonce_account nonce_account (msg_recent_blockhash (sm_base message));
  if negb (bool_decide (nonce_authority nonce_data ∈ get_ix_signers message NONCED_TX_MARKER_IX_INDEX))
  then None else Some (nonce_address, nonce_account).
Definition check_transaction_for_nonce (accounts : Pubkey → option AccountSharedData)
    (tx : SanitizedTransaction) (next_durable_nonce : Hash) : option (Pubkey * AccountSharedData) :=
  let nonce_is_advanceable :=
    negb (bool_decide (msg_recent_blockhash (sm_base (tx_message tx)) = next_durable_nonce)) in
  if nonce_is_advanceable then check_message_for_nonce accounts (tx_message tx) else None.
Definition check_transaction_age (accounts : Pubkey → option AccountSharedData)
    (tx : SanitizedTransaction) (max_age : N) (next_durable_nonce : Hash) (hash_queue : BlockhashQueue) :
  TransactionCheckResult :=
  if is_hash_valid_for_age hash_queue (msg_recent_blockhash (sm_base (tx_message tx))) max_age
  then (Ok tt, None) else
  match check_transaction_for_nonce accounts tx next_durable_nonce with
  | Some nonce => (Ok tt, Some nonce)
  | None => (Err TransactionError.BlockhashNotFound, None)
  end.
Definition check_age {E} (accounts : Pubkey → option AccountSharedData) (txs : list SanitizedTransaction)
    (lock_results : list (result TransactionError.t unit)) (max_age : N) (hash_queue : BlockhashQueue) :
  result E (list TransactionCheckResult) :=
  let! last_blockhash := last_hash hash_queue in
  let next_durable_nonce := durable_nonce_from_blockhash last_blockhash in
  Ok (zip_with (λ tx lock_res,
        match lock_res with
        | Ok _ => check_transaction_age accounts tx max_age next_durable_nonce hash_queue
        | e => (e, None)
        end) txs lock_results).

Definition BankStatusCache : Type := StatusCache (result TransactionError.t unit).
Definition is_transaction_already_processed {E} (ancestors : gset N) (tx : SanitizedTransaction)
    (status_cache : BankStatusCache) : result E bool :=
  let! status := get_status (hash_bytes (message_hash tx))
                   (msg_recent_blockhash (sm_base (tx_message tx))) ancestors status_cache in
  Ok (bool_decide (is_Some status)).
Definition check_status {E} (ancestors : gset N) (status_cache : BankStatusCache)
    (x : SanitizedTransaction * TransactionCheckResult) : result E TransactionCheckResult :=
  let '(tx, (lock_result, nonce)) := x in
  let! already := (if is_ok lock_result
                   then is_transaction_already_processed ancestors tx status_cache else Ok false) in
  Ok (if already : bool then (Err TransactionError.AlreadyProcessed, None) else (lock_result, nonce)).
Definition check_status_cache {E} (ancestors : gset N) (txs : list SanitizedTransaction)
    (lock_results : list TransactionCheckResult) (status_cache : BankStatusCache) :
  result E (list TransactionCheckResult) :=
  rmapM (check_status ancestors status_cache) (zip txs lock_results).
Definition check_transactions {E} (accounts : Pubkey → option AccountSharedData) (ancestors : gset N)
    (txs : list SanitizedTransaction) (lock_results : list (result TransactionError.t unit))
    (max_age : N) (hash_queue : BlockhashQueue) (status_cache : BankStatusCache) :
  result E (list TransactionCheckResult) :=
  let! age_results := check_age accounts txs lock_results max_age hash_queue in
  check_status_cache ancestors txs age_results status_cache.

(** [signatures[0]] *)
Definition tx_signature {E} (tx : SanitizedTransaction) : result E Signature := unwrap (head (tx_signatures tx)).
(** the status of each executed transaction, under the hash of its message and under its
    signature; each insertion may draw a number *)
Fixpoint record_statuses {E} (slot : N) (draws : nat → N)
    (l : list (SanitizedTransaction * option (result TransactionError.t unit))) (sc : BankStatusCache) :
  result E BankStatusCache :=
  match l with
  | [] => Ok sc
  | (tx, None) :: l' => record_statuses slot draws l' sc
  | (tx, Some status) :: l' =>
      let blockhash := msg_recent_blockhash (sm_base (tx_message tx)) in
      let! sc := sc_insert_key (draws 0%nat) blockhash (hash_bytes (message_hash tx)) slot status sc in
      let! signature := tx_signature tx in
      let! sc := sc_insert_key (draws 1%nat) blockhash signature slot status sc in
      record_statuses slot (λ n, draws (2 + n)%nat) l' sc
  end.
Definition update_transaction_statuses {E} (slot : N) (draws : nat → N) (txs : list SanitizedTransaction)
    (execution_results : list (option (result TransactionError.t unit))) (sc : BankStatusCache) :
  result E BankStatusCache :=
  if negb (len txs =? len execution_results) then Panic else
  record_statuses slot draws (zip txs execution_results) sc.

(** ** A fork: its newest bank, with the live parents of that bank, newest first *)
Record Fork := mkFork {
  fk_queue : BlockhashQueue;
  fk_cache : BankStatusCache;
  fk_slot : N;
  fk_parents : list N;
  fk_ancestors : gset N }.
Definition fork_genesis (g : Registration) : Fork :=
  mkFork (queue_of MAX_RECENT_BLOCKHASHES g []) cache_default 0 [] {[0]}.

(** [register_recent_blockhash] at the end of a slot, then [new_from_parent] *)
Definition next_bank (r : Registration) (slot : N) (f : Fork) : Fork :=
  let parents := fk_slot f :: fk_parents f in
  mkFork (register_hash (reg_hash r) (reg_fee r) (reg_time r) (fk_queue f)) (fk_cache f) slot parents
    (list_to_set (slot :: parents)).
(** [squash] of the [k]-th parent: it and its own parents become roots *)
Definition squash (k : nat) (f : Fork) : Fork :=
  let new_roots := drop k (fk_parents f) in
  mkFork (fk_queue f) (foldl (λ sc slot, add_root slot sc) (fk_cache f) new_roots) (fk_slot f)
    (take (S k) (fk_parents f)) (fk_ancestors f).
(** a batch: the checks, then an execution that returns a status for some of the
    transactions that passed them, then the record; also what was executed *)
Definition process_batch {E} (accounts : Pubkey → option AccountSharedData)
    (txs : list SanitizedTransaction) (lock_results : list (result TransactionError.t unit)) (max_age : N)
    (executed : list (option (result TransactionError.t unit))) (draws : nat → N) (f : Fork) :
  result E (Fork * list (SanitizedTransaction * option (Pubkey * AccountSharedData))) :=
  let! checked := check_transactions accounts (fk_ancestors f) txs lock_results max_age (fk_queue f) (fk_cache f) in
  let results := zip_with (λ (c : TransactionCheckResult) e, if is_ok c.1 then e else None) checked executed in
  let! sc := update_transaction_statuses (fk_slot f) draws txs results (fk_cache f) in
  Ok (mkFork (fk_queue f) sc (fk_slot f) (fk_parents f) (fk_ancestors f),
      omap (λ x, match x.2.2 with Some _ => Some (x.1, x.2.1.2) | None => None end)
        (zip txs (zip checked results))).
End admission.
