(* ===== verification/AdmissionRules.v ===== *)
(** * No replay

    On a fork that grows by blocks with fresh hashes, however often its banks are
    squashed into roots, no transaction that was admitted by its block hash is admitted
    by it again.  Within a batch the account locks see to it: copies of a transaction write
    the same fee payer. *)

From S2P Require Import Prelude Sdk Message MessageRules Account LogCollector InvokeContext.
From S2P Require Import MessageProcessor Nonce SystemProgram RemoteLoader AccountsCache.
From S2P Require Import MigraterProgram Bank AccountLocks BlockhashQueue StatusCache Admission Codec.

Section replay.
Context `{!Sha256, !Bincode Versions, !Bincode SystemInstruction}.
Notation Executed_tx := (SanitizedTransaction * option (Pubkey * AccountSharedData))%type.

Definition tx_blockhash (tx : SanitizedTransaction) : Hash := msg_recent_blockhash (sm_base (tx_message tx)).
(** what the bank knows a transaction by *)
Definition tx_id (tx : SanitizedTransaction) : Hash * Hash := (tx_blockhash tx, message_hash tx).
(** hashes have 32 bytes, signatures 64 *)
Definition tx_wf (tx : SanitizedTransaction) : Prop :=
  len (hash_bytes (message_hash tx)) = 32 ∧
  ∃ s rest, tx_signatures tx = s :: rest ∧ len s = 64.

(** the first account pays the fee: a sanitized transaction has one and may write it *)
Definition pays_fee (tx : SanitizedTransaction) : Prop :=
  msg_account_keys (sm_base (tx_message tx)) ≠ [] ∧ sm_is_writable (tx_message tx) 0 = true.
(** the hash of a message stands for it *)
Definition hashes_apart (txs : list SanitizedTransaction) : Prop :=
  ∀ tx tx', tx ∈ txs → tx' ∈ txs → message_hash tx = message_hash tx' →
    sm_base (tx_message tx) = sm_base (tx_message tx').
(** the transactions of the live batches that hold their locks, with the lock results *)
Definition held_rows (b : TransactionBatch) : list (SanitizedTransaction * LockResult) :=
  if needs_unlock b then zip (sanitized_txs b) (lock_results b) else [].
(** transactions and lock results of batches that the bank has prepared and not released;
    batches may be cut and put together again *)
Definition locked_by_bank (txs : list SanitizedTransaction) (results : list LockResult) : Prop :=
  ∃ limit ops s, Forall op_valid ops ∧ N.of_nat (sum_list (op_transactions <$> ops)) ≤ u64_max ∧
    run_lock_ops (E:=unit) limit no_batches ops = Ok s ∧ zip txs results ⊆+ live_batches s ≫= held_rows.

(** a fork that can be reached, the block hashes of its chain (newest first) and what it
    executed, with the nonces *)
Inductive reachable : Fork → list Registration → list Executed_tx → Prop :=
| reach_genesis g : reachable (fork_genesis g) [g] []
| reach_process f h p accounts txs lock_results max_age executed draws f' new :
    reachable f h p → max_age ≤ MAX_PROCESSING_AGE → Forall tx_wf txs → Forall pays_fee txs →
    hashes_apart txs → locked_by_bank txs lock_results →
    process_batch (E:=unit) accounts txs lock_results max_age executed draws f = Ok (f', new) →
    reachable f' h (new ++ p)
| reach_next f h p r slot :
    reachable f h p → fk_slot f < slot → reg_hash r ∉ reg_hash <$> h →
    N.of_nat (length h) < u64_max → reachable (next_bank r slot f) (r :: h) p
| reach_squash f h p k : reachable f h p → reachable (squash k f) h p.

(** [c] is the chain of slots; a transaction executed in slot [s], with [k] newer slots
    and a block hash of age [j], is remembered while that age is acceptable *)
Record fork_inv (f : Fork) (h : list Registration) (p : list Executed_tx) (c : list N) : Prop := {
  fi_queue : queue_ok h (fk_queue f);
  fi_max : max_age (fk_queue f) = MAX_RECENT_BLOCKHASHES;
  fi_fresh : NoDup (reg_hash <$> h);
  fi_bound : N.of_nat (length h) ≤ u64_max;
  fi_slot : ∃ c', c = fk_slot f :: c';
  fi_length : length c = length h;
  fi_desc : ∀ i j x y, (i < j)%nat → c !! i = Some x → c !! j = Some y → y < x;
  fi_roots : ∀ x, x ∈ roots (fk_cache f) → x ∈ c;
  fi_parents : ∀ x, x ∈ fk_parents f → x ∈ c;
  fi_ancestors : ∀ x, x = fk_slot f ∨ x ∈ fk_parents f → x ∈ fk_ancestors f;
  fi_done : ∀ tx, (tx, None) ∈ p → ∃ j k s,
    (reg_hash <$> h) !! j = Some (tx_blockhash tx) ∧ c !! k = Some s ∧ (k ≤ j)%nat ∧
    (N.of_nat j ≤ MAX_PROCESSING_AGE →
     recorded (fk_cache f) (tx_blockhash tx) (hash_bytes (message_hash tx)) s ∧
     (s = fk_slot f ∨ s ∈ fk_parents f ∨ s ∈ roots (fk_cache f))) }.

(** ** One batch *)
Lemma record_statuses_spec {E} slot l : ∀ draws sc,
  Forall (λ x, tx_wf x.1) l →
  ∃ sc', record_statuses (E:=E) slot draws l sc = Ok sc' ∧ roots sc' = roots sc ∧
    (∀ tx st, (tx, Some st) ∈ l → recorded sc' (tx_blockhash tx) (hash_bytes (message_hash tx)) slot) ∧
    ∀ b key s, recorded sc b key s → recorded sc' b key s.
Proof.
  induction l as [|[tx [st|]] l IH]; intros draws sc Hwf; cbn [record_statuses].
  - exists sc. split_and!; [done..|set_solver|done].
  - apply list.Forall_cons in Hwf as [[Hh (s & rest & Hs & Hl)] Hwf]. cbn [fst] in *.
    destruct (insert_key_spec (E:=E) (draws 0%nat) (tx_blockhash tx) (hash_bytes (message_hash tx)) slot st sc)
      as (sc1 & E1 & R1 & M1 & K1); [rewrite Hh; done|].
    unfold tx_blockhash in E1 at 1. rewrite E1. cbn [rbind]. unfold tx_signature. rewrite Hs. cbn [head unwrap rbind].
    destruct (insert_key_spec (E:=E) (draws 1%nat) (tx_blockhash tx) s slot st sc1)
      as (sc2 & E2 & R2 & M2 & K2); [rewrite Hl; done|].
    unfold tx_blockhash in E2 at 1. rewrite E2. cbn [rbind].
    destruct (IH (λ n, draws (2 + n)%nat) sc2 Hwf) as (sc' & -> & R' & M' & K').
    exists sc'. split_and!; [done|congruence| |eauto].
    intros tx' st' [[= -> ->]|Hin]%elem_of_cons; eauto.
  - apply list.Forall_cons in Hwf as [_ Hwf]. destruct (IH draws sc Hwf) as (sc' & -> & R' & M' & K').
    exists sc'. split_and!; [done..| |done]. intros tx' st' [[=]|Hin]%elem_of_cons; eauto.
Qed.

Lemma checked_admitted {E} accounts ancestors txs locks a q sc checked i tx c :
  check_transactions (E:=E) accounts ancestors txs locks a q sc = Ok checked →
  txs !! i = Some tx → checked !! i = Some c → is_ok c.1 = true → c.2 = None →
  is_hash_valid_for_age q (tx_blockhash tx) a = true ∧
  is_transaction_already_processed (E:=E) ancestors tx sc = Ok false.
Proof.
  unfold check_transactions, check_age. destruct (last_hash q) as [hash| |]; cbn [rbind]; [|done..].
  intros Hc%rmapM_Ok Htx Hci Hok Hnone.
  destruct (Forall2_lookup_r _ _ _ _ _ Hc Hci) as ([tx' [r nonce]] & Hz & Hs).
  apply lookup_zip_with_Some in Hz as (x & y & [= <- <-] & Hx & Hy).
  apply lookup_zip_with_Some in Hy as (tx2 & lock & Hage & Htx2 & Hlock). simplify_eq.
  cbn [check_status] in Hs. destruct (is_ok r) eqn:Hr; cbn [rbind] in Hs; [|by simplify_eq/=; congruence].
  destruct (is_transaction_already_processed ancestors tx sc) as [[]| |] eqn:Hp; cbn [rbind] in Hs; [|..|done|done];
    injection Hs as <-; [done|]. cbn [fst snd] in *. subst nonce. split; [|done].
  destruct lock as [u|e|]; [|by simplify_eq/=..]. unfold check_transaction_age in Hage.
  destruct (is_hash_valid_for_age _ _ _) eqn:Hv; [done|].
  destruct (check_transaction_for_nonce _ _ _); by simplify_eq/=.
Qed.

(** what passes the checks was locked *)
Lemma checked_locked {E} accounts ancestors txs locks a q sc checked i tx c :
  check_transactions (E:=E) accounts ancestors txs locks a q sc = Ok checked →
  txs !! i = Some tx → checked !! i = Some c → is_ok c.1 = true → locks !! i = Some (Ok tt).
Proof.
  unfold check_transactions, check_age. destruct (last_hash q) as [hash| |]; cbn [rbind]; [|done..].
  intros Hc%rmapM_Ok Htx Hci Hok.
  destruct (Forall2_lookup_r _ _ _ _ _ Hc Hci) as ([tx' [r nonce]] & Hz & Hs).
  apply lookup_zip_with_Some in Hz as (x & y & [= <- <-] & Hx & Hy).
  apply lookup_zip_with_Some in Hy as (tx2 & lock & Hage & Htx2 & Hlock). simplify_eq.
  destruct lock as [[]|e|]; [done|..]; simplify_eq/=; by simplify_eq/=.
Qed.
Definition locked_txs (txs : list SanitizedTransaction) (locks : list LockResult) : list SanitizedTransaction :=
  (filter (λ x, is_ok x.2 = true) (zip txs locks)).*1.
Lemma executed_locked {R C} (txs : list SanitizedTransaction) : ∀ (locks : list LockResult) (l : list (R * option C)),
  (∀ i x c, txs !! i = Some x → snd <$> l !! i = Some (Some c) → locks !! i = Some (Ok tt)) →
  omap (λ x, match x.2.2 with Some _ => Some x.1 | None => None end) (zip txs l) `sublist_of` locked_txs txs locks.
Proof.
  induction txs as [|tx txs IH]; intros locks [|[r o] l] Hl; cbn [zip zip_with omap list_omap]; [apply sublist_nil_l..|].
  cbn [fst snd]. assert (Hrest : ∀ locks', (∀ i, locks' !! i = locks !! S i) →
    omap (λ x, match x.2.2 with Some _ => Some x.1 | None => None end) (zip txs l) `sublist_of` locked_txs txs locks').
  { intros locks' Hs. apply IH. intros i x c Hx Hc. rewrite Hs. by apply (Hl (S i) x c). }
  destruct o as [c|].
  - pose proof (Hl 0%nat tx c eq_refl eq_refl) as H0. destruct locks as [|lock locks]; [done|]. injection H0 as ->.
    unfold locked_txs. cbn [zip zip_with]. rewrite filter_cons_True by done. by apply sublist_skip, Hrest.
  - destruct locks as [|lock locks].
    + etrans; [by apply (Hrest [])|]. unfold locked_txs. destruct txs; apply sublist_nil_l.
    + etrans; [by apply (Hrest locks)|]. unfold locked_txs. cbn [zip zip_with]. rewrite filter_cons.
      case_decide; [by apply sublist_cons|done].
Qed.

(** transactions that hold their locks together are not copies of each other *)
Lemma payer_lock tx : pays_fee tx → ∃ k,
  head (msg_account_keys (sm_base (tx_message tx))) = Some k ∧ k ∈ writable (get_account_locks_unchecked tx).
Proof.
  intros [Hne Hw]. destruct (msg_account_keys _) as [|k keys] eqn:Hk; [done|]. exists k. split; [done|].
  apply elem_of_writable. exists 0%nat. split; [|done]. unfold account_keys_iter.
  destruct (tx_message tx) as [m|m]; cbn [sm_base sm_account_keys] in *; unfold v0_account_keys, key_segment_iter;
    cbn [static_keys dynamic_keys]; by rewrite Hk.
Qed.
Lemma held_ids_apart l held txs :
  represents l held → get_account_locks_unchecked <$> txs ⊆+ held → Forall pays_fee txs → hashes_apart txs →
  NoDup (tx_id <$> txs).
Proof.
  intros Hr. induction txs as [|tx txs IH]; intros Hsub Hpay Hh; [constructor|]. rewrite fmap_cons in Hsub. rewrite fmap_cons.
  apply list.Forall_cons in Hpay as [Hp Hpay]. constructor.
  - intros (tx' & [= Hb Hm] & Hin)%list_elem_of_fmap. pose proof Hin as (l1 & l2 & ->)%list_elem_of_split.
    rewrite fmap_app, fmap_cons, <-Permutation_middle in Hsub. apply submseteq_Permutation in Hsub as [rest Hrest].
    apply (rep_compatible _ _ Hr _ _ _ Hrest).
    destruct (payer_lock _ Hp) as (k & Hk & Hw). destruct (payer_lock tx') as (k' & Hk' & Hw').
    { rewrite list.Forall_forall in Hpay. by apply Hpay. }
    rewrite (Hh tx tx') in Hk; [|set_solver..|done]. simplify_eq. exists k. left. split; [done|by left].
  - apply IH; [|done|].
    + etrans; [|exact Hsub]. by apply submseteq_cons.
    + intros t t' Ht Ht'. apply Hh; set_solver.
Qed.
Lemma locked_ids_apart txs locks :
  locked_by_bank txs locks → Forall pays_fee txs → hashes_apart txs → NoDup (tx_id <$> locked_txs txs locks).
Proof.
  intros (limit & ops & s & Hv & Hb & Hs & Hsub) Hpay Hh.
  destruct (run_lock_ops_spec (E:=unit) limit ops no_batches) as (s' & Hs' & Hi & _);
    [apply represents_empty|done|cbn [held_locks live_batches no_batches]; simpl; lia|].
  rewrite Hs in Hs'. injection Hs' as <-.
  assert (Hin : ∀ tx, tx ∈ locked_txs txs locks → tx ∈ txs).
  { intros tx ([tx' r] & -> & [_ Hz]%list_elem_of_filter)%list_elem_of_fmap. by apply elem_of_zip_l in Hz. }
  apply (held_ids_apart _ _ _ Hi).
  - assert (Hheld : ∀ bs, bs ≫= batch_held = get_account_locks_unchecked <$>
      (filter (λ x : SanitizedTransaction * LockResult, is_ok x.2 = true) (bs ≫= held_rows)).*1).
    { induction bs as [|b bs IH]; [done|].
      rewrite !bind_cons, list.filter_app, !fmap_app, <-IH. f_equal. unfold batch_held, held_rows, locked_transactions.
      destruct (needs_unlock b); [|done]. by rewrite <-list_fmap_compose. }
    unfold held_locks. rewrite Hheld. unfold locked_txs. apply fmap_submseteq, fmap_submseteq.
    apply submseteq_Permutation in Hsub as [k ->]. rewrite list.filter_app. by apply submseteq_inserts_r.
  - apply list.Forall_forall. intros tx Htx%Hin. by apply (list.Forall_forall pays_fee txs).
  - intros tx tx' Htx%Hin Htx'%Hin. by apply Hh.
Qed.

Lemma process_batch_inv {E} accounts txs locks a executed draws f f' new :
  process_batch (E:=E) accounts txs locks a executed draws f = Ok (f', new) → Forall tx_wf txs →
  fk_queue f' = fk_queue f ∧ fk_slot f' = fk_slot f ∧ fk_parents f' = fk_parents f ∧
  fk_ancestors f' = fk_ancestors f ∧ roots (fk_cache f') = roots (fk_cache f) ∧
  new.*1 `sublist_of` locked_txs txs locks ∧
  (∀ b key s, recorded (fk_cache f) b key s → recorded (fk_cache f') b key s) ∧
  ∀ tx, (tx, None) ∈ new →
    is_hash_valid_for_age (fk_queue f) (tx_blockhash tx) a = true ∧
    is_transaction_already_processed (E:=E) (fk_ancestors f) tx (fk_cache f) = Ok false ∧
    recorded (fk_cache f') (tx_blockhash tx) (hash_bytes (message_hash tx)) (fk_slot f).
Proof.
  intros Hp Hwf. unfold process_batch in Hp.
  destruct (check_transactions _ _ _ _ _ _ _) as [checked| |] eqn:Hc; cbn [rbind] in Hp; [|done..].
  set (results := zip_with _ checked executed) in Hp.
  unfold update_transaction_statuses in Hp. destruct (negb _); cbn [rbind] in Hp; [done|].
  destruct (record_statuses_spec (E:=E) (fk_slot f) (zip txs results) draws (fk_cache f)) as (sc & Hs & Hr & Hm & Hk).
  { apply list.Forall_forall. intros [tx st] Hin%elem_of_zip_l. by eapply list.Forall_forall in Hwf. }
  rewrite Hs in Hp. cbn [rbind] in Hp. injection Hp as <- <-.
  cbn [fk_queue fk_slot fk_parents fk_ancestors fk_cache]. split_and!; [done..| |done|].
  - rewrite list_fmap_omap. erewrite list_omap_ext; [apply (executed_locked txs locks (zip checked results))|].
    + intros i tx st Htx Hi. destruct (zip checked results !! i) as [[c o]|] eqn:Hz; [|done]. injection Hi as ->.
      apply lookup_zip_with_Some in Hz as (c0 & st0 & [= <- <-] & Hci & Hst).
      apply lookup_zip_with_Some in Hst as (c1 & e & Hif & Hc1 & _). simplify_eq.
      destruct (is_ok c.1) eqn:Hok; [|done]. by eapply checked_locked.
    + apply Forall_Forall2_diag, list.Forall_forall. intros [tx [c [st|]]] _; done.
  - intros tx ([tx' [c st]] & Hin & Heq)%list_elem_of_omap. cbn [fst snd] in Heq.
    destruct st as [st|]; [|done]. injection Heq as -> Hnone.
    apply list_elem_of_lookup in Hin as [i Hi].
    apply lookup_zip_with_Some in Hi as (tx0 & y & [= <- <-] & Htx & Hy).
    apply lookup_zip_with_Some in Hy as (c0 & st0 & [= <- <-] & Hci & Hst).
    pose proof Hst as (c1 & e & Hif & Hc1 & _)%lookup_zip_with_Some. simplify_eq.
    destruct (is_ok c.1) eqn:Hok; [|done].
    destruct (checked_admitted _ _ _ _ _ _ _ _ _ _ _ Hc Htx Hci Hok Hnone) as [Hv Ha]. split_and!; [done..|].
    apply (Hm _ st), list_elem_of_lookup. exists i. apply lookup_zip_with_Some. by eexists _, _.
Qed.

(** ** The invariant *)
Lemma fork_inv_genesis g : fork_inv (fork_genesis g) [g] [] [0].
Proof.
  split; cbn [fork_genesis fk_queue fk_cache fk_slot fk_parents fk_ancestors].
  - apply queue_ok_genesis.
  - done.
  - apply NoDup_singleton.
  - done.
  - by exists [].
  - done.
  - intros [|i] [|j] x y Hij; simpl; try done; lia.
  - intros x Hx. set_solver.
  - set_solver.
  - set_solver.
  - set_solver.
Qed.
(** newer slots of the chain stand before *)
Lemma chain_newer f h p c k s x :
  fork_inv f h p c → c !! k = Some s → x ∈ c → s < x → x ∈ take k c.
Proof.
  intros Hi Hk [i Hx]%list_elem_of_lookup Hlt. apply list_elem_of_lookup. exists i.
  destruct (Nat.lt_trichotomy i k) as [Hik|[->|Hki]].
  - by rewrite lookup_take_lt.
  - simplify_eq. lia.
  - pose proof (fi_desc _ _ _ _ Hi k i s x Hki Hk Hx). lia.
Qed.

(** the age of a block hash that is accepted *)
Lemma valid_position f h p c b a :
  fork_inv f h p c → a ≤ MAX_PROCESSING_AGE → is_hash_valid_for_age (fk_queue f) b a = true →
  ∃ j, (reg_hash <$> h) !! j = Some b ∧ N.of_nat j ≤ MAX_PROCESSING_AGE.
Proof.
  intros Hi Ha Hv. rewrite (valid_for_age_eq h) in Hv.
  - apply bool_decide_eq_true in Hv. rewrite fmap_take in Hv.
    apply list_elem_of_lookup in Hv as [j Hj]. pose proof (lookup_lt_Some _ _ _ Hj) as Hlt.
    rewrite length_take in Hlt. rewrite lookup_take_lt in Hj by lia. exists j. split; [done|lia].
  - apply Hi.
  - apply Hi.
  - rewrite (fi_max _ _ _ _ Hi). etrans; [exact Ha|]. by vm_compute.
Qed.
Lemma last_hash_set {E} f h p c : fork_inv f h p c → ∃ hash, last_hash (E:=E) (fk_queue f) = Ok hash.
Proof.
  intros Hi. unfold last_hash. rewrite (qk_last _ _ (fi_queue _ _ _ _ Hi)).
  destruct h; [|by eexists]. pose proof (fi_length _ _ _ _ Hi). by destruct (fi_slot _ _ _ _ Hi) as [c' ->].
Qed.
(** a transaction that was executed by its block hash is found again *)
Lemma done_found {E} f h p c tx a :
  fork_inv f h p c → (tx, None) ∈ p → a ≤ MAX_PROCESSING_AGE →
  is_hash_valid_for_age (fk_queue f) (tx_blockhash tx) a = true →
  is_transaction_already_processed (E:=E) (fk_ancestors f) tx (fk_cache f) = Ok true.
Proof.
  intros Hi Hin Ha Hv. destruct (valid_position _ _ _ _ _ _ Hi Ha Hv) as (j & Hj & Hj150).
  destruct (fi_done _ _ _ _ Hi tx Hin) as (j' & k & s & Hj' & Hk & Hkj & Hrec).
  assert (j' = j) as -> by (eapply NoDup_lookup; [apply Hi|done..]).
  destruct (Hrec Hj150) as [Hr Hs]. unfold is_transaction_already_processed.
  destruct (get_status_recorded (E:=E) _ _ _ _ (fk_ancestors f) Hr) as [x Hx].
  - destruct Hs as [->|[Hs|Hs]]; [left|left|right]; [|by apply (fi_ancestors _ _ _ _ Hi); right|done].
    apply (fi_ancestors _ _ _ _ Hi). by left.
  - unfold tx_blockhash in Hx. by rewrite Hx.
Qed.

Lemma fork_inv_process f h p c accounts txs locks a executed draws f' new :
  fork_inv f h p c → a ≤ MAX_PROCESSING_AGE → Forall tx_wf txs →
  process_batch (E:=unit) accounts txs locks a executed draws f = Ok (f', new) →
  fork_inv f' h (new ++ p) c.
Proof.
  intros Hi Ha Hwf Hp.
  destruct (process_batch_inv _ _ _ _ _ _ _ _ _ Hp Hwf) as (Hq & Hs & Hpar & Hanc & Hr & _ & Hk & Hn).
  split; rewrite ?Hq, ?Hs, ?Hpar, ?Hanc, ?Hr; try apply Hi.
  intros tx [Hin|Hin]%elem_of_app.
  - destruct (Hn tx Hin) as (Hv & _ & Hrec). destruct (valid_position _ _ _ _ _ _ Hi Ha Hv) as (j & Hj & _).
    destruct (fi_slot _ _ _ _ Hi) as [c' ->]. exists j, 0%nat, (fk_slot f).
    split_and!; [done|done|lia|]. intros _. split; [done|by left].
  - destruct (fi_done _ _ _ _ Hi tx Hin) as (j & k & s & Hj & Hck & Hkj & Hrec). exists j, k, s.
    split_and!; [done..|]. intros H150. destruct (Hrec H150) as [Hr' Hc]. split; [by apply Hk|done].
Qed.

Lemma fork_inv_next f h p c r slot :
  fork_inv f h p c → fk_slot f < slot → reg_hash r ∉ reg_hash <$> h → N.of_nat (length h) < u64_max →
  fork_inv (next_bank r slot f) (r :: h) p (slot :: c).
Proof.
  intros Hi Hlt Hf Hb. pose proof (fi_slot _ _ _ _ Hi) as [c' Hc].
  split; cbn [next_bank fk_queue fk_cache fk_slot fk_parents fk_ancestors].
  - apply queue_ok_register; [apply Hi| |lia]. intros ->. pose proof (fi_length _ _ _ _ Hi) as Hl.
    by rewrite Hc in Hl.
  - unfold register_hash. apply Hi.
  - rewrite fmap_cons. constructor; [done|apply Hi].
  - cbn [length]. lia.
  - by exists c.
  - cbn [length]. f_equal. apply Hi.
  - intros [|i] [|j] x y Hij Hx Hy; simpl in *; [lia| |lia|eapply (fi_desc _ _ _ _ Hi); [|done..]; lia].
    injection Hx as <-. rewrite Hc in Hy. destruct j as [|j]; [by injection Hy as <-|].
    pose proof (fi_desc _ _ _ _ Hi 0 (S j) (fk_slot f) y ltac:(lia)) as Hd. rewrite Hc in Hd.
    specialize (Hd eq_refl Hy). lia.
  - intros x Hx. right. by apply (fi_roots _ _ _ _ Hi).
  - intros x [->|Hx]%elem_of_cons; right; [rewrite Hc; left|by apply (fi_parents _ _ _ _ Hi)].
  - intros x Hx. rewrite elem_of_list_to_set. set_solver.
  - intros tx Hin. destruct (fi_done _ _ _ _ Hi tx Hin) as (j & k & s & Hj & Hck & Hkj & Hrec).
    exists (S j), (S k), s. split_and!; [done|done|lia|]. intros H150. destruct Hrec as [Hr Hs]; [lia|].
    split; [done|]. destruct Hs as [->|[Hs|Hs]]; [right; left; left|right; left; by right|by right; right].
Qed.

(** roots of the chain leave the records of acceptable age alone *)
Lemma add_root_inv f h p c x :
  fork_inv f h p c → x ∈ c →
  fork_inv (mkFork (fk_queue f) (add_root x (fk_cache f)) (fk_slot f) (fk_parents f) (fk_ancestors f)) h p c ∧
  ∀ j k s, N.of_nat j ≤ MAX_PROCESSING_AGE → c !! k = Some s → (k ≤ j)%nat →
    s = x ∨ s ∈ roots (fk_cache f) → s ∈ roots (add_root x (fk_cache f)).
Proof.
  intros Hi Hx. assert (Hin : ∀ y, y ∈ {[x]} ∪ roots (fk_cache f) → y ∈ c).
  { intros y [->%elem_of_singleton|Hy]%elem_of_union; [done|by apply (fi_roots _ _ _ _ Hi)]. }
  assert (Hfew : ∀ j k, (k ≤ j)%nat → N.of_nat j ≤ MAX_PROCESSING_AGE →
            N.of_nat (length (take k c)) + 1 ≤ MAX_CACHE_ENTRIES).
  { intros j k Hkj Hj. rewrite length_take. assert (MAX_PROCESSING_AGE + 1 ≤ MAX_CACHE_ENTRIES) by done. lia. }
  assert (Hnew : ∀ k s, c !! k = Some s → ∀ y, y ∈ {[x]} ∪ roots (fk_cache f) → s < y → y ∈ take k c).
  { intros k s Hk y Hy. by eapply chain_newer; [..|apply Hin]. }
  split.
  - split; cbn [fk_queue fk_cache fk_slot fk_parents fk_ancestors]; try apply Hi.
    + intros y Hy. by apply Hin, (add_root_subset (fk_cache f) x).
    + intros tx Htx. destruct (fi_done _ _ _ _ Hi tx Htx) as (j & k & s & Hj & Hck & Hkj & Hrec). exists j, k, s.
      split_and!; [done..|]. intros H150. destruct (Hrec H150) as [Hr Hs].
      split; [exact (add_root_keeps _ x _ _ s (take k c) Hr (Hnew k s Hck) (Hfew j k Hkj H150))|].
      destruct Hs as [?|[?|Hs]]; [by left|by right; left|]. right; right.
      apply (add_root_stays _ _ _ (take k c)); [by apply Hnew|by apply (Hfew j)|set_solver].
  - intros j k s H150 Hck Hkj Hs. apply add_root_stays with (take k c); [by apply Hnew|by apply (Hfew j)|set_solver].
Qed.
Definition with_cache (sc : BankStatusCache) (f : Fork) : Fork :=
  mkFork (fk_queue f) sc (fk_slot f) (fk_parents f) (fk_ancestors f).
Lemma add_roots_inv l : ∀ f h p c,
  fork_inv f h p c → (∀ x, x ∈ l → x ∈ c) →
  let sc := foldl (λ sc slot, add_root slot sc) (fk_cache f) l in
  fork_inv (with_cache sc f) h p c ∧
  ∀ j k s, N.of_nat j ≤ MAX_PROCESSING_AGE → c !! k = Some s → (k ≤ j)%nat →
    s ∈ l ∨ s ∈ roots (fk_cache f) → s ∈ roots sc.
Proof.
  induction l as [|x l IH]; intros f h p c Hi Hl; cbn [foldl].
  { split; [by destruct f|]. set_solver. }
  destruct (add_root_inv f h p c x Hi (Hl x ltac:(set_solver))) as [Hi1 Hs1].
  destruct (IH _ h p c Hi1 ltac:(set_solver)) as [Hi2 Hs2]. cbv zeta. split; [done|].
  intros j k s Hj Hk Hkj Hin. apply (Hs2 j k s Hj Hk Hkj). cbn [fk_cache].
  destruct Hin as [[->|Hin]%elem_of_cons|Hin]; [right|by left|right]; apply (Hs1 j k); auto.
Qed.
Lemma fork_inv_squash f h p c n : fork_inv f h p c → fork_inv (squash n f) h p c.
Proof.
  intros Hi. destruct (add_roots_inv (drop n (fk_parents f)) f h p c Hi) as [Hi' Hs].
  { intros x Hx. apply (fi_parents _ _ _ _ Hi). rewrite <-(take_drop n (fk_parents f)). set_solver. }
  assert (Hsub : ∀ x, x ∈ take (S n) (fk_parents f) → x ∈ fk_parents f)
    by (intros x Hx; rewrite <-(take_drop (S n) (fk_parents f)); set_solver).
  split; cbn [squash fk_queue fk_cache fk_slot fk_parents fk_ancestors]; try apply Hi'.
  - intros x Hx. apply (fi_parents _ _ _ _ Hi). by apply Hsub.
  - intros x Hx. apply (fi_ancestors _ _ _ _ Hi). destruct Hx as [?|?]; [by left|right; by apply Hsub].
  - intros tx Hin. destruct (fi_done _ _ _ _ Hi' tx Hin) as (j & k & s & Hj & Hck & Hkj & Hrec). exists j, k, s.
    split_and!; [done..|]. intros H150. destruct (Hrec H150) as [Hr Hc]. split; [done|].
    cbn [with_cache fk_slot fk_parents fk_cache] in Hc. destruct Hc as [Hc|[Hc|Hc]]; [by left| |by right; right].
    right. rewrite <-(take_drop n (fk_parents f)), elem_of_app in Hc. destruct Hc as [Hc|Hc].
    + left. apply elem_of_take in Hc as (i & Hi0 & Hlt). apply elem_of_take. exists i. split; [done|lia].
    + right. apply (Hs j k); [done..|by left].
Qed.
Lemma reachable_inv f h p : reachable f h p → ∃ c, fork_inv f h p c.
Proof.
  induction 1 as [g|f h p accounts txs locks a executed draws f' new _ [c Hi] Ha Hwf _ _ _ Hp
                 |f h p r slot _ [c Hi] Hlt Hf Hb|f h p k _ [c Hi]].
  - eexists. apply fork_inv_genesis.
  - exists c. by eapply fork_inv_process.
  - eexists. by apply fork_inv_next.
  - exists c. by apply fork_inv_squash.
Qed.

(** the transactions that went by their block hash *)
Definition by_blockhash (p : list Executed_tx) : list SanitizedTransaction :=
  omap (λ x, match x.2 with None => Some x.1 | Some _ => None end) p.
Lemma by_blockhash_in p tx : tx ∈ by_blockhash p ↔ (tx, None) ∈ p.
Proof.
  unfold by_blockhash. rewrite list_elem_of_omap. split.
  - intros ([tx' [n|]] & Hin & [= <-]). done.
  - intros Hin. by exists (tx, None).
Qed.
Lemma by_blockhash_sub p : by_blockhash p `sublist_of` p.*1.
Proof. induction p as [|[tx [n|]] p IH]; simpl; [constructor|by apply sublist_cons|by apply sublist_skip]. Qed.
Lemma by_blockhash_app p1 p2 : by_blockhash (p1 ++ p2) = by_blockhash p1 ++ by_blockhash p2.
Proof. apply omap_app. Qed.

(** C2: on a fork that grows from genesis by blocks with fresh hashes, whose banks process
    batches that hold their account locks and are squashed into roots in any order, no
    transaction is executed twice by its block hash, be it in one batch or in two, and one that was is
    refused from then on: it is answered [AlreadyProcessed] while its block hash has an
    acceptable age, and afterwards can only pass as a durable nonce transaction.  The batches
    are of transactions whose fee payer is writable, as sanitizing demands, and different
    messages of a batch have different hashes; copies in a batch are allowed. *)
Theorem no_replay f h p :
  reachable f h p →
  NoDup (tx_id <$> by_blockhash p) ∧
  ∀ tx accounts a, tx ∈ by_blockhash p → a ≤ MAX_PROCESSING_AGE → tx_wf tx → ∃ c,
    check_transactions (E:=unit) accounts (fk_ancestors f) [tx] [Ok tt] a (fk_queue f) (fk_cache f) = Ok [c] ∧
    (is_ok c.1 = true → is_Some c.2) ∧
    (is_hash_valid_for_age (fk_queue f) (tx_blockhash tx) a = true →
     c = (Err TransactionError.AlreadyProcessed, None)).
Proof.
  intros Hr. split.
  - induction Hr as [g|f h p accounts txs locks a executed draws f' new Hr IH Ha Hwf Hpay Hh Hl Hp| |]; [constructor| |done..].
    destruct (reachable_inv _ _ _ Hr) as [c Hi].
    destruct (process_batch_inv _ _ _ _ _ _ _ _ _ Hp Hwf) as (_ & _ & _ & _ & _ & Hsub & _ & Hn).
    rewrite by_blockhash_app, fmap_app. apply list.NoDup_app. split_and!; [| |done].
    + eapply sublist_NoDup; [by apply (locked_ids_apart txs locks)|]. apply fmap_sublist. by etrans; [apply by_blockhash_sub|].
    + intros x (tx & -> & Hin%by_blockhash_in)%list_elem_of_fmap (tx' & Hid & Hin'%by_blockhash_in)%list_elem_of_fmap.
      injection Hid as Hb Hm. destruct (Hn tx Hin) as (Hv & Hna & _). rewrite Hb in Hv.
      pose proof (done_found (E:=unit) f h p c tx' a Hi Hin' Ha Hv) as Hd.
      unfold is_transaction_already_processed in Hna, Hd. unfold tx_blockhash in Hb. rewrite Hb, Hm in Hna.
      rewrite Hd in Hna. done.
  - intros tx accounts a Hin%by_blockhash_in Ha [Hh _]. destruct (reachable_inv _ _ _ Hr) as [c Hi].
    unfold check_transactions, check_age. destruct (last_hash_set (E:=unit) f h p c Hi) as [hash ->]. cbn [rbind zip_with].
    unfold check_status_cache. cbn [zip zip_with rmapM]. unfold check_transaction_age.
    pose proof (done_found (E:=unit) f h p c tx a Hi Hin Ha) as Hd. unfold tx_blockhash in *.
    destruct (is_hash_valid_for_age _ _ _) eqn:Hv.
    + cbn [check_status is_ok]. rewrite Hd by done. cbn [rbind]. by eexists.
    + destruct (check_transaction_for_nonce _ _ _) as [nonce|]; cbn [check_status is_ok rbind].
      * unfold is_transaction_already_processed.
        destruct (get_status_total (E:=unit) (fk_cache f) (msg_recent_blockhash (sm_base (tx_message tx)))
          (hash_bytes (message_hash tx)) (fk_ancestors f)) as [r ->]; [by rewrite Hh|].
        cbn [rbind]. destruct (bool_decide _); by eexists.
      * by eexists.
Qed.
End replay.

(** ** An example: a transaction is executed, its slot becomes a root, and it comes again *)
Import Bincodes StandIns.
Definition replay_reg (n : N) : Registration := mkRegistration (mkHash [n]) 5000 n.
Definition replay_tx : SanitizedTransaction :=
  mkSanitizedTransaction
    (LegacyMsg (mkLegacyMessage (mkMessage (mkMessageHeader 1 0 0) [pubkey_of_N 1] (mkHash [7]) []) [true]))
    (mkHash (replicate 32 3)) false [replicate 64 9].
Definition replay_fork1 : Fork := fork_genesis (replay_reg 7).
(** the second copy in the batch finds the accounts of the first in use *)
Definition replay_txs : list SanitizedTransaction := [replay_tx; replay_tx].
Definition replay_locks : list LockResult := [Ok tt; Err TransactionError.AccountInUse].
Definition replay_fork2 : Fork :=
  match process_batch (E:=unit) (λ _, None) replay_txs replay_locks MAX_PROCESSING_AGE [Some (Ok tt); Some (Ok tt)] (λ n, 5)
          replay_fork1 with
  | Ok (f, _) => f | _ => replay_fork1
  end.
Definition replay_fork3 : Fork := squash 0 (next_bank (replay_reg 8) 4 replay_fork2).
Lemma replay_fork3_reachable : reachable replay_fork3 [replay_reg 8; replay_reg 7] ([(replay_tx, None)] ++ []).
Proof.
  apply reach_squash, reach_next; [|done|set_solver|done].
  apply (reach_process replay_fork1 _ _ (λ _, None) replay_txs replay_locks MAX_PROCESSING_AGE
    [Some (Ok tt); Some (Ok tt)] (λ n, 5)).
  - apply reach_genesis.
  - done.
  - repeat constructor; by eexists _, _.
  - by repeat constructor.
  - unfold hashes_apart, replay_txs. set_solver.
  - exists 64, [PrepareBatch replay_txs], (mkLockState (mkAccountLocks {[pubkey_of_N 1]} ∅) [mkTransactionBatch replay_locks replay_txs true]).
    split; [by repeat constructor|]. split; [done|]. split; [vm_compute; reflexivity|done].
  - vm_compute. reflexivity.
Qed.
Lemma no_replay_witness :
  ∃ c, check_transactions (E:=unit) (λ _, None) (fk_ancestors replay_fork3) [replay_tx] [Ok tt] MAX_PROCESSING_AGE
      (fk_queue replay_fork3) (fk_cache replay_fork3) = Ok [c] ∧
    c = (Err TransactionError.AlreadyProcessed, None).
Proof.
  destruct (no_replay _ _ _ replay_fork3_reachable) as [_ Hr].
  destruct (Hr replay_tx (λ _, None) MAX_PROCESSING_AGE) as (c & Hc & _ & Hv).
  - left.
  - done.
  - split; [done|]. by eexists _, _.
  - exists c. split; [exact Hc|]. apply Hv. vm_compute. reflexivity.
Defined.
