(* ===== verification/Fees.v ===== *)
(** * Compute budget requests and fees

    The limits a transaction asks for ([program-runtime/src/compute_budget_processor.rs],
    [sdk/src/compute_budget.rs]), the prioritization fee
    ([program-runtime/src/prioritization_fee.rs]) and the fee of a transaction
    ([sdk/src/fee.rs]).  Borsh, a package of its own, reads the instructions. *)

From S2P Require Import Prelude Sdk Rent Message LogCollector InvokeContext.
From Stdlib Require Import SpecFloat.

Inductive ComputeBudgetInstruction :=
| Unused
| RequestHeapFrame (bytes : N)
| SetComputeUnitLimit (units : N)
| SetComputeUnitPrice (micro_lamports : N)
| SetLoadedAccountsDataSizeLimit (bytes : N).
(** [borsh1::try_from_slice_unchecked] *)
Class BorshComputeBudget := try_from_slice_unchecked : list N → option ComputeBudgetInstruction.

(** ** Prioritization fees *)
Definition MICRO_LAMPORTS_PER_LAMPORT : N := 1000000.
Record PrioritizationFeeDetails := mkPrioritizationFeeDetails { fee_of : N; priority_of : N }.
(** [PrioritizationFeeDetails::new] for a compute unit price *)
Definition prioritization_fee_new (cu_price compute_unit_limit : N) : PrioritizationFeeDetails :=
  let micro_lamport_fee := N.min u128_max (cu_price * compute_unit_limit) in
  let fee := saturating_add u128_max micro_lamport_fee (saturating_sub MICRO_LAMPORTS_PER_LAMPORT 1)
               / MICRO_LAMPORTS_PER_LAMPORT in
  mkPrioritizationFeeDetails (if fee <=? u64_max then fee else u64_max) cu_price.

(** ** The limits of a transaction *)
Definition MIN_HEAP_FRAME_BYTES : N := 32 * 1024.
Definition MAX_HEAP_FRAME_BYTES : N := 256 * 1024.
Definition DEFAULT_INSTRUCTION_COMPUTE_UNIT_LIMIT : N := 200000.
Definition MAX_LOADED_ACCOUNTS_DATA_SIZE_BYTES : N := 64 * 1024 * 1024.
Definition DEFAULT_HEAP_COST : N := 8.

Record ComputeBudgetLimits := mkComputeBudgetLimits {
  updated_heap_bytes : N;
  limit_compute_units : N;
  compute_unit_price : N;
  loaded_accounts_bytes : N }.
Definition limits_default : ComputeBudgetLimits :=
  mkComputeBudgetLimits MIN_HEAP_FRAME_BYTES MAX_COMPUTE_UNIT_LIMIT 0 MAX_LOADED_ACCOUNTS_DATA_SIZE_BYTES.

Definition sanitize_requested_heap_size (bytes : N) : bool :=
  (MIN_HEAP_FRAME_BYTES <=? bytes) && (bytes <=? MAX_HEAP_FRAME_BYTES) && (bytes `mod` 1024 =? 0).

(** what the loop has seen so far *)
Record Requests := mkRequests {
  num_non_compute_budget_instructions : N;
  updated_compute_unit_limit : option N;
  updated_compute_unit_price : option N;
  requested_heap_size : option N;
  updated_loaded_accounts_data_size_limit : option N }.
Definition no_requests : Requests := mkRequests 0 None None None None.

Definition add_request `{BorshComputeBudget} (i : N) (x : Pubkey * CompiledInstruction) (r : Requests) :
  result TransactionError.t Requests :=
  if key_eqb x.1 compute_budget_id then
    let invalid_instruction_data_error := TransactionError.InstructionError (as_u8 i) InvalidInstructionData in
    let duplicate_instruction_error := TransactionError.DuplicateInstruction (as_u8 i) in
    match try_from_slice_unchecked (ci_data x.2) with
    | Some (RequestHeapFrame bytes) =>
        if bool_decide (is_Some (requested_heap_size r)) then Err duplicate_instruction_error else
        if sanitize_requested_heap_size bytes
        then Ok (mkRequests (num_non_compute_budget_instructions r) (updated_compute_unit_limit r)
                   (updated_compute_unit_price r) (Some bytes) (updated_loaded_accounts_data_size_limit r))
        else Err invalid_instruction_data_error
    | Some (SetComputeUnitLimit compute_unit_limit) =>
        if bool_decide (is_Some (updated_compute_unit_limit r)) then Err duplicate_instruction_error else
        Ok (mkRequests (num_non_compute_budget_instructions r) (Some compute_unit_limit)
              (updated_compute_unit_price r) (requested_heap_size r) (updated_loaded_accounts_data_size_limit r))
    | Some (SetComputeUnitPrice micro_lamports) =>
        if bool_decide (is_Some (updated_compute_unit_price r)) then Err duplicate_instruction_error else
        Ok (mkRequests (num_non_compute_budget_instructions r) (updated_compute_unit_limit r)
              (Some micro_lamports) (requested_heap_size r) (updated_loaded_accounts_data_size_limit r))
    | Some (SetLoadedAccountsDataSizeLimit bytes) =>
        if bool_decide (is_Some (updated_loaded_accounts_data_size_limit r)) then Err duplicate_instruction_error else
        Ok (mkRequests (num_non_compute_budget_instructions r) (updated_compute_unit_limit r)
              (updated_compute_unit_price r) (requested_heap_size r) (Some bytes))
    | _ => Err invalid_instruction_data_error
    end
  else
    Ok (mkRequests (saturating_add u32_max (num_non_compute_budget_instructions r) 1)
          (updated_compute_unit_limit r) (updated_compute_unit_price r) (requested_heap_size r)
          (updated_loaded_accounts_data_size_limit r)).
Fixpoint request_loop `{BorshComputeBudget} (i : N) (l : list (Pubkey * CompiledInstruction)) (r : Requests) :
  result TransactionError.t Requests :=
  match l with
  | [] => Ok r
  | x :: l' => let! r := add_request i x r in request_loop (i + 1) l' r
  end.
Definition process_compute_budget_instructions `{BorshComputeBudget}
    (instructions : list (Pubkey * CompiledInstruction)) : result TransactionError.t ComputeBudgetLimits :=
  let! r := request_loop 0 instructions no_requests in
  Ok (mkComputeBudgetLimits
        (N.min (default MIN_HEAP_FRAME_BYTES (requested_heap_size r)) MAX_HEAP_FRAME_BYTES)
        (N.min (default (N.min u32_max (num_non_compute_budget_instructions r
                                        * DEFAULT_INSTRUCTION_COMPUTE_UNIT_LIMIT))
                  (updated_compute_unit_limit r)) MAX_COMPUTE_UNIT_LIMIT)
        (default 0 (updated_compute_unit_price r))
        (N.min (default MAX_LOADED_ACCOUNTS_DATA_SIZE_BYTES (updated_loaded_accounts_data_size_limit r))
           MAX_LOADED_ACCOUNTS_DATA_SIZE_BYTES)).
(** [unwrap_or_default]; [program_instructions_iter] panics on an index out of range *)
Definition message_limits `{BorshComputeBudget} {E} (message : SanitizedMessage) : result E ComputeBudgetLimits :=
  let! instructions := program_instructions message in
  match process_compute_budget_instructions instructions with
  | Ok limits => Ok limits
  | Err _ => Ok limits_default
  | Panic => Panic
  end.
(** [ComputeBudget::try_from_instructions] *)
Definition try_from_instructions `{BorshComputeBudget} (instructions : list (Pubkey * CompiledInstruction)) :
  result TransactionError.t ComputeBudget :=
  let! limits := process_compute_budget_instructions instructions in
  Ok (mkComputeBudget (limit_compute_units limits) 5 64 (updated_heap_bytes limits)).

Record FeeBudgetLimits := mkFeeBudgetLimits {
  loaded_accounts_data_size_limit : N;
  heap_cost : N;
  fee_compute_unit_limit : N;
  prioritization_fee : N }.
(** [From<ComputeBudgetLimits>] *)
Definition fee_budget_limits (val : ComputeBudgetLimits) : FeeBudgetLimits :=
  mkFeeBudgetLimits (loaded_accounts_bytes val) DEFAULT_HEAP_COST (limit_compute_units val)
    (fee_of (prioritization_fee_new (compute_unit_price val) (limit_compute_units val))).

(** ** Fees *)
Record FeeBin := mkFeeBin { bin_limit : N; bin_fee : N }.
Record FeeStructure := mkFeeStructure {
  fs_lamports_per_signature : N;
  lamports_per_write_lock : N;
  compute_fee_bins : list FeeBin }.
(** the default: 0.000005 SOL per signature, nothing per write lock, one bin *)
Definition fee_structure_default : FeeStructure := mkFeeStructure 5000 0 [mkFeeBin 1400000 0].
Definition ACCOUNT_DATA_COST_PAGE_SIZE : N := 32 * 1024.

Definition saturating_mul_u64 (a b : N) : N := N.min u64_max (a * b).
Definition last_fee (fs : FeeStructure) : N := default 0 (bin_fee <$> list.last (compute_fee_bins fs)).
Definition get_max_fee (fs : FeeStructure) (num_signatures num_write_locks : N) : N :=
  saturating_add u64_max
    (saturating_add u64_max (saturating_mul_u64 num_signatures (fs_lamports_per_signature fs))
       (saturating_mul_u64 num_write_locks (lamports_per_write_lock fs)))
    (last_fee fs).
Definition calculate_memory_usage_cost (loaded_accounts_data_size_limit heap_cost : N) : N :=
  saturating_mul_u64
    (saturating_add u64_max loaded_accounts_data_size_limit (saturating_sub ACCOUNT_DATA_COST_PAGE_SIZE 1)
     / ACCOUNT_DATA_COST_PAGE_SIZE) heap_cost.

(** [f64::round]: to the nearest integer, halves away from zero *)
Definition f64_round (x : f64) : f64 :=
  match x with
  | S754_finite s m e =>
      if (0 <=? e)%Z then x else
      let n := ((Z.pos m + 2 ^ (- e - 1)) / 2 ^ (- e))%Z in
      binary_normalize 53 1024 (if s then - n else n)%Z 0 s
  | _ => x
  end.

Definition calculate_fee {E} (fs : FeeStructure) (message : SanitizedMessage) (lamports_per_signature : N)
    (budget_limits : FeeBudgetLimits) (include_loaded_account_data_size_in_fee : bool) : result E N :=
  let congestion_multiplier := if lamports_per_signature =? 0 then f64_of_u64 0 else f64_of_u64 1 in
  let! details := get_signature_details message in
  let signature_fee := saturating_mul_u64 (total_signatures details) (fs_lamports_per_signature fs) in
  let write_lock_fee := saturating_mul_u64 (num_write_locks message) (lamports_per_write_lock fs) in
  let loaded_accounts_data_size_cost :=
    if include_loaded_account_data_size_in_fee
    then calculate_memory_usage_cost (loaded_accounts_data_size_limit budget_limits) (heap_cost budget_limits)
    else 0 in
  let total_compute_units :=
    saturating_add u64_max loaded_accounts_data_size_cost (fee_compute_unit_limit budget_limits) in
  let compute_fee :=
    match list_find (λ bin, total_compute_units ≤ bin_limit bin) (compute_fee_bins fs) with
    | Some (_, bin) => bin_fee bin
    | None => last_fee fs
    end in
  let sum := saturating_add u64_max
               (saturating_add u64_max
                  (saturating_add u64_max (prioritization_fee budget_limits) signature_fee) write_lock_fee)
               compute_fee in
  Ok (f64_to_u64 (f64_round (f64_mul (f64_of_u64 sum) congestion_multiplier))).
(** [Bank::get_fee_for_message_with_lamports_per_signature], and the fee of [load_accounts] *)
Definition get_fee_for_message {E} `{BorshComputeBudget} (fs : FeeStructure) (message : SanitizedMessage)
    (lamports_per_signature : N) (include_loaded_account_data_size_in_fee : bool) : result E N :=
  let! limits := message_limits message in
  calculate_fee fs message lamports_per_signature (fee_budget_limits limits)
    include_loaded_account_data_size_in_fee.
