(* ===== verification/CostModel.v ===== *)
(** * Cost of transactions and of blocks

    What a transaction costs ([cost-model/src/cost_model.rs], [transaction_cost.rs],
    [block_cost_limits.rs]), the tracker of the costs of a block ([cost_tracker.rs]), the service
    that the threads of a leader charge it through ([core/src/banking_stage/qos_service.rs]) and
    the use of it in replay ([ledger/src/blockstore_processor.rs]). *)

From S2P Require Import ConfigProgram StakeProgram Prelude Sdk Message Rent Account Nonce SystemProgram MigraterProgram LookupTable.
From S2P Require Import InvokeContext VoteProgram Bank AccountLocks Fees.

(** ** Limits *)
Definition MAX_BLOCK_REPLAY_TIME_US : N := 400000.
Definition MAX_CONCURRENCY : N := 4.
Definition COMPUTE_UNIT_TO_US_RATIO : N := 30.
Definition SIGNATURE_COST : N := COMPUTE_UNIT_TO_US_RATIO * 24.
Definition SECP256K1_VERIFY_COST : N := COMPUTE_UNIT_TO_US_RATIO * 223.
Definition ED25519_VERIFY_COST : N := COMPUTE_UNIT_TO_US_RATIO * 76.
Definition WRITE_LOCK_UNITS : N := COMPUTE_UNIT_TO_US_RATIO * 10.
Definition INSTRUCTION_DATA_BYTES_COST : N := 140 / COMPUTE_UNIT_TO_US_RATIO.
Definition COMPUTE_BUDGET_COMPUTE_UNITS : N := 150.
Definition UPGRADEABLE_LOADER_COMPUTE_UNITS : N := 2370.
Definition DEPRECATED_LOADER_COMPUTE_UNITS : N := 1140.
Definition DEFAULT_LOADER_COMPUTE_UNITS : N := 570.
Definition LOADER_V4_COMPUTE_UNITS : N := 2000.
Definition BUILT_IN_INSTRUCTION_COSTS : gmap Pubkey N :=
  list_to_map
    [(stake_program_id, STAKE_COMPUTE_UNITS);
     (config_program_id, CONFIG_COMPUTE_UNITS);
     (vote_program_id, VOTE_COMPUTE_UNITS);
     (system_program_id, SYSTEM_COMPUTE_UNITS);
     (compute_budget_id, COMPUTE_BUDGET_COMPUTE_UNITS);
     (lookup_table_program_id, LOOKUP_TABLE_COMPUTE_UNITS);
     (sonic_account_migrater_id, DEFAULT_COMPUTE_UNITS);
     (bpf_loader_upgradeable_id, UPGRADEABLE_LOADER_COMPUTE_UNITS);
     (bpf_loader_deprecated_id, DEPRECATED_LOADER_COMPUTE_UNITS);
     (bpf_loader_id, DEFAULT_LOADER_COMPUTE_UNITS);
     (loader_v4_id, LOADER_V4_COMPUTE_UNITS);
     (secp256k1_program_id, 0);
     (ed25519_program_id, 0)].
Definition MAX_BLOCK_UNITS : N := MAX_BLOCK_REPLAY_TIME_US * COMPUTE_UNIT_TO_US_RATIO * MAX_CONCURRENCY.
Definition MAX_WRITABLE_ACCOUNT_UNITS : N := MAX_BLOCK_REPLAY_TIME_US * COMPUTE_UNIT_TO_US_RATIO.
(** [(MAX_BLOCK_UNITS as f64 * 0.75_f64) as u64], exact for this value *)
Definition MAX_VOTE_UNITS : N := MAX_BLOCK_UNITS * 3 / 4.
Definition MAX_BLOCK_ACCOUNTS_DATA_SIZE_DELTA : N := 100000000.

Definition cost_model_requested_write_lock_cost_id : Pubkey :=
  pubkey_of_N 0xdeb8b43438051a17730dafa1713c73405e6e335398a57639699b410f0d65e87.
Definition include_loaded_accounts_data_size_in_fee_calculation_id : Pubkey :=
  pubkey_of_N 0xc9b708b6bba5b1a6dcbfd04fede728a352cd7142390ca0411366deff5024fe35.
Definition apply_cost_tracker_during_replay_id : Pubkey :=
  pubkey_of_N 0x1ba89a1c70b29aca07343d0bbfe24867973adb592e5d00fade498b33773f70a0.

(** ** The cost of a transaction *)
Record UsageCostDetails := mkUsageCostDetails {
  uc_writable_accounts : list Pubkey;
  uc_signature_cost : N;
  uc_write_lock_cost : N;
  uc_data_bytes_cost : N;
  uc_builtins_execution_cost : N;
  uc_bpf_execution_cost : N;
  uc_loaded_accounts_data_size_cost : N;
  uc_account_data_size : N;
  uc_num_transaction_signatures : N;
  uc_num_secp256k1_instruction_signatures : N;
  uc_num_ed25519_instruction_signatures : N }.
Definition usage_default : UsageCostDetails := mkUsageCostDetails [] 0 0 0 0 0 0 0 0 0 0.
Definition usage_sum (u : UsageCostDetails) : N :=
  let add := saturating_add u64_max in
  add (add (add (add (add (uc_signature_cost u) (uc_write_lock_cost u)) (uc_data_bytes_cost u))
              (uc_builtins_execution_cost u)) (uc_bpf_execution_cost u))
    (uc_loaded_accounts_data_size_cost u).

Definition SIMPLE_VOTE_USAGE_COST : N := 3428.
Inductive TransactionCost :=
| SimpleVote (writable_accounts : list Pubkey)
| TransactionUsage (usage_cost : UsageCostDetails).
Definition tc_sum (c : TransactionCost) : N :=
  match c with SimpleVote _ => SIMPLE_VOTE_USAGE_COST | TransactionUsage u => usage_sum u end.
Definition tc_bpf_execution_cost (c : TransactionCost) : N :=
  match c with SimpleVote _ => 0 | TransactionUsage u => uc_bpf_execution_cost u end.
Definition tc_is_simple_vote (c : TransactionCost) : bool :=
  match c with SimpleVote _ => true | TransactionUsage _ => false end.
Definition tc_account_data_size (c : TransactionCost) : N :=
  match c with SimpleVote _ => 0 | TransactionUsage u => uc_account_data_size u end.
Definition tc_signature_cost (c : TransactionCost) : N :=
  match c with SimpleVote _ => SIGNATURE_COST | TransactionUsage u => uc_signature_cost u end.
Definition tc_writable_accounts (c : TransactionCost) : list Pubkey :=
  match c with SimpleVote w => w | TransactionUsage u => uc_writable_accounts u end.
Definition tc_num_transaction_signatures (c : TransactionCost) : N :=
  match c with SimpleVote _ => 1 | TransactionUsage u => uc_num_transaction_signatures u end.
Definition tc_num_secp256k1_instruction_signatures (c : TransactionCost) : N :=
  match c with SimpleVote _ => 0 | TransactionUsage u => uc_num_secp256k1_instruction_signatures u end.
Definition tc_num_ed25519_instruction_signatures (c : TransactionCost) : N :=
  match c with SimpleVote _ => 0 | TransactionUsage u => uc_num_ed25519_instruction_signatures u end.

Section cost_model.
Context `{BorshComputeBudget, !Bincode SystemInstruction} {E : Type}.
Implicit Types tx : SanitizedTransaction.
Implicit Types feature_set : gset Pubkey.

Definition get_signature_cost (u : UsageCostDetails) tx : result E UsageCostDetails :=
  let! d := get_signature_details (tx_message tx) in
  Ok (mkUsageCostDetails (uc_writable_accounts u)
        (saturating_add u64_max
           (saturating_add u64_max (saturating_mul_u64 (num_transaction_signatures d) SIGNATURE_COST)
              (saturating_mul_u64 (num_secp256k1_instruction_signatures d) SECP256K1_VERIFY_COST))
           (saturating_mul_u64 (num_ed25519_instruction_signatures d) ED25519_VERIFY_COST))
        (uc_write_lock_cost u) (uc_data_bytes_cost u) (uc_builtins_execution_cost u) (uc_bpf_execution_cost u)
        (uc_loaded_accounts_data_size_cost u) (uc_account_data_size u) (num_transaction_signatures d)
        (num_secp256k1_instruction_signatures d) (num_ed25519_instruction_signatures d)).

Definition get_writable_accounts tx : list Pubkey :=
  let message := tx_message tx in
  omap (λ x : nat * Pubkey, if sm_is_writable message (N.of_nat x.1) then Some x.2 else None)
    (imap pair (account_keys_iter (sm_account_keys message))).

Definition get_write_lock_cost (u : UsageCostDetails) tx feature_set : UsageCostDetails :=
  let writable_accounts := get_writable_accounts tx in
  let locks := if decide (cost_model_requested_write_lock_cost_id ∈ feature_set)
               then num_write_locks (tx_message tx) else len writable_accounts in
  mkUsageCostDetails writable_accounts (uc_signature_cost u) (saturating_mul_u64 WRITE_LOCK_UNITS locks)
    (uc_data_bytes_cost u) (uc_builtins_execution_cost u) (uc_bpf_execution_cost u)
    (uc_loaded_accounts_data_size_cost u) (uc_account_data_size u) (uc_num_transaction_signatures u)
    (uc_num_secp256k1_instruction_signatures u) (uc_num_ed25519_instruction_signatures u).

(** what the loop over the instructions has added up *)
Record InstructionCosts := mkInstructionCosts {
  builtin_costs : N; bpf_costs : N; data_bytes_len_total : N; compute_unit_limit_is_set : bool }.
Definition add_instruction_cost (s : InstructionCosts) (x : Pubkey * CompiledInstruction) : InstructionCosts :=
  mkInstructionCosts
    match BUILT_IN_INSTRUCTION_COSTS !! x.1 with
    | Some builtin_cost => saturating_add u64_max (builtin_costs s) builtin_cost
    | None => builtin_costs s
    end
    match BUILT_IN_INSTRUCTION_COSTS !! x.1 with
    | Some _ => bpf_costs s
    | None => N.min (saturating_add u64_max (bpf_costs s) DEFAULT_INSTRUCTION_COMPUTE_UNIT_LIMIT)
                MAX_COMPUTE_UNIT_LIMIT
    end
    (saturating_add u64_max (data_bytes_len_total s) (len (ci_data x.2)))
    (if key_eqb x.1 compute_budget_id then
       match try_from_slice_unchecked (ci_data x.2) with
       | Some (SetComputeUnitLimit _) => true
       | _ => compute_unit_limit_is_set s
       end
     else compute_unit_limit_is_set s).
Definition get_transaction_cost (u : UsageCostDetails) tx feature_set : result E UsageCostDetails :=
  let! instructions := program_instructions (tx_message tx) in
  let s := foldl add_instruction_cost (mkInstructionCosts 0 0 0 false) instructions in
  let set builtin bpf loaded :=
    Ok (mkUsageCostDetails (uc_writable_accounts u) (uc_signature_cost u) (uc_write_lock_cost u)
          (data_bytes_len_total s / INSTRUCTION_DATA_BYTES_COST) builtin bpf loaded (uc_account_data_size u)
          (uc_num_transaction_signatures u) (uc_num_secp256k1_instruction_signatures u)
          (uc_num_ed25519_instruction_signatures u)) in
  match process_compute_budget_instructions instructions with
  | Ok limits =>
      set (builtin_costs s)
        (if (0 <? bpf_costs s) && compute_unit_limit_is_set s then limit_compute_units limits else bpf_costs s)
        (if decide (include_loaded_accounts_data_size_in_fee_calculation_id ∈ feature_set)
         then calculate_memory_usage_cost (loaded_accounts_bytes limits) DEFAULT_HEAP_COST else 0)
  | Err _ => set 0 0 0
  | Panic => Panic
  end.

Definition calculate_account_data_size_on_deserialized_system_instruction (instruction : SystemInstruction) : N :=
  match instruction with
  | CreateAccount _ space _ => space
  | CreateAccountWithSeed _ _ _ space _ => space
  | Allocate space => space
  | AllocateWithSeed _ _ space _ => space
  | _ => 0
  end.
Definition calculate_account_data_size_on_instruction (x : Pubkey * CompiledInstruction) : N :=
  if key_eqb x.1 system_program_id then
    match limited_deserialize (ci_data x.2) with
    | Ok instruction => calculate_account_data_size_on_deserialized_system_instruction instruction
    | _ => 0
    end
  else 0.
(** [sum] wraps around *)
Definition calculate_account_data_size tx : result E N :=
  let! instructions := program_instructions (tx_message tx) in
  Ok (foldl wrapping_add 0 (calculate_account_data_size_on_instruction <$> instructions)).

Definition calculate_cost tx feature_set : result E TransactionCost :=
  if is_simple_vote_transaction tx then Ok (SimpleVote (get_writable_accounts tx)) else
  let! u := get_signature_cost usage_default tx in
  let u := get_write_lock_cost u tx feature_set in
  let! u := get_transaction_cost u tx feature_set in
  let! size := calculate_account_data_size tx in
  Ok (TransactionUsage
        (mkUsageCostDetails (uc_writable_accounts u) (uc_signature_cost u) (uc_write_lock_cost u)
           (uc_data_bytes_cost u) (uc_builtins_execution_cost u) (uc_bpf_execution_cost u)
           (uc_loaded_accounts_data_size_cost u) size (uc_num_transaction_signatures u)
           (uc_num_secp256k1_instruction_signatures u) (uc_num_ed25519_instruction_signatures u))).
End cost_model.

(** ** The tracker of a block *)
Inductive CostTrackerError :=
| WouldExceedBlockMaxLimit | WouldExceedVoteMaxLimit | WouldExceedAccountMaxLimit
| WouldExceedAccountDataBlockLimit | WouldExceedAccountDataTotalLimit.
Definition cost_tracker_error (e : CostTrackerError) : TransactionError.t :=
  match e with
  | WouldExceedBlockMaxLimit => TransactionError.WouldExceedMaxBlockCostLimit
  | WouldExceedVoteMaxLimit => TransactionError.WouldExceedMaxVoteCostLimit
  | WouldExceedAccountMaxLimit => TransactionError.WouldExceedMaxAccountCostLimit
  | WouldExceedAccountDataBlockLimit => TransactionError.WouldExceedAccountDataBlockLimit
  | WouldExceedAccountDataTotalLimit => TransactionError.WouldExceedAccountDataTotalLimit
  end.

Record CostTracker := mkCostTracker {
  account_cost_limit : N;
  block_cost_limit : N;
  vote_cost_limit : N;
  cost_by_writable_accounts : gmap Pubkey N;
  block_cost : N;
  vote_cost : N;
  ct_transaction_count : N;
  ct_account_data_size : N;
  transaction_signature_count : N;
  secp256k1_instruction_signature_count : N;
  ed25519_instruction_signature_count : N }.
Definition tracker_default : CostTracker :=
  mkCostTracker MAX_WRITABLE_ACCOUNT_UNITS MAX_BLOCK_UNITS MAX_VOTE_UNITS ∅ 0 0 0 0 0 0 0.
Definition set_limits (account block vote : N) (t : CostTracker) : CostTracker :=
  mkCostTracker account block vote (cost_by_writable_accounts t) (block_cost t) (vote_cost t)
    (ct_transaction_count t) (ct_account_data_size t) (transaction_signature_count t)
    (secp256k1_instruction_signature_count t) (ed25519_instruction_signature_count t).

Fixpoint fits_accounts (accounts : list Pubkey) (cost : N) (t : CostTracker) : result CostTrackerError unit :=
  match accounts with
  | [] => Ok tt
  | account_key :: accounts' =>
      match cost_by_writable_accounts t !! account_key with
      | Some chained_cost =>
          if account_cost_limit t <? saturating_add u64_max chained_cost cost
          then Err WouldExceedAccountMaxLimit else fits_accounts accounts' cost t
      | None => fits_accounts accounts' cost t
      end
  end.
Definition would_fit (c : TransactionCost) (t : CostTracker) : result CostTrackerError unit :=
  let cost := tc_sum c in
  if tc_is_simple_vote c && (vote_cost_limit t <? saturating_add u64_max (vote_cost t) cost)
  then Err WouldExceedVoteMaxLimit else
  if block_cost_limit t <? saturating_add u64_max (block_cost t) cost then Err WouldExceedBlockMaxLimit else
  if account_cost_limit t <? cost then Err WouldExceedAccountMaxLimit else
  if MAX_BLOCK_ACCOUNTS_DATA_SIZE_DELTA
     <? saturating_add u64_max (ct_account_data_size t) (tc_account_data_size c)
  then Err WouldExceedAccountDataBlockLimit else
  fits_accounts (tc_writable_accounts c) cost t.

(** [entry(key).or_insert(0)], changed in place *)
Definition adjust_accounts (f : N → N) (accounts : list Pubkey) (m : gmap Pubkey N) : gmap Pubkey N :=
  foldl (λ m k, <[k := f (default 0 (m !! k))]> m) m accounts.
Definition adjust_execution_cost (f : N → N) (c : TransactionCost) (t : CostTracker) : CostTracker :=
  mkCostTracker (account_cost_limit t) (block_cost_limit t) (vote_cost_limit t)
    (adjust_accounts f (tc_writable_accounts c) (cost_by_writable_accounts t)) (f (block_cost t))
    (if tc_is_simple_vote c then f (vote_cost t) else vote_cost t)
    (ct_transaction_count t) (ct_account_data_size t) (transaction_signature_count t)
    (secp256k1_instruction_signature_count t) (ed25519_instruction_signature_count t).
Definition add_transaction_execution_cost (c : TransactionCost) (adjustment : N) : CostTracker → CostTracker :=
  adjust_execution_cost (λ x, saturating_add u64_max x adjustment) c.
Definition sub_transaction_execution_cost (c : TransactionCost) (adjustment : N) : CostTracker → CostTracker :=
  adjust_execution_cost (λ x, saturating_sub x adjustment) c.

Definition add_transaction_cost (c : TransactionCost) (t : CostTracker) : CostTracker :=
  let t := add_transaction_execution_cost c (tc_sum c) t in
  let add := saturating_add u64_max in
  mkCostTracker (account_cost_limit t) (block_cost_limit t) (vote_cost_limit t)
    (cost_by_writable_accounts t) (block_cost t) (vote_cost t)
    (add (ct_transaction_count t) 1)
    (add (ct_account_data_size t) (tc_account_data_size c))
    (add (transaction_signature_count t) (tc_num_transaction_signatures c))
    (add (secp256k1_instruction_signature_count t) (tc_num_secp256k1_instruction_signatures c))
    (add (ed25519_instruction_signature_count t) (tc_num_ed25519_instruction_signatures c)).
Definition remove_transaction_cost (c : TransactionCost) (t : CostTracker) : CostTracker :=
  let t := sub_transaction_execution_cost c (tc_sum c) t in
  mkCostTracker (account_cost_limit t) (block_cost_limit t) (vote_cost_limit t)
    (cost_by_writable_accounts t) (block_cost t) (vote_cost t)
    (saturating_sub (ct_transaction_count t) 1)
    (saturating_sub (ct_account_data_size t) (tc_account_data_size c))
    (saturating_sub (transaction_signature_count t) (tc_num_transaction_signatures c))
    (saturating_sub (secp256k1_instruction_signature_count t) (tc_num_secp256k1_instruction_signatures c))
    (saturating_sub (ed25519_instruction_signature_count t) (tc_num_ed25519_instruction_signatures c)).

Definition try_add (c : TransactionCost) (t : CostTracker) : result CostTrackerError N * CostTracker :=
  match would_fit c t with
  | Ok _ => let t := add_transaction_cost c t in (Ok (block_cost t), t)
  | Err e => (Err e, t)
  | Panic => (Panic, t)
  end.
Definition update_execution_cost (estimated_tx_cost : TransactionCost) (actual_execution_units : N)
    (t : CostTracker) : CostTracker :=
  let estimated_execution_units := tc_bpf_execution_cost estimated_tx_cost in
  match actual_execution_units ?= estimated_execution_units with
  | Eq => t
  | Gt => add_transaction_execution_cost estimated_tx_cost
            (actual_execution_units - estimated_execution_units) t
  | Lt => sub_transaction_execution_cost estimated_tx_cost
            (estimated_execution_units - actual_execution_units) t
  end.

(** ** The service that charges the tracker *)
Inductive CommitTransactionDetails := Committed (compute_units : N) | NotCommitted.

Section qos.
Context `{BorshComputeBudget, !Bincode SystemInstruction} {E : Type}.
Local Abbreviation cost_result := (result TransactionError.t TransactionCost).

Definition compute_transaction_costs (feature_set : gset Pubkey) (transactions : list SanitizedTransaction)
    (pre_results : list (result TransactionError.t unit)) : result E (list cost_result) :=
  rmapM (λ x : SanitizedTransaction * result TransactionError.t unit,
           match x.2 with
           | Ok _ => let! c := calculate_cost x.1 feature_set in Ok (Ok c)
           | Err e => Ok (Err e)
           | Panic => Panic
           end) (zip transactions pre_results).

Fixpoint select_transactions_per_cost (costs : list cost_result) (t : CostTracker) :
  list cost_result * nat * CostTracker :=
  match costs with
  | [] => ([], 0%nat, t)
  | Ok c :: costs' =>
      match try_add c t with
      | (Ok _, t) => let '(rs, n, t) := select_transactions_per_cost costs' t in (Ok c :: rs, S n, t)
      | (Err e, t) => let '(rs, n, t) := select_transactions_per_cost costs' t in
                      (Err (cost_tracker_error e) :: rs, n, t)
      | (Panic, t) => (Panic :: costs', 0%nat, t)
      end
  | r :: costs' => let '(rs, n, t) := select_transactions_per_cost costs' t in (r :: rs, n, t)
  end.
Definition select_and_accumulate_transaction_costs (feature_set : gset Pubkey)
    (transactions : list SanitizedTransaction) (pre_results : list (result TransactionError.t unit))
    (t : CostTracker) : result E (list cost_result * nat * CostTracker) :=
  let! transaction_costs := compute_transaction_costs feature_set transactions pre_results in
  let '(results, num_included, t) := select_transactions_per_cost transaction_costs t in
  Ok (results, (length transactions - num_included)%nat, t).

(** [for_each] over the results and the details, with the tracker behind its lock *)
Definition remove_uncommitted_transaction_costs (costs : list cost_result)
    (status : list CommitTransactionDetails) (t : CostTracker) : CostTracker :=
  foldl (λ t x, match x with (Ok c, NotCommitted) => remove_transaction_cost c t | _ => t end) t (zip costs status).
Definition update_committed_transaction_costs (costs : list cost_result)
    (status : list CommitTransactionDetails) (t : CostTracker) : CostTracker :=
  foldl (λ t x, match x with (Ok c, Committed units) => update_execution_cost c units t | _ => t end)
    t (zip costs status).
Definition remove_transaction_costs (costs : list cost_result) (t : CostTracker) : CostTracker :=
  foldl (λ t r, match r with Ok c => remove_transaction_cost c t | _ => t end) t costs.
Definition remove_costs (costs : list cost_result) (status : option (list CommitTransactionDetails))
    (t : CostTracker) : CostTracker :=
  match status with
  | Some status => remove_uncommitted_transaction_costs costs status t
  | None => remove_transaction_costs costs t
  end.
Definition update_costs (costs : list cost_result) (status : option (list CommitTransactionDetails))
    (t : CostTracker) : CostTracker :=
  match status with
  | Some status => update_committed_transaction_costs costs status t
  | None => t
  end.
End qos.

(** ** Replay *)
Record TransactionBatchWithIndexes := mkBatchWithIndexes {
  bi_batch : TransactionBatch; bi_transaction_indexes : list N }.
Definition batch_rows (b : TransactionBatchWithIndexes) : list (LockResult * SanitizedTransaction * N) :=
  zip (zip (lock_results (bi_batch b)) (sanitized_txs (bi_batch b))) (bi_transaction_indexes b).

Section replay.
Context `{BorshComputeBudget, !Bincode SystemInstruction}.

(** [l[start..=end_]] *)
Definition inclusive_slice {A E} (l : list A) (start end_ : nat) : result E (list A) :=
  if (start <=? S end_)%nat && (S end_ <=? length l)%nat then Ok (take (S end_ - start) (drop start l)) else Panic.
Definition rebatch_transactions {E} (results : list LockResult) (txs : list SanitizedTransaction)
    (start end_ : nat) (transaction_indexes : list N) : result E TransactionBatchWithIndexes :=
  let! txs := inclusive_slice txs start end_ in
  let! results := inclusive_slice results start end_ in
  let! tx_batch := batch_new results txs in
  let! transaction_indexes := inclusive_slice transaction_indexes start end_ in
  Ok (mkBatchWithIndexes (set_needs_unlock false tx_batch) transaction_indexes).

(** the loop over the costs; a batch ends where it costs enough, or with the last transaction *)
Fixpoint rebatch_loop {E} (target_batch_cost : N) (results : list LockResult) (txs : list SanitizedTransaction)
    (transaction_indexes : list N) (costs : list TransactionCost) (index slice_start : nat) (batch_cost : N) :
  result E (list TransactionBatchWithIndexes) :=
  match costs with
  | [] => Ok []
  | c :: costs' =>
      let next_index := S index in
      let batch_cost := saturating_add u64_max batch_cost (tc_sum c) in
      if (target_batch_cost <=? batch_cost) || (next_index =? length txs)%nat then
        let! tx_batch := rebatch_transactions results txs slice_start index transaction_indexes in
        let! rest := rebatch_loop target_batch_cost results txs transaction_indexes costs' next_index next_index 0 in
        Ok (tx_batch :: rest)
      else rebatch_loop target_batch_cost results txs transaction_indexes costs' next_index slice_start batch_cost
  end.

(** the costs charged in replay, in order, up to the first that does not fit *)
Fixpoint charge_costs (costs : list TransactionCost) (t : CostTracker) :
  result TransactionError.t unit * CostTracker :=
  match costs with
  | [] => (Ok tt, t)
  | c :: costs' =>
      match try_add c t with
      | (Ok _, t) => charge_costs costs' t
      | (Err e, t) => (Err (cost_tracker_error e), t)
      | (Panic, t) => (Panic, t)
      end
  end.

(** the batches that [rebatch_and_execute_batches] executes, and the tracker it leaves *)
Definition rebatch_batches (thread_count : N) (feature_set : gset Pubkey)
    (batches : list TransactionBatchWithIndexes) (t : CostTracker) :
  result TransactionError.t (list TransactionBatchWithIndexes) * CostTracker :=
  if bool_decide (length batches = 0%nat) then (Ok [], t) else
  let rows := batches ≫= batch_rows in
  let results := rows.*1.*1 in
  let txs := rows.*1.*2 in
  let transaction_indexes := rows.*2 in
  match rmapM (λ tx, calculate_cost tx feature_set) txs with
  | Ok tx_costs =>
      let minimal_tx_cost := foldl N.min u64_max (tc_sum <$> tx_costs) in
      let total_cost := foldl (saturating_add u64_max) 0 (tc_sum <$> tx_costs) in
      let charged := if decide (apply_cost_tracker_during_replay_id ∈ feature_set)
                     then charge_costs tx_costs t else (Ok tt, t) in
      (let! _ := charged.1 in
       if saturating_mul_u64 thread_count minimal_tx_cost <? total_cost then
         if thread_count =? 0 then Panic else
         rebatch_loop (total_cost / thread_count) results txs transaction_indexes tx_costs 0 0 0
       else Ok batches, charged.2)
  | Err e => (Err e, t)
  | Panic => (Panic, t)
  end.
End replay.
