(* ===== verification/CostRules.v ===== *)
(** * The costs of a block

    The tracker as a ledger of charges: every counter is a sum over the transactions that are
    charged, whatever the threads of a leader do, and the limits of a block hold up to what
    executions used beyond their estimates.  Replay charges the same transactions and accepts
    them.  Two closed runs: a block whose transactions use more units than estimated, and one that
    another node replays. *)

From S2P Require Import Prelude Sdk Message MessageRules Rent Account Nonce SystemProgram InstructionRules ExecuteRules.
From S2P Require Import InvokeContext Bank AccountLocks Fees CostModel.
From S2P Require Import Codec.

(** ** Saturating sums *)
Lemma saturating_exact m a b : saturating_add m a b < m → saturating_add m a b = a + b.
Proof. unfold saturating_add. lia. Qed.
Lemma saturating_fits m a b : a + b ≤ m → saturating_add m a b = a + b.
Proof. unfold saturating_add. lia. Qed.

Lemma usage_sum_exact u : usage_sum u < u64_max →
  usage_sum u = uc_signature_cost u + uc_write_lock_cost u + uc_data_bytes_cost u +
    uc_builtins_execution_cost u + uc_bpf_execution_cost u + uc_loaded_accounts_data_size_cost u.
Proof. unfold usage_sum, saturating_add. lia. Qed.

Section weighted.
Context {A : Type}.
Implicit Types w v : A → N.
Definition tot w (l : list A) : N := sumN (w <$> l).
Lemma tot_cons w x l : tot w (x :: l) = w x + tot w l.
Proof. done. Qed.
Lemma tot_app w l k : tot w (l ++ k) = tot w l + tot w k.
Proof. unfold tot. by rewrite fmap_app, sumN_app. Qed.
#[export] Instance tot_perm w : Proper ((≡ₚ) ==> (=)) (tot w).
Proof. unfold tot. induction 1; rewrite ?fmap_cons, ?sumN_cons; [done|lia..|congruence]. Qed.
Lemma tot_le w v l : Forall (λ x, w x ≤ v x) l → tot w l ≤ tot v l.
Proof. induction 1 as [|x l Hx _ IH]; [apply N.le_refl|]. rewrite !tot_cons. lia. Qed.
Lemma tot_add w v l : tot (λ x, w x + v x) l = tot w l + tot v l.
Proof. induction l as [|x l IH]; [done|]. rewrite !tot_cons. lia. Qed.
Lemma tot_const n l : tot (λ _, n) l = n * len l.
Proof.
  unfold len. induction l as [|x l IH]; [by rewrite N.mul_0_r|]. rewrite tot_cons, IH. cbn [length]. lia.
Qed.
Lemma tot_zero l w : Forall (λ x, w x = 0) l → tot w l = 0.
Proof. induction 1 as [|x l Hx _ IH]; [done|]. rewrite tot_cons. lia. Qed.
End weighted.

(** ** What a transaction is charged *)
Record Charge := mkCharge { ch_tx : SanitizedTransaction; ch_cost : TransactionCost; ch_units : N }.

(** the counters of the tracker and what a charge adds to them *)
Inductive Counter :=
| BlockUnits | VoteUnits | AccountUnits (k : Pubkey)
| Transactions | DataSize | Signatures | Secp256k1Signatures | Ed25519Signatures.
#[export] Instance counter_eq_dec : EqDecision Counter.
Proof. solve_decision. Defined.
Definition counter (x : Counter) (t : CostTracker) : N :=
  match x with
  | BlockUnits => block_cost t
  | VoteUnits => vote_cost t
  | AccountUnits k => default 0 (cost_by_writable_accounts t !! k)
  | Transactions => ct_transaction_count t
  | DataSize => ct_account_data_size t
  | Signatures => transaction_signature_count t
  | Secp256k1Signatures => secp256k1_instruction_signature_count t
  | Ed25519Signatures => ed25519_instruction_signature_count t
  end.
(** the counters of units that a transaction is charged to *)
Definition charged (x : Counter) (c : TransactionCost) : bool :=
  match x with
  | BlockUnits => true
  | VoteUnits => tc_is_simple_vote c
  | AccountUnits k => bool_decide (k ∈ tc_writable_accounts c)
  | _ => false
  end.
Definition once (x : Counter) (c : TransactionCost) : N :=
  match x with
  | Transactions => 1
  | DataSize => tc_account_data_size c
  | Signatures => tc_num_transaction_signatures c
  | Secp256k1Signatures => tc_num_secp256k1_instruction_signatures c
  | Ed25519Signatures => tc_num_ed25519_instruction_signatures c
  | _ => 0
  end.
Definition weight (x : Counter) (ch : Charge) : N :=
  (if charged x (ch_cost ch) then ch_units ch else 0) + once x (ch_cost ch).
(** the units beyond the estimate *)
Definition over (x : Counter) (ch : Charge) : N :=
  if charged x (ch_cost ch) then ch_units ch - tc_sum (ch_cost ch) else 0.
Definition tracks (t : CostTracker) (l : list Charge) : Prop := ∀ x, counter x t = tot (weight x) l.
Arguments weight : simpl never.

#[export] Instance tracks_perm t : Proper ((≡ₚ) ==> iff) (tracks t).
Proof. intros l k Hp. unfold tracks. by setoid_rewrite Hp. Qed.

Lemma adjust_accounts_lookup f accounts : ∀ m k, NoDup accounts →
  default 0 (adjust_accounts f accounts m !! k) =
  if decide (k ∈ accounts) then f (default 0 (m !! k)) else default 0 (m !! k).
Proof.
  induction accounts as [|a accounts IH]; intros m k Hnd; [done|]. apply list.NoDup_cons in Hnd as [Ha Hnd].
  change (adjust_accounts f (a :: accounts) m) with
    (adjust_accounts f accounts (<[a := f (default 0 (m !! a))]> m)).
  rewrite IH by done. destruct (decide (k = a)) as [->|Hne].
  - rewrite decide_False, decide_True by (done || left). by rewrite lookup_insert_eq.
  - rewrite lookup_insert_ne by done. by destruct (decide (k ∈ accounts)); case_decide; set_solver.
Qed.

Lemma counter_adjust f x c t : NoDup (tc_writable_accounts c) →
  counter x (adjust_execution_cost f c t) = if charged x c then f (counter x t) else counter x t.
Proof.
  intros Hnd. destruct x; simpl; try done. rewrite adjust_accounts_lookup by done. by repeat case_decide.
Qed.
Lemma counter_add x tx c t : NoDup (tc_writable_accounts c) → counter x t ≤ u64_max →
  counter x (add_transaction_cost c t) = saturating_add u64_max (counter x t) (weight x (mkCharge tx c (tc_sum c))).
Proof.
  intros Hnd Hm. pose proof (counter_adjust (λ y, saturating_add u64_max y (tc_sum c)) x c t Hnd) as Hc.
  unfold weight; destruct x; cbn [once charged ch_cost ch_units] in *; rewrite ?N.add_0_r, ?N.add_0_l; try done.
  all: etransitivity; [exact Hc|]; cbn [charged].
  - destruct (tc_is_simple_vote c); [done|]. unfold saturating_add. lia.
  - case_bool_decide; [done|]. unfold saturating_add. lia.
Qed.
Lemma counter_remove x tx c t : NoDup (tc_writable_accounts c) →
  counter x (remove_transaction_cost c t) = counter x t - weight x (mkCharge tx c (tc_sum c)).
Proof.
  intros Hnd. pose proof (counter_adjust (λ y, saturating_sub y (tc_sum c)) x c t Hnd) as Hc.
  unfold weight; destruct x; cbn [once charged ch_cost ch_units] in *; rewrite ?N.add_0_r, ?N.add_0_l; try done.
  all: etransitivity; [exact Hc|]; cbn [charged].
  - destruct (tc_is_simple_vote c); [done|]. by rewrite N.sub_0_r.
  - case_bool_decide; [done|]. by rewrite N.sub_0_r.
Qed.
Lemma counter_update x c u t : NoDup (tc_writable_accounts c) → counter x t ≤ u64_max →
  counter x (update_execution_cost c u t) =
  if charged x c then saturating_add u64_max (counter x t) (u - tc_bpf_execution_cost c)
                      - (tc_bpf_execution_cost c - u)
  else counter x t.
Proof.
  intros Hnd Hm. unfold update_execution_cost, add_transaction_execution_cost, sub_transaction_execution_cost.
  destruct (N.compare_spec u (tc_bpf_execution_cost c)) as [Hu|Hu|Hu]; rewrite ?counter_adjust by done;
    destruct (charged x c); try done; unfold saturating_add, saturating_sub; lia.
Qed.

(** ** When a transaction fits *)
(** in the terms of the counters *)
Record fits (c : TransactionCost) (t : CostTracker) : Prop := {
  fi_vote : tc_is_simple_vote c = true → saturating_add u64_max (counter VoteUnits t) (tc_sum c) ≤ vote_cost_limit t;
  fi_block : saturating_add u64_max (counter BlockUnits t) (tc_sum c) ≤ block_cost_limit t;
  fi_cost : tc_sum c ≤ account_cost_limit t;
  fi_data : saturating_add u64_max (counter DataSize t) (tc_account_data_size c) ≤ MAX_BLOCK_ACCOUNTS_DATA_SIZE_DELTA;
  fi_account k : k ∈ tc_writable_accounts c →
    saturating_add u64_max (counter (AccountUnits k) t) (tc_sum c) ≤ account_cost_limit t }.

Lemma fits_accounts_spec accounts cost t : cost ≤ account_cost_limit t →
  fits_accounts accounts cost t = Ok tt ↔
  ∀ k, k ∈ accounts → saturating_add u64_max (counter (AccountUnits k) t) cost ≤ account_cost_limit t.
Proof.
  intros Hc. cbn [counter]. induction accounts as [|a accounts IH]; [simpl; set_solver|].
  transitivity (saturating_add u64_max (default 0 (cost_by_writable_accounts t !! a)) cost ≤ account_cost_limit t ∧
    fits_accounts accounts cost t = Ok tt); [|rewrite IH; set_solver].
  cbn [fits_accounts]. destruct (_ !! a) as [n|]; simpl.
  - destruct (N.ltb_spec (account_cost_limit t) (saturating_add u64_max n cost)); [split; [done|lia]|].
    split; [done|by intros []].
  - split; [|by intros []]. split; [unfold saturating_add; lia|done].
Qed.
Lemma fits_accounts_error accounts cost t : fits_accounts accounts cost t ≠ Panic.
Proof.
  induction accounts as [|a accounts IH]; [done|]. cbn [fits_accounts]. destruct (_ !! a); [|done]. by destruct (_ <? _).
Qed.
Lemma would_fit_error c t : would_fit c t ≠ Panic.
Proof.
  unfold would_fit. destruct (_ && _); [done|]. do 3 (destruct (_ <? _); [done|]). apply fits_accounts_error.
Qed.
Lemma would_fit_spec c t : would_fit c t = Ok tt ↔ fits c t.
Proof.
  unfold would_fit. split.
  - destruct (tc_is_simple_vote c && _) eqn:Hv; [done|].
    destruct (N.ltb_spec (block_cost_limit t) (saturating_add u64_max (block_cost t) (tc_sum c))); [done|].
    destruct (N.ltb_spec (account_cost_limit t) (tc_sum c)); [done|].
    destruct (N.ltb_spec MAX_BLOCK_ACCOUNTS_DATA_SIZE_DELTA
      (saturating_add u64_max (ct_account_data_size t) (tc_account_data_size c))); [done|].
    rewrite fits_accounts_spec by done. intros Ha. split; try done.
    intros Hs. rewrite Hs in Hv. by apply N.ltb_ge in Hv.
  - intros [Hv Hb Hc Hd Ha]. cbn [counter] in Hv, Hb, Hd.
    replace (tc_is_simple_vote c && _) with false
      by (destruct (tc_is_simple_vote c); [symmetry; apply N.ltb_ge; auto|done]).
    rewrite !(proj2 (N.ltb_ge _ _)) by done. by apply fits_accounts_spec.
Qed.

(** ** The charges of a block *)
Section block.
Context `{BorshComputeBudget, !Bincode SystemInstruction} {E : Type}.
Context (feature_set : gset Pubkey) (A B V : N) (HB : B ≤ 2 ^ 50).

(** what sanitization and the checks before a transaction is processed give *)
Definition admitted (tx : SanitizedTransaction) : Prop :=
  sm_has_duplicates (tx_message tx) = false ∧ 1 ≤ num_required_signatures (sm_header (tx_message tx)).

Definition charge_ok (ch : Charge) : Prop :=
  admitted (ch_tx ch) ∧ calculate_cost (E:=E) (ch_tx ch) feature_set = Ok (ch_cost ch) ∧
  tc_sum (ch_cost ch) ≤ A ∧ tc_sum (ch_cost ch) ≤ B ∧
  tc_sum (ch_cost ch) ≤ ch_units ch + tc_bpf_execution_cost (ch_cost ch) ∧
  ch_units ch ≤ tc_sum (ch_cost ch) + MAX_COMPUTE_UNIT_LIMIT ∧
  (apply_cost_tracker_during_replay_id ∈ feature_set → ch_units ch = tc_sum (ch_cost ch)).

Record within (l : list Charge) : Prop := {
  wi_ok : Forall charge_ok l;
  wi_block : tot (weight BlockUnits) l ≤ B + tot (over BlockUnits) l;
  wi_vote : tot (weight VoteUnits) l ≤ V + tot (over VoteUnits) l;
  wi_account k : tot (weight (AccountUnits k)) l ≤ A + tot (over (AccountUnits k)) l;
  wi_data : tot (weight DataSize) l ≤ MAX_BLOCK_ACCOUNTS_DATA_SIZE_DELTA;
  wi_count : SIGNATURE_COST * len l ≤ B }.
Record keeps (t : CostTracker) (l : list Charge) : Prop := {
  ke_account_limit : account_cost_limit t = A;
  ke_block_limit : block_cost_limit t = B;
  ke_vote_limit : vote_cost_limit t = V;
  ke_tracks : tracks t l;
  ke_within : within l }.

Lemma get_writable_accounts_NoDup tx :
  sm_has_duplicates (tx_message tx) = false → NoDup (get_writable_accounts tx).
Proof.
  rewrite sm_has_duplicates_NoDup. unfold get_writable_accounts.
  generalize (account_keys_iter (sm_account_keys (tx_message tx))). intros l.
  enough (∀ n, NoDup l → NoDup (omap (λ x : nat * Pubkey,
    if sm_is_writable (tx_message tx) (N.of_nat x.1) then Some x.2 else None)
    (imap (λ i, pair (n + i)%nat) l))) as Hn by apply (Hn 0%nat).
  induction l as [|k l IH]; intros n Hnd; [constructor|]. apply list.NoDup_cons in Hnd as [Hk Hnd].
  cbn [imap omap list_omap]. specialize (IH (S n) Hnd).
  erewrite (imap_ext (_ ∘ S)); [|intros i x _; unfold compose; by rewrite Nat.add_succ_r, <-Nat.add_succ_l].
  destruct (sm_is_writable _ _); [|done]. constructor; [|done].
  rewrite list_elem_of_omap. intros ([j y] & Hin & Hy). destruct (sm_is_writable _ _); simplify_eq/=.
  apply elem_of_lookup_imap in Hin as (i & z & ? & Hz). simplify_eq/=. by apply list_elem_of_lookup_2 in Hz.
Qed.

Lemma signature_details_required m d :
  get_signature_details (E:=E) m = Ok d → num_transaction_signatures d = num_required_signatures (sm_header m).
Proof.
  unfold get_signature_details. destruct (program_instructions m) as [l| |]; [|done..]. intros [= <-].
  enough (∀ s, num_transaction_signatures (foldl count_signatures s l) = num_transaction_signatures s) as Hs by apply Hs.
  induction l as [|x l IH]; intros s; [done|]. cbn [foldl]. rewrite IH. unfold count_signatures.
  by destruct (key_eqb x.1 secp256k1_program_id), (key_eqb x.1 ed25519_program_id).
Qed.

(** a cost covers its signatures beside what is estimated for execution *)
Definition covers (c : TransactionCost) : Prop :=
  SIGNATURE_COST + tc_bpf_execution_cost c ≤ tc_sum c ∧
  ∀ x, x ≠ DataSize → once x c + tc_bpf_execution_cost c ≤ tc_sum c.

Lemma calculate_cost_covers tx c :
  admitted tx → calculate_cost (E:=E) tx feature_set = Ok c →
  NoDup (tc_writable_accounts c) ∧ (tc_sum c < u64_max → covers c).
Proof.
  intros [Hd Hs]. unfold calculate_cost. destruct (is_simple_vote_transaction tx).
  { intros [= <-]. split; [by apply get_writable_accounts_NoDup|]. intros _. split; [done|]. by intros []. }
  unfold get_signature_cost. destruct (get_signature_details (tx_message tx)) as [d| |] eqn:Hsig; [|done..].
  cbn [rbind]. set (sig := saturating_add u64_max _ _).
  unfold get_transaction_cost. destruct (program_instructions (tx_message tx)) as [l| |]; [|done..]. cbn [rbind].
  assert (∀ data b p loaded size, let c := TransactionUsage (mkUsageCostDetails (get_writable_accounts tx) sig
      (uc_write_lock_cost (get_write_lock_cost usage_default tx feature_set)) data b p loaded size
      (num_transaction_signatures d) (num_secp256k1_instruction_signatures d) (num_ed25519_instruction_signatures d)) in
    NoDup (tc_writable_accounts c) ∧ (tc_sum c < u64_max → covers c)) as Hc.
  { intros data b p loaded size c0. split; [by apply get_writable_accounts_NoDup|]. intros Hmax.
    pose proof (usage_sum_exact _ Hmax) as Hsum. apply signature_details_required in Hsig.
    subst c0. unfold covers. cbn [tc_sum tc_bpf_execution_cost] in *. rewrite Hsum in *. clear Hsum.
    cbn [uc_signature_cost uc_write_lock_cost uc_data_bytes_cost uc_builtins_execution_cost uc_bpf_execution_cost
         uc_loaded_accounts_data_size_cost] in *.
    assert (SIGNATURE_COST * num_transaction_signatures d + num_secp256k1_instruction_signatures d +
      num_ed25519_instruction_signatures d ≤ sig) as Hsc.
    { subst sig. unfold saturating_add, saturating_mul_u64 in *. unfold SIGNATURE_COST, SECP256K1_VERIFY_COST,
        ED25519_VERIFY_COST, COMPUTE_UNIT_TO_US_RATIO in *. lia. }
    unfold SIGNATURE_COST, COMPUTE_UNIT_TO_US_RATIO in *.
    split; [lia|]. intros [] Hx; cbn; try done; lia. }
  destruct (process_compute_budget_instructions l); [| |done]; cbn [rbind];
    unfold calculate_account_data_size; destruct (program_instructions (tx_message tx)); [|done|done| |done|done];
    cbn [rbind]; intros [= <-]; apply Hc.
Qed.

Lemma charge_covers ch : charge_ok ch → NoDup (tc_writable_accounts (ch_cost ch)) ∧ covers (ch_cost ch).
Proof.
  intros (Ha & Hc & _ & Hb & _). destruct (calculate_cost_covers _ _ Ha Hc) as [Hnd Hcov].
  split; [done|]. apply Hcov. unfold u64_max. lia.
Qed.
Lemma weight_units x ch : charge_ok ch → x ≠ DataSize → weight x ch ≤ ch_units ch.
Proof.
  intros Hok Hx. destruct (charge_covers ch Hok) as [_ [_ Hcov]]. specialize (Hcov x Hx).
  destruct Hok as (_ & _ & _ & _ & Hu & _). unfold weight. destruct x; cbn [charged once] in *; try done; try lia.
  - destruct (tc_is_simple_vote _); lia.
  - case_bool_decide; lia.
Qed.
Lemma within_total x l : within l → tot (weight x) l ≤ 2 ^ 61.
Proof.
  intros Hw. destruct (decide (x = DataSize)) as [->|Hx].
  { etransitivity; [apply wi_data, Hw|done]. }
  assert (tot (weight x) l ≤ tot (weight BlockUnits) l) as Hle.
  { apply tot_le. eapply list.Forall_impl; [apply wi_ok, Hw|]. intros ch Hok.
    etransitivity; [by apply weight_units|]. unfold weight. cbn [charged once]. lia. }
  assert (tot (over BlockUnits) l ≤ tot (λ _, MAX_COMPUTE_UNIT_LIMIT) l) as Hov.
  { apply tot_le. eapply list.Forall_impl; [apply wi_ok, Hw|]. intros ch (_ & _ & _ & _ & _ & Hu & _).
    unfold over. cbn [charged]. lia. }
  rewrite tot_const in Hov. pose proof (wi_block _ Hw). pose proof (wi_count _ Hw).
  unfold MAX_COMPUTE_UNIT_LIMIT, SIGNATURE_COST, COMPUTE_UNIT_TO_US_RATIO in *. lia.
Qed.

#[export] Instance within_perm : Proper ((≡ₚ) ==> impl) within.
Proof.
  intros l k Hp [Hok Hb Hv Ha Hd Hc]. split; try by rewrite <-Hp.
  - intros x. by rewrite <-Hp.
  - unfold len in *. by rewrite <-Hp.
Qed.
#[export] Instance keeps_perm t : Proper ((≡ₚ) ==> impl) (keeps t).
Proof. intros l k Hp [H1 H2 H3 Ht Hw]. split; [done..|by rewrite <-Hp|by rewrite <-Hp]. Qed.

Lemma units_count l : Forall charge_ok l → SIGNATURE_COST * len l ≤ tot (weight BlockUnits) l.
Proof.
  intros Hok. rewrite <-tot_const. apply tot_le. eapply list.Forall_impl; [exact Hok|]. intros ch Hch.
  destruct (charge_covers ch Hch) as [_ [Hs _]]. destruct Hch as (_ & _ & _ & _ & Hu & _).
  unfold weight. cbn [charged once]. lia.
Qed.
Lemma over_sum x tx c : over x (mkCharge tx c (tc_sum c)) = 0.
Proof. unfold over. cbn [ch_cost ch_units]. destruct (charged x c); lia. Qed.

Lemma keeps_add tx c t l : keeps t l → admitted tx → calculate_cost (E:=E) tx feature_set = Ok c → fits c t →
  keeps (add_transaction_cost c t) (mkCharge tx c (tc_sum c) :: l).
Proof.
  intros [H1 H2 H3 Ht Hw] Ha Hc [Fv Fb Fc Fd Fa].
  assert (∀ x, counter x t ≤ 2 ^ 61) as Hmax by (intros x; rewrite Ht; by apply within_total).
  rewrite H2 in Fb. pose proof (Hmax BlockUnits) as Hmb. unfold saturating_add, u64_max in Fb.
  set (ch := mkCharge tx c (tc_sum c)).
  assert (charge_ok ch) as Hch.
  { unfold charge_ok. cbn [ch ch_tx ch_cost ch_units]. split_and!; try done; rewrite <-?H1; try done; lia. }
  destruct (charge_covers ch Hch) as [Hnd _].
  assert (∀ x, counter x (add_transaction_cost c t) = counter x t + weight x ch) as Hadd.
  { intros x. rewrite (counter_add x tx) by (done || (etransitivity; [apply Hmax|done])). apply saturating_fits.
    specialize (Hmax x). destruct (decide (x = DataSize)) as [->|Hx].
    - unfold saturating_add, MAX_BLOCK_ACCOUNTS_DATA_SIZE_DELTA, u64_max in *. unfold weight. cbn [charged once ch ch_cost]. lia.
    - pose proof (weight_units x ch Hch Hx). cbn [ch ch_units] in *. unfold u64_max. lia. }
  assert (tracks (add_transaction_cost c t) (ch :: l)) as Htr.
  { intros x. rewrite Hadd, tot_cons, Ht. lia. }
  split; [done..|]. split; [constructor; [done|apply Hw]|..].
  - rewrite <-Htr, Hadd. unfold weight. cbn [charged once ch ch_cost ch_units]. lia.
  - rewrite tot_cons. unfold weight at 1. cbn [charged once ch ch_cost ch_units]. rewrite N.add_0_r.
    destruct (tc_is_simple_vote c); [|pose proof (wi_vote _ Hw); rewrite tot_cons; lia].
    specialize (Fv eq_refl). rewrite H3, Ht in Fv. specialize (Hmax VoteUnits). rewrite Ht in Hmax.
    unfold saturating_add, u64_max in Fv. lia.
  - intros k. rewrite tot_cons. unfold weight at 1. cbn [charged once ch ch_cost ch_units]. rewrite N.add_0_r.
    case_bool_decide as Hk; [|pose proof (wi_account _ Hw k); rewrite tot_cons; lia].
    specialize (Fa k Hk). rewrite H1, Ht in Fa. specialize (Hmax (AccountUnits k)). rewrite Ht in Hmax.
    unfold saturating_add, u64_max in Fa. lia.
  - rewrite <-Htr, Hadd. unfold weight. cbn [charged once ch ch_cost]. rewrite N.add_0_l.
    unfold saturating_add, MAX_BLOCK_ACCOUNTS_DATA_SIZE_DELTA, u64_max in *. lia.
  - etransitivity; [apply units_count; constructor; [done|apply Hw]|].
    rewrite <-Htr, Hadd. unfold weight. cbn [charged once ch ch_cost ch_units]. lia.
Qed.

Lemma keeps_remove tx c t l : keeps t (mkCharge tx c (tc_sum c) :: l) → keeps (remove_transaction_cost c t) l.
Proof.
  intros [H1 H2 H3 Ht [Hok Hb Hv Ha Hd Hc]]. apply list.Forall_cons in Hok as [Hch Hok].
  destruct (charge_covers _ Hch) as [Hnd _]. split; [done..| |].
  - intros x. rewrite (counter_remove x tx) by done. rewrite Ht, tot_cons. lia.
  - rewrite !tot_cons, ?over_sum in *. split; try done; try lia.
    + intros k. specialize (Ha k). rewrite !tot_cons, over_sum in Ha. lia.
    + unfold len in *. cbn [length] in Hc. lia.
Qed.

(** what a committed transaction is charged in the end *)
Definition final_units (c : TransactionCost) (u : N) : N :=
  if decide (apply_cost_tracker_during_replay_id ∈ feature_set) then tc_sum c
  else tc_sum c - tc_bpf_execution_cost c + u.

Lemma keeps_update tx c u t l : apply_cost_tracker_during_replay_id ∉ feature_set → u ≤ MAX_COMPUTE_UNIT_LIMIT →
  keeps t (mkCharge tx c (tc_sum c) :: l) →
  keeps (update_execution_cost c u t) (mkCharge tx c (final_units c u) :: l).
Proof.
  unfold final_units. intros Hf Hu [H1 H2 H3 Ht Hw]. rewrite decide_False by done.
  pose proof Hw as [[Hch Hok]%list.Forall_cons Hb Hv Ha Hd Hc].
  destruct (charge_covers _ Hch) as [Hnd [Hcov _]]. cbn [ch_cost ch_units] in *.
  set (ch := mkCharge tx c (tc_sum c)) in *. set (ch' := mkCharge tx c _).
  assert (∀ x, over x ch' = if charged x c then u - tc_bpf_execution_cost c else 0) as Hover.
  { intros x. unfold over. cbn [ch' ch_cost ch_units]. destruct (charged x c); lia. }
  assert (∀ x, weight x ch' + (if charged x c then tc_bpf_execution_cost c else 0) =
               weight x ch + (if charged x c then u else 0)) as Hwt.
  { intros x. unfold weight. cbn [ch ch' ch_cost ch_units]. destruct (charged x c); lia. }
  assert (∀ x, tot (weight x) (ch :: l) ≤ 2 ^ 61) as Hmax by (intros x; by apply within_total).
  assert (∀ x y, tot (weight x) (ch :: l) ≤ y + tot (over x) (ch :: l) →
                 tot (weight x) (ch' :: l) ≤ y + tot (over x) (ch' :: l)) as Hlimit.
  { intros x y. rewrite !tot_cons, Hover. specialize (Hwt x). replace (over x ch) with 0 by (symmetry; apply over_sum).
    destruct (charged x c); lia. }
  split; [| | |intros x|split]; try (by unfold update_execution_cost; destruct (_ ?= _)).
  - rewrite counter_update by (done || (rewrite Ht; etransitivity; [apply Hmax|done])).
    specialize (Hmax x). specialize (Hwt x). specialize (Ht x). rewrite !tot_cons in *.
    unfold MAX_COMPUTE_UNIT_LIMIT, saturating_add, u64_max in *. revert Hwt. destruct (charged x c) eqn:Hx; [|lia].
    assert (tc_sum c ≤ weight x ch) by (unfold weight; cbn [ch ch_cost ch_units]; rewrite Hx; lia). intros Hwt. lia.
  - constructor; [|done]. destruct Hch as (? & ? & ? & ? & ? & ? & ?).
    unfold charge_ok. cbn [ch ch' ch_tx ch_cost ch_units] in *. split_and!; try done; lia.
  - by apply Hlimit.
  - by apply Hlimit.
  - intros k. apply Hlimit, Ha.
  - rewrite tot_cons in *. specialize (Hwt DataSize). cbn [charged] in Hwt. lia.
  - done.
Qed.

(** ** The steps of the service, batch by batch *)
Local Abbreviation cost_result := (result TransactionError.t TransactionCost).
Definition selected_charges (l : list (SanitizedTransaction * cost_result)) : list Charge :=
  omap (λ x, match x.2 with Ok c => Some (mkCharge x.1 c (tc_sum c)) | _ => None end) l.
Definition committed_charges (f : TransactionCost → N → N)
    (l : list (SanitizedTransaction * cost_result * CommitTransactionDetails)) : list Charge :=
  omap (λ x, match x with (tx, Ok c, Committed u) => Some (mkCharge tx c (f c u)) | _ => None end) l.

Lemma committed_charges_ext f g l : (∀ c u, f c u = g c u) → committed_charges f l = committed_charges g l.
Proof.
  intros Hfg. induction l as [|[[tx [c| |]] [u|]] l IH]; try done. unfold committed_charges. cbn [omap list_omap].
  rewrite Hfg. f_equal. exact IH.
Qed.

Lemma keeps_select costs : ∀ txs t l rs n t',
  keeps t l → Forall admitted txs →
  Forall2 (λ tx r, ∀ c, r = Ok c → calculate_cost (E:=E) tx feature_set = Ok c) txs costs →
  select_transactions_per_cost costs t = (rs, n, t') →
  keeps t' (selected_charges (zip txs rs) ++ l) ∧ length rs = length costs.
Proof.
  induction costs as [|r costs IH]; intros txs t l rs n t' Hk Ha Hc; inversion Hc as [|tx ? txs' ? Htx Hrest]; subst;
    cbn [select_transactions_per_cost]; [by intros [= <- <- <-]|].
  apply list.Forall_cons in Ha as [Hadm Ha].
  destruct r as [c|e|].
  - unfold try_add. destruct (would_fit c t) as [[]|e|] eqn:Hfit.
    + apply would_fit_spec in Hfit. pose proof (keeps_add _ _ _ _ Hk Hadm (Htx c eq_refl) Hfit) as Hk'.
      destruct (select_transactions_per_cost costs _) as [[rs0 n0] t0] eqn:Hs. intros [= <- <- <-].
      destruct (IH _ _ _ _ _ _ Hk' Ha Hrest Hs) as [Hk0 Hl]. split; [|simpl; lia].
      revert Hk0. cbn [zip zip_with selected_charges omap list_omap snd fst]. by rewrite <-Permutation_middle.
    + destruct (select_transactions_per_cost costs t) as [[rs0 n0] t0] eqn:Hs. intros [= <- <- <-].
      destruct (IH _ _ _ _ _ _ Hk Ha Hrest Hs) as [Hk0 Hl]. split; [done|simpl; lia].
    + by apply would_fit_error in Hfit.
  - destruct (select_transactions_per_cost costs t) as [[rs0 n0] t0] eqn:Hs. intros [= <- <- <-].
    destruct (IH _ _ _ _ _ _ Hk Ha Hrest Hs) as [Hk0 Hl]. split; [done|simpl; lia].
  - destruct (select_transactions_per_cost costs t) as [[rs0 n0] t0] eqn:Hs. intros [= <- <- <-].
    destruct (IH _ _ _ _ _ _ Hk Ha Hrest Hs) as [Hk0 Hl]. split; [done|simpl; lia].
Qed.

Lemma keeps_remove_all costs : ∀ txs t l,
  length txs = length costs → keeps t (selected_charges (zip txs costs) ++ l) →
  keeps (remove_transaction_costs costs t) l.
Proof.
  induction costs as [|r costs IH]; intros [|tx txs] t l Hl Hk; try done. injection Hl as Hl.
  unfold remove_transaction_costs. cbn [foldl]. apply (IH txs); [done|].
  revert Hk. destruct r as [c|e|]; [|done..]. apply keeps_remove.
Qed.
Lemma keeps_remove_uncommitted costs : ∀ txs status t l,
  length txs = length costs → length status = length costs →
  keeps t (selected_charges (zip txs costs) ++ l) →
  keeps (remove_uncommitted_transaction_costs costs status t)
    (committed_charges (λ c _, tc_sum c) (zip (zip txs costs) status) ++ l).
Proof.
  induction costs as [|r costs IH]; intros [|tx txs] [|d status] t l Hl Hs Hk; try done.
  injection Hl as Hl. injection Hs as Hs. unfold remove_uncommitted_transaction_costs. cbn [zip zip_with foldl].
  revert Hk. destruct r as [c|e|], d as [u|]; try by apply (IH txs).
  - cbn [zip zip_with selected_charges committed_charges omap list_omap fst snd]. intros Hk.
    rewrite <-app_comm_cons, Permutation_middle. apply (IH txs); [done..|]. revert Hk.
    by rewrite <-app_comm_cons, Permutation_middle.
  - cbn [zip zip_with selected_charges omap list_omap fst snd app]. intros Hk%keeps_remove. by apply (IH txs).
Qed.
Lemma keeps_update_committed costs : ∀ txs status t l,
  apply_cost_tracker_during_replay_id ∉ feature_set →
  length txs = length costs → length status = length costs →
  Forall (λ d, ∀ u, d = Committed u → u ≤ MAX_COMPUTE_UNIT_LIMIT) status →
  keeps t (committed_charges (λ c _, tc_sum c) (zip (zip txs costs) status) ++ l) →
  keeps (update_committed_transaction_costs costs status t)
    (committed_charges final_units (zip (zip txs costs) status) ++ l).
Proof.
  induction costs as [|r costs IH]; intros [|tx txs] [|d status] t l Hf Hl Hs Hu Hk; try done.
  injection Hl as Hl. injection Hs as Hs. apply list.Forall_cons in Hu as [Hd Hu].
  unfold update_committed_transaction_costs. cbn [zip zip_with foldl].
  revert Hk. destruct r as [c|e|], d as [u|]; try by apply (IH txs).
  cbn [zip zip_with committed_charges omap list_omap app]. intros Hk%(keeps_update tx c u); [|done|by apply Hd].
  rewrite Permutation_middle. apply (IH txs); [done..|]. revert Hk. by rewrite Permutation_middle.
Qed.

(** ** The threads of a leader *)
(** a thread is between batches, executes one that it has charged, or has taken back what was not committed *)
Inductive Phase :=
| Idle
| Selected (txs : list SanitizedTransaction) (costs : list cost_result)
| Removed (txs : list SanitizedTransaction) (costs : list cost_result) (status : list CommitTransactionDetails).
Record Leader := mkLeader {
  le_tracker : CostTracker;
  le_threads : list Phase;
  le_block : list Charge }.

(** [process_and_record_transactions_with_pre_results] on the shared tracker: each of the three
    calls holds its lock, and threads interleave between them *)
Inductive leader_step : Leader → Leader → Prop :=
| StepSelect s i txs pre_results costs throttled t' :
    le_threads s !! i = Some Idle → Forall admitted txs → length pre_results = length txs →
    select_and_accumulate_transaction_costs (E:=E) feature_set txs pre_results (le_tracker s) = Ok (costs, throttled, t') →
    leader_step s (mkLeader t' (<[i := Selected txs costs]> (le_threads s)) (le_block s))
| StepFailed s i txs costs :
    le_threads s !! i = Some (Selected txs costs) →
    leader_step s (mkLeader (remove_costs costs None (le_tracker s)) (<[i := Idle]> (le_threads s)) (le_block s))
| StepRemove s i txs costs status :
    le_threads s !! i = Some (Selected txs costs) → length status = length costs →
    Forall (λ d, ∀ u, d = Committed u → u ≤ MAX_COMPUTE_UNIT_LIMIT) status →
    leader_step s (mkLeader (remove_costs costs (Some status) (le_tracker s))
                     (<[i := Removed txs costs status]> (le_threads s)) (le_block s))
| StepUpdate s i txs costs status :
    le_threads s !! i = Some (Removed txs costs status) →
    leader_step s (mkLeader
        (if decide (apply_cost_tracker_during_replay_id ∈ feature_set) then le_tracker s
         else update_costs costs (Some status) (le_tracker s))
        (<[i := Idle]> (le_threads s))
        (committed_charges final_units (zip (zip txs costs) status) ++ le_block s)).

Definition phase_charges (p : Phase) : list Charge :=
  match p with
  | Idle => []
  | Selected txs costs => selected_charges (zip txs costs)
  | Removed txs costs status => committed_charges (λ c _, tc_sum c) (zip (zip txs costs) status)
  end.
Definition phase_ok (p : Phase) : Prop :=
  match p with
  | Idle => True
  | Selected txs costs => length txs = length costs
  | Removed txs costs status => length txs = length costs ∧ length status = length costs ∧
      Forall (λ d, ∀ u, d = Committed u → u ≤ MAX_COMPUTE_UNIT_LIMIT) status
  end.
(** everything that is charged: the batches in flight and the block *)
Definition charges (s : Leader) : list Charge := (le_threads s ≫= phase_charges) ++ le_block s.

Lemma threads_insert ts i p p' : ts !! i = Some p →
  (ts ≫= phase_charges) ≡ₚ phase_charges p ++ (delete i ts ≫= phase_charges) ∧
  (<[i := p']> ts ≫= phase_charges) ≡ₚ phase_charges p' ++ (delete i ts ≫= phase_charges).
Proof.
  intros Hi. assert (<[i := p']> ts !! i = Some p') as Hi' by (apply list_lookup_insert_eq; by eapply lookup_lt_Some).
  split; [exact (bind_Permutation phase_charges _ _ (delete_Permutation ts i p Hi))|].
  etransitivity; [exact (bind_Permutation phase_charges _ _ (delete_Permutation _ i p' Hi'))|].
  assert (delete i (<[i := p']> ts) = delete i ts) as ->; [|done].
  by rewrite !delete_take_drop, take_insert_ge, drop_insert_lt by lia.
Qed.

Definition leader_inv (s : Leader) : Prop :=
  keeps (le_tracker s) (charges s) ∧ Forall phase_ok (le_threads s).

Lemma leader_inv_change s i p p' t' block :
  leader_inv s → le_threads s !! i = Some p → phase_ok p' →
  (∀ l, keeps (le_tracker s) (phase_charges p ++ l ++ le_block s) → keeps t' (phase_charges p' ++ l ++ block)) →
  leader_inv (mkLeader t' (<[i := p']> (le_threads s)) block).
Proof.
  intros [Hk Hf] Hi Hp Hstep. destruct (threads_insert _ _ _ p' Hi) as [Hold Hnew]. split.
  - revert Hk. unfold charges. cbn [le_tracker le_threads le_block]. rewrite Hold, Hnew, <-!app_assoc. apply Hstep.
  - by apply Forall_insert.
Qed.

Lemma compute_costs_spec txs pre costs :
  length pre = length txs → compute_transaction_costs (E:=E) feature_set txs pre = Ok costs →
  Forall2 (λ tx r, ∀ c, r = Ok c → calculate_cost (E:=E) tx feature_set = Ok c) txs costs.
Proof.
  intros Hl Hc%rmapM_Ok. revert pre costs Hl Hc.
  induction txs as [|tx txs IH]; intros [|p pre] costs Hl Hc; try done; cbn [zip zip_with] in Hc.
  { inversion Hc. constructor. }
  inversion Hc as [|? r ? costs' Hr Hrest]; subst. constructor; [|by apply (IH pre); [injection Hl|]].
  cbn [fst snd] in Hr. destruct p as [[]|e|]; [|by simplify_eq|done].
  destruct (calculate_cost tx feature_set) as [c'| |] eqn:Hcc; cbn [rbind] in Hr; [|done..]. intros c ->. congruence.
Qed.

Lemma leader_step_inv s s' : leader_inv s → leader_step s s' → leader_inv s'.
Proof.
  intros Hinv Hstep. pose proof Hinv as [_ Hok]. destruct Hstep as
    [s i txs pre costs throttled t' Hi Ha Hl Hsel|s i txs costs Hi|s i txs costs status Hi Hs Hu|s i txs costs status Hi];
    pose proof (list.Forall_lookup_1 _ _ _ _ Hok Hi) as Hp.
  - unfold select_and_accumulate_transaction_costs in Hsel.
    destruct (compute_transaction_costs feature_set txs pre) as [cs| |] eqn:Hcs; [|done..]. cbn [rbind] in Hsel.
    apply (compute_costs_spec _ _ _ Hl) in Hcs.
    destruct (select_transactions_per_cost cs (le_tracker s)) as [[rs n] t0] eqn:Hs. simplify_eq.
    assert (∀ l, keeps (le_tracker s) l → keeps t' (selected_charges (zip txs costs) ++ l) ∧ length costs = length cs)
      as Hk by (intros l Hk; by eapply keeps_select).
    eapply leader_inv_change; [done..| |].
    + cbn [phase_ok]. destruct Hinv as [Hinv _]. destruct (Hk _ Hinv) as [_ ->]. by eapply Forall2_length.
    + intros l Hkl. by apply Hk.
  - eapply leader_inv_change; [done..|]. intros l Hk. by eapply keeps_remove_all.
  - eapply leader_inv_change; [done..|]. intros l Hk. by apply keeps_remove_uncommitted.
  - destruct Hp as (Hlen & Hs & Hu). eapply leader_inv_change; [done..|]. intros l Hk. cbn [phase_charges app].
    rewrite Permutation_app_comm, <-app_assoc, (Permutation_app_comm (le_block s)).
    destruct (decide (apply_cost_tracker_during_replay_id ∈ feature_set)) as [Hf|Hf].
    + replace (committed_charges final_units (zip (zip txs costs) status)) with
        (committed_charges (λ c _, tc_sum c) (zip (zip txs costs) status)); [done|].
      apply committed_charges_ext. intros c u. unfold final_units. by rewrite decide_True.
    + by apply keeps_update_committed.
Qed.

Definition leader_start (threads : nat) : Leader :=
  mkLeader (set_limits A B V tracker_default) (replicate threads Idle) [].
Lemma keeps_start : keeps (set_limits A B V tracker_default) [].
Proof. split; try done. { by intros []. } split; intros; try apply N.le_0_l. constructor. Qed.
Lemma leader_reaches n s : rtc leader_step (leader_start n) s → leader_inv s.
Proof.
  intros Hr. enough (∀ a b, rtc leader_step a b → leader_inv a → leader_inv b) as Hall.
  { apply (Hall _ _ Hr). split; [|apply Forall_replicate, I]. unfold charges, leader_start.
    cbn [le_threads le_block le_tracker].
    assert (replicate n Idle ≫= phase_charges = []) as -> by (clear; induction n as [|n IH]; [done|exact IH]).
    apply keeps_start. }
  induction 1 as [|a b c Hab _ IH]; [done|]. intros Ha. apply IH. by eapply leader_step_inv.
Qed.
Lemma over_none l : apply_cost_tracker_during_replay_id ∈ feature_set → Forall charge_ok l → ∀ x, tot (over x) l = 0.
Proof.
  intros Hf Hok x. apply tot_zero. eapply list.Forall_impl; [exact Hok|]. intros ch (_ & _ & _ & _ & _ & _ & Hu).
  unfold over. rewrite (Hu Hf). destruct (charged _ _); lia.
Qed.

(** C21: the costs of a block are accounted for.  However the threads of a leader interleave, every
    counter of the tracker is the sum over the transactions in flight and in the block of what
    they are charged; the block, its votes and every account stay within their limits,
    up to what executions used beyond their estimates, and within them exactly if
    execution does not change the charges; new account data and the number of transactions are bounded. *)
Theorem block_costs_accounted n s :
  rtc leader_step (leader_start n) s →
  (∀ x, counter x (le_tracker s) = tot (weight x) (charges s)) ∧
  block_cost (le_tracker s) ≤ B + tot (over BlockUnits) (charges s) ∧
  vote_cost (le_tracker s) ≤ V + tot (over VoteUnits) (charges s) ∧
  (∀ k, default 0 (cost_by_writable_accounts (le_tracker s) !! k) ≤ A + tot (over (AccountUnits k)) (charges s)) ∧
  ct_account_data_size (le_tracker s) ≤ MAX_BLOCK_ACCOUNTS_DATA_SIZE_DELTA ∧
  SIGNATURE_COST * ct_transaction_count (le_tracker s) ≤ B ∧
  (apply_cost_tracker_during_replay_id ∈ feature_set → ∀ x, tot (over x) (charges s) = 0).
Proof.
  intros Hr. destruct (leader_reaches n s Hr) as [[_ _ _ Ht [Hok Hb Hv Ha Hd Hc]] _]. split; [exact Ht|].
  pose proof (Ht BlockUnits) as Hb'. pose proof (Ht VoteUnits) as Hv'. pose proof (Ht DataSize) as Hd'.
  pose proof (Ht Transactions) as Hc'. cbn [counter] in *. rewrite Hb', Hv', Hd', Hc'. split_and!; [done..| |done| |].
  - intros k. specialize (Ht (AccountUnits k)). cbn [counter] in Ht. by rewrite Ht.
  - replace (tot (weight Transactions) (charges s)) with (len (charges s)); [done|].
    rewrite <-(N.mul_1_l (len _)). symmetry. exact (tot_const (A:=Charge) 1 (charges s)).
  - intros Hf. by apply over_none.
Qed.

Record affordable (l : list Charge) : Prop := {
  af_exact : Forall (λ ch, charge_ok ch ∧ ch_units ch = tc_sum (ch_cost ch)) l;
  af_block : tot (weight BlockUnits) l ≤ B;
  af_vote : tot (weight VoteUnits) l ≤ V;
  af_account k : tot (weight (AccountUnits k)) l ≤ A;
  af_data : tot (weight DataSize) l ≤ MAX_BLOCK_ACCOUNTS_DATA_SIZE_DELTA }.
#[export] Instance affordable_perm : Proper ((≡ₚ) ==> impl) affordable.
Proof. intros l k Hp [He Hb Hv Ha Hd]. split; try by rewrite <-Hp. intros x. by rewrite <-Hp. Qed.

Lemma affordable_app l k : affordable (l ++ k) → affordable k.
Proof.
  intros [[_ He]%list.Forall_app Hb Hv Ha Hd]. rewrite tot_app in Hb, Hv, Hd. split; [done|lia|lia| |lia].
  intros x. specialize (Ha x). rewrite tot_app in Ha. lia.
Qed.
Lemma affordable_fits t ch rest l : tracks t l → account_cost_limit t = A → block_cost_limit t = B → vote_cost_limit t = V →
  affordable (ch :: rest ++ l) → fits (ch_cost ch) t.
Proof.
  intros Ht H1 H2 H3 [[[Hok Hu] _]%list.Forall_cons Hb Hv Ha Hd].
  assert (∀ x, counter x t + weight x ch ≤ tot (weight x) (ch :: rest ++ l)) as Hle.
  { intros x. rewrite Ht, tot_cons, tot_app. lia. }
  assert (∀ x y z, weight x ch = y → tot (weight x) (ch :: rest ++ l) ≤ z →
    saturating_add u64_max (counter x t) y ≤ z) as Hsat.
  { intros x y z <- Hz. specialize (Hle x). unfold saturating_add. lia. }
  unfold weight in Hsat. split; rewrite ?H1, ?H2, ?H3.
  - intros Hs. apply Hsat; [|done]. cbn [charged once]. rewrite Hs. lia.
  - apply Hsat; [|done]. cbn [charged once]. lia.
  - by destruct Hok as (_ & _ & ? & _).
  - by apply Hsat.
  - intros k Hk. apply Hsat; [|apply Ha]. cbn [charged once]. rewrite bool_decide_eq_true_2 by done. lia.
Qed.
Lemma charge_costs_ok chs : ∀ t l, keeps t l → affordable (chs ++ l) →
  ∃ t', charge_costs (ch_cost <$> chs) t = (Ok tt, t') ∧ keeps t' (chs ++ l).
Proof.
  induction chs as [|ch chs IH]; intros t l Hk Haf; [by exists t|].
  pose proof Hk as [H1 H2 H3 Ht _]. pose proof (affordable_fits t ch chs l Ht H1 H2 H3 Haf) as Hfit.
  pose proof Haf as [[[Hok Hu] _]%list.Forall_cons _ _ _ _]. destruct Hok as (Hadm & Hcost & _).
  pose proof (keeps_add _ _ _ _ Hk Hadm Hcost Hfit) as Hk'. rewrite <-Hu in Hk'.
  rewrite fmap_cons. cbn [charge_costs]. unfold try_add. rewrite (proj2 (would_fit_spec _ _) Hfit).
  replace (mkCharge (ch_tx ch) (ch_cost ch) (ch_units ch)) with ch in Hk' by by destruct ch.
  destruct (IH _ _ Hk') as (t' & -> & Hkt'); [revert Haf; by rewrite <-Permutation_middle|].
  exists t'. split; [done|]. revert Hkt'. by rewrite <-Permutation_middle.
Qed.
End block.

(** ** Replay *)
Lemma inclusive_slice_ok {T F} (l : list T) i j : (i ≤ j)%nat → (j < length l)%nat →
  inclusive_slice (E:=F) l i j = Ok (take (S j - i) (drop i l)).
Proof.
  intros Hi Hj. unfold inclusive_slice.
  by rewrite (proj2 (Nat.leb_le _ _)), (proj2 (Nat.leb_le _ _)) by lia.
Qed.
Lemma rebatch_transactions_ok {F} results txs indexes i j :
  length results = length txs → length indexes = length txs → (i ≤ j)%nat → (j < length txs)%nat →
  ∃ b, rebatch_transactions (E:=F) results txs i j indexes = Ok b ∧
    batch_rows b = take (S j - i) (drop i (zip (zip results txs) indexes)).
Proof.
  intros Hr Hx Hi Hj. unfold rebatch_transactions. rewrite !inclusive_slice_ok by lia. cbn [rbind].
  rewrite batch_new_ok by (rewrite !length_take, !length_drop; lia). cbn [rbind]. eexists. split; [done|].
  unfold batch_rows. cbn. by rewrite !zip_with_drop, !zip_with_take.
Qed.
Lemma rebatch_loop_ok {F} target results txs indexes costs : ∀ index start cost,
  length results = length txs → length indexes = length txs →
  (index + length costs = length txs)%nat → (start ≤ index)%nat → (costs = [] → start = length txs) →
  ∃ bs, rebatch_loop (E:=F) target results txs indexes costs index start cost = Ok bs ∧
    (bs ≫= batch_rows) = drop start (zip (zip results txs) indexes).
Proof.
  induction costs as [|c costs IH]; intros index start cost Hr Hx Hl Hs He; cbn [rebatch_loop length] in *.
  { eexists. split; [done|]. rewrite (He eq_refl), drop_ge; [done|]. rewrite !length_zip_with. lia. }
  destruct (_ || _) eqn:Hcut.
  - destruct (rebatch_transactions_ok (F:=F) results txs indexes start index) as (b & -> & Hb); [done|done|lia..|].
    destruct (IH (S index) (S index) 0) as (bs & -> & Hbs); [done|done|lia|lia|intros ->; simpl in *; lia|].
    eexists. split; [done|]. cbn [mbind list_bind]. fold (bs ≫= batch_rows). rewrite Hb, Hbs.
    rewrite <-(take_drop (S index - start) (drop start _)) at 2. rewrite drop_drop. do 2 f_equal. lia.
  - apply orb_false_iff in Hcut as [_ Hcut%Nat.eqb_neq].
    apply IH; [done|done|lia|lia|]. intros ->. simpl in *. lia.
Qed.

(** a block that is replayed group after group *)
Section replay.
Context `{BorshComputeBudget, !Bincode SystemInstruction}.
Context (feature_set : gset Pubkey) (A B V : N) (HB : B ≤ 2 ^ 50).
Local Abbreviation TE := TransactionError.t.
Local Abbreviation keeps := (keeps (E:=TE) feature_set A B V).

Fixpoint replay_groups (thread_count : N) (groups : list (list TransactionBatchWithIndexes)) (t : CostTracker) :
  result TE (list (list TransactionBatchWithIndexes)) * CostTracker :=
  match groups with
  | [] => (Ok [], t)
  | g :: groups' =>
      match rebatch_batches thread_count feature_set g t with
      | (Ok bs, t) => let r := replay_groups thread_count groups' t in (rmap (cons bs) r.1, r.2)
      | (Err e, t) => (Err e, t)
      | (Panic, t) => (Panic, t)
      end
  end.

Definition group_rows (g : list TransactionBatchWithIndexes) := g ≫= batch_rows.

Lemma rebatch_batches_split n b g t costs : n ≠ 0 →
  rmapM (λ tx, calculate_cost (E:=TE) tx feature_set) (group_rows (b :: g)).*1.*2 = Ok costs →
  ∃ bs, group_rows bs = group_rows (b :: g) ∧ bs ≠ [] ∧
    rebatch_batches n feature_set (b :: g) t =
    let charged := if decide (apply_cost_tracker_during_replay_id ∈ feature_set)
                   then charge_costs costs t else (Ok tt, t) in
    (rmap (λ _, bs) charged.1, charged.2).
Proof.
  intros Hn Hcosts. unfold rebatch_batches. rewrite bool_decide_eq_false_2 by done.
  fold (group_rows (b :: g)). set (rows := group_rows (b :: g)) in *. rewrite Hcosts.
  set (charged := if decide _ then _ else _). cbv zeta.
  destruct (_ <? _) eqn:Hsplit; [|exists (b :: g); split_and!; [done|done|by destruct charged as [[]]]].
  rewrite (proj2 (N.eqb_neq _ _) Hn). set (target := _ / n).
  pose proof (Forall2_length (rmapM_Ok _ _ _ Hcosts)) as Hl.
  destruct (rebatch_loop_ok (F:=TE) target rows.*1.*1 rows.*1.*2 rows.*2 costs 0 0 0) as (bs & -> & Hbs).
  - by rewrite !length_fmap.
  - by rewrite !length_fmap.
  - done.
  - done.
  - intros ->. done.
  - rewrite drop_0, !zip_fst_snd in Hbs. exists bs. split_and!; [done| |by destruct charged as [[]]].
    intros ->. change ([] = rows) in Hbs. rewrite <-Hbs in Hl. destruct costs; [|done]. cbn in Hsplit.
    by apply N.ltb_lt, N.nlt_0_r in Hsplit.
Qed.

Lemma rebatch_batches_ok n g t l chs : n ≠ 0 → apply_cost_tracker_during_replay_id ∈ feature_set →
  keeps t l → affordable (E:=TE) feature_set A B V (chs ++ l) → (group_rows g).*1.*2 = ch_tx <$> chs →
  ∃ bs t', rebatch_batches n feature_set g t = (Ok bs, t') ∧ group_rows bs = group_rows g ∧ keeps t' (chs ++ l).
Proof.
  intros Hn Hf Hk Haf Htx. destruct g as [|b g].
  { destruct chs; [|done]. by exists [], t. }
  destruct (charge_costs_ok feature_set A B V HB chs t l Hk Haf) as (t' & Hch & Hk').
  destruct (rebatch_batches_split n b g t (ch_cost <$> chs) Hn) as (bs & Hrows & _ & Hrun).
  { rewrite Htx. apply rmapM_Ok_intro, Forall2_fmap, Forall_Forall2_diag.
    pose proof (af_exact _ _ _ _ _ Haf) as [Hex _]%list.Forall_app.
    eapply list.Forall_impl; [exact Hex|]. intros ch [(_ & Hc & _) _]. exact Hc. }
  rewrite decide_True, Hch in Hrun by done. exists bs, t'. done.
Qed.

Lemma replay_groups_ok n groups : ∀ t l chs, n ≠ 0 → apply_cost_tracker_during_replay_id ∈ feature_set →
  keeps t l → affordable (E:=TE) feature_set A B V (chs ++ l) → (groups ≫= group_rows).*1.*2 = ch_tx <$> chs →
  ∃ rs t', replay_groups n groups t = (Ok rs, t') ∧ Forall2 (λ g r, group_rows r = group_rows g) groups rs ∧
    keeps t' (chs ++ l).
Proof.
  induction groups as [|g groups IH]; intros t l chs Hn Hf Hk Haf Htx; cbn [replay_groups].
  { destruct chs; [|done]. exists [], t. split; [done|]. split; [constructor|done]. }
  cbn [mbind list_bind] in Htx. fold (groups ≫= group_rows) in Htx. rewrite !fmap_app in Htx. symmetry in Htx.
  apply fmap_app_inv in Htx as (chs1 & chs2 & H1 & H2 & ->).
  assert ((chs1 ++ chs2) ++ l ≡ₚ chs2 ++ chs1 ++ l) as Hp by by rewrite (Permutation_app_comm chs1), app_assoc.
  rewrite Hp in Haf.
  destruct (rebatch_batches_ok n g t l chs1) as (bs & t1 & -> & Hrows & Hk1); try done.
  { by eapply affordable_app. }
  destruct (IH t1 (chs1 ++ l) chs2) as (rs & t' & -> & Hrs & Hk'); try done.
  exists (bs :: rs), t'. split; [done|]. split; [by constructor|]. by rewrite Hp.
Qed.

(** C22: replay accepts the block of a leader.  If charges follow the estimates on both sides, a
    leader has finished its batches, and another node replays the transactions of its block, in any
    order, entries and groups, then every group is charged without an error, what is executed is
    every transaction once, in its order and with its lock and index, however it is
    split into batches, and the node ends with the costs of the leader. *)
Theorem replay_accepts_block threads s n groups :
  apply_cost_tracker_during_replay_id ∈ feature_set → n ≠ 0 →
  rtc (leader_step (E:=TE) feature_set) (leader_start A B V threads) s → Forall (λ p, p = Idle) (le_threads s) →
  (groups ≫= group_rows).*1.*2 ≡ₚ ch_tx <$> le_block s →
  ∃ executed t', replay_groups n groups (set_limits A B V tracker_default) = (Ok executed, t') ∧
    Forall2 (λ g r, group_rows r = group_rows g) groups executed ∧
    ∀ x, counter x t' = counter x (le_tracker s).
Proof.
  intros Hf Hn Hr Hidle Hp. destruct (leader_reaches feature_set A B V HB _ _ Hr) as [Hk _].
  assert (charges s = le_block s) as Hc.
  { unfold charges. assert (le_threads s ≫= phase_charges = []) as ->; [|done].
    induction Hidle as [|p ps -> _ IH]; [done|exact IH]. }
  rewrite Hc in Hk. destruct Hk as [_ _ _ Ht [Hok Hb Hv Ha Hd _]].
  pose proof (over_none feature_set A B HB _ Hf Hok) as Hover. rewrite Hover, N.add_0_r in Hb, Hv.
  destruct (Permutation_map_inv _ _ Hp) as (chs & Hchs & Hperm).
  destruct (replay_groups_ok n groups (set_limits A B V tracker_default) [] chs) as (rs & t' & Hrun & Hrs & Hk'); try done.
  - apply keeps_start.
  - rewrite app_nil_r. rewrite <-Hperm. split; try done.
    + eapply list.Forall_impl; [exact Hok|]. intros ch Hch. split; [done|]. destruct Hch as (_ & _ & _ & _ & _ & _ & Hu). auto.
    + intros k. specialize (Ha k). rewrite Hover, N.add_0_r in Ha. done.
  - exists rs, t'. split; [done|]. split; [done|]. intros x. destruct Hk' as [_ _ _ Ht' _].
    by rewrite Ht, Ht', app_nil_r, Hperm.
Qed.
End replay.

Section runs.
Context `{BorshComputeBudget, !Bincode SystemInstruction}.
Context (feature_set : gset Pubkey).
Local Abbreviation TE := TransactionError.t.

Inductive LeaderOp :=
| OpSelect (txs : list SanitizedTransaction) (pre_results : list (result TE unit))
| OpFailed
| OpRemove (status : list CommitTransactionDetails)
| OpUpdate.
Definition admittedb (tx : SanitizedTransaction) : bool :=
  negb (sm_has_duplicates (tx_message tx)) && (1 <=? num_required_signatures (sm_header (tx_message tx))).
Definition unitsb (d : CommitTransactionDetails) : bool :=
  match d with Committed u => u <=? MAX_COMPUTE_UNIT_LIMIT | NotCommitted => true end.
Definition run_op (s : Leader) (x : nat * LeaderOp) : option Leader :=
  match le_threads s !! x.1, x.2 with
  | Some Idle, OpSelect txs pre_results =>
      if forallb admittedb txs && (length pre_results =? length txs)%nat then
        match select_and_accumulate_transaction_costs (E:=TE) feature_set txs pre_results (le_tracker s) with
        | Ok (costs, _, t') => Some (mkLeader t' (<[x.1 := Selected txs costs]> (le_threads s)) (le_block s))
        | _ => None
        end
      else None
  | Some (Selected txs costs), OpFailed =>
      Some (mkLeader (remove_costs costs None (le_tracker s)) (<[x.1 := Idle]> (le_threads s)) (le_block s))
  | Some (Selected txs costs), OpRemove status =>
      if (length status =? length costs)%nat && forallb unitsb status then
        Some (mkLeader (remove_costs costs (Some status) (le_tracker s))
                (<[x.1 := Removed txs costs status]> (le_threads s)) (le_block s))
      else None
  | Some (Removed txs costs status), OpUpdate =>
      Some (mkLeader
        (if decide (apply_cost_tracker_during_replay_id ∈ feature_set) then le_tracker s
         else update_costs costs (Some status) (le_tracker s))
        (<[x.1 := Idle]> (le_threads s))
        (committed_charges (final_units feature_set) (zip (zip txs costs) status) ++ le_block s))
  | _, _ => None
  end.
Fixpoint run_leader (ops : list (nat * LeaderOp)) (s : Leader) : option Leader :=
  match ops with
  | [] => Some s
  | x :: ops' => match run_op s x with Some s => run_leader ops' s | None => None end
  end.

Lemma forallb_Forall {A} (f : A → bool) (P : A → Prop) l : (∀ x, f x = true → P x) → forallb f l = true → Forall P l.
Proof. intros HP. rewrite forallb_forall, list.Forall_forall. intros Hf x Hx%list_elem_of_In. auto. Qed.
Lemma run_op_step s x s' : run_op s x = Some s' → leader_step (E:=TE) feature_set s s'.
Proof.
  destruct x as [i op]. unfold run_op. cbn [fst snd].
  destruct (le_threads s !! i) as [[]|] eqn:Hi; [..|done]; destruct op; try done.
  - destruct (forallb admittedb txs && _) eqn:Hb; [|done]. apply andb_prop in Hb as [Ha Hl%Nat.eqb_eq].
    destruct (select_and_accumulate_transaction_costs _ _ _ _) as [[[costs n] t']| |] eqn:Hs; [|done..]. intros [= <-].
    eapply StepSelect; [done| |done|exact Hs]. revert Ha. apply forallb_Forall. intros tx.
    unfold admittedb, admitted. by intros [->%negb_true_iff ?%N.leb_le]%andb_prop.
  - intros [= <-]. by eapply StepFailed.
  - destruct ((length status =? length costs)%nat && _) eqn:Hb; [|done].
    apply andb_prop in Hb as [Hl%Nat.eqb_eq Hu]. intros [= <-]. apply StepRemove; [done..|].
    revert Hu. apply forallb_Forall. intros [u|] Hu ? [= ->]. by apply N.leb_le.
  - intros [= <-]. by eapply StepUpdate.
Qed.
Lemma run_leader_steps ops : ∀ s s', run_leader ops s = Some s' → rtc (leader_step (E:=TE) feature_set) s s'.
Proof.
  induction ops as [|x ops IH]; intros s s'; cbn [run_leader]; [intros [= <-]; constructor|].
  destruct (run_op s x) as [s1|] eqn:Hx; [|done]. intros Hr. eapply rtc_l; [by eapply run_op_step|by apply IH].
Qed.
Lemma run_leader_reaches {B} (f : Leader → B) ops s0 b :
  option_map f (run_leader ops s0) = Some b → ∃ s, rtc (leader_step (E:=TE) feature_set) s0 s ∧ f s = b.
Proof.
  destruct (run_leader ops s0) as [s|] eqn:Hs; [|done]. intros [= Hb]. exists s. split; [by eapply run_leader_steps|done].
Qed.
End runs.

Import Codec.Bincodes.
#[local] Instance no_budget_requests : BorshComputeBudget := λ _, None.

Definition cost_tx (k0 k1 : N) (vote : bool) (ixs : list CompiledInstruction) : SanitizedTransaction :=
  mkSanitizedTransaction
    (LegacyMsg (mkLegacyMessage
       (mkMessage (mkMessageHeader 1 0 1) [pubkey_of_N k0; pubkey_of_N k1; system_program_id] (mkHash []) ixs)
       [true; true; false])) (mkHash []) vote [].
(** two transactions that create accounts, and votes on two accounts *)
Definition create_tx (k0 k1 : N) : SanitizedTransaction :=
  cost_tx k0 k1 false
    [mkCompiledInstruction 2 [0; 1] (default [] (serialize (CreateAccount 1 500 system_program_id)))].
Definition vote_tx (k0 k1 : N) : SanitizedTransaction := cost_tx k0 k1 true [].

(** the second vote does not fit; a vote and a creation use more units than estimated *)
Definition busy_run : list (nat * LeaderOp) :=
  [(0%nat, OpSelect [create_tx 1 2; create_tx 3 4] [Ok tt; Err TransactionError.AccountInUse]);
   (1%nat, OpSelect [vote_tx 5 6; vote_tx 7 8] [Ok tt; Ok tt]);
   (1%nat, OpRemove [Committed 2100; NotCommitted]);
   (0%nat, OpRemove [Committed 150; NotCommitted]);
   (1%nat, OpUpdate); (0%nat, OpUpdate);
   (1%nat, OpSelect [create_tx 1 9] [Ok tt])].
Definition replayed_run : list (nat * LeaderOp) :=
  [(0%nat, OpSelect [create_tx 1 2; create_tx 3 4] [Ok tt; Ok tt]);
   (1%nat, OpSelect [vote_tx 5 6; create_tx 1 3] [Ok tt; Ok tt]);
   (1%nat, OpRemove [Committed 2100; NotCommitted]); (1%nat, OpUpdate);
   (1%nat, OpSelect [create_tx 8 9] [Ok tt]); (1%nat, OpFailed);
   (0%nat, OpRemove [Committed 150; Committed 150]); (0%nat, OpUpdate)].

Lemma busy_block_reached : ∃ s,
  rtc (leader_step (E:=TransactionError.t) ∅) (leader_start 4000 5000 4000 2) s ∧
  (block_cost (le_tracker s), vote_cost (le_tracker s)) = (7161, 5528).
Proof. apply (run_leader_reaches ∅ _ busy_run). vm_compute. reflexivity. Qed.
Lemma block_costs_accounted_witness :
  ∃ s, block_cost (le_tracker s) = 7161 ∧ vote_cost (le_tracker s) = 5528 ∧
    counter BlockUnits (le_tracker s) = tot (weight BlockUnits) (charges s) ∧
    7161 ≤ 5000 + tot (over BlockUnits) (charges s).
Proof.
  destruct busy_block_reached as (s & Hr & Hbv). injection Hbv as Hb Hv.
  assert (5000 ≤ 2 ^ 50) as HB by (vm_compute; discriminate).
  destruct (block_costs_accounted (E:=TransactionError.t) ∅ 4000 5000 4000 HB 2 s Hr) as (Ht & Hlimit & _).
  exists s. split; [exact Hb|]. split; [exact Hv|]. split; [apply Ht|]. rewrite <-Hb. exact Hlimit.
Defined.

(** the vote in an entry of its own, and a group with the two creations in another order *)
Definition replayed_batch (txs : list SanitizedTransaction) (indexes : list N) : TransactionBatchWithIndexes :=
  mkBatchWithIndexes (mkTransactionBatch ((λ _, Ok tt) <$> txs) txs true) indexes.
Definition replayed_groups : list (list TransactionBatchWithIndexes) :=
  [[replayed_batch [vote_tx 5 6] [0]]; [replayed_batch [create_tx 3 4] [1]; replayed_batch [create_tx 1 2] [2]]].
Lemma replayed_block_reached : ∃ s,
  rtc (leader_step (E:=TransactionError.t) {[apply_cost_tracker_during_replay_id]})
    (leader_start MAX_WRITABLE_ACCOUNT_UNITS MAX_BLOCK_UNITS MAX_VOTE_UNITS 2) s ∧
  (block_cost (le_tracker s), le_threads s, ch_tx <$> le_block s) =
  (6394, [Idle; Idle], [create_tx 1 2; create_tx 3 4; vote_tx 5 6]).
Proof. apply (run_leader_reaches {[apply_cost_tracker_during_replay_id]} _ replayed_run). vm_compute. reflexivity. Qed.
Lemma replayed_rows : (replayed_groups ≫= group_rows).*1.*2 = [vote_tx 5 6; create_tx 3 4; create_tx 1 2].
Proof. reflexivity. Qed.
Lemma replay_accepts_block_witness :
  ∃ executed t',
    replay_groups {[apply_cost_tracker_during_replay_id]} 2 replayed_groups
      (set_limits MAX_WRITABLE_ACCOUNT_UNITS MAX_BLOCK_UNITS MAX_VOTE_UNITS tracker_default) = (Ok executed, t') ∧
    Forall2 (λ g r, group_rows r = group_rows g) replayed_groups executed ∧ block_cost t' = 6394.
Proof.
  destruct replayed_block_reached as (s & Hr & Hs). injection Hs as Hb Hthreads Htx.
  assert (Forall (λ p, p = Idle) (le_threads s)) as Hidle by (rewrite Hthreads; repeat constructor).
  assert ((replayed_groups ≫= group_rows).*1.*2 ≡ₚ ch_tx <$> le_block s) as Htxs
    by (rewrite Htx, replayed_rows; exact (Permutation_rev [vote_tx 5 6; create_tx 3 4; create_tx 1 2])).
  assert (MAX_BLOCK_UNITS ≤ 2 ^ 50) as HB by (vm_compute; discriminate).
  assert (apply_cost_tracker_during_replay_id ∈ ({[apply_cost_tracker_during_replay_id]} : gset Pubkey)) as Hf
    by (apply elem_of_singleton_2; reflexivity).
  destruct (replay_accepts_block {[apply_cost_tracker_during_replay_id]} MAX_WRITABLE_ACCOUNT_UNITS MAX_BLOCK_UNITS
    MAX_VOTE_UNITS HB 2 s 2 replayed_groups Hf ltac:(discriminate) Hr Hidle Htxs) as (executed & t' & Hrep & Hrows & Hcount).
  exists executed, t'. split; [exact Hrep|]. split; [exact Hrows|]. rewrite <-Hb. exact (Hcount BlockUnits).
Defined.
