(* ===== verification/LoadAccounts.v ===== *)
(** * Loading the accounts of a transaction ([runtime/src/accounts/mod.rs])

    The accounts a transaction runs on, with rent taken and the fee charged
    ([load_transaction_accounts], [validate_fee_payer]), the owners of its programs, and
    the nonce it may roll back to ([accounts-db/src/nonce_info.rs]).  The accounts
    database is a map here; the error counters and the log are left out.  Rent is collected as
    [accounts-db/src/rent_collector.rs] and [rent_debits.rs] say. *)

From S2P Require Import Prelude Sdk Rent Account EpochSchedule.
From S2P Require Import Message Nonce TransactionContext LogCollector InvokeContext MessageProcessor RemoteLoader AccountsCache MigraterProgram.
From S2P Require Import Bank SystemProgram BlockhashQueue StatusCache Admission Fees Codec WireFormat InstructionsSysvar.
From Stdlib Require Import SpecFloat.

(** ** Rent collection *)
Record RentCollector := mkRentCollector {
  rc_epoch : N;
  rc_epoch_schedule : EpochSchedule;
  slots_per_year : f64;
  rc_rent : Rent }.
Definition RENT_EXEMPT_RENT_EPOCH : N := u64_max.

Inductive RentResult :=
| RentExempt
| NoRentCollectionNow
| CollectRent (new_rent_epoch rent_due : N).

Definition should_collect_rent (address : Pubkey) (account : AccountSharedData) : bool :=
  negb (executable account || key_eqb address incinerator_id).

(** [(first..=last).map(|epoch| get_slots_in_epoch(epoch + 1)).sum()] *)
Fixpoint slots_in_epochs (s : EpochSchedule) (first : N) (n : nat) : N :=
  match n with
  | O => 0
  | S n' => wrapping_add (get_slots_in_epoch s (wrapping_add first 1)) (slots_in_epochs s (first + 1) n')
  end.
Definition get_rent_due (c : RentCollector) (account : AccountSharedData) : RentDue :=
  if is_exempt (rc_rent c) (lamports account) (len (data account)) then Exempt else
  let account_rent_epoch := rent_epoch account in
  let slots_elapsed := slots_in_epochs (rc_epoch_schedule c) account_rent_epoch
                         (N.to_nat (rc_epoch c + 1 - account_rent_epoch)) in
  let years_elapsed :=
    if SFeqb (slots_per_year c) (f64_of_u64 0) then f64_of_u64 0
    else SFdiv 53 1024 (f64_of_u64 slots_elapsed) (slots_per_year c) in
  Paying (due_amount (rc_rent c) (len (data account)) years_elapsed).
Definition calculate_rent_result (c : RentCollector) (address : Pubkey) (account : AccountSharedData) :
  RentResult :=
  if (rent_epoch account =? RENT_EXEMPT_RENT_EPOCH) || (rc_epoch c <? rent_epoch account)
  then NoRentCollectionNow else
  if negb (should_collect_rent address account) then RentExempt else
  match get_rent_due c account with
  | Exempt => RentExempt
  | Paying 0 => NoRentCollectionNow
  | Paying rent_due => CollectRent (wrapping_add (rc_epoch c) 1) rent_due
  end.

Record CollectedInfo := mkCollectedInfo { rent_amount : N; account_data_len_reclaimed : N }.
Definition collected_nothing : CollectedInfo := mkCollectedInfo 0 0.
Definition default_account : AccountSharedData := mkAccountSharedData 0 [] system_program_id false 0 false.
(** the account afterwards and what was collected *)
Definition collect_from_existing_account (c : RentCollector) (address : Pubkey)
    (account : AccountSharedData) (set_exempt_rent_epoch_max : bool) : AccountSharedData * CollectedInfo :=
  match calculate_rent_result c address account with
  | RentExempt =>
      (if set_exempt_rent_epoch_max then set_rent_epoch RENT_EXEMPT_RENT_EPOCH account else account,
       collected_nothing)
  | NoRentCollectionNow => (account, collected_nothing)
  | CollectRent new_rent_epoch rent_due =>
      match checked_sub (lamports account) rent_due with
      | None | Some 0 => (default_account, mkCollectedInfo (lamports account) (len (data account)))
      | Some lamports =>
          (set_rent_epoch new_rent_epoch (set_lamports lamports account), mkCollectedInfo rent_due 0)
      end
  end.

(** ** What was taken from whom *)
Record RentDebit := mkRentDebit { rent_collected : N; post_balance : N }.
Definition get_account_rent_debit (d : gmap Pubkey RentDebit) (address : Pubkey) : N :=
  default 0 (rent_collected <$> d !! address).
Definition insert_rent_debit (address : Pubkey) (rent_collected post_balance : N)
    (d : gmap Pubkey RentDebit) : gmap Pubkey RentDebit :=
  if negb (rent_collected =? 0) then <[address := mkRentDebit rent_collected post_balance]> d else d.

(** ** Lemmas *)
Lemma collect_conserves c address account b :
  let x := collect_from_existing_account c address account b in
  lamports x.1 + rent_amount x.2 = lamports account.
Proof.
  unfold collect_from_existing_account. cbv zeta. destruct (calculate_rent_result _ _ _) as [| |epoch due].
  - destruct b; simpl; lia.
  - simpl. lia.
  - unfold checked_sub. destruct (N.leb_spec due (lamports account)) as [Hle|]; [|simpl; lia].
    destruct (lamports account - due) as [|p] eqn:Hd; simpl; lia.
Qed.
(** an executable account pays nothing *)
Lemma collect_executable c address account b :
  executable account = true →
  let x := collect_from_existing_account c address account b in
  rent_amount x.2 = 0 ∧ executable x.1 = true ∧ owner x.1 = owner account ∧ data x.1 = data account ∧
  remote x.1 = remote account.
Proof.
  intros He. unfold collect_from_existing_account, calculate_rent_result, should_collect_rent.
  rewrite He. destruct (_ || _); simpl; [done|]. by destruct b.
Qed.

(** ** System accounts ([programs/system/src/lib.rs]) *)
Inductive SystemAccountKind := SystemKind | NonceKind.
Definition NONCE_STATE_SIZE : N := 80.
Definition get_system_account_kind `{Bincode Versions} (account : AccountSharedData) :
  option SystemAccountKind :=
  if negb (key_eqb (owner account) system_program_id) then None else
  match data account with
  | [] => Some SystemKind
  | _ =>
      if negb (len (data account) =? NONCE_STATE_SIZE) then None else
      v ← deserialize (data account);
      match versions_state v with Uninitialized => None | Initialized _ => Some NonceKind end
  end.

(** ** The fee payer *)
Definition validate_fee_payer `{Bincode Versions} (payer_address : Pubkey) (payer_account : AccountSharedData)
    (payer_index : N) (rent : Rent) (fee : N) : result TransactionError.t AccountSharedData :=
  if lamports payer_account =? 0 then Err TransactionError.AccountNotFound else
  let! system_account_kind := ok_or (get_system_account_kind payer_account) TransactionError.InvalidAccountForFee in
  let min_balance :=
    match system_account_kind with SystemKind => 0 | NonceKind => minimum_balance rent NONCE_STATE_SIZE end in
  check! ok_or (v ← checked_sub (lamports payer_account) min_balance; checked_sub v fee)
           TransactionError.InsufficientFundsForFee in
  let payer_pre_rent_state := rent_state_from_account payer_account rent in
  let! payer_account' := map_err TransactionError.InsufficientFundsForFee (checked_sub_lamports fee payer_account) in
  let payer_post_rent_state := rent_state_from_account payer_account' rent in
  check! check_rent_state_with_account payer_pre_rent_state payer_post_rent_state payer_address payer_index in
  Ok payer_account'.

(** ** The limits on what is loaded *)
Definition get_requested_loaded_accounts_data_size_limit `{BorshComputeBudget} (tx : SanitizedTransaction) :
  result TransactionError.t N :=
  let! limits := message_limits (tx_message tx) in
  if loaded_accounts_bytes limits =? 0 then Err TransactionError.InvalidLoadedAccountsDataSizeLimit
  else Ok (loaded_accounts_bytes limits).
(** the size so far; the limit of the source is always given *)
Definition accumulate_and_check_loaded_account_data_size (accumulated account_data_size limit : N) :
  result TransactionError.t N :=
  let accumulated := saturating_add u64_max accumulated account_data_size in
  if limit <? accumulated then Err TransactionError.MaxLoadedAccountsDataSizeExceeded else Ok accumulated.

Definition account_shared_data_from_program (key : Pubkey) (program_accounts : gmap Pubkey Pubkey) :
  result TransactionError.t AccountSharedData :=
  let! program_owner := ok_or (program_accounts !! key) TransactionError.AccountNotFound in
  Ok (set_executable true (set_owner program_owner default_account)).
(** [sysvar::id()] *)
Definition sysvar_id : Pubkey := pubkey_of_N 0x6a7d5171875f729c73d93408f216120067ed88c76e08c287fc1946000000000.
Definition construct_instructions_account {E} (message : SanitizedMessage) : result E AccountSharedData :=
  let! instructions := decompile_instructions message in
  let! d := construct_instructions_data instructions in
  Ok (shared_of_account (mkAccount 0 d sysvar_id false 0)).

(** ** One account *)
Record LoadEnv := mkLoadEnv {
  accounts_db : gmap Pubkey AccountSharedData;
  le_rent_collector : RentCollector;
  set_exempt_rent_epoch_max : bool;
  account_overrides : gmap Pubkey AccountSharedData;
  in_reward_interval : bool;
  (** owners of the programs of the batch, and the sizes of the loaded ones *)
  program_accounts : gmap Pubkey Pubkey;
  loaded_programs : Pubkey → option N;
  le_should_collect_rent : bool }.
Record LoadState := mkLoadState {
  accumulated_accounts_data_size : N;
  validated_fee_payer : bool;
  tx_rent : N;
  rent_debits : gmap Pubkey RentDebit }.

Section load.
Context `{!Bincode Versions, !BorshComputeBudget}.

(** an account of the database: size, account, rent and whether it was found *)
Definition load_from_db (env : LoadEnv) (message : SanitizedMessage) (i : N) (key : Pubkey) :
  N * AccountSharedData * N * bool :=
  match accounts_db env !! key with
  | Some account =>
      if sm_is_writable message i then
        if le_should_collect_rent env then
          let x := collect_from_existing_account (le_rent_collector env) key account (set_exempt_rent_epoch_max env) in
          (len (data x.1), x.1, rent_amount x.2, true)
        else
          let account :=
            if set_exempt_rent_epoch_max env && negb (rent_epoch account =? RENT_EXEMPT_RENT_EPOCH) &&
               rent_due_is_exempt (get_rent_due (le_rent_collector env) account)
            then set_rent_epoch RENT_EXEMPT_RENT_EPOCH account else account in
          (len (data account), account, 0, true)
      else (len (data account), account, 0, true)
  | None =>
      let account :=
        if set_exempt_rent_epoch_max env then set_rent_epoch RENT_EXEMPT_RENT_EPOCH default_account
        else default_account in
      (0, account, 0, false)
  end.
Definition load_one (env : LoadEnv) (message : SanitizedMessage) (instruction_accounts : list N) (fee limit : N)
    (i : N) (key : Pubkey) (st : LoadState) :
  result TransactionError.t (AccountSharedData * bool * LoadState) :=
  if key_eqb key sysvar_instructions_id then
    let! account := construct_instructions_account message in
    Ok (account, true, st)
  else
  let instruction_account := (i <=? 255) && bool_decide (i ∈ instruction_accounts) in
  let! x :=
    match account_overrides env !! key with
    | Some account_override => Ok (len (data account_override), account_override, 0, true)
    | None =>
        match (if negb instruction_account && negb (sm_is_writable message i)
               then loaded_programs env key else None) with
        | Some account_size =>
            let! program_account := account_shared_data_from_program key (program_accounts env) in
            Ok (account_size, program_account, 0, true)
        | None => Ok (load_from_db env message i key)
        end
    end in
  let '(account_size, account, rent, account_found) := x in
  let! accumulated := accumulate_and_check_loaded_account_data_size (accumulated_accounts_data_size st) account_size limit in
  let is_payer := negb (validated_fee_payer st) && sm_is_non_loader_key message i in
  let! account := (if is_payer then validate_fee_payer key account i (rc_rent (le_rent_collector env)) fee
                   else Ok account) in
  if in_reward_interval env && sm_is_writable message i && key_eqb (owner account) stake_program_id
  then Err (TransactionError.ProgramExecutionTemporarilyRestricted (as_u8 i)) else
  Ok (account, account_found,
      mkLoadState accumulated (validated_fee_payer st || is_payer) (wrapping_add (tx_rent st) rent)
        (insert_rent_debit key rent (lamports account) (rent_debits st))).
Fixpoint load_keys (env : LoadEnv) (message : SanitizedMessage) (instruction_accounts : list N) (fee limit : N)
    (i : N) (keys : list Pubkey) (st : LoadState) :
  result TransactionError.t (list (Pubkey * AccountSharedData) * list bool * LoadState) :=
  match keys with
  | [] => Ok ([], [], st)
  | key :: keys' =>
      let! x := load_one env message instruction_accounts fee limit i key st in
      let! rest := load_keys env message instruction_accounts fee limit (i + 1) keys' x.2 in
      Ok ((key, x.1.1) :: rest.1.1, x.1.2 :: rest.1.2, rest.2)
  end.

(** ** The programs *)
(** the accounts so far, with the owners of programs behind, and the size so far *)
Definition program_indices_of (env : LoadEnv) (limit builtins_start_index : N) (accounts_found : list bool)
    (instruction : CompiledInstruction) (accounts : list (Pubkey * AccountSharedData)) (accumulated : N) :
  result TransactionError.t (list N * list (Pubkey * AccountSharedData) * N) :=
  let program_index := program_id_index instruction in
  let! program := ok_or (getN accounts program_index) TransactionError.ProgramAccountNotFound in
  if key_eqb program.1 native_loader_id then Ok ([], accounts, accumulated) else
  let account_found := default true (getN accounts_found program_index) in
  if negb account_found then Err TransactionError.ProgramAccountNotFound else
  if negb (executable program.2) then Err TransactionError.InvalidProgramForExecution else
  let account_indices := [as_u16 program_index] in
  let owner_id := owner program.2 in
  if key_eqb owner_id native_loader_id then Ok (account_indices, accounts, accumulated) else
  match position (λ x, key_eqb x.1 owner_id) (drop (N.to_nat builtins_start_index) accounts) with
  | Some owner_index =>
      Ok (as_u16 (saturating_add u64_max builtins_start_index owner_index) :: account_indices, accounts, accumulated)
  | None =>
      let owner_index := len accounts in
      match accounts_db env !! owner_id with
      | None => Err TransactionError.ProgramAccountNotFound
      | Some owner_account =>
          if negb (key_eqb (owner owner_account) native_loader_id) || negb (executable owner_account)
          then Err TransactionError.InvalidProgramForExecution else
          let! accumulated :=
            accumulate_and_check_loaded_account_data_size accumulated (len (data owner_account)) limit in
          Ok (as_u16 owner_index :: account_indices, accounts ++ [(owner_id, owner_account)], accumulated)
      end
  end.
Fixpoint load_programs (env : LoadEnv) (limit builtins_start_index : N) (accounts_found : list bool)
    (instructions : list CompiledInstruction) (accounts : list (Pubkey * AccountSharedData)) (accumulated : N) :
  result TransactionError.t (list (list N) * list (Pubkey * AccountSharedData)) :=
  match instructions with
  | [] => Ok ([], accounts)
  | instruction :: instructions' =>
      let! x := program_indices_of env limit builtins_start_index accounts_found instruction accounts accumulated in
      let! rest := load_programs env limit builtins_start_index accounts_found instructions' x.1.2 x.2 in
      Ok (x.1.1 :: rest.1, rest.2)
  end.

(** ** The transaction *)
Record LoadedTransaction := mkLoadedTransaction {
  lt_accounts : list (Pubkey * AccountSharedData);
  lt_program_indices : list (list N);
  lt_rent : N;
  lt_rent_debits : gmap Pubkey RentDebit }.
Definition load_transaction_accounts (env : LoadEnv) (tx : SanitizedTransaction) (fee : N) :
  result TransactionError.t LoadedTransaction :=
  if bool_decide (tx_signatures tx = []) && negb (fee =? 0) then Err TransactionError.MissingSignatureForFee else
  let message := tx_message tx in
  let! limit := get_requested_loaded_accounts_data_size_limit tx in
  let instruction_accounts := sm_instructions message ≫= ci_accounts in
  let! x := load_keys env message instruction_accounts fee limit 0
              (account_keys_iter (sm_account_keys message)) (mkLoadState 0 false 0 ∅) in
  let '(accounts, accounts_found, st) := x in
  if negb (validated_fee_payer st) then Err TransactionError.AccountNotFound else
  let! y := load_programs env limit (len accounts) accounts_found (sm_instructions message) accounts
              (accumulated_accounts_data_size st) in
  Ok (mkLoadedTransaction y.2 y.1 (tx_rent st) (rent_debits st)).

(** ** Nonces *)
Record NonceFull := mkNonceFull {
  nf_address : Pubkey; nf_account : AccountSharedData; nf_fee_payer_account : option AccountSharedData }.
(** the first loaded account that is no loader key *)
Definition find_fee_payer (message : SanitizedMessage) (accounts : list (Pubkey * AccountSharedData)) :
  option (Pubkey * AccountSharedData) :=
  head (omap (λ i, if sm_is_non_loader_key message i then getN accounts i else None)
          (rangeN (account_keys_len (sm_account_keys message)))).
Definition nonce_from_partial (partial : Pubkey * AccountSharedData) (message : SanitizedMessage)
    (accounts : list (Pubkey * AccountSharedData)) (rent_debits : gmap Pubkey RentDebit) :
  result TransactionError.t NonceFull :=
  match find_fee_payer message accounts with
  | None => Err TransactionError.AccountNotFound
  | Some (fee_payer_address, fee_payer_account) =>
      let rent_debit := get_account_rent_debit rent_debits fee_payer_address in
      let fee_payer_account :=
        set_lamports (saturating_add u64_max (lamports fee_payer_account) rent_debit) fee_payer_account in
      if key_eqb fee_payer_address partial.1 then Ok (mkNonceFull partial.1 fee_payer_account None)
      else Ok (mkNonceFull partial.1 partial.2 (Some fee_payer_account))
  end.

(** one transaction of [load_accounts]: its fee, its accounts, its nonce *)
Definition load_accounts_one (env : LoadEnv) (fs : FeeStructure) (include_size_in_fee : bool)
    (hash_queue : BlockhashQueue) (tx : SanitizedTransaction) (check_result : TransactionCheckResult) :
  result TransactionError.t (LoadedTransaction * option NonceFull) :=
  let '(lock_result, nonce) := check_result in
  check! lock_result in
  let lamports_per_signature :=
    match nonce with
    | Some nonce => lamports_per_signature_of nonce.2
    | None => get_lamports_per_signature hash_queue (msg_recent_blockhash (sm_base (tx_message tx)))
    end in
  let! lamports_per_signature := ok_or lamports_per_signature TransactionError.BlockhashNotFound in
  let! fee := get_fee_for_message fs (tx_message tx) lamports_per_signature include_size_in_fee in
  let! loaded := load_transaction_accounts env tx fee in
  match nonce with
  | None => Ok (loaded, None)
  | Some nonce =>
      let! nonce := nonce_from_partial nonce (tx_message tx) (lt_accounts loaded) (lt_rent_debits loaded) in
      Ok (loaded, Some nonce)
  end.
End load.
