(* ===== verification/Commit.v ===== *)
(** * From a checked batch to the accounts database

    Loading and executing a batch ([Bank::load_and_execute_transactions]), and committing
    it: the accounts that are stored ([collect_accounts_to_store] and
    [prepare_if_nonce_account], [accounts-db/src/accounts.rs]), the rent and the fees
    ([collect_rent], [filter_program_errors_and_collect_fee], [withdraw],
    [runtime/src/bank.rs]).  Metrics, the stakes cache and the cache of
    loaded programs are left out; the programs are an argument. *)

From S2P Require Import Prelude Sdk Rent Account Message Nonce TransactionContext LogCollector.
From S2P Require Import InvokeContext MessageProcessor RemoteLoader AccountsCache MigraterProgram Bank.
From S2P Require Import SystemProgram BlockhashQueue StatusCache Admission EpochSchedule LoadAccounts.
From S2P Require Import AccountLocks Fees.

(** ** Results of execution ([accounts-db/src/transaction_results.rs]) *)
Inductive DurableNonceFee := ValidFee (lamports_per_signature : N) | InvalidFee.
Definition durable_nonce_fee_of `{Bincode Versions} (nonce : NonceFull) : DurableNonceFee :=
  match lamports_per_signature_of (nf_account nonce) with
  | Some lamports_per_signature => ValidFee lamports_per_signature
  | None => InvalidFee
  end.
Definition durable_lamports_per_signature (f : DurableNonceFee) : option N :=
  match f with ValidFee n => Some n | InvalidFee => None end.
(** the source keeps the nonce's fee in the details *)
Inductive TransactionExecutionResult :=
| Executed (details : TransactionExecutionDetails) (durable_nonce_fee : option DurableNonceFee)
| NotExecuted (err : TransactionError.t).
Definition was_executed_successfully (r : TransactionExecutionResult) : bool :=
  match r with Executed details _ => is_ok (status details) | NotExecuted _ => false end.
Definition execution_details (r : TransactionExecutionResult) : option TransactionExecutionDetails :=
  match r with Executed details _ => Some details | NotExecuted _ => None end.

(** what loading a transaction gives *)
Definition TransactionLoadResult : Type := result TransactionError.t (LoadedTransaction * option NonceFull).

(** ** Execution of the loaded transactions *)
Section batch.
Context `{PubkeyDisplay, Sha256, KeypairBase58, NftValueRegex,
  !Bincode UpgradeableLoaderState, !Bincode ProgramInstruction, !Bincode Versions, !Bincode SystemInstruction,
  !BorshComputeBudget}.

Record ExecuteEnv := mkExecuteEnv {
  xe_programs : Pubkey → option LoadedProgramType;
  xe_show : Signature → string;
  xe_base : BaseLayer;
  xe_bank : Bank;
  xe_compute_budget : option ComputeBudget;
  xe_log_recording : bool;
  xe_return_data_recording : bool;
  xe_log_limit : option N }.

(** the load result with the accounts as execution leaves them, and the outcome *)
Definition execute_one (env : ExecuteEnv) (tx : SanitizedTransaction) (load : TransactionLoadResult)
    (l : RemoteAccountLoader) :
  result TransactionError.t (TransactionExecutionResult * TransactionLoadResult * RemoteAccountLoader) :=
  match load with
  | Panic => Panic
  | Err e => Ok (NotExecuted e, load, l)
  | Ok (loaded, nonce) =>
      let budget :=
        match xe_compute_budget env with
        | Some compute_budget => Ok compute_budget
        | None => let! instructions := program_instructions (tx_message tx) in try_from_instructions instructions
        end in
      match budget with
      | Panic => Panic
      | Err err => Ok (NotExecuted err, load, l)
      | Ok compute_budget =>
          let! x := execute_loaded_transaction (xe_programs env) (xe_show env) (xe_base env) (xe_bank env) tx
                      (lt_accounts loaded) (lt_program_indices loaded) compute_budget
                      (xe_log_recording env) (xe_return_data_recording env) (xe_log_limit env) l in
          Ok (Executed x.1.1 (durable_nonce_fee_of <$> nonce),
              Ok (mkLoadedTransaction x.1.2 (lt_program_indices loaded) (lt_rent loaded) (lt_rent_debits loaded), nonce),
              x.2)
      end
  end.
Fixpoint execute_all (env : ExecuteEnv) (txs : list SanitizedTransaction) (loads : list TransactionLoadResult)
    (l : RemoteAccountLoader) :
  result TransactionError.t (list (TransactionExecutionResult * TransactionLoadResult) * RemoteAccountLoader) :=
  match txs, loads with
  | tx :: txs', load :: loads' =>
      let! x := execute_one env tx load l in
      let! rest := execute_all env txs' loads' x.2 in
      Ok (x.1 :: rest.1, rest.2)
  | _, _ => Ok ([], l)
  end.
(** ** What is stored *)
(** the account and whether it is the nonce account *)
Definition prepare_if_nonce_account {E} (address : Pubkey) (account : AccountSharedData)
    (execution_result : result TransactionError.t unit) (is_fee_payer : bool)
    (maybe_nonce : option (NonceFull * bool)) (durable_nonce : Hash) (lamports_per_signature : N) :
  result E (AccountSharedData * bool) :=
  match maybe_nonce with
  | None => Ok (account, false)
  | Some (nonce, rollback) =>
      if key_eqb address (nf_address nonce) then
        let account := if rollback : bool then nf_account nonce else account in
        let! nonce_versions := unwrap (deserialize (data (nf_account nonce))) in
        match versions_state nonce_versions with
        | Initialized d =>
            let nonce_versions :=
              versions_new (Initialized (mkNonceData (nonce_authority d) durable_nonce lamports_per_signature)) in
            let! account := unwrap (shared_serialize_data nonce_versions account) in
            Ok (account, true)
        | Uninitialized => Ok (account, true)
        end
      else
        match nf_fee_payer_account nonce with
        | Some fee_payer_account =>
            Ok (if negb (is_ok execution_result) && is_fee_payer then fee_payer_account else account, false)
        | None => Ok (account, false)
        end
  end.
(** the loop over the accounts of one transaction; [fee_payer_index] is set by the first *)
Fixpoint collect_loop {E} (message : SanitizedMessage) (execution_status : result TransactionError.t unit)
    (maybe_nonce : option (NonceFull * bool)) (durable_nonce : Hash) (lamports_per_signature : N)
    (fee_payer_index : option N) (l : list (N * (Pubkey * AccountSharedData))) :
  result E (list (Pubkey * AccountSharedData)) :=
  match l with
  | [] => Ok []
  | (i, (address, account)) :: l' =>
      if negb (sm_is_non_loader_key message i) then
        collect_loop message execution_status maybe_nonce durable_nonce lamports_per_signature fee_payer_index l'
      else
      let fee_payer_index := match fee_payer_index with None => Some i | x => x end in
      let is_fee_payer := bool_decide (Some i = fee_payer_index) in
      let! stored :=
        (if sm_is_writable message i then
           let! x := prepare_if_nonce_account address account execution_status is_fee_payer maybe_nonce
                       durable_nonce lamports_per_signature in
           Ok (if is_ok execution_status || x.2 || is_fee_payer then [(address, x.1)] else [])
         else Ok []) in
      let! rest := collect_loop message execution_status maybe_nonce durable_nonce lamports_per_signature
                     fee_payer_index l' in
      Ok (stored ++ rest)
  end.
Definition collect_one {E} (durable_nonce : Hash) (lamports_per_signature : N) (tx : SanitizedTransaction)
    (x : TransactionExecutionResult * TransactionLoadResult) : result E (list (Pubkey * AccountSharedData)) :=
  match x with
  | (Executed details _, Ok (loaded, nonce)) =>
      let execution_status := status details in
      let message := tx_message tx in
      let store maybe_nonce :=
        collect_loop message execution_status maybe_nonce durable_nonce lamports_per_signature None
          (zip (rangeN (account_keys_len (sm_account_keys message))) (lt_accounts loaded)) in
      match execution_status, nonce with
      | Ok _, _ => store None
      | Panic, _ => Panic
      | Err _, Some nonce => store (Some (nonce, true))
      | Err _, None => Ok []
      end
  | _ => Ok []
  end.
Definition collect_accounts_to_store {E} (durable_nonce : Hash) (lamports_per_signature : N)
    (txs : list SanitizedTransaction) (results : list (TransactionExecutionResult * TransactionLoadResult)) :
  result E (list (Pubkey * AccountSharedData)) :=
  rmap (@concat _)
    (rmapM (λ x, collect_one durable_nonce lamports_per_signature x.1 x.2) (zip txs results)).
Definition store_accounts (accounts : list (Pubkey * AccountSharedData)) (db : gmap Pubkey AccountSharedData) :
  gmap Pubkey AccountSharedData :=
  foldl (λ db x, <[x.1 := x.2]> db) db accounts.

(** ** Rent and fees *)
Definition collect_rent (results : list (TransactionExecutionResult * TransactionLoadResult)) : N :=
  foldl (λ collected x,
    match x with
    | (r, Ok (loaded, _)) => if was_executed_successfully r then wrapping_add collected (lt_rent loaded) else collected
    | _ => collected
    end) 0 results.

Definition withdraw (rent : Rent) (pubkey : Pubkey) (amount : N) (db : gmap Pubkey AccountSharedData) :
  result TransactionError.t (gmap Pubkey AccountSharedData) :=
  match db !! pubkey with
  | None => Err TransactionError.AccountNotFound
  | Some account =>
      let min_balance :=
        match get_system_account_kind account with
        | Some NonceKind => minimum_balance rent NONCE_STATE_SIZE
        | _ => 0
        end in
      let enough := match checked_add u64_max amount min_balance with
                    | Some required_balance => required_balance <=? lamports account
                    | None => false
                    end in
      if negb enough then Err TransactionError.InsufficientFundsForFee else
      let! account := map_err TransactionError.InsufficientFundsForFee (checked_sub_lamports amount account) in
      Ok (<[pubkey := account]> db)
  end.
(** one transaction: its result, the fee that counts and the database *)
Definition collect_fee_one {E} (rent : Rent) (fs : FeeStructure) (include_size_in_fee : bool)
    (hash_queue : BlockhashQueue) (tx : SanitizedTransaction) (r : TransactionExecutionResult)
    (db : gmap Pubkey AccountSharedData) :
  result E (result TransactionError.t unit * N * gmap Pubkey AccountSharedData) :=
  match r with
  | NotExecuted err => Ok (Err err, 0, db)
  | Executed details durable_nonce_fee =>
      let '(lamports_per_signature, is_nonce) :=
        match durable_nonce_fee with
        | Some f => (durable_lamports_per_signature f, true)
        | None => (get_lamports_per_signature hash_queue (msg_recent_blockhash (sm_base (tx_message tx))), false)
        end in
      match lamports_per_signature with
      | None => Ok (Err TransactionError.BlockhashNotFound, 0, db)
      | Some lamports_per_signature =>
          let! fee := get_fee_for_message fs (tx_message tx) lamports_per_signature include_size_in_fee in
          if negb (is_ok (status details)) && negb is_nonce then
            let! payer := fee_payer (tx_message tx) in
            match withdraw rent payer fee db with
            | Ok db' => Ok (Ok tt, fee, db')
            | Err e => Ok (Err e, 0, db)
            | Panic => Panic
            end
          else Ok (Ok tt, fee, db)
      end
  end.
Fixpoint filter_program_errors_and_collect_fee {E} (rent : Rent) (fs : FeeStructure) (include_size_in_fee : bool)
    (hash_queue : BlockhashQueue) (l : list (SanitizedTransaction * TransactionExecutionResult))
    (db : gmap Pubkey AccountSharedData) :
  result E (list (result TransactionError.t unit) * N * gmap Pubkey AccountSharedData) :=
  match l with
  | [] => Ok ([], 0, db)
  | (tx, r) :: l' =>
      let! x := collect_fee_one rent fs include_size_in_fee hash_queue tx r db in
      let! rest := filter_program_errors_and_collect_fee rent fs include_size_in_fee hash_queue l' x.2 in
      Ok (x.1.1 :: rest.1.1, wrapping_add x.1.2 rest.1.2, rest.2)
  end.

(** ** The commit *)

(** the counters of a bank and its status cache *)
Record BankState := mkBankState {
  bs_status_cache : BankStatusCache;
  transaction_count : N;
  non_vote_transaction_count_since_restart : N;
  bs_signature_count : N;
  transaction_error_count : N;
  is_delta : bool;
  transaction_entries_count : N;
  transactions_per_entry_max : N;
  collected_rent : N;
  collector_fees : N;
  accounts_data_size_delta_on_chain : Z }.
Record CommitTransactionCounts := mkCommitTransactionCounts {
  committed_transactions_count : N;
  committed_non_vote_transactions_count : N;
  committed_with_failure_result_count : N;
  signature_count : N }.
Definition was_executed (r : TransactionExecutionResult) : bool :=
  match r with Executed _ _ => true | NotExecuted _ => false end.
(** the wrapped sum of 64-bit integers *)
Definition i64_wrap (z : Z) : Z := ((z + 2 ^ 63) `mod` 2 ^ 64 - 2 ^ 63)%Z.
Definition accounts_data_len_sum (execution_results : list TransactionExecutionResult) : Z :=
  foldl (λ sum r,
    match r with
    | Executed details _ => if is_ok (status details) then i64_wrap (sum + accounts_data_len_delta details) else sum
    | NotExecuted _ => sum
    end) 0%Z execution_results.
(** the accounts, the state and the results afterwards; [draws] are the numbers that the
    status cache draws *)
Definition commit_transactions {E} (rent : Rent) (fs : FeeStructure) (include_size_in_fee : bool)
    (hash_queue : BlockhashQueue) (slot : N) (draws : nat → N) (last_blockhash : Hash) (lamports_per_signature : N)
    (counts : CommitTransactionCounts) (txs : list SanitizedTransaction)
    (results : list (TransactionExecutionResult * TransactionLoadResult))
    (db : gmap Pubkey AccountSharedData) (b : BankState) :
  result E (gmap Pubkey AccountSharedData * BankState * list (result TransactionError.t unit)) :=
  let execution_results := results.*1 in
  let executed := existsb was_executed execution_results in
  let durable_nonce := durable_nonce_from_blockhash last_blockhash in
  let! accounts := collect_accounts_to_store durable_nonce lamports_per_signature txs results in
  let db := store_accounts accounts db in
  let rent_collected := collect_rent results in
  let amount := accounts_data_len_sum execution_results in
  let! status_cache := update_transaction_statuses slot draws txs
                         ((λ r, status <$> execution_details r) <$> execution_results) (bs_status_cache b) in
  let! x := filter_program_errors_and_collect_fee rent fs include_size_in_fee hash_queue
              (zip txs execution_results) db in
  Ok (x.2,
      mkBankState status_cache
        (wrapping_add (transaction_count b) (committed_transactions_count counts))
        (wrapping_add (non_vote_transaction_count_since_restart b) (committed_non_vote_transactions_count counts))
        (wrapping_add (bs_signature_count b) (signature_count counts))
        (if 0 <? committed_with_failure_result_count counts
         then wrapping_add (transaction_error_count b) (committed_with_failure_result_count counts)
         else transaction_error_count b)
        (executed || is_delta b)
        (if executed then wrapping_add (transaction_entries_count b) 1 else transaction_entries_count b)
        (if executed then N.max (transactions_per_entry_max b) (committed_transactions_count counts)
         else transactions_per_entry_max b)
        (wrapping_add (collected_rent b) rent_collected)
        (wrapping_add (collector_fees b) x.1.2)
        (if (amount =? 0)%Z then accounts_data_size_delta_on_chain b
         else i64_saturating_add (accounts_data_size_delta_on_chain b) amount),
      x.1.1).

(** ** The logs of a batch *)
Fixpoint rfold {E A S} (f : S → A → result E S) (s : S) (l : list A) : result E S :=
  match l with [] => Ok s | x :: l' => let! s := f s x in rfold f s l' end.
Inductive TransactionLogCollectorFilter := All | AllWithVotes | NoLogs | OnlyMentionedAddresses.
Record TransactionLogCollectorConfig := mkTransactionLogCollectorConfig {
  mentioned_addresses : gset Pubkey; log_filter : TransactionLogCollectorFilter }.
Record TransactionLogInfo := mkTransactionLogInfo {
  log_signature : Signature; log_result : result TransactionError.t unit; log_is_vote : bool;
  log_info_messages : list string }.
Record TransactionLogCollector := mkTransactionLogCollector {
  logs : list TransactionLogInfo; mentioned_address_map : gmap Pubkey (list N) }.
Definition push_mentioned (index : N) (m : gmap Pubkey (list N)) (key : Pubkey) : gmap Pubkey (list N) :=
  <[key := default [] (m !! key) ++ [index]]> m.
Definition collect_log {E} (config : TransactionLogCollectorConfig) (c : TransactionLogCollector)
    (x : TransactionExecutionResult * SanitizedTransaction) : result E TransactionLogCollector :=
  let '(execution_result, tx) := x in
  let is_vote := is_simple_vote_transaction tx in
  let filtered_mentioned_addresses :=
    filter (λ key, key ∈ mentioned_addresses config) (account_keys_iter (sm_account_keys (tx_message tx))) in
  let store := match log_filter config with
               | All => negb is_vote || negb (bool_decide (filtered_mentioned_addresses = []))
               | AllWithVotes => true
               | NoLogs => false
               | OnlyMentionedAddresses => negb (bool_decide (filtered_mentioned_addresses = []))
               end in
  match execution_result with
  | Executed (mkTransactionExecutionDetails status (Some log_messages) _ _ _) _ =>
      if store then
        let! signature := tx_signature tx in
        Ok (mkTransactionLogCollector (logs c ++ [mkTransactionLogInfo signature status is_vote log_messages])
              (foldl (push_mentioned (len (logs c))) (mentioned_address_map c) filtered_mentioned_addresses))
      else Ok c
  | _ => Ok c
  end.
Definition get_logs_for_address (address : option Pubkey) (c : TransactionLogCollector) :
  option (list TransactionLogInfo) :=
  match address with
  | None => Some (logs c)
  | Some address =>
      match mentioned_address_map c !! address with
      | Some log_indices => Some (omap (getN (logs c)) log_indices)
      | None => None
      end
  end.

(** ** The counts of a batch *)
Record ExecutionCounts := mkExecutionCounts {
  executed_signature_count : N;
  executed_transactions_count : N;
  executed_non_vote_transactions_count : N;
  executed_with_successful_result_count : N }.
Definition flattened_result (r : TransactionExecutionResult) : result TransactionError.t unit :=
  match r with Executed details _ => status details | NotExecuted err => Err err end.
Definition count_execution (c : ExecutionCounts) (x : TransactionExecutionResult * SanitizedTransaction) :
  ExecutionCounts :=
  let '(r, tx) := x in
  let ok := is_ok (flattened_result r) in
  mkExecutionCounts
    (if was_executed r
     then wrapping_add (executed_signature_count c) (num_required_signatures (sm_header (tx_message tx)))
     else executed_signature_count c)
    (if was_executed r then wrapping_add (executed_transactions_count c) 1 else executed_transactions_count c)
    (if ok && negb (is_simple_vote_transaction tx) then wrapping_add (executed_non_vote_transactions_count c) 1
     else executed_non_vote_transactions_count c)
    (if ok then wrapping_add (executed_with_successful_result_count c) 1 else executed_with_successful_result_count c).
Definition is_retryable (r : LockResult) : bool :=
  match r with
  | Err TransactionError.AccountInUse | Err TransactionError.WouldExceedMaxBlockCostLimit
  | Err TransactionError.WouldExceedMaxVoteCostLimit | Err TransactionError.WouldExceedMaxAccountCostLimit
  | Err TransactionError.WouldExceedAccountDataBlockLimit => true
  | _ => false
  end.
Definition retryable_transaction_indexes (lock_results : list LockResult) : list N :=
  omap (λ x, if is_retryable x.2 then Some x.1 else None) (zip (rangeN (len lock_results)) lock_results).

(** ** The batch *)

(** what the accounts database serves is a function of the cache, whose remote loader it
    falls back to; [replenish_program_cache] gives the sizes of the loaded programs and
    whether it hit its limit *)
Record BatchEnv := mkBatchEnv {
  be_accounts : AccountsCache → gmap Pubkey AccountSharedData;
  be_ancestors : gset N;
  be_hash_queue : BlockhashQueue;
  be_slot : N;
  be_builtin_programs : list Pubkey;
  be_replenish_program_cache : gmap Pubkey (Pubkey * N) → (Pubkey → option N) * bool;
  be_rent_collector : RentCollector;
  be_set_exempt_rent_epoch_max : bool;
  be_in_reward_interval : bool;
  be_should_collect_rent : bool;
  be_fee_structure : FeeStructure;
  be_include_size_in_fee : bool;
  be_log_collector_config : TransactionLogCollectorConfig;
  be_execute : ExecuteEnv }.

Definition account_matches_owners (db : gmap Pubkey AccountSharedData) (key : Pubkey) (owners : list Pubkey) :
  option N :=
  account ← db !! key;
  if lamports account =? 0 then None else position (key_eqb (owner account)) owners.
Definition count_program (db : gmap Pubkey AccountSharedData) (program_owners : list Pubkey)
    (result : gmap Pubkey (Pubkey * N)) (key : Pubkey) : gmap Pubkey (Pubkey * N) :=
  match result !! key with
  | Some (owner, count) => <[key := (owner, saturating_add u64_max count 1)]> result
  | None =>
      match index ← account_matches_owners db key program_owners; getN program_owners index with
      | Some owner => <[key := (owner, 1)]> result
      | None => result
      end
  end.
(** a recursion of the remote loader deeper than the fuel is a panic *)
Fixpoint filter_executable_program_accounts {E} (fuel : nat) (e : BatchEnv) (program_owners : list Pubkey)
    (l : list (SanitizedTransaction * TransactionCheckResult)) (result : gmap Pubkey (Pubkey * N))
    (c : AccountsCache) :
  Prelude.result E (list TransactionCheckResult * gmap Pubkey (Pubkey * N) * AccountsCache) :=
  match l with
  | [] => Ok ([], result, c)
  | (tx, (Ok u, nonce)) :: l' =>
      let lamports_per_signature :=
        match nonce with
        | Some nonce => lamports_per_signature_of nonce.2
        | None => get_lamports_per_signature (be_hash_queue e) (msg_recent_blockhash (sm_base (tx_message tx)))
        end in
      match lamports_per_signature with
      | Some _ =>
          let! c := unwrap (check_remote_accounts fuel (xe_base (be_execute e)) tx c) in
          let result := foldl (count_program (be_accounts e c) program_owners) result
                          (account_keys_iter (sm_account_keys (tx_message tx))) in
          let! rest := filter_executable_program_accounts fuel e program_owners l' result c in
          Ok ((Ok u, nonce) :: rest.1.1, rest.1.2, rest.2)
      | None =>
          let! rest := filter_executable_program_accounts fuel e program_owners l' result c in
          Ok ((Err TransactionError.BlockhashNotFound, None) :: rest.1.1, rest.1.2, rest.2)
      end
  | (tx, check_result) :: l' =>
      let! rest := filter_executable_program_accounts fuel e program_owners l' result c in
      Ok (check_result :: rest.1.1, rest.1.2, rest.2)
  end.

Definition load_env (e : BatchEnv) (account_overrides : gmap Pubkey AccountSharedData)
    (program_accounts_map : gmap Pubkey (Pubkey * N)) (programs_loaded : Pubkey → option N) (c : AccountsCache) : LoadEnv :=
  mkLoadEnv (be_accounts e c) (be_rent_collector e) (be_set_exempt_rent_epoch_max e) account_overrides
    (be_in_reward_interval e) (fst <$> program_accounts_map) programs_loaded (be_should_collect_rent e).
Record LoadAndExecuteTransactionsOutput := mkLoadAndExecuteOutput {
  lo_results : list (TransactionExecutionResult * TransactionLoadResult);
  lo_retryable_transaction_indexes : list N;
  lo_counts : ExecutionCounts }.
(** also the logs, the cache the accounts were loaded from and the remote loader *)
Definition load_and_execute_transactions (fuel : nat) (e : BatchEnv) (batch : TransactionBatch) (max_age : N)
    (account_overrides : gmap Pubkey AccountSharedData) (status_cache : BankStatusCache)
    (log_collector : TransactionLogCollector) (c : AccountsCache) :
  result TransactionError.t
    (LoadAndExecuteTransactionsOutput * TransactionLogCollector * AccountsCache * RemoteAccountLoader) :=
  let txs := sanitized_txs batch in
  let retryable := retryable_transaction_indexes (lock_results batch) in
  let! check_results := check_transactions (λ k, be_accounts e c !! k) (be_ancestors e) txs (lock_results batch)
                          max_age (be_hash_queue e) status_cache in
  let! x := filter_executable_program_accounts fuel e PROGRAM_OWNERS (zip txs check_results) ∅ c in
  let '(check_results, program_accounts_map, c) := x in
  let program_accounts_map :=
    foldl (λ m k, <[k := (native_loader_id, 0)]> m) program_accounts_map (be_builtin_programs e) in
  let '(programs_loaded, hit_max_limit) := be_replenish_program_cache e program_accounts_map in
  if hit_max_limit
  then Ok (mkLoadAndExecuteOutput [] retryable (mkExecutionCounts 0 0 0 0), log_collector, c, remote_loader c) else
  let env := load_env e account_overrides program_accounts_map programs_loaded c in
  let loads := zip_with (load_accounts_one env (be_fee_structure e) (be_include_size_in_fee e) (be_hash_queue e))
                 txs check_results in
  let! y := execute_all (be_execute e) txs loads (remote_loader c) in
  let executed := zip y.1.*1 txs in
  let! log_collector := rfold (collect_log (be_log_collector_config e)) log_collector executed in
  Ok (mkLoadAndExecuteOutput y.1 retryable (foldl count_execution (mkExecutionCounts 0 0 0 0) executed),
      log_collector, c, y.2).

Definition last_blockhash_and_lamports_per_signature {E} (q : BlockhashQueue) : result E (Hash * N) :=
  let! last := last_hash q in
  let! lamports_per_signature := unwrap (get_lamports_per_signature q last) in
  Ok (last, lamports_per_signature).
(** the accounts, the state, the logs and the results, with the cache of the load *)
Definition load_execute_and_commit_transactions (fuel : nat) (e : BatchEnv) (draws : nat → N)
    (batch : TransactionBatch) (max_age : N) (log_collector : TransactionLogCollector) (c : AccountsCache)
    (b : BankState) :
  result TransactionError.t
    (gmap Pubkey AccountSharedData * BankState * TransactionLogCollector * list (result TransactionError.t unit) *
     AccountsCache) :=
  let! x := load_and_execute_transactions fuel e batch max_age ∅ (bs_status_cache b) log_collector c in
  let '(output, log_collector, c, _) := x in
  let! last := last_blockhash_and_lamports_per_signature (be_hash_queue e) in
  let counts := lo_counts output in
  let! y := commit_transactions (rc_rent (be_rent_collector e)) (be_fee_structure e) (be_include_size_in_fee e)
              (be_hash_queue e) (be_slot e) draws last.1 last.2
              (mkCommitTransactionCounts (executed_transactions_count counts)
                 (executed_non_vote_transactions_count counts)
                 (saturating_sub (executed_transactions_count counts) (executed_with_successful_result_count counts))
                 (executed_signature_count counts))
              (sanitized_txs batch) (lo_results output) (be_accounts e c) b in
  Ok (y.1.1, y.1.2, log_collector, y.2, c).
End batch.
