(* ===== verification/LoadRules.v ===== *)
(** * Theory of account loading

    What [load_transaction_accounts] takes from each account, and that what it returns is
    what execution starts from. *)

From S2P Require Import Prelude Sdk Rent Account Message MessageRules Nonce TransactionContext.
From S2P Require Import AccountRules InstructionRules LogCollector InvokeContext InvokeRules.
From S2P Require Import MessageProcessor MessageProcessorRules Effects RemoteLoader AccountsCache.
From S2P Require Import MigraterProgram Bank ExecuteRules SystemProgram BlockhashQueue StatusCache.
From S2P Require Import Admission EpochSchedule LoadAccounts Fees.

(** the balance under a key *)
Definition lam (db : gmap Pubkey AccountSharedData) (k : Pubkey) : N := default 0 (lamports <$> db !! k).

Section load_rules.
Context `{!Bincode Versions, !BorshComputeBudget}.
Context (env : LoadEnv) (message : SanitizedMessage) (fee limit : N) (used : list N).
Context (Hover : account_overrides env = ∅).

(** ** One account *)
Lemma load_from_db_spec i key sz a r found :
  load_from_db env message i key = (sz, a, r, found) →
  lamports a + r = lam (accounts_db env) key ∧ (sm_is_writable message i = false → r = 0) ∧
  (executable a = true → r = 0) ∧
  (lamports a ≠ 0 → ∃ a0, accounts_db env !! key = Some a0 ∧ data a = data a0 ∧ owner a = owner a0).
Proof.
  unfold load_from_db, lam. destruct (accounts_db env !! key) as [a0|] eqn:Hk; cbn [fmap option_fmap option_map from_option id].
  2:{ intros [= <- <- <- <-]. destruct (set_exempt_rent_epoch_max env); simpl; done. }
  destruct (sm_is_writable message i); [|intros [= <- <- <- <-]; split_and!; [lia|done|done|eauto]].
  destruct (le_should_collect_rent env).
  - intros [= <- <- <- <-]. pose proof (collect_conserves (le_rent_collector env) key a0 (set_exempt_rent_epoch_max env)) as Hc.
    split_and!; [exact Hc|done| |].
    + unfold collect_from_existing_account, calculate_rent_result, should_collect_rent.
      destruct (_ || _); [done|]. destruct (executable a0) eqn:He; cbn [orb negb].
      { by destruct (set_exempt_rent_epoch_max env). }
      destruct (key_eqb _ _); cbn [negb]; [by destruct (set_exempt_rent_epoch_max env)|].
      destruct (get_rent_due _ _) as [|[|due]]; [by destruct (set_exempt_rent_epoch_max env)|done|].
      destruct (checked_sub _ _) as [[|]|]; simpl; try done. by rewrite He.
    + unfold collect_from_existing_account. intros Hl. exists a0. split; [done|].
      destruct (calculate_rent_result _ _ _); [by destruct (set_exempt_rent_epoch_max env)|done|].
      destruct (checked_sub _ _) as [[|]|]; done.
  - intros [= <- <- <- <-]. destruct (_ && _); simpl; split_and!; try done; try lia; intros _; by eexists.
Qed.

Lemma validate_fee_payer_spec key a i rent a' :
  validate_fee_payer key a i rent fee = Ok a' →
  lamports a ≠ 0 ∧ a' = set_lamports (lamports a - fee) a ∧
  fee + (match get_system_account_kind a with Some NonceKind => minimum_balance rent NONCE_STATE_SIZE | _ => 0 end)
    ≤ lamports a.
Proof.
  unfold validate_fee_payer. destruct (N.eqb_spec (lamports a) 0) as [|Hne]; [done|].
  destruct (get_system_account_kind a) as [kind|]; cbn [ok_or rbind]; [|done].
  set (min := match kind with SystemKind => 0 | NonceKind => _ end). unfold checked_sub.
  destruct (N.leb_spec min (lamports a)) as [Hm|]; cbn [mbind option_bind ok_or rbind]; [|done].
  destruct (N.leb_spec fee (lamports a - min)) as [Hf|]; cbn [ok_or rbind]; [|done].
  unfold checked_sub_lamports, checked_sub. rewrite (proj2 (N.leb_le fee (lamports a))) by lia.
  cbn [ok_or rmap map_err rbind]. destruct (check_rent_state_with_account _ _ _ _) as [[]| |]; cbn [rbind]; [|done..].
  intros [= <-]. split_and!; [done..|]. by destruct kind; unfold min in *; lia.
Qed.

(** what a loaded account was: [r] was taken for rent, [paid] for the fee *)
Record loaded_as (i : N) (key : Pubkey) (a : AccountSharedData) (r paid : N) : Prop := {
  la_lamports : sm_is_writable message i = true → key ≠ sysvar_instructions_id →
    lamports a + r + paid = lam (accounts_db env) key;
  la_bound : lamports a ≤ lam (accounts_db env) key;
  la_readonly : sm_is_writable message i = false → r = 0;
  la_executable : executable a = true → r = 0 }.

Lemma load_one_spec i key st a found st' :
  load_one env message used fee limit i key st = Ok (a, found, st') → tx_rent st ≤ u64_max →
  let payer := negb (validated_fee_payer st) && sm_is_non_loader_key message i &&
               negb (key_eqb key sysvar_instructions_id) in
  ∃ r, loaded_as i key a r (if payer then fee else 0) ∧ tx_rent st' = as_u64 (tx_rent st + r) ∧
    (key ≠ sysvar_instructions_id →
     rent_debits st' = insert_rent_debit key r (lamports a) (rent_debits st)) ∧
    (key = sysvar_instructions_id → rent_debits st' = rent_debits st) ∧
    validated_fee_payer st' = validated_fee_payer st || payer ∧
    (payer = true → sm_is_writable message i = true → ∃ a0, accounts_db env !! key = Some a0 ∧
       data a = data a0 ∧ owner a = owner a0 ∧
       fee + (match get_system_account_kind a0 with
              | Some NonceKind => minimum_balance (rc_rent (le_rent_collector env)) NONCE_STATE_SIZE
              | _ => 0
              end) ≤ lamports a0).
Proof.
  unfold load_one. intros Hl Hst. cbv zeta. destruct (key_eqb key sysvar_instructions_id) eqn:Hkey.
  - apply key_eqb_true in Hkey as ->. rewrite andb_false_r. unfold construct_instructions_account in Hl.
    destruct (decompile_instructions _) as [ixs| |]; cbn [rbind] in Hl; [|done..].
    destruct (InstructionsSysvar.construct_instructions_data _) as [d| |]; cbn [rbind] in Hl; [|done..].
    injection Hl as <- <- <-. exists 0. rewrite orb_false_r. split_and!; try done.
    + split; simpl; try done. lia.
    + unfold as_u64. rewrite N.add_0_r, N.mod_small; [done|]. unfold u64_max in Hst. lia.
  - apply key_eqb_false in Hkey. rewrite Hover, lookup_empty in Hl. cbn [negb]. rewrite andb_true_r.
    set (payer := negb (validated_fee_payer st) && sm_is_non_loader_key message i) in *.
    assert (Hx : ∃ sz a1 r f0, (lamports a1 + r = lam (accounts_db env) key ∨ sm_is_writable message i = false ∧ lamports a1 = 0) ∧
      (sm_is_writable message i = false → r = 0) ∧ (executable a1 = true → r = 0) ∧
      (sm_is_writable message i = true → lamports a1 ≠ 0 →
        ∃ a0, accounts_db env !! key = Some a0 ∧ data a1 = data a0 ∧ owner a1 = owner a0) ∧
      (let! accumulated := accumulate_and_check_loaded_account_data_size (accumulated_accounts_data_size st) sz limit in
       let! account := if payer then validate_fee_payer key a1 i (rc_rent (le_rent_collector env)) fee else Ok a1 in
       if in_reward_interval env && sm_is_writable message i && key_eqb (owner account) stake_program_id
       then Err (TransactionError.ProgramExecutionTemporarilyRestricted (as_u8 i))
       else Ok (account, f0, mkLoadState accumulated (validated_fee_payer st || payer) (wrapping_add (tx_rent st) r)
                  (insert_rent_debit key r (lamports account) (rent_debits st)))) = Ok (a, found, st')).
    { destruct (if negb _ && negb (sm_is_writable message i) then loaded_programs env key else None) as [sz|] eqn:Hp.
      - unfold account_shared_data_from_program in Hl.
        destruct (program_accounts env !! key) as [o|]; cbn [ok_or rbind] in Hl; [|done].
        destruct (sm_is_writable message i) eqn:Hw; [by rewrite andb_false_r in Hp|].
        exists sz, (set_executable true (set_owner o default_account)), 0, true. split_and!; [by right|done..|exact Hl].
      - cbn [rbind] in Hl. destruct (load_from_db env message i key) as [[[sz a1] r] f] eqn:Hd.
        destruct (load_from_db_spec _ _ _ _ _ _ Hd) as (H1 & H2 & H3 & H4). exists sz, a1, r, f.
        split_and!; [by left|done|done|by intros _|exact Hl]. }
    clear Hl. destruct Hx as (sz & a1 & r & f0 & Hlam & Hro & Hex & Hsame & Hl).
    destruct (accumulate_and_check_loaded_account_data_size _ _ _) as [acc| |]; cbn [rbind] in Hl; [|done..].
    destruct (if payer then _ else _) as [a2| |] eqn:Hpay; cbn [rbind] in Hl; [|done..].
    destruct (in_reward_interval env && _ && _); [done|]. injection Hl as <- <- <-. exists r.
    assert (Ha2 : lamports a2 + (if payer then fee else 0) = lamports a1 ∧ executable a2 = executable a1 ∧
      (payer = true → lamports a1 ≠ 0 ∧ data a2 = data a1 ∧ owner a2 = owner a1 ∧
        fee + (match get_system_account_kind a1 with
               | Some NonceKind => minimum_balance (rc_rent (le_rent_collector env)) NONCE_STATE_SIZE | _ => 0 end)
          ≤ lamports a1)).
    { destruct payer; [|injection Hpay as <-; split_and!; [lia|done|done]].
      destruct (validate_fee_payer_spec _ _ _ _ _ Hpay) as (Hne & -> & Hmin). simpl. split_and!; [lia|done|done]. }
    destruct Ha2 as (Hb & He & Hpd). cbn [tx_rent rent_debits validated_fee_payer].
    split_and!; [|done|done|done|done|].
    + split; [|destruct Hlam as [Hlam|[_ Hlam]]; lia|done|by rewrite He].
      intros Hw _. destruct Hlam as [Hlam|[Hlam _]]; [lia|congruence].
    + intros Hp Hw. destruct (Hpd Hp) as (Hne & Hd & Ho & Hmin). destruct (Hsame Hw Hne) as (a0 & Hk & Hd0 & Ho0).
      exists a0. split_and!; [done|congruence|congruence|].
      assert (get_system_account_kind a0 = get_system_account_kind a1) as -> by (unfold get_system_account_kind; by rewrite Hd0, Ho0).
      destruct Hlam as [Hlam|[Hlam _]]; [|congruence]. unfold lam in Hlam. rewrite Hk in Hlam. simpl in Hlam. lia.
Qed.

Lemma as_u64_add a b : as_u64 (as_u64 a + b) = as_u64 (a + b).
Proof. unfold as_u64. by rewrite N.Div0.add_mod_idemp_l. Qed.
Lemma as_u64_bound a : as_u64 a ≤ u64_max.
Proof. unfold as_u64, u64_max. pose proof (N.mod_lt a 18446744073709551616). lia. Qed.

(** ** All accounts: [rents] is what was taken from each *)
Definition all_loaded_as (i : N) (accs : list (Pubkey * AccountSharedData)) (rents : list N) (fee0 : N) : Prop :=
  length rents = length accs ∧
  ∀ j k a r, accs !! j = Some (k, a) → rents !! j = Some r →
    loaded_as (i + N.of_nat j) k a r (if decide (j = 0%nat) then fee0 else 0).

Lemma load_keys_spec keys : ∀ i st accs found st',
  load_keys env message used fee limit i keys st = Ok (accs, found, st') →
  tx_rent st ≤ u64_max → validated_fee_payer st = true →
  accs.*1 = keys ∧ validated_fee_payer st' = true ∧
  (∀ k, k ∉ keys → rent_debits st' !! k = rent_debits st !! k) ∧
  ∃ rents, all_loaded_as i accs rents 0 ∧ tx_rent st' = as_u64 (tx_rent st + sumN rents).
Proof.
  induction keys as [|key keys IH]; intros i st accs found st'; cbn [load_keys].
  { intros [= <- <- <-] Hst Hv. split_and!; [done..|]. exists []. split; [split; [done|]; by intros [|]|].
    change (sumN []) with 0. unfold as_u64. rewrite N.add_0_r, N.mod_small; [done|]. unfold u64_max in Hst. lia. }
  intros Hl Hst Hv. destruct (load_one _ _ _ _ _ _ _ _) as [[[a f] st1]| |] eqn:Ho; cbn [rbind fst snd] in Hl; [|done..].
  destruct (load_keys _ _ _ _ _ _ _ _) as [[[accs2 found2] st2]| |] eqn:Hr; cbn [rbind fst snd] in Hl; [|done..].
  injection Hl as <- <- <-. destruct (load_one_spec _ _ _ _ _ _ Ho Hst) as (r & Hla & Hrent & Hd & Hd' & Hv1 & _).
  rewrite Hv in Hla, Hv1. cbn [negb andb orb] in Hla, Hv1.
  destruct (IH _ _ _ _ _ Hr) as (Hk & Hv2 & Hdeb & rents & [Hlen Hall] & Hsum).
  { rewrite Hrent. apply as_u64_bound. } { done. }
  split_and!; [cbn; by rewrite Hk|done| |].
  - intros k Hk'. rewrite Hdeb by set_solver. destruct (decide (key = sysvar_instructions_id)) as [->|Hne].
    + by rewrite Hd'.
    + rewrite Hd by done. unfold insert_rent_debit. destruct (negb _); [|done]. apply lookup_insert_ne. set_solver.
  - exists (r :: rents). split.
    + split; [cbn [length]; by rewrite Hlen|]. intros [|j] k a' r' Ha' Hr'; cbn in Ha', Hr'.
      * simplify_eq. by rewrite N.add_0_r.
      * specialize (Hall j k a' r' Ha' Hr'). rewrite decide_False by done.
        replace (i + N.of_nat (S j)) with (i + 1 + N.of_nat j) by lia.
        by destruct (decide (j = 0%nat)).
    + rewrite Hsum, Hrent, as_u64_add, sumN_cons. f_equal. lia.
Qed.

(** ** The programs *)
Lemma load_programs_spec builtins found ixs : ∀ accs acc pidx accs',
  load_programs env limit builtins found ixs accs acc = Ok (pidx, accs') →
  length pidx = length ixs ∧ Forall (λ l, len l ≤ 2) pidx ∧
  ∃ extra, accs' = accs ++ extra ∧ (length extra ≤ length ixs)%nat ∧
    Forall (λ x, accounts_db env !! x.1 = Some x.2) extra ∧
    ∀ ci k a, ci ∈ ixs → getN accs (program_id_index ci) = Some (k, a) →
      k = native_loader_id ∨ executable a = true.
Proof.
  induction ixs as [|ci ixs IH]; intros accs acc pidx accs'; cbn [load_programs].
  { intros [= <- <-]. split_and!; [done|constructor|]. exists []. rewrite app_nil_r. split_and!; [done|done|constructor|set_solver]. }
  destruct (program_indices_of _ _ _ _ _ _ _) as [[[l1 accs1] acc1]| |] eqn:Hp; cbn [rbind fst snd]; [|done..].
  destruct (load_programs _ _ _ _ _ _ _) as [[pidx2 accs2]| |] eqn:Hr; cbn [rbind fst snd]; [|done..].
  intros [= <- <-]. destruct (IH _ _ _ _ Hr) as (Hl & Hs & extra & -> & He & Hdb & Hx).
  assert (H1 : len l1 ≤ 2 ∧ (∃ e1, accs1 = accs ++ e1 ∧ (length e1 ≤ 1)%nat ∧
              Forall (λ x, accounts_db env !! x.1 = Some x.2) e1) ∧
            ∀ k a, getN accs (program_id_index ci) = Some (k, a) → k = native_loader_id ∨ executable a = true).
  { unfold program_indices_of in Hp. destruct (getN accs (program_id_index ci)) as [[k a]|]; cbn [ok_or rbind fst snd] in Hp; [|done].
    assert (Hnil : ∃ e1 : list (Pubkey * AccountSharedData), accs = accs ++ e1 ∧ (length e1 ≤ 1)%nat ∧
              Forall (λ x, accounts_db env !! x.1 = Some x.2) e1).
    { exists []. rewrite app_nil_r. split_and!; [done|simpl; lia|constructor]. }
    destruct (key_eqb k native_loader_id) eqn:Hn.
    { injection Hp as <- <- <-. apply key_eqb_true in Hn as ->. split_and!; [done|exact Hnil|]. intros ? ? [= <- <-]. by left. }
    destruct (negb (default _ _)); [done|]. destruct (executable a) eqn:Hex; cbn [negb] in Hp; [|done].
    assert (Hkeep : ∀ k0 a0, Some (k, a) = Some (k0, a0) → k0 = native_loader_id ∨ executable a0 = true)
      by (intros ? ? [= <- <-]; by right).
    destruct (key_eqb (owner a) native_loader_id); [by injection Hp as <- <- <-|].
    destruct (position _ _); [by injection Hp as <- <- <-|].
    destruct (accounts_db env !! owner a) as [oa|] eqn:Hoa; [|done].
    destruct (_ || _); [done|]. destruct (accumulate_and_check_loaded_account_data_size _ _ _); cbn [rbind] in Hp; [|done..].
    injection Hp as <- <- <-. split_and!; [done| |done]. eexists. split_and!; [done|simpl; lia|].
    constructor; [done|constructor]. }
  destruct H1 as (Hl1 & (e1 & -> & He1 & Hdb1) & Hx1). split_and!; [cbn [length]; by rewrite Hl|by constructor|].
  exists (e1 ++ extra). rewrite <-app_assoc. split_and!; [done| | |].
  - rewrite length_app. cbn [length]. lia.
  - by apply list.Forall_app.
  - intros ci' k a [->|Hin]%elem_of_cons Hg; [by eapply Hx1|]. eapply Hx; [done|]. by apply getN_app_l.
Qed.
End load_rules.

(** ** Writable accounts are no builtin programs *)
Lemma writable_not_builtin message i k :
  message_wf message → sm_is_writable message i = true →
  account_keys_get (sm_account_keys message) i = Some k → is_builtin_key_or_sysvar k = false.
Proof.
  intros Hw Hi. rewrite account_keys_get_iter. unfold sm_is_writable in Hi. destruct message as [m|m]; simpl in Hw.
  - destruct m as [m l]. cbn [lm_is_writable_account_cache lm_message sm_account_keys] in *.
    unfold legacy_message_new in Hw. destruct (rmapM _ _) as [l'| |] eqn:Hl; cbn [rmap rbind] in Hw; [|done..].
    injection Hw as ->. destruct (getN l i) as [b|] eqn:Hg; cbn in Hi; [subst b|done]. apply rmapM_Ok in Hl.
    destruct (Forall2_lookup_r _ _ _ _ _ Hl Hg) as (i' & Hi' & Hwr).
    change (_ !! N.to_nat i) with (getN (indices (msg_account_keys m)) i) in Hi'.
    rewrite getN_indices in Hi'. apply fmap_Some in Hi' as (k' & Hk' & ->).
    unfold account_keys_iter. cbn. rewrite app_nil_r, Hk'. intros [= <-].
    unfold legacy_is_writable in Hwr. rewrite Hk' in Hwr. cbn [unwrap rbind] in Hwr.
    destruct (_ || _); [|done]. injection Hwr as Hwr. by destruct (is_builtin_key_or_sysvar k').
  - rewrite <-Hw in Hi. cbn [loaded_message_new ld_is_writable_account_cache] in Hi.
    unfold getN in Hi. rewrite list_lookup_fmap in Hi. change (_ !! N.to_nat i) with (getN (indices (account_keys_iter (v0_account_keys (ld_message m) (loaded_addresses m)))) i) in Hi.
    rewrite getN_indices in Hi. cbn [sm_account_keys]. intros Hk. rewrite Hk in Hi. cbn in Hi.
    unfold is_writable_internal in Hi. rewrite account_keys_get_iter, Hk in Hi.
    destruct (is_writable_index _ _ _); [|done]. by destruct (is_builtin_key_or_sysvar k).
Qed.
Lemma native_loader_builtin : is_builtin_key_or_sysvar native_loader_id = true.
Proof. vm_compute. reflexivity. Qed.
Lemma instructions_builtin : is_builtin_key_or_sysvar sysvar_instructions_id = true.
Proof. vm_compute. reflexivity. Qed.

(** ** The transaction *)

(** the first account pays: it is writable and no loader key *)
Record payer_ok (message : SanitizedMessage) (k0 : Pubkey) (keys : list Pubkey) : Prop := {
  po_keys : account_keys_iter (sm_account_keys message) = k0 :: keys;
  po_writable : sm_is_writable message 0 = true;
  po_non_loader : sm_is_non_loader_key message 0 = true }.
(** a message in the form its constructor gives it, of a size that 16-bit indices cover *)
Record message_ready (message : SanitizedMessage) : Prop := {
  mr_wf : message_wf message;
  mr_nodup : sm_has_duplicates message = false;
  mr_small : len (account_keys_iter (sm_account_keys message)) + len (sm_instructions message) ≤ u16_max;
  mr_accounts : Forall (λ ci, len (ci_accounts ci) + 2 ≤ u16_max) (sm_instructions message) }.

Section load_transaction.
Context `{!Bincode Versions, !BorshComputeBudget}.
Context (env : LoadEnv) (tx : SanitizedTransaction) (fee : N) (lt : LoadedTransaction) (k0 : Pubkey) (keys : list Pubkey).
Context (Hover : account_overrides env = ∅) (Hready : message_ready (tx_message tx))
  (Hpayer : payer_ok (tx_message tx) k0 keys) (Hload : load_transaction_accounts env tx fee = Ok lt).
Context (Hdb : ∀ k, lam (accounts_db env) k ≤ u64_max).

(** what was loaded *)
Record tx_taken (accs extra : list (Pubkey * AccountSharedData)) (rents : list N) : Prop := {
  tt_accounts : lt_accounts lt = accs ++ extra;
  tt_keys : accs.*1 = k0 :: keys;
  tt_loaded : all_loaded_as env (tx_message tx) 0 accs rents fee;
  tt_rent : lt_rent lt = as_u64 (sumN rents);
  tt_debit : ∃ r0, rents !! 0%nat = Some r0 ∧ get_account_rent_debit (lt_rent_debits lt) k0 = r0;
  tt_programs : ∀ ci k a, ci ∈ sm_instructions (tx_message tx) → getN accs (program_id_index ci) = Some (k, a) →
    k = native_loader_id ∨ executable a = true;
  tt_payer : ∃ a a0, accs !! 0%nat = Some (k0, a) ∧ accounts_db env !! k0 = Some a0 ∧
    data a = data a0 ∧ owner a = owner a0 ∧
    fee + (match get_system_account_kind a0 with
           | Some NonceKind => minimum_balance (rc_rent (le_rent_collector env)) NONCE_STATE_SIZE
           | _ => 0
           end) ≤ lamports a0;
  tt_ready : tx_loaded (tx_message tx) (lt_accounts lt) (lt_program_indices lt) }.

Lemma payer_not_sysvar : k0 ≠ sysvar_instructions_id.
Proof.
  intros Heq. pose proof (writable_not_builtin _ 0 k0 (mr_wf _ Hready) (po_writable _ _ _ Hpayer)) as Hb.
  rewrite account_keys_get_iter, (po_keys _ _ _ Hpayer) in Hb. specialize (Hb eq_refl).
  by rewrite Heq, instructions_builtin in Hb.
Qed.
Lemma load_transaction_spec : ∃ accs extra rents, tx_taken accs extra rents.
Proof.
  unfold load_transaction_accounts in Hload. destruct (_ && _) in Hload; [done|].
  destruct (get_requested_loaded_accounts_data_size_limit tx) as [limit| |]; cbn [rbind] in Hload; [|done..].
  pose proof (mr_nodup _ Hready) as Hnd. apply sm_has_duplicates_NoDup in Hnd. rewrite (po_keys _ _ _ Hpayer) in Hnd, Hload.
  apply list.NoDup_cons in Hnd as [Hk0 Hnd].
  cbn [load_keys] in Hload. destruct (load_one _ _ _ _ _ _ _ _) as [[[a0 f0] st1]| |] eqn:Ho; cbn [rbind fst snd] in Hload; [|done..].
  destruct (load_keys _ _ _ _ _ _ _ _) as [[[accs found] st]| |] eqn:Hk; cbn [rbind fst snd] in Hload; [|done..].
  destruct (load_one_spec env _ _ _ _ Hover _ _ _ _ _ _ Ho ltac:(done)) as (r0 & Hla & Hr0 & Hd0 & _ & Hv0 & Hp0).
  cbn [validated_fee_payer tx_rent rent_debits negb andb orb] in *.
  rewrite (po_non_loader _ _ _ Hpayer), (proj2 (key_eqb_false k0 _) payer_not_sysvar) in Hla, Hv0, Hp0. cbn [negb andb] in *.
  destruct (load_keys_spec env _ _ _ _ Hover _ _ _ _ _ _ Hk) as (Hkeys & Hv & Hdeb & rents & [Hlen Hall] & Hsum);
    [rewrite Hr0; apply as_u64_bound|done|].
  rewrite Hv in Hload. cbn [negb] in Hload.
  destruct (load_programs _ _ _ _ _ _ _) as [[pidx accs']| |] eqn:Hp; cbn [rbind fst snd] in Hload; [|done..].
  injection Hload as Hlt. destruct (load_programs_spec _ _ Hover _ _ _ _ _ _ _ Hp) as (Hpl & Hps & extra & -> & Hel & Hedb & Hprog).
  exists ((k0, a0) :: accs), extra, (r0 :: rents).
  assert (Hlas : all_loaded_as env (tx_message tx) 0 ((k0, a0) :: accs) (r0 :: rents) fee).
  { split; [cbn [length]; by rewrite Hlen|]. intros [|j] k a r Ha Hr; cbn in Ha, Hr; [by simplify_eq|].
    specialize (Hall j k a r Ha Hr). rewrite decide_False by done.
    replace (0 + N.of_nat (S j)) with (0 + 1 + N.of_nat j) by lia. by destruct (decide (j = 0%nat)). }
  split; rewrite <-?Hlt; cbn [lt_accounts lt_rent lt_rent_debits lt_program_indices].
  - done.
  - cbn. by rewrite Hkeys.
  - done.
  - rewrite Hsum, Hr0, as_u64_add, sumN_cons. f_equal; lia.
  - exists r0. split; [done|]. unfold get_account_rent_debit. rewrite Hdeb, Hd0 by (done || apply payer_not_sysvar).
    unfold insert_rent_debit. destruct (N.eqb_spec r0 0) as [->|]; cbn [negb]; [by rewrite lookup_empty|]. by rewrite lookup_insert_eq.
  - exact Hprog.
  - destruct (Hp0 eq_refl (po_writable _ _ _ Hpayer)) as (b0 & Hb & Hd & Hown & Hm). exists a0, b0. done.
  - split.
    + apply Hready.
    + exists (extra.*1). rewrite (po_keys _ _ _ Hpayer), fmap_app. cbn. by rewrite Hkeys.
    + apply Hready.
    + pose proof (mr_small _ Hready) as Hs. rewrite (po_keys _ _ _ Hpayer) in Hs. unfold len in *.
      rewrite length_app. cbn [length] in *. rewrite <-Hkeys, length_fmap in Hs. lia.
    + unfold small_instructions. apply list.Forall_forall. intros [ci l] Hin. cbn [fst snd].
      pose proof (elem_of_zip_l _ _ _ _ Hin) as Hci. pose proof (elem_of_zip_r _ _ _ _ Hin) as Hpi.
      pose proof (mr_accounts _ Hready) as Hma. rewrite list.Forall_forall in Hma. specialize (Hma ci Hci).
      rewrite list.Forall_forall in Hps. specialize (Hps l Hpi). lia.
    + apply list.Forall_app. split.
      * apply list.Forall_forall. intros [k a] [j Hj]%list_elem_of_lookup. cbn [snd].
        destruct (lookup_lt_is_Some_2 (r0 :: rents) j) as [r Hr]; [rewrite (proj1 Hlas); by eapply lookup_lt_Some|].
        etrans; [apply (la_bound _ _ _ _ _ _ _ (proj2 Hlas j k a r Hj Hr))|apply Hdb].
      * eapply list.Forall_impl; [exact Hedb|]. intros [k a] Hk'. cbn [fst snd] in *.
        specialize (Hdb k). unfold lam in Hdb. by rewrite Hk' in Hdb.
Qed.
End load_transaction.
