(* ===== verification/CommitRules.v ===== *)
(** * Theory of the commit

    A batch that was loaded, executed and committed leaves exactly as many lamports as
    there were, less the fees and the rent that the bank collected. *)

From S2P Require Import Prelude Sdk Rent Account Message MessageRules Nonce TransactionContext.
From S2P Require Import AccountRules InstructionRules LogCollector InvokeContext InvokeRules.
From S2P Require Import MessageProcessor MessageProcessorRules Effects RemoteLoader AccountsCache.
From S2P Require Import MigraterProgram Bank ExecuteRules SystemProgram BlockhashQueue StatusCache.
From S2P Require Import Admission AccountLocks EpochSchedule LoadAccounts Fees LoadRules Commit.

(** ** Balances of a database *)
Definition total (db : gmap Pubkey AccountSharedData) : N := map_fold (λ _ a s, lamports a + s) 0 db.

Lemma total_new k a db : db !! k = None → total (<[k := a]> db) = lamports a + total db.
Proof.
  intros Hk. unfold total. rewrite (map_fold_insert_L (λ _ a s, lamports a + s) 0 k a db); [done| |done].
  intros. lia.
Qed.
Lemma total_delete k db : total (delete k db) + lam db k = total db.
Proof.
  unfold lam. destruct (db !! k) as [a|] eqn:Hk; cbn.
  - rewrite <-(insert_delete_id db k a Hk) at 2. rewrite total_new by apply lookup_delete_eq. lia.
  - rewrite delete_id by done. lia.
Qed.
Lemma total_insert k a db : total (<[k := a]> db) + lam db k = total db + lamports a.
Proof.
  rewrite <-(total_delete k db), <-insert_delete_eq, total_new by apply lookup_delete_eq. lia.
Qed.
Lemma lam_delete_ne k k' db : k ≠ k' → lam (delete k db) k' = lam db k'.
Proof. intros Hne. unfold lam. by rewrite lookup_delete_ne. Qed.
Lemma sum_total ks db : NoDup ks → sumN (lam db <$> ks) ≤ total db.
Proof.
  revert db. induction ks as [|k ks IH]; intros db Hnd; [apply N.le_0_l|].
  apply list.NoDup_cons in Hnd as [Hk Hnd]. rewrite fmap_cons, sumN_cons, <-(total_delete k db).
  specialize (IH (delete k db) Hnd). assert (lam (delete k db) <$> ks = lam db <$> ks) as <-; [|lia].
  apply list_fmap_ext. intros i k' Hi. apply lam_delete_ne. intros ->. by apply list_elem_of_lookup_2 in Hi.
Qed.
Lemma lam_total k db : lam db k ≤ total db.
Proof. pose proof (total_delete k db). lia. Qed.

Lemma store_accounts_lookup l k : ∀ db, k ∉ l.*1 → store_accounts l db !! k = db !! k.
Proof.
  unfold store_accounts. induction l as [|[k' a] l IH]; intros db Hk; cbn [foldl fst snd]; [done|].
  rewrite IH by set_solver. apply lookup_insert_ne. set_solver.
Qed.
Lemma store_total l : ∀ db,
  NoDup l.*1 →
  total (store_accounts l db) + sumN (lam db <$> l.*1) = total db + sumN ((λ x, lamports x.2) <$> l).
Proof.
  unfold store_accounts. induction l as [|[k a] l IH]; intros db Hnd; [done|]. rewrite !fmap_cons in *.
  cbn [foldl fst snd] in *. apply list.NoDup_cons in Hnd as [Hk Hnd]. rewrite !sumN_cons.
  specialize (IH (<[k := a]> db) Hnd). pose proof (total_insert k a db).
  assert (lam (<[k := a]> db) <$> l.*1 = lam db <$> l.*1) as Heq; [|rewrite Heq in IH; lia].
  apply list_fmap_ext. intros i k' Hi. unfold lam. rewrite lookup_insert_ne; [done|].
  intros ->. by apply list_elem_of_lookup_2 in Hi.
Qed.
Lemma store_app l1 l2 db : store_accounts (l1 ++ l2) db = store_accounts l2 (store_accounts l1 db).
Proof. apply foldl_app. Qed.

(** ** Sums over positions *)
Definition sum_to (n : nat) (f : nat → N) : N := sumN (f <$> seq 0 n).
Lemma sum_to_ext n f g : (∀ j, (j < n)%nat → f j = g j) → sum_to n f = sum_to n g.
Proof.
  intros H. unfold sum_to. f_equal. apply list_fmap_ext. intros i x Hi. apply H.
  apply lookup_seq in Hi. lia.
Qed.
Lemma sum_to_add n f g : sum_to n (λ j, f j + g j) = sum_to n f + sum_to n g.
Proof.
  unfold sum_to. induction (seq 0 n) as [|j l IH]; [done|]. rewrite !fmap_cons, !sumN_cons, IH. lia.
Qed.
Lemma sum_to_at0 n (x : N) : (0 < n)%nat → sum_to n (λ j, if decide (j = 0%nat) then x else 0) = x.
Proof.
  intros Hn. destruct n as [|n]; [lia|]. unfold sum_to. cbn [seq]. rewrite fmap_cons, sumN_cons.
  assert ((λ j, if decide (j = 0%nat) then x else 0) <$> seq 1 n = replicate n 0) as ->.
  { apply list_eq. intros i. rewrite list_lookup_fmap. destruct (decide (i < n)%nat).
    - rewrite lookup_seq_lt by done. rewrite lookup_replicate_2 by done. cbn. by rewrite decide_False by lia.
    - rewrite lookup_seq_ge, lookup_ge_None_2 by (rewrite ?length_replicate; lia). done. }
  assert (sumN (replicate n 0) = 0) as ->; [|simpl; lia]. clear. induction n as [|n IH]; [done|].
  cbn [replicate]. rewrite sumN_cons. lia.
Qed.
Lemma sumN_positions {A} (f : A → N) (l : list A) :
  sumN (f <$> l) = sum_to (length l) (λ j, from_option f 0 (l !! j)).
Proof.
  induction l as [|x l IH]; [done|]. rewrite fmap_cons, sumN_cons, IH. unfold sum_to. cbn [length seq].
  rewrite fmap_cons, sumN_cons. cbn. f_equal. by rewrite <-fmap_S_seq, <-list_fmap_compose.
Qed.
Lemma sumN_filter {A} (P : A → Prop) `{∀ x, Decision (P x)} (f : A → N) l :
  sumN (f <$> filter P l) = sumN ((λ x, if decide (P x) then f x else 0) <$> l).
Proof.
  induction l as [|x l IH]; [done|]. rewrite filter_cons, fmap_cons, sumN_cons, <-IH.
  case_decide; [by rewrite fmap_cons, sumN_cons|lia].
Qed.

(** balances that move only between the positions in [P] *)
Lemma sum_moved n (P : nat → bool) loaded post r old fee :
  (0 < n)%nat → P 0%nat = true → sum_to n post = sum_to n loaded →
  (∀ j, (j < n)%nat → P j = false → post j = loaded j ∧ r j = 0) →
  (∀ j, (j < n)%nat → P j = true → loaded j + r j + (if decide (j = 0%nat) then fee else 0) = old j) →
  sum_to n (λ j, if P j then post j else 0) + sum_to n r + fee = sum_to n (λ j, if P j then old j else 0).
Proof.
  intros Hn H0 Hsum Hout Hin.
  assert (Hmove : sum_to n (λ j, if P j then post j else 0) = sum_to n (λ j, if P j then loaded j else 0)).
  { rewrite (sum_to_ext n post (λ j, (if P j then post j else 0) + (if P j then 0 else loaded j))) in Hsum.
    2:{ intros j Hj. destruct (P j) eqn:HP; [lia|]. destruct (Hout j Hj HP). lia. }
    rewrite (sum_to_ext n loaded (λ j, (if P j then loaded j else 0) + (if P j then 0 else loaded j))) in Hsum
      by (intros j Hj; destruct (P j); lia).
    rewrite !sum_to_add in Hsum. lia. }
  rewrite Hmove, <-(sum_to_at0 n fee) at 1 by done. rewrite <-!sum_to_add. apply sum_to_ext. intros j Hj.
  destruct (P j) eqn:HP; [by apply Hin|]. destruct (Hout j Hj HP) as [_ ->]. rewrite decide_False; [done|].
  intros ->. congruence.
Qed.

(** ** What a committed transaction stores *)
Definition stored_position (message : SanitizedMessage) (i : N) : bool :=
  sm_is_non_loader_key message i && sm_is_writable message i.

Lemma writable_NoDup tx : sm_has_duplicates (tx_message tx) = false → NoDup (writable (get_account_locks_unchecked tx)).
Proof.
  intros Hd%sm_has_duplicates_NoDup. pose proof (account_locks_perm tx) as Hp. cbv zeta in Hp.
  rewrite <-Hp in Hd. by apply list.NoDup_app in Hd as [? _].
Qed.

Section stored.
Context `{!Sha256, !Bincode Versions}.

(** a run without an error stores every account it may write, but the programs only called *)
Lemma collect_success {E} message u dn lps fpi l :
  collect_loop (E:=E) message (Ok u) None dn lps fpi l =
  Ok (snd <$> filter (λ x, stored_position message x.1 = true) l).
Proof.
  revert fpi. induction l as [|[i [k a]] l IH]; intros fpi; [done|]. cbn [collect_loop]. rewrite filter_cons.
  cbn [fst]. case_decide as HP; unfold stored_position in HP;
    destruct (sm_is_non_loader_key message i), (sm_is_writable message i); cbn [negb andb] in *; try done;
    by rewrite IH.
Qed.

Lemma prepare_nonce {E} k a e payer n dn lps a' m :
  prepare_if_nonce_account (E:=E) k a (Err e) payer (Some (n, true)) dn lps = Ok (a', m) →
  m = key_eqb k (nf_address n) ∧
  lamports a' = (if m then lamports (nf_account n)
                 else lamports (if payer then default a (nf_fee_payer_account n) else a)).
Proof.
  unfold prepare_if_nonce_account. destruct (key_eqb k (nf_address n)).
  - destruct (deserialize _) as [v|]; cbn [unwrap rbind]; [|done]. destruct (versions_state v); [by intros [= <- <-]|].
    unfold shared_serialize_data. destruct (serialize _) as [bs|]; cbn [unwrap rbind]; [|done].
    destruct (_ <? _); cbn [unwrap rbind]; [done|]. by intros [= <- <-].
  - destruct (nf_fee_payer_account n); cbn [is_ok negb andb default]; intros [= <- <-]; by destruct payer.
Qed.
(** after an error, behind the payer, at most the nonce account is stored *)
Lemma collect_nonce_rest {E} message e n dn lps l : ∀ stored,
  collect_loop (E:=E) message (Err e) (Some (n, true)) dn lps (Some 0) l = Ok stored →
  Forall (λ x, x.1 ≠ 0) l →
  stored.*1 `sublist_of` l.*2.*1 ∧
  ∀ k a, (k, a) ∈ stored → k = nf_address n ∧ lamports a = lamports (nf_account n) ∧
    ∃ i b, (i, (k, b)) ∈ l ∧ sm_is_writable message i = true.
Proof.
  induction l as [|[i [k b]] l IH]; intros stored Hc Hl.
  { injection Hc as <-. split; [done|set_solver]. }
  apply list.Forall_cons in Hl as [Hi Hl]. cbn [collect_loop fst] in Hc, Hi. rewrite !fmap_cons. cbn [fst snd].
  assert (Hskip : ∀ stored, collect_loop (E:=E) message (Err e) (Some (n, true)) dn lps (Some 0) l = Ok stored →
    stored.*1 `sublist_of` k :: l.*2.*1 ∧ ∀ k' a, (k', a) ∈ stored → k' = nf_address n ∧
      lamports a = lamports (nf_account n) ∧ ∃ i' b', (i', (k', b')) ∈ (i, (k, b)) :: l ∧ sm_is_writable message i' = true).
  { intros st Hst. destruct (IH _ Hst Hl) as [Hs Hin]. split; [by constructor|]. intros k' a Hka.
    destruct (Hin _ _ Hka) as (-> & Hlam & i' & b' & Hib & Hw). split_and!; [done..|]. exists i', b'. set_solver. }
  destruct (sm_is_non_loader_key message i); cbn [negb] in Hc; [|by apply Hskip].
  rewrite bool_decide_eq_false_2 in Hc by congruence.
  destruct (sm_is_writable message i) eqn:Hw; cbn [rbind] in Hc.
  2:{ destruct (collect_loop _ _ _ _ _ _ _) as [rest| |] eqn:Hr; [|done..]. injection Hc as <-. by apply Hskip. }
  destruct (prepare_if_nonce_account _ _ _ _ _ _ _) as [[a' m]| |] eqn:Hp; cbn [rbind fst snd is_ok orb] in Hc; [|done..].
  destruct (prepare_nonce _ _ _ _ _ _ _ _ _ Hp) as [Hm Hlam].
  destruct (collect_loop _ _ _ _ _ _ _) as [rest| |] eqn:Hr; [|by destruct m..].
  rewrite orb_false_r in Hc. destruct m; cbn [rbind app] in Hc; injection Hc as <-; [|by apply Hskip].
  destruct (Hskip _ eq_refl) as [_ Hin]. destruct (IH _ eq_refl Hl) as [Hs _]. split; [by constructor|].
  symmetry in Hm. apply key_eqb_true in Hm as ->. intros k' a [[= -> ->]|Hka]%elem_of_cons; [|by apply Hin].
  split_and!; [done..|]. exists i, b. set_solver.
Qed.
End stored.

(** ** Fees do not depend on where they are computed *)
Lemma rmapM_any {E E' A B} (f : A → result E B) (g : A → result E' B) l ys :
  (∀ x y, f x = Ok y → g x = Ok y) → rmapM f l = Ok ys → rmapM g l = Ok ys.
Proof.
  intros Hfg. revert ys. induction l as [|x l IH]; intros ys; cbn [rmapM]; [by intros [= <-]|].
  destruct (f x) as [y| |] eqn:Hx; cbn [rbind]; [|done..]. rewrite (Hfg _ _ Hx). cbn [rbind].
  destruct (rmapM f l) as [ys'| |]; cbn [rbind]; [|done..]. rewrite (IH _ eq_refl).
  by intros [= <-].
Qed.
Lemma program_instructions_any {E E'} message l :
  program_instructions (E:=E) message = Ok l → program_instructions (E:=E') message = Ok l.
Proof. apply rmapM_any. intros x y. destruct (account_keys_get _ _); [|done]. by intros [= <-]. Qed.
Lemma get_fee_any {E E'} `{!BorshComputeBudget} fs message lps b fee :
  get_fee_for_message (E:=E) fs message lps b = Ok fee → get_fee_for_message (E:=E') fs message lps b = Ok fee.
Proof.
  unfold get_fee_for_message, message_limits, calculate_fee, get_signature_details.
  destruct (program_instructions message) as [l| |] eqn:Hl; cbn [rbind]; [|done..].
  rewrite (program_instructions_any _ _ Hl). cbn [rbind].
  by destruct (process_compute_budget_instructions l); cbn [rbind]; intros [= <-].
Qed.

(** ** One transaction *)
Section one.
Context `{PubkeyDisplay, Sha256, KeypairBase58, NftValueRegex,
  !Bincode UpgradeableLoaderState, !Bincode ProgramInstruction, !Bincode Versions, !BorshComputeBudget}.
Context (env : LoadEnv) (xenv : ExecuteEnv) `{!LawfulPrograms (xe_programs xenv)} (fs : FeeStructure)
  (include : bool) (hash_queue : BlockhashQueue) (durable_nonce : Hash) (lamports_per_signature : N).
Context (Hover : account_overrides env = ∅) (Htotal : total (accounts_db env) ≤ u64_max).
Abbreviation db := (accounts_db env).

Lemma load_accounts_inv tx cr lt nonce :
  load_accounts_one env fs include hash_queue tx cr = Ok (lt, nonce) →
  is_ok cr.1 = true ∧
  ∃ lps fee, get_fee_for_message (E:=TransactionError.t) fs (tx_message tx) lps include = Ok fee ∧
    load_transaction_accounts env tx fee = Ok lt ∧
    match cr.2, nonce with
    | None, None => get_lamports_per_signature hash_queue (msg_recent_blockhash (sm_base (tx_message tx))) = Some lps
    | Some p, Some n => lamports_per_signature_of p.2 = Some lps ∧
        nonce_from_partial p (tx_message tx) (lt_accounts lt) (lt_rent_debits lt) = Ok n
    | _, _ => False
    end.
Proof.
  unfold load_accounts_one. destruct cr as [[[]| |] p]; cbn [rbind]; [|done..]. intros Hl. split; [done|].
  destruct (match p with Some _ => _ | None => _ end) as [lps|] eqn:Hlps; cbn [ok_or rbind] in Hl; [|done].
  destruct (get_fee_for_message _ _ _ _) as [fee| |] eqn:Hfee; cbn [rbind] in Hl; [|done..].
  destruct (load_transaction_accounts _ _ _) as [lt'| |] eqn:Hlt; cbn [rbind] in Hl; [|done..].
  exists lps, fee. split; [done|]. destruct p as [p|]; [|by simplify_eq].
  destruct (nonce_from_partial _ _ _ _) as [n| |] eqn:Hn; cbn [rbind] in Hl; [|done..]. by simplify_eq.
Qed.

Context (tx : SanitizedTransaction) (k0 : Pubkey) (keys : list Pubkey) (fee : N) (lt : LoadedTransaction).
Context (Hready : message_ready (tx_message tx)) (Hpayer : payer_ok (tx_message tx) k0 keys).
Context (Hload : load_transaction_accounts env tx fee = Ok lt).
Context (accs extra : list (Pubkey * AccountSharedData)) (rents : list N)
  (Htaken : tx_taken env tx fee lt k0 keys accs extra rents).

Lemma message_positions : rangeN (account_keys_len (sm_account_keys (tx_message tx))) = N.of_nat <$> seq 0 (length accs).
Proof.
  pose proof (mr_small _ Hready). rewrite account_keys_len_iter by (unfold u16_max, u64_max in *; lia).
  unfold rangeN, len. rewrite Nat2N.id, (po_keys _ _ _ Hpayer), <-(tt_keys _ _ _ _ _ _ _ _ _ Htaken), length_fmap. done.
Qed.

(** the payer's account and the nonce's, as they are stored after an error *)
Lemma nonce_full p n :
  db !! p.1 = Some p.2 → nonce_from_partial p (tx_message tx) (lt_accounts lt) (lt_rent_debits lt) = Ok n →
  nf_address n = p.1 ∧ lamports_per_signature_of (nf_account n) = lamports_per_signature_of p.2 ∧
  if decide (k0 = p.1) then lamports (nf_account n) + fee = lam db k0
  else lamports (nf_account n) = lam db p.1 ∧
       ∃ f, nf_fee_payer_account n = Some f ∧ lamports f + fee = lam db k0.
Proof.
  intros Hp Hn. destruct (tt_payer _ _ _ _ _ _ _ _ _ Htaken) as (a & a0 & Ha & Ha0 & Hd & Ho & Hmin).
  destruct (tt_debit _ _ _ _ _ _ _ _ _ Htaken) as (r0 & Hr0 & Hdebit).
  pose proof (proj2 (tt_loaded _ _ _ _ _ _ _ _ _ Htaken) 0%nat _ _ _ Ha Hr0) as Hla. rewrite decide_True in Hla by done.
  pose proof (la_lamports _ _ _ _ _ _ _ Hla (po_writable _ _ _ Hpayer) (payer_not_sysvar tx k0 keys Hready Hpayer)) as Hlam.
  unfold nonce_from_partial in Hn. replace (find_fee_payer _ _) with (Some (k0, a)) in Hn.
  2:{ unfold find_fee_payer. rewrite message_positions. destruct accs as [|x l]; [done|]. injection Ha as ->.
      cbn [length seq fmap list_fmap omap list_omap]. change (N.of_nat 0) with 0. rewrite (po_non_loader _ _ _ Hpayer).
      rewrite (tt_accounts _ _ _ _ _ _ _ _ _ Htaken). done. }
  rewrite Hdebit in Hn. pose proof (lam_total k0 db) as Hb.
  unfold saturating_add in Hn. rewrite N.min_r in Hn by lia.
  destruct (key_eqb k0 p.1) eqn:Hk; injection Hn as <-; cbn [nf_address nf_account nf_fee_payer_account].
  - apply key_eqb_true in Hk. rewrite decide_True by done. rewrite <-Hk in Hp. rewrite Ha0 in Hp. injection Hp as Hp.
    split_and!; [done| |cbn [lamports set_lamports]; lia]. unfold lamports_per_signature_of. cbn [data set_lamports]. by rewrite Hd, Hp.
  - apply key_eqb_false in Hk. rewrite decide_False by done. split_and!; [done..| |].
    + unfold lam. by rewrite Hp.
    + eexists. split; [done|]. cbn [lamports set_lamports]. lia.
Qed.

(** the accounts after execution, position by position *)
Section executed.
Context (budget : ComputeBudget) (l l' : RemoteAccountLoader) (d : TransactionExecutionDetails)
  (post : list (Pubkey * AccountSharedData)).
Context (Hexec : execute_loaded_transaction (xe_programs xenv) (xe_show xenv) (xe_base xenv) (xe_bank xenv) tx
  (lt_accounts lt) (lt_program_indices lt) budget (xe_log_recording xenv) (xe_return_data_recording xenv)
  (xe_log_limit xenv) l = Ok (d, post, l')).
Abbreviation message := (tx_message tx).
Abbreviation positions := (zip (rangeN (account_keys_len (sm_account_keys message))) post).

Lemma executed_position j k a :
  accs !! j = Some (k, a) →
  ∃ a', positions !! j = Some (N.of_nat j, (k, a')) ∧ post !! j = Some (k, a') ∧
    (sm_is_writable message (N.of_nat j) = false → lamports a' = lamports a) ∧
    (k ≠ sysvar_instructions_id → executable a = true → a' = a).
Proof.
  intros Hj. assert (Hl : lt_accounts lt !! j = Some (k, a)).
  { rewrite (tt_accounts _ _ _ _ _ _ _ _ _ Htaken). by apply lookup_app_l_Some. }
  destruct (execute_keeps _ _ _ _ _ _ _ _ _ _ _ _ (tt_ready _ _ _ _ _ _ _ _ _ Htaken) _ _ _ _ _ _ Hexec Hl)
    as (a' & Hp & _ & Hro & Hkeep).
  exists a'. split_and!; [|done|done|auto]. rewrite message_positions. apply lookup_zip_with_Some.
  exists (N.of_nat j), (k, a'). split_and!; [done| |done].
  rewrite list_lookup_fmap, lookup_seq_lt by (by eapply lookup_lt_Some). done.
Qed.
Lemma positions_keys : positions.*2.*1 = k0 :: keys ∧ length positions = length accs.
Proof.
  assert (Hlen : length positions = length accs).
  { apply Nat.le_antisymm.
    - rewrite length_zip_with, message_positions, length_fmap, length_seq. lia.
    - destruct (length accs) as [|n] eqn:Hn; [lia|]. destruct (lookup_lt_is_Some_2 accs n) as [[k a] Hj]; [lia|].
      destruct (executed_position n k a Hj) as (a' & Hp & _). apply lookup_lt_Some in Hp. lia. }
  split; [|done]. rewrite <-(tt_keys _ _ _ _ _ _ _ _ _ Htaken). apply list_eq. intros j. rewrite !list_lookup_fmap.
  destruct (accs !! j) as [[k a]|] eqn:Hj.
  - destruct (executed_position j k a Hj) as (a' & -> & _). done.
  - rewrite lookup_ge_None_2; [done|]. rewrite Hlen. by apply lookup_ge_None.
Qed.
Lemma writable_position j k a :
  accs !! j = Some (k, a) → sm_is_writable message (N.of_nat j) = true → is_builtin_key_or_sysvar k = false.
Proof.
  intros Hj Hw. apply (writable_not_builtin _ _ _ (mr_wf _ Hready) Hw). rewrite account_keys_get_iter, (po_keys _ _ _ Hpayer).
  rewrite <-(tt_keys _ _ _ _ _ _ _ _ _ Htaken). unfold getN. rewrite Nat2N.id, list_lookup_fmap, Hj. done.
Qed.
(** where nothing is stored, nothing moved and no rent was taken *)
Lemma unstored_position j k a a' r :
  accs !! j = Some (k, a) → post !! j = Some (k, a') → rents !! j = Some r →
  stored_position message (N.of_nat j) = false → lamports a' = lamports a ∧ r = 0.
Proof.
  intros Hj Hp Hr Hs. pose proof (proj2 (tt_loaded _ _ _ _ _ _ _ _ _ Htaken) j _ _ _ Hj Hr) as Hla.
  destruct (executed_position j k a Hj) as (a2 & _ & Hp2 & Hro & Hexe). rewrite Hp in Hp2. injection Hp2 as <-.
  unfold stored_position in Hs. destruct (sm_is_writable message (N.of_nat j)) eqn:Hw.
  2:{ split; [auto|]. by apply (la_readonly _ _ _ _ _ _ _ Hla). }
  rewrite andb_true_r in Hs. unfold sm_is_non_loader_key in Hs. apply orb_false_iff in Hs as [Hi%negb_false_iff _].
  pose proof (writable_position j k a Hj Hw) as Hk.
  assert (Hx : executable a = true).
  { unfold sm_is_invoked, called_as_program in Hi. destruct (_ <=? _); [|done].
    apply existsb_exists in Hi as (ci & Hci%list_elem_of_In & Heq%N.eqb_eq).
    destruct (tt_programs _ _ _ _ _ _ _ _ _ Htaken ci k a Hci) as [->|]; [|by rewrite native_loader_builtin in Hk|done].
    unfold getN. by rewrite Heq, Nat2N.id. }
  rewrite Hexe; [|intros ->; by rewrite instructions_builtin in Hk|done]. split; [done|].
  by apply (la_executable _ _ _ _ _ _ _ Hla).
Qed.

(** what may be stored: distinct keys the message may write *)
Definition stored_within (stored : list (Pubkey * AccountSharedData)) : Prop :=
  NoDup stored.*1 ∧ ∀ k, k ∈ stored.*1 → k ∈ writable (get_account_locks_unchecked tx).
Lemma stored_within_intro stored :
  stored.*1 `sublist_of` k0 :: keys →
  (∀ k a, (k, a) ∈ stored → ∃ i b, (i, (k, b)) ∈ positions ∧ sm_is_writable message i = true) →
  stored_within stored.
Proof.
  intros Hs Hin. split.
  - eapply sublist_NoDup; [|exact Hs]. rewrite <-(po_keys _ _ _ Hpayer). apply sm_has_duplicates_NoDup, Hready.
  - intros k [[k' a] [-> Hka]]%list_elem_of_fmap. destruct (Hin _ _ Hka) as (i & b & [j Hj]%list_elem_of_lookup & Hw).
    apply elem_of_writable. exists j. cbn [fst]. rewrite (po_keys _ _ _ Hpayer), <-(proj1 positions_keys), !list_lookup_fmap, Hj.
    split; [done|]. rewrite message_positions in Hj. apply lookup_zip_with_Some in Hj as (i' & x & Heq & Hi & _).
    injection Heq as <- _. rewrite list_lookup_fmap in Hi. destruct (seq 0 _ !! j) as [j'|] eqn:Hq; [|done].
    apply lookup_seq in Hq as [-> _]. cbn in Hi. congruence.
Qed.

Lemma balances_kept :
  status d = Ok tt →
  sum_to (length accs) (λ j, from_option (λ x, lamports x.2) 0 (post !! j)) =
  sum_to (length accs) (λ j, from_option (λ x, lamports x.2) 0 (accs !! j)).
Proof.
  intros Hst. destruct (execute_sum _ _ _ _ _ _ _ _ _ _ _ _ (tt_ready _ _ _ _ _ _ _ _ _ Htaken) _ _ _ Hexec Hst) as [Hpl Hsum].
  unfold message_lamports in Hsum. rewrite (po_keys _ _ _ Hpayer), <-(tt_keys _ _ _ _ _ _ _ _ _ Htaken), length_fmap in Hsum.
  rewrite (tt_accounts _ _ _ _ _ _ _ _ _ Htaken) in Hsum, Hpl. rewrite fmap_app, take_app_length' in Hsum by (by rewrite length_fmap).
  rewrite <-sumN_positions, <-Hsum, <-fmap_take, sumN_positions, length_take, Hpl, length_app, Nat.min_l by lia.
  apply sum_to_ext. intros j Hj. by rewrite lookup_take_lt.
Qed.
Lemma success_stored :
  status d = Ok tt →
  let stored := snd <$> filter (λ x, stored_position message x.1 = true) positions in
  stored_within stored ∧
  sumN ((λ x, lamports x.2) <$> stored) + sumN rents + fee = sumN (lam db <$> stored.*1).
Proof.
  intros Hst. cbv zeta. destruct positions_keys as [Hk Hlen]. split.
  - apply stored_within_intro.
    + rewrite <-Hk. do 2 apply fmap_sublist. apply sublist_filter.
    + intros k a [[i x] [Heq [HP Hi]%list_elem_of_filter]]%list_elem_of_fmap. cbn [fst snd] in *. subst x.
      exists i, a. split; [done|].
      by apply andb_true_iff in HP as [_ ?].
  - rewrite <-!list_fmap_compose, !sumN_filter, !sumN_positions, Hlen.
    rewrite <-(list_fmap_id rents), sumN_positions, (proj1 (tt_loaded _ _ _ _ _ _ _ _ _ Htaken)).
    destruct (tt_payer _ _ _ _ _ _ _ _ _ Htaken) as (a0 & _ & Ha0 & _).
    assert (Hat : ∀ j, (j < length accs)%nat → ∃ k a a' r, accs !! j = Some (k, a) ∧ rents !! j = Some r ∧
      positions !! j = Some (N.of_nat j, (k, a')) ∧ post !! j = Some (k, a')).
    { intros j Hj. destruct (lookup_lt_is_Some_2 accs j Hj) as [[k a] Ha].
      rewrite <-(proj1 (tt_loaded _ _ _ _ _ _ _ _ _ Htaken)) in Hj. destruct (lookup_lt_is_Some_2 rents j Hj) as [r Hr].
      destruct (executed_position j k a Ha) as (a' & Hp & Hq & _). by exists k, a, a', r. }
    rewrite (sum_to_ext _ _ (λ j, if stored_position message (N.of_nat j)
      then from_option (λ x, lamports x.2) 0 (post !! j) else 0)).
    2:{ intros j (k & a & a' & r & _ & _ & -> & ->)%Hat. cbn. case_decide as HP; [by rewrite HP|].
        by destruct (stored_position _ _). }
    rewrite (sum_to_ext _ (λ j, from_option _ 0 (positions !! j)) (λ j, if stored_position message (N.of_nat j)
      then from_option (λ x, lam db x.1) 0 (accs !! j) else 0)).
    2:{ intros j (k & a & a' & r & -> & _ & -> & _)%Hat. cbn. case_decide as HP; [by rewrite HP|].
        by destruct (stored_position _ _). }
    apply sum_moved with (loaded := λ j, from_option (λ x, lamports x.2) 0 (accs !! j)).
    + by eapply lookup_lt_Some.
    + unfold stored_position. change (N.of_nat 0) with 0. by rewrite (po_non_loader _ _ _ Hpayer), (po_writable _ _ _ Hpayer).
    + by apply balances_kept.
    + intros j (k & a & a' & r & Ha & Hr & _ & Hp)%Hat HP. rewrite Ha, Hr, Hp. cbn.
      by eapply unstored_position.
    + intros j (k & a & a' & r & Ha & Hr & _ & Hp)%Hat HP. rewrite Ha, Hr. cbn.
      apply (la_lamports _ _ _ _ _ _ _ (proj2 (tt_loaded _ _ _ _ _ _ _ _ _ Htaken) j _ _ _ Ha Hr)).
      * by apply andb_true_iff in HP as [_ ?].
      * intros ->. apply andb_true_iff in HP as [_ Hw]. pose proof (writable_position j _ a Ha Hw) as Hb.
        by rewrite instructions_builtin in Hb.
Qed.

(** after an error of a transaction with a nonce, the payer less the fee and the nonce *)
Lemma positions_first : ∃ a' rest, positions = (0, (k0, a')) :: rest ∧ Forall (λ x, x.1 ≠ 0) rest ∧ rest.*2.*1 = keys.
Proof.
  destruct positions_keys as [Hk Hlen]. destruct (tt_payer _ _ _ _ _ _ _ _ _ Htaken) as (a0 & _ & Ha0 & _).
  destruct (executed_position 0 _ _ Ha0) as (a' & Hp & _). destruct positions as [|x rest] eqn:Hpos; [done|].
  injection Hp as ->. exists a', rest. injection Hk as Hk. split_and!; [done| |done].
  apply list.Forall_forall. intros y [j Hj]%list_elem_of_lookup.
  assert (Hy : positions !! S j = Some y) by (by rewrite Hpos). rewrite message_positions in Hy.
  apply lookup_zip_with_Some in Hy as (i & z & -> & Hi & _). rewrite list_lookup_fmap in Hi.
  destruct (seq 0 _ !! S j) as [j'|] eqn:Hq; [|done]. apply lookup_seq in Hq as [-> _]. injection Hi as <-. cbn [fst]. lia.
Qed.
Lemma nonce_stored {E} p n e stored :
  db !! p.1 = Some p.2 → nonce_from_partial p message (lt_accounts lt) (lt_rent_debits lt) = Ok n →
  collect_loop (E:=E) message (Err e) (Some (n, true)) durable_nonce lamports_per_signature None positions = Ok stored →
  stored_within stored ∧ sumN ((λ x, lamports x.2) <$> stored) + fee = sumN (lam db <$> stored.*1).
Proof.
  intros Hp Hn Hc. destruct (nonce_full p n Hp Hn) as (Haddr & _ & Hbal).
  destruct positions_first as (a' & rest & Hpos & Hrest & Hkeys). pose proof stored_within_intro as Hwithin.
  rewrite Hpos in Hc, Hwithin. cbn [collect_loop] in Hc. rewrite (po_non_loader _ _ _ Hpayer), (po_writable _ _ _ Hpayer) in Hc.
  cbn [negb] in Hc. rewrite bool_decide_eq_true_2 in Hc by done.
  destruct (prepare_if_nonce_account _ _ _ _ _ _ _) as [[a1 m]| |] eqn:Hprep; cbn [rbind fst snd] in Hc; [|done..].
  rewrite orb_true_r in Hc. destruct (collect_loop _ _ _ _ _ _ _) as [tail| |] eqn:Ht; cbn [rbind app] in Hc; [|done..].
  injection Hc as <-. destruct (prepare_nonce _ _ _ _ _ _ _ _ _ Hprep) as [Hm Ha1].
  destruct (collect_nonce_rest _ _ _ _ _ _ _ Ht Hrest) as [Hsub Hin]. rewrite Hkeys in Hsub. split.
  - apply Hwithin; [by constructor|]. intros k a [[= -> ->]|Hka]%elem_of_cons.
    + exists 0, a'. split; [by left|apply Hpayer].
    + destruct (Hin k a Hka) as (_ & _ & i & b & Hib & Hw). exists i, b. split; [by right|done].
  - rewrite !fmap_cons, !sumN_cons. cbn [fst snd].
    assert (sumN ((λ x, lamports x.2) <$> tail) = sumN (lam db <$> tail.*1)) as ->.
    { rewrite <-list_fmap_compose. f_equal. apply list_fmap_ext. intros j [k a] Hj. cbn.
      destruct (Hin k a (list_elem_of_lookup_2 _ _ _ Hj)) as (-> & -> & _). case_decide as Hd.
      - exfalso. pose proof (mr_nodup _ Hready) as Hnd. apply sm_has_duplicates_NoDup in Hnd.
        rewrite (po_keys _ _ _ Hpayer) in Hnd. apply list.NoDup_cons in Hnd as [Hnd _]. apply Hnd.
        eapply elem_of_sublist; [|exact Hsub]. rewrite Hd, <-Haddr.
        apply (list_elem_of_fmap_2 fst tail (nf_address n, a)). by eapply list_elem_of_lookup_2.
      - destruct Hbal as [-> _]. by rewrite Haddr. }
    assert (lamports a1 + fee = lam db k0) as <-; [|lia]. rewrite Ha1, Hm, Haddr. case_decide as Hd.
    + by rewrite (proj2 (key_eqb_true k0 p.1) Hd).
    + rewrite (proj2 (key_eqb_false k0 p.1) Hd). destruct Hbal as (_ & f & -> & Hf). done.
Qed.
End executed.
End one.

(** ** How a transaction is settled *)

(** the keys it may change, what it stores, the fee, what is withdrawn for it, the rent *)
Record Settlement := mkSettlement {
  st_keys : list Pubkey; st_stored : list (Pubkey * AccountSharedData);
  st_fee : N; st_withdrawn : N; st_rent : N }.
Definition tx_collected_rent (x : TransactionExecutionResult * TransactionLoadResult) : N :=
  match x with
  | (r, Ok (loaded, _)) => if was_executed_successfully r then lt_rent loaded else 0
  | _ => 0
  end.
(** a transaction that can be loaded *)
Definition loadable (tx : SanitizedTransaction) : Prop :=
  message_ready (tx_message tx) ∧ ∃ k0 keys, payer_ok (tx_message tx) k0 keys.

Section settle.
Context `{PubkeyDisplay, Sha256, KeypairBase58, NftValueRegex,
  !Bincode UpgradeableLoaderState, !Bincode ProgramInstruction, !Bincode Versions, !BorshComputeBudget}.
Context {E : Type} (env : LoadEnv) (xenv : ExecuteEnv) `{!LawfulPrograms (xe_programs xenv)} (fs : FeeStructure)
  (include : bool) (hash_queue : BlockhashQueue) (durable_nonce : Hash) (lamports_per_signature : N).
Context (Hover : account_overrides env = ∅) (Htotal : total (accounts_db env) ≤ u64_max).
Abbreviation db := (accounts_db env).
Abbreviation rent := (rc_rent (le_rent_collector env)).

Record settles (tx : SanitizedTransaction) (x : TransactionExecutionResult * TransactionLoadResult)
    (s : Settlement) : Prop := {
  se_nodup : NoDup (st_stored s).*1;
  se_within : ∀ k, k ∈ (st_stored s).*1 → k ∈ st_keys s;
  se_sum : sumN ((λ x, lamports x.2) <$> st_stored s) + st_rent s + st_fee s =
           sumN (lam db <$> (st_stored s).*1) + st_withdrawn s;
  se_rent : tx_collected_rent x = as_u64 (st_rent s);
  se_fee : ∀ db', (st_stored s = [] → ∀ k, k ∈ st_keys s → db' !! k = db !! k) →
    ∃ res db'', collect_fee_one (E:=E) rent fs include hash_queue tx x.1 db' = Ok (res, st_fee s, db'') ∧
      total db'' + st_withdrawn s = total db' ∧ ∀ k, k ∉ st_keys s → db'' !! k = db' !! k }.

Lemma settles_not_executed tx e load keys :
  settles tx (NotExecuted e, load) (mkSettlement keys [] 0 0 0).
Proof.
  split; cbn; [constructor|set_solver|done| |].
  - by destruct load as [[]| |].
  - intros db' _. exists (Err e), db'. split_and!; [done|lia|done].
Qed.
Lemma withdraw_fee k a fee db' :
  db' !! k = Some a → lamports a ≤ u64_max →
  fee + (match get_system_account_kind a with Some NonceKind => minimum_balance rent NONCE_STATE_SIZE | _ => 0 end)
    ≤ lamports a →
  ∃ db'', withdraw rent k fee db' = Ok db'' ∧ total db'' + fee = total db' ∧ ∀ k', k' ≠ k → db'' !! k' = db' !! k'.
Proof.
  intros Hk Hb Hmin. unfold withdraw. rewrite Hk.
  set (min := match get_system_account_kind a with Some NonceKind => _ | _ => 0 end) in *. unfold checked_add.
  rewrite (proj2 (N.leb_le (fee + min) u64_max)) by lia. rewrite (proj2 (N.leb_le (fee + min) (lamports a))) by lia.
  unfold checked_sub_lamports, checked_sub. rewrite (proj2 (N.leb_le fee (lamports a))) by lia. cbn.
  eexists. split; [done|]. split; [|intros; by apply lookup_insert_ne].
  pose proof (total_insert k (set_lamports (lamports a - fee) a) db') as Ht. unfold lam in Ht. rewrite Hk in Ht.
  cbn in Ht. lia.
Qed.

Section executed_one.
Context (tx : SanitizedTransaction) (k0 : Pubkey) (keys : list Pubkey) (lps fee : N) (lt : LoadedTransaction)
  (partial : option (Pubkey * AccountSharedData)) (nonce : option NonceFull).
Context (Hready : message_ready (tx_message tx)) (Hpayer : payer_ok (tx_message tx) k0 keys)
  (Hfee : get_fee_for_message (E:=TransactionError.t) fs (tx_message tx) lps include = Ok fee)
  (Hn : match partial, nonce with
    | None, None => get_lamports_per_signature hash_queue (msg_recent_blockhash (sm_base (tx_message tx))) = Some lps
    | Some p, Some n => lamports_per_signature_of p.2 = Some lps ∧
        nonce_from_partial p (tx_message tx) (lt_accounts lt) (lt_rent_debits lt) = Ok n
    | _, _ => False
    end)
  (Hnonce : ∀ p, partial = Some p → db !! p.1 = Some p.2).
Context (accs extra : list (Pubkey * AccountSharedData)) (rents : list N)
  (Htaken : tx_taken env tx fee lt k0 keys accs extra rents).

Lemma fee_at_commit d db' :
  collect_fee_one (E:=E) rent fs include hash_queue tx (Executed d (durable_nonce_fee_of <$> nonce)) db' =
  if negb (is_ok (status d)) && negb (bool_decide (is_Some nonce)) then
    match withdraw rent k0 fee db' with
    | Ok db' => Ok (Ok tt, fee, db') | Err e => Ok (Err e, 0, db') | Panic => Panic
    end
  else Ok (Ok tt, fee, db').
Proof.
  unfold collect_fee_one. destruct partial as [p|], nonce as [n|]; cbn [fmap option_fmap option_map]; [|done..|].
  - destruct Hn as [Hlps Hf]. destruct (nonce_full env Htotal tx k0 keys fee lt Hready Hpayer _ _ _ Htaken p n
      (Hnonce p eq_refl) Hf) as (_ & Hl & _). unfold durable_nonce_fee_of. rewrite Hl, Hlps.
    cbn [durable_lamports_per_signature]. rewrite (get_fee_any _ _ _ _ _ Hfee). cbn [rbind].
    by rewrite bool_decide_eq_true_2, andb_false_r by done.
  - rewrite Hn, (get_fee_any _ _ _ _ _ Hfee). cbn [rbind].
    rewrite bool_decide_eq_false_2 by (by intros [? ?]). destruct (_ && _); [|done].
    unfold fee_payer. rewrite account_keys_get_iter, (po_keys _ _ _ Hpayer).
    change (getN (k0 :: keys) 0) with (Some k0). cbn [unwrap rbind]. by destruct (withdraw _ _ _ _).
Qed.

Lemma settle_executed budget l d post l' stored :
  execute_loaded_transaction (xe_programs xenv) (xe_show xenv) (xe_base xenv) (xe_bank xenv) tx
    (lt_accounts lt) (lt_program_indices lt) budget (xe_log_recording xenv) (xe_return_data_recording xenv)
    (xe_log_limit xenv) l = Ok (d, post, l') →
  let x := (Executed d (durable_nonce_fee_of <$> nonce),
            Ok (mkLoadedTransaction post (lt_program_indices lt) (lt_rent lt) (lt_rent_debits lt), nonce)) in
  collect_one (E:=E) durable_nonce lamports_per_signature tx x = Ok stored →
  ∃ s, st_stored s = stored ∧ settles tx x s ∧ st_keys s = writable (get_account_locks_unchecked tx).
Proof.
  intros Hexec x Hc. unfold x, collect_one in Hc. cbn [lt_accounts] in Hc. pose proof (fee_at_commit d) as Hfees.
  destruct (status d) as [[]|e|] eqn:Hst; [| |done].
  - rewrite collect_success in Hc. injection Hc as <-.
    destruct (success_stored env xenv Htotal tx k0 keys fee lt Hready Hpayer accs extra rents Htaken _ _ _ _ _ Hexec Hst)
      as [[Hnd Hin] Hsum].
    exists (mkSettlement (writable (get_account_locks_unchecked tx))
      (snd <$> filter (λ x, stored_position (tx_message tx) x.1 = true) (zip (rangeN (account_keys_len (sm_account_keys (tx_message tx)))) post))
      fee 0 (sumN rents)).
    split_and!; [done| |done]. split; cbn [st_keys st_stored st_fee st_withdrawn st_rent]; [done|done|lia| |].
    + unfold x. cbn [tx_collected_rent was_executed_successfully lt_rent]. rewrite Hst. apply Htaken.
    + intros db' _. cbn [fst x]. rewrite Hfees. exists (Ok tt), db'. split_and!; [done|lia|done].
  - destruct partial as [p|], nonce as [n|]; [|done..|].
    + destruct Hn as [_ Hf].
      destruct (nonce_stored env xenv _ _ Htotal tx k0 keys fee lt Hready Hpayer accs extra rents Htaken _ _ _ _ _ Hexec
        p n e stored (Hnonce p eq_refl) Hf Hc) as [[Hnd Hin] Hsum].
      exists (mkSettlement (writable (get_account_locks_unchecked tx)) stored fee 0 0).
      split_and!; [done| |done]. split; cbn [st_keys st_stored st_fee st_withdrawn st_rent]; [done|done|lia| |].
      * unfold x. cbn [tx_collected_rent was_executed_successfully lt_rent]. by rewrite Hst.
      * intros db' _. cbn [fst x]. rewrite Hfees. exists (Ok tt), db'. split_and!; [done|lia|done].
    + injection Hc as <-. exists (mkSettlement (writable (get_account_locks_unchecked tx)) [] fee fee 0).
      split_and!; [done| |done]. split; cbn [st_keys st_stored st_fee st_withdrawn st_rent]; [constructor|set_solver|done| |].
      * unfold x. cbn [tx_collected_rent was_executed_successfully lt_rent]. by rewrite Hst.
      * intros db' Hdb'. cbn [fst x]. rewrite Hfees. cbn [is_ok negb andb].
        destruct (tt_payer _ _ _ _ _ _ _ _ _ Htaken) as (_ & a0 & _ & Ha0 & _ & _ & Hmin).
        assert (Hk0 : k0 ∈ writable (get_account_locks_unchecked tx)).
        { apply elem_of_writable. exists 0%nat. rewrite (po_keys _ _ _ Hpayer). split; [done|apply Hpayer]. }
        destruct (withdraw_fee k0 a0 fee db') as (db'' & -> & Ht & Hk); [by rewrite Hdb'| |done|].
        { pose proof (lam_total k0 db) as Hb. unfold lam in Hb. rewrite Ha0 in Hb. cbn in Hb. lia. }
        rewrite bool_decide_eq_false_2 by (by intros [? ?]). exists (Ok tt), db''. split_and!; [done|done|].
        intros k Hnk. apply Hk. by intros ->.
Qed.
End executed_one.

Lemma settle_one tx cr l r load' l' stored :
  (is_ok cr.1 = true → loadable tx) → (∀ p, cr.2 = Some p → db !! p.1 = Some p.2) →
  execute_one xenv tx (load_accounts_one env fs include hash_queue tx cr) l = Ok (r, load', l') →
  collect_one (E:=E) durable_nonce lamports_per_signature tx (r, load') = Ok stored →
  ∃ s, st_stored s = stored ∧ settles tx (r, load') s ∧
    st_keys s = if is_ok cr.1 then writable (get_account_locks_unchecked tx) else [].
Proof.
  intros Hready Hnonce Hx Hc. unfold execute_one in Hx.
  destruct (load_accounts_one _ _ _ _ _ _) as [[lt nonce]|e|] eqn:Hl; [|simplify_eq|done].
  2:{ injection Hc as <-. eexists. split; [|split; [apply settles_not_executed|reflexivity]]. done. }
  destruct (match xe_compute_budget xenv with Some _ => _ | None => _ end) as [budget|e|]; [|simplify_eq|done].
  2:{ injection Hc as <-. eexists. split; [|split; [apply settles_not_executed|reflexivity]]. done. }
  destruct (execute_loaded_transaction _ _ _ _ _ _ _ _ _ _ _ _) as [[[d post] l2]| |] eqn:Hexec;
    cbn [rbind fst snd] in Hx; [|done..]. simplify_eq.
  destruct (load_accounts_inv _ _ _ _ _ _ _ _ Hl) as (Hok & lps & fee & Hfee & Hload & Hn). rewrite Hok.
  destruct (Hready Hok) as (Hmr & k0 & keys & Hpayer).
  destruct (load_transaction_spec env tx fee lt k0 keys Hover Hmr Hpayer Hload) as (accs & extra & rents & Htaken).
  { intros k. pose proof (lam_total k db). lia. }
  by eapply settle_executed.
Qed.
End settle.
