(* ===== verification/BatchRules.v ===== *)
(** * Theory of the batch

    Batches are settled transaction by transaction: their locks keep them apart, so that
    what each of them stores and pays is what it would alone. *)

From S2P Require Import Prelude Sdk Rent Account Message MessageRules Nonce TransactionContext.
From S2P Require Import AccountRules InstructionRules LogCollector InvokeContext InvokeRules.
From S2P Require Import MessageProcessor MessageProcessorRules Effects RemoteLoader AccountsCache.
From S2P Require Import MigraterProgram Bank ExecuteRules SystemProgram BlockhashQueue StatusCache.
From S2P Require Import Admission AccountLocks EpochSchedule LoadAccounts Fees LoadRules Commit.
From S2P Require Import CommitRules Codec CacheRules BankRules Transactions.

(** ** Locks keep transactions apart *)
Lemma represents_apart l held : represents l held → NoDup (held ≫= writable).
Proof.
  intros [_ _ Hs Hc]. clear l. induction held as [|t held IH]; [constructor|]. apply list.Forall_cons in Hs as [Ht Hs].
  rewrite bind_cons. apply list.NoDup_app. split_and!.
  - by apply list.NoDup_app in Ht as [? _].
  - intros k Hk (u & Hku & [rest Hu]%elem_of_Permutation)%list_elem_of_bind. apply (Hc t u rest); [by rewrite Hu|].
    exists k. left. split; [done|by left].
  - apply IH; [done|]. intros t' u rest Hp. apply (Hc t' u (t :: rest)). rewrite Hp. solve_Permutation.
Qed.
Lemma live_batch_apart s batch :
  lock_invariant s → batch ∈ live_batches s → needs_unlock batch = true →
  NoDup (locked_transactions (sanitized_txs batch) (lock_results batch) ≫= writable).
Proof.
  intros Hi [i Hb]%list_elem_of_lookup Hn. apply represents_apart in Hi. unfold held_locks in Hi.
  rewrite (bind_delete _ _ _ _ Hb), bind_app in Hi. apply list.NoDup_app in Hi as [Hi _].
  unfold batch_held in Hi. by rewrite Hn in Hi.
Qed.

(** the keys of an admitted transaction *)
Definition settled_keys (tx : SanitizedTransaction) (cr : TransactionCheckResult) : list Pubkey :=
  if is_ok cr.1 then writable (get_account_locks_unchecked tx) else [].
Lemma settled_keys_apart txs lrs (crs : list TransactionCheckResult) :
  Forall2 (λ (x : SanitizedTransaction * LockResult) cr, is_ok cr.1 = true → is_ok x.2 = true) (zip txs lrs) crs →
  NoDup (locked_transactions txs lrs ≫= writable) → NoDup (concat (zip_with settled_keys txs crs)).
Proof.
  intros Hf Hnd. eapply sublist_NoDup; [exact Hnd|]. clear Hnd. revert lrs crs Hf.
  induction txs as [|tx txs IH]; intros [|lr lrs] crs Hf; cbn [zip zip_with] in Hf;
    inversion Hf as [|x cr xs crs' Hx Hf' H1 H2]; subst; [by apply sublist_nil_l..|].
  rewrite locked_transactions_cons, bind_app. cbn [zip_with concat]. apply sublist_app; [|by apply IH].
  unfold settled_keys. cbn [snd] in Hx. destruct (is_ok cr.1) eqn:Hok; [|apply sublist_nil_l].
  rewrite Hx by done. cbn. by rewrite app_nil_r.
Qed.
Lemma concat_apart {A} (f : A → list Pubkey) l x y k :
  NoDup (concat (f <$> l)) → x ∈ l → y ∈ l → k ∈ f x → k ∈ f y → x = y.
Proof.
  intros Hnd Hx Hy Hkx Hky. induction l as [|z l IH]; [by apply not_elem_of_nil in Hx|].
  rewrite fmap_cons in Hnd. cbn [concat] in Hnd. apply list.NoDup_app in Hnd as (_ & Hdis & Hnd).
  assert (Hin : ∀ w, w ∈ l → k ∈ f w → k ∈ concat (f <$> l)).
  { intros w Hw Hk. apply list_elem_of_In, in_concat. exists (f w).
    split; [by apply list_elem_of_In, list_elem_of_fmap_2|by apply list_elem_of_In]. }
  apply elem_of_cons in Hx as [->|Hx], Hy as [->|Hy]; [done| | |auto].
  - destruct (Hdis k Hkx). eauto.
  - destruct (Hdis k Hky). eauto.
Qed.

(** ** A batch *)
Section batch.
Context `{PubkeyDisplay, Sha256, KeypairBase58, NftValueRegex,
  !Bincode UpgradeableLoaderState, !Bincode ProgramInstruction, !Bincode Versions, !BorshComputeBudget}.
Context {E : Type} (env : LoadEnv) (xenv : ExecuteEnv) `{!LawfulPrograms (xe_programs xenv)} (fs : FeeStructure)
  (include : bool) (hash_queue : BlockhashQueue).
Context (Hover : account_overrides env = ∅) (Htotal : total (accounts_db env) ≤ u64_max).
Abbreviation db := (accounts_db env).
Abbreviation rent := (rc_rent (le_rent_collector env)).
Abbreviation settles := (settles (E:=E) env fs include hash_queue).

(** a transaction as the checks leave it *)
Definition admitted (x : SanitizedTransaction * TransactionCheckResult) : Prop :=
  (is_ok x.2.1 = true → loadable x.1) ∧ ∀ p, x.2.2 = Some p → db !! p.1 = Some p.2.

Lemma settle_all durable_nonce lps txs : ∀ crs l results l' storeds,
  Forall admitted (zip txs crs) →
  execute_all xenv txs (zip_with (load_accounts_one env fs include hash_queue) txs crs) l = Ok (results, l') →
  rmapM (λ x, collect_one (E:=E) durable_nonce lps x.1 x.2) (zip txs results) = Ok storeds →
  ∃ ss, Forall2 (λ x s, settles x.1 x.2 s) (zip txs results) ss ∧ st_stored <$> ss = storeds ∧
    st_keys <$> ss = zip_with settled_keys txs crs ∧ (zip txs results).*2 = results.
Proof.
  induction txs as [|tx txs IH]; intros crs l results l' storeds Had Hx Hc.
  { injection Hx as <- _. injection Hc as <-. by exists []. }
  destruct crs as [|cr crs]; cbn [zip_with execute_all] in *.
  { injection Hx as <- _. injection Hc as <-. by exists []. }
  destruct (execute_one _ _ _ _) as [[[r load'] l1]| |] eqn:Ho; cbn [rbind fst snd] in Hx; [|done..].
  destruct (execute_all _ _ _ _) as [[rest l2]| |] eqn:Hr; cbn [rbind fst snd] in Hx; [|done..].
  injection Hx as <- <-. cbn [zip_with rmapM fst snd] in Hc.
  destruct (collect_one _ _ _ _) as [stored| |] eqn:Hco; cbn [rbind] in Hc; [|done..].
  destruct (rmapM _ _) as [storeds'| |] eqn:Hrm; cbn [rbind] in Hc; [|done..]. injection Hc as <-.
  apply list.Forall_cons in Had as [[Hready Hnonce] Had].
  destruct (settle_one env xenv fs include hash_queue durable_nonce lps Hover Htotal tx cr l r load' l1 stored
    Hready Hnonce Ho Hco) as (s & <- & Hs & Hk).
  destruct (IH crs l1 rest l2 storeds' Had Hr Hrm) as (ss & Hss & <- & Hks & Hlen).
  exists (s :: ss). split_and!; [by constructor|done| |].
  - rewrite fmap_cons. by rewrite Hks, Hk.
  - cbn [zip_with fmap list_fmap snd]. by f_equal.
Qed.

(** what the batch stores *)
Lemma stores_settled xs ss :
  Forall2 (λ x s, settles x.1 x.2 s) xs ss → NoDup (concat (st_keys <$> ss)) →
  let stored := concat (st_stored <$> ss) in
  NoDup stored.*1 ∧ (∀ k, k ∈ stored.*1 → ∃ s, s ∈ ss ∧ k ∈ (st_stored s).*1) ∧
  sumN ((λ x, lamports x.2) <$> stored) + sumN (st_rent <$> ss) + sumN (st_fee <$> ss) =
  sumN (lam db <$> stored.*1) + sumN (st_withdrawn <$> ss).
Proof.
  intros Hf. cbv zeta. induction Hf as [|x s xs ss Hs Hf IH]; intros Hnd; [by split_and!; [constructor|set_solver|]|].
  rewrite !fmap_cons in *. cbn [concat] in *. apply list.NoDup_app in Hnd as (Hk & Hdis & Hnd).
  destruct (IH Hnd) as (Hnd' & Hin & Hsum). rewrite !fmap_app, !sumN_app, !sumN_cons. split_and!.
  - apply list.NoDup_app. split_and!; [apply Hs| |done]. intros k Hks (s' & Hs' & Hk')%Hin.
    apply (Hdis k); [by apply Hs|]. apply list_elem_of_In, in_concat. exists (st_keys s').
    split; [by apply list_elem_of_In, list_elem_of_fmap_2|]. apply list_elem_of_In.
    destruct (proj1 (list_elem_of_lookup _ _) Hs') as [j Hj].
    destruct (Forall2_lookup_r _ _ _ _ _ Hf Hj) as (y & _ & Hy). by apply Hy.
  - intros k [Hk'|(s' & Hs' & Hk')%Hin]%elem_of_app; [exists s|exists s']; set_solver.
  - pose proof (se_sum _ _ _ _ _ _ _ Hs). lia.
Qed.
(** the fees it pays *)
Lemma fees_settled xs ss : ∀ db',
  Forall2 (λ x s, settles x.1 x.2 s) xs ss → NoDup (concat (st_keys <$> ss)) →
  (∀ s, s ∈ ss → st_stored s = [] → ∀ k, k ∈ st_keys s → db' !! k = db !! k) →
  ∃ rs db'', filter_program_errors_and_collect_fee (E:=E) rent fs include hash_queue
      ((λ x, (x.1, x.2.1)) <$> xs) db' = Ok (rs, as_u64 (sumN (st_fee <$> ss)), db'') ∧
    total db'' + sumN (st_withdrawn <$> ss) = total db'.
Proof.
  intros db' Hf. revert db'. induction Hf as [|x s xs ss Hs Hf IH]; intros db' Hnd Hdb.
  { exists [], db'. split; [done|]. apply N.add_0_r. }
  rewrite !fmap_cons in *. cbn [concat filter_program_errors_and_collect_fee] in *.
  apply list.NoDup_app in Hnd as (Hk & Hdis & Hnd).
  destruct (se_fee _ _ _ _ _ _ _ Hs db') as (res & db1 & -> & Ht & Hsame); [intros Hst; apply Hdb; [by left|done]|].
  cbn [rbind fst snd]. destruct (IH db1 Hnd) as (rs & db'' & -> & Ht').
  { intros s' Hs' Hst k Hks. rewrite Hsame; [by eapply Hdb; [right|..]|]. intros Hk'. apply (Hdis k Hk').
    apply list_elem_of_In, in_concat. exists (st_keys s').
    split; [by apply list_elem_of_In, list_elem_of_fmap_2|by apply list_elem_of_In]. }
  cbn [rbind fst snd]. exists (res :: rs), db''. rewrite !sumN_cons. split; [|lia].
  do 3 f_equal. unfold wrapping_add, as_u64. by rewrite N.Div0.add_mod_idemp_r.
Qed.
Lemma rent_settled xs ss :
  Forall2 (λ x s, settles x.1 x.2 s) xs ss → collect_rent xs.*2 = as_u64 (sumN (st_rent <$> ss)).
Proof.
  intros Hf. unfold collect_rent.
  assert (Hgen : ∀ n, foldl (λ collected x,
    match x with
    | (r, Ok (loaded, _)) => if was_executed_successfully r then wrapping_add collected (lt_rent loaded) else collected
    | _ => collected
    end) (as_u64 n) xs.*2 = as_u64 (n + sumN (st_rent <$> ss))).
  { induction Hf as [|x s xs ss Hs Hf IH]; intros n; [by rewrite N.add_0_r|].
    rewrite !fmap_cons, sumN_cons, N.add_assoc, <-IH. cbn [foldl]. f_equal.
    pose proof (se_rent _ _ _ _ _ _ _ Hs) as Hr. unfold tx_collected_rent in Hr.
    assert (Hzero : 0 = as_u64 (st_rent s) → as_u64 n = as_u64 (n + st_rent s)).
    { intros Heq. unfold as_u64 in *. by rewrite <-N.Div0.add_mod_idemp_r, <-Heq, N.add_0_r. }
    destruct x as [tx [r [[loaded nonce]| |]]]; cbn [fst snd] in *; [|auto..].
    destruct (was_executed_successfully r); [|auto]. rewrite Hr. unfold wrapping_add, as_u64.
    by rewrite <-N.Div0.add_mod. }
  apply (Hgen 0).
Qed.

Lemma commit_settled slot draws last_blockhash lps counts txs crs l results l' b db' b' rs :
  Forall admitted (zip txs crs) → NoDup (concat (zip_with settled_keys txs crs)) →
  execute_all xenv txs (zip_with (load_accounts_one env fs include hash_queue) txs crs) l = Ok (results, l') →
  commit_transactions (E:=E) rent fs include hash_queue slot draws last_blockhash lps counts txs results db b =
    Ok (db', b', rs) →
  ∃ fees rents, total db' + fees + rents = total db ∧ collector_fees b' = wrapping_add (collector_fees b) fees ∧
    collected_rent b' = wrapping_add (collected_rent b) rents.
Proof.
  intros Had Hnd Hx Hc. unfold commit_transactions, collect_accounts_to_store in Hc.
  destruct (rmapM _ _) as [storeds| |] eqn:Hrm; cbn [rmap rbind] in Hc; [|done..].
  destruct (settle_all _ _ _ _ _ _ _ _ Had Hx Hrm) as (ss & Hss & <- & Hks & Hres). rewrite <-Hks in Hnd.
  destruct (stores_settled _ _ Hss Hnd) as (Hnd' & Hin & Hsum). pose proof (store_total _ db Hnd') as Hst.
  destruct (fees_settled _ _ (store_accounts (concat (st_stored <$> ss)) db) Hss Hnd) as (rs' & db'' & Hf & Ht).
  { intros s Hs Hnil k Hk. apply store_accounts_lookup. intros (s' & Hs' & Hk')%Hin.
    destruct (proj1 (list_elem_of_lookup _ _) Hs') as [j Hj]. destruct (Forall2_lookup_r _ _ _ _ _ Hss Hj) as (y & _ & Hy).
    rewrite (concat_apart _ _ _ _ _ Hnd Hs Hs' Hk (se_within _ _ _ _ _ _ _ Hy k Hk')) in Hnil.
    rewrite Hnil in Hk'. by apply not_elem_of_nil in Hk'. }
  destruct (update_transaction_statuses _ _ _ _ _) as [sc| |]; cbn [rbind] in Hc; [|done..].
  replace (zip txs results.*1) with ((λ x, (x.1, x.2.1)) <$> zip txs results) in Hc.
  2:{ clear. revert results. induction txs as [|tx txs IH]; intros [|r results]; cbn; [done..|by rewrite IH]. }
  rewrite Hf in Hc. cbn [rbind fst snd] in Hc. injection Hc as <- <- _. cbn [collector_fees collected_rent].
  rewrite <-Hres, (rent_settled _ _ Hss). eexists _, _. split; [|done].
  unfold as_u64, u64_max in *. rewrite !N.mod_small by lia. lia.
Qed.
End batch.

(** ** The checks before the load *)
Section pipeline.
Context `{PubkeyDisplay, Sha256, KeypairBase58, NftValueRegex,
  !Bincode UpgradeableLoaderState, !Bincode ProgramInstruction, !Bincode Versions, !Bincode SystemInstruction,
  !BorshComputeBudget}.
Context (e : BatchEnv).

(** what a passed check says: the lock was taken, and a nonce was read where it is named *)
Definition checked (accounts : Pubkey → option AccountSharedData) (x : SanitizedTransaction * LockResult)
    (cr : TransactionCheckResult) : Prop :=
  (is_ok cr.1 = true → is_ok x.2 = true) ∧
  ∀ p, cr.2 = Some p → get_durable_nonce (tx_message x.1) = Some p.1 ∧ accounts p.1 = Some p.2.

Lemma check_transactions_checked {E} accounts ancestors txs lrs max_age q cache crs :
  check_transactions (E:=E) accounts ancestors txs lrs max_age q cache = Ok crs →
  Forall2 (checked accounts) (zip txs lrs) crs.
Proof.
  unfold check_transactions, check_age. destruct (last_hash q) as [last| |]; cbn [rbind]; [|done..].
  intros Hc%rmapM_Ok. revert lrs crs Hc. induction txs as [|tx txs IH]; intros [|lr lrs] crs Hc; cbn [zip zip_with] in *;
    inversion Hc as [|x cr xs crs' Hx Hf' H1' H2']; subst; [constructor..|]. constructor; [|by apply IH]. clear IH Hc Hf'.
  assert (Hpre : checked accounts (tx, lr) match lr with
    | Ok _ => check_transaction_age accounts tx max_age (durable_nonce_from_blockhash last) q
    | err => (err, None) end).
  { destruct lr as [[]|err|]; [|by split..]. unfold check_transaction_age. destruct (is_hash_valid_for_age _ _ _); [by split|].
    destruct (check_transaction_for_nonce _ _ _) as [n|] eqn:Hn; [|by split]. split; [done|]. intros p [= <-].
    unfold check_transaction_for_nonce in Hn. destruct (negb _); [|done]. unfold check_message_for_nonce in Hn.
    destruct (get_durable_nonce _) as [k|]; cbn in Hn; [|done]. destruct (accounts k) as [a|] eqn:Ha; cbn in Hn; [|done].
    destruct (verify_nonce_account _ _) as [nd|]; cbn in Hn; [|done]. destruct (negb _) in Hn; [done|].
    injection Hn as <-. done. }
  unfold check_status in Hx. destruct (match lr with Ok _ => _ | _ => _ end) as [r n].
  destruct (if is_ok r then _ else _) as [b| |]; cbn [rbind] in Hx; [|done..]. injection Hx as <-.
  by destruct b; [split|].
Qed.
Lemma filter_checked {E} fuel owners accounts txs : ∀ lrs crs programs c crs' programs' c',
  Forall2 (checked accounts) (zip txs lrs) crs →
  filter_executable_program_accounts (E:=E) fuel e owners (zip txs crs) programs c = Ok (crs', programs', c') →
  Forall2 (checked accounts) (zip txs lrs) crs'.
Proof.
  induction txs as [|tx txs IH]; intros [|lr lrs] crs programs c crs' programs' c' Hf Hr; cbn [zip zip_with] in *;
    inversion Hf as [|x cr xs crs2 Hx Hf' Hxs Hcrs]; subst; try (injection Hr as <- _ _; constructor).
  cbn [zip_with filter_executable_program_accounts] in Hr.
  assert (Hstep : ∀ cr' programs c, checked accounts (tx, lr) cr' →
    (let! rest := filter_executable_program_accounts (E:=E) fuel e owners (zip txs crs2) programs c in
     Ok (cr' :: rest.1.1, rest.1.2, rest.2)) = Ok (crs', programs', c') →
    Forall2 (checked accounts) ((tx, lr) :: zip txs lrs) crs').
  { clear Hr. intros cr' programs1 c1 Hc Hr.
    destruct (filter_executable_program_accounts _ _ _ _ _ _) as [[[l m] c2]| |] eqn:Hrest; cbn [rbind] in Hr; [|done..].
    injection Hr as <- _ _. constructor; [done|by eapply IH]. }
  destruct cr as [[u|err|] nonce]; [|by eapply Hstep..].
  destruct (match nonce with Some _ => _ | None => _ end); [|eapply Hstep; [|exact Hr]; by split].
  destruct (check_remote_accounts _ _ _ _) as [c1|]; cbn [unwrap rbind] in Hr; [|done]. by eapply Hstep.
Qed.

(** C1: no lamport is made or lost.  When a batch that holds its locks, whatever other
    batches are being processed, is checked, loaded, executed and committed, with whatever
    outcome for each transaction, then the lamports of all accounts the bank sees, with
    the fees and the rent that the bank has collected, add up to what they did when the
    accounts were loaded.  The nonce accounts the batch names must be the same before
    and after the remote accounts of the batch are migrated, and the sum must fit 64 bits. *)
Theorem batch_conserves_lamports `{!LawfulPrograms (xe_programs (be_execute e))} fuel draws limit ops s batch max_age
    log_collector c b db' b' log_collector' results c' :
  Forall op_valid ops → N.of_nat (sum_list (op_transactions <$> ops)) < u64_max →
  run_lock_ops (E:=TransactionError.t) limit no_batches ops = Ok s →
  batch ∈ live_batches s → needs_unlock batch = true →
  load_execute_and_commit_transactions fuel e draws batch max_age log_collector c b =
    Ok (db', b', log_collector', results, c') →
  Forall loadable (sanitized_txs batch) →
  (∀ tx k, tx ∈ sanitized_txs batch → get_durable_nonce (tx_message tx) = Some k →
     be_accounts e c' !! k = be_accounts e c !! k) →
  total (be_accounts e c') + collector_fees b + collected_rent b ≤ u64_max →
  total db' + collector_fees b' + collected_rent b' =
  total (be_accounts e c') + collector_fees b + collected_rent b.
Proof.
  intros Hv Hb Hs Hbatch Hn Hrun Hload Hnonce Htotal.
  destruct (run_lock_ops_spec (E:=TransactionError.t) limit ops no_batches) as (s' & Hs' & Hi & _);
    [apply represents_empty|done|cbn [held_locks live_batches no_batches]; simpl; lia|].
  rewrite Hs in Hs'. injection Hs' as <-. pose proof (live_batch_apart _ _ Hi Hbatch Hn) as Happ.
  unfold load_execute_and_commit_transactions, load_and_execute_transactions in Hrun.
  set (txs := sanitized_txs batch) in *.
  destruct (check_transactions _ _ _ _ _ _ _) as [crs0| |] eqn:Hcheck; cbn [rbind] in Hrun; [|done..].
  apply check_transactions_checked in Hcheck.
  destruct (filter_executable_program_accounts _ _ _ _ _ _) as [[[crs programs] c1]| |] eqn:Hfilter; cbn [rbind] in Hrun; [|done..].
  pose proof (filter_checked _ _ _ _ _ _ _ _ _ _ _ Hcheck Hfilter) as Hchecked.
  assert (Hend : ∃ fees rents, total db' + fees + rents = total (be_accounts e c') ∧
    collector_fees b' = wrapping_add (collector_fees b) fees ∧ collected_rent b' = wrapping_add (collected_rent b) rents);
    [|destruct Hend as (fees & rents & Hsum & -> & ->); unfold wrapping_add, as_u64, u64_max in *;
      rewrite !N.mod_small by lia; lia].
  destruct (be_replenish_program_cache _ _) as [sizes [|]].
  - cbn [rbind] in Hrun. destruct (last_blockhash_and_lamports_per_signature _) as [last| |]; cbn [rbind] in Hrun; [|done..].
    unfold commit_transactions, collect_accounts_to_store in Hrun. cbn [lo_results fmap list_fmap] in Hrun.
    rewrite !zip_with_nil_r in Hrun. cbn [rmapM rmap rbind concat] in Hrun.
    destruct (update_transaction_statuses _ _ _ _ _) as [sc| |]; cbn [rbind] in Hrun; [|done..].
    injection Hrun as <- <- _ _ <-. exists 0, 0. split_and!; [lia|done..].
  - destruct (execute_all _ _ _ _) as [[res l']| |] eqn:Hx; cbn [rbind fst snd] in Hrun; [|done..].
    destruct (rfold _ _ _) as [logs'| |]; cbn [rbind] in Hrun; [|done..].
    destruct (last_blockhash_and_lamports_per_signature _) as [last| |]; cbn [rbind lo_results] in Hrun; [|done..].
    destruct (commit_transactions _ _ _ _ _ _ _ _ _ _ _ _ _) as [[[db1 b1] rs]| |] eqn:Hc; cbn [rbind fst snd] in Hrun; [|done..].
    injection Hrun as <- <- _ _ <-. eapply (commit_settled (load_env e ∅ _ _ c1)); [done|done| | | |exact Hx|exact Hc].
    + cbn [accounts_db load_env]. lia.
    + apply list.Forall_forall. intros [tx cr] (j & (x & y & [= <- <-] & Htx & Hcr)%lookup_zip_with_Some)%list_elem_of_lookup.
      destruct (Forall2_lookup_r _ _ _ _ _ Hchecked Hcr) as ([tx' lr] & (tx2 & lr2 & [= -> ->] & Htx' & _)%lookup_zip_with_Some & _ & Hp).
      rewrite Htx in Htx'. injection Htx' as <-. split; cbn [fst snd].
      * intros _. by eapply (proj1 (list.Forall_forall _ _) Hload), list_elem_of_lookup_2.
      * intros p [Hk Ha]%Hp. cbn [accounts_db load_env fst] in *. rewrite (Hnonce tx p.1); [done| |done].
        by eapply list_elem_of_lookup_2.
    + eapply settled_keys_apart; [|exact Happ]. eapply list.Forall2_impl; [exact Hchecked|]. by intros ? ? [? _].
Qed.
End pipeline.

(** ** An example: a transfer, one that fails, and one that fails but advances its nonce *)
Import Codec.Bincodes Codec.StandIns BankRules.Matchers.
#[local] Instance no_compute_budget : BorshComputeBudget := λ _, None.

Definition batch_message (k0 k1 : N) (hash : Hash) (ixs : list CompiledInstruction) : Message :=
  mkMessage (mkMessageHeader 1 0 2) [pubkey_of_N k0; pubkey_of_N k1; sysvar_recent_blockhashes_id; system_program_id]
    hash ixs.
Definition batch_tx (k0 k1 : N) (hash : Hash) (ixs : list CompiledInstruction) : SanitizedTransaction :=
  mkSanitizedTransaction (LegacyMsg (mkLegacyMessage (batch_message k0 k1 hash ixs) [true; true; false; false]))
    (mkHash (replicate 32 k0)) false [replicate 64 k0].
Definition batch_transfer (n : N) : CompiledInstruction :=
  mkCompiledInstruction 3 [0; 1] (default [] (serialize (Transfer n))).
Definition batch_advance : CompiledInstruction :=
  mkCompiledInstruction 3 [1; 2; 0] (default [] (serialize AdvanceNonceAccount)).
Definition batch_nonce_hash : Hash := durable_nonce_from_blockhash (mkHash [3]).
Definition batch_nonce : AccountSharedData :=
  mkAccountSharedData 30000000
    (default [] (serialize (versions_new (Initialized (mkNonceData (pubkey_of_N 5) batch_nonce_hash 5000)))))
    system_program_id false 0 false.
Definition batch_txs : list SanitizedTransaction :=
  [batch_tx 1 2 (mkHash [1]) [batch_transfer 5]; batch_tx 3 4 (mkHash [1]) [batch_transfer 90000000];
   batch_tx 5 6 batch_nonce_hash [batch_advance; batch_transfer 90000000]].
Definition batch_db : gmap Pubkey AccountSharedData :=
  list_to_map [(pubkey_of_N 1, user_account 10000000); (pubkey_of_N 2, user_account 20000000);
    (pubkey_of_N 3, user_account 50000000); (pubkey_of_N 5, user_account 60000000); (pubkey_of_N 6, batch_nonce);
    (system_program_id, native_program)].
Definition batch_env : BatchEnv :=
  mkBatchEnv (λ _, batch_db) ∅ (genesis_hash (mkHash [1]) 5000 0 queue_default) 9 [system_program_id]
    (λ _, (λ _, None, false))
    (mkRentCollector 0 (mkEpochSchedule 432000 432000 false 0 0) (f64_of_u64 78892314) rent_default)
    true false true fee_structure_default true (mkTransactionLogCollectorConfig {[pubkey_of_N 2]} All)
    (mkExecuteEnv demo_programs demo_show sample_base demo_bank None true true None).
Definition batch_demo : TransactionBatch := mkTransactionBatch [Ok tt; Ok tt; Ok tt] batch_txs true.
Definition batch_locks : LockState :=
  match run_lock_ops (E:=TransactionError.t) MAX_TX_ACCOUNT_LOCKS no_batches [PrepareBatch batch_txs] with
  | Ok s => s | _ => no_batches
  end.
Definition batch_cache : AccountsCache := mkAccountsCache ∅ ∅ 0 0 nft_loader.
Definition batch_bank : BankState := mkBankState cache_default 0 0 0 0 false 0 0 30 200 0%Z.
Definition batch_logs : TransactionLogCollector := mkTransactionLogCollector [] ∅.
Definition batch_after : gmap Pubkey AccountSharedData * BankState * TransactionLogCollector :=
  match load_execute_and_commit_transactions 2 batch_env (λ n, 5 + N.of_nat n) batch_demo MAX_PROCESSING_AGE
          batch_logs batch_cache batch_bank with
  | Ok (db, b, log_collector, _, _) => (db, b, log_collector) | _ => (∅, batch_bank, batch_logs)
  end.
Lemma batch_runs :
  load_execute_and_commit_transactions 2 batch_env (λ n, 5 + N.of_nat n) batch_demo MAX_PROCESSING_AGE
    batch_logs batch_cache batch_bank =
  Ok (batch_after.1.1, batch_after.1.2, batch_after.2, [Ok tt; Ok tt; Ok tt], batch_cache).
Proof. vm_compute. reflexivity. Qed.
Lemma batch_loadable : Forall loadable batch_txs.
Proof.
  repeat constructor; try (by vm_compute).
  all: try (eexists _, _; split; by vm_compute).
Qed.
Lemma batch_conserves_lamports_witness :
  total batch_after.1.1 + collector_fees batch_after.1.2 + collected_rent batch_after.1.2 = total batch_db + 200 + 30 ∧
  collector_fees batch_after.1.2 = 15200 ∧ lam batch_after.1.1 (pubkey_of_N 2) = 20000005 ∧
  lam batch_after.1.1 (pubkey_of_N 3) = 49995000 ∧ lam batch_after.1.1 (pubkey_of_N 6) = 30000000.
Proof.
  split; [|by vm_compute].
  apply (batch_conserves_lamports batch_env 2 (λ n, 5 + N.of_nat n) MAX_TX_ACCOUNT_LOCKS [PrepareBatch batch_txs] batch_locks
    batch_demo MAX_PROCESSING_AGE batch_logs batch_cache batch_bank batch_after.1.1 batch_after.1.2 batch_after.2
    [Ok tt; Ok tt; Ok tt] batch_cache).
  - repeat constructor.
  - by vm_compute.
  - by vm_compute.
  - vm_compute. left.
  - done.
  - exact batch_runs.
  - exact batch_loadable.
  - done.
  - by vm_compute.
Defined.
