(* ===== verification/Replay.v ===== *)
(** * Replay of entries ([ledger/src/blockstore_processor.rs])

    Entries become batches that hold their locks together, batches are executed in groups, and
    ticks are registered between the groups.  The state is what replay changes: the ticks of
    the bank, its cost tracker, its table of locks, its accounts and counters, and the sequence
    of what was done to the bank.  The batches of a group run on a pool of threads, in an order
    that the pool chooses ([pool_order]).  Votes, statuses and prioritization fees are sent to
    other parts of the validator and are left out, as is the account of the recent block
    hashes. *)

From S2P Require Import Prelude Sdk Message MessageRules Rent Account Nonce SystemProgram InvokeContext Bank.
From S2P Require Import AccountLocks MerkleTree Entry EntryRules PohRecorder PohRecorderRules.
From S2P Require Import TransactionContext LogCollector MessageProcessor RemoteLoader AccountsCache MigraterProgram.
From S2P Require Import BlockhashQueue StatusCache Admission LoadAccounts Commit.
From S2P Require Import InstructionRules Fees CostModel CostRules.

Inductive EntryType :=
| EntryTransactions (transactions : list SanitizedTransaction)
| EntryTick (hash : Hash).
Record ReplayEntry := mkReplayEntry { re_entry : EntryType; re_starting_index : N }.

(** what executing a batch changes *)
Record ExecutionState := mkExecutionState {
  xs_env : BatchEnv;
  xs_cache : AccountsCache;
  xs_bank : BankState;
  xs_logs : TransactionLogCollector }.
Definition with_accounts (accounts : AccountsCache → gmap Pubkey AccountSharedData) (e : BatchEnv) : BatchEnv :=
  mkBatchEnv accounts (be_ancestors e) (be_hash_queue e) (be_slot e) (be_builtin_programs e)
    (be_replenish_program_cache e) (be_rent_collector e) (be_set_exempt_rent_epoch_max e) (be_in_reward_interval e)
    (be_should_collect_rent e) (be_fee_structure e) (be_include_size_in_fee e) (be_log_collector_config e) (be_execute e).
Definition with_hash_queue (q : BlockhashQueue) (e : BatchEnv) : BatchEnv :=
  mkBatchEnv (be_accounts e) (be_ancestors e) q (be_slot e) (be_builtin_programs e)
    (be_replenish_program_cache e) (be_rent_collector e) (be_set_exempt_rent_epoch_max e) (be_in_reward_interval e)
    (be_should_collect_rent e) (be_fee_structure e) (be_include_size_in_fee e) (be_log_collector_config e) (be_execute e).
(** accounts that differ from what was loaded were stored: they hide what the cache serves *)
Definition stored_accounts (before after : gmap Pubkey AccountSharedData) : gmap Pubkey AccountSharedData :=
  filter (λ x, before !! x.1 ≠ Some x.2) after.

(** what has happened to the bank, in order: a group of batches with the results of their
    transactions, or a tick *)
Inductive ReplayEvent :=
| Processed (batches : list TransactionBatchWithIndexes) (results : list (list LockResult))
| Ticked (hash : Hash).
Record ReplayState := mkReplayState {
  rs_bank : LeaderBank;
  rs_tracker : CostTracker;
  rs_locks : AccountLocks;
  rs_exec : ExecutionState;
  rs_events : list ReplayEvent }.
Definition set_rs_locks (l : AccountLocks) (s : ReplayState) : ReplayState :=
  mkReplayState (rs_bank s) (rs_tracker s) l (rs_exec s) (rs_events s).

Definition first_err (results : list LockResult) : result TransactionError.t unit :=
  foldr (λ r rest, match r with Ok _ => rest | _ => r end) (Ok tt) results.

Section replay.
Context `{PubkeyDisplay, Sha256, KeypairBase58, NftValueRegex,
  !Bincode UpgradeableLoaderState, !Bincode ProgramInstruction, !Bincode Versions, !Bincode SystemInstruction,
  !BorshComputeBudget}.
Context (feature_set : gset Pubkey) (thread_count lock_limit : N).
(** the depth of the remote loader, the numbers the status cache draws in a batch after some events,
    the order in which the thread pool takes the batches of a group, the fee for a signature and the time *)
Context (fuel : nat) (draws : list ReplayEvent → nat → nat → N).
Context (pool_order : list TransactionBatchWithIndexes → list nat).
Context (lamports_per_signature : N) (now : list ReplayEvent → N).
Local Abbreviation TE := TransactionError.t.
Local Abbreviation RS := (M ReplayState TE).

(** ** The execution of a group *)
Fixpoint get_first_error_loop (l : list (LockResult * SanitizedTransaction)) : result TE (option (LockResult * Signature)) :=
  match l with
  | [] => Ok None
  | (Err err, transaction) :: l' => let! signature := tx_signature transaction in Ok (Some (Err err, signature))
  | _ :: l' => get_first_error_loop l'
  end.
Definition get_first_error (batch : TransactionBatch) (fee_collection_results : list LockResult) :
  result TE (option (LockResult * Signature)) :=
  get_first_error_loop (zip fee_collection_results (sanitized_txs batch)).
(** the result, the results of the transactions and the state; what the bank returns are values, it has no
    error of its own *)
Definition execute_batch (batch_draws : nat → N) (b : TransactionBatchWithIndexes) (x : ExecutionState) :
  result TE (LockResult * list LockResult * ExecutionState) :=
  let batch := bi_batch b in
  match load_execute_and_commit_transactions fuel (xs_env x) batch_draws batch MAX_PROCESSING_AGE
          (xs_logs x) (xs_cache x) (xs_bank x) with
  | Ok (accounts, bank, logs, fee_collection_results, cache) =>
      let! first_err := get_first_error batch fee_collection_results in
      let stored := stored_accounts (be_accounts (xs_env x) cache) accounts in
      Ok (default (Ok tt) (fst <$> first_err), fee_collection_results,
          mkExecutionState (with_accounts (λ c, stored ∪ be_accounts (xs_env x) c) (xs_env x)) cache bank logs)
  | _ => Panic
  end.
Fixpoint execute_in_order (batch_draws : nat → nat → N) (batches : list TransactionBatchWithIndexes) (order : list nat)
    (done : gmap nat (LockResult * list LockResult)) (x : ExecutionState) :
  result TE (gmap nat (LockResult * list LockResult) * ExecutionState) :=
  match order with
  | [] => Ok (done, x)
  | i :: order' =>
      match batches !! i with
      | None => execute_in_order batch_draws batches order' done x
      | Some b =>
          let! y := execute_batch (batch_draws i) b x in
          execute_in_order batch_draws batches order' (<[i := y.1]> done) y.2
      end
  end.
(** the [assert!], the pool, which collects the results in the order of the batches, and the first error *)
Definition execute_batches_internal (batch_draws : nat → nat → N) (batches : list TransactionBatchWithIndexes)
    (x : ExecutionState) : result TE (LockResult * list (list LockResult) * ExecutionState) :=
  if bool_decide (batches = []) then Panic else
  let! y := execute_in_order batch_draws batches (pool_order batches) ∅ x in
  let results := omap (λ i, y.1 !! i) (seq 0 (length batches)) in
  Ok (first_err results.*1, results.*2, y.2).

(** [process_batches] without an installed scheduler *)
Definition process_batches (batches : list TransactionBatchWithIndexes) : RS unit :=
  if bool_decide (batches = []) then ret tt else
  λ s, match rebatch_batches thread_count feature_set batches (rs_tracker s) with
       | (Ok rebatched, t) =>
           match execute_batches_internal (draws (rs_events s)) rebatched (rs_exec s) with
           | Ok (r, results, x) =>
               (r, mkReplayState (rs_bank s) t (rs_locks s) x (rs_events s ++ [Processed rebatched results]))
           | _ => (Panic, mkReplayState (rs_bank s) t (rs_locks s) (rs_exec s) (rs_events s))
           end
       | (Err e, t) => (Err e, mkReplayState (rs_bank s) t (rs_locks s) (rs_exec s) (rs_events s))
       | (Panic, t) => (Panic, mkReplayState (rs_bank s) t (rs_locks s) (rs_exec s) (rs_events s))
       end.
Definition is_block_boundary (tick_height : N) (b : LeaderBank) : bool := tick_height =? lb_max_tick_height b.
(** [register_tick] also registers the hash of the last tick as a recent block hash *)
Definition register_recent_blockhash (hash : Hash) (time : N) (x : ExecutionState) : ExecutionState :=
  mkExecutionState (with_hash_queue (register_hash hash lamports_per_signature time (be_hash_queue (xs_env x))) (xs_env x))
    (xs_cache x) (xs_bank x) (xs_logs x).
Definition replay_tick (hash : Hash) : RS unit :=
  λ s, match register_tick hash (rs_bank s) with
       | Ok b =>
           let x := if is_block_boundary (wrapping_add (lb_tick_height (rs_bank s)) 1) (rs_bank s)
                    then register_recent_blockhash hash (now (rs_events s)) (rs_exec s) else rs_exec s in
           (Ok tt, mkReplayState b (rs_tracker s) (rs_locks s) x (rs_events s ++ [Ticked hash]))
       | Err e => (Err e, s)
       | Panic => (Panic, s)
       end.
(** batches that go out of scope release their locks *)
Definition drop_batches (batches : list TransactionBatchWithIndexes) (s : ReplayState) : ReplayState :=
  set_rs_locks (foldl (λ l b, (bank_unlock_accounts (bi_batch b) l).1) (rs_locks s) batches) s.
(** on an early return too *)
Definition dropping {A} (batches : list TransactionBatchWithIndexes) (m : RS A) : RS A :=
  λ s, match m s with
       | (Ok a, s) => (Ok a, s)
       | (r, s) => (r, drop_batches batches s)
       end.

Definition prepare_batch (txs : list SanitizedTransaction) : RS TransactionBatch :=
  λ s, match prepare_sanitized_batch lock_limit txs (rs_locks s) with
       | Ok (l, batch) => (Ok batch, set_rs_locks l s)
       | Err e => (Err e, s)
       | Panic => (Panic, s)
       end.

(** the [loop] on one entry: after the queue is executed nothing holds the accounts, and the
    second try is the last *)
Fixpoint lock_entry (fuel : nat) (txs : list SanitizedTransaction) (indexes : list N)
    (batches : list TransactionBatchWithIndexes) : RS (list TransactionBatchWithIndexes) :=
  match fuel with
  | O => lift Panic
  | S fuel =>
      batch <- dropping batches (prepare_batch txs) ;;
      let b := mkBatchWithIndexes batch indexes in
      match first_err (lock_results batch) with
      | Ok _ => ret (batches ++ [b])
      | r =>
          if bool_decide (batches = []) then dropping [b] (lift r ;; ret [])
          else dropping (b :: batches) (process_batches batches) ;;
               modify (drop_batches (batches ++ [b])) ;;
               lock_entry fuel txs indexes []
      end
  end.

Definition entry_indexes (start : N) (txs : list SanitizedTransaction) : list N :=
  (λ i, start + N.of_nat i) <$> seq 0 (N.to_nat (saturating_add u64_max start (len txs) - start)).

(** one round of the loop over the entries, with the queue of batches and the ticks saved for later *)
Definition process_entry (e : ReplayEntry) (x : list TransactionBatchWithIndexes * list Hash) :
  RS (list TransactionBatchWithIndexes * list Hash) :=
  let '(batches, tick_hashes) := x in
  match re_entry e with
  | EntryTick hash =>
      let tick_hashes := tick_hashes ++ [hash] in
      b <- gets rs_bank ;;
      if is_block_boundary (wrapping_add (lb_tick_height b) (len tick_hashes)) b then
        dropping batches (process_batches batches) ;;
        modify (drop_batches batches) ;;
        for_each tick_hashes replay_tick ;;
        ret ([], [])
      else ret (batches, tick_hashes)
  | EntryTransactions txs =>
      batches <- lock_entry 2 txs (entry_indexes (re_starting_index e) txs) batches ;;
      ret (batches, tick_hashes)
  end.
Fixpoint process_entry_loop (entries : list ReplayEntry) (x : list TransactionBatchWithIndexes * list Hash) :
  RS (list TransactionBatchWithIndexes * list Hash) :=
  match entries with
  | [] => ret x
  | e :: entries' => x <- process_entry e x ;; process_entry_loop entries' x
  end.
Definition process_entries (entries : list ReplayEntry) : RS unit :=
  x <- process_entry_loop entries ([], []) ;;
  dropping x.1 (process_batches x.1) ;;
  dropping x.1 (for_each x.2 replay_tick) ;;
  modify (drop_batches x.1).
End replay.
