(* ===== verification/ReplayRules.v ===== *)
(** * Replay keeps the order of a block

    Replay executes transactions once, in the order of the entries, in groups without
    conflicts, and registers the ticks in order, with the last tick of the block after all
    transactions before it.  It goes through all entries if every transaction is executed and
    pays its fee, and stops with the first group in which one does not.  A closed run
    replays three entries and two ticks. *)

From S2P Require Import Prelude Sdk Message MessageRules Rent Account Nonce SystemProgram InvokeContext Bank.
From S2P Require Import AccountLocks MerkleTree Entry EntryRules PohRecorder PohRecorderRules.
From S2P Require Import TransactionContext LogCollector MessageProcessor RemoteLoader AccountsCache MigraterProgram.
From S2P Require Import BlockhashQueue StatusCache Admission LoadAccounts Commit.
From S2P Require Import InstructionRules Fees CostModel CostRules Replay.
From S2P Require Import Codec CacheRules BankRules Transactions BatchRules.

(** ** What entries ask for and what events do *)
Definition entry_rows (e : ReplayEntry) : list (LockResult * SanitizedTransaction * N) :=
  match re_entry e with
  | EntryTransactions txs =>
      zip (zip (replicate (length txs) (Ok tt)) txs) (entry_indexes (re_starting_index e) txs)
  | EntryTick _ => []
  end.
Definition entry_txs (e : ReplayEntry) : list SanitizedTransaction :=
  match re_entry e with EntryTransactions txs => txs | EntryTick _ => [] end.
Definition entry_ticks (e : ReplayEntry) : list Hash :=
  match re_entry e with EntryTransactions _ => [] | EntryTick hash => [hash] end.
Definition event_rows (ev : ReplayEvent) : list (LockResult * SanitizedTransaction * N) :=
  match ev with Processed bs _ => group_rows bs | Ticked _ => [] end.
Definition event_ticks (ev : ReplayEvent) : list Hash :=
  match ev with Processed _ _ => [] | Ticked hash => [hash] end.

(** no transaction of a list writes what another one touches *)
Definition apart (txs : list SanitizedTransaction) : Prop :=
  ∀ t u rest, (get_account_locks_unchecked <$> txs) ≡ₚ t :: u :: rest → compatible t u.
Definition event_apart (ev : ReplayEvent) : Prop := apart (event_rows ev).*1.*2.
(** as many results as the batch has transactions *)
Definition results_of (b : TransactionBatchWithIndexes) (results : list LockResult) : Prop :=
  length results = length (zip (lock_results (bi_batch b)) (sanitized_txs (bi_batch b))) ∧ Panic ∉ results.
(** every transaction was executed and its fee was collected *)
Definition event_paid (ev : ReplayEvent) : Prop :=
  match ev with
  | Processed bs results => Forall2 results_of bs results ∧ first_err (concat results) = Ok tt
  | Ticked _ => True
  end.

Lemma first_err_ok results : first_err results = Ok tt → results = replicate (length results) (Ok tt).
Proof.
  induction results as [|r results IH]; [done|]. cbn [first_err foldr]. destruct r as [[]| |]; [|done..].
  intros Hr. cbn [length replicate]. f_equal. by apply IH.
Qed.
Lemma first_err_ok_intro n : first_err (replicate n (Ok tt)) = Ok tt.
Proof. by induction n. Qed.
Lemma locked_all txs : locked_transactions txs (replicate (length txs) (Ok tt)) = get_account_locks_unchecked <$> txs.
Proof. induction txs as [|tx txs IH]; [done|]. cbn [length replicate]. by rewrite locked_transactions_cons, IH. Qed.

Section locking.
Context (lock_limit : N).
(** the transactions of an entry can be locked together *)
Definition lockable (txs : list SanitizedTransaction) : Prop :=
  Forall (λ tx, is_ok (get_account_locks tx lock_limit) = true) txs ∧ apart txs.

Lemma apart_cons tx txs : apart (tx :: txs) → apart txs ∧
  ∀ tx', tx' ∈ txs → compatible (get_account_locks_unchecked tx) (get_account_locks_unchecked tx').
Proof.
  intros Ha. split.
  - intros t u rest Hp. apply (Ha t u (get_account_locks_unchecked tx :: rest)). rewrite fmap_cons, Hp. solve_Permutation.
  - intros tx' Hin. apply list_elem_of_split in Hin as (l1 & l2 & ->).
    apply (Ha _ _ (get_account_locks_unchecked <$> (l1 ++ l2))). rewrite fmap_cons, !fmap_app, fmap_cons. solve_Permutation.
Qed.

Lemma lock_lockable {E} txs : ∀ l held, represents l held → lockable txs →
  (∀ tx u, tx ∈ txs → u ∈ held → compatible (get_account_locks_unchecked tx) u) →
  N.of_nat (length held + length txs) ≤ u64_max →
  ∃ l', lock_accounts (E:=E) txs lock_limit l = Ok (l', replicate (length txs) (Ok tt)) ∧
    represents l' ((get_account_locks_unchecked <$> txs) ++ held).
Proof.
  induction txs as [|tx txs IH]; intros l held Hr [Hok Ha] Hc Hb; [by exists l|].
  apply list.Forall_cons in Hok as [Htx Hok]. apply apart_cons in Ha as [Ha Hfirst].
  unfold lock_accounts. rewrite fmap_cons. cbn [lock_accounts_inner].
  destruct (get_account_locks tx lock_limit) as [t| |] eqn:Ht; [|done..].
  destruct (get_account_locks_ok _ _ _ Ht) as [-> Hs]. cbn [length] in *.
  destruct (lock_account_spec (E:=E) l held _ Hr Hs ltac:(lia)) as [(l1 & -> & Hr1 & _)|[_ (u & Hu & Hcf)]].
  2:{ exfalso. apply (Hc tx u); [left|done|done]. }
  cbn [rbind fst snd]. destruct (IH l1 _ Hr1) as (l' & Hl' & Hr').
  - done.
  - intros tx' u Htx' [->|Hu]%elem_of_cons; [|apply Hc; [by right|done]].
    intros Hcf. apply (Hfirst tx' Htx'). by apply conflicts_sym.
  - cbn [length]. lia.
  - unfold lock_accounts in Hl'. rewrite Hl'. cbn [rbind fst snd]. exists l'. split; [done|].
    eapply represents_perm; [|exact Hr']. rewrite fmap_cons. solve_Permutation.
Qed.
End locking.

(** ** The queue of batches *)
Definition queued (q : list SanitizedTransaction * list N) : TransactionBatchWithIndexes :=
  mkBatchWithIndexes (mkTransactionBatch (replicate (length q.1) (Ok tt)) q.1 true) q.2.
Definition queue_txs (qs : list (list SanitizedTransaction * list N)) : list SanitizedTransaction := qs ≫= fst.

Lemma queued_rows q : (batch_rows (queued q)) = zip (zip (replicate (length q.1) (Ok tt)) q.1) q.2.
Proof. done. Qed.
Lemma queue_rows_txs qs : Forall (λ q : list SanitizedTransaction * list N, length q.2 = length q.1) qs →
  (group_rows (queued <$> qs)).*1.*2 = queue_txs qs.
Proof.
  induction 1 as [|[txs ixs] qs Hl _ IH]; [done|]. cbn [fst snd] in Hl. rewrite fmap_cons. unfold group_rows, queue_txs.
  rewrite !bind_cons, !fmap_app. unfold group_rows, queue_txs in IH. rewrite IH. f_equal. rewrite queued_rows. cbn [fst snd].
  rewrite fst_zip by (rewrite length_zip_with, length_replicate; lia). apply snd_zip. by rewrite length_replicate.
Qed.
Lemma queued_held q : batch_held (bi_batch (queued q)) = get_account_locks_unchecked <$> q.1.
Proof. apply locked_all. Qed.

Lemma drop_queue qs s held :
  represents (rs_locks s) ((get_account_locks_unchecked <$> queue_txs qs) ++ held) →
  N.of_nat (length (queue_txs qs) + length held) ≤ u64_max →
  represents (rs_locks (drop_batches (queued <$> qs) s)) held.
Proof.
  unfold drop_batches. cbn [rs_locks set_rs_locks]. generalize (rs_locks s). clear s.
  induction qs as [|q qs IH]; intros l Hr Hb; [done|]. rewrite fmap_cons. cbn [foldl].
  unfold queue_txs in Hr, Hb. rewrite bind_cons in Hr, Hb. rewrite fmap_app, <-app_assoc in Hr. rewrite length_app in Hb.
  rewrite <-queued_held in Hr. apply bank_unlock_spec in Hr as [Hr _].
  - apply IH; [exact Hr|]. unfold queue_txs. lia.
  - rewrite queued_held, !length_app, !length_fmap. unfold queue_txs. lia.
Qed.

(** ** The execution of a group *)
Section execution.
Context `{PubkeyDisplay, Sha256, KeypairBase58, NftValueRegex,
  !Bincode UpgradeableLoaderState, !Bincode ProgramInstruction, !Bincode Versions, !Bincode SystemInstruction,
  !BorshComputeBudget}.
Local Abbreviation TE := TransactionError.t.

(** the programs of a batch are loaded without a limit, as replay asks *)
Definition unlimited (x : ExecutionState) : Prop :=
  ∀ programs, (be_replenish_program_cache (xs_env x) programs).2 = false.

Lemma fee_results {E} rent fs size q l : ∀ db rs fees db',
  filter_program_errors_and_collect_fee (E:=E) rent fs size q l db = Ok (rs, fees, db') →
  length rs = length l ∧ Panic ∉ rs.
Proof.
  induction l as [|[tx r] l IH]; intros db rs fees db'; cbn [filter_program_errors_and_collect_fee].
  { intros [= <- _ _]. split; [done|apply not_elem_of_nil]. }
  destruct (collect_fee_one _ _ _ _ tx r db) as [[[one fee] db1]| |] eqn:Hone; cbn [rbind]; [|done..].
  destruct (filter_program_errors_and_collect_fee _ _ _ _ l _) as [[[rs' fees'] db2]| |] eqn:Hrest; cbn [rbind]; [|done..].
  intros [= <- _ _]. destruct (IH _ _ _ _ Hrest) as [Hl Hp]. cbn [fst snd length]. split; [by rewrite Hl|].
  apply not_elem_of_cons. split; [|done]. intros <-. revert Hone. unfold collect_fee_one.
  destruct r as [details nonce|err]; [|done]. destruct (match nonce with Some _ => _ | None => _ end) as [[lps|] is_nonce]; [|done].
  destruct (get_fee_for_message _ _ _ _); cbn [rbind]; [|done..]. destruct (negb _ && negb _); [|done].
  destruct (fee_payer _); cbn [rbind]; [|done..]. by destruct (withdraw _ _ _ _).
Qed.
Lemma filter_programs_length {E} fuel e owners l : ∀ programs c l' programs' c',
  filter_executable_program_accounts (E:=E) fuel e owners l programs c = Ok (l', programs', c') → length l' = length l.
Proof.
  induction l as [|[tx [r nonce]] l IH]; intros programs c l' programs' c'; cbn [filter_executable_program_accounts].
  { by intros [= <- _ _]. }
  assert (Hstep : ∀ cr programs1 c1,
    (let! rest := filter_executable_program_accounts (E:=E) fuel e owners l programs1 c1 in
     Ok (cr :: rest.1.1, rest.1.2, rest.2)) = Ok (l', programs', c') → length l' = S (length l)).
  { intros cr programs1 c1. destruct (filter_executable_program_accounts _ _ _ _ _ _) as [[[l1 m] c2]| |] eqn:Hrest;
      cbn [rbind]; [|done..]. intros [= <- _ _]. cbn [length fst]. f_equal. by eapply IH. }
  destruct r as [u|err|]; [|apply Hstep..]. destruct (match nonce with Some _ => _ | None => _ end); [|apply Hstep].
  destruct (check_remote_accounts _ _ _ _); cbn [unwrap rbind]; [apply Hstep|done].
Qed.
Lemma check_transactions_length {E} accounts ancestors txs locks a q sc crs :
  check_transactions (E:=E) accounts ancestors txs locks a q sc = Ok crs → length crs = length (zip txs locks).
Proof.
  unfold check_transactions, check_age. destruct (last_hash q) as [hash| |]; cbn [rbind]; [|done..].
  intros Hc%rmapM_Ok%Forall2_length. rewrite <-Hc, !length_zip_with. lia.
Qed.
Lemma execute_all_length env txs : ∀ loads l rs l',
  execute_all env txs loads l = Ok (rs, l') → length rs = length (zip txs loads).
Proof.
  induction txs as [|tx txs IH]; intros [|load loads] l rs l'; cbn [execute_all]; [by intros [= <- _]..|].
  destruct (execute_one env tx load l) as [x| |]; cbn [rbind]; [|done..].
  destruct (execute_all env txs loads x.2) as [[rs1 l1]| |] eqn:Hrest; cbn [rbind]; [|done..].
  intros [= <- _]. cbn [length zip zip_with fst]. f_equal. by eapply IH.
Qed.

Lemma commit_results fuel x d b logs c bank db bank' logs' rs c' :
  unlimited x →
  load_execute_and_commit_transactions fuel (xs_env x) d (bi_batch b) MAX_PROCESSING_AGE logs c bank =
    Ok (db, bank', logs', rs, c') → results_of b rs.
Proof.
  intros Hu. unfold load_execute_and_commit_transactions, load_and_execute_transactions, results_of.
  set (batch := bi_batch b).
  destruct (check_transactions _ _ _ _ _ _ _) as [crs| |] eqn:Hc; cbn [rbind]; [|done..].
  destruct (filter_executable_program_accounts _ _ _ _ _ _) as [[[crs' programs] c1]| |] eqn:Hf; cbn [rbind]; [|done..].
  set (programs' := foldl _ programs _). specialize (Hu programs').
  destruct (be_replenish_program_cache _ programs') as [loaded hit]. cbn [snd] in Hu. subst hit.
  destruct (execute_all _ _ _ _) as [[ex l1]| |] eqn:Hx; cbn [rbind]; [|done..].
  destruct (rfold _ _ _) as [logs1| |]; cbn [rbind]; [|done..].
  destruct (last_blockhash_and_lamports_per_signature _) as [last| |]; cbn [rbind]; [|done..].
  destruct (commit_transactions _ _ _ _ _ _ _ _ _ _ _ _ _) as [[[db1 bank1] rs1]| |] eqn:Hcom; cbn [rbind]; [|done..].
  intros [= _ _ _ <- _]. revert Hcom. unfold commit_transactions.
  destruct (collect_accounts_to_store _ _ _ _) as [stored| |]; cbn [rbind]; [|done..].
  destruct (update_transaction_statuses _ _ _ _ _) as [sc| |]; cbn [rbind]; [|done..].
  destruct (filter_program_errors_and_collect_fee _ _ _ _ _ _) as [[[rs2 fees] db2]| |] eqn:Hfee; cbn [rbind]; [|done..].
  cbn [fst snd]. intros [= _ _ <-]. apply fee_results in Hfee as [Hl Hp]. split; [|done]. etrans; [exact Hl|].
  apply execute_all_length in Hx. apply filter_programs_length in Hf. apply check_transactions_length in Hc.
  cbn [lo_results fst]. rewrite !length_zip_with in Hx. rewrite length_zip_with in Hc.
  rewrite length_zip_with in Hf.
  rewrite !length_zip_with, length_fmap, Hx, Hf, Hc. unfold LockResult. lia.
Qed.
Lemma first_error_first batch rs o :
  (length rs ≤ length (sanitized_txs batch))%nat → Panic ∉ rs → get_first_error batch rs = Ok o →
  default (Ok tt) (fst <$> o) = first_err rs.
Proof.
  unfold get_first_error. generalize (sanitized_txs batch) as txs. clear.
  induction rs as [|r rs IH]; intros [|tx txs] Hl Hp; cbn [length zip zip_with get_first_error_loop] in *;
    [by intros [= <-]..|lia|]. apply not_elem_of_cons in Hp as [Hr Hp]. destruct r as [[]|e|]; [apply IH; [lia|done]| |done].
  destruct (tx_signature tx); cbn [rbind]; [|done..]. by intros [= <-].
Qed.
Lemma execute_batch_results fuel d b x r rs x' :
  unlimited x → execute_batch fuel d b x = Ok (r, rs, x') → results_of b rs ∧ r = first_err rs ∧ unlimited x'.
Proof.
  intros Hu. unfold execute_batch. set (batch := bi_batch b).
  destruct (load_execute_and_commit_transactions _ _ _ _ _ _ _ _) as [[[[[db bank] logs] rs1] c]| |] eqn:Hrun; [|done..].
  destruct (get_first_error batch rs1) as [o| |] eqn:Ho; cbn [rbind]; [|done..]. intros [= <- <- <-].
  assert (results_of b rs1) as Hrs by (by eapply commit_results). split; [done|]. split; [|exact Hu].
  destruct Hrs as [Hl Hp]. eapply first_error_first; [|exact Hp|exact Ho].
  etrans; [apply Nat.eq_le_incl, Hl|]. rewrite length_zip_with. apply Nat.le_min_r.
Qed.

(** *** The pool *)
Context (fuel : nat) (pool_order : list TransactionBatchWithIndexes → list nat).
Definition outcome_of (b : TransactionBatchWithIndexes) (y : LockResult * list LockResult) : Prop :=
  results_of b y.2 ∧ y.1 = first_err y.2.
Lemma execute_in_order_results d bs order : ∀ done x done' x',
  unlimited x → execute_in_order fuel d bs order done x = Ok (done', x') →
  (∀ i y, done !! i = Some y → ∃ b, bs !! i = Some b ∧ outcome_of b y) →
  unlimited x' ∧ (∀ i y, done' !! i = Some y → ∃ b, bs !! i = Some b ∧ outcome_of b y) ∧
  ∀ i b, bs !! i = Some b → i ∈ order ∨ is_Some (done !! i) → is_Some (done' !! i).
Proof.
  induction order as [|j order IH]; intros done x done' x' Hu; cbn [execute_in_order].
  { intros [= <- <-] Hd. split_and!; [done|done|]. by intros i b _ [?%not_elem_of_nil|?]. }
  destruct (bs !! j) as [b|] eqn:Hj.
  - destruct (execute_batch fuel (d j) b x) as [[[r rs] x1]| |] eqn:Hx; cbn [rbind]; [|done..]. cbn [fst snd].
    intros Hrun Hd. destruct (execute_batch_results _ _ _ _ _ _ _ Hu Hx) as (Hrs & Hr & Hu1).
    destruct (IH _ _ _ _ Hu1 Hrun) as (Hu' & Hd' & Hall).
    { intros i y. destruct (decide (i = j)) as [->|Hne].
      - rewrite lookup_insert_eq. intros [= <-]. exists b. done.
      - rewrite lookup_insert_ne by done. apply Hd. }
    split_and!; [done|done|]. intros i b' Hb [[->|Hi]%elem_of_cons|Hi]; apply (Hall _ b' Hb).
    + right. rewrite lookup_insert_eq. eauto.
    + by left.
    + right. destruct (decide (i = j)) as [->|Hne]; [rewrite lookup_insert_eq; eauto|by rewrite lookup_insert_ne].
  - intros Hrun Hd. destruct (IH _ _ _ _ Hu Hrun Hd) as (Hu' & Hd' & Hall). split_and!; [done|done|].
    intros i b Hb [[->|Hi]%elem_of_cons|Hi]; [congruence|by apply (Hall i b Hb); left|by apply (Hall i b Hb); right].
Qed.

Lemma first_err_no_panic l : Panic ∉ l → first_err l ≠ Panic.
Proof.
  induction l as [|r l IH]; [done|]. intros [Hr Hl]%not_elem_of_cons. destruct r as [[]| |]; [by apply IH|done..].
Qed.
Lemma first_err_concat l : first_err (first_err <$> l) = first_err (concat l).
Proof.
  induction l as [|rs l IH]; [done|]. rewrite fmap_cons. cbn [concat]. cbn [first_err foldr]. fold (first_err (first_err <$> l)).
  rewrite IH. generalize (concat l) as k. intros k. clear. induction rs as [|[[]| |] rs IH]; [reflexivity|exact IH|reflexivity..].
Qed.
Lemma collected (P : TransactionBatchWithIndexes → LockResult * list LockResult → Prop) (done : gmap nat _) bs : ∀ n,
  (∀ i b, bs !! i = Some b → ∃ y, done !! (n + i)%nat = Some y ∧ P b y) →
  Forall2 P bs (omap (λ i, done !! i) (seq n (length bs))).
Proof.
  induction bs as [|b bs IH]; intros n Hd; [constructor|]. cbn [length seq omap list_omap].
  destruct (Hd 0%nat b eq_refl) as (y & Hy & Hp). rewrite Nat.add_0_r in Hy. rewrite Hy. constructor; [done|].
  apply IH. intros i b' Hb. destruct (Hd (S i) b' Hb) as (y' & Hy' & Hp'). rewrite <-Nat.add_succ_comm in Hy'. eauto.
Qed.
(** the batches are all executed, and the result is that of the first transaction that has an error *)
Lemma execute_batches_results d bs x r results x' :
  (∀ bs, pool_order bs ≡ₚ seq 0 (length bs)) → unlimited x →
  execute_batches_internal fuel pool_order d bs x = Ok (r, results, x') →
  Forall2 results_of bs results ∧ r = first_err (concat results) ∧ unlimited x'.
Proof.
  intros Hpool Hu. unfold execute_batches_internal. case_bool_decide as Hne; [done|].
  destruct (execute_in_order _ _ _ _ _ _) as [[finished x1]| |] eqn:Hrun; cbn [rbind]; [|done..]. cbn [fst snd].
  intros [= <- <- <-]. destruct (execute_in_order_results _ _ _ _ _ _ _ Hu Hrun) as (Hu' & Hd & Hall); [done|].
  assert (Forall2 outcome_of bs (omap (λ i, finished !! i) (seq 0 (length bs)))) as Hf.
  { apply collected. intros i b Hb. cbn [Nat.add]. destruct (Hall i b Hb) as [y Hy].
    - left. rewrite Hpool. apply elem_of_seq. apply lookup_lt_Some in Hb. lia.
    - exists y. split; [done|]. destruct (Hd i y Hy) as (b' & Hb' & Hout). by simplify_eq. }
  split_and!; [|..|done].
  - apply Forall2_fmap_r. eapply list.Forall2_impl; [exact Hf|]. by intros b y [? _].
  - rewrite <-first_err_concat. f_equal. clear -Hf. induction Hf as [|b y bs ys [_ Hy] _ IH]; [done|]. rewrite !fmap_cons. by f_equal.
Qed.
End execution.

Section rules.
Context `{PubkeyDisplay, Sha256, KeypairBase58, NftValueRegex,
  !Bincode UpgradeableLoaderState, !Bincode ProgramInstruction, !Bincode Versions, !Bincode SystemInstruction,
  !BorshComputeBudget}.
Context (feature_set : gset Pubkey) (thread_count lock_limit : N).
Context (fuel : nat) (draws : list ReplayEvent → nat → nat → N).
Context (pool_order : list TransactionBatchWithIndexes → list nat).
Context (lamports_per_signature : N) (now : list ReplayEvent → N).
Context (Hthreads : thread_count ≠ 0) (Hpool : ∀ bs, pool_order bs ≡ₚ seq 0 (length bs)).
Local Abbreviation TE := TransactionError.t.
Local Abbreviation calc := (λ tx, calculate_cost (E:=TE) tx feature_set).
Local Abbreviation exec_queue := (process_batches feature_set thread_count fuel draws pool_order).
Local Abbreviation one_tick := (replay_tick lamports_per_signature now).
Local Abbreviation lock := (lock_entry feature_set thread_count lock_limit fuel draws pool_order).
Local Abbreviation exec_entry :=
  (process_entry feature_set thread_count lock_limit fuel draws pool_order lamports_per_signature now).
Local Abbreviation exec_loop :=
  (process_entry_loop feature_set thread_count lock_limit fuel draws pool_order lamports_per_signature now).

(** the costs can be computed, and, if replay charges them, they fit in their order *)
Definition affords (txs : list SanitizedTransaction) (t : CostTracker) : Prop :=
  ∃ costs, rmapM calc txs = Ok costs ∧
    (apply_cost_tracker_during_replay_id ∈ feature_set → (charge_costs costs t).1 = Ok tt).

Lemma charge_costs_app l k t : charge_costs (l ++ k) t =
  match charge_costs l t with (Ok _, t) => charge_costs k t | r => r end.
Proof.
  revert t. induction l as [|c l IH]; intros t; [done|]. cbn [app charge_costs].
  destruct (try_add c t) as [[]]; [apply IH|done..].
Qed.
Lemma rmapM_app {E A B} (f : A → result E B) l k r : rmapM f (l ++ k) = Ok r →
  ∃ r1 r2, r = r1 ++ r2 ∧ rmapM f l = Ok r1 ∧ rmapM f k = Ok r2.
Proof.
  intros Hr%rmapM_Ok. apply Forall2_app_inv_l in Hr as (r1 & r2 & Hr1 & Hr2 & ->).
  exists r1, r2. split; [done|]. split; by apply rmapM_Ok_intro.
Qed.

(** *** Where replay stops *)
Definition failure {A} (o : option TE) : result TE A := match o with Some e => Err e | None => Panic end.
Lemma bind_failure {A B} (m : M ReplayState TE A) (f : A → M ReplayState TE B) s o s' :
  m s = (failure o, s') → bind m f s = (failure o, s').
Proof. intros Hm. unfold bind. rewrite Hm. by destruct o. Qed.
(** a group with an error after groups without, or a group whose execution panics in the state that was reached *)
Definition group_refused (e : TE) (evs : list ReplayEvent) : Prop :=
  ∃ evs' bs results, evs = evs' ++ [Processed bs results] ∧ Forall event_paid evs' ∧
    Forall2 results_of bs results ∧ first_err (concat results) = Err e.
Definition group_stuck (rows : list (LockResult * SanitizedTransaction * N)) (s' : ReplayState) (evs : list ReplayEvent) : Prop :=
  Forall event_paid evs ∧ ∃ bs, bs ≠ [] ∧ (evs ≫= event_rows) ++ group_rows bs `prefix_of` rows ∧
    is_ok (execute_batches_internal fuel pool_order (draws (rs_events s')) bs (rs_exec s')) = false.
Definition stop_reason (o : option TE) (rows : list (LockResult * SanitizedTransaction * N)) (s' : ReplayState)
    (evs : list ReplayEvent) : Prop :=
  match o with Some e => group_refused e evs | None => group_stuck rows s' evs end.
Record stopped (o : option TE) (s : ReplayState) (rows : list (LockResult * SanitizedTransaction * N))
    (ticks : list Hash) (s' : ReplayState) : Prop := {
  sp_events : ∃ evs, rs_events s' = rs_events s ++ evs ∧ (evs ≫= event_rows) `prefix_of` rows ∧
    (evs ≫= event_ticks) `prefix_of` ticks ∧ Forall event_apart evs ∧ stop_reason o rows s' evs;
  sp_locks : rs_locks s' = default_locks }.
Lemma group_refused_after e evs1 evs2 : Forall event_paid evs1 → group_refused e evs2 → group_refused e (evs1 ++ evs2).
Proof.
  intros Hp1 (evs' & bs & results & -> & Hp & Hrs & He). exists (evs1 ++ evs'), bs, results. rewrite app_assoc.
  split; [done|]. split; [by apply list.Forall_app|done].
Qed.
Lemma group_stuck_after rows rows' s' evs1 evs2 :
  Forall event_paid evs1 → group_stuck rows s' evs2 → (evs1 ≫= event_rows) ++ rows `prefix_of` rows' →
  group_stuck rows' s' (evs1 ++ evs2).
Proof.
  intros Hp1 (Hp & bs & Hne & Hb & Hx) Hrows. split; [by apply list.Forall_app|]. exists bs. split; [done|]. split; [|done].
  rewrite bind_app, <-app_assoc. etrans; [|exact Hrows]. by apply prefix_app.
Qed.
Lemma stop_reason_after o rows rows' s' evs1 evs2 :
  Forall event_paid evs1 → stop_reason o rows s' evs2 → (evs1 ≫= event_rows) ++ rows `prefix_of` rows' →
  stop_reason o rows' s' (evs1 ++ evs2).
Proof. destruct o; [intros ? ? _; by apply group_refused_after|apply group_stuck_after]. Qed.
Lemma stopped_rows o s rows rows' ticks ticks' s' :
  stopped o s rows ticks s' → rows `prefix_of` rows' → ticks `prefix_of` ticks' → stopped o s rows' ticks' s'.
Proof.
  intros [(evs & He & Hr & Ht & Ha & Hs) Hl] Hrows Hticks. split; [|done]. exists evs.
  split_and!; [done|by etrans|by etrans|done|]. by apply (stop_reason_after o rows rows' s' [] evs).
Qed.

(** *** The queue is executed *)
Record executed (qs : list (list SanitizedTransaction * list N)) (rest : list SanitizedTransaction)
    (s s' : ReplayState) (evs : list ReplayEvent) : Prop := {
  ex_bank : rs_bank s' = rs_bank s;
  ex_locks : rs_locks s' = rs_locks s;
  ex_events : rs_events s' = rs_events s ++ evs;
  ex_rows : (evs ≫= event_rows) = group_rows (queued <$> qs);
  ex_ticks : (evs ≫= event_ticks) = [];
  ex_affords : affords rest (rs_tracker s');
  ex_unlimited : unlimited (rs_exec s');
  ex_paid : Forall event_paid evs;
  ex_apart : Forall event_apart evs }.
Lemma process_batches_run qs rest s :
  Forall (λ q : list SanitizedTransaction * list N, length q.2 = length q.1) qs →
  affords (queue_txs qs ++ rest) (rs_tracker s) → unlimited (rs_exec s) → apart (queue_txs qs) →
  (∃ s' evs, exec_queue (queued <$> qs) s = (Ok tt, s') ∧ executed qs rest s s' evs) ∨
  ∃ o s' evs, exec_queue (queued <$> qs) s = (failure o, s') ∧ rs_locks s' = rs_locks s ∧
    rs_events s' = rs_events s ++ evs ∧ (evs ≫= event_rows) `prefix_of` group_rows (queued <$> qs) ∧
    (evs ≫= event_ticks) = [] ∧ Forall event_apart evs ∧ stop_reason o (group_rows (queued <$> qs)) s' evs.
Proof.
  intros Hl (costs & Hcosts & Hfit) Hu Hap. destruct qs as [|q qs].
  { left. exists s, []. split; [done|]. split; try done; [by rewrite app_nil_r|by exists costs]. }
  apply rmapM_app in Hcosts as (c1 & c2 & -> & Hc1 & Hc2).
  unfold Replay.process_batches. rewrite bool_decide_eq_false_2 by done.
  destruct (rebatch_batches_split feature_set thread_count (queued q) (queued <$> qs) (rs_tracker s) c1 Hthreads)
    as (bs & Hrows & Hne & Hrun); [by rewrite <-fmap_cons, queue_rows_txs|].
  rewrite fmap_cons, Hrun. rewrite <-fmap_cons in *. cbv zeta.
  set (charged := if decide _ then _ else _). assert (∃ t, charged = (Ok tt, t) ∧ affords rest t) as (t & -> & Haf).
  { subst charged. case_decide as Hf.
    - specialize (Hfit Hf). rewrite charge_costs_app in Hfit.
      destruct (charge_costs c1 (rs_tracker s)) as [[[]| |] t']; [|done..]. exists t'. split; [done|]. by exists c2.
    - exists (rs_tracker s). split; [done|]. by exists c2. }
  cbn [rmap rbind fst snd].
  assert (Hev : ∀ results, event_apart (Processed bs results))
    by (intros results; unfold event_apart; cbn [event_rows]; by rewrite Hrows, queue_rows_txs).
  destruct (execute_batches_internal _ _ _ bs _) as [[[r results] x]| |] eqn:Hx.
  2,3: right; exists None; eexists _, []; rewrite app_nil_r; split_and!; try done; [apply prefix_nil|];
    split; [done|]; exists bs; cbn [rs_events rs_exec mbind list_bind app]; by rewrite Hrows, Hx.
  destruct (execute_batches_results _ _ _ _ _ _ _ _ Hpool Hu Hx) as (Hrs & -> & Hu').
  destruct (first_err (concat results)) as [[]|e|] eqn:Hfirst.
  - left. eexists _, [Processed bs results]. split; [reflexivity|].
    split; cbn [rs_bank rs_locks rs_events rs_tracker rs_exec mbind list_bind event_rows event_ticks]; try done;
      [by rewrite app_nil_r|by repeat constructor|by repeat constructor].
  - right. exists (Some e). eexists _, [Processed bs results]. cbn [mbind list_bind event_rows event_ticks].
    rewrite app_nil_r, Hrows. split_and!; try done; [by repeat constructor|]. by exists [], bs, results.
  - exfalso. apply (first_err_no_panic (concat results)); [|done].
    intros (rs & Hin & Hrin)%list_elem_of_In%in_concat. apply list_elem_of_In in Hin, Hrin.
    apply list_elem_of_lookup in Hin as [i Hi]. by destruct (Forall2_lookup_r _ _ _ _ _ Hrs Hi) as (b & _ & _ & Hno).
Qed.
Lemma queue_run qs rest s dropped :
  Forall (λ q : list SanitizedTransaction * list N, length q.2 = length q.1) qs →
  affords (queue_txs qs ++ rest) (rs_tracker s) → unlimited (rs_exec s) → apart (queue_txs qs) →
  (∀ s', rs_locks s' = rs_locks s → rs_locks (drop_batches dropped s') = default_locks) →
  (∃ s' evs, dropping dropped (exec_queue (queued <$> qs)) s = (Ok tt, s') ∧ executed qs rest s s' evs) ∨
  ∃ o s', dropping dropped (exec_queue (queued <$> qs)) s = (failure o, s') ∧
    stopped o s (group_rows (queued <$> qs)) [] s'.
Proof.
  intros Hl Haf Hu Hap Hdrop.
  destruct (process_batches_run qs rest s Hl Haf Hu Hap) as [(s' & evs & Hrun & Hex)|(o & s' & evs & Hrun & Hlk & He & Hr & Ht & Ha & Hs)].
  - left. exists s', evs. split; [|done]. unfold dropping. by rewrite Hrun.
  - right. exists o, (drop_batches dropped s'). split; [unfold dropping; rewrite Hrun; by destruct o|].
    split; [|by apply Hdrop]. exists evs. rewrite Ht. by split_and!.
Qed.

(** the locks of the queue are all that is held *)
Record queue_inv (qs : list (list SanitizedTransaction * list N)) (s : ReplayState) : Prop := {
  qi_locks : represents (rs_locks s) (get_account_locks_unchecked <$> queue_txs qs);
  qi_indexes : Forall (λ q : list SanitizedTransaction * list N, length q.2 = length q.1) qs;
  qi_unlimited : unlimited (rs_exec s) }.
Lemma queue_apart qs s : queue_inv qs s → apart (queue_txs qs).
Proof. intros [Hr _ _]. exact (rep_compatible _ _ Hr). Qed.
Lemma queue_dropped qs s : queue_inv qs s → N.of_nat (length (queue_txs qs)) ≤ u64_max →
  ∀ s', rs_locks s' = rs_locks s → rs_locks (drop_batches (queued <$> qs) s') = default_locks.
Proof.
  intros Hq Hb s' Hs. apply represents_nil, (drop_queue qs s' []); [|cbn [length]; lia].
  rewrite Hs, app_nil_r. apply Hq.
Qed.

Lemma prepare_batch_runs txs qs s : queue_inv qs s → N.of_nat (length (queue_txs qs) + length txs) ≤ u64_max →
  ∃ l' results, prepare_batch lock_limit txs s = (Ok (mkTransactionBatch results txs true), set_rs_locks l' s) ∧
    length results = length txs ∧
    represents l' (locked_transactions txs results ++ (get_account_locks_unchecked <$> queue_txs qs)).
Proof.
  intros [Hr _ _] Hb. unfold prepare_batch, prepare_sanitized_batch, lock_accounts.
  destruct (lock_accounts_inner_spec (E:=TE) txs ((λ tx, get_account_locks tx lock_limit) <$> txs) _ _
    ltac:(apply Forall2_fmap_r, Forall_Forall2_diag, list.Forall_forall; intros tx _; apply get_account_locks_request) Hr)
    as (l' & results & -> & Hl & Hr'); [by rewrite length_fmap|].
  cbn [rbind fst snd]. rewrite batch_new_ok by done. cbn [rbind]. by exists l', results.
Qed.
Lemma prepare_batch_free txs s :
  represents (rs_locks s) [] → lockable lock_limit txs → N.of_nat (length txs) ≤ u64_max →
  ∃ l', prepare_batch lock_limit txs s =
      (Ok (mkTransactionBatch (replicate (length txs) (Ok tt)) txs true), set_rs_locks l' s) ∧
    represents l' (get_account_locks_unchecked <$> txs).
Proof.
  intros Hr Hok Hb. unfold prepare_batch, prepare_sanitized_batch.
  destruct (lock_lockable lock_limit (E:=TE) txs _ _ Hr Hok) as (l' & -> & Hr'); [set_solver|done|].
  cbn [rbind fst snd]. rewrite batch_new_ok by by rewrite length_replicate. cbn [rbind].
  exists l'. split; [done|]. by rewrite app_nil_r in Hr'.
Qed.

(** both the queue and a batch that conflicts with it are released, in any order *)
Lemma conflict_dropped txs ixs qs s results :
  N.of_nat (length (queue_txs qs) + length txs) ≤ u64_max →
  represents (rs_locks s) (locked_transactions txs results ++ (get_account_locks_unchecked <$> queue_txs qs)) →
  let b := mkBatchWithIndexes (mkTransactionBatch results txs true) ixs in
  ∀ s', rs_locks s' = rs_locks s →
    rs_locks (drop_batches (b :: (queued <$> qs)) s') = default_locks ∧
    represents (rs_locks (drop_batches ((queued <$> qs) ++ [b]) s')) [].
Proof.
  intros Hb Hr b s' Hs. pose proof (locked_transactions_length txs results) as Hll. split.
  - apply represents_nil. unfold drop_batches. cbn [rs_locks set_rs_locks foldl].
    pose proof (drop_queue qs (set_rs_locks (bank_unlock_accounts (bi_batch b) (rs_locks s')).1 s') []) as Hd.
    apply Hd; [|cbn [length]; lia]. rewrite app_nil_r. cbn [rs_locks set_rs_locks].
    apply (bank_unlock_spec _ (bi_batch b)); [rewrite Hs; exact Hr|].
    rewrite length_app, length_fmap. change (batch_held _) with (locked_transactions txs results). lia.
  - unfold drop_batches. cbn [rs_locks set_rs_locks]. rewrite foldl_app. cbn [foldl].
    apply (bank_unlock_spec _ (bi_batch b) []); rewrite app_nil_r.
    + apply (drop_queue qs s').
      * rewrite Hs. eapply represents_perm; [|exact Hr]. apply Permutation_app_comm.
      * change (batch_held _) with (locked_transactions txs results). lia.
    + change (batch_held _) with (locked_transactions txs results). lia.
Qed.

(** after the queue is executed, the entry is alone *)
Lemma lock_entry_conflict txs ixs qs rest s l1 results :
  queue_inv qs s → lockable lock_limit txs → length ixs = length txs →
  N.of_nat (length (queue_txs qs) + length txs) ≤ u64_max → affords (queue_txs qs ++ txs ++ rest) (rs_tracker s) →
  represents l1 (locked_transactions txs results ++ (get_account_locks_unchecked <$> queue_txs qs)) →
  let b := mkBatchWithIndexes (mkTransactionBatch results txs true) ixs in
  let run := (dropping (b :: (queued <$> qs)) (exec_queue (queued <$> qs)) ;;
              modify (drop_batches ((queued <$> qs) ++ [b])) ;; lock 1 txs ixs []) (set_rs_locks l1 s) in
  (∃ s1 s' evs l', run = (Ok [queued (txs, ixs)], s') ∧ executed qs (txs ++ rest) (set_rs_locks l1 s) s1 evs ∧
     s' = set_rs_locks l' s1 ∧ represents l' (get_account_locks_unchecked <$> txs)) ∨
  ∃ o s', run = (failure o, s') ∧ stopped o s (group_rows (queued <$> qs)) [] s'.
Proof.
  intros Hq Hok Hix Hb Haf Hr1 b run. unfold run. clear run.
  pose proof (conflict_dropped txs ixs qs (set_rs_locks l1 s) results Hb Hr1) as Hdrop. cbv zeta in Hdrop. fold b in Hdrop.
  destruct (queue_run qs (txs ++ rest) (set_rs_locks l1 s) (b :: (queued <$> qs)) (qi_indexes _ _ Hq) Haf (qi_unlimited _ _ Hq)
    (queue_apart _ _ Hq)) as [(s1 & evs & Hrun & Hex)|(o & s' & Hrun & Hst)].
  - intros s' Hs. by apply Hdrop.
  - left. rewrite (bind_ok _ _ _ _ _ Hrun). erewrite bind_ok; [|done]. cbn [lock_entry].
    destruct (Hdrop s1 (ex_locks _ _ _ _ _ Hex)) as [_ Hfree].
    destruct (prepare_batch_free txs _ Hfree Hok ltac:(lia)) as (l' & Hprep & Hr').
    erewrite bind_ok; [|unfold dropping; by rewrite Hprep]. cbn [lock_results]. rewrite first_err_ok_intro.
    exists s1, (set_rs_locks l' s1), evs, l'. by split_and!.
  - right. exists o, s'. split; [by apply bind_failure|]. destruct Hst as [Hev Hl]. by split.
Qed.
(** an entry ends at the end of the queue, with the batches before it executed if it conflicts with them *)
Lemma lock_entry_ok txs ixs qs rest s :
  queue_inv qs s → lockable lock_limit txs → length ixs = length txs →
  N.of_nat (length (queue_txs qs) + length txs) ≤ u64_max → affords (queue_txs qs ++ txs ++ rest) (rs_tracker s) →
  (∃ qs' evs s', lock 2 txs ixs (queued <$> qs) s = (Ok (queued <$> qs'), s') ∧
    rs_bank s' = rs_bank s ∧ rs_events s' = rs_events s ++ evs ∧ queue_inv qs' s' ∧
    (evs ≫= event_rows) ++ group_rows (queued <$> qs') = group_rows (queued <$> qs) ++ batch_rows (queued (txs, ixs)) ∧
    (evs ≫= event_ticks) = [] ∧ affords (queue_txs qs' ++ rest) (rs_tracker s') ∧ Forall event_apart evs ∧
    Forall event_paid evs ∧ (length (queue_txs qs') ≤ length (queue_txs qs) + length txs)%nat) ∨
  ∃ o s', lock 2 txs ixs (queued <$> qs) s = (failure o, s') ∧ stopped o s (group_rows (queued <$> qs)) [] s'.
Proof.
  intros Hq Hok Hix Hb Haf. cbn [lock_entry].
  destruct (prepare_batch_runs txs qs s Hq Hb) as (l1 & results & Hprep & Hlen & Hr1).
  rewrite (bind_ok _ _ _ (mkTransactionBatch results txs true) (set_rs_locks l1 s))
    by (unfold dropping; by rewrite Hprep). cbn [lock_results].
  assert (qs = [] → first_err results = Ok tt) as Hnone.
  { intros ->. destruct (prepare_batch_free txs s (qi_locks _ _ Hq) Hok) as (l' & Hprep' & _); [cbn [queue_txs length] in *; lia|].
    rewrite Hprep in Hprep'. injection Hprep' as -> _. apply first_err_ok_intro. }
  destruct (first_err results) as [[]|e|] eqn:Hfirst.
  { left. apply first_err_ok in Hfirst. rewrite Hlen in Hfirst. subst results. rewrite locked_all in Hr1.
    exists (qs ++ [(txs, ixs)]), [], (set_rs_locks l1 s). rewrite fmap_app, app_nil_r.
    assert (queue_txs (qs ++ [(txs, ixs)]) = queue_txs qs ++ txs) as Hqt.
    { unfold queue_txs. rewrite bind_app. cbn [mbind list_bind fst]. by rewrite app_nil_r. }
    rewrite Hqt. do 3 (split; [done|]). split.
    { split; [|apply list.Forall_app; split; [apply Hq|by repeat constructor]|apply Hq].
      rewrite Hqt, fmap_app. eapply represents_perm; [|exact Hr1]. apply Permutation_app_comm. }
    split_and!; [|done|by rewrite <-app_assoc|constructor|constructor|rewrite length_app; lia].
    unfold group_rows. rewrite bind_app. cbn [fmap list_fmap mbind list_bind]. by rewrite app_nil_r. }
  all: destruct qs as [|q qs]; [by specialize (Hnone eq_refl); congruence|].
  all: rewrite bool_decide_eq_false_2 by done.
  all: destruct (lock_entry_conflict txs ixs (q :: qs) rest s l1 results Hq Hok Hix Hb Haf Hr1)
      as [(s1 & s' & evs & l' & Hrun & [] & -> & Hr')|Hstop]; [left|by right].
  all: exists [(txs, ixs)], evs, (set_rs_locks l' s1); assert (queue_txs [(txs, ixs)] = txs) as Hqt by apply app_nil_r.
  all: rewrite Hqt; split; [exact Hrun|]; split; [done|]; split; [done|]; split; [split; [by rewrite Hqt|by repeat constructor|done]|].
  all: rewrite ex_rows0; split_and!; try done; [|lia].
  all: unfold group_rows at 2; cbn [fmap list_fmap mbind list_bind]; by rewrite app_nil_r.
Qed.

Lemma ticks_register ticks : ∀ s, lb_frozen (rs_bank s) = false → lb_tick_height (rs_bank s) + len ticks ≤ u64_max →
  unlimited (rs_exec s) →
  ∃ s', for_each ticks one_tick s = (Ok tt, s') ∧ rs_tracker s' = rs_tracker s ∧ rs_locks s' = rs_locks s ∧
    rs_events s' = rs_events s ++ (Ticked <$> ticks) ∧ unlimited (rs_exec s') ∧
    lb_frozen (rs_bank s') = false ∧ lb_max_tick_height (rs_bank s') = lb_max_tick_height (rs_bank s) ∧
    lb_tick_height (rs_bank s') = lb_tick_height (rs_bank s) + len ticks.
Proof.
  unfold len. induction ticks as [|h ticks IH]; intros s Hf Hm Hu; cbn [length] in *.
  { exists s. by rewrite app_nil_r, N.add_0_r. }
  cbn [for_each].
  assert (∃ x, one_tick h s = (Ok tt, mkReplayState (ticked h (rs_bank s)) (rs_tracker s) (rs_locks s) x (rs_events s ++ [Ticked h])) ∧
    unlimited x) as (x & Htick & Hx).
  { unfold replay_tick. rewrite register_tick_ok by done. eexists. split; [reflexivity|]. by destruct (is_block_boundary _ _). }
  rewrite (bind_ok _ _ _ _ _ Htick). set (s1 := mkReplayState _ _ _ _ _).
  assert (lb_tick_height (ticked h (rs_bank s)) = lb_tick_height (rs_bank s) + 1) as Hh
    by (unfold ticked; cbn; apply wrapping_add_small; lia).
  destruct (IH s1) as (s' & Hrun & Htr & Hlk & Hev & Hu' & Hb & Hmax & Hheight).
  - exact Hf.
  - cbn [s1 rs_bank]. lia.
  - exact Hx.
  - exists s'. cbn [s1 rs_bank rs_tracker rs_locks rs_events] in *. rewrite Hev, <-app_assoc, fmap_cons.
    split_and!; try done. lia.
Qed.
Lemma ticked_events ticks : ((Ticked <$> ticks) ≫= event_rows) = [] ∧ ((Ticked <$> ticks) ≫= event_ticks) = ticks ∧
  Forall event_apart (Ticked <$> ticks) ∧ Forall event_paid (Ticked <$> ticks).
Proof.
  induction ticks as [|h ticks (Hr & Ht & Ha & Hp)]; [done|]. rewrite fmap_cons, !bind_cons, Hr, Ht.
  split_and!; [done|done| |by constructor]. constructor; [|done]. intros t u rest Hp'. by apply Permutation_nil_cons in Hp'.
Qed.

(** ** Progress from one queue to another *)
Record progress (rows : list (LockResult * SanitizedTransaction * N)) (new : list Hash)
    (rest : list SanitizedTransaction) (qs : list (list SanitizedTransaction * list N)) (ticks : list Hash)
    (s : ReplayState) (qs' : list (list SanitizedTransaction * list N)) (ticks' : list Hash) (s' : ReplayState) : Prop := {
  pg_events : ∃ evs, rs_events s' = rs_events s ++ evs ∧
    (evs ≫= event_rows) ++ group_rows (queued <$> qs') = group_rows (queued <$> qs) ++ rows ∧
    (evs ≫= event_ticks) ++ ticks' = ticks ++ new ∧ Forall event_apart evs ∧ Forall event_paid evs;
  pg_inv : queue_inv qs' s';
  pg_frozen : lb_frozen (rs_bank s') = false;
  pg_max : lb_max_tick_height (rs_bank s') = lb_max_tick_height (rs_bank s);
  pg_height : lb_tick_height (rs_bank s') + len ticks' = lb_tick_height (rs_bank s) + len ticks + len new;
  pg_affords : affords (queue_txs qs' ++ rest) (rs_tracker s');
  pg_length : (length (queue_txs qs') ≤ length (queue_txs qs) + length rows)%nat }.

Lemma progress_trans rows1 rows2 new1 new2 rest1 rest2 qs ticks s qs1 ticks1 s1 qs2 ticks2 s2 :
  progress rows1 new1 rest1 qs ticks s qs1 ticks1 s1 → progress rows2 new2 rest2 qs1 ticks1 s1 qs2 ticks2 s2 →
  progress (rows1 ++ rows2) (new1 ++ new2) rest2 qs ticks s qs2 ticks2 s2.
Proof.
  intros [(ev1 & He1 & Hr1 & Ht1 & Ha1 & Hp1) _ _ Hm1 Hh1 _ Hl1] [(ev2 & He2 & Hr2 & Ht2 & Ha2 & Hp2) Hi Hf Hm2 Hh2 Haf Hl2].
  split; try done.
  - exists (ev1 ++ ev2). rewrite He2, He1, <-app_assoc. split; [done|]. rewrite !bind_app.
    split; [by rewrite <-app_assoc, Hr2, !app_assoc, Hr1|]. split; [by rewrite <-app_assoc, Ht2, !app_assoc, Ht1|].
    split; by apply list.Forall_app.
  - congruence.
  - unfold len in *. rewrite length_app, Nat2N.inj_add. lia.
  - rewrite length_app. lia.
Qed.
Lemma progress_stopped o rows1 rows2 new1 new2 stop2 rest1 qs ticks s qs1 ticks1 s1 s' :
  progress rows1 new1 rest1 qs ticks s qs1 ticks1 s1 → stopped o s1 (group_rows (queued <$> qs1) ++ rows2) stop2 s' →
  stop2 `prefix_of` ticks1 ++ new2 →
  stopped o s (group_rows (queued <$> qs) ++ rows1 ++ rows2) (ticks ++ new1 ++ new2) s'.
Proof.
  intros [(ev1 & He1 & Hr1 & Ht1 & Ha1 & Hp1) _ _ _ _ _ _] [(ev2 & He2 & Hr2 & Ht2 & Ha2 & Hs2) Hl] Hstop. split; [|done].
  exists (ev1 ++ ev2). rewrite He2, He1, <-app_assoc, !bind_app. split; [done|]. split_and!.
  - rewrite app_assoc, <-Hr1, <-app_assoc. by apply prefix_app.
  - rewrite app_assoc, <-Ht1, <-app_assoc. apply prefix_app. by etrans.
  - by apply list.Forall_app.
  - eapply stop_reason_after; [done|exact Hs2|]. by rewrite app_assoc, Hr1, <-app_assoc.
Qed.

(** what is asked of an entry *)
Definition entry_ok (e : ReplayEntry) : Prop :=
  lockable lock_limit (entry_txs e) ∧ re_starting_index e + len (entry_txs e) ≤ u64_max.
Lemma entry_indexes_length start txs : start + len txs ≤ u64_max → length (entry_indexes start txs) = length txs.
Proof.
  intros Hm. unfold entry_indexes. rewrite length_fmap, length_seq, saturating_fits by done. unfold len in *. lia.
Qed.
Lemma entry_rows_length e : entry_ok e → length (entry_rows e) = length (entry_txs e).
Proof.
  intros [_ Hm]. unfold entry_rows, entry_txs in *. destruct (re_entry e) as [txs|h]; [|done].
  rewrite !length_zip_with, length_replicate, entry_indexes_length by done. lia.
Qed.
Lemma entries_rows_length entries : Forall entry_ok entries →
  length (entries ≫= entry_rows) = length (entries ≫= entry_txs).
Proof.
  induction 1 as [|e entries He _ IH]; [done|]. rewrite !bind_cons, !length_app, entry_rows_length by done. lia.
Qed.

(** the tick that ends the block: the queue is executed before it *)
Lemma boundary_ok h qs ticks rest s :
  queue_inv qs s → lb_frozen (rs_bank s) = false → N.of_nat (length (queue_txs qs)) ≤ u64_max →
  lb_tick_height (rs_bank s) + len (ticks ++ [h]) ≤ u64_max → affords (queue_txs qs ++ rest) (rs_tracker s) →
  let run := (dropping (queued <$> qs) (exec_queue (queued <$> qs)) ;; modify (drop_batches (queued <$> qs)) ;;
              for_each (ticks ++ [h]) one_tick ;;
              ret (@nil TransactionBatchWithIndexes, @nil Hash)) s in
  (∃ s', run = (Ok ([], []), s') ∧ progress [] [h] rest qs ticks s [] [] s') ∨
  ∃ o s', run = (failure o, s') ∧ stopped o s (group_rows (queued <$> qs)) [] s'.
Proof.
  intros Hq Hf Hb Hh Haf run. unfold run. clear run.
  destruct (queue_run qs rest s (queued <$> qs) (qi_indexes _ _ Hq) Haf (qi_unlimited _ _ Hq) (queue_apart _ _ Hq)
    (queue_dropped _ _ Hq Hb)) as [(s1 & evs & Hrun & Hex)|(o & s' & Hrun & Hst)];
    [left|right; exists o, s'; split; [by apply bind_failure|done]].
  destruct Hex as [Hbank Hlocks Hev Hrows Hticks Haf' Hu Hpaid Hap].
  rewrite (bind_ok _ _ _ _ _ Hrun). erewrite bind_ok; [|done].
  set (s2 := drop_batches _ _). destruct (ticks_register (ticks ++ [h]) s2)
    as (s' & Htick & Htr & Hlk & He & Hu' & Hbf & Hbm & Hbh).
  { cbn [s2 rs_bank drop_batches set_rs_locks]. by rewrite Hbank. }
  { cbn [s2 rs_bank drop_batches set_rs_locks]. by rewrite Hbank. } { exact Hu. }
  erewrite bind_ok; [|exact Htick]. exists s'. split; [reflexivity|].
  destruct (ticked_events (ticks ++ [h])) as (Hr1 & Hr2 & Hr3 & Hr4). cbn [s2 rs_bank drop_batches set_rs_locks] in Hbm, Hbh.
  rewrite Hbank in Hbm, Hbh. split; try done.
  - exists (evs ++ (Ticked <$> ticks ++ [h])). cbn [s2 rs_events drop_batches set_rs_locks] in He.
    rewrite He, Hev, <-app_assoc. split; [done|]. rewrite !bind_app, Hr1, Hr2, Hrows, Hticks, !app_nil_r.
    split_and!; [done|done|by apply list.Forall_app|by apply list.Forall_app].
  - split; [|constructor|done]. rewrite Hlk. subst s2.
    rewrite (queue_dropped qs s Hq Hb s1 Hlocks). apply represents_empty.
  - rewrite Hbh. change (len []) with 0. unfold len. rewrite length_app. cbn [length]. lia.
  - rewrite Htr. exact Haf'.
  - cbn. lia.
Qed.

Lemma process_entry_ok e qs ticks rest s :
  queue_inv qs s → lb_frozen (rs_bank s) = false → entry_ok e →
  N.of_nat (length (queue_txs qs) + length (entry_txs e)) ≤ u64_max →
  lb_tick_height (rs_bank s) + len ticks + len (entry_ticks e) ≤ u64_max →
  affords (queue_txs qs ++ entry_txs e ++ rest) (rs_tracker s) →
  (∃ qs' ticks' s', exec_entry e (queued <$> qs, ticks) s = (Ok (queued <$> qs', ticks'), s') ∧
    progress (entry_rows e) (entry_ticks e) rest qs ticks s qs' ticks' s' ∧
    (entry_ticks e ≠ [] → lb_tick_height (rs_bank s) + len ticks + 1 = lb_max_tick_height (rs_bank s) →
       qs' = [] ∧ ticks' = [])) ∨
  ∃ o s', exec_entry e (queued <$> qs, ticks) s = (failure o, s') ∧
    stopped o s (group_rows (queued <$> qs) ++ entry_rows e) [] s'.
Proof.
  intros Hq Hf [Hok Hm] Hb Hh Haf. unfold Replay.process_entry, entry_txs, entry_rows, entry_ticks in *.
  destruct (re_entry e) as [txs|h].
  - pose proof (entry_indexes_length _ _ Hm) as Hix.
    destruct (lock_entry_ok txs _ qs rest s Hq Hok Hix Hb Haf)
      as [(qs' & evs & s' & Hrun & Hbank & He & Hq' & Hrows & Ht & Haf' & Hap & Hpd & Hlen)|(o & s' & Hrun & Hst)].
    2:{ right. exists o, s'. split; [by apply bind_failure|]. eapply stopped_rows; [exact Hst|by apply prefix_app_r|done]. }
    left. erewrite bind_ok; [|exact Hrun]. eexists qs', ticks, _. split; [reflexivity|]. split; [|done].
    split; rewrite ?Hbank; try done.
    + exists evs. split; [done|]. split; [exact Hrows|]. split; [by rewrite Ht, app_nil_r|done].
    + change (len []) with 0. lia.
    + rewrite queued_rows in Hrows. cbn [fst snd] in Hrows.
      rewrite !length_zip_with, length_replicate, Hix. lia.
  - erewrite bind_ok; [|done]. assert (len (ticks ++ [h]) = len ticks + 1) as Hlen
      by (unfold len; rewrite length_app, Nat2N.inj_add; done).
    change (len [h]) with 1 in Hh. rewrite Hlen, wrapping_add_small by lia. unfold is_block_boundary.
    destruct (N.eqb_spec (lb_tick_height (rs_bank s) + (len ticks + 1)) (lb_max_tick_height (rs_bank s))) as [Hb'|Hb'].
    2:{ left. exists qs, (ticks ++ [h]), s. split; [done|]. split; [|lia]. split; try done.
        - exists []. cbn. by rewrite !app_nil_r.
        - change (len [h]) with 1. lia.
        - cbn. lia. }
    destruct (boundary_ok h qs ticks rest s Hq Hf) as [(s' & Hrun & Hp)|(o & s' & Hrun & Hst)]; [lia|lia|exact Haf|..].
    + left. exists [], [], s'. split; [exact Hrun|]. by split.
    + right. exists o, s'. rewrite app_nil_r. by split.
Qed.

Lemma process_loop_ok entries : ∀ qs ticks rest s,
  queue_inv qs s → lb_frozen (rs_bank s) = false → Forall entry_ok entries →
  N.of_nat (length (queue_txs qs) + length (entries ≫= entry_txs)) ≤ u64_max →
  lb_tick_height (rs_bank s) + len ticks + len (entries ≫= entry_ticks) ≤ u64_max →
  affords (queue_txs qs ++ (entries ≫= entry_txs) ++ rest) (rs_tracker s) →
  (∃ qs' ticks' s', exec_loop entries (queued <$> qs, ticks) s = (Ok (queued <$> qs', ticks'), s') ∧
    progress (entries ≫= entry_rows) (entries ≫= entry_ticks) rest qs ticks s qs' ticks' s') ∨
  ∃ o s', exec_loop entries (queued <$> qs, ticks) s = (failure o, s') ∧
    stopped o s (group_rows (queued <$> qs) ++ (entries ≫= entry_rows)) (ticks ++ (entries ≫= entry_ticks)) s'.
Proof.
  induction entries as [|e entries IH]; intros qs ticks rest s Hq Hf Hok Hb Hh Haf.
  { left. exists qs, ticks, s. split; [done|]. split; try done.
    - exists []. cbn. by rewrite !app_nil_r.
    - change (len ([] ≫= entry_ticks)) with 0. lia.
    - cbn [mbind list_bind length]. lia. }
  rewrite !bind_cons in *. apply list.Forall_cons in Hok as [He Hok]. unfold len in Hh. rewrite !length_app in *.
  destruct (process_entry_ok e qs ticks ((entries ≫= entry_txs) ++ rest) s Hq Hf He)
    as [(qs1 & ticks1 & s1 & Hrun & Hp & _)|(o & s' & Hrun & Hst)].
  { lia. } { unfold len. lia. } { by rewrite <-app_assoc in Haf. }
  2:{ right. exists o, s'. cbn [process_entry_loop]. split; [by apply bind_failure|].
      eapply stopped_rows; [exact Hst|rewrite app_assoc; by apply prefix_app_r|apply prefix_nil]. }
  pose proof Hp as [_ Hq1 Hf1 _ Hh1 Haf1 Hl1]. rewrite entry_rows_length in Hl1 by done.
  cbn [process_entry_loop]. rewrite (bind_ok _ _ _ _ _ Hrun).
  destruct (IH qs1 ticks1 rest s1 Hq1 Hf1 Hok) as [(qs' & ticks' & s' & Hrun' & Hp')|(o & s' & Hrun' & Hst)].
  { lia. } { rewrite Hh1. unfold len. lia. } { done. }
  - left. exists qs', ticks', s'. split; [done|]. by eapply progress_trans.
  - right. exists o, s'. split; [done|]. by eapply progress_stopped.
Qed.
Lemma process_loop_app l k x s : exec_loop (l ++ k) x s = bind (exec_loop l x) (exec_loop k) s.
Proof.
  revert x s. induction l as [|e l IH]; intros x s; [done|]. cbn [app process_entry_loop]. rewrite bind_assoc.
  unfold bind at 1 2. destruct (Replay.process_entry _ _ _ _ _ _ _ _ e x s) as [[]]; [apply IH|done..].
Qed.

(** ** The end of replay *)
Record ended (rows : list (LockResult * SanitizedTransaction * N)) (ticks : list Hash) (s : ReplayState)
    (r : result TE unit) (s' : ReplayState) (evs : list ReplayEvent) : Prop := {
  en_events : rs_events s' = rs_events s ++ evs;
  en_rows : (evs ≫= event_rows) `prefix_of` rows;
  en_ticks : (evs ≫= event_ticks) `prefix_of` ticks;
  en_apart : Forall event_apart evs;
  en_locks : rs_locks s' = default_locks;
  en_result :
    match r with
    | Ok _ => (evs ≫= event_rows) = rows ∧ (evs ≫= event_ticks) = ticks ∧ Forall event_paid evs ∧
        lb_tick_height (rs_bank s') = lb_tick_height (rs_bank s) + len ticks
    | Err e => group_refused e evs
    | Panic => group_stuck rows s' evs
    end }.
Lemma stopped_ended o s rows ticks s' : stopped o s rows ticks s' → ∃ evs, ended rows ticks s (failure o) s' evs.
Proof. intros [(evs & He & Hr & Ht & Ha & Hs) Hl]. exists evs. split; try done. by destruct o. Qed.
Lemma progress_ended rows1 rows2 new1 new2 rest qs ticks s qs1 ticks1 s1 r s' evs2 :
  progress rows1 new1 rest qs ticks s qs1 ticks1 s1 →
  ended (group_rows (queued <$> qs1) ++ rows2) (ticks1 ++ new2) s1 r s' evs2 →
  ∃ evs1, rs_events s1 = rs_events s ++ evs1 ∧
    ended (group_rows (queued <$> qs) ++ rows1 ++ rows2) (ticks ++ new1 ++ new2) s r s' (evs1 ++ evs2).
Proof.
  intros [(ev1 & He1 & Hr1 & Ht1 & Ha1 & Hp1) _ _ _ Hh _ _] [He2 Hr2 Ht2 Ha2 Hl2 Hres]. exists ev1. split; [done|].
  split; rewrite ?bind_app, ?app_assoc, <-?Hr1, <-?Ht1, <-?app_assoc; try done.
  - by rewrite He2, He1, app_assoc.
  - by apply prefix_app.
  - by apply prefix_app.
  - by apply list.Forall_app.
  - destruct r as [u|e|]; [|by apply group_refused_after|].
    2:{ eapply group_stuck_after; [done|exact Hres|]. by rewrite app_assoc. }
    destruct Hres as (Hr & Ht & Hp & Hb). rewrite Hr, Ht. split_and!; [done|done|by apply list.Forall_app|].
    unfold len in *. rewrite !length_app in *. apply (f_equal length) in Ht1. rewrite !length_app in Ht1. lia.
Qed.
Lemma finish_ok qs ticks s :
  queue_inv qs s → lb_frozen (rs_bank s) = false → N.of_nat (length (queue_txs qs)) ≤ u64_max →
  lb_tick_height (rs_bank s) + len ticks ≤ u64_max → affords (queue_txs qs) (rs_tracker s) →
  ∃ r s' evs, (dropping (queued <$> qs) (exec_queue (queued <$> qs)) ;;
               dropping (queued <$> qs) (for_each ticks one_tick) ;;
               modify (drop_batches (queued <$> qs))) s = (r, s') ∧
    ended (group_rows (queued <$> qs)) ticks s r s' evs.
Proof.
  intros Hq Hf Hb Hh Haf.
  destruct (queue_run qs [] s (queued <$> qs)) as [(s1 & evs & Hrun & Hex)|(o & s' & Hrun & Hst)];
    [apply Hq|by rewrite app_nil_r|apply Hq|by eapply queue_apart|by apply queue_dropped|..].
  2:{ destruct (stopped_ended o s (group_rows (queued <$> qs)) ticks s') as [evs Hend].
      { eapply stopped_rows; [exact Hst|done|apply prefix_nil]. }
      exists (failure o), s', evs. split; [by apply bind_failure|done]. }
  destruct Hex as [Hbank Hlocks Hev Hrows Hticks _ Hu Hpaid Hap]. rewrite (bind_ok _ _ _ _ _ Hrun).
  destruct (ticks_register ticks s1) as (s2 & Htick & _ & Hlk & He & _ & _ & _ & Hbh); [by rewrite Hbank..|done|].
  erewrite bind_ok; [|unfold dropping; by rewrite Htick].
  destruct (ticked_events ticks) as (Hr1 & Hr2 & Hr3 & Hr4).
  exists (Ok tt), (drop_batches (queued <$> qs) s2), (evs ++ (Ticked <$> ticks)). split; [done|].
  assert (Hr : ((evs ++ (Ticked <$> ticks)) ≫= event_rows) = group_rows (queued <$> qs))
    by (rewrite bind_app, Hr1, app_nil_r; done).
  assert (Ht : ((evs ++ (Ticked <$> ticks)) ≫= event_ticks) = ticks) by (rewrite bind_app, Hr2, Hticks; done).
  split; rewrite ?Hr, ?Ht; try done.
  - cbn [rs_events drop_batches set_rs_locks]. by rewrite He, Hev, app_assoc.
  - by apply list.Forall_app.
  - apply (queue_dropped qs s Hq Hb). congruence.
  - split_and!; [done|done|by apply list.Forall_app|]. cbn [rs_bank drop_batches set_rs_locks]. by rewrite Hbh, Hbank.
Qed.

(** [entries] can be replayed from [s]: nothing is locked, the transactions of an entry can be locked together,
    and the costs of all transactions fit the limits of the block, if replay charges them *)
Record replayable (entries : list ReplayEntry) (s : ReplayState) : Prop := {
  rp_locks : rs_locks s = default_locks;
  rp_frozen : lb_frozen (rs_bank s) = false;
  rp_unlimited : unlimited (rs_exec s);
  rp_entries : Forall entry_ok entries;
  rp_count : len (entries ≫= entry_txs) ≤ u64_max;
  rp_ticks : lb_tick_height (rs_bank s) + len (entries ≫= entry_ticks) ≤ u64_max;
  rp_costs : affords (entries ≫= entry_txs) (rs_tracker s) }.

Lemma replay_from entries qs ticks s :
  queue_inv qs s → lb_frozen (rs_bank s) = false → Forall entry_ok entries →
  N.of_nat (length (queue_txs qs) + length (entries ≫= entry_txs)) ≤ u64_max →
  lb_tick_height (rs_bank s) + len ticks + len (entries ≫= entry_ticks) ≤ u64_max →
  affords (queue_txs qs ++ (entries ≫= entry_txs)) (rs_tracker s) →
  ∃ r s' evs, (x <- exec_loop entries (queued <$> qs, ticks) ;;
               dropping x.1 (exec_queue x.1) ;; dropping x.1 (for_each x.2 one_tick) ;;
               modify (drop_batches x.1)) s = (r, s') ∧
    ended (group_rows (queued <$> qs) ++ (entries ≫= entry_rows)) (ticks ++ (entries ≫= entry_ticks)) s r s' evs.
Proof.
  intros Hq Hf Hok Hb Hh Haf.
  destruct (process_loop_ok entries qs ticks [] s Hq Hf Hok Hb Hh)
    as [(qs1 & ticks1 & s1 & Hrun & Hp)|(o & s' & Hrun & Hst)]; [by rewrite app_nil_r|..].
  2:{ destruct (stopped_ended _ _ _ _ _ Hst) as [evs Hend]. exists (failure o), s', evs. split; [by apply bind_failure|done]. }
  pose proof Hp as [_ Hq1 Hf1 _ Hh1 Haf1 Hl1]. rewrite app_nil_r in Haf1. rewrite entries_rows_length in Hl1 by done.
  rewrite (bind_ok _ _ _ _ _ Hrun). cbn [fst snd].
  destruct (finish_ok qs1 ticks1 s1 Hq1 Hf1) as (r & s' & evs2 & Hfin & Hend); [lia|lia|done|].
  destruct (progress_ended (entries ≫= entry_rows) [] (entries ≫= entry_ticks) [] [] qs ticks s qs1 ticks1 s1 r s' evs2 Hp)
    as (evs1 & _ & Hend'); [by rewrite !app_nil_r|]. rewrite !app_nil_r in Hend'. by exists r, s', (evs1 ++ evs2).
Qed.

(** the tick that ends the block comes after the transactions before it, or not at all *)
Lemma boundary_after pre i hash post s r s' evs :
  replayable (pre ++ mkReplayEntry (EntryTick hash) i :: post) s →
  lb_tick_height (rs_bank s) + len (pre ≫= entry_ticks) + 1 = lb_max_tick_height (rs_bank s) →
  process_entries feature_set thread_count lock_limit fuel draws pool_order lamports_per_signature now
    (pre ++ mkReplayEntry (EntryTick hash) i :: post) s = (r, s') → rs_events s' = rs_events s ++ evs →
  (∃ evs1 evs2, evs = evs1 ++ evs2 ∧ (evs1 ≫= event_rows) = (pre ≫= entry_rows) ∧
    (evs1 ≫= event_ticks) = (pre ≫= entry_ticks) ++ [hash]) ∨
  r ≠ Ok tt ∧ (evs ≫= event_ticks) `prefix_of` (pre ≫= entry_ticks).
Proof.
  intros [Hl Hf Hu Hok Hc Ht Haf] Hbound Hrun He. set (e := mkReplayEntry (EntryTick hash) i) in *.
  assert (queue_inv [] s) as Hq by (split; [rewrite Hl; apply represents_empty|constructor|done]).
  assert (Hstop : ∀ o s0 rows, exec_loop (pre ++ e :: post) ([], []) s = (failure o, s0) →
    stopped o s rows (pre ≫= entry_ticks) s0 → r ≠ Ok tt ∧ (evs ≫= event_ticks) `prefix_of` (pre ≫= entry_ticks)).
  { intros o s0 rows Hrun0 [(evs0 & He0 & _ & Hp & _) _]. unfold process_entries in Hrun.
    rewrite (bind_failure _ _ _ _ _ Hrun0) in Hrun. injection Hrun as <- <-. split; [by destruct o|]. rewrite He in He0. apply app_inv_head in He0. by subst evs0. }
  unfold process_entries in Hrun. rewrite !bind_app, !bind_cons in *.
  unfold len in Hc, Ht. rewrite !length_app in Hc, Ht. cbn [app] in Haf.
  apply list.Forall_app in Hok as [Hpre [He0 Hpost]%list.Forall_cons].
  destruct (process_loop_ok pre [] [] (post ≫= entry_txs) s Hq Hf Hpre)
    as [(qs1 & ticks1 & s1 & Hrun1 & Hp1)|(o & s0 & Hrun1 & Hst)].
  { cbn [queue_txs mbind list_bind length]. lia. } { unfold len. cbn [length]. lia. } { exact Haf. }
  2:{ right. eapply Hstop; [|exact Hst]. rewrite process_loop_app. by apply bind_failure. }
  pose proof Hp1 as [_ Hq1 Hf1 Hm1 Hh1 Haf1 Hl1]. rewrite entries_rows_length in Hl1 by done.
  change (len (A:=Hash) []) with 0 in Hh1. cbn [queue_txs mbind list_bind length] in Hl1.
  destruct (process_entry_ok e qs1 ticks1 (post ≫= entry_txs) s1 Hq1 Hf1 He0)
    as [(qs2 & ticks2 & s2 & Hrun2 & Hp2 & Hend)|(o & s0 & Hrun2 & Hst)].
  { change (entry_txs e) with (@nil SanitizedTransaction). cbn [length]. lia. }
  { rewrite Hh1. change (entry_ticks e) with [hash] in *. unfold len. cbn [length] in *. lia. } { exact Haf1. }
  2:{ right. eapply (Hstop o s0).
      - rewrite process_loop_app, (bind_ok _ _ _ _ _ Hrun1). cbn [process_entry_loop].
        by apply bind_failure.
      - pose proof (progress_stopped o _ (entry_rows e) _ [] [] _ _ _ _ _ _ _ _ Hp1 Hst (prefix_nil _)) as Hs.
        rewrite !app_nil_r in Hs. exact Hs. }
  left. destruct Hend as [-> ->]; [done|rewrite Hh1, Hm1; lia|].
  pose proof (progress_trans _ _ _ _ _ _ _ _ _ _ _ _ _ _ _ Hp1 Hp2) as [(evs1 & He1 & Hr1 & Ht1 & _) Hq2 Hf2 _ Hh2 Haf2 _].
  destruct (replay_from post [] [] s2 Hq2 Hf2 Hpost) as (r2 & s'' & evs2 & Hrun' & Hend2).
  { cbn [queue_txs mbind list_bind length]. lia. }
  { rewrite Hh2. change (entry_ticks e) with [hash] in *. unfold len. rewrite !length_app. cbn [length] in *. lia. }
  { exact Haf2. }
  assert (s'' = s') as ->.
  { assert (exec_loop (pre ++ e :: post) ([], []) s = exec_loop post ([], []) s2) as Hloop.
    { rewrite process_loop_app, (bind_ok _ _ _ _ _ Hrun1). cbn [process_entry_loop]. exact (bind_ok _ _ _ _ _ Hrun2). }
    change (queued <$> []) with (@nil TransactionBatchWithIndexes) in Hrun'.
    unfold bind at 1 in Hrun. unfold bind at 1 in Hrun'. rewrite Hloop, Hrun' in Hrun. by injection Hrun. }
  exists evs1, evs2. cbn [fmap list_fmap group_rows mbind list_bind app] in Hr1, Ht1. rewrite app_nil_r in Hr1, Ht1.
  change (entry_rows e) with (@nil (LockResult * SanitizedTransaction * N)) in Hr1. rewrite app_nil_r in Hr1.
  split; [|split; [exact Hr1|exact Ht1]].
  apply (app_inv_head (rs_events s)). by rewrite <-He, (en_events _ _ _ _ _ _ Hend2), He1, <-app_assoc.
Qed.

(** C23: replay keeps the order of a block.  From a bank on which nothing is locked, take entries
    whose transactions can be locked together and whose costs fit the limits of the block.  Then
    the transactions are executed once, in the order of the entries and with their
    indexes, in groups in which no transaction writes what another touches; the ticks are registered in
    order, the one that ends the block after exactly the transactions before it, or not at all;
    and nothing stays locked.  Replay succeeds only when it went through all entries and every
    transaction was executed and paid its fee; an error is that of the first
    transaction, in the group that was executed last, that was not ([group_refused]); and it panics only
    where the execution of the next group does, in the state that was reached ([group_stuck]).  Programs are
    loaded without a limit, as replay asks, and the thread pool takes every batch of a
    group once, in any order. *)
Theorem replay_in_order entries s :
  replayable entries s →
  ∃ r s' evs,
    process_entries feature_set thread_count lock_limit fuel draws pool_order lamports_per_signature now entries s = (r, s') ∧
    rs_events s' = rs_events s ++ evs ∧
    (evs ≫= event_rows) `prefix_of` (entries ≫= entry_rows) ∧ (evs ≫= event_ticks) `prefix_of` (entries ≫= entry_ticks) ∧
    Forall event_apart evs ∧ rs_locks s' = default_locks ∧
    (∀ pre i hash post, entries = pre ++ mkReplayEntry (EntryTick hash) i :: post →
      lb_tick_height (rs_bank s) + len (pre ≫= entry_ticks) + 1 = lb_max_tick_height (rs_bank s) →
      (∃ evs1 evs2, evs = evs1 ++ evs2 ∧ (evs1 ≫= event_rows) = (pre ≫= entry_rows) ∧
        (evs1 ≫= event_ticks) = (pre ≫= entry_ticks) ++ [hash]) ∨
      r ≠ Ok tt ∧ (evs ≫= event_ticks) `prefix_of` (pre ≫= entry_ticks)) ∧
    match r with
    | Ok _ => (evs ≫= event_rows) = (entries ≫= entry_rows) ∧ (evs ≫= event_ticks) = (entries ≫= entry_ticks) ∧
        Forall event_paid evs ∧ lb_tick_height (rs_bank s') = lb_tick_height (rs_bank s) + len (entries ≫= entry_ticks)
    | Err e => group_refused e evs
    | Panic => group_stuck (entries ≫= entry_rows) s' evs
    end.
Proof.
  intros Hrep. pose proof Hrep as [Hl Hf Hu Hok Hc Ht Haf].
  assert (queue_inv [] s) as Hq by (split; [rewrite Hl; apply represents_empty|constructor|done]).
  destruct (replay_from entries [] [] s Hq Hf Hok) as (r & s' & evs & Hrun & []).
  { unfold len in Hc. cbn [queue_txs mbind list_bind length]. lia. } { change (len []) with 0. lia. } { done. }
  exists r, s', evs. split; [exact Hrun|]. split_and!; try done.
  intros pre i hash post -> Hbound. by eapply boundary_after.
Qed.
End rules.

(** ** An example: three entries and two ticks, the last of which ends the block *)
Import Codec.Bincodes Codec.StandIns BankRules.Matchers.
#[local] Existing Instance no_compute_budget.

Definition replay_bank : LeaderBank := mkLeaderBank 9 2 4 None (mkHash [1]) 2 false.
Definition replay_db : gmap Pubkey AccountSharedData := <[pubkey_of_N 7 := user_account 70000000]> batch_db.
Definition replay_exec : ExecutionState :=
  mkExecutionState (with_accounts (λ _, replay_db) batch_env) batch_cache batch_bank batch_logs.
Definition replay_start : ReplayState :=
  mkReplayState replay_bank tracker_default default_locks replay_exec [].
Definition replay_features : gset Pubkey := {[apply_cost_tracker_during_replay_id]}.
Definition replay_entries : list ReplayEntry :=
  [mkReplayEntry (EntryTransactions [batch_tx 1 2 (mkHash [1]) [batch_transfer 5];
                                     batch_tx 3 4 (mkHash [1]) [batch_transfer 90000000]]) 0;
   mkReplayEntry (EntryTransactions [batch_tx 5 6 batch_nonce_hash [batch_advance; batch_transfer 90000000]]) 2;
   mkReplayEntry (EntryTick (mkHash [8])) 3;
   mkReplayEntry (EntryTransactions [batch_tx 7 2 (mkHash [1]) [batch_transfer 6]]) 3;
   mkReplayEntry (EntryTick (mkHash [9])) 4].
(** a pool that takes the last batch first *)
Definition replay_order (bs : list TransactionBatchWithIndexes) : list nat := reverse (seq 0 (length bs)).
Definition replay_draws (evs : list ReplayEvent) (i n : nat) : N := 5 + N.of_nat (length evs + i + n).
Definition replay_run (entries : list ReplayEntry) : result TransactionError.t unit * ReplayState :=
  process_entries replay_features 2 128 2 replay_draws replay_order 5000 (λ _, 0) entries replay_start.
Definition affordsb (fs : gset Pubkey) (txs : list SanitizedTransaction) (t : CostTracker) : bool :=
  match rmapM (λ tx, calculate_cost (E:=TransactionError.t) tx fs) txs with
  | Ok costs => is_ok (charge_costs costs t).1
  | _ => false
  end.
Lemma affordsb_spec fs txs t : affordsb fs txs t = true → affords fs txs t.
Proof.
  unfold affordsb, affords. destruct (rmapM _ txs) as [costs| |]; [|done..]. intros Hc. exists costs.
  split; [done|]. by destruct (charge_costs costs t).1 as [[]| |].
Qed.

Lemma apart_short tx : apart [tx].
Proof. intros t u rest Hp. apply Permutation_length in Hp. simpl in Hp. lia. Qed.
Lemma apart_pair tx tx' :
  compatible (get_account_locks_unchecked tx) (get_account_locks_unchecked tx') → apart [tx; tx'].
Proof.
  intros Hc t u rest Hp. pose proof (Permutation_length Hp) as Hl. destruct rest; [|simpl in Hl; lia].
  apply Permutation_length_2_inv in Hp as [Hp|Hp]; simplify_eq; [done|]. intros Hcf. by apply Hc, conflicts_sym.
Qed.
Definition conflictb (t u : TransactionAccountLocks) : bool :=
  existsb (λ k, bool_decide (k ∈ writable u ++ readonly u)) (writable t) ||
  existsb (λ k, bool_decide (k ∈ writable t ++ readonly t)) (writable u).
Lemma conflictb_spec t u : conflictb t u = false → compatible t u.
Proof.
  unfold conflictb. intros [H1 H2]%orb_false_iff (k & [[Hw Hk]|[Hw Hk]]).
  - enough (false = true) by done. rewrite <-H1 at 1. apply existsb_exists. exists k. rewrite <-list_elem_of_In.
    split; [done|]. apply bool_decide_eq_true. unfold touches in Hk. set_solver.
  - enough (false = true) by done. rewrite <-H2 at 1. apply existsb_exists. exists k. rewrite <-list_elem_of_In.
    split; [done|]. apply bool_decide_eq_true. unfold touches in Hk. set_solver.
Qed.

Lemma replay_entries_ok : Forall (entry_ok 128) replay_entries.
Proof.
  repeat (apply list.Forall_cons; split); [..|constructor]; (split; [|done]); cbn [entry_txs re_entry].
  - split; [by repeat constructor|]. apply apart_pair, conflictb_spec. vm_compute. reflexivity.
  - split; [by repeat constructor|]. apply apart_short.
  - split; [constructor|]. intros t u rest Hp. by apply Permutation_nil_cons in Hp.
  - split; [by repeat constructor|]. apply apart_short.
  - split; [constructor|]. intros t u rest Hp. by apply Permutation_nil_cons in Hp.
Qed.
Lemma replay_replayable : replayable replay_features 128 replay_entries replay_start.
Proof.
  split; [done|done|done|apply replay_entries_ok|vm_compute; discriminate|vm_compute; discriminate|].
  apply affordsb_spec. vm_compute. reflexivity.
Qed.
Lemma replay_succeeds : is_ok (replay_run replay_entries).1 = true.
Proof. vm_compute. reflexivity. Qed.
Lemma replay_order_pool bs : replay_order bs ≡ₚ seq 0 (length bs).
Proof. apply reverse_Permutation. Qed.
Lemma replay_in_order_witness : ∃ s' evs, replay_run replay_entries = (Ok tt, s') ∧
  rs_events s' = evs ∧ (evs ≫= event_ticks) = [mkHash [8]; mkHash [9]] ∧ length (evs ≫= event_rows) = 4%nat ∧
  Forall event_paid evs ∧ rs_locks s' = default_locks.
Proof.
  destruct (replay_in_order replay_features 2 128 2 replay_draws replay_order 5000 (λ _, 0) ltac:(discriminate)
    replay_order_pool replay_entries replay_start replay_replayable)
    as (r & s' & evs & Hrun & He & _ & _ & _ & Hlocks & _ & Hres).
  pose proof replay_succeeds as Hok. unfold replay_run in Hok. rewrite Hrun in Hok.
  destruct r as [[]| |]; [|discriminate Hok..]. destruct Hres as (Hrows & Hticks & Hpaid & _).
  exists s', evs. split; [exact Hrun|]. split; [exact He|]. split; [exact Hticks|]. split; [by rewrite Hrows|]. by split.
Defined.
