(* ===== verification/Stakes.v ===== *)
(** * The cache of vote and stake accounts ([runtime/src/stakes.rs])

    A bank keeps the vote accounts with the stake that is delegated to each
    ([vote/src/vote_account.rs]), the stake accounts that delegate it
    ([runtime/src/stake_account.rs]), and the history of past epochs.  The weights of validators
    are read from here ([runtime/src/epoch_stakes.rs]). *)

From S2P Require Import Prelude Sdk Account Rent TransactionContext InvokeContext VoteState.
From S2P Require Import EpochSchedule Stake.

(** ** Vote accounts ([vote_account.rs])

    The state that is read from the data and kept is a function of the data. *)
Record VoteAccount := mkVoteAccount { va_account : AccountSharedData }.
Definition vote_account_try_from (account : AccountSharedData) : option VoteAccount :=
  if key_eqb (owner account) vote_program_id then Some (mkVoteAccount account) else None.
Definition va_lamports (v : VoteAccount) : N := lamports (va_account v).
Definition va_vote_state `{!Bincode VoteStateVersions} (v : VoteAccount) : option VoteState :=
  match vote_state_deserialize (data (va_account v)) with Ok s => Some s | _ => None end.
Definition va_node_pubkey `{!Bincode VoteStateVersions} (v : VoteAccount) : option Pubkey := node_pubkey <$> va_vote_state v.

(** the accounts with their stakes, and the stakes by node once they were asked for *)
Record VoteAccounts := mkVoteAccounts {
  vote_accounts : gmap Pubkey (N * VoteAccount);
  staked_nodes : option (gmap Pubkey N) }.
Definition vote_accounts_default : VoteAccounts := mkVoteAccounts ∅ None.
Definition vote_accounts_from (m : gmap Pubkey (N * VoteAccount)) : VoteAccounts := mkVoteAccounts m None.
Definition get_vote_account (k : Pubkey) (v : VoteAccounts) : option VoteAccount := snd <$> vote_accounts v !! k.
Definition get_delegated_stake (k : Pubkey) (v : VoteAccounts) : N := from_option fst 0 (vote_accounts v !! k).

Definition add_to (k : Pubkey) (n : N) (m : gmap Pubkey N) : gmap Pubkey N := <[k := wrapping_add (default 0 (m !! k)) n]> m.

Section vote_accounts.
Context `{!Bincode VoteStateVersions}.

Definition add_node_stake (stake : N) (v : VoteAccount) (nodes : option (gmap Pubkey N)) : option (gmap Pubkey N) :=
  if stake =? 0 then nodes else
  match nodes with
  | None => None
  | Some m => Some (match va_node_pubkey v with Some node => add_to node stake m | None => m end)
  end.
Definition sub_node_stake (stake : N) (v : VoteAccount) (nodes : option (gmap Pubkey N)) :
  result InstructionError (option (gmap Pubkey N)) :=
  if stake =? 0 then Ok nodes else
  match nodes with
  | None => Ok None
  | Some m =>
      match va_node_pubkey v with
      | None => Ok (Some m)
      | Some node =>
          let! s := unwrap (m !! node) in
          if s <? stake then Panic
          else if s =? stake then Ok (Some (delete node m))
          else Ok (Some (<[node := s - stake]> m))
      end
  end.
Definition node_stakes (l : list (Pubkey * (N * VoteAccount))) : gmap Pubkey N :=
  foldr (λ '(_, (stake, v)) m, default m (add_node_stake stake v (Some m))) ∅ l.
(** [VoteAccounts::staked_nodes], which fills the cache *)
Definition get_staked_nodes (v : VoteAccounts) : gmap Pubkey N * VoteAccounts :=
  let nodes := default (node_stakes (map_to_list (vote_accounts v))) (staked_nodes v) in
  (nodes, mkVoteAccounts (vote_accounts v) (Some nodes)).

Definition vote_accounts_insert (k : Pubkey) (stake : N) (va : VoteAccount) (v : VoteAccounts) : result InstructionError VoteAccounts :=
  let nodes := add_node_stake stake va (staked_nodes v) in
  let! nodes :=
    match vote_accounts v !! k with
    | Some (old_stake, old) => sub_node_stake old_stake old nodes
    | None => Ok nodes
    end in
  Ok (mkVoteAccounts (<[k := (stake, va)]> (vote_accounts v)) nodes).
Definition vote_accounts_remove (k : Pubkey) (v : VoteAccounts) : result InstructionError (option (N * VoteAccount) * VoteAccounts) :=
  let entry := vote_accounts v !! k in
  let! nodes :=
    match entry with
    | Some (stake, va) => sub_node_stake stake va (staked_nodes v)
    | None => Ok (staked_nodes v)
    end in
  Ok (entry, mkVoteAccounts (delete k (vote_accounts v)) nodes).
Definition add_stake (k : Pubkey) (delta : N) (v : VoteAccounts) : VoteAccounts :=
  match vote_accounts v !! k with
  | Some (stake, va) =>
      mkVoteAccounts (<[k := (wrapping_add stake delta, va)]> (vote_accounts v)) (add_node_stake delta va (staked_nodes v))
  | None => v
  end.
Definition sub_stake (k : Pubkey) (delta : N) (v : VoteAccounts) : result InstructionError VoteAccounts :=
  match vote_accounts v !! k with
  | Some (stake, va) =>
      let! stake := unwrap (checked_sub stake delta) in
      let! nodes := sub_node_stake delta va (staked_nodes v) in
      Ok (mkVoteAccounts (<[k := (stake, va)]> (vote_accounts v)) nodes)
  | None => Ok v
  end.
End vote_accounts.

(** ** Stake accounts ([stake_account.rs]) *)
Record StakeAccount := mkStakeAccount { sa_account : AccountSharedData; sa_state : StakeStateV2 }.
Inductive StakeAccountError :=
| SAInstructionError (e : InstructionError)
| SAInvalidDelegation (s : StakeStateV2)
| SAInvalidOwner (k : Pubkey).
Definition sa_delegation (s : StakeAccount) : result InstructionError Delegation := unwrap (state_delegation (sa_state s)).
Definition stake_account_try_from `{!Bincode StakeStateV2} (account : AccountSharedData) :
  result StakeAccountError StakeAccount :=
  if negb (key_eqb (owner account) stake_program_id) then Err (SAInvalidOwner (owner account)) else
  let! state := ok_or (shared_deserialize_data account) (SAInstructionError InvalidAccountData) in
  match state_delegation state with
  | None => Err (SAInvalidDelegation state)
  | Some _ => Ok (mkStakeAccount account state)
  end.

(** ** The cache ([stakes.rs]) *)
Record Stakes := mkStakes {
  stakes_vote_accounts : VoteAccounts;
  stake_delegations : gmap Pubkey StakeAccount;
  stakes_epoch : N;
  stakes_history : StakeHistory }.
Definition stakes_default : Stakes := mkStakes vote_accounts_default ∅ 0 [].
Definition set_stakes_vote_accounts (v : VoteAccounts) (s : Stakes) : Stakes :=
  mkStakes v (stake_delegations s) (stakes_epoch s) (stakes_history s).
Definition set_stake_delegations (m : gmap Pubkey StakeAccount) (s : Stakes) : Stakes :=
  mkStakes (stakes_vote_accounts s) m (stakes_epoch s) (stakes_history s).

(** a rewarded stake account, as the bank stores it ([accounts-db/src/stake_rewards.rs]) *)
Inductive RewardType := RewardFee | RewardRent | RewardStaking | RewardVoting.
Record RewardInfo := mkRewardInfo {
  reward_type : RewardType;
  reward_lamports : Z;
  reward_post_balance : N;
  reward_commission : option N }.
Record StakeReward := mkStakeReward {
  stake_pubkey : Pubkey;
  stake_reward_info : RewardInfo;
  stake_account : AccountSharedData }.

Section stakes.
Context `{!Bincode VoteStateVersions, !Bincode StakeStateV2}.
Context (new_rate_activation_epoch : option N).

(** the effective stake of an account at the epoch of the cache *)
Definition stake_of (epoch : N) (history : StakeHistory) (a : StakeAccount) : result InstructionError N :=
  let! d := sa_delegation a in effective_stake history new_rate_activation_epoch d epoch.
(** [Stakes::calculate_stake] *)
Fixpoint sum_stakes (voter : Pubkey) (epoch : N) (history : StakeHistory) (l : list StakeAccount) : result InstructionError N :=
  match l with
  | [] => Ok 0
  | a :: l =>
      let! d := sa_delegation a in
      let! rest := sum_stakes voter epoch history l in
      if key_eqb (voter_pubkey d) voter then
        let! n := effective_stake history new_rate_activation_epoch d epoch in
        Ok (wrapping_add n rest)
      else Ok rest
  end.
Definition calculate_stake (voter : Pubkey) (s : Stakes) : result InstructionError N :=
  sum_stakes voter (stakes_epoch s) (stakes_history s) (snd <$> map_to_list (stake_delegations s)).

Definition remove_vote_account (k : Pubkey) (s : Stakes) : result InstructionError Stakes :=
  rmap (λ x, set_stakes_vote_accounts x.2 s) (vote_accounts_remove k (stakes_vote_accounts s)).
Definition remove_stake_delegation (k : Pubkey) (s : Stakes) : result InstructionError Stakes :=
  match stake_delegations s !! k with
  | Some a =>
      let! removed_delegation := sa_delegation a in
      let! removed_stake := stake_of (stakes_epoch s) (stakes_history s) a in
      let! v := sub_stake (voter_pubkey removed_delegation) removed_stake (stakes_vote_accounts s) in
      Ok (set_stakes_vote_accounts v (set_stake_delegations (delete k (stake_delegations s)) s))
  | None => Ok s
  end.
Definition upsert_vote_account (k : Pubkey) (va : VoteAccount) (s : Stakes) : result InstructionError Stakes :=
  let! removed := vote_accounts_remove k (stakes_vote_accounts s) in
  let! stake := match removed.1 with None => calculate_stake k s | Some x => Ok x.1 end in
  let! v := vote_accounts_insert k stake va removed.2 in
  Ok (set_stakes_vote_accounts v s).
Definition upsert_stake_delegation (k : Pubkey) (a : StakeAccount) (s : Stakes) : result InstructionError Stakes :=
  let! d := sa_delegation a in
  let! stake := stake_of (stakes_epoch s) (stakes_history s) a in
  let! v :=
    match stake_delegations s !! k with
    | None => Ok (add_stake (voter_pubkey d) stake (stakes_vote_accounts s))
    | Some old =>
        let! old_d := sa_delegation old in
        let! old_stake := stake_of (stakes_epoch s) (stakes_history s) old in
        if negb (key_eqb (voter_pubkey d) (voter_pubkey old_d)) || negb (stake =? old_stake) then
          let! v := sub_stake (voter_pubkey old_d) old_stake (stakes_vote_accounts s) in
          Ok (add_stake (voter_pubkey d) stake v)
        else Ok (stakes_vote_accounts s)
    end in
  Ok (set_stakes_vote_accounts v (set_stake_delegations (<[k := a]> (stake_delegations s)) s)).

(** [StakesCache::check_and_store] *)
Definition check_and_store (k : Pubkey) (account : AccountSharedData) (s : Stakes) : result InstructionError Stakes :=
  if lamports account =? 0 then
    if key_eqb (owner account) vote_program_id then remove_vote_account k s
    else if key_eqb (owner account) stake_program_id then remove_stake_delegation k s
    else Ok s
  else if key_eqb (owner account) vote_program_id then
    if vote_is_correct_size_and_initialized (data account) then
      match vote_account_try_from account with
      | Some va => upsert_vote_account k va s
      | None => remove_vote_account k s
      end
    else remove_vote_account k s
  else if key_eqb (owner account) stake_program_id then
    match stake_account_try_from account with
    | Ok a => upsert_stake_delegation k a s
    | Err _ => remove_stake_delegation k s
    | Panic => Panic
    end
  else Ok s.

(** [refresh_vote_accounts]; the map of the parallel fold holds sums, in any order *)
Fixpoint delegated_stakes (epoch : N) (history : StakeHistory) (l : list StakeAccount) : result InstructionError (gmap Pubkey N) :=
  match l with
  | [] => Ok ∅
  | a :: l =>
      let! m := delegated_stakes epoch history l in
      let! d := sa_delegation a in
      let! n := effective_stake history new_rate_activation_epoch d epoch in
      Ok (add_to (voter_pubkey d) n m)
  end.
Definition refresh_vote_accounts (epoch : N) (v : VoteAccounts) (l : list StakeAccount) (history : StakeHistory) :
  result InstructionError VoteAccounts :=
  let! m := delegated_stakes epoch history l in
  Ok (vote_accounts_from (map_imap (λ k x, Some (default 0 (m !! k), x.2)) (vote_accounts v))).

(** what the epoch leaves in the history *)
Fixpoint sum_status (epoch : N) (history : StakeHistory) (l : list StakeAccount) : result InstructionError StakeHistoryEntry :=
  match l with
  | [] => Ok stake_history_entry_default
  | a :: l =>
      let! sum := sum_status epoch history l in
      let! d := sa_delegation a in
      let! x := stake_activating_and_deactivating history new_rate_activation_epoch d epoch in
      Ok (entry_add sum x)
  end.
Definition activate_epoch (next_epoch : N) (s : Stakes) : result InstructionError Stakes :=
  let accounts := snd <$> map_to_list (stake_delegations s) in
  let! entry := sum_status (stakes_epoch s) (stakes_history s) accounts in
  let history := stake_history_add (stakes_epoch s) entry (stakes_history s) in
  let! v := refresh_vote_accounts next_epoch (stakes_vote_accounts s) accounts history in
  Ok (mkStakes v (stake_delegations s) next_epoch history).

Definition rewarded_accounts (l : list StakeReward) : list (Pubkey * StakeAccount) :=
  omap (λ r, match stake_account_try_from (stake_account r) with Ok a => Some (stake_pubkey r, a) | _ => None end) l.
Definition update_stake_accounts (l : list StakeReward) (s : Stakes) : result InstructionError Stakes :=
  let m := filter (λ x, lamports (sa_account x.2) ≠ 0)
             (foldl (λ m x, <[x.1 := x.2]> m) (stake_delegations s) (rewarded_accounts l)) in
  let! v := refresh_vote_accounts (stakes_epoch s) (stakes_vote_accounts s) (snd <$> map_to_list m) (stakes_history s) in
  Ok (set_stakes_vote_accounts v (set_stake_delegations m s)).

Definition handle_invalid_keys (keys : list Pubkey) (s : Stakes) : result InstructionError Stakes :=
  foldl (λ r k, let! s := r in remove_vote_account k s) (Ok s) keys.

(** the lamports of the vote accounts and the delegated stake *)
Fixpoint sum_delegated (l : list StakeAccount) : result InstructionError N :=
  match l with
  | [] => Ok 0
  | a :: l => let! d := sa_delegation a in let! n := sum_delegated l in Ok (wrapping_add (delegated_stake d) n)
  end.
Definition vote_balance_and_staked (s : Stakes) : result InstructionError N :=
  let! n := sum_delegated (snd <$> map_to_list (stake_delegations s)) in
  Ok (wrapping_add n (foldr (λ x n, wrapping_add (va_lamports x.2.2) n) 0 (map_to_list (vote_accounts (stakes_vote_accounts s))))).
End stakes.

(** ** The stakes of an epoch ([epoch_stakes.rs]) *)
Record NodeVoteAccounts := mkNodeVoteAccounts {
  node_vote_accounts : list Pubkey;
  node_total_stake : N }.
Record EpochStakes := mkEpochStakes {
  es_stakes : Stakes;
  es_total_stake : N;
  node_id_to_vote_accounts : gmap Pubkey NodeVoteAccounts;
  epoch_authorized_voters : gmap Pubkey Pubkey }.
Definition MAX_LEADER_SCHEDULE_STAKES : N := 5.

Section epoch_stakes.
Context `{!Bincode VoteStateVersions}.

Definition add_vote_account (k : Pubkey) (stake : N) (x : NodeVoteAccounts) : NodeVoteAccounts :=
  mkNodeVoteAccounts (node_vote_accounts x ++ [k]) (wrapping_add (node_total_stake x) stake).
(** the node and the voter of an account that counts *)
Definition epoch_voter (leader_schedule_epoch : N) (x : N * VoteAccount) : option (Pubkey * Pubkey) :=
  match va_vote_state x.2 with
  | None => None
  | Some vote_state =>
      if 0 <? x.1 then pair (node_pubkey vote_state) <$> av_get_authorized_voter leader_schedule_epoch (authorized_voters vote_state)
      else None
  end.
Definition parse_epoch_vote_accounts (epoch_vote_accounts : gmap Pubkey (N * VoteAccount)) (leader_schedule_epoch : N) :
  N * gmap Pubkey NodeVoteAccounts * gmap Pubkey Pubkey :=
  let l := map_to_list epoch_vote_accounts in
  let total_stake := foldl (λ n x, wrapping_add n x.2.1) 0 l in
  let '(nodes, voters) :=
    foldl (λ '(nodes, voters) '(k, x),
      match epoch_voter leader_schedule_epoch x with
      | Some (node, authorized_voter) =>
          (<[node := add_vote_account k x.1 (default (mkNodeVoteAccounts [] 0) (nodes !! node))]> nodes,
           <[k := authorized_voter]> voters)
      | None => (nodes, voters)
      end) (∅, ∅) l in
  (total_stake, nodes, voters).
Definition epoch_stakes_new (s : Stakes) (leader_schedule_epoch : N) : EpochStakes :=
  let '(total_stake, nodes, voters) := parse_epoch_vote_accounts (vote_accounts (stakes_vote_accounts s)) leader_schedule_epoch in
  mkEpochStakes s total_stake nodes voters.
Definition vote_account_stake (e : EpochStakes) (k : Pubkey) : N := get_delegated_stake k (stakes_vote_accounts (es_stakes e)).
(** [Bank::update_epoch_stakes] *)
Definition update_epoch_stakes (leader_schedule_epoch : N) (s : Stakes) (m : gmap N EpochStakes) : gmap N EpochStakes :=
  match m !! leader_schedule_epoch with
  | Some _ => m
  | None =>
      <[leader_schedule_epoch := epoch_stakes_new s leader_schedule_epoch]>
        (filter (λ x, saturating_sub leader_schedule_epoch MAX_LEADER_SCHEDULE_STAKES ≤ x.1) m)
  end.
End epoch_stakes.
