(* ===== verification/StakesRules.v ===== *)
(** * The stake cache is exact

    What is cached for every vote account and every node is what the delegations amount to,
    and the cached accounts are those of the bank. *)

From S2P Require Import Prelude Sdk Account Rent TransactionContext InvokeContext VoteState.
From S2P Require Import EpochSchedule InstructionRules Stake StakeRules Stakes.

(** ** Sums over the cached accounts *)
Abbreviation list_sum f l := (sumN (f <$> l)).
Lemma list_sum_cons {A} (f : A → N) x l : list_sum f (x :: l) = f x + list_sum f l.
Proof. done. Qed.
Lemma list_sum_add {A} (f g : A → N) l : list_sum (λ x, f x + g x) l = list_sum f l + list_sum g l.
Proof. induction l as [|x l IH]; [done|]. rewrite !list_sum_cons. lia. Qed.
Lemma list_sum_le {A} (f g : A → N) l : (∀ x, x ∈ l → f x ≤ g x) → list_sum f l ≤ list_sum g l.
Proof.
  induction l as [|x l IH]; intros Hle; [done|]. rewrite !list_sum_cons. pose proof (Hle x (list_elem_of_here _ _)).
  pose proof (IH (λ y Hy, Hle y (list_elem_of_further _ _ _ Hy))). lia.
Qed.
Lemma map_sum_list {K V} `{Countable K} (f : V → N) (m : gmap K V) : map_sum f m = list_sum f (map_to_list m).*2.
Proof.
  unfold map_sum. rewrite map_fold_foldr. induction (map_to_list m) as [|[i x] l IH]; [done|].
  rewrite !fmap_cons, sumN_cons. simpl. by rewrite IH.
Qed.

Section rules.
Context `{!Bincode VoteStateVersions, !Bincode StakeStateV2}.

(** ** Stake accounts *)
Definition voter_of (a : StakeAccount) : option Pubkey := voter_pubkey <$> state_delegation (sa_state a).
Definition amount_of (a : StakeAccount) : N := from_option delegated_stake 0 (state_delegation (sa_state a)).
Definition stake_ok (a : StakeAccount) : Prop := ∃ d, state_delegation (sa_state a) = Some d ∧ delegation_in_range d.
Definition eff (rate : option N) (epoch : N) (h : StakeHistory) (a : StakeAccount) : N :=
  match stake_of rate epoch h a with Ok n => n | _ => 0 end.
(** what [a] adds to the voter [k] *)
Definition share (rate : option N) (epoch : N) (h : StakeHistory) (k : Pubkey) (a : StakeAccount) : N :=
  if bool_decide (voter_of a = Some k) then eff rate epoch h a else 0.

Lemma status_eff rate epoch h a d :
  state_delegation (sa_state a) = Some d → delegation_in_range d → epoch ≤ u64_max →
  ∃ x, stake_activating_and_deactivating (E:=InstructionError) h rate d epoch = Ok x ∧
    eff rate epoch h a = effective x ∧ effective x ≤ amount_of a.
Proof.
  intros Hd Hr He. destruct (status_of_Ok h rate d epoch Hr He) as (x & Hx & Hle & _). exists x. split; [exact Hx|].
  unfold eff, stake_of, sa_delegation, amount_of. rewrite Hd. cbn [unwrap rbind]. unfold effective_stake.
  unfold status_of in Hx. rewrite Hx. simpl. split; [done|lia].
Qed.
Lemma stake_of_Ok rate epoch h a :
  stake_ok a → epoch ≤ u64_max → stake_of rate epoch h a = Ok (eff rate epoch h a) ∧ eff rate epoch h a ≤ amount_of a.
Proof.
  intros (d & Hd & Hr) He. destruct (status_eff rate epoch h a d Hd Hr He) as (x & Hx & Hn & Hle). rewrite Hn. split; [|done].
  unfold stake_of, sa_delegation, effective_stake. rewrite Hd. cbn [unwrap rbind]. by rewrite Hx.
Qed.
Lemma share_le rate epoch h k a : stake_ok a → epoch ≤ u64_max → share rate epoch h k a ≤ amount_of a.
Proof. intros Ha He. unfold share. case_bool_decide; [by apply stake_of_Ok|lia]. Qed.

(** ** Invariant *)
Definition weight_in (rate : option N) (epoch : N) (h : StakeHistory) (m : gmap Pubkey StakeAccount) (k : Pubkey) : N :=
  map_sum (share rate epoch h k) m.
Definition weight (rate : option N) (s : Stakes) : Pubkey → N :=
  weight_in rate (stakes_epoch s) (stakes_history s) (stake_delegations s).
Definition supply (m : gmap Pubkey StakeAccount) : N := map_sum amount_of m.
(** every account is a delegation with [u64] fields, and all they delegate is a [u64] *)
Record sound (m : gmap Pubkey StakeAccount) : Prop := {
  sound_stakes : map_Forall (λ _ a, stake_ok a) m;
  sound_supply : supply m ≤ u64_max }.
Definition node_share (node : Pubkey) (x : N * VoteAccount) : N :=
  if bool_decide (va_node_pubkey x.2 = Some node) then x.1 else 0.
Definition node_weight (v : gmap Pubkey (N * VoteAccount)) (node : Pubkey) : N := map_sum (node_share node) v.
(** the nodes with stake, and how much *)
Definition nodes_for (w : Pubkey → N) (m : gmap Pubkey N) : Prop :=
  ∀ node, m !! node = if w node =? 0 then None else Some (w node).
Definition nodes_exact (v : gmap Pubkey (N * VoteAccount)) : gmap Pubkey N → Prop := nodes_for (node_weight v).
(** ** Stakes of vote accounts and nodes, for given weights of the voters *)
Definition fits (w : Pubkey → N) : Prop := ∀ ks, NoDup ks → list_sum w ks ≤ u64_max.
Record va_exact (w : Pubkey → N) (v : VoteAccounts) : Prop := {
  va_weights : ∀ k n va, vote_accounts v !! k = Some (n, va) → n = w k;
  va_nodes : ∀ m, staked_nodes v = Some m → nodes_exact (vote_accounts v) m }.

Lemma node_weight_fits w v node : fits w → (∀ k n va, v !! k = Some (n, va) → n = w k) → node_weight v node ≤ u64_max.
Proof.
  intros Hf Hw. transitivity (list_sum w (map_to_list v).*1).
  - unfold node_weight. rewrite map_sum_list. assert (∀ x, x ∈ map_to_list v → x.2.1 = w x.1) as Hin.
    { intros [k [n va]] Hx%elem_of_map_to_list. by eapply Hw. }
    induction (map_to_list v) as [|[k x] l IH]; [done|]. rewrite !fmap_cons, !sumN_cons. simpl. pose proof (Hin _ (list_elem_of_here _ _)) as Hx. simpl in Hx.
    pose proof (IH (λ y Hy, Hin y (list_elem_of_further _ _ _ Hy))). assert (node_share node x ≤ w k) by (unfold node_share; case_bool_decide; lia). lia.
  - apply Hf, NoDup_fst_map_to_list.
Qed.

Definition at_node (va : VoteAccount) (n : N) (node : Pubkey) : N :=
  if bool_decide (va_node_pubkey va = Some node) then n else 0.
Lemma add_node_exact w w' n va m :
  nodes_for w m → (∀ node, w' node = w node + at_node va n node) → (∀ node, w' node ≤ u64_max) →
  ∃ m', add_node_stake n va (Some m) = Some m' ∧ nodes_for w' m'.
Proof.
  intros Hm Hw Hle. unfold add_node_stake. destruct (N.eqb_spec n 0) as [->|Hn].
  { exists m. split; [done|]. intros node. rewrite Hw. unfold at_node. case_bool_decide; rewrite N.add_0_r; apply Hm. }
  eexists. split; [done|]. destruct (va_node_pubkey va) as [k|] eqn:Hk.
  - unfold add_to. intros node. rewrite Hw. unfold at_node. rewrite Hk. destruct (decide (node = k)) as [->|Hne].
    + rewrite lookup_insert_eq, bool_decide_true by done. pose proof (Hle k) as Hk'. rewrite Hw in Hk'. unfold at_node in Hk'.
      rewrite Hk, bool_decide_true in Hk' by done. rewrite Hm.
      destruct (N.eqb_spec (w k) 0) as [H0|H0]; simpl; rewrite wrapping_add_small by lia;
        (destruct (N.eqb_spec (w k + n) 0); [lia|]); f_equal; lia.
    + rewrite lookup_insert_ne, bool_decide_false by congruence. rewrite N.add_0_r. apply Hm.
  - intros node. rewrite Hw. unfold at_node. rewrite Hk, bool_decide_false by done. rewrite N.add_0_r. apply Hm.
Qed.
Lemma sub_node_exact w w' n va m :
  nodes_for w m → (∀ node, w node = w' node + at_node va n node) →
  ∃ m', sub_node_stake n va (Some m) = Ok (Some m') ∧ nodes_for w' m'.
Proof.
  intros Hm Hw. unfold sub_node_stake. destruct (N.eqb_spec n 0) as [->|Hn].
  { exists m. split; [done|]. intros node. rewrite Hm, Hw. unfold at_node. by case_bool_decide; rewrite N.add_0_r. }
  destruct (va_node_pubkey va) as [k|] eqn:Hk.
  - pose proof (Hw k) as Hwk. unfold at_node in Hwk. rewrite Hk, bool_decide_true in Hwk by done.
    rewrite Hm. destruct (N.eqb_spec (w k) 0); [lia|]. cbn [unwrap rbind]. rewrite (proj2 (N.ltb_ge (w k) n)) by lia.
    assert (∀ node, node ≠ k → w node = w' node) as Hother.
    { intros node Hne. rewrite Hw. unfold at_node. rewrite Hk, bool_decide_false by congruence. lia. }
    destruct (N.eqb_spec (w k) n); (eexists; split; [done|]); intros node; (destruct (decide (node = k)) as [->|Hne];
      [rewrite ?lookup_delete_eq, ?lookup_insert_eq|rewrite ?lookup_delete_ne, ?lookup_insert_ne, Hm, (Hother node Hne) by congruence; done]).
    + by rewrite (proj2 (N.eqb_eq (w' k) 0)) by lia.
    + destruct (N.eqb_spec (w' k) 0); [lia|]. f_equal. lia.
  - exists m. split; [done|]. intros node. rewrite Hm, Hw. unfold at_node. rewrite Hk, bool_decide_false by done. by rewrite N.add_0_r.
Qed.

Lemma nodes_add v v' n va o :
  (∀ m, o = Some m → nodes_exact v m) → (∀ node, node_weight v' node = node_weight v node + at_node va n node) →
  (∀ node, node_weight v' node ≤ u64_max) → ∀ m, add_node_stake n va o = Some m → nodes_exact v' m.
Proof.
  intros Ho Hw Hle m Hm. destruct o as [m0|]; [|unfold add_node_stake in Hm; by destruct (n =? 0)].
  destruct (add_node_exact _ _ n va m0 (Ho _ eq_refl) Hw Hle) as (m' & Hm' & He). rewrite Hm in Hm'. by injection Hm' as <-.
Qed.
Lemma nodes_sub v v' n va o :
  (∀ m, o = Some m → nodes_exact v m) → (∀ node, node_weight v node = node_weight v' node + at_node va n node) →
  ∃ o', sub_node_stake n va o = Ok o' ∧ ∀ m, o' = Some m → nodes_exact v' m.
Proof.
  intros Ho Hw. destruct o as [m0|].
  - destruct (sub_node_exact _ _ n va m0 (Ho _ eq_refl) Hw) as (m' & Hm' & He). exists (Some m'). split; [done|].
    by intros m [= <-].
  - exists None. unfold sub_node_stake. by destruct (n =? 0).
Qed.
Lemma node_weight_insert v k n va node :
  v !! k = None → node_weight (<[k := (n, va)]> v) node = node_weight v node + at_node va n node.
Proof. intros Hk. unfold node_weight. rewrite map_sum_insert_new by done. unfold node_share, at_node. simpl. lia. Qed.
Lemma node_weight_delete v k n va node :
  v !! k = Some (n, va) → node_weight v node = node_weight (delete k v) node + at_node va n node.
Proof. intros Hk. unfold node_weight. rewrite (map_sum_delete _ k (n, va)) by done. unfold node_share at 1, at_node. simpl. lia. Qed.
Lemma node_weight_raise v k n d va node :
  v !! k = Some (n, va) → node_weight (<[k := (n + d, va)]> v) node = node_weight v node + at_node va d node.
Proof.
  intros Hk. pose proof (map_sum_insert (node_share node) k (n + d, va) (n, va) v Hk) as Hs. unfold node_weight.
  unfold node_share at 2 3 in Hs. unfold at_node. simpl in Hs. case_bool_decide; lia.
Qed.

Lemma remove_exact w v k :
  va_exact w v → ∃ v', vote_accounts_remove k v = Ok (vote_accounts v !! k, v') ∧ va_exact w v' ∧
    vote_accounts v' = delete k (vote_accounts v).
Proof.
  intros [Hw Hn]. unfold vote_accounts_remove. destruct (vote_accounts v !! k) as [[n va]|] eqn:Hk.
  - destruct (nodes_sub _ (delete k (vote_accounts v)) n va (staked_nodes v) Hn) as (o & -> & Ho).
    { intros node. by apply node_weight_delete. }
    cbn [rbind]. eexists. split; [done|]. split; [|done]. split; [|exact Ho].
    simpl. intros j n' va' [_ Hj]%lookup_delete_Some. eauto.
  - cbn [rbind]. eexists. split; [done|]. split; [|done]. rewrite (delete_id _ _ Hk). by split.
Qed.
Lemma insert_exact w v k va :
  fits w → va_exact w v → vote_accounts v !! k = None →
  ∃ v', vote_accounts_insert k (w k) va v = Ok v' ∧ va_exact w v' ∧ vote_accounts v' = <[k := (w k, va)]> (vote_accounts v).
Proof.
  intros Hf [Hw Hn] Hk. unfold vote_accounts_insert. rewrite Hk. cbn [rbind]. eexists. split; [done|]. split; [|done].
  assert (∀ j n x, <[k := (w k, va)]> (vote_accounts v) !! j = Some (n, x) → n = w j) as Hw'.
  { intros j n x [[<- [= <- <-]]|[_ ?]]%lookup_insert_Some; [done|]. eauto. }
  split; [exact Hw'|]. simpl. eapply nodes_add; [exact Hn|intros node; by apply node_weight_insert|].
  intros node. by eapply node_weight_fits.
Qed.
Lemma add_exact w w' v k d :
  fits w' → va_exact w v → (∀ j, w' j = if decide (j = k) then w j + d else w j) →
  va_exact w' (add_stake k d v) ∧ snd <$> vote_accounts (add_stake k d v) = snd <$> vote_accounts v.
Proof.
  intros Hf [Hw Hn] Hd. unfold add_stake. destruct (vote_accounts v !! k) as [[n va]|] eqn:Hk.
  - assert (n + d = w' k) as Hnd. { rewrite Hd, decide_True by done. f_equal. by eapply Hw. }
    assert (w' k ≤ u64_max) as Hk'. { pose proof (Hf [k]) as Hle. rewrite list_sum_cons in Hle.
      specialize (Hle (NoDup_singleton k)). simpl in Hle. lia. }
    rewrite wrapping_add_small by lia. simpl. assert (∀ j m x, <[k := (n + d, va)]> (vote_accounts v) !! j = Some (m, x) → m = w' j) as Hw'.
    { intros j m x [[<- [= <- <-]]|[Hne Hj]]%lookup_insert_Some; [done|]. rewrite Hd, decide_False by done. eauto. }
    split; [split; [exact Hw'|]|].
    + simpl. eapply nodes_add; [exact Hn|intros node; by apply node_weight_raise|]. intros node. by eapply node_weight_fits.
    + simpl. rewrite fmap_insert. apply insert_id. by rewrite lookup_fmap, Hk.
  - split; [|done]. split; [|done]. intros j m x Hj. rewrite Hd, decide_False by congruence. eauto.
Qed.
Lemma sub_exact w w' v k d :
  va_exact w v → (∀ j, w j = if decide (j = k) then w' j + d else w' j) →
  ∃ v', sub_stake k d v = Ok v' ∧ va_exact w' v' ∧ snd <$> vote_accounts v' = snd <$> vote_accounts v.
Proof.
  intros [Hw Hn] Hd. unfold sub_stake. destruct (vote_accounts v !! k) as [[n va]|] eqn:Hk.
  - assert (n = w' k + d) as ->. { rewrite (Hw k n va Hk), Hd. by rewrite decide_True. }
    unfold checked_sub. rewrite (proj2 (N.leb_le _ _)) by lia. cbn [unwrap rbind].
    replace (w' k + d - d) with (w' k) by lia.
    destruct (nodes_sub _ (<[k := (w' k, va)]> (vote_accounts v)) d va (staked_nodes v) Hn) as (o & -> & Ho).
    { intros node. rewrite <-(node_weight_raise (<[k := (w' k, va)]> (vote_accounts v)) k (w' k) d va node) by apply lookup_insert_eq.
      rewrite insert_insert_eq. by rewrite insert_id. }
    cbn [rbind]. eexists. split; [done|]. split; [split; [|exact Ho]|].
    + simpl. intros j m x [[<- [= <- <-]]|[Hne Hj]]%lookup_insert_Some; [done|]. rewrite (Hw j m x Hj), Hd. by rewrite decide_False.
    + simpl. rewrite fmap_insert. apply insert_id. by rewrite lookup_fmap, Hk.
  - exists v. split; [done|]. split; [|done]. split; [|done]. intros j m x Hj. rewrite (Hw j m x Hj), Hd.
    by rewrite decide_False by congruence.
Qed.

(** ** The cache as a whole *)
Record exact (rate : option N) (s : Stakes) : Prop := {
  exact_epoch : stakes_epoch s ≤ u64_max;
  exact_sound : sound (stake_delegations s);
  exact_votes : va_exact (weight rate s) (stakes_vote_accounts s) }.
Definition cached_votes (s : Stakes) : gmap Pubkey VoteAccount := snd <$> vote_accounts (stakes_vote_accounts s).
(** the cached accounts after a change within an epoch *)
Definition turns (s s' : Stakes) (m : gmap Pubkey StakeAccount) (v : gmap Pubkey VoteAccount) : Prop :=
  stake_delegations s' = m ∧ cached_votes s' = v ∧ stakes_epoch s' = stakes_epoch s ∧ stakes_history s' = stakes_history s.

(** a stake is counted for at most one voter *)
Lemma one_voter rate epoch h a ks :
  NoDup ks → stake_ok a → epoch ≤ u64_max → list_sum (λ k, share rate epoch h k a) ks ≤ amount_of a.
Proof.
  intros Hnd Ha He. destruct (stake_of_Ok rate epoch h a Ha He) as [_ Hle]. transitivity (eff rate epoch h a); [|done]. clear Ha Hle.
  induction ks as [|k ks IH]; [apply N.le_0_l|]. apply list.NoDup_cons in Hnd as [Hk Hnd]. rewrite list_sum_cons.
  unfold share at 1. case_bool_decide as Hv; [|by apply IH].
  assert (list_sum (λ k, share rate epoch h k a) ks = 0) as ->; [|lia]. clear IH Hnd. induction ks as [|j ks IH]; [done|].
  rewrite list_sum_cons, IH by set_solver. unfold share. rewrite bool_decide_false; [done|]. rewrite Hv. set_solver.
Qed.
Lemma voters_sum rate epoch h l ks :
  NoDup ks → (∀ a, a ∈ l → stake_ok a) → epoch ≤ u64_max →
  list_sum (λ k, list_sum (share rate epoch h k) l) ks ≤ list_sum amount_of l.
Proof.
  intros Hnd Hl He. induction l as [|a l IH].
  - clear. apply N.eq_le_incl. induction ks as [|k ks IH]; [done|]. by rewrite list_sum_cons, IH.
  - rewrite (list_sum_cons amount_of). pose proof (one_voter rate epoch h a ks Hnd (Hl a (list_elem_of_here _ _)) He).
    pose proof (IH (λ x Hx, Hl x (list_elem_of_further _ _ _ Hx))).
    transitivity (list_sum (λ k, share rate epoch h k a + list_sum (share rate epoch h k) l) ks); [done|].
    rewrite (list_sum_add (λ k, share rate epoch h k a)). lia.
Qed.
Lemma values_ok (m : gmap Pubkey StakeAccount) : map_Forall (λ _ a, stake_ok a) m → ∀ a, a ∈ (map_to_list m).*2 → stake_ok a.
Proof. intros Hm a ([k x] & -> & Hx%elem_of_map_to_list)%list_elem_of_fmap. eapply Hm, Hx. Qed.
Lemma weight_fits rate epoch h m : sound m → epoch ≤ u64_max → fits (weight_in rate epoch h m).
Proof.
  intros [Hm Hs] He ks Hnd. etrans; [|exact Hs]. unfold supply. rewrite map_sum_list.
  etrans; [|apply (voters_sum rate epoch h _ ks Hnd (values_ok m Hm) He)]. apply list_sum_le. intros k _.
  unfold weight_in. by rewrite map_sum_list.
Qed.
Lemma weight_insert rate epoch h m k a j :
  m !! k = None → weight_in rate epoch h (<[k := a]> m) j = share rate epoch h j a + weight_in rate epoch h m j.
Proof. apply map_sum_insert_new. Qed.
Lemma weight_delete rate epoch h m k a j :
  m !! k = Some a → weight_in rate epoch h m j = share rate epoch h j a + weight_in rate epoch h (delete k m) j.
Proof. apply map_sum_delete. Qed.
Lemma share_voter rate epoch h a d j :
  state_delegation (sa_state a) = Some d →
  share rate epoch h j a = if decide (j = voter_pubkey d) then eff rate epoch h a else 0.
Proof.
  intros Hd. unfold share, voter_of. rewrite Hd. simpl. by case_bool_decide as Hj; case_decide; simplify_eq.
Qed.
Lemma sound_delete m k : sound m → sound (delete k m).
Proof.
  intros [Hm Hs]. split; [by apply map_Forall_delete|]. destruct (m !! k) as [a|] eqn:Hk; [|by rewrite delete_id].
  unfold supply in *. rewrite (map_sum_delete amount_of k a m Hk) in Hs. lia.
Qed.

Lemma effective_stake_ok rate epoch h a d :
  state_delegation (sa_state a) = Some d → stake_ok a → epoch ≤ u64_max →
  effective_stake h rate d epoch = Ok (E:=InstructionError) (eff rate epoch h a).
Proof.
  intros Hd Ha He. destruct (stake_of_Ok rate epoch h a Ha He) as [Hs _]. unfold stake_of, sa_delegation in Hs.
  by rewrite Hd in Hs.
Qed.
Lemma share_sum_le rate epoch h k l :
  (∀ a, a ∈ l → stake_ok a) → epoch ≤ u64_max → list_sum (share rate epoch h k) l ≤ list_sum amount_of l.
Proof. intros Hl He. apply list_sum_le. intros a Ha. apply share_le; [by apply Hl|done]. Qed.
Lemma sum_stakes_ok rate epoch h k l :
  (∀ a, a ∈ l → stake_ok a) → epoch ≤ u64_max → list_sum amount_of l ≤ u64_max →
  sum_stakes rate k epoch h l = Ok (list_sum (share rate epoch h k) l).
Proof.
  intros Hl He Hs. induction l as [|a l IH]; [done|]. rewrite list_sum_cons in Hs. rewrite list_sum_cons.
  assert (stake_ok a) as Ha by (apply Hl; left). assert (∀ x, x ∈ l → stake_ok x) as Hl' by (intros; apply Hl; by right).
  pose proof (share_sum_le rate epoch h k l Hl' He) as Hle. pose proof (share_le rate epoch h k a Ha He) as Hle'.
  pose proof Ha as (d & Hd & _). cbn [sum_stakes]. unfold sa_delegation. rewrite Hd. cbn [unwrap rbind].
  rewrite IH by (done || lia). cbn [rbind]. rewrite (share_voter _ _ _ a d k Hd) in Hle'. rewrite (share_voter _ _ _ a d k Hd). unfold key_eqb.
  case_bool_decide as Hv; case_decide as Hv'; try congruence; [|done].
  rewrite (effective_stake_ok rate epoch h a d Hd) by done. cbn [rbind]. rewrite wrapping_add_small by lia. done.
Qed.
Lemma calculate_ok rate s k : exact rate s → calculate_stake rate k s = Ok (weight rate s k).
Proof.
  intros [He [Hm Hs] _]. unfold calculate_stake. rewrite sum_stakes_ok.
  - unfold weight, weight_in. by rewrite map_sum_list.
  - by apply values_ok.
  - done.
  - unfold supply in Hs. by rewrite map_sum_list in Hs.
Qed.

Lemma remove_vote_ok rate s k :
  exact rate s → ∃ s', remove_vote_account k s = Ok s' ∧ exact rate s' ∧
    turns s s' (stake_delegations s) (delete k (cached_votes s)).
Proof.
  intros [He Hs Hv]. unfold remove_vote_account. destruct (remove_exact _ _ k Hv) as (v & -> & Hv' & Heq). simpl.
  eexists. split; [done|]. split; [by split|]. split_and!; try done. unfold cached_votes. simpl. by rewrite Heq, fmap_delete.
Qed.
Lemma upsert_vote_ok rate s k va :
  exact rate s → ∃ s', upsert_vote_account rate k va s = Ok s' ∧ exact rate s' ∧
    turns s s' (stake_delegations s) (<[k := va]> (cached_votes s)).
Proof.
  intros Hex. pose proof (calculate_ok rate s k Hex) as Hcalc. destruct Hex as [He Hs Hv].
  unfold upsert_vote_account. destruct (remove_exact _ _ k Hv) as (v & -> & Hv' & Heq). cbn [rbind fst snd].
  assert (match vote_accounts (stakes_vote_accounts s) !! k with
          | Some x => Ok x.1 | None => calculate_stake rate k s end = Ok (weight rate s k)) as Hst.
  { destruct (vote_accounts (stakes_vote_accounts s) !! k) as [[n x]|] eqn:Hk; [|done]. simpl. f_equal. exact (va_weights _ _ Hv k n x Hk). }
  destruct (insert_exact (weight rate s) v k va) as (v' & Hi & Hv'' & Heq').
  { by apply weight_fits. } { done. } { rewrite Heq. apply lookup_delete_eq. }
  destruct (vote_accounts (stakes_vote_accounts s) !! k) as [[n x]|]; rewrite Hst; cbn [rbind]; rewrite Hi; cbn [rbind].
  all: eexists; split; [done|]; split; [by split|]; split_and!; try done; unfold cached_votes; simpl.
  all: by rewrite Heq', Heq, fmap_insert, fmap_delete, insert_delete_eq.
Qed.

Lemma remove_stake_ok rate s k :
  exact rate s → ∃ s', remove_stake_delegation rate k s = Ok s' ∧ exact rate s' ∧
    turns s s' (delete k (stake_delegations s)) (cached_votes s).
Proof.
  intros [He Hs Hv]. unfold remove_stake_delegation. destruct (stake_delegations s !! k) as [a|] eqn:Hk.
  - assert (stake_ok a) as Ha by exact (sound_stakes _ Hs k a Hk). pose proof Ha as (d & Hd & _).
    destruct (stake_of_Ok rate (stakes_epoch s) (stakes_history s) a Ha He) as [-> _]. unfold sa_delegation. rewrite Hd.
    cbn [unwrap rbind]. edestruct (sub_exact (weight rate s)) as (v & Hsub & Hv' & Heq); [exact Hv| |rewrite Hsub].
    { intros j. unfold weight. rewrite (weight_delete _ _ _ _ k a j Hk), (share_voter _ _ _ a d j Hd).
      instantiate (1 := weight_in rate (stakes_epoch s) (stakes_history s) (delete k (stake_delegations s))).
      case_decide; lia. }
    cbn [rbind]. eexists. split; [done|]. split; [split; [done|by apply sound_delete|done]|]. by split_and!.
  - exists s. split; [done|]. split; [by split|]. by rewrite delete_id.
Qed.
Lemma upsert_stake_ok rate s k a :
  exact rate s → stake_ok a → supply (<[k := a]> (stake_delegations s)) ≤ u64_max →
  ∃ s', upsert_stake_delegation rate k a s = Ok s' ∧ exact rate s' ∧
    turns s s' (<[k := a]> (stake_delegations s)) (cached_votes s).
Proof.
  intros [He Hs Hv] Ha Hsup. pose proof Ha as (d & Hd & _).
  assert (sound (<[k := a]> (stake_delegations s))) as Hs' by (split; [by apply map_Forall_insert_2, Hs|done]).
  set (epoch := stakes_epoch s). set (h := stakes_history s).
  set (w' := weight_in rate epoch h (<[k := a]> (stake_delegations s))).
  assert (∃ v, (match stake_delegations s !! k with
    | None => Ok (add_stake (voter_pubkey d) (eff rate epoch h a) (stakes_vote_accounts s))
    | Some old =>
        let! old_d := sa_delegation old in
        let! old_stake := stake_of rate epoch h old in
        if negb (key_eqb (voter_pubkey d) (voter_pubkey old_d)) || negb (eff rate epoch h a =? old_stake) then
          let! v := sub_stake (voter_pubkey old_d) old_stake (stakes_vote_accounts s) in
          Ok (add_stake (voter_pubkey d) (eff rate epoch h a) v)
        else Ok (stakes_vote_accounts s)
    end) = Ok v ∧ va_exact w' v ∧ snd <$> vote_accounts v = cached_votes s) as (v & Hup & Hv' & Heq).
  { assert (fits w') as Hf by by apply weight_fits.
    destruct (stake_delegations s !! k) as [old|] eqn:Hk.
    - assert (stake_ok old) as Hold by exact (sound_stakes _ Hs k old Hk). pose proof Hold as (d' & Hd' & _).
      destruct (stake_of_Ok rate epoch h old Hold He) as [-> _]. unfold sa_delegation. rewrite Hd'. cbn [unwrap rbind].
      set (w1 := weight_in rate epoch h (delete k (stake_delegations s))).
      assert (∀ j, weight rate s j = if decide (j = voter_pubkey d') then w1 j + eff rate epoch h old else w1 j) as Hsub.
      { intros j. unfold weight. rewrite (weight_delete _ _ _ _ k old j Hk), (share_voter _ _ _ old d' j Hd').
        fold epoch h w1. case_decide; lia. }
      assert (∀ j, w' j = if decide (j = voter_pubkey d) then w1 j + eff rate epoch h a else w1 j) as Hadd.
      { intros j. unfold w', w1. rewrite <-insert_delete_eq, weight_insert by apply lookup_delete_eq.
        rewrite (share_voter _ _ _ a d j Hd). case_decide; lia. }
      destruct (negb _ || negb _) eqn:Hch.
      + destruct (sub_exact _ w1 _ _ _ Hv Hsub) as (v & -> & Hv1 & Heq). cbn [rbind]. eexists. split; [done|].
        destruct (add_exact w1 w' v _ _ Hf Hv1 Hadd) as [Hv2 Heq2]. split; [done|]. by rewrite Heq2, Heq.
      + apply orb_false_iff in Hch as [Hvo%negb_false_iff%key_eqb_true Hst%negb_false_iff%N.eqb_eq].
        eexists. split; [done|]. split; [|done]. destruct Hv as [Hw Hn]. split; [|done].
        intros j n va Hj. rewrite (Hw j n va Hj), Hsub, Hadd, Hvo, Hst. done.
    - eexists. split; [done|]. apply (add_exact (weight rate s) w'); [done|done|]. intros j. unfold w', weight.
      rewrite weight_insert by done. rewrite (share_voter _ _ _ a d j Hd). fold epoch h. case_decide; lia. }
  unfold upsert_stake_delegation. destruct (stake_of_Ok rate epoch h a Ha He) as [Hst _]. fold epoch h. rewrite Hst.
  unfold sa_delegation at 1. rewrite Hd. cbn [unwrap rbind]. rewrite Hup. cbn [rbind].
  eexists. split; [done|]. split; [by split|]. by split_and!.
Qed.

(** ** All weights at once *)
Lemma delegated_ok rate epoch h l :
  (∀ a, a ∈ l → stake_ok a) → epoch ≤ u64_max → list_sum amount_of l ≤ u64_max →
  ∃ m, delegated_stakes rate epoch h l = Ok m ∧ ∀ k, default 0 (m !! k) = list_sum (share rate epoch h k) l.
Proof.
  intros Hl He Hs. induction l as [|a l IH]; [by exists ∅|]. rewrite list_sum_cons in Hs.
  assert (stake_ok a) as Ha by (apply Hl; left). assert (∀ x, x ∈ l → stake_ok x) as Hl' by (intros; apply Hl; by right).
  destruct IH as (m & Hm & Hk); [done|lia|]. pose proof Ha as (d & Hd & _). cbn [delegated_stakes]. rewrite Hm. cbn [rbind].
  unfold sa_delegation. rewrite Hd. cbn [unwrap rbind]. rewrite (effective_stake_ok rate epoch h a d Hd) by done. cbn [rbind].
  eexists. split; [done|]. intros k. rewrite list_sum_cons, <-Hk. unfold add_to.
  pose proof (share_sum_le rate epoch h k l Hl' He) as Hle. pose proof (share_le rate epoch h k a Ha He) as Hle'.
  rewrite <-Hk in Hle. rewrite (share_voter _ _ _ a d k Hd) in Hle'. rewrite (share_voter _ _ _ a d k Hd).
  case_decide; [subst k; rewrite lookup_insert_eq|rewrite lookup_insert_ne by done; done].
  simpl. rewrite wrapping_add_small; lia.
Qed.
Lemma refresh_ok rate epoch h v m :
  sound m → epoch ≤ u64_max →
  ∃ v', refresh_vote_accounts rate epoch v (map_to_list m).*2 h = Ok v' ∧ va_exact (weight_in rate epoch h m) v' ∧
    snd <$> vote_accounts v' = snd <$> vote_accounts v.
Proof.
  intros [Hm Hs] He. unfold refresh_vote_accounts.
  destruct (delegated_ok rate epoch h (map_to_list m).*2) as (ws & -> & Hws).
  { by apply values_ok. } { done. } { unfold supply in Hs. by rewrite map_sum_list in Hs. }
  cbn [rbind]. eexists. split; [done|]. split; [split; [|done]|].
  - simpl. intros k n va. rewrite map_lookup_imap. destruct (vote_accounts v !! k) as [x|]; simpl; [|done].
    intros [= <- <-]. rewrite Hws. unfold weight_in. by rewrite map_sum_list.
  - apply map_eq. intros k. simpl. rewrite !lookup_fmap, map_lookup_imap. by destruct (vote_accounts v !! k).
Qed.
Lemma status_sum_ok rate epoch h l :
  (∀ a, a ∈ l → stake_ok a) → epoch ≤ u64_max → ∃ x, sum_status rate epoch h l = Ok x.
Proof.
  intros Hl He. induction l as [|a l IH]; [by eexists|]. destruct IH as [x Hx]; [intros; apply Hl; by right|].
  destruct (Hl a (list_elem_of_here _ _)) as (d & Hd & Hr). cbn [sum_status]. rewrite Hx. cbn [rbind].
  unfold sa_delegation. rewrite Hd. cbn [unwrap rbind]. destruct (status_eff rate epoch h a d Hd Hr He) as (y & -> & _).
  by eexists.
Qed.
(** the next epoch starts with the weights of its delegations, whatever the cache held *)
Lemma activate_ok rate s epoch :
  sound (stake_delegations s) → stakes_epoch s ≤ u64_max → epoch ≤ u64_max →
  ∃ s', activate_epoch rate epoch s = Ok s' ∧ exact rate s' ∧ stake_delegations s' = stake_delegations s ∧
    cached_votes s' = cached_votes s ∧ stakes_epoch s' = epoch.
Proof.
  intros Hs He0 He. unfold activate_epoch. destruct Hs as [Hm Hsup] eqn:Hs'. clear Hs'.
  destruct (status_sum_ok rate (stakes_epoch s) (stakes_history s) (map_to_list (stake_delegations s)).*2) as [x ->];
    [by apply values_ok|done|]. cbn [rbind].
  destruct (refresh_ok rate epoch (stake_history_add (stakes_epoch s) x (stakes_history s)) (stakes_vote_accounts s)
    (stake_delegations s)) as (v & -> & Hv & Heq); [done..|]. cbn [rbind]. eexists. split; [done|]. by split_and!.
Qed.
Lemma update_ok rate s l m :
  m = filter (λ x, lamports (sa_account x.2) ≠ 0) (foldl (λ m x, <[x.1 := x.2]> m) (stake_delegations s) (rewarded_accounts l)) →
  sound m → stakes_epoch s ≤ u64_max →
  ∃ s', update_stake_accounts rate l s = Ok s' ∧ exact rate s' ∧ turns s s' m (cached_votes s).
Proof.
  intros -> Hs He. unfold update_stake_accounts. cbv zeta.
  destruct (refresh_ok rate (stakes_epoch s) (stakes_history s) (stakes_vote_accounts s) _ Hs He) as (v & -> & Hv & Heq).
  cbn [rbind]. eexists. split; [done|]. by split_and!.
Qed.
Lemma invalid_ok rate keys : ∀ s,
  exact rate s → ∃ s', handle_invalid_keys keys s = Ok s' ∧ exact rate s' ∧
    turns s s' (stake_delegations s) (foldl (λ v k, delete k v) (cached_votes s) keys).
Proof.
  induction keys as [|k keys IH]; intros s Hs; [by exists s|].
  destruct (remove_vote_ok rate s k Hs) as (s1 & H1 & Hs1 & Hm1 & Hv1 & He1 & Hh1).
  destruct (IH s1 Hs1) as (s2 & H2 & Hs2 & Hm2 & Hv2 & He2 & Hh2). exists s2. unfold handle_invalid_keys in *.
  cbn [foldl rbind]. rewrite H1. split; [done|]. split; [done|]. split_and!; congruence.
Qed.

Lemma node_stakes_ok l :
  (∀ node, list_sum (node_share node) l.*2 ≤ u64_max) → nodes_for (λ node, list_sum (node_share node) l.*2) (node_stakes l).
Proof.
  induction l as [|[k [n va]] l IH]; intros Hle; [done|].
  assert (∀ node, list_sum (node_share node) ((k, (n, va)) :: l).*2 = list_sum (node_share node) l.*2 + at_node va n node) as Hc.
  { intros node. rewrite fmap_cons, list_sum_cons. unfold node_share at 1, at_node. simpl. lia. }
  destruct (add_node_exact (λ node, list_sum (node_share node) l.*2)
    (λ node, list_sum (node_share node) ((k, (n, va)) :: l).*2) n va (node_stakes l)) as (m & Hm & Hn); [|exact Hc|exact Hle|].
  - apply IH. intros node. specialize (Hle node). rewrite Hc in Hle. lia.
  - cbn [node_stakes foldr]. fold (node_stakes l). rewrite Hm. exact Hn.
Qed.
Lemma staked_nodes_ok rate s :
  exact rate s → nodes_exact (vote_accounts (stakes_vote_accounts s)) (get_staked_nodes (stakes_vote_accounts s)).1.
Proof.
  intros [He Hs [Hw Hn]]. unfold get_staked_nodes. simpl. destruct (staked_nodes _) as [m|]; [by apply Hn|]. simpl.
  assert (∀ node, node_weight (vote_accounts (stakes_vote_accounts s)) node ≤ u64_max) as Hle.
  { intros node. eapply node_weight_fits; [|exact Hw]. by apply weight_fits. }
  intros node. specialize (Hle node) as Hle'. unfold node_weight. rewrite map_sum_list. apply node_stakes_ok.
  intros node'. specialize (Hle node'). unfold node_weight in Hle. by rewrite map_sum_list in Hle.
Qed.

(** ** The accounts of the bank *)
Definition stored_stake (a : AccountSharedData) : option StakeAccount :=
  if lamports a =? 0 then None else match stake_account_try_from a with Ok x => Some x | _ => None end.
Definition stored_vote (a : AccountSharedData) : option VoteAccount :=
  if (lamports a =? 0) || negb (vote_is_correct_size_and_initialized (data a)) then None else vote_account_try_from a.
Definition stakes_in (db : gmap Pubkey AccountSharedData) : gmap Pubkey StakeAccount := omap stored_stake db.
Definition votes_in (db : gmap Pubkey AccountSharedData) : gmap Pubkey VoteAccount := omap stored_vote db.
(** the cache holds the delegations, and the vote accounts but for some whose state cannot be read *)
Record mirrors (db : gmap Pubkey AccountSharedData) (s : Stakes) : Prop := {
  mirrors_stakes : stake_delegations s = stakes_in db;
  mirrors_cached : ∀ k va, cached_votes s !! k = Some va → votes_in db !! k = Some va;
  mirrors_votes : ∀ k va, votes_in db !! k = Some va → va_vote_state va ≠ None → cached_votes s !! k = Some va }.
(** an account keeps its owner while it has lamports *)
Definition owner_kept (db : gmap Pubkey AccountSharedData) (k : Pubkey) (a : AccountSharedData) : Prop :=
  ∀ old, db !! k = Some old → lamports old ≠ 0 → owner old = stake_program_id ∨ owner old = vote_program_id →
  owner a = owner old.

Lemma stored_stake_owner a x : stored_stake a = Some x → lamports a ≠ 0 ∧ owner a = stake_program_id ∧ sa_account x = a.
Proof.
  unfold stored_stake, stake_account_try_from. destruct (N.eqb_spec (lamports a) 0); [done|].
  destruct (key_eqb _ _) eqn:Ho; simpl; [|done]. apply key_eqb_true in Ho.
  destruct (shared_deserialize_data a) as [st|]; simpl; [|done]. destruct (state_delegation st); [|done]. by intros [= <-].
Qed.
Lemma stored_vote_owner a x : stored_vote a = Some x → lamports a ≠ 0 ∧ owner a = vote_program_id.
Proof.
  unfold stored_vote, vote_account_try_from. destruct (N.eqb_spec (lamports a) 0); simpl; [done|].
  destruct (vote_is_correct_size_and_initialized _); simpl; [|done]. destruct (key_eqb _ _) eqn:Ho; [|done].
  by apply key_eqb_true in Ho.
Qed.
Lemma stakes_in_store db k a : stakes_in (<[k := a]> db) = partial_alter (λ _, stored_stake a) k (stakes_in db).
Proof.
  apply map_eq. intros j. unfold stakes_in. rewrite lookup_omap. destruct (decide (j = k)) as [->|].
  - by rewrite lookup_insert_eq, lookup_partial_alter_eq.
  - by rewrite lookup_insert_ne, lookup_partial_alter_ne, lookup_omap by done.
Qed.
Lemma votes_in_store db k a : votes_in (<[k := a]> db) = partial_alter (λ _, stored_vote a) k (votes_in db).
Proof.
  apply map_eq. intros j. unfold votes_in. rewrite lookup_omap. destruct (decide (j = k)) as [->|].
  - by rewrite lookup_insert_eq, lookup_partial_alter_eq.
  - by rewrite lookup_insert_ne, lookup_partial_alter_ne, lookup_omap by done.
Qed.
Lemma no_stake_before db k a : owner_kept db k a → owner a ≠ stake_program_id → stakes_in db !! k = None.
Proof.
  intros Hk Ho. unfold stakes_in. rewrite lookup_omap. destruct (db !! k) as [old|] eqn:Hold; [|done]. simpl.
  destruct (stored_stake old) as [x|] eqn:Hx; [|done]. apply stored_stake_owner in Hx as (Hl & Hs & _).
  exfalso. apply Ho. rewrite <-Hs. by eapply Hk; [| |left].
Qed.
Lemma no_vote_before db k a : owner_kept db k a → owner a ≠ vote_program_id → votes_in db !! k = None.
Proof.
  intros Hk Ho. unfold votes_in. rewrite lookup_omap. destruct (db !! k) as [old|] eqn:Hold; [|done]. simpl.
  destruct (stored_vote old) as [x|] eqn:Hx; [|done]. apply stored_vote_owner in Hx as (Hl & Hs).
  exfalso. apply Ho. rewrite <-Hs. by eapply Hk; [| |right].
Qed.
(** a store that puts [stored_stake] and [stored_vote] into the cache mirrors the new accounts *)
Lemma mirrors_store db s s' k a m v :
  mirrors db s → turns s s' m v → m = partial_alter (λ _, stored_stake a) k (stake_delegations s) →
  v = partial_alter (λ _, stored_vote a) k (cached_votes s) → mirrors (<[k := a]> db) s'.
Proof.
  intros [Hs Hc Hv] (Hm' & Hv' & _) -> ->. split.
  - by rewrite Hm', Hs, stakes_in_store.
  - intros j va. rewrite Hv', votes_in_store. destruct (decide (j = k)) as [->|].
    + by rewrite !lookup_partial_alter_eq.
    + rewrite !lookup_partial_alter_ne by done. apply Hc.
  - intros j va. rewrite Hv', votes_in_store. destruct (decide (j = k)) as [->|].
    + by rewrite !lookup_partial_alter_eq.
    + rewrite !lookup_partial_alter_ne by done. apply Hv.
Qed.
Lemma partial_alter_none {A} (m : gmap Pubkey A) k : m !! k = None → partial_alter (λ _, None) k m = m.
Proof. intros Hk. change (delete k m = m). by apply delete_id. Qed.
Lemma stored_stake_other a : owner a ≠ stake_program_id → stored_stake a = None.
Proof. intros Ho. destruct (stored_stake a) as [x|] eqn:Hx; [|done]. by apply stored_stake_owner in Hx as (_ & ? & _). Qed.
Lemma stored_vote_other a : owner a ≠ vote_program_id → stored_vote a = None.
Proof. intros Ho. destruct (stored_vote a) as [x|] eqn:Hx; [|done]. by apply stored_vote_owner in Hx as (_ & ?). Qed.
Lemma same_stakes db s k a :
  mirrors db s → owner_kept db k a → owner a ≠ stake_program_id →
  stake_delegations s = partial_alter (λ _, stored_stake a) k (stake_delegations s).
Proof.
  intros [Hs _ _] Hk Ho. rewrite (stored_stake_other a Ho), partial_alter_none; [done|]. rewrite Hs. by eapply no_stake_before.
Qed.
Lemma same_votes db s k a :
  mirrors db s → owner_kept db k a → owner a ≠ vote_program_id →
  cached_votes s = partial_alter (λ _, stored_vote a) k (cached_votes s).
Proof.
  intros [_ Hc _] Hk Ho. rewrite (stored_vote_other a Ho), partial_alter_none; [done|].
  destruct (cached_votes s !! k) as [va|] eqn:Hva; [|done]. apply Hc in Hva. by rewrite (no_vote_before db k a Hk Ho) in Hva.
Qed.
Lemma programs_differ : vote_program_id ≠ stake_program_id.
Proof. intros Heq. by vm_compute in Heq. Qed.

Lemma store_vote_ok rate s db k a :
  exact rate s → mirrors db s → owner_kept db k a → owner a = vote_program_id →
  ∃ s', check_and_store rate k a s = Ok s' ∧ exact rate s' ∧ mirrors (<[k := a]> db) s' ∧
    turns s s' (stake_delegations s) (partial_alter (λ _, stored_vote a) k (cached_votes s)).
Proof.
  intros Hs Hmir Hk Ho. assert (owner a ≠ stake_program_id) as Hns by (rewrite Ho; apply programs_differ).
  pose proof (same_stakes db s k a Hmir Hk Hns) as Hsame.
  assert (∃ s', (match stored_vote a with Some va => upsert_vote_account rate k va s | None => remove_vote_account k s end) = Ok s' ∧
    exact rate s' ∧ turns s s' (stake_delegations s) (partial_alter (λ _, stored_vote a) k (cached_votes s))) as (s' & Hr & He & Ht).
  { destruct (stored_vote a) as [va|]; [by apply upsert_vote_ok|by apply remove_vote_ok]. }
  exists s'. split; [|split; [done|split; [by eapply mirrors_store|done]]]. rewrite <-Hr. unfold check_and_store, stored_vote.
  rewrite Ho, key_eqb_refl. destruct (lamports a =? 0); simpl; [done|].
  destruct (vote_is_correct_size_and_initialized _); simpl; [|done]. unfold vote_account_try_from. by rewrite Ho, key_eqb_refl.
Qed.
Lemma store_stake_ok rate s db k a :
  exact rate s → mirrors db s → owner_kept db k a → owner a = stake_program_id → sound (stakes_in (<[k := a]> db)) →
  ∃ s', check_and_store rate k a s = Ok s' ∧ exact rate s' ∧ mirrors (<[k := a]> db) s'.
Proof.
  intros Hs Hmir Hk Ho Hsnd. assert (owner a ≠ vote_program_id) as Hnv by (rewrite Ho; intros Heq; by apply programs_differ).
  pose proof (same_votes db s k a Hmir Hk Hnv) as Hsame. rewrite stakes_in_store, <-(mirrors_stakes _ _ Hmir) in Hsnd.
  assert (∃ s', (match stored_stake a with Some x => upsert_stake_delegation rate k x s | None => remove_stake_delegation rate k s end) = Ok s' ∧
    exact rate s' ∧ turns s s' (partial_alter (λ _, stored_stake a) k (stake_delegations s)) (cached_votes s)) as (s' & Hr & He & Ht).
  { destruct (stored_stake a) as [x|]; [|by apply remove_stake_ok].
    destruct Hsnd as [Hok Hsup]. apply upsert_stake_ok; [done| |exact Hsup]. eapply (Hok k). apply lookup_partial_alter_eq. }
  exists s'. split; [|split; [done|by eapply mirrors_store]]. rewrite <-Hr. unfold check_and_store, stored_stake.
  rewrite (proj2 (key_eqb_false _ _) Hnv), Ho, key_eqb_refl. destruct (lamports a =? 0); [done|].
  unfold stake_account_try_from. rewrite Ho, key_eqb_refl. simpl. destruct (shared_deserialize_data a) as [st|]; simpl; [|done].
  by destruct (state_delegation st).
Qed.
Lemma store_ok rate s db k a :
  exact rate s → mirrors db s → owner_kept db k a → sound (stakes_in (<[k := a]> db)) →
  ∃ s', check_and_store rate k a s = Ok s' ∧ exact rate s' ∧ mirrors (<[k := a]> db) s'.
Proof.
  intros Hs Hmir Hk Hsnd. destruct (decide (owner a = vote_program_id)) as [Hv|Hv].
  { destruct (store_vote_ok rate s db k a Hs Hmir Hk Hv) as (s' & ? & ? & ? & _). by exists s'. }
  destruct (decide (owner a = stake_program_id)) as [Ho|Ho]; [by apply store_stake_ok|].
  exists s. split; [|split; [done|]].
  - unfold check_and_store. rewrite (proj2 (key_eqb_false _ _) Hv), (proj2 (key_eqb_false _ _) Ho). by destruct (_ =? 0).
  - eapply mirrors_store; [done|by split_and!| |]; [by eapply same_stakes|by eapply same_votes].
Qed.

(** ** Operations of the bank *)
Inductive cache_op :=
| CacheStore (k : Pubkey) (a : AccountSharedData)
| CacheEpoch (rate : option N) (epoch : N)
| CacheRewards (l : list StakeReward)
| CacheInvalid (keys : list Pubkey)
| CacheNodes.
Definition run_op (op : cache_op) (x : option N * Stakes) : result InstructionError (option N * Stakes) :=
  match op with
  | CacheStore k a => rmap (pair x.1) (check_and_store x.1 k a x.2)
  | CacheEpoch rate epoch => rmap (pair rate) (activate_epoch rate epoch x.2)
  | CacheRewards l => rmap (pair x.1) (update_stake_accounts x.1 l x.2)
  | CacheInvalid keys => rmap (pair x.1) (handle_invalid_keys keys x.2)
  | CacheNodes => Ok (x.1, set_stakes_vote_accounts (get_staked_nodes (stakes_vote_accounts x.2)).2 x.2)
  end.
Definition run_ops (ops : list cache_op) (x : option N * Stakes) : result InstructionError (option N * Stakes) :=
  foldl (λ r op, let! x := r in run_op op x) (Ok x) ops.
Definition rewarded (l : list StakeReward) (db : gmap Pubkey AccountSharedData) : gmap Pubkey AccountSharedData :=
  foldl (λ db r, <[stake_pubkey r := stake_account r]> db) db l.
(** what the operation does to the accounts *)
Definition db_after (op : cache_op) (db : gmap Pubkey AccountSharedData) : gmap Pubkey AccountSharedData :=
  match op with
  | CacheStore k a => <[k := a]> db
  | CacheRewards l => rewarded l db
  | _ => db
  end.
(** what the bank keeps to: owners do not change under lamports, the stakes are [u64]s and add up to
    one, rewards go to stake accounts, and only unreadable vote accounts are invalid *)
Definition allowed (op : cache_op) (db : gmap Pubkey AccountSharedData) : Prop :=
  match op with
  | CacheStore k a => owner_kept db k a ∧ sound (stakes_in (<[k := a]> db))
  | CacheEpoch _ epoch => epoch ≤ u64_max
  | CacheRewards l =>
      (∀ r, r ∈ l → (∃ x, stake_account_try_from (stake_account r) = Ok x) ∧ owner_kept db (stake_pubkey r) (stake_account r)) ∧
      sound (stakes_in (rewarded l db))
  | CacheInvalid keys => ∀ k va, k ∈ keys → votes_in db !! k = Some va → va_vote_state va = None
  | CacheNodes => True
  end.
Definition accounts_after : list cache_op → gmap Pubkey AccountSharedData := foldl (λ db op, db_after op db) ∅.
Fixpoint all_allowed (ops : list cache_op) (db : gmap Pubkey AccountSharedData) : Prop :=
  match ops with [] => True | op :: ops => allowed op db ∧ all_allowed ops (db_after op db) end.

Lemma try_from_account a x : stake_account_try_from a = Ok x → sa_account x = a ∧ owner a = stake_program_id.
Proof.
  unfold stake_account_try_from. destruct (key_eqb _ _) eqn:Ho; simpl; [|done]. apply key_eqb_true in Ho.
  destruct (shared_deserialize_data a) as [st|]; simpl; [|done]. destruct (state_delegation st); [|done]. by intros [= <-].
Qed.
Lemma stakes_in_live db : filter (λ x, lamports (sa_account x.2) ≠ 0) (stakes_in db) = stakes_in db.
Proof.
  apply map_filter_id. intros k x Hx. unfold stakes_in in Hx. apply lookup_omap_Some in Hx as (a & Ha & _).
  apply stored_stake_owner in Ha as (Hn & _ & Hx). simpl. by rewrite Hx.
Qed.
Lemma rewarded_stakes l : ∀ m db,
  (∀ r, r ∈ l → ∃ x, stake_account_try_from (stake_account r) = Ok x) →
  filter (λ x, lamports (sa_account x.2) ≠ 0) m = stakes_in db →
  filter (λ x, lamports (sa_account x.2) ≠ 0) (foldl (λ m x, <[x.1 := x.2]> m) m (rewarded_accounts l)) =
  stakes_in (rewarded l db).
Proof.
  induction l as [|r l IH]; intros m db Hl Hm; [done|]. destruct (Hl r (list_elem_of_here _ _)) as [x Hx].
  unfold rewarded_accounts, rewarded in *. cbn [omap list_omap foldl]. rewrite Hx. cbn [foldl fst snd].
  apply IH; [intros; apply Hl; by right|]. pose proof (try_from_account _ _ Hx) as [Ha _].
  rewrite stakes_in_store, <-Hm, map_filter_insert. unfold stored_stake. rewrite Hx. simpl. rewrite Ha.
  destruct (N.eqb_spec (lamports (stake_account r)) 0) as [H0|H0]; [rewrite decide_False by tauto|by rewrite decide_True].
  rewrite map_filter_delete. done.
Qed.
Lemma rewarded_votes l : ∀ db,
  (∀ r, r ∈ l → (∃ x, stake_account_try_from (stake_account r) = Ok x) ∧ votes_in db !! stake_pubkey r = None) →
  votes_in (rewarded l db) = votes_in db.
Proof.
  induction l as [|r l IH]; intros db Hl; [done|]. destruct (Hl r (list_elem_of_here _ _)) as [[x Hx] Hr].
  assert (votes_in (<[stake_pubkey r := stake_account r]> db) = votes_in db) as Heq.
  { rewrite votes_in_store, stored_vote_other; [by apply partial_alter_none|].
    apply try_from_account in Hx as [_ ->]. intros Heq. by apply programs_differ. }
  unfold rewarded. cbn [foldl]. fold (rewarded l (<[stake_pubkey r := stake_account r]> db)). rewrite IH; [done|].
  intros r' Hr'. rewrite Heq. apply Hl. by right.
Qed.
Lemma invalid_lookup keys k : ∀ v : gmap Pubkey VoteAccount,
  foldl (λ v k, delete k v) v keys !! k = if decide (k ∈ keys) then None else v !! k.
Proof.
  induction keys as [|j keys IH]; intros v; [by rewrite decide_False by set_solver|]. cbn [foldl]. rewrite IH.
  destruct (decide (k ∈ keys)); [by rewrite decide_True by set_solver|].
  destruct (decide (k = j)) as [->|]; [rewrite lookup_delete_eq, decide_True by set_solver; done|].
  by rewrite lookup_delete_ne, decide_False by set_solver.
Qed.

Lemma rewards_ok rate s db l :
  exact rate s → mirrors db s →
  (∀ r, r ∈ l → (∃ x, stake_account_try_from (stake_account r) = Ok x) ∧ owner_kept db (stake_pubkey r) (stake_account r)) →
  sound (stakes_in (rewarded l db)) →
  ∃ s', update_stake_accounts rate l s = Ok s' ∧ exact rate s' ∧ mirrors (rewarded l db) s' ∧
    turns s s' (stakes_in (rewarded l db)) (cached_votes s).
Proof.
  intros [He _ _] [Hst Hc Hv] Hl Hsnd.
  assert (filter (λ x, lamports (sa_account x.2) ≠ 0) (foldl (λ m x, <[x.1 := x.2]> m) (stake_delegations s) (rewarded_accounts l)) =
    stakes_in (rewarded l db)) as Hm.
  { apply rewarded_stakes; [intros r Hr; by apply Hl|]. by rewrite Hst, stakes_in_live. }
  destruct (update_ok rate s l _ (eq_sym Hm) Hsnd He) as (s' & Hr & Hex & Ht). exists s'. split; [done|]. split; [done|]. split; [|done].
  destruct Ht as (Hm' & Hcv & _). assert (votes_in (rewarded l db) = votes_in db) as Heq.
  { apply rewarded_votes. intros r Hin. destruct (Hl r Hin) as [[x Hx] Hk]. split; [by exists x|].
    eapply no_vote_before; [exact Hk|]. apply try_from_account in Hx as [_ ->]. intros Hd. by apply programs_differ. }
  split; by rewrite ?Hm', ?Hcv, ?Heq.
Qed.
Lemma op_ok op rate s db :
  exact rate s → mirrors db s → allowed op db →
  ∃ rate' s', run_op op (rate, s) = Ok (rate', s') ∧ exact rate' s' ∧ mirrors (db_after op db) s'.
Proof.
  intros Hs Hmir Hok. pose proof Hmir as [Hst Hc Hv]. destruct op as [k a|rate' epoch|l|keys|]; simpl in Hok |- *.
  - destruct Hok as [Hk Hsnd]. destruct (store_ok rate s db k a Hs Hmir Hk Hsnd) as (s' & -> & He & Hm). simpl. eauto.
  - destruct Hs as [He Hsnd _]. destruct (activate_ok rate' s epoch Hsnd He Hok) as (s' & -> & Hex & Hm & Hcv & _). simpl.
    do 2 eexists. split; [done|]. split; [done|]. split; by rewrite ?Hm, ?Hcv.
  - destruct Hok as [Hl Hsnd]. destruct (rewards_ok rate s db l Hs Hmir Hl Hsnd) as (s' & -> & Hex & Hm & _). simpl. eauto.
  - destruct (invalid_ok rate keys s Hs) as (s' & -> & Hex & Hm & Hcv & _). simpl. do 2 eexists. split; [done|]. split; [done|].
    split; [by rewrite Hm| |]; intros k va; rewrite Hcv, invalid_lookup.
    + case_decide; [done|]. apply Hc.
    + intros Hva Hread. rewrite decide_False; [by apply Hv|]. intros Hin. by apply Hread, (Hok k).
  - do 2 eexists. split; [done|]. split; [|done]. destruct Hs as [He Hsnd [Hw Hn]]. split; [done..|]. split; [done|].
    simpl. intros m [= <-]. apply (staked_nodes_ok rate). by split.
Qed.
Lemma ops_ok ops : ∀ rate s db,
  exact rate s → mirrors db s → all_allowed ops db →
  ∃ rate' s', run_ops ops (rate, s) = Ok (rate', s') ∧ exact rate' s' ∧ mirrors (foldl (λ db op, db_after op db) db ops) s'.
Proof.
  induction ops as [|op ops IH]; intros rate s db Hs Hm Hok; [by exists rate, s|]. destruct Hok as [Hop Hops].
  destruct (op_ok op rate s db Hs Hm Hop) as (rate1 & s1 & H1 & Hs1 & Hm1).
  destruct (IH rate1 s1 _ Hs1 Hm1 Hops) as (rate2 & s2 & H2 & Hs2 & Hm2). exists rate2, s2. split; [|done].
  unfold run_ops in *. cbn [foldl rbind]. by rewrite H1.
Qed.

(** ** The stakes of an epoch *)
Definition counts_for (epoch : N) (node : Pubkey) (x : Pubkey * (N * VoteAccount)) : Prop :=
  fst <$> epoch_voter epoch x.2 = Some node.
#[local] Instance counts_for_dec epoch node x : Decision (counts_for epoch node x).
Proof. unfold counts_for. apply _. Defined.
(** the vote accounts of a node that count *)
Definition counted (epoch : N) (node : Pubkey) (l : list (Pubkey * (N * VoteAccount))) : list (Pubkey * (N * VoteAccount)) :=
  filter (counts_for epoch node) l.
Definition node_entry (l : list (Pubkey * (N * VoteAccount))) : option NodeVoteAccounts :=
  match l with [] => None | _ => Some (mkNodeVoteAccounts l.*1 (list_sum (λ x, x.2.1) l)) end.

Lemma list_sum_app {A} (f : A → N) l l' : list_sum f (l ++ l') = list_sum f l + list_sum f l'.
Proof. induction l as [|x l IH]; [done|]. rewrite <-app_comm_cons, !list_sum_cons. lia. Qed.
Lemma list_sum_snoc {A} (f : A → N) l x : list_sum f (l ++ [x]) = list_sum f l + f x.
Proof. rewrite list_sum_app, list_sum_cons. change (list_sum f []) with 0. lia. Qed.
Lemma list_sum_filter {A} (P : A → Prop) `{∀ x, Decision (P x)} (f : A → N) l : list_sum f (filter P l) ≤ list_sum f l.
Proof.
  induction l as [|x l IH]; [done|]. rewrite list.filter_cons, list_sum_cons. destruct (decide (P x)); [rewrite list_sum_cons|]; lia.
Qed.
Lemma total_ok (l : list (Pubkey * (N * VoteAccount))) :
  list_sum (λ x, x.2.1) l ≤ u64_max → foldl (λ n x, wrapping_add n x.2.1) 0 l = list_sum (λ x, x.2.1) l.
Proof.
  induction l as [|x l IH] using rev_ind; [done|]. rewrite foldl_app, list_sum_snoc. cbn [foldl]. intros Hle.
  rewrite IH by lia. rewrite wrapping_add_small by lia. lia.
Qed.
Lemma add_counted epoch node k x l :
  list_sum (λ y : Pubkey * (N * VoteAccount), y.2.1) (l ++ [(k, x)]) ≤ u64_max →
  Some (add_vote_account k x.1 (default (mkNodeVoteAccounts [] 0) (node_entry (counted epoch node l)))) =
  node_entry (counted epoch node l ++ [(k, x)]).
Proof.
  rewrite list_sum_snoc. cbn [fst snd]. intros Hle. pose proof (list_sum_filter (counts_for epoch node) (λ y, y.2.1) l) as Hf.
  fold (counted epoch node l) in Hf. assert (∀ c, list_sum (λ y : Pubkey * (N * VoteAccount), y.2.1) c ≤ list_sum (λ y, y.2.1) l →
    Some (add_vote_account k x.1 (default (mkNodeVoteAccounts [] 0) (node_entry c))) = node_entry (c ++ [(k, x)])) as Hc; [|by apply Hc].
  clear Hf. intros c Hc. destruct c as [|y c]; unfold add_vote_account; cbn [node_entry default node_vote_accounts node_total_stake app].
  - simpl in Hle. rewrite wrapping_add_small by lia. rewrite list_sum_cons. simpl. by rewrite N.add_0_r.
  - rewrite wrapping_add_small by (etrans; [apply N.add_le_mono_r, Hc|done]). rewrite app_comm_cons, list_sum_snoc. by rewrite fmap_app.
Qed.
Lemma parse_ok epoch (l : list (Pubkey * (N * VoteAccount))) :
  NoDup l.*1 → list_sum (λ x, x.2.1) l ≤ u64_max →
  let r := foldl (λ '(nodes, voters) '(k, x),
      match epoch_voter epoch x with
      | Some (node, authorized_voter) =>
          (<[node := add_vote_account k x.1 (default (mkNodeVoteAccounts [] 0) (nodes !! node))]> nodes,
           <[k := authorized_voter]> voters)
      | None => (nodes, voters)
      end) ((∅, ∅) : gmap Pubkey NodeVoteAccounts * gmap Pubkey Pubkey) l in
  (∀ node, r.1 !! node = node_entry (counted epoch node l)) ∧
  (∀ k, r.2 !! k = list_to_map (M:=gmap Pubkey _) l !! k ≫= λ x, snd <$> epoch_voter epoch x).
Proof.
  induction l as [|[k x] l IH] using rev_ind; [done|]. intros Hnd Hle. rewrite foldl_app. cbn [foldl].
  rewrite fmap_app in Hnd. apply list.NoDup_app in Hnd as (Hnd & Hk & _). specialize (IH Hnd). revert IH.
  destruct (foldl _ _ l) as [nodes voters]. intros IH. destruct IH as [Hn Hv].
  { rewrite list_sum_app in Hle. lia. }
  simpl in Hn, Hv. assert (k ∉ l.*1) as Hkl by (intros Hin; apply (Hk k Hin); simpl; by left).
  assert (∀ j, list_to_map (M:=gmap Pubkey (N * VoteAccount)) (l ++ [(k, x)]) !! j = if decide (j = k) then Some x else list_to_map (M:=gmap Pubkey _) l !! j) as Hm.
  { intros j. rewrite list_to_map_app. simpl. rewrite lookup_union. case_decide as Hj.
    - subst j. rewrite (not_elem_of_list_to_map_1 l k Hkl), left_id by apply _. apply lookup_insert_eq.
    - rewrite lookup_insert_ne, lookup_empty, right_id by (done || apply _). done. }
  assert (∀ node, counted epoch node (l ++ [(k, x)]) = counted epoch node l ++ (if decide (counts_for epoch node (k, x)) then [(k, x)] else [])) as Hc.
  { intros node. unfold counted. rewrite list.filter_app, list.filter_cons, list.filter_nil. done. }
  destruct (epoch_voter epoch x) as [[node voter]|] eqn:Hx; simpl; split.
  - intros j. rewrite Hc. destruct (decide (j = node)) as [->|Hne].
    + rewrite lookup_insert_eq, decide_True, Hn by (unfold counts_for; simpl; by rewrite Hx). by apply add_counted.
    + rewrite lookup_insert_ne, decide_False, app_nil_r by (try done; unfold counts_for; simpl; rewrite Hx; simpl; congruence). apply Hn.
  - intros j. rewrite Hm. case_decide as Hj; [subst j; simpl; by rewrite lookup_insert_eq, Hx|]. rewrite lookup_insert_ne by done. apply Hv.
  - intros j. rewrite Hc, decide_False, app_nil_r by (unfold counts_for; simpl; by rewrite Hx). apply Hn.
  - intros j. rewrite Hm, Hv. case_decide as Hj; [|done]. subst j. simpl. rewrite Hx. by rewrite (not_elem_of_list_to_map_1 l k Hkl).
Qed.
Lemma cached_total rate s :
  exact rate s → list_sum (λ x, x.2.1) (map_to_list (vote_accounts (stakes_vote_accounts s))) =
    list_sum (weight rate s) (map_to_list (cached_votes s)).*1 ∧
  list_sum (weight rate s) (map_to_list (cached_votes s)).*1 ≤ u64_max.
Proof.
  intros [He Hs [Hw _]]. split; [|apply weight_fits; [done..|apply NoDup_fst_map_to_list]].
  assert ((map_to_list (cached_votes s)).*1 = (map_to_list (vote_accounts (stakes_vote_accounts s))).*1) as ->.
  { unfold cached_votes. rewrite map_to_list_fmap, <-list_fmap_compose. done. }
  assert (∀ x, x ∈ map_to_list (vote_accounts (stakes_vote_accounts s)) → x.2.1 = weight rate s x.1) as Hx.
  { intros [k [n va]] Hx%elem_of_map_to_list. simpl. by eapply Hw. }
  induction (map_to_list (vote_accounts (stakes_vote_accounts s))) as [|x l IH]; [done|].
  rewrite !fmap_cons, !sumN_cons, IH by (intros; apply Hx; by right). f_equal. apply Hx. by left.
Qed.
Lemma epoch_stakes_ok rate s epoch :
  exact rate s →
  let e := epoch_stakes_new s epoch in
  es_total_stake e = list_sum (weight rate s) (map_to_list (cached_votes s)).*1 ∧
  (∀ k, is_Some (cached_votes s !! k) → vote_account_stake e k = weight rate s k) ∧
  (∀ node, node_id_to_vote_accounts e !! node = node_entry (counted epoch node (map_to_list (vote_accounts (stakes_vote_accounts s))))) ∧
  (∀ k, epoch_authorized_voters e !! k = vote_accounts (stakes_vote_accounts s) !! k ≫= λ x, snd <$> epoch_voter epoch x).
Proof.
  intros Hs. destruct (cached_total rate s Hs) as [Ht Hle]. rewrite <-Ht in Hle |- *.
  pose proof (parse_ok epoch _ (NoDup_fst_map_to_list (vote_accounts (stakes_vote_accounts s))) Hle) as Hp. simpl in Hp.
  unfold epoch_stakes_new, parse_epoch_vote_accounts. destruct (foldl _ (∅, ∅) _) as [nodes voters]. simpl in Hp.
  destruct Hp as [Hn Hv]. simpl. split; [by apply total_ok|]. split; [|split; [exact Hn|]].
  - intros k. unfold cached_votes. rewrite lookup_fmap. intros [va Hva]. unfold vote_account_stake, get_delegated_stake. simpl.
    destruct (vote_accounts (stakes_vote_accounts s) !! k) as [[n x]|] eqn:Hk; [|done]. simpl. eapply (exact_votes _ _ Hs), Hk.
  - intros k. by rewrite Hv, list_to_map_to_list.
Qed.
End rules.

Lemma default_exact `{!Bincode VoteStateVersions, !Bincode StakeStateV2} : exact None stakes_default ∧ mirrors ∅ stakes_default.
Proof. by repeat split. Qed.
Lemma ops_exact `{!Bincode VoteStateVersions, !Bincode StakeStateV2} ops :
  all_allowed ops ∅ →
  ∃ rate s, run_ops ops (None, stakes_default) = Ok (rate, s) ∧ exact rate s ∧ mirrors (accounts_after ops) s.
Proof. intros Hops. destruct default_exact as [He Hm]. by apply ops_ok. Qed.

(** C40: the cache of stakes follows the accounts.  Of a bank that does not change the owner of an
    account under its lamports and whose delegations add up to a [u64], whatever it stores, at
    whatever epochs it arrives and whatever rewards it pays, the cache does not panic, it holds
    exactly the delegations of the stored accounts, and their vote accounts but for unreadable ones,
    every vote account has the effective stake of its delegations, and a node has the stake of its
    vote accounts. *)
Theorem stake_cache_exact `{!Bincode VoteStateVersions, !Bincode StakeStateV2} ops :
  all_allowed ops ∅ →
  ∃ rate s, run_ops ops (None, stakes_default) = Ok (rate, s) ∧
    mirrors (accounts_after ops) s ∧
    (∀ k va, cached_votes s !! k = Some va →
       get_delegated_stake k (stakes_vote_accounts s) =
       weight_in rate (stakes_epoch s) (stakes_history s) (stakes_in (accounts_after ops)) k) ∧
    nodes_exact (vote_accounts (stakes_vote_accounts s)) (get_staked_nodes (stakes_vote_accounts s)).1.
Proof.
  intros Hops. destruct (ops_exact ops Hops) as (rate & s & Hr & He & Hm). exists rate, s. split; [done|]. split; [done|].
  split; [|by apply (staked_nodes_ok rate)]. intros k va Hva. rewrite <-(mirrors_stakes _ _ Hm).
  unfold cached_votes in Hva. rewrite lookup_fmap in Hva. unfold get_delegated_stake.
  destruct (vote_accounts (stakes_vote_accounts s) !! k) as [[n x]|] eqn:Hk; [|done]. simpl. eapply (exact_votes _ _ He), Hk.
Qed.

(** The stakes that are kept for an epoch are those of the cache.  The total is the effective
    stake of all the vote accounts, an account that has stake and a voter for the epoch is listed with
    that voter, and a node is listed with these accounts and their stake; an epoch that is at
    hand is not computed again, and the five before it stay. *)
Theorem epoch_stakes_exact `{!Bincode VoteStateVersions, !Bincode StakeStateV2} ops epoch old :
  all_allowed ops ∅ → old !! epoch = None →
  ∃ rate s e, run_ops ops (None, stakes_default) = Ok (rate, s) ∧
    update_epoch_stakes epoch s old !! epoch = Some e ∧
    (∀ j, j ≠ epoch → update_epoch_stakes epoch s old !! j = if epoch <=? j + MAX_LEADER_SCHEDULE_STAKES then old !! j else None) ∧
    es_total_stake e = list_sum (weight rate s) (map_to_list (cached_votes s)).*1 ∧
    (∀ k, is_Some (cached_votes s !! k) → vote_account_stake e k = weight rate s k) ∧
    (∀ node, node_id_to_vote_accounts e !! node =
       node_entry (counted epoch node (map_to_list (vote_accounts (stakes_vote_accounts s))))) ∧
    (∀ k, epoch_authorized_voters e !! k = vote_accounts (stakes_vote_accounts s) !! k ≫= λ x, snd <$> epoch_voter epoch x).
Proof.
  intros Hops Hold. destruct (ops_exact ops Hops) as (rate & s & Hr & He & _).
  exists rate, s, (epoch_stakes_new s epoch). split; [done|]. split; [|split; [|exact (epoch_stakes_ok rate s epoch He)]].
  - unfold update_epoch_stakes. rewrite Hold. by rewrite lookup_insert_eq.
  - intros j Hj. unfold update_epoch_stakes. rewrite Hold, lookup_insert_ne by done. rewrite map_lookup_filter.
    destruct (old !! j) as [x|]; simpl; [|by destruct (_ <=? _)]. unfold saturating_sub, MAX_LEADER_SCHEDULE_STAKES.
    destruct (N.leb_spec epoch (j + 5)); case_guard; simpl in *; try done; lia.
Qed.
