(* ===== verification/Rewards.v ===== *)
(** * Rewards of an epoch ([programs/stake/src/stake_state.rs], [runtime/src/bank.rs])

    The points that a delegation earned, the lamports they are worth, and the two ways in which
    the bank pays them: all of them at the first block of an epoch, or the vote accounts at
    that block and the stake accounts in partitions over the blocks that follow. *)

From S2P Require Import Prelude Sdk Message Rent Account EpochSchedule TransactionContext LogCollector InvokeContext Nonce SystemProgram VoteState VoteProcess ConfigProgram.
From S2P Require Import VoteProgram Stake StakeProgram Stakes LoadAccounts.
From Stdlib Require Import SpecFloat.

Definition as_u128 (n : N) : N := n `mod` 340282366920938463463374607431768211456.
(** [i64::try_from] *)
Definition i64_try_from (n : N) : option Z := if n <=? 9223372036854775807 then Some (Z.of_N n) else None.
(** the sum of an iterator of [i64] *)
Definition i64_sum (l : list Z) : Z := ((foldr Z.add 0 l + 9223372036854775808) `mod` 18446744073709551616 - 9223372036854775808)%Z.

(** ** What a delegation earned ([stake_state.rs]) *)
Record PointValue := mkPointValue { pv_rewards : N; pv_points : N }.
Record CalculatedStakePoints := mkCalculatedStakePoints {
  csp_points : N;
  csp_new_credits_observed : N;
  force_credits_update_with_skipped_reward : bool }.
Record CalculatedStakeRewards := mkCalculatedStakeRewards {
  staker_rewards : N;
  voter_rewards : N;
  csr_new_credits_observed : N }.

Section points.
Context (rate : option N) (stake_history : StakeHistory).

Fixpoint points_over (stake : Stake) (l : list (N * N * N)) (points new_credits_observed : N) : result InstructionError (N * N) :=
  match l with
  | [] => Ok (points, new_credits_observed)
  | (epoch, final_epoch_credits, initial_epoch_credits) :: l =>
      let! stake_amount := effective_stake stake_history rate (delegation stake) epoch in
      let credits_in_stake := credits_observed stake in
      let earned_credits :=
        if credits_in_stake <? initial_epoch_credits then wrapping_sub final_epoch_credits initial_epoch_credits
        else if credits_in_stake <? final_epoch_credits then wrapping_sub final_epoch_credits new_credits_observed
        else 0 in
      points_over stake l (as_u128 (points + as_u128 (stake_amount * earned_credits)))
        (N.max new_credits_observed final_epoch_credits)
  end.
Definition calculate_stake_points_and_credits (stake : Stake) (vote_state : VoteState) :
  result InstructionError CalculatedStakePoints :=
  let credits_in_stake := credits_observed stake in
  let credits_in_vote := credits vote_state in
  match N.compare credits_in_vote credits_in_stake with
  | Lt => Ok (mkCalculatedStakePoints 0 credits_in_vote true)
  | Eq => Ok (mkCalculatedStakePoints 0 credits_in_stake false)
  | Gt =>
      let! x := points_over stake (epoch_credits vote_state) 0 credits_in_stake in
      Ok (mkCalculatedStakePoints x.1 x.2 false)
  end.
Definition calculate_stake_points (stake : Stake) (vote_state : VoteState) : result InstructionError N :=
  rmap csp_points (calculate_stake_points_and_credits stake vote_state).

Definition calculate_stake_rewards (rewarded_epoch : N) (stake : Stake) (point_value : PointValue) (vote_state : VoteState) :
  result InstructionError (option CalculatedStakeRewards) :=
  let! x := calculate_stake_points_and_credits stake vote_state in
  let points := csp_points x in
  if force_credits_update_with_skipped_reward x || (pv_rewards point_value =? 0)
     || (activation_epoch (delegation stake) =? rewarded_epoch)
  then Ok (Some (mkCalculatedStakeRewards 0 0 (csp_new_credits_observed x)))
  else if points =? 0 then Ok None
  else if pv_points point_value =? 0 then Ok None else
  let! product := unwrap (checked_mul u128_max points (pv_rewards point_value)) in
  let rewards := product / pv_points point_value in
  check! (if rewards <=? u64_max then Ok tt else Panic) in
  if rewards =? 0 then Ok None else
  let '(voter, staker, is_split) := commission_split vote_state rewards in
  if ((voter =? 0) || (staker =? 0)) && is_split then Ok None
  else Ok (Some (mkCalculatedStakeRewards staker voter (csp_new_credits_observed x))).

(** the stake is a local copy of [redeem_rewards]: it is returned *)
Definition redeem_stake_rewards (rewarded_epoch : N) (stake : Stake) (point_value : PointValue) (vote_state : VoteState) :
  result InstructionError (option (N * N) * Stake) :=
  let! r := calculate_stake_rewards rewarded_epoch stake point_value vote_state in
  match r with
  | Some x =>
      let d := delegation stake in
      Ok (Some (staker_rewards x, voter_rewards x),
          mkStake (set_delegated (wrapping_add (delegated_stake d) (staker_rewards x)) d) (csr_new_credits_observed x))
  | None => Ok (None, stake)
  end.

Context `{!Bincode StakeStateV2}.
(** [StateMut::set_state] *)
Definition set_state (state : StakeStateV2) (account : AccountSharedData) : result InstructionError AccountSharedData :=
  match serialize state with
  | None => Err GenericError
  | Some _ => ok_or (shared_serialize_data state account) AccountDataTooSmall
  end.
(** [redeem_rewards] of the stake program, with the account it leaves *)
Definition stake_redeem_rewards (rewarded_epoch : N) (stake_state : StakeStateV2) (stake_account : AccountSharedData)
    (vote_state : VoteState) (point_value : PointValue) : result InstructionError (N * N * AccountSharedData) :=
  match stake_state with
  | Staked meta stake stake_flags =>
      let! x := redeem_stake_rewards rewarded_epoch stake point_value vote_state in
      match x.1 with
      | Some (stakers_reward, voters_reward) =>
          let! account :=
            match checked_add_lamports stakers_reward stake_account with
            | Ok a => Ok a
            | Err _ => Err ArithmeticOverflow
            | Panic => Panic
            end in
          let! account := set_state (Staked meta x.2 stake_flags) account in
          Ok (stakers_reward, voters_reward, account)
      | None => stake_error StakeError.NoCreditsToRedeem
      end
  | _ => Err InvalidAccountData
  end.
Definition calculate_points (stake_state : StakeStateV2) (vote_state : VoteState) : result InstructionError N :=
  match stake_state with
  | Staked _ stake _ => calculate_stake_points stake vote_state
  | _ => Err InvalidAccountData
  end.
End points.

(** ** Inflation ([sdk/src/inflation.rs]); the power function of the floats is an argument *)
Definition f64_sub : f64 → f64 → f64 := SFsub 53 1024.
Definition f64_ltb : f64 → f64 → bool := SFltb.
Definition f64_leb : f64 → f64 → bool := SFleb.
Record Inflation := mkInflation {
  initial : f64;
  terminal : f64;
  taper : f64;
  foundation_share : f64;
  foundation_term : f64 }.

Section inflation.
Context (powf : f64 → f64 → f64) (self : Inflation).
Definition inflation_total (year : f64) : result InstructionError f64 :=
  check! (if f64_leb (f64_of_u64 0) year then Ok tt else Panic) in
  let tapered := f64_mul (initial self) (powf (f64_sub (f64_of_u64 1) (taper self)) year) in
  Ok (if f64_ltb (terminal self) tapered then tapered else terminal self).
Definition inflation_foundation (year : f64) : result InstructionError f64 :=
  if f64_ltb year (foundation_term self) then rmap (λ x, f64_mul x (foundation_share self)) (inflation_total year)
  else Ok (f64_of_u64 0).
Definition inflation_validator (year : f64) : result InstructionError f64 :=
  let! total := inflation_total year in
  let! foundation := inflation_foundation year in
  Ok (f64_sub total foundation).
End inflation.

(** ** The partitions of the rewards ([epoch_rewards_hasher.rs])

    The keyed hash of an address is an argument. *)
Definition hash_to_partition (hash partitions : N) : N := N.min u128_max (partitions * hash) / (u64_max + 1).
Section partitions.
Context (sip : Hash → Pubkey → N).
Definition hash_address_to_partition (partitions : N) (seed : Hash) (address : Pubkey) : N :=
  hash_to_partition (sip seed address) partitions.
Definition hash_rewards_into_partitions (l : list StakeReward) (parent_blockhash : Hash) (num_partitions : N) :
  result InstructionError (list (list StakeReward)) :=
  foldl (λ r reward,
      let! result := r in
      let i := hash_address_to_partition num_partitions parent_blockhash (stake_pubkey reward) in
      let! part := unwrap (getN result i) in
      Ok (setN result i (part ++ [reward])))
    (Ok (replicate (N.to_nat num_partitions) [])) l.
End partitions.

(** ** The bank *)
Definition enable_partitioned_epoch_reward_id : Pubkey :=
  pubkey_of_N 0x2ccd49d101452d2e60c46e4ae2e34b6d5f33dc75970d051583a496a73a540616.
Definition stake_minimum_delegation_for_rewards_id : Pubkey :=
  pubkey_of_N 0xe031cdc71cf758549d9f583ba5e494f7c874b1abcfede93b3bce1cc0eb2ddae1.
Definition pico_inflation_id : Pubkey :=
  pubkey_of_N 0x32da36c86bd39570852850c540b6eaebdaf1ca6d3085463734a2734cd7b38380.
Definition devnet_and_testnet_id : Pubkey :=
  pubkey_of_N 0xb8f99d82200f998b98c489bc0952df919ef2b59be9f754eeea83262563bbec05.
Definition certusone_vote_id : Pubkey :=
  pubkey_of_N 0xa33a7ed25988e1473f2dd4b8d811ea384df8813710d232e0afc16043f1bfbfac.
Definition certusone_enable_id : Pubkey :=
  pubkey_of_N 0x60f106aa861f57e76946836005720e3ae9fbb06bb06690e629a6619293be017d.
Definition epoch_rewards_id : Pubkey :=
  pubkey_of_N 0x6a7d51718dc3fee02a558bf83ce66e144422a1c34950b27c1869b5a9c000000.

(** the sysvar ([sdk/program/src/epoch_rewards.rs]) *)
Record EpochRewards := mkEpochRewards {
  total_rewards : N;
  distributed_rewards : N;
  distribution_complete_block_height : N }.
Definition distribute (amount : N) (e : EpochRewards) : result InstructionError EpochRewards :=
  if saturating_add u64_max (distributed_rewards e) amount <=? total_rewards e
  then Ok (mkEpochRewards (total_rewards e) (wrapping_add (distributed_rewards e) amount) (distribution_complete_block_height e))
  else Panic.

Inductive EpochRewardStatus :=
| RewardsActive (start_block_height : N) (stake_rewards_by_partition : list (list StakeReward))
| RewardsInactive.
Record PartitionedEpochRewardsConfig := mkPartitionedEpochRewardsConfig {
  reward_calculation_num_blocks : N;
  stake_account_stores_per_block : N;
  test_enable_partitioned_rewards : bool;
  test_compare_partitioned_epoch_rewards : bool }.
Definition partitioned_epoch_rewards_config_default : PartitionedEpochRewardsConfig :=
  mkPartitionedEpochRewardsConfig 1 4096 false false.
(** what of the bank does not change while it pays *)
Record RewardSettings := mkRewardSettings {
  rs_features : gset Pubkey;
  rs_activated_slot : Pubkey → N;
  rs_epoch : N;
  rs_epoch_schedule : EpochSchedule;
  rs_rent : Rent;
  rs_inflation : Inflation;
  rs_slots_per_year : f64;
  rs_partitioned : PartitionedEpochRewardsConfig;
  rs_parent_blockhash : Hash }.
Record RewardBank := mkRewardBank {
  rb_accounts : gmap Pubkey AccountSharedData;
  rb_stakes : Stakes;
  rb_capitalization : N;
  rb_rewards : list (Pubkey * RewardInfo);
  rb_status : EpochRewardStatus;
  rb_block_height : N }.
Definition set_accounts_of (x : gmap Pubkey AccountSharedData) (b : RewardBank) : RewardBank :=
  mkRewardBank x (rb_stakes b) (rb_capitalization b) (rb_rewards b) (rb_status b) (rb_block_height b).
Definition set_stakes_of (x : Stakes) (b : RewardBank) : RewardBank :=
  mkRewardBank (rb_accounts b) x (rb_capitalization b) (rb_rewards b) (rb_status b) (rb_block_height b).
Definition set_capitalization_of (x : N) (b : RewardBank) : RewardBank :=
  mkRewardBank (rb_accounts b) (rb_stakes b) x (rb_rewards b) (rb_status b) (rb_block_height b).
Definition set_rewards_of (x : list (Pubkey * RewardInfo)) (b : RewardBank) : RewardBank :=
  mkRewardBank (rb_accounts b) (rb_stakes b) (rb_capitalization b) x (rb_status b) (rb_block_height b).
Definition set_status_of (x : EpochRewardStatus) (b : RewardBank) : RewardBank :=
  mkRewardBank (rb_accounts b) (rb_stakes b) (rb_capitalization b) (rb_rewards b) x (rb_block_height b).

(** an account without lamports is not loaded *)
Definition bank_get_account (b : RewardBank) (k : Pubkey) : option AccountSharedData :=
  match rb_accounts b !! k with
  | Some a => if lamports a =? 0 then None else Some a
  | None => None
  end.

(** what a vote account is paid *)
Record VoteReward := mkVoteReward {
  vote_account : AccountSharedData;
  vr_commission : N;
  vote_rewards : N;
  vote_needs_store : bool }.
Record VoteWithStakeDelegations := mkVoteWithStakeDelegations {
  vwd_vote_state : VoteState;
  vwd_vote_account : AccountSharedData;
  vwd_delegations : list (Pubkey * StakeAccount) }.
Inductive InvalidCacheEntryReason := Missing | BadState | WrongOwner.
Record VoteRewardsAccounts := mkVoteRewardsAccounts {
  vra_rewards : list (Pubkey * RewardInfo);
  accounts_to_store : list (option AccountSharedData) }.
Record StakeRewardCalculation := mkStakeRewardCalculation {
  src_stake_rewards : list StakeReward;
  total_stake_rewards_lamports : N }.
Record PartitionedRewardsCalculation := mkPartitionedRewardsCalculation {
  prc_vote_account_rewards : VoteRewardsAccounts;
  prc_stake_rewards_by_partition : list (list StakeReward);
  prc_total_stake_rewards_lamports : N;
  prc_old_vote_balance_and_staked : N;
  prc_validator_rewards : N }.

Definition somes {A} (l : list (option A)) : list A := omap id l.
Fixpoint sum_u128 {E A} (f : A → result E N) (l : list A) : result E N :=
  match l with
  | [] => Ok 0
  | x :: l => let! n := f x in let! m := sum_u128 f l in Ok (as_u128 (n + m))
  end.

Section bank.
Context `{!Bincode VoteStateVersions, !Bincode StakeStateV2, !Bincode EpochRewards}.
Context (powf : f64 → f64 → f64) (sip : Hash → Pubkey → N) (rs : RewardSettings).

Definition bank_active (id : Pubkey) : bool := is_active (rs_features rs) id.
Definition bank_rate : option N :=
  if bank_active reduce_stake_warmup_cooldown_id
  then Some (get_epoch (rs_epoch_schedule rs) (rs_activated_slot rs reduce_stake_warmup_cooldown_id)) else None.

(** *** Stores *)
Definition bank_store_accounts (l : list (Pubkey * AccountSharedData)) (b : RewardBank) : result InstructionError RewardBank :=
  let! s := foldl (λ r x, let! s := r in check_and_store bank_rate x.1 x.2 s) (Ok (rb_stakes b)) l in
  Ok (set_accounts_of (foldl (λ m x, <[x.1 := x.2]> m) (rb_accounts b) l) (set_stakes_of s b)).
Definition store_account (k : Pubkey) (a : AccountSharedData) (b : RewardBank) : result InstructionError RewardBank :=
  bank_store_accounts [(k, a)] b.
Definition store_account_and_update_capitalization (k : Pubkey) (a : AccountSharedData) (b : RewardBank) :
  result InstructionError RewardBank :=
  let capitalization :=
    match bank_get_account b k with
    | Some old =>
        match N.compare (lamports a) (lamports old) with
        | Gt => wrapping_add (rb_capitalization b) (lamports a - lamports old)
        | Lt => wrapping_sub (rb_capitalization b) (lamports old - lamports a)
        | Eq => rb_capitalization b
        end
    | None => wrapping_add (rb_capitalization b) (lamports a)
    end in
  store_account k a (set_capitalization_of capitalization b).
Definition get_minimum_balance_for_rent_exemption (data_len : N) : N := N.max (minimum_balance (rs_rent rs) data_len) 1.
Definition inherit_specially_retained_account_fields (old : option AccountSharedData) : N * N :=
  (from_option lamports 1 old, from_option rent_epoch 0 old).
(** [create_account_shared_data_with_fields] *)
Definition create_epoch_rewards (e : EpochRewards) (fields : N * N) : result InstructionError AccountSharedData :=
  let! size := unwrap (len <$> serialize (mkEpochRewards 0 0 0)) in
  let! n := unwrap (len <$> serialize e) in
  let! a := unwrap (shared_serialize_data e (shared_new fields.1 (N.max size n) sysvar_id)) in
  Ok (set_rent_epoch fields.2 a).
Definition update_sysvar_account (k : Pubkey) (updater : option AccountSharedData → result InstructionError AccountSharedData)
    (b : RewardBank) : result InstructionError RewardBank :=
  let! a := updater (bank_get_account b k) in
  let a := set_lamports (N.max (get_minimum_balance_for_rent_exemption (len (data a))) (lamports a)) a in
  store_account_and_update_capitalization k a b.
Definition burn_and_purge_account (k : Pubkey) (a : AccountSharedData) (b : RewardBank) : result InstructionError RewardBank :=
  let b := set_capitalization_of (wrapping_sub (rb_capitalization b) (lamports a)) b in
  store_account k (set_data (replicate (length (data a)) 0) (set_lamports 0 a)) b.

(** *** The accounts that take part *)
Definition LAMPORTS_PER_SOL : N := 1000000000.
Definition filter_stake_delegations (s : Stakes) : result InstructionError (list (Pubkey * StakeAccount)) :=
  let l := map_to_list (stake_delegations s) in
  if bank_active stake_minimum_delegation_for_rewards_id then
    let min_stake_delegation := N.max (get_minimum_delegation (rs_features rs)) LAMPORTS_PER_SOL in
    let! l := rmapM (λ x, rmap (pair x) (sa_delegation x.2)) l in
    Ok (fst <$> List.filter (λ x, min_stake_delegation <=? delegated_stake x.2) l)
  else Ok l.
(** the cached account, or the one that is stored *)
Definition reward_vote_account (b : RewardBank) (k : Pubkey) : option VoteAccount :=
  match get_vote_account k (stakes_vote_accounts (rb_stakes b)) with
  | Some va => Some va
  | None => bank_get_account b k ≫= vote_account_try_from
  end.
Definition vote_entry (b : RewardBank) (k : Pubkey) : InvalidCacheEntryReason + VoteState * AccountSharedData :=
  match reward_vote_account b k with
  | None => inl Missing
  | Some va =>
      if negb (key_eqb (owner (va_account va)) vote_program_id) then inl WrongOwner else
      match va_vote_state va with
      | None => inl BadState
      | Some vote_state => inr (vote_state, va_account va)
      end
  end.
Definition push_stake_delegation (m : gmap Pubkey VoteWithStakeDelegations) (x : Pubkey * StakeAccount * Delegation) :
  gmap Pubkey VoteWithStakeDelegations :=
  match m !! voter_pubkey x.2 with
  | Some v =>
      <[voter_pubkey x.2 := mkVoteWithStakeDelegations (vwd_vote_state v) (vwd_vote_account v) (vwd_delegations v ++ [x.1])]> m
  | None => m
  end.
Definition load_vote_and_stake_accounts_of (b : RewardBank) :
  result InstructionError (gmap Pubkey VoteWithStakeDelegations * list (Pubkey * InvalidCacheEntryReason)) :=
  let! stake_delegations := filter_stake_delegations (rb_stakes b) in
  let! l := rmapM (λ x, rmap (pair x) (sa_delegation x.2)) stake_delegations in
  let voter_pubkeys := elements (list_to_set ((λ x, voter_pubkey x.2) <$> l) : gset Pubkey) in
  let invalid_vote_keys := omap (λ k, match vote_entry b k with inl e => Some (k, e) | inr _ => None end) voter_pubkeys in
  let entries :=
    omap (λ k, match vote_entry b k with inr (s, a) => Some (k, mkVoteWithStakeDelegations s a []) | inl _ => None end) voter_pubkeys in
  Ok (foldl push_stake_delegation (list_to_map entries) l, invalid_vote_keys).
Definition load_vote_and_stake_accounts (b : RewardBank) :
  result InstructionError (gmap Pubkey VoteWithStakeDelegations * RewardBank) :=
  let! x := load_vote_and_stake_accounts_of b in
  let! s := handle_invalid_keys x.2.*1 (rb_stakes b) in
  Ok (x.1, set_stakes_of s b).

(** *** Points *)
Definition points_or_0 (history : StakeHistory) (vote_state : VoteState) (a : StakeAccount) : result InstructionError N :=
  match calculate_points bank_rate history (sa_state a) vote_state with Ok n => Ok n | Err _ => Ok 0 | Panic => Panic end.
Definition point_value_of (rewards points : N) : option PointValue :=
  if 0 <? points then Some (mkPointValue rewards points) else None.
Definition calculate_reward_points (m : gmap Pubkey VoteWithStakeDelegations) (rewards : N) (history : StakeHistory) :
  result InstructionError (option PointValue) :=
  rmap (point_value_of rewards)
    (sum_u128 (λ x, sum_u128 (λ y, points_or_0 history (vwd_vote_state x.2) y.2) (vwd_delegations x.2)) (map_to_list m)).
Definition calculate_reward_points_partitioned (b : RewardBank) (l : list (Pubkey * StakeAccount)) (rewards : N) :
  result InstructionError (option PointValue) :=
  rmap (point_value_of rewards)
    (sum_u128 (λ x,
       let! d := sa_delegation x.2 in
       match vote_entry b (voter_pubkey d) with
       | inl _ => Ok 0
       | inr (vote_state, _) => points_or_0 (stakes_history (rb_stakes b)) vote_state x.2
       end) l).

(** *** Redemption *)
Record Redeemed := mkRedeemed {
  rd_voter : Pubkey;
  rd_stakers_reward : N;
  rd_voters_reward : N;
  rd_stake_reward : StakeReward }.
Definition redeem_one (rewarded_epoch : N) (point_value : PointValue) (history : StakeHistory)
    (vote_pubkey : Pubkey) (vote_state : VoteState) (x : Pubkey * StakeAccount) : result InstructionError (option Redeemed) :=
  match stake_redeem_rewards bank_rate history rewarded_epoch (sa_state x.2) (sa_account x.2) vote_state point_value with
  | Ok (stakers_reward, voters_reward, account) =>
      let! amount := unwrap (i64_try_from stakers_reward) in
      Ok (Some (mkRedeemed vote_pubkey stakers_reward voters_reward
        (mkStakeReward x.1 (mkRewardInfo RewardStaking amount (lamports account) (Some (commission vote_state))) account)))
  | Err _ => Ok None
  | Panic => Panic
  end.
Definition credit_voter (x : Redeemed) (v : VoteReward) : VoteReward :=
  mkVoteReward (vote_account v) (vr_commission v) (saturating_add u64_max (vote_rewards v) (rd_voters_reward x)) true.
Definition new_vote_reward (vote_state : VoteState) (account : AccountSharedData) : VoteReward :=
  mkVoteReward account (commission vote_state) 0 false.
Definition redeem_rewards (m : gmap Pubkey VoteWithStakeDelegations) (rewarded_epoch : N) (point_value : PointValue)
    (history : StakeHistory) : result InstructionError (gmap Pubkey VoteReward * list StakeReward) :=
  let items := map_to_list m ≫= λ x, (λ y, (x.1, vwd_vote_state x.2, y)) <$> vwd_delegations x.2 in
  let! l := rmapM (λ x, redeem_one rewarded_epoch point_value history x.1.1 x.1.2 x.2) items in
  let l := somes l in
  Ok (foldl (λ m x, alter (credit_voter x) (rd_voter x) m) ((λ v, new_vote_reward (vwd_vote_state v) (vwd_vote_account v)) <$> m) l,
      rd_stake_reward <$> l).

(** the account with what it is paid, unless its balance overflows *)
Definition paid_vote_account (v : VoteReward) : option AccountSharedData :=
  match checked_add_lamports (vote_rewards v) (vote_account v) with Ok a => Some a | _ => None end.
Definition vote_reward_info (v : VoteReward) (a : AccountSharedData) : RewardInfo :=
  mkRewardInfo RewardVoting (as_i64 (vote_rewards v)) (lamports a) (Some (vr_commission v)).
Definition calc_vote_accounts_to_store (m : gmap Pubkey VoteReward) : VoteRewardsAccounts :=
  foldl (λ r x,
      match paid_vote_account x.2 with
      | None => r
      | Some a =>
          mkVoteRewardsAccounts (vra_rewards r ++ [(x.1, vote_reward_info x.2 a)])
            (accounts_to_store r ++ [if vote_needs_store x.2 then Some a else None])
      end) (mkVoteRewardsAccounts [] []) (map_to_list m).
Definition calculate_stake_vote_rewards (b : RewardBank) (l : list (Pubkey * StakeAccount)) (rewarded_epoch : N)
    (point_value : PointValue) : result InstructionError (VoteRewardsAccounts * StakeRewardCalculation) :=
  let! l := rmapM (λ x,
      let! d := sa_delegation x.2 in
      match vote_entry b (voter_pubkey d) with
      | inl _ => Ok None
      | inr (vote_state, account) =>
          rmap (fmap (pair (new_vote_reward vote_state account)))
            (redeem_one rewarded_epoch point_value (stakes_history (rb_stakes b)) (voter_pubkey d) vote_state x)
      end) l in
  let l := somes l in
  let votes := foldl (λ m x, <[rd_voter x.2 := credit_voter x.2 (default x.1 (m !! rd_voter x.2))]> m) ∅ l in
  Ok (calc_vote_accounts_to_store votes,
      mkStakeRewardCalculation ((λ x, rd_stake_reward x.2) <$> l)
        (foldl (λ n x, wrapping_add n (rd_stakers_reward x.2)) 0 l)).
Definition calculate_validator_rewards (b : RewardBank) (rewarded_epoch rewards : N) :
  result InstructionError (option (VoteRewardsAccounts * StakeRewardCalculation)) :=
  let! l := filter_stake_delegations (rb_stakes b) in
  let! point_value := calculate_reward_points_partitioned b l rewards in
  match point_value with
  | None => Ok None
  | Some point_value => rmap Some (calculate_stake_vote_rewards b l rewarded_epoch point_value)
  end.

(** *** The lamports of an epoch *)
Definition full_inflation_features_enabled : list Pubkey :=
  (if bank_active certusone_vote_id && bank_active certusone_enable_id then [certusone_enable_id] else []) ++
  (if bank_active devnet_and_testnet_id then [devnet_and_testnet_id] else []).
Definition get_inflation_start_slot : N :=
  match rs_activated_slot rs <$> full_inflation_features_enabled with
  | x :: l => foldr N.min x l
  | [] => if bank_active pico_inflation_id then rs_activated_slot rs pico_inflation_id else 0
  end.
Definition get_inflation_num_slots : N :=
  let schedule := rs_epoch_schedule rs in
  let inflation_start_slot := get_first_slot_in_epoch schedule (saturating_sub (get_epoch schedule get_inflation_start_slot) 1) in
  wrapping_sub (get_first_slot_in_epoch schedule (rs_epoch rs)) inflation_start_slot.
Definition slot_in_year_for_inflation : f64 := f64_div (f64_of_u64 get_inflation_num_slots) (rs_slots_per_year rs).
Definition epoch_duration_in_years (prev_epoch : N) : f64 :=
  f64_div (f64_of_u64 (get_slots_in_epoch (rs_epoch_schedule rs) prev_epoch)) (rs_slots_per_year rs).
Definition calculate_previous_epoch_inflation_rewards (prev_epoch_capitalization prev_epoch : N) : result InstructionError N :=
  let! validator_rate := inflation_validator powf (rs_inflation rs) slot_in_year_for_inflation in
  check! inflation_foundation powf (rs_inflation rs) slot_in_year_for_inflation in
  Ok (f64_to_u64 (f64_mul (f64_mul validator_rate (f64_of_u64 prev_epoch_capitalization)) (epoch_duration_in_years prev_epoch))).

(** *** Partitions *)
Definition div_ceil (x y : N) : result InstructionError N :=
  if y =? 0 then Panic else Ok (if x `mod` y =? 0 then x / y else x / y + 1).
Definition get_reward_distribution_num_blocks (l : list StakeReward) : result InstructionError N :=
  let schedule := rs_epoch_schedule rs in
  if warmup schedule && (rs_epoch rs <? first_normal_epoch schedule) then Ok 1 else
  let! num_chunks := div_ceil (len l) (stake_account_stores_per_block (rs_partitioned rs)) in
  Ok (N.min (N.max num_chunks 1) (N.max (slots_per_epoch schedule / 10) 1)).
Definition calculate_rewards_for_partitioning (prev_epoch : N) (b : RewardBank) :
  result InstructionError PartitionedRewardsCalculation :=
  let! validator_rewards := calculate_previous_epoch_inflation_rewards (rb_capitalization b) prev_epoch in
  let! old_vote_balance_and_staked := vote_balance_and_staked (rb_stakes b) in
  let! x := calculate_validator_rewards b prev_epoch validator_rewards in
  let '(vote_account_rewards, stake_rewards) :=
    default (mkVoteRewardsAccounts [] [], mkStakeRewardCalculation [] 0) x in
  let! num_partitions := get_reward_distribution_num_blocks (src_stake_rewards stake_rewards) in
  let! parts := hash_rewards_into_partitions sip (src_stake_rewards stake_rewards) (rs_parent_blockhash rs) num_partitions in
  Ok (mkPartitionedRewardsCalculation vote_account_rewards parts (total_stake_rewards_lamports stake_rewards)
        old_vote_balance_and_staked validator_rewards).

(** *** Payment *)
Definition get_stake_reward (r : StakeReward) : Z := reward_lamports (stake_reward_info r).
Definition stake_infos (l : list StakeReward) : list (Pubkey * RewardInfo) :=
  (λ r, (stake_pubkey r, stake_reward_info r)) <$> List.filter (λ r, (0 <? get_stake_reward r)%Z) l.
Definition update_reward_history (stake_rewards : list StakeReward) (vote_rewards : list (Pubkey * RewardInfo)) (b : RewardBank) : RewardBank :=
  set_rewards_of (rb_rewards b ++ vote_rewards ++ stake_infos stake_rewards) b.
Definition assert_validator_rewards_paid (validator_rewards_paid : N) (b : RewardBank) : result InstructionError () :=
  let sum := i64_sum ((λ x, match reward_type x.2 with RewardVoting | RewardStaking => reward_lamports x.2 | _ => 0%Z end) <$> rb_rewards b) in
  if (0 <=? sum)%Z && (validator_rewards_paid =? Z.to_N sum) then Ok tt else Panic.
Definition store_stake_accounts (l : list StakeReward) (b : RewardBank) : result InstructionError RewardBank :=
  let! s := update_stake_accounts bank_rate l (rb_stakes b) in
  Ok (set_accounts_of (foldl (λ m r, <[stake_pubkey r := stake_account r]> m) (rb_accounts b) l) (set_stakes_of s b)).
Definition store_vote_accounts (m : gmap Pubkey VoteReward) (b : RewardBank) :
  result InstructionError (list (Pubkey * RewardInfo) * RewardBank) :=
  foldl (λ r x,
      let! y := r in
      match paid_vote_account x.2 with
      | None => Ok y
      | Some a =>
          let! b := if vote_needs_store x.2 then store_account x.1 a y.2 else Ok y.2 in
          Ok (y.1 ++ [(x.1, vote_reward_info x.2 a)], b)
      end) (Ok ([], b)) (map_to_list m).
Definition store_vote_accounts_partitioned (v : VoteRewardsAccounts) (b : RewardBank) :
  result InstructionError (list (Pubkey * RewardInfo) * RewardBank) :=
  let! to_store := rmapM (λ x, let! r := unwrap (vra_rewards v !! x.1) in Ok (r.1, x.2)) (imap pair (somes (accounts_to_store v))) in
  rmap (pair (vra_rewards v)) (bank_store_accounts to_store b).

(** *** The check of the partitioned calculation against the other one *)
Definition RewardInfo_eqb (x y : RewardInfo) : bool :=
  match reward_type x, reward_type y with
  | RewardFee, RewardFee | RewardRent, RewardRent | RewardStaking, RewardStaking | RewardVoting, RewardVoting => true
  | _, _ => false
  end && (reward_lamports x =? reward_lamports y)%Z && (reward_post_balance x =? reward_post_balance y)
  && bool_decide (reward_commission x = reward_commission y).
Definition StakeReward_eqb (x y : StakeReward) : bool :=
  key_eqb (stake_pubkey x) (stake_pubkey y) && RewardInfo_eqb (stake_reward_info x) (stake_reward_info y)
  && accounts_equal (stake_account x) (stake_account y).
Definition compare_stake_rewards (expected : list StakeReward) (m : gmap Pubkey StakeReward) : result InstructionError () :=
  let! m := foldl (λ r x,
      let! m := r in
      let! partitioned := unwrap (m !! stake_pubkey x) in
      if StakeReward_eqb partitioned x then Ok (delete (stake_pubkey x) m) else Panic) (Ok m) expected in
  if bool_decide (m = ∅) then Ok tt else Panic.
Definition compare_vote_rewards (expected : list (Pubkey * VoteReward)) (m : gmap Pubkey (RewardInfo * AccountSharedData)) :
  result InstructionError () :=
  let! m := foldl (λ r x,
      let! m := r in
      if vote_needs_store x.2 then
        let! partitioned := unwrap (m !! x.1) in
        let to_store_partitioned := set_lamports (reward_post_balance partitioned.1) partitioned.2 in
        let to_store_normal := default (vote_account x.2) (paid_vote_account x.2) in
        if accounts_equal to_store_partitioned to_store_normal then Ok (delete x.1 m) else Panic
      else Ok m) (Ok m) expected in
  if bool_decide (m = ∅) then Ok tt else Panic.
Definition compare_with_partitioned_rewards_results (stake_rewards_expected : list StakeReward)
    (vote_rewards_expected : gmap Pubkey VoteReward) (p : PartitionedRewardsCalculation) : result InstructionError () :=
  let stake_rewards := foldl (λ m r, <[stake_pubkey r := r]> m) ∅ (concat (prc_stake_rewards_by_partition p)) in
  check! compare_stake_rewards stake_rewards_expected stake_rewards in
  let! stored :=
    rmapM (λ x, match x.2 with
                | Some a => let! r := unwrap (vra_rewards (prc_vote_account_rewards p) !! x.1) in Ok (Some (r, a))
                | None => Ok None
                end) (imap pair (accounts_to_store (prc_vote_account_rewards p))) in
  let vote_rewards := foldl (λ m x, <[x.1.1 := (x.1.2, x.2)]> m) ∅ (somes stored) in
  compare_vote_rewards (map_to_list vote_rewards_expected) vote_rewards.
Definition compare_with_partitioned_rewards (stake_rewards_expected : list StakeReward)
    (vote_rewards_expected : gmap Pubkey VoteReward) (rewarded_epoch : N) (b : RewardBank) : result InstructionError () :=
  let! p := calculate_rewards_for_partitioning rewarded_epoch b in
  compare_with_partitioned_rewards_results stake_rewards_expected vote_rewards_expected p.

(** *** All rewards at once *)
Definition pay_validator_rewards (rewarded_epoch rewards : N) (b : RewardBank) : result InstructionError RewardBank :=
  let history := stakes_history (rb_stakes b) in
  let! x := load_vote_and_stake_accounts b in
  let '(m, b) := x in
  let! point_value := calculate_reward_points m rewards history in
  match point_value with
  | None => Ok b
  | Some point_value =>
      let! y := redeem_rewards m rewarded_epoch point_value history in
      let '(vote_account_rewards, stake_rewards) := y in
      check! (if test_compare_partitioned_epoch_rewards (rs_partitioned rs)
              then compare_with_partitioned_rewards stake_rewards vote_account_rewards rewarded_epoch b else Ok tt) in
      let! b := store_stake_accounts stake_rewards b in
      let! z := store_vote_accounts vote_account_rewards b in
      Ok (update_reward_history stake_rewards z.1 z.2)
  end.
(** [update_rewards_with_thread_pool] *)
Definition update_rewards (prev_epoch : N) (b : RewardBank) : result InstructionError RewardBank :=
  let! validator_rewards := calculate_previous_epoch_inflation_rewards (rb_capitalization b) prev_epoch in
  let! old_vote_balance_and_staked := vote_balance_and_staked (rb_stakes b) in
  let! b := pay_validator_rewards prev_epoch validator_rewards b in
  let! new_vote_balance_and_staked := vote_balance_and_staked (rb_stakes b) in
  let validator_rewards_paid := wrapping_sub new_vote_balance_and_staked old_vote_balance_and_staked in
  check! assert_validator_rewards_paid validator_rewards_paid b in
  check! (if validator_rewards_paid <=? validator_rewards then Ok tt else Panic) in
  Ok (set_capitalization_of (wrapping_add (rb_capitalization b) validator_rewards_paid) b).

(** *** Rewards in partitions *)
Definition is_partitioned_rewards_code_enabled : bool :=
  bank_active enable_partitioned_epoch_reward_id || test_enable_partitioned_rewards (rs_partitioned rs).
Definition calculate_rewards_and_distribute_vote_rewards (prev_epoch : N) (b : RewardBank) :
  result InstructionError (N * N * list (list StakeReward) * RewardBank) :=
  let! p := calculate_rewards_for_partitioning prev_epoch b in
  let! x := store_vote_accounts_partitioned (prc_vote_account_rewards p) b in
  let b := update_reward_history [] x.1 x.2 in
  let! new_vote_balance_and_staked := vote_balance_and_staked (rb_stakes b) in
  let validator_rewards_paid := wrapping_sub new_vote_balance_and_staked (prc_old_vote_balance_and_staked p) in
  check! assert_validator_rewards_paid validator_rewards_paid b in
  let total := wrapping_add validator_rewards_paid (prc_total_stake_rewards_lamports p) in
  check! (if total <=? prc_validator_rewards p then Ok tt else Panic) in
  Ok (total, validator_rewards_paid, prc_stake_rewards_by_partition p,
      set_capitalization_of (wrapping_add (rb_capitalization b) validator_rewards_paid) b).
(** the message reads the sysvar *)
Definition log_epoch_rewards_sysvar (b : RewardBank) : result InstructionError () :=
  match bank_get_account b epoch_rewards_id with
  | Some account => let! _ := unwrap (shared_deserialize_data (T:=EpochRewards) account) in Ok tt
  | None => Ok tt
  end.
Definition create_epoch_rewards_sysvar (total distributed complete : N) (b : RewardBank) : result InstructionError RewardBank :=
  check! (if is_partitioned_rewards_code_enabled then Ok tt else Panic) in
  let! b := update_sysvar_account epoch_rewards_id (λ old,
    let fields := inherit_specially_retained_account_fields old in
    check! (if distributed <=? total then Ok tt else Panic) in
    create_epoch_rewards (mkEpochRewards total distributed complete) (total - distributed, fields.2)) b in
  check! log_epoch_rewards_sysvar b in
  Ok b.
Definition update_epoch_rewards_sysvar (distributed : N) (b : RewardBank) : result InstructionError RewardBank :=
  check! (if is_partitioned_rewards_code_enabled then Ok tt else Panic) in
  let! account := unwrap (bank_get_account b epoch_rewards_id) in
  let! e := unwrap (shared_deserialize_data account) in
  let! e := distribute distributed e in
  let! b := update_sysvar_account epoch_rewards_id (λ old,
    let fields := inherit_specially_retained_account_fields old in
    check! (if distributed <=? fields.1 then Ok tt else Panic) in
    create_epoch_rewards e (fields.1 - distributed, fields.2)) b in
  check! log_epoch_rewards_sysvar b in
  Ok b.
Definition begin_partitioned_rewards (parent_epoch : N) (b : RewardBank) : result InstructionError RewardBank :=
  let! x := calculate_rewards_and_distribute_vote_rewards parent_epoch b in
  let '(total, distributed, parts, b) := x in
  let credit_start := wrapping_add (rb_block_height b) (reward_calculation_num_blocks (rs_partitioned rs)) in
  let credit_end_exclusive := wrapping_add credit_start (len parts) in
  create_epoch_rewards_sysvar total distributed credit_end_exclusive (set_status_of (RewardsActive (rb_block_height b) parts) b).

Definition verify_reward (b : RewardBank) (r : StakeReward) : result InstructionError () :=
  match bank_get_account b (stake_pubkey r) with
  | None => Ok tt
  | Some curr =>
      if (0 <=? get_stake_reward r)%Z
         && (wrapping_add (lamports curr) (Z.to_N (get_stake_reward r)) =? lamports (stake_account r)) then Ok tt else Panic
  end.
Definition store_stake_accounts_in_partition (l : list StakeReward) (b : RewardBank) : result InstructionError (N * RewardBank) :=
  check! rmapM (verify_reward b) l in
  let! b := bank_store_accounts ((λ r, (stake_pubkey r, stake_account r)) <$> l) b in
  Ok (Z.to_N (i64_sum (get_stake_reward <$> l) `mod` 18446744073709551616), b).
Definition distribute_epoch_rewards_in_partition (parts : list (list StakeReward)) (partition_index : N) (b : RewardBank) :
  result InstructionError RewardBank :=
  let! l := unwrap (getN parts partition_index) in
  let! x := store_stake_accounts_in_partition l b in
  let b := set_capitalization_of (wrapping_add (rb_capitalization x.2) x.1) x.2 in
  let! b := update_epoch_rewards_sysvar x.1 b in
  Ok (set_rewards_of (rb_rewards b ++ stake_infos l) b).
Definition deactivate_epoch_reward_status (b : RewardBank) : result InstructionError RewardBank :=
  match rb_status b with
  | RewardsInactive => Panic
  | RewardsActive _ _ =>
      let b := set_status_of RewardsInactive b in
      match bank_get_account b epoch_rewards_id with
      | Some a =>
          if 0 <? lamports a then
            check! log_epoch_rewards_sysvar b in
            burn_and_purge_account epoch_rewards_id a b
          else Ok b
      | None => Ok b
      end
  end.
Definition distribute_partitioned_epoch_rewards (b : RewardBank) : result InstructionError RewardBank :=
  match rb_status b with
  | RewardsInactive => Ok b
  | RewardsActive start_block_height parts =>
      let height := rb_block_height b in
      let credit_start := wrapping_add start_block_height (reward_calculation_num_blocks (rs_partitioned rs)) in
      let credit_end_exclusive := wrapping_add credit_start (len parts) in
      check! (if saturating_sub credit_end_exclusive credit_start <? get_slots_in_epoch (rs_epoch_schedule rs) (rs_epoch rs)
              then Ok tt else Panic) in
      let! b :=
        if (credit_start <=? height) && (height <? credit_end_exclusive)
        then distribute_epoch_rewards_in_partition parts (height - credit_start) b else Ok b in
      if credit_end_exclusive <=? saturating_add u64_max height 1 then deactivate_epoch_reward_status b else Ok b
  end.

(** the first block of an epoch, with the features of the epoch ([process_new_epoch]) *)
Definition process_new_epoch (parent_epoch : N) (slot : N) (b : RewardBank) (epoch_stakes : gmap N EpochStakes) :
  result InstructionError (RewardBank * gmap N EpochStakes) :=
  let! s := activate_epoch bank_rate (rs_epoch rs) (rb_stakes b) in
  let b := set_stakes_of s b in
  let epoch_stakes := update_epoch_stakes (get_leader_schedule_epoch (rs_epoch_schedule rs) slot) s epoch_stakes in
  let! b := if is_partitioned_rewards_code_enabled then begin_partitioned_rewards parent_epoch b else update_rewards parent_epoch b in
  Ok (b, epoch_stakes).
End bank.
