(* ===== verification/RewardsRules.v ===== *)
(** * Rewards are accounted for

    What a delegation is paid, the agreement of the two calculations, and the lamports of the bank
    while it pays. *)

From S2P Require Import Prelude Sdk Message MessageRules Account Rent EpochSchedule TransactionContext InvokeContext VoteState.
From S2P Require Import InstructionRules Stake StakeProgram StakeRules Stakes StakesRules Rewards.

(** ** One delegation *)
Lemma as_u128_le n : as_u128 n ≤ u128_max.
Proof. unfold as_u128, u128_max. pose proof (N.mod_upper_bound n 340282366920938463463374607431768211456). lia. Qed.
Lemma as_u128_small n : n ≤ u128_max → as_u128 n = n.
Proof. intros Hn. unfold as_u128. apply N.mod_small. unfold u128_max in Hn. lia. Qed.
Lemma commission_split_le s on :
  on ≤ u64_max → (commission_split s on).1.1 + (commission_split s on).1.2 ≤ on.
Proof.
  intros Hon. unfold commission_split. destruct (N.eqb_spec (N.min (commission s) 100) 0); [simpl; lia|].
  destruct (N.eqb_spec (N.min (commission s) 100) 100); [simpl; lia|]. simpl. set (c := N.min (commission s) 100) in *.
  assert (c ≤ 100) by lia. assert (on * c / 100 + on * (100 - c) / 100 ≤ on).
  { pose proof (N.Div0.mul_div_le (on * c) 100). pose proof (N.Div0.mul_div_le (on * (100 - c)) 100). nia. }
  unfold as_u64. pose proof (N.Div0.mod_le (on * c / 100) 18446744073709551616). pose proof (N.Div0.mod_le (on * (100 - c) / 100) 18446744073709551616). lia.
Qed.

Section delegations.
Context (rate : option N) (h : StakeHistory).

Lemma effective_Ok d e : delegation_in_range d → e ≤ u64_max → ∃ n, effective_stake (E:=InstructionError) h rate d e = Ok n.
Proof.
  intros Hd He. destruct (status_of_Ok h rate d e Hd He) as (x & Hx & _). unfold status_of in Hx. unfold effective_stake. rewrite Hx.
  by eexists.
Qed.
Definition epochs_ok (l : list (N * N * N)) : Prop := Forall (λ x, x.1.1 ≤ u64_max) l.
Lemma points_over_Ok stake l : delegation_in_range (delegation stake) → epochs_ok l → ∀ p c, p ≤ u128_max →
  ∃ x, points_over rate h stake l p c = Ok x ∧ x.1 ≤ u128_max.
Proof.
  intros Hd Hl. induction Hl as [|[[e f] i] l He Hl IH]; intros p c Hp; [by eexists|]. cbn [points_over].
  destruct (effective_Ok (delegation stake) e Hd He) as [n ->]. cbn [rbind]. apply IH, as_u128_le.
Qed.
Lemma points_and_credits_Ok stake vs :
  delegation_in_range (delegation stake) → epochs_ok (epoch_credits vs) →
  ∃ x, calculate_stake_points_and_credits rate h stake vs = Ok x ∧ csp_points x ≤ u128_max ∧
    (credits vs = 0 → csp_points x = 0).
Proof.
  intros Hd Hl. unfold calculate_stake_points_and_credits. destruct (N.compare_spec (credits vs) (credits_observed stake)).
  - by eexists.
  - by eexists.
  - destruct (points_over_Ok stake (epoch_credits vs) Hd Hl 0 (credits_observed stake)) as (x & -> & Hx); [done|].
    cbn [rbind]. eexists. split; [done|]. split; [done|]. lia.
Qed.
Definition points_value (x : CalculatedStakePoints) (pv : PointValue) : N := csp_points x * pv_rewards pv / pv_points pv.
Definition pv_ok (points : N) (pv : PointValue) : Prop :=
  points ≤ pv_points pv ∧ 0 < pv_points pv ∧ pv_rewards pv ≤ u64_max ∧ points * pv_rewards pv ≤ u128_max.
Lemma points_value_le x pv : pv_ok (csp_points x) pv → points_value x pv ≤ pv_rewards pv.
Proof. intros (Hle & Hp & _). unfold points_value. apply N.Div0.div_le_upper_bound. nia. Qed.
Lemma stake_rewards_Ok e stake pv vs x :
  calculate_stake_points_and_credits rate h stake vs = Ok x → pv_ok (csp_points x) pv →
  ∃ o, calculate_stake_rewards rate h e stake pv vs = Ok o ∧
    ∀ r, o = Some r → staker_rewards r + voter_rewards r ≤ points_value x pv.
Proof.
  intros Hx Hpv. pose proof (points_value_le x pv Hpv) as Hv. destruct Hpv as (Hle & Hp & Hr & Hm).
  unfold calculate_stake_rewards. rewrite Hx. cbn [rbind]. destruct (_ || _ || _).
  { eexists. split; [done|]. intros r [= <-]. simpl. lia. }
  destruct (N.eqb_spec (csp_points x) 0); [by eexists|]. rewrite (proj2 (N.eqb_neq (pv_points pv) 0)) by lia.
  unfold checked_mul. rewrite (proj2 (N.leb_le _ _)) by done. cbn [unwrap rbind]. fold (points_value x pv).
  rewrite (proj2 (N.leb_le _ _)) by lia. cbn [rbind]. destruct (N.eqb_spec (points_value x pv) 0); [by eexists|].
  pose proof (commission_split_le vs (points_value x pv) ltac:(lia)) as Hc.
  destruct (commission_split vs (points_value x pv)) as [[v s] b]. destruct (_ && _); [by eexists|].
  eexists. split; [done|]. intros r [= <-]. simpl in *. lia.
Qed.
End delegations.

Section redeem.
Context `{!Bincode StakeStateV2, !BincodeLaws StakeStateV2}.

Definition delegation_points (rate : option N) (h : StakeHistory) (vs : VoteState) (a : StakeAccount) : N :=
  match calculate_points rate h (sa_state a) vs with Ok n => n | _ => 0 end.
(** what may be paid for the delegation of [x] *)
Record redeemed_for (k : Pubkey) (x : Pubkey * StakeAccount) (value : N) (r : Redeemed) : Prop := {
  rf_voter : rd_voter r = k;
  rf_key : stake_pubkey (rd_stake_reward r) = x.1;
  rf_value : rd_stakers_reward r + rd_voters_reward r ≤ value;
  rf_type : reward_type (stake_reward_info (rd_stake_reward r)) = RewardStaking;
  rf_amount : get_stake_reward (rd_stake_reward r) = Z.of_N (rd_stakers_reward r);
  rf_lamports : lamports (stake_account (rd_stake_reward r)) = lamports (sa_account x.2) + rd_stakers_reward r;
  rf_account : ∃ a, stake_account_try_from (stake_account (rd_stake_reward r)) = Ok a ∧ stake_ok a ∧
    amount_of a = amount_of x.2 + rd_stakers_reward r }.

Lemma set_state_Ok (s : StakeStateV2) a a' :
  set_state s a = Ok a' → lamports a' = lamports a ∧ owner a' = owner a ∧ shared_deserialize_data a' = Some s.
Proof.
  unfold set_state, shared_serialize_data. destruct (serialize s) as [bs|] eqn:Hs; [|done]. destruct (_ <? _); [done|].
  intros [= <-]. split; [done|]. split; [done|]. unfold shared_deserialize_data, overwrite. simpl. by apply deserialize_serialize.
Qed.
Lemma state_staked s d : state_delegation s = Some d → ∃ meta stake flags, s = Staked meta stake flags ∧ delegation stake = d.
Proof. destruct s as [|m|m st fl|]; simpl; try done. intros [= <-]. by eexists _, _, _. Qed.
Lemma redeem_state_Ok rate h e meta stake flags account vs pv x :
  calculate_stake_points_and_credits rate h stake vs = Ok x → pv_ok (csp_points x) pv →
  delegated_stake (delegation stake) + pv_rewards pv ≤ u64_max →
  let r := stake_redeem_rewards rate h e (Staked meta stake flags) account vs pv in
  (∃ err, r = Err err) ∨
  ∃ s v a c, r = Ok (s, v, a) ∧ s + v ≤ points_value x pv ∧ lamports a = lamports account + s ∧ owner a = owner account ∧
    shared_deserialize_data a =
      Some (Staked meta (mkStake (set_delegated (delegated_stake (delegation stake) + s) (delegation stake)) c) flags).
Proof.
  intros Hx Hpv Hd. pose proof (points_value_le x pv Hpv) as Hv. simpl. unfold redeem_stake_rewards.
  destruct (stake_rewards_Ok rate h e stake pv vs x Hx Hpv) as (o & -> & Ho). cbn [rbind].
  destruct o as [r|]; cbn [rbind fst snd]; [|left; by eexists]. specialize (Ho r eq_refl).
  unfold checked_add_lamports. destruct (checked_add _ _ _) as [n|] eqn:Hn; cbn [ok_or rbind]; [|left; by eexists].
  apply checked_add_Some in Hn as [-> Hn]. rewrite wrapping_add_small by lia.
  destruct (set_state _ _) as [a|err|] eqn:Hs; cbn [rbind]; [|left; by eexists|].
  - right. apply set_state_Ok in Hs as (Hl & Hw & Hdes). do 4 eexists. split; [done|]. by split_and!.
  - unfold set_state in Hs. destruct (serialize _); [|done]. by destruct (shared_serialize_data _ _).
Qed.
Lemma redeem_one_Ok (rs : RewardSettings) e pv h k vs y a d (value := delegation_points (bank_rate rs) h vs a * pv_rewards pv / pv_points pv) :
  stake_account_try_from (sa_account a) = Ok a → state_delegation (sa_state a) = Some d → delegation_in_range d →
  epochs_ok (epoch_credits vs) → pv_ok (delegation_points (bank_rate rs) h vs a) pv →
  delegated_stake d + pv_rewards pv ≤ u64_max → pv_rewards pv ≤ 9223372036854775807 →
  ∃ o, redeem_one rs e pv h k vs (y, a) = Ok o ∧ ∀ r, o = Some r → redeemed_for k (y, a) value r.
Proof.
  intros Ht Hd Hr He Hpv Hroom Hi. pose proof (try_from_account _ _ Ht) as [_ Hown]. unfold redeem_one. cbn [fst snd].
  destruct (state_staked _ _ Hd) as (meta & stake & flags & Hst & Hdel). rewrite Hst.
  destruct (points_and_credits_Ok (bank_rate rs) h stake vs ltac:(by rewrite Hdel) He) as (x & Hx & Hle & _).
  assert (delegation_points (bank_rate rs) h vs a = csp_points x) as Hp.
  { unfold delegation_points, calculate_points, calculate_stake_points. by rewrite Hst, Hx. }
  assert (value = points_value x pv) as -> by (unfold value; by rewrite Hp). rewrite Hp in Hpv.
  destruct (redeem_state_Ok (bank_rate rs) h e meta stake flags (sa_account a) vs pv x Hx Hpv) as [[err ->]|(s & v & a' & c & -> & Hsv & Hl & Hw & Hdes)];
    [by rewrite Hdel|by eexists|]. pose proof (points_value_le x pv Hpv) as Hv.
  unfold i64_try_from. rewrite (proj2 (N.leb_le _ _)) by lia. cbn [unwrap rbind]. eexists. split; [done|]. intros r [= <-].
  split; simpl; try done. eexists. split_and!.
  - unfold stake_account_try_from. rewrite Hw, Hown, key_eqb_refl, Hdes. reflexivity.
  - eexists. split; [done|]. simpl. destruct Hr as (H1 & H2 & H3). rewrite Hdel. split_and!; simpl; [lia|done..].
  - unfold amount_of. by rewrite Hd, <-Hdel.
Qed.
End redeem.

(** ** Lists *)
Lemma sum_u128_Ok {A} (f : A → result InstructionError N) g l :
  (∀ x, x ∈ l → f x = Ok (g x)) → list_sum g l ≤ u128_max → sum_u128 f l = Ok (list_sum g l).
Proof.
  induction l as [|x l IH]; intros Hf Hle; [done|]. rewrite list_sum_cons in Hle. cbn [sum_u128].
  rewrite Hf by (by left). cbn [rbind]. rewrite IH by (intros; try (apply Hf; by right); lia). cbn [rbind].
  rewrite list_sum_cons, as_u128_small by lia. done.
Qed.
Lemma list_sum_perm {A} (f : A → N) l l' : l ≡ₚ l' → list_sum f l = list_sum f l'.
Proof. induction 1; rewrite ?list_sum_cons in *; lia. Qed.
Lemma list_sum_ext {A} (f g : A → N) l : (∀ x, x ∈ l → f x = g x) → list_sum f l = list_sum g l.
Proof. induction l as [|x l IH]; intros H; [done|]. rewrite !list_sum_cons. rewrite H by (by left). rewrite IH; [done|]. intros; apply H; by right. Qed.
Lemma list_sum_sublist {A} (f : A → N) l l' : l `sublist_of` l' → list_sum f l ≤ list_sum f l'.
Proof. induction 1; rewrite ?list_sum_cons; [done|lia..]. Qed.
Lemma list_sum_bind {A B} (f : B → N) (g : A → list B) l : list_sum f (l ≫= g) = list_sum (λ x, list_sum f (g x)) l.
Proof. induction l as [|x l IH]; [done|]. rewrite bind_cons, list_sum_app, list_sum_cons. by rewrite IH. Qed.
Lemma list_sum_fmap {A B} (f : B → N) (g : A → B) l : list_sum f (g <$> l) = list_sum (λ x, f (g x)) l.
Proof. by rewrite <-list_fmap_compose. Qed.
Lemma list_sum_omap {A B} (f : B → N) (g : A → option B) l :
  list_sum f (omap g l) = list_sum (λ x, from_option f 0 (g x)) l.
Proof.
  induction l as [|x l IH]; [done|]. rewrite list_sum_cons, <-IH. cbn [omap list_omap].
  destruct (g x) as [y|]; [by rewrite list_sum_cons|done].
Qed.
Lemma list_sum_elem {A} (f : A → N) l x : x ∈ l → f x ≤ list_sum f l.
Proof. induction 1; rewrite list_sum_cons; lia. Qed.
(** floors add up to at most the floor of the sum *)
Lemma list_sum_div {A} (f : A → N) r p l : p ≠ 0 → list_sum (λ x, f x * r / p) l ≤ list_sum f l * r / p.
Proof.
  intros Hp. induction l as [|x l IH]; [apply N.le_0_l|]. rewrite !list_sum_cons. etrans; [apply N.add_le_mono_l, IH|].
  rewrite N.mul_add_distr_r. apply N.div_le_lower_bound; [done|]. rewrite N.mul_add_distr_l.
  apply N.add_le_mono; by apply N.Div0.mul_div_le.
Qed.

Lemma fmap_omap_in {A B C} (f : B → C) (g : A → option B) (h : A → option C) (l : list A) :
  (∀ x, x ∈ l → f <$> g x = h x) → f <$> omap g l = omap h l.
Proof.
  induction l as [|x l IH]; intros Hx; [done|]. cbn [omap list_omap]. rewrite <-(Hx x) by (by left).
  rewrite <-IH by (intros; apply Hx; by right). by destruct (g x).
Qed.
Lemma omap_sublist {A B C} (f : B → C) (g : A → option B) (h : A → C) (l : list A) :
  (∀ x y, x ∈ l → g x = Some y → f y = h x) → f <$> omap g l `sublist_of` h <$> l.
Proof.
  induction l as [|x l IH]; intros Hx; [done|]. cbn [omap list_omap]. destruct (g x) as [y|] eqn:Hy; rewrite ?fmap_cons.
  - rewrite (Hx x y) by (done || by left). constructor. apply IH. intros; eapply Hx; [by right|done].
  - constructor. apply IH. intros; eapply Hx; [by right|done].
Qed.
Lemma map_sum_sub {V W} (f : V → N) (g : W → N) (m1 : gmap Pubkey V) : ∀ m2 : gmap Pubkey W,
  (∀ k v, m1 !! k = Some v → ∃ w, m2 !! k = Some w ∧ f v ≤ g w) → map_sum f m1 ≤ map_sum g m2.
Proof.
  induction m1 as [|k v m1 Hk IH] using map_ind; intros m2 Hsub; [rewrite map_sum_empty; lia|].
  destruct (Hsub k v) as (w & Hw & Hle); [apply lookup_insert_eq|]. rewrite map_sum_insert_new, (map_sum_delete g k w m2) by done.
  apply N.add_le_mono; [done|]. apply IH. intros j x Hj. destruct (Hsub j x) as (y & Hy & Hyle); [rewrite lookup_insert_ne; congruence|].
  exists y. rewrite lookup_delete_ne by congruence. done.
Qed.
(** distributing a list to the keys of a map, and gathering it *)
Lemma no_match {V A} (k : Pubkey) (y : A) (l : list (Pubkey * V)) :
  (∀ x, x ∈ l → k ≠ x.1) → (l ≫= λ x, if decide (k = x.1) then [(x, y)] else []) = [].
Proof.
  induction l as [|x l IH]; intros Hne; [done|]. rewrite bind_cons, decide_False by (apply Hne; by left).
  apply IH. intros; apply Hne; by right.
Qed.
Lemma one_match {V A} (k : Pubkey) (y : A) (m : gmap Pubkey V) :
  (map_to_list m ≫= λ x, if decide (k = x.1) then [(x, y)] else []) ≡ₚ option_list ((λ v, ((k, v), y)) <$> m !! k).
Proof.
  destruct (m !! k) as [v|] eqn:Hv; simpl.
  - rewrite <-(insert_delete_id m k v Hv), map_to_list_insert by apply lookup_delete_eq. rewrite bind_cons, decide_True by done.
    rewrite no_match; [done|]. intros [j x] Hx%elem_of_map_to_list. simpl. by apply lookup_delete_Some in Hx as [? _].
  - rewrite no_match; [done|]. intros [j x] Hx%elem_of_map_to_list. simpl. congruence.
Qed.
Lemma gather {V A} (g : A → Pubkey) (m : gmap Pubkey V) (l : list A) :
  (map_to_list m ≫= λ x, (λ y, (x, y)) <$> filter (λ y, g y = x.1) l) ≡ₚ omap (λ y, (λ v, ((g y, v), y)) <$> m !! g y) l.
Proof.
  induction l as [|y l IH].
  - simpl. induction (map_to_list m); [done|]. by rewrite bind_cons.
  - transitivity ((map_to_list m ≫= λ x, if decide (g y = x.1) then [(x, y)] else []) ++
                  (map_to_list m ≫= λ x, (λ y, (x, y)) <$> filter (λ y, g y = x.1) l)).
    + clear IH. induction (map_to_list m) as [|x k IHk]; [done|]. rewrite !bind_cons, IHk, list.filter_cons.
      destruct (decide (g y = x.1)); simpl; [constructor|]; apply Permutation_app_swap_app.
    + rewrite IH, one_match. cbn [omap list_omap]. by destruct (m !! g y).
Qed.

(** ** Partitions *)
Lemma concat_push {A} (parts : list (list A)) i part x :
  parts !! i = Some part → concat (<[i := part ++ [x]]> parts) ≡ₚ concat parts ++ [x].
Proof.
  revert i. induction parts as [|p parts IH]; intros [|i] Hi; simplify_eq/=.
  - rewrite <-!app_assoc. apply Permutation_app_head. by rewrite Permutation_app_comm.
  - rewrite <-app_assoc. by apply Permutation_app_head, IH.
Qed.
Lemma partition_in_range hash n : hash ≤ u64_max → 0 < n → hash_to_partition hash n < n.
Proof.
  intros Hh Hn. unfold hash_to_partition. apply N.Div0.div_lt_upper_bound. unfold u64_max in *.
  assert (n * hash < n * 18446744073709551616) by nia. lia.
Qed.
Lemma partitioned_Ok sip L hash n :
  (∀ h k, sip h k ≤ u64_max) → 0 < n →
  ∃ parts, hash_rewards_into_partitions sip L hash n = Ok parts ∧ concat parts ≡ₚ L ∧ length parts = N.to_nat n.
Proof.
  intros Hsip Hn. unfold hash_rewards_into_partitions. induction L as [|r L IH] using rev_ind.
  - exists (replicate (N.to_nat n) []). split; [done|]. split; [|apply length_replicate]. by induction (N.to_nat n).
  - destruct IH as (parts & Hparts & Hc & Hlen). rewrite foldl_app, Hparts. cbn [foldl rbind]. unfold getN, hash_address_to_partition.
    destruct (lookup_lt_is_Some_2 parts (N.to_nat (hash_to_partition (sip hash (stake_pubkey r)) n))) as [part Hpart].
    { rewrite Hlen. pose proof (partition_in_range _ n (Hsip hash (stake_pubkey r)) Hn). lia. }
    rewrite Hpart. cbn [unwrap rbind]. eexists. split; [done|]. unfold setN. split; [by rewrite concat_push, Hc|by rewrite length_insert].
Qed.

(** ** Maps that are built and taken apart *)
Lemma build_rewards_lookup {A V} (f : A → Pubkey) (g : A → V) (L : list A) :
  NoDup (f <$> L) → ∀ k v, (foldl (λ m x, <[f x := g x]> m) ∅ L : gmap Pubkey V) !! k = Some v ↔ ∃ x, x ∈ L ∧ f x = k ∧ g x = v.
Proof.
  induction L as [|x L IH] using rev_ind; intros Hnd k v.
  { simpl. split; [done|]. by intros (x & ?%elem_of_nil & _). }
  rewrite foldl_app. cbn [foldl]. rewrite fmap_app in Hnd. apply list.NoDup_app in Hnd as (Hnd & Hx & _). specialize (IH Hnd).
  assert (∀ y, y ∈ L → f y ≠ f x) as Hne. { intros y Hy Heq. apply (Hx (f y)); [by apply list_elem_of_fmap_2|]. rewrite Heq. simpl. by left. }
  destruct (decide (f x = k)) as [<-|Hk].
  - rewrite lookup_insert_eq. split; [intros [= <-]; exists x; split_and!; [apply elem_of_app; right; by left|done..]|].
    intros (y & [Hy|Hy]%elem_of_app & Hf & Hg); [by destruct (Hne y Hy)|]. apply list_elem_of_singleton in Hy as ->. by rewrite Hg.
  - rewrite lookup_insert_ne by done. rewrite IH. split; intros (y & Hy & Hf & Hg); (exists y; split; [|done]); [apply elem_of_app; by left|].
    apply elem_of_app in Hy as [Hy|Hy]; [done|]. by apply list_elem_of_singleton in Hy as ->.
Qed.
Lemma zip_index {E A B C} (l1 : list A) (l2 : list B) (f : nat * B → result E C) (g : A → B → C) :
  length l1 = length l2 → (∀ i x y, l1 !! i = Some x → l2 !! i = Some y → f (i, y) = Ok (g x y)) →
  rmapM f (imap pair l2) = Ok (zip_with g l1 l2).
Proof.
  intros Hlen Hf. apply rmapM_Ok_intro. apply Forall2_same_length_lookup_2.
  { rewrite length_imap, length_zip_with, Hlen. lia. }
  intros i x y Hx Hy. rewrite list_lookup_imap in Hx. apply lookup_zip_with_Some in Hy as (x' & y' & -> & H1 & H2).
  rewrite H2 in Hx. injection Hx as <-. by apply Hf.
Qed.
Lemma accounts_equal_refl a : accounts_equal a a = true.
Proof. unfold accounts_equal. rewrite !N.eqb_refl, eqb_reflx, key_eqb_refl, bool_decide_true by done. done. Qed.
Lemma StakeReward_eqb_refl r : StakeReward_eqb r r = true.
Proof.
  unfold StakeReward_eqb, RewardInfo_eqb. rewrite key_eqb_refl, accounts_equal_refl, Z.eqb_refl, N.eqb_refl, bool_decide_true by done.
  by destruct (reward_type _).
Qed.
Lemma compare_stake_Ok L : ∀ m : gmap Pubkey StakeReward,
  NoDup (stake_pubkey <$> L) → (∀ k r, m !! k = Some r ↔ r ∈ L ∧ stake_pubkey r = k) → compare_stake_rewards L m = Ok tt.
Proof.
  unfold compare_stake_rewards. induction L as [|x L IH]; intros m Hnd Hm.
  - cbn [foldl rbind]. rewrite bool_decide_true; [done|]. apply map_empty. intros k. destruct (m !! k) as [r|] eqn:Hr; [|done].
    apply Hm in Hr as [?%elem_of_nil _]. done.
  - cbn [foldl rbind]. assert (m !! stake_pubkey x = Some x) as -> by (apply Hm; split; [by left|done]). cbn [unwrap rbind].
    rewrite StakeReward_eqb_refl. rewrite fmap_cons in Hnd. apply list.NoDup_cons in Hnd as [Hx Hnd]. apply IH; [done|].
    intros k r. rewrite lookup_delete_Some, Hm, elem_of_cons. split; [intros (Hk & [->|Hr] & Hk'); done|]. intros [Hr Hk].
    split; [|by split; [right|]]. intros Heq. apply Hx. rewrite Heq, <-Hk. by apply list_elem_of_fmap_2.
Qed.
Lemma set_own_lamports a : set_lamports (lamports a) a = a.
Proof. by destruct a. Qed.
Definition paid_account (v : VoteReward) : AccountSharedData := default (vote_account v) (paid_vote_account v).
Definition paid_info (v : VoteReward) : RewardInfo := vote_reward_info v (paid_account v).
Lemma compare_vote_Ok L : ∀ m : gmap Pubkey (RewardInfo * AccountSharedData),
  NoDup L.*1 → (∀ k p, m !! k = Some p ↔ ∃ v, (k, v) ∈ L ∧ vote_needs_store v = true ∧ p = (paid_info v, paid_account v)) →
  compare_vote_rewards L m = Ok tt.
Proof.
  unfold compare_vote_rewards. induction L as [|[k v] L IH]; intros m Hnd Hm.
  - cbn [foldl rbind]. rewrite bool_decide_true; [done|]. apply map_empty. intros k. destruct (m !! k) as [r|] eqn:Hr; [|done].
    apply Hm in Hr as (v & ?%elem_of_nil & _). done.
  - rewrite fmap_cons in Hnd. apply list.NoDup_cons in Hnd as [Hx Hnd]. cbn [foldl rbind fst snd]. destruct (vote_needs_store v) eqn:Hv.
    + assert (m !! k = Some (paid_info v, paid_account v)) as -> by (apply Hm; exists v; split; [by left|done]). cbn [unwrap rbind fst snd].
      fold (paid_account v). change (reward_post_balance (paid_info v)) with (lamports (paid_account v)).
      rewrite set_own_lamports, accounts_equal_refl. apply IH; [done|]. intros j p. rewrite lookup_delete_Some, Hm. split.
      * intros (Hj & w & [Hw|Hw]%elem_of_cons & Hn & ->); [by simplify_eq|eauto].
      * intros (w & Hw & Hn & ->). split; [|exists w; split; [by right|done]]. intros ->. apply Hx. by apply (list_elem_of_fmap_2 fst _ _ Hw).
    + apply IH; [done|]. intros j p. rewrite Hm. split.
      * intros (w & [Hw|Hw]%elem_of_cons & Hn & ->); [simplify_eq; congruence|eauto].
      * intros (w & Hw & Hn & ->). exists w. split; [by right|done].
Qed.
Lemma calc_Ok (V : gmap Pubkey VoteReward) :
  (∀ k v, V !! k = Some v → is_Some (paid_vote_account v) ∧ vote_needs_store v = true) →
  calc_vote_accounts_to_store V =
    mkVoteRewardsAccounts ((λ x, (x.1, paid_info x.2)) <$> map_to_list V) ((λ x, Some (paid_account x.2)) <$> map_to_list V).
Proof.
  intros HV. unfold calc_vote_accounts_to_store. assert (∀ x, x ∈ map_to_list V → is_Some (paid_vote_account x.2) ∧ vote_needs_store x.2 = true) as Hx.
  { intros [k v] Hx%elem_of_map_to_list. by eapply HV. }
  induction (map_to_list V) as [|x L IH] using rev_ind; [done|]. rewrite foldl_app, IH by (intros; apply Hx; apply elem_of_app; by left).
  cbn [foldl vra_rewards accounts_to_store]. destruct (Hx x) as [[a Ha] Hn]; [apply elem_of_app; right; by left|].
  unfold paid_info, paid_account. rewrite !fmap_app. simpl. by rewrite Ha, Hn.
Qed.

Section bank_rules.
Context `{!Bincode VoteStateVersions, !Bincode StakeStateV2, !BincodeLaws StakeStateV2, !Bincode EpochRewards}.
Context (powf : f64 → f64 → f64) (sip : Hash → Pubkey → N) (rs : RewardSettings).

(** ** The bank *)
Definition total_lamports (db : gmap Pubkey AccountSharedData) : N := map_sum lamports db.
(** the cache is that of the accounts, and the capitalization is what they hold *)
Record bank_ok (b : RewardBank) : Prop := {
  bo_exact : exact (bank_rate rs) (rb_stakes b);
  bo_mirrors : mirrors (rb_accounts b) (rb_stakes b);
  bo_capitalization : rb_capitalization b = total_lamports (rb_accounts b) }.

Definition deleg (a : StakeAccount) : Delegation :=
  default (mkDelegation default_pubkey 0 0 0 DEFAULT_WARMUP_COOLDOWN_RATE) (state_delegation (sa_state a)).
Definition voter (x : Pubkey * StakeAccount) : Pubkey := voter_pubkey (deleg x.2).
Definition Ticket : Type := Pubkey * VoteState * (Pubkey * StakeAccount).
(** the delegation, with the vote account that it counts for *)
Definition ticket (b : RewardBank) (x : Pubkey * StakeAccount) : option Ticket :=
  match vote_entry b (voter x) with inr (vs, _) => Some (voter x, vs, x) | inl _ => None end.
Definition ticket_points (h : StakeHistory) (t : Ticket) : N := delegation_points (bank_rate rs) h t.1.2 t.2.2.
Definition all_points (b : RewardBank) : N :=
  list_sum (ticket_points (stakes_history (rb_stakes b))) (omap (ticket b) (map_to_list (stake_delegations (rb_stakes b)))).

(** what the bank needs to pay [R] lamports: the cached vote accounts can be read, one that is not
    cached has no credits, and the numbers are those of lamports *)
Record payable (b : RewardBank) (R : N) : Prop := {
  pay_readable : ∀ k va, cached_votes (rb_stakes b) !! k = Some va → va_vote_state va ≠ None;
  pay_votes : ∀ k vs a, vote_entry b k = inr (vs, a) →
    epochs_ok (epoch_credits vs) ∧ (credits vs = 0 ∨ is_Some (cached_votes (rb_stakes b) !! k));
  pay_points : all_points b * N.max R 1 ≤ u128_max;
  pay_room : supply (stake_delegations (rb_stakes b)) + total_lamports (rb_accounts b) + R ≤ 9223372036854775807 }.

Lemma deleg_Ok a : stake_ok a → sa_delegation a = Ok (deleg a) ∧ state_delegation (sa_state a) = Some (deleg a) ∧ delegation_in_range (deleg a).
Proof. intros (d & Hd & Hr). unfold sa_delegation, deleg. by rewrite Hd. Qed.

(** ** The delegations that take part *)
Definition participants (s : Stakes) : list (Pubkey * StakeAccount) :=
  match filter_stake_delegations rs s with Ok l => l | _ => [] end.
Lemma filtered_sublist {A} (f : A → bool) l : List.filter f l `sublist_of` l.
Proof. induction l as [|x l IH]; simpl; [done|]. destruct (f x); by constructor. Qed.
Lemma participants_Ok s :
  sound (stake_delegations s) →
  filter_stake_delegations rs s = Ok (participants s) ∧ participants s `sublist_of` map_to_list (stake_delegations s).
Proof.
  intros [Hs _]. unfold participants, filter_stake_delegations. destruct (bank_active _ _); [|done].
  rewrite (rmapM_fmap _ (λ x, (x, deleg x.2))).
  - cbn [rbind]. split; [done|]. induction (map_to_list (stake_delegations s)) as [|x l IH]; [done|]. simpl.
    destruct (_ <=? _); simpl; by constructor.
  - intros [k a] Hx%elem_of_map_to_list. simpl. destruct (deleg_Ok a (Hs k a Hx)) as [-> _]. done.
Qed.
Lemma participant_in s x : sound (stake_delegations s) → x ∈ participants s → stake_delegations s !! x.1 = Some x.2.
Proof.
  intros Hs Hx. apply elem_of_map_to_list. rewrite <-surjective_pairing. eapply elem_of_sublist; [exact Hx|]. by apply participants_Ok.
Qed.
Lemma participants_NoDup s : sound (stake_delegations s) → NoDup (participants s).*1.
Proof.
  intros Hs. eapply sublist_NoDup; [apply (NoDup_fst_map_to_list (stake_delegations s))|]. apply fmap_sublist, participants_Ok, Hs.
Qed.

(** ** Loading *)
Section loaded.
Context (b : RewardBank) (Hb : bank_ok b).
Abbreviation s := (rb_stakes b).
Abbreviation l := (participants (rb_stakes b)).

Lemma loaded_participant x :
  x ∈ l → stake_account_try_from (sa_account x.2) = Ok x.2 ∧ stake_ok x.2 ∧ rb_accounts b !! x.1 = Some (sa_account x.2) ∧ lamports (sa_account x.2) ≠ 0.
Proof.
  intros Hx. destruct Hb as [[_ Hs _] [Hm _ _] _]. apply (participant_in _ _ Hs) in Hx. pose proof (sound_stakes _ Hs _ _ Hx) as Hok.
  rewrite Hm in Hx. unfold stakes_in in Hx. apply lookup_omap_Some in Hx as (a & Ha & Hx). unfold stored_stake in Ha.
  destruct (N.eqb_spec (lamports a) 0); [done|]. destruct (stake_account_try_from a) as [y| |] eqn:Hy; [|done..].
  injection Ha as Ha. subst y. pose proof (try_from_account _ _ Hy) as [-> _]. done.
Qed.
Lemma not_cached_handled keys :
  (∀ k, k ∈ keys → cached_votes s !! k = None) → handle_invalid_keys keys s = Ok s.
Proof.
  induction keys as [|k keys IH]; intros Hk; [done|]. unfold handle_invalid_keys in *. cbn [foldl rbind].
  assert (remove_vote_account k s = Ok s) as ->; [|apply IH; intros; apply Hk; by right].
  specialize (Hk k (list_elem_of_here _ _)). unfold cached_votes in Hk. rewrite lookup_fmap, fmap_None in Hk.
  unfold remove_vote_account, vote_accounts_remove. rewrite Hk. cbn [rbind rmap]. rewrite delete_id by done. by destruct s as [[] ? ? ?].
Qed.
Lemma cached_entry k va : cached_votes s !! k = Some va →
  reward_vote_account b k = Some va ∧ owner (va_account va) = vote_program_id ∧ rb_accounts b !! k = Some (va_account va) ∧ lamports (va_account va) ≠ 0.
Proof.
  intros Hva. destruct Hb as [_ [_ Hc _] _]. pose proof (Hc _ _ Hva) as Hv. unfold votes_in in Hv. apply lookup_omap_Some in Hv as (a & Ha & Hk).
  pose proof (stored_vote_owner _ _ Ha) as [Hl Ho]. assert (va = mkVoteAccount a) as ->.
  { unfold stored_vote, vote_account_try_from in Ha. destruct (_ || _); [done|]. destruct (key_eqb _ _); by simplify_eq. }
  split; [|done]. unfold cached_votes in Hva. rewrite lookup_fmap in Hva. unfold reward_vote_account, get_vote_account. by rewrite Hva.
Qed.
Lemma invalid_not_cached k R reason : payable b R → vote_entry b k = inl reason → cached_votes s !! k = None.
Proof.
  intros Hp He. destruct (cached_votes s !! k) as [va|] eqn:Hva; [|done]. exfalso.
  destruct (cached_entry k va Hva) as (Hr & Ho & _). unfold vote_entry in He. rewrite Hr, Ho, key_eqb_refl in He. simpl in He.
  pose proof (pay_readable _ _ Hp k va Hva). by destruct (va_vote_state va).
Qed.

Lemma push_lookup k : ∀ (L : list (Pubkey * StakeAccount)) (m : gmap Pubkey VoteWithStakeDelegations),
  foldl push_stake_delegation m ((λ x, (x, deleg x.2)) <$> L) !! k =
  (λ v, mkVoteWithStakeDelegations (vwd_vote_state v) (vwd_vote_account v) (vwd_delegations v ++ filter (λ x, voter x = k) L)) <$> m !! k.
Proof.
  induction L as [|x L IH]; intros m.
  { simpl. destruct (m !! k) as [[]|]; simpl; [|done]. by rewrite app_nil_r. }
  rewrite fmap_cons. cbn [foldl]. rewrite IH. unfold push_stake_delegation. cbn [fst snd]. fold (voter x). rewrite list.filter_cons.
  destruct (m !! voter x) as [v|] eqn:Hv.
  - destruct (decide (voter x = k)) as [<-|Hne].
    + rewrite lookup_insert_eq, Hv. simpl. by rewrite <-app_assoc.
    + by rewrite lookup_insert_ne.
  - destruct (decide (voter x = k)) as [<-|Hne]; [by rewrite Hv|done].
Qed.
Lemma keyed_lookup {V} (f : Pubkey → option (Pubkey * V)) (g : Pubkey → option V) ks k :
  (∀ j, f j = pair j <$> g j) → (list_to_map (omap f ks) : gmap Pubkey V) !! k = if decide (k ∈ ks) then g k else None.
Proof.
  intros Hf. induction ks as [|j ks IH]; [done|]. cbn [omap list_omap]. rewrite Hf. destruct (g j) as [v|] eqn:Hj; simpl.
  - destruct (decide (k = j)) as [->|Hne]; [rewrite lookup_insert_eq, decide_True by (by left); done|].
    rewrite lookup_insert_ne by done. rewrite IH. destruct (decide (k ∈ ks)); [by rewrite decide_True by (by right)|].
    rewrite decide_False; [done|]. by intros [?|?]%elem_of_cons.
  - rewrite IH. destruct (decide (k = j)) as [->|Hne].
    + rewrite Hj. by destruct (decide (j ∈ ks)), (decide (j ∈ j :: ks)).
    + destruct (decide (k ∈ ks)); [by rewrite decide_True by (by right)|]. rewrite decide_False; [done|]. by intros [?|?]%elem_of_cons.
Qed.
(** the vote accounts with their delegations *)
Definition gathered (m : gmap Pubkey VoteWithStakeDelegations) : Prop :=
  ∀ k, m !! k = if decide (k ∈ voter <$> l)
    then match vote_entry b k with inr (vs, a) => Some (mkVoteWithStakeDelegations vs a (filter (λ x, voter x = k) l)) | inl _ => None end
    else None.
Lemma load_Ok R : payable b R → ∃ m, load_vote_and_stake_accounts rs b = Ok (m, b) ∧ gathered m.
Proof.
  intros Hp. unfold load_vote_and_stake_accounts, load_vote_and_stake_accounts_of. pose proof (exact_sound _ _ (bo_exact _ Hb)) as Hs.
  destruct (participants_Ok s Hs) as [-> _]. cbn [rbind]. rewrite (rmapM_fmap _ (λ x, (x, deleg x.2))).
  2: { intros x Hx. apply loaded_participant in Hx as (_ & Hok & _). by destruct (deleg_Ok _ Hok) as [-> _]. }
  cbn [rbind fst snd]. rewrite not_cached_handled.
  2: { intros k Hk. apply list_elem_of_fmap in Hk as ([j e] & -> & Hk). apply list_elem_of_omap in Hk as (i & Hi & Hk).
       destruct (vote_entry b i) as [e'|[]] eqn:He; simplify_eq. simpl. by eapply invalid_not_cached. }
  cbn [rbind]. eexists. split; [by destruct b|]. intros k. rewrite push_lookup.
  rewrite (keyed_lookup _ (λ k, match vote_entry b k with inr (s, a) => Some (mkVoteWithStakeDelegations s a []) | inl _ => None end)).
  2: { intros j. by destruct (vote_entry b j) as [|[]]. }
  rewrite <-list_fmap_compose. change ((λ x : Pubkey * StakeAccount * Delegation, voter_pubkey x.2) ∘ (λ x, (x, deleg x.2))) with voter.
  destruct (decide (k ∈ voter <$> l)) as [Hk|Hk].
  - rewrite decide_True by (by apply elem_of_elements, elem_of_list_to_set). by destruct (vote_entry b k) as [|[]].
  - rewrite decide_False; [done|]. by intros ?%elem_of_elements%elem_of_list_to_set.
Qed.
Definition items (m : gmap Pubkey VoteWithStakeDelegations) : list Ticket :=
  map_to_list m ≫= λ x, (λ y, (x.1, vwd_vote_state x.2, y)) <$> vwd_delegations x.2.
Lemma items_tickets m : gathered m → items m ≡ₚ omap (ticket b) l.
Proof.
  intros Hm. transitivity ((λ z : (Pubkey * VoteWithStakeDelegations) * (Pubkey * StakeAccount), (z.1.1, vwd_vote_state z.1.2, z.2)) <$>
    (map_to_list m ≫= λ x, (λ y, (x, y)) <$> filter (λ y, voter y = x.1) l)).
  - unfold items. assert (∀ x, x ∈ map_to_list m → vwd_delegations x.2 = filter (λ y, voter y = x.1) l) as Hx.
    { intros [k v] Hx%elem_of_map_to_list. rewrite Hm in Hx. simpl. case_decide; [|done]. by destruct (vote_entry b k) as [|[]]; simplify_eq. }
    induction (map_to_list m) as [|x k IH]; [done|]. rewrite !bind_cons, fmap_app, Hx, IH by (done || (intros; apply Hx; by right) || by left).
    by rewrite <-list_fmap_compose.
  - rewrite gather, (fmap_omap_in _ _ (ticket b)); [done|]. intros y Hy. unfold ticket. rewrite Hm, decide_True by (by apply list_elem_of_fmap_2).
    by destruct (vote_entry b (voter y)) as [|[]].
Qed.

(** ** Points *)
Abbreviation h := (stakes_history (rb_stakes b)).
Definition tickets : list Ticket := omap (ticket b) l.
Definition points_total : N := list_sum (ticket_points h) tickets.
Lemma points_total_le : points_total ≤ all_points b.
Proof.
  unfold points_total, tickets, all_points. rewrite !list_sum_omap. apply list_sum_sublist, participants_Ok.
  apply (exact_sound _ _ (bo_exact _ Hb)).
Qed.
Lemma ticket_spec R t : payable b R → t ∈ tickets →
  ∃ x vs a, t = (voter x, vs, x) ∧ x ∈ l ∧ vote_entry b (voter x) = inr (vs, a) ∧ epochs_ok (epoch_credits vs) ∧
    (credits vs = 0 ∨ is_Some (cached_votes s !! voter x)).
Proof.
  intros Hp Ht. apply list_elem_of_omap in Ht as (x & Hx & Ht). unfold ticket in Ht.
  destruct (vote_entry b (voter x)) as [|[vs a]] eqn:He; simplify_eq. destruct (pay_votes _ _ Hp _ _ _ He) as [Hok Hc]. eauto 10.
Qed.
Lemma points_of_ticket R t : payable b R → t ∈ tickets → points_or_0 rs h t.1.2 t.2.2 = Ok (ticket_points h t).
Proof.
  intros Hp Ht. destruct (ticket_spec R t Hp Ht) as (x & vs & a & -> & Hx & _ & He & _). simpl.
  apply loaded_participant in Hx as (_ & Hok & _). destruct (deleg_Ok _ Hok) as (_ & Hd & Hr).
  destruct (state_staked _ _ Hd) as (meta & stake & flags & Hst & Hdel). unfold points_or_0, ticket_points, delegation_points, calculate_points, calculate_stake_points.
  simpl. rewrite Hst. destruct (points_and_credits_Ok (bank_rate rs) h stake vs ltac:(by rewrite Hdel) He) as (y & -> & _). done.
Qed.
Lemma points_fit R : payable b R → points_total ≤ u128_max ∧ points_total * R ≤ u128_max.
Proof. intros Hp. pose proof (pay_points _ _ Hp). pose proof points_total_le. split; nia. Qed.
Lemma points_partitioned R : payable b R → calculate_reward_points_partitioned rs b l R = Ok (point_value_of R points_total).
Proof.
  intros Hp. unfold calculate_reward_points_partitioned.
  rewrite (sum_u128_Ok _ (λ x, from_option (ticket_points h) 0 (ticket b x))).
  - cbn [rmap]. unfold points_total, tickets. by rewrite list_sum_omap.
  - intros x Hx. pose proof Hx as Hx'. apply loaded_participant in Hx as (_ & Hok & _). destruct (deleg_Ok _ Hok) as [-> _]. cbn [rbind].
    fold (voter x). destruct (vote_entry b (voter x)) as [|[vs a]] eqn:He; unfold ticket; rewrite He; [done|]. cbn [from_option].
    apply (points_of_ticket R (voter x, vs, x) Hp). apply list_elem_of_omap. exists x. split; [done|]. unfold ticket. by rewrite He.
  - rewrite <-list_sum_omap. by apply (points_fit R).
Qed.
Lemma points_normal R m : payable b R → gathered m → calculate_reward_points rs m R h = Ok (point_value_of R points_total).
Proof.
  intros Hp Hm. destruct (points_fit R Hp) as [Hle _]. pose proof (list_sum_perm (ticket_points h) _ _ (items_tickets m Hm)) as Hsum.
  fold tickets in Hsum. fold points_total in Hsum. unfold items in Hsum. rewrite list_sum_bind in Hsum. unfold calculate_reward_points.
  rewrite (sum_u128_Ok _ (λ x, list_sum (ticket_points h) ((λ y, (x.1, vwd_vote_state x.2, y)) <$> vwd_delegations x.2))); [by rewrite <-Hsum| |by rewrite Hsum].
  intros x Hx. rewrite list_sum_fmap. apply sum_u128_Ok.
  - intros y Hy. apply (points_of_ticket R (x.1, vwd_vote_state x.2, y) Hp). unfold tickets. rewrite <-(items_tickets m Hm).
    unfold items. apply list_elem_of_bind. exists x. split; [|done]. apply list_elem_of_fmap. by exists y.
  - rewrite <-Hsum in Hle. etrans; [|exact Hle]. rewrite <-list_sum_fmap.
    etrans; [|exact (list_sum_elem (λ x, list_sum (ticket_points h) ((λ y, (x.1, vwd_vote_state x.2, y)) <$> vwd_delegations x.2)) _ _ Hx)]. done.
Qed.

(** ** Redemption *)
Section redeemed.
Context (e R : N) (Hp : payable b R) (HP : 0 < points_total).
Definition pv : PointValue := mkPointValue R points_total.
Definition red (t : Ticket) : option Redeemed :=
  match redeem_one rs e pv h t.1.1 t.1.2 t.2 with Ok o => o | _ => None end.
Definition redemptions : list Redeemed := omap red tickets.
Definition ticket_value (t : Ticket) : N := ticket_points h t * R / points_total.

Lemma red_Ok t : t ∈ tickets →
  redeem_one rs e pv h t.1.1 t.1.2 t.2 = Ok (red t) ∧ ∀ r, red t = Some r → redeemed_for t.1.1 t.2 (ticket_value t) r.
Proof.
  intros Ht. destruct (ticket_spec R t Hp Ht) as (x & vs & a & -> & Hx & _ & He & _).
  apply loaded_participant in Hx as Hx'. destruct Hx' as (Htry & Hok & Hacc & _). destruct (deleg_Ok _ Hok) as (_ & Hd & Hr).
  pose proof (pay_room _ _ Hp) as Hroom. destruct (points_fit R Hp) as [HPle HPR].
  assert (ticket_points h (voter x, vs, x) ≤ points_total) as Hle by (by apply (list_sum_elem (ticket_points h))).
  assert (delegated_stake (deleg x.2) ≤ supply (stake_delegations s)) as Hsup.
  { pose proof (participant_in _ _ (exact_sound _ _ (bo_exact _ Hb)) Hx) as Hin. unfold supply. rewrite (map_sum_delete _ _ _ _ Hin).
    unfold amount_of. rewrite Hd. simpl. lia. }
  destruct x as [y ac]. simpl in *. unfold red. simpl.
  destruct (redeem_one_Ok rs e pv h (voter (y, ac)) vs y ac (deleg ac) Htry Hd Hr He) as (o & -> & Ho).
  - unfold pv_ok. unfold ticket_points in Hle. simpl in *. split; [done|]. split; [done|]. split; [unfold u64_max; lia|].
    etrans; [|exact HPR]. by apply N.mul_le_mono_r.
  - simpl. unfold u64_max. lia.
  - simpl. lia.
  - split; [done|]. intros r Hr'. by apply Ho.
Qed.
(** the sum of all that is paid is at most the pool *)
Lemma redemptions_spec r : r ∈ redemptions → ∃ t, t ∈ tickets ∧ red t = Some r ∧ redeemed_for t.1.1 t.2 (ticket_value t) r.
Proof. intros (t & Ht & Hr)%list_elem_of_omap. exists t. split; [done|]. split; [done|]. by apply red_Ok. Qed.
Lemma pool_bound : list_sum (λ r, rd_stakers_reward r + rd_voters_reward r) redemptions ≤ R.
Proof.
  unfold redemptions. rewrite list_sum_omap. transitivity (list_sum ticket_value tickets).
  - apply list_sum_le. intros t Ht. destruct (red_Ok t Ht) as [_ Hr]. destruct (red t) as [r|]; simpl; [|lia]. by apply (rf_value _ _ _ _ (Hr r eq_refl)).
  - unfold ticket_value. etrans; [apply (list_sum_div (ticket_points h)); lia|]. fold points_total. apply N.Div0.div_le_upper_bound. lia.
Qed.
Lemma somes_fmap {A B} (f : A → option B) (k : list A) : somes (f <$> k) = omap f k.
Proof. unfold somes. induction k as [|x k IH]; [done|]. rewrite fmap_cons. cbn [omap list_omap]. simpl. destruct (f x); [f_equal|]; done. Qed.

(** what the voters are paid *)
Definition paid (k : Pubkey) (L : list Redeemed) : N := list_sum rd_voters_reward (filter (λ r, rd_voter r = k) L).
Definition credited (k : Pubkey) (L : list Redeemed) (v : VoteReward) : VoteReward :=
  mkVoteReward (vote_account v) (vr_commission v) (vote_rewards v + paid k L)
    (vote_needs_store v || bool_decide (k ∈ rd_voter <$> L)).
Lemma paid_cons k x L : paid k (x :: L) = (if decide (rd_voter x = k) then rd_voters_reward x else 0) + paid k L.
Proof. unfold paid. rewrite list.filter_cons. case_decide; [by rewrite list_sum_cons|done]. Qed.
Lemma paid_none k L : k ∉ rd_voter <$> L → paid k L = 0.
Proof.
  induction L as [|x L IH]; intros Hk; [done|]. rewrite fmap_cons, not_elem_of_cons in Hk. destruct Hk as [Hne Hk].
  rewrite paid_cons, IH, decide_False by congruence. done.
Qed.
Lemma paid_perm k L L' : L ≡ₚ L' → paid k L = paid k L'.
Proof. intros HL. unfold paid. by apply list_sum_perm, filter_Permutation. Qed.
Lemma credited_perm k L L' v : L ≡ₚ L' → credited k L v = credited k L' v.
Proof. intros HL. unfold credited. rewrite (paid_perm k L L' HL). do 2 f_equal. apply bool_decide_ext. by rewrite HL. Qed.
Lemma credited_nil k v : credited k [] v = v.
Proof.
  unfold credited, paid. rewrite bool_decide_false by (by intros ?%elem_of_nil). rewrite orb_false_r. change (list_sum _ _) with 0.
  rewrite N.add_0_r. by destruct v.
Qed.
Lemma credited_cons k x L v :
  vote_rewards v + list_sum rd_voters_reward (x :: L) ≤ u64_max →
  credited k L (if decide (rd_voter x = k) then credit_voter x v else v) = credited k (x :: L) v ∧
  vote_rewards (if decide (rd_voter x = k) then credit_voter x v else v) + list_sum rd_voters_reward L ≤ u64_max.
Proof.
  rewrite list_sum_cons. intros Hle. unfold credited. rewrite paid_cons. case_decide as Hk.
  - unfold credit_voter, saturating_add. cbn [vote_account vr_commission vote_rewards vote_needs_store]. rewrite N.min_r by lia.
    rewrite (bool_decide_true (k ∈ rd_voter <$> x :: L)) by (rewrite fmap_cons; subst k; left). rewrite orb_true_r. split; [f_equal; lia|lia].
  - split; [|lia]. f_equal. f_equal. apply bool_decide_ext. rewrite fmap_cons, elem_of_cons. split; [by right|]. intros [?|?]; congruence.
Qed.
Lemma alter_fold L : ∀ (M : gmap Pubkey VoteReward) k,
  (∀ v, M !! k = Some v → vote_rewards v + list_sum rd_voters_reward L ≤ u64_max) →
  foldl (λ m x, alter (credit_voter x) (rd_voter x) m) M L !! k = credited k L <$> M !! k.
Proof.
  induction L as [|x L IH]; intros M k Hle.
  { simpl. destruct (M !! k); simpl; [|done]. by rewrite credited_nil. }
  cbn [foldl]. assert (alter (credit_voter x) (rd_voter x) M !! k = (λ v, if decide (rd_voter x = k) then credit_voter x v else v) <$> M !! k) as Ha.
  { case_decide as Hk; [subst; apply lookup_alter_eq|]. rewrite lookup_alter_ne by done. by destruct (M !! k). }
  destruct (M !! k) as [v|] eqn:Hv.
  - destruct (credited_cons k x L v (Hle v eq_refl)) as [Hc Hc']. rewrite IH, Ha; [simpl; by rewrite Hc|]. rewrite Ha. by intros v' [= <-].
  - rewrite IH, Ha; [done|]. by rewrite Ha.
Qed.
Lemma insert_fold (nv : Pubkey → VoteReward) (L : list (VoteReward * Redeemed)) : ∀ (M : gmap Pubkey VoteReward) k,
  (∀ x, x ∈ L → x.1 = nv (rd_voter x.2)) →
  (vote_rewards (default (nv k) (M !! k)) + list_sum rd_voters_reward L.*2 ≤ u64_max) →
  foldl (λ m x, <[rd_voter x.2 := credit_voter x.2 (default x.1 (m !! rd_voter x.2))]> m) M L !! k =
  if decide (k ∈ rd_voter <$> L.*2) then Some (credited k L.*2 (default (nv k) (M !! k))) else M !! k.
Proof.
  induction L as [|x L IH]; intros M k Hnv Hle; [done|]. cbn [foldl]. rewrite fmap_cons in Hle. destruct (credited_cons k x.2 L.*2 _ Hle) as [Hc Hc'].
  assert (default (nv k) (<[rd_voter x.2 := credit_voter x.2 (default x.1 (M !! rd_voter x.2))]> M !! k) =
    if decide (rd_voter x.2 = k) then credit_voter x.2 (default (nv k) (M !! k)) else default (nv k) (M !! k)) as Hd.
  { case_decide as Hk; [|by rewrite lookup_insert_ne]. subst k. rewrite lookup_insert_eq. simpl. by rewrite (Hnv x) by (by left). }
  rewrite IH by (try (intros; apply Hnv; by right); by rewrite Hd). rewrite Hd, Hc, !fmap_cons.
  destruct (decide (k ∈ rd_voter <$> L.*2)) as [Hin|Hin]; [by rewrite decide_True by (by right)|].
  destruct (decide (k = rd_voter x.2)) as [->|Hne].
  - rewrite decide_True by (by left). rewrite <-Hc, decide_True, lookup_insert_eq by done. f_equal. rewrite (Hnv x) by (by left).
    unfold credited. rewrite (bool_decide_false _ Hin), orb_false_r, paid_none, N.add_0_r by done. by destruct (credit_voter _ _).
  - rewrite decide_False by (by intros [?|?]%elem_of_cons). by rewrite lookup_insert_ne.
Qed.

Definition nv (k : Pubkey) : VoteReward :=
  match vote_entry b k with inr (vs, a) => new_vote_reward vs a | inl _ => mkVoteReward (shared_new 0 0 default_pubkey) 0 0 false end.
Lemma voters_bound L : L ≡ₚ redemptions → ∀ k, vote_rewards (nv k) + list_sum rd_voters_reward L ≤ u64_max.
Proof.
  intros HL k. rewrite (list_sum_perm _ _ _ HL). assert (vote_rewards (nv k) = 0) as -> by (unfold nv; by destruct (vote_entry b k) as [|[]]).
  pose proof pool_bound as Hpool. rewrite list_sum_add in Hpool. pose proof (pay_room _ _ Hp). unfold u64_max. lia.
Qed.
Lemma redeem_normal m : gathered m → ∃ V L,
  redeem_rewards rs m e pv h = Ok (V, rd_stake_reward <$> L) ∧ L ≡ₚ redemptions ∧
  ∀ k, V !! k = if decide (k ∈ voter <$> l) then
    match vote_entry b k with inr _ => Some (credited k redemptions (nv k)) | inl _ => None end else None.
Proof.
  intros Hm. unfold redeem_rewards. fold (items m). rewrite (rmapM_fmap _ red).
  2: { intros t Ht. apply red_Ok. unfold tickets. by rewrite <-items_tickets. }
  cbn [rbind]. rewrite somes_fmap. assert (omap red (items m) ≡ₚ redemptions) as HL.
  { unfold redemptions, tickets. by rewrite (items_tickets m Hm). }
  do 2 eexists. split; [done|]. split; [done|]. intros k.
  assert (((λ v, new_vote_reward (vwd_vote_state v) (vwd_vote_account v)) <$> m) !! k = if decide (k ∈ voter <$> l) then
    match vote_entry b k with inr _ => Some (nv k) | inl _ => None end else None) as Hk.
  { rewrite lookup_fmap, Hm. case_decide; [|done]. unfold nv. by destruct (vote_entry b k) as [|[]]. }
  rewrite alter_fold.
  - rewrite Hk. case_decide; [|done]. destruct (vote_entry b k); simpl; [done|]. by rewrite (credited_perm k _ _ _ HL).
  - intros v. rewrite Hk. case_decide; [|done]. destruct (vote_entry b k) eqn:He; [done|]. intros [= <-]. by apply voters_bound.
Qed.
Lemma redeemed_voter r : r ∈ redemptions → ∃ x vs a, x ∈ l ∧ rd_voter r = voter x ∧ vote_entry b (voter x) = inr (vs, a).
Proof.
  intros (t & Ht & _ & Hf)%redemptions_spec. destruct (ticket_spec R t Hp Ht) as (x & vs & a & -> & Hx & He & _).
  exists x, vs, a. split; [done|]. split; [by apply (rf_voter _ _ _ _ Hf)|done].
Qed.
Definition ticket_reward (x : Pubkey * StakeAccount) : option (VoteReward * Redeemed) :=
  ticket b x ≫= λ t, pair (nv (voter x)) <$> red t.
Lemma stakers_total (L : list (VoteReward * Redeemed)) :
  list_sum (λ x, rd_stakers_reward x.2) L ≤ u64_max →
  foldl (λ n x, wrapping_add n (rd_stakers_reward x.2)) 0 L = list_sum (λ x, rd_stakers_reward x.2) L.
Proof.
  induction L as [|x L IH] using rev_ind; [done|]. rewrite foldl_app, list_sum_snoc. cbn [foldl]. intros Hle.
  rewrite IH by lia. by rewrite wrapping_add_small by lia.
Qed.
Lemma redeem_partitioned : ∃ V,
  calculate_stake_vote_rewards rs b l e pv =
    Ok (calc_vote_accounts_to_store V, mkStakeRewardCalculation (rd_stake_reward <$> redemptions) (list_sum rd_stakers_reward redemptions)) ∧
  ∀ k, V !! k = if decide (k ∈ rd_voter <$> redemptions) then Some (credited k redemptions (nv k)) else None.
Proof.
  unfold calculate_stake_vote_rewards. rewrite (rmapM_fmap _ ticket_reward).
  2: { intros x Hx. pose proof Hx as Hx'. apply loaded_participant in Hx as (_ & Hok & _). destruct (deleg_Ok _ Hok) as [-> _]. cbn [rbind].
       fold (voter x). unfold ticket_reward, ticket, nv. destruct (vote_entry b (voter x)) as [|[vs a]] eqn:He; [done|]. simpl.
       destruct (red_Ok (voter x, vs, x)) as [Hred _]; [|cbn [fst snd] in Hred; by rewrite Hred]. apply list_elem_of_omap. exists x. split; [done|]. unfold ticket. by rewrite He. }
  cbn [rbind]. rewrite somes_fmap. assert ((omap ticket_reward l).*2 = redemptions) as Hsnd.
  { unfold redemptions, tickets. rewrite (fmap_omap_in _ _ (λ x, ticket b x ≫= red)).
    - induction l as [|x l' IH]; [done|]. cbn [omap list_omap]. destruct (ticket b x) as [t|]; simpl; [|done].
      destruct (red t); [f_equal|]; apply IH.
    - intros x _. unfold ticket_reward. destruct (ticket b x) as [t|]; [|done]. simpl. by destruct (red t). }
  rewrite stakers_total.
  2: { rewrite <-(list_sum_fmap rd_stakers_reward snd), Hsnd. pose proof pool_bound as Hpool. rewrite list_sum_add in Hpool.
       pose proof (pay_room _ _ Hp). unfold u64_max. lia. }
  eexists. split.
  { rewrite <-(list_sum_fmap rd_stakers_reward snd), Hsnd. do 3 f_equal. rewrite <-Hsnd, <-list_fmap_compose. done. }
  intros k. rewrite (insert_fold nv).
  - by rewrite Hsnd, lookup_empty.
  - intros x (y & Hy & Hx)%list_elem_of_omap. unfold ticket_reward, ticket in Hx. destruct (vote_entry b (voter y)) as [|[vs a]] eqn:He; [done|].
    simpl in Hx. destruct (red (voter y, vs, y)) as [r|] eqn:Hr; [|done]. injection Hx as <-. simpl.
    destruct (red_Ok (voter y, vs, y)) as [_ Hf]; [|by rewrite (rf_voter _ _ _ _ (Hf r Hr))].
    apply list_elem_of_omap. exists y. split; [done|]. unfold ticket. by rewrite He.
  - rewrite lookup_empty, Hsnd. by apply voters_bound.
Qed.

Lemma entry_account k vs a : vote_entry b k = inr (vs, a) →
  rb_accounts b !! k = Some a ∧ lamports a ≠ 0 ∧ owner a = vote_program_id ∧ va_vote_state (mkVoteAccount a) = Some vs.
Proof.
  unfold vote_entry. destruct (reward_vote_account b k) as [va|] eqn:Hr; [|done]. destruct (key_eqb _ _) eqn:Ho; [|done]. apply key_eqb_true in Ho.
  simpl. destruct (va_vote_state va) as [vs'|] eqn:Hvs; [|done]. intros [= -> <-]. unfold reward_vote_account in Hr.
  destruct (get_vote_account k _) as [va'|] eqn:Hg.
  - injection Hr as ->. destruct (cached_entry k va) as (_ & _ & Hk & Hl); [unfold cached_votes; by rewrite lookup_fmap|]. by destruct va.
  - unfold bank_get_account in Hr. destruct (rb_accounts b !! k) as [a'|] eqn:Ha; [|done]. destruct (N.eqb_spec (lamports a') 0); [done|]. simpl in Hr.
    unfold vote_account_try_from in Hr. destruct (key_eqb (owner a') _); [|done]. injection Hr as <-. done.
Qed.
Lemma keys_NoDup : NoDup ((λ r, stake_pubkey (rd_stake_reward r)) <$> redemptions).
Proof.
  eapply sublist_NoDup; [apply (participants_NoDup s), (exact_sound _ _ (bo_exact _ Hb))|]. transitivity ((λ t : Ticket, t.2.1) <$> tickets).
  - apply omap_sublist. intros t r Ht Hr. destruct (red_Ok t Ht) as [_ Hf]. apply (rf_key _ _ _ _ (Hf r Hr)).
  - apply omap_sublist. intros x t _ Ht. unfold ticket in Ht. by destruct (vote_entry b (voter x)) as [|[]]; simplify_eq.
Qed.
Lemma paid_le k : paid k redemptions ≤ R.
Proof.
  transitivity (list_sum rd_voters_reward redemptions); [apply list_sum_filter|]. pose proof pool_bound as Hpool.
  rewrite list_sum_add in Hpool. lia.
Qed.
Definition due_reward (k : Pubkey) : VoteReward := credited k redemptions (nv k).
Lemma due_paid k vs a : vote_entry b k = inr (vs, a) →
  paid_vote_account (due_reward k) = Some (set_lamports (lamports a + paid k redemptions) a) ∧ vote_account (due_reward k) = a ∧
  vote_rewards (due_reward k) = paid k redemptions ∧ vote_needs_store (due_reward k) = bool_decide (k ∈ rd_voter <$> redemptions).
Proof.
  intros He. destruct (entry_account k vs a He) as (Hk & _). unfold due_reward, nv. rewrite He. simpl. split; [|done].
  unfold paid_vote_account, checked_add_lamports. simpl. pose proof (paid_le k). pose proof (pay_room _ _ Hp) as Hroom.
  assert (lamports a ≤ total_lamports (rb_accounts b)) as Hle by (unfold total_lamports; rewrite (map_sum_delete _ _ _ _ Hk); lia).
  unfold checked_add. rewrite (proj2 (N.leb_le _ _)) by (unfold u64_max; lia). done.
Qed.
(** the vote accounts that are paid by the two calculations *)
Definition all_due (V : gmap Pubkey VoteReward) : Prop :=
  ∀ k, V !! k = if decide (k ∈ voter <$> l) then match vote_entry b k with inr _ => Some (due_reward k) | inl _ => None end else None.
Definition only_due (V : gmap Pubkey VoteReward) : Prop :=
  ∀ k, V !! k = if decide (k ∈ rd_voter <$> redemptions) then Some (due_reward k) else None.
Lemma redeemed_entry k : k ∈ rd_voter <$> redemptions → k ∈ voter <$> l ∧ ∃ vs a, vote_entry b k = inr (vs, a).
Proof.
  intros (r & -> & Hr)%list_elem_of_fmap. destruct (redeemed_voter r Hr) as (x & vs & a & Hx & -> & He).
  split; [by apply list_elem_of_fmap_2|eauto].
Qed.
Lemma due_same V V' : all_due V → only_due V' → ∀ k v, V' !! k = Some v ↔ V !! k = Some v ∧ vote_needs_store v = true.
Proof.
  intros HV HV' k v. rewrite HV, HV'. destruct (decide (k ∈ rd_voter <$> redemptions)) as [Hk|Hk].
  - destruct (redeemed_entry k Hk) as (Hin & vs & a & He). rewrite decide_True, He by done. destruct (due_paid k vs a He) as (_ & _ & _ & Hn).
    rewrite bool_decide_true in Hn by done. split; [by intros [= <-]|by intros [? _]].
  - split; [done|]. intros [Hv Hn]. case_decide; [|done]. destruct (vote_entry b k) as [|[vs a]] eqn:He; [done|]. injection Hv as <-.
    destruct (due_paid k vs a He) as (_ & _ & _ & Hn'). rewrite bool_decide_false in Hn' by done. congruence.
Qed.
Lemma only_due_paid V : only_due V → ∀ k v, V !! k = Some v → is_Some (paid_vote_account v) ∧ vote_needs_store v = true.
Proof.
  intros HV k v. rewrite HV. case_decide as Hk; [|done]. intros [= <-]. destruct (redeemed_entry k Hk) as (_ & vs & a & He).
  destruct (due_paid k vs a He) as (-> & _ & _ & ->). split; [by eexists|by apply bool_decide_eq_true].
Qed.
Lemma compared V V' L parts total old :
  all_due V → only_due V' → L ≡ₚ redemptions → concat parts ≡ₚ rd_stake_reward <$> redemptions →
  compare_with_partitioned_rewards_results (rd_stake_reward <$> L) V
    (mkPartitionedRewardsCalculation (calc_vote_accounts_to_store V') parts total old R) = Ok tt.
Proof.
  intros HV HV' HL Hparts. unfold compare_with_partitioned_rewards_results. cbn [prc_vote_account_rewards prc_stake_rewards_by_partition].
  assert (NoDup (stake_pubkey <$> concat parts)) as Hnd. { rewrite Hparts, <-list_fmap_compose. apply keys_NoDup. }
  rewrite compare_stake_Ok.
  2: { rewrite HL, <-Hparts. done. }
  2: { intros k r. rewrite build_rewards_lookup by done. rewrite HL, <-Hparts. split; [intros (x & Hx & Hk & ->); done|intros [Hr Hk]; eauto]. }
  cbn [rbind]. rewrite (calc_Ok V') by (by apply only_due_paid). cbn [vra_rewards accounts_to_store].
  rewrite (zip_index ((λ x, (x.1, paid_info x.2)) <$> map_to_list V') _ _ (λ r a, (λ a, (r, a)) <$> a)).
  2: { by rewrite !length_fmap. }
  2: { intros i x y Hx Hy. cbn [fst snd]. rewrite Hx. cbn [unwrap rbind]. by destruct y. }
  cbn [rbind]. rewrite zip_with_fmap_l, zip_with_fmap_r.
  assert (somes (zip_with (λ x y : Pubkey * VoteReward, (λ a, ((x.1, paid_info x.2), a)) <$> Some (paid_account y.2)) (map_to_list V') (map_to_list V')) =
    (λ x, ((x.1, paid_info x.2), paid_account x.2)) <$> map_to_list V') as ->.
  { unfold somes. induction (map_to_list V') as [|x k IH]; [done|]. simpl. f_equal. exact IH. }
  apply compare_vote_Ok; [apply NoDup_fst_map_to_list|]. intros k q.
  rewrite (build_rewards_lookup (λ x : Pubkey * RewardInfo * AccountSharedData, x.1.1) (λ x, (x.1.2, x.2))).
  2: { rewrite <-list_fmap_compose. apply (NoDup_fst_map_to_list V'). }
  split.
  - intros (x & Hx & Hk & Hq). apply list_elem_of_fmap in Hx as ([j v] & -> & Hx%elem_of_map_to_list). simpl in *. subst j.
    apply (due_same V V' HV HV') in Hx as [Hx Hn]. exists v. rewrite elem_of_map_to_list. done.
  - intros (v & Hv%elem_of_map_to_list & Hn & ->). exists ((k, paid_info v), paid_account v). split; [|done].
    apply list_elem_of_fmap. exists (k, v). split; [done|]. apply elem_of_map_to_list. by apply (due_same V V' HV HV').
Qed.
End redeemed.
End loaded.
End bank_rules.

(** ** Balances *)
Lemma wrapping_sub_add n m : n + m ≤ u64_max → wrapping_sub (n + m) n = m.
Proof.
  unfold wrapping_sub, as_u64, u64_max. intros Hle. rewrite (N.mod_small n) by lia.
  replace (n + m + (18446744073709551616 - n)) with (m + 1 * 18446744073709551616) by lia. rewrite N.Div0.mod_add. apply N.mod_small. lia.
Qed.
Definition votes_balance (s : Stakes) : N := map_sum va_lamports (cached_votes s).
Lemma map_sum_fmap {V W} (f : W → N) (g : V → W) (m : gmap Pubkey V) : map_sum f (g <$> m) = map_sum (λ v, f (g v)) m.
Proof.
  rewrite !map_sum_list, map_to_list_fmap. rewrite <-!list_fmap_compose. f_equal.
Qed.
Lemma sum_delegated_Ok l :
  (∀ a, a ∈ l → stake_ok a) → list_sum amount_of l ≤ u64_max → sum_delegated l = Ok (list_sum amount_of l).
Proof.
  induction l as [|a l IH]; intros Hl Hle; [done|]. rewrite list_sum_cons in Hle |- *. destruct (Hl a (list_elem_of_here _ _)) as (d & Hd & _).
  cbn [sum_delegated]. unfold sa_delegation. rewrite Hd. cbn [unwrap rbind]. rewrite IH by (intros; try (apply Hl; by right); lia). cbn [rbind].
  unfold amount_of at 1 in Hle. rewrite Hd in Hle. simpl in Hle. rewrite wrapping_add_small by lia. unfold amount_of at 2. by rewrite Hd.
Qed.
Lemma wrapping_sum {A} (f : A → N) l : list_sum f l ≤ u64_max → foldr (λ x n, wrapping_add (f x) n) 0 l = list_sum f l.
Proof. induction l as [|x l IH]; [done|]. rewrite list_sum_cons. intros Hle. cbn [foldr]. rewrite IH by lia. by rewrite wrapping_add_small by lia. Qed.
Lemma balance_Ok s :
  sound (stake_delegations s) → supply (stake_delegations s) + votes_balance s ≤ u64_max →
  vote_balance_and_staked s = Ok (supply (stake_delegations s) + votes_balance s).
Proof.
  intros [Hm Hs] Hle. unfold vote_balance_and_staked. unfold supply in *. rewrite map_sum_list in Hle, Hs |- *.
  rewrite sum_delegated_Ok by (done || by apply values_ok). cbn [rbind]. f_equal.
  assert (foldr (λ x n, wrapping_add (va_lamports x.2.2) n) 0 (map_to_list (vote_accounts (stakes_vote_accounts s))) = votes_balance s) as ->.
  { unfold votes_balance, cached_votes in *. rewrite map_sum_fmap, map_sum_list in Hle |- *. rewrite list_sum_fmap in Hle |- *. apply wrapping_sum. lia. }
  by apply wrapping_add_small.
Qed.

(** the accounts that were there stay and lose nothing, and only stake and vote accounts change *)
Definition grows (db db' : gmap Pubkey AccountSharedData) : Prop :=
  ∀ k, match db !! k with
       | Some a => ∃ a', db' !! k = Some a' ∧ owner a' = owner a ∧ lamports a ≤ lamports a' ∧
           (owner a ≠ stake_program_id → owner a ≠ vote_program_id → a' = a)
       | None => db' !! k = None
       end.
Lemma grows_refl db : grows db db.
Proof. intros k. destruct (db !! k) as [a|]; [|done]. by exists a. Qed.
Lemma grows_trans db1 db2 db3 : grows db1 db2 → grows db2 db3 → grows db1 db3.
Proof.
  intros H1 H2 k. specialize (H1 k). specialize (H2 k). destruct (db1 !! k) as [a|]; [|by rewrite H1 in H2].
  destruct H1 as (a' & Ha' & Ho & Hl & Hs). rewrite Ha' in H2. destruct H2 as (a'' & Ha'' & Ho' & Hl' & Hs').
  exists a''. split; [done|]. split; [congruence|]. split; [lia|]. intros Hne Hne'. rewrite Hs' by congruence. by apply Hs.
Qed.
Lemma grows_insert db k a a' :
  db !! k = Some a → owner a' = owner a → lamports a ≤ lamports a' → owner a = stake_program_id ∨ owner a = vote_program_id →
  grows db (<[k := a']> db).
Proof.
  intros Hk Ho Hl Hp j. destruct (decide (j = k)) as [->|Hne].
  - rewrite Hk, lookup_insert_eq. exists a'. split_and!; [done..|]. by destruct Hp.
  - rewrite lookup_insert_ne by done. destruct (db !! j) as [x|]; [|done]. by exists x.
Qed.
Definition same_rest (b b' : RewardBank) : Prop :=
  rb_capitalization b' = rb_capitalization b ∧ rb_rewards b' = rb_rewards b ∧ rb_status b' = rb_status b ∧ rb_block_height b' = rb_block_height b.

Section paid.
Context `{!Bincode VoteStateVersions, !Bincode StakeStateV2, !BincodeLaws StakeStateV2, !Bincode EpochRewards}.
Context (powf : f64 → f64 → f64) (sip : Hash → Pubkey → N) (rs : RewardSettings).
Record cache_ok (b : RewardBank) : Prop := {
  co_exact : exact (bank_rate rs) (rb_stakes b);
  co_mirrors : mirrors (rb_accounts b) (rb_stakes b) }.

(** ** A vote account is paid *)
Lemma pay_vote b k a n :
  cache_ok b → rb_accounts b !! k = Some a → lamports a ≠ 0 → owner a = vote_program_id →
  va_vote_state (mkVoteAccount a) ≠ None → is_Some (cached_votes (rb_stakes b) !! k) ∨ n = 0 →
  let a' := set_lamports (lamports a + n) a in
  ∃ b', store_account rs k a' b = Ok b' ∧ cache_ok b' ∧ rb_accounts b' = <[k := a']> (rb_accounts b) ∧ same_rest b b' ∧
    stake_delegations (rb_stakes b') = stake_delegations (rb_stakes b) ∧ votes_balance (rb_stakes b') = votes_balance (rb_stakes b) + n ∧
    ∀ j, j ≠ k → cached_votes (rb_stakes b') !! j = cached_votes (rb_stakes b) !! j.
Proof.
  intros [He Hm] Hk Hl Ho Hread Hc a'.
  assert (stored_vote a' = if vote_is_correct_size_and_initialized (data a) then Some (mkVoteAccount a') else None) as Hst.
  { unfold stored_vote, vote_account_try_from. simpl. rewrite Ho, key_eqb_refl, (proj2 (N.eqb_neq _ _)) by lia. simpl. by destruct (vote_is_correct_size_and_initialized _). }
  assert (votes_in (rb_accounts b) !! k = if vote_is_correct_size_and_initialized (data a) then Some (mkVoteAccount a) else None) as Hv.
  { unfold votes_in. rewrite lookup_omap, Hk. simpl. unfold stored_vote, vote_account_try_from. rewrite Ho, key_eqb_refl, (proj2 (N.eqb_neq _ _)) by lia.
    simpl. by destruct (vote_is_correct_size_and_initialized _). }
  destruct (store_vote_ok (bank_rate rs) (rb_stakes b) (rb_accounts b) k a' He Hm) as (s' & Hs' & He' & Hm' & Hd' & Hcv & _); [|done|].
  { intros old Hold _ _. rewrite Hk in Hold. by injection Hold as <-. }
  unfold store_account, bank_store_accounts. cbn [foldl rbind fst snd]. rewrite Hs'. cbn [rbind]. eexists. split; [done|]. split; [done|].
  split; [done|]. split; [done|]. split; [done|]. simpl. rewrite Hcv. split; [|intros j Hj; by apply lookup_partial_alter_ne].
  unfold votes_balance. rewrite Hcv, Hst. destruct (vote_is_correct_size_and_initialized (data a)).
  - pose proof (mirrors_votes _ _ Hm k _ Hv Hread) as Hcached. pose proof (map_sum_insert va_lamports k (mkVoteAccount a') (mkVoteAccount a) (cached_votes (rb_stakes b)) Hcached) as Hsum.
    unfold va_lamports in Hsum at 2 3. simpl in Hsum. unfold insert, map_insert in Hsum. lia.
  - destruct (cached_votes (rb_stakes b) !! k) as [va|] eqn:Hva; [by rewrite (mirrors_cached _ _ Hm k va Hva) in Hv|].
    destruct Hc as [[] | ->]; [done|]. rewrite partial_alter_none by done. lia.
Qed.

(** a list of stores is one store after the other *)
Lemma check_fold_stuck {A} (f : A → Stakes → result InstructionError Stakes) l r :
  (∀ s, r ≠ Ok s) → foldl (λ r x, let! s := r in f x s) r l = r.
Proof. intros Hr. induction l as [|x l IH]; [done|]. cbn [foldl]. destruct r as [s| |]; [by destruct (Hr s)|done..]. Qed.
Lemma store_accounts_cons x l b :
  bank_store_accounts rs (x :: l) b = let! b := store_account rs x.1 x.2 b in bank_store_accounts rs l b.
Proof.
  unfold store_account, bank_store_accounts. cbn [foldl rbind fst snd]. destruct (check_and_store _ x.1 x.2 (rb_stakes b)) as [s| |] eqn:Hs; cbn [rbind].
  - by destruct b.
  - rewrite check_fold_stuck by done. done.
  - rewrite check_fold_stuck by done. done.
Qed.
Record ready (b : RewardBank) (k : Pubkey) (a : AccountSharedData) (n : N) : Prop := {
  ready_account : rb_accounts b !! k = Some a;
  ready_lamports : lamports a ≠ 0;
  ready_owner : owner a = vote_program_id;
  ready_state : va_vote_state (mkVoteAccount a) ≠ None;
  ready_cached : is_Some (cached_votes (rb_stakes b) !! k) ∨ n = 0 }.
Lemma pay_all (amount : Pubkey → N) (l : list (Pubkey * AccountSharedData)) : ∀ b,
  cache_ok b → NoDup l.*1 →
  (∀ x, x ∈ l → ∃ a, ready b x.1 a (amount x.1) ∧ x.2 = set_lamports (lamports a + amount x.1) a) →
  ∃ b', bank_store_accounts rs l b = Ok b' ∧ cache_ok b' ∧ same_rest b b' ∧ grows (rb_accounts b) (rb_accounts b') ∧
    stake_delegations (rb_stakes b') = stake_delegations (rb_stakes b) ∧
    votes_balance (rb_stakes b') = votes_balance (rb_stakes b) + list_sum amount l.*1 ∧
    total_lamports (rb_accounts b') = total_lamports (rb_accounts b) + list_sum amount l.*1 ∧
    (∀ k, k ∉ l.*1 → rb_accounts b' !! k = rb_accounts b !! k).
Proof.
  induction l as [|[k a'] l IH]; intros b Hb Hnd Hl.
  { exists b. split; [by destruct b|]. split; [done|]. split; [done|]. split; [apply grows_refl|]. split; [done|]. rewrite !N.add_0_r. done. }
  rewrite fmap_cons in Hnd |- *. apply list.NoDup_cons in Hnd as [Hk Hnd]. destruct (Hl (k, a') (list_elem_of_here _ _)) as (a & [Ha Hnz Ho Hr Hc] & Heq).
  simpl in Ha, Hc, Heq. subst a'. destruct (pay_vote b k a (amount k) Hb Ha Hnz Ho Hr Hc) as (b1 & Hs1 & Hb1 & Ha1 & Hrest1 & Hd1 & Hv1 & Hc1).
  destruct (IH b1 Hb1 Hnd) as (b2 & Hs2 & Hb2 & Hrest2 & Hg2 & Hd2 & Hv2 & Ht2 & Hother2).
  { intros x Hx. destruct (Hl x) as (ax & [Hax Hnzx Hox Hrx Hcx] & Hx2); [by right|]. assert (x.1 ≠ k) as Hne.
    { intros <-. apply Hk. exact (list_elem_of_fmap_2 fst l x Hx). }
    exists ax. split; [|done]. split; [rewrite Ha1, lookup_insert_ne by congruence; done|done..|by rewrite Hc1]. }
  exists b2. split; [by rewrite store_accounts_cons; cbn [fst snd]; rewrite Hs1; cbn [rbind]|]. split; [done|].
  split; [unfold same_rest in *; intuition congruence|]. split.
  { eapply grows_trans; [|exact Hg2]. rewrite Ha1. eapply grows_insert; [exact Ha|done|simpl; lia|by right]. }
  split; [congruence|]. rewrite list_sum_cons, Hv2, Hv1. split; [simpl; lia|]. rewrite Ht2, Ha1. split.
  { pose proof (map_sum_insert lamports k (set_lamports (lamports a + amount k) a) a (rb_accounts b) Ha) as Hsum. unfold total_lamports. simpl in *. lia. }
  intros j Hj. rewrite not_elem_of_cons in Hj. destruct Hj as [Hj Hj']. rewrite Hother2, Ha1, lookup_insert_ne by (done || congruence). done.
Qed.
Lemma store_votes_as_list (l : list (Pubkey * VoteReward)) : ∀ acc b,
  (∀ x, x ∈ l → is_Some (paid_vote_account x.2)) →
  foldl (λ r x,
      let! y := r in
      match paid_vote_account x.2 with
      | None => Ok y
      | Some a =>
          let! b := if vote_needs_store x.2 then store_account rs x.1 a y.2 else Ok y.2 in
          Ok (y.1 ++ [(x.1, vote_reward_info x.2 a)], b)
      end) (Ok (acc, b)) l =
  rmap (pair (acc ++ ((λ x, (x.1, paid_info x.2)) <$> l)))
    (bank_store_accounts rs ((λ x, (x.1, paid_account x.2)) <$> List.filter (λ x, vote_needs_store x.2) l) b).
Proof.
  induction l as [|x l IH]; intros acc b Hl; [simpl; rewrite app_nil_r; by destruct b|].
  destruct (Hl x (list_elem_of_here _ _)) as [a Ha]. assert (paid_account x.2 = a) as Hpa by (unfold paid_account; by rewrite Ha).
  cbn [foldl rbind List.filter]. rewrite Ha. cbn [fst snd]. destruct (vote_needs_store x.2).
  - rewrite !fmap_cons, store_accounts_cons. cbn [fst snd]. rewrite Hpa. destruct (store_account rs x.1 a b) as [b1| |]; cbn [rbind rmap].
    + rewrite IH by (intros; apply Hl; by right). rewrite <-app_assoc. unfold paid_info at 2. by rewrite Hpa.
    + clear. induction l as [|y l IH]; [done|]. apply IH.
    + clear. induction l as [|y l IH]; [done|]. apply IH.
  - cbn [rbind]. rewrite IH by (intros; apply Hl; by right). rewrite <-app_assoc, !fmap_cons. unfold paid_info at 2. by rewrite Hpa.
Qed.

(** ** Stake accounts are paid *)
Definition amount_paid (r : StakeReward) : N := Z.to_N (get_stake_reward r).
Record pays (db : gmap Pubkey AccountSharedData) (r : StakeReward) (a a' : StakeAccount) : Prop := {
  pays_old : stakes_in db !! stake_pubkey r = Some a;
  pays_new : stake_account_try_from (stake_account r) = Ok a';
  pays_ok : stake_ok a';
  pays_lamports : lamports (stake_account r) = lamports (sa_account a) + amount_paid r;
  pays_stake : amount_of a' = amount_of a + amount_paid r }.
Lemma stake_stored db k a : stakes_in db !! k = Some a → db !! k = Some (sa_account a) ∧ lamports (sa_account a) ≠ 0 ∧ owner (sa_account a) = stake_program_id.
Proof.
  unfold stakes_in. intros (x & Hx & Hk)%lookup_omap_Some. apply stored_stake_owner in Hx as Hx'. destruct Hx' as (Hl & Ho & <-). done.
Qed.
Lemma pay_one db r a a' :
  pays db r a a' → let db' := <[stake_pubkey r := stake_account r]> db in
  stakes_in db' = <[stake_pubkey r := a']> (stakes_in db) ∧ supply (stakes_in db') = supply (stakes_in db) + amount_paid r ∧
  total_lamports db' = total_lamports db + amount_paid r ∧ grows db db' ∧ owner_kept db (stake_pubkey r) (stake_account r).
Proof.
  intros [Hold Hnew Hok Hl Hs] db'. destruct (stake_stored _ _ _ Hold) as (Hk & Hnz & Ho). destruct (try_from_account _ _ Hnew) as [_ Ho'].
  assert (stakes_in db' = <[stake_pubkey r := a']> (stakes_in db)) as Hin.
  { unfold db'. rewrite stakes_in_store. unfold stored_stake. rewrite (proj2 (N.eqb_neq _ _)), Hnew by lia. done. }
  split; [done|]. split.
  { rewrite Hin. unfold supply. pose proof (map_sum_insert amount_of (stake_pubkey r) a' a (stakes_in db) Hold). lia. }
  split. { unfold total_lamports, db'. pose proof (map_sum_insert lamports (stake_pubkey r) (stake_account r) (sa_account a) db Hk). lia. }
  split; [eapply grows_insert; [exact Hk|congruence|lia|by left]|]. intros old Hold' _ _. rewrite Hk in Hold'. injection Hold' as <-. congruence.
Qed.
Lemma pay_stakes (L : list StakeReward) : ∀ db,
  NoDup (stake_pubkey <$> L) → (∀ r, r ∈ L → ∃ a a', pays db r a a') → map_Forall (λ _ a, stake_ok a) (stakes_in db) →
  supply (stakes_in (rewarded L db)) = supply (stakes_in db) + list_sum amount_paid L ∧
  total_lamports (rewarded L db) = total_lamports db + list_sum amount_paid L ∧
  map_Forall (λ _ a, stake_ok a) (stakes_in (rewarded L db)) ∧ grows db (rewarded L db) ∧
  (∀ k, k ∉ stake_pubkey <$> L → rewarded L db !! k = db !! k).
Proof.
  unfold rewarded. induction L as [|r L IH]; intros db Hnd HL Hok.
  { cbn [foldl]. change (list_sum amount_paid []) with 0. rewrite !N.add_0_r. split_and!; try done. apply grows_refl. }
  rewrite fmap_cons in Hnd. apply list.NoDup_cons in Hnd as [Hr Hnd]. destruct (HL r (list_elem_of_here _ _)) as (a & a' & Hpay).
  destruct (pay_one db r a a' Hpay) as (Hin & Hsup & Htot & Hg & _). cbn [foldl]. rewrite list_sum_cons.
  destruct (IH (<[stake_pubkey r := stake_account r]> db)) as (Hsup' & Htot' & Hok' & Hg' & Hother); [done| | |].
  - intros x Hx. destruct (HL x) as (ax & ax' & [H1 H2 H3 H4 H5]); [by right|]. exists ax, ax'. split; [|done..].
    rewrite Hin, lookup_insert_ne; [done|]. intros Heq. apply Hr. rewrite Heq. by apply list_elem_of_fmap_2.
  - rewrite Hin. apply map_Forall_insert_2; [|done]. by apply (pays_ok _ _ _ _ Hpay).
  - rewrite Hsup', Htot', Hsup, Htot. split; [lia|]. split; [lia|]. split; [done|]. split; [by eapply grows_trans|].
    intros k Hk. rewrite fmap_cons, not_elem_of_cons in Hk. destruct Hk as [Hk Hk']. rewrite Hother by done. by rewrite lookup_insert_ne by congruence.
Qed.
Lemma rewarded_perm (L L' : list StakeReward) : L ≡ₚ L' → NoDup (stake_pubkey <$> L) → ∀ db, rewarded L db = rewarded L' db.
Proof.
  unfold rewarded. induction 1 as [|r L L' HL IH|r r' L|L1 L2 L3 H1 IH1 H2 IH2]; intros Hnd db; [done| | |].
  - cbn [foldl]. apply IH. rewrite fmap_cons in Hnd. by apply list.NoDup_cons in Hnd as [_ ?].
  - cbn [foldl]. rewrite !fmap_cons in Hnd. apply list.NoDup_cons in Hnd as [Hr _]. rewrite not_elem_of_cons in Hr. destruct Hr as [Hr _].
    by rewrite insert_insert_ne.
  - rewrite IH1 by done. apply IH2. by rewrite <-H1.
Qed.
Lemma store_stakes_Ok L b :
  cache_ok b → NoDup (stake_pubkey <$> L) → (∀ r, r ∈ L → ∃ a a', pays (rb_accounts b) r a a') →
  supply (stake_delegations (rb_stakes b)) + list_sum amount_paid L ≤ u64_max →
  ∃ b', store_stake_accounts rs L b = Ok b' ∧ cache_ok b' ∧ same_rest b b' ∧ rb_accounts b' = rewarded L (rb_accounts b) ∧
    grows (rb_accounts b) (rb_accounts b') ∧ cached_votes (rb_stakes b') = cached_votes (rb_stakes b) ∧
    stake_delegations (rb_stakes b') = stakes_in (rewarded L (rb_accounts b)) ∧
    supply (stake_delegations (rb_stakes b')) = supply (stake_delegations (rb_stakes b)) + list_sum amount_paid L ∧
    total_lamports (rb_accounts b') = total_lamports (rb_accounts b) + list_sum amount_paid L.
Proof.
  intros [He Hm] Hnd HL Hle. pose proof (exact_sound _ _ He) as [Hok _]. rewrite (mirrors_stakes _ _ Hm) in Hok, Hle |- *.
  destruct (pay_stakes L (rb_accounts b) Hnd HL Hok) as (Hsup & Htot & Hok' & Hg & _).
  destruct (rewards_ok (bank_rate rs) (rb_stakes b) (rb_accounts b) L He Hm) as (s' & Hs' & He' & Hm' & Hd & Hc & _).
  { intros r Hr. destruct (HL r Hr) as (a & a' & Hpay). split; [eexists; apply (pays_new _ _ _ _ Hpay)|by destruct (pay_one _ _ _ _ Hpay) as (_ & _ & _ & _ & ?)]. }
  { split; [done|]. by rewrite Hsup. }
  unfold store_stake_accounts. rewrite Hs'. cbn [rbind]. eexists. split; [done|]. simpl. rewrite Hd, Hc. split_and!; done.
Qed.

(** ** The history of the rewards *)
Definition in_history (x : Pubkey * RewardInfo) : Z :=
  match reward_type x.2 with RewardVoting | RewardStaking => reward_lamports x.2 | _ => 0%Z end.
Definition history_sum (l : list (Pubkey * RewardInfo)) : Z := foldr Z.add 0%Z (in_history <$> l).
Lemma history_sum_app l l' : history_sum (l ++ l') = (history_sum l + history_sum l')%Z.
Proof. unfold history_sum. induction l as [|x l IH]; [done|]. rewrite <-app_comm_cons, !fmap_cons. cbn [foldr]. lia. Qed.
Lemma assert_paid_Ok n b :
  history_sum (rb_rewards b) = Z.of_N n → n ≤ 9223372036854775807 → assert_validator_rewards_paid n b = Ok tt.
Proof.
  intros Hsum Hn. unfold assert_validator_rewards_paid, i64_sum. change (foldr Z.add 0%Z _) with (history_sum (rb_rewards b)). rewrite Hsum.
  rewrite Z.mod_small by lia. replace (Z.of_N n + 9223372036854775808 - 9223372036854775808)%Z with (Z.of_N n) by lia.
  rewrite (proj2 (Z.leb_le _ _)), N2Z.id, N.eqb_refl by lia. done.
Qed.
Lemma vote_history (l : list (Pubkey * VoteReward)) :
  (∀ x, x ∈ l → vote_rewards x.2 ≤ 9223372036854775807) →
  history_sum ((λ x, (x.1, paid_info x.2)) <$> l) = Z.of_N (list_sum (λ x, vote_rewards x.2) l).
Proof.
  unfold history_sum. induction l as [|x l IH]; intros Hl; [done|]. rewrite !fmap_cons. cbn [foldr]. rewrite IH by (intros; apply Hl; by right).
  rewrite sumN_cons. unfold in_history. simpl. unfold as_i64. rewrite (proj2 (N.leb_le _ _)) by (apply Hl; by left). lia.
Qed.
Lemma stake_history_sum L :
  (∀ r, r ∈ L → reward_type (stake_reward_info r) = RewardStaking ∧ (0 <= get_stake_reward r)%Z) →
  history_sum (stake_infos L) = Z.of_N (list_sum amount_paid L).
Proof.
  unfold history_sum, stake_infos. induction L as [|r L IH]; intros HL; [done|]. rewrite list_sum_cons. destruct (HL r (list_elem_of_here _ _)) as [Ht Hr].
  cbn [List.filter]. unfold amount_paid at 1. destruct (Z.ltb_spec 0 (get_stake_reward r)).
  - rewrite !fmap_cons. cbn [foldr]. rewrite IH by (intros; apply HL; by right). unfold in_history. simpl. rewrite Ht.
    fold (get_stake_reward r). lia.
  - rewrite IH by (intros; apply HL; by right). lia.
Qed.

(** ** The sums of one round *)
Section round.
Context (b : RewardBank) (Hb : bank_ok rs b) (e R : N) (Hp : payable rs b R) (HP : 0 < points_total rs b).
Abbreviation reds := (redemptions rs b e R).
Definition round_stakes : N := list_sum rd_stakers_reward reds.
Definition round_votes : N := list_sum rd_voters_reward reds.
Lemma round_bound : round_stakes + round_votes ≤ R.
Proof. pose proof (pool_bound rs b Hb e R Hp HP) as H. by rewrite list_sum_add in H. Qed.
Lemma paid_total ks : NoDup ks → ∀ L, (∀ r, r ∈ L → rd_voter r ∈ ks) → list_sum (λ k, paid k L) ks = list_sum rd_voters_reward L.
Proof.
  intros Hnd. induction L as [|r L IH]; intros HL.
  { clear. induction ks as [|k ks IH]; [done|]. rewrite list_sum_cons, IH. done. }
  rewrite list_sum_cons, <-IH by (intros; apply HL; by right). specialize (HL r (list_elem_of_here _ _)). clear IH.
  transitivity (list_sum (λ k, (if decide (rd_voter r = k) then rd_voters_reward r else 0) + paid k L) ks).
  { apply list_sum_ext. intros k _. apply paid_cons. }
  rewrite (list_sum_add (λ k, if decide (rd_voter r = k) then rd_voters_reward r else 0) (λ k, paid k L)). f_equal.
  induction ks as [|k ks IH]; [by apply elem_of_nil in HL|]. apply list.NoDup_cons in Hnd as [Hk Hnd]. rewrite list_sum_cons.
  apply elem_of_cons in HL as [<-|HL].
  - rewrite decide_True by done. assert (list_sum (λ k, if decide (rd_voter r = k) then rd_voters_reward r else 0) ks = 0) as ->; [|lia].
    clear IH Hnd. induction ks as [|j ks IH]; [done|]. rewrite not_elem_of_cons in Hk. destruct Hk as [Hj Hk]. rewrite list_sum_cons, decide_False by done. by apply IH.
  - rewrite decide_False, IH by (done || congruence). done.
Qed.
Lemma paid_zero k vs a : vote_entry b k = inr (vs, a) → credits vs = 0 → paid k reds = 0.
Proof.
  intros He Hc. unfold paid. assert (∀ r, r ∈ filter (λ r, rd_voter r = k) reds → rd_voters_reward r = 0) as Hz.
  { intros r [Hk Hr]%list_elem_of_filter. destruct (redemptions_spec rs b Hb e R Hp HP r Hr) as (t & Ht & _ & Hf).
    destruct (ticket_spec rs b R t Hp Ht) as (x & vs' & a' & -> & Hx & He' & Hok & _). simpl in Hf. pose proof (rf_voter _ _ _ _ Hf) as Hv.
    rewrite <-Hv, Hk, He in He'. injection He' as <- <-. pose proof (rf_value _ _ _ _ Hf) as Hle. unfold ticket_value in Hle.
    assert (ticket_points rs (stakes_history (rb_stakes b)) (voter x, vs, x) = 0) as H0; [|rewrite H0, N.Div0.div_0_l in Hle; lia].
    destruct (loaded_participant rs b Hb x Hx) as (_ & Hsok & _). destruct (deleg_Ok _ Hsok) as (_ & Hd & Hrange).
    destruct (state_staked _ _ Hd) as (meta & stake & flags & Hst & Hdel). unfold ticket_points, delegation_points, calculate_points, calculate_stake_points.
    simpl. rewrite Hst. destruct (points_and_credits_Ok (bank_rate rs) (stakes_history (rb_stakes b)) stake vs) as (y & -> & _ & Hy); [by rewrite Hdel|done|]. simpl. by apply Hy. }
  induction (filter _ reds) as [|r L IH]; [done|]. rewrite list_sum_cons, Hz, IH by (by left || (intros; apply Hz; by right)). done.
Qed.
Lemma round_pays r : r ∈ reds → ∃ a a', pays (rb_accounts b) (rd_stake_reward r) a a' ∧ amount_paid (rd_stake_reward r) = rd_stakers_reward r.
Proof.
  intros Hr. destruct (redemptions_spec rs b Hb e R Hp HP r Hr) as (t & Ht & _ & [Hv Hk Hval Hty Ham Hl (a' & Htry & Hok & Hs)]).
  destruct (ticket_spec rs b R t Hp Ht) as (x & vs & a & -> & Hx & _). simpl in *.
  assert (amount_paid (rd_stake_reward r) = rd_stakers_reward r) as Hamt by (unfold amount_paid; rewrite Ham; lia).
  exists x.2, a'. split; [|done]. split; [|done..|by rewrite Hamt|by rewrite Hamt]. rewrite Hk, <-(mirrors_stakes _ _ (bo_mirrors _ _ Hb)).
  apply (participant_in rs); [|done]. apply (exact_sound _ _ (bo_exact _ _ Hb)).
Qed.

(** what is paid by either calculation *)
Lemma due_ready k : k ∈ rd_voter <$> reds →
  ∃ a, ready b k a (paid k reds) ∧ paid_account (due_reward rs b e R k) = set_lamports (lamports a + paid k reds) a.
Proof.
  intros Hk. destruct (redeemed_entry rs b Hb e R Hp HP k Hk) as (_ & vs & a & He). destruct (entry_account rs b Hb k vs a He) as (Ha & Hnz & Ho & Hvs).
  destruct (due_paid rs b Hb e R Hp HP k vs a He) as (Hpa & _). exists a. split; [|unfold paid_account; by rewrite Hpa].
  split; [done..|by rewrite Hvs|]. destruct (pay_votes _ _ _ Hp k vs a He) as [_ [Hc|Hc]]; [right; by eapply paid_zero|by left].
Qed.
Definition due_list (l : list (Pubkey * VoteReward)) : Prop :=
  NoDup l.*1 ∧ ∀ x, x ∈ l ↔ x.1 ∈ rd_voter <$> reds ∧ x.2 = due_reward rs b e R x.1.
Lemma only_due_list (V : gmap Pubkey VoteReward) : only_due rs b e R V → due_list (map_to_list V).
Proof.
  intros HV. split; [apply NoDup_fst_map_to_list|]. intros [k v]. rewrite elem_of_map_to_list, HV. simpl. case_decide; [|by split; [|intros [? _]]].
  split; [by intros [= <-]|by intros [_ ->]].
Qed.
Lemma all_due_list (V : gmap Pubkey VoteReward) : all_due rs b e R V → due_list (List.filter (λ x, vote_needs_store x.2) (map_to_list V)).
Proof.
  intros HV. split.
  { eapply sublist_NoDup; [apply (NoDup_fst_map_to_list V)|]. apply fmap_sublist, filtered_sublist. }
  intros [k v]. rewrite list_elem_of_In, filter_In, <-list_elem_of_In, elem_of_map_to_list, HV. simpl. split.
  - intros [Hk Hn]. case_decide; [|done]. destruct (vote_entry b k) as [|[vs a]] eqn:He; [done|]. injection Hk as <-. split; [|done].
    destruct (due_paid rs b Hb e R Hp HP k vs a He) as (_ & _ & _ & Hn'). rewrite Hn in Hn'. symmetry in Hn'. by apply bool_decide_eq_true in Hn'.
  - intros [Hk ->]. destruct (redeemed_entry rs b Hb e R Hp HP k Hk) as (Hin & vs & a & He). rewrite decide_True, He by done. split; [done|].
    destruct (due_paid rs b Hb e R Hp HP k vs a He) as (_ & _ & _ & ->). by apply bool_decide_eq_true.
Qed.
Lemma due_sum l : due_list l → list_sum (λ k, paid k reds) l.*1 = round_votes.
Proof.
  intros [Hnd Hl]. apply paid_total; [done|]. intros r Hr. apply (list_elem_of_fmap_2 rd_voter) in Hr. apply list_elem_of_fmap.
  exists (rd_voter r, due_reward rs b e R (rd_voter r)). split; [done|]. by apply Hl.
Qed.
Lemma rewards_of_due k vs a : vote_entry b k = inr (vs, a) → vote_rewards (due_reward rs b e R k) = paid k reds.
Proof. intros He. by destruct (due_paid rs b Hb e R Hp HP k vs a He) as (_ & _ & ? & _). Qed.
(** the vote accounts, on a bank that has these accounts *)
Lemma pay_due b1 l :
  due_list l → cache_ok b1 → cached_votes (rb_stakes b1) = cached_votes (rb_stakes b) →
  (∀ k, k ∈ rd_voter <$> reds → rb_accounts b1 !! k = rb_accounts b !! k) →
  ∃ b', bank_store_accounts rs ((λ x, (x.1, paid_account x.2)) <$> l) b1 = Ok b' ∧ cache_ok b' ∧ same_rest b1 b' ∧
    grows (rb_accounts b1) (rb_accounts b') ∧ stake_delegations (rb_stakes b') = stake_delegations (rb_stakes b1) ∧
    votes_balance (rb_stakes b') = votes_balance (rb_stakes b1) + round_votes ∧
    total_lamports (rb_accounts b') = total_lamports (rb_accounts b1) + round_votes ∧
    (∀ k, k ∉ rd_voter <$> reds → rb_accounts b' !! k = rb_accounts b1 !! k).
Proof.
  intros Hdue Hb1 Hc Ha. pose proof Hdue as [Hnd Hl]. assert (((λ x : Pubkey * VoteReward, (x.1, paid_account x.2)) <$> l).*1 = (l).*1) as Hkeys.
  { by rewrite <-list_fmap_compose. }
  destruct (pay_all (λ k, paid k reds) ((λ x, (x.1, paid_account x.2)) <$> l) b1 Hb1) as (b' & Hs & Hb' & Hrest & Hg & Hd & Hvb & Ht & Hother).
  - by rewrite Hkeys.
  - intros x Hx. apply list_elem_of_fmap in Hx as ([k v] & -> & Hk). simpl. apply Hl in Hk as [Hin Heqv]. simpl in *. subst v.
    destruct (due_ready k Hin) as (a & [H1 H2 H3 H4 H5] & Heq). exists a. split; [|done]. split; [by rewrite Ha|done..|by rewrite Hc].
  - rewrite Hkeys, (due_sum l Hdue) in Hvb, Ht. exists b'. split_and!; try done. intros k Hk. apply Hother. rewrite Hkeys.
    intros ([j v] & -> & Hj)%list_elem_of_fmap. apply Hl in Hj as [Hj _]. done.
Qed.

Lemma room_R : R ≤ 9223372036854775807.
Proof. pose proof (pay_room _ _ _ Hp). lia. Qed.
Lemma all_due_sum (V : gmap Pubkey VoteReward) : all_due rs b e R V →
  (∀ x, x ∈ map_to_list V → vote_rewards x.2 = paid x.1 reds) ∧ list_sum (λ x, vote_rewards x.2) (map_to_list V) = round_votes.
Proof.
  intros HV. assert (∀ x, x ∈ map_to_list V → vote_rewards x.2 = paid x.1 reds) as Hx.
  { intros [k v] Hk%elem_of_map_to_list. simpl. rewrite HV in Hk. case_decide; [|done]. destruct (vote_entry b k) as [|[vs a]] eqn:He; [done|].
    injection Hk as <-. by eapply rewards_of_due. }
  split; [done|]. rewrite (list_sum_ext _ (λ x, paid x.1 reds)) by done. rewrite <-(list_sum_fmap (λ k, paid k reds) fst).
  apply paid_total; [apply NoDup_fst_map_to_list|]. intros r Hr. apply (list_elem_of_fmap_2 rd_voter) in Hr.
  destruct (redeemed_entry rs b Hb e R Hp HP _ Hr) as (Hin & vs & a & He). apply list_elem_of_fmap.
  exists (rd_voter r, due_reward rs b e R (rd_voter r)). split; [done|]. apply elem_of_map_to_list. by rewrite HV, decide_True, He.
Qed.
Lemma all_due_paid (V : gmap Pubkey VoteReward) : all_due rs b e R V → ∀ x, x ∈ map_to_list V → is_Some (paid_vote_account x.2).
Proof.
  intros HV [k v] Hk%elem_of_map_to_list. simpl. rewrite HV in Hk. case_decide; [|done]. destruct (vote_entry b k) as [|[vs a]] eqn:He; [done|].
  injection Hk as <-. destruct (due_paid rs b Hb e R Hp HP k vs a He) as (-> & _). by eexists.
Qed.
(** the stakes and the vote accounts of the round, stored one after the other *)
Lemma store_round L V :
  L ≡ₚ reds → all_due rs b e R V → rb_rewards b = [] →
  ∃ b1 b2, store_stake_accounts rs (rd_stake_reward <$> L) b = Ok b1 ∧
    store_vote_accounts rs V b1 = Ok ((λ x, (x.1, paid_info x.2)) <$> map_to_list V, b2) ∧
    let b' := update_reward_history (rd_stake_reward <$> L) ((λ x, (x.1, paid_info x.2)) <$> map_to_list V) b2 in
    cache_ok b' ∧ grows (rb_accounts b) (rb_accounts b') ∧ rb_capitalization b' = rb_capitalization b ∧
    supply (stake_delegations (rb_stakes b')) + votes_balance (rb_stakes b') =
      supply (stake_delegations (rb_stakes b)) + votes_balance (rb_stakes b) + (round_stakes + round_votes) ∧
    total_lamports (rb_accounts b') = total_lamports (rb_accounts b) + (round_stakes + round_votes) ∧
    history_sum (rb_rewards b') = Z.of_N (round_stakes + round_votes) ∧
    stake_delegations (rb_stakes b') = stakes_in (rewarded (rd_stake_reward <$> reds) (rb_accounts b)).
Proof.
  intros HL HV Hnil. pose proof round_bound as Hround. pose proof (pay_room _ _ _ Hp) as Hroom. pose proof room_R.
  assert (∀ r, r ∈ rd_stake_reward <$> L → ∃ a a', pays (rb_accounts b) r a a') as Hpays.
  { intros x Hx. apply list_elem_of_fmap in Hx as (r & -> & Hr). rewrite HL in Hr. destruct (round_pays r Hr) as (a & a' & ? & _). eauto. }
  assert (list_sum amount_paid (rd_stake_reward <$> L) = round_stakes) as Hsum.
  { rewrite list_sum_fmap, (list_sum_perm _ _ _ HL). apply list_sum_ext. intros r Hr. by destruct (round_pays r Hr) as (? & ? & _ & ?). }
  assert (NoDup (stake_pubkey <$> (rd_stake_reward <$> L))) as Hnd. { rewrite <-list_fmap_compose, HL. by apply (keys_NoDup rs b Hb e R Hp HP). }
  destruct (store_stakes_Ok (rd_stake_reward <$> L) b) as (b1 & Hs1 & Hc1 & (Hcap1 & Hrew1 & _) & Ha1 & Hg1 & Hcv1 & Hst1 & Hsup1 & Htot1);
    [split; apply Hb|done|done|rewrite Hsum; unfold u64_max; lia|]. rewrite Hsum in Hsup1, Htot1.
  destruct (pay_due b1 _ (all_due_list V HV) Hc1 Hcv1) as (b2 & Hs2 & Hc2 & (Hcap2 & Hrew2 & _) & Hg2 & Hd2 & Hvb2 & Htot2 & _).
  { intros k Hk. rewrite Ha1. pose proof (exact_sound _ _ (bo_exact _ _ Hb)) as [Hok _]. rewrite (mirrors_stakes _ _ (bo_mirrors _ _ Hb)) in Hok.
    destruct (pay_stakes (rd_stake_reward <$> L) (rb_accounts b) Hnd Hpays Hok) as (_ & _ & _ & _ & Hother). apply Hother.
    intros (r & Heq & Hr)%list_elem_of_fmap. destruct (Hpays r Hr) as (a & a' & Hpay). destruct (stake_stored _ _ _ (pays_old _ _ _ _ Hpay)) as (Hst & _ & Ho).
    destruct (due_ready k Hk) as (x & [Hx _ Hxo _ _] & _). rewrite Heq, Hst in Hx. injection Hx as <-. rewrite Ho in Hxo. by apply programs_differ. }
  exists b1, b2. split; [done|]. split.
  { unfold store_vote_accounts. rewrite store_votes_as_list by (by apply all_due_paid). rewrite Hs2. done. }
  simpl. split; [by destruct Hc2; split|]. split; [by eapply grows_trans|]. split; [congruence|]. rewrite Hd2, Hvb2, Hsup1, Htot2, Htot1.
  assert (votes_balance (rb_stakes b1) = votes_balance (rb_stakes b)) as -> by (unfold votes_balance; by rewrite Hcv1).
  split; [lia|]. split; [lia|]. rewrite Hrew2, Hrew1, Hnil. rewrite !history_sum_app. destruct (all_due_sum V HV) as [Heach Htotal].
  split; [|rewrite Hst1; f_equal; apply rewarded_perm; [by rewrite HL|done]].
  rewrite vote_history, Htotal, stake_history_sum, Hsum; [unfold history_sum; simpl; lia| |].
  - intros x Hx. apply list_elem_of_fmap in Hx as (r & -> & Hr). rewrite HL in Hr. destruct (redemptions_spec rs b Hb e R Hp HP r Hr) as (t & _ & _ & Hf).
    split; [apply (rf_type _ _ _ _ Hf)|]. rewrite (rf_amount _ _ _ _ Hf). lia.
  - intros x Hx. rewrite Heach by done. pose proof (paid_le rs b Hb e R Hp HP x.1). lia.
Qed.
End round.

Lemma cached_balance b : cache_ok b → votes_balance (rb_stakes b) ≤ total_lamports (rb_accounts b).
Proof.
  intros [He Hm]. apply map_sum_sub. intros k va Hva. pose proof (mirrors_cached _ _ Hm k va Hva) as Hv. unfold votes_in in Hv.
  apply lookup_omap_Some in Hv as (a & Ha & Hk). exists a. split; [done|]. unfold stored_vote, vote_account_try_from in Ha.
  destruct (_ || _); [done|]. destruct (key_eqb _ _); by simplify_eq.
Qed.
Lemma bank_cache b : bank_ok rs b → cache_ok b.
Proof. by intros [? ? _]. Qed.
Lemma old_balance b R : bank_ok rs b → payable rs b R →
  vote_balance_and_staked (rb_stakes b) = Ok (supply (stake_delegations (rb_stakes b)) + votes_balance (rb_stakes b)).
Proof.
  intros Hb Hp. apply balance_Ok; [apply (exact_sound _ _ (bo_exact _ _ Hb))|]. pose proof (pay_room _ _ _ Hp).
  pose proof (cached_balance b (bank_cache b Hb)). unfold u64_max. lia.
Qed.

(** ** The calculation for the partitions *)
Context (Hsip : ∀ h k, sip h k ≤ u64_max) (Hstores : stake_account_stores_per_block (rs_partitioned rs) ≠ 0).
Lemma num_blocks_Ok l : ∃ n, get_reward_distribution_num_blocks rs l = Ok n ∧ 0 < n.
Proof using Hstores.
  unfold get_reward_distribution_num_blocks, div_ceil. destruct (_ && _); [by eexists|]. rewrite (proj2 (N.eqb_neq _ _)) by done. cbn [rbind].
  eexists. split; [done|]. lia.
Qed.
Lemma partitioning_Ok b e R :
  bank_ok rs b → payable rs b R → calculate_previous_epoch_inflation_rewards powf rs (rb_capitalization b) e = Ok R →
  ∃ V parts total, calculate_rewards_for_partitioning powf sip rs e b =
    Ok (mkPartitionedRewardsCalculation (calc_vote_accounts_to_store V) parts total
      (supply (stake_delegations (rb_stakes b)) + votes_balance (rb_stakes b)) R) ∧ 0 < len parts ∧
    (points_total rs b = 0 → V = ∅ ∧ concat parts = [] ∧ total = 0) ∧
    (0 < points_total rs b → only_due rs b e R V ∧ concat parts ≡ₚ rd_stake_reward <$> redemptions rs b e R ∧ total = round_stakes b e R).
Proof using Hsip Hstores BincodeLaws0.
  intros Hb Hp Hinf. unfold calculate_rewards_for_partitioning. rewrite Hinf. cbn [rbind]. rewrite (old_balance b R Hb Hp). cbn [rbind].
  unfold calculate_validator_rewards. destruct (participants_Ok rs (rb_stakes b)) as [-> _]; [apply (exact_sound _ _ (bo_exact _ _ Hb))|]. cbn [rbind].
  rewrite (points_partitioned rs b Hb R Hp). cbn [rbind]. unfold point_value_of. destruct (N.ltb_spec 0 (points_total rs b)) as [HP|HP].
  - destruct (redeem_partitioned rs b Hb e R Hp HP) as (V & Hc & HV). unfold pv in Hc. rewrite Hc. cbn [rmap rbind from_option id].
    destruct (num_blocks_Ok (rd_stake_reward <$> redemptions rs b e R)) as (n & Hn & Hpos). cbn [src_stake_rewards]. rewrite Hn. cbn [rbind].
    destruct (partitioned_Ok sip (rd_stake_reward <$> redemptions rs b e R) (rs_parent_blockhash rs) n Hsip Hpos) as (parts & -> & Hparts & Hlen).
    cbn [rbind total_stake_rewards_lamports]. exists V, parts. eexists. split; [done|]. split; [unfold len; lia|]. split; [lia|]. done.
  - cbn [rbind from_option id src_stake_rewards]. destruct (num_blocks_Ok []) as (n & -> & Hpos). cbn [rbind].
    destruct (partitioned_Ok sip [] (rs_parent_blockhash rs) n Hsip Hpos) as (parts & -> & Hparts & Hlen). cbn [rbind total_stake_rewards_lamports].
    exists ∅, parts, 0. split; [done|]. split; [unfold len; lia|]. split; [|lia]. intros _. split; [done|]. split; [by apply Permutation_nil_r|done].
Qed.

(** ** All rewards at once *)
(** what holds of the bank after [n] lamports were paid *)
Record paid_out (b b' : RewardBank) (n : N) : Prop := {
  po_cache : cache_ok b';
  po_grows : grows (rb_accounts b) (rb_accounts b');
  po_capitalization : rb_capitalization b' = rb_capitalization b;
  po_balance : supply (stake_delegations (rb_stakes b')) + votes_balance (rb_stakes b') =
    supply (stake_delegations (rb_stakes b)) + votes_balance (rb_stakes b) + n;
  po_lamports : total_lamports (rb_accounts b') = total_lamports (rb_accounts b) + n;
  po_history : history_sum (rb_rewards b') = Z.of_N n }.
Definition round_rewards (b : RewardBank) (e R : N) : list StakeReward :=
  if 0 <? points_total rs b then rd_stake_reward <$> redemptions rs b e R else [].
Lemma pay_Ok b e R :
  bank_ok rs b → payable rs b R → rb_rewards b = [] →
  calculate_previous_epoch_inflation_rewards powf rs (rb_capitalization b) e = Ok R →
  ∃ b' n, pay_validator_rewards powf sip rs e R b = Ok b' ∧ n ≤ R ∧ paid_out b b' n ∧
    stake_delegations (rb_stakes b') = stakes_in (rewarded (round_rewards b e R) (rb_accounts b)).
Proof using Hsip Hstores BincodeLaws0.
  intros Hb Hp Hnil Hinf. unfold pay_validator_rewards. destruct (load_Ok rs b Hb R Hp) as (m & -> & Hm). cbn [rbind].
  rewrite (points_normal rs b Hb R m Hp Hm). cbn [rbind]. unfold point_value_of, round_rewards. destruct (N.ltb_spec 0 (points_total rs b)) as [HP|HP].
  2: { exists b, 0. split; [done|]. split; [lia|]. split; [|apply (mirrors_stakes _ _ (bo_mirrors _ _ Hb))].
       split; [by apply bank_cache|apply grows_refl|done|lia|lia|by rewrite Hnil]. }
  destruct (redeem_normal rs b Hb e R Hp HP m Hm) as (V & L & Hred & HL & HV). unfold pv in Hred. rewrite Hred. cbn [rbind].
  assert ((if test_compare_partitioned_epoch_rewards (rs_partitioned rs)
           then compare_with_partitioned_rewards powf sip rs (rd_stake_reward <$> L) V e b else Ok tt) = Ok tt) as ->.
  { destruct (test_compare_partitioned_epoch_rewards _); [|done]. unfold compare_with_partitioned_rewards.
    destruct (partitioning_Ok b e R Hb Hp Hinf) as (V' & parts & total & -> & _ & _ & Hpos). cbn [rbind]. destruct (Hpos HP) as (HV' & Hparts & ->).
    by apply (compared rs b Hb e R Hp HP). }
  cbn [rbind]. destruct (store_round b Hb e R Hp HP L V HL HV Hnil) as (b1 & b2 & -> & Hs2 & H1 & H2 & H3 & H4 & H5 & H6 & H7). cbn [rbind]. rewrite Hs2.
  cbn [rbind fst snd]. eexists _, _. split; [done|]. split; [by apply round_bound|]. by split; [split|].
Qed.
Lemma update_rewards_Ok b e R :
  bank_ok rs b → payable rs b R → rb_rewards b = [] →
  calculate_previous_epoch_inflation_rewards powf rs (rb_capitalization b) e = Ok R →
  ∃ b' n, update_rewards powf sip rs e b = Ok b' ∧ bank_ok rs b' ∧ n ≤ R ∧ grows (rb_accounts b) (rb_accounts b') ∧
    rb_capitalization b' = rb_capitalization b + n ∧
    vote_balance_and_staked (rb_stakes b') =
      Ok (supply (stake_delegations (rb_stakes b)) + votes_balance (rb_stakes b) + n) ∧
    stake_delegations (rb_stakes b') = stakes_in (rewarded (round_rewards b e R) (rb_accounts b)).
Proof using Hsip Hstores BincodeLaws0.
  intros Hb Hp Hnil Hinf. unfold update_rewards. rewrite Hinf. cbn [rbind]. rewrite (old_balance b R Hb Hp). cbn [rbind].
  destruct (pay_Ok b e R Hb Hp Hnil Hinf) as (b1 & n & -> & Hn & [Hc Hg Hcap Hbal Htot Hh] & Hst). cbn [rbind]. pose proof (pay_room _ _ _ Hp) as Hroom.
  pose proof (cached_balance b (bank_cache b Hb)) as Hle. assert (vote_balance_and_staked (rb_stakes b1) =
    Ok (supply (stake_delegations (rb_stakes b)) + votes_balance (rb_stakes b) + n)) as Hnew.
  { rewrite <-Hbal. apply balance_Ok; [apply (exact_sound _ _ (co_exact _ Hc))|]. rewrite Hbal. unfold u64_max. lia. }
  rewrite Hnew. cbn [rbind]. rewrite wrapping_sub_add by (unfold u64_max; lia). rewrite assert_paid_Ok by (done || lia). cbn [rbind].
  rewrite (proj2 (N.leb_le _ _)) by done. cbn [rbind]. exists (set_capitalization_of (wrapping_add (rb_capitalization b1) n) b1), n. split; [done|].
  pose proof (bo_capitalization _ _ Hb) as Hc0. rewrite Hcap, wrapping_add_small by (rewrite Hc0; unfold u64_max; lia).
  split; [|done]. destruct Hc as [He Hm]. split; [done..|]. simpl. rewrite Htot. by rewrite Hc0.
Qed.
End paid.

