(* ===== verification/StakesRuns.v ===== *)
(** * Runs of the stake cache and of the rewards

    A bank that stores a vote account and a stake account, passes an epoch and pays a reward; and
    the payment of rewards of a bank with one validator that has earned credits. *)

From S2P Require Import Prelude Sdk Rent Account EpochSchedule TransactionContext InvokeContext VoteState Stake StakeRules.
From S2P Require Import Codec VoteWire StakeWire VoteRuns StakeRuns Stakes StakesRules Rewards RewardsRules.

Import Codec.Bincodes VoteWire.VoteBincodes StakeWire.StakeBincodes.

(** ** Conditions by evaluation *)
Definition stake_okb (a : StakeAccount) : bool :=
  match state_delegation (sa_state a) with
  | Some d => (delegated_stake d <=? u64_max) && (activation_epoch d <=? u64_max) && (deactivation_epoch d <=? u64_max)
  | None => false
  end.
Definition soundb (m : gmap Pubkey StakeAccount) : bool :=
  forallb (λ x, stake_okb x.2) (map_to_list m) && (supply m <=? u64_max).
Lemma soundb_sound m : soundb m = true → sound m.
Proof.
  unfold soundb. intros [Hf Hs%N.leb_le]%andb_prop. split; [|done]. intros k a Ha%elem_of_map_to_list.
  rewrite forallb_forall in Hf. specialize (Hf (k, a)). rewrite <-list_elem_of_In in Hf. specialize (Hf Ha). unfold stake_okb in Hf. simpl in Hf.
  unfold stake_ok. destruct (state_delegation (sa_state a)) as [d|]; [|done]. exists d. split; [done|].
  apply andb_prop in Hf as [[H1%N.leb_le H2%N.leb_le]%andb_prop H3%N.leb_le]. by split.
Qed.
Definition owner_keptb (db : gmap Pubkey AccountSharedData) (k : Pubkey) (a : AccountSharedData) : bool :=
  match db !! k with Some old => key_eqb (owner a) (owner old) | None => true end.
Lemma owner_keptb_kept db k a : owner_keptb db k a = true → owner_kept db k a.
Proof. unfold owner_keptb, owner_kept. intros Hb old Hold _ _. rewrite Hold in Hb. by apply key_eqb_true in Hb. Qed.

Definition allowedb (op : cache_op) (db : gmap Pubkey AccountSharedData) : bool :=
  match op with
  | CacheStore k a => owner_keptb db k a && soundb (stakes_in (<[k := a]> db))
  | CacheEpoch _ epoch => epoch <=? u64_max
  | CacheRewards l =>
      forallb (λ r, match stake_account_try_from (stake_account r) with Ok _ => true | _ => false end &&
                    owner_keptb db (stake_pubkey r) (stake_account r)) l && soundb (stakes_in (rewarded l db))
  | CacheInvalid keys =>
      forallb (λ k, match votes_in db !! k with Some va => negb (bool_decide (is_Some (va_vote_state va))) | None => true end) keys
  | CacheNodes => true
  end.
Fixpoint all_allowedb (ops : list cache_op) (db : gmap Pubkey AccountSharedData) : bool :=
  match ops with [] => true | op :: ops => allowedb op db && all_allowedb ops (db_after op db) end.
Lemma forallb_in {A} (f : A → bool) l x : forallb f l = true → x ∈ l → f x = true.
Proof. rewrite forallb_forall. intros Hf Hx. by apply Hf, list_elem_of_In. Qed.
Lemma allowedb_allowed op db : allowedb op db = true → allowed op db.
Proof.
  destruct op as [k a|rate epoch|l|keys|]; simpl; [| | | |done].
  - intros [Hk Hs]%andb_prop. split; [by apply owner_keptb_kept|by apply soundb_sound].
  - apply N.leb_le.
  - intros [Hl Hs]%andb_prop. split; [|by apply soundb_sound]. intros r Hr. pose proof (forallb_in _ _ _ Hl Hr) as [Ht Ho]%andb_prop.
    split; [|by apply owner_keptb_kept]. destruct (stake_account_try_from _) as [x| |]; [by exists x|done..].
  - intros Hk k va Hin Hva. pose proof (forallb_in _ _ _ Hk Hin) as Hb. simpl in Hb. rewrite Hva in Hb.
    destruct (va_vote_state va); [|done]. by rewrite bool_decide_true in Hb.
Qed.
Lemma all_allowedb_allowed ops : ∀ db, all_allowedb ops db = true → all_allowed ops db.
Proof.
  induction ops as [|op ops IH]; intros db; [done|]. simpl. intros [Ho Hops]%andb_prop. split; [by apply allowedb_allowed|by apply IH].
Qed.

(** ** A bank with one validator *)
Definition staked_at (n : N) : AccountSharedData :=
  StakeRuns.stake_account (reserve + n) (Staked stake_meta (mkStake (set_delegated n sample_delegation) 0) flags_empty).
Definition voter_key : Pubkey := pubkey_of_N 40.
Definition staker_key : Pubkey := pubkey_of_N 50.
Definition cache_ops : list cache_op :=
  [CacheStore voter_key VoteRuns.vote_account; CacheStore staker_key (staked_at 1000000); CacheNodes; CacheEpoch None 6;
   CacheEpoch None 7; CacheRewards [mkStakeReward staker_key (mkRewardInfo RewardStaking 500 (reserve + 1000500) (Some 10)) (staked_at 1000500)];
   CacheNodes; CacheInvalid [pubkey_of_N 41]].
Definition cache_end : option N * Stakes :=
  match run_ops cache_ops (None, stakes_default) with Ok x => x | _ => (None, stakes_default) end.

Lemma cache_ops_allowed : all_allowed cache_ops ∅.
Proof. apply all_allowedb_allowed. vm_compute. reflexivity. Qed.
Lemma cache_ops_run : run_ops cache_ops (None, stakes_default) = Ok cache_end.
Proof. vm_compute. reflexivity. Qed.
Lemma cache_end_stake : get_delegated_stake voter_key (stakes_vote_accounts cache_end.2) = 1000500.
Proof. vm_compute. reflexivity. Qed.

Lemma stake_cache_exact_witness :
  weight_in cache_end.1 (stakes_epoch cache_end.2) (stakes_history cache_end.2) (stakes_in (accounts_after cache_ops)) voter_key = 1000500 ∧
  mirrors (accounts_after cache_ops) cache_end.2.
Proof.
  destruct (stake_cache_exact cache_ops cache_ops_allowed) as (rate & s & Hr & Hm & Hw & _).
  pose proof cache_end_stake as Hs. rewrite cache_ops_run in Hr. destruct cache_end as [rate' s']. injection Hr as -> ->.
  split; [|exact Hm]. simpl in Hs |- *. destruct (cached_votes s !! voter_key) as [va|] eqn:Hv.
  - by rewrite <-(Hw _ _ Hv).
  - exfalso. unfold cached_votes in Hv. rewrite lookup_fmap in Hv. unfold get_delegated_stake in Hs.
    by destruct (vote_accounts (stakes_vote_accounts s) !! voter_key).
Defined.
Lemma cache_epoch_stakes :
  list_sum (weight cache_end.1 cache_end.2) (map_to_list (cached_votes cache_end.2)).*1 = 1000500.
Proof.
  destruct (epoch_stakes_exact cache_ops 8 ∅ cache_ops_allowed (lookup_empty 8)) as (rate & s & e & Hr & He & _ & Ht & _).
  assert (es_total_stake <$> update_epoch_stakes 8 cache_end.2 ∅ !! 8 = Some 1000500) as Hs by (vm_compute; reflexivity).
  rewrite cache_ops_run in Hr. destruct cache_end as [rate' s']. injection Hr as -> ->. simpl in Hs |- *.
  rewrite He in Hs. injection Hs as <-. by rewrite Ht.
Defined.

(** ** Rewards *)
Definition earning_state : VoteState := set_epoch_credits [(6, 400, 0); (7, 1000, 400)] sample_state.
Definition earning_account : AccountSharedData :=
  resize VOTE_STATE_SIZE 0 (mkAccountSharedData 30000000 (default [] (enc c_vote_state_versions (VCurrentVote earning_state))) vote_program_id false 0 false).
Definition earning_ops : list cache_op :=
  [CacheStore voter_key earning_account; CacheStore staker_key (staked_at 1000000); CacheEpoch None 7; CacheEpoch None 8].
Definition earning_end : option N * Stakes :=
  match run_ops earning_ops (None, stakes_default) with Ok x => x | _ => (None, stakes_default) end.
(** eight percent, of which nothing is kept apart; the two calculations are compared *)
Definition reward_settings : RewardSettings :=
  mkRewardSettings ∅ (λ _, 0) 8 (mkEpochSchedule 432000 432000 false 0 0) rent_default
    (mkInflation (f64_div (f64_of_u64 8) (f64_of_u64 100)) (f64_of_u64 0) (f64_of_u64 0) (f64_of_u64 0) (f64_of_u64 0))
    (f64_of_u64 78892314) (mkPartitionedEpochRewardsConfig 1 4096 false true) (mkHash []).
Definition reward_bank_of (s : Stakes) : RewardBank :=
  mkRewardBank (accounts_after earning_ops) s (total_lamports (accounts_after earning_ops)) [] RewardsInactive 0.
Definition reward_bank : RewardBank := reward_bank_of earning_end.2.
Definition no_taper (x _ : f64) : f64 := x.
Definition pool : N :=
  match calculate_previous_epoch_inflation_rewards no_taper reward_settings (rb_capitalization reward_bank) 7 with Ok n => n | _ => 0 end.

Definition entry_okb (b : RewardBank) (k : Pubkey) : bool :=
  match vote_entry b k with
  | inl _ => true
  | inr (vs, _) => forallb (λ x, x.1.1 <=? u64_max) (epoch_credits vs) && bool_decide (is_Some (cached_votes (rb_stakes b) !! k))
  end.
Definition payableb (rs : RewardSettings) (b : RewardBank) (R : N) : bool :=
  forallb (λ x, bool_decide (is_Some (va_vote_state x.2))) (map_to_list (cached_votes (rb_stakes b))) &&
  forallb (entry_okb b) ((map_to_list (rb_accounts b)).*1 ++ (map_to_list (cached_votes (rb_stakes b))).*1) &&
  (all_points rs b * N.max R 1 <=? u128_max) &&
  (supply (stake_delegations (rb_stakes b)) + total_lamports (rb_accounts b) + R <=? 9223372036854775807).
Lemma vote_entry_key b k x :
  vote_entry b k = inr x → k ∈ (map_to_list (rb_accounts b)).*1 ++ (map_to_list (cached_votes (rb_stakes b))).*1.
Proof.
  unfold vote_entry, reward_vote_account, get_vote_account, bank_get_account. intros Hx. apply elem_of_app.
  destruct (vote_accounts (stakes_vote_accounts (rb_stakes b)) !! k) as [y|] eqn:Hy.
  - right. apply list_elem_of_fmap. exists (k, y.2). split; [done|]. apply elem_of_map_to_list. unfold cached_votes. by rewrite lookup_fmap, Hy.
  - left. simpl in Hx. destruct (rb_accounts b !! k) as [a|] eqn:Ha; [|done]. apply list_elem_of_fmap. exists (k, a). split; [done|].
    by apply elem_of_map_to_list.
Qed.
Lemma payableb_payable rs b R : payableb rs b R = true → payable rs b R.
Proof.
  unfold payableb. intros [[[Hr He]%andb_prop Hp%N.leb_le]%andb_prop Hs%N.leb_le]%andb_prop. split; [| |done..].
  - intros k va Hva%elem_of_map_to_list. pose proof (forallb_in _ _ _ Hr Hva) as [x Hx]%bool_decide_eq_true. simpl in Hx. by rewrite Hx.
  - intros k vs a Hk. pose proof (forallb_in _ _ _ He (vote_entry_key _ _ _ Hk)) as Hb. unfold entry_okb in Hb. rewrite Hk in Hb.
    apply andb_prop in Hb as [Hc Hd%bool_decide_eq_true]. split; [|by right]. apply list.Forall_forall. intros x Hx.
    by apply N.leb_le, (forallb_in _ _ _ Hc).
Qed.
Lemma earning_allowed : all_allowed earning_ops ∅.
Proof. apply all_allowedb_allowed. vm_compute. reflexivity. Qed.
Lemma earning_run : run_ops earning_ops (None, stakes_default) = Ok (None, earning_end.2).
Proof. vm_compute. reflexivity. Qed.
Lemma reward_bank_of_ok s : run_ops earning_ops (None, stakes_default) = Ok (None, s) → bank_ok reward_settings (reward_bank_of s).
Proof.
  intros Hs. destruct (ops_exact earning_ops earning_allowed) as (rate & s' & Hr & He & Hm). rewrite Hs in Hr. injection Hr as <- <-.
  split; [exact He|exact Hm|reflexivity].
Qed.
Lemma reward_bank_ok : bank_ok reward_settings reward_bank.
Proof. exact (reward_bank_of_ok _ earning_run). Qed.

